(* ===== verification/_CoqProject ===== *)
-Q . S2P
Prelude.v
Align.v
Checksum.v
ChunkId.v
Codec.v
Pool.v
PoolLinks.v
PoolProofs.v
PoolBuddy.v
PoolState.v
PoolTheorems.v
FrameFormat.v
FrameDecode.v
FrameDecodeProofs.v
FrameBuilder.v
FrameBuilderProofs.v
FrameRoundtrip.v
FramePrepared.v
SegmentFormat.v
SegmentBuilder.v
SegmentProofs.v
SegmentFooter.v
SegmentIncremental.v
SegmentValidator.v
SegmentRecovery.v
SegmentWitness.v
Io.v
Index.v
PipelineState.v
Pipeline.v
PipelineTable.v
PipelineInv.v
PipelineLemmas.v
PipelineTrace.v
PipelineAdmit.v
PipelineComplete.v
PipelinePoll.v
PipelineSafe.v
PipelineWitness.v
Layout.v
LayoutProofs.v
Format.v
PipelineControl.v
EngineState.v
EngineRecovery.v
Engine.v
EngineInv.v
EngineRecoverySafe.v
EngineSafe.v
EngineDrive.v
EngineCalls.v
EngineMachine.v
EngineTheorems.v
EngineWitness.v
Placement.v
Catalog.v
CatalogInv.v
CatalogTheorems.v
StoreBudget.v
StoreWorker.v
StoreWorkerProofs.v
StoreDelivery.v
StoreGate.v
MemPolicy.v
MemLists.v
MemPolicyProofs.v
MemCache.v
MemShard.v
MemInv.v
MemMachine.v
MemTheorems.v
Envelope.v
Registry.v
RegistryInv.v
RegistryTheorems.v
Scheduler.v
SchedulerInv.v
SchedulerLaws.v
Hybrid.v
HybridTheorems.v
