(* ===== verification/Prelude.v ===== *)
(** * moat: a verification development

    moat stores chunks on block devices. Its storage engine
    (src/core/moat-engine) lays a device out as fixed-size segments; a segment
    is a sequence of checksummed frames, closed by a footer that repeats their
    metadata; an in-memory index maps a chunk to its newest record; and a
    queue-driven pipeline moves frames and ranges to and from the device. A
    cache is built on top: moat-cache keeps a catalog of the chunks it may hold
    on each disk, registers the keys in flight, orders its disk operations,
    wraps a record in an envelope and coordinates these with moat-cache-memory,
    a sharded resident cache; moat-cache-store gives it the disks, each owned by
    a worker thread that drives a session of the engine. This library models
    the engine and the parts of moat-common it uses, from the byte formats up to
    the device owner; of the cache the disk catalog, the memory cache, the
    registry, the scheduler, the envelope and the coordinator; of the store its
    gates, its budget, its workers and the delivery of their answers; and the
    placement of chunks on disks. It proves what each layer promises to the
    next.

    ** Conventions

    Machine integers are Z, with the wrap-around written out ([wrap32],
    [wrap64]); bytes are [Byte.byte]; a buffer is the list of its bytes. A
    fallible computation has type [res E A]: [Ok], [Err], or [Panic] for an
    index out of range, a failed [expect] or an [unreachable!]. Code that keeps
    its effects when it fails is a computation of Layout.v ([eff], with
    [runs] as its partial-correctness-free specification: a panic satisfies
    nothing). Loops that are not structural take fuel equal to a quantity the
    code itself bounds (the slots of the queue, the orders, the segments), and
    the theorems show that it suffices; in the memory cache running out of fuel
    is a panic, so that a step shown not to panic is shown to end. Code outside the repository is a class
    with its documented laws: the crc-fast library ([CrcFast]), the operating
    system file ([PosFile]), the block device ([Device], and [DeviceSpec] with its
    contents and what of them is durable); memory
    reservations are decided by a parameter [try_reserve], the size of a
    routing entry is the parameter [extent_bytes], and the pool takes the
    system's answers to mapping requests ([mmap], [madvise]) and the capacity
    that [Vec::with_capacity] gives ([capacity_of]); the hash table of the
    memory cache is the class [HashTable] with [HashTableLaws], whose closures
    may panic on the entries they are given, that of the registry the class [EntryTable] with [EntryTableLaws], and the random hash
    of the registry is the parameter [hash_one]; the platform's natural logarithm
    is the parameter [ln] of the placement; the waker of a task is the class
    [AtomicWaker] with [AtomicWakerLaws]; the answers of the store to the
    catalog, the keys a slab chooses, the identity of an allocation or of a
    channel and the future that completes next are arguments of the steps that
    receive them. Threads are interleaved at the accesses to what they share. The queue trait of the
    engine is the class [Queue] with its contract [QueueSpec], against which
    the pipeline and the owner are proved; FileQueue is an instance.

    ** Files

    - Prelude: results, integers, slices, sums, tactics and the hint database.
    - Align, Checksum, ChunkId (moat-common/src/align.rs,
      checksum.rs, chunk_id.rs), Codec (codec.rs): rounding, CRC32C by parts
      and by blocks with a reference implementation, identifiers, fields.
    - Pool (moat-common/src/arena.rs, pool.rs): the mapping policy of an arena
      and its lengths, the buddy allocator with its intrusive
      lists and bitmaps, and the buffer pool with its return stack.
      PoolLinks: the lists and bitmaps implement one set of blocks per order.
      PoolProofs, PoolBuddy: splitting, merging, parking and the
      initial decomposition. PoolState, PoolTheorems: the pool over its
      arenas, as a machine of allocations, drops and writes of the threads
      ([pool_run]).
    - FrameFormat, FrameDecode, FrameBuilder (frame/): headers, descriptors,
      untrusted decoding, building and encoding; proofs in
      FrameDecodeProofs, FrameBuilderProofs, FrameRoundtrip, FramePrepared.
    - SegmentFormat, SegmentBuilder, SegmentFooter, SegmentRecovery
      (segment/): allocation headers, append accounting, sealing at once and
      in steps, validation at once and in steps, the scanner; proofs also in
      SegmentProofs, SegmentIncremental, SegmentValidator, SegmentWitness.
    - Io (io/mod.rs, io/file.rs): requests, the queue contract, FileQueue.
    - Index, PipelineState, Pipeline (pipeline/): the index, the pipeline's
      state and every operation of it. PipelineTable, PipelineInv:
      the invariant. PipelineLemmas, PipelineTrace, PipelineAdmit,
      PipelineComplete, PipelinePoll: its preservation.
      PipelineSafe: the pipeline as a step relation ([reach]) and its
      theorems. PipelineControl: lifecycle requests are neither lost nor
      invented. PipelineWitness: concrete runs.
    - Layout, LayoutProofs, Format (engine/layout.rs, device.rs,
      error.rs): geometry, superblocks, and the formatter over any device.
    - EngineState, EngineRecovery, Engine (engine/completion.rs, lifecycle.rs,
      recovery.rs, mod.rs): jobs, every stage of recovery and of segment
      transitions, admission, views, polling, the blocking helpers.
      EngineInv: the owner's invariant. EngineRecoverySafe, EngineSafe,
      EngineDrive, EngineCalls: its preservation. EngineMachine: the owner as
      a step relation ([owner]). EngineTheorems, EngineWitness: its
      properties, and a device formatted, opened, written, closed and opened
      again.
    - Placement (moat-server/src/placement.rs): weighted rendezvous hashing in
      binary64 arithmetic; the winner, what a change of one disk moves, and a
      draw that should win and loses.
    - StoreBudget (moat-cache-store/src/budget.rs): the store's counters and
      every operation as the program of its accesses ([budget_run]).
    - StoreWorker (moat-cache-store/src/worker.rs, command.rs): the worker of a
      disk as a machine of the regions of its loop ([worker_step],
      [worker_run]). StoreWorkerProofs: its invariant, its properties, a run.
    - StoreDelivery (moat-cache-store/src/delivery.rs): the batches of answers,
      the task that runs them and the fallback without it ([delivery_run]); and
      the worker with its delivery, which tells the callers ([answering_run]).
    - StoreGate (moat-cache-store/src/store.rs): opening, and requests and
      fences at the gates of the disks ([gate_run]).
    - Catalog (moat-cache/src/catalog.rs): the chunks a disk may hold, their
      eviction order, and the reservations of writes in flight. CatalogInv:
      the order, the Sieve sweep and the invariant of a disk.
      CatalogTheorems: a disk as a machine of locked steps ([managed]).
    - MemPolicy (moat-cache-memory/src/policy.rs): the replacement policies
      over linked queues in a slab, the ghost history, the frequency sketch.
      MemLists: the links implement one list per queue; ghost and sketch.
      MemPolicyProofs: every operation of every policy.
    - MemCache (moat-cache-memory/src/cache.rs, entry.rs): shards, handles and
      the steps inside a shard lock. MemShard: a shard's invariant. MemInv: the
      shards together. MemMachine: the events of all threads, interleaved at
      the locks ([step], [run]), and the invariant of the machine.
      MemTheorems: its properties, and a run.
    - Envelope (moat-cache/src/envelope.rs): the record of one cache entry.
    - Registry (moat-cache/src/registry.rs): leases, generations and waiters of
      the keys in flight, and the threads, interleaved at the locks and
      counters ([key_step], [key_run]). RegistryInv: counters, tables, leases
      and the cells of the keys agree. RegistryTheorems: the machine's
      invariant and properties, and a run on tables that are lists. What the
      coordinator does under a lease when it accepts a mutation (cache.rs) is
      [begin_mutation].
    - Scheduler (moat-cache/src/scheduler.rs): the budget, the rounds of the
      coordinator's loop, and the loop with its callers ([sched_step],
      [sched_run]). SchedulerInv: where every job is. SchedulerLaws: the
      properties, and the run of the source's test.
    - Hybrid (moat-cache/src/cache.rs): the coordinator as a machine whose
      steps lie between two accesses to what callers and jobs share
      ([cache_step], [cache_run]). Memory, catalog, registry, scheduler and
      store appear as what their own theorems promise. HybridTheorems: its
      invariant, its properties and a run.

    ** What the theorems show

    - Formats: frames, prepared frames, allocation headers, footers and
      superblocks decode to what was encoded; decoders of untrusted bytes
      return on every input and accept only well-formed values; the cheap
      admission bound, the incremental footer encoder and the stepwise
      validator agree with their direct counterparts.
    - Recovery of a segment: the scanner finds exactly the appended frames of
      an active segment and ends there without an error, unless a frame of
      another format version follows; it ends a sealed one only at its sealed boundary, and
      what it recovers can be appended again.
    - Index: publication keeps the newest version of every key, in any order.
    - Pipeline: over any queue that keeps its contract no call panics; a
      successful flush covers every earlier write; writes that complete by
      themselves do so in order and never succeed behind a failure, and when
      the queue fails the rest fail behind them, in the order of their slots;
      every ticket completes once, also when the queue fails; limits hold.
    - Formatter: a successful format leaves the returned geometry in both
      superblocks and every slot blank, durably if it syncs, in an epoch no older data can belong to;
      a refused one leaves the device alone.
    - Owner: no request panics in any state an owner can reach, through every
      stage of opening, rolling over, sealing and closing; its data history is
      a history of its pipeline, so the pipeline's contracts hold through it;
      every lifecycle request is reported once; slots are allocated once and
      in order; a failed queue ends the running job; closing is final; the
      version cursor lists every version.
    - Buffer pool: the home thread allocates and any thread releases without a
      panic, an allocation elsewhere is the documented one; buffers in use never overlap and are aligned to their
      class, no byte of an arena is lost, the intrusive lists and bitmaps
      implement the sets of free blocks, and an allocation fails only when
      no block of its class is free.
    - Disk catalog: whatever interleaves, the chunks held and those being
      written stay within a disk's limits, a chunk is never evicted while it is
      written, the bounded Sieve sweep finds the victim of the unbounded one,
      and trimming ends.
    - Memory cache: no interleaving of its critical sections panics, no index
      entry names a vacant record and every loop ends; a hit returns the last version committed under its key; the
      weights stay within the capacity but for pinned LRU versions, each of
      which somebody holds; counters, flags and reference counts are exact.
    - Envelope: decoding accepts exactly what encoding writes.
    - Registry: leases and key bytes stay within their limits; a fill token is
      valid exactly until the next mutation of its key is accepted; no waiter
      is forgotten.
    - Scheduler: jobs on one chunk, and jobs with a fence between them, run in
      the order they were sent; a job waits for nothing else; every job sent
      is done within three turns per job; permits are counted exactly.
    - Hybrid cache: a hit is what the last successful mutation of its key
      left, and none is undecided; no step panics; a fence that succeeds covers
      every mutation accepted before it.
    - Store: however the accesses to the budget interleave, no counter leaves
      its limits and the counters are worth what is held. No step of a worker
      panics; every command is answered once; the answers of a chunk are decided
      in the order of its commands, and told in that order but for those left
      to a completion executor, which later ones sent on the spot may overtake;
      a fence that succeeds covers everything before it. The fences of
      one flush are one cut through all disks, and the gates never deadlock.
      Answers run in order and once, whoever runs them, and no wake-up is lost.
    - Placement: the winner is the first of the highest scores; changing a
      disk moves only its own chunks.

    ** Not modelled

    The io_uring queue (kernel memory; the queue contract covers it), heap
    buffers (buf.rs), the addresses behind the pool's return stack (a release
    away from home is one atomic push), the freeing of cached records, the
    moment between the store's write and the catalog's commit in a job of the
    hybrid cache (one step) and between closing its admission and its registry
    (one flag), the opening and the statistics of the hybrid cache, the store's statistics and
    the shared chunk of a read (moat-cache-store/src/request.rs), the server,
    and the benchmarks. *)

From stdpp Require Export base numbers list option strings.
From Stdlib Require Export ZArith Lia.
From Stdlib Require Import Sorted.
From coqutil Require Export Byte.
From coqutil Require Export Word.LittleEndianList.

#[export] Set Default Goal Selector "!".
#[export] Set Warnings "-clear-no-such-hyp".
#[global] Open Scope Z_scope.
#[global] Open Scope list_scope.

(** ** Results of fallible code

    [Ok] and [Err] are Rust's [Result]; [Panic] is what a slice index out of
    range, a failed [expect], or an [unreachable!] does. *)

Inductive res (E A : Type) : Type :=
| Ok (a : A)
| Err (e : E)
| Panic.
Arguments Ok {E A} a.
Arguments Err {E A} e.
Arguments Panic {E A}.

Definition rbind {E A B} (m : res E A) (k : A -> res E B) : res E B :=
  match m with
  | Ok a => k a
  | Err e => Err e
  | Panic => Panic
  end.

Definition map_err {E F A} (f : E -> F) (m : res E A) : res F A :=
  match m with
  | Ok a => Ok a
  | Err e => Err (f e)
  | Panic => Panic
  end.

(** [Option::ok_or] and [Option::expect]. *)
Definition ok_or {E A} (o : option A) (e : E) : res E A :=
  match o with Some a => Ok a | None => Err e end.
Definition expect {E A} (o : option A) : res E A :=
  match o with Some a => Ok a | None => Panic end.

(** [if cond { return Err(e) }]. *)
Definition fail_if {E} (c : bool) (e : E) : res E unit := if c then Err e else Ok tt.

Declare Scope moat_scope.
Delimit Scope moat_scope with moat.
Notation "'let?' x ':=' m 'in' k" := (rbind m (fun x => k))
  (at level 10, x pattern, m at level 100, k at level 200,
   format "'let?'  x  ':='  m  'in' '//' k") : moat_scope.
Notation "m ';?' k" := (rbind m (fun _ => k))
  (at level 100, right associativity, format "m ';?' '//' k") : moat_scope.
#[global] Open Scope moat_scope.

(** A computation that does not panic. *)
Definition safe {E A} (m : res E A) : Prop := m <> Panic.

Section Results.
Context {E A B : Type}.

Lemma rbind_Ok_inv (m : res E A) (k : A -> res E B) b :
  rbind m k = Ok b -> exists a, m = Ok a /\ k a = Ok b.
Proof. destruct m; simpl; intros; try discriminate; eauto. Qed.

Lemma safe_Ok (a : A) : safe (Ok a : res E A).
Proof. discriminate. Qed.

Lemma safe_Err (e : E) : safe (Err e : res E A).
Proof. discriminate. Qed.

Lemma safe_rbind (m : res E A) (k : A -> res E B) :
  safe m -> (forall a, m = Ok a -> safe (k a)) -> safe (rbind m k).
Proof. destruct m; simpl; intros Hm Hk; auto; [discriminate | congruence]. Qed.

Lemma safe_ok_or (o : option A) (e : E) : safe (ok_or o e).
Proof. destruct o; unfold safe; simpl; discriminate. Qed.

Lemma safe_if (c : bool) (m n : res E A) : safe m -> safe n -> safe (if c then m else n).
Proof. destruct c; auto. Qed.

Lemma safe_fail_if (c : bool) (e : E) : safe (fail_if c e).
Proof. destruct c; unfold safe; simpl; discriminate. Qed.

Lemma fail_if_Ok (c : bool) (e : E) u : fail_if c e = Ok u -> c = false.
Proof. destruct c; [discriminate | reflexivity]. Qed.

Lemma ok_or_Ok (o : option A) (e : E) a : ok_or o e = Ok a -> o = Some a.
Proof. destruct o; simpl; congruence. Qed.
End Results.

Lemma safe_map_err {E F A} (f : E -> F) (m : res E A) : safe m -> safe (map_err f m).
Proof. destruct m; unfold safe; simpl; auto; discriminate. Qed.

Lemma map_err_Ok {E F A} (f : E -> F) (m : res E A) a : map_err f m = Ok a -> m = Ok a.
Proof. destruct m; simpl; congruence. Qed.

Create HintDb moat.
#[export] Hint Resolve safe_Ok safe_Err safe_ok_or safe_fail_if safe_map_err : moat.

(** Turns [m1; m2; ... = Ok r] into the facts of the successful run. *)
Ltac inv_ok :=
  repeat match goal with
  | H : rbind _ _ = Ok _ |- _ =>
      let a := fresh "r" in let Ha := fresh "Hr" in
      apply rbind_Ok_inv in H as [a [Ha H]]
  | H : fail_if _ _ = Ok _ |- _ => apply fail_if_Ok in H
  | H : ok_or _ _ = Ok _ |- _ => apply ok_or_Ok in H
  | H : map_err _ _ = Ok _ |- _ => apply map_err_Ok in H
  | H : Ok _ = Ok _ |- _ => injection H as H
  | H : Err _ = Ok _ |- _ => discriminate H
  | H : Panic = Ok _ |- _ => discriminate H
  end.

(** Linear arithmetic with division and remainder. *)
Ltac dlia := Z.to_euclidean_division_equations; lia.

(** Boolean guards of the source as propositions. *)
Ltac boolp :=
  repeat match goal with
  | H : (_ || _)%bool = false |- _ => apply orb_false_iff in H as [? ?]
  | H : (_ && _)%bool = true |- _ => apply andb_true_iff in H as [? ?]
  | H : negb _ = true |- _ => apply negb_true_iff in H
  | H : negb _ = false |- _ => apply negb_false_iff in H
  | H : (_ <? _) = true |- _ => apply Z.ltb_lt in H
  | H : (_ <? _) = false |- _ => apply Z.ltb_ge in H
  | H : (_ <=? _) = true |- _ => apply Z.leb_le in H
  | H : (_ <=? _) = false |- _ => apply Z.leb_gt in H
  | H : (_ >? _) = true |- _ => rewrite Z.gtb_ltb in H
  | H : (_ >? _) = false |- _ => rewrite Z.gtb_ltb in H
  | H : (_ >=? _) = true |- _ => rewrite Z.geb_leb in H
  | H : (_ >=? _) = false |- _ => rewrite Z.geb_leb in H
  | H : (_ =? _) = true |- _ => apply Z.eqb_eq in H
  | H : (_ =? _) = false |- _ => apply Z.eqb_neq in H
  end.

(** Closes a guard that evaluates to [false] (or [true]) by arithmetic. *)
Ltac decide_guard :=
  repeat match goal with
  | |- (_ || _)%bool = false => apply orb_false_intro
  | |- (_ && _)%bool = true => apply andb_true_intro; split
  | |- negb _ = false => apply negb_false_iff
  | |- negb _ = true => apply negb_true_iff
  end;
  first
    [ assumption | reflexivity
    | apply Z.eqb_eq; lia | apply Z.eqb_neq; lia | apply Z.ltb_lt; lia | apply Z.ltb_ge; lia
    | apply Z.leb_le; lia | apply Z.leb_gt; lia
    | rewrite Z.gtb_ltb; apply Z.ltb_lt; lia | rewrite Z.gtb_ltb; apply Z.ltb_ge; lia
    | rewrite Z.geb_leb; apply Z.leb_le; lia | rewrite Z.geb_leb; apply Z.leb_gt; lia ].

(** ** Machine integers

    A w-bit integer is a [Z]; a cast or an operation that can overflow wraps.
    [usize] is 64 bits wide. *)

Definition wrap32 (x : Z) : Z := x mod 2 ^ 32.
Definition wrap64 (x : Z) : Z := x mod 2 ^ 64.
Definition U32_MAX : Z := 2 ^ 32 - 1.
Definition U64_MAX : Z := 2 ^ 64 - 1.
Definition I32_MAX : Z := 2 ^ 31 - 1.

Definition is_u32 (x : Z) : Prop := 0 <= x < 2 ^ 32.
Definition is_u64 (x : Z) : Prop := 0 <= x < 2 ^ 64.

(** [a.saturating_sub(b)], [a.saturating_add(b)], [a.div_ceil(b)] on u64. *)
Definition saturating_sub (a b : Z) : Z := if a <? b then 0 else a - b.
Definition saturating_add (a b : Z) : Z := Z.min (a + b) U64_MAX.
Definition div_ceil (a b : Z) : Z := if a mod b =? 0 then a / b else a / b + 1.

(** [a.checked_add(b)] on u64. *)
Definition checked_add (a b : Z) : option Z := if a + b <=? U64_MAX then Some (a + b) else None.

Lemma wrap32_small x : is_u32 x -> wrap32 x = x.
Proof. apply Z.mod_small. Qed.
Lemma wrap64_small x : is_u64 x -> wrap64 x = x.
Proof. apply Z.mod_small. Qed.
Lemma wrap32_range x : is_u32 (wrap32 x).
Proof. apply Z.mod_pos_bound. lia. Qed.
Lemma wrap64_range x : is_u64 (wrap64 x).
Proof. apply Z.mod_pos_bound. lia. Qed.
#[export] Hint Resolve wrap32_range wrap64_range : moat.

(** [usize::trailing_zeros] and [next_power_of_two] of positive values. *)
Definition trailing_zeros (n : Z) : Z := Z.log2 (Z.land n (- n)).
Definition next_power_of_two (n : Z) : Z := 2 ^ Z.log2_up n.
Definition is_power_of_two (n : Z) : bool := (0 <? n) && (2 ^ Z.log2 n =? n).

(** Code without errors of its own, or with one. *)
Abbreviation steps := (res unit).

Lemma div_ceil_spec a b :
  0 <= a -> 0 < b -> a <= b * div_ceil a b < a + b.
Proof.
  intros Ha Hb. unfold div_ceil. pose proof (Z.div_mod a b ltac:(lia)).
  pose proof (Z.mod_pos_bound a b Hb). destruct (Z.eqb_spec (a mod b) 0); nia.
Qed.

(** ** Byte slices *)

Definition len {A} (l : list A) : Z := Z.of_nat (length l).

Definition sub {A} (l : list A) (a b : Z) : list A := take (Z.to_nat (b - a)) (drop (Z.to_nat a) l).

(** [l[i]] and [l[i] = v], which panic out of range. *)
Definition index_get {E A} (l : list A) (i : Z) : res E A := if 0 <=? i then expect (l !! Z.to_nat i) else Panic.
Definition index_set {E A} (l : list A) (i : Z) (v : A) : res E (list A) :=
  if (0 <=? i) && (i <? len l) then Ok (<[Z.to_nat i := v]> l) else Panic.

(** [&l[a..b]], which panics out of range, and [l.get(..n)]. *)
Definition slice {E A} (l : list A) (a b : Z) : res E (list A) :=
  if (0 <=? a) && (a <=? b) && (b <=? len l) then Ok (sub l a b) else Panic.
Definition get_to {A} (l : list A) (n : Z) : option (list A) :=
  if n <=? len l then Some (sub l 0 n) else None.

(** [l[at..at + src.len()].copy_from_slice(src)]. *)
Definition splice {A} (l : list A) (at_ : Z) (src : list A) : list A :=
  take (Z.to_nat at_) l ++ src ++ drop (Z.to_nat (at_ + len src)) l.
Definition copy_at {E A} (l : list A) (at_ : Z) (src : list A) : res E (list A) :=
  if (0 <=? at_) && (at_ + len src <=? len l) then Ok (splice l at_ src) else Panic.

Definition zeros (n : Z) : list byte := replicate (Z.to_nat n) Byte.x00.

(** [l[a..b].fill(0)]. *)
Definition fill0 {E} (l : list byte) (a b : Z) : res E (list byte) :=
  if (0 <=? a) && (a <=? b) && (b <=? len l) then Ok (splice l a (zeros (b - a))) else Panic.

(** [f(&mut l[a..b])] for an [f] that rewrites the slice in place. *)
Definition on_slice {E} (l : list byte) (a b : Z) (f : list byte -> res E (list byte))
  : res E (list byte) :=
  let? s := slice l a b in
  let? s' := f s in
  copy_at l a s'.

(** [bytes.iter().any(|b| b != 0)]. *)
Definition any_nonzero (l : list byte) : bool := existsb (fun b => negb (byte.unsigned b =? 0)) l.

Section Slices.
Context {A : Type}.
Implicit Types (l s : list A) (a b c d : Z).

Lemma len_nonneg l : 0 <= len l.
Proof. unfold len. lia. Qed.

Lemma len_app l s : len (l ++ s) = len l + len s.
Proof. unfold len. rewrite length_app. lia. Qed.

Lemma len_nil : len ([] : list A) = 0.
Proof. reflexivity. Qed.

Lemma len_cons (x : A) l : len (x :: l) = 1 + len l.
Proof. unfold len. simpl. lia. Qed.

Lemma len_sub l a b : 0 <= a <= b -> b <= len l -> len (sub l a b) = b - a.
Proof. unfold len, sub. intros. rewrite length_take, length_drop. lia. Qed.

Lemma lookup_sub l a b i :
  0 <= a -> sub l a b !! i = if Z.of_nat i <? b - a then l !! (Z.to_nat a + i)%nat else None.
Proof.
  intros Ha. unfold sub. destruct (Z.ltb_spec (Z.of_nat i) (b - a)).
  - rewrite lookup_take_lt by lia. apply lookup_drop.
  - apply lookup_take_ge. lia.
Qed.

Lemma lookup_splice l at_ s i :
  0 <= at_ -> at_ + len s <= len l ->
  splice l at_ s !! i =
    if Z.of_nat i <? at_ then l !! i
    else if Z.of_nat i <? at_ + len s then s !! (i - Z.to_nat at_)%nat else l !! i.
Proof.
  unfold len, splice. intros H0 H1.
  destruct (Z.ltb_spec (Z.of_nat i) at_).
  { rewrite lookup_app_l by (rewrite length_take; lia). apply lookup_take_lt. lia. }
  rewrite lookup_app_r by (rewrite length_take; lia). rewrite length_take.
  replace (Z.to_nat at_ `min` length l)%nat with (Z.to_nat at_) by lia.
  destruct (Z.ltb_spec (Z.of_nat i) (at_ + Z.of_nat (length s))).
  - apply lookup_app_l. lia.
  - rewrite lookup_app_r by lia. rewrite lookup_drop. f_equal. unfold len. lia.
Qed.

Lemma len_splice l at_ s : 0 <= at_ -> at_ + len s <= len l -> len (splice l at_ s) = len l.
Proof. unfold len, splice. intros. rewrite !length_app, length_take, length_drop. unfold len. lia. Qed.

Lemma sub_all l : sub l 0 (len l) = l.
Proof. unfold sub, len. rewrite drop_0. apply take_ge. lia. Qed.

Lemma sub_empty l a : sub l a a = [].
Proof. unfold sub. rewrite Z.sub_diag. reflexivity. Qed.

Lemma sub_eq_pointwise l l' a b a' b' :
  0 <= a -> 0 <= a' -> b - a = b' - a' ->
  (forall i, 0 <= Z.of_nat i < b - a -> l !! (Z.to_nat a + i)%nat = l' !! (Z.to_nat a' + i)%nat) ->
  sub l a b = sub l' a' b'.
Proof.
  intros Ha Ha' Hb H. apply list_eq. intros i. rewrite !lookup_sub, <- Hb by lia.
  destruct (Z.ltb_spec (Z.of_nat i) (b - a)); [apply H; lia | reflexivity].
Qed.

Lemma sub_sub l a b c d :
  0 <= a -> 0 <= c -> a + d <= b -> sub (sub l a b) c d = sub l (a + c) (a + d).
Proof.
  intros. apply sub_eq_pointwise; [lia..|]. intros i Hi. rewrite lookup_sub by lia.
  destruct (Z.ltb_spec (Z.of_nat (Z.to_nat c + i)) (b - a)); [f_equal; lia | lia].
Qed.

Lemma sub_app_l l s a b : 0 <= a -> b <= len l -> sub (l ++ s) a b = sub l a b.
Proof.
  intros. apply sub_eq_pointwise; [lia..|]. intros i Hi. apply lookup_app_l. unfold len in *. lia.
Qed.

Lemma sub_app_r l s a b : len l <= a -> sub (l ++ s) a b = sub s (a - len l) (b - len l).
Proof.
  intros. pose proof (len_nonneg l). apply sub_eq_pointwise; [lia..|]. intros i Hi.
  unfold len in *. rewrite lookup_app_r by lia. f_equal. lia.
Qed.

Lemma sub_splice_before l at_ s a b :
  0 <= a -> b <= at_ -> at_ + len s <= len l -> sub (splice l at_ s) a b = sub l a b.
Proof.
  intros. destruct (Z.le_gt_cases b a).
  { unfold sub. replace (Z.to_nat (b - a)) with 0%nat by lia. reflexivity. }
  apply sub_eq_pointwise; [lia..|]. intros i Hi. rewrite lookup_splice by lia.
  destruct (Z.ltb_spec (Z.of_nat (Z.to_nat a + i)) at_); [reflexivity | lia].
Qed.

Lemma sub_splice_after l at_ s a b :
  0 <= at_ -> at_ + len s <= a -> at_ + len s <= len l -> sub (splice l at_ s) a b = sub l a b.
Proof.
  intros. pose proof (len_nonneg s). apply sub_eq_pointwise; [lia..|]. intros i Hi. rewrite lookup_splice by lia.
  destruct (Z.ltb_spec (Z.of_nat (Z.to_nat a + i)) at_); [lia |].
  destruct (Z.ltb_spec (Z.of_nat (Z.to_nat a + i)) (at_ + len s)); [lia | reflexivity].
Qed.

Lemma sub_splice_inside l at_ s a b :
  0 <= at_ <= a -> b <= at_ + len s -> at_ + len s <= len l ->
  sub (splice l at_ s) a b = sub s (a - at_) (b - at_).
Proof.
  intros. apply sub_eq_pointwise; [lia..|]. intros i Hi. rewrite lookup_splice by lia.
  destruct (Z.ltb_spec (Z.of_nat (Z.to_nat a + i)) at_); [lia |].
  destruct (Z.ltb_spec (Z.of_nat (Z.to_nat a + i)) (at_ + len s)); [f_equal; lia | lia].
Qed.

Lemma sub_splice_same l at_ s b :
  0 <= at_ -> b = at_ + len s -> b <= len l -> sub (splice l at_ s) at_ b = s.
Proof.
  intros. subst b. rewrite sub_splice_inside by lia.
  replace (at_ - at_) with 0 by lia. replace (at_ + len s - at_) with (len s) by lia. apply sub_all.
Qed.

Lemma sub_split l a b c : 0 <= a <= b -> b <= c -> sub l a c = sub l a b ++ sub l b c.
Proof.
  intros. unfold sub.
  replace (Z.to_nat (c - a)) with (Z.to_nat (b - a) + Z.to_nat (c - b))%nat by lia.
  rewrite <- take_take_drop, drop_drop. do 3 f_equal. lia.
Qed.

Lemma slice_Ok {E} l a b : 0 <= a <= b -> b <= len l -> slice l a b = @Ok E _ (sub l a b).
Proof.
  intros. unfold slice. rewrite !(proj2 (Z.leb_le _ _)) by lia. reflexivity.
Qed.

Lemma slice_inv {E} l a b r : slice l a b = @Ok E _ r -> 0 <= a <= b /\ b <= len l /\ r = sub l a b.
Proof.
  unfold slice. destruct (0 <=? a) eqn:?, (a <=? b) eqn:?, (b <=? len l) eqn:?; simpl; try discriminate.
  intros [= <-]. boolp. auto.
Qed.

Lemma get_to_Some l n r : get_to l n = Some r -> n <= len l /\ r = sub l 0 n.
Proof. unfold get_to. destruct (Z.leb_spec n (len l)); intros [=]; auto. Qed.

Lemma get_to_Ok l n : n <= len l -> get_to l n = Some (sub l 0 n).
Proof. intros. unfold get_to. rewrite (proj2 (Z.leb_le _ _)) by lia. reflexivity. Qed.

Lemma copy_at_Ok {E} l at_ s : 0 <= at_ -> at_ + len s <= len l -> copy_at l at_ s = @Ok E _ (splice l at_ s).
Proof. intros. unfold copy_at. rewrite !(proj2 (Z.leb_le _ _)) by lia. reflexivity. Qed.

Lemma copy_at_inv {E} l at_ s r :
  copy_at l at_ s = @Ok E _ r -> 0 <= at_ /\ at_ + len s <= len l /\ r = splice l at_ s.
Proof.
  unfold copy_at. destruct (0 <=? at_) eqn:?, (at_ + len s <=? len l) eqn:?; simpl; try discriminate.
  intros [= <-]. boolp. auto.
Qed.

Lemma splice_app l1 l2 l3 s : len s = len l2 -> splice (l1 ++ l2 ++ l3) (len l1) s = l1 ++ s ++ l3.
Proof.
  intros H. unfold splice, len in *. rewrite Nat2Z.id, take_app_length. f_equal. f_equal.
  replace (Z.to_nat _) with (length l1 + length l2)%nat by lia.
  rewrite <- drop_drop, drop_app_length. apply drop_app_length.
Qed.

Lemma splice_front l r s : len s = len l -> splice (l ++ r) 0 s = s ++ r.
Proof. intros H. exact (splice_app [] l r s H). Qed.

Lemma splice_whole l s : len s = len l -> splice l 0 s = s.
Proof. intros H. pose proof (splice_front l [] s H) as Hs. rewrite !app_nil_r in Hs. assumption. Qed.

(** Writing two adjacent pieces is writing their concatenation. *)
Lemma splice_adjacent l at_ s1 s2 :
  0 <= at_ -> at_ + len s1 + len s2 <= len l ->
  splice (splice l at_ s1) (at_ + len s1) s2 = splice l at_ (s1 ++ s2).
Proof.
  intros. pose proof (len_nonneg s1). pose proof (len_nonneg s2). apply list_eq. intros i.
  rewrite !lookup_splice by (rewrite ?len_splice, ?len_app; lia). rewrite len_app.
  destruct (Z.ltb_spec (Z.of_nat i) (at_ + len s1)); destruct (Z.ltb_spec (Z.of_nat i) at_);
    destruct (Z.ltb_spec (Z.of_nat i) (at_ + len s1 + len s2));
    destruct (Z.ltb_spec (Z.of_nat i) (at_ + (len s1 + len s2))); try lia; try reflexivity; unfold len in *.
  - rewrite lookup_app_l by lia. reflexivity.
  - rewrite lookup_app_r by lia. f_equal. lia.
Qed.

Lemma splice_nil l at_ : 0 <= at_ -> splice l at_ [] = l.
Proof. intros. unfold splice. rewrite len_nil, Z.add_0_r. apply take_drop. Qed.

Lemma splice_app_left l r at_ s :
  0 <= at_ -> at_ + len s <= len l -> splice (l ++ r) at_ s = splice l at_ s ++ r.
Proof.
  intros. unfold splice, len in *. rewrite take_app_le, drop_app_le by lia.
  rewrite <- !app_assoc. reflexivity.
Qed.

Lemma sub_all_split l a : 0 <= a <= len l -> sub l 0 a ++ sub l a (len l) = l.
Proof. intros. rewrite <- sub_split by lia. apply sub_all. Qed.
End Slices.

Lemma len_zeros n : 0 <= n -> len (zeros n) = n.
Proof. unfold len, zeros. rewrite length_replicate. lia. Qed.

Lemma sub_zeros n a b : 0 <= a <= b -> b <= n -> sub (zeros n) a b = zeros (b - a).
Proof.
  intros. unfold sub, zeros. rewrite drop_replicate, take_replicate. f_equal. lia.
Qed.

Lemma zeros_app n m : 0 <= n -> 0 <= m -> zeros (n + m) = zeros n ++ zeros m.
Proof. intros. unfold zeros. rewrite <- replicate_add. f_equal. lia. Qed.

Lemma any_nonzero_zeros n : any_nonzero (zeros n) = false.
Proof. unfold any_nonzero, zeros. induction (Z.to_nat n); simpl; auto. Qed.

Lemma any_nonzero_false l : any_nonzero l = false -> l = zeros (len l).
Proof.
  unfold zeros, len. rewrite Nat2Z.id. induction l as [|x l IH]; simpl; [reflexivity|].
  intros H. boolp. f_equal; [|auto]. apply byte.unsigned_inj. assumption.
Qed.

Lemma any_nonzero_app l s : any_nonzero (l ++ s) = any_nonzero l || any_nonzero s.
Proof. apply existsb_app. Qed.

Lemma fill0_Ok {E} l a b :
  0 <= a <= b -> b <= len l -> fill0 l a b = @Ok E _ (splice l a (zeros (b - a))).
Proof. intros. unfold fill0. rewrite !(proj2 (Z.leb_le _ _)) by lia. reflexivity. Qed.

Lemma len_le_split n v : len (le_split n v) = Z.of_nat n.
Proof. unfold len. rewrite length_le_split. reflexivity. Qed.

Lemma le_combine_range l n : len l = n -> 0 <= le_combine l < 2 ^ (8 * n).
Proof. intros <-. apply le_combine_bound. Qed.

Create Rewrite HintDb moat_len.
#[export] Hint Rewrite @len_app @len_cons @len_nil len_le_split : moat_len.
#[export] Hint Rewrite @len_sub @len_splice len_zeros using lia : moat_len.

(** ** Sums over lists

    What the shards of a structure count together. *)

Definition total {A} (f : A -> Z) (l : list A) : Z := foldr (fun a n => f a + n) 0 l.

Lemma total_insert {A} (f : A -> Z) l : forall i a b, l !! i = Some a -> total f (<[i := b]> l) = total f l - f a + f b.
Proof.
  induction l as [|y l IH]; intros i a b Hi; [discriminate|]. destruct i as [|i]; [injection Hi as ->; cbn; lia|]. change (total f (<[S i := b]> (y :: l))) with (f y + total f (<[i := b]> l)). rewrite (IH i a b Hi). cbn. fold (total f l). lia.
Qed.

Section Sums.
Context {A : Type}.
Implicit Types (f g : A -> Z) (l : list A).

Lemma total_cons f x l : total f (x :: l) = f x + total f l.
Proof. reflexivity. Qed.

Lemma total_concat f l l' : total f (l ++ l') = total f l + total f l'.
Proof. induction l as [|x l IH]; [reflexivity|]. cbn [app]. rewrite !total_cons, IH. lia. Qed.

Lemma total_snoc f l x : total f (l ++ [x]) = total f l + f x.
Proof. rewrite total_concat, total_cons. cbn. lia. Qed.

#[export] Instance total_perm f : Proper (Permutation ==> eq) (total f).
Proof. intros l l' P. induction P; rewrite ?total_cons; lia. Qed.

Lemma total_map {B} (h : B -> A) f (l : list B) : total f (map h l) = total (fun b => f (h b)) l.
Proof. induction l as [|x l IH]; [reflexivity|]. cbn [map]. rewrite !total_cons, IH. reflexivity. Qed.

Lemma total_nonneg f l : (forall x, x ∈ l -> 0 <= f x) -> 0 <= total f l.
Proof. induction l as [|x l IH]; intros Hf; [reflexivity|]. rewrite total_cons. assert (0 <= f x) by (apply Hf; constructor). assert (0 <= total f l) by (apply IH; intros; apply Hf; constructor; assumption). lia. Qed.

Lemma total_le f g l : (forall x, x ∈ l -> f x <= g x) -> total f l <= total g l.
Proof. induction l as [|x l IH]; intros Hf; [reflexivity|]. rewrite !total_cons. assert (f x <= g x) by (apply Hf; constructor). assert (total f l <= total g l) by (apply IH; intros; apply Hf; constructor; assumption). lia. Qed.

Lemma total_ext f g l : (forall x, x ∈ l -> f x = g x) -> total f l = total g l.
Proof. intros Hf. apply Z.le_antisymm; apply total_le; intros x Hx; rewrite (Hf x Hx); reflexivity. Qed.

Lemma total_zero f l : (forall x, x ∈ l -> f x = 0) -> total f l = 0.
Proof. induction l as [|x l IH]; intros Hf; [reflexivity|]. rewrite total_cons, (Hf x) by constructor. apply IH. intros y Hy. apply Hf. constructor. assumption. Qed.

Lemma total_member f l x : (forall y, y ∈ l -> 0 <= f y) -> x ∈ l -> f x <= total f l.
Proof.
  intros Hf Hx. apply list_elem_of_split in Hx as (l1 & l2 & ->). rewrite total_concat, total_cons.
  assert (0 <= total f l1) by (apply total_nonneg; intros y Hy; apply Hf, elem_of_app; auto). assert (0 <= total f l2) by (apply total_nonneg; intros y Hy; apply Hf, elem_of_app; right; constructor; assumption). lia.
Qed.

Lemma total_lookup f l i x : (forall y, y ∈ l -> 0 <= f y) -> l !! i = Some x -> f x <= total f l.
Proof. intros Hf Hi. apply total_member; [assumption|]. apply list_elem_of_lookup. eauto. Qed.

Lemma total_positive f l : 0 < total f l -> exists i x, l !! i = Some x /\ 0 < f x.
Proof.
  induction l as [|x l IH]; [cbn; lia|]. rewrite total_cons. intros Hp. destruct (Z.lt_ge_cases 0 (f x)) as [Hx|Hx]; [exists 0%nat, x; auto|]. destruct IH as (i & y & Hi & Hy); [lia|]. exists (S i), y. auto.
Qed.

(** Two places of the list. *)
Lemma total_lookup2 f l i j x y : (forall z, z ∈ l -> 0 <= f z) -> i <> j -> l !! i = Some x -> l !! j = Some y -> f x + f y <= total f l.
Proof.
  intros Hf Hij Hi Hj. apply list_elem_of_lookup_2 in Hj as Hy. pose proof (Hf y Hy). apply list_elem_of_split_length in Hi as (l1 & l2 & -> & ->).
  assert (Hin : y ∈ l1 ++ l2).
  { destruct (decide (j < length l1)%nat) as [Hlt|Hge]; [rewrite lookup_app_l in Hj by assumption; apply elem_of_app; left; apply list_elem_of_lookup; eauto|].
    rewrite lookup_app_r in Hj by lia. destruct (j - length l1)%nat as [|k] eqn:Ek; [lia|]. cbn in Hj. apply elem_of_app. right. apply list_elem_of_lookup. eauto. }
  rewrite total_concat, total_cons. rewrite <- (Z.add_comm (f y)). assert (Ht : f y <= total f (l1 ++ l2)) by (apply total_member; [|assumption]; intros z Hz; apply Hf; apply elem_of_app in Hz as [Hz|Hz]; apply elem_of_app; [left|right; constructor]; assumption). rewrite total_concat in Ht. lia.
Qed.
End Sums.

(** ** Sorted lists *)

Lemma sorted_nodup (l : list Z) : StronglySorted Z.lt l -> NoDup l.
Proof. intros H. induction H as [|y l H IH Hall]; constructor; [|exact IH]. intros Hin. rewrite Forall_forall in Hall. specialize (Hall y Hin). lia. Qed.
