(* ===== verification/Align.v ===== *)
(** * Page alignment helpers (moat-common/src/align.rs)

    The bit tricks of [align_up], [align_down] and [is_aligned] on 64-bit
    words, and their arithmetic meaning for power-of-two alignments. *)

From S2P Require Import Prelude.

Definition PAGE_SIZE : Z := 4096.

(** [!x] on u64. *)
Definition not64 (x : Z) : Z := 2 ^ 64 - 1 - x.

Definition align_up (value align : Z) : Z :=
  Z.land (wrap64 (value + align - 1)) (not64 (align - 1)).

Definition align_down (value align : Z) : Z := Z.land value (not64 (align - 1)).

Definition is_aligned (value align : Z) : bool := Z.land value (align - 1) =? 0.

Lemma land_high_mask x k :
  0 <= k <= 64 -> is_u64 x -> Z.land x (not64 (2 ^ k - 1)) = x / 2 ^ k * 2 ^ k.
Proof.
  unfold is_u64, not64. intros Hk Hx.
  replace (2 ^ 64 - 1 - (2 ^ k - 1)) with (Z.shiftl (Z.ones (64 - k)) k).
  2:{ rewrite Z.shiftl_mul_pow2, Z.ones_equiv by lia. unfold Z.pred.
      rewrite Z.mul_add_distr_r, <- Z.pow_add_r by lia. replace (64 - k + k) with 64 by lia. lia. }
  rewrite <- Z.shiftr_div_pow2, <- Z.shiftl_mul_pow2 by lia.
  apply Z.bits_inj'. intros i Hi. rewrite Z.land_spec, !Z.shiftl_spec by lia.
  destruct (Z.ltb_spec i k).
  { rewrite !(Z.testbit_neg_r _ (i - k)) by lia. apply andb_false_r. }
  rewrite Z.shiftr_spec, Z.testbit_ones by lia. replace (i - k + k) with i by lia.
  destruct (Z.ltb_spec i 64).
  - rewrite (proj2 (Z.leb_le _ _)), (proj2 (Z.ltb_lt _ _)) by lia. apply andb_true_r.
  - rewrite <- (Z.mod_small x (2 ^ 64)) by lia. rewrite Z.mod_pow2_bits_high by lia. reflexivity.
Qed.

Lemma align_up_nonneg v a : 0 <= align_up v a.
Proof. unfold align_up. apply Z.land_nonneg. left. apply wrap64_range. Qed.

Section PowerOfTwo.
Context (k align : Z) (Hk : 0 <= k < 64) (Halign : align = 2 ^ k).

Lemma align_pos : 0 < align.
Proof. subst. apply Z.pow_pos_nonneg; lia. Qed.

Lemma align_down_floor v : is_u64 v -> align_down v align = v / align * align.
Proof. intros. unfold align_down. subst. apply land_high_mask; [lia | assumption]. Qed.

Lemma align_up_ceil v :
  0 <= v -> v + align <= 2 ^ 64 -> align_up v align = (v + align - 1) / align * align.
Proof.
  intros. pose proof align_pos. unfold align_up. rewrite wrap64_small by (unfold is_u64; lia).
  subst. apply land_high_mask; [lia | unfold is_u64; lia].
Qed.

Lemma is_aligned_mod v : is_aligned v align = (v mod align =? 0).
Proof.
  unfold is_aligned. subst. rewrite <- Z.land_ones by lia. rewrite Z.ones_equiv. reflexivity.
Qed.

(** The smallest multiple of [align] that is not below the value. *)
Lemma align_up_bounds v :
  0 <= v -> v + align <= 2 ^ 64 ->
  exists q, align_up v align = align * q /\ v <= align * q < v + align.
Proof.
  intros. pose proof align_pos. rewrite align_up_ceil by assumption.
  exists ((v + align - 1) / align). split; [lia|].
  pose proof (Z.div_mod (v + align - 1) align ltac:(lia)).
  pose proof (Z.mod_pos_bound (v + align - 1) align ltac:(lia)). lia.
Qed.

Lemma align_down_bounds v :
  is_u64 v -> exists q, align_down v align = align * q /\ v - align < align * q <= v.
Proof.
  intros. pose proof align_pos. rewrite align_down_floor by assumption.
  exists (v / align). split; [lia|].
  pose proof (Z.div_mod v align ltac:(lia)). pose proof (Z.mod_pos_bound v align ltac:(lia)). lia.
Qed.

Lemma align_up_id v : 0 <= v -> v + align <= 2 ^ 64 -> v mod align = 0 -> align_up v align = v.
Proof.
  intros H0 H1 Hm. pose proof align_pos. destruct (align_up_bounds v) as (q & -> & Hq); [lia..|].
  apply Z.div_exact in Hm; [|lia]. rewrite Hm in Hq |- *. set (m := v / align) in *.
  assert (m <= q < m + 1) by nia. replace q with m by lia. reflexivity.
Qed.

Lemma align_up_aligned v : 0 <= v -> v + align <= 2 ^ 64 -> align_up v align mod align = 0.
Proof.
  intros. pose proof align_pos. destruct (align_up_bounds v) as (q & -> & _); [lia..|].
  rewrite Z.mul_comm. apply Z.mod_mul. lia.
Qed.

Lemma align_up_mono v w : 0 <= v <= w -> w + align <= 2 ^ 64 -> align_up v align <= align_up w align.
Proof.
  intros. pose proof align_pos. rewrite !align_up_ceil by lia.
  apply Z.mul_le_mono_nonneg_r; [lia|]. apply Z.div_le_mono; lia.
Qed.
End PowerOfTwo.

(** The alignments the formats use. *)
Lemma page_pow2 : PAGE_SIZE = 2 ^ 12. Proof. reflexivity. Qed.

Lemma is_aligned_page v : is_aligned v PAGE_SIZE = (v mod 4096 =? 0).
Proof. apply (is_aligned_mod 12); [lia | reflexivity]. Qed.

Lemma is_aligned_8 v : is_aligned v 8 = (v mod 8 =? 0).
Proof. apply (is_aligned_mod 3); [lia | reflexivity]. Qed.

Lemma align_up_page v :
  0 <= v < 2 ^ 63 -> exists q, align_up v PAGE_SIZE = 4096 * q /\ v <= 4096 * q < v + 4096.
Proof. intros. apply (align_up_bounds 12); unfold PAGE_SIZE; lia. Qed.

Lemma align_up_8 v : 0 <= v < 2 ^ 63 -> exists q, align_up v 8 = 8 * q /\ v <= 8 * q < v + 8.
Proof. intros. apply (align_up_bounds 3); lia. Qed.

Lemma align_down_page v :
  is_u64 v -> exists q, align_down v PAGE_SIZE = 4096 * q /\ v - 4096 < 4096 * q <= v.
Proof. intros. apply (align_down_bounds 12); unfold PAGE_SIZE; auto; lia. Qed.

Lemma align_up_page_id v : 0 <= v < 2 ^ 63 -> v mod 4096 = 0 -> align_up v PAGE_SIZE = v.
Proof. intros. apply (align_up_id 12); unfold PAGE_SIZE; auto; lia. Qed.

Lemma align_up_page_mono v w : 0 <= v <= w -> w < 2 ^ 63 -> align_up v PAGE_SIZE <= align_up w PAGE_SIZE.
Proof. intros. apply (align_up_mono 12); unfold PAGE_SIZE; auto; lia. Qed.

(** For a power-of-two alignment and a value whose rounding fits 64 bits, [align_up] gives
    the least aligned value that is not below it, and [align_down] leaves that value alone. *)
Theorem align_up_least (k v : Z) (Hk : 0 <= k < 64) (Hv : 0 <= v) (Hfit : v + 2 ^ k <= 2 ^ 64) :
  is_aligned (align_up v (2 ^ k)) (2 ^ k) = true /\
  v <= align_up v (2 ^ k) /\
  (forall w, v <= w -> is_aligned w (2 ^ k) = true -> align_up v (2 ^ k) <= w) /\
  align_down (align_up v (2 ^ k)) (2 ^ k) = align_up v (2 ^ k).
Proof.
  pose proof (align_pos k (2 ^ k) Hk eq_refl).
  destruct (align_up_bounds k (2 ^ k) Hk eq_refl v Hv Hfit) as (q & Hq & Hb).
  rewrite Hq. split; [|split; [lia|split]].
  - rewrite (is_aligned_mod k) by (lia || reflexivity).
    rewrite Z.mul_comm, Z.mod_mul by lia. reflexivity.
  - intros w Hw Ha. rewrite (is_aligned_mod k) in Ha by (lia || reflexivity). boolp.
    apply Z.div_exact in Ha; [|lia]. rewrite Ha in Hw |- *. set (m := w / 2 ^ k) in *.
    assert (q < m + 1) by nia. nia.
  - rewrite (align_down_floor k) by (try lia; try reflexivity; unfold is_u64; nia).
    rewrite (Z.mul_comm (2 ^ k) q), Z.div_mul by lia. lia.
Qed.

Lemma align_up_least_witness : align_up 4097 4096 = 8192 /\ is_aligned (align_up 4097 (2 ^ 12)) (2 ^ 12) = true.
Proof. split; [reflexivity | apply (align_up_least 12 4097); lia]. Defined.
