(* ===== verification/Checksum.v ===== *)
(** * CRC32C checksums (moat-common/src/checksum.rs)

    [crc-fast] is a third-party crate: the one-shot checksum and the digest are
    the operations of the class [CrcFast], and [CrcFastSpec] states the one
    documented fact the code relies on, that a digest fed in pieces agrees with
    the one-shot checksum of the concatenation. *)

From S2P Require Import Prelude.

Class CrcFast := {
  Digest : Type;
  digest_new : Digest;
  digest_update : Digest -> list byte -> Digest;
  digest_finalize : Digest -> Z;
  checksum : list byte -> Z
}.

Class CrcFastSpec (C : CrcFast) : Prop := {
  digest_chunks : forall parts,
    digest_finalize (foldl digest_update digest_new parts) = checksum (concat parts)
}.

Definition CHECKSUM_BLOCK_SIZE : Z := 65536.

(** Rust's [slice::chunks]; every round consumes at least one byte, so the
    length of the slice is enough fuel. *)
Fixpoint chunks_fuel {A} (fuel : nat) (n : nat) (l : list A) : list (list A) :=
  match fuel, l with
  | O, _ | _, [] => []
  | S f, _ => take n l :: chunks_fuel f n (drop n l)
  end.
Definition chunks {A} (n : Z) (l : list A) : list (list A) := chunks_fuel (length l) (Z.to_nat n) l.

Definition block_count (l : Z) : Z := wrap32 (div_ceil l CHECKSUM_BLOCK_SIZE).

Section Crc.
Context {C : CrcFast}.

Definition crc32c (data : list byte) : Z := wrap32 (checksum data).

(** [Crc32c::new], [update] and [finalize]. *)
Definition Crc32c := Digest.
Definition Crc32c_new : Crc32c := digest_new.
Definition Crc32c_update (d : Crc32c) (data : list byte) : Crc32c := digest_update d data.
Definition Crc32c_finalize (d : Crc32c) : Z := wrap32 (digest_finalize d).

Definition block_checksums (data : list byte) : list Z := map crc32c (chunks CHECKSUM_BLOCK_SIZE data).

Fixpoint verify_loop (blocks : list (list byte)) (i first_block : Z) (expected : Z -> option Z)
  : res Z unit :=
  match blocks with
  | [] => Ok tt
  | block :: rest =>
      let index := wrap32 (first_block + wrap32 i) in
      match expected index with
      | Some want => if crc32c block =? want then verify_loop rest (i + 1) first_block expected else Err index
      | None => Err index
      end
  end.

Definition verify_blocks_with (data : list byte) (first_block : Z) (expected : Z -> option Z) : res Z unit :=
  verify_loop (chunks CHECKSUM_BLOCK_SIZE data) 0 first_block expected.

Definition verify_blocks (data : list byte) (first_block : Z) (checksums : list Z) : res Z unit :=
  verify_blocks_with data first_block (fun i => checksums !! Z.to_nat i).

End Crc.

(** ** Chunking *)

Section Chunks.
Context {A : Type}.
Implicit Type l : list A.

Lemma chunks_fuel_enough n l f g :
  (0 < n)%nat -> (length l <= f)%nat -> (length l <= g)%nat -> chunks_fuel f n l = chunks_fuel g n l.
Proof.
  intros Hn. revert l g. induction f as [|f IH]; intros l g Hf Hg.
  { destruct l; simpl in *; [destruct g; reflexivity | lia]. }
  destruct l as [|x l]; [destruct g; reflexivity|]. destruct g as [|g]; simpl in *; [lia|].
  f_equal. apply IH; rewrite length_drop; simpl; lia.
Qed.

Lemma chunks_nil n : chunks n ([] : list A) = [].
Proof. reflexivity. Qed.

Lemma chunks_cons n l :
  0 < n -> l <> [] -> chunks n l = sub l 0 n :: chunks n (drop (Z.to_nat n) l).
Proof.
  intros Hn Hl. unfold chunks, sub. destruct l as [|x l]; [congruence|]. rewrite Z.sub_0_r, drop_0.
  cbn [length chunks_fuel]. f_equal. apply chunks_fuel_enough; rewrite ?length_drop; simpl; lia.
Qed.

Context (n : Z) (Hn : 0 < n).

Lemma chunks_ind (P : list A -> Prop) :
  P [] -> (forall l, l <> [] -> P (drop (Z.to_nat n) l) -> P l) -> forall l, P l.
Proof.
  intros H0 HS l. remember (length l) as m eqn:Hm. revert l Hm.
  induction (lt_wf m) as [m _ IH]. intros l ->. destruct l as [|x l]; [assumption|].
  apply HS; [discriminate|]. apply (IH (length (drop (Z.to_nat n) (x :: l)))); [|reflexivity].
  rewrite length_drop. simpl. lia.
Qed.

Lemma concat_chunks l : concat (chunks n l) = l.
Proof.
  induction l as [|l Hl IH] using chunks_ind; [reflexivity|].
  rewrite chunks_cons by assumption. simpl. rewrite IH. unfold sub. rewrite Z.sub_0_r, drop_0. apply take_drop.
Qed.

Lemma len_chunks l : len (chunks n l) = div_ceil (len l) n.
Proof.
  induction l as [|l Hl IH] using chunks_ind.
  { unfold div_ceil. rewrite Z.mod_0_l by lia. reflexivity. }
  rewrite chunks_cons, len_cons, IH by assumption.
  assert (0 < len l) by (destruct l; [congruence | unfold len; simpl; lia]).
  assert (Hd : len (drop (Z.to_nat n) l) = Z.max 0 (len l - n)) by (unfold len; rewrite length_drop; lia).
  rewrite Hd. unfold div_ceil. destruct (Z.le_gt_cases (len l) n) as [Hle|Hgt].
  - rewrite Z.max_l, Z.mod_0_l, Z.div_0_l by lia. simpl. destruct (Z.eq_dec (len l) n) as [->|].
    + rewrite Z.mod_same, Z.div_same by lia. reflexivity.
    + rewrite Z.mod_small, Z.div_small by lia. destruct (Z.eqb_spec (len l) 0); lia.
  - rewrite Z.max_r by lia. replace (len l - n) with (len l + (-1) * n) by lia.
    rewrite Z.mod_add, Z.div_add by lia. destruct (len l mod n =? 0); lia.
Qed.

Lemma lookup_chunks l (k : nat) :
  chunks n l !! k =
    if n * Z.of_nat k <? len l then Some (sub l (n * Z.of_nat k) (Z.min (n * Z.of_nat k + n) (len l))) else None.
Proof.
  revert k. induction l as [|l Hl IH] using chunks_ind; intros k.
  { rewrite chunks_nil, lookup_nil. rewrite (proj2 (Z.ltb_ge _ _)); [reflexivity | unfold len; simpl; nia]. }
  assert (0 < len l) by (destruct l; [congruence | unfold len; simpl; lia]).
  rewrite chunks_cons by assumption. destruct k as [|k].
  - simpl. rewrite Z.mul_0_r. rewrite (proj2 (Z.ltb_lt _ _)) by lia. f_equal.
    unfold sub. rewrite !Z.sub_0_r, !drop_0. rewrite Z.add_0_l.
    destruct (Z.le_gt_cases n (len l)); [rewrite Z.min_l by lia; reflexivity|].
    rewrite Z.min_r by lia. unfold len in *. rewrite !take_ge by lia. reflexivity.
  - rewrite lookup_cons, IH.
    assert (Hd : len (drop (Z.to_nat n) l) = Z.max 0 (len l - n)) by (unfold len; rewrite length_drop; lia).
    rewrite Hd. destruct (Z.ltb_spec (n * Z.of_nat (S k)) (len l)).
    + rewrite (proj2 (Z.ltb_lt _ _)) by nia. f_equal. unfold sub. rewrite drop_drop. f_equal; [lia|]. f_equal. nia.
    + rewrite (proj2 (Z.ltb_ge _ _)) by nia. reflexivity.
Qed.
End Chunks.

Lemma block_count_eq l : 0 <= l < 2 ^ 32 -> block_count l = div_ceil l CHECKSUM_BLOCK_SIZE.
Proof.
  intros. unfold block_count. apply wrap32_small. unfold CHECKSUM_BLOCK_SIZE.
  pose proof (div_ceil_spec l 65536). unfold is_u32. lia.
Qed.

Lemma block_count_bounds l :
  0 <= l < 2 ^ 32 -> 0 <= block_count l <= 65536 /\ l <= 65536 * block_count l < l + 65536.
Proof.
  intros. rewrite block_count_eq by lia. unfold CHECKSUM_BLOCK_SIZE.
  pose proof (div_ceil_spec l 65536). lia.
Qed.

Lemma block_count_zero l : 0 <= l < 2 ^ 32 -> (block_count l = 0 <-> l = 0).
Proof. intros. pose proof (block_count_bounds l). lia. Qed.

(** ** Block verification *)

Section Verification.
Context {C : CrcFast}.

(** Block [k] of the data carries the expected checksum. *)
Definition block_matches (data : list byte) (first : Z) (expected : Z -> option Z) (k : nat) : Prop :=
  exists block, chunks CHECKSUM_BLOCK_SIZE data !! k = Some block /\
                expected (first + Z.of_nat k) = Some (crc32c block).

Lemma verify_loop_spec blocks i first expected :
  0 <= i -> 0 <= first -> first + i + len blocks <= 2 ^ 32 ->
  let good (k : nat) := exists b, blocks !! k = Some b /\ expected (first + i + Z.of_nat k) = Some (crc32c b) in
  match verify_loop blocks i first expected with
  | Ok _ => forall k, (k < length blocks)%nat -> good k
  | Err idx => exists k : nat, (k < length blocks)%nat /\ idx = first + i + Z.of_nat k /\
                 ~ good k /\ forall j, (j < k)%nat -> good j
  | Panic => False
  end.
Proof.
  revert i. induction blocks as [|b blocks IH]; intros i Hi Hf Hl; [simpl; lia|].
  rewrite len_cons in Hl. pose proof (len_nonneg blocks). cbn [verify_loop].
  rewrite (wrap32_small i), wrap32_small by (unfold is_u32; lia). cbv zeta.
  assert (Hbad : (forall w, expected (first + i) = Some w -> w <> crc32c b) ->
    exists k : nat, (k < length (b :: blocks))%nat /\ first + i = first + i + Z.of_nat k /\
      ~ (exists b0, (b :: blocks) !! k = Some b0 /\ expected (first + i + Z.of_nat k) = Some (crc32c b0)) /\
      forall j, (j < k)%nat -> exists b0, (b :: blocks) !! j = Some b0 /\ expected (first + i + Z.of_nat j) = Some (crc32c b0)).
  { intros Hb. exists 0%nat. split; [simpl; lia|]. split; [lia|]. split; [|lia].
    intros (b0 & [= <-] & He). rewrite Z.add_0_r in He. exact (Hb _ He eq_refl). }
  destruct (expected (first + i)) as [w|] eqn:Hw; [|apply Hbad; discriminate].
  destruct (Z.eqb_spec (crc32c b) w) as [Hc|Hc]; [|apply Hbad; congruence]. clear Hbad.
  specialize (IH (i + 1) ltac:(lia) Hf ltac:(lia)). cbv zeta in IH.
  assert (H0 : exists b0, (b :: blocks) !! 0%nat = Some b0 /\ expected (first + i + Z.of_nat 0) = Some (crc32c b0)).
  { exists b. split; [reflexivity|]. rewrite Z.add_0_r. congruence. }
  destruct (verify_loop blocks (i + 1) first expected) as [u|idx|]; [| |exact IH].
  - intros [|k] Hk; [exact H0|]. destruct (IH k ltac:(simpl in Hk; lia)) as (b0 & ? & He).
    exists b0. split; [assumption|]. rewrite <- He. f_equal. lia.
  - destruct IH as (k & Hk & -> & Hn & Hall). exists (S k). split; [simpl; lia|]. split; [lia|]. split.
    + intros (b0 & ? & He). apply Hn. exists b0. split; [assumption|]. rewrite <- He. f_equal. lia.
    + intros [|j] Hj; [exact H0|]. destruct (Hall j ltac:(lia)) as (b0 & ? & He).
      exists b0. split; [assumption|]. rewrite <- He. f_equal. lia.
Qed.

Lemma verify_blocks_with_spec data first expected :
  0 <= first -> first + div_ceil (len data) CHECKSUM_BLOCK_SIZE <= 2 ^ 32 ->
  match verify_blocks_with data first expected with
  | Ok _ => forall k, (k < length (chunks CHECKSUM_BLOCK_SIZE data))%nat -> block_matches data first expected k
  | Err idx => exists k : nat, (k < length (chunks CHECKSUM_BLOCK_SIZE data))%nat /\ idx = first + Z.of_nat k /\
                 ~ block_matches data first expected k /\
                 forall j, (j < k)%nat -> block_matches data first expected j
  | Panic => False
  end.
Proof.
  intros Hf Hl. pose proof (verify_loop_spec (chunks CHECKSUM_BLOCK_SIZE data) 0 first expected) as H.
  unfold verify_blocks_with. rewrite len_chunks in H by (unfold CHECKSUM_BLOCK_SIZE; lia).
  rewrite Z.add_0_r in H. apply H; lia.
Qed.

Lemma verify_blocks_with_complete data first expected :
  0 <= first -> first + div_ceil (len data) CHECKSUM_BLOCK_SIZE <= 2 ^ 32 ->
  (forall k, (k < length (chunks CHECKSUM_BLOCK_SIZE data))%nat -> block_matches data first expected k) ->
  verify_blocks_with data first expected = Ok tt.
Proof.
  intros Hf Hl Hall. pose proof (verify_blocks_with_spec data first expected Hf Hl) as H.
  destruct (verify_blocks_with data first expected) as [[]|idx|]; [reflexivity| |contradiction].
  destruct H as (k & Hk & _ & Hn & _). exfalso. auto.
Qed.

(** Block verification succeeds exactly when every block's checksum is present and
    matches, and otherwise reports the index of the first block that does not, for partial tails
    and for ranges that start inside a value. *)
Theorem verify_blocks_first_mismatch data first expected
  (Hf : 0 <= first) (Hl : first + div_ceil (len data) CHECKSUM_BLOCK_SIZE <= 2 ^ 32) :
  (verify_blocks_with data first expected = Ok tt <->
     forall k, (k < length (chunks CHECKSUM_BLOCK_SIZE data))%nat -> block_matches data first expected k) /\
  (forall idx, verify_blocks_with data first expected = Err idx <->
     exists k : nat, (k < length (chunks CHECKSUM_BLOCK_SIZE data))%nat /\ idx = first + Z.of_nat k /\
       ~ block_matches data first expected k /\ forall j, (j < k)%nat -> block_matches data first expected j).
Proof.
  pose proof (verify_blocks_with_spec data first expected Hf Hl) as H. split.
  - split; [intros E; rewrite E in H; exact H | apply verify_blocks_with_complete; assumption].
  - intros idx. split; [intros E; rewrite E in H; exact H|].
    intros (k & Hk & -> & Hn & Hall).
    destruct (verify_blocks_with data first expected) as [u|idx|]; [exfalso; auto| |contradiction].
    destruct H as (k' & Hk' & -> & Hn' & Hall'). f_equal. f_equal. f_equal.
    destruct (lt_eq_lt_dec k k') as [[?| ->]|?]; [exfalso; auto | reflexivity | exfalso; auto].
Qed.

Lemma lookup_block_checksums data k :
  block_checksums data !! k = crc32c <$> chunks CHECKSUM_BLOCK_SIZE data !! k.
Proof. apply list_lookup_fmap. Qed.

Lemma len_block_checksums data : len data < 2 ^ 32 -> len (block_checksums data) = block_count (len data).
Proof.
  intros. pose proof (len_nonneg data). rewrite block_count_eq by lia. rewrite <- len_chunks by (unfold CHECKSUM_BLOCK_SIZE; lia).
  unfold block_checksums, len. rewrite length_map. reflexivity.
Qed.

(** A block-aligned range of a value, or one that reaches its end, verifies
    against the checksums of the whole value. *)
Lemma verify_own_range value a b expected :
  len value < 2 ^ 32 -> 0 <= a <= b -> b <= len value ->
  a mod CHECKSUM_BLOCK_SIZE = 0 -> (b mod CHECKSUM_BLOCK_SIZE = 0 \/ b = len value) ->
  (forall k : nat, (k < length (block_checksums value))%nat -> expected (Z.of_nat k) = block_checksums value !! k) ->
  verify_blocks_with (sub value a b) (a / CHECKSUM_BLOCK_SIZE) expected = Ok tt.
Proof.
  intros Hv Hab Hb Ha He Hex. unfold CHECKSUM_BLOCK_SIZE in *.
  pose proof (Z.div_mod a 65536 ltac:(lia)) as Hda. rewrite Ha in Hda.
  pose proof (div_ceil_spec (b - a) 65536 ltac:(lia) ltac:(lia)) as Hc.
  assert (Hlen : len (sub value a b) = b - a) by (apply len_sub; lia).
  apply verify_blocks_with_complete; unfold CHECKSUM_BLOCK_SIZE; [lia | rewrite Hlen; lia |].
  intros k Hk. unfold block_matches, CHECKSUM_BLOCK_SIZE. apply lookup_lt_is_Some in Hk as [block Hblk].
  exists block. split; [assumption|]. rewrite lookup_chunks in Hblk by lia. rewrite Hlen in Hblk.
  destruct (Z.ltb_spec (65536 * Z.of_nat k) (b - a)) as [Hlt|]; [|discriminate]. injection Hblk as <-.
  set (m := (Z.to_nat (a / 65536) + k)%nat).
  assert (Hm : 65536 * Z.of_nat m = a + 65536 * Z.of_nat k) by (unfold m; lia).
  replace (a / 65536 + Z.of_nat k) with (Z.of_nat m) by lia.
  assert (Hin : block_checksums value !! m = Some (crc32c (sub (sub value a b) (65536 * Z.of_nat k) ((65536 * Z.of_nat k + 65536) `min` (b - a))))).
  { rewrite lookup_block_checksums, lookup_chunks by (unfold CHECKSUM_BLOCK_SIZE; lia).
    unfold CHECKSUM_BLOCK_SIZE. rewrite (proj2 (Z.ltb_lt _ _)) by lia. simpl. f_equal. f_equal.
    rewrite sub_sub by lia. rewrite Hm. f_equal.
    pose proof (Z.div_mod b 65536 ltac:(lia)). destruct He as [He|He]; lia. }
  rewrite Hex; [assumption|]. apply lookup_lt_Some in Hin. assumption.
Qed.

Lemma crc_parts (S : CrcFastSpec C) parts :
  Crc32c_finalize (foldl Crc32c_update Crc32c_new parts) = crc32c (concat parts).
Proof. unfold Crc32c_finalize, crc32c. f_equal. apply digest_chunks. Qed.

(** Feeding a message in parts gives the checksum of the whole. *)
Lemma incremental_matches_one_shot (S : CrcFastSpec C) (parts : list (list byte)) :
  Crc32c_finalize (foldl Crc32c_update Crc32c_new parts) = crc32c (concat parts).
Proof. apply crc_parts, S. Qed.
End Verification.

(** ** A reference CRC32C

    The bitwise Castagnoli CRC (reflected polynomial 0x82f63b78, initial value
    and final xor all ones) as a concrete instance of [CrcFast], with the RFC
    3720 vectors the repository tests. It shows that [CrcFastSpec] can hold and
    lets witnesses evaluate whole frames and footers. *)

Fixpoint crc_bits (n : nat) (c : Z) : Z :=
  match n with
  | O => c
  | S n => crc_bits n (if Z.odd c then Z.lxor (Z.shiftr c 1) 0x82f63b78 else Z.shiftr c 1)
  end.

Definition crc_byte (c : Z) (b : byte) : Z := crc_bits 8 (Z.lxor c (byte.unsigned b)).

Definition crc_ref_update (c : Z) (data : list byte) : Z := foldl crc_byte c data.

#[export] Instance crc_ref : CrcFast := {|
  Digest := Z;
  digest_new := 0xffffffff;
  digest_update := crc_ref_update;
  digest_finalize c := Z.lxor c 0xffffffff;
  checksum data := Z.lxor (crc_ref_update 0xffffffff data) 0xffffffff
|}.

Lemma crc_ref_update_concat parts c :
  foldl crc_ref_update c parts = crc_ref_update c (concat parts).
Proof.
  revert c. induction parts as [|p parts IH]; intros c; simpl; [reflexivity|].
  rewrite IH. unfold crc_ref_update. rewrite foldl_app. reflexivity.
Qed.

#[export] Instance crc_ref_spec : CrcFastSpec crc_ref.
Proof. constructor. intros parts. simpl. rewrite crc_ref_update_concat. reflexivity. Qed.

Definition ascii_digits : list byte := map (fun n => byte.of_Z (48 + n)) [1; 2; 3; 4; 5; 6; 7; 8; 9].

Example crc_ref_digits : crc32c ascii_digits = 0xe3069283.
Proof. vm_compute. reflexivity. Qed.
Example crc_ref_zeros : crc32c (zeros 32) = 0x8a9136aa.
Proof. vm_compute. reflexivity. Qed.
Example crc_ref_ones : crc32c (replicate 32 (byte.of_Z 255)) = 0x62a8ab43.
Proof. vm_compute. reflexivity. Qed.
Example crc_ref_empty : crc32c [] = 0.
Proof. reflexivity. Qed.

Lemma incremental_matches_one_shot_witness :
  Crc32c_finalize (foldl Crc32c_update Crc32c_new [take 4 ascii_digits; drop 4 ascii_digits]) = 0xe3069283.
Proof.
  rewrite (incremental_matches_one_shot crc_ref_spec). vm_compute. reflexivity.
Defined.


(** Two bytes with the wrong checksum for their one block, numbered 5. *)
Lemma verify_blocks_first_mismatch_witness :
  verify_blocks_with (C := crc_ref) [Byte.x01; Byte.x02] 5 (fun _ => Some 0) = Err 5.
Proof.
  apply (proj2 (verify_blocks_first_mismatch (C := crc_ref) [Byte.x01; Byte.x02] 5 (fun _ => Some 0)
    ltac:(lia) ltac:(vm_compute; discriminate)) 5).
  exists 0%nat. split; [vm_compute; lia|]. split; [reflexivity|]. split; [|lia].
  intros (block & [= <-] & H). vm_compute in H. discriminate.
Defined.
