(* ===== verification/ChunkId.v ===== *)
(** * The chunk identifier (moat-common/src/chunk_id.rs)

    A chunk identifier is sixteen raw bytes: its 128-bit and text forms, the
    SplitMix64 finalizer behind sharding and placement, and the pass-through
    hasher. Text is a list of ASCII bytes. *)

From stdpp Require Import countable.
From S2P Require Import Prelude.

Abbreviation ChunkId := (list byte).

(** The length the Rust type [[u8; 16]] carries. *)
Definition chunk_id_ok (id : ChunkId) : Prop := len id = 16.

#[export] Instance byte_eq_dec : EqDecision byte := Byte.byte_eq_dec.
#[export] Instance byte_countable : Countable byte := inj_countable Byte.to_N Byte.of_N Byte.of_to_N.

Definition from_u128 (value : Z) : ChunkId := rev (le_split 16 value).
Definition to_u128 (id : ChunkId) : Z := le_combine (rev id).

Definition splitmix64 (z0 : Z) : Z :=
  let z := wrap64 (z0 + 0x9E3779B97F4A7C15) in
  let z := wrap64 (Z.lxor z (Z.shiftr z 30) * 0xBF58476D1CE4E5B9) in
  let z := wrap64 (Z.lxor z (Z.shiftr z 27) * 0x94D049BB133111EB) in
  Z.lxor z (Z.shiftr z 31).

Definition mix (id : ChunkId) : Z :=
  let lo := le_combine (sub id 0 8) in
  let hi := le_combine (sub id 8 16) in
  splitmix64 (Z.lxor lo (splitmix64 (Z.lxor hi 0x9E3779B97F4A7C15))).

(** The pass-through hasher: its state is one u64. *)
Definition ChunkIdHasher_finish (st : Z) : Z := st.
Definition ChunkIdHasher_write_u64 (st value : Z) : Z := value.
Definition hash_chunk_id (id : ChunkId) (st : Z) : Z := ChunkIdHasher_write_u64 st (mix id).

(** ** Text forms *)

Definition ascii (n : Z) : byte := byte.of_Z n.

(** [{:02x}]. *)
Definition hex_digit (n : Z) : byte := if n <? 10 then ascii (48 + n) else ascii (97 + (n - 10)).
Definition hex_byte (b : byte) : list byte :=
  [hex_digit (Z.shiftr (byte.unsigned b) 4); hex_digit (Z.land (byte.unsigned b) 15)].
Definition display (id : ChunkId) : list byte := concat (map hex_byte id).

Definition hex_nibble (c : byte) : option Z :=
  let c := byte.unsigned c in
  if (48 <=? c) && (c <=? 57) then Some (c - 48)
  else if (97 <=? c) && (c <=? 102) then Some (c - 97 + 10)
  else if (65 <=? c) && (c <=? 70) then Some (c - 65 + 10)
  else None.

Inductive ParseChunkIdError := ParseError.

Definition hyphen : byte := ascii 45.
Definition is_hyphen (c : byte) : bool := byte.unsigned c =? 45.

(** The loop over [digits.as_chunks::<2>().0]: an odd last digit is dropped,
    and [out[i]] panics past the sixteenth pair. *)
Fixpoint parse_pairs (digits : list byte) (i : Z) (out : list byte) : res ParseChunkIdError (list byte) :=
  match digits with
  | d0 :: d1 :: rest =>
      let? hi := ok_or (hex_nibble d0) ParseError in
      let? lo := ok_or (hex_nibble d1) ParseError in
      let? out := copy_at out i [byte.of_Z (Z.lor (Z.shiftl hi 4) lo)] in
      parse_pairs rest (i + 1) out
  | _ => Ok out
  end.

Definition from_str (s : list byte) : res ParseChunkIdError ChunkId :=
  let? digits :=
    (if len s =? 32 then Ok s
     else if len s =? 36 then
       if existsb (fun i => match s !! i with Some c => negb (is_hyphen c) | None => true end) [8; 13; 18; 23]%nat
       then Err ParseError
       else Ok (List.filter (fun c => negb (is_hyphen c)) s)
     else Err ParseError) in
  parse_pairs digits 0 (zeros 16).

(** The UUID text form 8-4-4-4-12 of 32 digits. *)
Definition hyphenate (s : list byte) : list byte :=
  sub s 0 8 ++ [hyphen] ++ sub s 8 12 ++ [hyphen] ++ sub s 12 16 ++ [hyphen] ++
  sub s 16 20 ++ [hyphen] ++ sub s 20 32.

(** ** Integers *)

Lemma byte_of_Z_eq a b : a mod 256 = b mod 256 -> byte.of_Z a = byte.of_Z b.
Proof. intros H. apply byte.unsigned_inj. rewrite !byte.unsigned_of_Z. exact H. Qed.

(** Identifiers and 128-bit integers convert into each other without loss. *)
Theorem u128_roundtrip :
  (forall v, 0 <= v < 2 ^ 128 -> to_u128 (from_u128 v) = v /\ chunk_id_ok (from_u128 v)) /\
  (forall id, chunk_id_ok id -> from_u128 (to_u128 id) = id).
Proof.
  unfold to_u128, from_u128, chunk_id_ok. split.
  - intros v Hv. rewrite rev_involutive, le_combine_split. split; [apply Z.mod_small; lia|].
    unfold len. rewrite length_rev, length_le_split. reflexivity.
  - intros id Hid. replace 16%nat with (length (rev id)) by (unfold len in Hid; rewrite length_rev; lia).
    rewrite split_le_combine. apply rev_involutive.
Qed.

Lemma u128_roundtrip_witness : to_u128 (from_u128 (2 ^ 127 + 1)) = 2 ^ 127 + 1 /\ from_u128 (to_u128 (zeros 16)) = zeros 16.
Proof.
  split; [apply (proj1 u128_roundtrip); lia | apply (proj2 u128_roundtrip); reflexivity].
Defined.

(** ** SplitMix64 is a bijection *)

Definition unxorshift (s x : Z) : Z := Z.lxor x (Z.lxor (Z.shiftr x s) (Z.shiftr x (s + s))).

Definition unsplitmix64 (x : Z) : Z :=
  let z := unxorshift 31 x in
  let z := unxorshift 27 (wrap64 (z * 0x319642b2d24d8ec3)) in
  let z := unxorshift 30 (wrap64 (z * 0x96de1b173f119089)) in
  wrap64 (z - 0x9E3779B97F4A7C15).

Lemma is_u64_bits x : 0 <= x -> (forall i, 64 <= i -> Z.testbit x i = false) -> is_u64 x.
Proof.
  intros Hx Hb. split; [assumption|]. destruct (Z.eq_dec x 0); [subst; lia|].
  apply Z.log2_lt_pow2; [lia|]. destruct (Z.lt_ge_cases (Z.log2 x) 64); [assumption|].
  exfalso. assert (Z.testbit x (Z.log2 x) = true) by (apply Z.bit_log2; lia). rewrite Hb in *; [discriminate|lia].
Qed.

Lemma u64_high_bits x i : is_u64 x -> 64 <= i -> Z.testbit x i = false.
Proof.
  intros Hx Hi. rewrite <- (Z.mod_small x (2 ^ 64)) by assumption. apply Z.mod_pow2_bits_high. lia.
Qed.

Lemma lxor_u64 x y : is_u64 x -> is_u64 y -> is_u64 (Z.lxor x y).
Proof.
  intros Hx Hy. apply is_u64_bits.
  - apply Z.lxor_nonneg. unfold is_u64 in *. lia.
  - intros i Hi. rewrite Z.lxor_spec, !u64_high_bits by assumption. reflexivity.
Qed.

Lemma shiftr_u64 x s : is_u64 x -> 0 <= s -> is_u64 (Z.shiftr x s).
Proof.
  intros Hx Hs. apply is_u64_bits.
  - apply Z.shiftr_nonneg. unfold is_u64 in Hx. lia.
  - intros i Hi. rewrite Z.shiftr_spec by lia. apply u64_high_bits; [assumption | lia].
Qed.

Lemma unxorshift_u64 s x : is_u64 x -> 0 <= s -> is_u64 (unxorshift s x).
Proof. intros. unfold unxorshift. repeat (apply lxor_u64 || apply shiftr_u64); auto; lia. Qed.

Lemma xorshift_inverse s x :
  is_u64 x -> 64 <= s + s + s -> 0 <= s ->
  unxorshift s (Z.lxor x (Z.shiftr x s)) = x /\
  Z.lxor (unxorshift s x) (Z.shiftr (unxorshift s x) s) = x.
Proof.
  intros Hx Hs Hs0. unfold unxorshift.
  split; apply Z.bits_inj'; intros i Hi;
    repeat (rewrite ?Z.lxor_spec; rewrite ?Z.shiftr_spec by lia);
    rewrite ?Z.add_assoc;
    rewrite ?(u64_high_bits x (i + s + s + s)) by (auto; lia);
    destruct (Z.testbit x i), (Z.testbit x (i + s)), (Z.testbit x (i + s + s)); reflexivity.
Qed.

Lemma odd_mul_inverse m m' x :
  is_u64 x -> (m * m') mod 2 ^ 64 = 1 -> wrap64 (wrap64 (x * m) * m') = x.
Proof.
  intros Hx Hm. unfold wrap64. rewrite Z.mul_mod_idemp_l, <- Z.mul_assoc, <- Z.mul_mod_idemp_r, Hm by lia.
  rewrite Z.mul_1_r. apply Z.mod_small, Hx.
Qed.

Lemma wrap64_add_sub x c : is_u64 x -> wrap64 (wrap64 (x + c) - c) = x /\ wrap64 (wrap64 (x - c) + c) = x.
Proof.
  intros Hx. unfold wrap64. rewrite Zminus_mod_idemp_l, Zplus_mod_idemp_l.
  split; rewrite Z.mod_small; unfold is_u64 in Hx; lia.
Qed.

(** The finalizer that mixes identifiers into hashes is a bijection on 64-bit integers:
    no two identifiers with different folded halves collide because of it. *)
Theorem splitmix64_bijective (z : Z) (Hz : is_u64 z) :
  is_u64 (splitmix64 z) /\ is_u64 (unsplitmix64 z) /\
  unsplitmix64 (splitmix64 z) = z /\ splitmix64 (unsplitmix64 z) = z.
Proof.
  unfold splitmix64, unsplitmix64. cbv zeta.
  split; [apply lxor_u64; [|apply shiftr_u64; [|lia]]; apply wrap64_range|].
  split; [apply wrap64_range|]. split.
  - rewrite (proj1 (xorshift_inverse 31 _ (wrap64_range _) ltac:(lia) ltac:(lia))).
    rewrite odd_mul_inverse; [|apply lxor_u64; [|apply shiftr_u64; [|lia]]; apply wrap64_range|reflexivity].
    rewrite (proj1 (xorshift_inverse 27 _ (wrap64_range _) ltac:(lia) ltac:(lia))).
    rewrite odd_mul_inverse; [|apply lxor_u64; [|apply shiftr_u64; [|lia]]; apply wrap64_range|reflexivity].
    rewrite (proj1 (xorshift_inverse 30 _ (wrap64_range _) ltac:(lia) ltac:(lia))).
    apply wrap64_add_sub, Hz.
  - assert (H31 := unxorshift_u64 31 z Hz ltac:(lia)).
    rewrite (proj2 (wrap64_add_sub _ _ (unxorshift_u64 30 _ (wrap64_range _) ltac:(lia)))).
    rewrite (proj2 (xorshift_inverse 30 _ (wrap64_range _) ltac:(lia) ltac:(lia))).
    rewrite odd_mul_inverse by (reflexivity || (apply unxorshift_u64; [apply wrap64_range | lia])).
    rewrite (proj2 (xorshift_inverse 27 _ (wrap64_range _) ltac:(lia) ltac:(lia))).
    rewrite odd_mul_inverse by (reflexivity || assumption).
    apply (xorshift_inverse 31); [assumption | lia | lia].
Qed.

Lemma splitmix64_bijective_witness : unsplitmix64 (splitmix64 42) = 42.
Proof. apply (splitmix64_bijective 42). unfold is_u64. lia. Defined.

(** ** Text *)

Lemma byte_cases (P : byte -> Prop) :
  (forall n, 0 <= n < 256 -> P (byte.of_Z n)) -> forall b, P b.
Proof.
  intros H b. rewrite <- (byte.of_Z_unsigned b). apply H. apply byte.unsigned_range.
Qed.

(** Every nibble survives a round trip, checked on all sixteen. *)
Lemma hex_nibble_digit n : 0 <= n < 16 -> hex_nibble (hex_digit n) = Some n.
Proof.
  intros Hn. assert (Hall : forallb (fun k => match hex_nibble (hex_digit (Z.of_nat k)) with
    | Some m => m =? Z.of_nat k | None => false end) (seq 0 16) = true) by reflexivity.
  rewrite forallb_forall in Hall. specialize (Hall (Z.to_nat n)). rewrite Z2Nat.id in Hall by lia.
  destruct (hex_nibble (hex_digit n)) as [m|]; [|discriminate Hall; apply in_seq; lia].
  rewrite in_seq in Hall. specialize (Hall ltac:(lia)). boolp. congruence.
Qed.

Lemma nibbles b : 0 <= b < 256 -> 0 <= Z.shiftr b 4 < 16 /\ 0 <= Z.land b 15 < 16 /\
  Z.lor (Z.shiftl (Z.shiftr b 4) 4) (Z.land b 15) = b.
Proof.
  intros Hb. rewrite Z.shiftr_div_pow2 by lia. change 15 with (Z.ones 4). rewrite Z.land_ones by lia.
  change (2 ^ 4) with 16. split; [dlia|]. split; [dlia|]. change 16 with (2 ^ 4).
  rewrite <- Z.land_ones, <- Z.shiftr_div_pow2 by lia. apply Z.bits_inj'. intros i Hi. rewrite Z.lor_spec, Z.shiftl_spec, Z.land_spec, Z.testbit_ones by lia.
  destruct (Z.ltb_spec i 4).
  - rewrite (Z.testbit_neg_r _ (i - 4)) by lia. rewrite (proj2 (Z.leb_le 0 i)) by lia. apply andb_true_r.
  - rewrite Z.shiftr_spec by lia. rewrite !andb_false_r, orb_false_r. f_equal. lia.
Qed.

Lemma parse_pairs_display id i out :
  0 <= i -> i + len id <= len out -> parse_pairs (display id) i out = Ok (splice out i id).
Proof.
  revert i out. induction id as [|b id IH]; intros i out Hi Hl.
  { unfold display, splice. simpl. replace (Z.to_nat (i + len [])) with (Z.to_nat i) by (unfold len; simpl; lia).
    rewrite take_drop. reflexivity. }
  rewrite len_cons in Hl. pose proof (len_nonneg id). unfold display in *. simpl.
  destruct (nibbles (byte.unsigned b) (byte.unsigned_range b)) as (H1 & H2 & H3).
  rewrite !hex_nibble_digit by assumption. simpl. rewrite H3, byte.of_Z_unsigned.
  rewrite copy_at_Ok by (unfold len in *; simpl in *; lia). simpl.
  rewrite IH by (try lia; rewrite len_splice; unfold len in *; simpl in *; lia). f_equal.
  apply list_eq. intros j.
  rewrite !lookup_splice by (rewrite ?len_splice; unfold len in *; simpl in *; lia).
  change (len [b]) with 1. rewrite len_cons.
  destruct (Z.ltb_spec (Z.of_nat j) (i + 1)); destruct (Z.ltb_spec (Z.of_nat j) i);
    destruct (Z.ltb_spec (Z.of_nat j) (i + 1 + len id)); destruct (Z.ltb_spec (Z.of_nat j) (i + (1 + len id)));
    try lia; try reflexivity.
  - replace (j - Z.to_nat i)%nat with 0%nat by lia. reflexivity.
  - replace (j - Z.to_nat i)%nat with (S (j - Z.to_nat (i + 1))) by lia. reflexivity.
Qed.

Lemma len_display id : len (display id) = 2 * len id.
Proof.
  unfold display. induction id as [|b id IH]; [reflexivity|]. cbn [map concat].
  rewrite len_app, IH, len_cons. unfold len. simpl. lia.
Qed.

Lemma parse_display id : chunk_id_ok id -> parse_pairs (display id) 0 (zeros 16) = Ok id.
Proof.
  unfold chunk_id_ok. intros Hid. rewrite parse_pairs_display by (rewrite ?len_zeros; lia). f_equal.
  unfold splice. simpl. rewrite drop_ge; [apply app_nil_r|]. unfold zeros. rewrite length_replicate. lia.
Qed.

Lemma hex_digit_not_hyphen n : 0 <= n < 16 -> is_hyphen (hex_digit n) = false.
Proof.
  intros Hn. unfold is_hyphen, hex_digit, ascii. destruct (Z.ltb_spec n 10);
    rewrite byte.unsigned_of_Z; unfold byte.wrap; rewrite Z.mod_small by lia; apply Z.eqb_neq; lia.
Qed.

Lemma display_no_hyphen id : Forall (fun c => is_hyphen c = false) (display id).
Proof.
  unfold display. induction id as [|b id IH]; simpl; [constructor|].
  destruct (nibbles (byte.unsigned b) (byte.unsigned_range b)) as (H1 & H2 & _).
  repeat constructor; auto using hex_digit_not_hyphen.
Qed.

Lemma filter_no_hyphen s :
  Forall (fun c => is_hyphen c = false) s -> List.filter (fun c => negb (is_hyphen c)) s = s.
Proof. induction 1 as [|c s Hc Hs IH]; simpl; [reflexivity|]. rewrite Hc. simpl. congruence. Qed.

Lemma Forall_sub {A} (P : A -> Prop) l a b : Forall P l -> Forall P (sub l a b).
Proof. intros. unfold sub. apply Forall_take, Forall_drop. assumption. Qed.

Lemma filter_hyphenate s :
  len s = 32 -> Forall (fun c => is_hyphen c = false) s ->
  List.filter (fun c => negb (is_hyphen c)) (hyphenate s) = s.
Proof.
  intros Hs Hf. unfold hyphenate. rewrite !List.filter_app.
  rewrite !(filter_no_hyphen (sub _ _ _)) by (apply Forall_sub; assumption). simpl.
  rewrite <- !sub_split by lia. rewrite <- Hs. apply sub_all.
Qed.

Lemma hyphenate_positions s :
  len s = 32 -> len (hyphenate s) = 36 /\
  forall i, In i [8; 13; 18; 23]%nat -> hyphenate s !! i = Some hyphen.
Proof.
  intros Hs. unfold hyphenate. split.
  { autorewrite with moat_len. reflexivity. }
  intros i Hi. assert (Hl : forall a b, 0 <= a <= b -> b <= 32 -> length (sub s a b) = Z.to_nat (b - a)).
  { intros. pose proof (len_sub s a b). unfold len in *. lia. }
  simpl in Hi. repeat (destruct Hi as [<-|Hi]); [..|contradiction];
    repeat (rewrite lookup_app_r by (rewrite Hl by lia; simpl; lia); rewrite Hl by lia; simpl); reflexivity.
Qed.

(** An identifier parses back from its text and from the hyphenated UUID form of it. *)
Theorem text_roundtrip (id : ChunkId) (Hid : chunk_id_ok id) :
  from_str (display id) = Ok id /\ from_str (hyphenate (display id)) = Ok id.
Proof.
  assert (H32 : len (display id) = 32) by (rewrite len_display, Hid; reflexivity).
  destruct (hyphenate_positions _ H32) as [H36 Hpos]. unfold from_str. split.
  - rewrite H32. simpl. apply parse_display, Hid.
  - rewrite H36. cbn [Z.eqb Pos.eqb]. destruct (existsb _ _) eqn:He.
    + apply existsb_exists in He as (i & Hi & He). rewrite (Hpos i Hi) in He. discriminate He.
    + cbn [rbind]. rewrite filter_hyphenate by auto using display_no_hyphen. apply parse_display, Hid.
Qed.

Lemma text_roundtrip_witness : from_str (display (from_u128 (2 ^ 127 + 255))) = Ok (from_u128 (2 ^ 127 + 255)).
Proof. apply (text_roundtrip (from_u128 (2 ^ 127 + 255))). reflexivity. Defined.

(** C39: a 36-character text with hyphens beyond the four UUID positions is accepted: the
    remaining digits fill the leading bytes and the missing trailing bytes stay zero. *)
Theorem from_str_accepts_extra_hyphens :
  exists s, len s = 36 /\ s <> hyphenate (List.filter (fun c => negb (is_hyphen c)) s) /\
            from_str s = Ok (zeros 16).
Proof.
  exists (replicate 36 hyphen). split; [reflexivity|]. split; [discriminate | vm_compute; reflexivity].
Qed.
