(* ===== verification/Codec.v ===== *)
(** * Little-endian fields (moat-engine/src/codec.rs)

    Field access at explicit offsets, the CRC over a header whose checksum
    field reads as zero, and the lemmas that read a field back from a buffer
    built by a sequence of writes. *)

From S2P Require Import Prelude ChunkId Checksum.

Definition bytes_eqb (a b : list byte) : bool := bool_decide (a = b).

Lemma bytes_eqb_eq a b : bytes_eqb a b = true <-> a = b.
Proof. unfold bytes_eqb. apply bool_decide_eq_true. Qed.

Lemma bytes_eqb_refl a : bytes_eqb a a = true.
Proof. apply bytes_eqb_eq. reflexivity. Qed.

Section Codec.
Context {E : Type}.

Definition u32_at (bytes : list byte) (at_ : Z) : res E Z :=
  let? s := slice bytes at_ (at_ + 4) in Ok (le_combine s).
Definition u64_at (bytes : list byte) (at_ : Z) : res E Z :=
  let? s := slice bytes at_ (at_ + 8) in Ok (le_combine s).
Definition put_u32 (bytes : list byte) (at_ value : Z) : res E (list byte) :=
  copy_at bytes at_ (le_split 4 value).
Definition put_u64 (bytes : list byte) (at_ value : Z) : res E (list byte) :=
  copy_at bytes at_ (le_split 8 value).

Definition crc_with_zeroed_checksum {C : CrcFast} (bytes : list byte) : res E Z :=
  let? front := slice bytes 0 12 in
  let? back := slice bytes 16 (len bytes) in
  Ok (Crc32c_finalize (Crc32c_update (Crc32c_update (Crc32c_update Crc32c_new front) (zeros 4)) back)).

Lemma u32_at_Ok bytes at_ : 0 <= at_ -> at_ + 4 <= len bytes -> u32_at bytes at_ = Ok (le_combine (sub bytes at_ (at_ + 4))).
Proof. intros. unfold u32_at. rewrite slice_Ok by lia. reflexivity. Qed.

Lemma u64_at_Ok bytes at_ : 0 <= at_ -> at_ + 8 <= len bytes -> u64_at bytes at_ = Ok (le_combine (sub bytes at_ (at_ + 8))).
Proof. intros. unfold u64_at. rewrite slice_Ok by lia. reflexivity. Qed.

Lemma u32_at_range bytes at_ v : u32_at bytes at_ = Ok v -> is_u32 v.
Proof.
  unfold u32_at. intros. inv_ok. subst. apply slice_inv in Hr as (? & ? & ->).
  apply (le_combine_range _ 4). rewrite len_sub; lia.
Qed.

Lemma u64_at_range bytes at_ v : u64_at bytes at_ = Ok v -> is_u64 v.
Proof.
  unfold u64_at. intros. inv_ok. subst. apply slice_inv in Hr as (? & ? & ->).
  apply (le_combine_range _ 8). rewrite len_sub; lia.
Qed.

(** A field reads back the value written there. *)
Lemma u32_at_field bytes at_ v :
  is_u32 v -> 0 <= at_ -> at_ + 4 <= len bytes -> sub bytes at_ (at_ + 4) = le_split 4 v -> u32_at bytes at_ = Ok v.
Proof. intros Hv ? ? Hs. rewrite u32_at_Ok, Hs, le_combine_split by lia. f_equal. apply Z.mod_small, Hv. Qed.

Lemma u64_at_field bytes at_ v :
  is_u64 v -> 0 <= at_ -> at_ + 8 <= len bytes -> sub bytes at_ (at_ + 8) = le_split 8 v -> u64_at bytes at_ = Ok v.
Proof. intros Hv ? ? Hs. rewrite u64_at_Ok, Hs, le_combine_split by lia. f_equal. apply Z.mod_small, Hv. Qed.

Lemma safe_slice {A} (l : list A) a b : 0 <= a <= b -> b <= len l -> @safe E _ (slice l a b).
Proof. intros. rewrite slice_Ok by assumption. apply safe_Ok. Qed.

Lemma safe_u32_at bytes at_ : 0 <= at_ -> at_ + 4 <= len bytes -> safe (u32_at bytes at_).
Proof. intros. rewrite u32_at_Ok by assumption. apply safe_Ok. Qed.

Lemma safe_u64_at bytes at_ : 0 <= at_ -> at_ + 8 <= len bytes -> safe (u64_at bytes at_).
Proof. intros. rewrite u64_at_Ok by assumption. apply safe_Ok. Qed.

Context {C : CrcFast}.

Lemma safe_crc bytes : 16 <= len bytes -> safe (crc_with_zeroed_checksum bytes).
Proof.
  intros. unfold crc_with_zeroed_checksum. rewrite !slice_Ok by lia. apply safe_Ok.
Qed.

Lemma crc_zeroed_Ok bytes :
  16 <= len bytes -> exists c, crc_with_zeroed_checksum bytes = Ok c /\ is_u32 c.
Proof.
  intros. unfold crc_with_zeroed_checksum. rewrite !slice_Ok by lia. simpl. eexists. split; [reflexivity|].
  apply wrap32_range.
Qed.

(** The checksum depends only on the bytes outside its own field. *)
Lemma crc_zeroed_ext bytes bytes' :
  len bytes = len bytes' -> 16 <= len bytes -> sub bytes 0 12 = sub bytes' 0 12 ->
  sub bytes 16 (len bytes) = sub bytes' 16 (len bytes') ->
  crc_with_zeroed_checksum bytes = crc_with_zeroed_checksum bytes'.
Proof.
  intros Hl H16 H1 H2. unfold crc_with_zeroed_checksum.
  rewrite !slice_Ok by lia. rewrite H1, H2. reflexivity.
Qed.

Lemma crc_zeroed_spec (S : CrcFastSpec C) bytes :
  16 <= len bytes ->
  crc_with_zeroed_checksum bytes = Ok (crc32c (sub bytes 0 12 ++ zeros 4 ++ sub bytes 16 (len bytes))).
Proof.
  intros. unfold crc_with_zeroed_checksum. rewrite !slice_Ok by lia. simpl. f_equal.
  pose proof (crc_parts S [sub bytes 0 12; zeros 4; sub bytes 16 (len bytes)]) as H'.
  simpl in H'. rewrite app_nil_r in H'. exact H'.
Qed.
End Codec.

#[export] Hint Resolve safe_slice safe_u32_at safe_u64_at safe_crc : moat.

(** Arithmetic side conditions about lengths. *)
Ltac len_lia := autorewrite with moat_len; lia.

(** Names the buffer after each in-range write of the goal, with its length. *)
Ltac step_write :=
  let b := fresh "b" in let Hb := fresh "Hb" in let Hlb := fresh "Hlb" in
  match goal with
  | |- context [copy_at ?l ?a ?s] => rewrite (copy_at_Ok l a s) by len_lia; cbn [rbind]
  | |- context [fill0 ?l ?a ?c] => rewrite (fill0_Ok l a c) by len_lia; cbn [rbind]
  end;
  match goal with
  | |- context [splice ?l ?a ?s] =>
      assert (Hlb : len (splice l a s) = len l) by (apply len_splice; len_lia);
      remember (splice l a s) as b eqn:Hb
  end.
Ltac run_writes := repeat step_write.

(** Reads a range of a buffer named by [step_write]. *)
Ltac read_write :=
  match goal with
  | H : ?b = splice ?l ?a ?s |- context [sub ?b ?x ?y] =>
      first
        [ replace (sub b x y) with s by (rewrite H; symmetry; apply sub_splice_same; len_lia)
        | replace (sub b x y) with (sub l x y)
            by (rewrite H; symmetry; first [apply sub_splice_before; len_lia | apply sub_splice_after; len_lia])
        | replace (sub b x y) with (sub s (x - a) (y - a))
            by (rewrite H; symmetry; apply sub_splice_inside; len_lia) ]
  end.
Ltac read_writes := repeat read_write.

(** Evaluates a field read whose value was written earlier. *)
Ltac read_u32 v :=
  match goal with
  | |- context [u32_at ?b ?k] =>
      rewrite (u32_at_field b k v) by first
        [ assumption | unfold is_u32; lia | len_lia | rewrite ?sub_sub by lia; read_writes; reflexivity ]
  end; cbn [rbind].
Ltac read_u64 v :=
  match goal with
  | |- context [u64_at ?b ?k] =>
      rewrite (u64_at_field b k v) by first
        [ assumption | unfold is_u64; lia | len_lia | rewrite ?sub_sub by lia; read_writes; reflexivity ]
  end; cbn [rbind].

(** Guards that do not fire. *)
Lemma fail_if_false {E} (c : bool) (e : E) : c = false -> fail_if c e = Ok tt.
Proof. intros ->. reflexivity. Qed.

Ltac pass_guard := rewrite fail_if_false; [cbn [rbind]|].

(** Splits a goal [safe (m1; m2; ...)] along its binds. *)
Ltac safe_steps :=
  repeat match goal with
  | |- safe (rbind _ _) => apply safe_rbind; [|intros ? ?]
  | |- safe (if _ then _ else _) => apply safe_if
  | |- safe (let _ := _ in _) => cbv zeta
  end; auto with moat.
