(* ===== verification/Pool.v ===== *)
(** * The buffer pool (moat-common/src/pool.rs)

    One binary buddy allocator per arena: free blocks are threaded into a
    doubly linked list per order, whose links lie in the free blocks
    themselves, and recorded in a bitmap per order; recent releases are parked
    on a stack per order. The pool serves size classes from its arenas and
    takes back blocks that other threads released. *)

From stdpp Require Import gmap.
From S2P Require Import Prelude Align.

(** ** Memory arenas (moat-common/src/arena.rs)

    The Linux mapping policy: explicit huge pages from the largest down, then
    plain pages advised to be huge. The system is a parameter: [mmap page len]
    tells whether a mapping of [len] bytes in pages of that size is granted,
    [madvise] whether the advice is taken. *)

Definition HUGE_PAGE_2M : Z := Z.shiftl 2 20.
Definition HUGE_PAGE_1G : Z := Z.shiftl 1 30.

Inductive HugePages := HugeDisabled | HugePreferred | HugeRequired.
Inductive Backing := Huge1G | Huge2M | Transparent | Plain.
Record Arena := { ar_len : Z; ar_backing : Backing }.

Definition huge_eqb (a b : HugePages) : bool :=
  match a, b with HugeDisabled, HugeDisabled | HugePreferred, HugePreferred | HugeRequired, HugeRequired => true | _, _ => false end.

Section System.
Context (mmap : Z -> Z -> bool) (madvise : bool).

(** The explicit huge page sizes, the first that is granted. *)
Fixpoint map_huge (pages : list Z) (l : Z) : option Arena :=
  match pages with
  | [] => None
  | page :: pages =>
      let rounded := align_up l page in
      if (rounded >? 2 * l) && (page =? HUGE_PAGE_1G) then map_huge pages l
      else if mmap page rounded then Some {| ar_len := rounded; ar_backing := if page =? HUGE_PAGE_1G then Huge1G else Huge2M |}
      else map_huge pages l
  end.

Definition map_plain (l : Z) (huge : HugePages) : res unit Arena :=
  let rounded := align_up l PAGE_SIZE in
  if mmap PAGE_SIZE rounded then
    Ok {| ar_len := rounded; ar_backing := if negb (huge_eqb huge HugeDisabled) && madvise then Transparent else Plain |}
  else Err tt.

Definition Arena_new (l : Z) (huge : HugePages) : res unit Arena :=
  if negb (l >? 0) then Panic
  else if negb (huge_eqb huge HugeDisabled) then
    match map_huge [HUGE_PAGE_1G; HUGE_PAGE_2M] l with
    | Some arena => Ok arena
    | None => if huge_eqb huge HugeRequired then Err tt else map_plain l huge
    end
  else map_plain l huge.

(** ** Lengths *)

Lemma align_up_arena l k : 12 <= k <= 30 -> 0 < l <= 2 ^ 30 -> let r := align_up l (2 ^ k) in l <= r <= 2 ^ 30 /\ (2 ^ 12 | r).
Proof.
  intros Hk Hl r. destruct (align_up_bounds k (2 ^ k) ltac:(lia) eq_refl l ltac:(lia)) as (q & Hq & Hb).
  { pose proof (Z.pow_le_mono_r 2 k 30 ltac:(lia) ltac:(lia)). lia. }
  assert (Hd : 2 ^ 30 = 2 ^ k * 2 ^ (30 - k)) by (rewrite <- Z.pow_add_r by lia; f_equal; lia). pose proof (Z.pow_pos_nonneg 2 k ltac:(lia) ltac:(lia)).
  unfold r. rewrite Hq. split; [split; [lia|]; rewrite Hd in *; set (c := 2 ^ (30 - k)) in *; destruct (Z.le_gt_cases q c); nia|].
  apply Z.divide_mul_l. exists (2 ^ (k - 12)). rewrite <- Z.pow_add_r by lia. f_equal. lia.
Qed.

(** An arena of at most 1 GiB holds what was asked for, in whole pages, and still at most 1 GiB. *)
Lemma Arena_new_len l huge a : l <= 2 ^ 30 -> Arena_new l huge = Ok a -> 0 < l <= ar_len a /\ ar_len a <= 2 ^ 30 /\ (2 ^ 12 | ar_len a).
Proof.
  unfold Arena_new. intros Hl. destruct (Z.gtb_spec l 0) as [Hpos|]; [|discriminate]. cbn [negb].
  assert (Hplain : map_plain l huge = Ok a -> 0 < l <= ar_len a /\ ar_len a <= 2 ^ 30 /\ (2 ^ 12 | ar_len a)).
  { unfold map_plain. destruct (mmap _ _); [|discriminate]. intros [= <-]. cbn [ar_len]. change PAGE_SIZE with (2 ^ 12). destruct (align_up_arena l 12 ltac:(lia) ltac:(lia)) as [? ?]. split; [lia | split; [lia | assumption]]. }
  destruct (negb (huge_eqb huge HugeDisabled)); [|exact Hplain].
  destruct (map_huge _ l) as [a0|] eqn:Hh; [|destruct (huge_eqb huge HugeRequired); [discriminate | exact Hplain]]. intros [= ->]. clear Hplain. cbn [map_huge] in Hh.
  assert (H1 : 0 < l <= align_up l HUGE_PAGE_1G /\ align_up l HUGE_PAGE_1G <= 2 ^ 30 /\ (2 ^ 12 | align_up l HUGE_PAGE_1G)).
  { change HUGE_PAGE_1G with (2 ^ 30). destruct (align_up_arena l 30 ltac:(lia) ltac:(lia)) as [? ?]. split; [lia | split; [lia | assumption]]. }
  assert (H2 : 0 < l <= align_up l HUGE_PAGE_2M /\ align_up l HUGE_PAGE_2M <= 2 ^ 30 /\ (2 ^ 12 | align_up l HUGE_PAGE_2M)).
  { change HUGE_PAGE_2M with (2 ^ 21). destruct (align_up_arena l 21 ltac:(lia) ltac:(lia)) as [? ?]. split; [lia | split; [lia | assumption]]. }
  repeat match type of Hh with context [if ?c then _ else _] => destruct c end; try discriminate; injection Hh as <-; assumption.
Qed.

(** Without a refusal of the plain mapping, only required huge pages fail. *)
Lemma Arena_new_preferred l huge : 0 < l -> huge <> HugeRequired -> (forall n, mmap PAGE_SIZE n = true) -> exists a, Arena_new l huge = Ok a.
Proof.
  intros Hl Hh Hm. unfold Arena_new. destruct (Z.gtb_spec l 0); [|lia]. cbn [negb]. assert (Hp : exists a, map_plain l huge = Ok a) by (unfold map_plain; rewrite Hm; eauto).
  destruct (negb _); [|exact Hp]. destruct (map_huge _ l); [eauto|]. destruct huge; [exact Hp | exact Hp | contradiction].
Qed.
End System.

Definition ARENA_MAX : Z := 2 ^ 30.
Definition NONE : Z := U64_MAX.
Definition LAZY_BYTES_PER_ORDER : Z := Z.shiftl 8 20.

(** ** One arena's allocator

    [bd_links] is what the first two words of a block hold, by the offset of
    the block; a parked stack is listed from its top; [bd_caps] are the
    capacities the stacks were given. *)

Record Buddy := {
  bd_links : gmap Z (Z * Z);
  bd_min_shift : Z;
  bd_heads : list Z;
  bd_parked : list (list Z);
  bd_caps : list Z;
  bd_bitmaps : list (list Z)
}.

Definition bd_set_links (v : gmap Z (Z * Z)) (b : Buddy) : Buddy :=
  {| bd_links := v; bd_min_shift := bd_min_shift b; bd_heads := bd_heads b; bd_parked := bd_parked b; bd_caps := bd_caps b; bd_bitmaps := bd_bitmaps b |}.
Definition bd_set_heads (v : list Z) (b : Buddy) : Buddy :=
  {| bd_links := bd_links b; bd_min_shift := bd_min_shift b; bd_heads := v; bd_parked := bd_parked b; bd_caps := bd_caps b; bd_bitmaps := bd_bitmaps b |}.
Definition bd_set_parked (v : list (list Z)) (b : Buddy) : Buddy :=
  {| bd_links := bd_links b; bd_min_shift := bd_min_shift b; bd_heads := bd_heads b; bd_parked := v; bd_caps := bd_caps b; bd_bitmaps := bd_bitmaps b |}.
Definition bd_set_bitmaps (v : list (list Z)) (b : Buddy) : Buddy :=
  {| bd_links := bd_links b; bd_min_shift := bd_min_shift b; bd_heads := bd_heads b; bd_parked := bd_parked b; bd_caps := bd_caps b; bd_bitmaps := v |}.

Definition block_size (b : Buddy) (order : Z) : Z := Z.shiftl 1 (order + bd_min_shift b).

Definition get_links (b : Buddy) (offset : Z) : Z * Z := default (0, 0) (bd_links b !! offset).
Definition set_links (b : Buddy) (offset prev next : Z) : Buddy := bd_set_links (<[offset := (prev, next)]> (bd_links b)) b.

Definition bit_of (b : Buddy) (order offset : Z) : Z * Z :=
  let index := Z.shiftr offset (order + bd_min_shift b) in
  (index / 64, Z.shiftl 1 (index mod 64)).

Definition is_free (b : Buddy) (order offset : Z) : steps bool :=
  let '(word, mask) := bit_of b order offset in
  let? words := index_get (bd_bitmaps b) order in
  Ok (match words !! Z.to_nat word with Some w => negb (Z.land w mask =? 0) | None => false end).

(** [self.bitmaps[order][word]] replaced by [f] of it. *)
Definition update_bitmap (b : Buddy) (order word : Z) (f : Z -> Z) : steps Buddy :=
  let? words := index_get (bd_bitmaps b) order in
  let? w := index_get words word in
  let? words := index_set words word (f w) in
  let? bitmaps := index_set (bd_bitmaps b) order words in
  Ok (bd_set_bitmaps bitmaps b).

Definition buddy_push (b : Buddy) (order offset : Z) : steps Buddy :=
  let? head := index_get (bd_heads b) order in
  let b := set_links b offset NONE head in
  let b := if head =? NONE then b else let '(_, next) := get_links b head in set_links b head offset next in
  let? heads := index_set (bd_heads b) order offset in
  let b := bd_set_heads heads b in
  let '(word, mask) := bit_of b order offset in
  update_bitmap b order word (fun w => Z.lor w mask).

Definition buddy_unlink (b : Buddy) (order offset : Z) : steps Buddy :=
  let '(prev, next) := get_links b offset in
  let? b :=
    (if prev =? NONE then let? heads := index_set (bd_heads b) order next in Ok (bd_set_heads heads b)
     else let '(pp, _) := get_links b prev in Ok (set_links b prev pp next)) in
  let b := if next =? NONE then b else let '(_, nn) := get_links b next in set_links b next prev nn in
  let '(word, mask) := bit_of b order offset in
  update_bitmap b order word (fun w => Z.ldiff w mask).

(** The first order of [k ..] with a listed block. *)
Fixpoint find_order (n : nat) (heads : list Z) (k : Z) : steps (option Z) :=
  match n with
  | O => Ok None
  | S n =>
      let? head := index_get heads k in
      if head =? NONE then find_order n heads (k + 1) else Ok (Some k)
  end.

Definition first_listed (b : Buddy) (order : Z) : steps (option Z) :=
  find_order (Z.to_nat (len (bd_heads b) - order)) (bd_heads b) order.

(** Merges the block with its free buddies, [n] times at most. *)
Fixpoint merge_up (n : nat) (b : Buddy) (offset order : Z) : steps (Buddy * Z * Z) :=
  match n with
  | O => Ok (b, offset, order)
  | S n =>
      if order + 1 <? len (bd_heads b) then
        let buddy := Z.lxor offset (block_size b order) in
        let? free := is_free b order buddy in
        if (free : bool) then
          let? b := buddy_unlink b order buddy in
          merge_up n b (Z.min offset buddy) (order + 1)
        else Ok (b, offset, order)
      else Ok (b, offset, order)
  end.

Definition release_eager (b : Buddy) (offset order : Z) : steps Buddy :=
  let? (b, offset, order) := merge_up (length (bd_heads b)) b offset order in
  buddy_push b order offset.

(** Empties the stack of one order, holding [n] blocks. *)
Fixpoint compact_order (n : nat) (b : Buddy) (order : Z) : steps Buddy :=
  match n with
  | O => Ok b
  | S n =>
      let? stack := index_get (bd_parked b) order in
      match stack with
      | [] => Ok b
      | offset :: stack =>
          let? parked := index_set (bd_parked b) order stack in
          let? b := release_eager (bd_set_parked parked b) offset order in
          compact_order n b order
      end
  end.

Fixpoint compact_from (n : nat) (b : Buddy) (order : Z) : steps Buddy :=
  match n with
  | O => Ok b
  | S n =>
      let? stack := index_get (bd_parked b) order in
      let? b := compact_order (length stack) b order in
      compact_from n b (order + 1)
  end.

Definition buddy_compact (b : Buddy) : steps Buddy := compact_from (length (bd_heads b)) b 0.

(** Pushes the upper halves of a block split from order [order + n] to [order]. *)
Fixpoint split_down (n : nat) (b : Buddy) (offset order : Z) : steps Buddy :=
  match n with
  | O => Ok b
  | S n =>
      let k := order + Z.of_nat n in
      let? b := buddy_push b k (offset + block_size b k) in
      split_down n b offset order
  end.

Definition take_listed (b : Buddy) (from order : Z) : steps (option Z * Buddy) :=
  let? offset := index_get (bd_heads b) from in
  let? b := buddy_unlink b from offset in
  let? b := split_down (Z.to_nat (from - order)) b offset order in
  Ok (Some offset, b).

Definition buddy_alloc (b : Buddy) (order : Z) : steps (option Z * Buddy) :=
  let? stack := index_get (bd_parked b) order in
  match stack with
  | offset :: stack =>
      let? parked := index_set (bd_parked b) order stack in
      Ok (Some offset, bd_set_parked parked b)
  | [] =>
      let? from := first_listed b order in
      match from with
      | Some from => take_listed b from order
      | None =>
          if forallb (fun s => match s with [] => true | _ :: _ => false end) (bd_parked b) then Ok (None, b)
          else
            let? b := buddy_compact b in
            let? from := first_listed b order in
            match from with
            | Some from => take_listed b from order
            | None => Ok (None, b)
            end
      end
  end.

Definition buddy_release (b : Buddy) (offset order : Z) : steps Buddy :=
  let? stack := index_get (bd_parked b) order in
  let? cap := index_get (bd_caps b) order in
  if len stack <? cap then
    let? parked := index_set (bd_parked b) order (offset :: stack) in
    Ok (bd_set_parked parked b)
  else release_eager b offset order.

(** The binary decomposition of what remains of the arena. *)
Fixpoint seed (n : nat) (b : Buddy) (max_shift offset remaining : Z) : steps Buddy :=
  match n with
  | O => Ok b
  | S n =>
      if remaining >=? Z.shiftl 1 (bd_min_shift b) then
        let sz := Z.min (Z.shiftl 1 (Z.log2 remaining)) (Z.shiftl 1 max_shift) in
        let order := trailing_zeros sz - bd_min_shift b in
        let? b := buddy_push b order offset in
        seed n b max_shift (offset + sz) (remaining - sz)
      else Ok b
  end.

(** [capacity_of n] is the capacity [Vec::with_capacity(n)] gives. *)
Definition Buddy_new (capacity_of : Z -> Z) (arena_len min_shift max_shift : Z) : steps Buddy :=
  let orders := Z.to_nat (max_shift - min_shift + 1) in
  let order_ids := map Z.of_nat (seq 0 orders) in
  seed (S (Z.to_nat (Z.shiftr arena_len min_shift)))
    {| bd_links := ∅; bd_min_shift := min_shift; bd_heads := replicate orders NONE; bd_parked := replicate orders [];
       bd_caps := map (fun k => capacity_of (Z.max (Z.shiftr LAZY_BYTES_PER_ORDER (k + min_shift)) 1)) order_ids;
       bd_bitmaps := map (fun k => replicate (Z.to_nat (Z.max (div_ceil (Z.shiftr arena_len (k + min_shift)) 64) 1)) 0) order_ids |}
    max_shift 0 arena_len.

(** ** The pool

    [returned] is the stack of blocks that other threads released, from its
    top; [thread] is the caller's identity. *)

Record PoolOptions := { po_bytes : Z; po_max_class : Z; po_huge_pages : HugePages }.
Record Returned := { ret_arena : Z; ret_offset : Z; ret_len : Z }.
Record PooledBuf := { pb_arena : Z; pb_offset : Z; pb_len : Z }.
Record BufferPool := {
  bp_arenas : list Arena;
  bp_min_shift : Z;
  bp_max_shift : Z;
  bp_buddies : list Buddy;
  bp_home : Z;
  bp_returned : list Returned;
  bp_in_use : Z
}.

Definition bp_set_buddies (v : list Buddy) (p : BufferPool) : BufferPool :=
  {| bp_arenas := bp_arenas p; bp_min_shift := bp_min_shift p; bp_max_shift := bp_max_shift p; bp_buddies := v; bp_home := bp_home p; bp_returned := bp_returned p; bp_in_use := bp_in_use p |}.
Definition bp_set_returned (v : list Returned) (p : BufferPool) : BufferPool :=
  {| bp_arenas := bp_arenas p; bp_min_shift := bp_min_shift p; bp_max_shift := bp_max_shift p; bp_buddies := bp_buddies p; bp_home := bp_home p; bp_returned := v; bp_in_use := bp_in_use p |}.
Definition bp_set_in_use (v : Z) (p : BufferPool) : BufferPool :=
  {| bp_arenas := bp_arenas p; bp_min_shift := bp_min_shift p; bp_max_shift := bp_max_shift p; bp_buddies := bp_buddies p; bp_home := bp_home p; bp_returned := bp_returned p; bp_in_use := v |}.

(** [mmap] and [madvise] are the system's answers, by the number of the arena
    that is mapped. *)
Section Construction.
Context (mmap : Z -> Z -> Z -> bool) (madvise : Z -> bool) (capacity_of : Z -> Z).

(** Maps arenas of at most [ARENA_MAX] bytes, the last one shorter, [n] at most. *)
Fixpoint map_arenas (n : nat) (i remaining : Z) (huge : HugePages) : steps (list Arena) :=
  match n with
  | O => Ok []
  | S n =>
      if remaining >? 0 then
        let l := Z.min remaining ARENA_MAX in
        let? arena := Arena_new (mmap i) (madvise i) l huge in
        let? rest := map_arenas n (i + 1) (remaining - l) huge in
        Ok (arena :: rest)
      else Ok []
  end.

Fixpoint new_buddies (arenas : list Arena) (min_shift max_shift : Z) : steps (list Buddy) :=
  match arenas with
  | [] => Ok []
  | a :: arenas =>
      let? b := Buddy_new capacity_of (ar_len a) min_shift max_shift in
      let? rest := new_buddies arenas min_shift max_shift in
      Ok (b :: rest)
  end.

Definition BufferPool_new (thread : Z) (opts : PoolOptions) : steps BufferPool :=
  let min_shift := trailing_zeros PAGE_SIZE in
  if negb (is_power_of_two (po_max_class opts) && (PAGE_SIZE <=? po_max_class opts)) then Panic
  else if po_max_class opts >? ARENA_MAX then Panic
  else
    let max_shift := trailing_zeros (po_max_class opts) in
    let total := align_up (Z.max (po_bytes opts) (po_max_class opts)) (po_max_class opts) in
    let? arenas := map_arenas (S (Z.to_nat (total / ARENA_MAX))) 0 total (po_huge_pages opts) in
    let? buddies := new_buddies arenas min_shift max_shift in
    Ok {| bp_arenas := arenas; bp_min_shift := min_shift; bp_max_shift := max_shift; bp_buddies := buddies; bp_home := thread; bp_returned := []; bp_in_use := 0 |}.
End Construction.

Definition pool_capacity (p : BufferPool) : Z := foldr Z.add 0 (map ar_len (bp_arenas p)).
Definition max_class (p : BufferPool) : Z := Z.shiftl 1 (bp_max_shift p).
Definition is_home (thread : Z) (p : BufferPool) : bool := thread =? bp_home p.
Definition class_size (p : BufferPool) (l : Z) : Z := Z.max (next_power_of_two (Z.max l 1)) (Z.shiftl 1 (bp_min_shift p)).
Definition order_of (p : BufferPool) (l : Z) : Z := trailing_zeros l - bp_min_shift p.

Definition release_at (p : BufferPool) (arena offset l : Z) : steps BufferPool :=
  let? b := index_get (bp_buddies p) arena in
  let? b := buddy_release b offset (order_of p l) in
  let? buddies := index_set (bp_buddies p) arena b in
  Ok (bp_set_buddies buddies p).

Fixpoint drain_nodes (nodes : list Returned) (p : BufferPool) : steps BufferPool :=
  match nodes with
  | [] => Ok p
  | n :: nodes => let? p := release_at p (ret_arena n) (ret_offset n) (ret_len n) in drain_nodes nodes p
  end.

Definition drain_returned (p : BufferPool) : steps BufferPool := drain_nodes (bp_returned p) (bp_set_returned [] p).

(** The first arena with a block of the order; those before it stay as the
    attempt left them. *)
Fixpoint alloc_first (bs : list Buddy) (i order : Z) : steps (option (Z * Z) * list Buddy) :=
  match bs with
  | [] => Ok (None, [])
  | b :: bs =>
      let? (found, b) := buddy_alloc b order in
      match found with
      | Some offset => Ok (Some (i, offset), b :: bs)
      | None => let? (found, bs) := alloc_first bs (i + 1) order in Ok (found, b :: bs)
      end
  end.

Definition pool_alloc (thread : Z) (p : BufferPool) (l : Z) : steps (option PooledBuf * BufferPool) :=
  if l >? max_class p then Ok (None, p)
  else
    let sz := class_size p l in
    if negb (is_home thread p) then Panic
    else
      let? p := drain_returned p in
      let? (found, buddies) := alloc_first (bp_buddies p) 0 (order_of p sz) in
      let p := bp_set_buddies buddies p in
      match found with
      | Some (arena, offset) => Ok (Some {| pb_arena := arena; pb_offset := offset; pb_len := sz |}, bp_set_in_use (wrap64 (bp_in_use p + sz)) p)
      | None => Ok (None, p)
      end.

(** Dropping a buffer; away from home the block joins the return stack. *)
Definition pool_release (thread : Z) (p : BufferPool) (buf : PooledBuf) : steps BufferPool :=
  let p := bp_set_in_use (wrap64 (bp_in_use p - pb_len buf)) p in
  if is_home thread p then release_at p (pb_arena buf) (pb_offset buf) (pb_len buf)
  else Ok (bp_set_returned ({| ret_arena := pb_arena buf; ret_offset := pb_offset buf; ret_len := pb_len buf |} :: bp_returned p) p).
