(* ===== verification/PoolLinks.v ===== *)
(** * Free lists and bitmaps of the buddy allocator

    The intrusive list and the bitmap of every order represent one set of
    blocks: pushing, unlinking and testing are insertion, removal and
    membership. *)

From stdpp Require Import gmap.
From S2P Require Import Prelude Align Pool.

(** ** Chains *)

Definition first (l : list Z) : Z := match l with [] => NONE | o :: _ => o end.

(** The blocks of [l] are linked in this order, the first one behind [prev]. *)
Fixpoint chain (links : gmap Z (Z * Z)) (prev : Z) (l : list Z) : Prop :=
  match l with
  | [] => True
  | o :: r => links !! o = Some (prev, first r) /\ chain links o r
  end.

Lemma chain_frame links links' prev l : (forall o, o ∈ l -> links' !! o = links !! o) -> chain links prev l -> chain links' prev l.
Proof.
  revert prev. induction l as [|o r IH]; intros prev Hf; [auto|]. intros [Ho Hr]. split; [rewrite Hf by left; exact Ho|].
  apply IH; [intros x Hx; apply Hf; right; exact Hx | exact Hr].
Qed.

(** Links of the neighbours after a block is taken out. *)
Definition relink (links : gmap Z (Z * Z)) (prev next : Z) : gmap Z (Z * Z) :=
  let links := if prev =? NONE then links else <[prev := ((default (0, 0) (links !! prev)).1, next)]> links in
  if next =? NONE then links else <[next := (prev, (default (0, 0) (links !! next)).2)]> links.

Lemma relink_other links prev next o : (prev <> NONE -> o <> prev) -> (next <> NONE -> o <> next) -> relink links prev next !! o = links !! o.
Proof.
  intros Hp Hn. unfold relink. destruct (Z.eqb_spec next NONE), (Z.eqb_spec prev NONE); 
    rewrite ?lookup_insert_ne by (apply not_eq_sym; auto); reflexivity.
Qed.

Lemma chain_unlink_head links o c : NoDup (o :: c) -> NONE ∉ o :: c -> chain links NONE (o :: c) -> chain (relink links NONE (first c)) NONE c.
Proof.
  intros Hd Hn [Ho Hc]. destruct c as [|n r]; [exact I|]. cbn [first]. destruct Hc as [Hx Hr]. apply NoDup_cons in Hd as [_ Hd]. apply NoDup_cons in Hd as [Hnr _].
  unfold relink. rewrite Z.eqb_refl. destruct (Z.eqb_spec n NONE) as [->|Hne]; [destruct Hn; right; left|]. rewrite Hx. cbn [default snd].
  split; [apply lookup_insert_eq|]. eapply chain_frame; [|exact Hr]. intros x Hin. apply lookup_insert_ne. congruence.
Qed.

Lemma chain_middle links a x o c : forall prev, chain links prev (a ++ x :: o :: c) -> links !! o = Some (x, first c).
Proof. induction a as [|y a IH]; intros prev Hc; [destruct Hc as (_ & Ho & _); exact Ho | destruct Hc as [_ Hc]; eapply IH; exact Hc]. Qed.

Lemma first_app a c : a <> [] -> first (a ++ c) = first a.
Proof. destruct a; [congruence | reflexivity]. Qed.

Lemma chain_unlink_inner links a x o c : forall prev, NoDup (a ++ x :: o :: c) -> NONE ∉ a ++ x :: o :: c -> chain links prev (a ++ x :: o :: c) ->
  chain (relink links x (first c)) prev (a ++ x :: c).
Proof.
  induction a as [|y a IH]; intros prev Hd Hn Hc; cbn [app] in *.
  - destruct Hc as (Hx & Ho & Hc). apply NoDup_cons in Hd as [Hxr Hd]. apply NoDup_cons in Hd as [Hor Hd].
    assert (Hx0 : (x =? NONE) = false) by (apply Z.eqb_neq; intros ->; apply Hn; left). unfold relink. rewrite Hx0, Hx. cbn [default fst].
    destruct c as [|n r]; cbn [first].
    + rewrite Z.eqb_refl. split; [apply lookup_insert_eq | exact I].
    + destruct Hc as [Hn' Hr]. apply NoDup_cons in Hd as [Hnr _]. assert (x <> n) by (intros ->; apply Hxr; right; left).
      assert (Hn0 : (n =? NONE) = false) by (apply Z.eqb_neq; intros ->; apply Hn; right; right; left). rewrite Hn0, lookup_insert_ne by congruence. rewrite Hn'. cbn [default snd].
      split; [rewrite lookup_insert_ne by congruence; apply lookup_insert_eq|]. split; [apply lookup_insert_eq|].
      eapply chain_frame; [|exact Hr]. intros z Hz. rewrite !lookup_insert_ne; [reflexivity| |]; intros ->; [apply Hxr; right; right; exact Hz | contradiction].
  - destruct Hc as [Hy Hc]. apply NoDup_cons in Hd as [Hya Hd].
    assert (Hya' : y ∉ a ++ x :: c). { intros Hin. apply Hya. apply elem_of_app in Hin as [|Hin]; [apply elem_of_app; auto|]. apply elem_of_app. right. apply elem_of_cons in Hin as [->|]; [left | right; right; assumption]. }
    split; [|apply IH; [exact Hd | intros Hin; apply Hn; right; exact Hin | exact Hc]].
    rewrite relink_other, Hy.
    + f_equal. f_equal. destruct a; reflexivity.
    + intros _ ->. apply Hya'. apply elem_of_app. right. left.
    + destruct c as [|n r]; cbn [first]; [congruence|]. intros _ ->. apply Hya'. apply elem_of_app. right. right. left.
Qed.

(** ** Bitmaps *)

Definition bit_at (ws : list Z) (i : Z) : bool := match ws !! Z.to_nat (i / 64) with Some w => Z.testbit w (i mod 64) | None => false end.

Lemma testbit_mask m j : 0 <= m -> 0 <= j -> Z.testbit (Z.shiftl 1 m) j = (m =? j).
Proof.
  intros Hm Hj. rewrite Z.shiftl_1_l. destruct (Z.eqb_spec m j) as [->|Hne]; [apply Z.pow2_bits_true; lia | apply Z.pow2_bits_false; lia].
Qed.

Lemma land_mask w m : 0 <= m -> negb (Z.land w (Z.shiftl 1 m) =? 0) = Z.testbit w m.
Proof.
  intros Hm. destruct (Z.testbit w m) eqn:Hb.
  - apply negb_true_iff, Z.eqb_neq. intros H0. assert (Z.testbit (Z.land w (Z.shiftl 1 m)) m = true); [|rewrite H0, Z.bits_0 in *; discriminate].
    rewrite Z.land_spec, Hb, testbit_mask, Z.eqb_refl by lia. reflexivity.
  - apply negb_false_iff, Z.eqb_eq. apply Z.bits_inj'. intros j Hj. rewrite Z.land_spec, Z.bits_0, testbit_mask by lia. destruct (Z.eqb_spec m j) as [->|]; [rewrite Hb; reflexivity | apply andb_false_r].
Qed.

Lemma bit_at_update ws i0 w f (v : bool) i : 0 <= i0 -> 0 <= i -> ws !! Z.to_nat (i0 / 64) = Some w ->
  (forall j, 0 <= j -> Z.testbit (f w) j = if i0 mod 64 =? j then v else Z.testbit w j) ->
  bit_at (<[Z.to_nat (i0 / 64) := f w]> ws) i = if i0 =? i then v else bit_at ws i.
Proof.
  intros H0 Hi Hw Hf. unfold bit_at. assert (0 <= i mod 64) by dlia. destruct (Z.eq_dec (i0 / 64) (i / 64)) as [He|He].
  - rewrite <- He, list_lookup_insert_eq by (apply lookup_lt_Some in Hw; exact Hw). rewrite Hw, Hf by assumption.
    destruct (Z.eqb_spec (i0 mod 64) (i mod 64)), (Z.eqb_spec i0 i); auto; exfalso; dlia.
  - rewrite list_lookup_insert_ne by (intros Heq; apply He; apply Z2Nat.inj in Heq; dlia). destruct (Z.eqb_spec i0 i) as [->|]; [congruence | reflexivity].
Qed.

(** ** Lists by order *)

Lemma concat_remove {A} (ls : list (list A)) k l o l' : ls !! k = Some l -> Permutation l (o :: l') -> Permutation (concat ls) (o :: concat (<[k := l']> ls)).
Proof.
  revert k. induction ls as [|x ls IH]; intros [|k] Hl Hp; try discriminate; cbn in *.
  - injection Hl as ->. rewrite Hp. reflexivity.
  - rewrite (IH k Hl Hp). rewrite Permutation_middle. reflexivity.
Qed.

Lemma elem_of_concat {A} (ls : list (list A)) o : o ∈ concat ls <-> exists k l, ls !! k = Some l /\ o ∈ l.
Proof.
  split.
  - induction ls as [|x ls IH]; cbn; [intros H; inversion H|]. intros Hin. apply elem_of_app in Hin as [Hin|Hin]; [exists 0%nat, x; auto|]. destruct (IH Hin) as (k & l & Hl & Ho). exists (S k), l. auto.
  - intros (k & l & Hl & Ho). revert k Hl. induction ls as [|x ls IH]; intros [|k] Hl; try discriminate; cbn in *; apply elem_of_app; [injection Hl as ->; auto | right; eapply IH; eassumption].
Qed.

Lemma concat_disjoint {A} (ls : list (list A)) j k l l' o : NoDup (concat ls) -> ls !! j = Some l -> ls !! k = Some l' -> o ∈ l -> o ∈ l' -> j = k.
Proof.
  revert j k. induction ls as [|x ls IH]; intros [|j] [|k] Hd Hj Hk Ho Ho'; try discriminate; cbn in *; auto; apply NoDup_app in Hd as (_ & Hx & Hd).
  - injection Hj as ->. destruct (Hx o Ho). apply elem_of_concat. eauto.
  - injection Hk as ->. destruct (Hx o Ho'). apply elem_of_concat. eauto.
  - f_equal. eapply IH; eassumption.
Qed.

Lemma concat_NoDup {A} (ls : list (list A)) k l : NoDup (concat ls) -> ls !! k = Some l -> NoDup l.
Proof. revert k. induction ls as [|x ls IH]; intros [|k] Hd Hl; try discriminate; cbn in *; apply NoDup_app in Hd as (Hx & _ & Hd); [injection Hl as ->; assumption | eauto]. Qed.

(** ** One set of blocks per order *)

Section Wired.
Context (s alen : Z) (Hs : 0 <= s) (Hlen : 0 <= alen <= ARENA_MAX).

Definition bsz (k : Z) : Z := 2 ^ (k + s).

Lemma bsz_pos k : 0 <= k -> 0 < bsz k.
Proof. intros. unfold bsz. apply Z.pow_pos_nonneg; lia. Qed.

(** A block of the arena. *)
Definition placed (k o : Z) : Prop := 0 <= o /\ o + bsz k <= alen /\ o mod bsz k = 0.

Lemma placed_not_none k o : 0 <= k -> placed k o -> o <> NONE.
Proof. intros Hk (H1 & H2 & _). pose proof (bsz_pos k Hk). unfold NONE, U64_MAX, ARENA_MAX in *. lia. Qed.

Record wired (b : Buddy) (ls : list (list Z)) : Prop := {
  w_shift : bd_min_shift b = s;
  w_orders : length (bd_heads b) = length ls;
  w_heads : forall k l, ls !! k = Some l -> bd_heads b !! k = Some (first l);
  w_links : forall k l, ls !! k = Some l -> chain (bd_links b) NONE l;
  w_words : length (bd_bitmaps b) = length ls;
  w_bits : forall k l ws, ls !! k = Some l -> bd_bitmaps b !! k = Some ws ->
    alen / bsz (Z.of_nat k) <= 64 * len ws /\ forall i, 0 <= i -> bit_at ws i = true <-> i * bsz (Z.of_nat k) ∈ l;
  w_placed : forall k l o, ls !! k = Some l -> o ∈ l -> placed (Z.of_nat k) o;
  w_distinct : NoDup (concat ls)
}.

Lemma index_get_Some {E A} (l : list A) i x : 0 <= i -> l !! Z.to_nat i = Some x -> index_get (E := E) l i = Ok x.
Proof. intros Hi Hx. unfold index_get. rewrite (proj2 (Z.leb_le 0 i) Hi), Hx. reflexivity. Qed.

Lemma index_set_Some {E A} (l : list A) i x v : 0 <= i -> l !! Z.to_nat i = Some x -> index_set (E := E) l i v = Ok (<[Z.to_nat i := v]> l).
Proof.
  intros Hi Hx. apply lookup_lt_Some in Hx. unfold index_set, len. rewrite (proj2 (Z.leb_le 0 i) Hi), (proj2 (Z.ltb_lt i _)) by lia. reflexivity.
Qed.

Lemma block_index k o : 0 <= k -> placed k o -> Z.shiftr o (k + s) = o / bsz k /\ o / bsz k * bsz k = o /\ 0 <= o / bsz k < alen / bsz k.
Proof.
  intros Hk (H1 & H2 & H3). pose proof (bsz_pos k Hk) as Hb. split; [rewrite Z.shiftr_div_pow2 by lia; reflexivity|]. rewrite Z.mul_comm.
  pose proof (Z.div_exact o (bsz k) ltac:(lia)) as Hd. apply proj2 in Hd. specialize (Hd H3). split; [lia|]. split; [apply Z.div_pos; lia|].
  apply Z.lt_le_trans with (o / bsz k + 1); [lia|]. rewrite <- Z.div_add by lia. apply Z.div_le_mono; lia.
Qed.

(** The bitmap of one order rewritten at one block. *)
Lemma update_bitmap_spec b ls k l o f v : wired b ls -> ls !! k = Some l -> placed (Z.of_nat k) o ->
  (forall w j, 0 <= j -> Z.testbit (f w) j = if (o / bsz (Z.of_nat k)) mod 64 =? j then v else Z.testbit w j) ->
  exists ws ws', bd_bitmaps b !! k = Some ws /\ update_bitmap b (Z.of_nat k) (o / bsz (Z.of_nat k) / 64) f = Ok (bd_set_bitmaps (<[k := ws']> (bd_bitmaps b)) b) /\
    len ws' = len ws /\ forall i, 0 <= i -> bit_at ws' i = if o / bsz (Z.of_nat k) =? i then v else bit_at ws i.
Proof.
  intros W Hl Hp Hf. destruct (block_index (Z.of_nat k) o ltac:(lia) Hp) as (_ & _ & Hi). set (i0 := o / bsz (Z.of_nat k)) in *.
  destruct (lookup_lt_is_Some_2 (bd_bitmaps b) k) as [ws Hws]; [rewrite (w_words _ _ W); apply lookup_lt_Some in Hl; exact Hl|].
  destruct (w_bits _ _ W k l ws Hl Hws) as [Hcap _]. destruct (lookup_lt_is_Some_2 ws (Z.to_nat (i0 / 64))) as [w Hw]; [unfold len in Hcap; dlia|].
  exists ws, (<[Z.to_nat (i0 / 64) := f w]> ws). split; [exact Hws|]. split.
  - unfold update_bitmap. rewrite (index_get_Some _ _ ws) by (rewrite ?Nat2Z.id; auto; lia). cbn [rbind]. rewrite (index_get_Some _ _ w) by (auto; dlia). cbn [rbind].
    rewrite (index_set_Some _ _ w) by (auto; dlia). cbn [rbind]. rewrite (index_set_Some _ _ ws) by (rewrite ?Nat2Z.id; auto; lia). cbn [rbind]. rewrite Nat2Z.id. reflexivity.
  - split; [unfold len; rewrite length_insert; reflexivity|]. intros i Hi'. apply bit_at_update; [lia | lia | exact Hw | intros j Hj; apply Hf; exact Hj].
Qed.

(** ** Membership, insertion and removal *)

Lemma is_free_spec b ls k l o : wired b ls -> ls !! k = Some l -> 0 <= o -> o mod bsz (Z.of_nat k) = 0 ->
  is_free b (Z.of_nat k) o = Ok (bool_decide (o ∈ l)).
Proof.
  intros W Hl Ho Hm. unfold is_free, bit_of. rewrite (w_shift _ _ W). pose proof (bsz_pos (Z.of_nat k) ltac:(lia)) as Hb.
  destruct (lookup_lt_is_Some_2 (bd_bitmaps b) k) as [ws Hws]; [rewrite (w_words _ _ W); apply lookup_lt_Some in Hl; exact Hl|].
  rewrite (index_get_Some _ _ ws) by (rewrite ?Nat2Z.id; auto; lia). cbn [rbind]. f_equal. rewrite Z.shiftr_div_pow2 by lia. fold (bsz (Z.of_nat k)). set (i := o / bsz (Z.of_nat k)).
  assert (Hi : 0 <= i) by (apply Z.div_pos; lia). assert (Hio : i * bsz (Z.of_nat k) = o). { rewrite Z.mul_comm. symmetry. apply Z.div_exact; [lia | exact Hm]. }
  destruct (w_bits _ _ W k l ws Hl Hws) as [_ Hbits]. specialize (Hbits i Hi). rewrite Hio in Hbits.
  assert (He : match ws !! Z.to_nat (i / 64) with Some w => negb (Z.land w (Z.shiftl 1 (i mod 64)) =? 0) | None => false end = bit_at ws i).
  { unfold bit_at. destruct (ws !! Z.to_nat (i / 64)); [apply land_mask; dlia | reflexivity]. }
  rewrite He. symmetry. destruct (bit_at ws i); [apply bool_decide_true | apply bool_decide_false]; [apply Hbits; reflexivity | intros Hin; apply Hbits in Hin; discriminate].
Qed.

(** The lists and bitmap of one order replaced. *)
Lemma wired_update b ls k l l' links heads ws ws' : wired b ls -> ls !! k = Some l -> bd_bitmaps b !! k = Some ws -> NoDup (concat (<[k := l']> ls)) ->
  (forall o, o ∈ l' -> placed (Z.of_nat k) o) -> heads = <[k := first l']> (bd_heads b) -> chain links NONE l' ->
  (forall o, o ∉ l -> o ∉ l' -> links !! o = bd_links b !! o) -> len ws' = len ws ->
  (forall i, 0 <= i -> bit_at ws' i = true <-> i * bsz (Z.of_nat k) ∈ l') ->
  wired (bd_set_bitmaps (<[k := ws']> (bd_bitmaps b)) (bd_set_heads heads (bd_set_links links b))) (<[k := l']> ls).
Proof.
  intros W Hl Hws Hd Hp -> Hc Hf Hlw Hb. pose proof (lookup_lt_Some _ _ _ Hl) as Hk. constructor; cbn [bd_min_shift bd_heads bd_links bd_bitmaps bd_set_bitmaps bd_set_heads bd_set_links].
  - apply W.
  - rewrite !length_insert. apply W.
  - intros j l0 Hj. destruct (decide (k = j)) as [<-|Hne].
    + rewrite list_lookup_insert_eq in Hj by exact Hk. injection Hj as <-. apply list_lookup_insert_eq. rewrite (w_orders _ _ W). exact Hk.
    + rewrite list_lookup_insert_ne in Hj by assumption. rewrite list_lookup_insert_ne by assumption. apply (w_heads _ _ W). assumption.
  - intros j l0 Hj. destruct (decide (k = j)) as [<-|Hne].
    + rewrite list_lookup_insert_eq in Hj by exact Hk. injection Hj as <-. exact Hc.
    + pose proof Hj as Hj'. rewrite list_lookup_insert_ne in Hj by assumption. eapply chain_frame; [|apply (w_links _ _ W j l0 Hj)]. intros o Ho. apply Hf.
      * intros Hin. apply Hne. eapply (concat_disjoint ls); [apply (w_distinct _ _ W) | exact Hl | exact Hj | exact Hin | exact Ho].
      * intros Hin. apply Hne. eapply (concat_disjoint (<[k := l']> ls)); [exact Hd | apply list_lookup_insert_eq; exact Hk | exact Hj' | exact Hin | exact Ho].
  - rewrite !length_insert. apply W.
  - intros j l0 ws0 Hj Hw0. destruct (decide (k = j)) as [<-|Hne].
    + rewrite list_lookup_insert_eq in Hj by exact Hk. injection Hj as <-. rewrite list_lookup_insert_eq in Hw0 by (rewrite (w_words _ _ W); exact Hk). injection Hw0 as <-.
      split; [rewrite Hlw; apply (w_bits _ _ W k l ws Hl Hws) | exact Hb].
    + rewrite list_lookup_insert_ne in Hj, Hw0 by assumption. apply (w_bits _ _ W); assumption.
  - intros j l0 o Hj Ho. destruct (decide (k = j)) as [<-|Hne].
    + rewrite list_lookup_insert_eq in Hj by exact Hk. injection Hj as <-. auto.
    + rewrite list_lookup_insert_ne in Hj by assumption. eapply (w_placed _ _ W); eassumption.
  - exact Hd.
Qed.

Definition same_stacks (b b' : Buddy) : Prop := bd_parked b' = bd_parked b /\ bd_caps b' = bd_caps b.

Lemma push_spec b ls k l o : wired b ls -> ls !! k = Some l -> placed (Z.of_nat k) o -> o ∉ concat ls ->
  exists b', buddy_push b (Z.of_nat k) o = Ok b' /\ wired b' (<[k := o :: l]> ls) /\ same_stacks b b'.
Proof.
  intros W Hl Hp Hfresh. pose proof (lookup_lt_Some _ _ _ Hl) as Hk. assert (Hol : o ∉ l) by (intros Hin; apply Hfresh, elem_of_concat; eauto).
  assert (Hnone : forall x, x ∈ l -> x <> NONE) by (intros x Hx; apply (placed_not_none (Z.of_nat k)); [lia | eapply (w_placed _ _ W); eassumption]).
  set (links := let m := <[o := (NONE, first l)]> (bd_links b) in if first l =? NONE then m else <[first l := (o, (default (0, 0) (m !! first l)).2)]> m).
  destruct (update_bitmap_spec b ls k l o (fun w => Z.lor w (Z.shiftl 1 ((o / bsz (Z.of_nat k)) mod 64))) true W Hl Hp) as (ws & ws' & Hws & Hu & Hlw & Hbits).
  { intros w j Hj. rewrite Z.lor_spec, testbit_mask by dlia. destruct ((o / bsz (Z.of_nat k)) mod 64 =? j); [apply orb_true_r | apply orb_false_r]. }
  exists (bd_set_bitmaps (<[k := ws']> (bd_bitmaps b)) (bd_set_heads (<[k := o]> (bd_heads b)) (bd_set_links links b))). split; [|split; [|split; reflexivity]].
  - unfold buddy_push. rewrite (index_get_Some _ _ (first l)) by (rewrite ?Nat2Z.id; try lia; apply (w_heads _ _ W); exact Hl). cbn [rbind].
    assert (He : (if first l =? NONE then set_links b o NONE (first l) else let '(_, next) := get_links (set_links b o NONE (first l)) (first l) in set_links (set_links b o NONE (first l)) (first l) o next) = bd_set_links links b).
    { unfold links, get_links, set_links. cbn. destruct (first l =? NONE); [reflexivity|]. destruct (default (0, 0) _); reflexivity. }
    rewrite He. cbn [bd_heads bd_set_links]. rewrite (index_set_Some _ _ (first l)) by (rewrite ?Nat2Z.id; try lia; apply (w_heads _ _ W); exact Hl). cbn [rbind].
    unfold bit_of. cbn [bd_min_shift bd_set_heads bd_set_links]. rewrite (w_shift _ _ W), Nat2Z.id. destruct (block_index (Z.of_nat k) o ltac:(lia) Hp) as (-> & _ & _).
    unfold update_bitmap in *. cbn [bd_bitmaps bd_set_heads bd_set_links]. repeat (apply rbind_Ok_inv in Hu as (? & -> & Hu); cbn [rbind]). injection Hu as ->. reflexivity.
  - apply (wired_update b ls k l (o :: l) links _ ws ws' W Hl Hws); auto.
    + eapply NoDup_Permutation_proper; [|constructor; [exact Hfresh | apply (w_distinct _ _ W)]].
      rewrite (concat_remove (<[k := o :: l]> ls) k (o :: l) o l) by (first [apply list_lookup_insert_eq; exact Hk | reflexivity]). rewrite list_insert_insert_eq, list_insert_id by exact Hl. reflexivity.
    + intros x Hx. apply elem_of_cons in Hx as [->|Hx]; [assumption | eapply (w_placed _ _ W); eassumption].
    + unfold links. destruct l as [|h r]; cbn [first].
      * rewrite Z.eqb_refl. split; [apply lookup_insert_eq | exact I].
      * assert (o <> h) by (intros ->; apply Hol; left). destruct (Z.eqb_spec h NONE) as [->|_]; [destruct (Hnone NONE ltac:(left)); reflexivity|].
        destruct (w_links _ _ W k _ Hl) as [Hh Hr]. rewrite lookup_insert_ne, Hh by congruence. cbn [default snd].
        pose proof (concat_NoDup ls k _ (w_distinct _ _ W) Hl) as Hd. apply NoDup_cons in Hd as [Hhr _].
        split; [rewrite lookup_insert_ne by congruence; apply lookup_insert_eq|]. split; [apply lookup_insert_eq|]. eapply chain_frame; [|exact Hr].
        intros x Hx. rewrite !lookup_insert_ne; [reflexivity| |]; intros ->; [apply Hol; right; assumption | contradiction].
    + intros x Hx Hx'. unfold links. assert (x <> o) by (intros ->; apply Hx'; left). destruct l as [|h r]; cbn [first].
      * rewrite Z.eqb_refl, lookup_insert_ne by congruence. reflexivity.
      * assert (x <> h) by (intros ->; apply Hx; left). destruct (h =? NONE); rewrite ?lookup_insert_ne by congruence; reflexivity.
    + intros i Hi. rewrite Hbits by assumption. destruct (block_index (Z.of_nat k) o ltac:(lia) Hp) as (_ & Ho & _). pose proof (bsz_pos (Z.of_nat k) ltac:(lia)).
      destruct (Z.eqb_spec (o / bsz (Z.of_nat k)) i) as [<-|Hne]; [rewrite Ho; split; [left | reflexivity]|].
      rewrite (proj2 (w_bits _ _ W k l ws Hl Hws) i Hi). rewrite elem_of_cons. split; [auto|]. intros [He|]; [|assumption]. destruct Hne. rewrite <- He. apply Z.div_mul. lia.
Qed.

Lemma relink_buddy b heads prev next :
  (let b := bd_set_heads heads (if prev =? NONE then b else let '(pp, _) := get_links b prev in set_links b prev pp next) in
   if next =? NONE then b else let '(_, nn) := get_links b next in set_links b next prev nn) = bd_set_heads heads (bd_set_links (relink (bd_links b) prev next) b).
Proof.
  unfold relink, get_links, set_links. destruct b as [links m hs ps cs bs], (prev =? NONE); cbn.
  - destruct (next =? NONE); [reflexivity|]. destruct (default (0, 0) (links !! next)). reflexivity.
  - destruct (default (0, 0) (links !! prev)) as [pp x]. cbn. destruct (next =? NONE); [reflexivity|]. destruct (default (0, 0) (<[prev := (pp, next)]> links !! next)). reflexivity.
Qed.

Lemma unlink_spec b ls k l o : wired b ls -> ls !! k = Some l -> o ∈ l ->
  exists b' l', buddy_unlink b (Z.of_nat k) o = Ok b' /\ Permutation l (o :: l') /\ wired b' (<[k := l']> ls) /\ same_stacks b b'.
Proof.
  intros W Hl Hin. pose proof (lookup_lt_Some _ _ _ Hl) as Hk. pose proof (w_placed _ _ W k l o Hl Hin) as Hp. apply list_elem_of_split in Hin as (a & c & ->).
  assert (Hperm : Permutation (a ++ o :: c) (o :: a ++ c)) by (symmetry; apply Permutation_middle).
  pose proof (concat_NoDup ls k _ (w_distinct _ _ W) Hl) as Hd. pose proof (w_links _ _ W k _ Hl) as Hc.
  assert (Hnone : NONE ∉ a ++ o :: c) by (intros Hx; apply (placed_not_none (Z.of_nat k) NONE); [lia | eapply (w_placed _ _ W); eassumption | reflexivity]).
  destruct (update_bitmap_spec b ls k _ o (fun w => Z.ldiff w (Z.shiftl 1 ((o / bsz (Z.of_nat k)) mod 64))) false W Hl Hp) as (ws & ws' & Hws & Hu & Hlw & Hbits).
  { intros w j Hj. rewrite Z.ldiff_spec, testbit_mask by dlia. destruct ((o / bsz (Z.of_nat k)) mod 64 =? j); [apply andb_false_r | apply andb_true_r]. }
  destruct (block_index (Z.of_nat k) o ltac:(lia) Hp) as (Hsh & Ho & _). pose proof (bsz_pos (Z.of_nat k) ltac:(lia)) as Hb.
  assert (Hrest : forall links prev next, get_links b o = (prev, next) -> links = relink (bd_links b) prev next -> next = first c ->
    (prev = NONE <-> a = []) -> (a <> [] -> prev ∈ a) -> chain links NONE (a ++ c) ->
    exists b' l', buddy_unlink b (Z.of_nat k) o = Ok b' /\ Permutation (a ++ o :: c) (o :: l') /\ wired b' (<[k := l']> ls) /\ same_stacks b b').
  { intros links prev next Hget Hlinks Hnext Hprev Hpa Hch.
    exists (bd_set_bitmaps (<[k := ws']> (bd_bitmaps b)) (bd_set_heads (<[k := first (a ++ c)]> (bd_heads b)) (bd_set_links links b))), (a ++ c).
    split; [|split; [exact Hperm|]; split; [|split; reflexivity]].
    - unfold buddy_unlink. rewrite Hget.
      assert (Hh : exists heads, (if prev =? NONE then let? heads := index_set (E := unit) (bd_heads b) (Z.of_nat k) next in Ok (bd_set_heads heads b) else let '(pp, _) := get_links b prev in Ok (set_links b prev pp next)) =
                    Ok (bd_set_heads heads (if prev =? NONE then b else let '(pp, _) := get_links b prev in set_links b prev pp next)) /\ heads = <[k := first (a ++ c)]> (bd_heads b)).
      { destruct (Z.eqb_spec prev NONE) as [He|He].
        - apply Hprev in He as ->. rewrite (index_set_Some _ _ (first (o :: c))) by (rewrite ?Nat2Z.id; try lia; apply (w_heads _ _ W k _ Hl)). cbn [rbind app]. rewrite Nat2Z.id, Hnext. eexists. split; reflexivity.
        - exists (bd_heads b). assert (a <> []) by (intros ->; apply He, Hprev; reflexivity). split.
          + unfold get_links, set_links. destruct (default (0, 0) _). destruct b. reflexivity.
          + symmetry. apply list_insert_id. rewrite (w_heads _ _ W k _ Hl). rewrite !first_app by assumption. reflexivity. }
      destruct Hh as (heads & -> & ->). cbn [rbind]. rewrite (relink_buddy b _ prev next), <- Hlinks. unfold bit_of. cbn [bd_min_shift bd_set_heads bd_set_links]. rewrite (w_shift _ _ W), Hsh.
      unfold update_bitmap in *. cbn [bd_bitmaps bd_set_heads bd_set_links]. repeat (apply rbind_Ok_inv in Hu as (? & -> & Hu); cbn [rbind]). injection Hu as ->. reflexivity.
    - apply (wired_update b ls k _ (a ++ c) links _ ws ws' W Hl Hws); auto.
      + pose proof (w_distinct _ _ W) as Hdd. rewrite (concat_remove ls k _ o (a ++ c) Hl Hperm) in Hdd. apply NoDup_cons in Hdd as [_ Hdd]. exact Hdd.
      + intros x Hx. eapply (w_placed _ _ W); [exact Hl|]. apply elem_of_app in Hx as [|]; apply elem_of_app; [auto | right; right; assumption].
      + intros x Hx _. rewrite Hlinks. apply relink_other.
        * intros Hpn ->. apply Hx, elem_of_app. left. apply Hpa. intros ->. apply Hpn, Hprev. reflexivity.
        * intros Hnn ->. apply Hx, elem_of_app. right. right. rewrite Hnext in *. destruct c; [destruct Hnn; reflexivity | left].
      + intros i Hi. rewrite Hbits by assumption. destruct (Z.eqb_spec (o / bsz (Z.of_nat k)) i) as [<-|Hne].
        * rewrite Ho. split; [discriminate|]. intros Hx. exfalso. rewrite Hperm in Hd. apply NoDup_cons in Hd as [Hd _]. contradiction.
        * rewrite (proj2 (w_bits _ _ W k _ ws Hl Hws) i Hi), Hperm, elem_of_cons. split; [|auto]. intros [He|]; [|assumption]. destruct Hne. rewrite <- He. apply Z.div_mul. lia. }
  destruct (decide (a = [])) as [->|Hne].
  - pose proof (chain_unlink_head _ o c Hd Hnone Hc) as Hch. destruct Hc as [Hlo _].
    apply (Hrest (relink (bd_links b) NONE (first c)) NONE (first c)); auto; [unfold get_links; rewrite Hlo; reflexivity | split; reflexivity | intros []; reflexivity].
  - destruct (exists_last Hne) as (a' & x & ->). rewrite <- app_assoc in Hc, Hd, Hnone. cbn [app] in Hc, Hd, Hnone. assert (Hx : x <> NONE) by (intros ->; apply Hnone, elem_of_app; right; left).
    apply (Hrest (relink (bd_links b) x (first c)) x (first c)); auto.
    + unfold get_links. rewrite (chain_middle _ _ _ _ _ _ Hc). reflexivity.
    + split; [contradiction | intros He; destruct a'; discriminate].
    + intros _. apply elem_of_app. right. left.
    + rewrite <- app_assoc. apply (chain_unlink_inner _ _ _ o); assumption.
Qed.
End Wired.
