(* ===== verification/PoolProofs.v ===== *)
(** * The buddy allocator's invariant

    Every byte of the arena belongs to exactly one block that is listed, parked
    or in use, and no two listed blocks could be merged. *)

From stdpp Require Import gmap.
From S2P Require Import Prelude Align Pool PoolLinks.

(** ** Buddies *)

Lemma lxor_one q : Z.lxor q 1 = if Z.even q then q + 1 else q - 1.
Proof.
  assert (Heven : forall r, Z.lxor (2 * r) 1 = 2 * r + 1).
  { intros r. rewrite Z.add_nocarry_lxor; [reflexivity|]. change 1 with (Z.ones 1). rewrite Z.land_ones by lia. change (2 ^ 1) with 2. rewrite Z.mul_comm. apply Z.mod_mul. lia. }
  destruct (Z.even q) eqn:He.
  - apply Z.even_spec in He as [r ->]. apply Heven.
  - rewrite <- Z.negb_odd in He. apply negb_false_iff, Z.odd_spec in He as [r ->]. rewrite <- Heven at 1. rewrite Z.lxor_assoc, Z.lxor_nilpotent, Z.lxor_0_r. lia.
Qed.

Section Cover.
Context (s alen : Z) (Hs : 0 <= s) (Hlen : 0 <= alen <= ARENA_MAX).
Abbreviation bsz := (bsz s).
Abbreviation placed := (placed s alen).
Abbreviation wired := (wired s alen).

Lemma bsz_succ k : 0 <= k -> bsz (k + 1) = 2 * bsz k.
Proof. intros. unfold PoolLinks.bsz. replace (k + 1 + s) with (Z.succ (k + s)) by lia. apply Z.pow_succ_r. lia. Qed.

Lemma bsz_mono j k : 0 <= j <= k -> (bsz j | bsz k).
Proof. intros H. exists (2 ^ (k - j)). unfold PoolLinks.bsz. rewrite <- Z.pow_add_r by lia. f_equal. lia. Qed.

(** A block and its buddy are the halves of one block of the next order. *)
Lemma buddy_halves k o : 0 <= k -> 0 <= o -> o mod bsz k = 0 ->
  let y := Z.lxor o (bsz k) in let m := Z.min o y in
  0 <= m /\ m mod bsz (k + 1) = 0 /\ y mod bsz k = 0 /\ (o = m /\ y = m + bsz k \/ y = m /\ o = m + bsz k).
Proof.
  intros Hk Ho Hm y m. pose proof (bsz_pos s Hs k Hk) as Hb. rewrite bsz_succ by assumption. apply Z.mod_divide in Hm as [q ->]; [|lia].
  assert (Hy : y = Z.lxor q 1 * bsz k).
  { unfold y, PoolLinks.bsz. rewrite <- (Z.shiftl_mul_pow2 q), <- (Z.shiftl_mul_pow2 (Z.lxor q 1)), <- (Z.shiftl_1_l (k + s)) by lia. symmetry. apply Z.shiftl_lxor. }
  assert (Hq : 0 <= q) by nia. rewrite lxor_one in Hy. destruct (Z.even q) eqn:He.
  - apply Z.even_spec in He as [r ->]. assert (m = 2 * r * bsz k) by (unfold m; nia). repeat split; [nia | | | left; split; nia].
    + rewrite H. replace (2 * r * bsz k) with (r * (2 * bsz k)) by ring. apply Z.mod_mul. lia.
    + rewrite Hy. apply Z.mod_mul. lia.
  - rewrite <- Z.negb_odd in He. apply negb_false_iff, Z.odd_spec in He as [r ->]. assert (m = 2 * r * bsz k) by (unfold m; nia). repeat split; [nia | | | right; split; nia].
    + rewrite H. replace (2 * r * bsz k) with (r * (2 * bsz k)) by ring. apply Z.mod_mul. lia.
    + rewrite Hy. apply Z.mod_mul. lia.
Qed.

Lemma buddy_involutive o k : Z.lxor (Z.lxor o (bsz k)) (bsz k) = o.
Proof. rewrite Z.lxor_assoc, Z.lxor_nilpotent. apply Z.lxor_0_r. Qed.

Lemma upper_half k o : 0 <= k -> 0 <= o -> o mod bsz (k + 1) = 0 -> Z.lxor (o + bsz k) (bsz k) = o.
Proof.
  intros Hk Ho Hm. pose proof (bsz_pos s Hs k Hk) as Hb. pose proof (bsz_succ k Hk) as Hsucc.
  assert (Hmod : o mod bsz k = 0). { apply Z.mod_divide; [lia|]. eapply Z.divide_trans; [apply (bsz_mono k (k + 1)); lia | apply Z.mod_divide; [lia | assumption]]. }
  destruct (buddy_halves k o Hk Ho Hmod) as (_ & H2 & _ & [[E1 E2]|[E1 E2]]).
  - rewrite <- E1 in E2. rewrite <- E2. apply buddy_involutive.
  - exfalso. rewrite Hsucc in *. set (m := Z.min _ _) in *. set (B := bsz k) in *. clearbody m B.
    apply Z.mod_divide in Hm as [d Hd], H2 as [c Hc]; [|lia..]. destruct (Z.le_gt_cases d c); nia.
Qed.

(** ** Coverage: how many blocks of a collection hold a byte *)

Definition covers (k o x : Z) : Z := if (o <=? x) && (x <? o + bsz k) then 1 else 0.
Fixpoint cover_list (k : Z) (l : list Z) (x : Z) : Z := match l with [] => 0 | o :: l => covers k o x + cover_list k l x end.
Fixpoint cover_from (k : Z) (ls : list (list Z)) (x : Z) : Z :=
  match ls with [] => 0 | l :: ls => cover_list k l x + cover_from (k + 1) ls x end.
Definition cover (ls : list (list Z)) (x : Z) : Z := cover_from 0 ls x.
Fixpoint cover_used (us : list (Z * Z)) (x : Z) : Z := match us with [] => 0 | u :: us => covers u.1 u.2 x + cover_used us x end.

Lemma covers_spec k o x : (covers k o x = 1 /\ o <= x < o + bsz k) \/ (covers k o x = 0 /\ ~ (o <= x < o + bsz k)).
Proof. unfold covers. destruct (Z.leb_spec o x), (Z.ltb_spec x (o + bsz k)); cbn; lia. Qed.

Lemma covers_start k o : 0 <= k -> covers k o o = 1.
Proof. intros Hk. pose proof (bsz_pos s Hs k Hk). destruct (covers_spec k o o); lia. Qed.

Lemma covers_halves k m x : 0 <= k -> covers (k + 1) m x = covers k m x + covers k (m + bsz k) x.
Proof.
  intros Hk. pose proof (bsz_succ k Hk). pose proof (bsz_pos s Hs k Hk). destruct (covers_spec (k + 1) m x), (covers_spec k m x), (covers_spec k (m + bsz k) x); lia.
Qed.

Lemma cover_list_nonneg k l x : 0 <= cover_list k l x.
Proof. induction l as [|o l IH]; cbn [cover_list]; [lia|]. destruct (covers_spec k o x); lia. Qed.

Lemma cover_list_perm k l l' x : Permutation l l' -> cover_list k l x = cover_list k l' x.
Proof. induction 1; cbn [cover_list]; lia. Qed.

Lemma cover_list_in k l o x : o ∈ l -> covers k o x <= cover_list k l x.
Proof. induction 1 as [o l|o y l _ IH]; cbn [cover_list]; [pose proof (cover_list_nonneg k l x); lia | destruct (covers_spec k y x); lia]. Qed.

Lemma cover_from_nonneg ls : forall k x, 0 <= cover_from k ls x.
Proof. induction ls as [|l ls IH]; intros k x; cbn [cover_from]; [lia|]. pose proof (cover_list_nonneg k l x). specialize (IH (k + 1) x). lia. Qed.

Lemma cover_update_from ls j l l' x : forall k, ls !! j = Some l ->
  cover_from k (<[j := l']> ls) x = cover_from k ls x - cover_list (k + Z.of_nat j) l x + cover_list (k + Z.of_nat j) l' x.
Proof.
  revert j. induction ls as [|y ls IH]; intros [|j] k Hl; try discriminate.
  - injection Hl as ->. change (<[0%nat := l']> (l :: ls)) with (l' :: ls). cbn [cover_from]. rewrite Z.add_0_r. lia.
  - change (<[S j := l']> (y :: ls)) with (y :: <[j := l']> ls). cbn [cover_from]. rewrite (IH j (k + 1) Hl). replace (k + 1 + Z.of_nat j) with (k + Z.of_nat (S j)) by lia. lia.
Qed.

Lemma cover_update ls j l l' x : ls !! j = Some l -> cover (<[j := l']> ls) x = cover ls x - cover_list (Z.of_nat j) l x + cover_list (Z.of_nat j) l' x.
Proof. intros Hl. unfold cover. rewrite (cover_update_from ls j l l' x 0 Hl). rewrite Z.add_0_l. reflexivity. Qed.

Lemma cover_ge_from ls j l x : forall k, ls !! j = Some l -> cover_list (k + Z.of_nat j) l x <= cover_from k ls x.
Proof.
  revert j. induction ls as [|y ls IH]; intros [|j] k Hl; try discriminate; cbn [cover_from].
  - injection Hl as ->. rewrite Z.add_0_r. pose proof (cover_from_nonneg ls (k + 1) x). lia.
  - specialize (IH j (k + 1) Hl). replace (k + 1 + Z.of_nat j) with (k + Z.of_nat (S j)) in IH by lia. pose proof (cover_list_nonneg k y x). lia.
Qed.

Lemma cover_ge ls j l o x : ls !! j = Some l -> o ∈ l -> covers (Z.of_nat j) o x <= cover ls x.
Proof. intros Hl Ho. pose proof (cover_ge_from ls j l x 0 Hl). rewrite Z.add_0_l in *. pose proof (cover_list_in (Z.of_nat j) l o x Ho). unfold cover. lia. Qed.

Lemma cover_list_some k l x : 0 < cover_list k l x -> exists o, o ∈ l /\ o <= x < o + bsz k.
Proof.
  induction l as [|o l IH]; cbn [cover_list]; [lia|]. intros H. destruct (covers_spec k o x) as [[_ Hin]|[H0 _]]; [exists o; split; [left | assumption]|].
  destruct IH as (o' & Ho' & Hx); [lia|]. exists o'. split; [right; assumption | assumption].
Qed.

Lemma cover_some ls x : 0 < cover ls x -> exists j l o, ls !! j = Some l /\ o ∈ l /\ o <= x < o + bsz (Z.of_nat j).
Proof.
  unfold cover. assert (H : forall k, 0 < cover_from k ls x -> exists j l o, ls !! j = Some l /\ o ∈ l /\ o <= x < o + bsz (k + Z.of_nat j)).
  { induction ls as [|y ls IH]; intros k; cbn [cover_from]; [lia|]. intros Hc. destruct (Z.lt_ge_cases 0 (cover_list k y x)) as [Hy|Hy].
    - destruct (cover_list_some k y x Hy) as (o & Ho & Hx). exists 0%nat, y, o. rewrite Z.add_0_r. auto.
    - destruct (IH (k + 1)) as (j & l & o & Hl & Ho & Hx); [lia|]. exists (S j), l, o. replace (k + 1 + Z.of_nat j) with (k + Z.of_nat (S j)) in Hx by lia. auto. }
  intros Hc. destruct (H 0 Hc) as (j & l & o & Hl & Ho & Hx). rewrite Z.add_0_l in Hx. eauto 6.
Qed.

(** ** No two listed buddies *)

Definition no_pair (ls : list (list Z)) : Prop :=
  forall k l o, ls !! k = Some l -> (S k < length ls)%nat -> o ∈ l -> Z.lxor o (bsz (Z.of_nat k)) ∉ l.

Lemma no_pair_remove ls k l o l' : no_pair ls -> ls !! k = Some l -> Permutation l (o :: l') -> no_pair (<[k := l']> ls).
Proof.
  intros Hn Hl Hp j l0 x Hj Hlt Hx Hy. rewrite length_insert in Hlt. destruct (decide (k = j)) as [<-|Hne].
  - rewrite list_lookup_insert_eq in Hj by (eapply lookup_lt_Some; exact Hl). injection Hj as <-. apply (Hn k l x Hl Hlt); rewrite Hp; right; assumption.
  - rewrite list_lookup_insert_ne in Hj by assumption. exact (Hn j l0 x Hj Hlt Hx Hy).
Qed.

Lemma no_pair_push ls k l o : no_pair ls -> ls !! k = Some l -> ((S k < length ls)%nat -> Z.lxor o (bsz (Z.of_nat k)) ∉ l) -> no_pair (<[k := o :: l]> ls).
Proof.
  intros Hn Hl Ho j l0 x Hj Hlt Hx Hy. rewrite length_insert in Hlt. destruct (decide (k = j)) as [<-|Hne].
  - rewrite list_lookup_insert_eq in Hj by (eapply lookup_lt_Some; exact Hl). injection Hj as <-. specialize (Ho Hlt). pose proof (bsz_pos s Hs (Z.of_nat k) ltac:(lia)).
    apply elem_of_cons in Hx as [->|Hx]; apply elem_of_cons in Hy as [Hy|Hy]; [|contradiction | | exact (Hn k l x Hl Hlt Hx Hy)].
    + apply (f_equal (Z.lxor o)) in Hy. rewrite <- Z.lxor_assoc, Z.lxor_nilpotent, Z.lxor_0_l in Hy. lia.
    + apply Ho. rewrite <- Hy, buddy_involutive. assumption.
  - rewrite list_lookup_insert_ne in Hj by assumption. exact (Hn j l0 x Hj Hlt Hx Hy).
Qed.

(** A block apart from the listed ones starts where none of them does. *)
Lemma apart_fresh ls k o : 0 <= k -> (forall x, cover ls x + covers k o x <= 1) -> o ∉ concat ls.
Proof.
  intros Hk Ha Hin. apply elem_of_concat in Hin as (j & l & Hl & Ho). specialize (Ha o). rewrite covers_start in Ha by assumption.
  pose proof (cover_ge ls j l o o Hl Ho) as Hc. rewrite covers_start in Hc by lia. lia.
Qed.

(** ** Merging *)

Lemma push_ok b ls k l o : wired b ls -> no_pair ls -> ls !! k = Some l -> placed (Z.of_nat k) o -> (forall x, cover ls x + covers (Z.of_nat k) o x <= 1) ->
  ((S k < length ls)%nat -> Z.lxor o (bsz (Z.of_nat k)) ∉ l) ->
  exists b' ls', buddy_push b (Z.of_nat k) o = Ok b' /\ wired b' ls' /\ no_pair ls' /\ length ls' = length ls /\ same_stacks b b' /\
    ls' = <[k := o :: l]> ls /\ forall x, cover ls' x = cover ls x + covers (Z.of_nat k) o x.
Proof.
  intros W Hn Hl Hp Ha Hb. destruct (push_spec s alen Hs Hlen b ls k l o W Hl Hp (apart_fresh ls (Z.of_nat k) o ltac:(lia) Ha)) as (b' & Hpush & W' & Hst).
  exists b', (<[k := o :: l]> ls). split; [assumption|]. split; [assumption|]. split; [apply no_pair_push; assumption|]. split; [apply length_insert|]. split; [assumption|]. split; [reflexivity|].
  intros x. rewrite (cover_update ls k l _ x Hl). cbn [cover_list]. lia.
Qed.

Lemma merge_ok n : forall b ls k o, wired b ls -> no_pair ls -> (k < length ls)%nat -> placed (Z.of_nat k) o -> (forall x, cover ls x + covers (Z.of_nat k) o x <= 1) ->
  (length ls - k <= n)%nat ->
  exists b' ls' k' o' l', merge_up n b o (Z.of_nat k) = Ok (b', o', Z.of_nat k') /\ wired b' ls' /\ no_pair ls' /\ length ls' = length ls /\ same_stacks b b' /\
    ls' !! k' = Some l' /\ placed (Z.of_nat k') o' /\ (forall x, cover ls' x + covers (Z.of_nat k') o' x = cover ls x + covers (Z.of_nat k) o x) /\
    ((S k' < length ls)%nat -> Z.lxor o' (bsz (Z.of_nat k')) ∉ l').
Proof.
  induction n as [|n IH]; intros b ls k o W Hn Hk Hp Ha Hf; [lia|]. cbn [merge_up]. destruct (lookup_lt_is_Some_2 ls k Hk) as [l Hl].
  unfold len. rewrite (w_orders _ _ _ _ W). assert (Hstop : ((S k < length ls)%nat -> Z.lxor o (bsz (Z.of_nat k)) ∉ l) ->
    exists b' ls' k' o' l', Ok (E := unit) (b, o, Z.of_nat k) = Ok (b', o', Z.of_nat k') /\ wired b' ls' /\ no_pair ls' /\ length ls' = length ls /\ same_stacks b b' /\
    ls' !! k' = Some l' /\ placed (Z.of_nat k') o' /\ (forall x, cover ls' x + covers (Z.of_nat k') o' x = cover ls x + covers (Z.of_nat k) o x) /\ ((S k' < length ls)%nat -> Z.lxor o' (bsz (Z.of_nat k')) ∉ l')).
  { intros Hb. exists b, ls, k, o, l. split; [reflexivity|]. split; [assumption|]. split; [assumption|]. split; [reflexivity|]. split; [split; reflexivity|]. auto. }
  destruct (Z.ltb_spec (Z.of_nat k + 1) (Z.of_nat (length ls))) as [Hlt|Hge]; [|apply Hstop; intros ?; lia].
  unfold block_size. rewrite (w_shift _ _ _ _ W), Z.shiftl_1_l. fold (bsz (Z.of_nat k)). destruct Hp as (P1 & P2 & P3).
  destruct (buddy_halves (Z.of_nat k) o ltac:(lia) P1 P3) as (H1 & H2 & H3 & H4). set (y := Z.lxor o (bsz (Z.of_nat k))) in *. pose proof (bsz_pos s Hs (Z.of_nat k) ltac:(lia)) as Hb.
  rewrite (is_free_spec s alen Hs b ls k l y W Hl ltac:(lia) H3). cbn [rbind]. destruct (bool_decide_reflect (y ∈ l)) as [Hy|Hy]; [|apply Hstop; auto].
  destruct (unlink_spec s alen Hs Hlen b ls k l y W Hl Hy) as (b1 & l1 & -> & Hperm & W1 & Hst1). cbn [rbind].
  destruct (w_placed _ _ _ _ W k l y Hl Hy) as (Q1 & Q2 & Q3). pose proof (bsz_succ (Z.of_nat k) ltac:(lia)) as Hsucc.
  assert (Hcov : forall x, cover (<[k := l1]> ls) x + covers (Z.of_nat k + 1) (Z.min o y) x = cover ls x + covers (Z.of_nat k) o x).
  { intros x. rewrite (cover_update ls k l l1 x Hl), (cover_list_perm _ _ _ x Hperm), covers_halves by lia. cbn [cover_list].
    clear - H4. revert H4. generalize (Z.min o y) as m. clearbody y. intros m [[-> ->]|[-> ->]]; lia. }
  replace (Z.of_nat k + 1) with (Z.of_nat (S k)) in * by lia.
  destruct (IH b1 (<[k := l1]> ls) (S k) (Z.min o y) W1 (no_pair_remove _ _ _ _ _ Hn Hl Hperm)) as (b' & ls' & k' & o' & l' & Hm & W' & Hn' & Hlen' & Hst' & Hl' & Hp' & Hc' & Hb').
  - rewrite length_insert. lia.
  - split; [lia|]. split; [lia | assumption].
  - intros x. rewrite Hcov. apply Ha.
  - rewrite length_insert. lia.
  - rewrite length_insert in *. exists b', ls', k', o', l'. split; [exact Hm|]. split; [assumption|]. split; [assumption|]. split; [assumption|]. split; [destruct Hst1, Hst'; split; congruence|].
    split; [assumption|]. split; [assumption|]. split; [intros x; rewrite Hc'; apply Hcov | assumption].
Qed.

Lemma release_eager_ok b ls k o : wired b ls -> no_pair ls -> (k < length ls)%nat -> placed (Z.of_nat k) o -> (forall x, cover ls x + covers (Z.of_nat k) o x <= 1) ->
  exists b' ls', release_eager b o (Z.of_nat k) = Ok b' /\ wired b' ls' /\ no_pair ls' /\ length ls' = length ls /\ same_stacks b b' /\
    forall x, cover ls' x = cover ls x + covers (Z.of_nat k) o x.
Proof.
  intros W Hn Hk Hp Ha. unfold release_eager. destruct (merge_ok (length (bd_heads b)) b ls k o W Hn Hk Hp Ha) as (b1 & ls1 & k1 & o1 & l1 & -> & W1 & Hn1 & Hlen1 & Hst1 & Hl1 & Hp1 & Hc1 & Hb1).
  { rewrite (w_orders _ _ _ _ W). lia. }
  cbn [rbind]. destruct (push_ok b1 ls1 k1 l1 o1 W1 Hn1 Hl1 Hp1) as (b' & ls' & Hpush & W' & Hn' & Hlen' & Hst' & _ & Hc').
  - intros x. rewrite Hc1. apply Ha.
  - rewrite Hlen1. assumption.
  - exists b', ls'. split; [assumption|]. split; [assumption|]. split; [assumption|]. split; [congruence|]. split; [destruct Hst1, Hst'; split; congruence|]. intros x. rewrite Hc'. apply Hc1.
Qed.

(** ** Splitting *)

Lemma split_ok n : forall b ls k o, wired b ls -> no_pair ls -> (k + n < length ls)%nat -> placed (Z.of_nat (k + n)) o -> (forall x, cover ls x + covers (Z.of_nat (k + n)) o x <= 1) ->
  exists b' ls', split_down n b o (Z.of_nat k) = Ok b' /\ wired b' ls' /\ no_pair ls' /\ length ls' = length ls /\ same_stacks b b' /\
    forall x, cover ls' x + covers (Z.of_nat k) o x = cover ls x + covers (Z.of_nat (k + n)) o x.
Proof.
  induction n as [|n IH]; intros b ls k o W Hn Hk Hp Ha; cbn [split_down].
  - exists b, ls. rewrite Nat.add_0_r. split; [reflexivity|]. split; [assumption|]. split; [assumption|]. split; [reflexivity|]. split; [split; reflexivity | reflexivity].
  - replace (Z.of_nat k + Z.of_nat n) with (Z.of_nat (k + n)) by lia. replace (k + S n)%nat with (S (k + n)) in * by lia. rewrite Nat2Z.inj_succ in *. change (Z.succ (Z.of_nat (k + n))) with (Z.of_nat (k + n) + 1) in *.
    set (j := (k + n)%nat) in *. destruct (lookup_lt_is_Some_2 ls j ltac:(lia)) as [l Hl]. destruct Hp as (P1 & P2 & P3). pose proof (bsz_succ (Z.of_nat j) ltac:(lia)) as Hsucc. pose proof (bsz_pos s Hs (Z.of_nat j) ltac:(lia)) as Hb.
    unfold block_size. rewrite (w_shift _ _ _ _ W), Z.shiftl_1_l. fold (bsz (Z.of_nat j)).
    assert (Hmod : o mod bsz (Z.of_nat j) = 0). { apply Z.mod_divide; [lia|]. eapply Z.divide_trans; [apply (bsz_mono (Z.of_nat j) (Z.of_nat j + 1)); lia | apply Z.mod_divide; [lia | assumption]]. }
    assert (Hhalf : forall x, covers (Z.of_nat j + 1) o x = covers (Z.of_nat j) o x + covers (Z.of_nat j) (o + bsz (Z.of_nat j)) x) by (intros x; apply covers_halves; lia).
    destruct (push_ok b ls j l (o + bsz (Z.of_nat j)) W Hn Hl) as (b1 & ls1 & -> & W1 & Hn1 & Hlen1 & Hst1 & _ & Hc1).
    + split; [lia|]. split; [lia|]. rewrite Z.add_mod, Hmod, Z.mod_same, Z.add_0_l by lia. reflexivity.
    + intros x. specialize (Ha x). rewrite Hhalf in Ha. destruct (covers_spec (Z.of_nat j) o x); lia.
    + intros _ Hin. rewrite upper_half in Hin by (assumption || lia). pose proof (cover_ge ls j l o o Hl Hin) as Hc. rewrite covers_start in Hc by lia.
      specialize (Ha o). rewrite covers_start in Ha by lia. lia.
    + cbn [rbind]. destruct (IH b1 ls1 k o W1 Hn1) as (b' & ls' & Hs' & W' & Hn' & Hlen' & Hst' & Hc'); fold j; [lia | split; [lia | split; [lia | assumption]] | intros x; rewrite Hc1; specialize (Ha x); rewrite Hhalf in Ha; lia|].
      exists b', ls'. split; [exact Hs'|]. split; [assumption|]. split; [assumption|]. split; [congruence|]. split; [destruct Hst1, Hst'; split; congruence|]. intros x. rewrite Hc'. fold j. rewrite Hc1, Hhalf. lia.
Qed.
End Cover.
