(* ===== verification/PoolBuddy.v ===== *)
(** * Operations of the buddy allocator

    Allocation, release, compaction and the initial seeding keep the invariant;
    an allocation fails only when no block of its order is free. *)

From stdpp Require Import gmap.
From S2P Require Import Prelude Align Pool PoolLinks PoolProofs.

Section Held.
Context (s alen : Z) (Hs : 0 <= s) (Hlen : 0 <= alen <= ARENA_MAX).
Abbreviation bsz := (bsz s).
Abbreviation placed := (placed s alen).
Abbreviation wired := (wired s alen).
Abbreviation cover := (cover s).
Abbreviation covers := (covers s).
Abbreviation cover_used := (cover_used s).
Abbreviation no_pair := (no_pair s).

Definition inside (x : Z) : Z := if (0 <=? x) && (x <? alen) then 1 else 0.

(** The blocks in use are [us], by order and offset. *)
Record held (b : Buddy) (ls : list (list Z)) (us : list (Z * Z)) : Prop := {
  h_wired : wired b ls;
  h_pair : no_pair ls;
  h_stacks : length (bd_parked b) = length ls /\ length (bd_caps b) = length ls;
  h_parked : forall k l o, bd_parked b !! k = Some l -> o ∈ l -> placed (Z.of_nat k) o;
  h_used : Forall (fun u => 0 <= u.1 < len ls /\ placed u.1 u.2) us;
  h_total : forall x, cover ls x + cover (bd_parked b) x + cover_used us x = inside x
}.

Lemma cover_used_perm us us' x : Permutation us us' -> cover_used us x = cover_used us' x.
Proof. induction 1; cbn [PoolProofs.cover_used]; lia. Qed.

Lemma cover_used_nonneg us x : 0 <= cover_used us x.
Proof. induction us as [|u us IH]; cbn [PoolProofs.cover_used]; [lia|]. destruct (covers_spec s u.1 u.2 x); lia. Qed.

Lemma cover_nonneg ls x : 0 <= cover ls x.
Proof. apply cover_from_nonneg. Qed.

Lemma held_perm b ls us us' : Permutation us us' -> held b ls us -> held b ls us'.
Proof. intros Hp [H1 H2 H3 H4 H5 H6]. constructor; auto; [rewrite <- Hp; assumption | intros x; rewrite <- (cover_used_perm _ _ x Hp); apply H6]. Qed.

Lemma inside_le x : inside x <= 1.
Proof. unfold inside. destruct (_ && _); lia. Qed.

(** Parked stacks replaced, and eagerly released blocks, keep the rest. *)
Lemma held_eager b ls us k o parked : wired b ls -> no_pair ls -> length parked = length ls -> length (bd_caps b) = length ls ->
  (forall j l x, parked !! j = Some l -> x ∈ l -> placed (Z.of_nat j) x) -> Forall (fun u => 0 <= u.1 < len ls /\ placed u.1 u.2) us ->
  (k < length ls)%nat -> placed (Z.of_nat k) o -> (forall x, cover ls x + covers (Z.of_nat k) o x + cover parked x + cover_used us x = inside x) ->
  exists b' ls', release_eager (bd_set_parked parked b) o (Z.of_nat k) = Ok b' /\ held b' ls' us /\ bd_parked b' = parked /\ length ls' = length ls.
Proof.
  intros W Hn Hp1 Hp2 Hp3 Hu Hk Hp Ht.
  assert (W' : wired (bd_set_parked parked b) ls) by (destruct W; constructor; assumption).
  destruct (release_eager_ok s alen Hs Hlen (bd_set_parked parked b) ls k o W' Hn Hk Hp) as (b' & ls' & Hr & W1 & Hn1 & Hl1 & [Hst1 Hst2] & Hc).
  { intros x. pose proof (Ht x). pose proof (cover_nonneg parked x). pose proof (cover_used_nonneg us x). pose proof (inside_le x). lia. }
  cbn [bd_parked bd_caps bd_set_parked] in *. exists b', ls'. split; [exact Hr|]. split; [|auto]. constructor; auto.
  - rewrite Hst1, Hst2, Hl1. auto.
  - rewrite Hst1. assumption.
  - unfold len in *. rewrite Hl1. assumption.
  - intros x. rewrite Hst1, Hc. pose proof (Ht x). lia.
Qed.

(** ** Release *)

Lemma release_ok b ls us k o : held b ls ((k, o) :: us) -> exists b' ls', buddy_release b o k = Ok b' /\ held b' ls' us /\ length ls' = length ls.
Proof.
  intros [W Hn [Hs1 Hs2] Hp Hu Ht]. inversion Hu as [|? ? [Hk Hpl] Hu']; subst. cbn [fst snd] in *. unfold len in Hk.
  destruct (Z_of_nat_complete k) as [j ->]; [lia|].
  destruct (lookup_lt_is_Some_2 (bd_parked b) j ltac:(lia)) as [l Hl]. destruct (lookup_lt_is_Some_2 (bd_caps b) j ltac:(lia)) as [c Hc].
  unfold buddy_release. rewrite (index_get_Some _ _ l) by (rewrite ?Nat2Z.id; auto; lia). cbn [rbind]. rewrite (index_get_Some _ _ c) by (rewrite ?Nat2Z.id; auto; lia). cbn [rbind].
  destruct (len l <? c).
  - rewrite (index_set_Some _ _ l) by (rewrite ?Nat2Z.id; auto; lia). cbn [rbind]. rewrite Nat2Z.id. eexists _, ls. split; [reflexivity|]. split; [|reflexivity]. constructor; cbn [bd_parked bd_caps bd_set_parked]; auto.
    + destruct W; constructor; assumption.
    + rewrite length_insert. auto.
    + intros i l0 x Hi Hx. destruct (decide (j = i)) as [<-|Hne].
      * rewrite list_lookup_insert_eq in Hi by lia. injection Hi as <-. apply elem_of_cons in Hx as [->|Hx]; [assumption | eauto].
      * rewrite list_lookup_insert_ne in Hi by assumption. eauto.
    + intros x. rewrite (cover_update s (bd_parked b) j l _ x Hl). specialize (Ht x). cbn [PoolProofs.cover_used fst snd cover_list] in *. lia.
  - destruct (held_eager b ls us j o (bd_parked b) W Hn Hs1 Hs2 Hp Hu' ltac:(lia) Hpl) as (b' & ls' & Hr & Hh & _ & Hl').
    { intros x. specialize (Ht x). cbn [PoolProofs.cover_used fst snd] in Ht. lia. }
    exists b', ls'. split; [|auto]. rewrite <- Hr. destruct b; reflexivity.
Qed.

(** ** Compaction *)

Lemma compact_order_ok n : forall b ls us k l, held b ls us -> bd_parked b !! k = Some l -> length l = n ->
  exists b' ls', compact_order n b (Z.of_nat k) = Ok b' /\ held b' ls' us /\ length ls' = length ls /\ bd_parked b' = <[k := []]> (bd_parked b).
Proof.
  induction n as [|n IH]; intros b ls us k l Hh Hl Hn; cbn [compact_order].
  - destruct l; [|discriminate]. exists b, ls. split; [reflexivity|]. split; [assumption|]. split; [reflexivity|]. symmetry. apply list_insert_id. assumption.
  - destruct l as [|o l]; [discriminate|]. injection Hn as Hn. rewrite (index_get_Some _ _ (o :: l)) by (rewrite ?Nat2Z.id; auto; lia). cbn [rbind].
    rewrite (index_set_Some _ _ (o :: l)) by (rewrite ?Nat2Z.id; auto; lia). cbn [rbind]. rewrite Nat2Z.id. pose proof (lookup_lt_Some _ _ _ Hl) as Hk. destruct Hh as [W Hnp [Hs1 Hs2] Hp Hu Ht].
    destruct (held_eager b ls us k o (<[k := l]> (bd_parked b)) W Hnp) as (b1 & ls1 & -> & Hh1 & Hp1 & Hl1); auto.
    + rewrite length_insert. assumption.
    + intros i l0 x Hi Hx. destruct (decide (k = i)) as [<-|Hne].
      * rewrite list_lookup_insert_eq in Hi by lia. injection Hi as <-. apply (Hp k (o :: l)); [assumption | right; assumption].
      * rewrite list_lookup_insert_ne in Hi by assumption. eauto.
    + lia.
    + apply (Hp k (o :: l)); [assumption | left].
    + intros x. rewrite (cover_update s (bd_parked b) k (o :: l) l x Hl). specialize (Ht x). cbn [cover_list]. lia.
    + cbn [rbind]. destruct (IH b1 ls1 us k l Hh1) as (b' & ls' & Hc & Hh' & Hl' & Hp'); [rewrite Hp1; apply list_lookup_insert_eq; lia | assumption|].
      exists b', ls'. split; [exact Hc|]. split; [assumption|]. split; [congruence|]. rewrite Hp', Hp1. apply list_insert_insert_eq.
Qed.

Lemma compact_from_ok n : forall b ls us k, held b ls us -> (k + n = length ls)%nat -> (forall j l, (j < k)%nat -> bd_parked b !! j = Some l -> l = []) ->
  exists b' ls', compact_from n b (Z.of_nat k) = Ok b' /\ held b' ls' us /\ length ls' = length ls /\ forall j l, bd_parked b' !! j = Some l -> l = [].
Proof.
  induction n as [|n IH]; intros b ls us k Hh Hn He; cbn [compact_from].
  - exists b, ls. split; [reflexivity|]. split; [assumption|]. split; [reflexivity|]. intros j l Hj. apply (He j); [|assumption]. apply lookup_lt_Some in Hj. pose proof (proj1 (h_stacks _ _ _ Hh)). lia.
  - destruct (lookup_lt_is_Some_2 (bd_parked b) k) as [l Hl]; [rewrite (proj1 (h_stacks _ _ _ Hh)); lia|]. rewrite (index_get_Some _ _ l) by (rewrite ?Nat2Z.id; auto; lia). cbn [rbind].
    destruct (compact_order_ok (length l) b ls us k l Hh Hl eq_refl) as (b1 & ls1 & -> & Hh1 & Hl1 & Hp1). cbn [rbind]. replace (Z.of_nat k + 1) with (Z.of_nat (S k)) by lia.
    destruct (IH b1 ls1 us (S k) Hh1) as (b' & ls' & Hc & Hh' & Hl' & Hp'); [lia | | exists b', ls'; split; [exact Hc|]; split; [assumption|]; split; [congruence | assumption]].
    intros j l0 Hj Hl0. rewrite Hp1 in Hl0. destruct (decide (k = j)) as [<-|Hne]; [rewrite list_lookup_insert_eq in Hl0 by (eapply lookup_lt_Some; exact Hl); congruence|].
    rewrite list_lookup_insert_ne in Hl0 by assumption. apply (He j); [lia | assumption].
Qed.

Lemma compact_ok b ls us : held b ls us -> exists b' ls', buddy_compact b = Ok b' /\ held b' ls' us /\ length ls' = length ls /\ forall j l, bd_parked b' !! j = Some l -> l = [].
Proof.
  intros Hh. unfold buddy_compact. apply (compact_from_ok _ b ls us 0 Hh); [rewrite (w_orders _ _ _ _ (h_wired _ _ _ Hh)); reflexivity | intros; lia].
Qed.

(** ** Allocation *)

Lemma find_order_ok b ls n : forall k, wired b ls -> (k + n = length ls)%nat ->
  exists r, find_order n (bd_heads b) (Z.of_nat k) = Ok r /\
    match r with
    | Some j => exists i o l, j = Z.of_nat i /\ (k <= i)%nat /\ ls !! i = Some (o :: l)
    | None => forall i l, (k <= i)%nat -> ls !! i = Some l -> l = []
    end.
Proof.
  induction n as [|n IH]; intros k W Hk; cbn [find_order].
  - exists None. split; [reflexivity|]. intros i l Hi Hl. apply lookup_lt_Some in Hl. lia.
  - destruct (lookup_lt_is_Some_2 ls k ltac:(lia)) as [l Hl]. rewrite (index_get_Some _ _ (first l)) by (rewrite ?Nat2Z.id; try lia; apply (w_heads _ _ _ _ W); exact Hl). cbn [rbind].
    destruct l as [|o l]; cbn [first].
    + rewrite Z.eqb_refl. replace (Z.of_nat k + 1) with (Z.of_nat (S k)) by lia. destruct (IH (S k) W ltac:(lia)) as (r & -> & Hr). exists r. split; [reflexivity|]. destruct r as [j|].
      * destruct Hr as (i & o & l & -> & Hi & Hl'). exists i, o, l. split; [reflexivity|]. split; [lia | assumption].
      * intros i l0 Hi Hl0. destruct (decide (i = k)) as [->|Hne]; [congruence | apply (Hr i); [lia | assumption]].
    + pose proof (w_placed _ _ _ _ W k _ o Hl ltac:(left)) as Hp. destruct (Z.eqb_spec o NONE) as [->|_]; [destruct (placed_not_none s alen Hs Hlen (Z.of_nat k) NONE ltac:(lia) Hp eq_refl)|].
      exists (Some (Z.of_nat k)). split; [reflexivity|]. exists k, o, l. auto.
Qed.

Lemma first_listed_ok b ls k : wired b ls -> (k <= length ls)%nat ->
  exists r, first_listed b (Z.of_nat k) = Ok r /\
    match r with
    | Some j => exists i o l, j = Z.of_nat i /\ (k <= i)%nat /\ ls !! i = Some (o :: l)
    | None => forall i l, (k <= i)%nat -> ls !! i = Some l -> l = []
    end.
Proof.
  intros W Hk. unfold first_listed, len. apply find_order_ok; [assumption|]. rewrite (w_orders _ _ _ _ W). lia.
Qed.

Lemma take_listed_ok b ls us k i o l : held b ls us -> (k <= i)%nat -> ls !! i = Some (o :: l) ->
  exists b' ls', take_listed b (Z.of_nat i) (Z.of_nat k) = Ok (Some o, b') /\ held b' ls' ((Z.of_nat k, o) :: us) /\ length ls' = length ls.
Proof.
  intros [W Hn [Hs1 Hs2] Hp Hu Ht] Hki Hl. pose proof (lookup_lt_Some _ _ _ Hl) as Hi. unfold take_listed.
  rewrite (index_get_Some _ _ o) by (rewrite ?Nat2Z.id; try lia; apply (w_heads _ _ _ _ W _ _ Hl)). cbn [rbind]. pose proof (w_placed _ _ _ _ W i _ o Hl ltac:(left)) as Hpl.
  destruct (unlink_spec s alen Hs Hlen b ls i (o :: l) o W Hl ltac:(left)) as (b1 & l1 & -> & Hperm & W1 & [Ha1 Ha2]). cbn [rbind].
  assert (Hc1 : forall x, cover (<[i := l1]> ls) x + covers (Z.of_nat i) o x = cover ls x).
  { intros x. rewrite (cover_update s ls i (o :: l) l1 x Hl), (cover_list_perm s _ _ _ x Hperm). cbn [cover_list]. lia. }
  replace (Z.to_nat (Z.of_nat i - Z.of_nat k)) with (i - k)%nat by lia. assert (Hik : (k + (i - k))%nat = i) by lia.
  destruct (split_ok s alen Hs Hlen (i - k) b1 (<[i := l1]> ls) k o W1 (no_pair_remove _ _ _ _ _ _ Hn Hl Hperm)) as (b' & ls' & -> & W' & Hn' & Hl' & [Hb1 Hb2] & Hc'); rewrite ?Hik, ?length_insert; auto.
  { intros x. rewrite Hc1. pose proof (Ht x). pose proof (cover_nonneg (bd_parked b) x). pose proof (cover_used_nonneg us x). pose proof (inside_le x). lia. }
  rewrite Hik, length_insert in *. cbn [rbind]. exists b', ls'. split; [reflexivity|]. split; [|assumption]. constructor; auto.
  - rewrite Hb1, Hb2, Ha1, Ha2, Hl'. auto.
  - rewrite Hb1, Ha1. assumption.
  - unfold len in *. rewrite Hl'. constructor; [|assumption]. cbn [fst snd]. split; [lia|]. destruct Hpl as (P1 & P2 & P3).
    pose proof (bsz_mono s Hs (Z.of_nat k) (Z.of_nat i) ltac:(lia)) as Hdiv. pose proof (bsz_pos s Hs (Z.of_nat k) ltac:(lia)). pose proof (bsz_pos s Hs (Z.of_nat i) ltac:(lia)).
    pose proof (Z.divide_pos_le (bsz (Z.of_nat k)) (bsz (Z.of_nat i)) ltac:(lia) Hdiv). split; [lia|]. split; [lia|]. apply Z.mod_divide; [lia|]. eapply Z.divide_trans; [exact Hdiv | apply Z.mod_divide; [lia | assumption]].
  - intros x. rewrite Hb1, Ha1. specialize (Ht x). specialize (Hc' x). specialize (Hc1 x). cbn [PoolProofs.cover_used fst snd]. lia.
Qed.

(** A failed attempt leaves nothing parked, and nothing listed of that order or above. *)
Definition exhausted_from (b : Buddy) (ls : list (list Z)) (k : nat) : Prop :=
  (forall j l, bd_parked b !! j = Some l -> l = []) /\ forall i l, (k <= i)%nat -> ls !! i = Some l -> l = [].

Lemma alloc_ok b ls us k : held b ls us -> (k < length ls)%nat ->
  exists r b' ls', buddy_alloc b (Z.of_nat k) = Ok (r, b') /\ length ls' = length ls /\
    match r with Some o => held b' ls' ((Z.of_nat k, o) :: us) | None => held b' ls' us /\ exhausted_from b' ls' k end.
Proof.
  intros Hh Hk. destruct (h_stacks _ _ _ Hh) as [Hs1 Hs2]. destruct (lookup_lt_is_Some_2 (bd_parked b) k ltac:(lia)) as [l Hl]. unfold buddy_alloc.
  rewrite (index_get_Some _ _ l) by (rewrite ?Nat2Z.id; auto; lia). cbn [rbind]. destruct l as [|o l].
  2: { rewrite (index_set_Some _ _ (o :: l)) by (rewrite ?Nat2Z.id; auto; lia). cbn [rbind]. rewrite Nat2Z.id. eexists _, _, ls. split; [reflexivity|]. split; [reflexivity|].
       destruct Hh as [W Hn _ Hp Hu Ht]. constructor; cbn [bd_parked bd_caps bd_set_parked]; auto.
       - destruct W; constructor; assumption.
       - rewrite length_insert. auto.
       - intros i l0 x Hi Hx. destruct (decide (k = i)) as [<-|Hne].
         + rewrite list_lookup_insert_eq in Hi by lia. injection Hi as <-. apply (Hp k (o :: l)); [assumption | right; assumption].
         + rewrite list_lookup_insert_ne in Hi by assumption. eauto.
       - constructor; [|assumption]. cbn [fst snd]. split; [unfold len; lia | apply (Hp k (o :: l)); [assumption | left]].
       - intros x. rewrite (cover_update s (bd_parked b) k (o :: l) l x Hl). specialize (Ht x). cbn [cover_list PoolProofs.cover_used fst snd]. lia. }
  destruct (first_listed_ok b ls k (h_wired _ _ _ Hh) ltac:(lia)) as (r & -> & Hr). cbn [rbind]. destruct r as [j|].
  { destruct Hr as (i & o & l & -> & Hi & Hli). destruct (take_listed_ok b ls us k i o l Hh Hi Hli) as (b' & ls' & -> & Hh' & Hl'). exists (Some o), b', ls'. auto. }
  destruct (forallb _ (bd_parked b)) eqn:Hall.
  - exists None, b, ls. split; [reflexivity|]. split; [reflexivity|]. split; [assumption|]. split; [|assumption]. intros j l Hj. rewrite forallb_forall in Hall.
    specialize (Hall l (proj1 (list_elem_of_In _ _) (list_elem_of_lookup_2 _ _ _ Hj))). destruct l; [reflexivity | discriminate].
  - destruct (compact_ok b ls us Hh) as (b1 & ls1 & -> & Hh1 & Hl1 & He1). cbn [rbind]. destruct (first_listed_ok b1 ls1 k (h_wired _ _ _ Hh1) ltac:(lia)) as (r & -> & Hr1). cbn [rbind]. destruct r as [j|].
    + destruct Hr1 as (i & o & l & -> & Hi & Hli). destruct (take_listed_ok b1 ls1 us k i o l Hh1 Hi Hli) as (b' & ls' & -> & Hh' & Hl'). exists (Some o), b', ls'. split; [reflexivity|]. split; [congruence | assumption].
    + exists None, b1, ls1. split; [reflexivity|]. split; [assumption|]. split; [assumption|]. split; assumption.
Qed.

(** ** Completeness

    In a merged state every free aligned range lies in one listed block. *)

Lemma free_range_listed b ls us : held b ls us -> (forall j l, bd_parked b !! j = Some l -> l = []) ->
  forall k o, (k < length ls)%nat -> placed (Z.of_nat k) o -> (forall x, o <= x < o + bsz (Z.of_nat k) -> cover_used us x = 0) ->
  exists j l y, (k <= j)%nat /\ ls !! j = Some l /\ y ∈ l /\ y <= o /\ o + bsz (Z.of_nat k) <= y + bsz (Z.of_nat j).
Proof.
  intros Hh He. assert (Hp0 : forall x, cover (bd_parked b) x = 0).
  { intros x. destruct (Z.lt_ge_cases 0 (cover (bd_parked b) x)) as [Hc|Hc]; [|pose proof (cover_nonneg (bd_parked b) x); lia].
    destruct (cover_some s _ x Hc) as (j & l & y & Hl & Hy & _). rewrite (He j l Hl) in Hy. inversion Hy. }
  (* a listed block that meets an aligned range of no higher order contains it *)
  assert (Hcontain : forall k o j l y, placed (Z.of_nat k) o -> ls !! j = Some l -> y ∈ l -> (k <= j)%nat -> y <= o < y + bsz (Z.of_nat j) -> y <= o /\ o + bsz (Z.of_nat k) <= y + bsz (Z.of_nat j)).
  { intros k o j l y (P1 & P2 & P3) Hl Hy Hkj Hin. destruct (w_placed _ _ _ _ (h_wired _ _ _ Hh) j l y Hl Hy) as (Q1 & Q2 & Q3). split; [lia|].
    pose proof (bsz_pos s Hs (Z.of_nat k) ltac:(lia)) as Hbk. destruct (bsz_mono s Hs (Z.of_nat k) (Z.of_nat j) ltac:(lia)) as [c Hc]. rewrite Hc in *.
    apply Z.mod_divide in P3 as [q ->]; [|lia]. apply Z.mod_divide in Q3 as [r ->]; [|nia].
    assert (q < r * c + c) by nia. nia. }
  induction k as [|k IH]; intros o Hk Hp Hfree.
  - change (Z.of_nat 0) with 0 in *. pose proof (bsz_pos s Hs 0 ltac:(lia)) as Hb. destruct Hp as (P1 & P2 & P3). pose proof (h_total _ _ _ Hh o) as Ht. rewrite Hp0, (Hfree o ltac:(lia)) in Ht.
    unfold inside in Ht. rewrite (proj2 (Z.leb_le 0 o)), (proj2 (Z.ltb_lt o alen)) in Ht by lia. cbn [andb] in Ht.
    destruct (cover_some s ls o ltac:(lia)) as (j & l & y & Hl & Hy & Hin). exists j, l, y. split; [lia|]. split; [assumption|]. split; [assumption|]. apply (Hcontain 0%nat o j l y); auto; [split; auto | lia].
  - rewrite Nat2Z.inj_succ in *. change (Z.succ (Z.of_nat k)) with (Z.of_nat k + 1) in *. pose proof (bsz_pos s Hs (Z.of_nat k) ltac:(lia)) as Hb. pose proof (bsz_succ s Hs (Z.of_nat k) ltac:(lia)) as Hsucc.
    destruct Hp as (P1 & P2 & P3). assert (Hmod : o mod bsz (Z.of_nat k) = 0).
    { apply Z.mod_divide; [lia|]. eapply Z.divide_trans; [apply (bsz_mono s Hs (Z.of_nat k) (Z.of_nat k + 1)); lia | apply Z.mod_divide; [lia | assumption]]. }
    assert (Hlo : placed (Z.of_nat k) o) by (split; [lia | split; [lia | assumption]]).
    assert (Hhi : placed (Z.of_nat k) (o + bsz (Z.of_nat k))) by (split; [lia | split; [lia | rewrite Z.add_mod, Hmod, Z.mod_same by lia; reflexivity]]).
    destruct (IH o ltac:(lia) Hlo) as (j1 & l1 & y1 & Hj1 & Hl1 & Hy1 & Ha1 & Hb1); [intros x Hx; apply Hfree; lia|].
    destruct (IH (o + bsz (Z.of_nat k)) ltac:(lia) Hhi) as (j2 & l2 & y2 & Hj2 & Hl2 & Hy2 & Ha2 & Hb2); [intros x Hx; apply Hfree; lia|].
    assert (HP : placed (Z.of_nat (S k)) o) by (rewrite Nat2Z.inj_succ; split; [lia | split; [exact P2 | exact P3]]).
    destruct (decide (S k <= j1)%nat) as [Hge|Hlt1].
    { exists j1, l1, y1. split; [assumption|]. split; [assumption|]. split; [assumption|]. pose proof (Hcontain (S k) o j1 l1 y1 HP Hl1 Hy1 Hge ltac:(lia)) as Hc. rewrite Nat2Z.inj_succ in Hc. exact Hc. }
    assert (j1 = k) as -> by lia. assert (y1 = o) as -> by lia. destruct (decide (S k <= j2)%nat) as [Hge|Hlt2].
    { exists j2, l2, y2. split; [assumption|]. split; [assumption|]. split; [assumption|]. destruct (w_placed _ _ _ _ (h_wired _ _ _ Hh) j2 l2 y2 Hl2 Hy2) as (_ & _ & Q3).
      assert (Hle : y2 <= o).
      { pose proof (bsz_pos s Hs (Z.of_nat j2) ltac:(lia)). assert (D : (bsz (Z.of_nat k + 1) | y2)) by (eapply Z.divide_trans; [apply (bsz_mono s Hs (Z.of_nat k + 1) (Z.of_nat j2)); lia | apply Z.mod_divide; [lia | assumption]]).
        rewrite Hsucc in D, P3. apply Z.mod_divide in P3 as [q Hq]; [|lia]. destruct D as [r Hr]. rewrite Hq, Hr in *. destruct (Z.le_gt_cases r q); nia. }
      pose proof (Hcontain (S k) o j2 l2 y2 HP Hl2 Hy2 Hge ltac:(lia)) as Hc. rewrite Nat2Z.inj_succ in Hc. exact Hc. }
    assert (j2 = k) as -> by lia. assert (y2 = o + bsz (Z.of_nat k)) as -> by lia. assert (l2 = l1) as -> by congruence. exfalso.
    apply (h_pair _ _ _ Hh k l1 (o + bsz (Z.of_nat k)) Hl1 ltac:(lia) Hy2). rewrite (upper_half s Hs (Z.of_nat k) o) by (lia || assumption). assumption.
Qed.
End Held.

(** ** Seeding of the buddy allocator

    A new allocator lists the binary decomposition of its arena, nothing is
    parked and nothing in use. *)

Lemma trailing_zeros_pow2 m : 0 <= m -> trailing_zeros (2 ^ m) = m.
Proof.
  intros Hm. unfold trailing_zeros. replace (- 2 ^ m) with (Z.lnot (Z.ones m)) by (rewrite Z.ones_equiv; unfold Z.lnot; lia).
  rewrite <- Z.ldiff_land, Z.ldiff_ones_r by assumption.
  rewrite Z.shiftr_div_pow2, Z.shiftl_mul_pow2, Z.div_same by (assumption || (pose proof (Z.pow_pos_nonneg 2 m); lia)). rewrite Z.mul_1_l. apply Z.log2_pow2. assumption.
Qed.

Lemma pow2_le_divide a b : 0 <= a -> 0 <= b -> 2 ^ a <= 2 ^ b -> (2 ^ a | 2 ^ b).
Proof.
  intros Ha Hb Hle. apply Z.pow_le_mono_r_iff in Hle; [|lia | assumption]. exists (2 ^ (b - a)). rewrite <- Z.pow_add_r by lia. f_equal. lia.
Qed.

Section Seed.
Context (s alen : Z) (Hs : 0 <= s) (Hlen : 0 <= alen <= ARENA_MAX).
Abbreviation bsz := (bsz s).
Abbreviation placed := (placed s alen).
Abbreviation wired := (wired s alen).
Abbreviation cover := (cover s).
Abbreviation covers := (covers s).
Abbreviation no_pair := (no_pair s).
Context (K : nat) (max : Z) (HK : max = s + Z.of_nat K - 1) (HK0 : (0 < K)%nat) (Hal : alen mod 2 ^ s = 0).

(** The part below [o] is listed; the rest is aligned for every block it holds. *)
Record seeded (b : Buddy) (ls : list (list Z)) (o r : Z) : Prop := {
  sd_wired : wired b ls;
  sd_pair : no_pair ls;
  sd_orders : length ls = K;
  sd_rest : 0 <= o /\ 0 <= r /\ o + r = alen;
  sd_cover : forall x, cover ls x = if (0 <=? x) && (x <? o) then 1 else 0;
  sd_once : forall j l, ls !! j = Some l -> (S j < K)%nat -> l <> [] -> r < bsz (Z.of_nat j);
  sd_aligned : forall m, 0 <= m <= max -> 2 ^ m <= r -> (2 ^ m | o)
}.

(** The block that seeding takes next. *)
Lemma next_block r : 2 ^ s <= r ->
  exists k, Z.min (Z.shiftl 1 (Z.log2 r)) (Z.shiftl 1 max) = bsz (Z.of_nat k) /\ (k < K)%nat /\ bsz (Z.of_nat k) <= r /\ ((S k < K)%nat -> r < 2 * bsz (Z.of_nat k)) /\
    trailing_zeros (bsz (Z.of_nat k)) - s = Z.of_nat k.
Proof.
  intros Hr. pose proof (Z.pow_pos_nonneg 2 s ltac:(lia) Hs) as Hp. pose proof (Z.log2_spec r ltac:(lia)) as [Hl1 Hl2]. pose proof (Z.log2_nonneg r) as Hl0. rewrite Z.pow_succ_r in Hl2 by assumption.
  assert (Hsl : s <= Z.log2 r) by (apply Z.log2_le_pow2; lia). rewrite !Z.shiftl_1_l.
  destruct (Z.le_ge_cases (Z.log2 r) max) as [Hle|Hge].
  - exists (Z.to_nat (Z.log2 r - s)). unfold PoolLinks.bsz. rewrite Z2Nat.id by lia. replace (Z.log2 r - s + s) with (Z.log2 r) by lia. rewrite trailing_zeros_pow2 by assumption.
    rewrite Z.min_l by (apply Z.pow_le_mono_r; lia). repeat split; lia.
  - exists (K - 1)%nat. unfold PoolLinks.bsz. replace (Z.of_nat (K - 1) + s) with max by lia. rewrite trailing_zeros_pow2 by lia. pose proof (Z.pow_le_mono_r 2 max (Z.log2 r) ltac:(lia) Hge).
    rewrite Z.min_r by lia. repeat split; lia.
Qed.

Lemma seed_push b ls o r k : seeded b ls o r -> (k < K)%nat -> bsz (Z.of_nat k) <= r -> ((S k < K)%nat -> r < 2 * bsz (Z.of_nat k)) ->
  exists b' ls', buddy_push b (Z.of_nat k) o = Ok b' /\ seeded b' ls' (o + bsz (Z.of_nat k)) (r - bsz (Z.of_nat k)) /\ same_stacks b b'.
Proof.
  intros [W Hn Ho (R1 & R2 & R3) Hc Hon Ha] Hk Hle Hlt. destruct (lookup_lt_is_Some_2 ls k ltac:(lia)) as [l Hl]. pose proof (bsz_pos s Hs (Z.of_nat k) ltac:(lia)) as Hb.
  assert (Hmod : o mod bsz (Z.of_nat k) = 0) by (apply Z.mod_divide; [lia | apply Ha; [lia | exact Hle]]).
  assert (Hempty : (S k < K)%nat -> l = []) by (intros HS; destruct l; [reflexivity | specialize (Hon k _ Hl HS ltac:(discriminate)); lia]).
  assert (Happ : forall x, covers (Z.of_nat k) o x = if (o <=? x) && (x <? o + bsz (Z.of_nat k)) then 1 else 0) by reflexivity.
  destruct (push_ok s alen Hs Hlen b ls k l o W Hn Hl) as (b' & ls' & Hpush & W' & Hn' & Hl' & Hst & -> & Hc').
  - split; [lia | split; [lia | assumption]].
  - intros x. rewrite Hc, Happ. destruct (Z.leb_spec 0 x), (Z.ltb_spec x o), (Z.leb_spec o x), (Z.ltb_spec x (o + bsz (Z.of_nat k))); cbn [andb]; lia.
  - intros HS. rewrite Ho in HS. rewrite (Hempty HS). apply not_elem_of_nil.
  - exists b', (<[k := o :: l]> ls). split; [exact Hpush|]. split; [|exact Hst]. constructor; auto.
    + rewrite Hl'. assumption.
    + lia.
    + intros x. rewrite Hc', Hc, Happ. destruct (Z.leb_spec 0 x), (Z.ltb_spec x o), (Z.leb_spec o x), (Z.ltb_spec x (o + bsz (Z.of_nat k))); cbn [andb]; lia.
    + intros j l0 Hj HS Hne. destruct (decide (k = j)) as [<-|Hkj]; [specialize (Hlt HS); lia|]. rewrite list_lookup_insert_ne in Hj by assumption. specialize (Hon j l0 Hj HS Hne). lia.
    + intros m Hm Hmr. apply Z.divide_add_r; [apply Ha; [assumption | lia]|]. apply pow2_le_divide; [lia | lia|]. change (2 ^ (Z.of_nat k + s)) with (bsz (Z.of_nat k)).
      destruct (decide (S k < K)%nat) as [HS|HS]; [specialize (Hlt HS); lia|]. unfold PoolLinks.bsz. replace (Z.of_nat k + s) with max by lia. apply Z.pow_le_mono_r; lia.
Qed.

Lemma seed_ok n : forall b ls o r, seeded b ls o r -> r mod 2 ^ s = 0 -> r < Z.of_nat n * 2 ^ s ->
  exists b' ls', seed n b max o r = Ok b' /\ seeded b' ls' alen 0 /\ same_stacks b b'.
Proof.
  pose proof (Z.pow_pos_nonneg 2 s ltac:(lia) Hs) as Hp.
  induction n as [|n IH]; intros b ls o r Hsd Hmod Hn; cbn [seed].
  { destruct (sd_rest _ _ _ _ Hsd). lia. }
  rewrite (w_shift _ _ _ _ (sd_wired _ _ _ _ Hsd)), Z.shiftl_1_l. destruct (sd_rest _ _ _ _ Hsd) as (R1 & R2 & R3). destruct (Z.geb_spec r (2 ^ s)) as [Hge|Hlt].
  - destruct (next_block r Hge) as (k & -> & Hk & Hle & Htop & ->). destruct (seed_push b ls o r k Hsd Hk Hle Htop) as (b1 & ls1 & -> & Hsd1 & [Ha1 Ha2]). cbn [rbind].
    assert (Hdiv : (2 ^ s | bsz (Z.of_nat k))) by (exists (2 ^ Z.of_nat k); unfold PoolLinks.bsz; rewrite Z.pow_add_r by lia; ring).
    assert (H2 : 2 ^ s <= bsz (Z.of_nat k)) by (apply Z.divide_pos_le; [apply bsz_pos; lia | assumption]).
    destruct (IH b1 ls1 _ _ Hsd1) as (b' & ls' & Hseed & Hsd' & [Hb1 Hb2]).
    + apply Z.mod_divide; [lia|]. apply Z.divide_sub_r; [apply Z.mod_divide; [lia | assumption] | assumption].
    + lia.
    + exists b', ls'. split; [exact Hseed|]. split; [assumption|]. split; congruence.
  - rewrite Z.mod_small in Hmod by lia. subst r. exists b, ls. split; [reflexivity|]. split; [|split; reflexivity]. replace alen with o by lia. assumption.
Qed.

Lemma cover_empty ls x : (forall k l, ls !! k = Some l -> l = []) -> cover ls x = 0.
Proof.
  intros He. destruct (Z.lt_ge_cases 0 (cover ls x)) as [Hc|Hc]; [|pose proof (cover_nonneg s ls x); lia].
  destruct (cover_some s _ x Hc) as (j & l & y & Hl & Hy & _). rewrite (He j l Hl) in Hy. inversion Hy.
Qed.

Lemma order_ids_lookup n (f : Z -> list Z) k ws : map f (map Z.of_nat (seq 0 n)) !! k = Some ws -> ws = f (Z.of_nat k) /\ (k < n)%nat.
Proof.
  intros Hk. pose proof (lookup_lt_Some _ _ _ Hk) as Hlt. rewrite !length_map, length_seq in Hlt. split; [|assumption].
  rewrite !list_lookup_fmap, lookup_seq_lt in Hk by assumption. cbn in Hk. congruence.
Qed.

(** ** The new allocator *)

Lemma Buddy_new_ok capacity_of : exists b ls, Buddy_new capacity_of alen s max = Ok b /\ held s alen b ls [] /\ length ls = K.
Proof.
  pose proof (Z.pow_pos_nonneg 2 s ltac:(lia) Hs) as Hp. unfold Buddy_new. replace (Z.to_nat (max - s + 1)) with K by lia.
  match goal with |- context [seed ?n ?b _ _ _] => set (fuel := n); set (b0 := b) end.
  assert (He : forall k l, replicate K ([] : list Z) !! k = Some l -> l = []) by (intros k l Hl; apply lookup_replicate in Hl; tauto).
  assert (Hcat : concat (replicate K ([] : list Z)) = []) by (clear; induction K; auto).
  assert (H0 : seeded b0 (replicate K []) 0 alen).
  { constructor; auto.
    - constructor; cbn; rewrite ?length_replicate, ?length_map, ?length_seq; auto.
      + intros k l Hl. apply lookup_replicate in Hl as [-> Hk]. apply lookup_replicate. auto.
      + intros k l Hl. rewrite (He k l Hl). exact I.
      + intros k l ws Hl Hw. rewrite (He k l Hl). apply order_ids_lookup in Hw as [-> Hk]. split.
        * unfold len. rewrite length_replicate, Z.shiftr_div_pow2 by lia. change (2 ^ (Z.of_nat k + s)) with (bsz (Z.of_nat k)).
          pose proof (bsz_pos s Hs (Z.of_nat k) ltac:(lia)). pose proof (Z.div_pos alen (bsz (Z.of_nat k)) ltac:(lia) ltac:(lia)). set (q := alen / bsz (Z.of_nat k)) in *.
          pose proof (div_ceil_spec q 64 ltac:(lia) ltac:(lia)). lia.
        * intros i Hi. split; [|intros Hin; inversion Hin]. unfold bit_at. destruct (_ !! Z.to_nat (i / 64)) as [w|] eqn:Hw; [|discriminate].
          apply lookup_replicate in Hw as [-> _]. rewrite Z.bits_0. discriminate.
      + intros k l o Hl Ho. rewrite (He k l Hl) in Ho. inversion Ho.
      + rewrite Hcat. constructor.
    - intros k l o Hl _ Ho. rewrite (He k l Hl) in Ho. inversion Ho.
    - apply length_replicate.
    - lia.
    - intros x. rewrite (cover_empty _ x He). destruct (Z.leb_spec 0 x), (Z.ltb_spec x 0); cbn [andb]; lia.
    - intros j l Hl _ Hne. rewrite (He j l Hl) in Hne. contradiction.
    - intros m _ _. apply Z.divide_0_r. }
  destruct (seed_ok fuel b0 (replicate K []) 0 alen H0 Hal) as (b' & ls' & Hseed & [W Hn Ho _ Hc _ _] & [Hst1 Hst2]).
  { unfold fuel. rewrite Z.shiftr_div_pow2, Nat2Z.inj_succ, Z2Nat.id by (try apply Z.div_pos; lia). pose proof (Z.div_mod alen (2 ^ s) ltac:(lia)). lia. }
  exists b', ls'. split; [exact Hseed|]. split; [|assumption]. constructor; auto.
  - rewrite Hst1, Hst2. cbn. rewrite length_replicate, !length_map, length_seq. auto.
  - intros k l o. rewrite Hst1. cbn. intros Hl Hin. rewrite (He k l Hl) in Hin. inversion Hin.
  - intros x. rewrite Hst1, Hc. cbn [bd_parked b0 PoolProofs.cover_used]. rewrite (cover_empty _ x He). unfold inside. lia.
Qed.
End Seed.
