(* ===== verification/PoolState.v ===== *)
(** * The pool over its arenas

    The invariant of a pool: per arena, the blocks that buffers and the return
    stack hold are what its allocator takes to be in use. Draining, releasing
    and allocating keep it. *)

From stdpp Require Import gmap.
From S2P Require Import Prelude Align Pool PoolLinks PoolProofs PoolBuddy.

(** ** One arena *)

Section Arena.
Context (s : Z) (Hs : 0 <= s) (K : nat).
Abbreviation bsz := (bsz s).

Definition arena_ok (alen : Z) (b : Buddy) (us : list (Z * Z)) : Prop :=
  0 <= alen <= ARENA_MAX /\ exists ls, held s alen b ls us /\ length ls = K.

(** Every aligned block of the order meets one in use. *)
Definition full (alen : Z) (us : list (Z * Z)) (k : Z) : Prop :=
  forall o, placed s alen k o -> exists u, u ∈ us /\ u.2 < o + bsz k /\ o < u.2 + bsz u.1.

Lemma cover_used_some us x : 0 < cover_used s us x -> exists u, u ∈ us /\ u.2 <= x < u.2 + bsz u.1.
Proof.
  induction us as [|u us IH]; cbn [cover_used]; [lia|]. intros Hc. destruct (covers_spec s u.1 u.2 x) as [[_ Hin]|[Hz _]]; [exists u; split; [left | exact Hin]|].
  destruct IH as (v & Hv & Hin); [lia | exists v; split; [right; assumption | exact Hin]].
Qed.

Lemma cover_used_in us u x : u ∈ us -> covers s u.1 u.2 x <= cover_used s us x.
Proof.
  induction us as [|v us IH]; intros Hu; [inversion Hu|]. cbn [cover_used]. pose proof (cover_used_nonneg s us x).
  apply elem_of_cons in Hu as [->|Hu]; [lia | specialize (IH Hu); destruct (covers_spec s v.1 v.2 x); lia].
Qed.

(** A range without a byte in use is inside a listed block, which a failed
    attempt excludes. *)
Lemma exhausted_full alen b ls us k : 0 <= alen <= ARENA_MAX -> held s alen b ls us -> (k < length ls)%nat -> exhausted_from b ls k -> full alen us (Z.of_nat k).
Proof.
  intros Hlen Hh Hk [He1 He2] o Hp.
  assert (Hdec : forall n, (forall x, o <= x < o + Z.of_nat n -> cover_used s us x = 0) \/ exists x, o <= x < o + Z.of_nat n /\ 0 < cover_used s us x).
  { induction n as [|n [IH|(x & Hx & Hc)]]; [left; intros; lia | | right; exists x; split; [lia | assumption]].
    destruct (Z.eq_dec (cover_used s us (o + Z.of_nat n)) 0) as [Hz|Hz].
    - left. intros x Hx. destruct (Z.eq_dec x (o + Z.of_nat n)) as [->|]; [assumption | apply IH; lia].
    - right. exists (o + Z.of_nat n). pose proof (cover_used_nonneg s us (o + Z.of_nat n)). split; lia. }
  pose proof (bsz_pos s Hs (Z.of_nat k) ltac:(lia)) as Hb. destruct (Hdec (Z.to_nat (bsz (Z.of_nat k)))) as [Hfree|(x & Hx & Hc)]; rewrite Z2Nat.id in * by lia.
  - destruct (free_range_listed s alen Hs b ls us Hh He1 k o Hk Hp Hfree) as (j & l & y & Hj & Hl & Hy & _). rewrite (He2 j l Hj Hl) in Hy. inversion Hy.
  - destruct (cover_used_some us x Hc) as (u & Hu & Hin). exists u. split; [assumption | lia].
Qed.

Lemma arena_alloc alen b us k : arena_ok alen b us -> (k < K)%nat ->
  exists r b', buddy_alloc b (Z.of_nat k) = Ok (r, b') /\
    match r with Some o => arena_ok alen b' ((Z.of_nat k, o) :: us) | None => arena_ok alen b' us /\ full alen us (Z.of_nat k) end.
Proof.
  intros (Hlen & ls & Hh & Hl) Hk. destruct (alloc_ok s alen Hs Hlen b ls us k Hh ltac:(lia)) as (r & b' & ls' & Ha & Hl' & Hr). exists r, b'. split; [exact Ha|]. destruct r as [o|].
  - split; [assumption|]. exists ls'. split; [assumption | lia].
  - destruct Hr as [Hh' He]. split; [|apply (exhausted_full alen b' ls' us k); auto; lia]. split; [assumption|]. exists ls'. split; [assumption | lia].
Qed.

Lemma arena_release alen b us k o : arena_ok alen b ((k, o) :: us) -> exists b', buddy_release b o k = Ok b' /\ arena_ok alen b' us.
Proof.
  intros (Hlen & ls & Hh & Hl). destruct (release_ok s alen Hs Hlen b ls us k o Hh) as (b' & ls' & Hr & Hh' & Hl'). exists b'. split; [exact Hr|]. split; [assumption|]. exists ls'. split; [assumption | lia].
Qed.

Lemma arena_perm alen b us us' : Permutation us us' -> arena_ok alen b us -> arena_ok alen b us'.
Proof. intros Hp (Hlen & ls & Hh & Hl). split; [assumption|]. exists ls. split; [eapply held_perm; eauto | assumption]. Qed.

(** What is written into a block in use is not read by the allocator. *)
Lemma arena_write alen b us u x v : arena_ok alen b us -> u ∈ us -> u.2 <= x < u.2 + bsz u.1 -> arena_ok alen (bd_set_links (<[x := v]> (bd_links b)) b) us.
Proof.
  intros (Hlen & ls & [W Hn Hst Hp Hu Ht] & Hl) Hin Hx. split; [assumption|]. exists ls. split; [|assumption].
  constructor; cbn [bd_parked bd_caps bd_set_links]; auto. destruct W as [W1 W2 W3 W4 W5 W6 W7 W8]. constructor; cbn [bd_links bd_set_links bd_min_shift bd_heads bd_bitmaps]; auto.
  intros k l Hk. apply (chain_frame (bd_links b)); [|eauto]. intros o Ho. apply lookup_insert_ne. intros ->.
  pose proof (cover_ge s ls k l o o Hk Ho) as Hc. rewrite covers_start in Hc by (assumption || lia). specialize (Ht o). pose proof (inside_le alen o).
  pose proof (cover_used_in us u o Hin) as Hc'. destruct (covers_spec s u.1 u.2 o) as [[Hone _]|[_ Hnot]]; [|tauto]. pose proof (cover_nonneg s (bd_parked b) o). lia.
Qed.

(** Blocks in use are aligned and inside, and no two share a byte. *)
Lemma arena_used alen b us u : arena_ok alen b us -> u ∈ us -> 0 <= u.1 < Z.of_nat K /\ placed s alen u.1 u.2.
Proof. intros (_ & ls & Hh & Hl) Hu. pose proof (h_used _ _ _ _ _ Hh) as Hf. rewrite Forall_forall in Hf. specialize (Hf u Hu). unfold len in Hf. rewrite Hl in Hf. assumption. Qed.

Lemma arena_apart alen b u us v : arena_ok alen b (u :: us) -> v ∈ us -> u.2 + bsz u.1 <= v.2 \/ v.2 + bsz v.1 <= u.2.
Proof.
  intros Ha Hv. destruct (arena_used alen b _ u Ha ltac:(left)) as [U1 _], (arena_used alen b _ v Ha ltac:(right; assumption)) as [V1 _].
  pose proof (bsz_pos s Hs u.1 ltac:(lia)). pose proof (bsz_pos s Hs v.1 ltac:(lia)).
  destruct (Z.le_gt_cases (u.2 + bsz u.1) v.2) as [|H1]; [auto|]. destruct (Z.le_gt_cases (v.2 + bsz v.1) u.2) as [|H2]; [auto|]. exfalso.
  destruct Ha as (Hlen & ls & Hh & Hl). pose proof (h_total _ _ _ _ _ Hh (Z.max u.2 v.2)) as Ht. cbn [cover_used] in Ht. pose proof (cover_used_in us v (Z.max u.2 v.2) Hv) as Hc.
  pose proof (inside_le alen (Z.max u.2 v.2)). pose proof (cover_nonneg s ls (Z.max u.2 v.2)). pose proof (cover_nonneg s (bd_parked b) (Z.max u.2 v.2)).
  destruct (covers_spec s u.1 u.2 (Z.max u.2 v.2)) as [[? _]|[_ ?]], (covers_spec s v.1 v.2 (Z.max u.2 v.2)) as [[? _]|[_ ?]]; lia.
Qed.

(** ** Bytes in use *)

Fixpoint area (f : Z -> Z) (n : nat) : Z := match n with O => 0 | S n => area f n + f (Z.of_nat n) end.

Lemma area_add f g n : area (fun x => f x + g x) n = area f n + area g n.
Proof. induction n; cbn [area]; lia. Qed.

Lemma area_le f g n : (forall x, f x <= g x) -> area f n <= area g n.
Proof. intros Hle. induction n; cbn [area]; [lia | specialize (Hle (Z.of_nat n)); lia]. Qed.

Lemma area_covers k o n : 0 <= k -> 0 <= o -> area (covers s k o) n = Z.max 0 (Z.min (bsz k) (Z.of_nat n - o)).
Proof.
  intros Hk Ho. pose proof (bsz_pos s Hs k Hk). induction n as [|n IH]; cbn [area]; [lia|]. destruct (covers_spec s k o (Z.of_nat n)) as [[-> ?]|[-> ?]]; lia.
Qed.

Definition used_bytes (us : list (Z * Z)) : Z := foldr (fun u n => bsz u.1 + n) 0 us.

Lemma used_bytes_le alen b us : arena_ok alen b us -> used_bytes us <= alen.
Proof.
  intros Ha. assert (Hcov : used_bytes us = area (cover_used s us) (Z.to_nat alen)).
  { pose proof (fun u => arena_used alen b us u Ha) as Hu. clear Ha. induction us as [|u us IH]; cbn [used_bytes foldr cover_used]; [clear; induction (Z.to_nat alen); cbn [area]; lia|].
    rewrite (area_add (covers s u.1 u.2) (cover_used s us)), <- IH by (intros v Hv; apply Hu; right; assumption). destruct (Hu u ltac:(left)) as [Hk (P1 & P2 & _)]. pose proof (bsz_pos s Hs u.1 ltac:(lia)).
    rewrite area_covers by lia. unfold used_bytes. lia. }
  rewrite Hcov. destruct Ha as (Hlen & ls & Hh & _). transitivity (area (fun _ => 1) (Z.to_nat alen)).
  - apply area_le. intros x. pose proof (h_total _ _ _ _ _ Hh x). pose proof (inside_le alen x). pose proof (cover_nonneg s ls x). pose proof (cover_nonneg s (bd_parked b) x). lia.
  - assert (Hone : forall n, area (fun _ => 1) n = Z.of_nat n) by (induction n; cbn [area]; lia). rewrite Hone. lia.
Qed.
End Arena.

(** ** All arenas *)

Definition block : Type := Z * Z * Z.
Definition buf_block (b : PooledBuf) : block := (pb_arena b, pb_offset b, pb_len b).
Definition ret_block (r : Returned) : block := (ret_arena r, ret_offset r, ret_len r).

(** Order and offset of the blocks of arena [i]. *)
Fixpoint used_at (i : Z) (bl : list block) : list (Z * Z) :=
  match bl with
  | [] => []
  | (a, o, l) :: bl => if a =? i then (trailing_zeros l - 12, o) :: used_at i bl else used_at i bl
  end.

Definition arena_lengths (p : BufferPool) : list Z := map ar_len (bp_arenas p).

Definition orders (p : BufferPool) : nat := Z.to_nat (bp_max_shift p - 11).

Record pool_ok (p : BufferPool) (bl : list block) : Prop := {
  po_shifts : bp_min_shift p = 12 /\ 12 <= bp_max_shift p <= 30;
  po_arenas : length (bp_buddies p) = length (arena_lengths p);
  po_arena : forall i alen b, arena_lengths p !! i = Some alen -> bp_buddies p !! i = Some b -> arena_ok 12 (orders p) alen b (used_at (Z.of_nat i) bl);
  po_block : Forall (fun '(a, o, l) => 0 <= a < len (arena_lengths p) /\ exists k, 0 <= k < Z.of_nat (orders p) /\ l = bsz 12 k) bl
}.

Lemma used_at_perm i bl bl' : Permutation bl bl' -> Permutation (used_at i bl) (used_at i bl').
Proof.
  induction 1 as [|[[a o] l] bl bl' _ IH|[[a o] l] [[a' o'] l'] bl|bl bl' bl'' _ IH1 _ IH2]; cbn [used_at]; try reflexivity.
  - destruct (a =? i); [constructor|]; assumption.
  - destruct (a =? i), (a' =? i); try reflexivity. constructor.
  - etransitivity; eassumption.
Qed.

Lemma pool_perm p bl bl' : Permutation bl bl' -> pool_ok p bl -> pool_ok p bl'.
Proof.
  intros Hp [H1 H2 H3 H4]. constructor; auto; [|rewrite <- Hp; assumption]. intros i alen b Ha Hb. eapply arena_perm; [apply used_at_perm; exact Hp | eauto].
Qed.

Lemma order_of_block p k : bp_min_shift p = 12 -> 0 <= k -> order_of p (bsz 12 k) = k.
Proof. intros Hm Hk. unfold order_of, bsz. rewrite Hm, trailing_zeros_pow2 by lia. lia. Qed.

(** What an operation on the allocators leaves alone. *)
Definition same_pool (p p' : BufferPool) : Prop :=
  arena_lengths p' = arena_lengths p /\ bp_min_shift p' = bp_min_shift p /\ bp_max_shift p' = bp_max_shift p /\ bp_home p' = bp_home p /\ bp_in_use p' = bp_in_use p.

Lemma same_pool_trans p q r : same_pool p q -> same_pool q r -> same_pool p r.
Proof. intros (A1 & A2 & A3 & A4 & A5) (B1 & B2 & B3 & B4 & B5). unfold same_pool. rewrite B1, B2, B3, B4, B5. auto. Qed.

(** An arena's allocator replaced, the blocks of the other arenas unchanged. *)
Lemma pool_replace p bl bl' j b' alen : pool_ok p bl -> arena_lengths p !! j = Some alen -> arena_ok 12 (orders p) alen b' (used_at (Z.of_nat j) bl') ->
  (forall i, i <> Z.of_nat j -> used_at i bl' = used_at i bl) -> Forall (fun '(a, o, l) => 0 <= a < len (arena_lengths p) /\ exists k, 0 <= k < Z.of_nat (orders p) /\ l = bsz 12 k) bl' ->
  pool_ok (bp_set_buddies (<[j := b']> (bp_buddies p)) p) bl'.
Proof.
  intros [H1 H2 H3 H4] Hj Hok Hrest Hbl. constructor; change (arena_lengths (bp_set_buddies _ p)) with (arena_lengths p); cbn [bp_min_shift bp_max_shift bp_buddies bp_set_buddies]; auto; [rewrite length_insert; assumption|].
  intros i al b Ha Hb. change (orders _) with (orders p). destruct (decide (j = i)) as [<-|Hne].
  - rewrite list_lookup_insert_eq in Hb by (rewrite H2; eapply lookup_lt_Some; exact Hj). injection Hb as <-. replace al with alen by congruence. assumption.
  - rewrite list_lookup_insert_ne in Hb by assumption. rewrite Hrest by lia. eauto.
Qed.

Lemma release_at_ok p a o l bl : pool_ok p ((a, o, l) :: bl) -> exists p', release_at p a o l = Ok p' /\ pool_ok p' bl /\ same_pool p p' /\ bp_returned p' = bp_returned p.
Proof.
  intros Hok. pose proof (po_block _ _ Hok) as Hf. apply Forall_cons in Hf as [[Ha (k & Hk & ->)] Hf']. unfold len in Ha. destruct (Z_of_nat_complete a) as [j ->]; [lia|].
  destruct (lookup_lt_is_Some_2 (arena_lengths p) j ltac:(lia)) as [alen Hal]. destruct (lookup_lt_is_Some_2 (bp_buddies p) j) as [b Hb]; [rewrite (po_arenas _ _ Hok); lia|].
  unfold release_at. rewrite (index_get_Some _ _ b) by (rewrite ?Nat2Z.id; auto; lia). cbn [rbind]. rewrite order_of_block by (try apply (po_shifts _ _ Hok); lia).
  pose proof (po_arena _ _ Hok j alen b Hal Hb) as Harena. cbn [used_at] in Harena. rewrite Z.eqb_refl in Harena. unfold bsz at 1 in Harena. rewrite trailing_zeros_pow2 in Harena by lia. replace (k + 12 - 12) with k in Harena by lia.
  destruct (arena_release 12 ltac:(lia) (orders p) alen b _ k o Harena) as (b' & -> & Hb'). cbn [rbind]. rewrite (index_set_Some _ _ b) by (rewrite ?Nat2Z.id; auto; lia). cbn [rbind]. rewrite Nat2Z.id.
  eexists. split; [reflexivity|]. split; [|repeat split; reflexivity]. apply (pool_replace p _ bl j b' alen Hok Hal Hb'); [|assumption].
  intros i Hi. cbn [used_at]. destruct (Z.eqb_spec (Z.of_nat j) i); [congruence | reflexivity].
Qed.

Lemma drain_nodes_ok nodes : forall p bl, pool_ok p (map ret_block nodes ++ bl) -> exists p', drain_nodes nodes p = Ok p' /\ pool_ok p' bl /\ same_pool p p' /\ bp_returned p' = bp_returned p.
Proof.
  induction nodes as [|n nodes IH]; intros p bl Hok; cbn [drain_nodes]; [exists p; split; [reflexivity|]; split; [exact Hok | repeat split; reflexivity]|].
  destruct (release_at_ok p (ret_arena n) (ret_offset n) (ret_len n) (map ret_block nodes ++ bl) Hok) as (p1 & -> & Hok1 & Hs1 & Hr1). cbn [rbind].
  destruct (IH p1 bl Hok1) as (p' & Hd & Hok' & Hs' & Hr'). exists p'. split; [exact Hd|]. split; [assumption|]. split; [eapply same_pool_trans; eassumption | congruence].
Qed.

Lemma drain_ok p bl : pool_ok p (map ret_block (bp_returned p) ++ bl) -> exists p', drain_returned p = Ok p' /\ pool_ok p' bl /\ same_pool p p' /\ bp_returned p' = [].
Proof.
  intros Hok. unfold drain_returned. destruct (drain_nodes_ok (bp_returned p) (bp_set_returned [] p) bl) as (p' & Hd & Hok' & Hs' & Hr'); [destruct Hok; constructor; assumption|].
  exists p'. split; [exact Hd|]. split; [assumption|]. split; [exact Hs' | exact Hr'].
Qed.

(** ** The first arena with room *)

Lemma alloc_first_ok K k U : (k < K)%nat -> forall bs lens i, length bs = length lens ->
  (forall j alen b, lens !! j = Some alen -> bs !! j = Some b -> arena_ok 12 K alen b (U (i + Z.of_nat j))) ->
  exists r bs', alloc_first bs i (Z.of_nat k) = Ok (r, bs') /\
    match r with
    | Some (a, o) => exists j alen b', a = i + Z.of_nat j /\ lens !! j = Some alen /\ arena_ok 12 K alen b' ((Z.of_nat k, o) :: U a) /\
        length bs' = length bs /\ forall m al b, lens !! m = Some al -> bs' !! m = Some b -> if decide (m = j) then b = b' else arena_ok 12 K al b (U (i + Z.of_nat m))
    | None => length bs' = length bs /\ forall m al b, lens !! m = Some al -> bs' !! m = Some b -> arena_ok 12 K al b (U (i + Z.of_nat m)) /\ full 12 al (U (i + Z.of_nat m)) (Z.of_nat k)
    end.
Proof.
  intros Hk. induction bs as [|b bs IH]; intros lens i Hlen Hok; cbn [alloc_first].
  { exists None, []. split; [reflexivity|]. split; [reflexivity|]. intros m al b _ Hm. discriminate. }
  destruct lens as [|alen lens]; [discriminate|]. injection Hlen as Hlen. pose proof (Hok 0%nat alen b eq_refl eq_refl) as H0. rewrite Z.add_0_r in H0.
  destruct (arena_alloc 12 ltac:(lia) K alen b (U i) k H0 Hk) as (r & b' & -> & Hr). cbn [rbind]. destruct r as [o|].
  - exists (Some (i, o)), (b' :: bs). split; [reflexivity|]. exists 0%nat, alen, b'. split; [lia|]. split; [reflexivity|]. split; [assumption|]. split; [reflexivity|].
    intros [|m] al b0 Hal Hb0; cbn in Hal, Hb0; [destruct (decide _); [congruence | contradiction]|]. destruct (decide (S m = 0%nat)); [discriminate|]. apply (Hok (S m)); assumption.
  - destruct Hr as [Hb' Hfull]. destruct (IH lens (i + 1) Hlen) as (r & bs' & -> & Hr).
    { intros j al b0 Hj Hb0. replace (i + 1 + Z.of_nat j) with (i + Z.of_nat (S j)) by lia. apply (Hok (S j)); assumption. }
    cbn [rbind]. exists r, (b' :: bs'). split; [reflexivity|]. destruct r as [[a o]|].
    + destruct Hr as (j & al & b1 & -> & Hj & Hb1 & Hl & Hrest). exists (S j), al, b1. replace (i + Z.of_nat (S j)) with (i + 1 + Z.of_nat j) by lia. split; [reflexivity|]. split; [exact Hj|]. split; [assumption|]. split; [cbn; congruence|].
      intros [|m] al0 b0 Hal Hb0; cbn in Hal, Hb0.
      * destruct (decide (0%nat = S j)); [discriminate|]. rewrite Z.add_0_r. congruence.
      * specialize (Hrest m al0 b0 Hal Hb0). replace (i + Z.of_nat (S m)) with (i + 1 + Z.of_nat m) by lia. destruct (decide (m = j)), (decide (S m = S j)); congruence || assumption.
    + destruct Hr as [Hl Hrest]. split; [cbn; congruence|]. intros [|m] al0 b0 Hal Hb0; cbn in Hal, Hb0; [rewrite Z.add_0_r; replace al0 with alen by congruence; replace b0 with b' by congruence; auto|].
      replace (i + Z.of_nat (S m)) with (i + 1 + Z.of_nat m) by lia. auto.
Qed.

(** ** The pool's own operations *)

Definition outstanding (outs : list PooledBuf) : Z := foldr (fun b n => pb_len b + n) 0 outs.

Record pool_inv (p : BufferPool) (outs : list PooledBuf) : Prop := {
  pi_ok : pool_ok p (map ret_block (bp_returned p) ++ map buf_block outs);
  pi_in_use : bp_in_use p = wrap64 (outstanding outs)
}.

Lemma class_size_block p l : bp_min_shift p = 12 -> 12 <= bp_max_shift p -> 0 <= l <= max_class p ->
  exists k, (k < orders p)%nat /\ class_size p l = bsz 12 (Z.of_nat k) /\ l <= class_size p l.
Proof.
  intros Hm Hx Hl. unfold class_size, next_power_of_two, max_class, orders in *. rewrite Hm. rewrite Z.shiftl_1_l in *. set (v := Z.max l 1).
  pose proof (Z.log2_up_nonneg v) as Hn. exists (Z.to_nat (Z.max (Z.log2_up v) 12 - 12)). unfold bsz. rewrite Z2Nat.id by lia. replace (Z.max (Z.log2_up v) 12 - 12 + 12) with (Z.max (Z.log2_up v) 12) by lia.
  assert (Hup : v <= 2 ^ Z.log2_up v) by (apply Z.log2_log2_up_spec; lia). assert (Hle : Z.log2_up v <= bp_max_shift p).
  { apply Z.log2_up_le_pow2; [lia|]. pose proof (Z.pow_pos_nonneg 2 (bp_max_shift p)). lia. }
  split; [lia|]. split; [|lia]. destruct (Z.max_spec (Z.log2_up v) 12) as [[Hlt ->]|[Hge ->]].
  - apply Z.max_r. apply Z.pow_le_mono_r; lia.
  - apply Z.max_l. apply Z.pow_le_mono_r; lia.
Qed.

(** Blocks of the class in every arena, and a buffer that meets each of them. *)
Definition pool_full (p : BufferPool) (outs : list PooledBuf) (sz : Z) : Prop :=
  forall arena alen o, arena_lengths p !! arena = Some alen -> 0 <= o -> o + sz <= alen -> o mod sz = 0 ->
  exists buf, buf ∈ outs /\ pb_arena buf = Z.of_nat arena /\ pb_offset buf < o + sz /\ o < pb_offset buf + pb_len buf.

Lemma used_at_block p bl i u : Forall (fun '(a, o, l) => 0 <= a < len (arena_lengths p) /\ exists k, 0 <= k < Z.of_nat (orders p) /\ l = bsz 12 k) bl ->
  u ∈ used_at i bl <-> exists l, (i, u.2, l) ∈ bl /\ l = bsz 12 u.1 /\ 0 <= u.1.
Proof.
  intros Hf. induction bl as [|[[a o] l] bl IH]; cbn [used_at]; [split; [intros H; inversion H | intros (l & H & _); inversion H]|].
  apply Forall_cons in Hf as [[_ (k & Hk & ->)] Hf]. specialize (IH Hf). assert (Hz : trailing_zeros (bsz 12 k) - 12 = k) by (unfold bsz; rewrite trailing_zeros_pow2; lia). rewrite Hz.
  destruct (Z.eqb_spec a i) as [->|Hne].
  - rewrite elem_of_cons, IH. split.
    + intros [->|(l & Hin & Hl)]; [exists (bsz 12 k); cbn; split; [left | split; [reflexivity | lia]] | exists l; split; [right|]; assumption].
    + intros (l & Hin & -> & Hu). apply elem_of_cons in Hin as [He|Hin]; [|right; exists (bsz 12 u.1); auto]. left. injection He as H1 H2.
      unfold bsz in H2. apply Z.pow_inj_r in H2; [|lia..]. destruct u as [u1 u2]. cbn [fst snd] in *. f_equal; lia.
  - rewrite IH. split; intros (l & Hin & Hl); exists l; (split; [|exact Hl]); [right; assumption|]. apply elem_of_cons in Hin as [He|Hin]; [congruence | assumption].
Qed.

Lemma full_pool p outs k : pool_ok p (map buf_block outs) -> 0 <= k ->
  (forall m al, arena_lengths p !! m = Some al -> full 12 al (used_at (Z.of_nat m) (map buf_block outs)) k) -> pool_full p outs (bsz 12 k).
Proof.
  intros Hok Hk Hf m al o Hm H1 H2 H3. destruct (Hf m al Hm o ltac:(split; auto)) as (u & Hu & Hlt1 & Hlt2). apply (used_at_block p _ _ _ (po_block _ _ Hok)) in Hu as (l & Hin & -> & Hu).
  apply list_elem_of_fmap in Hin as (buf & He & Hbuf). unfold buf_block in He. injection He as H4 H5 H6. exists buf. split; [assumption|]. split; [congruence|]. split; [congruence|]. rewrite <- H6, <- H5. assumption.
Qed.

Lemma wrap64_step a d : wrap64 (wrap64 a + d) = wrap64 (a + d).
Proof. unfold wrap64. apply Zplus_mod_idemp_l. Qed.

Definition same_shape (p p' : BufferPool) : Prop :=
  arena_lengths p' = arena_lengths p /\ bp_min_shift p' = bp_min_shift p /\ bp_max_shift p' = bp_max_shift p /\ bp_home p' = bp_home p.

Lemma pool_alloc_ok p outs l : pool_inv p outs -> 0 <= l ->
  exists r p', pool_alloc (bp_home p) p l = Ok (r, p') /\ same_shape p p' /\
    match r with
    | Some buf => pool_inv p' (buf :: outs) /\ l <= pb_len buf /\ pb_len buf = class_size p l
    | None => pool_inv p' outs /\ (max_class p < l \/ pool_full p outs (class_size p l))
    end.
Proof.
  intros Hinv Hl. unfold pool_alloc. destruct (Z.gtb_spec l (max_class p)) as [Hgt|Hle].
  { exists None, p. split; [reflexivity|]. split; [repeat split|]. split; [assumption | left; lia]. }
  unfold is_home. rewrite Z.eqb_refl. cbn [negb]. destruct Hinv as [Hok Hin]. destruct (po_shifts _ _ Hok) as [Hm Hx].
  destruct (drain_ok p _ Hok) as (p1 & -> & Hok1 & (S1 & S2 & S3 & S4 & S5) & Hr1). cbn [rbind].
  destruct (class_size_block p l Hm (proj1 Hx) ltac:(lia)) as (k & Hk & Hcls & Hge). rewrite Hcls in *. assert (Hm1 : bp_min_shift p1 = 12) by congruence. rewrite (order_of_block p1) by (assumption || lia).
  assert (Hord : orders p1 = orders p) by (unfold orders; congruence).
  destruct (alloc_first_ok (orders p1) k (fun i => used_at i (map buf_block outs)) ltac:(lia) (bp_buddies p1) (arena_lengths p1) 0 (po_arenas _ _ Hok1)) as (r & bs & -> & Hr); [intros j alen b Ha Hb; apply (po_arena _ _ Hok1); assumption|].
  cbn [rbind]. destruct r as [[a o]|].
  - destruct Hr as (j & alen & b' & -> & Hj & Hb' & Hlen & Hrest). rewrite Z.add_0_l in *. eexists _, _. split; [reflexivity|]. split; [repeat split; assumption|]. cbn [pb_len]. split; [|split; [lia | reflexivity]].
    assert (Hz : trailing_zeros (bsz 12 (Z.of_nat k)) - 12 = Z.of_nat k) by (unfold bsz; rewrite trailing_zeros_pow2; lia). constructor.
    + constructor; cbn -[arena_lengths]; change (arena_lengths (bp_set_in_use _ _)) with (arena_lengths p1); rewrite ?Hr1; cbn [map app]; [rewrite Hm1, S3; auto | rewrite Hlen; apply (po_arenas _ _ Hok1) | |].
      * intros i al b Ha Hb. change (orders _) with (orders p1). specialize (Hrest i al b Ha Hb). unfold buf_block at 1. cbn [pb_arena pb_offset pb_len used_at]. rewrite Hz. destruct (decide (i = j)) as [->|Hne].
        -- subst b'. rewrite Z.eqb_refl. replace al with alen by congruence. assumption.
        -- destruct (Z.eqb_spec (Z.of_nat j) (Z.of_nat i)); [lia | assumption].
      * constructor; [|apply (po_block _ _ Hok1)]. cbn. apply lookup_lt_Some in Hj. unfold len. change (orders _) with (orders p1). split; [lia | exists (Z.of_nat k); split; [lia | reflexivity]].
    + cbn [bp_in_use bp_set_in_use bp_set_buddies outstanding foldr pb_len]. rewrite S5, Hin, wrap64_step. f_equal. apply Z.add_comm.
  - destruct Hr as [Hlen Hrest]. eexists _, _. split; [reflexivity|]. split; [repeat split; assumption|].
    assert (Hlk : forall m al, arena_lengths p1 !! m = Some al -> exists b, bs !! m = Some b) by (intros m al Hma; apply lookup_lt_is_Some_2; rewrite Hlen, (po_arenas _ _ Hok1); eapply lookup_lt_Some; exact Hma). split.
    + constructor; [|cbn; congruence]. constructor; cbn -[arena_lengths]; change (arena_lengths (bp_set_buddies _ _)) with (arena_lengths p1); rewrite ?Hr1; cbn [map app]; [rewrite Hm1, S3; auto | rewrite Hlen; apply (po_arenas _ _ Hok1) | | apply (po_block _ _ Hok1)].
      intros i al b Ha Hb. apply (Hrest i al b Ha Hb).
    + right. assert (Hpf : pool_full p1 outs (bsz 12 (Z.of_nat k))).
      { apply (full_pool p1); [assumption | lia|]. intros m al Hma. destruct (Hlk m al Hma) as [b Hb]. apply (Hrest m al b Hma Hb). }
      intros m al o' Hma. apply Hpf. congruence.
Qed.

Lemma pool_release_ok thread p outs buf outs' : pool_inv p outs -> Permutation outs (buf :: outs') ->
  exists p', pool_release thread p buf = Ok p' /\ same_shape p p' /\ pool_inv p' outs'.
Proof.
  intros [Hok Hin] Hp. assert (Hsum : outstanding outs = pb_len buf + outstanding outs') by (clear - Hp; change (pb_len buf + outstanding outs') with (outstanding (buf :: outs')); unfold outstanding; induction Hp; cbn [foldr]; lia).
  assert (Hin' : wrap64 (bp_in_use p - pb_len buf) = wrap64 (outstanding outs')) by (rewrite Hin, Hsum; unfold Z.sub; rewrite wrap64_step; f_equal; lia).
  unfold pool_release. change (is_home thread (bp_set_in_use _ p)) with (is_home thread p). destruct (is_home thread p).
  - set (p0 := bp_set_in_use _ p). assert (Hok0 : pool_ok p0 (buf_block buf :: map ret_block (bp_returned p) ++ map buf_block outs')).
    { apply (pool_perm p0 (map ret_block (bp_returned p) ++ map buf_block outs)); [rewrite Hp; cbn [map]; symmetry; apply Permutation_middle | destruct Hok; constructor; assumption]. }
    destruct (release_at_ok p0 _ _ _ _ Hok0) as (p' & -> & Hok' & (S1 & S2 & S3 & S4 & S5) & Hr). exists p'. split; [reflexivity|]. split; [repeat split; assumption|]. constructor; [rewrite Hr; exact Hok' | rewrite S5; exact Hin'].
  - eexists. split; [reflexivity|]. split; [repeat split|]. constructor; [|exact Hin']. cbn [bp_returned bp_set_returned map]. change (ret_block _) with (buf_block buf).
    apply (pool_perm _ (map ret_block (bp_returned p) ++ map buf_block outs)); [rewrite Hp; cbn [map app]; symmetry; apply Permutation_middle | destruct Hok; constructor; assumption].
Qed.

(** ** The new pool *)

Section Construction.
Context (mmap : Z -> Z -> Z -> bool) (madvise : Z -> bool) (capacity_of : Z -> Z).

Lemma map_arenas_ok n huge : forall i r arenas, 0 <= r <= Z.of_nat n * ARENA_MAX -> map_arenas mmap madvise n i r huge = Ok arenas ->
  Forall (fun l => 0 <= l <= ARENA_MAX /\ (2 ^ 12 | l)) (map ar_len arenas) /\ r <= foldr Z.add 0 (map ar_len arenas) <= r + ARENA_MAX.
Proof.
  induction n as [|n IH]; intros i r arenas Hr Hmap; cbn [map_arenas] in Hmap; unfold ARENA_MAX in *; [injection Hmap as <-; split; [constructor | cbn; lia]|].
  destruct (Z.gtb_spec r 0) as [Hpos|Hz]; [|injection Hmap as <-; split; [constructor | cbn; lia]]. destruct (Arena_new _ _ _ huge) as [a| |] eqn:Ha; try discriminate. cbn [rbind] in Hmap.
  destruct (map_arenas mmap madvise n (i + 1) _ huge) as [rest| |] eqn:Hrest; try discriminate. injection Hmap as <-. apply Arena_new_len in Ha as (Hlo & Hhi & Hdiv); [|lia].
  assert (Hlast : r <= 2 ^ 30 -> rest = []) by (intros Hle; rewrite Z.min_l, Z.sub_diag in Hrest by lia; destruct n; cbn in Hrest; congruence).
  apply IH in Hrest as [Hf Hsum]; [|lia]. cbn [map foldr]. split; [constructor; [split; [lia | assumption] | assumption]|].
  destruct (Z.le_gt_cases r (2 ^ 30)) as [Hle|]; [rewrite (Hlast Hle); cbn; lia | lia].
Qed.

Lemma new_buddies_ok max : 12 <= max <= 30 -> forall arenas, Forall (fun l => 0 <= l <= ARENA_MAX /\ (2 ^ 12 | l)) (map ar_len arenas) ->
  exists bs, new_buddies capacity_of arenas 12 max = Ok bs /\ length bs = length (map ar_len arenas) /\
    forall i alen b, map ar_len arenas !! i = Some alen -> bs !! i = Some b -> arena_ok 12 (Z.to_nat (max - 11)) alen b [].
Proof.
  intros Hmax. induction arenas as [|a arenas IH]; intros Hf; cbn [new_buddies]; [exists []; repeat split; discriminate|]. apply Forall_cons in Hf as [[Hl Hdiv] Hf].
  destruct (Buddy_new_ok 12 (ar_len a) ltac:(lia) Hl (Z.to_nat (max - 11)) max ltac:(lia) ltac:(lia)) with (capacity_of := capacity_of) as (b & ls & -> & Hh & Hlen); [apply Z.mod_divide; [lia | assumption]|]. cbn [rbind].
  destruct (IH Hf) as (bs & -> & Hn & Hbs). cbn [rbind]. exists (b :: bs). split; [reflexivity|]. split; [cbn; congruence|]. intros [|i] al b0 Ha Hb; cbn in Ha, Hb; [|eauto].
  injection Ha as <-. injection Hb as <-. split; [assumption | exists ls; auto].
Qed.

(** Options whose bytes, rounded up to classes and huge pages, fit 64 bits. *)
Definition options_fit (opts : PoolOptions) : Prop := 0 <= po_bytes opts /\ po_bytes opts + 4 * ARENA_MAX <= 2 ^ 64.

Lemma max_class_pow2 mc : is_power_of_two mc = true -> PAGE_SIZE <= mc -> mc <= ARENA_MAX -> exists m, mc = 2 ^ m /\ 12 <= m <= 30.
Proof.
  unfold is_power_of_two, PAGE_SIZE. intros Hp Hge Hle. apply andb_true_iff in Hp as [_ Hp]. apply Z.eqb_eq in Hp. exists (Z.log2 mc). split; [congruence|]. split; [apply Z.log2_le_pow2; lia|].
  change 30 with (Z.log2 ARENA_MAX). apply Z.log2_le_mono. assumption.
Qed.

Lemma BufferPool_new_ok thread opts p : options_fit opts -> BufferPool_new mmap madvise capacity_of thread opts = Ok p ->
  pool_inv p [] /\ bp_home p = thread /\ po_bytes opts <= pool_capacity p < 2 ^ 64 /\ max_class p = po_max_class opts.
Proof.
  unfold BufferPool_new, options_fit. intros [Hb0 Hb1] Hnew. destruct (is_power_of_two (po_max_class opts)) eqn:Hpow; [|discriminate].
  destruct (Z.leb_spec PAGE_SIZE (po_max_class opts)) as [Hge|]; [|discriminate]. destruct (Z.gtb_spec (po_max_class opts) ARENA_MAX) as [|Hle]; [discriminate|].
  destruct (max_class_pow2 _ Hpow Hge Hle) as (m & Hm & Hm1). rewrite Hm in *. clear Hge Hpow. change (trailing_zeros PAGE_SIZE) with 12 in Hnew. rewrite trailing_zeros_pow2 in Hnew by lia. cbn [andb negb] in Hnew.
  pose proof (Z.pow_pos_nonneg 2 m ltac:(lia) ltac:(lia)) as Hpos.
  destruct (align_up_bounds m (2 ^ m) ltac:(lia) eq_refl (Z.max (po_bytes opts) (2 ^ m))) as (q & Hq & Hqb); [lia | unfold ARENA_MAX in *; lia|].
  rewrite Hq in Hnew. set (total := 2 ^ m * q) in *. destruct (map_arenas mmap madvise _ 0 total _) as [arenas| |] eqn:Hmap; try discriminate. cbn [rbind] in Hnew.
  apply map_arenas_ok in Hmap as [Hf Hsum].
  2: { pose proof (Z.div_mod total ARENA_MAX ltac:(unfold ARENA_MAX; lia)). pose proof (Z.mod_pos_bound total ARENA_MAX ltac:(unfold ARENA_MAX; lia)).
       pose proof (Z.div_pos total ARENA_MAX ltac:(lia) ltac:(unfold ARENA_MAX; lia)). unfold ARENA_MAX in *. lia. }
  destruct (new_buddies_ok m Hm1 arenas Hf) as (bs & Hbs & Hlen & Har). rewrite Hbs in Hnew. cbn [rbind] in Hnew. injection Hnew as <-. split; [|split; [reflexivity|]; split].
  - constructor; [|reflexivity]. constructor; auto.
  - unfold pool_capacity. cbn [bp_arenas]. unfold ARENA_MAX in *. lia.
  - unfold max_class. cbn [bp_max_shift]. apply Z.shiftl_1_l.
Qed.
End Construction.
