(* ===== verification/PoolTheorems.v ===== *)
(** * Contracts of the buffer pool

    A pool and the buffers its callers hold, driven by any sequence of
    allocations, drops on any thread and writes into held buffers. *)

From stdpp Require Import gmap.
From S2P Require Import Prelude Align Pool PoolLinks PoolProofs PoolBuddy PoolState.

(** ** Callers

    [Take] allocates on a thread, [Drop] drops the [i]-th held buffer on a
    thread, [Fill] writes two words at byte [x] of it. *)

Inductive pool_event := Take (thread l : Z) | Drop (thread : Z) (i : nat) | Fill (i : nat) (x : Z) (words : Z * Z).

Definition pool_write (p : BufferPool) (buf : PooledBuf) (x : Z) (words : Z * Z) : steps BufferPool :=
  let? b := index_get (bp_buddies p) (pb_arena buf) in
  let? buddies := index_set (bp_buddies p) (pb_arena buf) (bd_set_links (<[pb_offset buf + x := words]> (bd_links b)) b) in
  Ok (bp_set_buddies buddies p).

Definition pool_perform (e : pool_event) (st : BufferPool * list PooledBuf) : steps (BufferPool * list PooledBuf) :=
  let '(p, outs) := st in
  match e with
  | Take thread l => let? (r, p) := pool_alloc thread p l in Ok (p, match r with Some buf => buf :: outs | None => outs end)
  | Drop thread i =>
      match outs !! i with
      | Some buf => let? p := pool_release thread p buf in Ok (p, delete i outs)
      | None => Ok (p, outs)
      end
  | Fill i x words =>
      match outs !! i with
      | Some buf => if (0 <=? x) && (x <? pb_len buf) then let? p := pool_write p buf x words in Ok (p, outs) else Ok (p, outs)
      | None => Ok (p, outs)
      end
  end.

Fixpoint pool_run (evs : list pool_event) (st : BufferPool * list PooledBuf) : steps (BufferPool * list PooledBuf) :=
  match evs with
  | [] => Ok st
  | e :: evs => let? st := pool_perform e st in pool_run evs st
  end.

(** The documented use: only the home thread allocates; buffers are dropped and
    written anywhere. Lengths are [usize] values. *)
Definition event_ok (home : Z) (e : pool_event) : Prop := match e with Take thread l => thread = home /\ 0 <= l | _ => True end.

(** ** The invariant along a run *)

Lemma used_at_buf p outs buf : pool_inv p outs -> buf ∈ outs ->
  exists k, 0 <= k < Z.of_nat (orders p) /\ pb_len buf = bsz 12 k /\ 0 <= pb_arena buf < len (arena_lengths p) /\ (k, pb_offset buf) ∈ used_at (pb_arena buf) (map ret_block (bp_returned p) ++ map buf_block outs).
Proof.
  intros [Hok _] Hin. assert (Hb : buf_block buf ∈ map ret_block (bp_returned p) ++ map buf_block outs) by (apply elem_of_app; right; apply list_elem_of_fmap_2; assumption).
  pose proof (po_block _ _ Hok) as Hf. pose proof Hf as Hf'. rewrite Forall_forall in Hf. destruct (Hf _ Hb) as [Ha (k & Hk & Hl)]. exists k. split; [assumption|]. split; [assumption|]. split; [assumption|].
  apply (used_at_block p _ _ (k, pb_offset buf) Hf'). exists (pb_len buf). split; [exact Hb | split; [exact Hl | cbn; lia]].
Qed.

Lemma arena_lookups p bl a : pool_ok p bl -> 0 <= a < len (arena_lengths p) -> exists j alen b, a = Z.of_nat j /\ arena_lengths p !! j = Some alen /\ bp_buddies p !! j = Some b /\ arena_ok 12 (orders p) alen b (used_at a bl).
Proof.
  intros Hok Ha. unfold len in Ha. destruct (Z_of_nat_complete a) as [j ->]; [lia|]. destruct (lookup_lt_is_Some_2 (arena_lengths p) j ltac:(lia)) as [alen Hal].
  destruct (lookup_lt_is_Some_2 (bp_buddies p) j) as [b Hb]; [rewrite (po_arenas _ _ Hok); lia|]. exists j, alen, b. split; [reflexivity|]. split; [assumption|]. split; [assumption|]. apply (po_arena _ _ Hok); assumption.
Qed.

Lemma pool_write_ok p outs buf x words : pool_inv p outs -> buf ∈ outs -> 0 <= x < pb_len buf ->
  exists p', pool_write p buf x words = Ok p' /\ same_shape p p' /\ pool_inv p' outs.
Proof.
  intros Hinv Hin Hx. destruct (used_at_buf p outs buf Hinv Hin) as (k & Hk & Hl & Ha & Hu). destruct Hinv as [Hok Huse]. destruct (arena_lookups p _ _ Hok Ha) as (j & alen & b & Hj & Hal & Hb & Har). rewrite Hj in *.
  unfold pool_write. rewrite Hj, (index_get_Some _ _ b) by (rewrite ?Nat2Z.id; auto; lia). cbn [rbind]. rewrite (index_set_Some _ _ b) by (rewrite ?Nat2Z.id; auto; lia). cbn [rbind]. rewrite Nat2Z.id.
  eexists. split; [reflexivity|]. split; [repeat split|]. constructor; [|exact Huse]. apply (pool_replace p _ _ j _ alen Hok Hal); [|reflexivity | apply (po_block _ _ Hok)].
  apply (arena_write 12 ltac:(lia) (orders p) alen b _ (k, pb_offset buf)); [assumption | assumption|]. cbn [fst snd]. rewrite <- Hl. lia.
Qed.

Lemma same_shape_trans p q r : same_shape p q -> same_shape q r -> same_shape p r.
Proof. intros (A1 & A2 & A3 & A4) (B1 & B2 & B3 & B4). unfold same_shape. rewrite B1, B2, B3, B4. auto. Qed.

Lemma pool_perform_ok e p outs : pool_inv p outs -> event_ok (bp_home p) e -> exists p' outs', pool_perform e (p, outs) = Ok (p', outs') /\ same_shape p p' /\ pool_inv p' outs'.
Proof.
  intros Hinv He. assert (Hsame : same_shape p p) by (repeat split). destruct e as [t l|thread i|i x words]; cbn [pool_perform].
  - destruct He as [-> He]. destruct (pool_alloc_ok p outs l Hinv He) as (r & p' & -> & Hsh & Hr). cbn [rbind]. exists p', (match r with Some buf => buf :: outs | None => outs end). split; [reflexivity|]. split; [assumption|]. destruct r; apply Hr.
  - destruct (outs !! i) as [buf|] eqn:Hi; [|exists p, outs; auto]. destruct (pool_release_ok thread p outs buf (delete i outs) Hinv (delete_Permutation _ _ _ Hi)) as (p' & -> & Hsh & Hinv'). cbn [rbind]. exists p', (delete i outs). auto.
  - destruct (outs !! i) as [buf|] eqn:Hi; [|exists p, outs; auto]. destruct ((0 <=? x) && (x <? pb_len buf)) eqn:Hx; [|exists p, outs; auto].
    destruct (pool_write_ok p outs buf x words Hinv (list_elem_of_lookup_2 _ _ _ Hi) ltac:(lia)) as (p' & -> & Hsh & Hinv'). cbn [rbind]. exists p', outs. auto.
Qed.

Lemma pool_run_ok evs : forall p outs, pool_inv p outs -> Forall (event_ok (bp_home p)) evs -> exists p' outs', pool_run evs (p, outs) = Ok (p', outs') /\ same_shape p p' /\ pool_inv p' outs'.
Proof.
  induction evs as [|e evs IH]; intros p outs Hinv Hf; cbn [pool_run]; [exists p, outs; split; [reflexivity|]; split; [repeat split | exact Hinv]|]. apply Forall_cons in Hf as [He Hf].
  destruct (pool_perform_ok e p outs Hinv He) as (p1 & outs1 & -> & Hs1 & Hinv1). cbn [rbind]. destruct (IH p1 outs1 Hinv1 ltac:(destruct Hs1 as (_ & _ & _ & ->); exact Hf)) as (p' & outs' & Hr & Hs' & Hinv'). exists p', outs'. split; [exact Hr|]. split; [eapply same_shape_trans; eassumption | assumption].
Qed.

(** ** Bytes over all arenas *)

Lemma area_indicator a v n : 0 <= a -> area (fun i => if a =? i then v else 0) n = if a <? Z.of_nat n then v else 0.
Proof.
  intros Ha. induction n as [|n IH]; cbn [area]; [destruct (Z.ltb_spec a (Z.of_nat 0)); lia|]. rewrite IH. destruct (Z.ltb_spec a (Z.of_nat n)), (Z.ltb_spec a (Z.of_nat (S n))), (Z.eqb_spec a (Z.of_nat n)); lia.
Qed.

Definition block_bytes (bl : list block) : Z := foldr (fun c n => c.2 + n) 0 bl.

Lemma block_bytes_arenas p bl n : n = length (arena_lengths p) -> Forall (fun '(a, o, l) => 0 <= a < len (arena_lengths p) /\ exists k, 0 <= k < Z.of_nat (orders p) /\ l = bsz 12 k) bl ->
  area (fun i => used_bytes 12 (used_at i bl)) n = block_bytes bl.
Proof.
  intros ->. induction bl as [|[[a o] l] bl IH]; intros Hf; [cbn; induction (length (arena_lengths p)); cbn [area]; lia|]. apply Forall_cons in Hf as [[Ha (k & Hk & ->)] Hf]. change (block_bytes ((a, o, bsz 12 k) :: bl)) with (bsz 12 k + block_bytes bl). rewrite <- (IH Hf).
  transitivity (area (fun i => (if a =? i then bsz 12 k else 0) + used_bytes 12 (used_at i bl)) (length (arena_lengths p))).
  - assert (Heq : forall f g n, (forall x, f x = g x) -> area f n = area g n) by (intros f g n Hfg; induction n; cbn [area]; [reflexivity | rewrite IHn, Hfg; reflexivity]). apply Heq. intros i. cbn [used_at].
    destruct (a =? i); [|reflexivity]. cbn [used_bytes foldr fst]. change (bsz 12 k) with (2 ^ (k + 12)). rewrite trailing_zeros_pow2 by lia. replace (k + 12 - 12) with k by lia. reflexivity.
  - rewrite area_add, area_indicator by lia. unfold len in Ha. destruct (Z.ltb_spec a (Z.of_nat (length (arena_lengths p)))); lia.
Qed.

Lemma area_below f lens : (forall i al, lens !! i = Some al -> f (Z.of_nat i) <= al) -> area f (length lens) <= foldr Z.add 0 lens.
Proof.
  induction lens as [|al lens IH] using rev_ind; intros Hle; [cbn; lia|]. rewrite length_app, Nat.add_comm. cbn [length Nat.add area].
  assert (Hsum : forall l v, foldr Z.add v l = foldr Z.add 0 l + v) by (induction l as [|y l IHl]; intros v; cbn [foldr]; [lia | rewrite IHl; lia]). rewrite foldr_app. cbn [foldr]. rewrite Hsum.
  pose proof (Hle (length lens) al (list_lookup_middle lens [] al _ eq_refl)). enough (area f (length lens) <= foldr Z.add 0 lens) by lia. apply IH. intros i a Hi. apply Hle. apply lookup_app_l_Some. assumption.
Qed.

Lemma outstanding_within p outs : pool_inv p outs -> 0 <= outstanding outs <= pool_capacity p.
Proof.
  intros [Hok _]. set (bl := map ret_block (bp_returned p) ++ map buf_block outs) in *. assert (Hle : block_bytes bl <= pool_capacity p).
  { rewrite <- (block_bytes_arenas p bl (length (arena_lengths p)) eq_refl (po_block _ _ Hok)). apply area_below. intros i al Hi.
    destruct (lookup_lt_is_Some_2 (bp_buddies p) i) as [b Hb]; [rewrite (po_arenas _ _ Hok); eapply lookup_lt_Some; exact Hi|]. apply (used_bytes_le 12 ltac:(lia) (orders p) al b). apply (po_arena _ _ Hok); assumption. }
  pose proof (po_block _ _ Hok) as Hf. fold bl in Hf. assert (Hnn : forall c, c ∈ bl -> 0 <= c.2).
  { intros [[a o] l] Hc. rewrite Forall_forall in Hf. destruct (Hf _ Hc) as [_ (k & Hk & ->)]. cbn. apply Z.pow_nonneg. lia. }
  assert (Happ : forall l1 l2, block_bytes (l1 ++ l2) = block_bytes l1 + block_bytes l2) by (induction l1; intros; cbn in *; [reflexivity | unfold block_bytes in *; rewrite IHl1; lia]).
  assert (Hpos : forall l, (forall c, c ∈ l -> 0 <= c.2) -> 0 <= block_bytes l).
  { induction l as [|c l IH]; intros Hl; cbn [block_bytes foldr]; [lia|]. pose proof (Hl c ltac:(left)). unfold block_bytes in IH. specialize (IH ltac:(intros; apply Hl; right; assumption)). lia. }
  assert (Hout : outstanding outs = block_bytes (map buf_block outs)) by (clear; induction outs as [|b outs IH]; cbn in *; [reflexivity | unfold outstanding, block_bytes in *; rewrite IH; reflexivity]).
  unfold bl in Hle. rewrite Happ in Hle. rewrite Hout. split; [apply Hpos; intros; apply Hnn, elem_of_app; auto|].
  pose proof (Hpos (map ret_block (bp_returned p)) ltac:(intros; apply Hnn, elem_of_app; auto)). lia.
Qed.

(** ** Held buffers *)

Lemma buf_placed p outs buf : pool_inv p outs -> buf ∈ outs -> exists alen, 0 <= pb_arena buf /\ arena_lengths p !! Z.to_nat (pb_arena buf) = Some alen /\ alen <= ARENA_MAX /\
  0 <= pb_offset buf /\ pb_offset buf + pb_len buf <= alen /\ pb_offset buf mod pb_len buf = 0 /\ PAGE_SIZE <= pb_len buf <= max_class p /\ (PAGE_SIZE | pb_len buf).
Proof.
  intros Hinv Hin. destruct (used_at_buf p outs buf Hinv Hin) as (k & Hk & Hl & Ha & Hu). destruct Hinv as [Hok _]. destruct (arena_lookups p _ _ Hok Ha) as (j & alen & b & Hj & Hal & _ & Har).
  exists alen. split; [lia|]. split; [rewrite Hj, Nat2Z.id; assumption|]. split; [apply Har|]. destruct (arena_used 12 _ alen b _ _ Har Hu) as [_ (P1 & P2 & P3)]. cbn [fst snd] in *. rewrite Hl in *. split; [assumption|]. split; [assumption|]. split; [assumption|].
  destruct (po_shifts _ _ Hok) as [_ Hx]. unfold bsz, max_class, orders, PAGE_SIZE in *. rewrite Z.shiftl_1_l. change 4096 with (2 ^ 12). split; [split; apply Z.pow_le_mono_r; lia|]. apply pow2_le_divide; [lia | lia | apply Z.pow_le_mono_r; lia].
Qed.

Lemma bufs_apart p outs buf rest c : pool_inv p outs -> Permutation outs (buf :: rest) -> c ∈ rest -> pb_arena c = pb_arena buf ->
  pb_offset buf + pb_len buf <= pb_offset c \/ pb_offset c + pb_len c <= pb_offset buf.
Proof.
  intros Hinv Hp Hc Harena. assert (Hinv' : pool_inv p (buf :: rest)).
  { destruct Hinv as [Hok Hin]. constructor; [eapply pool_perm; [|exact Hok]; rewrite Hp; reflexivity|]. rewrite Hin. f_equal. clear - Hp. unfold outstanding. induction Hp; cbn [foldr]; lia. }
  destruct (used_at_buf p _ buf Hinv' ltac:(left)) as (k & Hk & Hl & Ha & _). destruct (used_at_buf p _ c Hinv' ltac:(right; assumption)) as (kc & Hkc & Hlc & _ & Huc). destruct Hinv' as [Hok _].
  pose proof (pool_perm p _ (buf_block buf :: map ret_block (bp_returned p) ++ map buf_block rest) ltac:(cbn [map]; symmetry; apply Permutation_middle) Hok) as Hok'.
  destruct (arena_lookups p _ _ Hok' Ha) as (j & alen & b & _ & _ & _ & Har). unfold buf_block at 1 in Har. cbn [used_at] in Har. rewrite Z.eqb_refl, Hl in Har. change (bsz 12 k) with (2 ^ (k + 12)) in Har at 1. rewrite trailing_zeros_pow2 in Har by lia.
  replace (k + 12 - 12) with k in Har by lia. rewrite Hl, Hlc. apply (arena_apart 12 ltac:(lia) _ alen b (k, pb_offset buf) _ (kc, pb_offset c) Har).
  pose proof (po_block _ _ Hok') as Hf. apply Forall_cons in Hf as [_ Hf]. apply (used_at_block p _ _ (kc, pb_offset c) Hf). exists (pb_len c). split; [apply elem_of_app; right; rewrite <- Harena; exact (list_elem_of_fmap_2 buf_block _ _ Hc) | split; [exact Hlc | cbn; lia]].
Qed.

Lemma class_size_tight p l : bp_min_shift p = 12 -> class_size p l = PAGE_SIZE \/ class_size p l < 2 * l.
Proof.
  intros Hm. unfold class_size, next_power_of_two, PAGE_SIZE. rewrite Hm. change (Z.shiftl 1 12) with 4096. set (v := Z.max l 1). destruct (Z.max_spec (2 ^ Z.log2_up v) 4096) as [[_ ->]|[Hge ->]]; [auto|]. right.
  destruct (Z.le_gt_cases v 1) as [Hv|Hv]; [replace v with 1 in * by lia; change (2 ^ Z.log2_up 1) with 1 in Hge; lia|]. pose proof (Z.log2_up_spec v Hv) as [Hlt _]. pose proof (Z.log2_up_pos v Hv).
  replace (Z.log2_up v) with (Z.succ (Z.pred (Z.log2_up v))) by lia. rewrite Z.pow_succ_r by lia. lia.
Qed.

(** ** Properties *)

(** C7: whatever the home thread allocates and any thread drops or writes into held buffers, no call
    of the pool panics, every held buffer is a class-aligned range of its arena, and no two held buffers
    share a byte; an allocation by any other thread is the documented panic, unless it asks for more than
    the largest class, which is refused on every thread. *)
Theorem pool_buffers_disjoint mmap madvise capacity_of thread opts p evs :
  options_fit opts -> BufferPool_new mmap madvise capacity_of thread opts = Ok p -> Forall (event_ok thread) evs ->
  exists p' outs, pool_run evs (p, []) = Ok (p', outs) /\
    (forall buf, buf ∈ outs -> exists alen, 0 <= pb_arena buf /\ arena_lengths p !! Z.to_nat (pb_arena buf) = Some alen /\ 0 <= pb_offset buf /\
       pb_offset buf + pb_len buf <= alen /\ pb_offset buf mod pb_len buf = 0 /\ PAGE_SIZE <= pb_len buf <= po_max_class opts /\ pb_len buf mod PAGE_SIZE = 0) /\
    (forall i j bi bj, outs !! i = Some bi -> outs !! j = Some bj -> i <> j -> pb_arena bi = pb_arena bj ->
       pb_offset bi + pb_len bi <= pb_offset bj \/ pb_offset bj + pb_len bj <= pb_offset bi) /\
    (forall other l, other <> thread -> pool_alloc other p' l = if l >? po_max_class opts then Ok (None, p') else Panic).
Proof.
  intros Hfit Hnew Hev. destruct (BufferPool_new_ok _ _ _ _ _ _ Hfit Hnew) as (Hinv0 & Hhome & _ & Hmax). rewrite <- Hhome in Hev. destruct (pool_run_ok evs p [] Hinv0 Hev) as (p' & outs & Hrun & (S1 & S2 & S3 & S4) & Hinv). exists p', outs. split; [exact Hrun|]. split; [|split].
  - intros buf Hin. destruct (buf_placed p' outs buf Hinv Hin) as (alen & B1 & B2 & _ & B3 & B4 & B5 & B6 & B7). exists alen. rewrite <- S1, <- Hmax. replace (max_class p) with (max_class p') by (unfold max_class; congruence).
    repeat split; try assumption; try apply B6. apply Z.mod_divide; [discriminate | assumption].
  - intros i j bi bj Hi Hj Hne Ha. apply (bufs_apart p' outs bi (delete i outs) bj Hinv (delete_Permutation _ _ _ Hi)); [|congruence].
    apply list_elem_of_lookup. destruct (decide (j < i)%nat); [exists j; rewrite list_lookup_delete_lt by lia; assumption | exists (j - 1)%nat; rewrite list_lookup_delete_ge by lia; replace (S (j - 1)) with j by lia; assumption].
  - intros other l Hne. unfold pool_alloc, is_home. rewrite S4, Hhome, (proj2 (Z.eqb_neq other thread) Hne).
    replace (max_class p') with (po_max_class opts) by (rewrite <- Hmax; unfold max_class; congruence). reflexivity.
Qed.

(** C33: after any run an allocation on the home thread returns; it hands out a buffer of the smallest
    class that holds the request, and refuses exactly when the request exceeds the largest class or every
    aligned block of the class in every arena meets a held buffer. *)
Theorem pool_alloc_complete mmap madvise capacity_of thread opts p evs p' outs l :
  options_fit opts -> BufferPool_new mmap madvise capacity_of thread opts = Ok p -> Forall (event_ok thread) evs -> pool_run evs (p, []) = Ok (p', outs) -> 0 <= l ->
  exists r p'', pool_alloc thread p' l = Ok (r, p'') /\
    (r = None <-> po_max_class opts < l \/ pool_full p' outs (class_size p' l)) /\
    (forall buf, r = Some buf -> l <= pb_len buf /\ pb_len buf = class_size p' l /\ (pb_len buf = PAGE_SIZE \/ pb_len buf < 2 * l)).
Proof.
  intros Hfit Hnew Hev Hrun Hl. destruct (BufferPool_new_ok _ _ _ _ _ _ Hfit Hnew) as (Hinv0 & Hhome & _ & Hmax). rewrite <- Hhome in Hev. destruct (pool_run_ok evs p [] Hinv0 Hev) as (p1 & outs1 & Hrun1 & (S1 & S2 & S3 & S4) & Hinv).
  rewrite Hrun in Hrun1. injection Hrun1 as <- <-. destruct (pool_alloc_ok p' outs l Hinv Hl) as (r & p'' & Ha & (T1 & T2 & T3 & T4) & Hr). rewrite S4, Hhome in Ha. exists r, p''. split; [exact Ha|].
  assert (Hmax' : max_class p' = po_max_class opts) by (rewrite <- Hmax; unfold max_class; congruence). rewrite <- Hmax'.
  pose proof (class_size_tight p' l (proj1 (po_shifts _ _ (pi_ok _ _ Hinv)))) as Htight. destruct r as [buf|].
  - destruct Hr as (Hinv' & Hge & Hcls). split; [|intros ? [= <-]; rewrite <- Hcls in Htight; auto]. split; [discriminate|]. intros [Hgt|Hfull].
    + unfold pool_alloc in Ha. rewrite (proj2 (Z.gtb_lt l (max_class p'))) in Ha by lia. discriminate.
    + exfalso. destruct (buf_placed p'' _ buf Hinv' ltac:(left)) as (alen & B1 & B2 & _ & B3 & B4 & B5 & _). rewrite <- Hcls, T1 in *. destruct (Hfull (Z.to_nat (pb_arena buf)) alen (pb_offset buf) B2 B3 B4 B5) as (c & Hc & C1 & C2 & C3).
      pose proof (bufs_apart p'' (buf :: outs) buf outs c Hinv' ltac:(reflexivity) Hc ltac:(lia)). lia.
  - destruct Hr as [_ Hr]. split; [split; [intros _; exact Hr | reflexivity] | discriminate].
Qed.

(** The bytes in use are at every moment the class sizes of exactly the held buffers, also while
    blocks dropped elsewhere wait on the return stack; they never exceed the capacity, which covers
    the requested bytes. *)
Theorem pool_bytes_exact mmap madvise capacity_of thread opts p evs p' outs :
  options_fit opts -> BufferPool_new mmap madvise capacity_of thread opts = Ok p -> Forall (event_ok thread) evs -> pool_run evs (p, []) = Ok (p', outs) ->
  bp_in_use p' = outstanding outs /\ bp_in_use p' <= pool_capacity p' /\ po_bytes opts <= pool_capacity p'.
Proof.
  intros Hfit Hnew Hev Hrun. destruct (BufferPool_new_ok _ _ _ _ _ _ Hfit Hnew) as (Hinv0 & Hhome & Hcap & _). rewrite <- Hhome in Hev. destruct (pool_run_ok evs p [] Hinv0 Hev) as (p1 & outs1 & Hrun1 & (S1 & _) & Hinv).
  rewrite Hrun in Hrun1. injection Hrun1 as <- <-. pose proof (outstanding_within p' outs Hinv) as Hw. assert (Hc : pool_capacity p' = pool_capacity p) by (change (foldr Z.add 0 (arena_lengths p') = foldr Z.add 0 (arena_lengths p)); congruence).
  rewrite (pi_in_use _ _ Hinv), wrap64_small by (unfold is_u64; lia). lia.
Qed.

(** ** Examples *)

(** Three blocks of 8 KiB, owned by thread 1. *)
Definition small_options : PoolOptions := {| po_bytes := 20000; po_max_class := 8192; po_huge_pages := HugeDisabled |}.

(** Buffers of both classes, one scribbled over, one dropped at home and one away, and the freed pages taken again. *)
Definition small_run : list pool_event :=
  [Take 1 1; Take 1 5000; Take 1 4096; Fill 2 0 (7, 9); Drop 2 1; Drop 1 1; Take 1 8192; Take 1 0; Drop 9 2].

Lemma small_options_fit : options_fit small_options.
Proof. unfold options_fit, ARENA_MAX. cbn. lia. Qed.

Lemma small_run_ok : Forall (event_ok 1) small_run.
Proof. repeat constructor; cbn; lia. Qed.

Lemma pool_buffers_disjoint_witness : exists p p' outs, BufferPool_new (fun _ _ _ => true) (fun _ => true) (fun n => n) 1 small_options = Ok p /\ pool_run small_run (p, []) = Ok (p', outs) /\ length outs = 2%nat /\
  (forall i j bi bj, outs !! i = Some bi -> outs !! j = Some bj -> i <> j -> pb_arena bi = pb_arena bj -> pb_offset bi + pb_len bi <= pb_offset bj \/ pb_offset bj + pb_len bj <= pb_offset bi) /\
  pool_alloc 2 p' 1 = Panic.
Proof.
  eexists. set (p := _ : BufferPool). assert (Hnew : BufferPool_new (fun _ _ _ => true) (fun _ => true) (fun n => n) 1 small_options = Ok p) by (subst p; vm_compute; reflexivity).
  destruct (pool_buffers_disjoint _ _ _ _ _ p small_run small_options_fit Hnew small_run_ok) as (p' & outs & Hrun & _ & Hapart & Hother). exists p', outs. split; [exact Hnew|]. split; [exact Hrun|]. split; [|split; [exact Hapart | exact (Hother 2 1 ltac:(discriminate))]]. clear Hapart Hother.
  subst p. vm_compute in Hrun. injection Hrun as _ <-. reflexivity.
Defined.

Lemma pool_alloc_complete_witness : exists p p' outs p'', BufferPool_new (fun _ _ _ => true) (fun _ => true) (fun n => n) 1 small_options = Ok p /\ pool_run [Take 1 8192; Take 1 8192; Take 1 4097] (p, []) = Ok (p', outs) /\
  pool_alloc 1 p' 1 = Ok (None, p'') /\ pool_full p' outs (class_size p' 1).
Proof.
  eexists. set (p := _ : BufferPool). assert (Hnew : BufferPool_new (fun _ _ _ => true) (fun _ => true) (fun n => n) 1 small_options = Ok p) by (subst p; vm_compute; reflexivity).
  destruct (pool_run_ok [Take 1 8192; Take 1 8192; Take 1 4097] p [] (proj1 (BufferPool_new_ok _ _ _ _ _ _ small_options_fit Hnew)) ltac:(repeat constructor; cbn; lia)) as (p' & outs & Hrun & _).
  destruct (pool_alloc_complete _ _ _ _ _ p [Take 1 8192; Take 1 8192; Take 1 4097] p' outs 1 small_options_fit Hnew ltac:(repeat constructor; cbn; lia) Hrun ltac:(lia)) as (r & p'' & Ha & Hiff & _).
  exists p', outs, p''. split; [exact Hnew|]. split; [exact Hrun|]. assert (Hr : r = None) by (clear Hiff Hnew; subst p; vm_compute in Hrun; injection Hrun as <- <-; vm_compute in Ha; congruence). subst r. split; [exact Ha|].
  destruct (proj1 Hiff eq_refl) as [Hgt|Hfull]; [cbn in Hgt; lia | exact Hfull].
Defined.

Lemma pool_bytes_exact_witness : exists p p' outs, BufferPool_new (fun _ _ _ => true) (fun _ => true) (fun n => n) 1 small_options = Ok p /\ pool_run small_run (p, []) = Ok (p', outs) /\
  bp_returned p' <> [] /\ bp_in_use p' = 12288 /\ bp_in_use p' = outstanding outs.
Proof.
  eexists. set (p := _ : BufferPool). assert (Hnew : BufferPool_new (fun _ _ _ => true) (fun _ => true) (fun n => n) 1 small_options = Ok p) by (subst p; vm_compute; reflexivity).
  destruct (pool_run_ok small_run p [] (proj1 (BufferPool_new_ok _ _ _ _ _ _ small_options_fit Hnew)) small_run_ok) as (p' & outs & Hrun & _).
  destruct (pool_bytes_exact _ _ _ _ _ p small_run p' outs small_options_fit Hnew small_run_ok Hrun) as (Huse & _). exists p', outs. split; [exact Hnew|]. split; [exact Hrun|].
  enough (bp_returned p' <> [] /\ bp_in_use p' = 12288) by tauto. clear Huse Hnew. subst p. vm_compute in Hrun. injection Hrun as <- <-. split; [discriminate | reflexivity].
Defined.
