(* ===== verification/FrameFormat.v ===== *)
(** * Frame header and record descriptors (moat-engine/src/frame)

    The limits and position a frame is decoded against, the 64-byte frame
    header and the 64-byte directory entry, with their encoders and decoders
    (error.rs, header.rs, record.rs). *)

From S2P Require Import Prelude Align Checksum ChunkId Codec.

Module frame.
Inductive Error :=
| InvalidArgument (what : string)
| ValueTooLarge (value_len max : Z)
| FrameFull (required limit : Z)
| SegmentFull (required available : Z)
| BufferTooSmall (required available : Z)
| Truncated (required available : Z)
| UnsupportedVersion (version : Z)
| Corrupt (what : string)
| PayloadChecksum (record block : Z).
End frame.

Definition frame_result (A : Type) : Type := res frame.Error A.

Definition HEADER_LEN : Z := 64.
Definition DESCRIPTOR_LEN : Z := 64.
Definition FRAME_FORMAT_VERSION : Z := 1.
Definition FRAME_MAGIC : list byte := Eval vm_compute in String.list_byte_of_string "MOATFRM1".
Definition VALUE_ALIGN : Z := 8.

(** ** Limits and positions *)

Record FrameLimits := { max_frame_len : Z; max_value_len : Z }.

Definition FrameLimits_new (max_frame_len max_value_len : Z) : frame_result FrameLimits :=
  fail_if ((max_frame_len =? 0) || negb (is_aligned max_frame_len PAGE_SIZE))
    (frame.InvalidArgument "frame limit must be a nonzero page multiple") ;?
  fail_if (max_value_len >? max_frame_len) (frame.InvalidArgument "value limit exceeds frame limit") ;?
  Ok {| max_frame_len := max_frame_len; max_value_len := max_value_len |}.

Record FramePosition := { segment_seq : Z; offset : Z; available : Z }.

Definition FramePosition_new (segment_seq offset segment_len : Z) : frame_result FramePosition :=
  fail_if (negb (is_aligned segment_len PAGE_SIZE) || negb (is_aligned offset PAGE_SIZE)
           || (offset <? PAGE_SIZE) || (offset >=? segment_len))
    (frame.InvalidArgument "invalid segment length or frame offset") ;?
  Ok {| segment_seq := segment_seq; offset := offset; available := segment_len - offset |}.

Definition check_len (p : FramePosition) (l : Z) : frame_result unit :=
  fail_if (l >? available p) (frame.SegmentFull l (available p)).

(** ** The frame header *)

Record FrameHeader := {
  position : FramePosition;
  frame_len : Z;
  record_count : Z;
  checksum_len : Z;
  metadata_crc : Z
}.

Definition metadata_len (h : FrameHeader) : Z :=
  HEADER_LEN + record_count h * DESCRIPTOR_LEN + checksum_len h.

Section WithCrc.
Context {C : CrcFast}.

Definition FrameHeader_decode (bytes : list byte) (limits : FrameLimits) (p : FramePosition)
  : frame_result FrameHeader :=
  let? bytes := ok_or (get_to bytes HEADER_LEN) (frame.Truncated HEADER_LEN (len bytes)) in
  let? magic := slice bytes 0 8 in
  fail_if (negb (bytes_eqb magic FRAME_MAGIC)) (frame.Corrupt "frame magic") ;?
  let? stored := u32_at bytes 12 in
  let? crc := crc_with_zeroed_checksum bytes in
  fail_if (negb (stored =? crc)) (frame.Corrupt "header checksum") ;?
  let? version := u32_at bytes 8 in
  fail_if (negb (version =? FRAME_FORMAT_VERSION)) (frame.UnsupportedVersion version) ;?
  let? reserved := slice bytes 48 (len bytes) in
  fail_if (any_nonzero reserved) (frame.Corrupt "reserved header bytes") ;?
  let? seq := u64_at bytes 16 in
  let? off := u32_at bytes 24 in
  fail_if (negb (seq =? segment_seq p) || negb (off =? offset p))
    (frame.Corrupt "frame position or segment incarnation") ;?
  let? frame_len := u32_at bytes 28 in
  let? record_count := u32_at bytes 32 in
  let? directory_len := u32_at bytes 36 in
  let? checksum_len := u32_at bytes 40 in
  fail_if ((frame_len =? 0) || negb (is_aligned frame_len PAGE_SIZE)
           || (frame_len >? max_frame_len limits) || (frame_len >? available p))
    (frame.Corrupt "frame length") ;?
  fail_if ((record_count =? 0) || negb (record_count * DESCRIPTOR_LEN =? directory_len))
    (frame.Corrupt "directory length or record count") ;?
  let metadata_len := HEADER_LEN + directory_len + checksum_len in
  fail_if (negb (checksum_len mod 4 =? 0) || (metadata_len >? frame_len)) (frame.Corrupt "metadata length") ;?
  let? metadata_crc := u32_at bytes 44 in
  Ok {| position := p; frame_len := frame_len; record_count := record_count;
        checksum_len := checksum_len; metadata_crc := metadata_crc |}.

Definition FrameHeader_encode (h : FrameHeader) (bytes : list byte) : frame_result (list byte) :=
  let? bytes := fill0 bytes 0 HEADER_LEN in
  let? bytes := copy_at bytes 0 FRAME_MAGIC in
  let? bytes := put_u32 bytes 8 FRAME_FORMAT_VERSION in
  let? bytes := put_u64 bytes 16 (segment_seq (position h)) in
  let? bytes := put_u32 bytes 24 (offset (position h)) in
  let? bytes := put_u32 bytes 28 (frame_len h) in
  let? bytes := put_u32 bytes 32 (record_count h) in
  let? bytes := put_u32 bytes 36 (wrap32 (record_count h * DESCRIPTOR_LEN)) in
  let? bytes := put_u32 bytes 40 (checksum_len h) in
  let? bytes := put_u32 bytes 44 (metadata_crc h) in
  let? header := slice bytes 0 HEADER_LEN in
  let? crc := crc_with_zeroed_checksum header in
  put_u32 bytes 12 crc.

End WithCrc.

(** ** Record descriptors *)

Inductive RecordKind := Data | Tombstone.

#[export] Instance RecordKind_eq_dec : EqDecision RecordKind.
Proof. solve_decision. Defined.

(** [self.kind as u8]. *)
Definition kind_byte (k : RecordKind) : Z := match k with Data => 1 | Tombstone => 2 end.
Definition is_tombstone (k : RecordKind) : bool := match k with Data => false | Tombstone => true end.

Record RecordDescriptor := {
  key : ChunkId;
  lsn : Z;
  value_offset : Z;
  value_len : Z;
  checksum_offset : Z;
  checksum_count : Z;
  kind : RecordKind
}.

Definition RecordDescriptor_decode (bytes : list byte) : frame_result RecordDescriptor :=
  let? k := expect (bytes !! 40%nat) in
  let? kind := (if byte.unsigned k =? 1 then Ok Data
                else if byte.unsigned k =? 2 then Ok Tombstone
                else Err (frame.Corrupt "record kind")) in
  let? rest := slice bytes 41 DESCRIPTOR_LEN in
  fail_if (any_nonzero rest) (frame.Corrupt "unsupported record flags or reserved bytes") ;?
  let? key := slice bytes 0 16 in
  let? lsn := u64_at bytes 16 in
  let? value_offset := u32_at bytes 24 in
  let? value_len := u32_at bytes 28 in
  let? checksum_offset := u32_at bytes 32 in
  let? checksum_count := u32_at bytes 36 in
  Ok {| key := key; lsn := lsn; value_offset := value_offset; value_len := value_len;
        checksum_offset := checksum_offset; checksum_count := checksum_count; kind := kind |}.

Definition RecordDescriptor_encode (d : RecordDescriptor) (bytes : list byte) : frame_result (list byte) :=
  let? bytes := fill0 bytes 0 DESCRIPTOR_LEN in
  let? bytes := copy_at bytes 0 (key d) in
  let? bytes := put_u64 bytes 16 (lsn d) in
  let? bytes := put_u32 bytes 24 (value_offset d) in
  let? bytes := put_u32 bytes 28 (value_len d) in
  let? bytes := put_u32 bytes 32 (checksum_offset d) in
  let? bytes := put_u32 bytes 36 (checksum_count d) in
  copy_at bytes 40 [byte.of_Z (kind_byte (kind d))].

(** ** Properties *)

Lemma len_FRAME_MAGIC : len FRAME_MAGIC = 8.
Proof. reflexivity. Qed.
#[export] Hint Rewrite len_FRAME_MAGIC : moat_len.

Definition limits_ok (l : FrameLimits) : Prop :=
  0 < max_frame_len l < 2 ^ 32 /\ max_frame_len l mod 4096 = 0 /\ 0 <= max_value_len l <= max_frame_len l.

Definition position_ok (p : FramePosition) : Prop :=
  is_u64 (segment_seq p) /\ 4096 <= offset p < 2 ^ 32 /\ offset p mod 4096 = 0 /\
  0 < available p /\ offset p + available p < 2 ^ 32 /\ available p mod 4096 = 0.

(** A header the decoder accepts at its own position. *)
Definition header_ok (limits : FrameLimits) (h : FrameHeader) : Prop :=
  is_u32 (frame_len h) /\ 0 < frame_len h /\ frame_len h mod 4096 = 0 /\
  frame_len h <= max_frame_len limits /\ frame_len h <= available (position h) /\
  0 < record_count h /\ 0 <= checksum_len h /\ checksum_len h mod 4 = 0 /\
  metadata_len h <= frame_len h /\ is_u32 (metadata_crc h).

Definition descriptor_ok (d : RecordDescriptor) : Prop :=
  chunk_id_ok (key d) /\ is_u64 (lsn d) /\ is_u32 (value_offset d) /\ is_u32 (value_len d) /\
  is_u32 (checksum_offset d) /\ is_u32 (checksum_count d).

Lemma FrameLimits_new_Ok a b l : is_u32 a -> is_u32 b -> FrameLimits_new a b = Ok l ->
  limits_ok l /\ max_frame_len l = a /\ max_value_len l = b.
Proof.
  unfold FrameLimits_new, limits_ok, is_u32. rewrite is_aligned_page. intros. inv_ok. subst. boolp. simpl. lia.
Qed.

Lemma FramePosition_new_Ok s o l p : is_u64 s -> is_u32 o -> is_u32 l -> FramePosition_new s o l = Ok p ->
  position_ok p /\ segment_seq p = s /\ offset p = o /\ available p = l - o.
Proof.
  unfold FramePosition_new, position_ok, is_u32. rewrite !is_aligned_page. unfold PAGE_SIZE.
  intros Hs Ho Hl H. inv_ok. subst. boolp. simpl. split; [|auto].
  split; [assumption|]. clear Hs. repeat split; dlia.
Qed.

Section WithCrc.
Context {C : CrcFast}.

(** Untrusted bytes never make the header decoder panic. *)
Lemma FrameHeader_decode_safe bytes limits p : safe (FrameHeader_decode bytes limits p).
Proof.
  unfold FrameHeader_decode. apply safe_rbind; [apply safe_ok_or|]. intros b Hb.
  apply ok_or_Ok, get_to_Some in Hb as [Hl ->]. unfold HEADER_LEN in *.
  assert (H64 : len (sub bytes 0 64) = 64) by (rewrite len_sub; lia).
  safe_steps; try (apply safe_slice || apply safe_u32_at || apply safe_u64_at || apply safe_crc); rewrite ?H64; lia.
Qed.

Lemma FrameHeader_decode_Ok bytes limits p h :
  FrameHeader_decode bytes limits p = Ok h -> header_ok limits h /\ position h = p /\ 64 <= len bytes.
Proof.
  unfold FrameHeader_decode. intros. inv_ok. apply get_to_Some in Hr as [Hl ->]. subst h.
  rewrite is_aligned_page in *. unfold header_ok, metadata_len, HEADER_LEN, DESCRIPTOR_LEN in *. simpl.
  repeat match goal with H : u32_at _ _ = Ok _ |- _ => apply u32_at_range in H end.
  boolp. unfold is_u32 in *. split; [|auto]. repeat split; lia.
Qed.

(** Decoding reads only the first 64 bytes. *)
Lemma FrameHeader_decode_ext bytes bytes' limits p :
  64 <= len bytes -> 64 <= len bytes' -> sub bytes 0 64 = sub bytes' 0 64 ->
  FrameHeader_decode bytes limits p = FrameHeader_decode bytes' limits p.
Proof.
  intros H1 H2 He. unfold FrameHeader_decode, HEADER_LEN. rewrite !get_to_Ok, He by assumption. reflexivity.
Qed.

(** The encoder writes a header that decodes to the same fields, and nothing
    beyond its 64 bytes. *)
Lemma FrameHeader_encode_spec h limits bytes :
  position_ok (position h) -> header_ok limits h -> 64 <= len bytes ->
  exists bytes', FrameHeader_encode h bytes = Ok bytes' /\ len bytes' = len bytes /\
    (forall a b, 64 <= a -> sub bytes' a b = sub bytes a b) /\
    FrameHeader_decode bytes' limits (position h) = Ok h.
Proof.
  intros Hp Hh Hl. destruct Hp as (Hseq & Hoff & Hom & Hav & Havr & Ham).
  destruct Hh as (Hf32 & Hf0 & Hfm & Hfl & Hfa & Hrc & Hc0 & Hcm & Hml & Hcrc).
  unfold metadata_len, HEADER_LEN, DESCRIPTOR_LEN in Hml. unfold is_u32 in *.
  unfold FrameHeader_encode, put_u32, put_u64, HEADER_LEN, DESCRIPTOR_LEN, FRAME_FORMAT_VERSION.
  rewrite (wrap32_small (record_count h * 64)) by (unfold is_u32; lia).
  run_writes. rewrite slice_Ok by lia. cbn [rbind].
  destruct (crc_zeroed_Ok (E := frame.Error) (sub b8 0 64) ltac:(len_lia)) as (crc & Hcrcv & Hcrcr).
  rewrite Hcrcv. cbn [rbind]. run_writes.
  exists b9. split; [reflexivity|]. split; [lia|]. split; [intros x y Hx; read_writes; reflexivity|].
  unfold FrameHeader_decode, HEADER_LEN, DESCRIPTOR_LEN, FRAME_FORMAT_VERSION. rewrite get_to_Ok by lia. cbn [ok_or rbind].
  assert (Hlh : len (sub b9 0 64) = 64) by len_lia.
  rewrite slice_Ok by lia. cbn [rbind].
  pass_guard; [|rewrite sub_sub by lia; read_writes; reflexivity].
  read_u32 crc.
  rewrite (crc_zeroed_ext (sub b9 0 64) (sub b8 0 64)).
  2-5: rewrite ?Hlh; try len_lia; rewrite ?(len_sub b8 0 64), ?sub_sub by lia; read_write; reflexivity.
  rewrite Hcrcv. cbn [rbind]. pass_guard; [|rewrite Z.eqb_refl; reflexivity].
  read_u32 1. pass_guard; [|reflexivity].
  rewrite Hlh, slice_Ok by lia. cbn [rbind].
  pass_guard; [|rewrite sub_sub by lia; read_writes; rewrite sub_zeros by lia; apply any_nonzero_zeros].
  read_u64 (segment_seq (position h)). read_u32 (offset (position h)).
  pass_guard; [|rewrite !Z.eqb_refl; reflexivity].
  read_u32 (frame_len h). read_u32 (record_count h). read_u32 (record_count h * 64). read_u32 (checksum_len h).
  rewrite is_aligned_page, Hfm. do 3 (pass_guard; [|decide_guard]).
  read_u32 (metadata_crc h). destruct h; reflexivity.
Qed.
End WithCrc.

(** ** Descriptors *)

Lemma RecordDescriptor_decode_safe bytes : len bytes = 64 -> safe (RecordDescriptor_decode bytes).
Proof.
  intros H. unfold RecordDescriptor_decode, DESCRIPTOR_LEN.
  assert (Hk : is_Some (bytes !! 40%nat)) by (apply lookup_lt_is_Some; unfold len in H; lia).
  destruct Hk as [k ->]. cbn [expect rbind].
  safe_steps; try (apply safe_slice || apply safe_u32_at || apply safe_u64_at); rewrite ?H; lia.
Qed.

Lemma RecordDescriptor_decode_Ok bytes d : RecordDescriptor_decode bytes = Ok d -> descriptor_ok d.
Proof.
  unfold RecordDescriptor_decode. intros. inv_ok. subst d. unfold descriptor_ok, chunk_id_ok. simpl.
  apply slice_inv in Hr3 as (? & ? & ->). rewrite len_sub by lia.
  repeat match goal with
  | H : u32_at _ _ = Ok _ |- _ => apply u32_at_range in H
  | H : u64_at _ _ = Ok _ |- _ => apply u64_at_range in H end. auto 10.
Qed.

Lemma RecordDescriptor_encode_spec d bytes :
  descriptor_ok d -> len bytes = 64 ->
  exists bytes', RecordDescriptor_encode d bytes = Ok bytes' /\ len bytes' = 64 /\
    RecordDescriptor_decode bytes' = Ok d.
Proof.
  intros (Hk & Hlsn & Hvo & Hvl & Hco & Hcc) Hl. unfold chunk_id_ok in Hk.
  unfold RecordDescriptor_encode, put_u32, put_u64, DESCRIPTOR_LEN. run_writes.
  exists b6. split; [reflexivity|]. split; [lia|].
  unfold RecordDescriptor_decode, DESCRIPTOR_LEN.
  assert (H40 : b6 !! 40%nat = Some (byte.of_Z (kind_byte (kind d)))).
  { rewrite Hb6, lookup_splice by len_lia. reflexivity. }
  rewrite H40. cbn [expect rbind]. rewrite byte.unsigned_of_Z.
  rewrite !slice_Ok by lia.
  replace (sub b6 0 16) with (key d) by (read_writes; reflexivity).
  assert (Hkind : (let? kind := (if byte.wrap (kind_byte (kind d)) =? 1 then Ok Data
     else if byte.wrap (kind_byte (kind d)) =? 2 then Ok Tombstone
     else Err (frame.Corrupt "record kind")) in Ok kind) = @Ok frame.Error _ (kind d)) by (destruct (kind d); reflexivity).
  destruct (if byte.wrap (kind_byte (kind d)) =? 1 then _ else _) as [k0| |]; inversion Hkind; subst k0.
  cbn [rbind]. pass_guard; [|read_writes; rewrite sub_zeros by lia; apply any_nonzero_zeros].
  read_u64 (lsn d). read_u32 (value_offset d). read_u32 (value_len d).
  read_u32 (checksum_offset d). read_u32 (checksum_count d). destruct d. reflexivity.
Qed.
