(* ===== verification/FrameDecodeProofs.v ===== *)
(** * What the frame decoder guarantees

    Totality on untrusted bytes, and the well-formedness of everything it
    accepts. *)

From stdpp Require Import sorting.
From S2P Require Import Prelude Align Checksum ChunkId Codec FrameFormat FrameDecode.

(** A directory entry the decoder accepts in a frame with header [h]. *)
Definition entry_ok (h : FrameHeader) (limits : FrameLimits) (d : RecordDescriptor) : Prop :=
  descriptor_ok d /\ value_len d <= max_value_len limits /\
  (kind d = Tombstone -> value_len d = 0) /\
  (value_len d = 0 -> value_offset d = 0 /\ checksum_offset d = 0 /\ checksum_count d = 0) /\
  (value_len d <> 0 ->
     checksum_count d = block_count (value_len d) /\
     HEADER_LEN + record_count h * DESCRIPTOR_LEN <= checksum_offset d /\
     checksum_offset d + 4 * checksum_count d <= metadata_len h /\
     metadata_len h <= value_offset d /\ value_offset d mod 8 = 0 /\
     value_offset d + value_len d <= frame_len h).

Definition ranges_disjoint (x y : Z * Z) : Prop := x.1 + x.2 <= y.1 \/ y.1 + y.2 <= x.1.

Definition ranges_of (ds : list RecordDescriptor) : list (Z * Z) :=
  map (fun d => (value_offset d, value_len d)) (List.filter (fun d => negb (value_len d =? 0)) ds).

Lemma value_ranges_of rs : value_ranges rs = ranges_of (map descriptor rs).
Proof.
  unfold value_ranges, ranges_of. induction rs as [|r rs IH]; [reflexivity|]. simpl.
  destruct (negb (value_len (descriptor r) =? 0)); simpl; congruence.
Qed.

(** ** Overlap detection *)

(** Values in increasing order, the first not before [prev]. *)
Fixpoint chained (prev : Z) (ranges : list (Z * Z)) : Prop :=
  match ranges with
  | [] => True
  | x :: rest => prev <= x.1 /\ chained (x.1 + x.2) rest
  end.

Lemma chained_Forall prev ranges :
  Forall (fun x => 0 <= x.2) ranges -> chained prev ranges -> Forall (fun x => prev <= x.1) ranges.
Proof.
  intros Hp. revert prev. induction Hp as [|x ranges Hx Hp IH]; intros prev Hc; [constructor|].
  destruct Hc as [H1 H2]. constructor; [assumption|]. apply IH in H2.
  eapply Forall_impl; [exact H2|]. simpl. lia.
Qed.

Lemma chained_disjoint prev ranges :
  Forall (fun x => 0 <= x.2) ranges -> chained prev ranges -> ForallOrdPairs ranges_disjoint ranges.
Proof.
  intros Hp. revert prev. induction Hp as [|x ranges Hx Hp IH]; intros prev Hc; [constructor|].
  destruct Hc as [H1 H2]. constructor; [|eauto]. apply chained_Forall in H2; [|assumption].
  eapply Forall_impl; [exact H2|]. unfold ranges_disjoint. simpl. auto.
Qed.

Lemma adjacent_overlap_chained ranges :
  adjacent_overlap ranges = false -> match ranges with [] => True | x :: _ => chained x.1 ranges end.
Proof.
  induction ranges as [|x ranges IH]; [auto|]. intros H. simpl. split; [lia|].
  destruct ranges as [|y rest]; [exact I|]. simpl in H. boolp. specialize (IH ltac:(assumption)).
  simpl in IH |- *. split; [lia | apply IH].
Qed.

Lemma ForallOrdPairs_Permutation {A} (R : A -> A -> Prop) l l' :
  (forall x y, R x y -> R y x) -> Permutation l l' -> ForallOrdPairs R l -> ForallOrdPairs R l'.
Proof.
  intros Hsym Hperm. induction Hperm as [|x l l' Hp IH|x y l|l l' l'' _ IH1 _ IH2]; intros H.
  - constructor.
  - inversion H; subst. constructor; [|auto]. rewrite <- Hp. assumption.
  - inversion H as [|? ? Hy Hl]; subst. inversion Hl as [|? ? Hx Hl']; subst. inversion Hy; subst.
    repeat constructor; auto.
  - auto.
Qed.

Lemma sorted_ranges_disjoint ranges :
  Forall (fun x => 0 <= x.2) ranges ->
  adjacent_overlap (merge_sort start_le ranges) = false -> ForallOrdPairs ranges_disjoint ranges.
Proof.
  intros Hp H. pose proof (merge_sort_Permutation start_le ranges) as Hperm.
  apply (ForallOrdPairs_Permutation _ (merge_sort start_le ranges)); [unfold ranges_disjoint; tauto | assumption |].
  assert (Hp' : Forall (fun x => 0 <= x.2) (merge_sort start_le ranges)) by (rewrite Hperm; assumption).
  apply adjacent_overlap_chained in H. destruct (merge_sort start_le ranges) as [|x l]; [constructor|].
  eapply chained_disjoint; eassumption.
Qed.

Lemma ranges_of_nonneg ds : Forall descriptor_ok ds -> Forall (fun x => 0 <= x.2) (ranges_of ds).
Proof.
  unfold ranges_of. induction 1 as [|d ds Hd Hds IH]; simpl; [constructor|].
  destruct (negb (value_len d =? 0)); [|assumption]. constructor; [|assumption].
  destruct Hd as (_ & _ & _ & Hv & _). unfold is_u32 in Hv. simpl. lia.
Qed.

(** ** The directory scan *)

Section Directory.
Context (m : Metadata) (limits : FrameLimits).
Let h := md_header m.
Context (Hbytes : len (md_bytes m) = metadata_len h) (Hcl : 0 <= checksum_len h).

Lemma decode_descriptor_safe k : 0 <= k < record_count h -> safe (decode_descriptor m k).
Proof.
  intros Hk. unfold decode_descriptor, HEADER_LEN, DESCRIPTOR_LEN.
  unfold metadata_len, HEADER_LEN, DESCRIPTOR_LEN in Hbytes.
  rewrite slice_Ok by lia. cbn [rbind]. apply RecordDescriptor_decode_safe. rewrite len_sub; lia.
Qed.

Lemma check_records_safe n k s : 0 <= k -> k + Z.of_nat n <= record_count h -> safe (check_records m limits n k s).
Proof.
  revert k s. induction n as [|n IH]; intros k s Hk Hn; cbn [check_records]; [apply safe_Ok|].
  apply safe_rbind; [|intros; apply IH; lia]. unfold check_record.
  apply safe_rbind; [apply decode_descriptor_safe; lia|]. intros d _. safe_steps.
Qed.

(** One accepted entry: what it satisfies and how the loop variables move. *)
Lemma check_record_inv k s s' :
  check_record m limits k s = Ok s' -> HEADER_LEN + record_count h * DESCRIPTOR_LEN <= checksum_at s ->
  exists d, decode_descriptor m k = Ok d /\ entry_ok h limits d /\ checksum_at s <= checksum_at s' /\
    (ordered s' = true -> ordered s = true) /\
    (if value_len d =? 0 then s' = s
     else previous_end s' = value_offset d + value_len d /\
          (ordered s' = true -> previous_end s <= value_offset d)).
Proof.
  unfold check_record. fold h. intros H Hs. apply rbind_Ok_inv in H as (d & Hd & H). exists d. split; [assumption|].
  assert (Hdok : descriptor_ok d).
  { unfold decode_descriptor in Hd. inv_ok. eapply RecordDescriptor_decode_Ok; eassumption. }
  pose proof Hdok as (_ & _ & _ & Hv32 & _ & Hc32). unfold is_u32 in *.
  apply rbind_Ok_inv in H as (u1 & H1 & H). apply fail_if_Ok in H1.
  apply rbind_Ok_inv in H as (u2 & H2 & H). apply fail_if_Ok in H2.
  assert (Htomb : kind d = Tombstone -> value_len d = 0).
  { intros Hk. rewrite Hk in H2. simpl in H2. boolp. assumption. }
  boolp. destruct (Z.eqb_spec (value_len d) 0) as [Hz|Hnz].
  - inv_ok. subst s'. boolp. unfold entry_ok. auto 12 with lia.
  - apply rbind_Ok_inv in H as (u3 & H3 & H). apply fail_if_Ok in H3.
    apply rbind_Ok_inv in H as (u4 & H4 & H). apply fail_if_Ok in H4.
    apply rbind_Ok_inv in H as (u5 & H5 & H). apply fail_if_Ok in H5.
    unfold VALUE_ALIGN in H5. rewrite is_aligned_8 in H5. boolp. inv_ok. subst s'. cbn [checksum_at previous_end ordered].
    split; [unfold entry_ok; split; [assumption|]; split; [lia|]; split; [auto|]; split; [lia|]; intros _;
            repeat split; lia|].
    split; [lia|]. split; [intros Ho; boolp; assumption|]. split; [reflexivity|]. intros Ho. boolp. lia.
Qed.

(** The whole loop: all entries are acceptable, and a scan that stays ordered
    visited its values in increasing order. *)
Lemma check_records_inv n k s s' :
  check_records m limits n k s = Ok s' -> HEADER_LEN + record_count h * DESCRIPTOR_LEN <= checksum_at s ->
  exists ds, length ds = n /\ Forall (entry_ok h limits) ds /\
    (forall i d, ds !! i = Some d -> decode_descriptor m (k + Z.of_nat i) = Ok d) /\
    (ordered s' = true -> ordered s = true /\ chained (previous_end s) (ranges_of ds)).
Proof.
  revert k s. induction n as [|n IH]; intros k s H Hs; cbn [check_records] in H.
  { inv_ok. subst s'. exists []. split; [reflexivity|]. split; [constructor|]. split; [intros i d Hi; rewrite lookup_nil in Hi; discriminate|].
    intros Ho. split; [assumption | exact I]. }
  apply rbind_Ok_inv in H as (s1 & H1 & H).
  destruct (check_record_inv _ _ _ H1 Hs) as (d & Hd & Hok & Hle & Hmono & Hcase).
  destruct (IH _ _ H ltac:(lia)) as (ds & Hlen & Hall & Hget & Hord).
  exists (d :: ds). split; [simpl; congruence|]. split; [constructor; assumption|]. split.
  - intros [|i] e Hi; simpl in Hi.
    + injection Hi as <-. rewrite Z.add_0_r. assumption.
    + specialize (Hget i e Hi). rewrite <- Hget. f_equal. lia.
  - intros Ho. destruct (Hord Ho) as [Ho1 Hch]. split; [auto|].
    unfold ranges_of in *. simpl. destruct (value_len d =? 0); simpl.
    + subst s1. assumption.
    + destruct Hcase as [Hp Hc]. rewrite <- Hp. auto.
Qed.
End Directory.

(** ** Record access on validated metadata *)

(** The view [Metadata_record] builds for entry [i] with descriptor [d]. *)
Definition view_of (m : Metadata) (i : Z) (d : RecordDescriptor) : RecordView :=
  {| descriptor := d; ordinal := i;
     checksums := sub (md_bytes m) (checksum_offset d) (checksum_offset d + checksum_count d * 4) |}.

Section Views.
Context (m : Metadata) (limits : FrameLimits).
Let h := md_header m.
Context (Hbytes : len (md_bytes m) = metadata_len h) (Hml : 0 <= metadata_len h).

Lemma entry_checksums_in_range d : entry_ok h limits d ->
  0 <= checksum_offset d /\ 0 <= checksum_count d /\ checksum_offset d + checksum_count d * 4 <= len (md_bytes m).
Proof.
  intros ((_ & _ & _ & _ & Hco & Hcc) & _ & _ & Hz & Hnz). unfold is_u32 in *. rewrite Hbytes.
  destruct (Z.eq_dec (value_len d) 0) as [e|e]; [destruct (Hz e) as (_ & -> & ->) | specialize (Hnz e)]; lia.
Qed.

Lemma Metadata_record_view i d :
  i < record_count h -> decode_descriptor m i = Ok d -> entry_ok h limits d ->
  Metadata_record m i = Ok (Some (view_of m i d)).
Proof.
  intros Hi Hd Hok. unfold Metadata_record. fold h. rewrite Z.geb_leb, (proj2 (Z.leb_gt _ _)) by lia.
  rewrite Hd. cbn [rbind]. pose proof (entry_checksums_in_range d Hok). rewrite slice_Ok by lia. reflexivity.
Qed.

Lemma records_from_views n k ds :
  length ds = n -> 0 <= k -> k + Z.of_nat n <= record_count h -> Forall (entry_ok h limits) ds ->
  (forall i d, ds !! i = Some d -> decode_descriptor m (k + Z.of_nat i) = Ok d) ->
  records_from m n k = Ok (imap (fun i d => view_of m (k + Z.of_nat i) d) ds).
Proof.
  revert k ds. induction n as [|n IH]; intros k ds Hlen Hk Hn Hall Hget.
  { destruct ds; [reflexivity | discriminate]. }
  destruct ds as [|d ds]; [discriminate|]. simpl in Hlen. inversion Hall as [|? ? Hd Hds]; subst. cbn [records_from].
  pose proof (Hget 0%nat d eq_refl) as Hg0. rewrite Z.add_0_r in Hg0.
  rewrite (Metadata_record_view k d) by (auto; lia). cbn [rbind expect].
  rewrite (IH (k + 1) ds) by (auto; try lia; intros i e Hi; specialize (Hget (S i) e Hi); rewrite <- Hget; f_equal; lia).
  cbn [rbind imap]. rewrite Z.add_0_r. f_equal. f_equal. apply imap_ext. intros i e _. simpl. f_equal. lia.
Qed.
End Views.

Lemma map_descriptor_imap m k ds : map descriptor (imap (fun i d => view_of m (k + Z.of_nat i) d) ds) = ds.
Proof.
  revert k. induction ds as [|d ds IH]; intros k; [reflexivity|]. cbn [imap map]. f_equal.
  erewrite imap_ext; [apply (IH (k + 1))|]. intros i e _. simpl. f_equal. lia.
Qed.

(** Metadata in the form the decoder establishes. *)
Record metadata_ok (limits : FrameLimits) (p : FramePosition) (m : Metadata) (ds : list RecordDescriptor) : Prop := {
  mo_header : header_ok limits (md_header m);
  mo_position : position (md_header m) = p;
  mo_len : len (md_bytes m) = metadata_len (md_header m);
  mo_count : len ds = record_count (md_header m);
  mo_entries : Forall (entry_ok (md_header m) limits) ds;
  mo_get : forall i d, ds !! i = Some d -> decode_descriptor m (Z.of_nat i) = Ok d;
  mo_disjoint : ForallOrdPairs ranges_disjoint (ranges_of ds)
}.

Lemma metadata_ok_records limits p m ds :
  metadata_ok limits p m ds -> Metadata_records m = Ok (imap (fun i d => view_of m (Z.of_nat i) d) ds).
Proof.
  intros []. unfold Metadata_records.
  assert (0 <= metadata_len (md_header m)) by (rewrite <- mo_len0; apply len_nonneg).
  apply (records_from_views m limits) with (k := 0); unfold len in *; auto; lia.
Qed.

Lemma Forall_entry_descriptor h limits ds : Forall (entry_ok h limits) ds -> Forall descriptor_ok ds.
Proof. intros H. eapply Forall_impl; [exact H|]. intros d Hd. apply Hd. Qed.

Section WithCrc.
Context {C : CrcFast}.

Lemma metadata_len_pos limits h : header_ok limits h -> 128 <= metadata_len h.
Proof.
  intros (_ & _ & _ & _ & _ & Hrc & Hcl & _). unfold metadata_len, HEADER_LEN, DESCRIPTOR_LEN. lia.
Qed.

Lemma Metadata_decode_safe bytes limits p : safe (Metadata_decode bytes limits p).
Proof.
  unfold Metadata_decode. apply safe_rbind; [apply FrameHeader_decode_safe|]. intros h Hh.
  apply FrameHeader_decode_Ok in Hh as (Hok & _ & _). pose proof (metadata_len_pos _ _ Hok) as Hml.
  pose proof Hok as (_ & _ & _ & _ & _ & Hrc & Hcl & _).
  apply safe_rbind; [apply safe_ok_or|]. intros b Hb. apply ok_or_Ok, get_to_Some in Hb as [Hl ->].
  assert (Hb : len (sub bytes 0 (metadata_len h)) = metadata_len h) by (rewrite len_sub; lia).
  apply safe_rbind; [apply safe_slice; unfold HEADER_LEN; lia|]. intros body _.
  apply safe_rbind; [apply safe_fail_if|]. intros _ _. cbv zeta.
  set (m := {| md_bytes := _; md_header := h |}).
  apply safe_rbind; [apply check_records_safe; simpl; auto; lia|]. intros sc Hsc.
  apply safe_rbind; [apply safe_fail_if|]. intros _ _.
  apply safe_rbind; [|intros; apply safe_Ok]. apply safe_if; [apply safe_Ok|].
  apply safe_rbind; [|intros; apply safe_fail_if].
  apply check_records_inv in Hsc as (ds & Hlen & Hall & Hget & _); [|simpl; lia].
  unfold Metadata_records. simpl. rewrite (records_from_views m limits) with (ds := ds); simpl; auto; try lia.
  apply safe_Ok.
Qed.

(** Everything the decoder accepts is well formed. *)
Lemma Metadata_decode_ok bytes limits p m :
  Metadata_decode bytes limits p = Ok m ->
  exists ds, metadata_ok limits p m ds /\ md_bytes m = sub bytes 0 (metadata_len (md_header m)) /\
    metadata_len (md_header m) <= len bytes.
Proof.
  unfold Metadata_decode. intros H. apply rbind_Ok_inv in H as (h & Hh & H).
  apply FrameHeader_decode_Ok in Hh as (Hok & Hpos & Hl64). pose proof (metadata_len_pos _ _ Hok) as Hml.
  pose proof Hok as (_ & _ & _ & _ & _ & Hrc & Hcl & _).
  apply rbind_Ok_inv in H as (b & Hb & H). apply ok_or_Ok, get_to_Some in Hb as [Hl ->].
  apply rbind_Ok_inv in H as (body & Hbody & H). apply rbind_Ok_inv in H as (u & _ & H). cbv zeta in H.
  set (m0 := {| md_bytes := _; md_header := h |}) in *.
  assert (Hb : len (md_bytes m0) = metadata_len (md_header m0)) by (simpl; rewrite len_sub; lia).
  apply rbind_Ok_inv in H as (sc & Hsc & H). apply rbind_Ok_inv in H as (u2 & _ & H).
  apply rbind_Ok_inv in H as (u3 & Hov & H). inv_ok. subst m.
  apply check_records_inv in Hsc as (ds & Hlen & Hall & Hget & Hord); [|simpl; lia].
  pose proof (ranges_of_nonneg ds (Forall_entry_descriptor _ _ _ Hall)) as Hnn.
  exists ds. split; [|simpl; auto]. constructor; simpl; auto.
  - unfold len. lia.
  - destruct (ordered sc) eqn:Ho.
    + destruct (Hord eq_refl) as [_ Hch]. eapply chained_disjoint; eassumption.
    + apply rbind_Ok_inv in Hov as (rs & Hrs & Hov). apply fail_if_Ok in Hov.
      unfold Metadata_records in Hrs. simpl in Hrs.
      rewrite (records_from_views m0 limits) with (ds := ds) in Hrs; simpl; auto; try lia. injection Hrs as <-.
      rewrite value_ranges_of, map_descriptor_imap in Hov. apply sorted_ranges_disjoint; assumption.
Qed.
End WithCrc.

(** ** Verification ranges *)

Lemma align_block v : 0 <= v < 2 ^ 32 ->
  align_down v CHECKSUM_BLOCK_SIZE = v / 65536 * 65536 /\
  align_up v CHECKSUM_BLOCK_SIZE = (v + 65535) / 65536 * 65536.
Proof.
  intros. unfold CHECKSUM_BLOCK_SIZE. split.
  - apply (align_down_floor 16); [lia | reflexivity | unfold is_u64; lia].
  - rewrite (align_up_ceil 16) by (lia || reflexivity). do 2 f_equal. lia.
Qed.

Lemma verification_range_spec vl a b r :
  is_u32 vl -> 0 <= a -> verification_range vl (a, b) = Ok r ->
  a <= b <= vl /\
  (a = b -> r = (a, b)) /\
  (a < b -> 0 <= r.1 <= a /\ b <= r.2 <= vl /\ r.1 mod 65536 = 0 /\ (r.2 mod 65536 = 0 \/ r.2 = vl) /\
            a < r.1 + 65536 /\ r.2 < b + 65536).
Proof.
  unfold verification_range, validate_range, range_is_empty, is_u32. intros Hv Ha H. simpl in H.
  apply rbind_Ok_inv in H as (u & Hg & H). apply fail_if_Ok in Hg. boolp. split; [lia|].
  destruct (Z.ltb_spec a b) as [Hlt|Hge]; simpl in H; injection H as <-.
  - split; [lia|]. intros _. simpl. destruct (align_block a ltac:(lia)) as [-> _]. destruct (align_block b ltac:(lia)) as [_ ->].
    rewrite !wrap32_small by (unfold is_u32; dlia). repeat split; try dlia.
  - split; [auto | lia].
Qed.

Lemma verification_range_fixed vl a b :
  is_u32 vl -> 0 <= a <= b -> b <= vl -> a mod 65536 = 0 -> (b mod 65536 = 0 \/ b = vl) ->
  verification_range vl (a, b) = Ok (a, b).
Proof.
  unfold verification_range, validate_range, range_is_empty, is_u32. intros Hv Hab Hb Ham Hbm. simpl.
  rewrite fail_if_false by decide_guard. cbn [rbind].
  destruct (Z.ltb_spec a b) as [Hlt|Hge]; simpl; [|reflexivity].
  destruct (align_block a ltac:(lia)) as [-> _]. destruct (align_block b ltac:(lia)) as [_ ->].
  rewrite !wrap32_small by (unfold is_u32; dlia). f_equal. f_equal; [dlia|]. destruct Hbm; dlia.
Qed.

(** The range verified for a requested one covers it with whole checksum blocks, at most
    one partial block extra on each side, and is its own verification range. *)
Theorem verification_range_covers (vl a b : Z) (Hv : is_u32 vl) (Hab : 0 <= a < b) (Hb : b <= vl) :
  exists lo hi, verification_range vl (a, b) = Ok (lo, hi) /\
    lo <= a /\ b <= hi <= vl /\ lo mod CHECKSUM_BLOCK_SIZE = 0 /\
    (hi mod CHECKSUM_BLOCK_SIZE = 0 \/ hi = vl) /\
    a - lo < CHECKSUM_BLOCK_SIZE /\ hi - b < CHECKSUM_BLOCK_SIZE /\
    verification_range vl (lo, hi) = Ok (lo, hi).
Proof.
  assert (exists r, verification_range vl (a, b) = Ok r) as [[lo hi] Hr].
  { unfold verification_range, validate_range, range_is_empty. simpl.
    rewrite fail_if_false by decide_guard. cbn [rbind]. destruct (a <? b); simpl; eauto. }
  exists lo, hi. split; [assumption|]. unfold CHECKSUM_BLOCK_SIZE.
  destruct (verification_range_spec vl a b (lo, hi) Hv ltac:(lia) Hr) as (_ & _ & H). specialize (H ltac:(lia)). simpl in H.
  destruct H as (H1 & H2 & H3 & H4 & H5 & H6).
  assert (Hfix : verification_range vl (lo, hi) = Ok (lo, hi)) by (apply verification_range_fixed; auto; lia).
  auto 10 with lia.
Qed.

Lemma verification_range_covers_witness :
  exists lo hi, verification_range 200000 (70000, 70001) = Ok (lo, hi) /\ lo = 65536 /\ hi = 131072.
Proof.
  destruct (verification_range_covers 200000 70000 70001 ltac:(unfold is_u32; lia) ltac:(lia) ltac:(lia)) as (lo & hi & H & _).
  exists lo, hi. rewrite H. revert H. vm_compute. intros [= <- <-]. auto.
Defined.

(** ** Whole frames *)

Section WholeFrame.
Context {C : CrcFast}.

Lemma verify_loop_safe blocks i first expected : safe (verify_loop blocks i first expected).
Proof.
  revert i. induction blocks as [|b blocks IH]; intros i; cbn [verify_loop]; [apply safe_Ok|].
  destruct (expected _); [|apply safe_Err]. destruct (_ =? _); [apply IH | apply safe_Err].
Qed.

Lemma Record_verify_safe r range bytes : safe (Record_verify r range bytes).
Proof.
  unfold Record_verify, verification_range, validate_range. safe_steps. apply safe_map_err, verify_loop_safe.
Qed.

Lemma entry_value_in_frame h limits d :
  header_ok limits h -> entry_ok h limits d -> 0 <= value_offset d /\ 0 <= value_len d /\ value_offset d + value_len d <= frame_len h.
Proof.
  intros Hh ((_ & _ & Hvo & Hvl & _) & _ & _ & Hz & Hnz). unfold is_u32 in *. destruct Hh as (? & ? & _).
  destruct (Z.eq_dec (value_len d) 0) as [e|e]; [destruct (Hz e) | specialize (Hnz e)]; lia.
Qed.

(** What a run over the entries [k..] of validated metadata checks. *)
Lemma verify_records_step limits p m ds bytes n k :
  metadata_ok limits p m ds -> len bytes = frame_len (md_header m) -> (k + S n <= length ds)%nat ->
  exists d, ds !! k = Some d /\
    verify_records m bytes (S n) (Z.of_nat k) =
      (Record_verify (view_of m (Z.of_nat k) d) (0, value_len d) (sub bytes (value_offset d) (value_offset d + value_len d)) ;?
       verify_records m bytes n (Z.of_nat (S k))).
Proof.
  intros Hm Hlen Hk. destruct (lookup_lt_is_Some_2 ds k ltac:(lia)) as [d Hd]. exists d. split; [assumption|].
  destruct Hm as [Hh _ Hlm Hcnt Hent Hget _]. cbn [verify_records].
  pose proof (Forall_lookup_1 _ _ _ _ Hent Hd) as Hok. pose proof (metadata_len_pos _ _ Hh).
  rewrite (Metadata_record_view m limits) with (d := d) by (auto; unfold len in Hcnt; lia).
  cbn [rbind expect descriptor view_of]. pose proof (entry_value_in_frame _ _ _ Hh Hok) as (H1 & H2 & H3).
  destruct Hh as (Hf & _). unfold is_u32 in Hf. rewrite slice_Ok by lia. cbn [rbind].
  rewrite wrap32_small by (unfold is_u32; lia). replace (Z.of_nat k + 1) with (Z.of_nat (S k)) by lia. reflexivity.
Qed.

Lemma verify_records_safe limits p m ds bytes n k :
  metadata_ok limits p m ds -> len bytes = frame_len (md_header m) -> (k + n <= length ds)%nat ->
  safe (verify_records m bytes n (Z.of_nat k)).
Proof.
  intros Hm Hlen. revert k. induction n as [|n IH]; intros k Hk; [apply safe_Ok|].
  destruct (verify_records_step _ _ _ _ _ _ _ Hm Hlen Hk) as (d & _ & ->).
  apply safe_rbind; [apply Record_verify_safe|]. intros _ _. apply IH. lia.
Qed.

(** Decoding untrusted bytes, as metadata or as a whole frame, returns a value or an
    error but never panics, for any input, any limits and any expected position. *)
Theorem frame_decode_total bytes limits p :
  Metadata_decode bytes limits p <> Panic /\ Frame_decode bytes limits p <> Panic.
Proof.
  split; [apply Metadata_decode_safe|]. unfold Frame_decode. apply safe_rbind; [apply Metadata_decode_safe|].
  intros m Hm. destruct (Metadata_decode_ok _ _ _ _ Hm) as (ds & Hok & Hb & Hl).
  apply safe_rbind; [apply safe_ok_or|]. intros b Hb'. apply ok_or_Ok, get_to_Some in Hb' as [Hl' ->].
  apply safe_rbind; [|intros; apply safe_Ok].
  pose proof (mo_header _ _ _ _ Hok) as (Hf & _). unfold is_u32 in Hf.
  apply (verify_records_safe limits p m ds _ _ 0); [assumption | rewrite len_sub; lia|].
  pose proof (mo_count _ _ _ _ Hok). unfold len in *. lia.
Qed.

(** metadata that decodes is well formed: every directory entry is within the limits, its
    value and checksums lie inside the frame and the metadata, and no two values overlap. *)
Theorem metadata_decode_sound bytes limits p m (H : Metadata_decode bytes limits p = Ok m) :
  exists rs, Metadata_records m = Ok rs /\ len rs = record_count (md_header m) /\
    Forall (entry_ok (md_header m) limits) (map descriptor rs) /\
    ForallOrdPairs ranges_disjoint (value_ranges rs) /\
    header_ok limits (md_header m) /\ position (md_header m) = p /\
    md_bytes m = sub bytes 0 (metadata_len (md_header m)).
Proof.
  destruct (Metadata_decode_ok _ _ _ _ H) as (ds & Hok & Hb & _). exists (imap (fun i d => view_of m (Z.of_nat i) d) ds).
  split; [eapply metadata_ok_records; eassumption|]. rewrite value_ranges_of.
  rewrite (map_descriptor_imap m 0). destruct Hok. split; [|auto 8]. unfold len in *. rewrite length_imap. assumption.
Qed.
End WholeFrame.
