(* ===== verification/FrameBuilder.v ===== *)
(** * Frame construction (moat-engine/src/frame/builder.rs)

    Admission of records into a frame, value placement, and encoding into a
    caller's buffer, together with the single-record prepared frame. *)

From S2P Require Import Prelude Align Checksum ChunkId Codec FrameFormat.

Record Input := { in_key : ChunkId; in_lsn : Z; in_kind : RecordKind; in_value : list byte }.

Record FrameBuilder := {
  fb_limits : FrameLimits;
  fb_records : list Input;
  fb_checksum_len : Z;
  fb_payload_end : Z
}.

Definition FrameBuilder_new (limits : FrameLimits) : FrameBuilder :=
  {| fb_limits := limits; fb_records := []; fb_checksum_len := 0; fb_payload_end := 0 |}.

(** Start and end of a value of [l] bytes placed after [end_]. *)
Definition place (end_ l : Z) : Z * Z :=
  if l =? 0 then (0, end_)
  else
    let packed := align_up end_ VALUE_ALIGN in
    let extra_page := div_ceil (packed mod PAGE_SIZE + l) PAGE_SIZE >? div_ceil l PAGE_SIZE in
    let start := if (l >=? CHECKSUM_BLOCK_SIZE) || extra_page then align_up end_ PAGE_SIZE else packed in
    (start, start + l).

(** [records.iter().fold(end, |end, record| place(end, record.value.len()).1)]. *)
Definition place_all (end_ : Z) (records : list Input) : Z :=
  foldl (fun e r => (place e (len (in_value r))).2) end_ records.

Definition admit_input (b : FrameBuilder) (input : Input) : frame_result FrameBuilder :=
  let max := max_value_len (fb_limits b) in
  let limit := max_frame_len (fb_limits b) in
  fail_if (len (in_value input) >? max) (frame.ValueTooLarge (len (in_value input)) max) ;?
  let checksum_len := fb_checksum_len b + 4 * block_count (len (in_value input)) in
  let metadata_len := HEADER_LEN + (len (fb_records b) + 1) * DESCRIPTOR_LEN + checksum_len in
  let payload_end := (place (fb_payload_end b) (len (in_value input))).2 in
  let upper := align_up metadata_len PAGE_SIZE + align_up payload_end PAGE_SIZE in
  (if upper >? limit then
     let end_ := place_all metadata_len (fb_records b ++ [input]) in
     let required := align_up end_ PAGE_SIZE in
     fail_if (required >? limit) (frame.FrameFull required limit)
   else Ok tt) ;?
  Ok {| fb_limits := fb_limits b; fb_records := fb_records b ++ [input];
        fb_checksum_len := checksum_len; fb_payload_end := payload_end |}.

Definition FrameBuilder_push (b : FrameBuilder) (key : ChunkId) (lsn : Z) (value : list byte)
  : frame_result FrameBuilder :=
  admit_input b {| in_key := key; in_lsn := lsn; in_kind := Data; in_value := value |}.

Definition FrameBuilder_push_tombstone (b : FrameBuilder) (key : ChunkId) (lsn : Z) : frame_result FrameBuilder :=
  admit_input b {| in_key := key; in_lsn := lsn; in_kind := Tombstone; in_value := [] |}.

Definition FrameBuilder_is_empty (b : FrameBuilder) : bool := len (fb_records b) =? 0.

Definition FrameBuilder_metadata_len (b : FrameBuilder) : Z :=
  HEADER_LEN + len (fb_records b) * DESCRIPTOR_LEN + fb_checksum_len b.

Definition FrameBuilder_encoded_len (b : FrameBuilder) : Z :=
  if FrameBuilder_is_empty b then 0
  else align_up (place_all (FrameBuilder_metadata_len b) (fb_records b)) PAGE_SIZE.

Definition FrameBuilder_clear (b : FrameBuilder) : FrameBuilder :=
  {| fb_limits := fb_limits b; fb_records := []; fb_checksum_len := 0; fb_payload_end := 0 |}.

Section WithCrc.
Context {C : CrcFast}.

Fixpoint put_sums (metadata : list byte) (at_ : Z) (sums : list Z) : frame_result (list byte * Z) :=
  match sums with
  | [] => Ok (metadata, at_)
  | sum :: rest =>
      let? metadata := put_u32 metadata at_ sum in
      put_sums metadata (at_ + 4) rest
  end.

Definition write_checksums (bytes : list byte) (at_ value_at value_len : Z) : frame_result (list byte * Z) :=
  if value_len =? 0 then Ok (bytes, at_)
  else
    let? metadata := slice bytes 0 value_at in
    let? payload := slice bytes value_at (len bytes) in
    let? value := slice payload 0 value_len in
    let? (metadata, at_) := put_sums metadata at_ (block_checksums value) in
    Ok (metadata ++ payload, at_).

(** The descriptor the encoder writes for a value placed at [value_at]. *)
Definition input_descriptor (input : Input) (value_at checksum_at : Z) : RecordDescriptor :=
  {| key := in_key input; lsn := in_lsn input;
     value_offset := wrap32 value_at;
     value_len := wrap32 (len (in_value input));
     checksum_offset := if len (in_value input) =? 0 then 0 else wrap32 checksum_at;
     checksum_count := block_count (len (in_value input));
     kind := in_kind input |}.

Fixpoint encode_records (records : list Input) (ordinal : Z) (bytes : list byte) (checksum_at end_ : Z)
  : frame_result (list byte * Z) :=
  match records with
  | [] => Ok (bytes, end_)
  | input :: rest =>
      let '(value_at, next_end) := place end_ (len (in_value input)) in
      let? bytes :=
        (if len (in_value input) =? 0 then Ok bytes
         else
           let? bytes := fill0 bytes end_ value_at in
           copy_at bytes value_at (in_value input)) in
      let descriptor_at := HEADER_LEN + ordinal * DESCRIPTOR_LEN in
      let? bytes := on_slice bytes descriptor_at (descriptor_at + DESCRIPTOR_LEN)
                      (RecordDescriptor_encode (input_descriptor input value_at checksum_at)) in
      let? (bytes, checksum_at) := write_checksums bytes checksum_at value_at (len (in_value input)) in
      encode_records rest (ordinal + 1) bytes checksum_at next_end
  end.

(** Returns the rewritten buffer with the header; an error leaves it alone. *)
Definition FrameBuilder_encode_into (b : FrameBuilder) (p : FramePosition) (bytes : list byte)
  : frame_result (list byte * FrameHeader) :=
  fail_if (FrameBuilder_is_empty b) (frame.InvalidArgument "cannot encode an empty frame") ;?
  let frame_len := FrameBuilder_encoded_len b in
  check_len p frame_len ;?
  fail_if (len bytes <? frame_len) (frame.BufferTooSmall frame_len (len bytes)) ;?
  let? out := slice bytes 0 frame_len in
  let checksum_at := HEADER_LEN + len (fb_records b) * DESCRIPTOR_LEN in
  let? (out, end_) := encode_records (fb_records b) 0 out checksum_at (FrameBuilder_metadata_len b) in
  let? out := fill0 out end_ (len out) in
  let? body := slice out HEADER_LEN (FrameBuilder_metadata_len b) in
  let header := {| position := p; frame_len := wrap32 frame_len;
                   record_count := wrap32 (len (fb_records b));
                   checksum_len := wrap32 (fb_checksum_len b); metadata_crc := crc32c body |} in
  let? out := FrameHeader_encode header out in
  let? bytes := copy_at bytes 0 out in
  Ok (bytes, header).

(** ** Prepared frames *)

Definition PreparedFrame_required_len (limits : FrameLimits) (value_len : Z) : frame_result Z :=
  fail_if (value_len >? max_value_len limits) (frame.ValueTooLarge value_len (max_value_len limits)) ;?
  let metadata_len := HEADER_LEN + DESCRIPTOR_LEN + 4 * block_count value_len in
  let l := if value_len =? 0 then PAGE_SIZE
           else align_up (align_up metadata_len PAGE_SIZE + value_len) PAGE_SIZE in
  fail_if (l >? max_frame_len limits) (frame.FrameFull l (max_frame_len limits)) ;?
  Ok l.

Record PreparedFrame := { pf_bytes : list byte; pf_value_at : Z; pf_value_len : Z }.

Definition PreparedFrame_new (limits : FrameLimits) (value_len : Z) (bytes : list byte)
  : frame_result PreparedFrame :=
  let? l := PreparedFrame_required_len limits value_len in
  fail_if (len bytes <? l) (frame.BufferTooSmall l (len bytes)) ;?
  let metadata_len := HEADER_LEN + DESCRIPTOR_LEN + 4 * block_count value_len in
  let value_at := if value_len =? 0 then 0 else align_up metadata_len PAGE_SIZE in
  let? b := slice bytes 0 l in
  Ok {| pf_bytes := b; pf_value_at := value_at; pf_value_len := value_len |}.

(** Filling [value_mut()] with a value of the prepared length. *)
Definition PreparedFrame_fill (f : PreparedFrame) (value : list byte) : frame_result PreparedFrame :=
  let? _ := slice (pf_bytes f) (pf_value_at f) (pf_value_at f + pf_value_len f) in
  let? b := copy_at (pf_bytes f) (pf_value_at f) value in
  Ok {| pf_bytes := b; pf_value_at := pf_value_at f; pf_value_len := pf_value_len f |}.

Definition PreparedFrame_metadata_len (f : PreparedFrame) : Z :=
  HEADER_LEN + DESCRIPTOR_LEN + 4 * block_count (pf_value_len f).

Definition PreparedFrame_finish (f : PreparedFrame) (p : FramePosition) (key : ChunkId) (lsn : Z)
  : frame_result (list byte) :=
  check_len p (len (pf_bytes f)) ;?
  let count := block_count (pf_value_len f) in
  let checksum_at := HEADER_LEN + DESCRIPTOR_LEN in
  let metadata_len := checksum_at + 4 * count in
  let d := {| key := key; lsn := lsn; kind := Data; value_offset := wrap32 (pf_value_at f);
              value_len := wrap32 (pf_value_len f);
              checksum_offset := if count =? 0 then 0 else checksum_at; checksum_count := count |} in
  let? bytes := on_slice (pf_bytes f) HEADER_LEN checksum_at (RecordDescriptor_encode d) in
  let? (bytes, _) := write_checksums bytes checksum_at (pf_value_at f) (pf_value_len f) in
  let? bytes :=
    (if pf_value_len f =? 0 then fill0 bytes metadata_len (len bytes)
     else
       let? bytes := fill0 bytes metadata_len (pf_value_at f) in
       fill0 bytes (pf_value_at f + pf_value_len f) (len bytes)) in
  let? body := slice bytes HEADER_LEN metadata_len in
  let header := {| position := p; frame_len := wrap32 (len bytes); record_count := 1;
                   checksum_len := wrap32 (count * 4); metadata_crc := crc32c body |} in
  FrameHeader_encode header bytes.

End WithCrc.
