(* ===== verification/FrameBuilderProofs.v ===== *)
(** * Value placement and admission

    Where a value lands, why the constant-time admission bound is safe, and
    that an admitted record always fits the frame. *)

From S2P Require Import Prelude Align Checksum ChunkId Codec FrameFormat FrameBuilder.

(** ** Placement *)

(** [place] with the bit tricks replaced by division. *)
Definition place_start (e l : Z) : Z :=
  let packed := (e + 7) / 8 * 8 in
  if (65536 <=? l) || (4096 * div_ceil l 4096 <? packed mod 4096 + l) then (e + 4095) / 4096 * 4096 else packed.

Lemma place_arith e l : 0 <= e < 2 ^ 62 -> 0 < l < 2 ^ 62 -> place e l = (place_start e l, place_start e l + l).
Proof.
  intros He Hl. unfold place, place_start, VALUE_ALIGN, PAGE_SIZE, CHECKSUM_BLOCK_SIZE.
  rewrite (proj2 (Z.eqb_neq l 0)) by lia.
  rewrite (align_up_ceil 3 8), (align_up_ceil 12 4096) by (lia || reflexivity).
  replace (e + 8 - 1) with (e + 7) by lia. replace (e + 4096 - 1) with (e + 4095) by lia.
  set (p := (e + 7) / 8 * 8). set (x := p mod 4096).
  assert (Hx : 0 <= x < 4096) by (apply Z.mod_pos_bound; lia).
  pose proof (div_ceil_spec l 4096 ltac:(lia) ltac:(lia)). pose proof (div_ceil_spec (x + l) 4096 ltac:(lia) ltac:(lia)).
  replace (l >=? 65536) with (65536 <=? l) by (rewrite Z.geb_leb; reflexivity).
  replace (div_ceil (x + l) 4096 >? div_ceil l 4096) with (4096 * div_ceil l 4096 <? x + l); [reflexivity|].
  rewrite Z.gtb_ltb. destruct (Z.ltb_spec (4096 * div_ceil l 4096) (x + l)); symmetry;
    [apply Z.ltb_lt | apply Z.ltb_ge]; lia.
Qed.

Lemma place_start_bounds e l : 0 <= e -> e <= place_start e l < e + 4096 /\ place_start e l mod 8 = 0.
Proof.
  intros He. unfold place_start. destruct (_ || _); split; dlia.
Qed.

Lemma place_start_mono e e' l : 0 <= e <= e' -> 0 < l -> place_start e l <= place_start e' l.
Proof.
  intros He Hl. unfold place_start. pose proof (div_ceil_spec l 4096 ltac:(lia) ltac:(lia)) as Hd.
  set (D := div_ceil l 4096) in *.
  destruct (Z.leb_spec 65536 l) as [Hbig|Hsmall]; simpl; [dlia|].
  destruct (Z.ltb_spec (4096 * D) ((e + 7) / 8 * 8 mod 4096 + l)); destruct (Z.ltb_spec (4096 * D) ((e' + 7) / 8 * 8 mod 4096 + l)); dlia.
Qed.

Lemma place_start_shift n e l : 0 <= e -> 0 <= n -> place_start (4096 * n + e) l = 4096 * n + place_start e l.
Proof.
  intros He Hn. unfold place_start.
  assert (H8 : (4096 * n + e + 7) / 8 * 8 = 4096 * n + (e + 7) / 8 * 8) by dlia.
  assert (HP : (4096 * n + e + 4095) / 4096 * 4096 = 4096 * n + (e + 4095) / 4096 * 4096) by dlia.
  rewrite H8, HP. replace ((4096 * n + (e + 7) / 8 * 8) mod 4096) with ((e + 7) / 8 * 8 mod 4096).
  2:{ rewrite (Z.add_comm (4096 * n)), (Z.mul_comm 4096 n), Z.mod_add by lia. reflexivity. }
  destruct (_ || _); reflexivity.
Qed.

Lemma place_zero e : place e 0 = (0, e).
Proof. reflexivity. Qed.

(** The end of a placed value. *)
Lemma place_end_bounds e l :
  0 <= e < 2 ^ 62 -> 0 <= l < 2 ^ 62 -> e <= (place e l).2 < e + l + 4096.
Proof.
  intros He Hl. destruct (Z.eq_dec l 0) as [->|]; [rewrite place_zero; simpl; lia|].
  rewrite place_arith by lia. pose proof (place_start_bounds e l ltac:(lia)). simpl. lia.
Qed.

Lemma place_end_mono e e' l :
  0 <= e <= e' -> e' < 2 ^ 62 -> 0 <= l < 2 ^ 62 -> (place e l).2 <= (place e' l).2.
Proof.
  intros He He' Hl. destruct (Z.eq_dec l 0) as [->|]; [rewrite !place_zero; simpl; lia|].
  rewrite !place_arith by lia. simpl. pose proof (place_start_mono e e' l). lia.
Qed.

Lemma place_end_shift n e l :
  0 <= n -> 0 <= e -> 4096 * n + e < 2 ^ 62 -> 0 <= l < 2 ^ 62 -> (place (4096 * n + e) l).2 = 4096 * n + (place e l).2.
Proof.
  intros Hn He Hb Hl. destruct (Z.eq_dec l 0) as [->|]; [rewrite !place_zero; reflexivity|].
  rewrite !place_arith by lia. simpl. rewrite place_start_shift by lia. lia.
Qed.

(** Bytes the records can occupy at most, whatever the placement. *)
Definition payload_bound (rs : list Input) : Z := foldr (fun r b => len (in_value r) + 4096 + b) 0 rs.

Lemma payload_bound_nonneg rs : 0 <= payload_bound rs.
Proof. induction rs as [|r rs IH]; simpl; [lia|]. pose proof (len_nonneg (in_value r)). lia. Qed.

Lemma place_all_bounds e rs :
  0 <= e -> e + payload_bound rs < 2 ^ 62 -> e <= place_all e rs <= e + payload_bound rs.
Proof.
  unfold place_all. revert e. induction rs as [|r rs IH]; intros e He Hb; simpl in *; [lia|].
  pose proof (len_nonneg (in_value r)). pose proof (payload_bound_nonneg rs).
  pose proof (place_end_bounds e (len (in_value r)) ltac:(lia) ltac:(lia)).
  specialize (IH (place e (len (in_value r))).2 ltac:(lia) ltac:(lia)). lia.
Qed.

Lemma place_all_mono e e' rs :
  0 <= e <= e' -> e' + payload_bound rs < 2 ^ 62 -> place_all e rs <= place_all e' rs.
Proof.
  unfold place_all. revert e e'. induction rs as [|r rs IH]; intros e e' He Hb; simpl in *; [lia|].
  pose proof (len_nonneg (in_value r)). pose proof (payload_bound_nonneg rs).
  pose proof (place_end_bounds e (len (in_value r)) ltac:(lia) ltac:(lia)).
  pose proof (place_end_bounds e' (len (in_value r)) ltac:(lia) ltac:(lia)).
  apply IH; [|lia]. pose proof (place_end_mono e e' (len (in_value r))). lia.
Qed.

Lemma place_all_shift n e rs :
  0 <= n -> 0 <= e -> 4096 * n + e + payload_bound rs < 2 ^ 62 -> place_all (4096 * n + e) rs = 4096 * n + place_all e rs.
Proof.
  unfold place_all. revert e. induction rs as [|r rs IH]; intros e Hn He Hb; simpl in *; [lia|].
  pose proof (len_nonneg (in_value r)). pose proof (payload_bound_nonneg rs).
  pose proof (place_end_bounds e (len (in_value r)) ltac:(lia) ltac:(lia)).
  rewrite place_end_shift by lia. apply IH; lia.
Qed.

Lemma place_all_snoc e rs r : place_all e (rs ++ [r]) = (place (place_all e rs) (len (in_value r))).2.
Proof. unfold place_all. rewrite foldl_app. reflexivity. Qed.

(** The page-rounded placement after [md] bytes of metadata never exceeds the
    rounded metadata plus the rounded layout from offset zero: the bound the
    fast admission path compares with the limit. *)
Lemma place_all_upper md rs :
  0 <= md -> md + 4096 + payload_bound rs < 2 ^ 61 ->
  align_up (place_all md rs) PAGE_SIZE <= align_up md PAGE_SIZE + align_up (place_all 0 rs) PAGE_SIZE.
Proof.
  intros Hmd Hb. pose proof (payload_bound_nonneg rs).
  destruct (align_up_page md ltac:(lia)) as (n & Hn & Hnb).
  pose proof (place_all_bounds 0 rs ltac:(lia) ltac:(lia)). pose proof (place_all_bounds md rs ltac:(lia) ltac:(lia)).
  assert (Hle : place_all md rs <= 4096 * n + place_all 0 rs).
  { rewrite <- place_all_shift by lia. apply place_all_mono; lia. }
  rewrite Hn. destruct (align_up_page (place_all 0 rs) ltac:(lia)) as (q & Hq & Hqb).
  destruct (align_up_page (place_all md rs) ltac:(lia)) as (r & Hr & Hrb). rewrite Hq, Hr. lia.
Qed.

(** ** Admission *)

Definition input_ok (limits : FrameLimits) (r : Input) : Prop :=
  chunk_id_ok (in_key r) /\ is_u64 (in_lsn r) /\ len (in_value r) <= max_value_len limits /\
  (in_kind r = Tombstone -> in_value r = []).

Definition sums_len (rs : list Input) : Z := foldr (fun r s => 4 * block_count (len (in_value r)) + s) 0 rs.

(** The builder invariant: its cached sizes agree with the records, and a
    nonempty builder encodes within the frame limit. *)
Record builder_ok (b : FrameBuilder) : Prop := {
  bo_limits : limits_ok (fb_limits b);
  bo_records : Forall (input_ok (fb_limits b)) (fb_records b);
  bo_sums : fb_checksum_len b = sums_len (fb_records b);
  bo_payload : fb_payload_end b = place_all 0 (fb_records b);
  bo_fits : FrameBuilder_encoded_len b <= max_frame_len (fb_limits b);
  bo_small : payload_bound (fb_records b) <= len (fb_records b) * (max_frame_len (fb_limits b) + 4096) /\
             len (fb_records b) * DESCRIPTOR_LEN <= max_frame_len (fb_limits b)
}.

Lemma sums_len_app rs r : sums_len (rs ++ [r]) = sums_len rs + 4 * block_count (len (in_value r)).
Proof. induction rs as [|x rs IH]; simpl; lia. Qed.

Lemma payload_bound_app rs r : payload_bound (rs ++ [r]) = payload_bound rs + len (in_value r) + 4096.
Proof. induction rs as [|x rs IH]; simpl; lia. Qed.

Lemma sums_len_bounds limits rs :
  limits_ok limits -> Forall (input_ok limits) rs -> 0 <= sums_len rs <= len rs * 262144 /\ sums_len rs mod 4 = 0.
Proof.
  intros Hl. induction 1 as [|r rs Hr Hrs IH]; simpl; [split; [unfold len; simpl; lia | reflexivity]|].
  rewrite len_cons. destruct Hl as (Hf & _ & Hv). destruct Hr as (_ & _ & Hlen & _).
  pose proof (len_nonneg (in_value r)). pose proof (block_count_bounds (len (in_value r)) ltac:(lia)).
  split; [lia|]. dlia.
Qed.

Lemma FrameBuilder_new_ok limits : limits_ok limits -> builder_ok (FrameBuilder_new limits).
Proof.
  intros H. pose proof H as (Hf & _). constructor; try reflexivity; try assumption; try (constructor; fail).
  - change (0 <= max_frame_len limits). lia.
  - unfold len, DESCRIPTOR_LEN; simpl. lia.
Qed.

Lemma builder_sizes b : builder_ok b ->
  0 <= payload_bound (fb_records b) < 2 ^ 60 /\ 0 <= sums_len (fb_records b) < 2 ^ 45 /\ 0 <= len (fb_records b) <= 2 ^ 26.
Proof.
  intros []. destruct bo_limits0 as (Hf & Hm & Hv) eqn:E. clear E. destruct bo_small0 as [H1 H2].
  unfold DESCRIPTOR_LEN in *. pose proof (len_nonneg (fb_records b)). pose proof (payload_bound_nonneg (fb_records b)).
  assert (Hlim : limits_ok (fb_limits b)) by (split; auto).
  pose proof (sums_len_bounds _ _ Hlim bo_records0) as [Hs _].
  assert (len (fb_records b) <= 2 ^ 26) by lia. split; [|lia]. split; [lia|]. nia.
Qed.

(** The builder with one more record and nothing checked. *)
Definition appended (b : FrameBuilder) (r : Input) : FrameBuilder :=
  {| fb_limits := fb_limits b; fb_records := fb_records b ++ [r];
     fb_checksum_len := fb_checksum_len b + 4 * block_count (len (in_value r));
     fb_payload_end := (place (fb_payload_end b) (len (in_value r))).2 |}.

Lemma appended_encoded_len b r :
  FrameBuilder_encoded_len (appended b r) =
    align_up (place_all (HEADER_LEN + (len (fb_records b) + 1) * DESCRIPTOR_LEN +
                         (fb_checksum_len b + 4 * block_count (len (in_value r)))) (fb_records b ++ [r])) PAGE_SIZE.
Proof.
  unfold FrameBuilder_encoded_len, FrameBuilder_is_empty, FrameBuilder_metadata_len, appended. simpl.
  rewrite len_app. change (len [r]) with 1. pose proof (len_nonneg (fb_records b)).
  rewrite (proj2 (Z.eqb_neq _ 0)) by lia. reflexivity.
Qed.

Lemma appended_sizes b r : builder_ok b -> input_ok (fb_limits b) r ->
  0 <= fb_checksum_len b + 4 * block_count (len (in_value r)) < 2 ^ 46 /\
  0 <= len (fb_records b) <= 2 ^ 26 /\
  0 <= payload_bound (fb_records b ++ [r]) < 2 ^ 60 + 2 ^ 33.
Proof.
  intros Hb Hr. destruct (builder_sizes b Hb) as (Hp & Hs & Hn). rewrite (bo_sums b Hb), payload_bound_app.
  destruct (bo_limits b Hb) as (Hf & _ & Hv). destruct Hr as (_ & _ & Hl & _).
  pose proof (len_nonneg (in_value r)). pose proof (block_count_bounds (len (in_value r)) ltac:(lia)). lia.
Qed.

Lemma admit_input_exact b r : builder_ok b -> input_ok (fb_limits b) r ->
  admit_input b r =
    if FrameBuilder_encoded_len (appended b r) >? max_frame_len (fb_limits b)
    then Err (frame.FrameFull (FrameBuilder_encoded_len (appended b r)) (max_frame_len (fb_limits b)))
    else Ok (appended b r).
Proof.
  intros Hb Hr. pose proof (appended_sizes b r Hb Hr) as (Hs & Hn & Hp).
  rewrite appended_encoded_len. unfold admit_input. rewrite fail_if_false by (destruct Hr as (_ & _ & ? & _); decide_guard).
  cbn [rbind]. set (md := HEADER_LEN + (len (fb_records b) + 1) * DESCRIPTOR_LEN + _).
  assert (Hmd : 0 <= md < 2 ^ 50) by (unfold md, HEADER_LEN, DESCRIPTOR_LEN; lia).
  pose proof (place_all_upper md (fb_records b ++ [r]) ltac:(lia) ltac:(lia)) as Hup.
  rewrite (place_all_snoc 0), <- (bo_payload b Hb) in Hup.
  destruct (Z.gtb_spec (align_up md PAGE_SIZE + align_up (place (fb_payload_end b) (len (in_value r))).2 PAGE_SIZE)
              (max_frame_len (fb_limits b))) as [Hslow|Hfast].
  - unfold fail_if. destruct (_ >? _); reflexivity.
  - cbn [rbind]. rewrite Z.gtb_ltb, (proj2 (Z.ltb_ge _ _)) by lia. reflexivity.
Qed.

Lemma appended_ok b r : builder_ok b -> input_ok (fb_limits b) r ->
  FrameBuilder_encoded_len (appended b r) <= max_frame_len (fb_limits b) -> builder_ok (appended b r).
Proof.
  intros Hb Hr Hfit. pose proof (appended_sizes b r Hb Hr) as (Hs & Hn & Hp). destruct (bo_limits b Hb) as (Hf & Hfm & Hv).
  constructor; simpl.
  - apply Hb.
  - apply Forall_app_2; [apply Hb | repeat constructor; assumption || apply Hr].
  - rewrite sums_len_app, (bo_sums b Hb). reflexivity.
  - rewrite place_all_snoc, (bo_payload b Hb). reflexivity.
  - assumption.
  - rewrite payload_bound_app, len_app. change (len [r]) with 1. destruct (bo_small b Hb) as [H1 H2].
    destruct Hr as (_ & _ & Hl & _). split; [lia|]. rewrite appended_encoded_len in Hfit.
    unfold HEADER_LEN, DESCRIPTOR_LEN in *.
    match type of Hfit with align_up (place_all ?md ?rs) _ <= _ =>
      pose proof (place_all_bounds md rs ltac:(lia) ltac:(lia)) as Hpl;
      destruct (align_up_page (place_all md rs) ltac:(lia)) as (q & Hq & Hqb) end. lia.
Qed.

(** admission is exact: a record is accepted precisely when its value is within the value
    limit and the frame with it, encoded, is within the frame limit; the refusals report the
    exact sizes, although the code decides most cases with a cheaper upper bound. *)
Theorem admission_exact (b : FrameBuilder) (r : Input) (Hb : builder_ok b)
  (Hkey : chunk_id_ok (in_key r)) (Hlsn : is_u64 (in_lsn r)) (Hk : in_kind r = Tombstone -> in_value r = []) :
  let limit := max_frame_len (fb_limits b) in
  let exact := FrameBuilder_encoded_len (appended b r) in
  match admit_input b r with
  | Ok b' => b' = appended b r /\ builder_ok b' /\ exact <= limit /\ len (in_value r) <= max_value_len (fb_limits b)
  | Err (frame.ValueTooLarge l m) => l = len (in_value r) /\ m = max_value_len (fb_limits b) /\ m < l
  | Err (frame.FrameFull required l) => required = exact /\ l = limit /\ limit < exact
  | _ => False
  end.
Proof.
  cbv zeta. destruct (Z.le_gt_cases (len (in_value r)) (max_value_len (fb_limits b))) as [Hl|Hl].
  - assert (Hr : input_ok (fb_limits b) r) by (repeat split; assumption || apply Hlsn).
    rewrite admit_input_exact by assumption. rewrite Z.gtb_ltb.
    destruct (Z.ltb_spec (max_frame_len (fb_limits b)) (FrameBuilder_encoded_len (appended b r))); [auto|].
    auto using appended_ok.
  - unfold admit_input, fail_if. rewrite Z.gtb_ltb, (proj2 (Z.ltb_lt _ _)) by lia. simpl. auto.
Qed.
