(* ===== verification/FrameRoundtrip.v ===== *)
(** * Encoding and decoding frames are inverse

    Whatever a builder admitted and encoded decodes, at the position it was
    encoded for, to the same records with the same values. *)

From S2P Require Import Prelude Align Checksum ChunkId Codec FrameFormat FrameDecode FrameDecodeProofs.
From S2P Require Import Checksum FrameBuilder FrameBuilderProofs.

(** The encoded checksum array. *)
Definition sums_bytes (sums : list Z) : list byte := concat (map (le_split 4) sums).

Lemma len_sums_bytes sums : len (sums_bytes sums) = 4 * len sums.
Proof.
  unfold sums_bytes. induction sums as [|s sums IH]; [reflexivity|]. cbn [map concat].
  rewrite len_app, IH, len_cons, len_le_split. lia.
Qed.

Lemma sub_sums_bytes sums (k : nat) v :
  sums !! k = Some v -> sub (sums_bytes sums) (Z.of_nat k * 4) (Z.of_nat k * 4 + 4) = le_split 4 v.
Proof.
  unfold sums_bytes. revert k. induction sums as [|s sums IH]; intros k Hk; [discriminate|]. cbn [map concat].
  destruct k as [|k]; simpl in Hk.
  - injection Hk as ->. rewrite sub_app_l by len_lia. rewrite <- (sub_all (le_split 4 v)) at 2. f_equal; len_lia.
  - rewrite sub_app_r by len_lia. rewrite len_le_split. rewrite <- (IH k Hk). f_equal; lia.
Qed.

Section WithCrc.
Context {C : CrcFast}.

Lemma block_checksums_range value : Forall is_u32 (block_checksums value).
Proof. unfold block_checksums. apply Forall_map, Forall_true. intros x. apply wrap32_range. Qed.

Lemma put_sums_spec metadata at_ sums :
  0 <= at_ -> at_ + 4 * len sums <= len metadata ->
  put_sums metadata at_ sums = Ok (splice metadata at_ (sums_bytes sums), at_ + 4 * len sums).
Proof.
  revert metadata at_. induction sums as [|s sums IH]; intros metadata at_ Ha Hl; cbn [put_sums].
  { change (sums_bytes []) with (@nil byte). rewrite splice_nil by assumption. f_equal. f_equal. unfold len; simpl; lia. }
  rewrite len_cons in Hl. pose proof (len_nonneg sums). unfold put_u32. rewrite copy_at_Ok by len_lia. cbn [rbind].
  rewrite IH by (try lia; rewrite len_splice by len_lia; lia). f_equal. f_equal; [|rewrite len_cons; lia].
  change (sums_bytes (s :: sums)) with (le_split 4 s ++ sums_bytes sums).
  rewrite <- splice_adjacent by (rewrite ?len_sums_bytes; len_lia). rewrite len_le_split. reflexivity.
Qed.

Lemma write_checksums_spec bytes at_ va vl value :
  0 < vl -> 0 <= at_ -> sub bytes va (va + vl) = value -> va + vl <= len bytes -> vl < 2 ^ 32 ->
  at_ + 4 * block_count vl <= va ->
  write_checksums bytes at_ va vl =
    Ok (splice bytes at_ (sums_bytes (block_checksums value)), at_ + 4 * block_count vl).
Proof.
  intros Hvl Ha Hv Hlen Hv32 Hat. pose proof (block_count_bounds vl ltac:(lia)). unfold write_checksums.
  rewrite (proj2 (Z.eqb_neq vl 0)) by lia.
  rewrite (slice_Ok bytes 0 va), (slice_Ok bytes va (len bytes)) by lia. cbn [rbind].
  rewrite slice_Ok by (rewrite ?len_sub; lia). cbn [rbind].
  rewrite sub_sub by lia. rewrite Z.add_0_r, Hv.
  assert (Hvlen : len value = vl) by (rewrite <- Hv, len_sub; lia).
  assert (Hsl : len (block_checksums value) = block_count vl) by (rewrite len_block_checksums; congruence).
  rewrite put_sums_spec by (rewrite ?len_sub, ?Hsl; lia). cbn [rbind]. rewrite Hsl. f_equal. f_equal.
  rewrite <- splice_app_left by (rewrite ?len_sums_bytes, ?len_sub, ?Hsl; lia).
  f_equal. apply sub_all_split. lia.
Qed.

(** ** One record in the buffer *)

(** Entry [k] of the buffer describes [d] and holds the value and checksums
    of [value]. *)
Definition written (bytes : list byte) (k : Z) (value : list byte) (d : RecordDescriptor) : Prop :=
  RecordDescriptor_decode (sub bytes (64 + 64 * k) (64 + 64 * k + 64)) = Ok d /\
  sub bytes (value_offset d) (value_offset d + value_len d) = value /\
  sub bytes (checksum_offset d) (checksum_offset d + 4 * checksum_count d) = sums_bytes (block_checksums value).

(** The descriptors of records laid out from checksum offset [cat] and value
    boundary [e]. *)
Fixpoint layout (rs : list Input) (cat e : Z) : list RecordDescriptor :=
  match rs with
  | [] => []
  | r :: rest =>
      let '(va, ne) := place e (len (in_value r)) in
      input_descriptor r va cat :: layout rest (cat + 4 * block_count (len (in_value r))) ne
  end.

Section Loop.
(** [n] records, [S0] the start and [M] the end of the checksum area. *)
Context (limits : FrameLimits) (n M : Z) (Hlim : limits_ok limits) (Hn : 0 <= n).
Let S0 := 64 + 64 * n.

(** The parts of the buffer that later records leave alone. *)
Definition preserved (k cat e : Z) (b b' : list byte) : Prop :=
  (forall x y, 0 <= x -> y <= 64 + 64 * k -> sub b' x y = sub b x y) /\
  (forall x y, S0 <= x -> y <= cat -> sub b' x y = sub b x y) /\
  (forall x y, M <= x -> y <= e -> sub b' x y = sub b x y).

Lemma encode_one r k bytes cat e va ne :
  input_ok limits r -> 0 <= k < n -> S0 <= cat -> cat + 4 * block_count (len (in_value r)) <= M -> M <= e -> e <= len bytes ->
  place e (len (in_value r)) = (va, ne) -> ne <= len bytes -> len bytes < 2 ^ 32 ->
  exists bytes', (forall rest, encode_records (r :: rest) k bytes cat e =
      encode_records rest (k + 1) bytes' (cat + 4 * block_count (len (in_value r))) ne) /\
    len bytes' = len bytes /\ preserved k cat e bytes bytes' /\
    written bytes' k (in_value r) (input_descriptor r va cat).
Proof.
  intros (Hkey & Hlsn & Hvl & Hkind) Hk Hcat HcM HMe Hel Hpl Hne Hlen. unfold preserved, S0 in *.
  pose proof (len_nonneg (in_value r)) as Hv0. destruct Hlim as (Hf & _ & Hmv).
  pose proof (block_count_bounds (len (in_value r)) ltac:(lia)) as Hbc.
  set (vl := len (in_value r)) in *. set (d := input_descriptor r va cat).
  cbn [encode_records]. fold vl. rewrite Hpl. unfold HEADER_LEN, DESCRIPTOR_LEN.
  destruct (Z.eq_dec vl 0) as [Hz|Hnz].
  - (* an empty value: only the descriptor is written *)
    rewrite Hz in Hpl. rewrite place_zero in Hpl. injection Hpl as <- <-.
    assert (Hd : d = {| key := in_key r; lsn := in_lsn r; value_offset := 0; value_len := 0; checksum_offset := 0; checksum_count := 0; kind := in_kind r |}).
    { unfold d, input_descriptor. fold vl. rewrite Hz. reflexivity. }
    assert (Hdok : descriptor_ok d) by (rewrite Hd; unfold descriptor_ok, is_u32; simpl; repeat split; auto; try apply Hlsn; lia).
    destruct (RecordDescriptor_encode_spec d (sub bytes (64 + k * 64) (64 + k * 64 + 64)) Hdok ltac:(rewrite len_sub; lia))
      as (db & Henc & Hdl & Hdec).
    exists (splice bytes (64 + k * 64) db). rewrite Hz, Z.eqb_refl. cbn [rbind].
    unfold on_slice. rewrite slice_Ok by lia. cbn [rbind]. fold d. rewrite Henc. cbn [rbind].
    rewrite copy_at_Ok by lia. cbn [rbind]. unfold write_checksums. rewrite Z.eqb_refl. cbn [rbind].
    change (block_count 0) with 0. rewrite Z.mul_0_r, Z.add_0_r.
    split; [reflexivity|]. split; [apply len_splice; lia|]. split.
    + repeat split; intros; [apply sub_splice_before; lia | apply sub_splice_after; lia | apply sub_splice_after; lia].
    + assert (Hnil : in_value r = []) by (destruct (in_value r); [reflexivity | unfold vl, len in Hz; simpl in Hz; lia]).
      unfold written. rewrite Hd. simpl. rewrite Hnil. rewrite <- Hd.
      replace (64 + 64 * k) with (64 + k * 64) by lia. rewrite sub_splice_same by lia. auto.
  - (* a value with its padding, descriptor and checksums *)
    rewrite place_arith in Hpl by lia. injection Hpl as Hva Hne'.
    pose proof (place_start_bounds e vl ltac:(lia)) as [Hps _]. rewrite Hva in Hps.
    rewrite (proj2 (Z.eqb_neq vl 0)) by lia.
    rewrite fill0_Ok by lia. cbn [rbind]. set (b1 := splice bytes e (zeros (va - e))).
    assert (Hl1 : len b1 = len bytes) by (apply len_splice; rewrite ?len_zeros; lia).
    rewrite copy_at_Ok by (fold vl; lia). cbn [rbind]. set (b2 := splice b1 va (in_value r)).
    assert (Hl2 : len b2 = len bytes) by (unfold b2; rewrite len_splice; fold vl; lia).
    assert (Hdok : descriptor_ok d).
    { unfold d, input_descriptor, descriptor_ok. simpl. fold vl. rewrite (proj2 (Z.eqb_neq vl 0)) by lia.
      repeat split; auto; try apply Hlsn; try apply wrap32_range; unfold is_u32; lia. }
    destruct (RecordDescriptor_encode_spec d (sub b2 (64 + k * 64) (64 + k * 64 + 64)) Hdok ltac:(rewrite len_sub; lia))
      as (db & Henc & Hdl & Hdec).
    unfold on_slice. rewrite slice_Ok by lia. cbn [rbind]. fold d. rewrite Henc. cbn [rbind].
    rewrite copy_at_Ok by lia. cbn [rbind]. set (b3 := splice b2 (64 + k * 64) db).
    assert (Hl3 : len b3 = len bytes) by (unfold b3; rewrite len_splice; lia).
    assert (Hval3 : sub b3 va (va + vl) = in_value r).
    { unfold b3. rewrite sub_splice_after by lia. unfold b2. apply sub_splice_same; fold vl; lia. }
    rewrite (write_checksums_spec b3 cat va vl (in_value r)) by (auto; lia). cbn [rbind].
    set (b4 := splice b3 cat (sums_bytes (block_checksums (in_value r)))).
    assert (Hsl : len (sums_bytes (block_checksums (in_value r))) = 4 * block_count vl).
    { rewrite len_sums_bytes, len_block_checksums by (fold vl; lia). reflexivity. }
    exists b4. split; [rewrite <- Hne', Hva; reflexivity|]. split; [unfold b4; rewrite len_splice; lia|]. split.
    + assert (Hlz : len (zeros (va - e)) = va - e) by (apply len_zeros; lia). assert (Hlv : len (in_value r) = vl) by reflexivity.
      repeat split; intros x y Hx Hy; unfold b4.
      * rewrite (sub_splice_before b3) by lia. unfold b3. rewrite sub_splice_before by lia. unfold b2.
        rewrite sub_splice_before by lia. unfold b1. apply sub_splice_before; lia.
      * rewrite (sub_splice_before b3) by lia. unfold b3. rewrite sub_splice_after by lia. unfold b2.
        rewrite sub_splice_before by lia. unfold b1. apply sub_splice_before; lia.
      * rewrite (sub_splice_after b3) by lia. unfold b3. rewrite sub_splice_after by lia. unfold b2.
        rewrite sub_splice_before by lia. unfold b1. apply sub_splice_before; lia.
    + assert (Hvo : value_offset d = va) by (apply wrap32_small; unfold is_u32; lia).
      assert (Hvle : value_len d = vl) by (apply wrap32_small; unfold is_u32; lia).
      assert (Hco : checksum_offset d = cat).
      { unfold d, input_descriptor. simpl. fold vl. rewrite (proj2 (Z.eqb_neq vl 0)) by lia. apply wrap32_small. unfold is_u32; lia. }
      unfold written. fold d. rewrite Hvo, Hvle, Hco. replace (64 + 64 * k) with (64 + k * 64) by lia.
      unfold b4. split; [|split].
      * rewrite sub_splice_before by lia. unfold b3. rewrite sub_splice_same by lia. assumption.
      * rewrite sub_splice_after by lia. assumption.
      * change (checksum_count d) with (block_count vl). apply sub_splice_same; lia.
Qed.

Lemma preserved_trans k cat e cat' e' b b' b'' :
  cat <= cat' -> e <= e' -> preserved k cat e b b' -> preserved (k + 1) cat' e' b' b'' -> preserved k cat e b b''.
Proof.
  intros Hc He (H1 & H2 & H3) (G1 & G2 & G3). repeat split; intros x y Hx Hy.
  - rewrite G1 by lia. auto.
  - rewrite G2 by lia. auto.
  - rewrite G3 by lia. auto.
Qed.

(** The geometry [layout] gives a descriptor. *)
Definition placed (cat' ne : Z) (d : RecordDescriptor) : Prop :=
  value_offset d = 0 /\ value_len d = 0 /\ checksum_offset d = 0 /\ checksum_count d = 0 \/
  S0 <= checksum_offset d /\ checksum_offset d + 4 * checksum_count d <= cat' /\
  M <= value_offset d /\ value_offset d + value_len d <= ne.

Lemma written_preserved k cat' ne b b' v d :
  0 <= k -> placed cat' ne d -> preserved (k + 1) cat' ne b b' -> written b k v d -> written b' k v d.
Proof.
  intros Hk Hp (H1 & H2 & H3) (W1 & W2 & W3). unfold written.
  rewrite (H1 (64 + 64 * k)) by lia. split; [assumption|].
  destruct Hp as [(Hvo & Hvl & Hco & Hcc)|(? & ? & ? & ?)].
  - rewrite Hvo, Hvl, Hco, Hcc in *. rewrite Z.mul_0_r, !sub_empty in *. auto.
  - rewrite (H2 (checksum_offset d)), (H3 (value_offset d)) by lia. auto.
Qed.

Lemma layout_placed r cat e va ne :
  input_ok limits r -> S0 <= cat -> cat + 4 * block_count (len (in_value r)) <= M -> M <= e < 2 ^ 32 -> ne < 2 ^ 32 ->
  place e (len (in_value r)) = (va, ne) ->
  placed (cat + 4 * block_count (len (in_value r))) ne (input_descriptor r va cat).
Proof.
  intros (_ & _ & Hvl & _) Hc HcM He Hne Hpl. unfold placed, S0 in *. destruct Hlim as (Hf & _ & Hmv).
  pose proof (len_nonneg (in_value r)). set (vl := len (in_value r)) in *.
  pose proof (block_count_bounds vl ltac:(lia)). unfold input_descriptor. fold vl. simpl.
  destruct (Z.eqb_spec vl 0) as [Hz|Hnz]; [left|right].
  - rewrite Hz in *. rewrite place_zero in Hpl. injection Hpl as <- <-. auto.
  - rewrite place_arith in Hpl by lia. injection Hpl as Hva Hne'. pose proof (place_start_bounds e vl ltac:(lia)).
    rewrite !wrap32_small by (unfold is_u32; lia). lia.
Qed.

Lemma encode_records_spec rs : forall k bytes cat e,
  Forall (input_ok limits) rs -> 0 <= k -> k + len rs <= n -> S0 <= cat -> cat + sums_len rs <= M -> M <= e ->
  e + payload_bound rs < 2 ^ 62 -> place_all e rs <= len bytes -> len bytes < 2 ^ 32 ->
  exists bytes', encode_records rs k bytes cat e = Ok (bytes', place_all e rs) /\
    len bytes' = len bytes /\ preserved k cat e bytes bytes' /\
    (forall i r d, rs !! i = Some r -> layout rs cat e !! i = Some d -> written bytes' (k + Z.of_nat i) (in_value r) d).
Proof.
  induction rs as [|r rs IH]; intros k bytes cat e Hrs Hk Hkn Hcat HcM HMe Hpb Hpl Hlen.
  { exists bytes. split; [reflexivity|]. split; [reflexivity|]. split; [split; [|split]; reflexivity|]. discriminate. }
  inversion Hrs as [|? ? Hr Hrs']; subst. rewrite len_cons in Hkn. simpl in HcM, Hpb.
  pose proof (sums_len_bounds limits rs Hlim Hrs') as [Hsl _]. pose proof (payload_bound_nonneg rs).
  pose proof Hr as (_ & _ & Hvl & _). destruct Hlim as (Hf & _ & Hmv). pose proof (len_nonneg (in_value r)). pose proof (len_nonneg rs).
  pose proof (block_count_bounds (len (in_value r)) ltac:(lia)) as Hbc. unfold S0 in *.
  pose proof (place_end_bounds e (len (in_value r)) ltac:(lia) ltac:(lia)) as Hpe.
  destruct (place e (len (in_value r))) as [va ne] eqn:Epl. simpl in Hpe.
  assert (Hpa : place_all e (r :: rs) = place_all ne rs) by (unfold place_all; simpl; rewrite Epl; reflexivity).
  rewrite Hpa in *. pose proof (place_all_bounds ne rs ltac:(lia) ltac:(lia)) as Hpn.
  destruct (encode_one r k bytes cat e va ne) as (b1 & Henc & Hl1 & Hp1 & Hw1); auto; try (unfold S0; lia).
  destruct (IH (k + 1) b1 (cat + 4 * block_count (len (in_value r))) ne) as (b2 & He2 & Hl2 & Hp2 & Hw2); auto; try lia.
  exists b2. rewrite Henc, He2. split; [reflexivity|]. split; [congruence|].
  split; [eapply preserved_trans; [| | exact Hp1 | exact Hp2]; lia|].
  intros [|i] r' d Hi Hd; cbn [layout] in Hd; rewrite Epl in Hd; simpl in Hi, Hd.
  - injection Hi as <-. injection Hd as <-. rewrite Z.add_0_r.
    eapply written_preserved; [lia | apply (layout_placed r cat e va ne) | exact Hp2 | exact Hw1]; auto; unfold S0; lia.
  - specialize (Hw2 i r' d Hi Hd). replace (k + Z.of_nat (S i)) with (k + 1 + Z.of_nat i) by lia. assumption.
Qed.
End Loop.

(** ** Reading the directory back *)

(** A directory in encoding order: checksum arrays packed from [cat], values
    increasing from [prev]. *)
Fixpoint directory_ok (h : FrameHeader) (limits : FrameLimits) (ds : list RecordDescriptor) (cat prev : Z) : Prop :=
  match ds with
  | [] => cat = metadata_len h
  | d :: rest =>
      value_len d <= max_value_len limits /\ (kind d = Tombstone -> value_len d = 0) /\
      if value_len d =? 0 then
        value_offset d = 0 /\ checksum_offset d = 0 /\ checksum_count d = 0 /\ directory_ok h limits rest cat prev
      else
        checksum_count d = block_count (value_len d) /\ checksum_offset d = cat /\
        cat + 4 * checksum_count d <= metadata_len h /\ metadata_len h <= value_offset d /\ prev <= value_offset d /\
        value_offset d mod 8 = 0 /\ value_offset d + value_len d <= frame_len h /\
        directory_ok h limits rest (cat + 4 * checksum_count d) (value_offset d + value_len d)
  end.

Lemma check_records_accepts m limits ds : forall k s,
  (forall i d, ds !! i = Some d -> decode_descriptor m (k + Z.of_nat i) = Ok d) -> ordered s = true ->
  directory_ok (md_header m) limits ds (checksum_at s) (previous_end s) ->
  exists s', check_records m limits (length ds) k s = Ok s' /\ ordered s' = true /\ checksum_at s' = metadata_len (md_header m).
Proof.
  induction ds as [|d ds IH]; intros k s Hget Ho Hd; [exists s; auto|].
  cbn [length check_records]. unfold check_record. pose proof (Hget 0%nat d eq_refl) as H0. rewrite Z.add_0_r in H0.
  rewrite H0. cbn [rbind]. destruct Hd as (Hvl & Htomb & Hcase).
  assert (Hget' : forall i e, ds !! i = Some e -> decode_descriptor m (k + 1 + Z.of_nat i) = Ok e).
  { intros i e Hi. rewrite <- (Hget (S i) e Hi). f_equal. lia. }
  pass_guard; [|decide_guard].
  pass_guard; [|destruct (kind d); [reflexivity|]; rewrite Htomb by reflexivity; reflexivity].
  destruct (value_len d =? 0).
  - destruct Hcase as (-> & -> & -> & Hrest). cbn [Z.eqb negb orb fail_if rbind]. apply IH; assumption.
  - destruct Hcase as (Hcc & Hco & H1 & H2 & H3 & H4 & H5 & Hrest).
    pass_guard; [|rewrite Hcc, Hco, !Z.eqb_refl; reflexivity]. pass_guard; [|decide_guard].
    pass_guard; [|unfold VALUE_ALIGN; rewrite is_aligned_8, H4; decide_guard].
    apply IH; [assumption | simpl; rewrite Ho, Z.geb_leb; apply Z.leb_le; assumption | assumption].
Qed.

Lemma layout_directory h limits rs : forall cat e,
  limits_ok limits -> Forall (input_ok limits) rs ->
  cat + sums_len rs = metadata_len h -> metadata_len h <= e -> 0 <= cat -> place_all e rs <= frame_len h -> frame_len h < 2 ^ 32 ->
  e + payload_bound rs < 2 ^ 62 -> directory_ok h limits (layout rs cat e) cat e.
Proof.
  induction rs as [|r rs IH]; intros cat e Hlim Hrs Hsum He Hc Hpl Hf Hpb; [simpl in *; lia|].
  inversion Hrs as [|? ? Hr Hrs']; subst. simpl in Hsum, Hpb. pose proof (sums_len_bounds limits rs Hlim Hrs') as [Hsl _].
  pose proof Hr as (_ & _ & Hvl & Hk). pose proof Hlim as (Hfl & _ & Hmv). pose proof (payload_bound_nonneg rs).
  pose proof (len_nonneg (in_value r)). pose proof (block_count_bounds (len (in_value r)) ltac:(lia)) as Hbc.
  pose proof (place_end_bounds e (len (in_value r)) ltac:(lia) ltac:(lia)) as Hpe. cbn [layout].
  destruct (place e (len (in_value r))) as [va ne] eqn:Epl. simpl in Hpe.
  assert (Hpa : place_all e (r :: rs) = place_all ne rs) by (unfold place_all; simpl; rewrite Epl; reflexivity).
  rewrite Hpa in *. pose proof (place_all_bounds ne rs ltac:(lia) ltac:(lia)) as Hpn.
  cbn [directory_ok input_descriptor value_len kind value_offset checksum_offset checksum_count].
  rewrite !(wrap32_small (len (in_value r))) by (unfold is_u32; lia).
  split; [assumption|]. split; [intros Ht; rewrite (Hk Ht); reflexivity|].
  destruct (Z.eqb_spec (len (in_value r)) 0) as [Hz|Hnz].
  - rewrite Hz in *. rewrite place_zero in Epl. injection Epl as <- <-. change (block_count 0) with 0 in *.
    rewrite Z.mul_0_r, Z.add_0_r in *. repeat split; [reflexivity..|]. apply IH; auto; lia.
  - rewrite place_arith in Epl by lia. injection Epl as Hva Hne. pose proof (place_start_bounds e (len (in_value r)) ltac:(lia)) as [Hps Hp8].
    rewrite Hva in *. rewrite !wrap32_small by (unfold is_u32; lia).
    repeat (split; [lia || assumption || reflexivity|]). rewrite Hne. apply IH; auto; lia.
Qed.

Lemma length_layout rs cat e : length (layout rs cat e) = length rs.
Proof.
  revert cat e. induction rs as [|r rs IH]; intros cat e; [reflexivity|]. cbn [layout].
  destruct (place e (len (in_value r))). simpl. f_equal. apply IH.
Qed.

(** ** A buffer that holds a frame *)

(** [bytes] starts with a frame whose header is [h], whose directory is [ds]
    and whose values are [vs]. *)
Record image (limits : FrameLimits) (p : FramePosition) (bytes : list byte) (h : FrameHeader)
    (ds : list RecordDescriptor) (vs : list (list byte)) : Prop := {
  im_header : header_ok limits h;
  im_limits : limits_ok limits;
  im_decode : FrameHeader_decode bytes limits p = Ok h;
  im_len : frame_len h <= len bytes;
  im_crc : crc32c (sub bytes 64 (metadata_len h)) = metadata_crc h;
  im_count : len ds = record_count h;
  im_values : length vs = length ds;
  im_written : forall i v d, vs !! i = Some v -> ds !! i = Some d ->
    written bytes (Z.of_nat i) v d /\ len v = value_len d /\ checksum_count d = block_count (len v);
  im_directory : directory_ok h limits ds (64 + 64 * record_count h) (metadata_len h)
}.

Section Image.
Context (limits : FrameLimits) (p : FramePosition) (bytes : list byte) (h : FrameHeader).
Context (ds : list RecordDescriptor) (vs : list (list byte)) (I : image limits p bytes h ds vs).

Definition image_metadata : Metadata := {| md_bytes := sub bytes 0 (metadata_len h); md_header := h |}.
Definition image_frame : Frame := {| frame_bytes := sub bytes 0 (frame_len h); frame_metadata := image_metadata |}.

Lemma image_bounds :
  64 + 64 * record_count h <= metadata_len h /\ metadata_len h <= frame_len h /\ 0 < frame_len h < 2 ^ 32 /\ 0 < record_count h.
Proof.
  destruct (im_header _ _ _ _ _ _ I) as (Hf & Hf0 & _ & _ & _ & Hrc & Hcl & _ & Hml & _). unfold is_u32 in Hf.
  unfold metadata_len, HEADER_LEN, DESCRIPTOR_LEN in *. lia.
Qed.

Lemma image_entry i d : ds !! i = Some d -> exists v, vs !! i = Some v /\
  written bytes (Z.of_nat i) v d /\ len v = value_len d /\ checksum_count d = block_count (len v).
Proof.
  intros Hd. pose proof (lookup_lt_Some _ _ _ Hd). destruct (lookup_lt_is_Some_2 vs i) as [v Hv].
  { rewrite (im_values _ _ _ _ _ _ I). assumption. }
  exists v. split; [assumption|]. eapply (im_written _ _ _ _ _ _ I); eassumption.
Qed.

Lemma image_get i d : ds !! i = Some d -> decode_descriptor image_metadata (Z.of_nat i) = Ok d.
Proof.
  intros Hd. destruct (image_entry i d Hd) as (v & _ & (Hw & _) & _). pose proof image_bounds.
  pose proof (lookup_lt_Some _ _ _ Hd). pose proof (im_count _ _ _ _ _ _ I). pose proof (im_len _ _ _ _ _ _ I). unfold len in *.
  unfold decode_descriptor, HEADER_LEN, DESCRIPTOR_LEN. cbn [md_bytes image_metadata].
  rewrite slice_Ok by (rewrite ?len_sub; unfold len; lia). cbn [rbind]. rewrite sub_sub by lia. rewrite <- Hw. do 2 f_equal; lia.
Qed.

Lemma image_metadata_decode : Metadata_decode bytes limits p = Ok image_metadata.
Proof.
  pose proof image_bounds. pose proof (im_len _ _ _ _ _ _ I). unfold Metadata_decode.
  rewrite (im_decode _ _ _ _ _ _ I). cbn [rbind]. rewrite get_to_Ok by lia. cbn [ok_or rbind].
  unfold HEADER_LEN, DESCRIPTOR_LEN. rewrite (slice_Ok _ 64) by (rewrite ?len_sub; lia). cbn [rbind].
  rewrite len_sub, sub_sub by lia. pass_guard; [|rewrite Z.sub_0_r, !Z.add_0_l, (im_crc _ _ _ _ _ _ I), Z.eqb_refl; reflexivity].
  fold image_metadata. cbv zeta. pose proof (im_directory _ _ _ _ _ _ I) as Hd. rewrite (Z.mul_comm 64) in Hd.
  set (s0 := {| checksum_at := 64 + record_count h * 64; previous_end := metadata_len h; ordered := true; value_count := 0 |}).
  destruct (check_records_accepts image_metadata limits ds 0 s0) as (s' & Hs & Ho & Hc).
  { intros i d Hi. apply image_get. assumption. }
  { reflexivity. }
  { exact Hd. }
  replace (Z.to_nat (record_count h)) with (length ds) by (pose proof (im_count _ _ _ _ _ _ I); unfold len in *; lia).
  rewrite Hs. cbn [rbind]. pass_guard; [|rewrite Hc; simpl; rewrite Z.eqb_refl; reflexivity]. rewrite Ho. reflexivity.
Qed.

Lemma image_metadata_ok : metadata_ok limits p image_metadata ds.
Proof.
  destruct (Metadata_decode_ok _ _ _ _ image_metadata_decode) as (ds' & Hok & _ & _).
  replace ds with ds'; [assumption|]. apply list_eq_same_length with (n := length ds); [reflexivity | |].
  { pose proof (im_count _ _ _ _ _ _ I). pose proof (mo_count _ _ _ _ Hok) as Hc. unfold len in *. simpl in Hc. lia. }
  intros i d' d _ Hd' Hd. pose proof (image_get i d Hd) as H1. pose proof (mo_get _ _ _ _ Hok i d' Hd') as H2. congruence.
Qed.

Lemma image_checksum i d v k :
  ds !! i = Some d -> written bytes (Z.of_nat i) v d -> checksum_count d = block_count (len v) -> len v < 2 ^ 32 ->
  (k < length (block_checksums v))%nat ->
  Record_checksum (view_of image_metadata (Z.of_nat i) d) (Z.of_nat k) = block_checksums v !! k.
Proof.
  intros Hd (_ & _ & Hsums) Hcc Hv Hk. pose proof (len_block_checksums v Hv) as Hlen. pose proof image_bounds.
  pose proof (im_len _ _ _ _ _ _ I). pose proof (mo_entries _ _ _ _ image_metadata_ok) as Hent.
  pose proof (Forall_lookup_1 _ _ _ _ Hent Hd) as Hok.
  destruct (entry_checksums_in_range image_metadata limits (mo_len _ _ _ _ image_metadata_ok) ltac:(simpl; lia) d Hok) as (H1 & H2 & H3).
  rewrite (mo_len _ _ _ _ image_metadata_ok) in H3. cbn [md_header image_metadata] in H3.
  destruct (lookup_lt_is_Some_2 _ _ Hk) as [c Hc]. rewrite Hc. unfold Record_checksum. cbn [descriptor view_of checksums].
  unfold len in Hlen at 1. rewrite Z.geb_leb, (proj2 (Z.leb_gt _ _)) by lia.
  cbn [md_bytes image_metadata]. rewrite sub_sub by lia. rewrite Z.add_0_l, (Z.add_0_l (_ + _)), (Z.mul_comm _ 4), Hsums.
  rewrite (u32_at_field _ _ c); [reflexivity | | lia | rewrite len_sums_bytes; unfold len; lia | apply sub_sums_bytes; assumption].
  eapply (Forall_lookup_1 _ _ k c); [apply block_checksums_range | exact Hc].
Qed.

Lemma image_record_verify i d v :
  ds !! i = Some d -> written bytes (Z.of_nat i) v d -> len v = value_len d -> checksum_count d = block_count (len v) ->
  Record_verify (view_of image_metadata (Z.of_nat i) d) (0, value_len d) v = Ok tt.
Proof.
  intros Hd Hw Hl Hcc. pose proof (mo_entries _ _ _ _ image_metadata_ok) as Hent.
  pose proof (Forall_lookup_1 _ _ _ _ Hent Hd) as ((_ & _ & _ & Hv & _) & _). unfold is_u32 in Hv.
  unfold Record_verify. cbn [descriptor view_of]. rewrite verification_range_fixed by (unfold is_u32; auto; lia).
  cbn [rbind fst snd]. pass_guard; [|rewrite Hl, Z.sub_0_r, !Z.eqb_refl; reflexivity].
  pose proof (verify_own_range v 0 (len v) (Record_checksum (view_of image_metadata (Z.of_nat i) d))) as Hvo.
  rewrite sub_all in Hvo. rewrite Hvo; auto; try lia. intros k Hk. apply image_checksum; auto; lia.
Qed.

Lemma image_value i d v : ds !! i = Some d -> written bytes (Z.of_nat i) v d ->
  sub (sub bytes 0 (frame_len h)) (value_offset d) (value_offset d + value_len d) = v /\
  0 <= value_offset d <= value_offset d + value_len d /\ value_offset d + value_len d <= len (sub bytes 0 (frame_len h)).
Proof.
  intros Hd (_ & Hv & _). pose proof (mo_entries _ _ _ _ image_metadata_ok) as Hent.
  pose proof (Forall_lookup_1 _ _ _ _ Hent Hd) as Hok. pose proof image_bounds. pose proof (im_len _ _ _ _ _ _ I).
  destruct (entry_value_in_frame _ _ _ (im_header _ _ _ _ _ _ I) Hok) as (H1 & H2 & H3).
  rewrite len_sub, sub_sub by lia. rewrite !Z.add_0_l. split; [assumption | lia].
Qed.

Lemma image_verify_records n k : (k + n <= length ds)%nat ->
  verify_records image_metadata (sub bytes 0 (frame_len h)) n (Z.of_nat k) = Ok tt.
Proof.
  pose proof image_bounds. pose proof (im_len _ _ _ _ _ _ I).
  revert k. induction n as [|n IH]; intros k Hk; [reflexivity|].
  destruct (verify_records_step limits p image_metadata ds (sub bytes 0 (frame_len h)) n k image_metadata_ok) as (d & Hd & ->);
    [rewrite len_sub; simpl; lia | lia |].
  destruct (image_entry k d Hd) as (v & _ & Hw & Hl & Hcc). destruct (image_value k d v Hd Hw) as [-> _].
  rewrite image_record_verify by assumption. cbn [rbind]. apply IH. lia.
Qed.

Lemma image_frame_decode : Frame_decode bytes limits p = Ok image_frame.
Proof.
  pose proof image_bounds. pose proof (im_len _ _ _ _ _ _ I). unfold Frame_decode. rewrite image_metadata_decode. cbn [rbind md_header image_metadata].
  rewrite get_to_Ok by lia. cbn [ok_or rbind]. fold image_metadata.
  pose proof (im_count _ _ _ _ _ _ I) as Hc. unfold len in Hc.
  rewrite (image_verify_records _ 0) by lia. reflexivity.
Qed.

Lemma image_frame_value i v d : vs !! i = Some v -> ds !! i = Some d ->
  Frame_value image_frame (Z.of_nat i) = Ok (if is_tombstone (kind d) then None else Some v).
Proof.
  intros Hv Hd. destruct (im_written _ _ _ _ _ _ I i v d Hv Hd) as (Hw & _).
  pose proof (mo_entries _ _ _ _ image_metadata_ok) as Hent. pose proof (Forall_lookup_1 _ _ _ _ Hent Hd) as Hok.
  pose proof (im_count _ _ _ _ _ _ I) as Hc. pose proof (lookup_lt_Some _ _ _ Hd). pose proof image_bounds.
  unfold Frame_value. cbn [frame_metadata image_frame]. unfold len in Hc.
  rewrite (Metadata_record_view image_metadata limits) with (d := d);
    [| apply (mo_len _ _ _ _ image_metadata_ok) | simpl; lia | simpl; lia | apply image_get; assumption | assumption].
  cbn [rbind descriptor view_of]. destruct (is_tombstone (kind d)); [reflexivity|].
  destruct (image_value i d v Hd Hw) as (Hs & H1 & H2). cbn [frame_bytes image_frame]. rewrite slice_Ok, Hs by lia. reflexivity.
Qed.
End Image.

(** ** Encoding produces such a buffer *)

Lemma placed_mono n M cat e cat' e' d : cat <= cat' -> e <= e' -> placed n M cat e d -> placed n M cat' e' d.
Proof. unfold placed. intros ? ? [?|?]; [left; assumption | right; lia]. Qed.

Lemma layout_all_placed limits n M rs : forall cat e i d,
  limits_ok limits -> 0 <= n -> Forall (input_ok limits) rs -> 64 + 64 * n <= cat -> cat + sums_len rs <= M -> M <= e ->
  e + payload_bound rs < 2 ^ 62 -> place_all e rs < 2 ^ 32 -> layout rs cat e !! i = Some d ->
  placed n M (cat + sums_len rs) (place_all e rs) d.
Proof.
  induction rs as [|r rs IH]; intros cat e i d Hlim Hn Hrs Hcat HcM HMe Hpb Hpl Hi; [discriminate|].
  inversion Hrs as [|? ? Hr Hrs']; subst. simpl in HcM, Hpb. pose proof (sums_len_bounds limits rs Hlim Hrs') as [Hsl _].
  pose proof Hr as (_ & _ & Hvl & _). pose proof Hlim as (Hf & _ & Hmv). pose proof (payload_bound_nonneg rs).
  pose proof (len_nonneg (in_value r)). pose proof (block_count_bounds (len (in_value r)) ltac:(lia)) as Hbc.
  pose proof (place_end_bounds e (len (in_value r)) ltac:(lia) ltac:(lia)) as Hpe. cbn [layout] in Hi.
  destruct (place e (len (in_value r))) as [va ne] eqn:Epl. simpl in Hpe.
  assert (Hpa : place_all e (r :: rs) = place_all ne rs) by (unfold place_all; simpl; rewrite Epl; reflexivity).
  rewrite Hpa in *. pose proof (place_all_bounds ne rs ltac:(lia) ltac:(lia)) as Hpn.
  cbn [sums_len foldr]. fold (sums_len rs). rewrite Z.add_assoc. destruct i as [|i]; simpl in Hi.
  - injection Hi as <-. eapply placed_mono; [| | apply (layout_placed limits n M Hlim Hn r cat e va ne)]; auto; lia.
  - eapply IH; try eassumption; lia.
Qed.

Lemma written_agree n M b b' k cat e v d :
  0 <= k < n -> placed n M cat e d -> 64 + 64 * n <= M -> cat <= M -> M <= e ->
  (forall x y, 64 <= x -> y <= e -> sub b' x y = sub b x y) -> written b k v d -> written b' k v d.
Proof.
  intros Hk Hp HnM Hc HM Hag (W1 & W2 & W3). unfold written. rewrite Hag by lia. split; [assumption|].
  destruct Hp as [(Hvo & Hvl & Hco & Hcc)|(? & ? & ? & ?)].
  - rewrite Hvo, Hvl, Hco, Hcc in *. rewrite Z.mul_0_r, !sub_empty in *. auto.
  - rewrite !Hag by lia. auto.
Qed.

Lemma layout_descriptor rs : forall cat e i r d, rs !! i = Some r -> layout rs cat e !! i = Some d ->
  exists va ca, d = input_descriptor r va ca.
Proof.
  induction rs as [|r0 rs IH]; intros cat e i r d Hr Hd; [discriminate|]. cbn [layout] in Hd.
  destruct (place e (len (in_value r0))) as [va ne]. destruct i as [|i]; simpl in *; [|eauto].
  injection Hr as <-. injection Hd as <-. eauto.
Qed.

(** Sizes of a nonempty builder's frame. *)
Lemma builder_frame_sizes b : builder_ok b -> fb_records b <> [] ->
  let md := FrameBuilder_metadata_len b in let pe := place_all md (fb_records b) in let fl := FrameBuilder_encoded_len b in
  0 < len (fb_records b) /\ 0 <= fb_checksum_len b /\ fb_checksum_len b mod 4 = 0 /\
  md = 64 + 64 * len (fb_records b) + fb_checksum_len b /\ md <= pe /\ pe <= fl /\ fl mod 4096 = 0 /\ fl <= max_frame_len (fb_limits b) /\
  max_frame_len (fb_limits b) < 2 ^ 32 /\ md + payload_bound (fb_records b) < 2 ^ 62.
Proof.
  intros Hb Hne. cbv zeta. destruct (builder_sizes b Hb) as (Hp & Hs & Hn). pose proof (bo_limits b Hb) as Hlim.
  destruct (sums_len_bounds _ _ Hlim (bo_records b Hb)) as [_ Hs4]. rewrite <- (bo_sums b Hb) in Hs, Hs4.
  assert (Hn0 : 0 < len (fb_records b)) by (destruct (fb_records b); [congruence | rewrite len_cons; pose proof (len_nonneg l); lia]).
  assert (Hmd : FrameBuilder_metadata_len b = 64 + 64 * len (fb_records b) + fb_checksum_len b).
  { unfold FrameBuilder_metadata_len, HEADER_LEN, DESCRIPTOR_LEN. lia. }
  pose proof (place_all_bounds (FrameBuilder_metadata_len b) (fb_records b) ltac:(lia) ltac:(lia)) as Hpe.
  pose proof (bo_fits b Hb) as Hfit. unfold FrameBuilder_encoded_len, FrameBuilder_is_empty in *.
  rewrite (proj2 (Z.eqb_neq (len (fb_records b)) 0)) in * by lia.
  destruct (align_up_page (place_all (FrameBuilder_metadata_len b) (fb_records b)) ltac:(lia)) as (q & Hq & Hqb).
  destruct Hlim as (Hf & _). rewrite Hq in *. repeat split; try assumption; try lia. dlia.
Qed.

Lemma encode_into_image b p bytes :
  builder_ok b -> fb_records b <> [] -> position_ok p -> FrameBuilder_encoded_len b <= available p ->
  FrameBuilder_encoded_len b <= len bytes ->
  exists bytes' h ds, FrameBuilder_encode_into b p bytes = Ok (bytes', h) /\
    image (fb_limits b) p bytes' h ds (map in_value (fb_records b)) /\
    ds = layout (fb_records b) (64 + 64 * len (fb_records b)) (FrameBuilder_metadata_len b) /\
    len bytes' = len bytes /\ (forall x y, FrameBuilder_encoded_len b <= x -> sub bytes' x y = sub bytes x y) /\
    frame_len h = FrameBuilder_encoded_len b /\ position h = p.
Proof.
  intros Hb Hne Hp Hav Hlen. pose proof (builder_frame_sizes b Hb Hne) as Hsz. cbv zeta in Hsz.
  destruct Hsz as (Hn & Hc0 & Hc4 & Hmd & Hpe & Hfl & Hfm & Hlimit & H32 & Hpb). pose proof (bo_limits b Hb) as Hlim.
  pose proof Hlim as (Hlf & Hlm & Hlv). set (rs := fb_records b) in *. set (md := FrameBuilder_metadata_len b) in *.
  set (fl := FrameBuilder_encoded_len b) in *. set (pe := place_all md rs) in *.
  assert (Hsums : sums_len rs = fb_checksum_len b) by (symmetry; apply (bo_sums b Hb)).
  unfold FrameBuilder_encode_into, FrameBuilder_is_empty. fold rs md fl. unfold HEADER_LEN, DESCRIPTOR_LEN, check_len.
  pass_guard; [|decide_guard]. pass_guard; [|decide_guard]. pass_guard; [|decide_guard].
  rewrite slice_Ok by lia. cbn [rbind]. rewrite (Z.mul_comm (len rs) 64).
  destruct (encode_records_spec (fb_limits b) (len rs) md Hlim ltac:(lia) rs 0 (sub bytes 0 fl) (64 + 64 * len rs) md)
    as (b1 & He1 & Hl1 & _ & Hw1); try (rewrite ?len_sub by lia; fold pe; lia).
  { apply (bo_records b Hb). }
  rewrite len_sub in Hl1 by lia. fold pe in He1. rewrite He1. cbn [rbind]. rewrite fill0_Ok by lia. cbn [rbind].
  assert (Hlz : len (zeros (len b1 - pe)) = len b1 - pe) by (apply len_zeros; lia).
  set (b2 := splice b1 pe _). assert (Hl2 : len b2 = len b1) by (apply len_splice; lia).
  rewrite slice_Ok by lia. cbn [rbind].
  rewrite !wrap32_small by (unfold is_u32; lia).
  set (h := {| position := p; frame_len := fl; record_count := len rs; checksum_len := fb_checksum_len b; metadata_crc := crc32c (sub b2 64 md) |}).
  assert (Hmh : metadata_len h = md) by (unfold metadata_len, HEADER_LEN, DESCRIPTOR_LEN; simpl; lia).
  assert (Hh : header_ok (fb_limits b) h).
  { unfold header_ok. rewrite Hmh. simpl. unfold is_u32. repeat split; try lia; apply wrap32_range. }
  destruct (FrameHeader_encode_spec h (fb_limits b) b2 Hp Hh ltac:(lia)) as (b3 & He3 & Hl3 & Hag3 & Hdec3).
  rewrite He3. cbn [rbind]. rewrite copy_at_Ok by lia. cbn [rbind]. set (b4 := splice bytes 0 b3).
  assert (Hl4 : len b4 = len bytes) by (apply len_splice; lia).
  assert (Hag4 : forall x y, 0 <= x -> y <= fl -> sub b4 x y = sub b3 x y).
  { intros x y Hx Hy. unfold b4. rewrite sub_splice_inside by lia. rewrite !Z.sub_0_r. reflexivity. }
  exists b4, h, (layout rs (64 + 64 * len rs) md). split; [reflexivity|]. split; [|split; [reflexivity|]; split; [assumption|]; split; [|auto]].
  2:{ intros x y Hx. unfold b4. apply sub_splice_after; lia. }
  assert (Hag : forall x y, 64 <= x -> y <= pe -> sub b4 x y = sub b1 x y).
  { intros x y Hx Hy. rewrite Hag4, Hag3 by lia. unfold b2. apply sub_splice_before; lia. }
  constructor; try assumption.
  - rewrite <- Hdec3. apply FrameHeader_decode_ext; [lia | lia | apply Hag4; lia].
  - simpl. lia.
  - rewrite Hmh. simpl. rewrite Hag4, Hag3 by lia. reflexivity.
  - unfold len. rewrite length_layout. reflexivity.
  - rewrite length_map, length_layout. reflexivity.
  - intros i v d Hv Hd. rewrite list_lookup_fmap in Hv. destruct (rs !! i) as [r|] eqn:Hr; [|discriminate]. injection Hv as <-.
    pose proof (lookup_lt_Some _ _ _ Hr). pose proof (Forall_lookup_1 _ _ _ _ (bo_records b Hb) Hr) as (_ & _ & Hvl & _).
    pose proof (len_nonneg (in_value r)). split.
    + eapply (written_agree (len rs) md b1); [unfold len; lia | | | | | exact Hag | apply (Hw1 i r d Hr Hd)].
      * eapply layout_all_placed; try apply Hd; try (apply (bo_records b Hb)); auto; fold pe; lia.
      * lia.
      * lia.
      * assumption.
    + destruct (layout_descriptor _ _ _ _ _ _ Hr Hd) as (va & ca & ->). simpl. split; [|reflexivity].
      symmetry. apply wrap32_small. unfold is_u32. lia.
  - rewrite Hmh. apply layout_directory; auto; try (simpl; fold pe; lia).
    apply (bo_records b Hb).
Qed.

(** What identifies a record apart from its value. *)
Definition record_id (d : RecordDescriptor) : ChunkId * Z * RecordKind := (key d, lsn d, kind d).
Definition input_id (r : Input) : ChunkId * Z * RecordKind := (in_key r, in_lsn r, in_kind r).

Lemma layout_ids rs : forall cat e, map record_id (layout rs cat e) = map input_id rs.
Proof.
  induction rs as [|r rs IH]; intros cat e; [reflexivity|]. cbn [layout].
  destruct (place e (len (in_value r))). simpl. f_equal. apply IH.
Qed.

(** C29: a nonempty builder encodes into any buffer and position with enough room, the
    encoded frame decodes at that position to the records pushed, in order, with their keys,
    sequence numbers, kinds and values, and the bytes behind the frame are left alone. *)
Theorem frame_roundtrip (b : FrameBuilder) (p : FramePosition) (bytes : list byte)
  (Hb : builder_ok b) (Hne : fb_records b <> []) (Hp : position_ok p)
  (Hav : FrameBuilder_encoded_len b <= available p) (Hlen : FrameBuilder_encoded_len b <= len bytes) :
  exists bytes' h f rs,
    FrameBuilder_encode_into b p bytes = Ok (bytes', h) /\
    Frame_decode bytes' (fb_limits b) p = Ok f /\ md_header (frame_metadata f) = h /\
    frame_len h = FrameBuilder_encoded_len b /\
    Metadata_records (frame_metadata f) = Ok rs /\
    map (fun r => record_id (descriptor r)) rs = map input_id (fb_records b) /\
    (forall i r, fb_records b !! i = Some r ->
       Frame_value f (Z.of_nat i) = Ok (if is_tombstone (in_kind r) then None else Some (in_value r))) /\
    len bytes' = len bytes /\
    sub bytes' (FrameBuilder_encoded_len b) (len bytes) = sub bytes (FrameBuilder_encoded_len b) (len bytes).
Proof.
  destruct (encode_into_image b p bytes Hb Hne Hp Hav Hlen) as (bytes' & h & ds & He & Him & Hds & Hl & Htail & Hfl & Hpos).
  pose proof (image_metadata_ok _ _ _ _ _ _ Him) as Hok.
  exists bytes', h, (image_frame bytes' h), (imap (fun i d => view_of (image_metadata bytes' h) (Z.of_nat i) d) ds).
  split; [assumption|]. split; [eapply image_frame_decode; eassumption|]. split; [reflexivity|]. split; [assumption|].
  split; [eapply metadata_ok_records; eassumption|]. split; [|split; [|split; [assumption | apply Htail; lia]]].
  - pose proof (map_descriptor_imap (image_metadata bytes' h) 0 ds) as Hm. cbn [Z.add] in Hm.
    rewrite <- (map_map descriptor record_id). setoid_rewrite Hm. rewrite Hds. apply layout_ids.
  - intros i r Hr. assert (exists d, ds !! i = Some d) as [d Hd].
    { apply lookup_lt_is_Some_2. rewrite Hds, length_layout. eapply lookup_lt_Some; eassumption. }
    pose proof Hd as Hd'. rewrite Hds in Hd'. destruct (layout_descriptor _ _ _ _ _ _ Hr Hd') as (va & ca & Hdd).
    rewrite (image_frame_value _ _ _ _ _ _ Him i (in_value r) d); [rewrite Hdd; reflexivity | | assumption].
    rewrite list_lookup_fmap, Hr. reflexivity.
Qed.
End WithCrc.

(** A value and a tombstone in one page. *)
Definition sample_limits : FrameLimits := {| max_frame_len := 8192; max_value_len := 4096 |}.
Definition sample_position : FramePosition := {| segment_seq := 7; offset := 4096; available := 8192 |}.
Definition sample_value : Input :=
  {| in_key := zeros 16; in_lsn := 1; in_kind := Data; in_value := [Byte.x2a; Byte.x2b] |}.
Definition sample_tombstone : Input := {| in_key := zeros 16; in_lsn := 2; in_kind := Tombstone; in_value := [] |}.
Definition sample_builder : FrameBuilder :=
  appended (appended (FrameBuilder_new sample_limits) sample_value) sample_tombstone.

Lemma sample_limits_ok : limits_ok sample_limits.
Proof. repeat split; (reflexivity || (vm_compute; discriminate)). Qed.

Lemma sample_position_ok : position_ok sample_position.
Proof. repeat split; (reflexivity || (vm_compute; discriminate)). Qed.

Lemma sample_builder_ok : builder_ok sample_builder.
Proof.
  assert (H1 : input_ok sample_limits sample_value) by (repeat split; (reflexivity || discriminate || (vm_compute; discriminate))).
  assert (H2 : input_ok sample_limits sample_tombstone) by (repeat split; (reflexivity || (vm_compute; discriminate))).
  pose proof (FrameBuilder_new_ok _ sample_limits_ok) as H0.
  pose proof (appended_ok _ _ H0 H1 ltac:(vm_compute; discriminate)) as H3.
  exact (appended_ok _ _ H3 H2 ltac:(vm_compute; discriminate)).
Qed.

Lemma frame_roundtrip_witness :
  exists bytes' h f,
    FrameBuilder_encode_into (C := crc_ref) sample_builder sample_position (zeros 4096) = Ok (bytes', h) /\
    Frame_decode bytes' sample_limits sample_position = Ok f /\
    Frame_value f 0 = Ok (Some [Byte.x2a; Byte.x2b]) /\ Frame_value f 1 = Ok None.
Proof.
  destruct (frame_roundtrip (C := crc_ref) sample_builder sample_position (zeros 4096) sample_builder_ok
              ltac:(discriminate) sample_position_ok ltac:(vm_compute; discriminate) ltac:(vm_compute; discriminate))
    as (bytes' & h & f & rs & He & Hd & _ & _ & _ & _ & Hv & _).
  exists bytes', h, f. split; [exact He|]. split; [exact Hd|].
  split; [exact (Hv 0%nat sample_value eq_refl) | exact (Hv 1%nat sample_tombstone eq_refl)].
Defined.

(** A value one byte over the limit is refused. *)
Lemma admission_exact_witness :
  admit_input sample_builder {| in_key := zeros 16; in_lsn := 3; in_kind := Data; in_value := zeros 4097 |} =
    Err (frame.ValueTooLarge 4097 4096).
Proof.
  pose proof (admission_exact sample_builder {| in_key := zeros 16; in_lsn := 3; in_kind := Data; in_value := zeros 4097 |}
    sample_builder_ok eq_refl ltac:(split; reflexivity || (vm_compute; discriminate)) ltac:(discriminate)) as H.
  destruct (admit_input sample_builder _) as [b'|e|] eqn:Ha; [exfalso; revert Ha; vm_compute; discriminate | |destruct H].
  destruct e; try (exfalso; exact H); [destruct H as (-> & -> & _); reflexivity|].
  exfalso. revert Ha. vm_compute. discriminate.
Defined.
