(* ===== verification/FramePrepared.v ===== *)
(** * Prepared frames round-trip

    A prepared frame exposes its value region before it is finished: whatever
    the caller put there is what the finished frame decodes to. *)

From S2P Require Import Prelude Align Checksum ChunkId Codec FrameFormat FrameDecode FrameDecodeProofs.
From S2P Require Import Checksum FrameBuilder FrameBuilderProofs FrameRoundtrip.

(** Sizes of the frame prepared for a value of [vl] bytes. *)
Definition prepared_ok (limits : FrameLimits) (f : PreparedFrame) : Prop :=
  let vl := pf_value_len f in let va := pf_value_at f in let l := len (pf_bytes f) in
  0 <= vl <= max_value_len limits /\ 0 < l <= max_frame_len limits /\ l mod 4096 = 0 /\
  128 + 4 * block_count vl <= l /\
  (if vl =? 0 then va = 0 else va mod 8 = 0 /\ 128 + 4 * block_count vl <= va /\ va + vl <= l).

Section WithCrc.
Context {C : CrcFast} (limits : FrameLimits) (Hlim : limits_ok limits).

Lemma PreparedFrame_new_ok vl bytes f :
  is_u32 vl -> PreparedFrame_new limits vl bytes = Ok f ->
  prepared_ok limits f /\ pf_value_len f = vl /\ PreparedFrame_required_len limits vl = Ok (len (pf_bytes f)).
Proof.
  unfold PreparedFrame_new. intros Hv H. apply rbind_Ok_inv in H as (l & Hl & H). apply rbind_Ok_inv in H as (u & Hg & H).
  clear Hg u. cbv zeta in H. apply rbind_Ok_inv in H as (b & Hb & H). injection H as <-. apply slice_inv in Hb as (H0 & Hle & ->).
  cbn [pf_bytes pf_value_len]. rewrite len_sub, Z.sub_0_r by lia. split; [|auto].
  destruct Hlim as (Hf & _ & Hmv). unfold is_u32 in *. pose proof (block_count_bounds vl ltac:(lia)) as Hbc.
  unfold PreparedFrame_required_len, HEADER_LEN, DESCRIPTOR_LEN in *. inv_ok. boolp. unfold prepared_ok.
  cbn [pf_bytes pf_value_len pf_value_at]. rewrite len_sub, Z.sub_0_r by lia.
  destruct (align_up_page (64 + 64 + 4 * block_count vl) ltac:(lia)) as (q & Hq & Hqb). rewrite Hq in *.
  destruct (align_up_page (4096 * q + vl) ltac:(lia)) as (q' & Hq' & Hqb'). rewrite Hq' in *.
  destruct (Z.eqb_spec vl 0) as [Hz|Hz]; subst l.
  - rewrite Hz in *. change (block_count 0) with 0 in *. unfold PAGE_SIZE in *. repeat split; lia.
  - repeat split; try lia; dlia.
Qed.

Definition prepared_descriptor (f : PreparedFrame) (k : ChunkId) (n : Z) : RecordDescriptor :=
  {| key := k; lsn := n; value_offset := pf_value_at f; value_len := pf_value_len f;
     checksum_offset := if block_count (pf_value_len f) =? 0 then 0 else 128;
     checksum_count := block_count (pf_value_len f); kind := Data |}.

(** The padding writes touch neither the metadata nor the value. *)
Lemma prepared_padding (b : list byte) (md va vl : Z) :
  128 <= md <= len b -> (if vl =? 0 then va = 0 else md <= va /\ va + vl <= len b) -> 0 <= vl ->
  exists b', (if vl =? 0 then fill0 b md (len b)
              else let? b := fill0 b md va in fill0 b (va + vl) (len b)) = @Ok frame.Error _ b' /\
    len b' = len b /\ (forall x y, 0 <= x -> y <= md -> sub b' x y = sub b x y) /\ sub b' va (va + vl) = sub b va (va + vl).
Proof.
  intros Hmd Hc Hv. destruct (Z.eqb_spec vl 0) as [Hz|Hz].
  - subst vl va. rewrite fill0_Ok by lia. eexists. split; [reflexivity|].
    assert (Hlz : len (zeros (len b - md)) = len b - md) by (apply len_zeros; lia).
    split; [apply len_splice; lia|]. split; [intros; apply sub_splice_before; lia|]. rewrite Z.add_0_r, !sub_empty. reflexivity.
  - rewrite fill0_Ok by lia. cbn [rbind]. assert (Hlz : len (zeros (va - md)) = va - md) by (apply len_zeros; lia).
    set (b1 := splice b md _). assert (Hl1 : len b1 = len b) by (apply len_splice; lia). rewrite fill0_Ok by lia.
    assert (Hlz2 : len (zeros (len b1 - (va + vl))) = len b1 - (va + vl)) by (apply len_zeros; lia).
    eexists. split; [reflexivity|]. split; [rewrite len_splice; lia|]. split.
    + intros x y Hx Hy. rewrite sub_splice_before by lia. unfold b1. apply sub_splice_before; lia.
    + rewrite sub_splice_before by lia. unfold b1. apply sub_splice_after; lia.
Qed.

Lemma write_checksums_any bytes at_ va vl value :
  0 <= vl < 2 ^ 32 -> 0 <= at_ -> sub bytes va (va + vl) = value -> len value = vl ->
  (vl <> 0 -> va + vl <= len bytes /\ at_ + 4 * block_count vl <= va) -> at_ <= len bytes ->
  write_checksums bytes at_ va vl = Ok (splice bytes at_ (sums_bytes (block_checksums value)), at_ + 4 * block_count vl).
Proof.
  intros Hv Ha Hval Hlv Hnz Hle. destruct (Z.eq_dec vl 0) as [Hz|Hz].
  - unfold write_checksums. rewrite Hz, Z.eqb_refl. destruct value; [|rewrite len_cons in Hlv; pose proof (len_nonneg value); lia].
    change (sums_bytes (block_checksums [])) with (@nil byte). rewrite splice_nil by lia. change (block_count 0) with 0.
    rewrite Z.mul_0_r, Z.add_0_r. reflexivity.
  - specialize (Hnz Hz). apply write_checksums_spec; auto; lia.
Qed.

Lemma prepared_finish_image f p k n v :
  prepared_ok limits f -> position_ok p -> chunk_id_ok k -> is_u64 n -> len (pf_bytes f) <= available p ->
  sub (pf_bytes f) (pf_value_at f) (pf_value_at f + pf_value_len f) = v -> len v = pf_value_len f ->
  exists out h, PreparedFrame_finish f p k n = Ok out /\
    image limits p out h [prepared_descriptor f k n] [v] /\ frame_len h = len (pf_bytes f) /\ len out = len (pf_bytes f).
Proof.
  intros (Hvl & Hl & Hlm & Hmdl & Hgeo) Hp Hk Hn Hav Hv Hlv. pose proof Hlim as (Hf & Hfm & Hmv).
  unfold PreparedFrame_finish, check_len, HEADER_LEN, DESCRIPTOR_LEN. change (64 + 64) with 128.
  set (vl := pf_value_len f) in *. set (va := pf_value_at f) in *. set (b0 := pf_bytes f) in *.
  pose proof (block_count_bounds vl ltac:(lia)) as Hbc. pose proof (block_count_zero vl ltac:(lia)) as Hbz. set (cnt := block_count vl) in *.
  assert (Hva : 0 <= va < 2 ^ 32) by (destruct (vl =? 0); lia).
  rewrite (wrap32_small va), (wrap32_small vl), (wrap32_small (cnt * 4)) by (unfold is_u32; lia).
  pass_guard; [|decide_guard]. change {| key := k; lsn := n; value_offset := va; value_len := vl;
    checksum_offset := if cnt =? 0 then 0 else 128; checksum_count := cnt; kind := Data |} with (prepared_descriptor f k n).
  set (d := prepared_descriptor f k n).
  assert (Hdok : descriptor_ok d).
  { unfold descriptor_ok, d, prepared_descriptor. simpl. fold vl va cnt. unfold is_u32. destruct (cnt =? 0); repeat split; auto; try apply Hn; lia. }
  destruct (RecordDescriptor_encode_spec d (sub b0 64 128) Hdok ltac:(rewrite len_sub; lia)) as (db & Henc & Hdl & Hdec).
  unfold on_slice. rewrite slice_Ok by lia. cbn [rbind]. rewrite Henc. cbn [rbind]. rewrite copy_at_Ok by lia. cbn [rbind].
  set (b1 := splice b0 64 db). assert (Hl1 : len b1 = len b0) by (apply len_splice; lia).
  assert (Hv1 : sub b1 va (va + vl) = v).
  { rewrite <- Hv. destruct (Z.eqb_spec vl 0) as [Hz|Hz]; [rewrite Hz, Hgeo, !sub_empty; reflexivity|]. apply sub_splice_after; lia. }
  rewrite (write_checksums_any b1 128 va vl v) by (auto; try lia; intros Hz; rewrite (proj2 (Z.eqb_neq vl 0)) in Hgeo by lia; lia).
  cbn [rbind]. assert (Hsl : len (sums_bytes (block_checksums v)) = 4 * cnt).
  { rewrite len_sums_bytes, len_block_checksums, Hlv by lia. reflexivity. }
  set (b2 := splice b1 128 _). assert (Hl2 : len b2 = len b1) by (apply len_splice; lia).
  destruct (prepared_padding b2 (128 + 4 * cnt) va vl ltac:(lia)) as (b3 & Hpad & Hl3 & Hag3 & Hv3);
    [destruct (vl =? 0); lia | lia |].
  rewrite Hpad. cbn [rbind]. rewrite slice_Ok by lia. cbn [rbind]. rewrite wrap32_small by (unfold is_u32; lia).
  set (h := {| position := p; frame_len := len b3; record_count := 1; checksum_len := cnt * 4; metadata_crc := crc32c (sub b3 64 (128 + 4 * cnt)) |}).
  assert (Hmh : metadata_len h = 128 + 4 * cnt) by (unfold metadata_len, HEADER_LEN, DESCRIPTOR_LEN; simpl; lia).
  assert (Hh : header_ok limits h).
  { unfold header_ok. rewrite Hmh. simpl. unfold is_u32. rewrite Hl3, Hl2, Hl1. repeat split; try lia; try apply wrap32_range. dlia. }
  destruct (FrameHeader_encode_spec h limits b3 Hp Hh ltac:(lia)) as (b4 & He4 & Hl4 & Hag4 & Hdec4).
  exists b4, h. split; [assumption|]. split; [|simpl; lia].
  assert (Hw : written b4 0 v d).
  { unfold written. change (64 + 64 * 0) with 64. rewrite Hag4, Hag3 by lia. change (64 + 64) with 128. unfold b2.
    rewrite sub_splice_before by lia. unfold b1. rewrite sub_splice_same by lia. split; [assumption|].
    unfold d, prepared_descriptor. cbn [value_offset value_len checksum_offset checksum_count]. fold vl va cnt. split.
    - destruct (Z.eqb_spec vl 0) as [Hz|Hz].
      + rewrite Hz, Hgeo, sub_empty in *. assumption.
      + rewrite Hag4, Hv3 by lia. unfold b2. rewrite sub_splice_after by lia. assumption.
    - destruct (Z.eqb_spec cnt 0) as [Hz|Hz].
      + rewrite Hz, sub_empty. symmetry. assert (v = []) as -> by (destruct v; [reflexivity | rewrite len_cons in Hlv; pose proof (len_nonneg v); lia]). reflexivity.
      + rewrite Hag4, Hag3 by lia. unfold b2. apply sub_splice_same; lia. }
  constructor; try assumption; try reflexivity.
  - simpl. lia.
  - rewrite Hmh. simpl. apply f_equal. apply Hag4. lia.
  - intros [|i] v' d' Hv' Hd'; [|discriminate]. injection Hv' as <-. injection Hd' as <-.
    split; [assumption|]. split; [exact Hlv|]. rewrite Hlv. reflexivity.
  - rewrite Hmh. unfold d, prepared_descriptor. cbn [directory_ok value_len value_offset checksum_offset checksum_count kind record_count h]. fold vl va cnt.
    split; [lia|]. split; [discriminate|]. destruct (Z.eqb_spec vl 0) as [Hz|Hz].
    + rewrite (proj2 Hbz Hz). cbn [Z.eqb]. rewrite Hmh, (proj2 Hbz Hz). repeat split; auto; lia.
    + rewrite (proj2 (Z.eqb_neq cnt 0)) by lia. simpl. rewrite Hmh. repeat split; lia.
Qed.

Lemma prepared_fill f v :
  prepared_ok limits f -> len v = pf_value_len f ->
  exists f', PreparedFrame_fill f v = Ok f' /\ prepared_ok limits f' /\ len (pf_bytes f') = len (pf_bytes f) /\
    pf_value_len f' = pf_value_len f /\ pf_value_at f' = pf_value_at f /\
    sub (pf_bytes f') (pf_value_at f') (pf_value_at f' + pf_value_len f') = v.
Proof.
  intros Hok Hlv. pose proof Hok as (Hvl & Hl & _ & Hmd & Hgeo). destruct Hlim as (Hf & _ & Hmv).
  pose proof (block_count_bounds (pf_value_len f) ltac:(lia)).
  assert (Hin : 0 <= pf_value_at f /\ pf_value_at f + pf_value_len f <= len (pf_bytes f)) by (destruct (Z.eqb_spec (pf_value_len f) 0); lia).
  unfold PreparedFrame_fill. rewrite slice_Ok by lia. cbn [rbind]. rewrite copy_at_Ok by lia. cbn [rbind].
  eexists. split; [reflexivity|]. unfold prepared_ok in *. cbn [pf_bytes pf_value_at pf_value_len].
  rewrite len_splice by lia. repeat (split; [tauto|]). apply sub_splice_same; lia.
Qed.

(** A buffer accepted for a prepared value, filled with any value of that length and
    finished at a position with room, decodes to one data record with that key, sequence number and
    value; the frame has exactly the length [required_len] announced. *)
Theorem prepared_roundtrip (vl : Z) (bytes : list byte) (f : PreparedFrame) (p : FramePosition) (k : ChunkId) (n : Z) (v : list byte)
  (Hv32 : is_u32 vl) (Hnew : PreparedFrame_new limits vl bytes = Ok f) (Hlv : len v = vl)
  (Hp : position_ok p) (Hk : chunk_id_ok k) (Hn : is_u64 n) (Hav : len (pf_bytes f) <= available p) :
  exists f' out fr rs,
    PreparedFrame_fill f v = Ok f' /\ PreparedFrame_finish f' p k n = Ok out /\
    PreparedFrame_required_len limits vl = Ok (len out) /\
    Frame_decode out limits p = Ok fr /\ frame_bytes fr = out /\
    Metadata_records (frame_metadata fr) = Ok rs /\
    map (fun r => record_id (descriptor r)) rs = [(k, n, Data)] /\
    Frame_value fr 0 = Ok (Some v).
Proof.
  destruct (PreparedFrame_new_ok vl bytes f Hv32 Hnew) as (Hok & Hvl & Hreq).
  destruct (prepared_fill f v Hok ltac:(congruence)) as (f' & Hfill & Hok' & Hlen' & Hvl' & _ & Hval).
  destruct (prepared_finish_image f' p k n v Hok' Hp Hk Hn ltac:(lia) Hval ltac:(congruence)) as (out & h & Hfin & Him & Hfl & Hlo).
  pose proof (image_metadata_ok _ _ _ _ _ _ Him) as Hmok.
  eexists f', out, (image_frame out h), _. split; [assumption|]. split; [assumption|]. split; [congruence|].
  split; [eapply image_frame_decode; eassumption|]. split; [simpl; rewrite Hfl, <- Hlo; apply sub_all|].
  split; [eapply metadata_ok_records; eassumption|]. split; [reflexivity|].
  exact (image_frame_value _ _ _ _ _ _ Him 0%nat v _ eq_refl eq_refl).
Qed.
End WithCrc.

Lemma prepared_roundtrip_witness :
  exists out fr, Frame_decode (C := crc_ref) out sample_limits sample_position = Ok fr /\
    Frame_value fr 0 = Ok (Some [Byte.x01; Byte.x02; Byte.x03]).
Proof.
  assert (Hnew : exists f, PreparedFrame_new sample_limits 3 (zeros 8192) = Ok f).
  { unfold PreparedFrame_new. change (PreparedFrame_required_len sample_limits 3) with (@Ok frame.Error _ 8192). cbn [rbind].
    rewrite (len_zeros 8192), slice_Ok by (rewrite ?len_zeros; lia). eexists. reflexivity. }
  destruct Hnew as [f Hnew].
  assert (Hl : len (pf_bytes f) <= available sample_position).
  { destruct (PreparedFrame_new_ok sample_limits sample_limits_ok 3 _ f ltac:(unfold is_u32; lia) Hnew) as (_ & _ & H).
    change (PreparedFrame_required_len sample_limits 3) with (@Ok frame.Error _ 8192) in H. injection H as <-. simpl. lia. }
  destruct (prepared_roundtrip (C := crc_ref) sample_limits sample_limits_ok 3 (zeros 8192) f sample_position (zeros 16) 9
              [Byte.x01; Byte.x02; Byte.x03] ltac:(unfold is_u32; lia) Hnew eq_refl sample_position_ok eq_refl
              ltac:(unfold is_u64; lia) Hl) as (f' & out & fr & rs & _ & _ & _ & Hd & _ & _ & _ & Hv).
  exists out, fr. split; [exact Hd | exact Hv].
Defined.
