(* ===== verification/SegmentFormat.v ===== *)
(** * Segment headers and footer trailers (moat-engine/src/segment)

    Physical identity, the one-page allocation header, the 64-byte trailer
    that commits a sealed segment, and the errors of the segment layer
    (mod.rs, error.rs, header.rs and the trailer of footer.rs). *)

From S2P Require Import Prelude Align Checksum ChunkId Codec FrameFormat.

Module segment.
Inductive Error :=
| Allocation
| InvalidArgument (what : string)
| Sealed
| Full (required capacity : Z)
| BufferTooSmall (required available : Z)
| Truncated (required available : Z)
| UnsupportedVersion (version : Z)
| Corrupt (what : string)
| Frame (offset : Z) (source : frame.Error).
End segment.

Definition segment_result (A : Type) : Type := res segment.Error A.

Definition FORMAT_VERSION : Z := 1.
Definition HEADER_MAGIC : list byte := Eval vm_compute in String.list_byte_of_string "MOATSEG1".
Definition FOOTER_MAGIC : list byte := Eval vm_compute in String.list_byte_of_string "MOATFTR1".
Definition FOOTER_TRAILER_LEN : Z := 64.
Definition MIN_FRAME_METADATA_LEN : Z := HEADER_LEN + DESCRIPTOR_LEN.

Definition footer_len (metadata_len : Z) : Z := align_up (FOOTER_TRAILER_LEN + metadata_len) PAGE_SIZE.

Record SegmentId := { device_id : list byte; segment_no : Z; sequence : Z }.
Record Seal := { seal_data_end : Z; seal_frame_count : Z; seal_metadata_len : Z }.
Record SegmentHeader := { id : SegmentId; segment_len : Z; seal : option Seal }.

#[export] Instance SegmentId_eq_dec : EqDecision SegmentId.
Proof. solve_decision. Defined.
#[export] Instance Seal_eq_dec : EqDecision Seal.
Proof. solve_decision. Defined.
#[export] Instance SegmentHeader_eq_dec : EqDecision SegmentHeader.
Proof. solve_decision. Defined.

Definition SegmentHeader_new (i : SegmentId) (l : Z) : segment_result SegmentHeader :=
  fail_if ((sequence i =? 0) || (l <? 2 * PAGE_SIZE) || negb (is_aligned l PAGE_SIZE))
    (segment.InvalidArgument "invalid segment length or allocation incarnation") ;?
  Ok {| id := i; segment_len := l; seal := None |}.

Definition is_sealed (h : SegmentHeader) : bool := match seal h with Some _ => true | None => false end.

Definition footer_range (h : SegmentHeader) : option (Z * Z) :=
  match seal h with
  | Some s => Some (segment_len h - wrap32 (footer_len (seal_metadata_len s)), segment_len h)
  | None => None
  end.

Definition data_end (h : SegmentHeader) : option Z :=
  match seal h with Some s => Some (seal_data_end s) | None => None end.

Definition SegmentHeader_position (h : SegmentHeader) (off : Z) : frame_result FramePosition :=
  let stop := match seal h with Some s => seal_data_end s | None => segment_len h end in
  FramePosition_new (sequence (id h)) off stop.

Section WithCrc.
Context {C : CrcFast}.

Definition validate_prefix (bytes magic : list byte) : segment_result unit :=
  let? m := slice bytes 0 8 in
  fail_if (negb (bytes_eqb m magic)) (segment.Corrupt "segment metadata magic") ;?
  let? stored := u32_at bytes 12 in
  let? crc := crc_with_zeroed_checksum bytes in
  fail_if (negb (stored =? crc)) (segment.Corrupt "segment metadata checksum") ;?
  let? version := u32_at bytes 8 in
  fail_if (negb (version =? FORMAT_VERSION)) (segment.UnsupportedVersion version).

Definition SegmentHeader_decode (bytes device : list byte) (no l : Z) : segment_result SegmentHeader :=
  let? bytes := ok_or (get_to bytes PAGE_SIZE) (segment.Truncated PAGE_SIZE (len bytes)) in
  validate_prefix bytes HEADER_MAGIC ;?
  let? d := slice bytes 16 32 in
  let? n := u32_at bytes 32 in
  let? sl := u32_at bytes 36 in
  fail_if (negb (bytes_eqb d device) || negb (n =? no) || negb (sl =? l)) (segment.Corrupt "segment identity or length") ;?
  let? seq := u64_at bytes 40 in
  let? header := map_err (fun _ => segment.Corrupt "segment geometry")
                   (SegmentHeader_new {| device_id := device; segment_no := no; sequence := seq |} l) in
  let? rest := slice bytes 48 (len bytes) in
  fail_if (any_nonzero rest) (segment.Corrupt "reserved allocation header bytes") ;?
  Ok header.

(** Rewrites the first page of [bytes]; an error leaves it alone. *)
Definition SegmentHeader_encode_into (h : SegmentHeader) (bytes : list byte) : segment_result (list byte) :=
  fail_if (is_sealed h) (segment.InvalidArgument "seal state is encoded only in the footer trailer") ;?
  let? page := ok_or (get_to bytes PAGE_SIZE) (segment.BufferTooSmall PAGE_SIZE (len bytes)) in
  let? page := fill0 page 0 (len page) in
  let? page := copy_at page 0 HEADER_MAGIC in
  let? page := put_u32 page 8 FORMAT_VERSION in
  let? page := copy_at page 16 (device_id (id h)) in
  let? page := put_u32 page 32 (segment_no (id h)) in
  let? page := put_u32 page 36 (segment_len h) in
  let? page := put_u64 page 40 (sequence (id h)) in
  let? crc := crc_with_zeroed_checksum page in
  let? page := put_u32 page 12 crc in
  copy_at bytes 0 page.

(** ** The footer trailer *)

Record FooterTrailer := { ft_header : SegmentHeader; ft_checksum : Z }.

Definition with_seal (h : SegmentHeader) (s : Seal) : SegmentHeader :=
  {| id := id h; segment_len := segment_len h; seal := Some s |}.

Definition seal_geometry_bad (s : Seal) (stored_len segment_len : Z) : bool :=
  let l := footer_len (seal_metadata_len s) in
  (seal_data_end s <? PAGE_SIZE) || negb (is_aligned (seal_data_end s) PAGE_SIZE)
  || negb (seal_metadata_len s mod 4 =? 0) || negb (l =? stored_len)
  || (seal_data_end s + l >? segment_len)
  || negb (Bool.eqb (seal_frame_count s =? 0) (seal_data_end s =? PAGE_SIZE))
  || negb (Bool.eqb (seal_frame_count s =? 0) (seal_metadata_len s =? 0))
  || (seal_frame_count s * PAGE_SIZE >? seal_data_end s - PAGE_SIZE)
  || (seal_frame_count s * MIN_FRAME_METADATA_LEN >? seal_metadata_len s)
  || (seal_metadata_len s >? seal_data_end s - PAGE_SIZE).

Definition FooterTrailer_decode (tail : list byte) (segment_len : Z) : segment_result FooterTrailer :=
  let? at_ := ok_or (if len tail <? FOOTER_TRAILER_LEN then None else Some (len tail - FOOTER_TRAILER_LEN))
                (segment.Truncated FOOTER_TRAILER_LEN (len tail)) in
  let? bytes := slice tail at_ (len tail) in
  validate_prefix bytes FOOTER_MAGIC ;?
  let? d := slice bytes 16 32 in
  let? no := u32_at bytes 32 in
  let? seq := u64_at bytes 40 in
  let? header := map_err (fun _ => segment.Corrupt "footer segment geometry")
                   (SegmentHeader_new {| device_id := d; segment_no := no; sequence := seq |} segment_len) in
  let? de := u32_at bytes 36 in
  let? fc := u32_at bytes 48 in
  let? ml := u32_at bytes 52 in
  let s := {| seal_data_end := de; seal_frame_count := fc; seal_metadata_len := ml |} in
  let? stored_len := u32_at bytes 56 in
  fail_if (seal_geometry_bad s stored_len segment_len) (segment.Corrupt "sealed footer geometry") ;?
  let? sum := u32_at bytes 60 in
  Ok {| ft_header := with_seal header s; ft_checksum := sum |}.

(** [footer::checksum]: both checksum fields read as zero. *)
Definition footer_checksum (bytes : list byte) : segment_result Z :=
  let at_ := len bytes - FOOTER_TRAILER_LEN in
  let? a := slice bytes 0 (at_ + 12) in
  let? b := slice bytes (at_ + 16) (at_ + 60) in
  Ok (Crc32c_finalize (Crc32c_update (Crc32c_update (Crc32c_update (Crc32c_update Crc32c_new a) (zeros 4)) b) (zeros 4))).

Definition encode_trailer (trailer : list byte) (h : SegmentHeader) (flen : Z) : segment_result (list byte) :=
  let? s := expect (seal h) in
  let? t := copy_at trailer 0 FOOTER_MAGIC in
  let? t := put_u32 t 8 FORMAT_VERSION in
  let? t := copy_at t 16 (device_id (id h)) in
  let? t := put_u32 t 32 (segment_no (id h)) in
  let? t := put_u32 t 36 (seal_data_end s) in
  let? t := put_u64 t 40 (sequence (id h)) in
  let? t := put_u32 t 48 (seal_frame_count s) in
  let? t := put_u32 t 52 (seal_metadata_len s) in
  put_u32 t 56 (wrap32 flen).
End WithCrc.

(** ** Well-formed headers and seals *)

Definition id_ok (i : SegmentId) : Prop :=
  len (device_id i) = 16 /\ is_u32 (segment_no i) /\ 0 < sequence i < 2 ^ 64.

Definition geometry_ok (l : Z) : Prop := 8192 <= l < 2 ^ 32 /\ l mod 4096 = 0.

Definition seal_ok (l : Z) (s : Seal) : Prop :=
  4096 <= seal_data_end s < 2 ^ 32 /\ seal_data_end s mod 4096 = 0 /\
  0 <= seal_metadata_len s /\ seal_metadata_len s mod 4 = 0 /\ 0 <= seal_frame_count s /\
  seal_data_end s + footer_len (seal_metadata_len s) <= l /\
  (seal_frame_count s = 0 <-> seal_data_end s = 4096) /\ (seal_frame_count s = 0 <-> seal_metadata_len s = 0) /\
  seal_frame_count s * 4096 <= seal_data_end s - 4096 /\ seal_frame_count s * 128 <= seal_metadata_len s /\
  seal_metadata_len s <= seal_data_end s - 4096.

Definition segment_header_ok (h : SegmentHeader) : Prop :=
  id_ok (id h) /\ geometry_ok (segment_len h) /\ match seal h with Some s => seal_ok (segment_len h) s | None => True end.

Lemma len_HEADER_MAGIC : len HEADER_MAGIC = 8.
Proof. reflexivity. Qed.
Lemma len_FOOTER_MAGIC : len FOOTER_MAGIC = 8.
Proof. reflexivity. Qed.
#[export] Hint Rewrite len_HEADER_MAGIC len_FOOTER_MAGIC : moat_len.

Lemma footer_len_page ml : 0 <= ml < 2 ^ 62 -> exists q, footer_len ml = 4096 * q /\ 64 + ml <= footer_len ml < 64 + ml + 4096.
Proof.
  intros. unfold footer_len, FOOTER_TRAILER_LEN. destruct (align_up_page (64 + ml) ltac:(lia)) as (q & Hq & Hb). exists q. lia.
Qed.

Lemma footer_len_mono a b : 0 <= a <= b -> b < 2 ^ 62 -> footer_len a <= footer_len b.
Proof.
  intros. destruct (footer_len_page a ltac:(lia)) as (q & Hq & Hqb). destruct (footer_len_page b ltac:(lia)) as (r & Hr & Hrb). lia.
Qed.

Lemma SegmentHeader_new_Ok i l h : SegmentHeader_new i l = Ok h ->
  h = {| id := i; segment_len := l; seal := None |} /\ sequence i <> 0 /\ 8192 <= l /\ l mod 4096 = 0.
Proof.
  unfold SegmentHeader_new, PAGE_SIZE. rewrite is_aligned_page. intros. inv_ok. boolp. auto with lia.
Qed.

Lemma SegmentHeader_new_run i l : sequence i <> 0 -> 8192 <= l -> l mod 4096 = 0 ->
  SegmentHeader_new i l = Ok {| id := i; segment_len := l; seal := None |}.
Proof.
  intros. unfold SegmentHeader_new, PAGE_SIZE. rewrite is_aligned_page. pass_guard; [reflexivity|]. decide_guard.
Qed.

Lemma seal_geometry_bad_false s stored l :
  is_u32 (seal_metadata_len s) -> is_u32 (seal_data_end s) -> is_u32 (seal_frame_count s) ->
  seal_geometry_bad s stored l = false <-> seal_ok l s /\ stored = footer_len (seal_metadata_len s).
Proof.
  unfold is_u32. intros Hm Hd Hf. unfold seal_geometry_bad, seal_ok, PAGE_SIZE, MIN_FRAME_METADATA_LEN, HEADER_LEN, DESCRIPTOR_LEN.
  rewrite is_aligned_page. split.
  - intros H. boolp.
    repeat match goal with H : Bool.eqb _ _ = true |- _ => apply Bool.eqb_prop in H end.
    destruct (Z.eqb_spec (seal_frame_count s) 0), (Z.eqb_spec (seal_data_end s) 4096), (Z.eqb_spec (seal_metadata_len s) 0);
      try discriminate; lia.
  - intros ((H1 & H2 & H3 & H4 & H5 & H6 & H7 & H8 & H9 & H10 & H11) & ->).
    rewrite !Z.eqb_refl, H4, H2. simpl.
    assert (Bool.eqb (seal_frame_count s =? 0) (seal_data_end s =? 4096) = true).
    { apply Bool.eqb_true_iff. destruct (Z.eqb_spec (seal_frame_count s) 0), (Z.eqb_spec (seal_data_end s) 4096); lia || reflexivity. }
    assert (Bool.eqb (seal_frame_count s =? 0) (seal_metadata_len s =? 0) = true).
    { apply Bool.eqb_true_iff. destruct (Z.eqb_spec (seal_frame_count s) 0), (Z.eqb_spec (seal_metadata_len s) 0); lia || reflexivity. }
    decide_guard.
Qed.

(** ** Segment metadata round trips

    The allocation header and the trailer read back what was written, and
    reading untrusted metadata never panics. *)

Section WithCrc.
Context {C : CrcFast}.

Lemma validate_prefix_safe bytes magic : 64 <= len bytes -> safe (validate_prefix bytes magic).
Proof.
  intros. unfold validate_prefix.
  safe_steps; try (apply safe_slice || apply safe_u32_at || apply safe_u64_at || apply safe_crc); lia.
Qed.

Lemma SegmentHeader_new_safe i l : safe (SegmentHeader_new i l).
Proof. unfold SegmentHeader_new. safe_steps. Qed.

Lemma SegmentHeader_decode_safe bytes device no l : safe (SegmentHeader_decode bytes device no l).
Proof.
  unfold SegmentHeader_decode. apply safe_rbind; [apply safe_ok_or|]. intros b Hb.
  apply ok_or_Ok, get_to_Some in Hb as [Hl ->]. unfold PAGE_SIZE in *.
  assert (Hp : len (sub bytes 0 4096) = 4096) by (rewrite len_sub; lia).
  safe_steps; try (apply safe_slice || apply safe_u32_at || apply safe_u64_at || apply validate_prefix_safe || apply safe_map_err, SegmentHeader_new_safe);
    rewrite ?Hp; lia.
Qed.

Lemma FooterTrailer_decode_safe tail l : safe (FooterTrailer_decode tail l).
Proof.
  unfold FooterTrailer_decode, FOOTER_TRAILER_LEN. apply safe_rbind; [apply safe_ok_or|]. intros at_ Ha. apply ok_or_Ok in Ha.
  destruct (Z.ltb_spec (len tail) 64) as [|Hl]; [discriminate|]. injection Ha as <-.
  rewrite slice_Ok by lia. cbn [rbind]. assert (Hb : len (sub tail (len tail - 64) (len tail)) = 64) by (rewrite len_sub; lia).
  safe_steps; try (apply safe_slice || apply safe_u32_at || apply safe_u64_at || apply validate_prefix_safe || apply safe_map_err, SegmentHeader_new_safe);
    rewrite ?Hb; lia.
Qed.

(** Storing the checksum in a page with magic and version makes its prefix valid. *)
Lemma validate_prefix_sealed b magic crc :
  64 <= len b -> sub b 0 8 = magic -> sub b 8 12 = le_split 4 1 -> crc_with_zeroed_checksum b = @Ok segment.Error _ crc ->
  validate_prefix (splice b 12 (le_split 4 crc)) magic = Ok tt.
Proof.
  intros Hl Hm Hv Hcrc. set (b' := splice b 12 _).
  assert (Hl' : len b' = len b) by (apply len_splice; len_lia).
  assert (Hr : is_u32 crc).
  { destruct (crc_zeroed_Ok (E := segment.Error) b ltac:(lia)) as (c & Hc & Hr). rewrite Hc in Hcrc. injection Hcrc as <-. assumption. }
  unfold validate_prefix, FORMAT_VERSION. rewrite slice_Ok by lia. cbn [rbind].
  assert (Hb0 : sub b' 0 8 = sub b 0 8) by (apply sub_splice_before; len_lia).
  rewrite Hb0, Hm, bytes_eqb_refl. cbn [negb fail_if rbind].
  rewrite (u32_at_field b' 12 crc) by (auto; try lia; apply sub_splice_same; len_lia). cbn [rbind].
  rewrite (crc_zeroed_ext b' b), Hcrc by (auto; try lia; first [apply sub_splice_before; len_lia | rewrite Hl'; apply sub_splice_after; len_lia]).
  cbn [rbind]. rewrite Z.eqb_refl. cbn [negb fail_if rbind].
  rewrite (u32_at_field b' 8 1) by (try lia; first [unfold is_u32; lia | rewrite <- Hv; apply sub_splice_before; len_lia]). reflexivity.
Qed.

Lemma SegmentHeader_encode_spec h bytes :
  segment_header_ok h -> seal h = None -> 4096 <= len bytes ->
  exists bytes', SegmentHeader_encode_into h bytes = Ok bytes' /\ len bytes' = len bytes /\
    (forall x y, 4096 <= x -> sub bytes' x y = sub bytes x y) /\
    SegmentHeader_decode bytes' (device_id (id h)) (segment_no (id h)) (segment_len h) = Ok h.
Proof.
  intros ((Hd & Hno & Hseq) & (Hg & Hgm) & _) Hs Hl. unfold is_u32 in Hno.
  unfold SegmentHeader_encode_into, is_sealed, put_u32, put_u64, PAGE_SIZE, FORMAT_VERSION. rewrite Hs. cbn [fail_if rbind].
  rewrite get_to_Ok by lia. cbn [ok_or rbind]. set (pg := sub bytes 0 4096). assert (Hpg : len pg = 4096) by (apply len_sub; lia).
  run_writes.
  match goal with |- context [crc_with_zeroed_checksum ?b] =>
    destruct (crc_zeroed_Ok (E := segment.Error) b ltac:(lia)) as (crc & Hcrc & Hcr); rewrite Hcrc; cbn [rbind];
    assert (Hvp : validate_prefix (splice b 12 (le_split 4 crc)) HEADER_MAGIC = Ok tt)
      by (apply validate_prefix_sealed; auto; [lia | read_writes; reflexivity | read_writes; reflexivity]) end.
  rewrite copy_at_Ok by len_lia. cbn [rbind]. remember (splice b5 12 (le_split 4 crc)) as page eqn:Hpage.
  assert (Hlp : len page = 4096) by (rewrite Hpage, len_splice; len_lia).
  rewrite copy_at_Ok by lia. eexists. split; [reflexivity|]. split; [rewrite len_splice; lia|].
  split; [intros x y Hx; apply sub_splice_after; lia|].
  unfold SegmentHeader_decode, PAGE_SIZE. rewrite get_to_Ok by (rewrite len_splice; lia). cbn [ok_or rbind].
  rewrite (sub_splice_same bytes 0 page) by lia. rewrite Hvp. cbn [rbind].
  rewrite slice_Ok by lia. cbn [rbind]. read_u32 (segment_no (id h)). read_u32 (segment_len h).
  pass_guard; [|replace (sub page 16 32) with (device_id (id h)) by (read_writes; reflexivity); rewrite bytes_eqb_refl, !Z.eqb_refl; reflexivity].
  read_u64 (sequence (id h)). rewrite SegmentHeader_new_run by (simpl; lia). cbn [map_err rbind].
  rewrite slice_Ok by lia. cbn [rbind]. pass_guard.
  - destruct h as [[] ? ?]; simpl in *; subst; reflexivity.
  - rewrite Hlp. read_writes. rewrite sub_zeros by lia. apply any_nonzero_zeros.
Qed.

(** The allocation header of an active segment, written into any buffer of at least a
    page, decodes against the same device, number and length to the header written, and the bytes
    behind the page are left alone. *)
Theorem segment_header_roundtrip (h : SegmentHeader) (bytes : list byte)
  (Hh : segment_header_ok h) (Hs : seal h = None) (Hl : 4096 <= len bytes) :
  exists bytes', SegmentHeader_encode_into h bytes = Ok bytes' /\ len bytes' = len bytes /\
    sub bytes' 4096 (len bytes) = sub bytes 4096 (len bytes) /\
    SegmentHeader_decode bytes' (device_id (id h)) (segment_no (id h)) (segment_len h) = Ok h.
Proof.
  destruct (SegmentHeader_encode_spec h bytes Hh Hs Hl) as (b & H1 & H2 & H3 & H4). exists b. auto with lia.
Qed.

(** ** Trailers *)

Lemma FooterTrailer_decode_Ok tail l t : geometry_ok l -> FooterTrailer_decode tail l = Ok t ->
  64 <= len tail /\ segment_header_ok (ft_header t) /\ segment_len (ft_header t) = l /\ is_u32 (ft_checksum t) /\
  exists s, seal (ft_header t) = Some s.
Proof.
  intros Hg. unfold FooterTrailer_decode, FOOTER_TRAILER_LEN. intros. inv_ok.
  destruct (Z.ltb_spec (len tail) 64) as [|Hl]; [discriminate|]. injection Hr as <-. subst t.
  apply SegmentHeader_new_Ok in Hr5 as (-> & Hseq & _). simpl.
  apply slice_inv in Hr2 as (_ & ? & ->). apply slice_inv in Hr0 as (_ & _ & ->).
  repeat match goal with H : u32_at _ _ = Ok _ |- _ => apply u32_at_range in H | H : u64_at _ _ = Ok _ |- _ => apply u64_at_range in H end.
  apply seal_geometry_bad_false in Hr10 as [Hsok _]; [|simpl; assumption..].
  assert (Hd : len (sub (sub tail (len tail - 64) (len tail)) 16 32) = 16) by (rewrite len_sub; lia).
  split; [lia|]. split; [|split; [reflexivity|]; split; [assumption | eauto]].
  unfold segment_header_ok, id_ok. simpl. unfold is_u64 in *. simpl in Hseq.
  split; [split; [assumption|]; split; [assumption | lia]|]. split; [exact Hg | exact Hsok].
Qed.

Lemma encode_trailer_spec t h s flen :
  len t = 64 -> seal h = Some s -> len (device_id (id h)) = 16 ->
  exists t', encode_trailer t h flen = Ok t' /\ len t' = 64 /\
    sub t' 0 8 = FOOTER_MAGIC /\ sub t' 8 12 = le_split 4 1 /\ sub t' 12 16 = sub t 12 16 /\
    sub t' 16 32 = device_id (id h) /\ sub t' 32 36 = le_split 4 (segment_no (id h)) /\
    sub t' 36 40 = le_split 4 (seal_data_end s) /\ sub t' 40 48 = le_split 8 (sequence (id h)) /\
    sub t' 48 52 = le_split 4 (seal_frame_count s) /\ sub t' 52 56 = le_split 4 (seal_metadata_len s) /\
    sub t' 56 60 = le_split 4 (wrap32 flen) /\ sub t' 60 64 = sub t 60 64.
Proof.
  intros Hl Hs Hd. unfold encode_trailer, put_u32, put_u64, FORMAT_VERSION. rewrite Hs. cbn [expect rbind]. run_writes.
  eexists. split; [reflexivity|]. split; [lia|]. repeat split; read_writes; reflexivity.
Qed.

(** A 64-byte trailer with these fields and a valid prefix decodes. *)
Lemma FooterTrailer_decode_fields pre t h s sum :
  len t = 64 -> segment_header_ok h -> seal h = Some s -> validate_prefix t FOOTER_MAGIC = Ok tt -> is_u32 sum ->
  sub t 16 32 = device_id (id h) -> sub t 32 36 = le_split 4 (segment_no (id h)) ->
  sub t 36 40 = le_split 4 (seal_data_end s) -> sub t 40 48 = le_split 8 (sequence (id h)) ->
  sub t 48 52 = le_split 4 (seal_frame_count s) -> sub t 52 56 = le_split 4 (seal_metadata_len s) ->
  sub t 56 60 = le_split 4 (footer_len (seal_metadata_len s)) -> sub t 60 64 = le_split 4 sum ->
  FooterTrailer_decode (pre ++ t) (segment_len h) = Ok {| ft_header := h; ft_checksum := sum |}.
Proof.
  intros Hl ((Hd & Hno & Hseq) & (Hg & Hgm) & Hsok) Hs Hvp Hsum F1 F2 F3 F4 F5 F6 F7 F8. rewrite Hs in Hsok.
  pose proof Hsok as (S1 & S2 & S3 & S4 & S5 & S6 & S7 & S8 & S9 & S10 & S11).
  destruct (footer_len_page (seal_metadata_len s)) as (q & Hq & Hqb); [lia|].
  unfold FooterTrailer_decode, FOOTER_TRAILER_LEN. rewrite len_app, Hl. pose proof (len_nonneg pre).
  rewrite (proj2 (Z.ltb_ge _ _)) by lia. cbn [ok_or rbind]. rewrite slice_Ok by len_lia. cbn [rbind].
  rewrite sub_app_r by lia. replace (sub t _ _) with t by (rewrite <- (sub_all t) at 1; f_equal; lia).
  rewrite Hvp. cbn [rbind]. rewrite slice_Ok by lia. cbn [rbind]. rewrite F1.
  rewrite (u32_at_field t 32 (segment_no (id h))) by (auto; lia). cbn [rbind].
  rewrite (u64_at_field t 40 (sequence (id h))) by (unfold is_u64; auto; lia). cbn [rbind].
  rewrite SegmentHeader_new_run by (simpl; lia). cbn [map_err rbind].
  rewrite (u32_at_field t 36 (seal_data_end s)) by (unfold is_u32; auto; lia). cbn [rbind].
  rewrite (u32_at_field t 48 (seal_frame_count s)) by (unfold is_u32; auto; lia). cbn [rbind].
  rewrite (u32_at_field t 52 (seal_metadata_len s)) by (unfold is_u32; auto; lia). cbn [rbind].
  rewrite (u32_at_field t 56 (footer_len (seal_metadata_len s))) by (unfold is_u32; auto; lia). cbn [rbind].
  pass_guard; [|apply seal_geometry_bad_false; try (split; [exact Hsok | reflexivity]); unfold is_u32; simpl; lia].
  rewrite (u32_at_field t 60 sum) by (auto; lia). cbn [rbind]. unfold with_seal. simpl. destruct h as [[] ? ?], s; simpl in *; subst; reflexivity.
Qed.
End WithCrc.

(** A small active segment. *)
Definition sample_header : SegmentHeader :=
  {| id := {| device_id := zeros 16; segment_no := 3; sequence := 7 |}; segment_len := 65536; seal := None |}.

Lemma sample_header_ok : segment_header_ok sample_header.
Proof. repeat split; vm_compute; try discriminate; reflexivity. Qed.

Lemma segment_header_roundtrip_witness :
  exists bytes', SegmentHeader_encode_into (C := crc_ref) sample_header (zeros 4096) = Ok bytes' /\
    SegmentHeader_decode bytes' (zeros 16) 3 65536 = Ok sample_header.
Proof.
  destruct (segment_header_roundtrip (C := crc_ref) sample_header (zeros 4096) sample_header_ok eq_refl ltac:(vm_compute; discriminate))
    as (b & H1 & _ & _ & H2). exists b. split; [exact H1 | exact H2].
Defined.
