(* ===== verification/SegmentBuilder.v ===== *)
(** * Segment construction, footers and recovery (moat-engine/src/segment)

    Allocation accounting and footer encoding (builder.rs), footer validation
    in one pass and in bounded steps (footer.rs), and the frame scanner that
    recovers a segment without a usable footer (recovery.rs). *)

From S2P Require Import Prelude Align Checksum ChunkId Codec FrameFormat FrameDecode SegmentFormat.

Record SegmentBuilder := { sb_header : SegmentHeader; sb_data_end : Z; sb_frame_count : Z; sb_metadata : list byte }.

Definition SegmentBuilder_new (h : SegmentHeader) : segment_result SegmentBuilder :=
  fail_if (is_sealed h) segment.Sealed ;?
  Ok {| sb_header := h; sb_data_end := PAGE_SIZE; sb_frame_count := 0; sb_metadata := [] |}.

Definition SegmentBuilder_position (b : SegmentBuilder) (frame_len metadata_len : Z) : segment_result FramePosition :=
  fail_if (is_sealed (sb_header b)) segment.Sealed ;?
  fail_if ((frame_len =? 0) || (frame_len >? U32_MAX) || negb (is_aligned frame_len PAGE_SIZE)
           || (metadata_len <? MIN_FRAME_METADATA_LEN) || (metadata_len >? frame_len) || negb (metadata_len mod 4 =? 0))
    (segment.InvalidArgument "invalid frame or metadata length") ;?
  let required := sb_data_end b + frame_len + footer_len (len (sb_metadata b) + metadata_len) in
  fail_if (required >? segment_len (sb_header b)) (segment.Full required (segment_len (sb_header b))) ;?
  map_err (segment.Frame (sb_data_end b)) (SegmentHeader_position (sb_header b) (sb_data_end b)).

(** [reserved] is the outcome of [try_reserve]. *)
Definition SegmentBuilder_append (reserved : bool) (b : SegmentBuilder) (m : Metadata) : segment_result SegmentBuilder :=
  let frame := md_header m in
  let? p := SegmentBuilder_position b (frame_len frame) (len (md_bytes m)) in
  fail_if (negb (segment_seq (position frame) =? segment_seq p) || negb (offset (position frame) =? offset p))
    (segment.InvalidArgument "frame does not match the next segment position") ;?
  fail_if (negb reserved) segment.Allocation ;?
  Ok {| sb_header := sb_header b; sb_data_end := wrap32 (sb_data_end b + wrap32 (frame_len frame));
        sb_frame_count := wrap32 (sb_frame_count b + 1); sb_metadata := sb_metadata b ++ md_bytes m |}.

Definition SegmentBuilder_footer_len (b : SegmentBuilder) : Z := footer_len (len (sb_metadata b)).

Definition sealed_header (b : SegmentBuilder) : SegmentHeader :=
  with_seal (sb_header b)
    {| seal_data_end := sb_data_end b; seal_frame_count := sb_frame_count b;
       seal_metadata_len := wrap32 (len (sb_metadata b)) |}.

Record FooterEncoder {D : Type} := { fe_metadata : list byte; fe_header : SegmentHeader; fe_len : Z; fe_offset : Z; fe_checksum : D }.
Arguments FooterEncoder : clear implicits.

Section WithCrc.
Context {C : CrcFast}.

(** Returns the builder, the rewritten buffer and the sealed header. *)
Definition SegmentBuilder_seal_into (b : SegmentBuilder) (bytes : list byte)
  : segment_result (SegmentBuilder * list byte * SegmentHeader) :=
  fail_if (is_sealed (sb_header b)) segment.Sealed ;?
  let l := SegmentBuilder_footer_len b in
  let? out := ok_or (get_to bytes l) (segment.BufferTooSmall l (len bytes)) in
  let? out := fill0 out 0 (len out) in
  let? out := copy_at out 0 (sb_metadata b) in
  let at_ := l - FOOTER_TRAILER_LEN in
  let header := sealed_header b in
  let? out := on_slice out at_ (len out) (fun t => encode_trailer t header l) in
  let? checksum := footer_checksum out in
  let? out := on_slice out at_ (len out) (fun t => put_u32 t 60 checksum) in
  let? trailer := slice out at_ (len out) in
  let? crc := crc_with_zeroed_checksum trailer in
  let? out := on_slice out at_ (len out) (fun t => put_u32 t 12 crc) in
  let? bytes := copy_at bytes 0 out in
  Ok ({| sb_header := header; sb_data_end := sb_data_end b; sb_frame_count := sb_frame_count b; sb_metadata := sb_metadata b |},
      bytes, header).

(** ** The incremental encoder *)

Definition into_footer (b : SegmentBuilder) : FooterEncoder Crc32c :=
  {| fe_metadata := sb_metadata b; fe_header := sealed_header b; fe_len := SegmentBuilder_footer_len b;
     fe_offset := 0; fe_checksum := Crc32c_new |}.

Definition FooterEncoder_next (e : FooterEncoder Crc32c)
  : segment_result (option (Z * list byte * bool) * FooterEncoder Crc32c) :=
  if fe_offset e =? fe_len e then Ok (None, e)
  else
    let last := fe_offset e =? fe_len e - PAGE_SIZE in
    let l := if last then PAGE_SIZE else Z.min (fe_len e - PAGE_SIZE - fe_offset e) (Z.shiftl 64 10) in
    let bytes := zeros l in
    let ml := len (fe_metadata e) in
    let copied := Z.min (saturating_sub ml (fe_offset e)) l in
    let? src := slice (fe_metadata e) (Z.min (fe_offset e) ml) (Z.min (fe_offset e) ml + copied) in
    let? bytes := copy_at bytes 0 src in
    let? (bytes, sum) :=
      (if last then
         let at_ := l - FOOTER_TRAILER_LEN in
         let? bytes := on_slice bytes at_ (len bytes) (fun t => encode_trailer t (fe_header e) (fe_len e)) in
         let sum := Crc32c_update (fe_checksum e) bytes in
         let? bytes := on_slice bytes at_ (len bytes) (fun t => put_u32 t 60 (Crc32c_finalize sum)) in
         let? trailer := slice bytes at_ (len bytes) in
         let? crc := crc_with_zeroed_checksum trailer in
         let? bytes := on_slice bytes at_ (len bytes) (fun t => put_u32 t 12 crc) in
         Ok (bytes, sum)
       else Ok (bytes, Crc32c_update (fe_checksum e) bytes)) in
    let off := wrap32 (segment_len (fe_header e) - wrap32 (fe_len e) + wrap32 (fe_offset e)) in
    Ok (Some (off, bytes, last),
        {| fe_metadata := fe_metadata e; fe_header := fe_header e; fe_len := fe_len e; fe_offset := fe_offset e + l; fe_checksum := sum |}).

(** ** Footer validation *)

Record Footer := { footer_bytes : list byte; footer_header : SegmentHeader; footer_limits : FrameLimits }.

Definition decode_next (f : Footer) (bytes : list byte) (off : Z) : segment_result (Metadata * list byte) :=
  map_err (segment.Frame off)
    (let? p := SegmentHeader_position (footer_header f) off in
     let? m := Metadata_decode bytes (footer_limits f) p in
     let? rest := slice bytes (len (md_bytes m)) (len bytes) in
     Ok (m, rest)).

Fixpoint footer_walk (f : Footer) (n : nat) (remaining : list byte) (off : Z) : segment_result (list byte * Z) :=
  match n with
  | O => Ok (remaining, off)
  | S n =>
      let? (m, rest) := decode_next f remaining off in
      footer_walk f n rest (wrap32 (off + wrap32 (frame_len (md_header m))))
  end.

Definition Footer_decode (bytes : list byte) (header : SegmentHeader) (limits : FrameLimits) : segment_result Footer :=
  let? s := ok_or (seal header) (segment.InvalidArgument "active segment has no committed footer") in
  let? range := expect (footer_range header) in
  let l := range.2 - range.1 in
  let? bytes := ok_or (get_to bytes l) (segment.Truncated l (len bytes)) in
  let? trailer := FooterTrailer_decode bytes (segment_len header) in
  let? sum := footer_checksum bytes in
  fail_if (negb (bool_decide (ft_header trailer = header)) || negb (ft_checksum trailer =? sum))
    (segment.Corrupt "footer identity, geometry, or checksum") ;?
  let stop := seal_metadata_len s in
  let? padding := slice bytes stop (l - FOOTER_TRAILER_LEN) in
  fail_if (any_nonzero padding) (segment.Corrupt "footer padding") ;?
  let? front := slice bytes 0 stop in
  let footer := {| footer_bytes := front; footer_header := header; footer_limits := limits |} in
  let? (remaining, off) := footer_walk footer (Z.to_nat (seal_frame_count s)) front PAGE_SIZE in
  fail_if (negb (len remaining =? 0) || negb (off =? seal_data_end s)) (segment.Corrupt "footer frame coverage") ;?
  Ok footer.

(** [Footer::frames], whose unwraps are panics. *)
Definition unwrap {E F A} (m : res E A) : res F A := match m with Ok a => Ok a | _ => Panic end.

Fixpoint frames_from (f : Footer) (n : nat) (bytes : list byte) (off : Z) : segment_result (list Metadata) :=
  match n with
  | O => Ok []
  | S n =>
      let? p := unwrap (SegmentHeader_position (footer_header f) off) in
      let? h := unwrap (FrameHeader_decode bytes (footer_limits f) p) in
      let? front := slice bytes 0 (metadata_len h) in
      let? rest := slice bytes (metadata_len h) (len bytes) in
      let m := Metadata_from_validated front h in
      let? ms := frames_from f n rest (wrap32 (off + wrap32 (frame_len (md_header m)))) in
      Ok (m :: ms)
  end.

Definition Footer_frames (f : Footer) : segment_result (list Metadata) :=
  let? s := expect (seal (footer_header f)) in
  frames_from f (Z.to_nat (seal_frame_count s)) (footer_bytes f) PAGE_SIZE.

(** ** Validation in bounded steps *)

Record FooterValidator := {
  fv_header : SegmentHeader; fv_limits : FrameLimits; fv_checksum : Crc32c; checked : Z;
  metadata_at : Z; frame_offset : Z; fv_frames : Z; fv_expected : Z; checksum_done : bool
}.

Definition FooterValidator_new (bytes : list byte) (header : SegmentHeader) (limits : FrameLimits) : segment_result FooterValidator :=
  let? trailer := FooterTrailer_decode bytes (segment_len header) in
  fail_if (negb (bool_decide (ft_header trailer = header))) (segment.Corrupt "footer identity") ;?
  Ok {| fv_header := header; fv_limits := limits; fv_checksum := Crc32c_new; checked := 0; metadata_at := 0;
        frame_offset := PAGE_SIZE; fv_frames := 0; fv_expected := ft_checksum trailer; checksum_done := false |}.

(** One pass over the four checksum regions, restricted to [lo_checked, stop). *)
Fixpoint checksum_regions (bytes : list byte) (chk stop : Z) (regions : list (Z * Z * bool)) (sum : Crc32c)
  : segment_result Crc32c :=
  match regions with
  | [] => Ok sum
  | (start, last, zero) :: rest =>
      let lo := Z.max chk start in
      let hi := Z.min stop last in
      let? sum :=
        (if lo <? hi then
           if zero then let? z := slice (zeros 4) 0 (hi - lo) in Ok (Crc32c_update sum z)
           else let? b := slice bytes lo hi in Ok (Crc32c_update sum b)
         else Ok sum) in
      checksum_regions bytes chk stop rest sum
  end.

(** The step's error paths end validation, so the state they leave is not
    observed; a step that succeeds returns the next state. *)
Definition FooterValidator_step (v : FooterValidator) (bytes : list byte) : segment_result (bool * FooterValidator) :=
  let? s := expect (seal (fv_header v)) in
  let at_ := len bytes - FOOTER_TRAILER_LEN in
  if negb (checksum_done v) then
    let stop := Z.min (checked v + Z.shiftl 64 10) (len bytes) in
    let? sum := checksum_regions bytes (checked v) stop
      [(0, at_ + 12, false); (at_ + 12, at_ + 16, true); (at_ + 16, at_ + 60, false); (at_ + 60, len bytes, true)]
      (fv_checksum v) in
    let lo := Z.max (checked v) (seal_metadata_len s) in
    let hi := Z.min stop at_ in
    let? bad := (if lo <? hi then let? b := slice bytes lo hi in Ok (any_nonzero b) else Ok false) in
    fail_if bad (segment.Corrupt "footer padding") ;?
    let? done := (if stop =? len bytes then
                    fail_if (negb (Crc32c_finalize sum =? fv_expected v)) (segment.Corrupt "footer checksum") ;? Ok true
                  else Ok false) in
    Ok (false, {| fv_header := fv_header v; fv_limits := fv_limits v; fv_checksum := sum; checked := stop;
                  metadata_at := metadata_at v; frame_offset := frame_offset v; fv_frames := fv_frames v;
                  fv_expected := fv_expected v; checksum_done := done |})
  else if fv_frames v =? seal_frame_count s then
    fail_if (negb (metadata_at v =? seal_metadata_len s) || negb (frame_offset v =? seal_data_end s))
      (segment.Corrupt "footer frame coverage") ;?
    Ok (true, v)
  else
    let? p := map_err (segment.Frame (frame_offset v)) (SegmentHeader_position (fv_header v) (frame_offset v)) in
    let? area := slice bytes (metadata_at v) (seal_metadata_len s) in
    let? m := map_err (segment.Frame (frame_offset v)) (Metadata_decode area (fv_limits v) p) in
    Ok (false, {| fv_header := fv_header v; fv_limits := fv_limits v; fv_checksum := fv_checksum v; checked := checked v;
                  metadata_at := metadata_at v + len (md_bytes m);
                  frame_offset := wrap32 (frame_offset v + wrap32 (frame_len (md_header m)));
                  fv_frames := wrap32 (fv_frames v + 1); fv_expected := fv_expected v; checksum_done := checksum_done v |}).

(** ** Scanning frames *)

Record Scanner := {
  sc_header : SegmentHeader; sc_limits : FrameLimits; sc_offset : Z; sc_frame_count : Z;
  sc_metadata_len : Z; sc_done : bool; sc_tail_error : option frame.Error
}.

Definition Scanner_new (h : SegmentHeader) (limits : FrameLimits) : Scanner :=
  {| sc_header := h; sc_limits := limits; sc_offset := PAGE_SIZE; sc_frame_count := 0;
     sc_metadata_len := 0; sc_done := false; sc_tail_error := None |}.

Definition at_end (s : Scanner) : bool :=
  match seal (sc_header s) with
  | Some sl => sc_offset s =? seal_data_end sl
  | None => sc_offset s + PAGE_SIZE + footer_len (sc_metadata_len s + MIN_FRAME_METADATA_LEN) >? segment_len (sc_header s)
  end.

Definition Scanner_position (s : Scanner) : option FramePosition :=
  if sc_done s || at_end s then None
  else match SegmentHeader_position (sc_header s) (sc_offset s) with Ok p => Some p | _ => None end.

Definition scan_decode (s : Scanner) (bytes : list byte) : frame_result Frame :=
  let? p := SegmentHeader_position (sc_header s) (sc_offset s) in
  let? f := Frame_decode bytes (sc_limits s) p in
  let stop := sc_offset s + len (frame_bytes f) in
  let metadata_len := sc_metadata_len s + len (md_bytes (frame_metadata f)) in
  fail_if (stop + footer_len metadata_len >? segment_len (sc_header s))
    (frame.Corrupt "frame leaves no room for the segment footer") ;?
  (match seal (sc_header s) with
   | Some sl =>
       let count := sc_frame_count s + 1 in
       fail_if ((count >? seal_frame_count sl) || (metadata_len >? seal_metadata_len sl)
                || ((stop =? seal_data_end sl) && (negb (count =? seal_frame_count sl) || negb (metadata_len =? seal_metadata_len sl)))
                || ((stop <? seal_data_end sl) && (count =? seal_frame_count sl)))
         (frame.Corrupt "frames disagree with sealed summary")
   | None => Ok tt
   end) ;?
  Ok f.

Definition scanner_ended (s : Scanner) (e : option frame.Error) : Scanner :=
  {| sc_header := sc_header s; sc_limits := sc_limits s; sc_offset := sc_offset s; sc_frame_count := sc_frame_count s;
     sc_metadata_len := sc_metadata_len s; sc_done := true; sc_tail_error := e |}.

(** The outcome with the scanner's state after it, also on errors. *)
Definition next_frame (s : Scanner) (bytes : list byte) : segment_result (option Frame) * Scanner :=
  if sc_done s then (Ok None, s)
  else if at_end s then (Ok None, scanner_ended s (sc_tail_error s))
  else
    match scan_decode s bytes with
    | Ok f =>
        (Ok (Some f),
         {| sc_header := sc_header s; sc_limits := sc_limits s;
            sc_offset := wrap32 (sc_offset s + wrap32 (len (frame_bytes f)));
            sc_frame_count := wrap32 (sc_frame_count s + 1);
            sc_metadata_len := sc_metadata_len s + len (md_bytes (frame_metadata f));
            sc_done := sc_done s; sc_tail_error := sc_tail_error s |})
    | Err source =>
        if is_sealed (sc_header s) || match source with frame.UnsupportedVersion _ => true | _ => false end
        then (Err (segment.Frame (sc_offset s) source), scanner_ended s (sc_tail_error s))
        else (Ok None, scanner_ended s (Some source))
    | Panic => (Panic, s)
    end.
End WithCrc.
