(* ===== verification/SegmentProofs.v ===== *)
(** * Footers commit exactly the frames appended

    The accounting invariant of the segment builder, and that the footer it
    seals is accepted and lists the appended frames. *)

From S2P Require Import Prelude Align Checksum ChunkId Codec FrameFormat FrameDecode FrameDecodeProofs.
From S2P Require Import SegmentFormat SegmentBuilder.

(** ** Metadata read again at the same place

    The trusted extent behind a frame changes between append (the whole
    segment) and recovery (the sealed data); the metadata does not. *)

Definition rebase_header (h : FrameHeader) (p : FramePosition) : FrameHeader :=
  {| position := p; frame_len := frame_len h; record_count := record_count h; checksum_len := checksum_len h; metadata_crc := metadata_crc h |}.
Definition rebase (m : Metadata) (p : FramePosition) : Metadata :=
  {| md_bytes := md_bytes m; md_header := rebase_header (md_header m) p |}.

(** Replays the next step of a successful run on the goal's copy of it. *)
Ltac replay H :=
  let x := fresh "x" in let Hx := fresh "Hx" in
  apply rbind_Ok_inv in H as (x & Hx & H); try rewrite Hx; cbn [rbind].

Section WithCrc.
Context {C : CrcFast} (limits : FrameLimits).

Lemma FrameHeader_decode_rebase bytes p h p' :
  FrameHeader_decode bytes limits p = Ok h -> segment_seq p' = segment_seq p -> offset p' = offset p ->
  frame_len h <= available p' -> FrameHeader_decode bytes limits p' = Ok (rebase_header h p').
Proof.
  intros H Hs Ho Ha. unfold FrameHeader_decode in *. rewrite Hs, Ho.
  do 17 replay H. apply rbind_Ok_inv in H as (u & Hg & H). apply fail_if_Ok in Hg. apply orb_false_iff in Hg as [Hg _].
  pass_guard; [do 3 replay H; injection H as <-; reflexivity|].
  rewrite Hg. do 3 (apply rbind_Ok_inv in H as (? & _ & H)). injection H as <-. simpl in Ha. decide_guard.
Qed.

Lemma check_records_rebase m p n : forall k s, check_records (rebase m p) limits n k s = check_records m limits n k s.
Proof.
  induction n as [|n IH]; intros k s; [reflexivity|]. cbn [check_records].
  change (check_record (rebase m p) limits k s) with (check_record m limits k s).
  destruct (check_record m limits k s); cbn [rbind]; auto.
Qed.

Lemma records_from_rebase m p n : forall k, records_from (rebase m p) n k = records_from m n k.
Proof.
  induction n as [|n IH]; intros k; [reflexivity|]. cbn [records_from].
  change (Metadata_record (rebase m p) k) with (Metadata_record m k). rewrite IH. reflexivity.
Qed.

Lemma Metadata_decode_rebase bytes p m p' rest :
  Metadata_decode bytes limits p = Ok m -> segment_seq p' = segment_seq p -> offset p' = offset p ->
  frame_len (md_header m) <= available p' -> Metadata_decode (md_bytes m ++ rest) limits p' = Ok (rebase m p').
Proof.
  intros H Hs Ho Ha. destruct (Metadata_decode_ok _ _ _ _ H) as (ds & Hok & Hb & Hlb).
  pose proof (metadata_len_pos _ _ (mo_header _ _ _ _ Hok)) as Hml. pose proof (mo_len _ _ _ _ Hok) as Hlm.
  unfold Metadata_decode in *. apply rbind_Ok_inv in H as (h & Hh & H).
  assert (Hhm : md_header m = h) by (inv_ok; subst m; reflexivity). rewrite Hhm in *.
  pose proof (len_nonneg rest).
  rewrite (FrameHeader_decode_ext (md_bytes m ++ rest) bytes).
  2: rewrite len_app; lia.
  2: lia.
  2: { rewrite sub_app_l, Hb, sub_sub by lia. reflexivity. }
  rewrite (FrameHeader_decode_rebase bytes p h p' Hh Hs Ho Ha). cbn [rbind].
  change (metadata_len (rebase_header h p')) with (metadata_len h).
  rewrite get_to_Ok in * by (rewrite ?len_app; lia). cbn [ok_or rbind] in *.
  rewrite sub_app_l, <- Hb in * by lia. rewrite <- Hlm, sub_all.
  replay H. apply rbind_Ok_inv in H as (u1 & Hu1 & H). cbn [metadata_crc rebase_header]. rewrite Hu1. cbn [rbind]. cbv zeta in *.
  set (m0 := {| md_bytes := md_bytes m; md_header := h |}) in *.
  change {| md_bytes := md_bytes m; md_header := rebase_header h p' |} with (rebase m0 p').
  change (record_count (rebase_header h p')) with (record_count h).
  apply rbind_Ok_inv in H as (sc & Hsc & H). rewrite check_records_rebase, Hlm, Hsc. cbn [rbind].
  apply rbind_Ok_inv in H as (u2 & Hu2 & H). rewrite Hu2. cbn [rbind].
  apply rbind_Ok_inv in H as (u3 & Hu3 & H). unfold Metadata_records in *. rewrite records_from_rebase.
  change (md_header (rebase m0 p')) with (rebase_header h p'). change (record_count (rebase_header h p')) with (record_count h).
  change (record_count (md_header m0)) with (record_count h) in Hu3. rewrite Hu3. cbn [rbind].
  f_equal. unfold rebase. simpl. rewrite Hhm. reflexivity.
Qed.

(** ** Accounting *)

Definition decoded_at (seq off : Z) (m : Metadata) : Prop :=
  exists bytes p, Metadata_decode bytes limits p = Ok m /\ segment_seq p = seq /\ offset p = off.

(** Frames packed from [off] on. *)
Fixpoint frames_at (seq off : Z) (ms : list Metadata) : Prop :=
  match ms with
  | [] => True
  | m :: rest => decoded_at seq off m /\ frames_at seq (off + frame_len (md_header m)) rest
  end.

Definition total (ms : list Metadata) : Z := foldr (fun m t => frame_len (md_header m) + t) 0 ms.
Definition metadata_area (ms : list Metadata) : list byte := concat (map md_bytes ms).

Record segment_ok (b : SegmentBuilder) (ms : list Metadata) : Prop := {
  so_header : segment_header_ok (sb_header b);
  so_active : seal (sb_header b) = None;
  so_frames : frames_at (sequence (id (sb_header b))) PAGE_SIZE ms;
  so_end : sb_data_end b = PAGE_SIZE + total ms;
  so_count : sb_frame_count b = len ms;
  so_metadata : sb_metadata b = metadata_area ms;
  so_fits : sb_data_end b + SegmentBuilder_footer_len b <= segment_len (sb_header b)
}.

Lemma decoded_sizes seq off m : decoded_at seq off m ->
  128 <= len (md_bytes m) <= frame_len (md_header m) /\ len (md_bytes m) mod 4 = 0 /\
  4096 <= frame_len (md_header m) < 2 ^ 32 /\ frame_len (md_header m) mod 4096 = 0 /\
  len (md_bytes m) = metadata_len (md_header m) /\
  segment_seq (position (md_header m)) = seq /\ offset (position (md_header m)) = off.
Proof.
  intros (bytes & p & Hm & Hs & Ho). destruct (Metadata_decode_ok _ _ _ _ Hm) as (ds & Hok & _ & _).
  destruct Hok as [Hh Hp Hl _ _ _ _]. pose proof (metadata_len_pos _ _ Hh). rewrite Hp, Hl.
  destruct Hh as (H32 & H0 & Hm4 & _ & _ & Hrc & Hcl & Hc4 & Hml & _). unfold is_u32 in *.
  unfold metadata_len, HEADER_LEN, DESCRIPTOR_LEN in *. repeat split; try lia; try assumption; dlia.
Qed.

Lemma total_app ms m : total (ms ++ [m]) = total ms + frame_len (md_header m).
Proof. induction ms as [|x ms IH]; simpl; lia. Qed.

Lemma metadata_area_app ms m : metadata_area (ms ++ [m]) = metadata_area ms ++ md_bytes m.
Proof. unfold metadata_area. rewrite map_app, concat_app. simpl. rewrite app_nil_r. reflexivity. Qed.

Lemma frames_at_app seq ms m : forall off,
  frames_at seq off (ms ++ [m]) <-> frames_at seq off ms /\ decoded_at seq (off + total ms) m.
Proof.
  induction ms as [|x ms IH]; intros off; simpl; [rewrite Z.add_0_r; tauto|]. rewrite IH, Z.add_assoc. tauto.
Qed.

Lemma frames_sizes seq ms : forall off, frames_at seq off ms ->
  len ms * 4096 <= total ms /\ total ms mod 4096 = 0 /\ len ms * 128 <= len (metadata_area ms) <= total ms /\ len (metadata_area ms) mod 4 = 0.
Proof.
  induction ms as [|m ms IH]; intros off H; [repeat split; vm_compute; congruence|]. destruct H as [Hm Hms].
  specialize (IH _ Hms). destruct (decoded_sizes _ _ _ Hm) as (H1 & H2 & H3 & H4 & _).
  change (metadata_area (m :: ms)) with (md_bytes m ++ metadata_area ms). rewrite len_app, len_cons. simpl.
  destruct IH as (I1 & I2 & I3 & I4). repeat split; try lia; dlia.
Qed.

Lemma SegmentBuilder_new_ok h b : segment_header_ok h -> SegmentBuilder_new h = Ok b -> segment_ok b [].
Proof.
  unfold SegmentBuilder_new, is_sealed. intros Hh H. inv_ok. subst b. destruct (seal h) eqn:Hs; [discriminate|].
  constructor; simpl; auto. unfold SegmentBuilder_footer_len. simpl. destruct Hh as (_ & (Hg & _) & _).
  change (4096 + 4096 <= segment_len h). lia.
Qed.

Lemma segment_ok_sizes b ms : segment_ok b ms ->
  0 <= len (sb_metadata b) /\ len (sb_metadata b) <= total ms /\ sb_data_end b = 4096 + total ms /\ 0 <= len ms /\
  len ms * 4096 <= total ms /\ sb_data_end b + footer_len (len (sb_metadata b)) <= segment_len (sb_header b) /\
  64 + len (sb_metadata b) <= footer_len (len (sb_metadata b)) < 64 + len (sb_metadata b) + 4096 /\
  footer_len (len (sb_metadata b)) mod 4096 = 0 /\ 8192 <= segment_len (sb_header b) < 2 ^ 32 /\ total ms mod 4096 = 0 /\
  len ms * 128 <= len (sb_metadata b) /\ len (sb_metadata b) mod 4 = 0.
Proof.
  intros [Hh _ Hf He Hc Hm Hfit]. unfold SegmentBuilder_footer_len, PAGE_SIZE in *.
  destruct (frames_sizes _ _ _ Hf) as (H1 & H2 & H3 & H4). rewrite <- Hm in *. pose proof (len_nonneg (sb_metadata b)).
  pose proof (len_nonneg ms). destruct Hh as (_ & (Hg & _) & _).
  assert (Hsmall : len (sb_metadata b) < 2 ^ 62).
  { destruct (Z.lt_ge_cases (len (sb_metadata b)) (2 ^ 62)); [assumption|]. exfalso.
    pose proof (align_up_nonneg (FOOTER_TRAILER_LEN + len (sb_metadata b)) PAGE_SIZE). unfold footer_len in Hfit. lia. }
  destruct (footer_len_page (len (sb_metadata b)) ltac:(lia)) as (q & Hq & Hb). repeat split; try lia. dlia.
Qed.

Lemma SegmentHeader_position_active h off : segment_header_ok h -> seal h = None ->
  4096 <= off < segment_len h -> off mod 4096 = 0 ->
  SegmentHeader_position h off = Ok {| segment_seq := sequence (id h); offset := off; available := segment_len h - off |}.
Proof.
  intros (_ & (Hg & Hgm) & _) Hs Ho Hom. unfold SegmentHeader_position, FramePosition_new, PAGE_SIZE. rewrite Hs, !is_aligned_page.
  pass_guard; [reflexivity|]. rewrite Hgm, Hom. decide_guard.
Qed.

Lemma SegmentBuilder_position_exact b ms fl ml :
  segment_ok b ms -> 0 < fl < 2 ^ 32 -> fl mod 4096 = 0 -> 128 <= ml <= fl -> ml mod 4 = 0 ->
  SegmentBuilder_position b fl ml =
    let required := sb_data_end b + fl + footer_len (len (sb_metadata b) + ml) in
    if required >? segment_len (sb_header b) then Err (segment.Full required (segment_len (sb_header b)))
    else Ok {| segment_seq := sequence (id (sb_header b)); offset := sb_data_end b; available := segment_len (sb_header b) - sb_data_end b |}.
Proof.
  intros Hb Hfl Hflm Hml Hml4. pose proof (segment_ok_sizes b ms Hb) as Hsz. unfold SegmentBuilder_position, is_sealed.
  rewrite (so_active _ _ Hb). cbn [fail_if rbind]. unfold PAGE_SIZE, MIN_FRAME_METADATA_LEN, HEADER_LEN, DESCRIPTOR_LEN, U32_MAX.
  rewrite is_aligned_page, Hflm, Hml4. pass_guard; [|decide_guard]. cbv zeta.
  set (req := _ + footer_len _). destruct (Z.gtb_spec req (segment_len (sb_header b))) as [Hf|Hf]; [reflexivity|]. cbn [rbind fail_if].
  rewrite SegmentHeader_position_active; [reflexivity | apply Hb | apply Hb | | dlia].
  destruct (footer_len_page (len (sb_metadata b) + ml)) as (q & Hq & Hqb); [lia|]. unfold req in Hf. lia.
Qed.

Lemma append_ok b ms m r b' :
  segment_ok b ms -> (exists bytes p, Metadata_decode bytes limits p = Ok m) ->
  SegmentBuilder_append r b m = Ok b' ->
  segment_ok b' (ms ++ [m]) /\ sb_data_end b' = sb_data_end b + frame_len (md_header m) /\ sb_header b' = sb_header b.
Proof.
  intros Hb (bytes & p & Hm) H. assert (Hd : decoded_at (segment_seq p) (offset p) m) by (exists bytes, p; auto).
  destruct (decoded_sizes _ _ _ Hd) as (D1 & D2 & D3 & D4 & D5 & D6 & D7). pose proof (segment_ok_sizes b ms Hb) as Hsz.
  unfold SegmentBuilder_append in H. rewrite (SegmentBuilder_position_exact b ms) in H by (auto; lia). cbv zeta in H.
  set (req := _ + footer_len _) in H. destruct (Z.gtb_spec req (segment_len (sb_header b))) as [|Hf]; [discriminate|]. cbn [rbind] in H. unfold req in Hf.
  apply rbind_Ok_inv in H as (u & Hg & H). apply fail_if_Ok in Hg. simpl in Hg. boolp.
  apply rbind_Ok_inv in H as (u2 & _ & H). injection H as <-.
  destruct (footer_len_page (len (sb_metadata b) + len (md_bytes m))) as (q & Hq & Hqb); [lia|].
  cbn [sb_data_end sb_header]. rewrite (wrap32_small (frame_len _)), wrap32_small by (unfold is_u32; lia). split; [|auto].
  constructor; cbn [sb_header sb_data_end sb_frame_count sb_metadata]; try apply Hb.
  - apply frames_at_app. split; [apply Hb|]. rewrite (so_end _ _ Hb) in *. exists bytes, p. split; [assumption|]. split; congruence.
  - rewrite total_app, (so_end _ _ Hb). lia.
  - rewrite (so_count _ _ Hb), len_app. change (len [m]) with 1. apply wrap32_small. unfold is_u32. lia.
  - rewrite metadata_area_app, (so_metadata _ _ Hb). reflexivity.
  - unfold SegmentBuilder_footer_len. cbn [sb_metadata]. rewrite len_app. lia.
Qed.

Lemma sealed_header_ok b ms : segment_ok b ms ->
  segment_header_ok (sealed_header b) /\ wrap32 (len (sb_metadata b)) = len (sb_metadata b).
Proof.
  intros Hb. pose proof (segment_ok_sizes b ms Hb) as Hsz. destruct (so_header _ _ Hb) as (Hid & Hg & _).
  assert (Hw : wrap32 (len (sb_metadata b)) = len (sb_metadata b)) by (apply wrap32_small; unfold is_u32; lia).
  split; [|assumption]. split; [assumption|]. split; [assumption|]. simpl. rewrite Hw. unfold seal_ok. cbn [seal_data_end seal_frame_count seal_metadata_len].
  assert (Hz : len ms = 0 -> total ms = 0 /\ len (sb_metadata b) = 0).
  { rewrite (so_metadata _ _ Hb). destruct ms; [auto | rewrite len_cons; pose proof (len_nonneg ms); lia]. }
  rewrite (so_count _ _ Hb). repeat split; try lia; dlia.
Qed.
End WithCrc.
