(* ===== verification/SegmentFooter.v ===== *)
(** * Sealed footers

    What [seal_into] writes is accepted by [Footer::decode] and yields exactly
    the frames appended; the incremental encoder writes the same bytes. *)

From S2P Require Import Prelude Align Checksum ChunkId Codec FrameFormat FrameDecode FrameDecodeProofs.
From S2P Require Import SegmentFormat SegmentBuilder SegmentProofs Checksum.

(** Rewriting the tail of a buffer. *)
Lemma on_slice_tail {E} (pre t : list byte) n (f : list byte -> res E (list byte)) :
  n = len pre -> (forall t', f t = Ok t' -> len t' = len t) ->
  on_slice (pre ++ t) n (len (pre ++ t)) f = let? t' := f t in Ok (pre ++ t').
Proof.
  intros -> Hf. pose proof (len_nonneg pre). pose proof (len_nonneg t). unfold on_slice. rewrite slice_Ok by len_lia. cbn [rbind].
  rewrite sub_app_r by lia. replace (sub t _ _) with t by (rewrite <- (sub_all t) at 1; f_equal; len_lia).
  destruct (f t) as [t'| |] eqn:Ht; cbn [rbind]; [|reflexivity..]. rewrite copy_at_Ok by (rewrite ?(Hf t' eq_refl); len_lia).
  f_equal. rewrite <- (app_nil_r t) at 1. rewrite <- (app_nil_r t') at 2. apply splice_app. apply Hf. reflexivity.
Qed.

Lemma put_u32_len {E} (t t' : list byte) at_ v : put_u32 t at_ v = @Ok E _ t' -> len t' = len t.
Proof. unfold put_u32. intros H. apply copy_at_inv in H as (? & ? & ->). apply len_splice; assumption. Qed.

Section WithCrc.
Context {C : CrcFast} (limits : FrameLimits).

(** The two checksums written last, as both encoders do. *)
Definition finish_trailer (t : list byte) (sum : Z) : segment_result (list byte) :=
  let? t := put_u32 t 60 sum in
  let? crc := crc_with_zeroed_checksum t in
  put_u32 t 12 crc.

Lemma finish_trailer_spec pre h s sum t1 :
  segment_header_ok h -> seal h = Some s -> is_u32 sum ->
  encode_trailer (zeros 64) h (footer_len (seal_metadata_len s)) = Ok t1 ->
  exists t3, finish_trailer t1 sum = Ok t3 /\ len t3 = 64 /\ len t1 = 64 /\
    sub t3 0 12 = sub t1 0 12 /\ sub t3 16 60 = sub t1 16 60 /\ sub t1 12 16 = zeros 4 /\ sub t1 60 64 = zeros 4 /\
    FooterTrailer_decode (pre ++ t3) (segment_len h) = Ok {| ft_header := h; ft_checksum := sum |}.
Proof.
  intros Hh Hs Hsum Henc. pose proof Hh as ((Hd & _) & (Hg & _) & Hsok). rewrite Hs in Hsok. destruct Hsok as (S1 & _ & S3 & _ & _ & S6 & _ & _ & _ & _ & S11).
  destruct (encode_trailer_spec (zeros 64) h s (footer_len (seal_metadata_len s)) eq_refl Hs Hd)
    as (t & Ht & Hl & T1 & T2 & T3 & T4 & T5 & T6 & T7 & T8 & T9 & T10 & T11).
  rewrite Ht in Henc. injection Henc as ->. rewrite sub_zeros in T3, T11 by lia.
  destruct (footer_len_page (seal_metadata_len s)) as (q & Hq & Hqb); [lia|].
  assert (Hw : wrap32 (footer_len (seal_metadata_len s)) = footer_len (seal_metadata_len s)) by (apply wrap32_small; unfold is_u32; lia).
  rewrite Hw in T10. unfold finish_trailer, put_u32. rewrite copy_at_Ok by len_lia. cbn [rbind].
  set (t2 := splice t1 60 (le_split 4 sum)). assert (Hl2 : len t2 = 64) by (unfold t2; rewrite len_splice; len_lia).
  assert (Hag2 : forall x y, 0 <= x -> y <= 60 -> sub t2 x y = sub t1 x y) by (intros; apply sub_splice_before; len_lia).
  destruct (crc_zeroed_Ok (E := segment.Error) t2 ltac:(lia)) as (crc & Hcrc & Hcr). rewrite Hcrc. cbn [rbind].
  rewrite copy_at_Ok by len_lia. eexists. split; [reflexivity|].
  set (t3 := splice t2 12 (le_split 4 crc)). assert (Hl3 : len t3 = 64) by (unfold t3; rewrite len_splice; len_lia).
  assert (Hlo : forall x y, 0 <= x -> y <= 12 -> sub t3 x y = sub t1 x y).
  { intros. rewrite <- Hag2 by lia. apply sub_splice_before; len_lia. }
  assert (Hhi : forall x y, 16 <= x -> sub t3 x y = sub t2 x y) by (intros; apply sub_splice_after; len_lia).
  split; [assumption|]. split; [assumption|]. split; [apply Hlo; lia|].
  split; [rewrite Hhi, Hag2 by lia; reflexivity|]. split; [exact T3|]. split; [exact T11|].
  apply (FooterTrailer_decode_fields pre t3 h s sum); auto.
  - apply validate_prefix_sealed; [lia | rewrite Hag2 by lia; assumption | rewrite Hag2 by lia; assumption | assumption].
  - rewrite Hhi, Hag2 by lia. assumption.
  - rewrite Hhi, Hag2 by lia. assumption.
  - rewrite Hhi, Hag2 by lia. assumption.
  - rewrite Hhi, Hag2 by lia. assumption.
  - rewrite Hhi, Hag2 by lia. assumption.
  - rewrite Hhi, Hag2 by lia. assumption.
  - rewrite Hhi, Hag2 by lia. assumption.
  - rewrite Hhi by lia. apply sub_splice_same; len_lia.
Qed.

(** The footer before its trailer. *)
Definition footer_body (md : list byte) : list byte := md ++ zeros (footer_len (len md) - 64 - len md).

Lemma len_footer_body md : len md < 2 ^ 62 -> len (footer_body md) = footer_len (len md) - 64 /\ len md <= footer_len (len md) - 64.
Proof.
  intros. pose proof (len_nonneg md). destruct (footer_len_page (len md) ltac:(lia)) as (q & Hq & Hb). unfold footer_body.
  rewrite len_app, len_zeros by lia. lia.
Qed.

(** The complete-footer checksum in terms of body and trailer. *)
Definition sum_of (pre t : list byte) : Z :=
  Crc32c_finalize (Crc32c_update (Crc32c_update (Crc32c_update (Crc32c_update Crc32c_new (pre ++ sub t 0 12)) (zeros 4)) (sub t 16 60)) (zeros 4)).

Lemma footer_checksum_parts pre t : len t = 64 -> footer_checksum (pre ++ t) = Ok (sum_of pre t).
Proof.
  intros Ht. pose proof (len_nonneg pre). unfold footer_checksum, FOOTER_TRAILER_LEN, sum_of. rewrite len_app, Ht.
  replace (len pre + 64 - 64) with (len pre) by lia. rewrite !slice_Ok by len_lia. cbn [rbind].
  rewrite (sub_split _ 0 (len pre)) by lia. rewrite sub_app_l, sub_all by lia. rewrite !sub_app_r by lia.
  replace (len pre - len pre) with 0 by lia. replace (len pre + 12 - len pre) with 12 by lia.
  replace (len pre + 16 - len pre) with 16 by lia. replace (len pre + 60 - len pre) with 60 by lia. reflexivity.
Qed.

(** The bytes of a sealed footer. *)
Definition sealed_bytes (b : SegmentBuilder) : segment_result (list byte) :=
  let pre := footer_body (sb_metadata b) in
  let? t := encode_trailer (zeros 64) (sealed_header b) (SegmentBuilder_footer_len b) in
  let? t := finish_trailer t (sum_of pre t) in
  Ok (pre ++ t).

Lemma sealed_bytes_spec b ms : segment_ok limits b ms ->
  exists t1 t3, sealed_bytes b = Ok (footer_body (sb_metadata b) ++ t3) /\
    encode_trailer (zeros 64) (sealed_header b) (SegmentBuilder_footer_len b) = Ok t1 /\
    finish_trailer t1 (sum_of (footer_body (sb_metadata b)) t1) = Ok t3 /\
    len t1 = 64 /\ len t3 = 64 /\ sub t1 12 16 = zeros 4 /\ sub t1 60 64 = zeros 4 /\
    sum_of (footer_body (sb_metadata b)) t3 = sum_of (footer_body (sb_metadata b)) t1 /\
    FooterTrailer_decode (footer_body (sb_metadata b) ++ t3) (segment_len (sealed_header b)) =
      Ok {| ft_header := sealed_header b; ft_checksum := sum_of (footer_body (sb_metadata b)) t1 |}.
Proof.
  intros Hb. destruct (sealed_header_ok limits b ms Hb) as [Hsh Hw].
  set (s := {| seal_data_end := sb_data_end b; seal_frame_count := sb_frame_count b; seal_metadata_len := wrap32 (len (sb_metadata b)) |}).
  assert (Hs : seal (sealed_header b) = Some s) by reflexivity. pose proof Hsh as ((Hd & _) & _).
  destruct (encode_trailer_spec (zeros 64) (sealed_header b) s (SegmentBuilder_footer_len b) eq_refl Hs Hd) as (t1 & Ht1 & _).
  destruct (finish_trailer_spec (footer_body (sb_metadata b)) (sealed_header b) s (sum_of (footer_body (sb_metadata b)) t1) t1 Hsh Hs
              ltac:(apply wrap32_range)) as (t3 & H1 & H2 & H3 & H4 & H5 & H6 & H7 & H8).
  { rewrite <- Ht1. unfold SegmentBuilder_footer_len, s. simpl. rewrite Hw. reflexivity. }
  exists t1, t3. unfold sealed_bytes. rewrite Ht1. cbn [rbind]. rewrite H1. cbn [rbind].
  repeat (split; [reflexivity || assumption|]). split; [|exact H8]. unfold sum_of. rewrite H4, H5. reflexivity.
Qed.

(** [seal_into] writes those bytes and nothing behind them. *)
Lemma seal_into_bytes b ms bytes : segment_ok limits b ms -> SegmentBuilder_footer_len b <= len bytes ->
  exists out, sealed_bytes b = Ok out /\ len out = SegmentBuilder_footer_len b /\
    SegmentBuilder_seal_into b bytes =
      Ok ({| sb_header := sealed_header b; sb_data_end := sb_data_end b; sb_frame_count := sb_frame_count b; sb_metadata := sb_metadata b |},
          splice bytes 0 out, sealed_header b).
Proof.
  intros Hb Hl. destruct (sealed_bytes_spec b ms Hb) as (t1 & t3 & Hsb & Ht1 & Hfin & Hl1 & Hl3 & _ & _ & _ & _).
  pose proof (segment_ok_sizes limits b ms Hb) as Hsz. set (pre := footer_body (sb_metadata b)) in *.
  destruct (len_footer_body (sb_metadata b) ltac:(lia)) as [Hlp Hmd]. fold pre in Hlp. unfold SegmentBuilder_footer_len in *.
  set (l := footer_len (len (sb_metadata b))) in *.
  exists (pre ++ t3). split; [assumption|]. split; [rewrite len_app; lia|].
  unfold SegmentBuilder_seal_into, is_sealed, SegmentBuilder_footer_len, FOOTER_TRAILER_LEN. fold l. rewrite (so_active _ _ _ Hb). cbn [fail_if rbind].
  rewrite get_to_Ok by lia. cbn [ok_or rbind]. assert (Hlo : len (sub bytes 0 l) = l) by (rewrite len_sub; lia).
  rewrite fill0_Ok by lia. cbn [rbind]. rewrite Hlo, Z.sub_0_r.
  assert (Hz : splice (sub bytes 0 l) 0 (zeros l) = zeros l) by (apply splice_whole; rewrite len_zeros; lia).
  rewrite Hz. pose proof (len_nonneg (sb_metadata b)). rewrite copy_at_Ok by len_lia. cbn [rbind].
  assert (Hpre : splice (zeros l) 0 (sb_metadata b) = pre ++ zeros 64).
  { replace l with (len (sb_metadata b) + ((l - 64 - len (sb_metadata b)) + 64)) by lia. rewrite zeros_app by lia.
    rewrite splice_front by (rewrite len_zeros; lia).
    unfold pre, footer_body. fold l. rewrite zeros_app, <- app_assoc by lia. reflexivity. }
  rewrite Hpre. rewrite on_slice_tail by (first [lia | intros t' Ht'; rewrite Ht1 in Ht'; injection Ht' as <-; assumption]).
  rewrite Ht1. cbn [rbind]. rewrite footer_checksum_parts by assumption. cbn [rbind].
  rewrite on_slice_tail by (first [lia | intros t'; apply put_u32_len]). unfold finish_trailer in Hfin.
  apply rbind_Ok_inv in Hfin as (t2 & Hp2 & Hfin). rewrite Hp2. cbn [rbind]. apply put_u32_len in Hp2 as Hl2.
  rewrite slice_Ok by len_lia. cbn [rbind]. rewrite sub_app_r by lia.
  replace (sub t2 _ _) with t2 by (rewrite <- (sub_all t2) at 1; f_equal; len_lia).
  apply rbind_Ok_inv in Hfin as (crc & Hcrc & Hfin). rewrite Hcrc. cbn [rbind].
  rewrite on_slice_tail by (first [lia | intros t'; apply put_u32_len]). rewrite Hfin. cbn [rbind].
  rewrite copy_at_Ok by len_lia. reflexivity.
Qed.

(** ** Walking the footer *)

Lemma SegmentHeader_position_sealed h s off : seal h = Some s -> seal_data_end s mod 4096 = 0 ->
  4096 <= off < seal_data_end s -> off mod 4096 = 0 ->
  SegmentHeader_position h off = Ok {| segment_seq := sequence (id h); offset := off; available := seal_data_end s - off |}.
Proof.
  intros Hs Hm Ho Hom. unfold SegmentHeader_position, FramePosition_new, PAGE_SIZE. rewrite Hs, !is_aligned_page.
  pass_guard; [reflexivity|]. rewrite Hm, Hom. decide_guard.
Qed.

(** The frames of a sealed segment, each bounded by the end of its data. *)
Fixpoint sealed_frames (seq stop off : Z) (ms : list Metadata) : list Metadata :=
  match ms with
  | [] => []
  | m :: rest =>
      rebase m {| segment_seq := seq; offset := off; available := stop - off |}
        :: sealed_frames seq stop (off + frame_len (md_header m)) rest
  end.

Lemma Metadata_decode_header bytes p m : Metadata_decode bytes limits p = Ok m ->
  FrameHeader_decode bytes limits p = Ok (md_header m).
Proof. unfold Metadata_decode. intros H. inv_ok. subst m. assumption. Qed.

(** What one frame of the walk does. *)
Lemma sealed_frame_step f s off m rest ms :
  footer_limits f = limits -> seal (footer_header f) = Some s -> seal_data_end s mod 4096 = 0 -> seal_data_end s < 2 ^ 32 ->
  4096 <= off -> off mod 4096 = 0 -> frames_at limits (sequence (id (footer_header f))) off (m :: ms) -> off + total (m :: ms) <= seal_data_end s ->
  let p := {| segment_seq := sequence (id (footer_header f)); offset := off; available := seal_data_end s - off |} in
  SegmentHeader_position (footer_header f) off = Ok p /\ Metadata_decode (md_bytes m ++ rest) limits p = Ok (rebase m p) /\
  wrap32 (off + wrap32 (frame_len (md_header m))) = off + frame_len (md_header m) /\ (off + frame_len (md_header m)) mod 4096 = 0.
Proof.
  intros Hl Hs Hm4 H32 Ho Hom [Hm Hms] Ht. cbn zeta. destruct (decoded_sizes _ _ _ _ Hm) as (D1 & D2 & D3 & D4 & _).
  destruct (frames_sizes _ _ _ _ Hms) as (F1 & F2 & F3 & _). simpl in Ht. pose proof (len_nonneg ms).
  split; [apply SegmentHeader_position_sealed; auto; lia|].
  destruct Hm as (bytes & p & Hd & Hsq & Hof). split.
  - apply (Metadata_decode_rebase limits bytes p m _ rest Hd); simpl; [congruence | congruence | lia].
  - rewrite (wrap32_small (frame_len _)), wrap32_small by (unfold is_u32; lia). split; [reflexivity | dlia].
Qed.

Lemma footer_walk_ok f s ms : forall rest off,
  footer_limits f = limits -> seal (footer_header f) = Some s -> seal_data_end s mod 4096 = 0 -> seal_data_end s < 2 ^ 32 ->
  4096 <= off -> off mod 4096 = 0 -> frames_at limits (sequence (id (footer_header f))) off ms -> off + total ms <= seal_data_end s ->
  footer_walk f (length ms) (metadata_area ms ++ rest) off = Ok (rest, off + total ms).
Proof.
  induction ms as [|m ms IH]; intros rest off Hl Hs Hm4 H32 Ho Hom Hfr Ht; [simpl; rewrite Z.add_0_r; reflexivity|].
  cbn [length footer_walk]. change (metadata_area (m :: ms)) with (md_bytes m ++ metadata_area ms). rewrite <- app_assoc.
  destruct (sealed_frame_step f s off m (metadata_area ms ++ rest) ms Hl Hs Hm4 H32 Ho Hom Hfr Ht) as (Hp & Hd & Hw & Hm').
  destruct Hfr as [Hm Hms]. destruct (decoded_sizes _ _ _ _ Hm) as (D1 & D2 & D3 & _).
  unfold decode_next. rewrite Hp. cbn [rbind]. rewrite Hl, Hd. cbn [rbind md_bytes rebase].
  pose proof (len_nonneg (metadata_area ms ++ rest)). rewrite slice_Ok by (rewrite ?len_app; rewrite ?len_app in *; lia).
  cbn [rbind map_err]. rewrite sub_app_r by lia. rewrite Z.sub_diag, len_app.
  replace (len (md_bytes m) + len (metadata_area ms ++ rest) - len (md_bytes m)) with (len (metadata_area ms ++ rest)) by lia.
  rewrite sub_all. cbn [md_header rebase rebase_header frame_len]. rewrite Hw. simpl in Ht. rewrite IH; auto; try lia. simpl. f_equal. f_equal. lia.
Qed.

Lemma frames_from_ok f s ms : forall rest off,
  footer_limits f = limits -> seal (footer_header f) = Some s -> seal_data_end s mod 4096 = 0 -> seal_data_end s < 2 ^ 32 ->
  4096 <= off -> off mod 4096 = 0 -> frames_at limits (sequence (id (footer_header f))) off ms -> off + total ms <= seal_data_end s ->
  frames_from f (length ms) (metadata_area ms ++ rest) off = Ok (sealed_frames (sequence (id (footer_header f))) (seal_data_end s) off ms).
Proof.
  induction ms as [|m ms IH]; intros rest off Hl Hs Hm4 H32 Ho Hom Hfr Ht; [reflexivity|].
  cbn [length frames_from sealed_frames]. change (metadata_area (m :: ms)) with (md_bytes m ++ metadata_area ms). rewrite <- app_assoc.
  destruct (sealed_frame_step f s off m (metadata_area ms ++ rest) ms Hl Hs Hm4 H32 Ho Hom Hfr Ht) as (Hp & Hd & Hw & Hm').
  destruct Hfr as [Hm Hms]. destruct (decoded_sizes _ _ _ _ Hm) as (D1 & D2 & D3 & _ & Hml & _). pose proof (len_nonneg (metadata_area ms ++ rest)).
  rewrite Hp. cbn [unwrap rbind]. rewrite Hl. rewrite (Metadata_decode_header _ _ _ Hd). cbn [unwrap rbind].
  change (metadata_len (md_header (rebase m ?[p]))) with (metadata_len (md_header m)). rewrite <- Hml.
  rewrite !slice_Ok by (rewrite ?len_app; rewrite ?len_app in *; lia). cbn [rbind].
  rewrite (sub_app_l (md_bytes m) _ 0), sub_all, sub_app_r by lia. rewrite Z.sub_diag, (len_app (md_bytes m)).
  replace (len (md_bytes m) + len (metadata_area ms ++ rest) - len (md_bytes m)) with (len (metadata_area ms ++ rest)) by lia.
  rewrite sub_all. unfold Metadata_from_validated. cbn [md_header rebase rebase_header frame_len]. rewrite Hw.
  simpl in Ht. rewrite IH; auto; lia.
Qed.

Lemma seal_then_decode b ms out : segment_ok limits b ms -> sealed_bytes b = Ok out -> forall bytes,
  SegmentBuilder_footer_len b <= len bytes -> sub bytes 0 (SegmentBuilder_footer_len b) = out ->
  let f := {| footer_bytes := sb_metadata b; footer_header := sealed_header b; footer_limits := limits |} in
  Footer_decode bytes (sealed_header b) limits = Ok f /\
  Footer_frames f = Ok (sealed_frames (sequence (id (sb_header b))) (sb_data_end b) PAGE_SIZE ms).
Proof.
  intros Hb Hout bytes Hlen Hsub. cbv zeta. destruct (sealed_bytes_spec b ms Hb) as (t1 & t3 & Hsb & _ & _ & _ & Hl3 & _ & _ & Hsum & Hdec).
  rewrite Hsb in Hout. injection Hout as <-. pose proof (segment_ok_sizes limits b ms Hb) as Hsz.
  destruct (sealed_header_ok limits b ms Hb) as [Hsh Hw]. destruct (len_footer_body (sb_metadata b) ltac:(lia)) as [Hlp Hmd].
  unfold SegmentBuilder_footer_len in *. set (pre := footer_body (sb_metadata b)) in *. set (md := sb_metadata b) in *.
  set (l := footer_len (len md)) in *. set (h := sealed_header b) in *.
  assert (Hwl : wrap32 l = l) by (apply wrap32_small; unfold is_u32; lia).
  set (s := {| seal_data_end := sb_data_end b; seal_frame_count := sb_frame_count b; seal_metadata_len := wrap32 (len md) |}).
  assert (Hs : seal h = Some s) by reflexivity.
  set (f := {| footer_bytes := md; footer_header := h; footer_limits := limits |}).
  assert (Hwalk : footer_walk f (length ms) md PAGE_SIZE = Ok ([], sb_data_end b)).
  { pose proof (footer_walk_ok f s ms [] PAGE_SIZE) as H. rewrite app_nil_r, <- (so_metadata _ _ _ Hb), <- (so_end _ _ _ Hb) in H.
    apply H; try reflexivity; try (simpl; dlia). apply (so_frames _ _ _ Hb). }
  assert (Hfrom : frames_from f (length ms) md PAGE_SIZE = Ok (sealed_frames (sequence (id (sb_header b))) (sb_data_end b) PAGE_SIZE ms)).
  { pose proof (frames_from_ok f s ms [] PAGE_SIZE) as H. rewrite app_nil_r, <- (so_metadata _ _ _ Hb), <- (so_end _ _ _ Hb) in H.
    apply H; try reflexivity; try (simpl; dlia). apply (so_frames _ _ _ Hb). }
  assert (Hn : Z.to_nat (seal_frame_count s) = length ms) by (simpl; rewrite (so_count _ _ _ Hb); unfold len; lia).
  split; [|unfold Footer_frames; fold h; cbn [footer_header f]; rewrite Hs; cbn [expect rbind footer_bytes]; rewrite Hn; exact Hfrom].
  unfold Footer_decode, footer_range, FOOTER_TRAILER_LEN. rewrite Hs. cbn [ok_or expect rbind fst snd].
  change (seal_metadata_len s) with (wrap32 (len md)). rewrite Hw. fold l. rewrite Hwl.
  replace (segment_len h - (segment_len h - l)) with l by lia. rewrite get_to_Ok by lia. cbn [ok_or rbind]. rewrite Hsub.
  rewrite Hdec. cbn [rbind]. rewrite footer_checksum_parts by assumption. cbn [rbind ft_header ft_checksum]. rewrite Hsum.
  pass_guard; [|rewrite bool_decide_true, Z.eqb_refl by reflexivity; reflexivity].
  rewrite slice_Ok by (rewrite ?len_app; lia). cbn [rbind].
  pass_guard; [|rewrite sub_app_l by lia; unfold pre, footer_body; fold md l; rewrite sub_app_r by lia; rewrite sub_zeros by lia; apply any_nonzero_zeros].
  rewrite slice_Ok by (rewrite ?len_app; lia). cbn [rbind]. rewrite sub_app_l by lia.
  replace (sub pre 0 (len md)) with md by (unfold pre, footer_body; fold md; rewrite sub_app_l, sub_all by lia; reflexivity).
  fold f. rewrite Hn, Hwalk. cbn [rbind]. pass_guard; [reflexivity|].
  change (seal_data_end s) with (sb_data_end b). rewrite !Z.eqb_refl. reflexivity.
Qed.

(** ** Builders reached by appends *)

(** A builder of the segment [h] and the metadata appended to it. *)
Inductive built (h : SegmentHeader) : SegmentBuilder -> list Metadata -> Prop :=
| built_new b : SegmentBuilder_new h = Ok b -> built h b []
| built_append b ms bytes p m r b' :
    built h b ms -> Metadata_decode bytes limits p = Ok m -> SegmentBuilder_append r b m = Ok b' -> built h b' (ms ++ [m]).

Lemma built_ok h b ms : segment_header_ok h -> built h b ms -> segment_ok limits b ms /\ sb_header b = h.
Proof.
  intros Hh. induction 1 as [b H|b ms bytes p m r b' _ [IH Hhd] Hm Ha].
  - split; [eapply SegmentBuilder_new_ok; eassumption|]. unfold SegmentBuilder_new in H. inv_ok. subst b. reflexivity.
  - destruct (append_ok limits b ms m r b' IH ltac:(eauto) Ha) as (H & _ & He). split; [assumption | congruence].
Qed.

(** For every builder reached by appends, the data end is one page plus the frames
    appended, the footer metadata is theirs in order, and data and page-rounded footer together
    always fit the segment, so sealing can never fail for lack of room. *)
Theorem segment_accounting (h : SegmentHeader) (b : SegmentBuilder) (ms : list Metadata)
  (Hh : segment_header_ok h) (Hbuilt : built h b ms) :
  sb_data_end b = PAGE_SIZE + total ms /\ sb_frame_count b = len ms /\
  sb_metadata b = concat (map md_bytes ms) /\
  sb_data_end b + SegmentBuilder_footer_len b <= segment_len h /\
  (forall fl ml, 0 < fl < 2 ^ 32 -> fl mod 4096 = 0 -> 128 <= ml <= fl -> ml mod 4 = 0 ->
     (exists p, SegmentBuilder_position b fl ml = Ok p /\ offset p = sb_data_end b /\ segment_seq p = sequence (id h)) <->
     sb_data_end b + fl + footer_len (len (sb_metadata b) + ml) <= segment_len h).
Proof.
  destruct (built_ok h b ms Hh Hbuilt) as [Hb <-]. split; [apply Hb|]. split; [apply Hb|]. split; [apply Hb|]. split; [apply Hb|].
  intros fl ml H1 H2 H3 H4. rewrite (SegmentBuilder_position_exact limits b ms) by assumption. cbv zeta. set (req := _ + footer_len _).
  destruct (Z.gtb_spec req (segment_len (sb_header b))); split; try lia.
  - intros (p & Hp & _). discriminate.
  - intros _. eexists. split; [reflexivity|]. auto.
Qed.

(** C30: sealing a builder reached by appends writes a footer, and only the footer, into any
    buffer large enough; [Footer::decode] accepts it under the sealed header returned, and its frames
    are exactly those appended, in order, at their offsets, bounded by the sealed data end. *)
Theorem seal_footer_roundtrip (h : SegmentHeader) (b : SegmentBuilder) (ms : list Metadata) (bytes : list byte)
  (Hh : segment_header_ok h) (Hbuilt : built h b ms) (Hlen : SegmentBuilder_footer_len b <= len bytes) :
  exists b' bytes' sealed f,
    SegmentBuilder_seal_into b bytes = Ok (b', bytes', sealed) /\
    data_end sealed = Some (sb_data_end b) /\ id sealed = id h /\ segment_header_ok sealed /\
    Footer_decode bytes' sealed limits = Ok f /\
    Footer_frames f = Ok (sealed_frames (sequence (id h)) (sb_data_end b) PAGE_SIZE ms) /\
    len bytes' = len bytes /\
    sub bytes' (SegmentBuilder_footer_len b) (len bytes) = sub bytes (SegmentBuilder_footer_len b) (len bytes) /\
    SegmentBuilder_position b' PAGE_SIZE MIN_FRAME_METADATA_LEN = Err segment.Sealed.
Proof.
  destruct (built_ok h b ms Hh Hbuilt) as [Hb <-]. destruct (seal_into_bytes b ms bytes Hb Hlen) as (out & Ho & Hlo & Hseal).
  pose proof (segment_ok_sizes limits b ms Hb) as Hsz. unfold SegmentBuilder_footer_len in *.
  set (l := footer_len (len (sb_metadata b))) in *.
  destruct (seal_then_decode b ms out Hb Ho (splice bytes 0 out)) as [Hd Hf].
  { rewrite len_splice by lia. exact Hlen. }
  { unfold SegmentBuilder_footer_len. fold l. apply sub_splice_same; lia. }
  do 4 eexists. split; [exact Hseal|]. split; [reflexivity|]. split; [reflexivity|].
  split; [eapply sealed_header_ok; eassumption|]. split; [exact Hd|]. split; [exact Hf|].
  split; [apply len_splice; lia|]. split; [apply sub_splice_after; lia | reflexivity].
Qed.
End WithCrc.
