(* ===== verification/SegmentIncremental.v ===== *)
(** * Footers written and validated in bounded pieces

    The engine seals and recovers a segment a piece at a time. The encoder's
    pieces concatenate to the footer [seal_into] writes, and the stepwise
    validator accepts exactly what [Footer::decode] accepts. *)

From S2P Require Import Prelude Align Checksum ChunkId Codec FrameFormat FrameDecode FrameDecodeProofs.
From S2P Require Import SegmentFormat SegmentBuilder SegmentProofs SegmentFooter Checksum.

(** The pieces of [metadata ++ padding] the encoder copies. *)
Lemma chunk_copy md k o l :
  0 <= o -> 0 <= l -> 0 <= k -> o + l <= len md + k ->
  exists src, slice md (Z.min o (len md)) (Z.min o (len md) + Z.min (saturating_sub (len md) o) l) = @Ok segment.Error _ src /\
    len src <= l /\ splice (zeros l) 0 src = sub (md ++ zeros k) o (o + l).
Proof.
  intros Ho Hl Hk Hol. pose proof (len_nonneg md). unfold saturating_sub. destruct (Z.ltb_spec (len md) o) as [Hlt|Hge].
  - rewrite Z.min_r, Z.min_l, Z.add_0_r, slice_Ok by lia. eexists. split; [reflexivity|]. rewrite sub_empty.
    split; [exact Hl|]. rewrite splice_nil, sub_app_r, sub_zeros by lia. f_equal. lia.
  - rewrite (Z.min_l o) by lia. destruct (Z.le_gt_cases l (len md - o)) as [Hsm|Hbig].
    + rewrite Z.min_r, slice_Ok by lia. eexists. split; [reflexivity|]. rewrite len_sub by lia. split; [lia|].
      rewrite splice_whole by (rewrite len_sub, len_zeros; lia). rewrite sub_app_l by lia. reflexivity.
    + rewrite Z.min_l, slice_Ok by lia. eexists. split; [reflexivity|]. rewrite len_sub by lia. split; [lia|].
      replace (o + (len md - o)) with (len md) by lia. rewrite (sub_split (md ++ zeros k) o (len md)) by lia.
      rewrite (sub_app_l md _ o), (sub_app_r md _ (len md)) by lia. rewrite sub_zeros by lia.
      replace l with ((len md - o) + (l - (len md - o))) at 1 by lia. rewrite zeros_app by lia.
      rewrite splice_front by (rewrite len_sub, len_zeros; lia). do 2 f_equal. lia.
Qed.

Definition piece : Type := Z * list byte * bool.
Definition piece_bytes (x : piece) : list byte := x.1.2.

(** Page-multiple pieces of at most 64 KiB that follow one another, of which
    exactly the final page is marked last. *)
Fixpoint contiguous (base stop : Z) (xs : list piece) : Prop :=
  match xs with
  | [] => base = stop
  | (off, bytes, last) :: rest =>
      off = base /\ 0 < len bytes <= 65536 /\ len bytes mod 4096 = 0 /\ (last = true <-> base = stop - 4096) /\
      (last = true -> len bytes = 4096) /\ contiguous (base + len bytes) stop rest
  end.

Section WithCrc.
Context {C : CrcFast} {CS : CrcFastSpec C} (limits : FrameLimits).

(** Repeated [next] until it returns none, as the lifecycle job drives it. *)
Fixpoint drain (fuel : nat) (e : FooterEncoder Crc32c) : segment_result (list piece) :=
  match fuel with
  | O => Panic
  | S n =>
      let? (o, e) := FooterEncoder_next e in
      match o with
      | None => Ok []
      | Some x => let? rest := drain n e in Ok (x :: rest)
      end
  end.

Section Drain.
Context (b : SegmentBuilder) (ms : list Metadata) (Hb : segment_ok limits b ms) (t1 t3 : list byte).
Let md := sb_metadata b.
Let pre := footer_body md.
Let L := SegmentBuilder_footer_len b.
Context (Ht1 : encode_trailer (zeros 64) (sealed_header b) L = Ok t1) (Hl1 : len t1 = 64) (Hl3 : len t3 = 64).
Context (Hfin : finish_trailer t1 (sum_of pre t1) = Ok t3) (Hz1 : sub t1 12 16 = zeros 4) (Hz2 : sub t1 60 64 = zeros 4).

Lemma drain_sizes : len pre = L - 64 /\ 4096 <= L < 2 ^ 32 /\ L mod 4096 = 0 /\ 0 <= len md <= L - 64 /\ L <= segment_len (sealed_header b) < 2 ^ 32.
Proof.
  pose proof (segment_ok_sizes limits b ms Hb) as Hsz. unfold L, SegmentBuilder_footer_len. fold md in Hsz |- *.
  destruct (len_footer_body md ltac:(lia)) as [H1 H2]. change (segment_len (sealed_header b)) with (segment_len (sb_header b)).
  repeat split; try assumption; try lia. dlia.
Qed.

Lemma pre_eq : pre ++ zeros 64 = md ++ zeros (L - len md).
Proof.
  pose proof drain_sizes. unfold pre, footer_body. change (footer_len (len md)) with L. rewrite <- app_assoc, <- zeros_app by lia. do 2 f_equal. lia.
Qed.

Lemma pre_sub x y : 0 <= x -> y <= L - 64 -> sub (md ++ zeros (L - len md)) x y = sub pre x y.
Proof. intros. pose proof drain_sizes. rewrite <- pre_eq. apply sub_app_l; lia. Qed.

(** The encoder state after [o] bytes. *)
Definition encoder_at (o : Z) (e : FooterEncoder Crc32c) : Prop :=
  fe_metadata e = md /\ fe_header e = sealed_header b /\ fe_len e = L /\ fe_offset e = o /\
  exists parts, fe_checksum e = foldl Crc32c_update Crc32c_new parts /\ concat parts = sub pre 0 o.

Lemma sum_of_whole : crc32c (pre ++ t1) = sum_of pre t1.
Proof.
  unfold sum_of. pose proof (crc_parts CS [pre ++ sub t1 0 12; zeros 4; sub t1 16 60; zeros 4]) as H. cbn [foldl concat] in H. rewrite H.
  f_equal. rewrite app_nil_r, <- app_assoc. f_equal. rewrite <- (sub_all t1) at 1. rewrite Hl1.
  rewrite (sub_split t1 0 12), (sub_split t1 12 16), (sub_split t1 16 60), Hz1, Hz2 by lia. reflexivity.
Qed.

Lemma next_middle e o : encoder_at o e -> 0 <= o -> o < L - 4096 -> o mod 4096 = 0 ->
  exists x e', FooterEncoder_next e = Ok (Some x, e') /\
    piece_bytes x = sub pre o (o + Z.min (L - 4096 - o) 65536) /\ encoder_at (o + Z.min (L - 4096 - o) 65536) e' /\
    x.1.1 = segment_len (sealed_header b) - L + o /\ x.2 = false.
Proof.
  intros (Hm & Hh & Hlen & Hoff & parts & Hsum & Hcat) Ho Hlt Hmod. pose proof drain_sizes.
  unfold FooterEncoder_next, PAGE_SIZE. rewrite Hm, Hh, Hlen, Hoff. rewrite (proj2 (Z.eqb_neq _ _)), (proj2 (Z.eqb_neq _ _)) by lia.
  change (Z.shiftl 64 10) with 65536. set (l := Z.min (L - 4096 - o) 65536).
  destruct (chunk_copy md (L - len md) o l) as (src & Hsrc & Hls & Hsp); [lia..|]. rewrite Hsrc. cbn [rbind].
  rewrite copy_at_Ok by (rewrite ?len_zeros; lia). cbn [rbind]. rewrite Hsp, pre_sub by lia.
  eexists _, _. split; [reflexivity|]. split; [reflexivity|]. split; [|split; [|reflexivity]].
  - repeat split; try (simpl; congruence). exists (parts ++ [sub pre o (o + l)]). split; [simpl; rewrite foldl_app, Hsum; reflexivity|].
    rewrite concat_app, Hcat. simpl. rewrite app_nil_r, <- sub_split by lia. reflexivity.
  - cbn [fst snd]. rewrite (wrap32_small L), (wrap32_small o), wrap32_small by (unfold is_u32; lia). reflexivity.
Qed.

Lemma next_last e : encoder_at (L - 4096) e ->
  exists x e', FooterEncoder_next e = Ok (Some x, e') /\ piece_bytes x = sub pre (L - 4096) (L - 64) ++ t3 /\
    x.1.1 = segment_len (sealed_header b) - 4096 /\ x.2 = true /\ FooterEncoder_next e' = Ok (None, e').
Proof.
  intros (Hm & Hh & Hlen & Hoff & parts & Hsum & Hcat). pose proof drain_sizes as (D1 & D2 & D3 & D4 & D5).
  unfold FooterEncoder_next at 1. unfold PAGE_SIZE, FOOTER_TRAILER_LEN. rewrite Hm, Hh, Hlen, Hoff.
  rewrite (proj2 (Z.eqb_neq (L - 4096) L)), Z.eqb_refl by lia.
  destruct (chunk_copy md (L - len md) (L - 4096) 4096) as (src & Hsrc & Hls & Hsp); [lia..|]. rewrite Hsrc. cbn [rbind].
  rewrite copy_at_Ok by (rewrite ?len_zeros; lia). cbn [rbind]. rewrite Hsp.
  set (tl := sub pre (L - 4096) (L - 64)). assert (Htl : len tl = 4032) by (unfold tl; rewrite len_sub; lia).
  assert (Hpage : sub (md ++ zeros (L - len md)) (L - 4096) (L - 4096 + 4096) = tl ++ zeros 64).
  { rewrite (sub_split _ _ (L - 64)) by lia. rewrite pre_sub by lia. f_equal. rewrite <- pre_eq, sub_app_r by lia.
    rewrite <- (sub_all (zeros 64)). f_equal; rewrite ?len_zeros; lia. }
  rewrite Hpage. rewrite on_slice_tail by (first [lia | intros t' Ht'; rewrite Ht1 in Ht'; injection Ht' as <-; assumption]).
  rewrite Ht1. cbn [rbind].
  assert (Hcrc : Crc32c_finalize (Crc32c_update (fe_checksum e) (tl ++ t1)) = sum_of pre t1).
  { rewrite Hsum. pose proof (crc_parts CS (parts ++ [tl ++ t1])) as Hp. rewrite foldl_app in Hp. simpl in Hp. rewrite Hp.
    rewrite concat_app, Hcat. simpl. rewrite app_nil_r, app_assoc. unfold tl. rewrite <- sub_split by lia. rewrite <- D1, sub_all. apply sum_of_whole. }
  rewrite Hcrc. rewrite on_slice_tail by (first [lia | intros t'; apply put_u32_len]). unfold finish_trailer in Hfin.
  apply rbind_Ok_inv in Hfin as (t2 & Hp2 & Hfin'). rewrite Hp2. cbn [rbind]. apply put_u32_len in Hp2 as Hl2.
  rewrite slice_Ok by len_lia. cbn [rbind]. rewrite sub_app_r by lia.
  replace (sub t2 _ _) with t2 by (rewrite <- (sub_all t2) at 1; f_equal; len_lia).
  apply rbind_Ok_inv in Hfin' as (crc & Hc & Hfin'). rewrite Hc. cbn [rbind].
  rewrite on_slice_tail by (first [lia | intros t'; apply put_u32_len]). rewrite Hfin'. cbn [rbind].
  eexists _, _. split; [reflexivity|]. split; [reflexivity|]. split; [|split; [reflexivity|]].
  - cbn [fst snd]. rewrite (wrap32_small L), (wrap32_small (L - 4096)), wrap32_small by (unfold is_u32; lia). lia.
  - unfold FooterEncoder_next. cbn [fe_offset fe_len]. replace (L - 4096 + 4096) with L by lia. rewrite Z.eqb_refl. reflexivity.
Qed.

Lemma drain_from fuel : forall e o, encoder_at o e -> 0 <= o <= L - 4096 -> o mod 4096 = 0 -> L - o < 4096 * Z.of_nat fuel ->
  exists xs, drain fuel e = Ok xs /\ concat (map piece_bytes xs) = sub pre o (L - 64) ++ t3 /\
    contiguous (segment_len (sealed_header b) - L + o) (segment_len (sealed_header b)) xs.
Proof.
  pose proof drain_sizes as (D1 & D2 & D3 & D4 & D5).
  induction fuel as [|fuel IH]; intros e o He Ho Hmod Hfuel; [lia|]. cbn [drain].
  destruct (Z.eq_dec o (L - 4096)) as [Heq|Hneq].
  - subst o. destruct (next_last e He) as (x & e' & Hn & Hbytes & Hoff & Hlast & Hnone). rewrite Hn. cbn [rbind].
    destruct fuel as [|fuel]; [lia|]. cbn [drain]. rewrite Hnone. cbn [rbind]. exists [x]. split; [reflexivity|].
    destruct x as [[off bs] la]. unfold piece_bytes in *. simpl in *. subst. rewrite app_nil_r. split; [reflexivity|].
    assert (Hlb : len (sub pre (L - 4096) (L - 64) ++ t3) = 4096) by (rewrite len_app, len_sub; lia).
    rewrite Hlb. repeat split; try reflexivity; lia.
  - set (l := Z.min (L - 4096 - o) 65536). assert (Hl : 0 < l <= 65536 /\ o + l <= L - 4096) by lia.
    assert (Hl4 : l mod 4096 = 0) by (unfold l; destruct (Z.min_spec (L - 4096 - o) 65536) as [[_ ->]|[_ ->]]; [dlia | reflexivity]).
    destruct (next_middle e o He ltac:(lia) ltac:(lia) Hmod) as (x & e' & Hn & Hbytes & He' & Hoff & Hlast). fold l in Hbytes, He'.
    rewrite Hn. cbn [rbind]. destruct (IH e' (o + l) He') as (xs & Hxs & Hcat & Hcont); [lia | dlia | dlia |].
    rewrite Hxs. cbn [rbind]. exists (x :: xs). split; [reflexivity|]. destruct x as [[off bs] la]. unfold piece_bytes in *. simpl in *. subst.
    rewrite Hcat, app_assoc, <- sub_split by lia. split; [reflexivity|].
    rewrite len_sub by lia. replace (o + l - o) with l by lia.
    repeat split; try lia; try discriminate. replace (segment_len (sb_header b) - L + o + l) with (segment_len (sb_header b) - L + (o + l)) by lia. assumption.
Qed.
End Drain.

(** draining the incremental footer encoder of a builder reached by appends terminates
    with contiguous page-multiple pieces of at most 64 KiB that end at the segment end, of which
    exactly the final page is marked last, and whose concatenation is the footer [seal_into] writes. *)
Theorem incremental_footer_equiv (h : SegmentHeader) (b : SegmentBuilder) (ms : list Metadata) (bytes : list byte) (fuel : nat)
  (Hh : segment_header_ok h) (Hbuilt : built limits h b ms) (Hlen : len bytes = SegmentBuilder_footer_len b)
  (Hfuel : SegmentBuilder_footer_len b < 4096 * Z.of_nat fuel) :
  exists xs b' out sealed,
    drain fuel (into_footer b) = Ok xs /\ SegmentBuilder_seal_into b bytes = Ok (b', out, sealed) /\
    concat (map piece_bytes xs) = out /\
    contiguous (segment_len h - SegmentBuilder_footer_len b) (segment_len h) xs.
Proof.
  destruct (built_ok limits h b ms Hh Hbuilt) as [Hb <-].
  destruct (seal_into_bytes limits b ms bytes Hb ltac:(lia)) as (out & Ho & Hlo & Hseal).
  destruct (sealed_bytes_spec limits b ms Hb) as (t1 & t3 & Hsb & Ht1 & Hfin & Hl1 & Hl3 & Hz1 & Hz2 & _ & _).
  pose proof (drain_sizes b ms Hb) as (D1 & D2 & D3 & D4 & D5).
  destruct (drain_from b ms Hb t1 t3 Ht1 Hl1 Hl3 Hfin Hz1 Hz2 fuel (into_footer b) 0) as (xs & Hxs & Hcat & Hcont); try lia; try reflexivity.
  { repeat split. exists []. auto. }
  exists xs. do 3 eexists. split; [exact Hxs|]. split; [exact Hseal|]. rewrite Hsb in Ho. injection Ho as <-.
  rewrite Hcat, <- D1, sub_all. split; [symmetry; apply splice_whole; lia|]. rewrite Z.add_0_r in Hcont. exact Hcont.
Qed.
End WithCrc.
