(* ===== verification/SegmentValidator.v ===== *)
(** * The stepwise footer validator agrees with one-pass decoding *)

From S2P Require Import Prelude Align Checksum ChunkId Codec FrameFormat FrameDecode FrameDecodeProofs.
From S2P Require Import SegmentFormat SegmentBuilder SegmentProofs SegmentFooter Checksum.

Lemma sub_nil_ge {A} (l : list A) a b : b <= a -> sub l a b = [].
Proof. intros. unfold sub. replace (Z.to_nat (b - a)) with 0%nat by lia. reflexivity. Qed.

(** Restricting adjacent ranges to a window. *)
Lemma sub_window {A} (l : list A) c s a b d : 0 <= a <= b -> b <= d -> 0 <= c <= s ->
  sub l (Z.max c a) (Z.min s b) ++ sub l (Z.max c b) (Z.min s d) = sub l (Z.max c a) (Z.min s d).
Proof.
  intros Hab Hbd Hcs. destruct (Z.le_gt_cases s b) as [H1|H1].
  - rewrite (sub_nil_ge l (Z.max c b)) by lia. rewrite app_nil_r, !Z.min_l by lia. reflexivity.
  - destruct (Z.le_gt_cases b c) as [H2|H2].
    + rewrite (sub_nil_ge l (Z.max c a) (Z.min s b)) by lia. rewrite !Z.max_l by lia. reflexivity.
    + rewrite (Z.min_r s b), (Z.max_r c b) by lia. rewrite <- sub_split by lia. reflexivity.
Qed.

Lemma any_nonzero_sub_nil l a b : b <= a -> any_nonzero (sub l a b) = false.
Proof. intros. rewrite sub_nil_ge by assumption. reflexivity. Qed.

Section WithCrc.
Context {C : CrcFast} {CS : CrcFastSpec C}.

(** [FooterValidator::step] repeated until it reports completion. *)
Fixpoint validate (fuel : nat) (v : FooterValidator) (bytes : list byte) : segment_result bool :=
  match fuel with
  | O => Panic
  | S n =>
      let? (done, v) := FooterValidator_step v bytes in
      if done : bool then Ok true else validate n v bytes
  end.

Section Run.
Context (bytes : list byte) (header : SegmentHeader) (limits : FrameLimits) (s : Seal).
Context (Hs : seal header = Some s) (Hh : segment_header_ok header) (Hlen : len bytes = footer_len (seal_metadata_len s)).
Let at_ := len bytes - 64.
Let ml := seal_metadata_len s.

(** The footer with both checksum fields reading as zero. *)
Definition masked : list byte := sub bytes 0 (at_ + 12) ++ zeros 4 ++ sub bytes (at_ + 16) (at_ + 60) ++ zeros 4.

Lemma run_sizes : 0 <= ml <= at_ /\ 0 <= at_ /\ len bytes < 2 ^ 32 /\ 0 <= seal_frame_count s < 2 ^ 32 /\ seal_data_end s < 2 ^ 32.
Proof.
  destruct Hh as (_ & (Hg & _) & Hsok). rewrite Hs in Hsok. destruct Hsok as (S1 & _ & S3 & _ & S5 & S6 & _ & _ & S9 & _ & S11).
  destruct (footer_len_page ml) as (q & Hq & Hb); [unfold ml; lia|]. unfold at_, ml in *. lia.
Qed.

Lemma len_masked : len masked = len bytes.
Proof. pose proof run_sizes. unfold masked, at_ in *. rewrite !len_app, !len_sub, !len_zeros by lia. lia. Qed.

Lemma masked_front x y : 0 <= x -> y <= at_ + 12 -> sub masked x y = sub bytes x y.
Proof.
  intros. pose proof run_sizes. destruct (Z.le_gt_cases y x); [rewrite !sub_nil_ge by lia; reflexivity|].
  unfold masked. rewrite sub_app_l by (rewrite ?len_sub; unfold at_ in *; lia). rewrite sub_sub by (unfold at_ in *; lia). f_equal; lia.
Qed.

Lemma masked_middle x y : at_ + 16 <= x -> y <= at_ + 60 -> sub masked x y = sub bytes x y.
Proof.
  intros. pose proof run_sizes. destruct (Z.le_gt_cases y x); [rewrite !sub_nil_ge by lia; reflexivity|].
  unfold masked, at_ in *. rewrite sub_app_r by (rewrite ?len_sub; lia). rewrite len_sub by lia.
  rewrite sub_app_r by (rewrite ?len_zeros; lia). rewrite len_zeros by lia.
  rewrite sub_app_l by (rewrite ?len_sub; lia). rewrite sub_sub by lia. f_equal; lia.
Qed.

Lemma masked_zero x y : (at_ + 12 <= x /\ y <= at_ + 16) \/ (at_ + 60 <= x /\ y <= at_ + 64) -> x <= y -> sub masked x y = zeros (y - x).
Proof.
  intros Hr Hxy. pose proof run_sizes. unfold masked, at_ in *. rewrite sub_app_r by (rewrite ?len_sub; lia). rewrite len_sub by lia.
  destruct Hr as [Hr|Hr].
  - rewrite sub_app_l by (rewrite ?len_zeros; lia). rewrite sub_zeros by lia. f_equal. lia.
  - rewrite sub_app_r by (rewrite ?len_zeros; lia). rewrite len_zeros by lia. rewrite sub_app_r by (rewrite ?len_sub; lia).
    rewrite len_sub by lia. rewrite sub_zeros by lia. f_equal. lia.
Qed.

(** A digest that has consumed [data]. *)
Definition digests (d : Crc32c) (data : list byte) : Prop :=
  exists parts, d = foldl Crc32c_update Crc32c_new parts /\ concat parts = data.

Lemma digests_update d data more : digests d data -> digests (Crc32c_update d more) (data ++ more).
Proof.
  intros (parts & -> & <-). exists (parts ++ [more]). rewrite foldl_app, concat_app. simpl. rewrite app_nil_r. auto.
Qed.

Lemma digests_finalize d data : digests d data -> Crc32c_finalize d = crc32c data.
Proof. intros (parts & -> & <-). apply crc_parts, CS. Qed.

Lemma region_step chk stop start last zero rest sum data :
  0 <= chk <= stop -> stop <= len bytes -> 0 <= start <= last -> last <= len bytes -> digests sum data ->
  (forall x y, start <= x -> x <= y -> y <= last -> sub masked x y = if zero : bool then zeros (y - x) else sub bytes x y) ->
  (zero = true -> last - start <= 4) ->
  exists sum', checksum_regions bytes chk stop ((start, last, zero) :: rest) sum = checksum_regions bytes chk stop rest sum' /\
    digests sum' (data ++ sub masked (Z.max chk start) (Z.min stop last)).
Proof.
  intros Hc Hst Hsl Hll Hd Hreg Hz. cbn [checksum_regions]. destruct (Z.ltb_spec (Z.max chk start) (Z.min stop last)) as [Hlt|Hge].
  - rewrite (Hreg (Z.max chk start)) by lia. destruct zero.
    + rewrite slice_Ok by (rewrite ?len_zeros; lia). cbn [rbind]. eexists. split; [reflexivity|].
      rewrite sub_zeros by lia. rewrite Z.sub_0_r. apply digests_update. assumption.
    + rewrite slice_Ok by lia. cbn [rbind]. eexists. split; [reflexivity|]. apply digests_update. assumption.
  - cbn [rbind]. eexists. split; [reflexivity|]. rewrite sub_nil_ge by lia. rewrite app_nil_r. assumption.
Qed.

Lemma checksum_pass chk stop sum :
  0 <= chk <= stop -> stop <= len bytes -> digests sum (sub masked 0 chk) ->
  exists sum', checksum_regions bytes chk stop
      [(0, at_ + 12, false); (at_ + 12, at_ + 16, true); (at_ + 16, at_ + 60, false); (at_ + 60, len bytes, true)] sum = Ok sum' /\
    digests sum' (sub masked 0 stop).
Proof.
  intros Hc Hst Hd. pose proof run_sizes as (_ & Ha & _). assert (Hlb : len bytes = at_ + 64) by (unfold at_; lia).
  destruct (region_step chk stop 0 (at_ + 12) false [(at_ + 12, at_ + 16, true); (at_ + 16, at_ + 60, false); (at_ + 60, len bytes, true)] sum _ Hc Hst
    ltac:(lia) ltac:(lia) Hd) as (s1 & -> & H1); [intros; apply masked_front; lia | discriminate |].
  destruct (region_step chk stop (at_ + 12) (at_ + 16) true [(at_ + 16, at_ + 60, false); (at_ + 60, len bytes, true)] s1 _ Hc Hst
    ltac:(lia) ltac:(lia) H1) as (s2 & -> & H2); [intros; apply masked_zero; lia | lia |].
  destruct (region_step chk stop (at_ + 16) (at_ + 60) false [(at_ + 60, len bytes, true)] s2 _ Hc Hst
    ltac:(lia) ltac:(lia) H2) as (s3 & -> & H3); [intros; apply masked_middle; lia | discriminate |].
  destruct (region_step chk stop (at_ + 60) (len bytes) true [] s3 _ Hc Hst
    ltac:(lia) ltac:(lia) H3) as (s4 & -> & H4); [intros; apply masked_zero; lia | lia |].
  exists s4. split; [reflexivity|]. rewrite <- !app_assoc in H4.
  rewrite !sub_window in H4 by lia. rewrite Z.max_l, Z.min_l in H4 by lia. rewrite <- sub_split in H4 by lia. assumption.
Qed.

Lemma footer_checksum_masked : footer_checksum bytes = Ok (crc32c masked).
Proof.
  pose proof run_sizes. unfold footer_checksum, FOOTER_TRAILER_LEN. fold at_. rewrite !slice_Ok by (unfold at_ in *; lia). cbn [rbind].
  f_equal. pose proof (crc_parts CS [sub bytes 0 (at_ + 12); zeros 4; sub bytes (at_ + 16) (at_ + 60); zeros 4]) as H'.
  cbn [foldl concat] in H'. rewrite app_nil_r in H'. exact H'.
Qed.

Definition run_footer : Footer := {| footer_bytes := sub bytes 0 ml; footer_header := header; footer_limits := limits |}.

(** The walk over the frames from metadata offset [a]. *)
Definition walks (k a off : Z) : Prop :=
  exists remaining, footer_walk run_footer (Z.to_nat (seal_frame_count s - k)) (sub bytes a ml) off = Ok (remaining, seal_data_end s) /\ len remaining = 0.

Lemma validate_frames fuel : forall v,
  checksum_done v = true -> fv_header v = header -> fv_limits v = limits -> 0 <= metadata_at v <= ml ->
  0 <= fv_frames v <= seal_frame_count s -> seal_frame_count s - fv_frames v < Z.of_nat fuel ->
  validate fuel v bytes = Ok true <-> walks (fv_frames v) (metadata_at v) (frame_offset v).
Proof.
  pose proof run_sizes as (R1 & R2 & R3 & R4 & _). assert (Hat : at_ <= len bytes) by (unfold at_; lia).
  induction fuel as [|fuel IH]; intros v Hd Hhd Hlim Ha Hk Hf; [lia|]. cbn [validate]. unfold FooterValidator_step.
  rewrite Hhd, Hs. cbn [expect rbind]. rewrite Hd. cbn [negb]. fold ml.
  set (a := metadata_at v) in *. set (k := fv_frames v) in *. set (off := frame_offset v) in *. unfold walks.
  assert (Hla : len (sub bytes a ml) = ml - a) by (rewrite len_sub; lia).
  destruct (Z.eqb_spec k (seal_frame_count s)) as [He|He].
  - rewrite He, Z.sub_diag. cbn [Z.to_nat footer_walk]. unfold fail_if.
    destruct (Z.eqb_spec a ml) as [Hm|Hm]; cbn [negb orb rbind].
    + destruct (Z.eqb_spec off (seal_data_end s)) as [Hoff|Hoff]; cbn [negb rbind]; (split; [|intros (rm & H & Hr)]).
      * intros _. exists (sub bytes a ml). rewrite Hoff. split; [reflexivity | lia].
      * reflexivity.
      * discriminate.
      * injection H as _ H2. exact (False_ind _ (Hoff H2)).
    + split; [discriminate|]. intros (rm & [= <- _] & Hr). lia.
  - replace (Z.to_nat (seal_frame_count s - k)) with (S (Z.to_nat (seal_frame_count s - (k + 1)))) by lia.
    cbn [footer_walk]. unfold decode_next. cbn [footer_header footer_limits run_footer]. rewrite Hlim.
    destruct (SegmentHeader_position header off) as [p|e|]; cbn [map_err rbind]; [|split; [discriminate | intros (? & [=] & _)]..].
    rewrite slice_Ok by lia. cbn [rbind]. pose proof (Metadata_decode_ok (sub bytes a ml) limits p) as Hm.
    destruct (Metadata_decode (sub bytes a ml) limits p) as [m|e|]; cbn [map_err rbind]; [|split; [discriminate | intros (? & [=] & _)]..].
    destruct (Hm m eq_refl) as (ds & Hok & _ & Hle). pose proof (mo_len _ _ _ _ Hok) as Hlm. pose proof (len_nonneg (md_bytes m)). clear Hm.
    rewrite slice_Ok by lia. cbn [map_err rbind]. rewrite Hla, sub_sub by lia. replace (a + (ml - a)) with ml by lia.
    rewrite IH by (cbn [checksum_done fv_header fv_limits metadata_at fv_frames]; auto; rewrite ?wrap32_small by (unfold is_u32; lia); lia).
    unfold walks. cbn [fv_frames metadata_at frame_offset]. rewrite (wrap32_small (k + 1)) by (unfold is_u32; lia). reflexivity.
Qed.

Lemma validate_checksum n1 n2 : forall v,
  checksum_done v = false -> fv_header v = header -> fv_limits v = limits -> metadata_at v = 0 -> fv_frames v = 0 ->
  frame_offset v = PAGE_SIZE -> 0 <= checked v < len bytes -> digests (fv_checksum v) (sub (masked) 0 (checked v)) ->
  len bytes - checked v <= 65536 * Z.of_nat n1 -> seal_frame_count s < Z.of_nat n2 ->
  validate (n1 + n2) v bytes = Ok true <->
    any_nonzero (sub bytes (Z.max (checked v) ml) at_) = false /\ crc32c masked = fv_expected v /\ walks 0 0 PAGE_SIZE.
Proof.
  pose proof run_sizes as (R1 & R2 & R3 & R4 & _). assert (Hat : len bytes = at_ + 64) by (unfold at_; lia).
  induction n1 as [|n1 IH]; intros v Hd Hhd Hlim Ha Hk Hoff Hc Hdig Hn1 Hn2; [lia|]. cbn [Nat.add validate]. unfold FooterValidator_step.
  rewrite Hhd, Hs. cbn [expect rbind]. rewrite Hd. cbn [negb]. change (len bytes - FOOTER_TRAILER_LEN) with at_. fold ml.
  change (Z.shiftl 64 10) with 65536. set (c := checked v) in *. set (stop := Z.min (c + 65536) (len bytes)).
  destruct (checksum_pass c stop (fv_checksum v) ltac:(lia) ltac:(lia) Hdig) as (sum & -> & Hdig'). cbn [rbind].
  set (bad := if Z.max c ml <? Z.min stop at_ then _ else _).
  assert (Hbad : bad = Ok (any_nonzero (sub bytes (Z.max c ml) (Z.min stop at_)))).
  { unfold bad. destruct (Z.ltb_spec (Z.max c ml) (Z.min stop at_)); [rewrite slice_Ok by lia; reflexivity|].
    rewrite any_nonzero_sub_nil by lia. reflexivity. }
  rewrite Hbad. clear bad Hbad. cbn [rbind].
  assert (Hpad : any_nonzero (sub bytes (Z.max c ml) at_) =
    any_nonzero (sub bytes (Z.max c ml) (Z.min stop at_)) || any_nonzero (sub bytes (Z.max stop ml) at_)).
  { pose proof (sub_window bytes c (Z.max c at_) ml (Z.max ml (Z.min stop at_)) (Z.max ml at_) ltac:(lia) ltac:(lia) ltac:(lia)) as Hw.
    destruct (Z.le_gt_cases stop at_).
    - rewrite Z.min_l by lia. destruct (Z.le_gt_cases ml stop).
      + rewrite <- any_nonzero_app, (Z.max_l stop ml) by lia. rewrite <- sub_split by lia. reflexivity.
      + rewrite (any_nonzero_sub_nil bytes (Z.max c ml) stop) by lia. rewrite !Z.max_r by lia. reflexivity.
    - rewrite Z.min_r by lia. rewrite (any_nonzero_sub_nil bytes (Z.max stop ml)) by lia. rewrite orb_false_r. reflexivity. }
  rewrite Hpad. destruct (any_nonzero (sub bytes (Z.max c ml) (Z.min stop at_))); cbn [fail_if rbind orb]; [split; [discriminate | intros [[=] _]]|].
  destruct (Z.eqb_spec stop (len bytes)) as [Hend|Hmore].
  - rewrite Hend in Hdig'. rewrite (any_nonzero_sub_nil bytes (Z.max stop ml)) by lia.
    rewrite <- len_masked in Hdig'. rewrite sub_all in Hdig'. rewrite (digests_finalize _ _ Hdig'). unfold fail_if.
    destruct (Z.eqb_spec (crc32c masked) (fv_expected v)) as [Hcrc|Hcrc]; cbn [negb rbind]; [|split; [discriminate | tauto]].
    rewrite validate_frames by (cbn [checksum_done fv_header fv_limits metadata_at fv_frames]; auto; lia).
    cbn [fv_frames metadata_at frame_offset]. rewrite Ha, Hk, Hoff. tauto.
  - cbn [rbind]. rewrite IH by (cbn [checksum_done fv_header fv_limits metadata_at fv_frames frame_offset checked fv_checksum]; auto; lia).
    cbn [checked fv_expected]. reflexivity.
Qed.
End Run.

(** On a footer of the length its sealed header announces, the engine's budgeted
    validator, stepped at most once per 64 KiB piece, once per frame and once more, accepts exactly
    when [Footer::decode] accepts. *)
Theorem stepwise_validation_equiv (bytes : list byte) (header : SegmentHeader) (limits : FrameLimits) (s : Seal) (n1 n2 : nat)
  (Hs : seal header = Some s) (Hh : segment_header_ok header) (Hlen : len bytes = footer_len (seal_metadata_len s))
  (Hn1 : len bytes <= 65536 * Z.of_nat n1) (Hn2 : seal_frame_count s < Z.of_nat n2) :
  (exists f, Footer_decode bytes header limits = Ok f) <->
  (exists v, FooterValidator_new bytes header limits = Ok v /\ validate (n1 + n2) v bytes = Ok true).
Proof.
  pose proof (run_sizes bytes header s Hs Hh Hlen) as (R1 & R2 & R3 & R4 & R5). pose proof (len_nonneg bytes).
  unfold Footer_decode, FooterValidator_new, footer_range, FOOTER_TRAILER_LEN. rewrite Hs. cbn [ok_or expect rbind fst snd].
  rewrite <- Hlen, (wrap32_small (len bytes)) by (unfold is_u32; lia). replace (segment_len header - (segment_len header - len bytes)) with (len bytes) by lia.
  rewrite get_to_Ok by lia. rewrite sub_all. cbn [ok_or rbind].
  destruct (FooterTrailer_decode bytes (segment_len header)) as [t|e|]; cbn [rbind]; [|split; [intros (? & [=]) | intros (? & [=] & _)]..].
  rewrite (footer_checksum_masked bytes header s Hs Hh Hlen). cbn [rbind]. unfold fail_if.
  destruct (bool_decide (ft_header t = header)); cbn [negb orb rbind]; [|split; [intros (? & [=]) | intros (? & [=] & _)]].
  rewrite !slice_Ok by lia. cbn [rbind].
  match goal with |- _ <-> (exists v, Ok ?v0 = Ok v /\ _) =>
    pose proof (validate_checksum bytes header limits s Hs Hh Hlen n1 n2 v0 eq_refl eq_refl eq_refl eq_refl eq_refl eq_refl) as Hv;
    cbn [checked fv_checksum fv_expected] in Hv;
    specialize (Hv ltac:(lia) ltac:(exists []; auto) ltac:(lia) Hn2);
    assert (Hr : (exists v, @Ok segment.Error _ v0 = Ok v /\ validate (n1 + n2) v bytes = Ok true) <-> validate (n1 + n2) v0 bytes = Ok true)
      by (split; [intros (v & [= <-] & H'); exact H' | eauto]) end.
  rewrite Hr, Hv. clear Hr Hv. rewrite Z.max_r by lia. unfold walks, run_footer. rewrite Z.sub_0_r.
  destruct (Z.eqb_spec (ft_checksum t) (crc32c (masked bytes))) as [Hc|Hc]; cbn [negb rbind]; [|split; [intros (? & [=]) | intros (_ & Hc' & _); congruence]].
  destruct (any_nonzero (sub bytes (seal_metadata_len s) (len bytes - 64))); cbn [rbind]; [split; [intros (? & [=]) | intros ([=] & _)]|].
  destruct (footer_walk _ _ _ _) as [[rm off]|e|]; cbn [rbind]; [|split; [intros (? & [=]) | intros (_ & _ & ? & [=] & _)]..].
  destruct (Z.eqb_spec (len rm) 0), (Z.eqb_spec off (seal_data_end s)); cbn [negb orb rbind]; split;
    try (intros (? & [=]); fail); try (intros (_ & _ & ? & [= <- ->] & ?); congruence).
  - intros _. split; [reflexivity|]. split; [congruence|]. exists rm. subst. auto.
  - eauto.
Qed.
End WithCrc.
