(* ===== verification/SegmentRecovery.v ===== *)
(** * Recovering a segment frame by frame

    Reading untrusted segment metadata never panics; what the scanner
    recovers from an active segment can always be collected in a builder and
    sealed; and a sealed segment is recovered completely or not at all. *)

From S2P Require Import Prelude Align Checksum ChunkId Codec FrameFormat FrameDecode FrameDecodeProofs.
From S2P Require Import SegmentFormat SegmentBuilder SegmentProofs SegmentFooter Checksum.

Section WithCrc.
Context {C : CrcFast} (limits : FrameLimits).

(** ** Totality *)

Lemma FramePosition_new_safe a b c : safe (FramePosition_new a b c).
Proof. unfold FramePosition_new. safe_steps. Qed.

Lemma decode_next_safe f bytes off : safe (decode_next f bytes off).
Proof.
  unfold decode_next. apply safe_map_err. apply safe_rbind; [apply FramePosition_new_safe|]. intros p _.
  apply safe_rbind; [apply Metadata_decode_safe|]. intros m Hm. destruct (Metadata_decode_ok _ _ _ _ Hm) as (ds & Hok & _ & Hle).
  pose proof (mo_len _ _ _ _ Hok). pose proof (len_nonneg (md_bytes m)). rewrite slice_Ok by lia. apply safe_Ok.
Qed.

Lemma footer_walk_safe f n : forall bytes off, safe (footer_walk f n bytes off).
Proof.
  induction n as [|n IH]; intros bytes off; cbn [footer_walk]; [apply safe_Ok|].
  apply safe_rbind; [apply decode_next_safe|]. intros [m rest] _. apply IH.
Qed.

Lemma Footer_decode_safe bytes header lim : geometry_ok (segment_len header) -> safe (Footer_decode bytes header lim).
Proof.
  intros Hg. unfold Footer_decode, FOOTER_TRAILER_LEN. destruct (seal header) as [s|] eqn:Hs; [|apply safe_Err]. cbn [ok_or rbind].
  unfold footer_range. rewrite Hs. cbn [expect rbind fst snd]. set (l := _ - (_ - _)).
  apply safe_rbind; [apply safe_ok_or|]. intros b Hb. apply ok_or_Ok, get_to_Some in Hb as [Hl ->].
  apply safe_rbind; [apply FooterTrailer_decode_safe|]. intros t Ht.
  apply FooterTrailer_decode_Ok in Ht as (H64 & Hth & Hsl & _ & _); [|assumption].
  assert (Hll : len (sub bytes 0 l) = l).
  { destruct (Z.le_gt_cases 0 l); [rewrite len_sub; lia|]. unfold sub, len in H64. rewrite length_take in H64. lia. }
  apply safe_rbind; [unfold footer_checksum, FOOTER_TRAILER_LEN; rewrite !slice_Ok by lia; apply safe_Ok|]. intros sum _.
  apply safe_rbind; [apply safe_fail_if|]. intros u Hu. apply fail_if_Ok in Hu. apply orb_false_iff in Hu as [Hu _].
  apply negb_false_iff, bool_decide_eq_true in Hu. rewrite Hu in Hth. destruct Hth as (_ & (Hg' & _) & Hsok). rewrite Hs in Hsok.
  destruct Hsok as (S1 & _ & S3 & _ & _ & S6 & _ & _ & _ & _ & S11).
  destruct (footer_len_page (seal_metadata_len s)) as (q & Hq & Hqb); [lia|].
  assert (Hl' : l = footer_len (seal_metadata_len s)) by (unfold l; rewrite wrap32_small by (unfold is_u32; lia); lia).
  rewrite !slice_Ok by lia. cbn [rbind]. apply safe_rbind; [apply safe_fail_if|]. intros _ _.
  apply safe_rbind; [apply footer_walk_safe|]. intros [rm off] _. apply safe_rbind; [apply safe_fail_if|]. intros; apply safe_Ok.
Qed.

(** Reading an allocation header, a footer trailer or a whole footer from untrusted
    bytes returns a value or an error but never panics, whatever the bytes, identity and seal, for
    page-aligned 32-bit segment lengths. *)
Theorem segment_decoders_total (bytes device : list byte) (no l : Z) (header : SegmentHeader)
  (Hg : geometry_ok (segment_len header)) :
  SegmentHeader_decode bytes device no l <> Panic /\ FooterTrailer_decode bytes l <> Panic /\
  Footer_decode bytes header limits <> Panic.
Proof.
  split; [apply SegmentHeader_decode_safe|]. split; [apply FooterTrailer_decode_safe | apply Footer_decode_safe, Hg].
Qed.

(** ** Scanning an active segment *)

Lemma Frame_decode_metadata bytes lim p f : Frame_decode bytes lim p = Ok f ->
  Metadata_decode bytes lim p = Ok (frame_metadata f) /\ len (frame_bytes f) = frame_len (md_header (frame_metadata f)) /\
  frame_bytes f = sub bytes 0 (frame_len (md_header (frame_metadata f))) /\ frame_len (md_header (frame_metadata f)) <= len bytes.
Proof.
  unfold Frame_decode. intros H. apply rbind_Ok_inv in H as (m & Hm & H). apply rbind_Ok_inv in H as (b & Hb & H).
  apply ok_or_Ok, get_to_Some in Hb as [Hl ->]. apply rbind_Ok_inv in H as (u & _ & H). injection H as <-. cbn [frame_metadata frame_bytes].
  split; [assumption|]. destruct (Metadata_decode_ok _ _ _ _ Hm) as (ds & Hok & _ & _). destruct (mo_header _ _ _ _ Hok) as (H32 & _).
  unfold is_u32 in H32. rewrite len_sub by lia. repeat split; lia.
Qed.

Lemma Frame_decode_safe bytes lim p : safe (Frame_decode bytes lim p).
Proof.
  unfold Frame_decode. apply safe_rbind; [apply Metadata_decode_safe|].
  intros m Hm. destruct (Metadata_decode_ok _ _ _ _ Hm) as (ds & Hok & Hb & Hl).
  apply safe_rbind; [apply safe_ok_or|]. intros b Hb'. apply ok_or_Ok, get_to_Some in Hb' as [Hl' ->].
  apply safe_rbind; [|intros; apply safe_Ok]. pose proof (mo_header _ _ _ _ Hok) as (Hf & _). unfold is_u32 in Hf.
  apply (verify_records_safe lim p m ds _ _ 0); [assumption | rewrite len_sub; lia|].
  pose proof (mo_count _ _ _ _ Hok). unfold len in *. lia.
Qed.

Lemma scan_decode_safe s bytes : safe (scan_decode s bytes).
Proof.
  unfold scan_decode. apply safe_rbind; [apply FramePosition_new_safe|]. intros p _. apply safe_rbind; [apply Frame_decode_safe|]. intros f _.
  apply safe_rbind; [apply safe_fail_if|]. intros _ _. apply safe_rbind; [|intros; apply safe_Ok].
  destruct (seal (sc_header s)); [apply safe_fail_if | apply safe_Ok].
Qed.

(** Scanner states reached from the start of a segment, with the metadata recovered. *)
Inductive scanned (h : SegmentHeader) : Scanner -> list Metadata -> Prop :=
| scanned_new : scanned h (Scanner_new h limits) []
| scanned_frame s ms bytes f s' :
    scanned h s ms -> next_frame s bytes = (Ok (Some f), s') -> scanned h s' (ms ++ [frame_metadata f]).

Lemma next_frame_Some s bytes f s' : next_frame s bytes = (Ok (Some f), s') ->
  sc_done s = false /\ at_end s = false /\ scan_decode s bytes = Ok f /\
  s' = {| sc_header := sc_header s; sc_limits := sc_limits s;
          sc_offset := wrap32 (sc_offset s + wrap32 (len (frame_bytes f)));
          sc_frame_count := wrap32 (sc_frame_count s + 1);
          sc_metadata_len := sc_metadata_len s + len (md_bytes (frame_metadata f));
          sc_done := sc_done s; sc_tail_error := sc_tail_error s |}.
Proof.
  unfold next_frame. destruct (sc_done s); [intros [= ]|]. destruct (at_end s); [intros [= ]|].
  destruct (scan_decode s bytes) as [f0|e|]; [|destruct (_ || _); intros [= ] | intros [= ]]. intros [= -> <-]. auto.
Qed.

Lemma scan_decode_Ok s bytes f : scan_decode s bytes = Ok f ->
  exists p, SegmentHeader_position (sc_header s) (sc_offset s) = Ok p /\ Frame_decode bytes (sc_limits s) p = Ok f /\
    sc_offset s + len (frame_bytes f) + footer_len (sc_metadata_len s + len (md_bytes (frame_metadata f))) <= segment_len (sc_header s) /\
    (forall sl, seal (sc_header s) = Some sl ->
       let stop := sc_offset s + len (frame_bytes f) in let ml := sc_metadata_len s + len (md_bytes (frame_metadata f)) in
       sc_frame_count s + 1 <= seal_frame_count sl /\ ml <= seal_metadata_len sl /\
       (stop = seal_data_end sl -> sc_frame_count s + 1 = seal_frame_count sl /\ ml = seal_metadata_len sl)).
Proof.
  unfold scan_decode. intros H. apply rbind_Ok_inv in H as (p & Hp & H). apply rbind_Ok_inv in H as (f0 & Hf & H). cbv zeta in H.
  apply rbind_Ok_inv in H as (u & Hu & H). apply fail_if_Ok in Hu. apply rbind_Ok_inv in H as (u2 & Hseal & H). injection H as ->.
  exists p. split; [assumption|]. split; [assumption|]. split; [boolp; lia|]. intros sl Hsl. rewrite Hsl in Hseal. apply fail_if_Ok in Hseal.
  boolp. cbv zeta. split; [lia|]. split; [lia|]. intros He.
  match goal with H : _ && (negb _ || _) = false |- _ => rewrite (proj2 (Z.eqb_eq _ _) He) in H; simpl in H end. boolp. auto.
Qed.

Lemma FramePosition_new_fields a b c p : FramePosition_new a b c = Ok p -> segment_seq p = a /\ offset p = b.
Proof. unfold FramePosition_new. intros H. inv_ok. subst p. auto. Qed.

(** The scanner agrees with the builder that collects what it recovers. *)
Lemma scanned_built h s ms : segment_header_ok h -> seal h = None -> scanned h s ms ->
  exists b, built limits h b ms /\ sc_header s = h /\ sc_limits s = limits /\ sc_offset s = sb_data_end b /\
    sc_frame_count s = sb_frame_count b /\ sc_metadata_len s = len (sb_metadata b).
Proof.
  intros Hh Hact. induction 1 as [|s ms bytes f s' _ IH Hn].
  - eexists. split; [apply built_new; unfold SegmentBuilder_new, is_sealed; rewrite Hact; reflexivity|]. auto 6.
  - destruct IH as (b & Hb & Hhd & Hlim & Hoff & Hcnt & Hml). destruct (built_ok limits h b ms Hh Hb) as [Hok Hbh].
    apply next_frame_Some in Hn as (_ & _ & Hsd & ->). apply scan_decode_Ok in Hsd as (p & Hp & Hfd & Hfit & _).
    destruct (Frame_decode_metadata _ _ _ _ Hfd) as (Hmd & Hlf & _). rewrite Hhd, Hlim in *. apply FramePosition_new_fields in Hp as [Hps Hpo].
    assert (Hdec : decoded_at limits (segment_seq p) (offset p) (frame_metadata f)) by (exists bytes, p; auto).
    destruct (decoded_sizes _ _ _ _ Hdec) as (D1 & D2 & D3 & D4 & D5 & D6 & D7). pose proof (segment_ok_sizes limits b ms Hok) as Hsz.
    destruct (footer_len_page (len (sb_metadata b) + len (md_bytes (frame_metadata f)))) as (q & Hq & Hqb); [lia|].
    rewrite Hoff, Hml, Hlf in *.
    assert (Happ : exists b', SegmentBuilder_append true b (frame_metadata f) = Ok b' /\ sb_metadata b' = sb_metadata b ++ md_bytes (frame_metadata f) /\
      sb_data_end b' = wrap32 (sb_data_end b + wrap32 (frame_len (md_header (frame_metadata f)))) /\ sb_frame_count b' = wrap32 (sb_frame_count b + 1)).
    { unfold SegmentBuilder_append. rewrite (SegmentBuilder_position_exact limits b ms) by (auto; lia). cbv zeta.
      rewrite Z.gtb_ltb, (proj2 (Z.ltb_ge _ _)) by (rewrite Hbh; lia). cbn [rbind segment_seq offset].
      pass_guard; [|rewrite D6, D7, Hps, Hpo, Hbh, !Z.eqb_refl; reflexivity]. eexists. split; [reflexivity|]. auto. }
    destruct Happ as (b' & Ha & Hm' & He' & Hc'). exists b'. split; [eapply built_append; eassumption|].
    cbn [sc_header sc_limits sc_offset sc_frame_count sc_metadata_len]. rewrite Hm', He', Hc', Hcnt, len_app. auto 6.
Qed.

(** whatever bytes an active segment holds, the metadata the scanner recovers from it can
    be collected, frame by frame, in a segment builder whose data end, frame count and metadata length
    are the scanner's, so a recovered prefix can always be sealed in place. *)
Theorem recovered_prefix_sealable (h : SegmentHeader) (s : Scanner) (ms : list Metadata)
  (Hh : segment_header_ok h) (Hact : seal h = None) (Hs : scanned h s ms) :
  exists b, built limits h b ms /\ sb_data_end b = sc_offset s /\ sb_frame_count b = sc_frame_count s /\
    len (sb_metadata b) = sc_metadata_len s /\ sc_offset s + footer_len (sc_metadata_len s) <= segment_len h.
Proof.
  destruct (scanned_built h s ms Hh Hact Hs) as (b & Hb & _ & _ & H1 & H2 & H3). exists b.
  destruct (built_ok limits h b ms Hh Hb) as [Hok <-]. pose proof (so_fits _ _ _ Hok). unfold SegmentBuilder_footer_len in *.
  rewrite H1, H2, H3. auto.
Qed.

(** Scanner states of a sealed segment. *)
Lemma scanned_sealed h s ms sl : segment_header_ok h -> seal h = Some sl -> scanned h s ms ->
  sc_header s = h /\ sc_limits s = limits /\ sc_done s = false /\ 4096 <= sc_offset s <= seal_data_end sl /\ sc_frame_count s = len ms /\
  sc_metadata_len s = len (metadata_area ms) /\ len ms <= seal_frame_count sl /\
  (sc_offset s = seal_data_end sl -> len ms = seal_frame_count sl /\ sc_metadata_len s = seal_metadata_len sl).
Proof.
  intros (_ & (Hg & _) & Hsok) Hsl. rewrite Hsl in Hsok. destruct Hsok as (S1 & S2 & S3 & S4 & S5 & S6 & S7 & S8 & S9 & S10 & S11).
  induction 1 as [|s ms bytes f s' _ IH Hn].
  - unfold Scanner_new, PAGE_SIZE. simpl. change (len (@nil Metadata)) with 0. repeat split; lia.
  - destruct IH as (Hhd & Hlim & Hdone & Hoff & Hcnt & Hml & Hle & _).
    apply next_frame_Some in Hn as (_ & _ & Hsd & ->). apply scan_decode_Ok in Hsd as (p & Hp & Hfd & Hfit & Hseal).
    rewrite Hhd in *. specialize (Hseal sl Hsl). cbv zeta in Hseal. destruct (Frame_decode_metadata _ _ _ _ Hfd) as (Hmd & Hlf & _).
    destruct (Metadata_decode_ok _ _ _ _ Hmd) as (ds & Hok & _ & _). destruct (mo_header _ _ _ _ Hok) as (H32 & H0 & _ & _ & Hav & _).
    rewrite (mo_position _ _ _ _ Hok) in Hav. unfold SegmentHeader_position in Hp. rewrite Hsl in Hp. unfold FramePosition_new in Hp. inv_ok. subst p.
    simpl in Hav. cbn [sc_header sc_limits sc_done sc_offset sc_frame_count sc_metadata_len].
    unfold is_u32 in H32. rewrite (wrap32_small (len _)), wrap32_small by (unfold is_u32; lia).
    rewrite Hcnt, metadata_area_app, !len_app. change (len [frame_metadata f]) with 1. pose proof (len_nonneg ms).
    rewrite wrap32_small by (unfold is_u32; lia). repeat split; try assumption; try lia; try (apply Hseal; assumption).
Qed.

(** On a sealed segment the scanner reports the end only at the sealed data end, with
    exactly the sealed number of frames and metadata bytes; any frame that fails before is an error,
    after which the scanner stays ended. *)
Theorem sealed_scan_strict (h : SegmentHeader) (s : Scanner) (ms : list Metadata) (sl : Seal) (bytes : list byte)
  (Hh : segment_header_ok h) (Hsl : seal h = Some sl) (Hs : scanned h s ms) :
  match next_frame s bytes with
  | (Ok (Some f), s') => sc_offset s' = sc_offset s + len (frame_bytes f) /\ sc_offset s' <= seal_data_end sl
  | (Ok None, s') => sc_offset s = seal_data_end sl /\ len ms = seal_frame_count sl /\ len (metadata_area ms) = seal_metadata_len sl
  | (Err e, s') => (exists source, e = segment.Frame (sc_offset s) source) /\ forall bytes', next_frame s' bytes' = (Ok None, s')
  | (Panic, _) => False
  end.
Proof.
  destruct (scanned_sealed h s ms sl Hh Hsl Hs) as (Hhd & Hlim & Hdone & Hoff & Hcnt & Hml & Hle & Hend).
  destruct (next_frame s bytes) as [[[f|]|e|] s'] eqn:Hn.
  - pose proof (scanned_sealed h s' _ sl Hh Hsl (scanned_frame h s ms bytes f s' Hs Hn)) as (_ & _ & _ & Hoff' & _).
    split; [|lia]. apply next_frame_Some in Hn as (_ & _ & Hsd & ->). cbn [sc_offset] in *.
    destruct Hh as (_ & (Hg & _) & _). apply scan_decode_Ok in Hsd as (p & _ & Hfd & Hfit & _). rewrite Hhd in Hfit.
    destruct (Frame_decode_metadata _ _ _ _ Hfd) as (Hmd & Hlf & _). pose proof (len_nonneg (frame_bytes f)).
    pose proof (align_up_nonneg (FOOTER_TRAILER_LEN + (sc_metadata_len s + len (md_bytes (frame_metadata f)))) PAGE_SIZE). unfold footer_len in Hfit.
    rewrite (wrap32_small (len _)), wrap32_small by (unfold is_u32; lia). reflexivity.
  - unfold next_frame in Hn. rewrite Hdone in Hn. unfold at_end, is_sealed in Hn. rewrite Hhd, Hsl in Hn.
    destruct (Z.eqb_spec (sc_offset s) (seal_data_end sl)) as [He|He].
    + rewrite <- Hml. split; [assumption | apply Hend, He].
    + destruct (scan_decode s bytes); simpl in Hn; discriminate.
  - unfold next_frame in Hn. rewrite Hdone in Hn. unfold at_end, is_sealed in Hn. rewrite Hhd, Hsl in Hn.
    destruct (sc_offset s =? seal_data_end sl); [discriminate|]. destruct (scan_decode s bytes) as [|src|]; simpl in Hn; try discriminate.
    injection Hn as <- <-. split; [eauto|]. reflexivity.
  - unfold next_frame in Hn. pose proof (scan_decode_safe s bytes) as Hsafe. destruct (sc_done s); [discriminate|].
    destruct (at_end s); [discriminate|]. destruct (scan_decode s bytes) as [|src|]; [discriminate| |contradiction].
    destruct (_ || _); discriminate.
Qed.

(** ** Scanning what a builder laid out *)

(** A segment image holding the frames [fs] from [off] on. *)
Fixpoint holds (seg : list byte) (h : SegmentHeader) (off : Z) (fs : list Frame) : Prop :=
  match fs with
  | [] => True
  | f :: rest =>
      (exists p, SegmentHeader_position h off = Ok p /\ Frame_decode (sub seg off (len seg)) limits p = Ok f) /\
      holds seg h (off + len (frame_bytes f)) rest
  end.

(** [next_frame] on the remaining segment, at most [n] times: the frames
    recovered, how the scan ended ([None] when it did not) and the scanner. *)
Fixpoint scan (n : nat) (s : Scanner) (seg : list byte) : list Frame * option (segment_result unit) * Scanner :=
  match n with
  | O => ([], None, s)
  | S n =>
      match next_frame s (sub seg (sc_offset s) (len seg)) with
      | (Ok (Some f), s') => let '(fs, r, s'') := scan n s' seg in (f :: fs, r, s'')
      | (Ok None, s') => ([], Some (Ok tt), s')
      | (Err e, s') => ([], Some (Err e), s')
      | (Panic, s') => ([], Some Panic, s')
      end
  end.

(** What the bytes from [off] on decode to. *)
Definition candidate (h : SegmentHeader) (seg : list byte) (off : Z) : frame_result Frame :=
  let? p := SegmentHeader_position h off in
  Frame_decode (sub seg off (len seg)) limits p.

Lemma at_end_active_false h s fl ml : seal h = None -> sc_header s = h -> 4096 <= fl -> 128 <= ml -> 0 <= sc_metadata_len s ->
  sc_metadata_len s + ml < 2 ^ 62 ->
  sc_offset s + fl + footer_len (sc_metadata_len s + ml) <= segment_len h -> at_end s = false.
Proof.
  intros Hs Hh Hf Hm H0 Hb Hle. unfold at_end, PAGE_SIZE, MIN_FRAME_METADATA_LEN, HEADER_LEN, DESCRIPTOR_LEN. rewrite Hh, Hs. change (64 + 64) with 128.
  pose proof (footer_len_mono (sc_metadata_len s + 128) (sc_metadata_len s + ml) ltac:(lia) ltac:(lia)). decide_guard.
Qed.

Lemma scan_step h s f seg : seal h = None -> segment_header_ok h -> sc_header s = h -> sc_limits s = limits -> sc_done s = false ->
  0 <= sc_metadata_len s < 2 ^ 32 -> 0 <= sc_offset s ->
  (exists p, SegmentHeader_position h (sc_offset s) = Ok p /\ Frame_decode (sub seg (sc_offset s) (len seg)) limits p = Ok f) ->
  sc_offset s + len (frame_bytes f) + footer_len (sc_metadata_len s + len (md_bytes (frame_metadata f))) <= segment_len h ->
  exists s', next_frame s (sub seg (sc_offset s) (len seg)) = (Ok (Some f), s') /\ sc_header s' = h /\ sc_limits s' = limits /\
    sc_done s' = false /\ sc_offset s' = sc_offset s + len (frame_bytes f) /\
    sc_metadata_len s' = sc_metadata_len s + len (md_bytes (frame_metadata f)) /\ 128 <= len (md_bytes (frame_metadata f)) <= len (frame_bytes f) /\
    sc_tail_error s' = sc_tail_error s.
Proof.
  intros Hact Hh Hhd Hlim Hdone Hml Hoff (p & Hp & Hfd) Hfit. destruct (Frame_decode_metadata _ _ _ _ Hfd) as (Hmd & Hlf & _).
  assert (Hdec : decoded_at limits (segment_seq p) (offset p) (frame_metadata f)) by (eexists _, p; split; [exact Hmd | auto]).
  destruct (decoded_sizes _ _ _ _ Hdec) as (D1 & D2 & D3 & _). destruct Hh as (_ & (Hg & _) & _). rewrite Hlf in *.
  destruct (footer_len_page (sc_metadata_len s + len (md_bytes (frame_metadata f)))) as (q & Hq & Hqb); [lia|].
  unfold next_frame. rewrite Hdone. rewrite (at_end_active_false h s (frame_len (md_header (frame_metadata f))) (len (md_bytes (frame_metadata f)))) by (auto; lia).
  assert (Hsd : scan_decode s (sub seg (sc_offset s) (len seg)) = Ok f).
  { unfold scan_decode. rewrite Hhd, Hp. cbn [rbind]. rewrite Hlim, Hfd. cbn [rbind]. rewrite Hlf. pass_guard; [|decide_guard]. rewrite Hact. reflexivity. }
  rewrite Hsd. eexists. split; [reflexivity|]. cbn [sc_header sc_limits sc_done sc_offset sc_metadata_len sc_tail_error]. rewrite Hlf.
  rewrite (wrap32_small (frame_len _)), wrap32_small by (unfold is_u32; lia). auto 10.
Qed.

Lemma holds_sizes seg h fs : forall off, holds seg h off fs ->
  0 <= len (metadata_area (map frame_metadata fs)) <= total (map frame_metadata fs).
Proof.
  induction fs as [|f fs IH]; intros off Hf; [simpl; unfold len; simpl; lia|].
  destruct Hf as [(p & _ & Hfd) Hr]. specialize (IH _ Hr). destruct (Frame_decode_metadata _ _ _ _ Hfd) as (Hmd & _).
  assert (Hdec : decoded_at limits (segment_seq p) (offset p) (frame_metadata f)) by (eexists _, p; split; [exact Hmd | auto]).
  destruct (decoded_sizes _ _ _ _ Hdec) as (D1 & _ & D3 & _). cbn [map].
  change (metadata_area (frame_metadata f :: map frame_metadata fs)) with (md_bytes (frame_metadata f) ++ metadata_area (map frame_metadata fs)).
  rewrite len_app. simpl. lia.
Qed.

Lemma scan_holds h seg fs : seal h = None -> segment_header_ok h -> forall s n,
  sc_header s = h -> sc_limits s = limits -> sc_done s = false -> 4096 <= sc_offset s -> 0 <= sc_metadata_len s <= sc_offset s ->
  holds seg h (sc_offset s) fs ->
  sc_offset s + total (map frame_metadata fs) + footer_len (sc_metadata_len s + len (metadata_area (map frame_metadata fs))) <= segment_len h ->
  exists s', scan (length fs + n) s seg = (let '(gs, r, s'') := scan n s' seg in (fs ++ gs, r, s'')) /\ sc_header s' = h /\ sc_limits s' = limits /\
    sc_done s' = false /\ sc_offset s' = sc_offset s + total (map frame_metadata fs) /\
    sc_metadata_len s' = sc_metadata_len s + len (metadata_area (map frame_metadata fs)) /\ sc_tail_error s' = sc_tail_error s.
Proof.
  intros Hact Hh. induction fs as [|f fs IH]; intros s n Hhd Hlim Hdone Hoff Hml Hholds Hfit.
  - exists s. simpl. change (len (metadata_area [])) with 0. rewrite !Z.add_0_r. destruct (scan n s seg) as [[gs r] s'']. auto 8.
  - pose proof (holds_sizes _ _ _ _ Hholds) as Hall. destruct Hholds as [Hf Hrest]. pose proof (holds_sizes _ _ _ _ Hrest) as Ht.
    pose proof Hf as (p & _ & Hfd). destruct (Frame_decode_metadata _ _ _ _ Hfd) as (_ & Hlf & _).
    cbn [map] in Hfit, Hall |- *. set (m := frame_metadata f) in *. set (ms := map frame_metadata fs) in *.
    change (metadata_area (m :: ms)) with (md_bytes m ++ metadata_area ms) in *. change (total (m :: ms)) with (frame_len (md_header m) + total ms) in *.
    rewrite len_app in *. pose proof (len_nonneg (md_bytes m)). pose proof (len_nonneg (frame_bytes f)). pose proof Hh as (_ & (Hg & _) & _).
    pose proof (align_up_nonneg (FOOTER_TRAILER_LEN + (sc_metadata_len s + (len (md_bytes m) + len (metadata_area ms)))) PAGE_SIZE) as Hnn.
    change (0 <= footer_len (sc_metadata_len s + (len (md_bytes m) + len (metadata_area ms)))) in Hnn.
    pose proof (footer_len_mono (sc_metadata_len s + len (md_bytes m)) (sc_metadata_len s + (len (md_bytes m) + len (metadata_area ms)))
                  ltac:(lia) ltac:(lia)) as Hmono.
    destruct (scan_step h s f seg Hact Hh Hhd Hlim Hdone ltac:(lia) ltac:(lia) Hf ltac:(fold m; lia)) as (s1 & Hn & Hh1 & Hl1 & Hd1 & Ho1 & Hm1 & Hsz & Ht1).
    fold m in Hm1, Hsz. destruct (IH s1 n Hh1 Hl1 Hd1 ltac:(lia) ltac:(lia)) as (s' & Hscan & Hh' & Hl' & Hd' & Ho' & Hm' & Ht').
    { rewrite Ho1. assumption. }
    { rewrite Ho1, Hm1, Hlf. rewrite <- !Z.add_assoc in *. assumption. }
    exists s'. cbn [length Nat.add scan]. rewrite Hn, Hscan. destruct (scan n s' seg) as [[gs r] s'']. rewrite Ho', Hm', Ht', Ho1, Hm1, Ht1, Hlf.
    repeat split; auto; lia.
Qed.

Definition is_version_error (e : frame.Error) : bool := match e with frame.UnsupportedVersion _ => true | _ => false end.

(** How a scanner ends at a candidate that does not decode. *)
Definition tail_end (s : Scanner) (e : frame.Error) : segment_result unit :=
  if negb (at_end s) && is_version_error e then Err (segment.Frame (sc_offset s) e) else Ok tt.
Definition tail_kept (s : Scanner) (e : frame.Error) : option frame.Error :=
  if at_end s || is_version_error e then None else Some e.

Lemma scan_tail s seg n e : seal (sc_header s) = None -> sc_limits s = limits -> sc_done s = false -> sc_tail_error s = None ->
  candidate (sc_header s) seg (sc_offset s) = Err e ->
  exists s', scan (S n) s seg = ([], Some (tail_end s' e), s') /\ sc_offset s' = sc_offset s /\ sc_done s' = true /\ sc_tail_error s' = tail_kept s' e.
Proof.
  intros Hact Hlim Hdone Hte Hc. exists (scanner_ended s (tail_kept s e)). unfold tail_end, tail_kept.
  change (at_end (scanner_ended s _)) with (at_end s). cbn [scan]. unfold next_frame. rewrite Hdone.
  destruct (at_end s) eqn:Hend; cbn [negb andb orb]; [rewrite Hte; auto|].
  assert (Hsd : scan_decode s (sub seg (sc_offset s) (len seg)) = Err e).
  { unfold scan_decode, candidate in *. rewrite <- Hlim in Hc. destruct (SegmentHeader_position _ _) as [p| |]; cbn [rbind] in *; [|congruence..]. rewrite Hc. reflexivity. }
  rewrite Hsd. unfold is_sealed. rewrite Hact, Hte. destruct e; auto.
Qed.

(** C37: scanning the bytes of an active segment that holds the frames appended to its
    builder, where the bytes behind them are not a frame, recovers all the frames in order and ends
    exactly at the builder's data end. It ends without an error and keeps the reason the tail was
    rejected, except that a tail of another format version is reported as an error (and is only
    passed over when no room for a frame is left). *)
Theorem scan_recovers_frames (h : SegmentHeader) (b : SegmentBuilder) (fs : list Frame) (seg : list byte) (n : nat) (e : frame.Error)
  (Hh : segment_header_ok h) (Hbuilt : built limits h b (map frame_metadata fs)) (Hseg : holds seg h PAGE_SIZE fs)
  (Htail : candidate h seg (sb_data_end b) = Err e) :
  exists s, scan (length fs + S n) (Scanner_new h limits) seg = (fs, Some (tail_end s e), s) /\
    sc_offset s = sb_data_end b /\ sc_done s = true /\ sc_tail_error s = tail_kept s e.
Proof.
  destruct (built_ok limits h b _ Hh Hbuilt) as [Hb <-]. pose proof (so_active _ _ _ Hb) as Hact. pose proof (so_fits _ _ _ Hb) as Hfit.
  unfold SegmentBuilder_footer_len in Hfit. rewrite (so_metadata _ _ _ Hb), (so_end _ _ _ Hb) in Hfit.
  destruct (scan_holds (sb_header b) seg fs Hact Hh (Scanner_new (sb_header b) limits) (S n) eq_refl eq_refl eq_refl) as (s & Hscan & Hhd & Hlim & Hd & Ho & _ & Ht);
    [simpl; unfold PAGE_SIZE; lia.. | exact Hseg | exact Hfit |].
  change (sc_offset (Scanner_new (sb_header b) limits)) with PAGE_SIZE in Ho. rewrite <- (so_end _ _ _ Hb) in Ho.
  destruct (scan_tail s seg n e) as (s' & Hs' & Ho' & Hd' & Ht'); [congruence | assumption | assumption | assumption | rewrite Hhd, Ho; exact Htail |].
  exists s'. rewrite Hscan, Hs', app_nil_r. split; [reflexivity|]. split; [congruence | auto].
Qed.
End WithCrc.
