(* ===== verification/SegmentWitness.v ===== *)
(** * A concrete segment

    One frame with a value and a tombstone, appended to a small segment with
    the reference CRC: the hypotheses of the frame and segment theorems hold
    of it. *)

From S2P Require Import Prelude Align Checksum ChunkId Codec FrameFormat FrameDecode FrameDecodeProofs.
From S2P Require Import Checksum FrameBuilder FrameBuilderProofs FrameRoundtrip.
From S2P Require Import SegmentFormat SegmentBuilder SegmentProofs SegmentFooter SegmentIncremental SegmentValidator SegmentRecovery.

Definition first_position : FramePosition := {| segment_seq := 7; offset := 4096; available := 61440 |}.

Definition sample_frame_bytes : list byte :=
  match FrameBuilder_encode_into (C := crc_ref) sample_builder first_position (zeros 4096) with Ok (b, _) => b | _ => [] end.

Definition sample_frame : Frame :=
  match Frame_decode (C := crc_ref) sample_frame_bytes sample_limits first_position with
  | Ok f => f
  | _ => {| frame_bytes := []; frame_metadata := {| md_bytes := []; md_header :=
           {| position := first_position; frame_len := 0; record_count := 0; checksum_len := 0; metadata_crc := 0 |} |} |}
  end.

Abbreviation sample_metadata := (frame_metadata sample_frame).

Lemma sample_frame_decodes : Frame_decode (C := crc_ref) sample_frame_bytes sample_limits first_position = Ok sample_frame.
Proof. vm_compute. reflexivity. Qed.

Lemma sample_metadata_decodes : Metadata_decode (C := crc_ref) sample_frame_bytes sample_limits first_position = Ok sample_metadata.
Proof. exact (proj1 (Frame_decode_metadata _ _ _ _ sample_frame_decodes)). Qed.

Definition empty_segment : SegmentBuilder := {| sb_header := sample_header; sb_data_end := 4096; sb_frame_count := 0; sb_metadata := [] |}.

Definition sample_segment : SegmentBuilder :=
  {| sb_header := sample_header; sb_data_end := 8192; sb_frame_count := 1; sb_metadata := md_bytes sample_metadata |}.

Lemma sample_segment_built : built (C := crc_ref) sample_limits sample_header sample_segment [sample_metadata].
Proof.
  apply (built_append sample_limits sample_header empty_segment [] sample_frame_bytes first_position sample_metadata true).
  - apply built_new. reflexivity.
  - exact sample_metadata_decodes.
  - vm_compute. reflexivity.
Qed.

Lemma metadata_decode_sound_witness :
  exists rs, Metadata_records sample_metadata = Ok rs /\ len rs = 2.
Proof.
  destruct (metadata_decode_sound (C := crc_ref) sample_frame_bytes sample_limits first_position sample_metadata sample_metadata_decodes)
    as (rs & H & Hl & _). exists rs. split; [exact H|]. rewrite Hl. vm_compute. reflexivity.
Defined.

Lemma segment_accounting_witness : sb_data_end sample_segment = 8192 /\ sb_data_end sample_segment + SegmentBuilder_footer_len sample_segment <= 65536.
Proof.
  destruct (segment_accounting (C := crc_ref) sample_limits sample_header sample_segment [sample_metadata] sample_header_ok sample_segment_built)
    as (H1 & _ & _ & H2 & _). split; [reflexivity | exact H2].
Defined.

Lemma sample_footer_len : SegmentBuilder_footer_len sample_segment = 4096.
Proof. vm_compute. reflexivity. Qed.

Lemma seal_footer_roundtrip_witness :
  exists b' bytes' sealed f, SegmentBuilder_seal_into (C := crc_ref) sample_segment (zeros 4096) = Ok (b', bytes', sealed) /\
    Footer_decode bytes' sealed sample_limits = Ok f.
Proof.
  destruct (seal_footer_roundtrip (C := crc_ref) sample_limits sample_header sample_segment [sample_metadata] (zeros 4096) sample_header_ok sample_segment_built
    ltac:(rewrite sample_footer_len, len_zeros; lia)) as (b' & bytes' & sealed & f & H1 & _ & _ & _ & H2 & _).
  exists b', bytes', sealed, f. split; [exact H1 | exact H2].
Defined.

Lemma incremental_footer_equiv_witness :
  exists xs, drain (C := crc_ref) 2 (into_footer sample_segment) = Ok xs /\ contiguous 61440 65536 xs.
Proof.
  destruct (incremental_footer_equiv (C := crc_ref) (CS := crc_ref_spec) sample_limits sample_header sample_segment [sample_metadata] (zeros 4096) 2 sample_header_ok
    sample_segment_built ltac:(rewrite sample_footer_len, len_zeros; lia) ltac:(rewrite sample_footer_len; lia)) as (xs & _ & _ & _ & H1 & _ & _ & H2).
  exists xs. split; [exact H1 | exact H2].
Defined.

Definition sample_sealed : SegmentHeader := sealed_header sample_segment.
Definition sample_footer : list byte :=
  match SegmentBuilder_seal_into (C := crc_ref) sample_segment (zeros 4096) with Ok (_, b, _) => b | _ => [] end.
Definition sample_seal : Seal := {| seal_data_end := 8192; seal_frame_count := 1; seal_metadata_len := 196 |}.

Lemma sample_sealed_ok : segment_header_ok sample_sealed.
Proof.
  destruct (built_ok sample_limits sample_header sample_segment [sample_metadata] sample_header_ok sample_segment_built) as [Hb _].
  eapply sealed_header_ok. exact Hb.
Qed.

Lemma stepwise_validation_equiv_witness :
  (exists f, Footer_decode (C := crc_ref) sample_footer sample_sealed sample_limits = Ok f) <->
  (exists v, FooterValidator_new (C := crc_ref) sample_footer sample_sealed sample_limits = Ok v /\ validate (1 + 2) v sample_footer = Ok true).
Proof.
  apply (stepwise_validation_equiv (C := crc_ref) (CS := crc_ref_spec) sample_footer sample_sealed sample_limits sample_seal 1 2);
    [vm_compute; reflexivity | exact sample_sealed_ok | vm_compute; reflexivity | vm_compute; discriminate | vm_compute; reflexivity].
Defined.

Lemma segment_decoders_total_witness : Footer_decode (C := crc_ref) (zeros 64) sample_sealed sample_limits <> Panic.
Proof.
  apply (segment_decoders_total (C := crc_ref) sample_limits (zeros 64) (zeros 16) 0 65536 sample_sealed).
  split; [split; vm_compute; congruence | reflexivity].
Defined.

(** The scanner after the sample frame, of the active and of the sealed segment. *)
Definition scanner_after (h : SegmentHeader) : Scanner :=
  snd (next_frame (C := crc_ref) (Scanner_new h sample_limits) sample_frame_bytes).

Lemma active_scanned : scanned (C := crc_ref) sample_limits sample_header (scanner_after sample_header) [sample_metadata].
Proof. apply (scanned_frame sample_limits sample_header (Scanner_new sample_header sample_limits) [] sample_frame_bytes sample_frame); [apply scanned_new | vm_compute; reflexivity]. Qed.

Lemma recovered_prefix_sealable_witness :
  exists b, built (C := crc_ref) sample_limits sample_header b [sample_metadata] /\ sb_data_end b = 8192.
Proof.
  destruct (recovered_prefix_sealable (C := crc_ref) sample_limits sample_header (scanner_after sample_header) [sample_metadata]
    sample_header_ok eq_refl active_scanned) as (b & Hb & He & _).
  exists b. split; [exact Hb|]. rewrite He. vm_compute. reflexivity.
Defined.

(** At the sealed start, damaged bytes are an error that names the offset. *)
Lemma sealed_scan_strict_witness :
  exists s' source, next_frame (C := crc_ref) (Scanner_new sample_sealed sample_limits) (zeros 4096) = (Err (segment.Frame 4096 source), s').
Proof.
  pose proof (sealed_scan_strict (C := crc_ref) sample_limits sample_sealed (Scanner_new sample_sealed sample_limits) [] sample_seal (zeros 4096)
    sample_sealed_ok eq_refl (scanned_new sample_limits sample_sealed)) as H.
  destruct (next_frame (C := crc_ref) (Scanner_new sample_sealed sample_limits) (zeros 4096)) as [[[f|]|e|] s'] eqn:Hn.
  - exfalso. revert Hn. vm_compute. discriminate.
  - exfalso. revert Hn. vm_compute. discriminate.
  - destruct H as [(source & ->) _]. exists s', source. reflexivity.
  - destruct H.
Defined.

(** A frame at the first page, nothing behind it. *)
Definition sample_image : list byte := zeros 4096 ++ sample_frame_bytes ++ zeros 8192.

Lemma sample_frames_built : built (C := crc_ref) sample_limits sample_header sample_segment (map frame_metadata [sample_frame]).
Proof. exact sample_segment_built. Qed.

Lemma sample_image_holds : holds (C := crc_ref) sample_limits sample_image sample_header PAGE_SIZE [sample_frame].
Proof. split; [|exact I]. exists first_position. split; [reflexivity | vm_compute; reflexivity]. Qed.

Lemma sample_image_tail : candidate (C := crc_ref) sample_limits sample_header sample_image (sb_data_end sample_segment) = Err (frame.Corrupt "frame magic").
Proof. vm_compute. reflexivity. Qed.

Lemma scan_recovers_frames_witness :
  exists s, scan (C := crc_ref) (length [sample_frame] + 1) (Scanner_new sample_header sample_limits) sample_image = ([sample_frame], Some (Ok tt), s) /\
    sc_offset s = sb_data_end sample_segment /\ sc_done s = true.
Proof.
  destruct (scan_recovers_frames (C := crc_ref) sample_limits sample_header sample_segment [sample_frame] sample_image 0 _ sample_header_ok sample_frames_built
           sample_image_holds sample_image_tail) as (s & Hs & Ho & Hd & _). exists s. split; [|auto]. rewrite Hs. unfold tail_end. rewrite andb_false_r. reflexivity.
Defined.
