(* ===== verification/Io.v ===== *)
(** * Bounded single-owner I/O (moat-engine/src/io)

    Requests and completions, the [Queue] trait as a class with the laws its
    documentation states, and the blocking file queue as an implementation of
    it. The operating system's positional file is the class [PosFile]. *)

From S2P Require Import Prelude Align.

(** An OS error code. *)
Definition IoError : Type := Z.
Definition InvalidInput : IoError := 22.

Module io.
Inductive Operation := Read | Write | Sync.
End io.

#[export] Instance Operation_eq_dec : EqDecision io.Operation.
Proof. solve_decision. Defined.

Definition Buffer : Type := list byte.

Record Request := { token : Z; operation : io.Operation; req_offset : Z; req_len : Z; buffer : option Buffer }.

Definition Request_validate (r : Request) : res IoError unit :=
  let valid :=
    match operation r with
    | io.Sync => match buffer r with None => (req_len r =? 0) && (req_offset r =? 0) | Some _ => false end
    | _ =>
        (req_len r >? 0) && (req_len r <=? I32_MAX) && is_aligned (req_len r) PAGE_SIZE && is_aligned (req_offset r) PAGE_SIZE
        && (match checked_add (req_offset r) (req_len r) with Some _ => true | None => false end)
        && (match buffer r with Some b => req_len r <=? len b | None => false end)
    end in
  fail_if (negb valid) InvalidInput.

(** [io::Result]: an OS error or a value. *)
Definition io_res (A : Type) : Type := IoError + A.

(** [io::Completion]; the result is the number of bytes transferred. *)
Record IoCompletion := { request : Request; io_result : io_res Z }.

Definition check_depth (depth : Z) : res IoError unit := fail_if ((depth =? 0) || (depth >? 32768)) InvalidInput.

(** The operations of the trait; a failed submission returns the request. *)
Class Queue (Q : Type) := {
  has_ready : Q -> bool;
  depth : Q -> Z;
  vacant : Q -> Z;
  try_submit : Q -> Request -> Q + Request;
  queue_poll : Q -> bool -> Q * option IoError;
  pop : Q -> option (IoCompletion * Q)
}.

(** What a completion returns unchanged: everything but the bytes read. *)
Definition shape (r : Request) : Z * io.Operation * Z * Z * option Z :=
  (token r, operation r, req_offset r, req_len r, len <$> buffer r).
Abbreviation Shape := (Z * io.Operation * Z * Z * option Z)%type.

(** The contract: an exclusively owned queue accepts a request whenever a slot
    is vacant, and every accepted request completes exactly once, unchanged. *)
Class QueueSpec (Q : Type) `{Queue Q} := {
  accepted : Q -> list Shape;
  queue_ok : Q -> Prop;
  vacant_accepted : forall q, queue_ok q -> vacant q = depth q - len (accepted q) /\ 0 <= vacant q;
  submit_ok : forall q r, queue_ok q -> 0 < vacant q ->
    exists q', try_submit q r = inl q' /\ queue_ok q' /\ depth q' = depth q /\ Permutation (accepted q') (shape r :: accepted q);
  submit_full : forall q r, queue_ok q -> vacant q = 0 -> try_submit q r = inr r;
  poll_ok : forall q w, queue_ok q -> let q' := (queue_poll q w).1 in
    queue_ok q' /\ depth q' = depth q /\ Permutation (accepted q') (accepted q);
  pop_some : forall q c q', queue_ok q -> pop q = Some (c, q') ->
    queue_ok q' /\ depth q' = depth q /\ Permutation (accepted q) (shape (request c) :: accepted q')
}.

(** ** The blocking file queue (io/file.rs) *)

(** [FileExt::read_at] fills a prefix of the slice, [write_at] takes a prefix. *)
Class PosFile (F : Type) := {
  read_at : F -> Buffer -> Z -> io_res Z * Buffer;
  write_at : F -> Buffer -> Z -> io_res Z * F;
  sync_data : F -> io_res unit * F
}.

(** A read leaves the length of the slice it fills. *)
Class PosFileSpec (F : Type) `{PosFile F} : Prop := {
  read_at_len : forall f b off, length (read_at f b off).2 = length b
}.

Section FileQueue.
Context {F : Type} `{PosFile F}.

Record FileQueue := { fq_file : F; fq_depth : Z; fq_completed : list IoCompletion }.

Definition FileQueue_new (file : F) (d : Z) : res IoError FileQueue :=
  check_depth d ;? Ok {| fq_file := file; fq_depth := d; fq_completed := [] |}.

Definition with_buffer (r : Request) (b : Buffer) : Request :=
  {| token := token r; operation := operation r; req_offset := req_offset r; req_len := req_len r; buffer := Some b |}.

(** The transfer a submission performs: the file, the request with its buffer
    after it, and the outcome. Validation excludes a transfer without buffer. *)
Definition transfer (f : F) (r : Request) : F * Request * io_res Z :=
  match Request_validate r with
  | Ok _ =>
      match operation r, buffer r with
      | io.Read, Some b =>
          let '(out, prefix) := read_at f (sub b 0 (req_len r)) (req_offset r) in
          (f, with_buffer r (splice b 0 prefix), out)
      | io.Write, Some b =>
          let '(out, f) := write_at f (sub b 0 (req_len r)) (req_offset r) in (f, r, out)
      | io.Sync, _ =>
          let '(out, f) := sync_data f in (f, r, match out with inr _ => inr 0 | inl e => inl e end)
      | _, None => (f, r, inl InvalidInput)
      end
  | Err e => (f, r, inl e)
  | Panic => (f, r, inl InvalidInput)
  end.

Definition FileQueue_try_submit (q : FileQueue) (r : Request) : FileQueue + Request :=
  if len (fq_completed q) =? fq_depth q then inr r
  else
    let '(file, r, out) := transfer (fq_file q) r in
    inl {| fq_file := file; fq_depth := fq_depth q; fq_completed := fq_completed q ++ [{| request := r; io_result := out |}] |}.

Definition FileQueue_pop (q : FileQueue) : option (IoCompletion * FileQueue) :=
  match fq_completed q with
  | [] => None
  | c :: rest => Some (c, {| fq_file := fq_file q; fq_depth := fq_depth q; fq_completed := rest |})
  end.

#[export] Instance FileQueue_queue : Queue FileQueue := {
  has_ready q := negb (len (fq_completed q) =? 0);
  depth q := fq_depth q;
  vacant q := fq_depth q - len (fq_completed q);
  try_submit := FileQueue_try_submit;
  queue_poll q _ := (q, None);
  pop := FileQueue_pop
}.

Context {FS : PosFileSpec F}.

Lemma transfer_shape f r : shape (transfer f r).1.2 = shape r.
Proof.
  unfold transfer. destruct (Request_validate r) eqn:Hv; [|reflexivity..].
  destruct (operation r) eqn:Ho; [| |destruct (sync_data f); reflexivity].
  - destruct (buffer r) as [b|] eqn:Hb; [|reflexivity].
    unfold Request_validate in Hv. rewrite Ho, Hb in Hv. inv_ok. boolp.
    pose proof (read_at_len f (sub b 0 (req_len r)) (req_offset r)) as Hlen.
    destruct (read_at f (sub b 0 (req_len r)) (req_offset r)) as [out pre]. cbn [snd fst] in *.
    assert (Hs : len (sub b 0 (req_len r)) = req_len r) by (rewrite len_sub; lia).
    assert (Hp : len pre = req_len r) by (unfold len in *; lia).
    unfold shape. cbn [token operation req_offset req_len buffer with_buffer]. rewrite Hb, Ho. cbn [fmap option_fmap option_map].
    rewrite len_splice by lia. reflexivity.
  - destruct (buffer r) as [b|]; [|reflexivity]. destruct (write_at f (sub b 0 (req_len r)) (req_offset r)). reflexivity.
Qed.

(** The file queue honours the queue contract. *)
#[export] Program Instance FileQueue_spec : QueueSpec FileQueue := {
  accepted q := map (fun c => shape (request c)) (fq_completed q);
  queue_ok q := len (fq_completed q) <= fq_depth q
}.
Next Obligation. intros q Hq. simpl. unfold len in *. rewrite length_map. lia. Qed.
Next Obligation.
  intros q r Hq Hv. simpl in *. unfold FileQueue_try_submit. rewrite (proj2 (Z.eqb_neq _ _)) by lia.
  pose proof (transfer_shape (fq_file q) r) as Hs. destruct (transfer (fq_file q) r) as [[file r'] out]. cbn [fst snd] in Hs.
  eexists. split; [reflexivity|]. cbn [fq_completed fq_depth]. rewrite len_app. change (len [_]) with 1.
  split; [lia|]. split; [reflexivity|]. rewrite map_app. simpl. rewrite Hs. symmetry. apply Permutation_cons_append.
Qed.
Next Obligation. intros q r Hq Hv. simpl in *. unfold FileQueue_try_submit. rewrite (proj2 (Z.eqb_eq _ _)) by lia. reflexivity. Qed.
Next Obligation. intros q w Hq. simpl. auto. Qed.
Next Obligation.
  intros q c q' Hq Hp. simpl in *. unfold FileQueue_pop in Hp. destruct (fq_completed q) as [|c0 rest] eqn:Hc; [discriminate|].
  injection Hp as <- <-. rewrite len_cons in Hq. cbn [fq_completed fq_depth]. split; [lia|]. split; [reflexivity|]. reflexivity.
Qed.
End FileQueue.
Arguments FileQueue : clear implicits.

(** ** An in-memory file, for concrete runs *)

Definition MemFile : Type := list byte.

#[export] Instance MemFile_file : PosFile MemFile := {
  read_at f b off := let avail := sub f off (Z.min (off + len b) (len f)) in (inr (len avail), if len avail =? len b then avail else b);
  write_at f b off := (if off + len b <=? len f then (inr (len b), splice f off b) else (inr 0, f));
  sync_data f := (inr tt, f)
}.

#[export] Instance MemFile_spec : PosFileSpec MemFile.
Proof.
  constructor. intros f b off. simpl. destruct (Z.eqb_spec (len (sub f off ((off + len b) `min` len f))) (len b)) as [He|]; [|reflexivity].
  unfold len in *. lia.
Qed.
