(* ===== verification/Index.v ===== *)
(** * The in-memory index (moat-engine/src/pipeline/index.rs)

    The map from keys to the location of their newest version. Publication
    compares sequence numbers, so the order in which frames complete or are
    recovered does not matter; tombstones stay in the index, so an older value
    that arrives late cannot resurrect a key. *)

From stdpp Require Import gmap.
From S2P Require Import Prelude ChunkId FrameFormat FrameDecode.

Record Location := {
  loc_segment : Z; loc_frame_offset : Z; loc_frame_len : Z; loc_metadata_len : Z; loc_ordinal : Z;
  loc_lsn : Z; loc_value_offset : Z; loc_value_len : Z; loc_kind : RecordKind
}.

#[export] Instance Location_eq_dec : EqDecision Location.
Proof. solve_decision. Defined.

Abbreviation Index := (gmap ChunkId Location).

Definition entry_of (m : Metadata) (segment : Z) (r : RecordView) : ChunkId * Location :=
  let d := descriptor r in
  (key d, {| loc_segment := segment; loc_frame_offset := offset (position (md_header m));
             loc_frame_len := wrap32 (frame_len (md_header m)); loc_metadata_len := wrap32 (metadata_len (md_header m));
             loc_ordinal := wrap32 (ordinal r); loc_lsn := lsn d; loc_value_offset := value_offset d;
             loc_value_len := value_len d; loc_kind := kind d |}).

Definition entries (m : Metadata) (segment : Z) : frame_result (list (ChunkId * Location)) :=
  let? rs := Metadata_records m in Ok (map (entry_of m segment) rs).

(** One iteration of [apply]. *)
Definition apply_one (st : Index * list ChunkId) (e : ChunkId * Location) : Index * list ChunkId :=
  let '(index, keys) := st in
  let '(k, location) := e in
  match index !! k with
  | Some old => if loc_lsn location >? loc_lsn old then (<[k := location]> index, keys) else (index, keys)
  | None => (<[k := location]> index, keys ++ [k])
  end.

Definition apply (index : Index) (keys : list ChunkId) (es : list (ChunkId * Location)) : Index * list ChunkId :=
  foldl apply_one (index, keys) es.

(** ** Properties *)

(** The map alone. *)
Definition upd (index : Index) (e : ChunkId * Location) : Index := (apply_one (index, []) e).1.

Lemma apply_fst index keys es : (apply index keys es).1 = foldl upd index es.
Proof.
  unfold apply. revert index keys. induction es as [|[k l] es IH]; intros index keys; [reflexivity|]. cbn [foldl].
  replace (upd index (k, l)) with (apply_one (index, keys) (k, l)).1.
  - destruct (apply_one (index, keys) (k, l)) as [index' keys']. apply IH.
  - unfold upd, apply_one. destruct (index !! k); [destruct (_ >? _)|]; reflexivity.
Qed.

Lemma lookup_upd index k l k' :
  upd index (k, l) !! k' =
    if decide (k = k') then
      match index !! k with Some old => if loc_lsn l >? loc_lsn old then Some l else Some old | None => Some l end
    else index !! k'.
Proof.
  unfold upd, apply_one. destruct (decide (k = k')) as [<-|Hne].
  - destruct (index !! k) as [old|] eqn:He; [destruct (_ >? _)|]; cbn [fst]; rewrite ?lookup_insert_eq; auto.
  - destruct (index !! k) as [old|] eqn:He; [destruct (_ >? _)|]; cbn [fst]; rewrite ?lookup_insert_ne by assumption; reflexivity.
Qed.

(** No two versions of one key share a sequence number. *)
Definition versions_unique (index : Index) (es : list (ChunkId * Location)) : Prop :=
  (forall k l l', (k, l) ∈ es -> (k, l') ∈ es -> loc_lsn l = loc_lsn l' -> l = l') /\
  (forall k l old, (k, l) ∈ es -> index !! k = Some old -> loc_lsn l = loc_lsn old -> l = old).

Lemma versions_unique_tail index e es : versions_unique index (e :: es) -> versions_unique (upd index e) es.
Proof.
  destruct e as [k0 l0]. intros [H1 H2]. split; [intros k l l' Hl Hl'; apply (H1 k); set_solver|].
  intros k l old Hl. rewrite lookup_upd. destruct (decide (k0 = k)) as [<-|Hne].
  - destruct (index !! k0) as [old0|] eqn:Ho; [destruct (loc_lsn l0 >? loc_lsn old0)|]; intros [= <-] He.
    + apply (H1 k0); set_solver.
    + apply (H2 k0); set_solver.
    + apply (H1 k0); set_solver.
  - intros Ho He. apply (H2 k); set_solver.
Qed.

Lemma versions_unique_perm index es es' : Permutation es es' -> versions_unique index es -> versions_unique index es'.
Proof. intros Hp [H1 H2]. split; intros k l l' Hl; rewrite <- Hp in Hl; [intros Hl'; rewrite <- Hp in Hl'; eauto | eauto]. Qed.

Lemma upd_comm index x y : versions_unique index [x; y] -> upd (upd index x) y = upd (upd index y) x.
Proof.
  destruct x as [kx lx], y as [ky ly]. intros [H1 H2]. apply map_eq. intros k. rewrite !lookup_upd.
  destruct (decide (kx = ky)) as [<-|Hxy].
  - destruct (decide (kx = k)) as [<-|]; [|reflexivity].
    rewrite !decide_True by reflexivity.
    assert (He : loc_lsn lx = loc_lsn ly -> lx = ly) by (apply (H1 kx); set_solver).
    destruct (index !! kx) as [old|]; rewrite !Z.gtb_ltb.
    + destruct (Z.ltb_spec (loc_lsn old) (loc_lsn lx)), (Z.ltb_spec (loc_lsn old) (loc_lsn ly)); rewrite ?Z.gtb_ltb;
        repeat match goal with |- context [?a <? ?b] => destruct (Z.ltb_spec a b) end; try lia; try reflexivity.
      rewrite He by lia. reflexivity.
    + destruct (Z.ltb_spec (loc_lsn lx) (loc_lsn ly)), (Z.ltb_spec (loc_lsn ly) (loc_lsn lx)); try lia; try reflexivity.
      rewrite He by lia. reflexivity.
  - repeat match goal with |- context [decide ?P] => destruct (decide P); try congruence end.
Qed.

Lemma foldl_upd_perm index es es' : Permutation es es' -> versions_unique index es -> foldl upd index es = foldl upd index es'.
Proof.
  intros Hp. revert index. induction Hp as [|x es es' Hp IH|x y es|es es' es'' Hp1 IH1 Hp2 IH2]; intros index Hu; simpl.
  - reflexivity.
  - apply IH. apply versions_unique_tail. assumption.
  - f_equal. apply upd_comm. destruct Hu as [H1 H2]. split; intros k l l'; [intros Hl Hl' | intros Hl].
    + apply (H1 k); set_solver.
    + apply (H2 k); set_solver.
  - rewrite IH1 by assumption. apply IH2. eapply versions_unique_perm; eassumption.
Qed.

(** The sequence number a key is indexed at. *)
Definition version (index : Index) (k : ChunkId) : option Z := loc_lsn <$> index !! k.

Lemma upd_version_mono index e k v : version index k = Some v -> exists v', version (upd index e) k = Some v' /\ v <= v'.
Proof.
  unfold version. destruct e as [k0 l0]. rewrite lookup_upd. destruct (decide (k0 = k)) as [<-|]; [|eauto with lia].
  destruct (index !! k0) as [old|]; [|discriminate]. intros [= <-]. destruct (Z.gtb_spec (loc_lsn l0) (loc_lsn old)); simpl; eauto with lia.
Qed.

Lemma foldl_upd_mono es : forall index k v, version index k = Some v -> exists v', version (foldl upd index es) k = Some v' /\ v <= v'.
Proof.
  induction es as [|e es IH]; intros index k v Hv; [simpl; eauto with lia|]. simpl.
  destruct (upd_version_mono index e k v Hv) as (v1 & H1 & Hle). destruct (IH _ _ _ H1) as (v2 & H2 & Hle2). eauto with lia.
Qed.

Lemma foldl_upd_covers es : forall index k l, (k, l) ∈ es -> exists v, version (foldl upd index es) k = Some v /\ loc_lsn l <= v.
Proof.
  induction es as [|e es IH]; intros index k l Hin; [set_solver|]. simpl. apply elem_of_cons in Hin as [<-|Hin]; [|eauto].
  assert (Hv : version (upd index (k, l)) k = Some (match version index k with Some v => Z.max v (loc_lsn l) | None => loc_lsn l end)).
  { unfold version. rewrite lookup_upd, decide_True by reflexivity. destruct (index !! k) as [old|]; [|reflexivity]. simpl.
    destruct (Z.gtb_spec (loc_lsn l) (loc_lsn old)); simpl; f_equal; lia. }
  destruct (foldl_upd_mono es _ _ _ Hv) as (v' & H1 & Hle). exists v'. split; [assumption|]. destruct (version index k); lia.
Qed.

Lemma foldl_upd_origin es : forall index k l, foldl upd index es !! k = Some l -> index !! k = Some l \/ (k, l) ∈ es.
Proof.
  induction es as [|[k0 l0] es IH]; intros index k l H; [auto|]. simpl in H. apply IH in H as [H|H]; [|set_solver].
  rewrite lookup_upd in H. destruct (decide (k0 = k)) as [<-|]; [|auto].
  destruct (index !! k0) as [old|]; [destruct (_ >? _)|]; injection H as <-; set_solver.
Qed.

(** publishing entries leaves every key at the newest of its indexed and published
    versions: what is found came from the index or the entries, and no entry of the key, nor the
    version indexed before, is newer. *)
Theorem apply_keeps_newest (index : Index) (keys : list ChunkId) (es : list (ChunkId * Location)) (k : ChunkId) :
  match (apply index keys es).1 !! k with
  | Some l => (index !! k = Some l \/ (k, l) ∈ es) /\
      (forall l', (k, l') ∈ es -> loc_lsn l' <= loc_lsn l) /\ (forall old, index !! k = Some old -> loc_lsn old <= loc_lsn l)
  | None => index !! k = None /\ (forall l', (k, l') ∉ es)
  end.
Proof.
  rewrite apply_fst. destruct (foldl upd index es !! k) as [l|] eqn:Hl.
  - split; [eapply foldl_upd_origin; eassumption|]. split.
    + intros l' Hin. destruct (foldl_upd_covers es index k l' Hin) as (v & Hv & Hle). unfold version in Hv. rewrite Hl in Hv.
      injection Hv as <-. assumption.
    + intros old Ho. destruct (foldl_upd_mono es index k (loc_lsn old)) as (v & Hv & Hle); [unfold version; rewrite Ho; reflexivity|].
      unfold version in Hv. rewrite Hl in Hv. injection Hv as <-. assumption.
  - split.
    + destruct (index !! k) as [old|] eqn:Ho; [|reflexivity]. destruct (foldl_upd_mono es index k (loc_lsn old)) as (v & Hv & _);
        [unfold version; rewrite Ho; reflexivity|]. unfold version in Hv. rewrite Hl in Hv. discriminate.
    + intros l' Hin. destruct (foldl_upd_covers es index k l' Hin) as (v & Hv & _). unfold version in Hv. rewrite Hl in Hv. discriminate.
Qed.

(** When no two versions of a key share a sequence number, the index does not depend on the
    order in which entries are published. *)
Theorem apply_order_independent (index : Index) (keys : list ChunkId) (es es' : list (ChunkId * Location))
  (Hp : Permutation es es') (Hu : versions_unique index es) :
  (apply index keys es).1 = (apply index keys es').1.
Proof. rewrite !apply_fst. apply foldl_upd_perm; assumption. Qed.

(** ** The key list *)

(** [keys] lists the indexed keys once each. *)
Definition keys_ok (index : Index) (keys : list ChunkId) : Prop := NoDup keys /\ forall k, k ∈ keys <-> is_Some (index !! k).

Lemma apply_one_keys index keys e : keys_ok index keys -> keys_ok (apply_one (index, keys) e).1 (apply_one (index, keys) e).2.
Proof.
  destruct e as [k0 l0]. intros [Hnd Hin]. unfold apply_one. destruct (index !! k0) as [old|] eqn:Ho; [destruct (_ >? _)|]; cbn [fst snd].
  - split; [assumption|]. intros k. rewrite Hin. destruct (decide (k0 = k)) as [<-|]; [rewrite lookup_insert_eq, Ho; split; eauto|].
    rewrite lookup_insert_ne by assumption. reflexivity.
  - split; assumption.
  - assert (Hnot : k0 ∉ keys) by (rewrite Hin, Ho; apply is_Some_None).
    split; [apply NoDup_app; split; [assumption|]; split; [set_solver | apply NoDup_singleton]|].
    intros k. rewrite elem_of_app, Hin, list_elem_of_singleton. destruct (decide (k0 = k)) as [<-|Hne].
    + rewrite lookup_insert_eq. split; eauto.
    + rewrite lookup_insert_ne by assumption. split; [intros [?| ->]; [assumption | congruence] | auto].
Qed.

Lemma apply_keys es : forall index keys, keys_ok index keys -> keys_ok (apply index keys es).1 (apply index keys es).2.
Proof.
  unfold apply. induction es as [|e es IH]; intros index keys Hk; [assumption|]. cbn [foldl].
  pose proof (apply_one_keys index keys e Hk) as H1. destruct (apply_one (index, keys) e) as [index' keys']. apply IH. assumption.
Qed.

Lemma keys_ok_size index keys : keys_ok index keys -> len keys = Z.of_nat (size index).
Proof.
  intros [Hnd Hin]. unfold len. f_equal. rewrite <- size_dom. rewrite <- (size_list_to_set (C := gset ChunkId) keys Hnd).
  f_equal. apply set_eq. intros k. rewrite elem_of_list_to_set, elem_of_dom. apply Hin.
Qed.

(** The keys of [es] the index does not hold. *)
Definition fresh_keys (index : Index) (es : list (ChunkId * Location)) : gset ChunkId :=
  list_to_set (List.filter (fun k => negb (bool_decide (is_Some (index !! k)))) (map fst es)).

Lemma dom_foldl_upd es : forall index, dom (foldl upd index es) = dom index ∪ (list_to_set (map fst es) : gset ChunkId).
Proof.
  induction es as [|[k l] es IH]; intros index; simpl; [set_solver|]. rewrite IH.
  assert (Hd : dom (upd index (k, l)) = {[k]} ∪ dom index).
  { apply set_eq. intros k'. rewrite elem_of_union, elem_of_singleton, !elem_of_dom, lookup_upd.
    destruct (decide (k = k')) as [<-|Hne]; [|split; [auto | intros [->|?]; [congruence | assumption]]].
    split; [auto|]. intros _. destruct (index !! k); [destruct (_ >? _)|]; eauto. }
  rewrite Hd. set_solver.
Qed.

(** Publication grows the index by exactly the distinct keys it did not hold. *)
Lemma apply_size index keys es : size (apply index keys es).1 = (size index + size (fresh_keys index es))%nat.
Proof.
  rewrite apply_fst, <- !size_dom, dom_foldl_upd.
  replace (dom index ∪ list_to_set (map fst es)) with (dom index ∪ fresh_keys index es).
  - apply size_union. intros k Hk Hf. unfold fresh_keys in Hf. apply elem_of_list_to_set, list_elem_of_In, filter_In in Hf as [_ Hf].
    apply elem_of_dom in Hk. rewrite bool_decide_true in Hf by assumption. discriminate.
  - apply set_eq. intros k. rewrite !elem_of_union. unfold fresh_keys. rewrite !elem_of_list_to_set, !list_elem_of_In, filter_In.
    destruct (decide (is_Some (index !! k))) as [Hs|Hs].
    + split; intros _; left; apply elem_of_dom; assumption.
    + rewrite bool_decide_false by assumption. rewrite elem_of_dom. simpl. tauto.
Qed.

(** Two versions of one key and one of another, in both orders. *)
Definition sample_entry (k : byte) (lsn : Z) : ChunkId * Location :=
  (replicate 16 k, {| loc_segment := 0; loc_frame_offset := 4096; loc_frame_len := 4096; loc_metadata_len := 128; loc_ordinal := 0;
                      loc_lsn := lsn; loc_value_offset := 0; loc_value_len := 0; loc_kind := Tombstone |}).

Lemma apply_order_independent_witness :
  (apply ∅ [] [sample_entry Byte.x00 1; sample_entry Byte.x00 2; sample_entry Byte.x01 1]).1 =
  (apply ∅ [] [sample_entry Byte.x01 1; sample_entry Byte.x00 2; sample_entry Byte.x00 1]).1.
Proof.
  apply apply_order_independent.
  - apply (Permutation_rev [sample_entry Byte.x00 1; sample_entry Byte.x00 2; sample_entry Byte.x01 1]).
  - split; [|intros k l old _ Ho; rewrite lookup_empty in Ho; discriminate].
    intros k l l' H H' He. repeat (apply elem_of_cons in H as [H|H]); try solve [inversion H];
      (repeat (apply elem_of_cons in H' as [H'|H']); try solve [inversion H']);
      apply (f_equal snd) in H as H2; apply (f_equal snd) in H' as H2'; apply (f_equal fst) in H as H1; apply (f_equal fst) in H' as H1';
      cbn [fst snd sample_entry] in *; rewrite H2, H2' in *; try reflexivity; try discriminate He; rewrite H1 in H1'; discriminate H1'.
Defined.
