(* ===== verification/PipelineState.v ===== *)
(** * Pipeline state (moat-engine/src/pipeline)

    Errors, options, pending operations and completions of the single-owner
    pipeline, its state record, and one setter per field. *)

From stdpp Require Import gmap.
From S2P Require Import Prelude Align ChunkId Checksum Codec FrameFormat FrameDecode SegmentFormat SegmentBuilder Io Index.

Module pipeline.
Inductive Error :=
| Backpressure
| MetadataFull
| ResourceLimit (what : string)
| Allocation
| ReadOnly
| WriteFailed (ticket : Z)
| NotFound
| InvalidArgument (what : string)
| Frame (e : frame.Error)
| Segment (e : segment.Error)
| Io (op : io.Operation) (off : Z) (source : IoError)
| ShortIo (op : io.Operation) (off expected actual : Z)
| Queue (e : IoError)
| QueueFailed.
End pipeline.

Definition presult (A : Type) : Type := res pipeline.Error A.

(** [From] conversions of the lower layers' errors. *)
Definition frame_err {A} (m : frame_result A) : presult A := map_err pipeline.Frame m.
Definition segment_err {A} (m : segment_result A) : presult A := map_err pipeline.Segment m.

(** ** Options *)

Record PollBudget := { pb_operations : Z; pb_bytes : Z; pb_records : Z }.
Definition PollBudget_default : PollBudget := {| pb_operations := 64; pb_bytes := Z.shiftl 1 20; pb_records := 4096 |}.

Record ResourceLimits := { rl_frame_bytes : Z; rl_index_entries : Z; rl_metadata_bytes : Z; rl_pending_records : Z }.
Definition ResourceLimits_default : ResourceLimits :=
  {| rl_frame_bytes := Z.shiftl 64 20; rl_index_entries := Z.shiftl 1 20; rl_metadata_bytes := Z.shiftl 64 20; rl_pending_records := Z.shiftl 1 20 |}.

(** ** Operations in flight *)

Record ReadBuffers := { rb_metadata : option Buffer; rb_value : Buffer }.
Inductive ReadRange := InMetadata (range : Z * Z) | InValue (range : Z * Z).

Record Write := { w_ticket : Z; w_entries : list (ChunkId * Location); w_reserved_new : Z; w_completed : option (presult unit * Buffer) }.
Record Read := { r_ticket : Z; r_range : Z * Z; r_metadata : option Buffer }.

Record VerifiedRead := {
  vr_ticket : Z; vr_key : ChunkId; vr_location : Location; vr_requested : Z * Z; vr_verified : Z * Z;
  vr_io_offset : Z; vr_io_len : Z; vr_prefix : Z; vr_metadata : option Buffer; vr_value : option Buffer;
  vr_validated_header : option FrameHeader
}.

Inductive Pending :=
| PWrite (w : Write)
| PRead (r : Read)
| PVerifiedRead (r : VerifiedRead)
| PEmptyRead (ticket : Z) (buffers : ReadBuffers)
| PFlush (ticket : Z) (submitted : bool).

Inductive Completion :=
| CWrite (ticket : Z) (result : presult unit) (buf : Buffer)
| CRead (ticket : Z) (result : presult ReadRange) (buffers : ReadBuffers)
| CFailed (ticket : Z) (error : pipeline.Error)
| CFlush (ticket : Z) (result : presult unit).

Definition Completion_ticket (c : Completion) : Z :=
  match c with CWrite t _ _ | CRead t _ _ | CFailed t _ | CFlush t _ => t end.

Record Extent := { ext_header : SegmentHeader; ext_base : Z }.

(** ** The pipeline

    [p_free] is the free stack with its top first. *)

Record Pipeline {Q : Type} := {
  p_queue : Q;
  p_extents : list Extent;
  p_current : Z;
  p_limits : FrameLimits;
  p_segment : option SegmentBuilder;
  p_index : Index;
  p_slots : list (option Pending);
  p_free : list nat;
  p_writes : list nat;
  p_ready_reads : list nat;
  p_flush : option nat;
  p_sync_enabled : bool;
  p_next_ticket : Z;
  p_serving : bool;
  p_failed_at : option Z;
  p_queue_failed : bool;
  p_fatal : option pipeline.Error;
  p_failed_cursor : Z;
  p_control : option Request;
  p_control_active : bool;
  p_control_done : option IoCompletion;
  p_maintenance : bool;
  p_budget : PollBudget;
  p_resources : ResourceLimits;
  p_pending_entries : Z;
  p_pending_new : Z;
  p_keys : list ChunkId
}.
Arguments Pipeline : clear implicits.

Section Setters.
Context {Q : Type}.

Definition set_queue (v : Q) (p : Pipeline Q) : Pipeline Q :=
  {| p_queue := v; p_extents := p_extents p; p_current := p_current p; p_limits := p_limits p; p_segment := p_segment p; p_index := p_index p; p_slots
     := p_slots p; p_free := p_free p; p_writes := p_writes p; p_ready_reads := p_ready_reads p; p_flush := p_flush p; p_sync_enabled :=
     p_sync_enabled p; p_next_ticket := p_next_ticket p; p_serving := p_serving p; p_failed_at := p_failed_at p; p_queue_failed := p_queue_failed p;
     p_fatal := p_fatal p; p_failed_cursor := p_failed_cursor p; p_control := p_control p; p_control_active := p_control_active p; p_control_done :=
     p_control_done p; p_maintenance := p_maintenance p; p_budget := p_budget p; p_resources := p_resources p; p_pending_entries := p_pending_entries
     p; p_pending_new := p_pending_new p; p_keys := p_keys p |}.
Definition set_extents (v : list Extent) (p : Pipeline Q) : Pipeline Q :=
  {| p_queue := p_queue p; p_extents := v; p_current := p_current p; p_limits := p_limits p; p_segment := p_segment p; p_index := p_index p; p_slots
     := p_slots p; p_free := p_free p; p_writes := p_writes p; p_ready_reads := p_ready_reads p; p_flush := p_flush p; p_sync_enabled :=
     p_sync_enabled p; p_next_ticket := p_next_ticket p; p_serving := p_serving p; p_failed_at := p_failed_at p; p_queue_failed := p_queue_failed p;
     p_fatal := p_fatal p; p_failed_cursor := p_failed_cursor p; p_control := p_control p; p_control_active := p_control_active p; p_control_done :=
     p_control_done p; p_maintenance := p_maintenance p; p_budget := p_budget p; p_resources := p_resources p; p_pending_entries := p_pending_entries
     p; p_pending_new := p_pending_new p; p_keys := p_keys p |}.
Definition set_current (v : Z) (p : Pipeline Q) : Pipeline Q :=
  {| p_queue := p_queue p; p_extents := p_extents p; p_current := v; p_limits := p_limits p; p_segment := p_segment p; p_index := p_index p; p_slots
     := p_slots p; p_free := p_free p; p_writes := p_writes p; p_ready_reads := p_ready_reads p; p_flush := p_flush p; p_sync_enabled :=
     p_sync_enabled p; p_next_ticket := p_next_ticket p; p_serving := p_serving p; p_failed_at := p_failed_at p; p_queue_failed := p_queue_failed p;
     p_fatal := p_fatal p; p_failed_cursor := p_failed_cursor p; p_control := p_control p; p_control_active := p_control_active p; p_control_done :=
     p_control_done p; p_maintenance := p_maintenance p; p_budget := p_budget p; p_resources := p_resources p; p_pending_entries := p_pending_entries
     p; p_pending_new := p_pending_new p; p_keys := p_keys p |}.
Definition set_limits (v : FrameLimits) (p : Pipeline Q) : Pipeline Q :=
  {| p_queue := p_queue p; p_extents := p_extents p; p_current := p_current p; p_limits := v; p_segment := p_segment p; p_index := p_index p; p_slots
     := p_slots p; p_free := p_free p; p_writes := p_writes p; p_ready_reads := p_ready_reads p; p_flush := p_flush p; p_sync_enabled :=
     p_sync_enabled p; p_next_ticket := p_next_ticket p; p_serving := p_serving p; p_failed_at := p_failed_at p; p_queue_failed := p_queue_failed p;
     p_fatal := p_fatal p; p_failed_cursor := p_failed_cursor p; p_control := p_control p; p_control_active := p_control_active p; p_control_done :=
     p_control_done p; p_maintenance := p_maintenance p; p_budget := p_budget p; p_resources := p_resources p; p_pending_entries := p_pending_entries
     p; p_pending_new := p_pending_new p; p_keys := p_keys p |}.
Definition set_segment (v : option SegmentBuilder) (p : Pipeline Q) : Pipeline Q :=
  {| p_queue := p_queue p; p_extents := p_extents p; p_current := p_current p; p_limits := p_limits p; p_segment := v; p_index := p_index p; p_slots
     := p_slots p; p_free := p_free p; p_writes := p_writes p; p_ready_reads := p_ready_reads p; p_flush := p_flush p; p_sync_enabled :=
     p_sync_enabled p; p_next_ticket := p_next_ticket p; p_serving := p_serving p; p_failed_at := p_failed_at p; p_queue_failed := p_queue_failed p;
     p_fatal := p_fatal p; p_failed_cursor := p_failed_cursor p; p_control := p_control p; p_control_active := p_control_active p; p_control_done :=
     p_control_done p; p_maintenance := p_maintenance p; p_budget := p_budget p; p_resources := p_resources p; p_pending_entries := p_pending_entries
     p; p_pending_new := p_pending_new p; p_keys := p_keys p |}.
Definition set_index (v : Index) (p : Pipeline Q) : Pipeline Q :=
  {| p_queue := p_queue p; p_extents := p_extents p; p_current := p_current p; p_limits := p_limits p; p_segment := p_segment p; p_index := v; p_slots
     := p_slots p; p_free := p_free p; p_writes := p_writes p; p_ready_reads := p_ready_reads p; p_flush := p_flush p; p_sync_enabled :=
     p_sync_enabled p; p_next_ticket := p_next_ticket p; p_serving := p_serving p; p_failed_at := p_failed_at p; p_queue_failed := p_queue_failed p;
     p_fatal := p_fatal p; p_failed_cursor := p_failed_cursor p; p_control := p_control p; p_control_active := p_control_active p; p_control_done :=
     p_control_done p; p_maintenance := p_maintenance p; p_budget := p_budget p; p_resources := p_resources p; p_pending_entries := p_pending_entries
     p; p_pending_new := p_pending_new p; p_keys := p_keys p |}.
Definition set_slots (v : list (option Pending)) (p : Pipeline Q) : Pipeline Q :=
  {| p_queue := p_queue p; p_extents := p_extents p; p_current := p_current p; p_limits := p_limits p; p_segment := p_segment p; p_index := p_index p;
     p_slots := v; p_free := p_free p; p_writes := p_writes p; p_ready_reads := p_ready_reads p; p_flush := p_flush p; p_sync_enabled :=
     p_sync_enabled p; p_next_ticket := p_next_ticket p; p_serving := p_serving p; p_failed_at := p_failed_at p; p_queue_failed := p_queue_failed p;
     p_fatal := p_fatal p; p_failed_cursor := p_failed_cursor p; p_control := p_control p; p_control_active := p_control_active p; p_control_done :=
     p_control_done p; p_maintenance := p_maintenance p; p_budget := p_budget p; p_resources := p_resources p; p_pending_entries := p_pending_entries
     p; p_pending_new := p_pending_new p; p_keys := p_keys p |}.
Definition set_free (v : list nat) (p : Pipeline Q) : Pipeline Q :=
  {| p_queue := p_queue p; p_extents := p_extents p; p_current := p_current p; p_limits := p_limits p; p_segment := p_segment p; p_index := p_index p;
     p_slots := p_slots p; p_free := v; p_writes := p_writes p; p_ready_reads := p_ready_reads p; p_flush := p_flush p; p_sync_enabled :=
     p_sync_enabled p; p_next_ticket := p_next_ticket p; p_serving := p_serving p; p_failed_at := p_failed_at p; p_queue_failed := p_queue_failed p;
     p_fatal := p_fatal p; p_failed_cursor := p_failed_cursor p; p_control := p_control p; p_control_active := p_control_active p; p_control_done :=
     p_control_done p; p_maintenance := p_maintenance p; p_budget := p_budget p; p_resources := p_resources p; p_pending_entries := p_pending_entries
     p; p_pending_new := p_pending_new p; p_keys := p_keys p |}.
Definition set_writes (v : list nat) (p : Pipeline Q) : Pipeline Q :=
  {| p_queue := p_queue p; p_extents := p_extents p; p_current := p_current p; p_limits := p_limits p; p_segment := p_segment p; p_index := p_index p;
     p_slots := p_slots p; p_free := p_free p; p_writes := v; p_ready_reads := p_ready_reads p; p_flush := p_flush p; p_sync_enabled := p_sync_enabled
     p; p_next_ticket := p_next_ticket p; p_serving := p_serving p; p_failed_at := p_failed_at p; p_queue_failed := p_queue_failed p; p_fatal :=
     p_fatal p; p_failed_cursor := p_failed_cursor p; p_control := p_control p; p_control_active := p_control_active p; p_control_done :=
     p_control_done p; p_maintenance := p_maintenance p; p_budget := p_budget p; p_resources := p_resources p; p_pending_entries := p_pending_entries
     p; p_pending_new := p_pending_new p; p_keys := p_keys p |}.
Definition set_ready_reads (v : list nat) (p : Pipeline Q) : Pipeline Q :=
  {| p_queue := p_queue p; p_extents := p_extents p; p_current := p_current p; p_limits := p_limits p; p_segment := p_segment p; p_index := p_index p;
     p_slots := p_slots p; p_free := p_free p; p_writes := p_writes p; p_ready_reads := v; p_flush := p_flush p; p_sync_enabled := p_sync_enabled p;
     p_next_ticket := p_next_ticket p; p_serving := p_serving p; p_failed_at := p_failed_at p; p_queue_failed := p_queue_failed p; p_fatal := p_fatal
     p; p_failed_cursor := p_failed_cursor p; p_control := p_control p; p_control_active := p_control_active p; p_control_done := p_control_done p;
     p_maintenance := p_maintenance p; p_budget := p_budget p; p_resources := p_resources p; p_pending_entries := p_pending_entries p; p_pending_new
     := p_pending_new p; p_keys := p_keys p |}.
Definition set_flush (v : option nat) (p : Pipeline Q) : Pipeline Q :=
  {| p_queue := p_queue p; p_extents := p_extents p; p_current := p_current p; p_limits := p_limits p; p_segment := p_segment p; p_index := p_index p;
     p_slots := p_slots p; p_free := p_free p; p_writes := p_writes p; p_ready_reads := p_ready_reads p; p_flush := v; p_sync_enabled :=
     p_sync_enabled p; p_next_ticket := p_next_ticket p; p_serving := p_serving p; p_failed_at := p_failed_at p; p_queue_failed := p_queue_failed p;
     p_fatal := p_fatal p; p_failed_cursor := p_failed_cursor p; p_control := p_control p; p_control_active := p_control_active p; p_control_done :=
     p_control_done p; p_maintenance := p_maintenance p; p_budget := p_budget p; p_resources := p_resources p; p_pending_entries := p_pending_entries
     p; p_pending_new := p_pending_new p; p_keys := p_keys p |}.
Definition set_sync_enabled (v : bool) (p : Pipeline Q) : Pipeline Q :=
  {| p_queue := p_queue p; p_extents := p_extents p; p_current := p_current p; p_limits := p_limits p; p_segment := p_segment p; p_index := p_index p;
     p_slots := p_slots p; p_free := p_free p; p_writes := p_writes p; p_ready_reads := p_ready_reads p; p_flush := p_flush p; p_sync_enabled := v;
     p_next_ticket := p_next_ticket p; p_serving := p_serving p; p_failed_at := p_failed_at p; p_queue_failed := p_queue_failed p; p_fatal := p_fatal
     p; p_failed_cursor := p_failed_cursor p; p_control := p_control p; p_control_active := p_control_active p; p_control_done := p_control_done p;
     p_maintenance := p_maintenance p; p_budget := p_budget p; p_resources := p_resources p; p_pending_entries := p_pending_entries p; p_pending_new
     := p_pending_new p; p_keys := p_keys p |}.
Definition set_next_ticket (v : Z) (p : Pipeline Q) : Pipeline Q :=
  {| p_queue := p_queue p; p_extents := p_extents p; p_current := p_current p; p_limits := p_limits p; p_segment := p_segment p; p_index := p_index p;
     p_slots := p_slots p; p_free := p_free p; p_writes := p_writes p; p_ready_reads := p_ready_reads p; p_flush := p_flush p; p_sync_enabled :=
     p_sync_enabled p; p_next_ticket := v; p_serving := p_serving p; p_failed_at := p_failed_at p; p_queue_failed := p_queue_failed p; p_fatal :=
     p_fatal p; p_failed_cursor := p_failed_cursor p; p_control := p_control p; p_control_active := p_control_active p; p_control_done :=
     p_control_done p; p_maintenance := p_maintenance p; p_budget := p_budget p; p_resources := p_resources p; p_pending_entries := p_pending_entries
     p; p_pending_new := p_pending_new p; p_keys := p_keys p |}.
Definition set_serving (v : bool) (p : Pipeline Q) : Pipeline Q :=
  {| p_queue := p_queue p; p_extents := p_extents p; p_current := p_current p; p_limits := p_limits p; p_segment := p_segment p; p_index := p_index p;
     p_slots := p_slots p; p_free := p_free p; p_writes := p_writes p; p_ready_reads := p_ready_reads p; p_flush := p_flush p; p_sync_enabled :=
     p_sync_enabled p; p_next_ticket := p_next_ticket p; p_serving := v; p_failed_at := p_failed_at p; p_queue_failed := p_queue_failed p; p_fatal :=
     p_fatal p; p_failed_cursor := p_failed_cursor p; p_control := p_control p; p_control_active := p_control_active p; p_control_done :=
     p_control_done p; p_maintenance := p_maintenance p; p_budget := p_budget p; p_resources := p_resources p; p_pending_entries := p_pending_entries
     p; p_pending_new := p_pending_new p; p_keys := p_keys p |}.
Definition set_failed_at (v : option Z) (p : Pipeline Q) : Pipeline Q :=
  {| p_queue := p_queue p; p_extents := p_extents p; p_current := p_current p; p_limits := p_limits p; p_segment := p_segment p; p_index := p_index p;
     p_slots := p_slots p; p_free := p_free p; p_writes := p_writes p; p_ready_reads := p_ready_reads p; p_flush := p_flush p; p_sync_enabled :=
     p_sync_enabled p; p_next_ticket := p_next_ticket p; p_serving := p_serving p; p_failed_at := v; p_queue_failed := p_queue_failed p; p_fatal :=
     p_fatal p; p_failed_cursor := p_failed_cursor p; p_control := p_control p; p_control_active := p_control_active p; p_control_done :=
     p_control_done p; p_maintenance := p_maintenance p; p_budget := p_budget p; p_resources := p_resources p; p_pending_entries := p_pending_entries
     p; p_pending_new := p_pending_new p; p_keys := p_keys p |}.
Definition set_queue_failed (v : bool) (p : Pipeline Q) : Pipeline Q :=
  {| p_queue := p_queue p; p_extents := p_extents p; p_current := p_current p; p_limits := p_limits p; p_segment := p_segment p; p_index := p_index p;
     p_slots := p_slots p; p_free := p_free p; p_writes := p_writes p; p_ready_reads := p_ready_reads p; p_flush := p_flush p; p_sync_enabled :=
     p_sync_enabled p; p_next_ticket := p_next_ticket p; p_serving := p_serving p; p_failed_at := p_failed_at p; p_queue_failed := v; p_fatal :=
     p_fatal p; p_failed_cursor := p_failed_cursor p; p_control := p_control p; p_control_active := p_control_active p; p_control_done :=
     p_control_done p; p_maintenance := p_maintenance p; p_budget := p_budget p; p_resources := p_resources p; p_pending_entries := p_pending_entries
     p; p_pending_new := p_pending_new p; p_keys := p_keys p |}.
Definition set_fatal (v : option pipeline.Error) (p : Pipeline Q) : Pipeline Q :=
  {| p_queue := p_queue p; p_extents := p_extents p; p_current := p_current p; p_limits := p_limits p; p_segment := p_segment p; p_index := p_index p;
     p_slots := p_slots p; p_free := p_free p; p_writes := p_writes p; p_ready_reads := p_ready_reads p; p_flush := p_flush p; p_sync_enabled :=
     p_sync_enabled p; p_next_ticket := p_next_ticket p; p_serving := p_serving p; p_failed_at := p_failed_at p; p_queue_failed := p_queue_failed p;
     p_fatal := v; p_failed_cursor := p_failed_cursor p; p_control := p_control p; p_control_active := p_control_active p; p_control_done :=
     p_control_done p; p_maintenance := p_maintenance p; p_budget := p_budget p; p_resources := p_resources p; p_pending_entries := p_pending_entries
     p; p_pending_new := p_pending_new p; p_keys := p_keys p |}.
Definition set_failed_cursor (v : Z) (p : Pipeline Q) : Pipeline Q :=
  {| p_queue := p_queue p; p_extents := p_extents p; p_current := p_current p; p_limits := p_limits p; p_segment := p_segment p; p_index := p_index p;
     p_slots := p_slots p; p_free := p_free p; p_writes := p_writes p; p_ready_reads := p_ready_reads p; p_flush := p_flush p; p_sync_enabled :=
     p_sync_enabled p; p_next_ticket := p_next_ticket p; p_serving := p_serving p; p_failed_at := p_failed_at p; p_queue_failed := p_queue_failed p;
     p_fatal := p_fatal p; p_failed_cursor := v; p_control := p_control p; p_control_active := p_control_active p; p_control_done := p_control_done p;
     p_maintenance := p_maintenance p; p_budget := p_budget p; p_resources := p_resources p; p_pending_entries := p_pending_entries p; p_pending_new
     := p_pending_new p; p_keys := p_keys p |}.
Definition set_control (v : option Request) (p : Pipeline Q) : Pipeline Q :=
  {| p_queue := p_queue p; p_extents := p_extents p; p_current := p_current p; p_limits := p_limits p; p_segment := p_segment p; p_index := p_index p;
     p_slots := p_slots p; p_free := p_free p; p_writes := p_writes p; p_ready_reads := p_ready_reads p; p_flush := p_flush p; p_sync_enabled :=
     p_sync_enabled p; p_next_ticket := p_next_ticket p; p_serving := p_serving p; p_failed_at := p_failed_at p; p_queue_failed := p_queue_failed p;
     p_fatal := p_fatal p; p_failed_cursor := p_failed_cursor p; p_control := v; p_control_active := p_control_active p; p_control_done :=
     p_control_done p; p_maintenance := p_maintenance p; p_budget := p_budget p; p_resources := p_resources p; p_pending_entries := p_pending_entries
     p; p_pending_new := p_pending_new p; p_keys := p_keys p |}.
Definition set_control_active (v : bool) (p : Pipeline Q) : Pipeline Q :=
  {| p_queue := p_queue p; p_extents := p_extents p; p_current := p_current p; p_limits := p_limits p; p_segment := p_segment p; p_index := p_index p;
     p_slots := p_slots p; p_free := p_free p; p_writes := p_writes p; p_ready_reads := p_ready_reads p; p_flush := p_flush p; p_sync_enabled :=
     p_sync_enabled p; p_next_ticket := p_next_ticket p; p_serving := p_serving p; p_failed_at := p_failed_at p; p_queue_failed := p_queue_failed p;
     p_fatal := p_fatal p; p_failed_cursor := p_failed_cursor p; p_control := p_control p; p_control_active := v; p_control_done := p_control_done p;
     p_maintenance := p_maintenance p; p_budget := p_budget p; p_resources := p_resources p; p_pending_entries := p_pending_entries p; p_pending_new
     := p_pending_new p; p_keys := p_keys p |}.
Definition set_control_done (v : option IoCompletion) (p : Pipeline Q) : Pipeline Q :=
  {| p_queue := p_queue p; p_extents := p_extents p; p_current := p_current p; p_limits := p_limits p; p_segment := p_segment p; p_index := p_index p;
     p_slots := p_slots p; p_free := p_free p; p_writes := p_writes p; p_ready_reads := p_ready_reads p; p_flush := p_flush p; p_sync_enabled :=
     p_sync_enabled p; p_next_ticket := p_next_ticket p; p_serving := p_serving p; p_failed_at := p_failed_at p; p_queue_failed := p_queue_failed p;
     p_fatal := p_fatal p; p_failed_cursor := p_failed_cursor p; p_control := p_control p; p_control_active := p_control_active p; p_control_done :=
     v; p_maintenance := p_maintenance p; p_budget := p_budget p; p_resources := p_resources p; p_pending_entries := p_pending_entries p;
     p_pending_new := p_pending_new p; p_keys := p_keys p |}.
Definition set_maintenance (v : bool) (p : Pipeline Q) : Pipeline Q :=
  {| p_queue := p_queue p; p_extents := p_extents p; p_current := p_current p; p_limits := p_limits p; p_segment := p_segment p; p_index := p_index p;
     p_slots := p_slots p; p_free := p_free p; p_writes := p_writes p; p_ready_reads := p_ready_reads p; p_flush := p_flush p; p_sync_enabled :=
     p_sync_enabled p; p_next_ticket := p_next_ticket p; p_serving := p_serving p; p_failed_at := p_failed_at p; p_queue_failed := p_queue_failed p;
     p_fatal := p_fatal p; p_failed_cursor := p_failed_cursor p; p_control := p_control p; p_control_active := p_control_active p; p_control_done :=
     p_control_done p; p_maintenance := v; p_budget := p_budget p; p_resources := p_resources p; p_pending_entries := p_pending_entries p;
     p_pending_new := p_pending_new p; p_keys := p_keys p |}.
Definition set_budget (v : PollBudget) (p : Pipeline Q) : Pipeline Q :=
  {| p_queue := p_queue p; p_extents := p_extents p; p_current := p_current p; p_limits := p_limits p; p_segment := p_segment p; p_index := p_index p;
     p_slots := p_slots p; p_free := p_free p; p_writes := p_writes p; p_ready_reads := p_ready_reads p; p_flush := p_flush p; p_sync_enabled :=
     p_sync_enabled p; p_next_ticket := p_next_ticket p; p_serving := p_serving p; p_failed_at := p_failed_at p; p_queue_failed := p_queue_failed p;
     p_fatal := p_fatal p; p_failed_cursor := p_failed_cursor p; p_control := p_control p; p_control_active := p_control_active p; p_control_done :=
     p_control_done p; p_maintenance := p_maintenance p; p_budget := v; p_resources := p_resources p; p_pending_entries := p_pending_entries p;
     p_pending_new := p_pending_new p; p_keys := p_keys p |}.
Definition set_resources (v : ResourceLimits) (p : Pipeline Q) : Pipeline Q :=
  {| p_queue := p_queue p; p_extents := p_extents p; p_current := p_current p; p_limits := p_limits p; p_segment := p_segment p; p_index := p_index p;
     p_slots := p_slots p; p_free := p_free p; p_writes := p_writes p; p_ready_reads := p_ready_reads p; p_flush := p_flush p; p_sync_enabled :=
     p_sync_enabled p; p_next_ticket := p_next_ticket p; p_serving := p_serving p; p_failed_at := p_failed_at p; p_queue_failed := p_queue_failed p;
     p_fatal := p_fatal p; p_failed_cursor := p_failed_cursor p; p_control := p_control p; p_control_active := p_control_active p; p_control_done :=
     p_control_done p; p_maintenance := p_maintenance p; p_budget := p_budget p; p_resources := v; p_pending_entries := p_pending_entries p;
     p_pending_new := p_pending_new p; p_keys := p_keys p |}.
Definition set_pending_entries (v : Z) (p : Pipeline Q) : Pipeline Q :=
  {| p_queue := p_queue p; p_extents := p_extents p; p_current := p_current p; p_limits := p_limits p; p_segment := p_segment p; p_index := p_index p;
     p_slots := p_slots p; p_free := p_free p; p_writes := p_writes p; p_ready_reads := p_ready_reads p; p_flush := p_flush p; p_sync_enabled :=
     p_sync_enabled p; p_next_ticket := p_next_ticket p; p_serving := p_serving p; p_failed_at := p_failed_at p; p_queue_failed := p_queue_failed p;
     p_fatal := p_fatal p; p_failed_cursor := p_failed_cursor p; p_control := p_control p; p_control_active := p_control_active p; p_control_done :=
     p_control_done p; p_maintenance := p_maintenance p; p_budget := p_budget p; p_resources := p_resources p; p_pending_entries := v; p_pending_new
     := p_pending_new p; p_keys := p_keys p |}.
Definition set_pending_new (v : Z) (p : Pipeline Q) : Pipeline Q :=
  {| p_queue := p_queue p; p_extents := p_extents p; p_current := p_current p; p_limits := p_limits p; p_segment := p_segment p; p_index := p_index p;
     p_slots := p_slots p; p_free := p_free p; p_writes := p_writes p; p_ready_reads := p_ready_reads p; p_flush := p_flush p; p_sync_enabled :=
     p_sync_enabled p; p_next_ticket := p_next_ticket p; p_serving := p_serving p; p_failed_at := p_failed_at p; p_queue_failed := p_queue_failed p;
     p_fatal := p_fatal p; p_failed_cursor := p_failed_cursor p; p_control := p_control p; p_control_active := p_control_active p; p_control_done :=
     p_control_done p; p_maintenance := p_maintenance p; p_budget := p_budget p; p_resources := p_resources p; p_pending_entries := p_pending_entries
     p; p_pending_new := v; p_keys := p_keys p |}.
Definition set_keys (v : list ChunkId) (p : Pipeline Q) : Pipeline Q :=
  {| p_queue := p_queue p; p_extents := p_extents p; p_current := p_current p; p_limits := p_limits p; p_segment := p_segment p; p_index := p_index p;
     p_slots := p_slots p; p_free := p_free p; p_writes := p_writes p; p_ready_reads := p_ready_reads p; p_flush := p_flush p; p_sync_enabled :=
     p_sync_enabled p; p_next_ticket := p_next_ticket p; p_serving := p_serving p; p_failed_at := p_failed_at p; p_queue_failed := p_queue_failed p;
     p_fatal := p_fatal p; p_failed_cursor := p_failed_cursor p; p_control := p_control p; p_control_active := p_control_active p; p_control_done :=
     p_control_done p; p_maintenance := p_maintenance p; p_budget := p_budget p; p_resources := p_resources p; p_pending_entries := p_pending_entries
     p; p_pending_new := p_pending_new p; p_keys := v |}.
End Setters.
