(* ===== verification/Pipeline.v ===== *)
(** * Pipeline operations (moat-engine/src/pipeline)

    Admission, ordered writes, direct and verified reads, barriers and the
    poll loop over one exclusively owned queue. The allocator's answer to a
    fallible reservation is the parameter [try_reserve]. *)

From stdpp Require Import gmap.
From S2P Require Import Prelude Align ChunkId Checksum Codec FrameFormat FrameDecode FrameBuilder.
From S2P Require Import SegmentFormat SegmentBuilder Io Index PipelineState.

Section Pipeline.
Context {Q : Type} {QI : Queue Q} {C : CrcFast} (try_reserve : Z -> bool).
Implicit Types p : Pipeline Q.

Definition reserve (n : Z) : presult unit := fail_if (negb (try_reserve n)) pipeline.Allocation.

(** ** Construction *)

Definition Pipeline_empty (queue : Q) (limits : FrameLimits) : presult (Pipeline Q) :=
  fail_if ((depth queue =? 0) || (depth queue >? 32768) || negb (vacant queue =? depth queue) || (max_frame_len limits >? I32_MAX))
    (pipeline.InvalidArgument "invalid queue or frame limit") ;?
  let d := Z.to_nat (depth queue) in
  Ok {| p_queue := queue; p_extents := []; p_current := 0; p_limits := limits; p_segment := None; p_index := ∅;
        p_slots := replicate d None; p_free := seq 0 d; p_writes := []; p_ready_reads := []; p_flush := None;
        p_sync_enabled := true; p_next_ticket := 1; p_serving := false; p_failed_at := None; p_queue_failed := false;
        p_fatal := None; p_failed_cursor := 0; p_control := None; p_control_active := false; p_control_done := None;
        p_maintenance := false; p_budget := PollBudget_default; p_resources := ResourceLimits_default;
        p_pending_entries := 0; p_pending_new := 0; p_keys := [] |}.

Definition Pipeline_read_only (queue : Q) (header : SegmentHeader) (limits : FrameLimits) (base : Z) : presult (Pipeline Q) :=
  fail_if ((depth queue =? 0) || (depth queue >? 32768) || negb (vacant queue =? depth queue) || negb (is_aligned base PAGE_SIZE)
           || (match checked_add base (segment_len header) with None => true | Some _ => false end) || (max_frame_len limits >? I32_MAX))
    (pipeline.InvalidArgument "invalid queue, extent, or I/O frame limit") ;?
  let? p := Pipeline_empty queue limits in
  Ok (set_extents (p_extents p ++ [{| ext_header := header; ext_base := base |}]) p).

Definition Pipeline_new (queue : Q) (header : SegmentHeader) (limits : FrameLimits) (base : Z) : presult (Pipeline Q) :=
  let? segment := segment_err (SegmentBuilder_new header) in
  let? p := Pipeline_read_only queue header limits base in
  Ok (set_segment (Some segment) p).

Definition in_flight p : Z := len (p_slots p) - len (p_free p).

Definition configure p (resources : ResourceLimits) (budget : PollBudget) : presult (Pipeline Q) :=
  fail_if (p_serving p || negb (in_flight p =? 0) || negb (Z.of_nat (size (p_index p)) =? 0) || p_control_active p
           || match p_control p with Some _ => true | None => false end)
    (pipeline.InvalidArgument "configure before recovery or admission") ;?
  fail_if ((rl_frame_bytes resources <? 4096) || (rl_index_entries resources =? 0) || (rl_metadata_bytes resources <? 4096)
           || (rl_pending_records resources =? 0) || (pb_operations budget =? 0) || (pb_bytes budget =? 0) || (pb_records budget =? 0))
    (pipeline.InvalidArgument "resource limits and poll budgets must be positive") ;?
  Ok (set_budget budget (set_resources resources p)).

(** ** Index reservations *)

Fixpoint count_unique (index : Index) (limit : Z) (es : list (ChunkId * Location)) (unique : gset ChunkId) : presult (gset ChunkId) :=
  match es with
  | [] => Ok unique
  | (key, _) :: rest =>
      match index !! key with
      | Some _ => count_unique index limit rest unique
      | None =>
          fail_if ((Z.of_nat (size unique) =? limit) && negb (bool_decide (key ∈ unique))) (pipeline.ResourceLimit "index entries") ;?
          count_unique index limit rest ({[key]} ∪ unique)
      end
  end.

Definition reserve_entries p (es : list (ChunkId * Location)) : presult Z :=
  let held := Z.of_nat (size (p_index p)) in
  let limit := rl_index_entries (p_resources p) in
  let? new :=
    (if saturating_add (saturating_add held (p_pending_new p)) (len es) >? limit then
       reserve (Z.min (len es) limit) ;?
       let? unique := count_unique (p_index p) limit es ∅ in
       Ok (Z.of_nat (size unique))
     else Ok (len es)) in
  let? additional := ok_or (checked_add (p_pending_new p) new) (pipeline.ResourceLimit "index entries") in
  fail_if (saturating_add held new >? limit) (pipeline.ResourceLimit "index entries including tombstones") ;?
  fail_if (saturating_add held additional >? limit) pipeline.Backpressure ;?
  reserve additional ;?
  reserve additional ;?
  Ok new.

(** ** Extents *)

Definition extent p (i : Z) : presult Extent := expect (p_extents p !! Z.to_nat i).

Definition position_in p (segment : Z) (off : Z) : presult FramePosition :=
  let? e := extent p segment in
  let stop := match data_end (ext_header e) with Some d => d | None => segment_len (ext_header e) end in
  frame_err (FramePosition_new (sequence (id (ext_header e))) off stop).

Definition restore p (m : Metadata) : presult (Pipeline Q) :=
  fail_if (match p_segment p with Some _ => true | None => false end || p_serving p)
    (pipeline.InvalidArgument "restore is only valid before serving reads") ;?
  let h := md_header m in
  let? pos := position_in p (p_current p) (offset (position h)) in
  let? e := extent p (p_current p) in
  let stop := match data_end (ext_header e) with Some d => d | None => segment_len (ext_header e) end in
  fail_if (negb (segment_seq pos =? segment_seq (position h)) || (offset (position h) + frame_len h >? stop))
    (pipeline.InvalidArgument "recovered frame is outside the assigned segment") ;?
  let? m := frame_err (Metadata_decode (md_bytes m) (p_limits p) pos) in
  reserve (record_count (md_header m)) ;?
  let? es := frame_err (entries m (wrap32 (p_current p))) in
  let? _ := reserve_entries p es in
  let '(index, keys) := apply (p_index p) (p_keys p) es in
  Ok (set_keys keys (set_index index p)).

Definition attach p (header : SegmentHeader) (base : Z) (writable : bool) : presult (Pipeline Q) :=
  fail_if (negb (len (p_writes p) =? 0) || match p_flush p with Some _ => true | None => false end
           || match p_segment p with Some _ => true | None => false end || p_queue_failed p
           || match p_failed_at p with Some _ => true | None => false end || (len (p_extents p) >=? U32_MAX))
    (pipeline.InvalidArgument "pipeline cannot switch segment") ;?
  let? builder := (if writable then let? b := segment_err (SegmentBuilder_new header) in Ok (Some b) else Ok None) in
  reserve 1 ;?
  Ok (set_segment builder (set_extents (p_extents p ++ [{| ext_header := header; ext_base := base |}])
        (set_current (len (p_extents p)) p))).

Definition take_segment p : presult (option SegmentBuilder * Pipeline Q) :=
  fail_if (negb (len (p_writes p) =? 0) || match p_flush p with Some _ => true | None => false end) pipeline.Backpressure ;?
  fail_if (p_queue_failed p) pipeline.QueueFailed ;?
  (match p_failed_at p with Some t => Err (pipeline.WriteFailed t) | None => Ok tt end) ;?
  Ok (p_segment p, set_segment None p).

(** ** Lookups *)

Definition stat p (key : ChunkId) : option (Z * Z) :=
  match p_index p !! key with
  | Some l => if is_tombstone (loc_kind l) then None else Some (loc_lsn l, loc_value_len l)
  | None => None
  end.

Definition contains p (key : ChunkId) : bool :=
  match p_index p !! key with Some l => negb (is_tombstone (loc_kind l)) | None => false end.

Definition location p (key : ChunkId) : presult Location :=
  match p_index p !! key with
  | Some l => if is_tombstone (loc_kind l) then Err pipeline.NotFound else Ok l
  | None => Err pipeline.NotFound
  end.

(** ** Admission *)

Definition admission p (write : bool) : presult Z :=
  fail_if (p_queue_failed p) pipeline.QueueFailed ;?
  (if write then
     fail_if (match p_segment p with None => true | Some _ => false end) pipeline.ReadOnly ;?
     (match p_failed_at p with Some t => Err (pipeline.WriteFailed t) | None => Ok tt end) ;?
     fail_if (match p_flush p with Some _ => true | None => false end) pipeline.Backpressure
   else Ok tt) ;?
  fail_if ((len (p_free p) =? 0) || (vacant (p_queue p) =? 0) || (p_maintenance p && (vacant (p_queue p) <=? 1))) pipeline.Backpressure ;?
  fail_if (p_next_ticket p =? U64_MAX) (pipeline.InvalidArgument "ticket counter exhausted") ;?
  Ok (p_next_ticket p).

Definition take_slot p (pending : Pending) : presult (nat * Pipeline Q) :=
  match p_free p with
  | [] => Panic
  | slot :: free =>
      let? _ := expect (p_slots p !! slot) in
      Ok (slot, set_next_ticket (p_next_ticket p + 1)
                  (set_slots (<[slot := Some pending]> (p_slots p)) (set_free free (set_serving true p))))
  end.

Definition submit p (slot : nat) (op : io.Operation) (off l : Z) (buf : option Buffer) : presult (Pipeline Q) :=
  match try_submit (p_queue p) {| token := Z.of_nat slot; operation := op; req_offset := off; req_len := l; buffer := buf |} with
  | inl q => Ok (set_queue q p)
  | inr _ => Panic
  end.

Definition flush p : presult (Z * Pipeline Q) :=
  let? ticket := admission p false in
  (match p_failed_at p with Some t => Err (pipeline.WriteFailed t) | None => Ok tt end) ;?
  fail_if (match p_flush p with Some _ => true | None => false end) pipeline.Backpressure ;?
  let? (slot, p) := take_slot p (PFlush ticket false) in
  Ok (ticket, set_flush (Some slot) p).

(** ** Writes

    A rejected operation returns its input with the error; the pipeline is
    then unchanged. *)

Definition Rejected (A : Type) : Type := pipeline.Error * A.

Definition prepare_write p (ticket : Z) (segment : SegmentBuilder) (pos : FramePosition) (buf : Buffer)
  : presult (Write * Z * Z * SegmentBuilder) :=
  let? m := frame_err (Metadata_decode buf (p_limits p) pos) in
  let l := frame_len (md_header m) in
  let count := record_count (md_header m) in
  let limits := p_resources p in
  fail_if (count >? rl_pending_records limits) (pipeline.ResourceLimit "single frame pending record metadata") ;?
  fail_if (saturating_add (p_pending_entries p) count >? rl_pending_records limits) pipeline.Backpressure ;?
  fail_if (len (md_bytes m) >? rl_metadata_bytes limits) (pipeline.ResourceLimit "single frame footer metadata") ;?
  fail_if (saturating_add (len (sb_metadata segment)) (len (md_bytes m)) >? rl_metadata_bytes limits) pipeline.MetadataFull ;?
  reserve count ;?
  let? es := frame_err (entries m (wrap32 (p_current p))) in
  let? reserved_new := reserve_entries p es in
  let? segment := segment_err (SegmentBuilder_append (try_reserve (len (md_bytes m))) segment m) in
  let? e := extent p (p_current p) in
  Ok ({| w_ticket := ticket; w_entries := es; w_reserved_new := reserved_new; w_completed := None |},
      ext_base e + offset pos, l, segment).

Definition submit_frame p (buf : Buffer)
    (encode : SegmentBuilder -> FrameLimits -> Buffer -> presult (FramePosition * Buffer)) : res (Rejected Buffer) (Z * Pipeline Q) :=
  let? (ticket, segment, pos, buf) := map_err (fun e => (e, buf))
    (let? ticket := admission p true in
     let? segment := expect (p_segment p) in
     let? (pos, buf) := encode segment (p_limits p) buf in
     Ok (ticket, segment, pos, buf)) in
  let? (w, off, l, segment) := map_err (fun e => (e, buf)) (prepare_write p ticket segment pos buf) in
  map_err (fun e => (e, buf))
    (let p := set_pending_new (p_pending_new p + w_reserved_new w)
                (set_pending_entries (p_pending_entries p + len (w_entries w)) (set_segment (Some segment) p)) in
     let? (slot, p) := take_slot p (PWrite w) in
     let p := set_writes (p_writes p ++ [slot]) p in
     let? p := submit p slot io.Write off l (Some buf) in
     Ok (ticket, p)).

Definition encode_frame (b : FrameBuilder) (segment : SegmentBuilder) (limits : FrameLimits) (buf : Buffer) : presult (FramePosition * Buffer) :=
  let? pos := segment_err (SegmentBuilder_position segment (FrameBuilder_encoded_len b) (FrameBuilder_metadata_len b)) in
  let? (buf, _) := frame_err (FrameBuilder_encode_into b pos buf) in
  Ok (pos, buf).

Definition write p (b : FrameBuilder) (buf : Buffer) : res (Rejected Buffer) (Z * Pipeline Q) :=
  fail_if (FrameBuilder_encoded_len b >? rl_frame_bytes (p_resources p)) (pipeline.ResourceLimit "frame bytes", buf) ;?
  submit_frame p buf (encode_frame b).

(** The finished frame is the front of the caller's buffer. *)
Definition encode_prepared (key : ChunkId) (lsn value_len required : Z) (segment : SegmentBuilder) (limits : FrameLimits) (buf : Buffer)
  : presult (FramePosition * Buffer) :=
  let? f := frame_err (PreparedFrame_new limits value_len buf) in
  let? pos := segment_err (SegmentBuilder_position segment required (PreparedFrame_metadata_len f)) in
  let? out := frame_err (PreparedFrame_finish f pos key lsn) in
  Ok (pos, splice buf 0 out).

Definition write_prepared p (key : ChunkId) (lsn value_len : Z) (buf : Buffer) : res (Rejected Buffer) (Z * Pipeline Q) :=
  let? required := map_err (fun e => (pipeline.Frame e, buf)) (PreparedFrame_required_len (p_limits p) value_len) in
  fail_if (required >? rl_frame_bytes (p_resources p)) (pipeline.ResourceLimit "frame bytes", buf) ;?
  submit_frame p buf (encode_prepared key lsn value_len required).

(** ** Reads *)

Record ReadExtent := { re_offset : Z; re_len : Z; re_prefix : Z }.

Definition ReadExtent_new (value_start : Z) (range : Z * Z) : ReadExtent :=
  let start := value_start + range.1 in
  let off := align_down start PAGE_SIZE in
  let prefix := start - off in
  {| re_offset := off; re_len := if range_is_empty range then 0 else align_up (prefix + (range.2 - range.1)) PAGE_SIZE; re_prefix := prefix |}.

Definition direct_extent p (key : ChunkId) (range : Z * Z) : presult ReadExtent :=
  let? l := location p key in
  frame_err (validate_range (loc_value_len l) range) ;?
  let? e := extent p (loc_segment l) in
  Ok (ReadExtent_new (ext_base e + loc_frame_offset l + loc_value_offset l) range).

Definition read_direct p (key : ChunkId) (range : Z * Z) (buffers : ReadBuffers) : res (Rejected ReadBuffers) (Z * Pipeline Q) :=
  map_err (fun e => (e, buffers))
    (let? ticket := admission p false in
     let? ext := direct_extent p key range in
     fail_if (len (rb_value buffers) <? re_len ext) (pipeline.Frame (frame.BufferTooSmall (re_len ext) (len (rb_value buffers)))) ;?
     if re_len ext =? 0 then
       let? (slot, p) := take_slot p (PEmptyRead ticket buffers) in
       Ok (ticket, set_ready_reads (p_ready_reads p ++ [slot]) p)
     else
       let r := {| r_ticket := ticket; r_range := (re_prefix ext, re_prefix ext + (range.2 - range.1)); r_metadata := rb_metadata buffers |} in
       let? (slot, p) := take_slot p (PRead r) in
       let? p := submit p slot io.Read (re_offset ext) (re_len ext) (Some (rb_value buffers)) in
       Ok (ticket, p)).

(** ** Verified reads (verify.rs) *)

Definition VerifiedRead_plan (ticket : Z) (key : ChunkId) (l : Location) (requested : Z * Z) (base : Z) : presult VerifiedRead :=
  let? verified := frame_err (verification_range (loc_value_len l) requested) in
  let ext := ReadExtent_new (base + loc_frame_offset l + loc_value_offset l) verified in
  Ok {| vr_ticket := ticket; vr_key := key; vr_location := l; vr_requested := requested; vr_verified := verified;
        vr_io_offset := re_offset ext; vr_io_len := re_len ext; vr_prefix := re_prefix ext;
        vr_metadata := None; vr_value := None; vr_validated_header := None |}.

Definition vr_metadata_len (r : VerifiedRead) : Z := align_up (loc_metadata_len (vr_location r)) PAGE_SIZE.

Definition value_buffer_len (r : VerifiedRead) : Z :=
  if range_is_empty (vr_requested r) || (loc_value_offset (vr_location r) + (vr_verified r).2 <=? vr_metadata_len r) then 0 else vr_io_len r.

Definition vr_set_metadata (b : option Buffer) (r : VerifiedRead) : VerifiedRead :=
  {| vr_ticket := vr_ticket r; vr_key := vr_key r; vr_location := vr_location r; vr_requested := vr_requested r; vr_verified := vr_verified r;
     vr_io_offset := vr_io_offset r; vr_io_len := vr_io_len r; vr_prefix := vr_prefix r;
     vr_metadata := b; vr_value := vr_value r; vr_validated_header := vr_validated_header r |}.
Definition vr_set_value (b : option Buffer) (r : VerifiedRead) : VerifiedRead :=
  {| vr_ticket := vr_ticket r; vr_key := vr_key r; vr_location := vr_location r; vr_requested := vr_requested r; vr_verified := vr_verified r;
     vr_io_offset := vr_io_offset r; vr_io_len := vr_io_len r; vr_prefix := vr_prefix r;
     vr_metadata := vr_metadata r; vr_value := b; vr_validated_header := vr_validated_header r |}.
Definition vr_set_header (h : FrameHeader) (r : VerifiedRead) : VerifiedRead :=
  {| vr_ticket := vr_ticket r; vr_key := vr_key r; vr_location := vr_location r; vr_requested := vr_requested r; vr_verified := vr_verified r;
     vr_io_offset := vr_io_offset r; vr_io_len := vr_io_len r; vr_prefix := vr_prefix r;
     vr_metadata := vr_metadata r; vr_value := vr_value r; vr_validated_header := Some h |}.

(** [Metadata::record(..)] as an option; its internal unwrap is a panic. *)
Definition validate_metadata (r : VerifiedRead) (limits : FrameLimits) (pos : FramePosition) : presult VerifiedRead :=
  let? bytes := expect (vr_metadata r) in
  let? m := frame_err (Metadata_decode bytes limits pos) in
  let? record := frame_err (Metadata_record m (loc_ordinal (vr_location r))) in
  let? record := ok_or record (pipeline.Frame (frame.Corrupt "indexed record is missing")) in
  let d := descriptor record in
  let l := vr_location r in
  fail_if (negb (frame_len (md_header m) =? loc_frame_len l) || negb (metadata_len (md_header m) =? loc_metadata_len l)
           || negb (bytes_eqb (key d) (vr_key r)) || negb (lsn d =? loc_lsn l) || negb (value_len d =? loc_value_len l)
           || negb (value_offset d =? loc_value_offset l) || is_tombstone (kind d))
    (pipeline.Frame (frame.Corrupt "indexed record identity")) ;?
  Ok (vr_set_header (md_header m) r).

(** The record behind already validated metadata bytes. *)
Definition validated_record (r : VerifiedRead) : presult RecordView :=
  let? h := expect (vr_validated_header r) in
  let? bytes := expect (vr_metadata r) in
  let? front := slice bytes 0 (metadata_len h) in
  let? record := frame_err (Metadata_record (Metadata_from_validated front h) (loc_ordinal (vr_location r))) in
  expect record.

(** The read with its new state, also on errors after validation. *)
Definition finish_metadata (r : VerifiedRead) (limits : FrameLimits) (pos : FramePosition) : presult (option ReadRange) * VerifiedRead :=
  match validate_metadata r limits pos with
  | Err e => (Err e, r)
  | Panic => (Panic, r)
  | Ok r =>
      (if range_is_empty (vr_requested r) then Ok (Some (InValue (0, 0)))
       else
         let start := loc_value_offset (vr_location r) + (vr_verified r).1 in
         let stop := loc_value_offset (vr_location r) + (vr_verified r).2 in
         if stop >? vr_metadata_len r then Ok None
         else
           let? bytes := expect (vr_metadata r) in
           let? record := validated_record r in
           let? value := slice bytes start stop in
           frame_err (Record_verify record (vr_verified r) value) ;?
           let start := loc_value_offset (vr_location r) + (vr_requested r).1 in
           Ok (Some (InMetadata (start, start + ((vr_requested r).2 - (vr_requested r).1)))), r)
  end.

Definition vr_verify (r : VerifiedRead) : presult ReadRange :=
  let? record := validated_record r in
  let? value := expect (vr_value r) in
  let? bytes := slice value (vr_prefix r) (vr_prefix r + ((vr_verified r).2 - (vr_verified r).1)) in
  frame_err (Record_verify record (vr_verified r) bytes) ;?
  let start := vr_prefix r + ((vr_requested r).1 - (vr_verified r).1) in
  Ok (InValue (start, start + ((vr_requested r).2 - (vr_requested r).1))).

Definition vr_buffers (r : VerifiedRead) : presult ReadBuffers :=
  let? m := expect (vr_metadata r) in
  let? v := expect (vr_value r) in
  Ok {| rb_metadata := Some m; rb_value := v |}.

Definition read_verified p (key : ChunkId) (range : Z * Z) (buffers : ReadBuffers) : res (Rejected ReadBuffers) (Z * Pipeline Q) :=
  map_err (fun e => (e, buffers))
    (let? ticket := admission p false in
     let? l := location p key in
     let? e := extent p (loc_segment l) in
     let? r := VerifiedRead_plan ticket key l range (ext_base e) in
     let available := match rb_metadata buffers with Some b => len b | None => 0 end in
     fail_if (vr_metadata_len r >? available) (pipeline.Frame (frame.BufferTooSmall (vr_metadata_len r) available)) ;?
     fail_if (value_buffer_len r >? len (rb_value buffers)) (pipeline.Frame (frame.BufferTooSmall (value_buffer_len r) (len (rb_value buffers)))) ;?
     let off := ext_base e + loc_frame_offset l in
     let? (slot, p) := take_slot p (PVerifiedRead (vr_set_value (Some (rb_value buffers)) r)) in
     let? p := submit p slot io.Read off (vr_metadata_len r) (rb_metadata buffers) in
     Ok (ticket, p)).

Definition read p (key : ChunkId) (range : Z * Z) (verify : bool) (buffers : ReadBuffers) : res (Rejected ReadBuffers) (Z * Pipeline Q) :=
  if verify then read_verified p key range buffers else read_direct p key range buffers.

Definition read_requirements p (key : ChunkId) (range : Z * Z) (verify : bool) : presult (Z * Z) :=
  if verify then
    let? l := location p key in
    let? e := extent p (loc_segment l) in
    let? r := VerifiedRead_plan (p_next_ticket p) key l range (ext_base e) in
    Ok (vr_metadata_len r, value_buffer_len r)
  else
    let? ext := direct_extent p key range in Ok (0, re_len ext).

(** ** Lifecycle I/O (maintenance.rs) *)

Definition CONTROL_TOKEN : Z := U64_MAX.

Definition next_ticket p : presult (Z * Pipeline Q) :=
  fail_if (p_next_ticket p =? U64_MAX) (pipeline.InvalidArgument "ticket counter exhausted") ;?
  Ok (p_next_ticket p, set_next_ticket (p_next_ticket p + 1) p).

Definition control_io p (op : io.Operation) (off l : Z) (buf : option Buffer) : presult (Pipeline Q) :=
  fail_if (p_queue_failed p) pipeline.QueueFailed ;?
  fail_if (match p_control p with Some _ => true | None => false end || p_control_active p
           || match p_control_done p with Some _ => true | None => false end) pipeline.Backpressure ;?
  Ok (set_control (Some {| token := CONTROL_TOKEN; operation := op; req_offset := off; req_len := l; buffer := buf |}) p).

Definition take_control p : option IoCompletion * Pipeline Q := (p_control_done p, set_control_done None p).

Definition start_control p : Pipeline Q :=
  if p_queue_failed p then p
  else
    match p_control p with
    | None => p
    | Some r =>
        match try_submit (p_queue p) r with
        | inl q => set_control_active true (set_control None (set_queue q p))
        | inr r => set_control (Some r) p
        end
    end.

Definition writes_pending p : bool := negb (len (p_writes p) =? 0) || match p_flush p with Some _ => true | None => false end.

(** ** Driving (driver.rs) *)

Record Work := { wk_operations : Z; wk_bytes : Z; wk_records : Z }.
Definition Work_default : Work := {| wk_operations := 0; wk_bytes := 0; wk_records := 0 |}.

Definition exhausted (w : Work) (b : PollBudget) : bool :=
  (wk_operations w >=? pb_operations b) || (wk_bytes w >=? pb_bytes b) || (wk_records w >=? pb_records b).

Definition pending_ticket (x : Pending) : Z :=
  match x with PWrite w => w_ticket w | PRead r => r_ticket r | PVerifiedRead r => vr_ticket r | PEmptyRead t _ | PFlush t _ => t end.

(** The polled state: the pipeline, the caller's completions and the work done. *)
Record Polled := { pd_pipeline : Pipeline Q; pd_out : list Completion; pd_work : Work }.

Fixpoint retire_failed_loop (fuel : nat) (s : Polled) : presult Polled :=
  match fuel with
  | O => Ok s
  | S n =>
      let p := pd_pipeline s in
      if (p_failed_cursor p <? len (p_slots p)) && negb (exhausted (pd_work s) (p_budget p)) then
        let slot := Z.to_nat (p_failed_cursor p) in
        let w := pd_work s in
        let work := {| wk_operations := wk_operations w + 1; wk_bytes := wk_bytes w; wk_records := wk_records w |} in
        let p := set_failed_cursor (p_failed_cursor p + 1) p in
        match p_slots p !! slot with
        | Some (Some x) =>
            let p := set_slots (<[slot := None]> (p_slots p)) p in
            let p := match x with
                     | PWrite w => set_pending_new (p_pending_new p - w_reserved_new w) (set_pending_entries (p_pending_entries p - len (w_entries w)) p)
                     | _ => p
                     end in
            let p := set_free (slot :: p_free p) p in
            let? fatal := expect (p_fatal p) in
            retire_failed_loop n {| pd_pipeline := p; pd_out := pd_out s ++ [CFailed (pending_ticket x) fatal]; pd_work := work |}
        | _ => retire_failed_loop n {| pd_pipeline := p; pd_out := pd_out s; pd_work := work |}
        end
      else Ok s
  end.

Definition retire_failed (s : Polled) : presult Polled :=
  let? s := retire_failed_loop (length (p_slots (pd_pipeline s))) s in
  Ok {| pd_pipeline := set_flush None (set_writes [] (set_ready_reads [] (pd_pipeline s))); pd_out := pd_out s; pd_work := pd_work s |}.

Definition completed_write (x : option Pending) : option (Write * (presult unit * Buffer)) :=
  match x with
  | Some (PWrite w) => match w_completed w with Some r => Some (w, r) | None => None end
  | _ => None
  end.

Fixpoint retire_writes_loop (fuel : nat) (s : Polled) : presult Polled :=
  match fuel with
  | O => Ok s
  | S n =>
      let p := pd_pipeline s in
      if exhausted (pd_work s) (p_budget p) then Ok s
      else
        match p_writes p with
        | [] => Ok s
        | slot :: writes =>
            let? x := expect (p_slots p !! slot) in
            match completed_write x with
            | None => Ok s
            | Some (w, (result, buf)) =>
                let p := set_slots (<[slot := None]> (p_slots p)) (set_writes writes p) in
                let result := match p_failed_at p with
                              | Some f => if w_ticket w >? f then Err (pipeline.WriteFailed f) else result
                              | None => result
                              end in
                let p := set_pending_new (p_pending_new p - w_reserved_new w) (set_pending_entries (p_pending_entries p - len (w_entries w)) p) in
                let wk := pd_work s in
                let work := {| wk_operations := wk_operations wk + 1; wk_bytes := wk_bytes wk;
                               wk_records := saturating_add (wk_records wk) (len (w_entries w)) |} in
                let p := match result with
                         | Ok _ => let '(index, keys) := apply (p_index p) (p_keys p) (w_entries w) in set_keys keys (set_index index p)
                         | _ => p
                         end in
                retire_writes_loop n {| pd_pipeline := set_free (slot :: p_free p) p;
                                        pd_out := pd_out s ++ [CWrite (w_ticket w) result buf]; pd_work := work |}
            end
        end
  end.

Definition retire_writes (s : Polled) : presult Polled := retire_writes_loop (length (p_writes (pd_pipeline s))) s.

Definition start_flush (s : Polled) : presult Polled :=
  let p := pd_pipeline s in
  match p_flush p with
  | None => Ok s
  | Some slot =>
      if negb (len (p_writes p) =? 0) then Ok s
      else
        match p_slots p !! slot with
        | Some (Some (PFlush ticket submitted)) =>
            if submitted then Ok s
            else
              let drop_slot p := set_flush None (set_free (slot :: p_free p) (set_slots (<[slot := None]> (p_slots p)) p)) in
              match p_failed_at p with
              | Some f => Ok {| pd_pipeline := drop_slot p; pd_out := pd_out s ++ [CFlush ticket (Err (pipeline.WriteFailed f))]; pd_work := pd_work s |}
              | None =>
                  if negb (p_sync_enabled p) then
                    Ok {| pd_pipeline := drop_slot p; pd_out := pd_out s ++ [CFlush ticket (Ok tt)]; pd_work := pd_work s |}
                  else
                    let p := set_slots (<[slot := Some (PFlush ticket true)]> (p_slots p)) p in
                    let? p := submit p slot io.Sync 0 0 None in
                    Ok {| pd_pipeline := p; pd_out := pd_out s; pd_work := pd_work s |}
              end
        | _ => Panic
        end
  end.

(** The outcome of a completed transfer. *)
Definition transfer_result (r : Request) (result : io_res Z) : presult unit :=
  match result with
  | inr actual => if actual =? req_len r then Ok tt else Err (pipeline.ShortIo (operation r) (req_offset r) (req_len r) actual)
  | inl source => Err (pipeline.Io (operation r) (req_offset r) source)
  end.

Definition is_err {E A} (m : res E A) : bool := match m with Err _ => true | _ => false end.

(** The part of [complete] for a verified read: the outcome, unless another
    transfer is needed, and the read. *)
Definition advance_verified p (r : VerifiedRead) (result : presult unit) (buf : option Buffer) : presult (option ReadRange) * VerifiedRead :=
  let metadata_phase := match vr_metadata r with None => true | Some _ => false end in
  let r := if metadata_phase then vr_set_metadata buf r else vr_set_value buf r in
  match result with
  | Ok _ =>
      match position_in p (loc_segment (vr_location r)) (loc_frame_offset (vr_location r)) with
      | Ok pos => if metadata_phase then finish_metadata r (p_limits p) pos else (let? range := vr_verify r in Ok (Some range), r)
      | Err e => (Err e, r)
      | Panic => (Panic, r)
      end
  | Err e => (Err e, r)
  | Panic => (Panic, r)
  end.

(** An error here means the queue broke its contract; the caller then marks
    the queue failed. *)
Definition complete p (c : IoCompletion) (out : list Completion) : presult (Pipeline Q * list Completion) :=
  let r := request c in
  let slot := Z.to_nat (token r) in
  match p_slots p !! slot with
  | Some (Some x) =>
      let p := set_slots (<[slot := None]> (p_slots p)) p in
      let result := transfer_result r (io_result c) in
      match x with
      | PRead rd =>
          let? v := expect (buffer r) in
          Ok (set_free (slot :: p_free p) p,
              out ++ [CRead (r_ticket rd) (let? _ := result in Ok (InValue (r_range rd))) {| rb_metadata := r_metadata rd; rb_value := v |}])
      | PEmptyRead _ _ => Panic
      | PWrite w =>
          let p := if is_err result then
                     set_failed_at (Some (match p_failed_at p with Some old => Z.min old (w_ticket w) | None => w_ticket w end)) p
                   else p in
          let? b := expect (buffer r) in
          let w := {| w_ticket := w_ticket w; w_entries := w_entries w; w_reserved_new := w_reserved_new w; w_completed := Some (result, b) |} in
          Ok (set_slots (<[slot := Some (PWrite w)]> (p_slots p)) p, out)
      | PVerifiedRead vr =>
          match advance_verified p vr result (buffer r) with
          | (Panic, _) => Panic
          | (Ok None, vr) =>
              let? b := expect (vr_value vr) in
              let p := set_slots (<[slot := Some (PVerifiedRead (vr_set_value None vr))]> (p_slots p)) p in
              let? p := submit p slot io.Read (vr_io_offset vr) (vr_io_len vr) (Some b) in
              Ok (p, out)
          | (res, vr) =>
              let? buffers := vr_buffers vr in
              Ok (set_free (slot :: p_free p) p, out ++ [CRead (vr_ticket vr) (let? o := res in expect o) buffers])
          end
      | PFlush ticket _ =>
          let p := if is_err result then set_failed_at (Some ticket) p else p in
          Ok (set_free (slot :: p_free p) (set_flush None p), out ++ [CFlush ticket result])
      end
  | _ => Err (pipeline.InvalidArgument "completion token is not live")
  end.

Fixpoint ready_reads_loop (fuel : nat) (s : Polled) : presult Polled :=
  match fuel with
  | O => Ok s
  | S n =>
      let p := pd_pipeline s in
      if exhausted (pd_work s) (p_budget p) then Ok s
      else
        match p_ready_reads p with
        | [] => Ok s
        | slot :: rest =>
            match p_slots p !! slot with
            | Some (Some (PEmptyRead ticket buffers)) =>
                let p := set_free (slot :: p_free p) (set_slots (<[slot := None]> (p_slots p)) (set_ready_reads rest p)) in
                let wk := pd_work s in
                ready_reads_loop n {| pd_pipeline := p; pd_out := pd_out s ++ [CRead ticket (Ok (InValue (0, 0))) buffers];
                  pd_work := {| wk_operations := wk_operations wk + 1; wk_bytes := wk_bytes wk; wk_records := wk_records wk |} |}
            | _ => Panic
            end
        end
  end.

(** Every iteration adds one operation, so the budget is enough fuel. *)
Fixpoint pop_loop (fuel : nat) (s : Polled) : presult Polled :=
  match fuel with
  | O => Ok s
  | S n =>
      let p := pd_pipeline s in
      if exhausted (pd_work s) (p_budget p) then Ok s
      else
        match pop (p_queue p) with
        | None => Ok s
        | Some (c, q) =>
            let p := set_queue q p in
            let wk := pd_work s in
            let work := {| wk_operations := wk_operations wk + 1;
                           wk_bytes := if decide (operation (request c) = io.Write) then wk_bytes wk
                                       else saturating_add (wk_bytes wk) (req_len (request c));
                           wk_records := wk_records wk |} in
            if token (request c) =? CONTROL_TOKEN then
              pop_loop n {| pd_pipeline := set_control_done (Some c) (set_control_active false p); pd_out := pd_out s; pd_work := work |}
            else
              match complete p c (pd_out s) with
              | Ok (p, out) => pop_loop n {| pd_pipeline := p; pd_out := out; pd_work := work |}
              | Err e => Ok {| pd_pipeline := set_fatal (Some e) (set_queue_failed true p); pd_out := pd_out s; pd_work := work |}
              | Panic => Panic
              end
        end
  end.

Definition write_ready p : presult bool :=
  match p_writes p with
  | [] => Ok false
  | slot :: _ => let? x := expect (p_slots p !! slot) in Ok (match completed_write x with Some _ => true | None => false end)
  end.

Definition pipeline_has_ready p : presult bool :=
  if p_queue_failed p then Ok (negb (in_flight p =? 0))
  else if has_ready (p_queue p)
    || (match p_control p with Some _ => negb (vacant (p_queue p) =? 0) | None => false end)
    || negb (len (p_ready_reads p) =? 0)
    || match p_control_done p with Some _ => true | None => false end
  then Ok true else write_ready p.

(** [wait && idle && !ready]: readiness is asked for only when it matters. *)
Definition may_wait {E} (idle : bool) (ready : res E bool) : res E bool :=
  if idle then let? b := ready in Ok (negb b) else Ok false.

(** The completions appended by one poll, with the pipeline after it. *)
Definition poll p (wait : bool) (out : list Completion) : presult (Pipeline Q * list Completion) :=
  let start := {| pd_pipeline := p; pd_out := out; pd_work := Work_default |} in
  if p_queue_failed p then
    let? s := retire_failed start in
    Ok (pd_pipeline s, pd_out s)
  else
    let? s := retire_writes start in
    let? s := start_flush s in
    let s := {| pd_pipeline := start_control (pd_pipeline s); pd_out := pd_out s; pd_work := pd_work s |} in
    let? s := ready_reads_loop (length (p_ready_reads (pd_pipeline s))) s in
    let p := pd_pipeline s in
    let? wait := may_wait (wait && (len (pd_out s) =? len out)) (pipeline_has_ready p) in
    let '(q, failed) := queue_poll (p_queue p) wait in
    let p := set_queue q p in
    match failed with
    | Some e =>
        let? s := retire_failed {| pd_pipeline := set_fatal (Some (pipeline.Queue e)) (set_queue_failed true p); pd_out := pd_out s; pd_work := pd_work s |} in
        Ok (pd_pipeline s, pd_out s)
    | None =>
        let? s := pop_loop (Z.to_nat (pb_operations (p_budget p))) {| pd_pipeline := p; pd_out := pd_out s; pd_work := pd_work s |} in
        if p_queue_failed (pd_pipeline s) then
          let? s := retire_failed s in
          Ok (pd_pipeline s, pd_out s)
        else
          let? s := retire_writes s in
          let? s := start_flush s in
          Ok (start_control (pd_pipeline s), pd_out s)
    end.
End Pipeline.
