(* ===== verification/PipelineTable.v ===== *)
(** * The pipeline's slot table and queue

    Every slot is free, or holds one operation that exactly one of the
    pipeline's lists refers to; every request the queue holds belongs to the
    slot its token names, or is the one lifecycle request. *)

From stdpp Require Import gmap.
From S2P Require Import Prelude Align ChunkId Checksum Codec FrameFormat FrameDecode SegmentFormat SegmentBuilder.
From S2P Require Import Io Index PipelineState Pipeline.

(** ** Slot bookkeeping

    A pipeline keeps its operations in a slot table and refers to them from
    several lists: the free stack, the ordered writes, the ready reads, the
    pending barrier and the requests the queue holds. [tracks] says that such a
    list names exactly the slots whose content satisfies a predicate, once
    each; the lemmas follow one slot's change through it. *)

Section Tracks.
Context {A : Type}.
Implicit Types (slots : list A) (P : A -> bool) (L : list nat) (i : nat).

Definition tracks slots P L : Prop := NoDup L /\ forall i, i ∈ L <-> exists x, slots !! i = Some x /\ P x = true.

Lemma tracks_in slots P L i : tracks slots P L -> i ∈ L -> exists x, slots !! i = Some x /\ P x = true.
Proof. intros [_ H] Hi. apply H, Hi. Qed.

Lemma tracks_not slots P L i x : tracks slots P L -> slots !! i = Some x -> P x = false -> i ∉ L.
Proof. intros [_ H] Hx Hp Hi. apply H in Hi as (y & Hy & Hpy). congruence. Qed.

Lemma tracks_perm slots P L L' : Permutation L L' -> tracks slots P L -> tracks slots P L'.
Proof. intros Hp [Hn H]. split; [rewrite <- Hp; assumption|]. intros i. rewrite <- Hp. apply H. Qed.

Lemma lookup_update slots i x y j : slots !! i = Some x ->
  <[i := y]> slots !! j = if decide (i = j) then Some y else slots !! j.
Proof.
  intros Hx. destruct (decide (i = j)) as [<-|Hne].
  - apply list_lookup_insert_eq. eapply lookup_lt_Some; eassumption.
  - apply list_lookup_insert_ne. assumption.
Qed.

Lemma tracks_same slots P L i x y : slots !! i = Some x -> P x = P y -> tracks slots P L -> tracks (<[i := y]> slots) P L.
Proof.
  intros Hx Hp [Hn H]. split; [assumption|]. intros j. rewrite H. setoid_rewrite (lookup_update slots i x y j Hx).
  destruct (decide (i = j)) as [<-|]; [|reflexivity]. split; intros (z & Hz & Hpz); [exists y | exists x]; split; congruence.
Qed.

Lemma tracks_add slots P L i x y : slots !! i = Some x -> P x = false -> P y = true -> tracks slots P L -> tracks (<[i := y]> slots) P (i :: L).
Proof.
  intros Hx Hpx Hpy Ht. pose proof (tracks_not _ _ _ _ _ Ht Hx Hpx) as Hni. destruct Ht as [Hn H].
  split; [constructor; assumption|]. intros j. rewrite elem_of_cons, H. setoid_rewrite (lookup_update slots i x y j Hx).
  destruct (decide (i = j)) as [<-|Hne]; [split; eauto|]. split; [intros [->|?]; [congruence | assumption] | auto].
Qed.

Lemma tracks_remove slots P L i x y : slots !! i = Some x -> P y = false -> tracks slots P (i :: L) -> tracks (<[i := y]> slots) P L.
Proof.
  intros Hx Hpy [Hn H]. apply NoDup_cons in Hn as [Hni Hn]. split; [assumption|]. intros j.
  setoid_rewrite (lookup_update slots i x y j Hx). destruct (decide (i = j)) as [<-|Hne].
  - split; [contradiction|]. intros (z & [= <-] & Hz). congruence.
  - rewrite <- H, elem_of_cons. split; [auto | intros [->|?]; [congruence | assumption]].
Qed.

Lemma tracks_snoc slots P L i : tracks slots P (i :: L) -> tracks slots P (L ++ [i]).
Proof. apply tracks_perm. rewrite Permutation_app_comm. reflexivity. Qed.

(** A list that avoids some slots is shorter than the table by as many. *)
Lemma tracks_bound slots P L avoid : tracks slots P L -> NoDup avoid ->
  (forall i, i ∈ avoid -> exists x, slots !! i = Some x /\ P x = false) -> (length L + length avoid <= length slots)%nat.
Proof.
  intros Ht Hna Ha. rewrite <- length_app. rewrite <- (length_seq (length slots) 0). apply submseteq_length, NoDup_submseteq.
  - apply NoDup_app. split; [apply Ht|]. split; [|assumption]. intros i Hi Hia. destruct (Ha i Hia) as (x & Hx & Hp).
    exact (tracks_not _ _ _ _ _ Ht Hx Hp Hi).
  - intros i. rewrite elem_of_app. intros Hi. apply elem_of_seq. split; [lia|]. simpl.
    destruct Hi as [Hi|Hi]; [destruct (tracks_in _ _ _ _ Ht Hi) as (x & Hx & _) | destruct (Ha i Hi) as (x & Hx & _)];
      apply lookup_lt_Some in Hx; lia.
Qed.

(** Contents chosen in the list satisfy the predicate. *)
Lemma tracks_head slots P L i x : tracks slots P (i :: L) -> slots !! i = Some x -> P x = true.
Proof. intros [_ H] Hx. destruct (proj1 (H i) ltac:(apply elem_of_cons; auto)) as (y & Hy & Hp). congruence. Qed.
End Tracks.

(** ** Sums over the table *)

Definition total_of {A} (f : A -> Z) (l : list A) : Z := foldr (fun x t => f x + t) 0 l.

Lemma total_of_update {A} (f : A -> Z) l i x y : l !! i = Some x -> total_of f (<[i := y]> l) = total_of f l - f x + f y.
Proof.
  revert i. induction l as [|z l IH]; intros [|i] Hx; try discriminate; simpl in *.
  - injection Hx as ->. lia.
  - change (foldr (fun x t => f x + t) 0 (<[i:=y]> l)) with (total_of f (<[i := y]> l)). rewrite (IH i Hx). unfold total_of. lia.
Qed.

Lemma total_of_replicate {A} (f : A -> Z) n x : f x = 0 -> total_of f (replicate n x) = 0.
Proof. intros Hx. induction n as [|n IH]; simpl; [reflexivity|]. fold (total_of f (replicate n x)). lia. Qed.

Lemma total_of_zero {A} (f : A -> Z) l : (forall i x, l !! i = Some x -> f x = 0) -> total_of f l = 0.
Proof.
  induction l as [|x l IH]; intros H; simpl; [reflexivity|]. fold (total_of f l). rewrite (H 0%nat x eq_refl), IH; [reflexivity|].
  intros i y Hy. exact (H (S i) y Hy).
Qed.

Lemma total_of_nonneg {A} (f : A -> Z) l : (forall x, 0 <= f x) -> 0 <= total_of f l.
Proof. intros Hf. induction l as [|x l IH]; simpl; [lia|]. specialize (Hf x). fold (total_of f l). lia. Qed.

Lemma total_of_ge {A} (f : A -> Z) l i x : (forall x, 0 <= f x) -> l !! i = Some x -> f x <= total_of f l.
Proof.
  intros Hf. revert i. induction l as [|y l IH]; intros [|i] Hx; try discriminate; simpl in *; fold (total_of f l).
  - injection Hx as ->. pose proof (total_of_nonneg f l Hf). lia.
  - specialize (IH i Hx). specialize (Hf y). lia.
Qed.

Definition is_free (x : option Pending) : bool := match x with None => true | _ => false end.
Definition is_write (x : option Pending) : bool := match x with Some (PWrite _) => true | _ => false end.
Definition is_ready (x : option Pending) : bool := match x with Some (PEmptyRead _ _) => true | _ => false end.
Definition is_flush (x : option Pending) : bool := match x with Some (PFlush _ _) => true | _ => false end.

(** The queue holds a request for this operation. *)
Definition queued (x : option Pending) : bool :=
  match x with
  | Some (PWrite w) => match w_completed w with None => true | Some _ => false end
  | Some (PRead _) | Some (PVerifiedRead _) => true
  | Some (PFlush _ submitted) => submitted
  | _ => false
  end.

(** ** Requests the queue holds *)

Definition sh_token (sh : Shape) : Z := sh.1.1.1.1.
Definition sh_op (sh : Shape) : io.Operation := sh.1.1.1.2.
Definition sh_buffer (sh : Shape) : option Z := sh.2.

Definition is_control (sh : Shape) : bool := sh_token sh =? CONTROL_TOKEN.
Definition acc_slots (acc : list Shape) : list nat :=
  map (fun sh => Z.to_nat (sh_token sh)) (List.filter (fun sh => negb (is_control sh)) acc).
Definition controls (acc : list Shape) : nat := length (List.filter is_control acc).

(** Requests other than the pipeline's own frame writes. *)
Definition nonwrite (sh : Shape) : bool := is_control sh || negb (bool_decide (sh_op sh = io.Write)).
Definition nonwrites (acc : list Shape) : Z := len (List.filter nonwrite acc).

(** The request an operation waits for. *)
Definition expects (x : Pending) (sh : Shape) : Prop :=
  match x with
  | PWrite _ => sh_op sh = io.Write /\ is_Some (sh_buffer sh)
  | PRead _ => sh_op sh = io.Read /\ is_Some (sh_buffer sh)
  | PVerifiedRead r => sh_op sh = io.Read /\ exists n, sh_buffer sh = Some n /\
      match vr_metadata r with None => vr_metadata_len r <= n | Some _ => vr_io_len r <= n end
  | PFlush _ _ => sh_op sh = io.Sync
  | PEmptyRead _ _ => False
  end.

Definition expects_all (slots : list (option Pending)) (acc : list Shape) : Prop :=
  forall sh, sh ∈ acc -> is_control sh = false ->
    0 <= sh_token sh /\ exists x, slots !! Z.to_nat (sh_token sh) = Some (Some x) /\ expects x sh.

Record table_ok (slots : list (option Pending)) (free writes ready : list nat) (flush : option nat) (acc : list Shape) (ctl : bool) (d : Z) : Prop := {
  t_len : Z.of_nat (length slots) = d;
  t_max : 0 < d <= 32768;
  t_free : tracks slots is_free free;
  t_writes : tracks slots is_write writes;
  t_ready : tracks slots is_ready ready;
  t_flush : tracks slots is_flush (option_list flush);
  t_queued : tracks slots queued (acc_slots acc);
  t_controls : controls acc = if ctl then 1%nat else 0%nat;
  t_expects : expects_all slots acc
}.

(** ** Following one change *)

(** How a list follows the change of slot [i] from [old] to [new]. *)
Definition change (P : option Pending -> bool) (old new : option Pending) (i : nat) (L L' : list nat) : Prop :=
  match P old, P new with
  | false, true => Permutation L' (i :: L)
  | true, false => Permutation L (i :: L')
  | _, _ => Permutation L L'
  end.

Lemma tracks_change slots P old new i L L' : slots !! i = Some old -> change P old new i L L' -> tracks slots P L -> tracks (<[i := new]> slots) P L'.
Proof.
  intros Hi Hc Ht. unfold change in Hc. destruct (P old) eqn:Ho, (P new) eqn:Hn.
  - apply (tracks_same _ _ _ _ old new); [assumption | congruence | eapply tracks_perm; eassumption].
  - apply (tracks_remove _ _ _ _ old new); [assumption | assumption | eapply tracks_perm; eassumption].
  - eapply tracks_perm; [symmetry; exact Hc|]. apply (tracks_add _ _ _ _ old new); assumption.
  - apply (tracks_same _ _ _ _ old new); [assumption | congruence | eapply tracks_perm; eassumption].
Qed.

Lemma Permutation_filter_list {A} (f : A -> bool) (l l' : list A) : Permutation l l' -> Permutation (List.filter f l) (List.filter f l').
Proof.
  induction 1 as [|x l l' _ IH|x y l|l l' l'' _ IH1 _ IH2]; simpl.
  - reflexivity.
  - destruct (f x); [apply perm_skip|]; assumption.
  - destruct (f x), (f y); try reflexivity. apply perm_swap.
  - etransitivity; eassumption.
Qed.

Lemma acc_slots_perm acc acc' : Permutation acc acc' -> Permutation (acc_slots acc) (acc_slots acc').
Proof. intros. apply Permutation_map, Permutation_filter_list. assumption. Qed.

Lemma controls_perm acc acc' : Permutation acc acc' -> controls acc = controls acc'.
Proof. intros. apply Permutation_length, Permutation_filter_list. assumption. Qed.

Lemma nonwrites_perm acc acc' : Permutation acc acc' -> nonwrites acc = nonwrites acc'.
Proof. intros. unfold nonwrites, len. f_equal. apply Permutation_length, Permutation_filter_list. assumption. Qed.

Lemma acc_slots_cons acc acc' sh : Permutation acc' (sh :: acc) -> is_control sh = false ->
  Permutation (acc_slots acc') (Z.to_nat (sh_token sh) :: acc_slots acc) /\ controls acc' = controls acc.
Proof.
  intros Hp Hc. rewrite (controls_perm _ _ Hp), (acc_slots_perm _ _ Hp). unfold acc_slots, controls. simpl. rewrite Hc. simpl. auto.
Qed.

Lemma acc_slots_control acc acc' sh : Permutation acc' (sh :: acc) -> is_control sh = true ->
  Permutation (acc_slots acc') (acc_slots acc) /\ controls acc' = S (controls acc).
Proof.
  intros Hp Hc. rewrite (controls_perm _ _ Hp), (acc_slots_perm _ _ Hp). unfold acc_slots, controls. simpl. rewrite Hc. simpl. auto.
Qed.

Lemma nonwrites_cons acc acc' sh : Permutation acc' (sh :: acc) -> nonwrites acc' = (if nonwrite sh then 1 else 0) + nonwrites acc.
Proof. intros Hp. rewrite (nonwrites_perm _ _ Hp). unfold nonwrites. simpl. destruct (nonwrite sh); [rewrite len_cons|]; lia. Qed.

Lemma nonwrites_le acc : 0 <= nonwrites acc <= len acc.
Proof.
  unfold nonwrites, len. pose proof (filter_length_le nonwrite acc). lia.
Qed.

Section Updates.
Context {slots : list (option Pending)} {free writes ready : list nat} {flush : option nat} {acc : list Shape} {ctl : bool} {d : Z}.
Context (T : table_ok slots free writes ready flush acc ctl d).

Lemma table_slot_token i : (i < length slots)%nat -> Z.of_nat i <> CONTROL_TOKEN.
Proof. pose proof (t_len _ _ _ _ _ _ _ _ T). pose proof (t_max _ _ _ _ _ _ _ _ T). unfold CONTROL_TOKEN, U64_MAX. lia. Qed.

Lemma table_slot_control i sh : (i < length slots)%nat -> sh_token sh = Z.of_nat i -> is_control sh = false /\ Z.to_nat (sh_token sh) = i.
Proof. intros Hi Ht. pose proof (table_slot_token i Hi). unfold is_control. rewrite Ht. split; [apply Z.eqb_neq; assumption | lia]. Qed.

(** The operation a held request belongs to. *)
Lemma table_pending sh : sh ∈ acc -> is_control sh = false ->
  exists x, slots !! Z.to_nat (sh_token sh) = Some (Some x) /\ expects x sh /\ queued (Some x) = true.
Proof.
  intros Hin Hc. destruct (t_expects _ _ _ _ _ _ _ _ T sh Hin Hc) as (_ & x & Hx & He). exists x. split; [assumption|]. split; [assumption|].
  destruct (tracks_in _ _ _ (Z.to_nat (sh_token sh)) (t_queued _ _ _ _ _ _ _ _ T)) as (y & Hy & Hq); [|congruence].
  unfold acc_slots. apply list_elem_of_fmap. exists sh. split; [reflexivity|]. apply list_elem_of_In, filter_In.
  split; [apply list_elem_of_In; assumption | rewrite Hc; reflexivity].
Qed.

Lemma expects_keep i old new : slots !! i = Some old -> queued old = false -> expects_all (<[i := new]> slots) acc.
Proof.
  intros Hi Hq sh Hin Hc. destruct (table_pending sh Hin Hc) as (x & Hx & He & Hqx). split; [apply (t_expects _ _ _ _ _ _ _ _ T sh Hin Hc)|].
  exists x. split; [|assumption]. rewrite (lookup_update slots i old new _ Hi). destruct (decide _) as [->|]; [congruence | assumption].
Qed.

Lemma expects_enqueue i old x sh acc' : slots !! i = Some old -> queued old = false -> Permutation acc' (sh :: acc) ->
  sh_token sh = Z.of_nat i -> expects x sh -> expects_all (<[i := Some x]> slots) acc'.
Proof.
  intros Hi Hq Hp Ht He sh' Hin Hc. rewrite Hp in Hin. apply elem_of_cons in Hin as [->|Hin].
  - rewrite Ht, Nat2Z.id. split; [lia|]. exists x. split; [|assumption]. rewrite (lookup_update slots i old _ _ Hi), decide_True by reflexivity. reflexivity.
  - exact (expects_keep i old (Some x) Hi Hq sh' Hin Hc).
Qed.

Lemma expects_dequeue i old new sh acc' : slots !! i = Some old -> Permutation acc (sh :: acc') -> sh_token sh = Z.of_nat i ->
  expects_all (<[i := new]> slots) acc'.
Proof.
  intros Hi Hp Ht sh' Hin Hc. destruct (table_slot_control i sh (lookup_lt_Some _ _ _ Hi) Ht) as [Hci Htn].
  destruct (acc_slots_cons _ _ _ Hp Hci) as [Hs _]. pose proof (proj1 (t_queued _ _ _ _ _ _ _ _ T)) as Hnd. rewrite Hs, Htn in Hnd.
  apply NoDup_cons in Hnd as [Hni _].
  assert (Hin' : sh' ∈ acc) by (rewrite Hp; apply elem_of_cons; auto).
  destruct (t_expects _ _ _ _ _ _ _ _ T sh' Hin' Hc) as (H0 & x & Hx & He). split; [assumption|]. exists x. split; [|assumption].
  rewrite (lookup_update slots i old new _ Hi). destruct (decide (i = Z.to_nat (sh_token sh'))) as [->|]; [|assumption]. exfalso. apply Hni.
  unfold acc_slots. apply list_elem_of_fmap. exists sh'. split; [reflexivity|]. apply list_elem_of_In, filter_In.
  split; [apply list_elem_of_In; assumption | rewrite Hc; reflexivity].
Qed.

Lemma table_update i old new free' writes' ready' flush' acc' (ctl' : bool) :
  slots !! i = Some old ->
  change is_free old new i free free' -> change is_write old new i writes writes' -> change is_ready old new i ready ready' ->
  change is_flush old new i (option_list flush) (option_list flush') -> change queued old new i (acc_slots acc) (acc_slots acc') ->
  controls acc' = (if ctl' then 1%nat else 0%nat) -> expects_all (<[i := new]> slots) acc' ->
  table_ok (<[i := new]> slots) free' writes' ready' flush' acc' ctl' d.
Proof.
  intros Hi Hf Hw Hr Hfl Hq Hc He. destruct T. constructor; try assumption; try (eapply tracks_change; eassumption).
  rewrite length_insert. assumption.
Qed.

(** A table change that leaves the queue alone. *)
Lemma table_local i old new free' writes' ready' flush' : slots !! i = Some old -> queued old = false -> queued new = false ->
  change is_free old new i free free' -> change is_write old new i writes writes' -> change is_ready old new i ready ready' ->
  change is_flush old new i (option_list flush) (option_list flush') ->
  table_ok (<[i := new]> slots) free' writes' ready' flush' acc ctl d.
Proof.
  intros Hi Hqo Hqn Hf Hw Hr Hfl. eapply table_update; try eassumption.
  - unfold change. rewrite Hqo, Hqn. reflexivity.
  - apply T.
  - eapply expects_keep; eassumption.
Qed.

(** An operation enters the queue. *)
Lemma table_enqueue i old x sh acc' free' writes' ready' flush' : slots !! i = Some old -> queued old = false -> queued (Some x) = true ->
  Permutation acc' (sh :: acc) -> sh_token sh = Z.of_nat i -> expects x sh ->
  change is_free old (Some x) i free free' -> change is_write old (Some x) i writes writes' -> change is_ready old (Some x) i ready ready' ->
  change is_flush old (Some x) i (option_list flush) (option_list flush') ->
  table_ok (<[i := Some x]> slots) free' writes' ready' flush' acc' ctl d.
Proof.
  intros Hi Hqo Hqn Hp Ht He Hf Hw Hr Hfl. destruct (table_slot_control i sh (lookup_lt_Some _ _ _ Hi) Ht) as [Hci Htn].
  destruct (acc_slots_cons _ _ _ Hp Hci) as [Hs Hcs]. eapply table_update; try eassumption.
  - unfold change. rewrite Hqo, Hqn, Hs, Htn. reflexivity.
  - rewrite Hcs. apply T.
  - eapply expects_enqueue; eassumption.
Qed.

(** An operation leaves the queue. *)
Lemma table_dequeue i old new sh acc' free' writes' ready' flush' : slots !! i = Some old -> queued old = true -> queued new = false ->
  Permutation acc (sh :: acc') -> sh_token sh = Z.of_nat i ->
  change is_free old new i free free' -> change is_write old new i writes writes' -> change is_ready old new i ready ready' ->
  change is_flush old new i (option_list flush) (option_list flush') ->
  table_ok (<[i := new]> slots) free' writes' ready' flush' acc' ctl d.
Proof.
  intros Hi Hqo Hqn Hp Ht Hf Hw Hr Hfl. destruct (table_slot_control i sh (lookup_lt_Some _ _ _ Hi) Ht) as [Hci Htn].
  destruct (acc_slots_cons _ _ _ Hp Hci) as [Hs Hcs]. eapply table_update; try eassumption.
  - unfold change. rewrite Hqo, Hqn, Hs, Htn. reflexivity.
  - rewrite <- Hcs. apply T.
  - eapply expects_dequeue; eassumption.
Qed.

Lemma table_perm acc' : Permutation acc' acc -> table_ok slots free writes ready flush acc' ctl d.
Proof.
  intros Hp. destruct T. constructor; try assumption.
  - eapply tracks_perm; [|eassumption]. symmetry. apply acc_slots_perm. assumption.
  - rewrite (controls_perm _ _ Hp). assumption.
  - intros sh Hin. rewrite Hp in Hin. auto.
Qed.

Lemma table_control_start sh acc' : ctl = false -> Permutation acc' (sh :: acc) -> is_control sh = true ->
  table_ok slots free writes ready flush acc' true d.
Proof.
  intros Hctl Hp Hc. destruct (acc_slots_control _ _ _ Hp Hc) as [Hs Hcs]. destruct T. subst ctl. constructor; try assumption.
  - eapply tracks_perm; [|eassumption]. symmetry. assumption.
  - rewrite Hcs, t_controls0. reflexivity.
  - intros sh' Hin Hn. rewrite Hp in Hin. apply elem_of_cons in Hin as [->|Hin]; [congruence | auto].
Qed.

Lemma table_control_finish sh acc' : Permutation acc (sh :: acc') -> is_control sh = true ->
  table_ok slots free writes ready flush acc' false d.
Proof.
  intros Hp Hc. destruct (acc_slots_control _ _ _ Hp Hc) as [Hs Hcs]. destruct T. constructor; try assumption.
  - eapply tracks_perm; [|eassumption]. assumption.
  - rewrite Hcs in t_controls0. destruct ctl; lia.
  - intros sh' Hin Hn. apply t_expects0; [rewrite Hp; apply elem_of_cons; auto | assumption].
Qed.

Lemma len_acc : len acc = len (acc_slots acc) + (if ctl then 1 else 0).
Proof.
  pose proof (t_controls _ _ _ _ _ _ _ _ T) as Hc. unfold controls in Hc.
  assert (Hs : (length acc = length (List.filter (fun sh => negb (is_control sh)) acc) + length (List.filter is_control acc))%nat).
  { clear. induction acc as [|sh l IH]; simpl; [reflexivity|]. destruct (is_control sh); simpl; lia. }
  unfold len, acc_slots. rewrite length_map, Hs, Hc. destruct ctl; lia.
Qed.

(** Without pending frame writes, every held request counts as other. *)
Lemma nonwrites_all : writes = [] -> nonwrites acc = len acc.
Proof.
  intros Hw. unfold nonwrites. f_equal. pose proof table_pending as Hp.
  assert (Hall : Forall (fun sh => nonwrite sh = true) acc).
  { apply Forall_forall. intros sh Hin. unfold nonwrite. destruct (is_control sh) eqn:Hc; [reflexivity|]. simpl.
    destruct (Hp sh Hin Hc) as (x & Hx & He & _). destruct x; simpl in He; try (destruct He as [-> _]; reflexivity); try (rewrite He; reflexivity); try contradiction.
    exfalso. pose proof (t_writes _ _ _ _ _ _ _ _ T) as Ht. rewrite Hw in Ht. destruct Ht as [_ Ht].
    assert (Z.to_nat (sh_token sh) ∈ @nil nat) as Hn by (apply Ht; eauto). inversion Hn. }
  clear -Hall. induction Hall as [|sh l Hs _ IH]; simpl; [reflexivity|]. rewrite Hs, IH. reflexivity.
Qed.

(** With the lifecycle request inactive, requests other than frame writes
    occupy slots different from a pending write's and an unsent barrier's. *)
Lemma nonwrites_bound fslot wslot xf xw : ctl = false -> slots !! fslot = Some xf -> queued xf = false -> is_write xf = false ->
  slots !! wslot = Some xw -> is_write xw = true -> nonwrites acc + 2 <= d.
Proof.
  intros Hctl Hf Hqf Hwf Hw Hww.
  set (L := map (fun sh => Z.to_nat (sh_token sh)) (List.filter nonwrite acc)).
  assert (Hnc : forall sh, sh ∈ acc -> is_control sh = false).
  { intros sh Hin. destruct (is_control sh) eqn:Hc; [|reflexivity]. exfalso. pose proof (t_controls _ _ _ _ _ _ _ _ T) as Hk. rewrite Hctl in Hk.
    unfold controls in Hk. apply length_zero_iff_nil in Hk. assert (In sh (List.filter is_control acc)) as Hi by (apply filter_In; split; [apply list_elem_of_In|]; assumption).
    rewrite Hk in Hi. contradiction. }
  assert (HL : NoDup L).
  { pose proof (proj1 (t_queued _ _ _ _ _ _ _ _ T)) as Hnd. unfold acc_slots in Hnd.
    assert (Hfa : List.filter (fun sh => negb (is_control sh)) acc = acc).
    { clear -Hnc. induction acc as [|sh l IH]; simpl; [reflexivity|]. rewrite (Hnc sh) by (apply elem_of_cons; auto). simpl. f_equal.
      apply IH. intros sh' Hin. apply Hnc. apply elem_of_cons; auto. }
    rewrite Hfa in Hnd. clear -Hnd. unfold L. induction acc as [|sh l IH]; simpl in *; [assumption|]. apply NoDup_cons in Hnd as [Hn Hnd].
    destruct (nonwrite sh); [|auto]. simpl. apply NoDup_cons. split; [|auto]. intros Hin. apply Hn.
    apply list_elem_of_In in Hin. apply list_elem_of_In. apply in_map_iff in Hin as (y & Hy & Hin). apply filter_In in Hin as [Hin _].
    apply in_map_iff. eauto. }
  assert (Hlen : (length L + 2 <= length slots)%nat).
  { change 2%nat with (length [fslot; wslot]). rewrite <- length_app. rewrite <- (length_seq (length slots) 0). apply submseteq_length, NoDup_submseteq.
    - apply NoDup_app. split; [assumption|]. split.
      + intros i Hi Hin. apply list_elem_of_In, in_map_iff in Hi as (sh & Hsh & Hi). apply filter_In in Hi as [Hi Hnw]. apply list_elem_of_In in Hi.
        pose proof (Hnc sh Hi) as Hc. destruct (table_pending sh Hi Hc) as (x & Hx & He & Hq). rewrite Hsh in Hx.
        apply elem_of_cons in Hin as [->|Hin]; [congruence|]. apply list_elem_of_singleton in Hin as ->. rewrite Hx in Hw. injection Hw as <-.
        destruct x; try discriminate. simpl in He. destruct He as [He _]. unfold nonwrite in Hnw. rewrite Hc, He in Hnw. discriminate.
      + apply NoDup_cons. split; [|apply NoDup_singleton]. rewrite list_elem_of_singleton. intros ->. congruence.
    - intros i. rewrite elem_of_app. intros Hi. apply elem_of_seq. split; [lia|]. simpl. destruct Hi as [Hi|Hi].
      + apply list_elem_of_In, in_map_iff in Hi as (sh & Hsh & Hi). apply filter_In in Hi as [Hi _]. apply list_elem_of_In in Hi.
        destruct (table_pending sh Hi (Hnc sh Hi)) as (x & Hx & _). rewrite Hsh in Hx. apply lookup_lt_Some in Hx. lia.
      + apply elem_of_cons in Hi as [->|Hi]; [apply lookup_lt_Some in Hf; lia|]. apply list_elem_of_singleton in Hi as ->. apply lookup_lt_Some in Hw. lia. }
  pose proof (t_len _ _ _ _ _ _ _ _ T). unfold nonwrites, len. unfold L in Hlen. rewrite length_map in Hlen. lia.
Qed.
End Updates.
