(* ===== verification/PipelineInv.v ===== *)
(** * The pipeline invariant

    The queue and slot table agree (PipelineTable), resource accounting is
    exact, and everything the operations rely on later is recorded in the
    pending operations. *)

From stdpp Require Import gmap sorting.
From S2P Require Import Prelude Align ChunkId Checksum Codec FrameFormat FrameDecode FrameDecodeProofs SegmentFormat SegmentBuilder SegmentProofs.
From S2P Require Import Io Index PipelineState Pipeline PipelineTable.

(** ** Locations and entries *)

Definition loc_ok (n : Z) (l : Location) : Prop :=
  0 <= loc_segment l < n /\ 0 <= loc_ordinal l /\ is_u32 (loc_frame_offset l) /\ is_u32 (loc_value_offset l) /\ is_u32 (loc_value_len l) /\ 0 < loc_metadata_len l < 2 ^ 32.

Lemma loc_ok_mono n n' l : n <= n' -> loc_ok n l -> loc_ok n' l.
Proof. unfold loc_ok. intros. intuition lia. Qed.

Lemma size_list_to_set_le (l : list ChunkId) : (size (list_to_set l : gset ChunkId) <= length l)%nat.
Proof.
  induction l as [|k l IH]; [reflexivity|]. cbn [list_to_set length]. destruct (decide (k ∈ (list_to_set l : gset ChunkId))) as [Hin|Hin].
  - replace ({[k]} ∪ list_to_set l) with (list_to_set l : gset ChunkId) by set_solver. lia.
  - rewrite size_union, size_singleton by set_solver. lia.
Qed.

Lemma fresh_keys_len index es : Z.of_nat (size (fresh_keys index es)) <= len es.
Proof.
  unfold fresh_keys, len. pose proof (filter_length_le (fun k => negb (bool_decide (is_Some (index !! k)))) (map fst es)) as H. rewrite length_map in H.
  pose proof (size_list_to_set_le (List.filter (fun k => negb (bool_decide (is_Some (index !! k)))) (map fst es))). lia.
Qed.

Lemma fresh_keys_mono (index index' : Index) es : dom index ⊆ dom index' -> fresh_keys index' es ⊆ fresh_keys index es.
Proof.
  intros Hd k. unfold fresh_keys. rewrite !elem_of_list_to_set, !list_elem_of_In, !filter_In. intros [Hin Hb]. split; [assumption|].
  apply negb_true_iff, bool_decide_eq_false in Hb. apply negb_true_iff, bool_decide_eq_false. rewrite <- !elem_of_dom in *. set_solver.
Qed.

Lemma dom_apply_mono index keys es : dom index ⊆ (dom (apply index keys es).1 : gset ChunkId).
Proof. rewrite apply_fst, dom_foldl_upd. set_solver. Qed.

Lemma entries_spec {C : CrcFast} bytes limits p m seg n : Metadata_decode bytes limits p = Ok m -> 0 <= seg < n -> is_u32 (offset p) ->
  exists es, entries m seg = Ok es /\ len es = record_count (md_header m) /\ Forall (fun e => loc_ok n e.2) es.
Proof.
  intros Hm Hs Ho. destruct (Metadata_decode_ok _ _ _ _ Hm) as (ds & Hok & _ & _). unfold entries. rewrite (metadata_ok_records _ _ _ _ Hok). cbn [rbind].
  eexists. split; [reflexivity|]. split; [unfold len; rewrite length_map, length_imap; apply (mo_count _ _ _ _ Hok)|].
  apply Forall_map, Forall_forall. intros r Hr. apply list_elem_of_lookup in Hr as (i & Hi). rewrite list_lookup_imap in Hi.
  destruct (ds !! i) as [dd|] eqn:Hd; [|discriminate]. injection Hi as <-.
  pose proof (Forall_lookup_1 _ _ _ _ (mo_entries _ _ _ _ Hok) Hd) as ((_ & _ & Hvo & Hvl & _) & _).
  unfold loc_ok. simpl. rewrite (mo_position _ _ _ _ Hok). unfold is_u32 in *. pose proof (wrap32_range (Z.of_nat i)) as H1.
  pose proof (metadata_len_pos _ _ (mo_header _ _ _ _ Hok)). pose proof (mo_header _ _ _ _ Hok) as (Hf & _ & _ & _ & _ & _ & _ & _ & Hml & _).
  rewrite (wrap32_small (metadata_len _)) by (unfold is_u32 in *; lia). unfold is_u32 in *. lia.
Qed.

(** ** Verified reads *)

Record vr_ok {C : CrcFast} (n : Z) (r : VerifiedRead) : Prop := {
  v_loc : loc_ok n (vr_location r);
  v_range : 0 <= (vr_verified r).1 <= (vr_verified r).2 /\ (range_is_empty (vr_requested r) = false -> (vr_verified r).1 < (vr_verified r).2);
  v_extent : 0 <= vr_prefix r /\ ((vr_verified r).1 < (vr_verified r).2 -> vr_prefix r + ((vr_verified r).2 - (vr_verified r).1) <= vr_io_len r);
  v_phase : match vr_metadata r with
            | None => exists v, vr_value r = Some v /\ value_buffer_len r <= len v
            | Some _ => (vr_verified r).1 < (vr_verified r).2 /\ exists rec, validated_record r = Ok rec
            end
}.

Lemma vr_ok_mono {C : CrcFast} n n' r : n <= n' -> vr_ok n r -> vr_ok n' r.
Proof. intros Hn []. constructor; auto. eapply loc_ok_mono; eassumption. Qed.

(** ** Pending operations and accounting *)

Definition pending_ok {C : CrcFast} (index : Index) (n next : Z) (x : Pending) : Prop :=
  pending_ticket x < next /\
  match x with
  | PWrite w => Forall (fun e => loc_ok n e.2) (w_entries w) /\ Z.of_nat (size (fresh_keys index (w_entries w))) <= w_reserved_new w
  | PVerifiedRead r => vr_ok n r
  | _ => True
  end.

Definition slot_entries (x : option Pending) : Z := match x with Some (PWrite w) => len (w_entries w) | _ => 0 end.
Definition slot_new (x : option Pending) : Z := match x with Some (PWrite w) => w_reserved_new w | _ => 0 end.

Record data_ok {C : CrcFast} (slots : list (option Pending)) (index : Index) (keys : list ChunkId) (n next pe pn limE limP : Z) : Prop := {
  d_pending : forall i x, slots !! i = Some (Some x) -> pending_ok index n next x;
  d_locs : forall k l, index !! k = Some l -> loc_ok n l;
  d_keys : keys_ok index keys;
  d_entries : pe = total_of slot_entries slots;
  d_new : pn = total_of slot_new slots;
  d_index : Z.of_nat (size index) + pn <= limE;
  d_limit : pe <= limP
}.

Section Data.
Context {C : CrcFast} {slots : list (option Pending)} {index : Index} {keys : list ChunkId} {n next pe pn limE limP : Z}.
Context (D : data_ok slots index keys n next pe pn limE limP).

Lemma data_slot i old new pe' pn' : slots !! i = Some old -> (forall x, new = Some x -> pending_ok index n next x) ->
  pe' = pe - slot_entries old + slot_entries new -> pn' = pn - slot_new old + slot_new new ->
  Z.of_nat (size index) + pn' <= limE -> pe' <= limP ->
  data_ok (<[i := new]> slots) index keys n next pe' pn' limE limP.
Proof.
  intros Hi Hnew Hpe Hpn HE HP. destruct D. constructor; try assumption.
  - intros j x Hj. rewrite (lookup_update slots i old new j Hi) in Hj. destruct (decide (i = j)); [injection Hj as ->; auto | eauto].
  - rewrite (total_of_update _ _ _ _ _ Hi). lia.
  - rewrite (total_of_update _ _ _ _ _ Hi). lia.
Qed.

(** A slot change between operations that account for nothing. *)
Lemma data_slot_same i old new : slots !! i = Some old -> (forall x, new = Some x -> pending_ok index n next x) ->
  slot_entries new = slot_entries old -> slot_new new = slot_new old -> data_ok (<[i := new]> slots) index keys n next pe pn limE limP.
Proof. intros Hi Hn He Hw. pose proof (d_index _ _ _ _ _ _ _ _ _ D). pose proof (d_limit _ _ _ _ _ _ _ _ _ D). eapply data_slot; eauto; lia. Qed.

Lemma data_next next' : next <= next' -> data_ok slots index keys n next' pe pn limE limP.
Proof.
  intros Hn. destruct D. constructor; try assumption. intros i x Hx. destruct (d_pending0 i x Hx) as [Ht Hp]. split; [lia | exact Hp].
Qed.

Lemma data_extents n' : n <= n' -> data_ok slots index keys n' next pe pn limE limP.
Proof.
  intros Hn. destruct D. constructor; try assumption.
  - intros i x Hx. destruct (d_pending0 i x Hx) as [Ht Hp]. split; [assumption|]. destruct x; auto.
    + destruct Hp as [H1 H2]. split; [|assumption]. eapply Forall_impl; [exact H1|]. intros e. apply loc_ok_mono. assumption.
    + eapply vr_ok_mono; eassumption.
  - intros k l Hk. eapply loc_ok_mono; eauto.
Qed.

(** Publication of a retired write's entries. *)
Lemma data_apply i w : slots !! i = Some (Some (PWrite w)) ->
  data_ok (<[i := None]> slots) (apply index keys (w_entries w)).1 (apply index keys (w_entries w)).2 n next (pe - len (w_entries w)) (pn - w_reserved_new w) limE limP.
Proof.
  intros Hi. pose proof (dom_apply_mono index keys (w_entries w)) as Hdom. pose proof (apply_size index keys (w_entries w)) as Hsize.
  destruct D as [Hp Hl Hk He Hn HE HP]. destruct (Hp i _ Hi) as (_ & Hlocs & Hfresh). pose proof (len_nonneg (w_entries w)). constructor.
  - intros j x Hj. rewrite (lookup_update slots i _ None j Hi) in Hj. destruct (decide (i = j)); [discriminate|].
    destruct (Hp j x Hj) as [Ht Hx]. split; [assumption|]. destruct x; auto. destruct Hx as [H1 H2]. split; [assumption|].
    pose proof (subseteq_size _ _ (fresh_keys_mono index _ (w_entries w0) Hdom)). lia.
  - intros k l Hkl. rewrite apply_fst in Hkl. apply foldl_upd_origin in Hkl as [Hkl|Hkl]; [eauto|].
    rewrite Forall_forall in Hlocs. exact (Hlocs (k, l) Hkl).
  - apply apply_keys. assumption.
  - rewrite (total_of_update _ _ _ _ _ Hi), He. simpl. lia.
  - rewrite (total_of_update _ _ _ _ _ Hi), Hn. simpl. lia.
  - lia.
  - lia.
Qed.

(** Publication of restored entries under a fresh reservation. *)
Lemma data_restore es new : Forall (fun e => loc_ok n e.2) es -> Z.of_nat (size (fresh_keys index es)) <= new ->
  Z.of_nat (size index) + (pn + new) <= limE ->
  data_ok slots (apply index keys es).1 (apply index keys es).2 n next pe pn limE limP.
Proof.
  intros Hlocs Hfresh HE'. pose proof (dom_apply_mono index keys es) as Hdom. pose proof (apply_size index keys es) as Hsize.
  destruct D as [Hp Hl Hk He Hn HE HP]. constructor; try assumption.
  - intros j x Hj. destruct (Hp j x Hj) as [Ht Hx]. split; [assumption|]. destruct x; auto. destruct Hx as [H1 H2]. split; [assumption|].
    pose proof (subseteq_size _ _ (fresh_keys_mono index _ (w_entries w) Hdom)). lia.
  - intros k l Hkl. rewrite apply_fst in Hkl. apply foldl_upd_origin in Hkl as [Hkl|Hkl]; [eauto|].
    rewrite Forall_forall in Hlocs. exact (Hlocs (k, l) Hkl).
  - apply apply_keys. assumption.
  - lia.
Qed.

(** New limits while nothing is indexed or in flight. *)
Lemma data_limits limE' limP' : size index = 0%nat -> (forall i x, slots !! i = Some x -> x = None) -> 0 <= limE' -> 0 <= limP' ->
  data_ok slots index keys n next pe pn limE' limP'.
Proof.
  intros Hs Hf HE' HP'. destruct D as [Hp Hl Hk He Hn HE HP]. constructor; try assumption.
  - rewrite Hs, Hn, total_of_zero; [lia|]. intros i x Hx. rewrite (Hf i x Hx). reflexivity.
  - rewrite He, total_of_zero; [lia|]. intros i x Hx. rewrite (Hf i x Hx). reflexivity.
Qed.
End Data.

(** ** Order of writes *)

Definition slot_ticket (slots : list (option Pending)) (i : nat) : Z :=
  match slots !! i with Some (Some x) => pending_ticket x | _ => 0 end.

Definition ordered_writes (slots : list (option Pending)) (writes : list nat) : Prop := StronglySorted Z.lt (map (slot_ticket slots) writes).

Lemma slot_ticket_update slots i old new j : slots !! i = Some old ->
  slot_ticket (<[i := new]> slots) j = if decide (i = j) then match new with Some x => pending_ticket x | None => 0 end else slot_ticket slots j.
Proof. intros Hi. unfold slot_ticket. rewrite (lookup_update slots i old new j Hi). destruct (decide (i = j)); [destruct new|]; reflexivity. Qed.

Lemma ordered_writes_other slots i old new writes : slots !! i = Some old -> i ∉ writes -> ordered_writes slots writes -> ordered_writes (<[i := new]> slots) writes.
Proof.
  intros Hi Hni. unfold ordered_writes. replace (map (slot_ticket (<[i := new]> slots)) writes) with (map (slot_ticket slots) writes); [auto|].
  apply map_ext_in. intros j Hj. rewrite (slot_ticket_update _ _ _ _ _ Hi). destruct (decide (i = j)) as [->|]; [|reflexivity].
  exfalso. apply Hni, list_elem_of_In, Hj.
Qed.

Lemma ordered_writes_same slots i x y writes : slots !! i = Some (Some x) -> pending_ticket x = pending_ticket y -> ordered_writes slots writes ->
  ordered_writes (<[i := Some y]> slots) writes.
Proof.
  intros Hi Ht. unfold ordered_writes. replace (map (slot_ticket (<[i := Some y]> slots)) writes) with (map (slot_ticket slots) writes); [auto|].
  apply map_ext. intros j. rewrite (slot_ticket_update _ _ _ _ _ Hi). destruct (decide (i = j)) as [->|]; [|reflexivity].
  unfold slot_ticket. rewrite Hi. assumption.
Qed.

Lemma ordered_writes_snoc slots i old x writes : slots !! i = Some old -> i ∉ writes -> ordered_writes slots writes ->
  (forall j, j ∈ writes -> slot_ticket slots j < pending_ticket x) -> ordered_writes (<[i := Some x]> slots) (writes ++ [i]).
Proof.
  intros Hi Hni Ho Hlt. pose proof (ordered_writes_other slots i old (Some x) writes Hi Hni Ho) as Ho'. unfold ordered_writes in *.
  rewrite map_app. cbn [map]. rewrite (slot_ticket_update _ _ _ _ i Hi), decide_True by reflexivity.
  assert (Hall : Forall (fun t => t < pending_ticket x) (map (slot_ticket (<[i := Some x]> slots)) writes)).
  { apply Forall_map, Forall_forall. intros j Hj. rewrite (slot_ticket_update _ _ _ _ j Hi). destruct (decide (i = j)) as [->|]; [contradiction | auto]. }
  clear -Ho' Hall. induction Ho' as [|t l Hs IH Ht]; simpl; [repeat constructor|].
  inversion Hall as [|? ? H1 H2]; subst. constructor; [auto|]. apply Forall_app. split; [assumption | repeat constructor; assumption].
Qed.

(** ** The invariant *)

Section Invariant.
Context {Q : Type} {QI : Queue Q} {QS : QueueSpec Q} {C : CrcFast}.

Definition resources_ok (r : ResourceLimits) : Prop := rl_index_entries r < U64_MAX /\ rl_pending_records r < U64_MAX.

(** The current segment is the one of a known extent. *)
Definition extents_ok (p : Pipeline Q) : Prop :=
  len (p_extents p) <= U32_MAX /\ (p_extents p <> [] -> 0 <= p_current p < len (p_extents p)) /\
  Forall (fun e => 0 <= ext_base e < 2 ^ 62) (p_extents p).

Definition budget_ok (b : PollBudget) : Prop := 0 < pb_operations b /\ 0 < pb_bytes b /\ 0 < pb_records b.

(** A failure recorded at or before a ticket. *)
Definition failed_before (failed_at : option Z) (t : Z) : Prop := exists f, failed_at = Some f /\ f <= t.

Record pipe_ok (p : Pipeline Q) : Prop := {
  k_live : p_queue_failed p = false;
  k_queue : queue_ok (p_queue p);
  k_table : table_ok (p_slots p) (p_free p) (p_writes p) (p_ready_reads p) (p_flush p) (accepted (p_queue p)) (p_control_active p) (depth (p_queue p));
  k_barrier : forall i t, p_flush p = Some i -> p_slots p !! i = Some (Some (PFlush t false)) ->
    nonwrites (accepted (p_queue p)) + 1 <= depth (p_queue p);
  k_maint : p_control p <> None \/ p_control_active p = true -> p_maintenance p = true;
  k_control : forall r, p_control p = Some r -> token r = CONTROL_TOKEN /\ p_control_active p = false;
  k_data : data_ok (p_slots p) (p_index p) (p_keys p) (len (p_extents p)) (p_next_ticket p) (p_pending_entries p) (p_pending_new p)
             (rl_index_entries (p_resources p)) (rl_pending_records (p_resources p));
  k_order : ordered_writes (p_slots p) (p_writes p);
  k_resources : resources_ok (p_resources p);
  k_limits : limits_ok (p_limits p);
  k_segment : forall b, p_segment p = Some b -> (exists ms, segment_ok (p_limits p) b ms) /\ p_extents p <> [];
  k_extents : extents_ok p;
  k_sync : forall i t, p_slots p !! i = Some (Some (PFlush t true)) -> p_writes p = [] /\ p_failed_at p = None;
  k_failed : forall i w r b, p_slots p !! i = Some (Some (PWrite w)) -> w_completed w = Some (r, b) -> r <> Ok tt ->
    failed_before (p_failed_at p) (w_ticket w);
  k_cursor : p_failed_cursor p = 0;
  k_budget : budget_ok (p_budget p)
}.
End Invariant.
