(* ===== verification/PipelineLemmas.v ===== *)
(** * Facts about the pipeline's operations

    What each fallible step of admission and of a verified read establishes
    when it succeeds, and that none of them panics. *)

From stdpp Require Import gmap.
From S2P Require Import Prelude Align ChunkId Checksum Codec FrameFormat FrameDecode FrameDecodeProofs FrameBuilder FrameBuilderProofs.
From S2P Require Import FrameRoundtrip FramePrepared SegmentFormat SegmentBuilder SegmentProofs SegmentRecovery.
From S2P Require Import Io Index PipelineState Pipeline PipelineTable PipelineInv.

Lemma safe_expect {E A} (o : option A) a : o = Some a -> @safe E A (expect o).
Proof. intros ->. discriminate. Qed.

Lemma expect_Ok {E A} (o : option A) a : @expect E A o = Ok a -> o = Some a.
Proof. destruct o; simpl; congruence. Qed.

Lemma saturating_le a b l : l < U64_MAX -> (saturating_add a b >? l) = false -> a + b <= l.
Proof. unfold saturating_add. rewrite Z.gtb_ltb, Z.ltb_ge. intros. lia. Qed.

Section Reserve.
Context {Q : Type} {QI : Queue Q} {C : CrcFast}.
Implicit Types p : Pipeline Q.

Lemma reserve_safe (try_reserve : Z -> bool) n : safe (reserve try_reserve n).
Proof. apply safe_fail_if. Qed.

Lemma count_unique_spec index limit es : forall seen out, count_unique index limit es seen = Ok out -> out = seen ∪ fresh_keys index es.
Proof.
  induction es as [|[k l] es IH]; intros seen out H; cbn [count_unique] in H.
  - injection H as <-. unfold fresh_keys. simpl. set_solver.
  - unfold fresh_keys. cbn [map fst List.filter]. destruct (index !! k) as [o|] eqn:Hk.
    + rewrite bool_decide_true by eauto. cbn [negb]. apply IH. assumption.
    + rewrite bool_decide_false by (rewrite is_Some_alt; auto). cbn [negb list_to_set]. inv_ok. rewrite (IH _ _ H). unfold fresh_keys. set_solver.
Qed.

Lemma count_unique_safe index limit es : forall seen, safe (count_unique index limit es seen).
Proof.
  induction es as [|[k l] es IH]; intros seen; cbn [count_unique]; [apply safe_Ok|]. destruct (index !! k); [apply IH|].
  apply safe_rbind; [apply safe_fail_if | intros; apply IH].
Qed.

(** A granted reservation covers the new keys within the index limit. *)
Lemma reserve_entries_ok (try_reserve : Z -> bool) p es new : rl_index_entries (p_resources p) < U64_MAX -> reserve_entries try_reserve p es = Ok new ->
  Z.of_nat (size (fresh_keys (p_index p) es)) <= new /\
  Z.of_nat (size (p_index p)) + (p_pending_new p + new) <= rl_index_entries (p_resources p).
Proof.
  intros Hl H. unfold reserve_entries in H. apply rbind_Ok_inv in H as (n & Hn & H). apply rbind_Ok_inv in H as (a & Ha & H).
  apply rbind_Ok_inv in H as (u1 & _ & H). apply rbind_Ok_inv in H as (u2 & H2 & H). apply fail_if_Ok in H2. inv_ok. subst n.
  unfold checked_add in Ha. destruct (_ <=? U64_MAX); [|discriminate]. injection Ha as <-.
  apply saturating_le in H2; [|assumption]. split; [|lia].
  destruct (_ >? _); inv_ok; [|subst new; apply fresh_keys_len]. subst new. match goal with Hu : count_unique _ _ _ _ = Ok _ |- _ => apply count_unique_spec in Hu as -> end.
  rewrite (union_empty_l_L (fresh_keys (p_index p) es)). lia.
Qed.

Lemma reserve_entries_safe (try_reserve : Z -> bool) p es : safe (reserve_entries try_reserve p es).
Proof.
  unfold reserve_entries. apply safe_rbind.
  - apply safe_if; [|apply safe_Ok]. apply safe_rbind; [apply reserve_safe|]. intros _ _. apply safe_rbind; [apply count_unique_safe|].
    intros; apply safe_Ok.
  - intros n _. repeat (apply safe_rbind; [auto with moat; apply reserve_safe | intros ? _]). apply safe_Ok.
Qed.

(** ** Extents *)

Lemma extent_safe p i : 0 <= i < len (p_extents p) -> exists e, extent p i = Ok e.
Proof.
  intros Hi. unfold extent, len in *. destruct (p_extents p !! Z.to_nat i) as [e|] eqn:He; [eauto|]. apply lookup_ge_None in He. lia.
Qed.

Lemma position_in_safe p i off : 0 <= i < len (p_extents p) -> safe (position_in p i off).
Proof.
  intros Hi. destruct (extent_safe p i Hi) as (e & He). unfold position_in. rewrite He. cbn [rbind]. apply safe_map_err, FramePosition_new_safe.
Qed.

Lemma position_in_offset p i off pos : position_in p i off = Ok pos -> offset pos = off.
Proof. unfold position_in, frame_err. intros H. inv_ok. apply FramePosition_new_fields in H as [_ ->]. reflexivity. Qed.

(** ** Writes *)

Lemma SegmentHeader_position_safe h off : safe (SegmentHeader_position h off).
Proof. unfold SegmentHeader_position. apply FramePosition_new_safe. Qed.

Lemma SegmentBuilder_position_safe b fl ml : safe (SegmentBuilder_position b fl ml).
Proof.
  unfold SegmentBuilder_position. repeat (apply safe_rbind; [apply safe_fail_if | intros ? _]). apply safe_map_err, SegmentHeader_position_safe.
Qed.

Lemma SegmentBuilder_append_safe r b m : safe (SegmentBuilder_append r b m).
Proof.
  unfold SegmentBuilder_append. apply safe_rbind; [apply SegmentBuilder_position_safe|]. intros pos _.
  repeat (apply safe_rbind; [apply safe_fail_if | intros ? _]). apply safe_Ok.
Qed.

(** The next position of a sound builder is a frame position. *)
Lemma SegmentBuilder_position_ok limits b ms fl ml pos : segment_ok limits b ms -> SegmentBuilder_position b fl ml = Ok pos -> position_ok pos.
Proof.
  intros Hb H. pose proof (segment_ok_sizes limits b ms Hb) as Hsz. pose proof (so_header _ _ _ Hb) as ((_ & _ & Hq) & (Hg & Hgm) & _).
  unfold SegmentBuilder_position, SegmentHeader_position in H. inv_ok. rewrite (so_active _ _ _ Hb) in H.
  unfold FramePosition_new in H. inv_ok. subst pos. boolp. rewrite !is_aligned_page in *. unfold PAGE_SIZE in *. boolp.
  unfold position_ok, is_u64. cbn [segment_seq offset available]. repeat split; try lia; dlia.
Qed.

(** What a prepared write carries: its entries, its index reservation and the
    grown segment. *)
Lemma prepare_write_ok (try_reserve : Z -> bool) p ticket seg ms pos buf w off l seg' :
  segment_ok (p_limits p) seg ms -> position_ok pos -> rl_index_entries (p_resources p) < U64_MAX -> rl_pending_records (p_resources p) < U64_MAX ->
  0 <= p_current p < len (p_extents p) -> len (p_extents p) <= U32_MAX ->
  prepare_write try_reserve p ticket seg pos buf = Ok (w, off, l, seg') ->
  w_ticket w = ticket /\ w_completed w = None /\ Forall (fun e => loc_ok (len (p_extents p)) e.2) (w_entries w) /\
  Z.of_nat (size (fresh_keys (p_index p) (w_entries w))) <= w_reserved_new w /\
  Z.of_nat (size (p_index p)) + (p_pending_new p + w_reserved_new w) <= rl_index_entries (p_resources p) /\
  p_pending_entries p + len (w_entries w) <= rl_pending_records (p_resources p) /\
  exists m, Metadata_decode buf (p_limits p) pos = Ok m /\ segment_ok (p_limits p) seg' (ms ++ [m]) /\
    entries m (p_current p) = Ok (w_entries w).
Proof.
  intros Hs Hp HE HR Hc Hx H. unfold prepare_write, frame_err, segment_err in H. apply rbind_Ok_inv in H as (m & Hm & H). apply map_err_Ok in Hm.
  rewrite (wrap32_small (p_current p)) in H by (unfold is_u32, U32_MAX in *; lia).
  destruct (entries_spec buf (p_limits p) pos m (p_current p) (len (p_extents p)) Hm Hc ltac:(unfold is_u32; destruct Hp; lia)) as (es & Hes & Hlen & Hloc).
  inv_ok. rewrite Hes in *. inv_ok. subst. cbn [w_ticket w_completed w_entries w_reserved_new].
  match goal with Hr : reserve_entries _ _ _ = Ok _ |- _ => destruct (reserve_entries_ok try_reserve p _ _ HE Hr) as [Hf Hi] end.
  match goal with Ha : SegmentBuilder_append _ _ _ = Ok _ |- _ =>
    destruct (append_ok (p_limits p) seg ms m _ _ Hs ltac:(eauto) Ha) as [Hs' _] end.
  match goal with Hg : (saturating_add (p_pending_entries p) _ >? _) = false |- _ => apply saturating_le in Hg; [|assumption] end.
  repeat split; auto; [lia|]. eauto.
Qed.

Lemma prepare_write_safe (try_reserve : Z -> bool) p ticket seg pos buf : 0 <= p_current p < len (p_extents p) -> len (p_extents p) <= U32_MAX -> is_u32 (offset pos) ->
  safe (prepare_write try_reserve p ticket seg pos buf).
Proof.
  intros Hc Hx Ho. unfold prepare_write, frame_err, segment_err. apply safe_rbind; [apply safe_map_err, Metadata_decode_safe|].
  intros m Hm. apply map_err_Ok in Hm. rewrite (wrap32_small (p_current p)) by (unfold is_u32, U32_MAX in *; lia).
  destruct (entries_spec buf (p_limits p) pos m (p_current p) (len (p_extents p)) Hm Hc Ho) as (es & Hes & _).
  do 5 (apply safe_rbind; [auto using reserve_safe with moat | intros ? _]). rewrite Hes. cbn [map_err rbind].
  apply safe_rbind; [apply reserve_entries_safe | intros ? _]. apply safe_rbind; [apply safe_map_err, SegmentBuilder_append_safe | intros ? _].
  destruct (extent_safe p (p_current p) Hc) as (e & ->). apply safe_Ok.
Qed.

Lemma encode_frame_safe b seg ms limits buf : segment_ok limits seg ms -> builder_ok b -> safe (encode_frame b seg limits buf).
Proof.
  intros Hs Hb. unfold encode_frame, segment_err, frame_err. apply safe_rbind; [apply safe_map_err, SegmentBuilder_position_safe|].
  intros pos Hp. apply map_err_Ok in Hp. apply (SegmentBuilder_position_ok limits seg ms) in Hp; [|assumption].
  apply safe_rbind; [|intros [b' h] _; apply safe_Ok]. apply safe_map_err.
  destruct (decide (fb_records b = [])) as [He|Hne].
  { unfold FrameBuilder_encode_into, FrameBuilder_is_empty. rewrite He. discriminate. }
  destruct (Z.le_gt_cases (FrameBuilder_encoded_len b) (available pos)) as [Ha|Ha];
    [destruct (Z.le_gt_cases (FrameBuilder_encoded_len b) (len buf)) as [Hl|Hl]|].
  - destruct (encode_into_image b pos buf Hb Hne Hp Ha Hl) as (b' & h & ds & -> & _). apply safe_Ok.
  - unfold FrameBuilder_encode_into. apply safe_rbind; [apply safe_fail_if|]. intros _ _. apply safe_rbind; [apply safe_fail_if|]. intros _ _.
    rewrite (proj2 (Z.ltb_lt _ _)) by lia. discriminate.
  - unfold FrameBuilder_encode_into, check_len. apply safe_rbind; [apply safe_fail_if|]. intros _ _.
    rewrite Z.gtb_ltb, (proj2 (Z.ltb_lt _ _)) by lia. discriminate.
Qed.

Lemma encode_frame_position b seg limits buf pos buf' : encode_frame b seg limits buf = Ok (pos, buf') ->
  exists fl ml, SegmentBuilder_position seg fl ml = Ok pos.
Proof. unfold encode_frame, segment_err, frame_err. intros H. inv_ok. destruct r0. inv_ok. subst. eauto. Qed.

Lemma encode_prepared_safe k n vl required seg ms limits buf : segment_ok limits seg ms -> limits_ok limits -> chunk_id_ok k -> is_u64 n -> is_u32 vl ->
  safe (encode_prepared k n vl required seg limits buf).
Proof.
  intros Hs Hl Hk Hn Hv. unfold encode_prepared, frame_err, segment_err. apply safe_rbind.
  { apply safe_map_err. unfold PreparedFrame_new. apply safe_rbind; [unfold PreparedFrame_required_len; repeat (apply safe_rbind; [apply safe_fail_if | intros ? _]); apply safe_Ok|].
    intros l Hreq. apply safe_rbind; [apply safe_fail_if|]. intros u Hg. apply fail_if_Ok in Hg. boolp. cbv zeta.
    rewrite slice_Ok; [apply safe_Ok | | assumption]. split; [lia|]. unfold PreparedFrame_required_len in Hreq. inv_ok. subst l.
    destruct (vl =? 0); [vm_compute; discriminate | apply align_up_nonneg]. }
  intros f Hf. apply map_err_Ok in Hf. apply (PreparedFrame_new_ok limits Hl) in Hf as (Hok & Hvl & _); [|assumption].
  apply safe_rbind; [apply safe_map_err, SegmentBuilder_position_safe|]. intros pos Hp. apply map_err_Ok in Hp.
  apply (SegmentBuilder_position_ok limits seg ms) in Hp; [|assumption].
  apply safe_rbind; [|intros ? _; apply safe_Ok]. apply safe_map_err.
  destruct (Z.le_gt_cases (len (pf_bytes f)) (available pos)) as [Ha|Ha].
  - destruct (prepared_finish_image limits Hl f pos k n _ Hok Hp Hk Hn Ha eq_refl) as (out & h & -> & _); [|apply safe_Ok].
    destruct Hok as (Hv0 & Hl0 & _ & _ & Hg). pose proof (block_count_bounds (pf_value_len f) ltac:(destruct Hl; lia)). revert Hg. destruct (Z.eqb_spec (pf_value_len f) 0) as [Hz|Hz]; intros Hg; rewrite len_sub; lia.
  - unfold PreparedFrame_finish, check_len. rewrite Z.gtb_ltb, (proj2 (Z.ltb_lt _ _)) by lia. discriminate.
Qed.

Lemma encode_prepared_position k n vl required seg limits buf pos buf' : encode_prepared k n vl required seg limits buf = Ok (pos, buf') ->
  exists fl ml, SegmentBuilder_position seg fl ml = Ok pos.
Proof. unfold encode_prepared, segment_err, frame_err. intros H. inv_ok. subst. eauto. Qed.

(** ** Reads *)

Lemma location_ok p k l n : (forall k l, p_index p !! k = Some l -> loc_ok n l) -> location p k = Ok l -> loc_ok n l.
Proof.
  intros Hl. unfold location. destruct (p_index p !! k) as [l0|] eqn:Hk; [|discriminate]. destruct (is_tombstone _); [discriminate|].
  intros [= <-]. eauto.
Qed.

Lemma location_safe p k : safe (location p k).
Proof. unfold location. destruct (p_index p !! k); [apply safe_if|]; discriminate. Qed.

Lemma verification_range_safe vl r : safe (verification_range vl r).
Proof. unfold verification_range. apply safe_rbind; [apply safe_fail_if|]. intros _ _. apply safe_if; apply safe_Ok. Qed.

Lemma plan_safe t k l r base : safe (VerifiedRead_plan t k l r base).
Proof. unfold VerifiedRead_plan. apply safe_rbind; [apply safe_map_err, verification_range_safe | intros; apply safe_Ok]. Qed.

Lemma direct_extent_safe p k r : (forall k l, p_index p !! k = Some l -> loc_ok (len (p_extents p)) l) -> safe (direct_extent p k r).
Proof.
  intros Hl. unfold direct_extent. apply safe_rbind; [apply location_safe|]. intros l Hk. apply (location_ok p k l _ Hl) in Hk as (Hs & _).
  apply safe_rbind; [apply safe_map_err, safe_fail_if|]. intros _ _. destruct (extent_safe p (loc_segment l) Hs) as (e & ->). apply safe_Ok.
Qed.

(** An extent covers the range it is computed for. *)
Lemma ReadExtent_covers start r : 0 <= start + r.1 < 2 ^ 64 -> 0 <= r.1 <= r.2 -> r.2 < 2 ^ 32 ->
  0 <= re_prefix (ReadExtent_new start r) /\
  (r.1 < r.2 -> re_prefix (ReadExtent_new start r) + (r.2 - r.1) <= re_len (ReadExtent_new start r)).
Proof.
  intros Hs Hr Hr2. unfold ReadExtent_new, range_is_empty. cbn [re_prefix re_len]. set (x := start + r.1) in *.
  assert (Hd : align_down x PAGE_SIZE = x / 4096 * 4096) by (unfold PAGE_SIZE; apply (align_down_floor 12); [lia | reflexivity | unfold is_u64; lia]).
  rewrite Hd. split; [dlia|]. intros Hlt. rewrite (proj2 (Z.ltb_lt _ _)) by assumption. cbn [negb].
  destruct (align_up_page (x - x / 4096 * 4096 + (r.2 - r.1))) as (q & -> & Hq); [dlia | lia].
Qed.

(** The read a plan starts satisfies the invariant of verified reads. *)
Lemma plan_ok t k l range base n v r : loc_ok n l -> 0 <= base < 2 ^ 62 -> 0 <= range.1 ->
  VerifiedRead_plan t k l range base = Ok r -> value_buffer_len r <= len v ->
  vr_ok n (vr_set_value (Some v) r) /\ vr_ticket r = t /\ vr_metadata r = None /\ vr_location r = l.
Proof.
  intros Hl Hb Ha H Hv. unfold VerifiedRead_plan, frame_err in H. apply rbind_Ok_inv in H as ([va vb] & Hr & H). apply map_err_Ok in Hr.
  pose proof Hl as (_ & _ & Hfo & Hvo & Hvl & _). unfold is_u32 in *. destruct range as [a b]. simpl in Ha.
  apply verification_range_spec in Hr as (Hab & Heq & Hlt); [|unfold is_u32; lia | assumption].
  assert (Hver : 0 <= va <= vb /\ (a < b -> va < vb) /\ vb < 2 ^ 32).
  { destruct (Z.eq_dec a b) as [He|He]; [injection (Heq He) as -> ->; lia | destruct (Hlt ltac:(lia)); simpl in *; lia]. }
  injection H as <-. split; [|auto]. constructor; cbn [vr_set_value vr_location vr_verified vr_requested vr_prefix vr_io_len vr_metadata vr_value].
  - assumption.
  - unfold range_is_empty. cbn [fst snd]. split; [lia|]. intros He. boolp. lia.
  - apply (ReadExtent_covers (base + loc_frame_offset l + loc_value_offset l) (va, vb)); simpl; lia.
  - exists v. split; [reflexivity | exact Hv].
Qed.

(** ** Completing a verified read *)

Lemma validate_metadata_ok r limits pos b : vr_metadata r = Some b -> 0 <= loc_ordinal (vr_location r) ->
  match validate_metadata r limits pos with
  | Panic => False
  | Err _ => True
  | Ok r' => exists h, r' = vr_set_header h r /\ loc_metadata_len (vr_location r) <= len b /\ exists rec, validated_record r' = Ok rec
  end.
Proof.
  intros Hb Ho. unfold validate_metadata, frame_err. rewrite Hb. cbn [expect rbind].
  pose proof (Metadata_decode_safe b limits pos) as Hsafe. destruct (Metadata_decode b limits pos) as [m|e|] eqn:Hm; [|exact I | congruence].
  cbn [map_err rbind]. destruct (Metadata_decode_ok _ _ _ _ Hm) as (ds & Hok & Hbytes & Hlen).
  assert (Hrec : exists rec, Metadata_record m (loc_ordinal (vr_location r)) = Ok rec).
  { destruct (Z.lt_ge_cases (loc_ordinal (vr_location r)) (record_count (md_header m))) as [Hlt|Hge].
    - pose proof (mo_count _ _ _ _ Hok) as Hc. unfold len in Hc.
      destruct (lookup_lt_is_Some_2 ds (Z.to_nat (loc_ordinal (vr_location r))) ltac:(lia)) as (d & Hd).
      pose proof (mo_get _ _ _ _ Hok _ _ Hd) as Hget. rewrite Z2Nat.id in Hget by assumption.
      pose proof (Forall_lookup_1 _ _ _ _ (mo_entries _ _ _ _ Hok) Hd) as He.
      rewrite (Metadata_record_view m limits (mo_len _ _ _ _ Hok) ltac:(rewrite <- (mo_len _ _ _ _ Hok); apply len_nonneg) _ d Hlt Hget He). eauto.
    - unfold Metadata_record. rewrite Z.geb_leb, (proj2 (Z.leb_le _ _)) by assumption. eauto. }
  destruct Hrec as (rec & Hrec). rewrite Hrec. cbn [map_err rbind]. destruct rec as [rec|]; cbn [ok_or rbind]; [|exact I].
  destruct (fail_if _ _) as [u|e|] eqn:Hg; cbn [rbind]; [|exact I | destruct (_ || _)%bool; discriminate].
  apply fail_if_Ok in Hg. boolp. eexists. split; [reflexivity|]. split; [lia|]. exists rec.
  unfold validated_record, frame_err. cbn [vr_set_header vr_validated_header vr_metadata vr_location expect rbind]. rewrite Hb. cbn [expect rbind].
  pose proof (metadata_len_pos _ _ (mo_header _ _ _ _ Hok)). rewrite slice_Ok by lia. cbn [rbind]. unfold Metadata_from_validated.
  rewrite <- Hbytes. replace {| md_bytes := md_bytes m; md_header := md_header m |} with m by (destruct m; reflexivity). rewrite Hrec. reflexivity.
Qed.

(** The metadata phase ends with a result or asks for the value. *)
Lemma finish_metadata_ok n r b limits pos : vr_ok n r -> vr_metadata r = None -> vr_metadata_len r <= len b ->
  let '(out, r') := finish_metadata (vr_set_metadata (Some b) r) limits pos in
  out <> Panic /\ vr_ticket r' = vr_ticket r /\ vr_metadata r' = Some b /\ vr_value r' = vr_value r /\
  (out = Ok None -> vr_ok n (vr_set_value None r') /\ exists v, vr_value r' = Some v /\ vr_io_len r' <= len v).
Proof.
  intros Hok Hm Hlen. pose proof (v_loc _ _ Hok) as (_ & Hord & _ & Hvo & _). pose proof (v_range _ _ Hok) as [Hr Hne].
  pose proof (v_phase _ _ Hok) as Hph. rewrite Hm in Hph. destruct Hph as (v & Hv & Hvl). unfold finish_metadata.
  pose proof (validate_metadata_ok (vr_set_metadata (Some b) r) limits pos b eq_refl Hord) as Hval.
  destruct (validate_metadata (vr_set_metadata (Some b) r) limits pos) as [r'|e|]; [|simpl; repeat split; auto; discriminate | contradiction].
  destruct Hval as (h & -> & Hml & rec & Hrec). cbn [vr_set_metadata vr_location] in Hml.
  set (r1 := vr_set_header h (vr_set_metadata (Some b) r)) in *.
  assert (Hemp : range_is_empty (vr_requested r1) = range_is_empty (vr_requested r)) by reflexivity. rewrite Hemp.
  destruct (range_is_empty (vr_requested r)) eqn:He; [repeat split; auto; discriminate|].
  specialize (Hne eq_refl). change (vr_location r1) with (vr_location r). change (vr_verified r1) with (vr_verified r).
  change (vr_metadata_len r1) with (vr_metadata_len r). cbv zeta.
  destruct (Z.gtb_spec (loc_value_offset (vr_location r) + (vr_verified r).2) (vr_metadata_len r)) as [Hg|Hg].
  - split; [discriminate|]. split; [reflexivity|]. split; [reflexivity|]. split; [reflexivity|]. intros _. split.
    + constructor; [apply Hok | split; auto | apply (v_extent _ _ Hok) | split; [exact Hne | exists rec; exact Hrec]].
    + exists v. split; [exact Hv|]. unfold value_buffer_len in Hvl. rewrite He, (proj2 (Z.leb_gt _ _)) in Hvl by lia. exact Hvl.
  - unfold is_u32 in *. change (vr_metadata r1) with (Some b). cbn [expect rbind]. rewrite Hrec. cbn [rbind]. rewrite slice_Ok by lia. cbn [rbind].
    unfold frame_err. match goal with |- context [Record_verify ?a ?b ?c] => pose proof (Record_verify_safe a b c) as Hs; destruct (Record_verify a b c) end;
      [| |congruence]; cbn [map_err rbind]; repeat split; auto; discriminate.
Qed.

Lemma vr_verify_safe n r v : vr_ok n r -> is_Some (vr_metadata r) -> vr_io_len r <= len v ->
  safe (vr_verify (vr_set_value (Some v) r)).
Proof.
  intros Hok [b Hm] Hl. pose proof (v_phase _ _ Hok) as Hph. rewrite Hm in Hph. destruct Hph as (Hne & rec & Hrec).
  pose proof (v_extent _ _ Hok) as [Hp Hx]. specialize (Hx Hne). pose proof (v_range _ _ Hok) as [Hr _].
  unfold vr_verify, frame_err. change (validated_record (vr_set_value (Some v) r)) with (validated_record r). rewrite Hrec.
  cbn [rbind vr_set_value vr_value vr_prefix vr_verified vr_requested expect]. rewrite slice_Ok by lia. cbn [rbind].
  apply safe_rbind; [apply safe_map_err, Record_verify_safe | intros; apply safe_Ok].
Qed.
End Reserve.
