(* ===== verification/PipelineTrace.v ===== *)
(** * Histories of a pipeline

    What callers observe: the tickets admitted and the completions delivered,
    in order. The history invariant ties them to the operations in flight. *)

From stdpp Require Import gmap sorting.
From S2P Require Import Prelude Align ChunkId Checksum Codec FrameFormat FrameDecode SegmentFormat SegmentBuilder.
From S2P Require Import Io Index PipelineState Pipeline PipelineTable PipelineInv.

Inductive Kind := KWrite | KRead | KFlush.
Inductive event := Issued (t : Z) (k : Kind) | Finished (c : Completion).

Definition admitted (evs : list event) : list Z := omap (fun e => match e with Issued t _ => Some t | _ => None end) evs.
Definition finished (evs : list event) : list Z := omap (fun e => match e with Finished c => Some (Completion_ticket c) | _ => None end) evs.

(** The results of the finished writes, in the order of delivery. *)
Definition write_done (evs : list event) : list (Z * presult unit) :=
  omap (fun e => match e with Finished (CWrite t r _) => Some (t, r) | _ => None end) evs.

Definition tickets (slots : list (option Pending)) : list Z := omap (fun x => pending_ticket <$> x) slots.

(** Writes finish in ticket order, and none succeeds after a failed one. *)
Definition write_order (x y : Z * presult unit) : Prop := x.1 < y.1 /\ (x.2 <> Ok tt -> y.2 <> Ok tt).

(** A successful flush is delivered after every write admitted before it was
    delivered successfully. *)
Definition flush_covers (evs : list event) : Prop :=
  forall before after t, evs = before ++ Finished (CFlush t (Ok tt)) :: after ->
    forall w, Issued w KWrite ∈ evs -> w < t -> exists b, Finished (CWrite w (Ok tt) b) ∈ before.

(** What a failed queue leaves: after the first request delivered as failed no
    write is delivered with a result of its own, and a write delivered as
    failed is later than every write delivered with one. *)
Definition failures_last (evs : list event) : Prop :=
  forall before t e after, evs = before ++ Finished (CFailed t e) :: after ->
    write_done after = [] /\ (Issued t KWrite ∈ evs -> Forall (fun x => x.1 < t) (write_done before)).

(** ** Lists *)

Lemma StronglySorted_snoc {A} (R : A -> A -> Prop) l x : StronglySorted R l -> Forall (fun y => R y x) l -> StronglySorted R (l ++ [x]).
Proof.
  intros Hs Hall. induction Hs as [|y l Hs IH Hy]; simpl; [repeat constructor|]. inversion Hall as [|? ? H1 H2]; subst.
  constructor; [auto|]. apply Forall_app. split; [assumption | repeat constructor; assumption].
Qed.

Lemma snoc_split {A} (l a b : list A) (x y : A) : l ++ [x] = a ++ y :: b -> (exists b', b = b' ++ [x] /\ l = a ++ y :: b') \/ (b = [] /\ x = y /\ l = a).
Proof.
  destruct b as [|z b _] using rev_ind; intros H.
  - right. apply app_inj_tail in H as [-> ->]. auto.
  - left. rewrite app_comm_cons, app_assoc in H. apply app_inj_tail in H as [-> ->]. eauto.
Qed.

Lemma elem_of_snoc {A} (l : list A) x y : y ∈ l ++ [x] <-> y ∈ l \/ y = x.
Proof. rewrite elem_of_app, list_elem_of_singleton. reflexivity. Qed.

Lemma admitted_snoc evs e : admitted (evs ++ [e]) = admitted evs ++ match e with Issued t _ => [t] | _ => [] end.
Proof. unfold admitted. rewrite omap_app. destruct e; reflexivity. Qed.
Lemma finished_snoc evs e : finished (evs ++ [e]) = finished evs ++ match e with Finished c => [Completion_ticket c] | _ => [] end.
Proof. unfold finished. rewrite omap_app. destruct e; reflexivity. Qed.
Lemma write_done_snoc evs e : write_done (evs ++ [e]) = write_done evs ++ match e with Finished (CWrite t r _) => [(t, r)] | _ => [] end.
Proof. unfold write_done. rewrite omap_app. destruct e as [|[]]; reflexivity. Qed.

Lemma admitted_in evs t k : Issued t k ∈ evs -> t ∈ admitted evs.
Proof. intros. apply list_elem_of_omap. exists (Issued t k). auto. Qed.
Lemma finished_in evs c : Finished c ∈ evs -> Completion_ticket c ∈ finished evs.
Proof. intros. apply list_elem_of_omap. exists (Finished c). auto. Qed.
Lemma write_done_in evs t r : (t, r) ∈ write_done evs -> exists b, Finished (CWrite t r b) ∈ evs.
Proof.
  intros H. apply list_elem_of_omap in H as (e & Hin & He). destruct e as [|[t' r' b| | |]]; try discriminate. injection He as -> ->. eauto.
Qed.

(** Replacing one slot's operation. *)
Definition slot_tickets (x : option Pending) : list Z := option_list (pending_ticket <$> x).

Lemma tickets_update slots i old new : slots !! i = Some old ->
  Permutation (slot_tickets old ++ tickets (<[i := new]> slots)) (slot_tickets new ++ tickets slots).
Proof.
  assert (Hc : forall x l, tickets (x :: l) = slot_tickets x ++ tickets l) by (intros [x|] l; reflexivity).
  revert i. induction slots as [|y slots IH]; intros [|i] Hi; try discriminate; simpl in Hi.
  - injection Hi as ->. change (<[0%nat := new]> (old :: slots)) with (new :: slots). rewrite !Hc. rewrite !app_assoc, (Permutation_app_comm (slot_tickets old)). reflexivity.
  - change (<[S i := new]> (y :: slots)) with (y :: <[i := new]> slots). rewrite !Hc, !app_assoc, !(Permutation_app_comm _ (slot_tickets y)), <- !app_assoc.
    apply Permutation_app_head, IH, Hi.
Qed.

Lemma tickets_in slots i x : slots !! i = Some (Some x) -> pending_ticket x ∈ tickets slots.
Proof. intros H. apply list_elem_of_omap. exists (Some x). split; [eapply list_elem_of_lookup_2; eassumption | reflexivity]. Qed.

(** ** The history invariant *)

Record history_ok (slots : list (option Pending)) (next : Z) (evs : list event) : Prop := {
  h_admitted : StronglySorted Z.lt (admitted evs);
  h_next : Forall (fun t => t < next) (admitted evs);
  h_tickets : Permutation (admitted evs) (finished evs ++ tickets slots);
  h_writes : StronglySorted write_order (write_done evs);
  h_flush : flush_covers evs
}.

(** Writes not yet delivered are in the ordered list, behind the delivered ones. *)
Record linked (slots : list (option Pending)) (writes : list nat) (failed_at : option Z) (evs : list event) : Prop := {
  l_writes : forall t, Issued t KWrite ∈ evs ->
    (exists i, i ∈ writes /\ slot_ticket slots i = t) \/ exists r b, Finished (CWrite t r b) ∈ evs;
  l_order : forall t r b i, Finished (CWrite t r b) ∈ evs -> i ∈ writes -> t < slot_ticket slots i;
  l_failed : forall t r b, Finished (CWrite t r b) ∈ evs -> r <> Ok tt -> failed_before failed_at t;
  l_working : forall t e, Finished (CFailed t e) ∉ evs
}.

Section History.
Context {slots : list (option Pending)} {next : Z} {evs : list event} (H : history_ok slots next evs).

Lemma finished_admitted t : t ∈ finished evs -> t ∈ admitted evs.
Proof. intros Ht. rewrite (h_tickets _ _ _ H). apply elem_of_app. auto. Qed.

Lemma finished_next t : t ∈ finished evs -> t < next.
Proof. intros Ht. apply finished_admitted in Ht. pose proof (h_next _ _ _ H) as Hn. rewrite Forall_forall in Hn. auto. Qed.

Lemma flush_covers_snoc e : flush_covers evs ->
  (forall t, e = Finished (CFlush t (Ok tt)) -> forall w, Issued w KWrite ∈ evs -> w < t -> exists b, Finished (CWrite w (Ok tt) b) ∈ evs) ->
  (forall t k, e = Issued t k -> Forall (fun f => f < t) (finished evs)) -> flush_covers (evs ++ [e]).
Proof.
  intros Hf Hnew Hlater before after t Hsplit w Hw Hlt. apply snoc_split in Hsplit as [(after' & -> & ->)|(-> & -> & ->)].
  - apply elem_of_snoc in Hw as [Hw|<-]; [eapply Hf; eauto|]. exfalso. specialize (Hlater w KWrite eq_refl). rewrite Forall_forall in Hlater.
    assert (Hin : t ∈ finished (before ++ Finished (CFlush t (Ok tt)) :: after')).
    { apply (finished_in _ (CFlush t (Ok tt))). apply elem_of_app. right. apply elem_of_cons. auto. }
    specialize (Hlater t Hin). lia.
  - apply elem_of_snoc in Hw as [Hw|Hw]; [eauto | discriminate].
Qed.

(** Admission of an operation with the next ticket into a free slot. *)
Lemma history_admit i x k : slots !! i = Some None -> pending_ticket x = next -> history_ok (<[i := Some x]> slots) (next + 1) (evs ++ [Issued next k]).
Proof.
  intros Hi Hx. pose proof (tickets_update slots i None (Some x) Hi) as Ht. unfold slot_tickets in Ht. simpl in Ht. rewrite Hx in Ht. constructor.
  - rewrite admitted_snoc. apply StronglySorted_snoc; [apply H | apply H].
  - rewrite admitted_snoc. apply Forall_app. split; [|repeat constructor; lia]. eapply Forall_impl; [apply H|]. simpl. lia.
  - rewrite admitted_snoc, finished_snoc, app_nil_r, (h_tickets _ _ _ H), Ht. rewrite <- app_assoc. apply Permutation_app_head.
    rewrite Permutation_app_comm. reflexivity.
  - rewrite write_done_snoc, app_nil_r. apply H.
  - apply flush_covers_snoc; [apply H | discriminate|]. intros t k' [= <- <-]. apply Forall_forall. intros t Ht'. apply finished_next. assumption.
Qed.

(** Delivery of the completion of slot [i]. *)
Lemma history_finish i x c : slots !! i = Some (Some x) -> Completion_ticket c = pending_ticket x ->
  (forall t r b, c = CWrite t r b -> Forall (fun y => write_order y (t, r)) (write_done evs)) ->
  (forall t, c = CFlush t (Ok tt) -> forall w, Issued w KWrite ∈ evs -> w < t -> exists b, Finished (CWrite w (Ok tt) b) ∈ evs) ->
  history_ok (<[i := None]> slots) next (evs ++ [Finished c]).
Proof.
  intros Hi Hc Hw Hf. pose proof (tickets_update slots i (Some x) None Hi) as Ht. unfold slot_tickets in Ht. simpl in Ht. constructor.
  - rewrite admitted_snoc, app_nil_r. apply H.
  - rewrite admitted_snoc, app_nil_r. apply H.
  - rewrite admitted_snoc, finished_snoc, app_nil_r, (h_tickets _ _ _ H), <- Ht, <- Hc, <- app_assoc. reflexivity.
  - rewrite write_done_snoc. destruct c; try (rewrite app_nil_r; apply H). apply StronglySorted_snoc; [apply H | eauto].
  - apply flush_covers_snoc; [apply H | | discriminate]. intros t [= ->]. eauto.
Qed.

(** Replacement of an operation by one with the same ticket. *)
Lemma history_same i x y : slots !! i = Some (Some x) -> pending_ticket x = pending_ticket y -> history_ok (<[i := Some y]> slots) next evs.
Proof.
  intros Hi Hxy. pose proof (tickets_update slots i (Some x) (Some y) Hi) as Ht. unfold slot_tickets in Ht. simpl in Ht. rewrite Hxy in Ht.
  apply Permutation_cons_inv in Ht. destruct H. constructor; try assumption. rewrite Ht. assumption.
Qed.

Lemma history_next next' : next <= next' -> history_ok slots next' evs.
Proof. intros Hn. destruct H. constructor; try assumption. eapply Forall_impl; [eassumption|]. simpl. lia. Qed.
End History.

(** ** Following the ordered writes *)

Section Linked.
Context {slots : list (option Pending)} {writes : list nat} {failed_at : option Z} {evs : list event} (L : linked slots writes failed_at evs).

(** Tickets of the listed writes unchanged, and no write event added. *)
Lemma linked_same slots' e : (forall i, i ∈ writes -> slot_ticket slots' i = slot_ticket slots i) ->
  (forall t, e <> Issued t KWrite) -> (forall t r b, e <> Finished (CWrite t r b)) -> (forall t x, e <> Finished (CFailed t x)) ->
  linked slots' writes failed_at (evs ++ [e]).
Proof.
  intros Hs Ha Hf Hx. destruct L as [H1 H2 H3 H4]. constructor.
  - intros t Ht. apply elem_of_snoc in Ht as [Ht|Ht]; [|exfalso; eapply Ha; eauto]. destruct (H1 t Ht) as [(i & Hi & Hti)|(r & b & Hd)].
    + left. exists i. rewrite Hs by assumption. auto.
    + right. exists r, b. apply elem_of_snoc. auto.
  - intros t r b i Ht Hi. apply elem_of_snoc in Ht as [Ht|Ht]; [|exfalso; eapply Hf; eauto]. rewrite Hs by assumption. eauto.
  - intros t r b Ht. apply elem_of_snoc in Ht as [Ht|Ht]; [|exfalso; eapply Hf; eauto]. eauto.
  - intros t x Ht. apply elem_of_snoc in Ht as [Ht|Ht]; [eapply H4; eauto | eapply Hx; eauto].
Qed.

Lemma linked_slots slots' : (forall i, i ∈ writes -> slot_ticket slots' i = slot_ticket slots i) -> linked slots' writes failed_at evs.
Proof.
  intros Hs. destruct L as [H1 H2 H3 H4]. constructor; [| |assumption..].
  - intros t Ht. destruct (H1 t Ht) as [(i & Hi & Hti)|Hd]; [|auto]. left. exists i. rewrite Hs by assumption. auto.
  - intros t r b i Ht Hi. rewrite Hs by assumption. eauto.
Qed.

(** A new failure only lowers the recorded one. *)
Lemma linked_failed f : (forall t, failed_before failed_at t -> failed_before f t) -> linked slots writes f evs.
Proof. intros Hf. destruct L as [H1 H2 H3 H4]. constructor; eauto. Qed.

Lemma linked_admit_write i slots' t : (forall j, j ∈ writes -> slot_ticket slots' j = slot_ticket slots j) -> slot_ticket slots' i = t ->
  Forall (fun f => f < t) (finished evs) -> linked slots' (writes ++ [i]) failed_at (evs ++ [Issued t KWrite]).
Proof.
  intros Hs Ht Hf. destruct L as [H1 H2 H3 H4]. constructor.
  - intros u Hu. apply elem_of_snoc in Hu as [Hu|[= ->]]; [|left; exists i; split; [set_solver | assumption]].
    destruct (H1 u Hu) as [(j & Hj & Hju)|(r & b & Hd)].
    + left. exists j. split; [set_solver|]. rewrite Hs; assumption.
    + right. exists r, b. set_solver.
  - intros u r b j Hu Hj. apply elem_of_snoc in Hu as [Hu|[=]]. apply elem_of_snoc in Hj as [Hj| ->]; [rewrite Hs by assumption; eauto|].
    rewrite Ht. rewrite Forall_forall in Hf. apply Hf. apply (finished_in _ (CWrite u r b)). assumption.
  - intros u r b Hu. apply elem_of_snoc in Hu as [Hu|[=]]. eauto.
  - intros u x Hu. apply elem_of_snoc in Hu as [Hu|[=]]. eapply H4; eauto.
Qed.
End Linked.

(** Delivery of the first listed write. *)
Lemma linked_retire slots slots' slot writes failed_at evs t r b : linked slots (slot :: writes) failed_at evs -> ordered_writes slots (slot :: writes) ->
  slot_ticket slots slot = t -> (forall i, i ∈ writes -> slot_ticket slots' i = slot_ticket slots i) -> (r <> Ok tt -> failed_before failed_at t) ->
  linked slots' writes failed_at (evs ++ [Finished (CWrite t r b)]).
Proof.
  intros [H1 H2 H3 H4] Ho Ht Hs Hr. unfold ordered_writes in Ho. cbn [map] in Ho. apply StronglySorted_inv in Ho as [_ Ho]. rewrite Forall_map, Forall_forall in Ho.
  constructor.
  - intros u Hu. apply elem_of_snoc in Hu as [Hu|[=]]. destruct (H1 u Hu) as [(j & Hj & Hju)|(r' & b' & Hd)].
    + apply elem_of_cons in Hj as [->|Hj]; [right; exists r, b; rewrite <- Hju, Ht; set_solver|]. left. exists j. rewrite Hs; auto.
    + right. exists r', b'. set_solver.
  - intros u r' b' j Hu Hj. rewrite Hs by assumption. apply elem_of_snoc in Hu as [Hu|[= -> -> ->]]; [eapply H2; eauto; set_solver|].
    rewrite <- Ht. apply Ho. assumption.
  - intros u r' b' Hu. apply elem_of_snoc in Hu as [Hu|[= -> -> ->]]; eauto.
  - intros u x Hu. apply elem_of_snoc in Hu as [Hu|[=]]. eapply H4; eauto.
Qed.

(** The delivered write's result fits the order of those before it. *)
Lemma linked_order slots slot writes failed_at evs t (r' : presult unit) : linked slots (slot :: writes) failed_at evs -> slot_ticket slots slot = t ->
  (forall f, failed_at = Some f -> f < t -> r' <> Ok tt) -> Forall (fun y => write_order y (t, r')) (write_done evs).
Proof.
  intros [_ H2 H3 _] Ht Hr. apply Forall_forall. intros [u ru] Hu. apply write_done_in in Hu as (b & Hu). unfold write_order. cbn [fst snd].
  assert (Hlt : u < t) by (rewrite <- Ht; eapply H2; eauto; set_solver). split; [assumption|]. intros Hru.
  destruct (H3 _ _ _ Hu Hru) as (f & Hf & Hle). apply (Hr f Hf). lia.
Qed.

(** ** After a failure *)

Lemma working_failures_last evs : (forall t e, Finished (CFailed t e) ∉ evs) -> failures_last evs.
Proof. intros Hn before t e after ->. exfalso. eapply Hn. apply elem_of_app. right. apply elem_of_cons. left. reflexivity. Qed.

(** Writes in flight are later than every write delivered with a result. *)
Definition leads (slots : list (option Pending)) (evs : list event) : Prop :=
  forall t u r b, Issued t KWrite ∈ evs -> t ∈ tickets slots -> Finished (CWrite u r b) ∈ evs -> u < t.

Lemma linked_leads slots writes failed_at next evs : history_ok slots next evs -> linked slots writes failed_at evs -> leads slots evs.
Proof.
  intros H [H1 H2 _ _] t u r b Ht Hin Hu. destruct (H1 t Ht) as [(i & Hi & <-)|(r' & b' & Hd)]; [eauto|]. exfalso.
  pose proof (sorted_nodup _ (h_admitted _ _ _ H)) as Hnd. rewrite (h_tickets _ _ _ H) in Hnd. apply NoDup_app in Hnd as (_ & Hx & _).
  eapply Hx; [|exact Hin]. apply (finished_in _ _ Hd).
Qed.

Lemma failures_last_snoc slots evs t e : failures_last evs -> leads slots evs -> t ∈ tickets slots -> failures_last (evs ++ [Finished (CFailed t e)]).
Proof.
  intros Hf Hl Ht before u x after Hs. apply snoc_split in Hs as [(after' & -> & ->)|(-> & [= -> ->] & ->)].
  - destruct (Hf before u x after' eq_refl) as [H1 H2]. rewrite write_done_snoc, app_nil_r. split; [assumption|].
    intros Hu. apply elem_of_snoc in Hu as [Hu|[=]]. auto.
  - split; [reflexivity|]. intros Hu. apply elem_of_snoc in Hu as [Hu|[=]]. apply Forall_forall. intros [w r] Hw. apply write_done_in in Hw as (b & Hw). eauto.
Qed.

Lemma leads_step slots slots' evs c : leads slots evs -> (forall t, t ∈ tickets slots' -> t ∈ tickets slots) -> (forall t r b, c <> CWrite t r b) ->
  leads slots' (evs ++ [Finished c]).
Proof.
  intros Hl Hs Hc t u r b Ht Hin Hu. apply elem_of_snoc in Ht as [Ht|[=]]. apply elem_of_snoc in Hu as [Hu|Hu]; [eauto|]. exfalso. injection Hu as <-. eapply Hc. reflexivity.
Qed.
