(* ===== verification/PipelineAdmit.v ===== *)
(** * Admission keeps the pipeline sound

    Writes, reads and barriers admitted by a sound pipeline: none panics, and
    the invariant and the history invariant hold after each. *)

From stdpp Require Import gmap.
From S2P Require Import Prelude Align ChunkId Checksum Codec FrameFormat FrameDecode FrameBuilder FrameBuilderProofs SegmentFormat SegmentBuilder SegmentProofs.
From S2P Require Import Io Index PipelineState Pipeline PipelineTable PipelineInv PipelineLemmas PipelineTrace.

(** Reads through the field setters. *)
Ltac fields :=
  cbn [p_queue p_extents p_current p_limits p_segment p_index p_slots p_free p_writes p_ready_reads p_flush p_sync_enabled p_next_ticket p_serving
       p_failed_at p_queue_failed p_fatal p_failed_cursor p_control p_control_active p_control_done p_maintenance p_budget p_resources
       p_pending_entries p_pending_new p_keys set_queue set_extents set_current set_limits set_segment set_index set_slots set_free set_writes
       set_ready_reads set_flush set_sync_enabled set_next_ticket set_serving set_failed_at set_queue_failed set_fatal set_failed_cursor
       set_control set_control_active set_control_done set_maintenance set_budget set_resources set_pending_entries set_pending_new set_keys] in *.

(** Invariant components a change does not touch. *)
Ltac keep K := constructor; fields; try apply K; unfold extents_ok in *; fields; try apply K.

Section Admit.
Context {Q : Type} {QI : Queue Q} {QS : QueueSpec Q} {C : CrcFast} (try_reserve : Z -> bool).
Implicit Types p : Pipeline Q.

Record live p (evs : list event) : Prop := {
  v_ok : pipe_ok p;
  v_history : history_ok (p_slots p) (p_next_ticket p) evs;
  v_linked : linked (p_slots p) (p_writes p) (p_failed_at p) evs
}.

Lemma admission_ok p w t : admission p w = Ok t ->
  t = p_next_ticket p /\ p_queue_failed p = false /\ (exists slot free, p_free p = slot :: free) /\ vacant (p_queue p) <> 0 /\ (p_maintenance p = true -> 2 <= vacant (p_queue p)) /\
  (w = true -> is_Some (p_segment p) /\ p_failed_at p = None /\ p_flush p = None).
Proof.
  unfold admission. intros H. inv_ok. boolp. split; [auto|]. split; [assumption|]. split; [destruct (p_free p); [rewrite len_nil in *; congruence | eauto]|].
  split; [assumption|]. split.
  - intros Hm. match goal with Ha : (p_maintenance p && _)%bool = false |- _ => rewrite Hm in Ha; apply Z.leb_gt in Ha; lia end.
  - intros ->. inv_ok. destruct (p_segment p); [|discriminate]. destruct (p_failed_at p); [discriminate|]. destruct (p_flush p); [discriminate|]. eauto.
Qed.

Lemma admission_safe p w : safe (admission p w).
Proof.
  unfold admission. apply safe_rbind; [apply safe_fail_if|]. intros _ _. apply safe_rbind.
  - destruct w; [|apply safe_Ok]. apply safe_rbind; [apply safe_fail_if|]. intros _ _. apply safe_rbind; [|intros; apply safe_fail_if].
    destruct (p_failed_at p); discriminate.
  - intros _ _. repeat (apply safe_rbind; [apply safe_fail_if | intros ? _]). apply safe_Ok.
Qed.

Section Live.
Context {p : Pipeline Q} {evs : list event} (V : live p evs).
Let K := v_ok _ _ V.

Lemma live_table : table_ok (p_slots p) (p_free p) (p_writes p) (p_ready_reads p) (p_flush p) (accepted (p_queue p)) (p_control_active p) (depth (p_queue p)).
Proof. exact (k_table _ K). Qed.

Lemma free_slot slot free : p_free p = slot :: free -> p_slots p !! slot = Some None /\ slot ∉ p_writes p.
Proof.
  intros Hf. destruct (tracks_in _ _ _ slot (t_free _ _ _ _ _ _ _ _ live_table)) as (x & Hx & Hfree); [rewrite Hf; apply elem_of_cons; auto|].
  destruct x; [discriminate|]. split; [assumption|]. eapply tracks_not; [apply live_table | eassumption | reflexivity].
Qed.

Lemma write_ticket_next j : j ∈ p_writes p -> slot_ticket (p_slots p) j < p_next_ticket p.
Proof.
  intros Hj. destruct (tracks_in _ _ _ j (t_writes _ _ _ _ _ _ _ _ live_table) Hj) as (x & Hx & Hw). destruct x as [x|]; [|discriminate].
  unfold slot_ticket. rewrite Hx. apply (d_pending _ _ _ _ _ _ _ _ _ (k_data _ K) j x Hx).
Qed.

Lemma slot_ticket_other i old new j : p_slots p !! i = Some old -> i ∉ p_writes p -> j ∈ p_writes p ->
  slot_ticket (<[i := new]> (p_slots p)) j = slot_ticket (p_slots p) j.
Proof. intros Hi Hni Hj. rewrite (slot_ticket_update _ _ _ _ j Hi). destruct (decide (i = j)) as [->|]; [contradiction | reflexivity]. Qed.

(** A slot without a write can change without any effect on the flags of
    writes and barriers elsewhere. *)
Lemma sync_other i old new t j : p_slots p !! i = Some old -> (forall u, new <> Some (PFlush u true)) ->
  <[i := new]> (p_slots p) !! j = Some (Some (PFlush t true)) -> p_writes p = [] /\ p_failed_at p = None.
Proof.
  intros Hi Hn Hj. rewrite (lookup_update _ _ _ _ j Hi) in Hj. destruct (decide (i = j)); [injection Hj as ->; exfalso; eapply Hn; reflexivity|].
  eapply k_sync; [exact K | eassumption].
Qed.

Lemma failed_other i old new j w r b : p_slots p !! i = Some old -> (forall w r b, new = Some (PWrite w) -> w_completed w = Some (r, b) -> r <> Ok tt -> failed_before (p_failed_at p) (w_ticket w)) ->
  <[i := new]> (p_slots p) !! j = Some (Some (PWrite w)) -> w_completed w = Some (r, b) -> r <> Ok tt -> failed_before (p_failed_at p) (w_ticket w).
Proof.
  intros Hi Hn Hj. rewrite (lookup_update _ _ _ _ j Hi) in Hj. destruct (decide (i = j)); [injection Hj as ->; eauto|].
  eapply k_failed; [exact K | eassumption].
Qed.

(** A read enters the queue. *)
Lemma live_read slot free x q' sh : p_free p = slot :: free -> vacant (p_queue p) <> 0 -> (p_maintenance p = true -> 2 <= vacant (p_queue p)) ->
  (exists r, x = PRead r) \/ (exists r, x = PVerifiedRead r) -> pending_ticket x = p_next_ticket p ->
  pending_ok (p_index p) (len (p_extents p)) (p_next_ticket p + 1) x ->
  sh_token sh = Z.of_nat slot -> expects x sh -> queue_ok q' -> depth q' = depth (p_queue p) -> Permutation (accepted q') (sh :: accepted (p_queue p)) ->
  live (set_queue q' (set_next_ticket (p_next_ticket p + 1) (set_slots (<[slot := Some x]> (p_slots p)) (set_free free (set_serving true p)))))
    (evs ++ [Issued (p_next_ticket p) KRead]).
Proof.
  intros Hf Hv Hm Hx Ht Hp Hst He Hq Hd Hperm. destruct (free_slot slot free Hf) as [Hs Hnw].
  assert (Hflags : queued (Some x) = true /\ is_write (Some x) = false /\ is_ready (Some x) = false /\ is_flush (Some x) = false /\
            slot_entries (Some x) = 0 /\ slot_new (Some x) = 0 /\ (forall u, Some x <> Some (PFlush u true)) /\ forall w, Some x <> Some (PWrite w)).
  { destruct Hx as [[r ->]|[r ->]]; repeat split; auto; intros; discriminate. }
  destruct Hflags as (Fq & Fw & Fr & Ff & Fe & Fn & Ffl & Fwr).
  assert (T' : table_ok (<[slot := Some x]> (p_slots p)) free (p_writes p) (p_ready_reads p) (p_flush p) (accepted q') (p_control_active p) (depth q')).
  { rewrite Hd. eapply (table_enqueue live_table slot None x sh); eauto; unfold change; rewrite ?Fw, ?Fr, ?Ff, ?Hf; cbn; reflexivity. }
  constructor; fields.
  - keep K; try assumption.
    + intros i t Hi Hit. rewrite (lookup_update _ _ _ _ i Hs) in Hit. destruct (decide (slot = i)) as [->|Hne]; [injection Hit as ->; destruct Hx as [[r [=]]|[r [=]]]|].
      rewrite Hd. pose proof (nonwrites_le (accepted q')). destruct (vacant_accepted _ (k_queue _ K)) as [Hva _].
      destruct (Bool.bool_dec (p_control_active p) true) as [Hca|Hca%not_true_is_false].
      * specialize (Hm (k_maint _ K (or_intror Hca))). pose proof (nonwrites_cons _ _ _ Hperm). pose proof (nonwrites_le (accepted (p_queue p))).
        destruct (nonwrite sh); lia.
      * pose proof (len_acc T') as Hla. rewrite Hca in Hla.
        pose proof (tracks_bound _ _ _ [i] (t_queued _ _ _ _ _ _ _ _ T') (NoDup_singleton i)) as Hb.
        pose proof (t_len _ _ _ _ _ _ _ _ T'). cbn [length] in Hb. unfold len in *.
        assert (forall j, j ∈ [i] -> exists x0, <[slot := Some x]> (p_slots p) !! j = Some x0 /\ queued x0 = false) as Hav.
        { intros j Hj. apply list_elem_of_singleton in Hj as ->. exists (Some (PFlush t false)). rewrite list_lookup_insert_ne by assumption. auto. }
        specialize (Hb Hav). lia.
    + eapply data_slot_same; [eapply data_next; [apply K | lia] | exact Hs | | rewrite Fe; reflexivity | rewrite Fn; reflexivity].
      intros y [= <-]. assumption.
    + eapply ordered_writes_other; [exact Hs | assumption | apply K].
    + intros i t Hi. eapply sync_other; eauto.
    + intros i w r b Hi. eapply failed_other; eauto. intros w' ? ? Hw'. exfalso. eapply Fwr. eauto.
  - apply history_admit; [apply V | assumption | assumption].
  - eapply linked_same; [apply V | | congruence..]. intros j Hj. eapply slot_ticket_other; eauto.
Qed.

(** A read of no bytes is ready at once. *)
Lemma live_empty slot free t b : p_free p = slot :: free -> t = p_next_ticket p ->
  live (set_ready_reads (p_ready_reads p ++ [slot]) (set_next_ticket (p_next_ticket p + 1)
         (set_slots (<[slot := Some (PEmptyRead t b)]> (p_slots p)) (set_free free (set_serving true p)))))
    (evs ++ [Issued (p_next_ticket p) KRead]).
Proof.
  intros Hf ->. destruct (free_slot slot free Hf) as [Hs Hnw]. constructor; fields.
  - keep K; try assumption.
    + eapply (table_local live_table slot None); eauto; unfold change; cbn; rewrite ?Hf; try reflexivity. rewrite Permutation_app_comm. reflexivity.
    + intros i t Hi Hit. rewrite (lookup_update _ _ _ _ i Hs) in Hit. destruct (decide (slot = i)); [discriminate|]. eapply k_barrier; eauto.
    + eapply data_slot_same; [eapply data_next; [apply K | lia] | exact Hs | | reflexivity | reflexivity]. intros y [= <-]. split; [simpl; lia | exact I].
    + eapply ordered_writes_other; [exact Hs | assumption | apply K].
    + intros i t Hi. eapply sync_other; eauto. discriminate.
    + intros i w r b' Hi. eapply failed_other; eauto. discriminate.
  - apply history_admit; [apply V | assumption | reflexivity].
  - eapply linked_same; [apply V | | congruence..]. intros j Hj. eapply slot_ticket_other; eauto.
Qed.

(** A barrier waits for the writes before it. *)
Lemma live_flush slot free t : p_free p = slot :: free -> t = p_next_ticket p -> p_flush p = None -> vacant (p_queue p) <> 0 ->
  live (set_flush (Some slot) (set_next_ticket (p_next_ticket p + 1)
         (set_slots (<[slot := Some (PFlush t false)]> (p_slots p)) (set_free free (set_serving true p)))))
    (evs ++ [Issued (p_next_ticket p) KFlush]).
Proof.
  intros Hf -> Hfl Hv. destruct (free_slot slot free Hf) as [Hs Hnw]. constructor; fields.
  - keep K; try assumption.
    + eapply (table_local live_table slot None); eauto; unfold change; cbn; rewrite ?Hf, ?Hfl; reflexivity.
    + intros i t _ _. destruct (vacant_accepted _ (k_queue _ K)) as [Hva Hv0]. pose proof (nonwrites_le (accepted (p_queue p))). lia.
    + eapply data_slot_same; [eapply data_next; [apply K | lia] | exact Hs | | reflexivity | reflexivity]. intros y [= <-]. split; [simpl; lia | exact I].
    + eapply ordered_writes_other; [exact Hs | assumption | apply K].
    + intros i t Hi. eapply sync_other; eauto. discriminate.
    + intros i w r b' Hi. eapply failed_other; eauto. discriminate.
  - apply history_admit; [apply V | assumption | reflexivity].
  - eapply linked_same; [apply V | | congruence..]. intros j Hj. eapply slot_ticket_other; eauto.
Qed.

(** A write enters the queue, behind the writes before it. *)
Lemma live_write slot free w seg ms q' sh : p_free p = slot :: free -> p_flush p = None -> p_extents p <> [] ->
  w_ticket w = p_next_ticket p -> w_completed w = None -> segment_ok (p_limits p) seg ms ->
  pending_ok (p_index p) (len (p_extents p)) (p_next_ticket p + 1) (PWrite w) ->
  Z.of_nat (size (p_index p)) + (p_pending_new p + w_reserved_new w) <= rl_index_entries (p_resources p) ->
  p_pending_entries p + len (w_entries w) <= rl_pending_records (p_resources p) ->
  sh_token sh = Z.of_nat slot -> expects (PWrite w) sh -> queue_ok q' -> depth q' = depth (p_queue p) -> Permutation (accepted q') (sh :: accepted (p_queue p)) ->
  live (set_queue q' (set_writes (p_writes p ++ [slot]) (set_next_ticket (p_next_ticket p + 1) (set_slots (<[slot := Some (PWrite w)]> (p_slots p)) (set_free free (set_serving true
         (set_pending_new (p_pending_new p + w_reserved_new w) (set_pending_entries (p_pending_entries p + len (w_entries w)) (set_segment (Some seg) p)))))))))
    (evs ++ [Issued (p_next_ticket p) KWrite]).
Proof.
  intros Hf Hfl Hext Ht Hc Hseg Hp HE HR Hst He Hq Hd Hperm. destruct (free_slot slot free Hf) as [Hs Hnw].
  assert (Hnoflush : forall i x, p_slots p !! i = Some x -> is_flush x = false).
  { intros i x Hi. destruct (is_flush x) eqn:Hx; [|reflexivity]. exfalso. pose proof (t_flush _ _ _ _ _ _ _ _ live_table) as [_ Hfs]. rewrite Hfl in Hfs.
    assert (i ∈ @nil nat) as Hin by (apply Hfs; eauto). inversion Hin. }
  constructor; fields.
  - keep K; try assumption.
    + rewrite Hd. eapply (table_enqueue live_table slot None (PWrite w) sh); eauto; unfold change; cbn; rewrite ?Hc, ?Hf; try reflexivity.
      rewrite Permutation_app_comm. reflexivity.
    + congruence.
    + eapply data_slot; [eapply data_next; [apply K | lia] | exact Hs | | simpl; lia | simpl; lia | assumption | assumption].
      intros y [= <-]. assumption.
    + eapply ordered_writes_snoc; [exact Hs | assumption | apply K|]. intros j Hj. simpl. rewrite Ht. apply write_ticket_next. assumption.
    + intros b [= <-]. eauto.
    + intros i t Hi. rewrite (lookup_update _ _ _ _ i Hs) in Hi. destruct (decide (slot = i)); [discriminate|]. apply Hnoflush in Hi. discriminate.
    + intros i w' r b' Hi. eapply failed_other; eauto. intros w0 r0 b0 [= <-]. congruence.
  - apply history_admit; [apply V | assumption | assumption].
  - eapply linked_admit_write; [apply V | | | ].
    + intros j Hj. eapply slot_ticket_other; eauto.
    + rewrite (slot_ticket_update _ _ _ _ slot Hs), decide_True by reflexivity. assumption.
    + apply Forall_forall. intros t Htf. eapply finished_next; [apply V | assumption].
Qed.

(** The queue takes a request whenever admission saw a vacancy. *)
Lemma submit_accepts slot op off l buf : vacant (p_queue p) <> 0 ->
  exists q', try_submit (p_queue p) {| token := Z.of_nat slot; operation := op; req_offset := off; req_len := l; buffer := buf |} = inl q' /\
    queue_ok q' /\ depth q' = depth (p_queue p) /\ Permutation (accepted q') ((Z.of_nat slot, op, off, l, len <$> buf) :: accepted (p_queue p)).
Proof.
  intros Hv. destruct (vacant_accepted _ (k_queue _ K)) as [_ H0].
  destruct (submit_ok (p_queue p) {| token := Z.of_nat slot; operation := op; req_offset := off; req_len := l; buffer := buf |} (k_queue _ K) ltac:(lia)) as (q' & Hq & H1 & H2 & H3).
  exists q'. auto.
Qed.

(** Outcome of an admission: refused, or admitted with the next ticket. *)
Definition admits {E} (k : Kind) (m : res E (Z * Pipeline Q)) : Prop :=
  match m with Ok (t, p') => live p' (evs ++ [Issued t k]) | Err _ => True | Panic => False end.

Lemma admits_map_err {E F} k (f : E -> F) m : admits k m -> admits k (map_err f m).
Proof. destruct m as [[t p']| |]; auto. Qed.

Lemma admits_bind {E A} k (m : res E A) f : safe m -> (forall a, m = Ok a -> admits k (f a)) -> admits k (rbind m f).
Proof. destruct m; simpl; intros Hs Hf; [auto | exact I | congruence]. Qed.

Lemma flush_admits : admits KFlush (flush p).
Proof.
  unfold flush. apply admits_bind; [apply admission_safe|]. intros t Ha. apply admission_ok in Ha as (-> & _ & (slot & free & Hf) & Hv & _).
  apply admits_bind; [destruct (p_failed_at p); discriminate|]. intros _ _. apply admits_bind; [apply safe_fail_if|]. intros u Hu. apply fail_if_Ok in Hu.
  unfold take_slot. rewrite Hf, (proj1 (free_slot slot free Hf)). cbn [rbind expect]. simpl.
  apply (live_flush slot free); auto. destruct (p_flush p); [discriminate | reflexivity].
Qed.

Lemma submit_frame_admits buf encode :
  (forall seg ms, p_segment p = Some seg -> segment_ok (p_limits p) seg ms -> safe (encode seg (p_limits p) buf)) ->
  (forall seg pos buf', p_segment p = Some seg -> encode seg (p_limits p) buf = Ok (pos, buf') -> exists fl ml, SegmentBuilder_position seg fl ml = Ok pos) ->
  admits KWrite (submit_frame try_reserve p buf encode).
Proof.
  intros Hsafe Hpos. unfold submit_frame. apply admits_bind.
  { apply safe_map_err, safe_rbind; [apply admission_safe|]. intros t Ha. apply admission_ok in Ha as (_ & _ & _ & _ & _ & Hw). destruct (Hw eq_refl) as ([seg Hseg] & _).
    rewrite Hseg. cbn [expect rbind]. destruct (k_segment _ K seg Hseg) as [[ms Hms] _]. apply safe_rbind; [eauto|]. intros [pos b] _. apply safe_Ok. }
  intros [[[t seg] pos] buf'] H1. apply map_err_Ok in H1. apply rbind_Ok_inv in H1 as (t' & Ha & H1). apply admission_ok in Ha as (-> & _ & (slot & free & Hf) & Hv & Hm & Hw).
  destruct (Hw eq_refl) as ([seg0 Hseg] & Hfa & Hfl). rewrite Hseg in H1. cbn [expect rbind] in H1. apply rbind_Ok_inv in H1 as ([pos0 b0] & He & H1).
  injection H1 as <- <- <- <-. destruct (k_segment _ K seg0 Hseg) as [[ms Hms] Hext]. destruct (Hpos _ _ _ Hseg He) as (fl & ml & Hp).
  apply (SegmentBuilder_position_ok (p_limits p) seg0 ms) in Hp; [|assumption]. destruct (k_extents _ K) as (Hx & Hc & _). specialize (Hc Hext).
  destruct (k_resources _ K) as [HE HR].
  apply admits_bind; [apply safe_map_err, prepare_write_safe; auto; destruct Hp; unfold is_u32; lia|]. intros [[[w off] l] seg'] Hw1. apply map_err_Ok in Hw1.
  destruct (prepare_write_ok try_reserve p _ _ ms _ _ _ _ _ _ Hms Hp HE HR Hc Hx Hw1) as (Ht & Hcomp & Hloc & Hfresh & HEn & HRn & m & _ & Hseg' & _).
  apply admits_map_err.  unfold take_slot. fields. rewrite Hf, (proj1 (free_slot slot free Hf)). cbn [rbind expect]. unfold submit. fields.
  destruct (submit_accepts slot io.Write off l (Some b0) Hv) as (q' & Hq & Hqok & Hd & Hperm). rewrite Hq. cbn [rbind]. unfold admits.
  eapply live_write; eauto; [split; [simpl; lia | auto] | reflexivity | split; [reflexivity | simpl; eauto]].
Qed.

Lemma write_admits b buf : builder_ok b -> admits KWrite (write try_reserve p b buf).
Proof.
  intros Hb. unfold write. apply admits_bind; [apply safe_fail_if|]. intros _ _. apply submit_frame_admits.
  - intros seg ms _ Hms. eapply encode_frame_safe; eassumption.
  - intros seg pos b' _. apply encode_frame_position.
Qed.

Lemma write_prepared_admits k n vl buf : chunk_id_ok k -> is_u64 n -> is_u32 vl -> admits KWrite (write_prepared try_reserve p k n vl buf).
Proof.
  intros Hk Hn Hvl. unfold write_prepared. apply admits_bind.
  { apply safe_map_err. unfold PreparedFrame_required_len. repeat (apply safe_rbind; [apply safe_fail_if | intros ? _]). apply safe_Ok. }
  intros req _. apply admits_bind; [apply safe_fail_if|]. intros _ _. apply submit_frame_admits.
  - intros seg ms _ Hms. eapply encode_prepared_safe; eauto. apply K.
  - intros seg pos b' _. apply encode_prepared_position.
Qed.

Lemma read_direct_admits k r bufs : admits KRead (read_direct p k r bufs).
Proof.
  unfold read_direct. apply admits_map_err, admits_bind; [apply admission_safe|]. intros t Ha. apply admission_ok in Ha as (-> & _ & (slot & free & Hf) & Hv & Hm & _).
  apply admits_bind; [apply direct_extent_safe, K|]. intros ext _. apply admits_bind; [apply safe_fail_if|]. intros _ _.
  unfold take_slot. rewrite Hf, (proj1 (free_slot slot free Hf)). cbn [expect rbind]. destruct (re_len ext =? 0); cbn [rbind].
  - unfold admits. fields. apply (live_empty slot free); auto.
  - unfold submit. fields. destruct (submit_accepts slot io.Read (re_offset ext) (re_len ext) (Some (rb_value bufs)) Hv) as (q' & -> & Hqok & Hd & Hperm).
    cbn [rbind]. unfold admits. eapply live_read; eauto; [split; [simpl; lia | exact I] | reflexivity | split; [reflexivity | simpl; eauto]].
Qed.

Lemma read_verified_admits k r bufs : 0 <= r.1 -> admits KRead (read_verified p k r bufs).
Proof.
  intros Hr. pose proof (d_locs _ _ _ _ _ _ _ _ _ (k_data _ K)) as Hlocs.
  unfold read_verified. apply admits_map_err, admits_bind; [apply admission_safe|]. intros t Ha. apply admission_ok in Ha as (-> & _ & (slot & free & Hf) & Hv & Hm & _).
  apply admits_bind; [apply location_safe|]. intros l Hl. apply (location_ok p k l _ Hlocs) in Hl. pose proof Hl as (Hs & _).
  destruct (extent_safe p (loc_segment l) Hs) as (e & He). rewrite He. cbn [rbind].
  assert (Hbase : 0 <= ext_base e < 2 ^ 62).
  { destruct (k_extents _ K) as (_ & _ & Hb). unfold extent in He. apply expect_Ok in He. apply (Forall_lookup_1 _ _ _ _ Hb He). }
  apply admits_bind; [apply plan_safe|]. intros vr Hplan. apply admits_bind; [apply safe_fail_if|]. intros u1 Hg1. apply fail_if_Ok in Hg1.
  apply admits_bind; [apply safe_fail_if|]. intros u2 Hg2. apply fail_if_Ok in Hg2. boolp.
  destruct (plan_ok _ k l r (ext_base e) (len (p_extents p)) (rb_value bufs) vr Hl Hbase Hr Hplan ltac:(lia)) as (Hok & Ht & Hmd & Hloc).
  unfold take_slot. rewrite Hf, (proj1 (free_slot slot free Hf)). cbn [rbind expect]. unfold submit. fields.
  destruct (submit_accepts slot io.Read (ext_base e + loc_frame_offset l) (vr_metadata_len vr) (rb_metadata bufs) Hv) as (q' & -> & Hqok & Hd & Hperm).
  cbn [rbind]. unfold admits.
  assert (Hbuf : exists n, len <$> rb_metadata bufs = Some n /\ vr_metadata_len vr <= n).
  { destruct (rb_metadata bufs) as [b|]; [simpl; eauto|]. exfalso. unfold vr_metadata_len in Hg1. rewrite Hloc in Hg1.
    destruct Hl as (_ & _ & _ & _ & _ & Hml). destruct (align_up_page (loc_metadata_len l)) as (q & Hq & Hqb); lia. }
  eapply live_read; eauto; [split; [simpl; lia | exact Hok] | reflexivity|].
  split; [reflexivity|]. simpl. rewrite Hmd. exact Hbuf.
Qed.

Lemma read_admits k r verify bufs : 0 <= r.1 -> admits KRead (read p k r verify bufs).
Proof. intros Hr. unfold read. destruct verify; [apply read_verified_admits; assumption | apply read_direct_admits]. Qed.
End Live.
End Admit.
