(* ===== verification/PipelineComplete.v ===== *)
(** * Taking completions from the queue

    Every completion the queue hands back belongs to a live operation, and
    handling it keeps the pipeline sound. *)

From stdpp Require Import gmap sorting.
From S2P Require Import Prelude Align ChunkId Checksum Codec FrameFormat FrameDecode SegmentFormat SegmentBuilder.
From S2P Require Import Io Index PipelineState Pipeline PipelineTable PipelineInv PipelineLemmas PipelineTrace PipelineAdmit.

(** ** Retiring writes, starting barriers and lifecycle requests

    The parts of a poll that do not take completions from the queue. *)

Section Retire.
Context {Q : Type} {QI : Queue Q} {QS : QueueSpec Q} {C : CrcFast}.
Implicit Types p : Pipeline Q.

(** The result a write is delivered with: writes behind a failure fail. *)
Definition fenced p (w : Write) (result : presult unit) : presult unit :=
  match p_failed_at p with
  | Some f => if w_ticket w >? f then Err (pipeline.WriteFailed f) else result
  | None => result
  end.

Section Live.
Context {p : Pipeline Q} {evs : list event} (V : live p evs).
Let K := v_ok _ _ V.

Lemma head_write slot writes : p_writes p = slot :: writes -> exists w, p_slots p !! slot = Some (Some (PWrite w)).
Proof.
  intros Hw. destruct (tracks_in _ _ _ slot (t_writes _ _ _ _ _ _ _ _ (live_table V))) as (x & Hx & Hi); [rewrite Hw; apply elem_of_cons; auto|].
  destruct x as [[]|]; try discriminate. eauto.
Qed.

Lemma no_sync slot writes : p_writes p = slot :: writes -> forall i t, p_slots p !! i <> Some (Some (PFlush t true)).
Proof. intros Hw i t Hi. destruct (k_sync _ K i t Hi) as [He _]. congruence. Qed.

Lemma fenced_failed w r slot b : p_slots p !! slot = Some (Some (PWrite w)) -> w_completed w = Some (r, b) ->
  fenced p w r <> Ok tt -> failed_before (p_failed_at p) (w_ticket w).
Proof.
  intros Hs Hc Hr. unfold fenced in Hr. destruct (p_failed_at p) as [f|] eqn:Hf; [destruct (Z.gtb_spec (w_ticket w) f)|].
  - exists f. split; [reflexivity | lia].
  - rewrite <- Hf. eapply k_failed; eauto.
  - rewrite <- Hf. eapply k_failed; eauto.
Qed.

(** Delivery of the first write once its transfer completed. *)
Lemma live_retire slot writes w r b index keys : p_writes p = slot :: writes -> p_slots p !! slot = Some (Some (PWrite w)) -> w_completed w = Some (r, b) ->
  (index, keys) = (match fenced p w r with Ok _ => apply (p_index p) (p_keys p) (w_entries w) | _ => (p_index p, p_keys p) end) ->
  live (set_free (slot :: p_free p) (set_keys keys (set_index index (set_pending_new (p_pending_new p - w_reserved_new w)
         (set_pending_entries (p_pending_entries p - len (w_entries w)) (set_slots (<[slot := None]> (p_slots p)) (set_writes writes p)))))))
    (evs ++ [Finished (CWrite (w_ticket w) (fenced p w r) b)]).
Proof.
  intros Hw Hs Hc Hidx. assert (Hst : slot_ticket (p_slots p) slot = w_ticket w) by (unfold slot_ticket; rewrite Hs; reflexivity).
  pose proof (t_writes _ _ _ _ _ _ _ _ (live_table V)) as [Hnd _]. rewrite Hw in Hnd. apply NoDup_cons in Hnd as [Hni _].
  assert (Hoth : forall i, i ∈ writes -> slot_ticket (<[slot := None]> (p_slots p)) i = slot_ticket (p_slots p) i).
  { intros i Hi. rewrite (slot_ticket_update _ _ _ _ i Hs). destruct (decide (slot = i)) as [->|]; [contradiction | reflexivity]. }
  assert (Hord : ordered_writes (p_slots p) (slot :: writes)) by (rewrite <- Hw; apply K).
  assert (Hlk : linked (p_slots p) (slot :: writes) (p_failed_at p) evs) by (rewrite <- Hw; apply V).
  constructor; fields.
  - keep K.
    + eapply (table_local (live_table V) slot); eauto; unfold change; cbn; rewrite ?Hc, ?Hw; reflexivity.
    + intros i t Hi Hit. rewrite (lookup_update _ _ _ _ i Hs) in Hit. destruct (decide (slot = i)); [discriminate|]. eapply k_barrier; eauto.
    + assert (Hd : fenced p w r <> Ok tt -> data_ok (<[slot := None]> (p_slots p)) (p_index p) (p_keys p) (len (p_extents p)) (p_next_ticket p)
                (p_pending_entries p - len (w_entries w)) (p_pending_new p - w_reserved_new w) (rl_index_entries (p_resources p)) (rl_pending_records (p_resources p))).
      { intros _. pose proof (k_data _ K) as D. pose proof (d_index _ _ _ _ _ _ _ _ _ D). pose proof (d_limit _ _ _ _ _ _ _ _ _ D).
        destruct (d_pending _ _ _ _ _ _ _ _ _ D slot _ Hs) as (_ & _ & Hfr). pose proof (len_nonneg (w_entries w)).
        eapply data_slot; [exact D | exact Hs | discriminate | simpl; lia | simpl; lia | lia | lia]. }
      destruct (fenced p w r) as [[]| |]; try (injection Hidx as -> ->; apply Hd; discriminate).
      replace index with (index, keys).1 by reflexivity. replace keys with (index, keys).2 at 2 by reflexivity. rewrite Hidx. apply data_apply; [apply K | assumption].
    + pose proof Hord as Ho. unfold ordered_writes in *. cbn [map] in Ho. apply StronglySorted_inv in Ho as [Ho _].
      rewrite (map_ext_in _ (slot_ticket (p_slots p))); [assumption|]. intros i Hi. apply Hoth, list_elem_of_In, Hi.
    + intros i t Hi. rewrite (lookup_update _ _ _ _ i Hs) in Hi. destruct (decide (slot = i)); [discriminate|]. exfalso. eapply no_sync; eauto.
    + intros i w' r' b' Hi. eapply (failed_other V); eauto. discriminate.
  - eapply history_finish; [apply V | exact Hs | reflexivity | | discriminate]. intros t r' b' [= <- <- <-].
    eapply linked_order; [exact Hlk | assumption|]. intros f Hf Hlt. unfold fenced. rewrite Hf, Z.gtb_ltb, (proj2 (Z.ltb_lt _ _)) by assumption. discriminate.
  - eapply linked_retire; eauto. eapply fenced_failed; eassumption.
Qed.

(** Delivery of the barrier in its slot. *)
Lemma flush_covered t : p_writes p = [] -> p_failed_at p = None ->
  forall w, Issued w KWrite ∈ evs -> w < t -> exists b, Finished (CWrite w (Ok tt) b) ∈ evs.
Proof.
  intros Hw Hf u Hu _. destruct (l_writes _ _ _ _ (v_linked _ _ V) u Hu) as [(i & Hi & _)|(r & b & Hd)]; [rewrite Hw in Hi; inversion Hi|].
  destruct r as [[]|e|]; [eauto| |]; destruct (l_failed _ _ _ _ (v_linked _ _ V) _ _ _ Hd ltac:(discriminate)) as (f & Hff & _); congruence.
Qed.

Lemma flush_slot slot : p_flush p = Some slot -> exists t s, p_slots p !! slot = Some (Some (PFlush t s)).
Proof.
  intros Hf. destruct (tracks_in _ _ _ slot (t_flush _ _ _ _ _ _ _ _ (live_table V))) as (x & Hx & Hi); [rewrite Hf; apply list_elem_of_singleton; reflexivity|].
  destruct x as [[]|]; try discriminate. eauto.
Qed.

Lemma live_flush_done slot t r : p_flush p = Some slot -> p_slots p !! slot = Some (Some (PFlush t false)) -> p_writes p = [] ->
  (r = Ok tt -> p_failed_at p = None) ->
  live (set_flush None (set_free (slot :: p_free p) (set_slots (<[slot := None]> (p_slots p)) p))) (evs ++ [Finished (CFlush t r)]).
Proof.
  intros Hf Hs Hw Hr. constructor; fields.
  - keep K.
    + eapply (table_local (live_table V) slot); eauto; unfold change; cbn; rewrite ?Hf; reflexivity.
    + discriminate.
    + eapply data_slot_same; [apply K | exact Hs | discriminate | reflexivity | reflexivity].
    + rewrite Hw. constructor.
    + intros i t' Hi. eapply (sync_other V); eauto. discriminate.
    + intros i w' r' b' Hi. eapply (failed_other V); eauto. discriminate.
  - eapply history_finish; [apply V | exact Hs | reflexivity | discriminate|]. intros t' [= <- ->]. apply flush_covered; auto.
  - eapply linked_same; [apply V | | discriminate..]. rewrite Hw. intros j Hj. inversion Hj.
Qed.

Lemma live_sync slot t q' : p_flush p = Some slot -> p_slots p !! slot = Some (Some (PFlush t false)) -> p_writes p = [] -> p_failed_at p = None ->
  queue_ok q' -> depth q' = depth (p_queue p) -> Permutation (accepted q') ((Z.of_nat slot, io.Sync, 0, 0, None) :: accepted (p_queue p)) ->
  live (set_queue q' (set_slots (<[slot := Some (PFlush t true)]> (p_slots p)) p)) evs.
Proof.
  intros Hf Hs Hw Hfa Hq Hd Hperm. constructor; fields.
  - keep K; try assumption.
    + rewrite Hd. eapply (table_enqueue (live_table V) slot); eauto; unfold change; cbn; rewrite ?Hf; reflexivity.
    + intros i t' Hi Hit. rewrite Hf in Hi. injection Hi as <-. rewrite (lookup_update _ _ _ _ slot Hs), decide_True in Hit by reflexivity. discriminate.
    + eapply data_slot_same; [apply K | exact Hs | | reflexivity | reflexivity]. intros x [= <-]. split; [|exact I].
      apply (d_pending _ _ _ _ _ _ _ _ _ (k_data _ K) slot _ Hs).
    + rewrite Hw. constructor.
    + auto.
    + intros i w' r' b' Hi. eapply (failed_other V); eauto. discriminate.
  - eapply history_same; [apply V | exact Hs | reflexivity].
  - eapply linked_slots; [apply V|]. rewrite Hw. intros j Hj. inversion Hj.
Qed.

(** An unsent barrier with nothing before it finds a vacancy. *)
Lemma barrier_vacant slot t : p_flush p = Some slot -> p_slots p !! slot = Some (Some (PFlush t false)) -> p_writes p = [] -> vacant (p_queue p) <> 0.
Proof.
  intros Hf Hs Hw. pose proof (k_barrier _ K slot t Hf Hs) as Hb. rewrite (nonwrites_all (live_table V) Hw) in Hb.
  destruct (vacant_accepted _ (k_queue _ K)). lia.
Qed.

(** A lifecycle request starts when no barrier could be sent instead. *)
Definition barrier_started : Prop := forall i t, p_flush p = Some i -> p_slots p !! i = Some (Some (PFlush t false)) -> p_writes p <> [].

Lemma live_start_control : barrier_started -> live (start_control p) evs.
Proof.
  intros Hbs. unfold start_control. rewrite (k_live _ K). destruct (p_control p) as [r|] eqn:Hr; [|exact V].
  destruct (k_control _ K r Hr) as [Htok Hca]. destruct (vacant_accepted _ (k_queue _ K)) as [Hv H0].
  destruct (Z.eq_dec (vacant (p_queue p)) 0) as [Hz|Hz].
  - rewrite (submit_full _ r (k_queue _ K) Hz). replace (set_control (Some r) p) with p by (rewrite <- Hr; destruct p; reflexivity). exact V.
  - destruct (submit_ok (p_queue p) r (k_queue _ K) ltac:(lia)) as (q' & -> & Hq & Hd & Hp).
    assert (Hctl : is_control (shape r) = true) by (apply Z.eqb_eq; exact Htok).
    constructor; fields; [|apply V | apply V]. keep K; try assumption.
    + rewrite Hd. eapply table_control_start; [exact (live_table V) | assumption | exact Hp | assumption].
    + intros i t Hi Hit. specialize (Hbs i t Hi Hit). destruct (p_writes p) as [|slot writes] eqn:Hw; [congruence|].
      destruct (head_write slot writes Hw) as (w & Hsw). rewrite Hd, (nonwrites_cons _ _ _ Hp).
      pose proof (nonwrites_bound (live_table V) i slot _ _ Hca Hit eq_refl eq_refl Hsw eq_refl). destruct (nonwrite (shape r)); lia.
    + intros _. apply (k_maint _ K). left. congruence.
    + discriminate.
Qed.

(** A ready read is delivered. *)
Lemma live_ready slot rest : p_ready_reads p = slot :: rest -> exists t b, p_slots p !! slot = Some (Some (PEmptyRead t b)) /\
  live (set_free (slot :: p_free p) (set_slots (<[slot := None]> (p_slots p)) (set_ready_reads rest p))) (evs ++ [Finished (CRead t (Ok (InValue (0, 0))) b)]).
Proof.
  intros Hr. destruct (tracks_in _ _ _ slot (t_ready _ _ _ _ _ _ _ _ (live_table V))) as (x & Hx & Hi); [rewrite Hr; apply elem_of_cons; auto|].
  destruct x as [[| | |t b|]|]; try discriminate. exists t, b. split; [assumption|].
  assert (Hnw : slot ∉ p_writes p) by (eapply tracks_not; [apply (live_table V) | exact Hx | reflexivity]). constructor; fields.
  - keep K.
    + eapply (table_local (live_table V) slot); eauto; unfold change; cbn; rewrite ?Hr; reflexivity.
    + intros i t' Hif Hit. rewrite (lookup_update _ _ _ _ i Hx) in Hit. destruct (decide (slot = i)); [discriminate|]. eapply k_barrier; eauto.
    + eapply data_slot_same; [apply K | exact Hx | discriminate | reflexivity | reflexivity].
    + eapply ordered_writes_other; [exact Hx | assumption | apply K].
    + intros i t' Hit. eapply (sync_other V); eauto. discriminate.
    + intros i w' r' b' Hit. eapply (failed_other V); eauto. discriminate.
  - eapply history_finish; [apply V | exact Hx | reflexivity | discriminate | discriminate].
  - eapply linked_same; [apply V | | discriminate..]. intros j Hj. eapply (slot_ticket_other (p := p)); eauto.
Qed.
End Live.
End Retire.

Section Complete.
Context {Q : Type} {QI : Queue Q} {QS : QueueSpec Q} {C : CrcFast}.
Implicit Types p : Pipeline Q.

Lemma transfer_result_cases r o : (exists e, transfer_result r o = Err e) \/ transfer_result r o = Ok tt.
Proof. unfold transfer_result. destruct o as [e|n]; [eauto|]. destruct (n =? req_len r); eauto. Qed.

Section Live.
Context {p : Pipeline Q} {evs : list event} (V : live p evs).
Let K := v_ok _ _ V.

Lemma live_queue_poll w : live (set_queue (queue_poll (p_queue p) w).1 p) evs.
Proof.
  destruct (poll_ok (p_queue p) w (k_queue _ K)) as (Hq & Hd & Hp). constructor; fields; [|apply V | apply V]. keep K; try assumption.
  - rewrite Hd. eapply table_perm; [exact (live_table V) | assumption].
  - intros i t Hi Hit. rewrite Hd, (nonwrites_perm _ _ Hp). eapply k_barrier; eauto.
Qed.

Lemma live_control_done c q' done : pop (p_queue p) = Some (c, q') -> token (request c) = CONTROL_TOKEN ->
  live (set_control_done done (set_control_active false (set_queue q' p))) evs.
Proof.
  intros Hpop Htok. destruct (pop_some _ _ _ (k_queue _ K) Hpop) as (Hq & Hd & Hp).
  assert (Hctl : is_control (shape (request c)) = true) by (apply Z.eqb_eq; exact Htok).
  constructor; fields; [|apply V | apply V]. keep K; try assumption.
  - rewrite Hd. eapply table_control_finish; [exact (live_table V) | exact Hp | assumption].
  - intros i t Hi Hit. rewrite Hd. pose proof (k_barrier _ K i t Hi Hit). pose proof (nonwrites_cons _ _ _ Hp). destruct (nonwrite _); lia.
  - intros [Hc|[=]]. apply (k_maint _ K). auto.
  - intros r Hr. split; [|reflexivity]. apply (k_control _ K r Hr).
Qed.

Section Popped.
Context {c : IoCompletion} {q' : Q} (Hpop : pop (p_queue p) = Some (c, q')) (Htok : token (request c) <> CONTROL_TOKEN).
Let sh := shape (request c).
Let slot := Z.to_nat (token (request c)).

Lemma popped : queue_ok q' /\ depth q' = depth (p_queue p) /\ Permutation (accepted (p_queue p)) (sh :: accepted q') /\
  sh_token sh = Z.of_nat slot /\ exists x, p_slots p !! slot = Some (Some x) /\ expects x sh /\ queued (Some x) = true.
Proof.
  destruct (pop_some _ _ _ (k_queue _ K) Hpop) as (Hq & Hd & Hp). split; [assumption|]. split; [assumption|]. split; [exact Hp|].
  assert (Hin : sh ∈ accepted (p_queue p)) by (rewrite Hp; apply elem_of_cons; auto).
  assert (Hc : is_control sh = false) by (apply Z.eqb_neq; exact Htok).
  destruct (t_expects _ _ _ _ _ _ _ _ (live_table V) sh Hin Hc) as (H0 & _). split; [|exact (table_pending (live_table V) sh Hin Hc)].
  change (sh_token sh) with (token (request c)) in *. unfold slot. lia.
Qed.

Lemma popped_barrier i t : p_flush p = Some i -> p_slots p !! i = Some (Some (PFlush t false)) -> nonwrites (accepted q') + 1 <= depth q'.
Proof.
  intros Hi Hit. destruct popped as (_ & Hd & Hp & _). pose proof (k_barrier _ K i t Hi Hit). pose proof (nonwrites_cons _ _ _ Hp). destruct (nonwrite sh); lia.
Qed.

(** A read is delivered. *)
Lemma live_read_done x r b : p_slots p !! slot = Some (Some x) -> queued (Some x) = true -> is_write (Some x) = false -> is_flush (Some x) = false ->
  live (set_free (slot :: p_free p) (set_slots (<[slot := None]> (p_slots p)) (set_queue q' p))) (evs ++ [Finished (CRead (pending_ticket x) r b)]).
Proof.
  intros Hs Hqd Hwr Hfl. destruct popped as (Hq & Hd & Hp & Ht & _).
  assert (Hnw : slot ∉ p_writes p) by (eapply tracks_not; [apply (live_table V) | exact Hs | assumption]).
  assert (Hnr : is_ready (Some x) = false) by (destruct x; auto; discriminate).
  assert (Hz : slot_entries (Some x) = 0 /\ slot_new (Some x) = 0) by (destruct x; auto; discriminate). constructor; fields.
  - keep K; try assumption.
    + rewrite Hd. eapply (table_dequeue (live_table V) slot); eauto; unfold change; rewrite ?Hwr, ?Hfl, ?Hnr; cbn; reflexivity.
    + intros i t Hi Hit. rewrite (lookup_update _ _ _ _ i Hs) in Hit. destruct (decide (slot = i)); [discriminate|]. eapply popped_barrier; eauto.
    + eapply data_slot_same; [apply K | exact Hs | discriminate | symmetry; apply Hz | symmetry; apply Hz].
    + eapply ordered_writes_other; [exact Hs | assumption | apply K].
    + intros i t' Hit. eapply (sync_other V); eauto. discriminate.
    + intros i w' r' b' Hit. eapply (failed_other V); eauto. discriminate.
  - eapply history_finish; [apply V | exact Hs | reflexivity | discriminate | discriminate].
  - eapply linked_same; [apply V | | discriminate..]. intros j Hj. eapply (slot_ticket_other (p := p)); eauto.
Qed.

(** A verified read moves on to its value. *)
Lemma live_read_next r r' q2 sh' : p_slots p !! slot = Some (Some (PVerifiedRead r)) -> vr_ticket r' = vr_ticket r -> vr_ok (len (p_extents p)) r' ->
  queue_ok q2 -> depth q2 = depth q' -> Permutation (accepted q2) (sh' :: accepted q') -> sh_token sh' = Z.of_nat slot -> expects (PVerifiedRead r') sh' ->
  live (set_queue q2 (set_slots (<[slot := Some (PVerifiedRead r')]> (p_slots p)) (set_queue q' p))) evs.
Proof.
  intros Hs Htk Hok Hq2 Hd2 Hp2 Ht' He'. destruct popped as (Hq & Hd & Hp & Ht & x & Hx & Hex & _). rewrite Hs in Hx. injection Hx as <-.
  assert (Hnw : slot ∉ p_writes p) by (eapply tracks_not; [apply (live_table V) | exact Hs | reflexivity]).
  destruct (table_slot_control (live_table V) slot sh (lookup_lt_Some _ _ _ Hs) Ht) as [Hc Hn].
  destruct (table_slot_control (live_table V) slot sh' (lookup_lt_Some _ _ _ Hs) Ht') as [Hc' Hn'].
  destruct (acc_slots_cons _ _ _ Hp Hc) as [Ha Hca]. destruct (acc_slots_cons _ _ _ Hp2 Hc') as [Ha' Hca'].
  assert (Hnon : nonwrites (accepted q2) = nonwrites (accepted (p_queue p))).
  { rewrite (nonwrites_cons _ _ _ Hp), (nonwrites_cons _ _ _ Hp2). unfold nonwrite. rewrite Hc, Hc'. destruct Hex as [-> _]. destruct He' as [-> _]. reflexivity. }
  constructor; fields.
  - keep K; try assumption.
    + rewrite Hd2, Hd. eapply (table_update (live_table V) slot); eauto; try (unfold change; cbn; reflexivity).
      * unfold change; cbn. rewrite Ha, Ha', Hn, Hn'. reflexivity.
      * rewrite Hca', <- Hca. apply (live_table V).
      * intros s0 Hin Hs0. rewrite Hp2 in Hin. apply elem_of_cons in Hin as [->|Hin].
        -- rewrite Ht', Nat2Z.id. split; [lia|]. eexists. split; [|exact He']. rewrite (lookup_update _ _ _ _ slot Hs), decide_True by reflexivity. reflexivity.
        -- eapply (expects_dequeue (live_table V) slot); eauto.
    + intros i t Hi Hit. rewrite (lookup_update _ _ _ _ i Hs) in Hit. destruct (decide (slot = i)); [discriminate|]. rewrite Hd2, Hd, Hnon. eapply k_barrier; eauto.
    + eapply data_slot_same; [apply K | exact Hs | | reflexivity | reflexivity]. intros y [= <-]. split; [|exact Hok]. simpl. rewrite Htk.
      apply (d_pending _ _ _ _ _ _ _ _ _ (k_data _ K) slot _ Hs).
    + eapply ordered_writes_other; [exact Hs | assumption | apply K].
    + intros i t' Hit. eapply (sync_other V); eauto. discriminate.
    + intros i w' r0 b' Hit. eapply (failed_other V); eauto. discriminate.
  - eapply history_same; [apply V | exact Hs | symmetry; exact Htk].
  - eapply linked_slots; [apply V|]. intros j Hj. eapply (slot_ticket_other (p := p)); eauto.
Qed.

(** A write's transfer completed; it is delivered in order later. *)
Lemma live_write_done w w' f r b : p_slots p !! slot = Some (Some (PWrite w)) -> w' = {| w_ticket := w_ticket w; w_entries := w_entries w; w_reserved_new := w_reserved_new w; w_completed := Some (r, b) |} ->
  (forall t, failed_before (p_failed_at p) t -> failed_before f t) -> (r <> Ok tt -> failed_before f (w_ticket w)) ->
  live (set_slots (<[slot := Some (PWrite w')]> (p_slots p)) (set_failed_at f (set_queue q' p))) evs.
Proof.
  intros Hs -> Hf Hr. destruct popped as (Hq & Hd & Hp & Ht & x & Hx & _ & Hqd). rewrite Hs in Hx. injection Hx as <-.
  assert (Hin : slot ∈ p_writes p) by (apply (t_writes _ _ _ _ _ _ _ _ (live_table V)); eauto).
  constructor; fields.
  - keep K; try assumption.
    + rewrite Hd. eapply (table_dequeue (live_table V) slot); eauto; unfold change; cbn; reflexivity.
    + intros i t Hi Hit. rewrite (lookup_update _ _ _ _ i Hs) in Hit. destruct (decide (slot = i)); [discriminate|]. eapply popped_barrier; eauto.
    + eapply data_slot_same; [apply K | exact Hs | | reflexivity | reflexivity]. intros y [= <-]. apply (d_pending _ _ _ _ _ _ _ _ _ (k_data _ K) slot _ Hs).
    + eapply ordered_writes_same; [exact Hs | reflexivity | apply K].
    + intros i t Hit. rewrite (lookup_update _ _ _ _ i Hs) in Hit. destruct (decide (slot = i)); [discriminate|].
      destruct (k_sync _ K i t Hit) as [He _]. rewrite He in Hin. inversion Hin.
    + intros i w0 r0 b0 Hit Hc0 Hr0. rewrite (lookup_update _ _ _ _ i Hs) in Hit. destruct (decide (slot = i)).
      * injection Hit as <-. simpl in *. injection Hc0 as -> ->. auto.
      * apply Hf. eapply k_failed; eauto.
  - eapply history_same; [apply V | exact Hs | reflexivity].
  - eapply linked_slots; [eapply linked_failed; [apply V | assumption]|]. intros j Hj. unfold slot_ticket. rewrite (lookup_update _ _ _ _ j Hs).
    destruct (decide (slot = j)) as [<-|]; [rewrite Hs|]; reflexivity.
Qed.

(** The barrier's sync completed. *)
Lemma live_sync_done t f r : p_slots p !! slot = Some (Some (PFlush t true)) -> (r = Ok tt \/ exists e, r = Err e) ->
  f = (if is_err r then Some t else p_failed_at p) ->
  live (set_free (slot :: p_free p) (set_flush None (set_slots (<[slot := None]> (p_slots p)) (set_failed_at f (set_queue q' p))))) (evs ++ [Finished (CFlush t r)]).
Proof.
  intros Hs Hr ->. destruct popped as (Hq & Hd & Hp & Ht & x & Hx & _). rewrite Hs in Hx. injection Hx as <-.
  destruct (k_sync _ K slot t Hs) as [Hw Hfa].
  assert (Hfl : p_flush p = Some slot).
  { assert (Hin : slot ∈ option_list (p_flush p)) by (apply (t_flush _ _ _ _ _ _ _ _ (live_table V)); eauto).
    destruct (p_flush p) as [i|]; simpl in Hin; [apply list_elem_of_singleton in Hin as ->; reflexivity | inversion Hin]. }
  constructor; fields.
  - keep K; try assumption.
    + rewrite Hd. eapply (table_dequeue (live_table V) slot); eauto; unfold change; cbn; rewrite ?Hfl; reflexivity.
    + discriminate.
    + eapply data_slot_same; [apply K | exact Hs | discriminate | reflexivity | reflexivity].
    + rewrite Hw. constructor.
    + intros i t' Hit. rewrite (lookup_update _ _ _ _ i Hs) in Hit. destruct (decide (slot = i)); [discriminate|]. exfalso.
      assert (Hin : i ∈ option_list (p_flush p)) by (apply (t_flush _ _ _ _ _ _ _ _ (live_table V)); eauto). rewrite Hfl in Hin. apply list_elem_of_singleton in Hin. congruence.
    + intros i w0 r0 b0 Hit. rewrite (lookup_update _ _ _ _ i Hs) in Hit. destruct (decide (slot = i)); [discriminate|]. exfalso.
      assert (Hin : i ∈ p_writes p) by (apply (t_writes _ _ _ _ _ _ _ _ (live_table V)); eauto). rewrite Hw in Hin. inversion Hin.
  - eapply history_finish; [apply V | exact Hs | reflexivity | discriminate|]. intros t' [= <- ->]. apply (flush_covered V); assumption.
  - eapply linked_same; [eapply linked_failed; [apply V|] | | discriminate..].
    + intros u (f & Hf & _). congruence.
    + rewrite Hw. intros j Hj. inversion Hj.
Qed.
End Popped.
End Live.
End Complete.
