(* ===== verification/PipelinePoll.v ===== *)
(** * One poll

    The loops of a poll over a sound pipeline, and what remains sound once the
    queue has failed. *)

From stdpp Require Import gmap sorting.
From S2P Require Import Prelude Align ChunkId Checksum Codec FrameFormat FrameDecode SegmentFormat SegmentBuilder.
From S2P Require Import Io Index PipelineState Pipeline PipelineTable PipelineInv PipelineLemmas PipelineTrace PipelineAdmit PipelineComplete.

Section Poll.
Context {Q : Type} {QI : Queue Q} {QS : QueueSpec Q} {C : CrcFast}.
Implicit Types p : Pipeline Q.
Implicit Types s : @Polled Q.

Lemma insert_twice {A} (l : list A) i x y : <[i := y]> (<[i := x]> l) = <[i := y]> l.
Proof. apply list_insert_insert_eq. Qed.

Lemma buffer_len r n : sh_buffer (shape r) = Some n -> exists b, buffer r = Some b /\ len b = n.
Proof. unfold sh_buffer, shape. cbn [snd]. destruct (buffer r) as [b|]; simpl; [intros [= <-]; eauto | discriminate]. Qed.

(** The advance of a verified read whose transfer completed. *)
Lemma advance_verified_ok p n vr result buf b : len (p_extents p) = n -> vr_ok n vr -> (result = Ok tt \/ exists e, result = Err e) -> buf = Some b ->
  match vr_metadata vr with None => vr_metadata_len vr <= len b | Some _ => vr_io_len vr <= len b end ->
  let '(out, r') := advance_verified p vr result buf in
  out <> Panic /\ vr_ticket r' = vr_ticket vr /\ is_Some (vr_metadata r') /\ is_Some (vr_value r') /\
  (out = Ok None -> vr_ok n (vr_set_value None r') /\ exists v, vr_value r' = Some v /\ vr_io_len r' <= len v).
Proof.
  intros Hn Hok Hres -> Hlen. pose proof (v_loc _ _ Hok) as (Hseg & _). rewrite <- Hn in Hseg. unfold advance_verified.
  destruct (vr_metadata vr) as [md|] eqn:Hm.
  - destruct Hres as [->|[e ->]]; [|cbn; rewrite Hm; repeat split; eauto; discriminate]. cbn [vr_set_value vr_location].
    pose proof (position_in_safe p _ (loc_frame_offset (vr_location vr)) Hseg) as Hps. destruct (position_in _ _ _) as [pos|e|]; [|cbn; rewrite Hm; repeat split; eauto; discriminate | congruence].
    pose proof (vr_verify_safe n vr b Hok ltac:(rewrite Hm; eauto) Hlen) as Hv. destruct (vr_verify (vr_set_value (Some b) vr)) as [range|e|]; [| |congruence];
      cbn; rewrite Hm; repeat split; eauto; discriminate.
  - pose proof (v_phase _ _ Hok) as Hph. rewrite Hm in Hph. destruct Hph as (v & Hv & _).
    destruct Hres as [->|[e ->]]; [|cbn; rewrite Hv; repeat split; eauto; discriminate]. cbn [vr_set_metadata vr_location].
    pose proof (position_in_safe p _ (loc_frame_offset (vr_location vr)) Hseg) as Hps. destruct (position_in _ _ _) as [pos|e|]; [|cbn; rewrite Hv; repeat split; eauto; discriminate | congruence].
    pose proof (finish_metadata_ok n vr b (p_limits p) pos Hok Hm Hlen) as Hf. destruct (finish_metadata _ _ _) as [out r'].
    destruct Hf as (H1 & H2 & H3 & H4 & H5). split; [assumption|]. split; [assumption|]. split; [rewrite H3; eauto|]. split; [rewrite H4, Hv; eauto | assumption].
Qed.

(** Every completion the queue hands back is handled. *)
Lemma complete_live p evs c q' out : live p evs -> pop (p_queue p) = Some (c, q') -> token (request c) <> CONTROL_TOKEN ->
  exists p' new, complete (set_queue q' p) c out = Ok (p', out ++ new) /\ live p' (evs ++ map Finished new).
Proof.
  intros V Hpop Htok. pose proof (v_ok _ _ V) as K. destruct (popped V Hpop Htok) as (Hq & Hd & Hperm & Hst & x & Hx & He & Hqd).
  unfold complete. fields. rewrite Hx. pose proof (transfer_result_cases (request c) (io_result c)) as Hres.
  destruct x as [w|rd|vr|t b|t s].
  - destruct He as [_ [n Hb]]. destruct (buffer_len _ _ Hb) as (b & -> & _). cbn [expect rbind].
    set (r := transfer_result (request c) (io_result c)) in *.
    exists (set_slots (<[Z.to_nat (token (request c)) := Some (PWrite {| w_ticket := w_ticket w; w_entries := w_entries w; w_reserved_new := w_reserved_new w; w_completed := Some (r, b) |})]> (p_slots p))
             (set_failed_at (if is_err r then Some (match p_failed_at p with Some old => Z.min old (w_ticket w) | None => w_ticket w end) else p_failed_at p) (set_queue q' p))), [].
    rewrite !app_nil_r. split; [destruct (is_err r); fields; rewrite insert_twice; reflexivity|].
    eapply live_write_done; eauto.
    + intros t (f & Hf & Hle). destruct (is_err r); [|exists f; auto]. rewrite Hf. eexists. split; [reflexivity|]. lia.
    + intros Hr. destruct Hres as [[e Her]|Hok]; [|congruence]. rewrite Her. cbn [is_err]. eexists. split; [reflexivity|]. destruct (p_failed_at p); lia.
  - destruct He as [_ [n Hb]]. destruct (buffer_len _ _ Hb) as (b & -> & _). cbn [expect rbind].
    eexists _, [_]. split; [reflexivity|]. eapply (live_read_done V Hpop Htok (PRead rd)); auto.
  - destruct He as [Hop (n & Hb & Hn)]. destruct (buffer_len _ _ Hb) as (b & Hbb & <-).
    pose proof (d_pending _ _ _ _ _ _ _ _ _ (k_data _ K) _ _ Hx) as [_ Hok]. cbn beta iota in Hok.
    match goal with |- context [advance_verified ?p0 vr ?res (buffer (request c))] =>
      pose proof (advance_verified_ok p0 (len (p_extents p)) vr res (buffer (request c)) b eq_refl Hok ltac:(destruct Hres; auto) Hbb Hn) as Hadv;
      destruct (advance_verified p0 vr res (buffer (request c))) as [o r'] end.
    destruct Hadv as (Hnp & Htk & [md Hmd] & [v Hv] & Hnext).
    assert (Hbufs : vr_buffers r' = Ok {| rb_metadata := Some md; rb_value := v |}) by (unfold vr_buffers; rewrite Hmd, Hv; reflexivity).
    destruct o as [[range|]|e|]; [| | |congruence].
    + rewrite Hbufs. cbn [rbind]. eexists _, [_]. split; [reflexivity|]. rewrite Htk. eapply (live_read_done V Hpop Htok (PVerifiedRead vr)); auto.
    + destruct (Hnext eq_refl) as (Hok' & v' & Hv' & Hlen). rewrite Hv'. cbn [expect rbind]. unfold submit. fields. rewrite insert_twice.
      destruct (vacant_accepted _ Hq) as [Hva _]. destruct (vacant_accepted _ (k_queue _ K)) as [Hva0 Hv0].
      assert (Hvac : 0 < vacant q') by (pose proof (Permutation_length Hperm) as Hpl; simpl in Hpl; unfold len in *; lia).
      rewrite <- Hst.
      match goal with |- context [try_submit q' ?r] => destruct (submit_ok q' r Hq Hvac) as (q2 & Hq2 & Hqok2 & Hd2 & Hp2) end.
      change (sh_token (shape (request c))) with (token (request c)) in *. rewrite Hq2. cbn [rbind].
      eexists _, []. rewrite !app_nil_r. split; [reflexivity|].
      eapply (live_read_next V Hpop Htok vr); eauto. split; [reflexivity|]. eexists. split; [reflexivity|].
      cbn [vr_set_value vr_metadata]. rewrite Hmd. exact Hlen.
    + rewrite Hbufs. cbn [rbind]. eexists _, [_]. split; [reflexivity|]. rewrite Htk. eapply (live_read_done V Hpop Htok (PVerifiedRead vr)); auto.
  - contradiction.
  - simpl in Hqd. subst s.
    assert (Hr : transfer_result (request c) (io_result c) = Ok tt \/ exists e, transfer_result (request c) (io_result c) = Err e) by (destruct Hres; auto).
    eexists _, [_]. split; [reflexivity|]. cbn [map]. pose proof (live_sync_done V Hpop Htok t _ _ Hx Hr eq_refl) as HV.
    destruct (is_err (transfer_result (request c) (io_result c))); exact HV.
Qed.

(** ** Loops *)

(** A polled state that has delivered [new] completions since [out]. *)
Definition polled (evs : list event) (out : list Completion) (s : @Polled Q) : Prop :=
  exists new, pd_out s = out ++ new /\ live (pd_pipeline s) (evs ++ map Finished new).

Lemma polled_step evs out s p' c w : pd_out s = out -> live p' (evs ++ [Finished c]) ->
  polled evs out {| pd_pipeline := p'; pd_out := pd_out s ++ [c]; pd_work := w |}.
Proof. intros Ho V. exists [c]. rewrite Ho. auto. Qed.

Lemma polled_trans evs out new s : polled (evs ++ map Finished new) (out ++ new) s -> polled evs out s.
Proof. intros (new' & Ho & V). exists (new ++ new'). rewrite Ho, map_app, !app_assoc in *. auto. Qed.

Lemma retire_writes_loop_live n : forall evs out s, polled evs out s -> exists s', retire_writes_loop n s = Ok s' /\ polled evs out s'.
Proof.
  induction n as [|n IH]; intros evs out s P; cbn [retire_writes_loop]; [eauto|]. cbv zeta. destruct (exhausted _ _); [eauto|].
  pose proof P as (new & Ho & V). destruct (p_writes (pd_pipeline s)) as [|slot writes] eqn:Hw; [eauto|].
  destruct (head_write V slot writes Hw) as (w & Hs). rewrite Hs. cbn [expect rbind completed_write].
  destruct (w_completed w) as [[r b]|] eqn:Hc; [|eauto].
  destruct (match fenced (pd_pipeline s) w r with Ok _ => apply (p_index (pd_pipeline s)) (p_keys (pd_pipeline s)) (w_entries w) | _ => (p_index (pd_pipeline s), p_keys (pd_pipeline s)) end)
    as [index keys] eqn:Hidx.
  pose proof (live_retire V slot writes w r b index keys Hw Hs Hc (eq_sym Hidx)) as V'.
  match goal with |- exists s', retire_writes_loop n ?s1 = _ /\ _ => assert (P' : polled evs out s1); [|apply (IH _ _ _ P')] end.
  apply (polled_trans evs out new). rewrite <- Ho. exists [CWrite (w_ticket w) (fenced (pd_pipeline s) w r) b]. split; [reflexivity|].
  cbn [pd_pipeline map]. unfold fenced in *. fields. destruct (match p_failed_at _ with Some _ => _ | None => _ end); [|injection Hidx as <- <-; exact V' ..].
  rewrite Hidx. exact V'.
Qed.

Lemma start_flush_live evs out s : polled evs out s -> exists s', start_flush s = Ok s' /\ polled evs out s' /\ barrier_started (p := pd_pipeline s').
Proof.
  intros P. pose proof P as (new & Ho & V). unfold start_flush. cbv zeta. destruct (p_flush (pd_pipeline s)) as [slot|] eqn:Hf.
  2: { exists s. split; [reflexivity|]. split; [assumption|]. intros i t Hi. congruence. }
  destruct (Z.eqb_spec (len (p_writes (pd_pipeline s))) 0) as [Hw|Hw]; cbn [negb].
  2: { exists s. split; [reflexivity|]. split; [assumption|]. intros i t _ _ Hn. rewrite Hn in Hw. apply Hw. reflexivity. }
  assert (Hw0 : p_writes (pd_pipeline s) = []) by (destruct (p_writes (pd_pipeline s)); [reflexivity | rewrite len_cons in Hw; pose proof (len_nonneg l); lia]).
  destruct (flush_slot V slot Hf) as (t & sub & Hs). rewrite Hs. destruct sub.
  { exists s. split; [reflexivity|]. split; [assumption|]. intros i t' Hi Hit. congruence. }
  assert (Hdone : forall r, (r = Ok tt -> p_failed_at (pd_pipeline s) = None) -> polled evs out {| pd_pipeline :=
      set_flush None (set_free (slot :: p_free (pd_pipeline s)) (set_slots (<[slot := None]> (p_slots (pd_pipeline s))) (pd_pipeline s))); pd_out := pd_out s ++ [CFlush t r]; pd_work := pd_work s |}).
  { intros r Hr. apply (polled_trans evs out new). rewrite <- Ho. apply polled_step; [reflexivity|]. apply (live_flush_done V); assumption. }
  destruct (p_failed_at (pd_pipeline s)) as [f|] eqn:Hfa.
  - eexists. split; [reflexivity|]. split; [apply Hdone; discriminate | intros i t' [=]].
  - destruct (p_sync_enabled (pd_pipeline s)) eqn:Hse; cbn [negb].
    + destruct (submit_accepts V slot io.Sync 0 0 None (barrier_vacant V slot t Hf Hs Hw0)) as (q' & Hq & Hqok & Hd & Hp).
      unfold submit. fields. rewrite Hq. cbn [rbind]. eexists. split; [reflexivity|]. split.
      * exists new. split; [assumption|]. cbn [pd_pipeline]. apply (live_sync V); assumption.
      * intros i t' Hi Hit. cbn [pd_pipeline] in *. fields. rewrite Hf in Hi. injection Hi as <-. rewrite (lookup_update _ _ _ _ slot Hs), decide_True in Hit by reflexivity. discriminate.
    + eexists. split; [reflexivity|]. split; [apply Hdone; auto | intros i t' [=]].
Qed.

Lemma ready_reads_loop_live n : forall evs out s, polled evs out s -> exists s', ready_reads_loop n s = Ok s' /\ polled evs out s'.
Proof.
  induction n as [|n IH]; intros evs out s P; cbn [ready_reads_loop]; [eauto|]. cbv zeta. destruct (exhausted _ _); [eauto|].
  pose proof P as (new & Ho & V). destruct (p_ready_reads (pd_pipeline s)) as [|slot rest] eqn:Hr; [eauto|].
  destruct (live_ready V slot rest Hr) as (t & b & Hs & V'). rewrite Hs. apply IH. apply (polled_trans evs out new). rewrite <- Ho.
  apply polled_step; [reflexivity | exact V'].
Qed.

Lemma pop_loop_live n : forall evs out s, polled evs out s -> exists s', pop_loop n s = Ok s' /\ polled evs out s'.
Proof.
  induction n as [|n IH]; intros evs out s P; cbn [pop_loop]; [eauto|]. cbv zeta. destruct (exhausted _ _); [eauto|].
  pose proof P as (new & Ho & V). destruct (pop (p_queue (pd_pipeline s))) as [[c q']|] eqn:Hpop; [|eauto].
  destruct (Z.eqb_spec (token (request c)) CONTROL_TOKEN) as [Ht|Ht].
  - apply IH. exists new. split; [assumption|]. eapply live_control_done; eassumption.
  - destruct (complete_live _ _ c q' (pd_out s) V Hpop Ht) as (p' & new' & -> & V'). apply IH. apply (polled_trans evs out new). rewrite <- Ho.
    exists new'. auto.
Qed.

(** ** A failed queue *)

Record failed p (evs : list event) : Prop := {
  x_failed : p_queue_failed p = true;
  x_fatal : is_Some (p_fatal p);
  x_extents : extents_ok p;
  x_budget : budget_ok (p_budget p);
  x_cursor : 0 <= p_failed_cursor p /\ forall i x, Z.of_nat i < p_failed_cursor p -> p_slots p !! i = Some x -> x = None;
  x_history : history_ok (p_slots p) (p_next_ticket p) evs;
  x_last : failures_last evs;
  x_leads : leads (p_slots p) evs
}.

Definition good p evs : Prop := live p evs \/ failed p evs.

Definition drained (evs : list event) (out : list Completion) (s : @Polled Q) : Prop :=
  exists new, pd_out s = out ++ new /\ failed (pd_pipeline s) (evs ++ map Finished new).

(** Retiring the slot under the cursor. *)
Lemma failed_advance p evs p' x evs' : failed p evs -> p_slots p !! Z.to_nat (p_failed_cursor p) = Some x \/ (p_slots p !! Z.to_nat (p_failed_cursor p) = None /\ x = None) ->
  p_queue_failed p' = true -> p_fatal p' = p_fatal p -> p_extents p' = p_extents p -> p_current p' = p_current p -> p_budget p' = p_budget p ->
  p_next_ticket p' = p_next_ticket p -> p_failed_cursor p' = p_failed_cursor p + 1 ->
  p_slots p' = (match x with Some _ => <[Z.to_nat (p_failed_cursor p) := None]> (p_slots p) | None => p_slots p end) ->
  evs' = (match x, p_fatal p with Some y, Some e => evs ++ [Finished (CFailed (pending_ticket y) e)] | _, _ => evs end) -> failed p' evs'.
Proof.
  intros [Hf [e He] Hx Hb [Hc0 Hc] Hh Hla Hle] Hs Hf' He' Hx1 Hx2 Hb' Hn' Hcur Hsl ->. constructor.
  - assumption.
  - rewrite He'. eauto.
  - unfold extents_ok in *. rewrite Hx1, Hx2. assumption.
  - rewrite Hb'. assumption.
  - rewrite Hcur. split; [lia|]. intros i y Hi Hy. destruct (decide (Z.to_nat (p_failed_cursor p) = i)) as [<-|Hne].
    + rewrite Hsl in Hy. destruct x; [|destruct Hs as [Hs|[Hs _]]; congruence]. destruct Hs as [Hs|[_ [=]]].
      rewrite (lookup_update _ _ _ _ _ Hs), decide_True in Hy by reflexivity. congruence.
    + apply (Hc i); [lia|]. rewrite Hsl in Hy. destruct x; [|assumption]. rewrite list_lookup_insert_ne in Hy; assumption.
  - rewrite Hn', Hsl, He. destruct x as [y|]; [|assumption]. destruct Hs as [Hs|[_ [=]]].
    eapply history_finish; [exact Hh | exact Hs | reflexivity | discriminate | discriminate].
  - rewrite He. destruct x as [y|]; [|assumption]. destruct Hs as [Hs|[_ [=]]]. eapply failures_last_snoc; [assumption | exact Hle | eapply tickets_in; exact Hs].
  - rewrite Hsl, He. destruct x as [y|]; [|assumption]. destruct Hs as [Hs|[_ [=]]]. eapply leads_step; [exact Hle | | discriminate].
    intros t Ht. pose proof (tickets_update _ _ _ None Hs) as Hp. unfold slot_tickets in Hp. simpl in Hp. rewrite <- Hp. apply elem_of_cons. auto.
Qed.

Definition advanced p s (n : Z) : Prop := p_budget (pd_pipeline s) = p_budget p /\ length (p_slots (pd_pipeline s)) = length (p_slots p) /\
  p_failed_cursor p + n <= p_failed_cursor (pd_pipeline s).

(** A call that has budget left moves the cursor. *)
Definition can_retire s : bool := (p_failed_cursor (pd_pipeline s) <? len (p_slots (pd_pipeline s))) && negb (exhausted (pd_work s) (p_budget (pd_pipeline s))).

Lemma retire_failed_loop_drains n : forall evs out s, drained evs out s -> exists s', retire_failed_loop n s = Ok s' /\ drained evs out s' /\
  advanced (pd_pipeline s) s' (if can_retire s then Z.of_nat (n `min` 1) else 0).
Proof.
  induction n as [|n IH]; intros evs out s P; cbn [retire_failed_loop].
  { exists s. split; [reflexivity|]. split; [assumption|]. repeat split; destruct (can_retire s); lia. }
  cbv zeta. fold (can_retire s). destruct (can_retire s); [|exists s; split; [reflexivity|]; split; [assumption|]; repeat split; lia].
  destruct P as (new & Ho & F). pose proof (x_fatal _ _ F) as [e He]. fields.
  assert (Hstep : forall s1 (x : option Pending), drained evs out s1 -> p_budget (pd_pipeline s1) = p_budget (pd_pipeline s) ->
    p_slots (pd_pipeline s1) = (match x with Some _ => <[Z.to_nat (p_failed_cursor (pd_pipeline s)) := None]> (p_slots (pd_pipeline s)) | None => p_slots (pd_pipeline s) end) ->
    p_failed_cursor (pd_pipeline s1) = p_failed_cursor (pd_pipeline s) + 1 -> exists s', retire_failed_loop n s1 = Ok s' /\ drained evs out s' /\ advanced (pd_pipeline s) s' (Z.of_nat (S n `min` 1))).
  { intros s1 x D1 B1 L1 C1. destruct (IH _ _ _ D1) as (s' & Hl & D' & A1 & A2 & A3). exists s'. split; [assumption|]. split; [assumption|].
    split; [congruence|]. split; [|destruct (can_retire s1); lia]. rewrite A2, L1. destruct x; rewrite ?length_insert; reflexivity. }
  destruct (p_slots (pd_pipeline s) !! Z.to_nat (p_failed_cursor (pd_pipeline s))) as [[x|]|] eqn:Hs.
  - match goal with |- context [expect (p_fatal ?X)] => replace (p_fatal X) with (Some e) by (destruct x; symmetry; exact He) end.
    cbn [expect rbind]. apply (Hstep _ (Some x)); [|destruct x; reflexivity..].
    exists (new ++ [CFailed (pending_ticket x) e]). cbn [pd_out pd_pipeline]. rewrite Ho, app_assoc. split; [reflexivity|].
    rewrite map_app, app_assoc. apply (failed_advance (pd_pipeline s) _ _ (Some x) _ F); fields; auto; try (destruct x; solve [reflexivity | apply F]). rewrite He. reflexivity.
  - apply (Hstep _ None); try reflexivity. exists new. split; [assumption|]. apply (failed_advance (pd_pipeline s) _ _ None _ F); fields; auto; apply F.
  - apply (Hstep _ None); try reflexivity. exists new. split; [assumption|]. apply (failed_advance (pd_pipeline s) _ _ None _ F); fields; auto; apply F.
Qed.

Lemma retire_failed_drains evs out s : drained evs out s -> exists s', retire_failed s = Ok s' /\ drained evs out s' /\
  advanced (pd_pipeline s) s' (if can_retire s then 1 else 0).
Proof.
  intros P. unfold retire_failed. destruct (retire_failed_loop_drains (length (p_slots (pd_pipeline s))) _ _ _ P) as (s' & -> & (new & Ho & F) & A).
  cbn [rbind]. eexists. split; [reflexivity|]. split.
  2: { destruct A as (A1 & A2 & A3). split; [assumption|]. split; [assumption|]. cbn [pd_pipeline] in *. fields. destruct (can_retire s) eqn:Hcan; [|lia].
       unfold can_retire in Hcan. boolp. destruct P as (? & _ & F0). pose proof (x_cursor _ _ F0) as [Hc _]. unfold len in *. lia. }
  exists new. split; [assumption|]. destruct F. constructor; fields; assumption.
Qed.

Lemma fail_live p evs e : live p evs -> failed (set_fatal (Some e) (set_queue_failed true p)) evs.
Proof.
  intros V. pose proof (v_ok _ _ V) as K. constructor; fields; [reflexivity | eauto | apply K | apply K | rewrite (k_cursor _ K); split; lia | apply V | |].
  - apply working_failures_last, (l_working _ _ _ _ (v_linked _ _ V)).
  - eapply linked_leads; apply V.
Qed.

(** Asking for readiness does not fail either. *)
Lemma live_has_ready p evs : live p evs -> exists b, pipeline_has_ready p = Ok b.
Proof.
  intros V. unfold pipeline_has_ready, write_ready. rewrite (k_live _ (v_ok _ _ V)). destruct (_ || _); [eauto|].
  destruct (p_writes p) as [|slot writes] eqn:Hw; [eauto|]. destruct (head_write V slot writes Hw) as (w & ->). cbn [expect rbind]. eauto.
Qed.

Lemma good_has_ready p evs : good p evs -> exists b, pipeline_has_ready p = Ok b.
Proof. intros [V|F]; [eapply live_has_ready; exact V|]. unfold pipeline_has_ready. rewrite (x_failed _ _ F). eauto. Qed.

Lemma may_wait_ok {E} idle (ready : res E bool) : (exists b, ready = Ok b) -> exists w, may_wait idle ready = Ok w.
Proof. intros [b ->]. unfold may_wait. destruct idle; cbn [rbind]; eauto. Qed.

(** A poll of a sound or failed pipeline returns, and delivers completions
    that extend its history. *)
Lemma poll_good p evs wait out : good p evs -> exists p' new, poll p wait out = Ok (p', out ++ new) /\ good p' (evs ++ map Finished new).
Proof.
  intros [V|F]; unfold poll.
  2: { rewrite (x_failed _ _ F). destruct (retire_failed_drains evs out {| pd_pipeline := p; pd_out := out; pd_work := Work_default |}) as (s' & -> & (new & Ho & F') & _).
       { exists []. rewrite !app_nil_r. auto. }
       cbn [rbind]. rewrite Ho. exists (pd_pipeline s'), new. split; [reflexivity | right; assumption]. }
  rewrite (k_live _ (v_ok _ _ V)). assert (P0 : polled evs out {| pd_pipeline := p; pd_out := out; pd_work := Work_default |}).
  { exists []. rewrite !app_nil_r. auto. }
  unfold retire_writes. match goal with |- context [retire_writes_loop ?n _] => destruct (retire_writes_loop_live n _ _ _ P0) as (s1 & -> & P1) end. cbn [rbind].
  destruct (start_flush_live _ _ _ P1) as (s2 & -> & (new2 & Ho2 & V2) & B2). cbn [rbind].
  assert (P3 : polled evs out {| pd_pipeline := start_control (pd_pipeline s2); pd_out := pd_out s2; pd_work := pd_work s2 |}).
  { exists new2. split; [assumption|]. apply (live_start_control V2 B2). }
  match goal with |- context [ready_reads_loop ?n _] => destruct (ready_reads_loop_live n _ _ _ P3) as (s4 & -> & (new4 & Ho4 & V4)) end. cbn [rbind].
  match goal with |- context [may_wait ?i ?r] => destruct (may_wait_ok i r (live_has_ready _ _ V4)) as (w4 & ->) end. cbn [rbind].
  match goal with |- context [queue_poll ?q ?w] => pose proof (live_queue_poll V4 w) as V5; destruct (queue_poll q w) as [q5 [e|]] end; cbn [fst] in V5.
  - destruct (retire_failed_drains evs out {| pd_pipeline := set_fatal (Some (pipeline.Queue e)) (set_queue_failed true (set_queue q5 (pd_pipeline s4))); pd_out := pd_out s4; pd_work := pd_work s4 |}) as (s' & -> & (new & Ho & F') & _).
    { exists new4. split; [assumption|]. apply fail_live. exact V5. }
    cbn [rbind]. rewrite Ho. exists (pd_pipeline s'), new. split; [reflexivity | right; assumption].
  - assert (P5 : polled evs out {| pd_pipeline := set_queue q5 (pd_pipeline s4); pd_out := pd_out s4; pd_work := pd_work s4 |}) by (exists new4; auto).
    match goal with |- context [pop_loop ?n _] => destruct (pop_loop_live n _ _ _ P5) as (s6 & -> & P6) end. cbn [rbind]. destruct P6 as (new6 & Ho6 & V6). rewrite (k_live _ (v_ok _ _ V6)).
    assert (P6 : polled evs out s6) by (exists new6; auto).
    match goal with |- context [retire_writes_loop ?n _] => destruct (retire_writes_loop_live n _ _ _ P6) as (s7 & -> & P7) end. cbn [rbind].
    destruct (start_flush_live _ _ _ P7) as (s8 & -> & (new8 & Ho8 & V8) & B8). cbn [rbind]. rewrite Ho8.
    eexists _, new8. split; [reflexivity|]. left. apply (live_start_control V8 B8).
Qed.
End Poll.
