(* ===== verification/PipelineSafe.v ===== *)
(** * The pipeline as a state machine

    Every sequence of calls an owner may make, as a step relation from a newly
    built pipeline, and the properties of every reachable state and history. *)

From stdpp Require Import gmap sorting.
From S2P Require Import Prelude Align ChunkId Checksum Codec FrameFormat FrameDecode FrameDecodeProofs FrameBuilder FrameBuilderProofs SegmentFormat SegmentBuilder SegmentProofs.
From S2P Require Import Io Index PipelineState Pipeline PipelineTable PipelineInv PipelineLemmas PipelineTrace PipelineAdmit PipelineComplete PipelinePoll.

(** The owner's calls. *)
Inductive call :=
| CallWrite (b : FrameBuilder) (buf : Buffer)
| CallWritePrepared (k : ChunkId) (lsn value_len : Z) (buf : Buffer)
| CallRead (k : ChunkId) (range : Z * Z) (verify : bool) (buffers : ReadBuffers)
| CallFlush
| CallPoll (wait : bool)
| CallAttach (header : SegmentHeader) (base : Z) (writable : bool)
| CallTakeSegment
| CallRestore (m : Metadata)
| CallControlIo (op : io.Operation) (off l : Z) (buf : option Buffer)
| CallTakeControl
| CallMaintenance (enabled : bool)
| CallNextTicket
| CallConfigure (r : ResourceLimits) (b : PollBudget)
| CallSetSync (enabled : bool)
| CallSetLimits (l : FrameLimits).

(** Steps past a guard; a refusal satisfies the goal. *)
Ltac refuse H :=
  match goal with |- context [fail_if ?c ?e] => destruct (fail_if c e) as [?u|?err|] eqn:H end; cbn [rbind];
  [apply fail_if_Ok in H | exact I | destruct (safe_fail_if _ _ H)].

Section Machine.
Context {Q : Type} {QI : Queue Q} {C : CrcFast} (try_reserve : Z -> bool).
Implicit Types p : Pipeline Q.

Definition issue {E} p (k : Kind) (m : res E (Z * Pipeline Q)) : option (Pipeline Q * list event) :=
  match m with Ok (t, p') => Some (p', [Issued t k]) | Err _ => Some (p, []) | Panic => None end.
Definition quiet {E A} p (f : A -> Pipeline Q) (m : res E A) : option (Pipeline Q * list event) :=
  match m with Ok a => Some (f a, []) | Err _ => Some (p, []) | Panic => None end.

(** The state after a call and the events it adds; [None] is a panic, and a
    refused call changes nothing. *)
Definition exec p (c : call) : option (Pipeline Q * list event) :=
  match c with
  | CallWrite b buf => issue p KWrite (write try_reserve p b buf)
  | CallWritePrepared k lsn vl buf => issue p KWrite (write_prepared try_reserve p k lsn vl buf)
  | CallRead k range verify buffers => issue p KRead (read p k range verify buffers)
  | CallFlush => issue p KFlush (flush p)
  | CallPoll wait => match poll p wait [] with Ok (p', out) => Some (p', map Finished out) | Err _ => Some (p, []) | Panic => None end
  | CallAttach header base writable => quiet p (fun a => a) (attach try_reserve p header base writable)
  | CallTakeSegment => quiet p snd (take_segment p)
  | CallRestore m => quiet p (fun a => a) (restore try_reserve p m)
  | CallControlIo op off l buf => quiet p (fun a => a) (control_io p op off l buf)
  | CallTakeControl => Some ((take_control p).2, [])
  | CallMaintenance enabled => Some (set_maintenance enabled p, [])
  | CallNextTicket => quiet p snd (next_ticket p)
  | CallConfigure r b => quiet p (fun a => a) (configure p r b)
  | CallSetSync enabled => Some (set_sync_enabled enabled p, [])
  | CallSetLimits l => Some (set_limits l p, [])
  end.

(** What the engine guarantees of its calls: values of the types' ranges, well
    formed builders and headers, and lifecycle requests only while admission
    leaves room for them. *)
Definition call_ok p (c : call) : Prop :=
  match c with
  | CallWrite b _ => builder_ok b
  | CallWritePrepared k lsn vl _ => chunk_id_ok k /\ is_u64 lsn /\ is_u32 vl
  | CallRead _ range _ _ => 0 <= range.1
  | CallAttach header base _ => segment_header_ok header /\ 0 <= base < 2 ^ 62
  | CallRestore m => p_extents p <> [] /\ is_u32 (offset (position (md_header m)))
  | CallControlIo _ _ _ _ => p_maintenance p = true
  | CallMaintenance enabled => enabled = true \/ p_queue_failed p = true \/ p_control p = None /\ p_control_active p = false
  | CallConfigure r b => 0 <= rl_index_entries r < U64_MAX /\ 0 <= rl_pending_records r < U64_MAX /\ 0 <= pb_operations b /\ 0 <= pb_bytes b /\ 0 <= pb_records b
  | CallSetLimits l => limits_ok l /\ p_segment p = None
  | _ => True
  end.

Context {QS : QueueSpec Q}.

(** A newly built pipeline over an idle queue. *)
Inductive built p : Prop :=
| built_empty q limits : queue_ok q -> limits_ok limits -> Pipeline_empty q limits = Ok p -> built p
| built_read_only q header limits base : queue_ok q -> limits_ok limits -> segment_header_ok header -> 0 <= base < 2 ^ 62 ->
    Pipeline_read_only q header limits base = Ok p -> built p
| built_new q header limits base : queue_ok q -> limits_ok limits -> segment_header_ok header -> 0 <= base < 2 ^ 62 ->
    Pipeline_new q header limits base = Ok p -> built p.

Inductive reach : Pipeline Q -> list event -> Prop :=
| reach_start p : built p -> reach p []
| reach_call p evs c p' new : reach p evs -> call_ok p c -> exec p c = Some (p', new) -> reach p' (evs ++ new).

(** ** Construction *)

Lemma empty_live q limits p : queue_ok q -> limits_ok limits -> Pipeline_empty q limits = Ok p ->
  live p [] /\ p_extents p = [] /\ p_segment p = None /\ p_limits p = limits.
Proof.
  intros Hq Hl H. unfold Pipeline_empty in H. inv_ok. subst p. boolp. destruct (vacant_accepted _ Hq) as [Hv Hv0].
  assert (Hacc : accepted q = []) by (destruct (accepted q); [reflexivity | rewrite len_cons in Hv; pose proof (len_nonneg l); lia]).
  pose proof (len_nonneg (accepted q)). split; [|auto].
  assert (Hrep : forall i x, replicate (Z.to_nat (depth q)) (@None Pending) !! i = Some x -> x = None) by (intros i x Hx; apply lookup_replicate in Hx; tauto).
  constructor; cbn [p_slots p_next_ticket p_writes p_failed_at].
  - constructor; cbn; auto; try (intros; discriminate); try (repeat constructor; lia); try lia.
    + rewrite Hacc. assert (Hnone : forall P, P None = false -> tracks (replicate (Z.to_nat (depth q)) (@None Pending)) P []).
      { intros P HP. split; [constructor|]. intros i. split; [intros Hi; inversion Hi|]. intros (x & Hx & Hp). rewrite (Hrep i x Hx) in Hp. congruence. }
      constructor; try (apply Hnone; reflexivity); try reflexivity.
      * rewrite length_replicate. lia.
      * lia.
      * split; [apply NoDup_seq|]. intros i. rewrite elem_of_seq. split.
        -- intros Hi. exists None. split; [apply lookup_replicate; split; [reflexivity | lia] | reflexivity].
        -- intros (x & Hx & _). apply lookup_replicate in Hx. lia.
      * intros sh Hin. inversion Hin.
    + intros [Hc|Hc]; congruence.
    + constructor; try (intros; discriminate).
      * intros i x Hi. apply Hrep in Hi. discriminate.
      * split; [constructor|]. intros k. rewrite lookup_empty. split; [intros Hk; inversion Hk | intros [? [=]]].
      * rewrite total_of_replicate; reflexivity.
      * rewrite total_of_replicate; reflexivity.
    + split; [vm_compute; discriminate|]. cbn. split; [congruence | constructor].
    + intros i w r0 b Hi. apply Hrep in Hi. discriminate.
  - constructor; try constructor.
    + unfold tickets. clear. induction (Z.to_nat (depth q)) as [|n IH]; [reflexivity | exact IH].
    + intros before after t Hs. destruct before; discriminate.
  - constructor; repeat intro; match goal with Hin : _ ∈ [] |- _ => inversion Hin end.
Qed.

(** A first extent, or a further one. *)
Lemma live_extents p evs e seg cur : live p evs -> p_writes p = [] -> p_flush p = None -> p_segment p = None -> 0 <= ext_base e < 2 ^ 62 ->
  len (p_extents p) < U32_MAX -> cur = len (p_extents p) -> (forall b, seg = Some b -> exists ms, segment_ok (p_limits p) b ms) ->
  live (set_segment seg (set_extents (p_extents p ++ [e]) (set_current cur p))) evs.
Proof.
  intros V Hw Hf Hs He Hlen -> Hseg. pose proof (v_ok _ _ V) as K. pose proof (k_extents _ K) as (_ & _ & Hall). pose proof (len_nonneg (p_extents p)).
  constructor; fields; [|apply V | apply V]. keep K.
  - rewrite len_app. change (len [e]) with 1. eapply data_extents; [apply K | lia].
  - intros b Hb. split; [auto|]. destruct (p_extents p); discriminate.
  - rewrite len_app. change (len [e]) with 1. split; [lia|]. split; [lia|]. apply Forall_app. split; [assumption | repeat constructor; lia].
Qed.

Lemma built_live p : built p -> live p [].
Proof.
  assert (Hro : forall q header limits base p, queue_ok q -> limits_ok limits -> 0 <= base < 2 ^ 62 -> Pipeline_read_only q header limits base = Ok p ->
            live p [] /\ p_segment p = None /\ p_limits p = limits /\ p_extents p <> []).
  { clear p. intros q header limits base p Hq Hl Hb H. unfold Pipeline_read_only in H. apply rbind_Ok_inv in H as (u & _ & H). apply rbind_Ok_inv in H as (p0 & H0 & H).
    destruct (empty_live q limits p0 Hq Hl H0) as (V & Hx & Hs & Hlim). inv_ok. subst p. split; [|fields; rewrite Hx; auto].
    assert (Hf : p_flush p0 = None /\ p_writes p0 = [] /\ p_current p0 = 0) by (unfold Pipeline_empty in H0; inv_ok; subst p0; auto). destruct Hf as (Hf & Hw & Hcur).
    pose proof (live_extents p0 [] {| ext_header := header; ext_base := base |} None 0 V Hw Hf Hs Hb) as V'. rewrite Hx in V'.
    specialize (V' eq_refl eq_refl ltac:(discriminate)). destruct p0. fields. subst. exact V'. }
  destruct 1 as [q limits Hq Hl H|q header limits base Hq Hl Hh Hb H|q header limits base Hq Hl Hh Hb H].
  - apply (empty_live q limits p Hq Hl H).
  - apply (Hro q header limits base p Hq Hl Hb H).
  - unfold Pipeline_new, segment_err in H. apply rbind_Ok_inv in H as (b & Hnb & H). apply map_err_Ok in Hnb. apply rbind_Ok_inv in H as (p0 & H0 & H).
    destruct (Hro _ _ _ _ _ Hq Hl Hb H0) as (V & Hs & Hlim & Hx). inv_ok. subst p. pose proof (v_ok _ _ V) as K. constructor; fields; [|apply V | apply V]. keep K.
    intros b0 [= <-]. split; [|assumption]. exists []. eapply SegmentBuilder_new_ok; eassumption.
Qed.

(** ** Calls that move no request *)

Lemma attach_good p evs header base writable : good p evs -> segment_header_ok header -> 0 <= base < 2 ^ 62 ->
  match attach try_reserve p header base writable with Ok p' => good p' evs | Err _ => True | Panic => False end.
Proof.
  intros G Hh Hb. unfold attach. refuse Hg. boolp. destruct G as [V|F]; [|pose proof (x_failed _ _ F); congruence].
  assert (Hw : p_writes p = []) by (destruct (p_writes p) as [|? l]; [reflexivity | rewrite len_cons in *; pose proof (len_nonneg l); lia]).
  assert (Hf : p_flush p = None) by (destruct (p_flush p); [discriminate | reflexivity]).
  assert (Hs : p_segment p = None) by (destruct (p_segment p); [discriminate | reflexivity]).
  assert (Hm : safe (if writable then let? b := segment_err (SegmentBuilder_new header) in Ok (Some b) else Ok (@None SegmentBuilder)) /\
    forall o b, (if writable then let? b := segment_err (SegmentBuilder_new header) in Ok (Some b) else Ok None) = Ok o -> o = Some b -> segment_ok (p_limits p) b []).
  { destruct writable; [|split; [discriminate | congruence]]. unfold segment_err. split.
    - apply safe_rbind; [apply safe_map_err; unfold SegmentBuilder_new; apply safe_rbind; [apply safe_fail_if | intros; apply safe_Ok] | intros; apply safe_Ok].
    - intros o b Ho Hob. inv_ok. subst. injection Hob as ->. eapply SegmentBuilder_new_ok; eassumption. }
  destruct Hm as [Hsafe Hok]. destruct (if writable then _ else _) as [o|e|]; cbn [rbind]; [|exact I | congruence].
  destruct (reserve try_reserve 1) as [u1|e|] eqn:Hr; cbn [rbind]; [|exact I | apply (reserve_safe try_reserve 1 Hr)].
  left. apply live_extents; auto. intros b Hbo. exists []. eapply Hok; eauto.
Qed.

Lemma restore_good p evs m : good p evs -> p_extents p <> [] -> is_u32 (offset (position (md_header m))) ->
  match restore try_reserve p m with Ok p' => good p' evs | Err _ => True | Panic => False end.
Proof.
  intros G Hx Ho. assert (Hext : extents_ok p) by (destruct G as [V|F]; [apply V | apply F]). destruct Hext as (Hlen & Hcur & _). specialize (Hcur Hx).
  unfold restore. refuse Hg.
  clear Hg. pose proof (position_in_safe p (p_current p) (offset (position (md_header m))) Hcur) as Hps.
  destruct (position_in _ _ _) as [pos|e|] eqn:Hpos; cbn [rbind]; [|exact I | congruence]. apply position_in_offset in Hpos.
  destruct (extent_safe p (p_current p) Hcur) as (e & ->). cbn [rbind]. cbv zeta.
  refuse Hg1.
  unfold frame_err. pose proof (Metadata_decode_safe (md_bytes m) (p_limits p) pos) as Hms.
  destruct (Metadata_decode _ _ _) as [m1|e1|] eqn:Hm; cbn [map_err rbind]; [|exact I | congruence].
  destruct (reserve try_reserve _) as [u2|e2|] eqn:Hr; cbn [rbind]; [|exact I | apply (reserve_safe try_reserve _ Hr)].
  rewrite (wrap32_small (p_current p)) by (unfold is_u32, U32_MAX in *; lia).
  destruct (entries_spec _ _ _ _ (p_current p) (len (p_extents p)) Hm Hcur ltac:(rewrite Hpos; assumption)) as (es & -> & _ & Hlocs). cbn [map_err rbind].
  pose proof (reserve_entries_safe try_reserve p es) as Hres. destruct (reserve_entries try_reserve p es) as [new|e3|] eqn:Hre; cbn [rbind]; [|exact I | congruence].
  destruct (apply (p_index p) (p_keys p) es) as [index keys] eqn:Ha. destruct G as [V|F].
  - left. pose proof (v_ok _ _ V) as K. destruct (reserve_entries_ok try_reserve p es new (proj1 (k_resources _ K)) Hre) as [H1 H2].
    constructor; fields; [|apply V | apply V]. keep K.
    pose proof (data_restore (k_data _ K) es new Hlocs H1 H2) as D. rewrite Ha in D. exact D.
  - right. destruct F. constructor; fields; assumption.
Qed.

Lemma all_free p evs : live p evs -> in_flight p = 0 -> forall i x, p_slots p !! i = Some x -> x = None.
Proof.
  intros V Hf i x Hi. destruct x as [x|]; [|reflexivity]. exfalso. unfold in_flight, len in Hf.
  pose proof (tracks_bound _ _ _ [i] (t_free _ _ _ _ _ _ _ _ (live_table V)) (NoDup_singleton i)) as Hb. cbn [length] in Hb.
  assert ((length (p_free p) + 1 <= length (p_slots p))%nat); [|lia]. apply Hb. intros j Hj. apply list_elem_of_singleton in Hj as ->. eauto.
Qed.

Lemma configure_good p evs r b : good p evs -> call_ok p (CallConfigure r b) ->
  match configure p r b with Ok p' => good p' evs | Err _ => True | Panic => False end.
Proof.
  intros G (HE & HP & Ho & Hb & Hr). unfold configure. refuse Hg. refuse Hg1. boolp. destruct G as [V|F].
  - left. pose proof (v_ok _ _ V) as K. constructor; fields; [|apply V | apply V]. keep K.
    + apply (data_limits (k_data _ K)); [lia | eapply all_free; eauto | lia | lia].
    + split; lia.
    + split; [|split]; lia.
  - right. destruct F. constructor; fields; try assumption. split; [|split]; lia.
Qed.

(** An admission refused because the queue failed. *)
Lemma admission_failed p evs w : failed p evs -> admission p w = Err pipeline.QueueFailed.
Proof. intros F. unfold admission. rewrite (x_failed _ _ F). reflexivity. Qed.

Lemma failed_admission_calls p evs : failed p evs ->
  (forall b buf, exists e, write try_reserve p b buf = Err e) /\
  (forall k n vl buf, exists e, write_prepared try_reserve p k n vl buf = Err e) /\
  (forall k r v bufs, exists e, read p k r v bufs = Err e) /\ (exists e, flush p = Err e).
Proof.
  intros F. assert (Hsf : forall buf encode, exists e, submit_frame try_reserve p buf encode = Err e).
  { intros buf encode. unfold submit_frame. rewrite (admission_failed p evs true F). simpl. eauto. }
  split; [|split; [|split]].
  - intros b buf. unfold write. destruct (_ >? _); [simpl; eauto | apply Hsf].
  - intros k n vl buf. unfold write_prepared. destruct (PreparedFrame_required_len (p_limits p) vl) as [l|e|] eqn:Hl; cbn [map_err rbind]; [| eauto |].
    + destruct (_ >? _); [simpl; eauto | apply Hsf].
    + exfalso. unfold PreparedFrame_required_len in Hl. destruct (_ >? _) in Hl; [discriminate|]. simpl in Hl. destruct (_ >? _) in Hl; discriminate.
  - intros k r v bufs. unfold read, read_verified, read_direct. rewrite (admission_failed p evs false F). destruct v; simpl; eauto.
  - unfold flush. rewrite (admission_failed p evs false F). simpl. eauto.
Qed.

Lemma quiet_good {A} p evs (f : A -> Pipeline Q) (m : presult A) :
  good p evs -> match m with Ok a => good (f a) evs | Err _ => True | Panic => False end -> exists p' new, quiet p f m = Some (p', new) /\ good p' (evs ++ new).
Proof. intros G Hm. destruct m as [a| |]; [| |contradiction]; simpl; eexists _, []; rewrite app_nil_r; auto. Qed.

Lemma admit_good {E} p evs k (m : res E (Z * Pipeline Q)) : good p evs -> (forall (V : live p evs), admits (evs := evs) k m) -> (failed p evs -> exists e, m = Err e) ->
  exists p' new, issue p k m = Some (p', new) /\ good p' (evs ++ new).
Proof.
  intros [V|F] Hl Hf.
  - specialize (Hl V). destruct m as [[t p']|e|]; [| |contradiction]; simpl; [eexists _, [_]; split; [reflexivity | left; exact Hl]|].
    eexists _, []. rewrite app_nil_r. split; [reflexivity | left; assumption].
  - destruct (Hf F) as [e ->]. simpl. eexists _, []. rewrite app_nil_r. split; [reflexivity | right; assumption].
Qed.

(** Every call the engine makes returns and keeps the pipeline sound. *)
Lemma exec_good p evs c : good p evs -> call_ok p c -> exists p' new, exec p c = Some (p', new) /\ good p' (evs ++ new).
Proof.
  intros G Hc. destruct c; cbn [exec call_ok] in *.
  - apply admit_good; [assumption | intros V; apply (write_admits try_reserve V); assumption | intros F; apply (failed_admission_calls p evs F)].
  - apply admit_good; [assumption | intros V; destruct Hc as (? & ? & ?); apply (write_prepared_admits try_reserve V); assumption | intros F; apply (failed_admission_calls p evs F)].
  - apply admit_good; [assumption | intros V; apply (read_admits V); assumption | intros F; apply (failed_admission_calls p evs F)].
  - apply admit_good; [assumption | intros V; apply (flush_admits V) | intros F; apply (failed_admission_calls p evs F)].
  - destruct (poll_good p evs wait [] G) as (p' & new & -> & G'). simpl. eauto.
  - apply quiet_good; [assumption|]. destruct Hc. apply attach_good; assumption.
  - apply quiet_good; [assumption|]. unfold take_segment. refuse Hg. refuse Hg1.
    destruct (p_failed_at p); cbn [rbind snd]; [exact I|]. destruct G as [V|F]; [left | right; destruct F; constructor; fields; assumption].
    constructor; fields; [|apply V | apply V]. pose proof (v_ok _ _ V) as K. keep K. discriminate.
  - apply quiet_good; [assumption|]. destruct Hc. apply restore_good; assumption.
  - apply quiet_good; [assumption|]. unfold control_io. destruct (p_queue_failed p) eqn:Hqf; cbn [fail_if rbind]; [exact I|].
    refuse Hg. boolp.
    destruct G as [V|F]; [|pose proof (x_failed _ _ F); congruence]. left. constructor; fields; [|apply V | apply V]. pose proof (v_ok _ _ V) as K. keep K; [auto|].
    intros r [= <-]. auto.
  - eexists _, []. split; [reflexivity|]. rewrite app_nil_r. destruct G as [V|F]; [left | right; destruct F; constructor; fields; assumption].
    pose proof (v_ok _ _ V) as K. constructor; fields; [|apply V | apply V]. keep K.
  - eexists _, []. split; [reflexivity|]. rewrite app_nil_r. destruct G as [V|F]; [left | right; destruct F; constructor; fields; assumption].
    pose proof (v_ok _ _ V) as K. constructor; fields; [|apply V | apply V]. keep K. intros Hp. destruct Hc as [->|[Hf|[H1 H2]]]; [reflexivity | pose proof (k_live _ K); congruence | destruct Hp; congruence].
  - apply quiet_good; [assumption|]. unfold next_ticket. refuse Hg. cbn [snd].
    destruct G as [V|F]; [left | right; destruct F; constructor; fields; try assumption; eapply history_next; [eassumption | lia]].
    pose proof (v_ok _ _ V) as K. constructor; fields; [|eapply history_next; [apply V | lia] | apply V]. keep K. eapply data_next; [apply K | lia].
  - apply quiet_good; [assumption|]. apply configure_good; assumption.
  - eexists _, []. split; [reflexivity|]. rewrite app_nil_r. destruct G as [V|F]; [left | right; destruct F; constructor; fields; assumption].
    pose proof (v_ok _ _ V) as K. constructor; fields; [|apply V | apply V]. keep K.
  - eexists _, []. split; [reflexivity|]. rewrite app_nil_r. destruct Hc as [Hl Hs]. destruct G as [V|F]; [left | right; destruct F; constructor; fields; assumption].
    pose proof (v_ok _ _ V) as K. constructor; fields; [|apply V | apply V]. keep K; [assumption|]. congruence.
Qed.

Lemma reach_good p evs : reach p evs -> good p evs.
Proof.
  induction 1 as [p Hb|p evs c p' new _ IH Hc He]; [left; apply built_live; assumption|].
  destruct (exec_good p evs c IH Hc) as (p1 & new1 & He1 & G). rewrite He in He1. injection He1 as <- <-. exact G.
Qed.

Lemma exec_returns p evs c : reach p evs -> call_ok p c -> exec p c <> None.
Proof. intros Hr Hc. destruct (exec_good p evs c (reach_good p evs Hr) Hc) as (p' & new & -> & _). discriminate. Qed.

Lemma good_history p evs : good p evs -> history_ok (p_slots p) (p_next_ticket p) evs.
Proof. intros [V|F]; [apply V | apply F]. Qed.

End Machine.

(** ** Draining a failed queue *)

Section Drain.
Context {Q : Type} {QI : Queue Q} {QS : QueueSpec Q} {C : CrcFast} (try_reserve : Z -> bool).
Implicit Types p : Pipeline Q.

(** A sequence of calls, with the events they add. *)
Fixpoint run p (calls : list call) : option (Pipeline Q * list event) :=
  match calls with
  | [] => Some (p, [])
  | c :: rest =>
      match exec try_reserve p c with
      | None => None
      | Some (p', new) => match run p' rest with Some (p'', more) => Some (p'', new ++ more) | None => None end
      end
  end.

Lemma tickets_nil slots : (forall i x, slots !! i = Some x -> x = None) -> tickets slots = [].
Proof.
  induction slots as [|x slots IH]; intros H; [reflexivity|]. rewrite (H 0%nat x eq_refl). apply IH. intros i y Hy. exact (H (S i) y Hy).
Qed.

Lemma failed_poll p evs wait : failed p evs -> exists p' new, poll p wait [] = Ok (p', new) /\ failed p' (evs ++ map Finished new) /\
  length (p_slots p') = length (p_slots p) /\ p_failed_cursor p + (if p_failed_cursor p <? len (p_slots p) then 1 else 0) <= p_failed_cursor p'.
Proof.
  intros F. unfold poll. rewrite (x_failed _ _ F).
  destruct (retire_failed_drains evs [] {| pd_pipeline := p; pd_out := []; pd_work := Work_default |}) as (s' & -> & (new & Ho & F') & A1 & A2 & A3).
  { exists []. split; [reflexivity|]. simpl. rewrite app_nil_r. assumption. }
  cbn [rbind]. rewrite Ho. exists (pd_pipeline s'), new. split; [reflexivity|]. split; [assumption|]. split; [assumption|].
  cbn [pd_pipeline] in A3. unfold can_retire in A3. cbn [pd_pipeline pd_work] in A3. destruct (x_budget _ _ F) as (B1 & B2 & B3).
  replace (exhausted Work_default (p_budget p)) with false in A3; [rewrite andb_true_r in A3; exact A3|]. symmetry. unfold exhausted, Work_default.
  cbn [wk_operations wk_bytes wk_records]. decide_guard.
Qed.

Lemma drain_polls n : forall p evs, failed p evs -> len (p_slots p) <= p_failed_cursor p + Z.of_nat n ->
  exists p' new, run p (replicate n (CallPoll false)) = Some (p', new) /\ failed p' (evs ++ new) /\ admitted new = [] /\ tickets (p_slots p') = [].
Proof.
  induction n as [|n IH]; intros p evs F Hn.
  - exists p, []. rewrite app_nil_r. split; [reflexivity|]. split; [assumption|]. split; [reflexivity|]. apply tickets_nil. intros i x Hi.
    destruct (x_cursor _ _ F) as [_ Hc]. apply (Hc i x); [|assumption]. apply lookup_lt_Some in Hi. unfold len in Hn. lia.
  - destruct (failed_poll p evs false F) as (p1 & new & Hp & F1 & Hl & Hc). cbn [replicate run exec]. rewrite Hp.
    destruct (IH p1 (evs ++ map Finished new) F1) as (p' & more & -> & F' & Ha & Ht).
    { unfold len in *. rewrite Hl. destruct (Z.ltb_spec (p_failed_cursor p) (Z.of_nat (length (p_slots p)))); lia. }
    exists p', (map Finished new ++ more). rewrite app_assoc. split; [reflexivity|]. split; [assumption|]. split; [|assumption].
    unfold admitted in *. rewrite omap_app, Ha, app_nil_r. clear. induction new as [|c new IH]; [reflexivity | exact IH].
Qed.
End Drain.

(** ** The properties *)

Section Theorems.
Context {Q : Type} {QI : Queue Q} {QS : QueueSpec Q} {C : CrcFast} (try_reserve : Z -> bool).
Implicit Types p : Pipeline Q.

(** C1: in every reachable state, every call the engine may make returns: the panics of the
    pipeline (an exhausted slot stack, a rejected submission, a missing buffer, a record behind
    validated metadata) are unreachable over any queue that keeps the queue contract. *)
Theorem pipeline_never_panics p evs c (Hr : reach try_reserve p evs) (Hc : call_ok p c) : exec try_reserve p c <> None.
Proof. destruct (exec_good try_reserve p evs c (reach_good _ _ _ Hr) Hc) as (p' & new & -> & _). discriminate. Qed.


(** C2: when a flush is delivered as a success, every write admitted before it has been
    delivered before it, as a success. *)
Theorem flush_is_barrier p evs (Hr : reach try_reserve p evs) : flush_covers evs.
Proof. apply (good_history _ _ (reach_good _ _ _ Hr)). Qed.

(** C36: tickets are handed out in increasing order, and every admitted ticket either is in flight
    or has been delivered exactly once, also after the queue fails. *)
Theorem tickets_complete_once p evs (Hr : reach try_reserve p evs) :
  StronglySorted Z.lt (admitted evs) /\ Permutation (admitted evs) (finished evs ++ tickets (p_slots p)).
Proof. pose proof (good_history _ _ (reach_good _ _ _ Hr)) as H. split; apply H. Qed.

(** while the queue works, the index together with the reservations of writes in flight
    stays within its limit, so does the metadata of pending records, every operation in flight has
    a slot of the queue's depth, and the key list names the indexed keys once each. *)
Theorem pipeline_within_limits p evs (Hr : reach try_reserve p evs) (Hq : p_queue_failed p = false) :
  Z.of_nat (size (p_index p)) + p_pending_new p <= rl_index_entries (p_resources p) /\
  p_pending_entries p <= rl_pending_records (p_resources p) /\
  0 <= in_flight p <= depth (p_queue p) /\ keys_ok (p_index p) (p_keys p).
Proof.
  destruct (reach_good _ _ _ Hr) as [V|F]; [|pose proof (x_failed _ _ F); congruence]. pose proof (v_ok _ _ V) as K. pose proof (k_data _ K) as D.
  split; [apply D|]. split; [apply D|]. split; [|apply D]. pose proof (t_len _ _ _ _ _ _ _ _ (live_table V)) as Hl. unfold in_flight, len.
  pose proof (tracks_bound _ _ _ [] (t_free _ _ _ _ _ _ _ _ (live_table V)) (NoDup_nil_2)) as Hb. cbn [length] in Hb.
  assert ((length (p_free p) + 0 <= length (p_slots p))%nat) by (apply Hb; intros i Hi; inversion Hi). lia.
Qed.

(** after the queue fails, as many polls as the queue is deep deliver every ticket still in
    flight, so that each admitted ticket has been delivered. *)
Theorem queue_failure_drains p evs (Hr : reach try_reserve p evs) (Hq : p_queue_failed p = true) :
  exists p' new, run try_reserve p (replicate (length (p_slots p)) (CallPoll false)) = Some (p', new) /\
    Permutation (admitted evs) (finished (evs ++ new)) /\ tickets (p_slots p') = [].
Proof.
  destruct (reach_good _ _ _ Hr) as [V|F]; [pose proof (k_live _ (v_ok _ _ V)); congruence|].
  destruct (drain_polls try_reserve (length (p_slots p)) p evs F) as (p' & new & Hrun & F' & Ha & Ht).
  { pose proof (x_cursor _ _ F) as [Hc _]. unfold len. lia. }
  exists p', new. split; [assumption|]. split; [|assumption]. pose proof (h_tickets _ _ _ (x_history _ _ F')) as Hp. rewrite Ht, app_nil_r in Hp.
  rewrite <- Hp. unfold admitted in *. rewrite omap_app, Ha, app_nil_r. reflexivity.
Qed.
End Theorems.
