(* ===== verification/PipelineWitness.v ===== *)
(** * Concrete runs of the pipeline

    A pipeline over the blocking file queue and an in-memory file: a write, a
    flush and both kinds of read, and the same over a queue that fails. *)

From stdpp Require Import gmap sorting.
From S2P Require Import Prelude Align ChunkId Checksum Codec FrameFormat FrameDecode FrameBuilder FrameBuilderProofs FrameRoundtrip.
From S2P Require Import SegmentFormat SegmentBuilder SegmentProofs.
From S2P Require Import Io Index PipelineState Pipeline PipelineTable PipelineInv PipelineTrace PipelinePoll PipelineSafe.

Definition always : Z -> bool := fun _ => true.
Definition one_value : FrameBuilder := appended (FrameBuilder_new sample_limits) sample_value.

Lemma one_value_ok : builder_ok one_value.
Proof.
  assert (H1 : input_ok sample_limits sample_value) by (repeat split; (reflexivity || discriminate || (vm_compute; discriminate))).
  exact (appended_ok _ _ (FrameBuilder_new_ok _ sample_limits_ok) H1 ltac:(vm_compute; discriminate)).
Qed.

Definition page_buffers : ReadBuffers := {| rb_metadata := Some (zeros 4096); rb_value := zeros 4096 |}.
Definition sample_calls : list call :=
  [CallWrite one_value (zeros 4096); CallFlush; CallPoll false; CallPoll false;
   CallRead (zeros 16) (0, 2) true page_buffers; CallRead (zeros 16) (1, 2) false page_buffers; CallPoll false].

Section Runs.
Context {Q : Type} {QI : Queue Q} {QS : QueueSpec Q}.

Lemma run_reach calls : forall (p : Pipeline Q) evs p' new, reach (C := crc_ref) always p evs -> (forall (q : Pipeline Q) c, c ∈ calls -> call_ok q c) ->
  run (C := crc_ref) always p calls = Some (p', new) -> reach always p' (evs ++ new).
Proof.
  induction calls as [|c calls IH]; intros p evs p' new Hr Hc H; cbn [run] in H.
  - injection H as <- <-. rewrite app_nil_r. assumption.
  - destruct (exec always p c) as [[p1 new1]|] eqn:He; [|discriminate]. destruct (run always p1 calls) as [[p2 more]|] eqn:Hrun; [|discriminate].
    injection H as <- <-. rewrite app_assoc. eapply IH; [eapply reach_call; [eassumption | | eassumption] | | eassumption]; [apply Hc, elem_of_cons; auto|].
    intros q c' Hc'. apply Hc, elem_of_cons. auto.
Qed.

Lemma sample_calls_ok (q : Pipeline Q) c : c ∈ sample_calls -> call_ok q c.
Proof.
  intros Hc. repeat (apply elem_of_cons in Hc as [->|Hc]; [simpl; auto using one_value_ok; lia|]). inversion Hc.
Qed.

Definition start_of (q : Q) : option (Pipeline Q) :=
  match Pipeline_new q sample_header sample_limits 0 with Ok p => Some p | _ => None end.
Definition outcome (q : Q) (calls : list call) : option (Pipeline Q * list event) :=
  match start_of q with Some p => run (C := crc_ref) always p calls | None => None end.

Lemma outcome_reach q calls p evs : queue_ok q -> (forall (p : Pipeline Q) c, c ∈ calls -> call_ok p c) -> outcome q calls = Some (p, evs) -> reach (C := crc_ref) always p evs.
Proof.
  unfold outcome, start_of. intros Hq Hc H. destruct (Pipeline_new q sample_header sample_limits 0) as [p0| |] eqn:Hp; try discriminate.
  change evs with ([] ++ evs). eapply run_reach; [|exact Hc | exact H]. apply reach_start.
  eapply built_new; [exact Hq | exact sample_limits_ok | exact sample_header_ok | | exact Hp]. lia.
Qed.
End Runs.

Definition memory_queue : FileQueue MemFile := {| fq_file := zeros 12288; fq_depth := 4; fq_completed := [] |}.

(** What was delivered, without the buffers. *)
Definition delivered (evs : list event) : list (Z * bool) :=
  omap (fun e => match e with
                 | Finished (CWrite t r _) => Some (t, match r with Ok _ => true | _ => false end)
                 | Finished (CRead t r _) => Some (t, match r with Ok _ => true | _ => false end)
                 | Finished (CFlush t r) => Some (t, match r with Ok _ => true | _ => false end)
                 | Finished (CFailed t _) => Some (t, false)
                 | _ => None
                 end) evs.

Example sample_delivered :
  (delivered ∘ snd) <$> outcome memory_queue sample_calls = Some [(1, true); (2, true); (3, true); (4, true)].
Proof. vm_compute. reflexivity. Qed.

Lemma sample_reach p evs : outcome memory_queue sample_calls = Some (p, evs) -> reach (C := crc_ref) always p evs.
Proof. apply outcome_reach; [vm_compute; discriminate | intros q c Hc; apply sample_calls_ok; exact Hc]. Qed.

Lemma sample_outcome : exists p evs, outcome memory_queue sample_calls = Some (p, evs) /\ delivered evs = [(1, true); (2, true); (3, true); (4, true)].
Proof.
  pose proof sample_delivered as H. destruct (outcome memory_queue sample_calls) as [[p evs]|]; [|discriminate]. injection H as H. eauto.
Qed.

(** ** A queue whose poll fails after a number of polls *)

Record FailingQueue := { inner : FileQueue MemFile; working : nat }.

#[export] Instance FailingQueue_queue : Queue FailingQueue := {
  has_ready q := has_ready (inner q);
  depth q := depth (inner q);
  vacant q := vacant (inner q);
  try_submit q r := match try_submit (inner q) r with inl q' => inl {| inner := q'; working := working q |} | inr r => inr r end;
  queue_poll q _ := match working q with O => (q, Some 5) | S n => ({| inner := inner q; working := n |}, None) end;
  pop q := match pop (inner q) with Some (c, q') => Some (c, {| inner := q'; working := working q |}) | None => None end
}.

#[export] Program Instance FailingQueue_spec : QueueSpec FailingQueue := {
  accepted q := accepted (inner q);
  queue_ok q := queue_ok (inner q)
}.
Next Obligation. intros q Hq. exact (vacant_accepted (inner q) Hq). Qed.
Next Obligation. intros q r Hq Hv. destruct (submit_ok (inner q) r Hq Hv) as (q' & Hs & H). exists {| inner := q'; working := working q |}. simpl in *. rewrite Hs. auto. Qed.
Next Obligation. intros q r Hq Hv. pose proof (submit_full (inner q) r Hq Hv) as Hs. simpl in *. rewrite Hs. reflexivity. Qed.
Next Obligation. intros q w Hq. simpl. destruct (working q); auto. Qed.
Next Obligation.
  intros q c q' Hq Hp. simpl in Hp. destruct (FileQueue_pop (inner q)) as [[c' q1]|] eqn:H1; [|discriminate]. injection Hp as <- <-.
  exact (pop_some (inner q) c' q1 Hq H1).
Qed.

Definition failing_calls : list call := [CallWrite one_value (zeros 4096); CallFlush; CallPoll false].

Example failing_delivered :
  (fun x => (delivered x.2, p_queue_failed x.1, length (p_slots x.1))) <$> outcome {| inner := memory_queue; working := 0 |} failing_calls = Some ([(1, false); (2, false)], true, 4%nat).
Proof. vm_compute. reflexivity. Qed.

Lemma failing_outcome : exists p evs, outcome {| inner := memory_queue; working := 0 |} failing_calls = Some (p, evs) /\ p_queue_failed p = true /\ delivered evs = [(1, false); (2, false)].
Proof.
  pose proof failing_delivered as H. destruct (outcome {| inner := memory_queue; working := 0 |} failing_calls) as [[p evs]|]; [|discriminate].
  injection H as H1 H2. eauto.
Qed.

Lemma failing_reach p evs : outcome {| inner := memory_queue; working := 0 |} failing_calls = Some (p, evs) -> reach (C := crc_ref) always p evs.
Proof.
  apply outcome_reach; [vm_compute; discriminate|]. intros q c Hc. repeat (apply elem_of_cons in Hc as [->|Hc]; [simpl; auto using one_value_ok|]). inversion Hc.
Qed.

(** ** Failed writes out of order

    One operation per poll: the first write is delivered and frees slot 0, the
    third takes that slot while the second holds slot 1, and then the queue
    fails. *)






(** ** Witnesses *)

Lemma pipeline_never_panics_witness : exists p evs, reach (C := crc_ref) (Q := FileQueue MemFile) always p evs /\ exec always p (CallWrite one_value (zeros 4096)) <> None.
Proof.
  destruct sample_outcome as (p & evs & Ho & _). exists p, evs. split; [apply sample_reach; exact Ho|].
  exact (pipeline_never_panics (C := crc_ref) always p evs (CallWrite one_value (zeros 4096)) (sample_reach p evs Ho) one_value_ok).
Defined.


Lemma flush_is_barrier_witness : exists p evs, reach (C := crc_ref) (Q := FileQueue MemFile) always p evs /\
  delivered evs = [(1, true); (2, true); (3, true); (4, true)] /\ flush_covers evs.
Proof.
  destruct sample_outcome as (p & evs & Ho & Hd). exists p, evs. split; [apply sample_reach; exact Ho|]. split; [exact Hd|].
  exact (flush_is_barrier (C := crc_ref) always p evs (sample_reach p evs Ho)).
Defined.

Lemma tickets_complete_once_witness : exists p evs, reach (C := crc_ref) (Q := FileQueue MemFile) always p evs /\
  delivered evs = [(1, true); (2, true); (3, true); (4, true)] /\
  Permutation (admitted evs) (finished evs ++ tickets (p_slots (Q := FileQueue MemFile) p)).
Proof.
  destruct sample_outcome as (p & evs & Ho & Hd). exists p, evs. split; [apply sample_reach; exact Ho|]. split; [exact Hd|].
  exact (proj2 (tickets_complete_once (C := crc_ref) always p evs (sample_reach p evs Ho))).
Defined.

Example sample_live : (fun x => p_queue_failed x.1) <$> outcome memory_queue sample_calls = Some false.
Proof. vm_compute. reflexivity. Qed.

Lemma pipeline_within_limits_witness : exists p evs, reach (C := crc_ref) (Q := FileQueue MemFile) always p evs /\ p_queue_failed p = false /\
  Z.of_nat (size (p_index p)) + p_pending_new p <= rl_index_entries (p_resources p).
Proof.
  pose proof sample_live as Hl. destruct (outcome memory_queue sample_calls) as [[p evs]|] eqn:Ho; [|discriminate]. injection Hl as Hl.
  exists p, evs. split; [apply sample_reach; exact Ho|]. split; [exact Hl|].
  exact (proj1 (pipeline_within_limits (C := crc_ref) always p evs (sample_reach p evs Ho) Hl)).
Defined.

Lemma queue_failure_drains_witness : exists p evs p' new, reach (C := crc_ref) always p evs /\
  run always p (replicate (length (p_slots p)) (CallPoll false)) = Some (p', new) /\ tickets (p_slots (Q := FailingQueue) p') = [].
Proof.
  destruct failing_outcome as (p & evs & Ho & Hf & _).
  destruct (queue_failure_drains (C := crc_ref) always p evs (failing_reach p evs Ho) Hf) as (p' & new & Hrun & _ & Ht).
  exists p, evs, p', new. split; [apply failing_reach; exact Ho|]. split; [exact Hrun | exact Ht].
Defined.
