(* ===== verification/Layout.v ===== *)
(** * Device geometry (moat-engine/src/engine: device.rs, error.rs, layout.rs)

    The positional device as a class, the engine's errors, the duplicated
    superblock and the destructive formatter. *)

From S2P Require Import Prelude Align Checksum ChunkId Codec FrameFormat FrameDecode SegmentFormat Io Index PipelineState.

(** ** State with errors

    Code that changes a state and may return early with an error: the state
    reached is kept whatever the outcome. Used for the device formatter and for
    the engine's lifecycle steps. *)

Definition eff (S E A : Type) : Type := S -> res E A * S.

Section Eff.
Context {S E : Type}.

Definition eret {A} (a : A) : eff S E A := fun s => (Ok a, s).
Definition ebind {A B} (m : eff S E A) (k : A -> eff S E B) : eff S E B :=
  fun s => match m s with
           | (Ok a, s) => k a s
           | (Err e, s) => (Err e, s)
           | (Panic, s) => (Panic, s)
           end.

(** A pure fallible computation, a read of the state, and an update of it. *)
Definition lift {A} (m : res E A) : eff S E A := fun s => (m, s).
Definition reads {A} (f : S -> A) : eff S E A := fun s => (Ok (f s), s).
Definition modify (f : S -> S) : eff S E unit := fun s => (Ok tt, f s).
Definition when (c : bool) (m : eff S E unit) : eff S E unit := if c then m else eret tt.
End Eff.

Notation "'let!' x ':=' m 'in' k" := (ebind m (fun x => k))
  (at level 10, x pattern, m at level 100, k at level 200, format "'let!'  x  ':='  m  'in' '//' k") : moat_scope.
Notation "m ';!' k" := (ebind m (fun _ => k))
  (at level 100, right associativity, format "m ';!' '//' k") : moat_scope.

Section Laws.
Context {S E : Type}.
Implicit Types s : S.

Lemma ebind_Ok_inv {A B} (m : eff S E A) (k : A -> eff S E B) s b s' :
  ebind m k s = (Ok b, s') -> exists a s1, m s = (Ok a, s1) /\ k a s1 = (Ok b, s').
Proof. unfold ebind. destruct (m s) as [[a|e|] s1]; intros H; try discriminate. eauto. Qed.

(** A run that satisfies [Q] on every outcome; a panic satisfies nothing. *)
Definition runs {A} (m : eff S E A) s (Q : res E A -> S -> Prop) : Prop :=
  match m s with (Panic, _) => False | (r, s') => Q r s' end.

Lemma runs_bind {A B} (m : eff S E A) (k : A -> eff S E B) s (Q : res E B -> S -> Prop) :
  runs m s (fun r s' => match r with Ok a => runs (k a) s' Q | Err e => Q (Err e) s' | Panic => False end) -> runs (ebind m k) s Q.
Proof. unfold runs, ebind. destruct (m s) as [[a|e|] s']; auto. Qed.

Lemma runs_mono {A} (m : eff S E A) s (P Q : res E A -> S -> Prop) : runs m s P -> (forall r s', safe r -> P r s' -> Q r s') -> runs m s Q.
Proof. unfold runs. destruct (m s) as [[a|e|] s']; intros HP HQ; [apply HQ | apply HQ | destruct HP]; auto with moat. Qed.

Lemma runs_eret {A} (a : A) s (Q : res E A -> S -> Prop) : Q (Ok a) s -> runs (eret a) s Q.
Proof. auto. Qed.

Lemma runs_ret {A B} (a : A) (k : A -> eff S E B) s Q : runs (k a) s Q -> runs (ebind (eret a) k) s Q.
Proof. auto. Qed.

Lemma runs_reads {A B} (f : S -> A) (k : A -> eff S E B) s Q : runs (k (f s)) s Q -> runs (ebind (reads f) k) s Q.
Proof. auto. Qed.

Lemma runs_modify {B} (f : S -> S) (k : unit -> eff S E B) s Q : runs (k tt) (f s) Q -> runs (ebind (modify f) k) s Q.
Proof. auto. Qed.

Lemma runs_lift_bind {A B} (m : res E A) (k : A -> eff S E B) s Q :
  safe m -> (forall a, m = Ok a -> runs (k a) s Q) -> (forall e, m = Err e -> Q (Err e) s) -> runs (ebind (lift m) k) s Q.
Proof. unfold runs, ebind, lift, safe. destruct m; intros Hs Ho He; [apply Ho; reflexivity | apply He; reflexivity | congruence]. Qed.

Lemma runs_expect {A B} (o : option A) a (k : A -> eff S E B) s Q : o = Some a -> runs (k a) s Q -> runs (ebind (lift (expect o)) k) s Q.
Proof. intros ->. auto. Qed.

Lemma runs_assoc {A B F} (m : eff S E A) (k : A -> eff S E B) (h : B -> eff S E F) s Q :
  runs (ebind m (fun a => ebind (k a) h)) s Q -> runs (ebind (ebind m k) h) s Q.
Proof. unfold runs, ebind. destruct (m s) as [[a|e|] s']; auto. Qed.

Lemma runs_lift {A} (m : res E A) s (Q : res E A -> S -> Prop) : safe m -> Q m s -> runs (lift m) s Q.
Proof. unfold runs, lift, safe. destruct m; auto; congruence. Qed.
End Laws.

Module engine.
Inductive Error :=
| Aborted (cause : pipeline.Error)
| NotReady
| Closed
| InvalidArgument (what : string)
| NotFormatted
| Corrupt (what : string)
| UnsupportedVersion (version : Z)
| OutOfSpace
| Failed
| IndexAllocation
| Io (e : IoError)
| Pipeline (e : pipeline.Error)
| Segment (e : segment.Error)
| Frame (e : frame.Error).
End engine.

Definition eresult (A : Type) : Type := res engine.Error A.

(** ** Devices

    A read returns the whole destination filled, or an error. *)

Class Device (D : Type) := {
  dev_capacity : D -> io_res Z;
  dev_read : D -> Z -> Z -> io_res Buffer;
  dev_write : D -> Buffer -> Z -> io_res unit * D;
  dev_sync : D -> io_res unit * D
}.

(** The documented contract, on successful operations: positional access to
    [capacity] bytes, and [durable], what a power loss leaves, catching up with
    the writes at a sync. Nothing is said of the bytes a failed write leaves. *)
Class DeviceSpec (D : Type) `{Device D} := {
  contents : D -> list byte;
  capacity_contents : forall d c, dev_capacity d = inr c -> c = len (contents d) /\ c < 2 ^ 64;
  read_len : forall d n off b, dev_read d n off = inr b -> 0 <= n -> len b = n;
  read_contents : forall d n off b, dev_read d n off = inr b -> 0 <= off -> 0 <= n -> off + n <= len (contents d) -> b = sub (contents d) off (off + n);
  write_contents : forall d b off d', dev_write d b off = (inr tt, d') -> 0 <= off -> off + len b <= len (contents d) -> contents d' = splice (contents d) off b;
  sync_contents : forall d, contents (dev_sync d).2 = contents d;
  durable : D -> list byte;
  sync_durable : forall d d', dev_sync d = (inr tt, d') -> durable d' = contents d'
}.

Definition io_err {A} (r : io_res A) : eresult A := match r with inr a => Ok a | inl e => Err (engine.Io e) end.

(** ** Geometry *)

Inductive SyncMode := SyncEnabled | SyncDisabled.
#[export] Instance SyncMode_eq_dec : EqDecision SyncMode.
Proof. solve_decision. Defined.
Definition SyncMode_default : SyncMode := SyncEnabled.

Definition DEVICE_MAGIC : list byte := Eval vm_compute in String.list_byte_of_string "MOATDEV1".
Definition DEVICE_VERSION : Z := 1.
Definition START : Z := 2 * PAGE_SIZE.

#[export] Instance FrameLimits_eq_dec : EqDecision FrameLimits.
Proof. solve_decision. Defined.

Record Layout := { l_id : list byte; l_capacity : Z; l_segment_size : Z; l_segments : Z; l_limits : FrameLimits; l_sequence : Z }.
#[export] Instance Layout_eq_dec : EqDecision Layout.
Proof. solve_decision. Defined.

Record FormatOptions := { fo_sync_mode : SyncMode; fo_device_id : list byte; fo_segment_size : Z; fo_limits : FrameLimits }.

Definition Layout_new (cap : Z) (options : FormatOptions) (seq : Z) : eresult Layout :=
  let count := saturating_sub cap START / Z.max (fo_segment_size options) 1 in
  fail_if (bytes_eqb (fo_device_id options) (zeros 16)
           || (fo_segment_size options <? 4 * PAGE_SIZE)
           || negb (is_aligned (fo_segment_size options) PAGE_SIZE)
           || (count =? 0)
           || (count >? U32_MAX)
           || (seq =? 0)
           || (match checked_add seq count with None => true | Some _ => false end)
           || (max_frame_len (fo_limits options) >? I32_MAX)
           || (max_frame_len (fo_limits options) + 3 * PAGE_SIZE >? fo_segment_size options))
    (engine.InvalidArgument "invalid device geometry or frame bounds") ;?
  Ok {| l_id := fo_device_id options; l_capacity := cap; l_segment_size := fo_segment_size options; l_segments := wrap32 count;
        l_limits := fo_limits options; l_sequence := seq |}.

Definition segment_base (l : Layout) (number : Z) : eresult Z :=
  fail_if (number >=? l_segments l) (engine.InvalidArgument "segment number out of range") ;?
  Ok (wrap64 (START + number * l_segment_size l)).

Definition Layout_header (l : Layout) (number : Z) : eresult SegmentHeader :=
  let? _ := segment_base l number in
  map_err engine.Segment
    (SegmentHeader_new {| device_id := l_id l; segment_no := number; sequence := wrap64 (l_sequence l + number) |} (l_segment_size l)).

Definition footer_tail_offset (l : Layout) (number : Z) : eresult Z :=
  let? base := segment_base l number in
  Ok (base + l_segment_size l - PAGE_SIZE).

Section WithCrc.
Context {C : CrcFast}.

Definition Layout_encode (l : Layout) (page : list byte) : eresult (list byte) :=
  let? page := fill0 page 0 (len page) in
  let? page := copy_at page 0 DEVICE_MAGIC in
  let? page := put_u32 page 8 DEVICE_VERSION in
  let? page := copy_at page 16 (l_id l) in
  let? page := put_u64 page 32 (l_capacity l) in
  let? page := put_u32 page 40 (l_segment_size l) in
  let? page := put_u32 page 44 (l_segments l) in
  let? page := put_u32 page 48 (max_frame_len (l_limits l)) in
  let? page := put_u32 page 52 (max_value_len (l_limits l)) in
  let? page := put_u64 page 56 (l_sequence l) in
  let? crc := crc_with_zeroed_checksum page in
  put_u32 page 12 crc.

Definition Layout_decode (page : list byte) : eresult Layout :=
  let? magic := slice page 0 8 in
  fail_if (negb (bytes_eqb magic DEVICE_MAGIC)) engine.NotFormatted ;?
  let? stored := u32_at page 12 in
  let? crc := crc_with_zeroed_checksum page in
  fail_if (negb (stored =? crc)) engine.NotFormatted ;?
  let? version := u32_at page 8 in
  fail_if (negb (version =? DEVICE_VERSION)) (engine.UnsupportedVersion version) ;?
  let? rest := slice page 64 (len page) in
  fail_if (any_nonzero rest) (engine.Corrupt "reserved superblock bytes") ;?
  let? device := slice page 16 32 in
  let? size := u32_at page 40 in
  let? max_frame := u32_at page 48 in
  let? max_value := u32_at page 52 in
  let? limits := map_err engine.Frame (FrameLimits_new max_frame max_value) in
  let options := {| fo_sync_mode := SyncMode_default; fo_device_id := device; fo_segment_size := size; fo_limits := limits |} in
  let? cap := u64_at page 32 in
  let? seq := u64_at page 56 in
  let? layout := Layout_new cap options seq in
  let? segments := u32_at page 44 in
  fail_if (negb (l_segments layout =? segments)) (engine.Corrupt "segment count") ;?
  Ok layout.

(** One superblock copy joined with what the previous copies said. *)
Definition join_copy (found : option Layout) (page : list byte) : eresult (option Layout) :=
  match Layout_decode page with
  | Ok layout =>
      match found with
      | Some old => if decide (old = layout) then Ok (Some layout) else Err (engine.Corrupt "superblocks disagree")
      | None => Ok (Some layout)
      end
  | Err engine.NotFormatted => Ok found
  | Err error => Err error
  | Panic => Panic
  end.

Context {D : Type} {DI : Device D}.

Definition Layout_read (device : D) : eresult Layout :=
  let? page := io_err (dev_read device PAGE_SIZE 0) in
  let? found := join_copy None page in
  let? page := io_err (dev_read device PAGE_SIZE PAGE_SIZE) in
  let? found := join_copy found page in
  let? layout := ok_or found engine.NotFormatted in
  let? cap := io_err (dev_capacity device) in
  fail_if (cap <? l_capacity layout) (engine.Corrupt "device was truncated") ;?
  Ok layout.

(** ** Formatting *)

(** The newest generation of the allocation headers [number ..] of the old layout. *)
Fixpoint last_generation (device : D) (old : Layout) (n : nat) (number last : Z) : eresult Z :=
  match n with
  | O => Ok last
  | S n =>
      let? base := segment_base old number in
      let? page := io_err (dev_read device PAGE_SIZE base) in
      let? last :=
        (if any_nonzero page then
           let? header := map_err engine.Segment (SegmentHeader_decode page (l_id old) number (l_segment_size old)) in
           Ok (Z.max last (sequence (id header)))
         else Ok last) in
      last_generation device old n (number + 1) last
  end.

Definition format_sequence (device : D) (options : FormatOptions) : eresult Z :=
  match Layout_read device with
  | Ok old =>
      fail_if (bytes_eqb (l_id old) (fo_device_id options)) (engine.InvalidArgument "format requires a fresh device identity") ;?
      let? last := last_generation device old (Z.to_nat (l_segments old)) 0 (l_sequence old + l_segments old - 1) in
      ok_or (checked_add last 1) (engine.InvalidArgument "allocation epoch exhausted")
  | Err engine.NotFormatted =>
      let? front := slice (fo_device_id options) 0 8 in
      Ok (Z.max (Z.shiftr (le_combine front) 1) 1)
  | Err error => Err error
  | Panic => Panic
  end.

Definition device_write (page : list byte) (off : Z) : eff D engine.Error unit :=
  fun d => let '(r, d) := dev_write d page off in (io_err r, d).
Definition device_sync (mode : SyncMode) : eff D engine.Error unit :=
  if decide (mode = SyncEnabled) then fun d => let '(r, d) := dev_sync d in (io_err r, d) else eret tt.

(** Clears the allocation header and the footer tail of [n] slots. *)
Fixpoint clear_slots (layout : Layout) (page : list byte) (n : nat) (number : Z) : eff D engine.Error unit :=
  match n with
  | O => eret tt
  | S n =>
      let! base := lift (segment_base layout number) in
      device_write page base ;!
      let! tail := lift (footer_tail_offset layout number) in
      device_write page tail ;!
      clear_slots layout page n (number + 1)
  end.

Definition format (options : FormatOptions) : eff D engine.Error Layout :=
  let! cap := (fun d => (io_err (dev_capacity d), d)) in
  let! seq := (fun d => (format_sequence d options, d)) in
  let! layout := lift (Layout_new cap options seq) in
  let page := zeros PAGE_SIZE in
  device_write page 0 ;!
  device_write page PAGE_SIZE ;!
  device_sync (fo_sync_mode options) ;!
  clear_slots layout page (Z.to_nat (l_segments layout)) 0 ;!
  device_sync (fo_sync_mode options) ;!
  let! page := lift (Layout_encode layout page) in
  device_write page 0 ;!
  device_sync (fo_sync_mode options) ;!
  device_write page PAGE_SIZE ;!
  device_sync (fo_sync_mode options) ;!
  eret layout.
End WithCrc.
