(* ===== verification/Format.v ===== *)
(** * Formatting a device

    What a successful format leaves on the device, why frames of earlier
    formats cannot be taken for new ones, and what a refused format changes. *)

From S2P Require Import Prelude Align Checksum ChunkId Codec FrameFormat FrameDecode SegmentFormat Io Index PipelineState Layout LayoutProofs.

Section Format.
Context {C : CrcFast} {D : Type} {DI : Device D} {DS : DeviceSpec D}.
Implicit Types d : D.

(** ** Device steps *)

Lemma io_err_safe {A} (r : io_res A) : safe (io_err r).
Proof. destruct r; discriminate. Qed.

Lemma io_err_Ok {A} (r : io_res A) a : io_err r = Ok a -> r = inr a.
Proof. destruct r; simpl; congruence. Qed.

Lemma io_err_Err {A} (r : io_res A) e : io_err r = Err e -> exists x, e = engine.Io x.
Proof. destruct r; simpl; [intros [= <-]; eauto | discriminate]. Qed.

Lemma device_write_ok page off d u d' : device_write page off d = (Ok u, d') -> 0 <= off -> off + len page <= len (contents d) ->
  contents d' = splice (contents d) off page /\ len (contents d') = len (contents d).
Proof.
  unfold device_write. destruct (dev_write d page off) as [[x|[]] d1] eqn:Hw; cbn [io_err]; intros H H0 H1; [discriminate|]. injection H as _ <-.
  rewrite (write_contents _ _ _ _ Hw H0 H1). split; [reflexivity | apply len_splice; assumption].
Qed.

Lemma device_sync_ok mode d u d' : device_sync mode d = (Ok u, d') -> contents d' = contents d.
Proof.
  unfold device_sync. destruct (decide (mode = SyncEnabled)); [|intros [= _ <-]; reflexivity].
  pose proof (sync_contents d) as Hs. destruct (dev_sync d) as [[x|[]] d1]; intros H; [discriminate|]. injection H as _ <-. exact Hs.
Qed.

Lemma device_sync_durable d u d' : device_sync SyncEnabled d = (Ok u, d') -> durable d' = contents d'.
Proof.
  unfold device_sync. rewrite decide_True by reflexivity. destruct (dev_sync d) as [[x|[]] d1] eqn:Hs; intros H; [discriminate|]. injection H as _ <-.
  apply (sync_durable _ _ Hs).
Qed.

(** ** Reading the old superblock *)

Lemma Layout_read_safe d : safe (Layout_read d).
Proof.
  unfold Layout_read. apply safe_rbind; [apply io_err_safe|]. intros b Hb. apply io_err_Ok, read_len in Hb; [|vm_compute; discriminate].
  apply safe_rbind; [apply join_copy_safe; rewrite Hb; vm_compute; discriminate|]. intros f _.
  apply safe_rbind; [apply io_err_safe|]. intros b1 Hb1. apply io_err_Ok, read_len in Hb1; [|vm_compute; discriminate].
  apply safe_rbind; [apply join_copy_safe; rewrite Hb1; vm_compute; discriminate|]. intros f1 _. safe_steps. apply io_err_safe.
Qed.

Lemma Layout_read_ok d l : Layout_read d = Ok l -> layout_ok l /\ l_capacity l <= len (contents d).
Proof.
  unfold Layout_read. intros H. inv_ok. subst. boolp. apply io_err_Ok, capacity_contents in Hr4 as [-> _]. split; [|lia].
  eapply join_copy_ok; [|eassumption]. intros o ->. eapply join_copy_ok; [|eassumption]. discriminate.
Qed.

Lemma SegmentHeader_decode_sequence bytes dev no l h : SegmentHeader_decode bytes dev no l = Ok h -> is_u64 (sequence (id h)).
Proof.
  unfold SegmentHeader_decode. intros H. inv_ok. subst. apply SegmentHeader_new_Ok in Hr6 as (-> & _). simpl. eapply u64_at_range; eassumption.
Qed.

Lemma SegmentHeader_decode_zeros dev no l h : SegmentHeader_decode (zeros 4096) dev no l <> Ok h.
Proof.
  unfold SegmentHeader_decode, PAGE_SIZE, validate_prefix. rewrite get_to_Ok by (rewrite len_zeros; lia). cbn [ok_or rbind].
  rewrite slice_Ok by (rewrite ?sub_zeros, ?len_zeros; lia). cbn [rbind]. rewrite sub_zeros, sub_zeros by lia. discriminate.
Qed.

Lemma last_generation_ok d old n : layout_ok old -> l_capacity old <= len (contents d) -> forall number last r,
  0 <= number -> number + Z.of_nat n <= l_segments old -> is_u64 last -> last_generation d old n number last = Ok r ->
  last <= r /\ is_u64 r /\ forall i h, number <= i < number + Z.of_nat n ->
    SegmentHeader_decode (sub (contents d) (8192 + i * l_segment_size old) (8192 + i * l_segment_size old + 4096)) (l_id old) i (l_segment_size old) = Ok h ->
    sequence (id h) <= r.
Proof.
  intros Hok Hcap. induction n as [|n IH]; intros number last r H0 Hn Hu H; cbn [last_generation] in H.
  { inv_ok. subst r. split; [lia|]. split; [assumption|]. intros i h Hi. lia. }
  rewrite segment_base_run in H by (auto; lia). cbn [rbind] in H. apply rbind_Ok_inv in H as (page & Hp & H). apply io_err_Ok in Hp.
  pose proof (slot_bounds old Hok number ltac:(lia)) as Hb. pose proof (lo_fit _ Hok). pose proof (lo_size _ Hok).
  apply read_contents in Hp; [|unfold PAGE_SIZE; lia..]. unfold PAGE_SIZE in Hp. apply rbind_Ok_inv in H as (last' & Hl & H).
  assert (Hl' : last <= last' /\ is_u64 last' /\ forall h, SegmentHeader_decode page (l_id old) number (l_segment_size old) = Ok h -> sequence (id h) <= last').
  { destruct (any_nonzero page) eqn:Hz.
    - apply rbind_Ok_inv in Hl as (h & Hh & Hl). apply map_err_Ok in Hh. injection Hl as <-. pose proof (SegmentHeader_decode_sequence _ _ _ _ _ Hh) as Hs.
      unfold is_u64 in *. split; [lia|]. split; [lia|]. intros h' Hh'. rewrite Hh in Hh'. injection Hh' as <-. lia.
    - injection Hl as <-. split; [lia|]. split; [assumption|]. intros h Hh. exfalso. apply any_nonzero_false in Hz. rewrite Hz in Hh.
      assert (Hlp : len page = 4096) by (rewrite Hp, len_sub; lia). rewrite Hlp in Hh. exact (SegmentHeader_decode_zeros _ _ _ _ Hh). }
  destruct Hl' as (L1 & L2 & L3). destruct (IH (number + 1) last' r ltac:(lia) ltac:(lia) L2 H) as (R1 & R2 & R3).
  split; [lia|]. split; [assumption|]. intros i h Hi Hh. destruct (Z.eq_dec i number) as [->|Hne].
  - rewrite <- Hp in Hh. specialize (L3 h Hh). lia.
  - apply (R3 i h); [lia | assumption].
Qed.

Lemma last_generation_safe d old n : forall number last, safe (last_generation d old n number last).
Proof.
  induction n as [|n IH]; intros; cbn [last_generation]; [apply safe_Ok|]. apply safe_rbind; [apply segment_base_safe|]. intros b _.
  apply safe_rbind; [apply io_err_safe|]. intros page _. apply safe_rbind; [|auto]. apply safe_if; [|apply safe_Ok].
  apply safe_rbind; [apply safe_map_err, SegmentHeader_decode_safe | intros; apply safe_Ok].
Qed.

Lemma format_sequence_safe d o : len (fo_device_id o) = 16 -> safe (format_sequence d o).
Proof.
  intros Hid. unfold format_sequence. pose proof (Layout_read_safe d) as Hs. destruct (Layout_read d) as [old|e|]; [| |contradiction].
  - apply safe_rbind; [apply safe_fail_if|]. intros _ _. apply safe_rbind; [apply last_generation_safe | intros; apply safe_ok_or].
  - destruct e; try apply safe_Err. apply safe_rbind; [apply safe_slice; lia | intros; apply safe_Ok].
Qed.

Lemma format_sequence_ok d o s : options_ok o -> format_sequence d o = Ok s -> is_u64 s /\
  forall old, Layout_read d = Ok old -> fo_device_id o <> l_id old /\ l_sequence old + l_segments old <= s /\
    forall i h, 0 <= i < l_segments old ->
      SegmentHeader_decode (sub (contents d) (8192 + i * l_segment_size old) (8192 + i * l_segment_size old + 4096)) (l_id old) i (l_segment_size old) = Ok h ->
      sequence (id h) < s.
Proof.
  intros (Hid & _) . unfold format_sequence. destruct (Layout_read d) as [old|e|] eqn:Hr; [| |discriminate].
  - intros H. apply rbind_Ok_inv in H as (u & Hu & H). apply fail_if_Ok in Hu. apply rbind_Ok_inv in H as (last & Hl & H). apply ok_or_Ok in H.
    unfold checked_add in H. destruct (Z.leb_spec (last + 1) U64_MAX); [|discriminate]. injection H as <-.
    apply Layout_read_ok in Hr as [Hok Hcap]. destruct (lo_count _ Hok) as [Hc _]. destruct (lo_sequence _ Hok).
    destruct (last_generation_ok d old (Z.to_nat (l_segments old)) Hok Hcap 0 (l_sequence old + l_segments old - 1) last ltac:(lia) ltac:(lia) ltac:(unfold is_u64; lia) Hl) as (R1 & R2 & R3).
    unfold is_u64, U64_MAX in *. split; [lia|]. intros old' [= <-]. split; [|split; [lia|]].
    + intros He. rewrite He, bytes_eqb_refl in Hu. discriminate.
    + intros i h Hi Hh. specialize (R3 i h ltac:(lia) Hh). lia.
  - intros H. assert (Hcase : (let? front := slice (fo_device_id o) 0 8 in Ok (Z.max (Z.shiftr (le_combine front) 1) 1)) = @Ok engine.Error _ s) by (destruct e; try discriminate; exact H).
    rewrite slice_Ok in Hcase by lia. cbn [rbind] in Hcase. injection Hcase as <-. split; [|discriminate].
    pose proof (le_combine_range (sub (fo_device_id o) 0 8) 8 ltac:(rewrite len_sub; lia)) as Hb. unfold is_u64.
    rewrite Z.shiftr_div_pow2 by lia. change (2 ^ 1) with 2. change (2 ^ (8 * 8)) with (2 ^ 64) in Hb.
    pose proof (Z.div_le_upper_bound (le_combine (sub (fo_device_id o) 0 8)) 2 (le_combine (sub (fo_device_id o) 0 8)) ltac:(lia) ltac:(lia)). lia.
Qed.

(** ** Clearing the slots *)

Lemma clear_slots_ok l n : layout_ok l -> forall number d u d', 0 <= number -> number + Z.of_nat n <= l_segments l -> l_capacity l <= len (contents d) ->
  clear_slots l (zeros 4096) n number d = (Ok u, d') ->
  len (contents d') = len (contents d) /\
  (forall a b, 0 <= a -> b <= 8192 + number * l_segment_size l -> sub (contents d') a b = sub (contents d) a b) /\
  (forall i off, number <= i < number + Z.of_nat n -> off = 8192 + i * l_segment_size l \/ off = 8192 + i * l_segment_size l + l_segment_size l - 4096 ->
     sub (contents d') off (off + 4096) = zeros 4096).
Proof.
  intros Hok. pose proof (lo_size _ Hok) as [Hsz _]. pose proof (lo_fit _ Hok) as Hfit. induction n as [|n IH]; intros number d u d' H0 Hn Hcap H; cbn [clear_slots] in H.
  { injection H as _ <-. split; [reflexivity|]. split; [auto|]. intros i off Hi. lia. }
  rewrite segment_base_run, footer_tail_run in H by (auto; lia). pose proof (slot_bounds l Hok number ltac:(lia)) as Hb.
  set (base := 8192 + number * l_segment_size l) in *. apply ebind_Ok_inv in H as (b1 & s1 & Hbase & H). injection Hbase as <- <-.
  apply ebind_Ok_inv in H as (u1 & d1 & Hw1 & H). apply ebind_Ok_inv in H as (b2 & s2 & Htail & H). injection Htail as <- <-.
  apply ebind_Ok_inv in H as (u2 & d2 & Hw2 & H). assert (Hz : len (zeros 4096) = 4096) by reflexivity.
  apply device_write_ok in Hw1 as [C1 L1]; [|unfold base; lia..]. apply device_write_ok in Hw2 as [C2 L2]; [|rewrite ?L1; unfold base; lia..].
  destruct (IH (number + 1) d2 u d' ltac:(lia) ltac:(lia) ltac:(lia) H) as (IL & IB & IZ). split; [lia|].
  assert (Hnext : 8192 + (number + 1) * l_segment_size l = base + l_segment_size l) by (unfold base; ring). rewrite Hnext in IB.
  split; [|intros i off Hi Hoff; destruct (Z.eq_dec i number) as [->|Hne]; [|apply (IZ i off); [lia | assumption]]].
  - intros a b Ha Hab. rewrite IB by lia. rewrite C2, C1. rewrite sub_splice_before by (rewrite ?len_splice; lia). apply sub_splice_before; lia.
  - fold base in Hoff. rewrite IB by lia. rewrite C2, C1. destruct Hoff as [-> | ->].
    + rewrite sub_splice_before by (rewrite ?len_splice; lia). apply sub_splice_same; lia.
    + apply sub_splice_same; rewrite ?len_splice; lia.
Qed.

Lemma clear_slots_err l page n : layout_ok l -> forall number d, 0 <= number -> number + Z.of_nat n <= l_segments l ->
  runs (clear_slots l page n number) d (fun r _ => match r with Err e => exists x, e = engine.Io x | _ => True end).
Proof.
  intros Hok. induction n as [|n IH]; intros number d H0 Hn; cbn [clear_slots]; [exact I|].
  rewrite segment_base_run, footer_tail_run by (auto; lia).
  assert (Hw : forall off d, runs (device_write page off) d (fun r _ => match r with Err e => exists x, e = engine.Io x | _ => True end)).
  { intros off d0. unfold runs, device_write. destruct (dev_write d0 page off) as [[x|[]] d1]; cbn [io_err]; eauto. }
  apply runs_bind. apply runs_lift; [apply safe_Ok|]. apply runs_bind. eapply runs_mono; [apply Hw|]. intros [?|e|] d1 Hs He; [|exact He | congruence].
  apply runs_bind. apply runs_lift; [apply safe_Ok|]. apply runs_bind. eapply runs_mono; [apply Hw|]. intros [?|e|] d2 Hs2 He2; [apply IH; lia | exact He2 | congruence].
Qed.

(** ** The whole format *)

Lemma format_inv o d l d' : options_ok o -> format o d = (Ok l, d') ->
  exists s, format_sequence d o = Ok s /\ Layout_new (len (contents d)) o s = Ok l /\ len (contents d') = len (contents d) /\
    (fo_sync_mode o = SyncEnabled -> durable d' = contents d') /\
    exists page, len page = 4096 /\ Layout_decode page = Ok l /\ sub (contents d') 0 4096 = page /\ sub (contents d') 4096 8192 = page /\
    forall i off, 0 <= i < l_segments l -> off = 8192 + i * l_segment_size l \/ off = 8192 + i * l_segment_size l + l_segment_size l - 4096 ->
      sub (contents d') off (off + 4096) = zeros 4096.
Proof.
  intros Ho H. unfold format in H. apply ebind_Ok_inv in H as (cap & s1 & Hc & H). injection Hc as Hc <-. apply io_err_Ok, capacity_contents in Hc as [-> Hcap].
  apply ebind_Ok_inv in H as (seq & s2 & Hs & H). injection Hs as Hs <-. exists seq. split; [assumption|]. apply (format_sequence_ok d o seq Ho) in Hs as [Hsu _].
  apply ebind_Ok_inv in H as (l0 & s3 & Hl & H). injection Hl as Hl <-. pose proof (len_nonneg (contents d)).
  destruct (Layout_new_ok _ _ _ _ (conj (len_nonneg _) Hcap) Hsu Ho Hl) as (Hok & _ & Hlc & _). destruct (lo_count _ Hok) as [Hcnt _].
  pose proof (lo_fit _ Hok) as Hfit. pose proof (lo_size _ Hok) as [Hsz _].
  assert (Hbig : 16384 <= l_segments l0 * l_segment_size l0) by nia.
  change PAGE_SIZE with 4096 in H. assert (Hz : len (zeros 4096) = 4096) by reflexivity.
  apply ebind_Ok_inv in H as (? & d1 & W1 & H). apply device_write_ok in W1 as [_ L1]; [|lia..].
  apply ebind_Ok_inv in H as (? & d2 & W2 & H). apply device_write_ok in W2 as [_ L2]; [|lia..].
  apply ebind_Ok_inv in H as (? & d3 & W3 & H). apply device_sync_ok in W3.
  apply ebind_Ok_inv in H as (? & d4 & W4 & H). rewrite <- W3 in L2.
  apply (clear_slots_ok l0 _ Hok) in W4 as (L4 & _ & Z4); [|lia..].
  apply ebind_Ok_inv in H as (? & d5 & W5 & H). apply device_sync_ok in W5. rewrite <- W5 in L4, Z4.
  destruct (Layout_encode_spec l0 (zeros 4096) Hok eq_refl) as (page & Hp & Hlp & Hd). rewrite Hp in H.
  apply ebind_Ok_inv in H as (p' & d6 & W6 & H). injection W6 as <- <-.
  apply ebind_Ok_inv in H as (? & d7 & W7 & H). apply device_write_ok in W7 as [C7 L7]; [|lia..].
  apply ebind_Ok_inv in H as (? & d8 & W8 & H). apply device_sync_ok in W8.
  apply ebind_Ok_inv in H as (? & d9 & W9 & H). apply device_write_ok in W9 as [C9 L9]; [|rewrite ?W8; lia..].
  apply ebind_Ok_inv in H as (? & d10 & W10 & H). injection H as <- <-.
  split; [assumption|]. split; [apply device_sync_ok in W10; congruence|].
  split; [intros Hm; rewrite Hm in W10; apply (device_sync_durable _ _ _ W10)|]. apply device_sync_ok in W10. rewrite W10, C9, W8, C7 in *. exists page. split; [assumption|]. split; [assumption|].
  split; [rewrite sub_splice_before by (rewrite ?len_splice; lia); apply sub_splice_same; lia|].
  split; [apply sub_splice_same; rewrite ?len_splice; lia|]. intros i off Hi Hoff. pose proof (slot_bounds l0 Hok i Hi).
  rewrite sub_splice_after by (rewrite ?len_splice; lia). rewrite sub_splice_after by lia. apply (Z4 i off); [lia | assumption].
Qed.

(** C32: a successful format leaves each of the two superblock pages decoding, by itself, to
    the returned geometry, so that reading the device back yields that geometry unless the device
    reports an I/O error; it leaves the allocation header and footer tail of every slot blank; and
    with syncing enabled all of that is durable when it returns. *)
Theorem format_commits o d l d' (Ho : options_ok o) (H : format o d = (Ok l, d')) :
  layout_ok l /\ l_id l = fo_device_id o /\
  Layout_decode (sub (contents d') 0 PAGE_SIZE) = Ok l /\ Layout_decode (sub (contents d') PAGE_SIZE (2 * PAGE_SIZE)) = Ok l /\
  (fo_sync_mode o = SyncEnabled -> durable d' = contents d') /\ (Layout_read d' = Ok l \/ exists e, Layout_read d' = Err (engine.Io e)) /\
  forall i, 0 <= i < l_segments l -> exists base tail, segment_base l i = Ok base /\ footer_tail_offset l i = Ok tail /\
    sub (contents d') base (base + 4096) = zeros 4096 /\ sub (contents d') tail (tail + 4096) = zeros 4096.
Proof.
  destruct (format_inv o d l d' Ho H) as (s & Hs & Hl & Hlen & Hdur & page & Hlp & Hd & P0 & P1 & Hz).
  apply (format_sequence_ok d o s Ho) in Hs as [Hsu _]. pose proof (Layout_decode_ok _ _ Hd) as Hok. pose proof (lo_capacity _ Hok) as Hc. pose proof (lo_fit _ Hok).
  destruct (lo_size _ Hok) as [? _]. destruct (lo_count _ Hok) as [? _]. assert (0 <= l_segments l * l_segment_size l) by nia.
  assert (Hcap : l_capacity l = len (contents d) /\ l_id l = fo_device_id o) by (unfold Layout_new in Hl; inv_ok; subst l; auto). destruct Hcap as [Hcap Hid].
  split; [assumption|]. split; [assumption|]. change (2 * PAGE_SIZE) with 8192. change PAGE_SIZE with 4096.
  split; [rewrite P0; assumption|]. split; [rewrite P1; assumption|]. split; [assumption|]. split.
  - assert (J0 : join_copy None page = Ok (Some l)) by (unfold join_copy; rewrite Hd; reflexivity).
    assert (J1 : join_copy (Some l) page = Ok (Some l)) by (unfold join_copy; rewrite Hd, decide_True by reflexivity; reflexivity).
    unfold Layout_read. change PAGE_SIZE with 4096. destruct (dev_read d' 4096 0) as [e|b] eqn:R0; cbn [io_err rbind]; [right; eexists; reflexivity|].
    apply read_contents in R0; [|lia..]. change (0 + 4096) with 4096 in R0. rewrite R0, P0, J0. cbn [rbind].
    destruct (dev_read d' 4096 4096) as [e|b1] eqn:R1; cbn [io_err rbind]; [right; eexists; reflexivity|].
    apply read_contents in R1; [|lia..]. change (4096 + 4096) with 8192 in R1. rewrite R1, P1, J1. cbn [rbind ok_or].
    destruct (dev_capacity d') as [e|c] eqn:Rc; cbn [io_err rbind]; [right; eexists; reflexivity|]. apply capacity_contents in Rc as [-> _].
    pass_guard; [auto | decide_guard].
  - intros i Hi. rewrite segment_base_run, footer_tail_run by assumption. eexists _, _. split; [reflexivity|]. split; [reflexivity|]. split; apply (Hz i); auto.
Qed.

(** formatting a device that carries a readable geometry takes a new identity and a
    generation above every generation the old format handed out and above the generation of every
    allocation header still on the device, so that no frame written before can match a new segment. *)
Theorem format_epoch_fresh o d old l d' (Ho : options_ok o) (Hold : Layout_read d = Ok old) (H : format o d = (Ok l, d')) :
  l_id l <> l_id old /\ l_sequence old + l_segments old <= l_sequence l /\
  forall i base h, 0 <= i < l_segments old -> segment_base old i = Ok base ->
    SegmentHeader_decode (sub (contents d) base (base + 4096)) (l_id old) i (l_segment_size old) = Ok h ->
    sequence (id h) < l_sequence l.
Proof.
  destruct (format_inv o d l d' Ho H) as (s & Hs & Hl & _). apply (format_sequence_ok d o s Ho) in Hs as [Hsu Hold']. destruct (Hold' old Hold) as (H1 & H2 & H3).
  assert (Hf : l_sequence l = s /\ l_id l = fo_device_id o) by (unfold Layout_new in Hl; inv_ok; subst l; auto). destruct Hf as [-> ->].
  split; [assumption|]. split; [assumption|]. apply Layout_read_ok in Hold as [Hok _]. intros i base h Hi. rewrite segment_base_run by assumption. intros [= <-]. apply H3. assumption.
Qed.

(** a format never panics, and one that is refused for any reason but a device I/O error
    (bad geometry, a reused identity, damaged metadata, an exhausted epoch) has not touched the device. *)
Theorem format_refusal_harmless o d (Ho : options_ok o) :
  match format o d with
  | (Panic, _) => False
  | (Err e, d') => (exists x, e = engine.Io x) \/ d' = d
  | (Ok _, _) => True
  end.
Proof.
  enough (Hrun : runs (format o) d (fun r d' => match r with Err e => (exists x, e = engine.Io x) \/ d' = d | _ => True end))
    by (unfold runs in Hrun; destruct (format o d) as [[l|e|] d']; auto).
  assert (Hw : forall page off d1 (P : res engine.Error unit -> D -> Prop), (forall d2, P (Ok tt) d2) -> (forall x d2, P (Err (engine.Io x)) d2) -> runs (device_write page off) d1 P).
  { intros page off d1 P HP HE. unfold runs, device_write. destruct (dev_write d1 page off) as [[x|[]] d2]; cbn [io_err]; auto. }
  assert (Hy : forall mode d1 (P : res engine.Error unit -> D -> Prop), (forall d2, P (Ok tt) d2) -> (forall x d2, P (Err (engine.Io x)) d2) -> runs (device_sync mode) d1 P).
  { intros mode d1 P HP HE. unfold runs, device_sync. destruct (decide (mode = SyncEnabled)); [|apply HP]. destruct (dev_sync d1) as [[x|[]] d2]; cbn [io_err]; auto. }
  unfold format. apply runs_bind. unfold runs at 1. destruct (dev_capacity d) as [x|cap] eqn:Hc; cbn [io_err]; [eauto|].
  apply capacity_contents in Hc as [-> Hcap]. apply runs_bind. unfold runs at 1. pose proof (format_sequence_safe d o (proj1 Ho)) as Hs.
  destruct (format_sequence d o) as [s|e|] eqn:Hseq; [|auto | congruence]. apply (format_sequence_ok d o s Ho) in Hseq as [Hsu _].
  apply runs_bind. apply runs_lift; [apply Layout_new_safe|]. pose proof (Layout_new_safe (len (contents d)) o s) as Hls.
  destruct (Layout_new (len (contents d)) o s) as [l|e|] eqn:Hl; [|auto | congruence].
  destruct (Layout_new_ok _ _ _ _ (conj (len_nonneg _) Hcap) Hsu Ho Hl) as (Hok & _). destruct (lo_count _ Hok) as [Hcnt _].
  destruct (Layout_encode_spec l (zeros 4096) Hok eq_refl) as (page & Hp & _ & _). change PAGE_SIZE with 4096.
  do 2 (apply runs_bind, Hw; [intros ? | eauto]). apply runs_bind, Hy; [intros ? | eauto].
  apply runs_bind. eapply runs_mono; [apply (clear_slots_err l (zeros 4096) _ Hok); lia|]. intros [?|e|] d3 Hsf He; [|eauto | congruence].
  apply runs_bind, Hy; [intros ? | eauto]. apply runs_bind. rewrite Hp. apply runs_lift; [apply safe_Ok|].
  apply runs_bind, Hw; [intros ? | eauto]. apply runs_bind, Hy; [intros ? | eauto].
  apply runs_bind, Hw; [intros ? | eauto]. apply runs_bind, Hy; [intros ? | eauto]. exact I.
Qed.
End Format.

(** ** An in-memory device, for concrete runs *)

Definition MemDevice : Type := list byte.

#[export] Instance MemDevice_device : Device MemDevice := {
  dev_capacity d := if len d <? 2 ^ 64 then inr (len d) else inl InvalidInput;
  dev_read d n off := if (0 <=? off) && (off + n <=? len d) then inr (sub d off (off + n)) else inl InvalidInput;
  dev_write d b off := if (0 <=? off) && (off + len b <=? len d) then (inr tt, splice d off b) else (inl InvalidInput, d);
  dev_sync d := (inr tt, d)
}.

#[export] Program Instance MemDevice_spec : DeviceSpec MemDevice := { contents d := d; durable d := d }.
Next Obligation. intros d c. simpl. destruct (Z.ltb_spec (len d) (2 ^ 64)); intros [=]; lia. Qed.
Next Obligation.
  intros d n off b. simpl. destruct (Z.leb_spec 0 off), (Z.leb_spec (off + n) (len d)); intros [= <-] Hn. rewrite len_sub; lia.
Qed.
Next Obligation. intros d n off b. simpl. destruct (_ && _); intros [= <-]; reflexivity. Qed.
Next Obligation. intros d b off d'. simpl. destruct (_ && _); intros [= <-]; reflexivity. Qed.
Next Obligation. reflexivity. Qed.
Next Obligation. reflexivity. Qed.

Definition sample_options : FormatOptions :=
  {| fo_sync_mode := SyncEnabled; fo_device_id := sample_id; fo_segment_size := 16384; fo_limits := layout_limits |}.

Lemma sample_options_ok : options_ok sample_options.
Proof. repeat split; vm_compute; (reflexivity || discriminate). Qed.

Definition returned {E A S} (r : res E A * S) : option A := match r.1 with Ok a => Some a | _ => None end.

Lemma returned_Some {E A S} (r : res E A * S) a : returned r = Some a -> r = (Ok a, r.2).
Proof. unfold returned. destruct r as [[x|e|] s]; simpl; congruence. Qed.

(** The layout a format of a blank device computes. *)
Definition formatted : Layout :=
  Eval vm_compute in match returned (format (C := crc_ref) sample_options (zeros 24576)) with Some l => l | None => sample_layout end.

Lemma formatted_run : returned (format (C := crc_ref) sample_options (zeros 24576)) = Some formatted.
Proof. vm_compute. reflexivity. Qed.

Lemma format_commits_witness : exists d' base, format (C := crc_ref) sample_options (zeros 24576) = (Ok formatted, d') /\ l_id formatted = fo_device_id sample_options /\
  Layout_decode (C := crc_ref) (sub (contents d') 4096 8192) = Ok formatted /\ segment_base formatted 0 = Ok base /\ sub (contents d') base (base + 4096) = zeros 4096.
Proof.
  pose proof (returned_Some _ _ formatted_run) as Hr. destruct (format_commits (C := crc_ref) sample_options (zeros 24576) formatted _ sample_options_ok Hr) as (_ & H1 & _ & H3 & _ & _ & H2).
  destruct (H2 0) as (b & t & Hb & _ & Hz & _); [split; [lia | vm_compute; reflexivity]|]. exact (ex_intro _ _ (ex_intro _ b (conj Hr (conj H1 (conj H3 (conj Hb Hz)))))).
Defined.

(** The device after that format, formatted again under another identity. *)
Definition other_options : FormatOptions :=
  {| fo_sync_mode := SyncDisabled; fo_device_id := replicate 16 Byte.x08; fo_segment_size := 16384; fo_limits := layout_limits |}.
Definition reformatted : Layout :=
  Eval vm_compute in match returned (format (C := crc_ref) other_options (format (C := crc_ref) sample_options (zeros 24576)).2) with Some l => l | None => sample_layout end.

Lemma reformatted_run : returned (format (C := crc_ref) other_options (format (C := crc_ref) sample_options (zeros 24576)).2) = Some reformatted.
Proof. vm_compute. reflexivity. Qed.

Lemma formatted_read : Layout_read (C := crc_ref) (format (C := crc_ref) sample_options (zeros 24576)).2 = Ok formatted.
Proof. vm_compute. reflexivity. Qed.

Lemma other_options_ok : options_ok other_options.
Proof. repeat split; vm_compute; (reflexivity || discriminate). Qed.

Lemma format_epoch_fresh_witness : l_sequence formatted + l_segments formatted <= l_sequence reformatted.
Proof.
  exact (proj1 (proj2 (format_epoch_fresh (C := crc_ref) other_options _ formatted reformatted _ other_options_ok formatted_read (returned_Some _ _ reformatted_run)))).
Defined.

(** A device too small for one slot is refused and left alone. *)
Lemma small_device_refused : (format (C := crc_ref) sample_options (zeros 8192)).1 = Err (engine.InvalidArgument "invalid device geometry or frame bounds").
Proof. vm_compute. reflexivity. Qed.

Lemma format_refusal_harmless_witness : (format (C := crc_ref) sample_options (zeros 8192)).2 = zeros 8192.
Proof.
  pose proof (format_refusal_harmless (C := crc_ref) sample_options (zeros 8192) sample_options_ok) as Hf. pose proof small_device_refused as Hr.
  destruct (format sample_options (zeros 8192)) as [[l|e|] d']; cbn [fst snd] in *; [discriminate | injection Hr as -> | destruct Hf].
  destruct Hf as [[x Hx]|Hd]; [discriminate | exact Hd].
Defined.
