(* ===== verification/PipelineControl.v ===== *)
(** * The lifecycle request across pipeline calls

    Data-path calls leave the lifecycle state alone: the request the engine
    handed over is waiting, in the queue, or completed, and comes back with the
    shape it had. *)

From stdpp Require Import gmap.
From S2P Require Import Prelude Align ChunkId Checksum Codec FrameFormat FrameDecode FrameBuilder SegmentFormat SegmentBuilder.
From S2P Require Import Io Index PipelineState Pipeline PipelineTable PipelineInv PipelineLemmas PipelineTrace PipelineAdmit PipelineComplete PipelinePoll PipelineSafe.

Section Control.
Context {Q : Type} {QI : Queue Q} {QS : QueueSpec Q} {C : CrcFast} (try_reserve : Z -> bool).
Implicit Types p : Pipeline Q.

(** The shapes of the lifecycle requests anywhere in the pipeline. *)
Definition tally p : list Shape :=
  (match p_control p with Some r => [shape r] | None => [] end)
  ++ List.filter is_control (accepted (p_queue p))
  ++ (match p_control_done p with Some c => [shape (request c)] | None => [] end).

(** At most one lifecycle request, under its own token. *)
Definition steady p : Prop :=
  queue_ok (p_queue p) /\ len (p_slots p) <= 32768 /\ len (tally p) <= 1 /\ (forall r, p_control p = Some r -> token r = CONTROL_TOKEN).

Record calm p p' : Prop := {
  c_segment : is_Some (p_segment p') <-> is_Some (p_segment p);
  c_extents : p_extents p' = p_extents p;
  c_maintenance : p_maintenance p' = p_maintenance p;
  c_slots : length (p_slots p') = length (p_slots p);
  c_tally : steady p -> steady p' /\ Permutation (tally p') (tally p)
}.

Lemma calm_refl p : calm p p.
Proof. constructor; auto; reflexivity. Qed.

Lemma calm_trans p1 p2 p3 : calm p1 p2 -> calm p2 p3 -> calm p1 p3.
Proof.
  intros [A1 A2 A3 A4 A5] [B1 B2 B3 B4 B5]. constructor; try congruence; [tauto|].
  intros Hs. destruct (A5 Hs) as [Hs' Ht]. destruct (B5 Hs') as [Hs'' Ht']. split; [assumption | etransitivity; eassumption].
Qed.

(** A change of the queue that leaves the lifecycle requests alone. *)
Lemma calm_queue p p' : (is_Some (p_segment p') <-> is_Some (p_segment p)) -> p_extents p' = p_extents p -> p_maintenance p' = p_maintenance p ->
  length (p_slots p') = length (p_slots p) -> p_control p' = p_control p -> p_control_done p' = p_control_done p ->
  (steady p -> queue_ok (p_queue p') /\ Permutation (List.filter is_control (accepted (p_queue p'))) (List.filter is_control (accepted (p_queue p)))) -> calm p p'.
Proof.
  intros Hs Hx Hm Hl Hc Hd Hq. constructor; try assumption. intros St. destruct (Hq St) as [Hok Hperm]. destruct St as (Sq & Sl & St & Sc).
  assert (Hp : Permutation (tally p') (tally p)) by (unfold tally; rewrite Hc, Hd; apply Permutation_app_head, Permutation_app_tail; assumption).
  split; [|assumption]. split; [assumption|]. split; [unfold len in *; lia|]. split; [unfold len in *; rewrite (Permutation_length Hp); assumption|]. rewrite Hc. assumption.
Qed.

(** A change that touches neither the queue nor the lifecycle request. *)
Lemma calm_quiet p p' : (is_Some (p_segment p') <-> is_Some (p_segment p)) -> p_extents p' = p_extents p -> p_maintenance p' = p_maintenance p ->
  length (p_slots p') = length (p_slots p) -> p_control p' = p_control p -> p_control_done p' = p_control_done p -> p_queue p' = p_queue p -> calm p p'.
Proof. intros ? ? ? ? ? ? Hq. apply calm_queue; try assumption. rewrite Hq. intros (H' & _). auto. Qed.

Lemma filter_control_cons acc acc' sh : Permutation acc' (sh :: acc) -> is_control sh = false ->
  Permutation (List.filter is_control acc') (List.filter is_control acc).
Proof. intros Hp Hc. apply (Permutation_filter_list is_control) in Hp. simpl in Hp. rewrite Hc in Hp. assumption. Qed.

Lemma try_submit_inv q r q' : queue_ok q -> try_submit q r = inl q' -> queue_ok q' /\ Permutation (accepted q') (shape r :: accepted q).
Proof.
  intros Hq Ht. destruct (vacant_accepted q Hq) as [_ Hv]. destruct (Z.eq_dec (vacant q) 0) as [H0|H0].
  - rewrite (submit_full q r Hq H0) in Ht. discriminate.
  - destruct (submit_ok q r Hq ltac:(lia)) as (q1 & H1 & H2 & _ & H3). rewrite H1 in Ht. injection Ht as <-. auto.
Qed.

Lemma submit_calm p slot op off l buf p' : (slot < length (p_slots p))%nat -> submit p slot op off l buf = Ok p' -> calm p p'.
Proof.
  unfold submit. intros Hs H. destruct (try_submit _ _) as [q|] eqn:Ht; [|discriminate]. injection H as <-. apply calm_queue; fields; try reflexivity.
  intros (Sq & Sl & _ & _). destruct (try_submit_inv _ _ _ Sq Ht) as [Hq Hp]. split; [assumption|]. eapply filter_control_cons; [exact Hp|].
  unfold is_control, sh_token, shape. cbn [fst token]. apply Z.eqb_neq. unfold len, CONTROL_TOKEN, U64_MAX in *. lia.
Qed.

Lemma start_control_calm p : calm p (start_control p).
Proof.
  unfold start_control. destruct (p_queue_failed p); [apply calm_refl|]. destruct (p_control p) as [r|] eqn:Hc; [|apply calm_refl].
  destruct (try_submit (p_queue p) r) as [q|r'] eqn:Ht.
  - constructor; fields; try reflexivity. intros (Sq & Sl & St & Sc). destruct (try_submit_inv _ _ _ Sq Ht) as [Hq Hp].
    assert (Hctl : is_control (shape r) = true) by (unfold is_control, sh_token, shape; cbn [fst]; rewrite (Sc r Hc); apply Z.eqb_refl).
    assert (Hperm : Permutation (tally (set_control_active true (set_control None (set_queue q p)))) (tally p)).
    { unfold tally. fields. rewrite Hc. simpl. apply (Permutation_filter_list is_control) in Hp. simpl in Hp. rewrite Hctl in Hp.
      change (shape r :: List.filter is_control (accepted (p_queue p)) ++ ?d) with ((shape r :: List.filter is_control (accepted (p_queue p))) ++ d).
      apply Permutation_app_tail. assumption. }
    split; [|assumption]. unfold steady. fields. split; [assumption|]. split; [assumption|]. split; [unfold len in *; rewrite (Permutation_length Hperm); assumption | discriminate].
  - constructor; fields; try reflexivity. intros (Sq & Sl & St & Sc).
    assert (r' = r) as ->.
    { destruct (vacant_accepted _ Sq) as [_ Hv]. destruct (Z.eq_dec (vacant (p_queue p)) 0) as [H0|H0].
      - rewrite (submit_full _ r Sq H0) in Ht. congruence.
      - destruct (submit_ok _ r Sq ltac:(lia)) as (q1 & H1 & _). congruence. }
    unfold steady, tally in *. fields. rewrite Hc in *. split; [|reflexivity]. split; [assumption|]. split; [assumption|]. split; assumption.
Qed.

Lemma queue_poll_calm p w : calm p (set_queue (queue_poll (p_queue p) w).1 p).
Proof.
  apply calm_queue; fields; try reflexivity. intros (Sq & _). destruct (poll_ok _ w Sq) as (Hq & _ & Hp). split; [assumption|]. apply Permutation_filter_list. assumption.
Qed.

Lemma pop_calm p c q : pop (p_queue p) = Some (c, q) -> token (request c) <> CONTROL_TOKEN -> calm p (set_queue q p).
Proof.
  intros Hp Ht. apply calm_queue; fields; try reflexivity. intros (Sq & _). destruct (pop_some _ _ _ Sq Hp) as (Hq & _ & Hperm). split; [assumption|].
  symmetry. eapply filter_control_cons; [exact Hperm|]. apply Z.eqb_neq. assumption.
Qed.

Lemma pop_control_calm p c q : pop (p_queue p) = Some (c, q) -> token (request c) = CONTROL_TOKEN ->
  calm p (set_control_done (Some c) (set_control_active false (set_queue q p))).
Proof.
  intros Hp Ht. constructor; fields; try reflexivity. intros (Sq & Sl & St & Sc). destruct (pop_some _ _ _ Sq Hp) as (Hq & _ & Hperm).
  apply (Permutation_filter_list is_control) in Hperm. simpl in Hperm.
  assert (Hctl : is_control (shape (request c)) = true) by (apply Z.eqb_eq; assumption). rewrite Hctl in Hperm.
  assert (Htally : p_control p = None /\ List.filter is_control (accepted q) = [] /\ p_control_done p = None).
  { unfold tally in St. rewrite !len_app in St. unfold len in St at 2. rewrite (Permutation_length Hperm) in St. cbn [length] in St.
    destruct (p_control p), (p_control_done p), (List.filter is_control (accepted q)); unfold len in St; cbn [length] in St; try lia; auto. }
  destruct Htally as (H1 & H2 & H3). unfold steady, tally in *. fields. rewrite H1, H2, H3 in *.
  split; [|simpl; rewrite app_nil_r; symmetry; exact Hperm]. split; [assumption|]. split; [assumption|]. split; [vm_compute; discriminate | discriminate].
Qed.

(** ** The phases of a poll *)

(** Closes the side conditions of [calm_quiet]. *)
Ltac quiet := apply calm_quiet; fields; rewrite ?length_insert; reflexivity.

Lemma retire_failed_loop_calm fuel : forall s s', retire_failed_loop fuel s = Ok s' -> calm (pd_pipeline s) (pd_pipeline s').
Proof.
  induction fuel as [|n IH]; intros s s' H; cbn [retire_failed_loop] in H; [injection H as <-; apply calm_refl|].
  destruct (_ && _); [|injection H as <-; apply calm_refl]. fields. destruct (p_slots (pd_pipeline s) !! _) as [[x|]|].
  - apply rbind_Ok_inv in H as (fatal & _ & H). apply IH in H. cbn [pd_pipeline] in H. eapply calm_trans; [|exact H]. destruct x; quiet.
  - apply IH in H. eapply calm_trans; [|exact H]. quiet.
  - apply IH in H. eapply calm_trans; [|exact H]. quiet.
Qed.

Lemma retire_failed_calm s s' : retire_failed s = Ok s' -> calm (pd_pipeline s) (pd_pipeline s').
Proof.
  unfold retire_failed. intros H. apply rbind_Ok_inv in H as (s1 & H1 & H). injection H as <-. apply retire_failed_loop_calm in H1. eapply calm_trans; [exact H1|]. cbn [pd_pipeline]. quiet.
Qed.

Lemma retire_writes_calm s s' : retire_writes s = Ok s' -> calm (pd_pipeline s) (pd_pipeline s').
Proof.
  unfold retire_writes. generalize (length (p_writes (pd_pipeline s))) as fuel. intros fuel. revert s s'.
  induction fuel as [|n IH]; intros s s' H; cbn [retire_writes_loop] in H; [injection H as <-; apply calm_refl|].
  destruct (exhausted _ _); [injection H as <-; apply calm_refl|]. destruct (p_writes (pd_pipeline s)) as [|slot ws]; [injection H as <-; apply calm_refl|].
  apply rbind_Ok_inv in H as (x & _ & H). destruct (completed_write x) as [[w [result buf]]|]; [|injection H as <-; apply calm_refl].
  apply IH in H. cbn [pd_pipeline] in H. eapply calm_trans; [|exact H]. fields.
  match goal with |- context [match ?r with Ok _ => _ | Err _ => _ | Panic => _ end] => destruct r end; [destruct (apply _ _ _)|..]; quiet.
Qed.

Lemma start_flush_calm s s' : start_flush s = Ok s' -> calm (pd_pipeline s) (pd_pipeline s').
Proof.
  unfold start_flush. intros H. destruct (p_flush (pd_pipeline s)) as [slot|]; [|injection H as <-; apply calm_refl].
  destruct (negb _); [injection H as <-; apply calm_refl|]. destruct (p_slots (pd_pipeline s) !! slot) as [[[| | | |t sub]|]|] eqn:Hs; try discriminate.
  destruct sub; [injection H as <-; apply calm_refl|]. apply lookup_lt_Some in Hs.
  destruct (p_failed_at (pd_pipeline s)); [injection H as <-; cbn [pd_pipeline]; quiet|]. destruct (negb _); [injection H as <-; cbn [pd_pipeline]; quiet|].
  apply rbind_Ok_inv in H as (p' & Hp & H). injection H as <-. cbn [pd_pipeline]. apply submit_calm in Hp; [|fields; rewrite length_insert; assumption].
  eapply calm_trans; [|exact Hp]. quiet.
Qed.

Lemma ready_reads_calm fuel : forall s s', ready_reads_loop fuel s = Ok s' -> calm (pd_pipeline s) (pd_pipeline s').
Proof.
  induction fuel as [|n IH]; intros s s' H; cbn [ready_reads_loop] in H; [injection H as <-; apply calm_refl|].
  destruct (exhausted _ _); [injection H as <-; apply calm_refl|]. destruct (p_ready_reads (pd_pipeline s)) as [|slot rest]; [injection H as <-; apply calm_refl|].
  destruct (p_slots (pd_pipeline s) !! slot) as [[[]|]|]; try discriminate. apply IH in H. eapply calm_trans; [|exact H]. cbn [pd_pipeline]. quiet.
Qed.

Lemma complete_calm p c out p' out' : complete p c out = Ok (p', out') -> calm p p'.
Proof.
  unfold complete. destruct (p_slots p !! Z.to_nat (token (request c))) as [[x|]|] eqn:Hs; try discriminate. apply lookup_lt_Some in Hs. destruct x as [w|rd|vr|t b|t sub].
  - intros H. apply rbind_Ok_inv in H as (b & _ & H). injection H as <- _. destruct (is_err _); quiet.
  - intros H. apply rbind_Ok_inv in H as (b & _ & H). injection H as <- _. quiet.
  - destruct (advance_verified _ _ _ _) as [[[range|]|e|] vr']; try discriminate; intros H; apply rbind_Ok_inv in H as (b & _ & H).
    + injection H as <- _. quiet.
    + apply rbind_Ok_inv in H as (p1 & Hp & H). injection H as <- _. apply submit_calm in Hp; [|fields; rewrite !length_insert; assumption]. eapply calm_trans; [|exact Hp]. quiet.
    + injection H as <- _. quiet.
  - discriminate.
  - intros H. injection H as <- _. destruct (is_err _); quiet.
Qed.

Lemma pop_loop_calm fuel : forall s s', pop_loop fuel s = Ok s' -> calm (pd_pipeline s) (pd_pipeline s').
Proof.
  induction fuel as [|n IH]; intros s s' H; cbn [pop_loop] in H; [injection H as <-; apply calm_refl|].
  destruct (exhausted _ _); [injection H as <-; apply calm_refl|]. destruct (pop (p_queue (pd_pipeline s))) as [[c q]|] eqn:Hp; [|injection H as <-; apply calm_refl].
  destruct (Z.eqb_spec (token (request c)) CONTROL_TOKEN) as [Ht|Ht].
  - apply IH in H. eapply calm_trans; [apply (pop_control_calm _ _ _ Hp Ht) | exact H].
  - eapply calm_trans; [apply (pop_calm _ _ _ Hp Ht)|]. destruct (complete _ c _) as [[p1 out]|e|] eqn:Hc; [| |discriminate].
    + apply IH in H. eapply calm_trans; [eapply complete_calm; exact Hc | exact H].
    + injection H as <-. cbn [pd_pipeline]. quiet.
Qed.

(** A poll leaves the lifecycle state alone and loses no lifecycle request. *)
Lemma poll_calm p w out p' out' : poll p w out = Ok (p', out') -> calm p p'.
Proof.
  unfold poll. destruct (p_queue_failed p).
  { intros H. apply rbind_Ok_inv in H as (s & H1 & H). injection H as <- _. apply retire_failed_calm in H1. exact H1. }
  intros H. apply rbind_Ok_inv in H as (s1 & H1 & H). apply retire_writes_calm in H1. cbn [pd_pipeline] in H1. eapply calm_trans; [exact H1|]. clear H1.
  apply rbind_Ok_inv in H as (s2 & H2 & H). apply start_flush_calm in H2. eapply calm_trans; [exact H2|]. clear H2.
  apply rbind_Ok_inv in H as (s3 & H3 & H). apply ready_reads_calm in H3. cbn [pd_pipeline] in H3.
  eapply calm_trans; [apply start_control_calm|]. eapply calm_trans; [exact H3|]. clear H3.
  apply rbind_Ok_inv in H as (wait & _ & H). destruct (queue_poll (p_queue (pd_pipeline s3)) wait) as [q failed] eqn:Hq.
  eapply calm_trans; [apply (queue_poll_calm (pd_pipeline s3) wait)|].
  rewrite Hq. cbn [fst]. destruct failed as [e|].
  - apply rbind_Ok_inv in H as (s4 & H4 & H). injection H as <- _. apply retire_failed_calm in H4. cbn [pd_pipeline] in H4. eapply calm_trans; [|exact H4]. quiet.
  - apply rbind_Ok_inv in H as (s4 & H4 & H). apply pop_loop_calm in H4. cbn [pd_pipeline] in H4. eapply calm_trans; [exact H4|]. destruct (p_queue_failed (pd_pipeline s4)).
    + apply rbind_Ok_inv in H as (s5 & H5 & H). injection H as <- _. apply retire_failed_calm in H5. exact H5.
    + apply rbind_Ok_inv in H as (s5 & H5 & H). apply retire_writes_calm in H5. apply rbind_Ok_inv in H as (s6 & H6 & H). apply start_flush_calm in H6. injection H as <- _.
      eapply calm_trans; [exact H5|]. eapply calm_trans; [exact H6 | apply start_control_calm].
Qed.

(** ** Admissions *)

(** The free stack names slots of the table. *)
Definition free_in_table p : Prop := forall i, i ∈ p_free p -> (i < length (p_slots p))%nat.

Lemma live_free p evs : live p evs -> free_in_table p.
Proof. intros V i Hi. destruct (tracks_in _ _ _ i (t_free _ _ _ _ _ _ _ _ (live_table V)) Hi) as (x & Hx & _). eapply lookup_lt_Some. exact Hx. Qed.

Lemma take_slot_calm p x slot p' : free_in_table p -> take_slot p x = Ok (slot, p') -> calm p p' /\ (slot < length (p_slots p'))%nat.
Proof.
  unfold take_slot. intros Hf H. destruct (p_free p) as [|s free] eqn:Hp; [discriminate|]. apply rbind_Ok_inv in H as (x0 & _ & H). injection H as <- <-. split; [quiet|].
  fields. rewrite length_insert. apply Hf. rewrite Hp. apply elem_of_cons. auto.
Qed.

Lemma flush_calm p t p' : free_in_table p -> flush p = Ok (t, p') -> calm p p'.
Proof.
  unfold flush. intros Hf H. apply rbind_Ok_inv in H as (t0 & _ & H). apply rbind_Ok_inv in H as (u & _ & H). apply rbind_Ok_inv in H as (u1 & _ & H).
  apply rbind_Ok_inv in H as ([slot p1] & Ht & H). injection H as _ <-. apply take_slot_calm in Ht as [Hc _]; [|assumption]. eapply calm_trans; [exact Hc|]. quiet.
Qed.

Lemma submit_frame_calm p buf encode t p' : free_in_table p -> submit_frame try_reserve p buf encode = Ok (t, p') -> calm p p'.
Proof.
  unfold submit_frame. intros Hf H. apply rbind_Ok_inv in H as ([[[t0 seg] pos] b0] & H0 & H). apply map_err_Ok in H0. apply rbind_Ok_inv in H0 as (t1 & _ & H0).
  apply rbind_Ok_inv in H0 as (seg0 & Hseg & _). apply expect_Ok in Hseg.
  apply rbind_Ok_inv in H as ([[[w off] l] seg'] & _ & H). apply map_err_Ok in H. cbv zeta in H. apply rbind_Ok_inv in H as ([slot p1] & Ht & H).
  apply take_slot_calm in Ht as [Hc Hlt]; [|exact Hf]. apply rbind_Ok_inv in H as (p2 & Hp & H). injection H as _ <-.
  apply submit_calm in Hp; [|exact Hlt]. eapply calm_trans; [|eapply calm_trans; [exact Hc|]; eapply calm_trans; [|exact Hp]]; [|quiet].
  apply calm_quiet; fields; try reflexivity. rewrite Hseg. split; eauto.
Qed.

Lemma write_calm p b buf t p' : free_in_table p -> write try_reserve p b buf = Ok (t, p') -> calm p p'.
Proof. unfold write. intros Hf H. apply rbind_Ok_inv in H as (u & _ & H). eapply submit_frame_calm; eassumption. Qed.

Lemma write_prepared_calm p k n vl buf t p' : free_in_table p -> write_prepared try_reserve p k n vl buf = Ok (t, p') -> calm p p'.
Proof. unfold write_prepared. intros Hf H. apply rbind_Ok_inv in H as (r & _ & H). apply rbind_Ok_inv in H as (u & _ & H). eapply submit_frame_calm; eassumption. Qed.

Lemma read_calm p k r v bufs t p' : free_in_table p -> read p k r v bufs = Ok (t, p') -> calm p p'.
Proof.
  unfold read, read_verified, read_direct. intros Hf H. destruct v; apply map_err_Ok in H; apply rbind_Ok_inv in H as (t0 & _ & H).
  - apply rbind_Ok_inv in H as (l & _ & H). apply rbind_Ok_inv in H as (e & _ & H). apply rbind_Ok_inv in H as (vr & _ & H). cbv zeta in H.
    apply rbind_Ok_inv in H as (u & _ & H). apply rbind_Ok_inv in H as (u1 & _ & H). apply rbind_Ok_inv in H as ([slot p1] & Ht & H).
    apply take_slot_calm in Ht as [Hc Hlt]; [|exact Hf]. apply rbind_Ok_inv in H as (p2 & Hp & H). injection H as _ <-. apply submit_calm in Hp; [|exact Hlt]. eapply calm_trans; eassumption.
  - apply rbind_Ok_inv in H as (ext & _ & H). apply rbind_Ok_inv in H as (u & _ & H). destruct (_ =? 0).
    + apply rbind_Ok_inv in H as ([slot p1] & Ht & H). apply take_slot_calm in Ht as [Hc _]; [|exact Hf]. injection H as _ <-. eapply calm_trans; [exact Hc|]. quiet.
    + apply rbind_Ok_inv in H as ([slot p1] & Ht & H). apply take_slot_calm in Ht as [Hc Hlt]; [|exact Hf].
      apply rbind_Ok_inv in H as (p2 & Hp & H). injection H as _ <-. apply submit_calm in Hp; [|exact Hlt]. eapply calm_trans; eassumption.
Qed.
End Control.
