(* ===== verification/EngineState.v ===== *)
(** * Engine state (moat-engine/src/engine: mod.rs, lifecycle.rs, recovery.rs, completion.rs)

    The lifecycle states, jobs and completions of one device owner, its state
    record, and one setter per field. *)

From stdpp Require Import gmap.
From S2P Require Import Prelude Align Checksum ChunkId Codec FrameFormat FrameDecode SegmentFormat SegmentBuilder.
From S2P Require Import Io Index PipelineState Pipeline Layout.

(** Public lifecycle states and requests. *)
Module state.
Inductive State := Opening | Ready | Closing | Closed | Failed.
End state.

Module lifecycle.
Inductive Lifecycle := Open | Seal | Rollover | Close.
End lifecycle.

#[export] Instance State_eq_dec : EqDecision state.State.
Proof. solve_decision. Defined.
#[export] Instance Lifecycle_eq_dec : EqDecision lifecycle.Lifecycle.
Proof. solve_decision. Defined.

Record Options := { o_sync_mode : SyncMode; o_resources : ResourceLimits; o_poll : PollBudget }.
Definition Options_default : Options := {| o_sync_mode := SyncMode_default; o_resources := ResourceLimits_default; o_poll := PollBudget_default |}.

Record VersionCursor := { vc_owner : Z; vc_next : Z; vc_end : Z }.

(** ** Completions *)

Inductive EngineCompletion :=
| ELifecycle (ticket : Z) (operation : lifecycle.Lifecycle) (result : eresult unit)
| EWrite (ticket : Z) (result : presult unit) (buf : Buffer)
| ERead (ticket : Z) (result : presult ReadRange) (buffers : ReadBuffers)
| EFlush (ticket : Z) (result : presult unit)
| EFailed (ticket : Z) (error : pipeline.Error).

Definition EngineCompletion_ticket (c : EngineCompletion) : Z :=
  match c with ELifecycle t _ _ | EWrite t _ _ | ERead t _ _ | EFlush t _ | EFailed t _ => t end.

Definition into_pipeline (c : EngineCompletion) : option Completion :=
  match c with
  | ELifecycle _ _ _ => None
  | EWrite t r b => Some (CWrite t r b)
  | ERead t r b => Some (CRead t r b)
  | EFlush t r => Some (CFlush t r)
  | EFailed t e => Some (CFailed t e)
  end.

Definition from_pipeline (c : Completion) : EngineCompletion :=
  match c with
  | CWrite t r b => EWrite t r b
  | CRead t r b => ERead t r b
  | CFlush t r => EFlush t r
  | CFailed t e => EFailed t e
  end.

(** ** Jobs *)

Inductive Progress :=
| Continue
| Wait
| Done
| PIo (operation : io.Operation) (offset length : Z) (buf : option Buffer).

Definition Progress_read (off : Z) (buf : Buffer) (l : Z) : Progress := PIo io.Read off l (Some buf).
Definition Progress_write (off : Z) (buf : Buffer) : Progress := PIo io.Write off (len buf) (Some buf).
Definition Progress_sync (mode : SyncMode) : Progress :=
  if decide (mode = SyncDisabled) then Continue else PIo io.Sync 0 0 None.

Inductive RecoveryStage := RStart | SuperA | SuperB | RHeader | HeaderDone | Tail | FooterRead | FooterValidate | Restore | Scan | ScanHeader | ScanBody.
#[export] Instance RecoveryStage_eq_dec : EqDecision RecoveryStage.
Proof. solve_decision. Defined.
Inductive TransitionStage := Drain | TFooter | LastWrite | LastSync | Allocate | HeaderSync | Attach | TClosed.

Section Types.
Context {C : CrcFast}.

Record Recovery := {
  rc_stage : RecoveryStage; rc_found : option Layout; rc_number : Z; rc_header : option SegmentHeader; rc_page : option Buffer; rc_bytes : option Buffer; rc_validator : option FooterValidator; rc_scanner : option Scanner; rc_metadata_at : Z; rc_frame_offset : Z; rc_frame_len : Z
}.

Record Transition := {
  tr_stage : TransitionStage; tr_next : option Z; tr_footer : option (FooterEncoder Crc32c); tr_base : Z; tr_last : option (Z * Buffer)
}.

Inductive JobWork := WOpen (r : Recovery) | WTransition (t : Transition).

Record Job := { j_ticket : option Z; j_kind : lifecycle.Lifecycle; j_waiting : bool; j_blocked : bool; j_work : JobWork }.

Definition Recovery_new : Recovery :=
  {| rc_stage := RStart; rc_found := None; rc_number := 0; rc_header := None; rc_page := None; rc_bytes := None; rc_validator := None;
     rc_scanner := None; rc_metadata_at := 0; rc_frame_offset := PAGE_SIZE; rc_frame_len := 0 |}.

Definition Job_open (ticket : Z) : Job :=
  {| j_ticket := Some ticket; j_kind := lifecycle.Open; j_waiting := false; j_blocked := false; j_work := WOpen Recovery_new |}.

Definition Job_transition (ticket : option Z) (kind : lifecycle.Lifecycle) (next : option Z) : Job :=
  {| j_ticket := ticket; j_kind := kind; j_waiting := false; j_blocked := false;
     j_work := WTransition {| tr_stage := Drain; tr_next := next; tr_footer := None; tr_base := 0; tr_last := None |} |}.

(** ** The engine *)

Record Engine {D Q : Type} := {
  e_device : D; e_capacity : Z; e_layout : option Layout; e_pipeline : Pipeline Q; e_used : list bool; e_next : Z; e_allocated : Z; e_active : option Z; e_state : state.State; e_opened : bool; e_job : option Job; e_options : Options; e_completions : list Completion; e_identity : Z
}.
End Types.
Arguments Engine {C} D Q.

Section Setters.
Context {C : CrcFast}.

Definition rc_set_stage (v : RecoveryStage) (r : Recovery) : Recovery :=
  {| rc_stage := v; rc_found := rc_found r; rc_number := rc_number r; rc_header := rc_header r; rc_page := rc_page r; rc_bytes := rc_bytes r; rc_validator
     := rc_validator r; rc_scanner := rc_scanner r; rc_metadata_at := rc_metadata_at r; rc_frame_offset := rc_frame_offset r; rc_frame_len := rc_frame_len r |}.
Definition rc_set_found (v : option Layout) (r : Recovery) : Recovery :=
  {| rc_stage := rc_stage r; rc_found := v; rc_number := rc_number r; rc_header := rc_header r; rc_page := rc_page r; rc_bytes := rc_bytes r; rc_validator
     := rc_validator r; rc_scanner := rc_scanner r; rc_metadata_at := rc_metadata_at r; rc_frame_offset := rc_frame_offset r; rc_frame_len := rc_frame_len r |}.
Definition rc_set_number (v : Z) (r : Recovery) : Recovery :=
  {| rc_stage := rc_stage r; rc_found := rc_found r; rc_number := v; rc_header := rc_header r; rc_page := rc_page r; rc_bytes := rc_bytes r; rc_validator :=
     rc_validator r; rc_scanner := rc_scanner r; rc_metadata_at := rc_metadata_at r; rc_frame_offset := rc_frame_offset r; rc_frame_len := rc_frame_len r |}.
Definition rc_set_header (v : option SegmentHeader) (r : Recovery) : Recovery :=
  {| rc_stage := rc_stage r; rc_found := rc_found r; rc_number := rc_number r; rc_header := v; rc_page := rc_page r; rc_bytes := rc_bytes r; rc_validator :=
     rc_validator r; rc_scanner := rc_scanner r; rc_metadata_at := rc_metadata_at r; rc_frame_offset := rc_frame_offset r; rc_frame_len := rc_frame_len r |}.
Definition rc_set_page (v : option Buffer) (r : Recovery) : Recovery :=
  {| rc_stage := rc_stage r; rc_found := rc_found r; rc_number := rc_number r; rc_header := rc_header r; rc_page := v; rc_bytes := rc_bytes r; rc_validator
     := rc_validator r; rc_scanner := rc_scanner r; rc_metadata_at := rc_metadata_at r; rc_frame_offset := rc_frame_offset r; rc_frame_len := rc_frame_len r |}.
Definition rc_set_bytes (v : option Buffer) (r : Recovery) : Recovery :=
  {| rc_stage := rc_stage r; rc_found := rc_found r; rc_number := rc_number r; rc_header := rc_header r; rc_page := rc_page r; rc_bytes := v; rc_validator
     := rc_validator r; rc_scanner := rc_scanner r; rc_metadata_at := rc_metadata_at r; rc_frame_offset := rc_frame_offset r; rc_frame_len := rc_frame_len r |}.
Definition rc_set_validator (v : option FooterValidator) (r : Recovery) : Recovery :=
  {| rc_stage := rc_stage r; rc_found := rc_found r; rc_number := rc_number r; rc_header := rc_header r; rc_page := rc_page r; rc_bytes := rc_bytes r;
     rc_validator := v; rc_scanner := rc_scanner r; rc_metadata_at := rc_metadata_at r; rc_frame_offset := rc_frame_offset r; rc_frame_len := rc_frame_len r |}.
Definition rc_set_scanner (v : option Scanner) (r : Recovery) : Recovery :=
  {| rc_stage := rc_stage r; rc_found := rc_found r; rc_number := rc_number r; rc_header := rc_header r; rc_page := rc_page r; rc_bytes := rc_bytes r;
     rc_validator := rc_validator r; rc_scanner := v; rc_metadata_at := rc_metadata_at r; rc_frame_offset := rc_frame_offset r; rc_frame_len := rc_frame_len
     r |}.
Definition rc_set_metadata_at (v : Z) (r : Recovery) : Recovery :=
  {| rc_stage := rc_stage r; rc_found := rc_found r; rc_number := rc_number r; rc_header := rc_header r; rc_page := rc_page r; rc_bytes := rc_bytes r;
     rc_validator := rc_validator r; rc_scanner := rc_scanner r; rc_metadata_at := v; rc_frame_offset := rc_frame_offset r; rc_frame_len := rc_frame_len r |}.
Definition rc_set_frame_offset (v : Z) (r : Recovery) : Recovery :=
  {| rc_stage := rc_stage r; rc_found := rc_found r; rc_number := rc_number r; rc_header := rc_header r; rc_page := rc_page r; rc_bytes := rc_bytes r;
     rc_validator := rc_validator r; rc_scanner := rc_scanner r; rc_metadata_at := rc_metadata_at r; rc_frame_offset := v; rc_frame_len := rc_frame_len r |}.
Definition rc_set_frame_len (v : Z) (r : Recovery) : Recovery :=
  {| rc_stage := rc_stage r; rc_found := rc_found r; rc_number := rc_number r; rc_header := rc_header r; rc_page := rc_page r; rc_bytes := rc_bytes r;
     rc_validator := rc_validator r; rc_scanner := rc_scanner r; rc_metadata_at := rc_metadata_at r; rc_frame_offset := rc_frame_offset r; rc_frame_len := v |}.

Definition tr_set_stage (v : TransitionStage) (r : Transition) : Transition :=
  {| tr_stage := v; tr_next := tr_next r; tr_footer := tr_footer r; tr_base := tr_base r; tr_last := tr_last r |}.
Definition tr_set_next (v : option Z) (r : Transition) : Transition :=
  {| tr_stage := tr_stage r; tr_next := v; tr_footer := tr_footer r; tr_base := tr_base r; tr_last := tr_last r |}.
Definition tr_set_footer (v : option (FooterEncoder Crc32c)) (r : Transition) : Transition :=
  {| tr_stage := tr_stage r; tr_next := tr_next r; tr_footer := v; tr_base := tr_base r; tr_last := tr_last r |}.
Definition tr_set_base (v : Z) (r : Transition) : Transition :=
  {| tr_stage := tr_stage r; tr_next := tr_next r; tr_footer := tr_footer r; tr_base := v; tr_last := tr_last r |}.
Definition tr_set_last (v : option (Z * Buffer)) (r : Transition) : Transition :=
  {| tr_stage := tr_stage r; tr_next := tr_next r; tr_footer := tr_footer r; tr_base := tr_base r; tr_last := v |}.

Definition j_set_waiting (v : bool) (j : Job) : Job := {| j_ticket := j_ticket j; j_kind := j_kind j; j_waiting := v; j_blocked := j_blocked j; j_work := j_work j |}.
Definition j_set_blocked (v : bool) (j : Job) : Job := {| j_ticket := j_ticket j; j_kind := j_kind j; j_waiting := j_waiting j; j_blocked := v; j_work := j_work j |}.
Definition j_set_work (v : JobWork) (j : Job) : Job := {| j_ticket := j_ticket j; j_kind := j_kind j; j_waiting := j_waiting j; j_blocked := j_blocked j; j_work := v |}.

Context {D Q : Type}.

Definition e_set_device (v : D) (r : Engine D Q) : Engine D Q :=
  {| e_device := v; e_capacity := e_capacity r; e_layout := e_layout r; e_pipeline := e_pipeline r; e_used := e_used r; e_next := e_next r; e_allocated :=
     e_allocated r; e_active := e_active r; e_state := e_state r; e_opened := e_opened r; e_job := e_job r; e_options := e_options r; e_completions :=
     e_completions r; e_identity := e_identity r |}.
Definition e_set_capacity (v : Z) (r : Engine D Q) : Engine D Q :=
  {| e_device := e_device r; e_capacity := v; e_layout := e_layout r; e_pipeline := e_pipeline r; e_used := e_used r; e_next := e_next r; e_allocated :=
     e_allocated r; e_active := e_active r; e_state := e_state r; e_opened := e_opened r; e_job := e_job r; e_options := e_options r; e_completions :=
     e_completions r; e_identity := e_identity r |}.
Definition e_set_layout (v : option Layout) (r : Engine D Q) : Engine D Q :=
  {| e_device := e_device r; e_capacity := e_capacity r; e_layout := v; e_pipeline := e_pipeline r; e_used := e_used r; e_next := e_next r; e_allocated :=
     e_allocated r; e_active := e_active r; e_state := e_state r; e_opened := e_opened r; e_job := e_job r; e_options := e_options r; e_completions :=
     e_completions r; e_identity := e_identity r |}.
Definition e_set_pipeline (v : Pipeline Q) (r : Engine D Q) : Engine D Q :=
  {| e_device := e_device r; e_capacity := e_capacity r; e_layout := e_layout r; e_pipeline := v; e_used := e_used r; e_next := e_next r; e_allocated :=
     e_allocated r; e_active := e_active r; e_state := e_state r; e_opened := e_opened r; e_job := e_job r; e_options := e_options r; e_completions :=
     e_completions r; e_identity := e_identity r |}.
Definition e_set_used (v : list bool) (r : Engine D Q) : Engine D Q :=
  {| e_device := e_device r; e_capacity := e_capacity r; e_layout := e_layout r; e_pipeline := e_pipeline r; e_used := v; e_next := e_next r; e_allocated :=
     e_allocated r; e_active := e_active r; e_state := e_state r; e_opened := e_opened r; e_job := e_job r; e_options := e_options r; e_completions :=
     e_completions r; e_identity := e_identity r |}.
Definition e_set_next (v : Z) (r : Engine D Q) : Engine D Q :=
  {| e_device := e_device r; e_capacity := e_capacity r; e_layout := e_layout r; e_pipeline := e_pipeline r; e_used := e_used r; e_next := v; e_allocated :=
     e_allocated r; e_active := e_active r; e_state := e_state r; e_opened := e_opened r; e_job := e_job r; e_options := e_options r; e_completions :=
     e_completions r; e_identity := e_identity r |}.
Definition e_set_allocated (v : Z) (r : Engine D Q) : Engine D Q :=
  {| e_device := e_device r; e_capacity := e_capacity r; e_layout := e_layout r; e_pipeline := e_pipeline r; e_used := e_used r; e_next := e_next r;
     e_allocated := v; e_active := e_active r; e_state := e_state r; e_opened := e_opened r; e_job := e_job r; e_options := e_options r; e_completions :=
     e_completions r; e_identity := e_identity r |}.
Definition e_set_active (v : option Z) (r : Engine D Q) : Engine D Q :=
  {| e_device := e_device r; e_capacity := e_capacity r; e_layout := e_layout r; e_pipeline := e_pipeline r; e_used := e_used r; e_next := e_next r;
     e_allocated := e_allocated r; e_active := v; e_state := e_state r; e_opened := e_opened r; e_job := e_job r; e_options := e_options r; e_completions :=
     e_completions r; e_identity := e_identity r |}.
Definition e_set_state (v : state.State) (r : Engine D Q) : Engine D Q :=
  {| e_device := e_device r; e_capacity := e_capacity r; e_layout := e_layout r; e_pipeline := e_pipeline r; e_used := e_used r; e_next := e_next r;
     e_allocated := e_allocated r; e_active := e_active r; e_state := v; e_opened := e_opened r; e_job := e_job r; e_options := e_options r; e_completions
     := e_completions r; e_identity := e_identity r |}.
Definition e_set_opened (v : bool) (r : Engine D Q) : Engine D Q :=
  {| e_device := e_device r; e_capacity := e_capacity r; e_layout := e_layout r; e_pipeline := e_pipeline r; e_used := e_used r; e_next := e_next r;
     e_allocated := e_allocated r; e_active := e_active r; e_state := e_state r; e_opened := v; e_job := e_job r; e_options := e_options r; e_completions :=
     e_completions r; e_identity := e_identity r |}.
Definition e_set_job (v : option Job) (r : Engine D Q) : Engine D Q :=
  {| e_device := e_device r; e_capacity := e_capacity r; e_layout := e_layout r; e_pipeline := e_pipeline r; e_used := e_used r; e_next := e_next r;
     e_allocated := e_allocated r; e_active := e_active r; e_state := e_state r; e_opened := e_opened r; e_job := v; e_options := e_options r; e_completions
     := e_completions r; e_identity := e_identity r |}.
Definition e_set_options (v : Options) (r : Engine D Q) : Engine D Q :=
  {| e_device := e_device r; e_capacity := e_capacity r; e_layout := e_layout r; e_pipeline := e_pipeline r; e_used := e_used r; e_next := e_next r;
     e_allocated := e_allocated r; e_active := e_active r; e_state := e_state r; e_opened := e_opened r; e_job := e_job r; e_options := v; e_completions :=
     e_completions r; e_identity := e_identity r |}.
Definition e_set_completions (v : list Completion) (r : Engine D Q) : Engine D Q :=
  {| e_device := e_device r; e_capacity := e_capacity r; e_layout := e_layout r; e_pipeline := e_pipeline r; e_used := e_used r; e_next := e_next r;
     e_allocated := e_allocated r; e_active := e_active r; e_state := e_state r; e_opened := e_opened r; e_job := e_job r; e_options := e_options r;
     e_completions := v; e_identity := e_identity r |}.
Definition e_set_identity (v : Z) (r : Engine D Q) : Engine D Q :=
  {| e_device := e_device r; e_capacity := e_capacity r; e_layout := e_layout r; e_pipeline := e_pipeline r; e_used := e_used r; e_next := e_next r;
     e_allocated := e_allocated r; e_active := e_active r; e_state := e_state r; e_opened := e_opened r; e_job := e_job r; e_options := e_options r;
     e_completions := e_completions r; e_identity := v |}.
End Setters.
