(* ===== verification/EngineRecovery.v ===== *)
(** * Queue-driven recovery (moat-engine/src/engine/recovery.rs)

    One step of the open job: superblocks, allocation headers and footer tails,
    then each segment's footer, or its frames when the footer is unusable. The
    parameter [extent_bytes] is the size of a routing entry with its flag. *)

From stdpp Require Import gmap.
From S2P Require Import Prelude Align Checksum ChunkId Codec FrameFormat FrameDecode SegmentFormat SegmentBuilder.
From S2P Require Import Io Index PipelineState Pipeline Layout EngineState.

(** [l.resize(n, v)], and [l[a..b].copy_from_slice(src)], which panics unless
    the lengths agree. *)
Definition resize {A} (l : list A) (n : nat) (v : A) : list A := take n l ++ replicate (n - length l) v.
Definition copy_range {E A} (l : list A) (a b : Z) (src : list A) : res E (list A) :=
  if len src =? b - a then copy_at l a src else Panic.

Definition unsupported (e : segment.Error) : bool :=
  match e with
  | segment.UnsupportedVersion _ => true
  | segment.Frame _ (frame.UnsupportedVersion _) => true
  | _ => false
  end.

Section Recovery.
Context {D Q : Type} {QI : Queue Q} {C : CrcFast} (try_reserve : Z -> bool) (extent_bytes : Z).

(** [metadata_bytes / (size_of::<Extent>() + size_of::<bool>())]. *)
Definition route_capacity (metadata_bytes : Z) : Z := metadata_bytes / extent_bytes.

Abbreviation RM := (eff (Recovery * Engine D Q) engine.Error).

Definition on_recovery (f : Recovery -> Recovery) : RM unit := modify (fun s => (f s.1, s.2)).
Definition on_engine (f : Engine D Q -> Engine D Q) : RM unit := modify (fun s => (s.1, f s.2)).
Definition rget {A} (f : Recovery -> A) : RM A := reads (fun s => f s.1).
Definition eget {A} (f : Engine D Q -> A) : RM A := reads (fun s => f s.2).

(** A pipeline call; a refused one leaves the pipeline as it was. *)
Definition on_pipeline (f : Pipeline Q -> presult (Pipeline Q)) : RM unit :=
  fun s => match f (e_pipeline s.2) with
           | Ok p => (Ok tt, (s.1, e_set_pipeline p s.2))
           | Err e => (Err (engine.Pipeline e), s)
           | Panic => (Panic, s)
           end.

Definition fail_when (c : bool) (e : engine.Error) : RM unit := lift (fail_if c e).

Definition page_read (off : Z) : Progress := Progress_read off (zeros PAGE_SIZE) PAGE_SIZE.

Definition superblock (bytes : list byte) : RM unit :=
  match Layout_decode bytes with
  | Ok layout =>
      let! found := rget rc_found in
      fail_when (match found with Some old => negb (bool_decide (old = layout)) | None => false end) (engine.Corrupt "superblocks disagree") ;!
      on_recovery (rc_set_found (Some layout))
  | Err engine.NotFormatted => eret tt
  | Err error => lift (Err error)
  | Panic => lift Panic
  end.

Definition start_scan (limits : FrameLimits) : RM unit :=
  on_recovery (fun r => rc_set_validator None (rc_set_bytes None r)) ;!
  let! header := rget rc_header in
  let! header := lift (expect header) in
  on_recovery (fun r => rc_set_stage Scan (rc_set_scanner (Some (Scanner_new header limits)) r)).

(** Moves to the next slot. *)
Definition recovery_next : RM Progress :=
  on_recovery (fun r => rc_set_stage RHeader (rc_set_scanner None (rc_set_validator None (rc_set_bytes None
    (rc_set_page None (rc_set_header None (rc_set_number (wrap32 (rc_number r + 1)) r))))))) ;!
  eret Continue.

Definition step_super_b (input : option Buffer) : RM Progress :=
  let! page := lift (expect input) in
  superblock page ;!
  let! found := rget rc_found in
  let! layout := lift (ok_or found engine.NotFormatted) in
  let! cap := eget e_capacity in
  fail_when (cap <? l_capacity layout) (engine.Corrupt "device was truncated") ;!
  let! resources := eget (fun e => o_resources (e_options e)) in
  fail_when (l_segments layout >? route_capacity (rl_metadata_bytes resources))
    (engine.Pipeline (pipeline.ResourceLimit "segment routing metadata")) ;!
  fail_when (max_frame_len (l_limits layout) >? rl_frame_bytes resources)
    (engine.Pipeline (pipeline.ResourceLimit "configured frame buffer bound")) ;!
  fail_when (negb (try_reserve (l_segments layout))) engine.IndexAllocation ;!
  on_engine (fun e => e_set_used (resize (e_used e) (Z.to_nat (l_segments layout)) false) e) ;!
  on_engine (fun e => e_set_pipeline (set_limits (l_limits layout) (e_pipeline e)) e) ;!
  on_engine (e_set_layout (Some layout)) ;!
  on_recovery (rc_set_stage RHeader) ;!
  eret Continue.

(** A sealed trailer of this generation replaces the allocation header. *)
Definition tail_header (header : SegmentHeader) (tail : list byte) : eresult SegmentHeader :=
  if any_nonzero tail then
    match FooterTrailer_decode tail (segment_len header) with
    | Ok trailer =>
        let sealed := ft_header trailer in
        fail_if (negb (bytes_eqb (device_id (id sealed)) (device_id (id header)))
                 || negb (segment_no (id sealed) =? segment_no (id header))
                 || (sequence (id sealed) >? sequence (id header)))
          (engine.Corrupt "footer allocation identity or future generation") ;?
        Ok (if sequence (id sealed) =? sequence (id header) then sealed else header)
    | Err (segment.UnsupportedVersion v) => Err (engine.Segment (segment.UnsupportedVersion v))
    | Err _ => Ok header
    | Panic => Panic
    end
  else Ok header.

Definition step_tail (layout : Layout) (base : Z) (input : option Buffer) : RM Progress :=
  let! tail := lift (expect input) in
  let! page := rget rc_page in
  on_recovery (rc_set_page None) ;!
  let! page := lift (expect page) in
  if negb (any_nonzero page) then
    fail_when (any_nonzero tail) (engine.Corrupt "footer without allocation header") ;!
    recovery_next
  else
    let! number := rget rc_number in
    let! header := lift (map_err engine.Segment (SegmentHeader_decode page (l_id layout) number (l_segment_size layout))) in
    let! header := lift (tail_header header tail) in
    let! used := eget e_used in
    let! used := lift (index_set used number true) in
    on_engine (fun e => e_set_allocated (wrap32 (e_allocated e + 1)) (e_set_used used e)) ;!
    on_pipeline (fun p => attach try_reserve p header base false) ;!
    on_recovery (rc_set_header (Some header)) ;!
    let! resources := eget (fun e => o_resources (e_options e)) in
    match footer_range header with
    | Some (start, stop) =>
        let l := Z.max 0 (stop - start) in
        if l <=? rl_metadata_bytes resources then
          on_recovery (rc_set_stage FooterRead) ;!
          if l =? PAGE_SIZE then
            on_recovery (rc_set_bytes (Some tail)) ;!
            eret Continue
          else
            let split := l - PAGE_SIZE in
            let! bytes := lift (copy_range (zeros l) split l tail) in
            eret (Progress_read (base + start) bytes split)
        else start_scan (l_limits layout) ;! eret Continue
    | None => start_scan (l_limits layout) ;! eret Continue
    end.

Definition step_footer_read (limits : FrameLimits) (input : option Buffer) : RM Progress :=
  (match input with Some b => on_recovery (rc_set_bytes (Some b)) | None => eret tt end) ;!
  let! bytes := rget rc_bytes in
  let! bytes := lift (expect bytes) in
  let! header := rget rc_header in
  let! header := lift (expect header) in
  (match FooterValidator_new bytes header limits with
   | Ok v => on_recovery (fun r => rc_set_stage FooterValidate (rc_set_validator (Some v) r))
   | Err e => if unsupported e then lift (Err (engine.Segment e)) else start_scan limits
   | Panic => lift Panic
   end) ;!
  eret Continue.

Definition step_footer_validate (limits : FrameLimits) : RM Progress :=
  let! v := rget rc_validator in
  let! v := lift (expect v) in
  let! bytes := rget rc_bytes in
  let! bytes := lift (expect bytes) in
  (match FooterValidator_step v bytes with
   | Ok (true, v) =>
       on_recovery (fun r => rc_set_stage Restore (rc_set_frame_offset PAGE_SIZE (rc_set_metadata_at 0 (rc_set_validator (Some v) r))))
   | Ok (false, v) => on_recovery (rc_set_validator (Some v))
   | Err e => if unsupported e then lift (Err (engine.Segment e)) else start_scan limits
   | Panic => lift Panic
   end) ;!
  eret Continue.

Definition step_restore (limits : FrameLimits) : RM Progress :=
  let! header := rget rc_header in
  let! header := lift (expect header) in
  let! stop := lift (expect (data_end header)) in
  let! off := rget rc_frame_offset in
  if off =? stop then recovery_next
  else
    let! position := lift (map_err engine.Frame (FramePosition_new (sequence (id header)) off stop)) in
    let! bytes := rget rc_bytes in
    let! bytes := lift (expect bytes) in
    let! at_ := rget rc_metadata_at in
    let! rest := lift (slice bytes at_ (len bytes)) in
    let! m := lift (map_err engine.Frame (Metadata_decode rest limits position)) in
    on_pipeline (fun p => restore try_reserve p m) ;!
    on_recovery (fun r => rc_set_frame_offset (wrap32 (rc_frame_offset r + wrap32 (frame_len (md_header m))))
                            (rc_set_metadata_at (rc_metadata_at r + len (md_bytes m)) r)) ;!
    eret Continue.

Definition step_scan (base : Z) : RM Progress :=
  let! scanner := rget rc_scanner in
  let! scanner := lift (expect scanner) in
  match Scanner_position scanner with
  | None => recovery_next
  | Some position => on_recovery (rc_set_stage ScanHeader) ;! eret (page_read (base + offset position))
  end.

(** [scanner.next_frame(bytes)?] on the recovery's scanner. *)
Definition scan_next (scanner : Scanner) (bytes : list byte) : RM (option Frame) :=
  let '(r, scanner) := next_frame scanner bytes in
  on_recovery (rc_set_scanner (Some scanner)) ;!
  lift (map_err engine.Segment r).

(** The rest of a scanned frame: publish it, or end the segment. *)
Definition scan_publish (found : option Frame) : RM Progress :=
  match found with
  | Some f => on_pipeline (fun p => restore try_reserve p (frame_metadata f)) ;! on_recovery (rc_set_stage Scan) ;! eret Continue
  | None => recovery_next
  end.

Definition step_scan_header (limits : FrameLimits) (base : Z) (input : option Buffer) : RM Progress :=
  let! page := lift (expect input) in
  let! scanner := rget rc_scanner in
  let! scanner := lift (expect scanner) in
  let! position := lift (expect (Scanner_position scanner)) in
  match FrameHeader_decode page limits position with
  | Panic => lift Panic
  | Err _ => let! _ := scan_next scanner page in recovery_next
  | Ok h =>
      on_recovery (rc_set_frame_len (frame_len h)) ;!
      if frame_len h =? PAGE_SIZE then
        let! found := scan_next scanner page in scan_publish found
      else
        on_recovery (fun r => rc_set_stage ScanBody (rc_set_page (Some page) r)) ;!
        let l := wrap64 (frame_len h - PAGE_SIZE) in
        eret (Progress_read (base + offset position + PAGE_SIZE) (zeros l) l)
  end.

Definition step_scan_body (input : option Buffer) : RM Progress :=
  let! body := lift (expect input) in
  let! l := rget rc_frame_len in
  let! page := rget rc_page in
  on_recovery (rc_set_page None) ;!
  let! page := lift (expect page) in
  let! bytes := lift (copy_range (zeros l) 0 PAGE_SIZE page) in
  let! bytes := lift (copy_range bytes PAGE_SIZE l body) in
  let! scanner := rget rc_scanner in
  let! scanner := lift (expect scanner) in
  let! found := scan_next scanner bytes in
  scan_publish found.

Definition Recovery_step (input : option Buffer) : RM Progress :=
  let! stage := rget rc_stage in
  match stage with
  | RStart => on_recovery (rc_set_stage SuperA) ;! eret (page_read 0)
  | SuperA =>
      let! page := lift (expect input) in
      superblock page ;!
      on_recovery (rc_set_stage SuperB) ;!
      eret (page_read PAGE_SIZE)
  | SuperB => step_super_b input
  | _ =>
      let! layout := eget e_layout in
      let! layout := lift (expect layout) in
      let limits := l_limits layout in
      let! number := rget rc_number in
      if bool_decide (stage = RHeader) && (number =? l_segments layout) then eret Done
      else
        let! base := lift (segment_base layout number) in
        match stage with
        | RHeader => on_recovery (rc_set_stage HeaderDone) ;! eret (page_read base)
        | HeaderDone =>
            on_recovery (fun r => rc_set_stage Tail (rc_set_page input r)) ;!
            let! tail := lift (footer_tail_offset layout number) in
            eret (page_read tail)
        | Tail => step_tail layout base input
        | FooterRead => step_footer_read limits input
        | FooterValidate => step_footer_validate limits
        | Restore => step_restore limits
        | Scan => step_scan base
        | ScanHeader => step_scan_header limits base input
        | ScanBody => step_scan_body input
        | RStart | SuperA | SuperB => lift Panic
        end
  end.
End Recovery.
