(* ===== verification/Engine.v ===== *)
(** * The device owner (moat-engine/src/engine: mod.rs, lifecycle.rs)

    Opening, segment transitions, admission and the poll turn. Operations that
    change the owner before they fail keep the change: they are computations
    over the engine with errors. *)

From stdpp Require Import gmap.
From S2P Require Import Prelude Align Checksum ChunkId Codec FrameFormat FrameDecode FrameBuilder SegmentFormat SegmentBuilder.
From S2P Require Import Io Index PipelineState Pipeline Layout EngineState EngineRecovery.

(** ** Pipeline views used by the owner (pipeline/mod.rs, maintenance.rs) *)

Section Views.
Context {Q : Type}.
Implicit Types p : Pipeline Q.

Definition index_len p : Z := Z.of_nat (size (p_index p)).
Definition key_count p : Z := len (p_keys p).
Definition pipeline_data_end p : option Z := sb_data_end <$> p_segment p.

(** What a visitor is told of a version: its length, or that it is deleted. *)
Definition version_of (k : ChunkId) (l : Location) : ChunkId * Z * option Z :=
  (k, loc_lsn l, if is_tombstone (loc_kind l) then None else Some (loc_value_len l)).

Definition pipeline_visit_versions p : list (ChunkId * Z * option Z) := (fun kv => version_of kv.1 kv.2) <$> map_to_list (p_index p).

Fixpoint visit_keys (index : Index) (ks : list ChunkId) : presult (list (ChunkId * Z * option Z)) :=
  match ks with
  | [] => Ok []
  | k :: ks =>
      let? l := expect (index !! k) in
      let? rest := visit_keys index ks in
      Ok (version_of k l :: rest)
  end.

Definition visit_batch p (start stop : Z) : presult (list (ChunkId * Z * option Z)) :=
  let? ks := slice (p_keys p) start stop in visit_keys (p_index p) ks.
End Views.

Section Engine.
Context {D Q : Type} {DI : Device D} {QI : Queue Q} {C : CrcFast} (try_reserve : Z -> bool) (extent_bytes : Z).
Implicit Types e : Engine D Q.

Definition perr {A} (m : presult A) : eresult A := map_err engine.Pipeline m.

(** ** Segment transitions (lifecycle.rs) *)

Abbreviation TM := (eff (Transition * Engine D Q) engine.Error).

Definition on_transition (f : Transition -> Transition) : TM unit := modify (fun s => (f s.1, s.2)).
Definition t_engine (f : Engine D Q -> Engine D Q) : TM unit := modify (fun s => (s.1, f s.2)).
Definition tget {A} (f : Transition -> A) : TM A := reads (fun s => f s.1).
Definition tget_e {A} (f : Engine D Q -> A) : TM A := reads (fun s => f s.2).

(** A pipeline call with a result; a refused one leaves the pipeline as it was. *)
Definition t_pipeline {A} (f : Pipeline Q -> presult (A * Pipeline Q)) : TM A :=
  fun s => match f (e_pipeline s.2) with
           | Ok (a, p) => (Ok a, (s.1, e_set_pipeline p s.2))
           | Err err => (Err (engine.Pipeline err), s)
           | Panic => (Panic, s)
           end.

Definition t_sync : TM Progress := let! mode := tget_e (fun e => o_sync_mode (e_options e)) in eret (Progress_sync mode).

Definition step_drain (layout : Layout) (kind : lifecycle.Lifecycle) : TM Progress :=
  let! p := tget_e e_pipeline in
  if writes_pending p || (bool_decide (kind = lifecycle.Close) && negb (in_flight p =? 0)) then eret Wait
  else
    let! active := tget_e e_active in
    match active with
    | Some number =>
        let! builder := t_pipeline take_segment in
        let! builder := lift (expect builder) in
        t_engine (e_set_active None) ;!
        let! base := lift (segment_base layout number) in
        on_transition (fun t => tr_set_stage TFooter (tr_set_footer (Some (into_footer builder)) (tr_set_base base t))) ;!
        eret Continue
    | None =>
        if decide (kind = lifecycle.Close) then on_transition (tr_set_stage TClosed) ;! t_sync
        else on_transition (tr_set_stage Allocate) ;! eret Continue
    end.

Definition step_footer : TM Progress :=
  let! footer := tget tr_footer in
  let! footer := lift (expect footer) in
  let! (piece, footer) := lift (unwrap (FooterEncoder_next footer)) in
  on_transition (tr_set_footer (Some footer)) ;!
  let! (off, bytes, last) := lift (expect piece) in
  if (last : bool) then on_transition (fun t => tr_set_stage LastWrite (tr_set_last (Some (off, bytes)) t)) ;! t_sync
  else let! base := tget tr_base in eret (Progress_write (base + off) bytes).

Definition step_allocate (layout : Layout) : TM Progress :=
  on_transition (tr_set_footer None) ;!
  let! next := tget tr_next in
  match next with
  | None => eret Done
  | Some number =>
      let! header := lift (Layout_header layout number) in
      let! bytes := lift (map_err engine.Segment (SegmentHeader_encode_into header (zeros PAGE_SIZE))) in
      let! used := tget_e e_used in
      let! used := lift (index_set used number true) in
      t_engine (fun e => e_set_allocated (wrap32 (e_allocated e + 1)) (e_set_used used e)) ;!
      on_transition (tr_set_stage HeaderSync) ;!
      let! base := lift (segment_base layout number) in
      eret (Progress_write base bytes)
  end.

Definition step_attach (layout : Layout) : TM Progress :=
  let! next := tget tr_next in
  let! number := lift (expect next) in
  let! header := lift (Layout_header layout number) in
  let! base := lift (segment_base layout number) in
  t_pipeline (fun p => let? p := attach try_reserve p header base true in Ok (tt, p)) ;!
  t_engine (e_set_active (Some number)) ;!
  eret Done.

Definition Transition_step (kind : lifecycle.Lifecycle) : TM Progress :=
  let! opened := tget_e e_opened in
  lift (fail_if (negb opened) engine.Failed) ;!
  let! layout := tget_e e_layout in
  let! layout := lift (expect layout) in
  let! stage := tget tr_stage in
  match stage with
  | Drain => step_drain layout kind
  | TFooter => step_footer
  | LastWrite =>
      let! last := tget tr_last in
      on_transition (tr_set_last None) ;!
      let! (off, buf) := lift (expect last) in
      on_transition (tr_set_stage LastSync) ;!
      let! base := tget tr_base in
      eret (Progress_write (base + off) buf)
  | LastSync => on_transition (tr_set_stage Allocate) ;! t_sync
  | Allocate => step_allocate layout
  | HeaderSync => on_transition (tr_set_stage Attach) ;! t_sync
  | Attach => step_attach layout
  | TClosed => eret Done
  end.

(** The outcome with the job and the engine after the step. *)
Definition Job_step (j : Job) e (input : option Buffer) : eresult Progress * Job * Engine D Q :=
  match j_work j with
  | WOpen r => let '(out, (r, e)) := Recovery_step try_reserve extent_bytes input (r, e) in (out, j_set_work (WOpen r) j, e)
  | WTransition t => let '(out, (t, e)) := Transition_step (j_kind j) (t, e) in (out, j_set_work (WTransition t) j, e)
  end.

(** ** Opening *)

(** [identity] is the owner number handed out by the process-wide counter. *)
Definition open_with_options (identity : Z) (device : D) (queue : Q) (options : Options) : eresult (Engine D Q * Z) :=
  let? cap := io_err (dev_capacity device) in
  let? limits := map_err engine.Frame (FrameLimits_new 4096 0) in
  let? p := perr (Pipeline_empty queue limits) in
  let? p := perr (configure p (o_resources options) (o_poll options)) in
  let p := set_sync_enabled (bool_decide (o_sync_mode options = SyncEnabled)) p in
  let? (ticket, p) := perr (next_ticket p) in
  let p := set_maintenance true p in
  Ok ({| e_device := device; e_capacity := cap; e_layout := None; e_pipeline := p; e_used := []; e_next := 0; e_allocated := 0;
         e_active := None; e_state := state.Opening; e_opened := false; e_job := Some (Job_open ticket); e_options := options;
         e_completions := []; e_identity := identity |}, ticket).

(** ** Admission checks *)

Definition check_readable e : eresult unit :=
  fail_if (negb (e_opened e)) (if decide (e_state e = state.Opening) then engine.NotReady else engine.Failed) ;?
  fail_if (bool_decide (e_state e = state.Closing) || bool_decide (e_state e = state.Closed)) engine.Closed.

Definition check_writable e : eresult unit :=
  check_readable e ;?
  fail_if (bool_decide (e_state e = state.Failed)) engine.Failed ;?
  fail_if (match e_job e with Some _ => true | None => false end) (engine.Pipeline pipeline.Backpressure).

(** ** Views *)

Definition engine_layout e : eresult Layout := check_readable e ;? expect (e_layout e).
Definition indexed_versions e : eresult Z := check_readable e ;? Ok (index_len (e_pipeline e)).
Definition engine_in_flight e : Z := in_flight (e_pipeline e) + (match e_job e with Some _ => 1 | None => 0 end).
Definition engine_contains e (k : ChunkId) : eresult bool := check_readable e ;? Ok (contains (e_pipeline e) k).
Definition engine_stat e (k : ChunkId) : eresult (option (Z * Z)) := check_readable e ;? Ok (stat (e_pipeline e) k).
Definition visit_versions e : eresult (list (ChunkId * Z * option Z)) := check_readable e ;? Ok (pipeline_visit_versions (e_pipeline e)).
Definition engine_read_requirements e (k : ChunkId) (range : Z * Z) (verify : bool) : eresult (Z * Z) :=
  check_readable e ;? perr (read_requirements (e_pipeline e) k range verify).

(** Room in the map and in the key list; the model keeps no capacities. *)
Definition pipeline_reserve_index (p : Pipeline Q) (additional : Z) : bool :=
  let n := Z.min additional (saturating_sub (rl_index_entries (p_resources p)) (index_len p)) in
  try_reserve n && try_reserve n.

Definition reserve_index e (additional : Z) : eresult unit :=
  check_readable e ;?
  fail_if (saturating_add (index_len (e_pipeline e)) additional >? rl_index_entries (o_resources (e_options e)))
    (engine.Pipeline (pipeline.ResourceLimit "index reservation")) ;?
  fail_if (negb (pipeline_reserve_index (e_pipeline e) additional)) engine.IndexAllocation.

Definition version_cursor e : eresult VersionCursor :=
  check_readable e ;? Ok {| vc_owner := e_identity e; vc_next := 0; vc_end := key_count (e_pipeline e) |}.

(** Whether the end was reached, the cursor after the batch, and what was visited. *)
Definition visit_versions_batch e (cursor : VersionCursor) (limit : Z) : eresult (bool * VersionCursor * list (ChunkId * Z * option Z)) :=
  check_readable e ;?
  fail_if (negb (vc_owner cursor =? e_identity e) || (limit =? 0)) (engine.InvalidArgument "invalid version cursor or batch limit") ;?
  let stop := Z.min (saturating_add (vc_next cursor) limit) (vc_end cursor) in
  let? visited := perr (visit_batch (e_pipeline e) (vc_next cursor) stop) in
  Ok (stop =? vc_end cursor, {| vc_owner := vc_owner cursor; vc_next := stop; vc_end := vc_end cursor |}, visited).

(** ** Reads and barriers *)

Definition engine_read e (k : ChunkId) (range : Z * Z) (verify : bool) (buffers : ReadBuffers) : res (engine.Error * ReadBuffers) (Z * Engine D Q) :=
  map_err (fun err => (err, buffers)) (check_readable e) ;?
  let? (ticket, p) := map_err (fun r => (engine.Pipeline r.1, r.2)) (read (e_pipeline e) k range verify buffers) in
  Ok (ticket, e_set_pipeline p e).

Definition engine_flush e : eresult (Z * Engine D Q) :=
  check_writable e ;?
  let? (ticket, p) := perr (flush (e_pipeline e)) in
  Ok (ticket, e_set_pipeline p e).

(** ** Lifecycle requests *)

Abbreviation EM := (eff (Engine D Q) engine.Error).
Definition guarded (f : Engine D Q -> eresult unit) : EM unit := fun e => (f e, e).

(** The first slot at or after [next] that is not in use; [segments] if none. *)
Fixpoint skip_used (fuel : nat) (used : list bool) (next segments : Z) : eresult Z :=
  match fuel with
  | O => Ok next
  | S n =>
      if next <? segments then
        let? u := index_get used next in
        if (u : bool) then skip_used n used (next + 1) segments else Ok next
      else Ok next
  end.

Definition start_rollover (number : option Z) (ticket : option Z) : EM unit :=
  let! layout := reads e_layout in
  let! layout := lift (expect layout) in
  let! number :=
    match number with
    | Some n => eret n
    | None =>
        let! e := reads (fun e => e) in
        let! next := lift (skip_used (Z.to_nat (l_segments layout)) (e_used e) (e_next e) (l_segments layout)) in
        modify (e_set_next next) ;!
        lift (fail_if (next =? l_segments layout) engine.OutOfSpace) ;!
        eret next
    end in
  let! _ := lift (segment_base layout number) in
  let! used := reads e_used in
  let! taken := lift (index_get used number) in
  lift (fail_if taken (engine.InvalidArgument "segment is already allocated")) ;!
  modify (fun e => e_set_pipeline (set_maintenance true (e_pipeline e)) e) ;!
  modify (e_set_job (Some (Job_transition ticket lifecycle.Rollover (Some number)))).

Definition take_ticket : EM Z :=
  fun e => match next_ticket (e_pipeline e) with
           | Ok (t, p) => (Ok t, e_set_pipeline p e)
           | Err err => (Err (engine.Pipeline err), e)
           | Panic => (Panic, e)
           end.

Definition rollover_with (number : option Z) : EM Z :=
  guarded check_writable ;!
  let! ticket := take_ticket in
  start_rollover number (Some ticket) ;!
  eret ticket.
Definition rollover : EM Z := rollover_with None.
Definition rollover_to (number : Z) : EM Z := rollover_with (Some number).

Definition engine_seal : EM Z :=
  guarded check_writable ;!
  let! ticket := take_ticket in
  modify (fun e => e_set_pipeline (set_maintenance true (e_pipeline e)) e) ;!
  modify (e_set_job (Some (Job_transition (Some ticket) lifecycle.Seal None))) ;!
  eret ticket.

Definition close_refused e : bool :=
  bool_decide (e_state e = state.Opening) || bool_decide (e_state e = state.Closing) || bool_decide (e_state e = state.Closed)
  || match e_job e with Some _ => true | None => false end.

Definition close : EM Z :=
  guarded (fun e => fail_if (close_refused e)
             (if decide (e_state e = state.Closed) then engine.Closed else engine.Pipeline pipeline.Backpressure)) ;!
  let! ticket := take_ticket in
  modify (e_set_state state.Closing) ;!
  modify (fun e => e_set_pipeline (set_maintenance true (e_pipeline e)) e) ;!
  modify (e_set_job (Some (Job_transition (Some ticket) lifecycle.Close None))) ;!
  eret ticket.

(** ** Writes

    A rejected write returns its buffer; the owner may have started a rollover. *)

Definition with_input {A B} (buf : B) (m : EM A) : eff (Engine D Q) (engine.Error * B) A :=
  fun e => let '(r, e) := m e in (map_err (fun err => (err, buf)) r, e).

(** Starts an automatic rollover; the write is refused either way. *)
Definition roll_and_refuse {A} (buf : Buffer) : eff (Engine D Q) (engine.Error * Buffer) A :=
  with_input buf (start_rollover None None) ;!
  lift (Err (engine.Pipeline pipeline.Backpressure, buf)).

Definition is_full (err : pipeline.Error) : bool :=
  match err with pipeline.Segment (segment.Full _ _) | pipeline.MetadataFull => true | _ => false end.

Definition engine_submit (buf : Buffer) (submit : Pipeline Q -> Buffer -> res (Rejected Buffer) (Z * Pipeline Q)) : eff (Engine D Q) (engine.Error * Buffer) Z :=
  with_input buf (guarded check_writable) ;!
  let! e := reads (fun e => e) in
  match e_active e with
  | None =>
      if writes_pending (e_pipeline e) then lift (Err (engine.Pipeline pipeline.Backpressure, buf))
      else roll_and_refuse buf
  | Some _ =>
      match submit (e_pipeline e) buf with
      | Ok (ticket, p) => modify (e_set_pipeline p) ;! eret ticket
      | Err (err, buf) =>
          if is_full err && match pipeline_data_end (e_pipeline e) with Some stop => stop >? PAGE_SIZE | None => false end then roll_and_refuse buf
          else lift (Err (engine.Pipeline err, buf))
      | Panic => lift Panic
      end
  end.

Definition engine_write (b : FrameBuilder) (buf : Buffer) : eff (Engine D Q) (engine.Error * Buffer) Z :=
  engine_submit buf (fun p buf => write try_reserve p b buf).
Definition engine_write_prepared (k : ChunkId) (lsn value_len : Z) (buf : Buffer) : eff (Engine D Q) (engine.Error * Buffer) Z :=
  engine_submit buf (fun p buf => write_prepared try_reserve p k lsn value_len buf).

(** ** Driving

    Neither returns an error: [Panic] is the only failure. The flag is whether
    local progress was made. *)

Definition finish_job e (j : Job) (result : eresult unit) (out : list EngineCompletion) : bool * Engine D Q * list EngineCompletion :=
  let e :=
    if decide (j_kind j = lifecycle.Close) then e_set_state state.Closed e
    else if is_err result then e_set_state state.Failed e
    else
      let e := e_set_state state.Ready e in
      if decide (j_kind j = lifecycle.Open) then e_set_opened true e else e in
  let e := e_set_pipeline (set_maintenance false (e_pipeline e)) e in
  (true, e, match j_ticket j with Some t => out ++ [ELifecycle t (j_kind j) result] | None => out end).

Definition advance_job e (j : Job) (input : option Buffer) (out : list EngineCompletion) : eresult (bool * Engine D Q * list EngineCompletion) :=
  match Job_step (j_set_blocked false j) e input with
  | (Panic, _, _) => Panic
  | (Ok Done, j, e) => Ok (finish_job e j (Ok tt) out)
  | (Ok Continue, j, e) => Ok (true, e_set_job (Some j) e, out)
  | (Ok Wait, j, e) => Ok (false, e_set_job (Some (j_set_blocked true j)) e, out)
  | (Ok (PIo op off l buf), j, e) =>
      match control_io (e_pipeline e) op off l buf with
      | Ok p => Ok (true, e_set_job (Some (j_set_waiting true j)) (e_set_pipeline p e), out)
      | Err err => Ok (finish_job e j (Err (engine.Pipeline err)) out)
      | Panic => Panic
      end
  | (Err err, j, e) => Ok (finish_job e j (Err err) out)
  end.

Definition drive_job e (out : list EngineCompletion) : eresult (bool * Engine D Q * list EngineCompletion) :=
  match e_job e with
  | None => Ok (false, e, out)
  | Some j =>
      let e := e_set_job None e in
      let failed := p_queue_failed (e_pipeline e) in
      if failed && negb (bool_decide (j_kind j = lifecycle.Close)) then Ok (finish_job e j (Err (engine.Pipeline pipeline.QueueFailed)) out)
      else if j_waiting j then
        if failed then Ok (finish_job e j (Err (engine.Pipeline pipeline.QueueFailed)) out)
        else
          match take_control (e_pipeline e) with
          | (None, p) => Ok (false, e_set_job (Some j) (e_set_pipeline p e), out)
          | (Some c, p) =>
              let e := e_set_pipeline p e in
              let j := j_set_waiting false j in
              match transfer_result (request c) (io_result c) with
              | Ok _ => advance_job e j (buffer (request c)) out
              | Err err => Ok (finish_job e j (Err (engine.Pipeline err)) out)
              | Panic => Panic
              end
          end
      else advance_job e j None out
  end.

Definition engine_has_ready e : eresult bool :=
  let? ready := perr (pipeline_has_ready (e_pipeline e)) in
  Ok (ready || match e_job e with Some j => negb (j_waiting j) && negb (j_blocked j) | None => false end).

(** The number of completions added, the owner and all completions. *)
Definition engine_poll e (wait : bool) (out : list EngineCompletion) : eresult (Z * Engine D Q * list EngineCompletion) :=
  let before := len out in
  let? (progressed, e, out) := drive_job e out in
  let? wait := may_wait (wait && negb progressed && (len out =? before)) (engine_has_ready e) in
  let? (p, completions) := perr (poll (e_pipeline e) wait (e_completions e)) in
  let e := e_set_completions [] (e_set_pipeline p e) in
  let out := out ++ map from_pipeline completions in
  let e := if p_queue_failed p && negb (bool_decide (e_state e = state.Closed)) then e_set_state state.Failed e else e in
  let? (_, e, out) := drive_job e out in
  Ok (len out - before, e, out).

(** ** Blocking helpers

    The loop ends when the ticket's completion arrives; running out of fuel is
    [None]. *)

Definition lifecycle_result (ticket : Z) (c : EngineCompletion) : option (eresult unit) :=
  match c with ELifecycle t _ r => if t =? ticket then Some r else None | _ => None end.

Fixpoint wait_lifecycle (fuel : nat) e (ticket : Z) : option (eresult unit * Engine D Q) :=
  match fuel with
  | O => None
  | S n =>
      match engine_poll e true [] with
      | Ok (_, e, out) =>
          match omap (lifecycle_result ticket) out with
          | r :: _ => Some (r, e)
          | [] => wait_lifecycle n e ticket
          end
      | Err err => Some (Err err, e)
      | Panic => Some (Panic, e)
      end
  end.

Definition open_blocking (fuel : nat) (identity : Z) (device : D) (queue : Q) (options : Options) : option (eresult (Engine D Q)) :=
  match open_with_options identity device queue options with
  | Ok (e, ticket) =>
      match wait_lifecycle fuel e ticket with
      | Some (Ok _, e) => Some (Ok e)
      | Some (Err err, _) => Some (Err err)
      | Some (Panic, _) => Some Panic
      | None => None
      end
  | Err err => Some (Err err)
  | Panic => Some Panic
  end.

Definition blocking_transition (fuel : nat) (start : EM Z) e : option (eresult unit * Engine D Q) :=
  if negb (engine_in_flight e =? 0) then Some (Err (engine.Pipeline pipeline.Backpressure), e)
  else
    match start e with
    | (Ok ticket, e) => wait_lifecycle fuel e ticket
    | (Err err, e) => Some (Err err, e)
    | (Panic, e) => Some (Panic, e)
    end.

Definition seal_blocking (fuel : nat) e := blocking_transition fuel engine_seal e.
Definition rollover_blocking (fuel : nat) e := blocking_transition fuel rollover e.
Definition rollover_to_blocking (fuel : nat) (number : Z) e := blocking_transition fuel (rollover_to number) e.
Definition close_blocking (fuel : nat) e := blocking_transition fuel close e.
End Engine.
