(* ===== verification/EngineInv.v ===== *)
(** * The engine invariant

    What holds of the owner between calls: its pipeline is one the pipeline's
    own rules can reach, the one lifecycle request outstanding is the one the
    job waits for, and the job's stage has the data its next step needs. *)

From stdpp Require Import gmap.
From S2P Require Import Prelude Align ChunkId Checksum Codec FrameFormat FrameDecode FrameDecodeProofs FrameBuilder SegmentFormat SegmentBuilder SegmentProofs SegmentFooter SegmentIncremental SegmentValidator SegmentRecovery.
From S2P Require Import Io Index PipelineState Pipeline PipelineTable PipelineInv PipelineLemmas PipelineTrace PipelineAdmit PipelinePoll PipelineSafe PipelineControl.
From S2P Require Import Layout LayoutProofs EngineState EngineRecovery Engine.

(** ** Footer validation in steps never panics *)

Section Validator.
Context {C : CrcFast}.

Record validating (h : SegmentHeader) (bytes : list byte) (v : FooterValidator) : Prop := {
  vg_header : fv_header v = h;
  vg_ok : segment_header_ok h;
  vg_seal : exists s, seal h = Some s /\ len bytes = footer_len (seal_metadata_len s) /\ 0 <= metadata_at v <= seal_metadata_len s;
  vg_checked : 0 <= checked v <= len bytes
}.

Lemma seal_sizes h s : segment_header_ok h -> seal h = Some s -> 0 <= seal_metadata_len s /\ seal_metadata_len s + 64 <= footer_len (seal_metadata_len s) <= segment_len h.
Proof.
  intros (_ & (Hg & _) & Hsok) Hs. rewrite Hs in Hsok. destruct Hsok as (S1 & _ & S3 & _ & S5 & S6 & _ & _ & S9 & _ & S11).
  destruct (footer_len_page (seal_metadata_len s)) as (q & Hq & Hb); lia.
Qed.

Lemma FooterValidator_new_ok bytes h limits v s : segment_header_ok h -> seal h = Some s -> len bytes = footer_len (seal_metadata_len s) ->
  FooterValidator_new bytes h limits = Ok v -> validating h bytes v.
Proof.
  intros Hh Hs Hl H. unfold FooterValidator_new in H. inv_ok. subst v. pose proof (seal_sizes h s Hh Hs). constructor; cbn; auto; [|lia].
  exists s. split; [assumption|]. split; [assumption | lia].
Qed.

Lemma FooterValidator_new_safe bytes h limits : safe (FooterValidator_new bytes h limits).
Proof. unfold FooterValidator_new. apply safe_rbind; [apply FooterTrailer_decode_safe|]. intros t _. safe_steps. Qed.

Lemma checksum_regions_safe bytes chk stop rs : 0 <= chk -> stop <= len bytes ->
  Forall (fun r : Z * Z * bool => 0 <= r.1.1 /\ r.1.2 <= len bytes /\ (r.2 = true -> r.1.2 - r.1.1 <= 4)) rs -> forall sum, safe (checksum_regions bytes chk stop rs sum).
Proof.
  intros Hc Hs. induction 1 as [|[[start last] zero] rs (H1 & H2 & H3) _ IH]; intros sum; [apply safe_Ok|]. cbn [checksum_regions]. cbn [fst snd] in *.
  apply safe_rbind; [|intros; apply IH]. destruct (Z.ltb_spec (Z.max chk start) (Z.min stop last)); [|apply safe_Ok]. destruct zero.
  - specialize (H3 eq_refl). apply safe_rbind; [apply safe_slice; rewrite ?len_zeros; lia | intros; apply safe_Ok].
  - apply safe_rbind; [apply safe_slice; lia | intros; apply safe_Ok].
Qed.

Lemma FooterValidator_step_safe h bytes v : validating h bytes v ->
  match FooterValidator_step v bytes with Ok (_, v') => validating h bytes v' | Err _ => True | Panic => False end.
Proof.
  intros [Hv Hh (s & Hs & Hl & Hm) Hc]. pose proof (seal_sizes h s Hh Hs) as Hsz. unfold FooterValidator_step, FOOTER_TRAILER_LEN. rewrite Hv, Hs. cbn [expect rbind].
  change (Z.shiftl 64 10) with 65536. destruct (checksum_done v); cbn [negb].
  - destruct (fv_frames v =? seal_frame_count s).
    + destruct (fail_if _ _) eqn:Hg; cbn [rbind]; [|exact I | destruct (safe_fail_if _ _ Hg)]. constructor; auto. exists s. auto.
    + unfold SegmentHeader_position. pose proof (FramePosition_new_safe (sequence (id h)) (frame_offset v) (match seal h with Some s0 => seal_data_end s0 | None => segment_len h end)) as Hp.
      destruct (FramePosition_new _ _ _) as [pos|e|]; cbn [map_err rbind]; [|exact I | congruence]. rewrite slice_Ok by lia. cbn [rbind].
      pose proof (Metadata_decode_safe (sub bytes (metadata_at v) (seal_metadata_len s)) (fv_limits v) pos) as Hms.
      destruct (Metadata_decode _ _ _) as [m|e|] eqn:Hmd; cbn [map_err rbind]; [|exact I | congruence].
      destruct (Metadata_decode_ok _ _ _ _ Hmd) as (ds & Hok & Hb & Hlen). constructor; cbn; auto. exists s. split; [assumption|]. split; [assumption|].
      rewrite len_sub in Hlen by lia. pose proof (metadata_len_pos _ _ (mo_header _ _ _ _ Hok)). rewrite Hb, !len_sub by (rewrite ?len_sub; lia). lia.
  - set (stop := Z.min (checked v + 65536) (len bytes)).
    assert (Hr : safe (checksum_regions bytes (checked v) stop
      [(0, len bytes - 64 + 12, false); (len bytes - 64 + 12, len bytes - 64 + 16, true); (len bytes - 64 + 16, len bytes - 64 + 60, false); (len bytes - 64 + 60, len bytes, true)] (fv_checksum v))).
    { apply checksum_regions_safe; [lia | lia|]. repeat constructor; cbn [fst snd]; lia || discriminate. }
    destruct (checksum_regions _ _ _ _ _) as [sum|e|]; cbn [rbind]; [|exact I | congruence].
    match goal with |- context [if ?lo <? ?hi then let? b := slice bytes ?lo ?hi in @?k b else ?z] => assert (Hb : exists bad, (if lo <? hi then let? b := slice bytes lo hi in k b else z) = Ok bad) end.
    { destruct (Z.ltb_spec (Z.max (checked v) (seal_metadata_len s)) (Z.min stop (len bytes - 64))); [|eauto]. rewrite slice_Ok by lia. cbn [rbind]. eauto. }
    destruct Hb as (bad & ->). cbn [rbind]. destruct (fail_if bad _) eqn:Hg; cbn [rbind]; [|exact I | destruct (safe_fail_if _ _ Hg)].
    assert (Hd : safe (if stop =? len bytes then fail_if (negb (Crc32c_finalize sum =? fv_expected v)) (segment.Corrupt "footer checksum") ;? Ok true else Ok false)) by (destruct (stop =? len bytes); safe_steps).
    destruct (if stop =? len bytes then _ else _) as [done|e|]; cbn [rbind]; [|exact I | congruence]. constructor; cbn; auto; [exists s; auto | unfold stop; lia].
Qed.
End Validator.

(** ** Footer encoding in steps never ends early *)

Section Encoder.
Context {C : CrcFast} {CS : CrcFastSpec C}.

Definition encoding (f : FooterEncoder Crc32c) : Prop :=
  exists limits b ms o, segment_ok limits b ms /\ encoder_at b o f /\ 0 <= o <= SegmentBuilder_footer_len b - 4096 /\ o mod 4096 = 0.

Lemma into_footer_encoding limits b ms : segment_ok limits b ms -> encoding (into_footer b).
Proof.
  intros Hb. exists limits, b, ms, 0. pose proof (drain_sizes limits b ms Hb) as (_ & D2 & _). split; [assumption|]. split; [|split; [lia | reflexivity]].
  repeat split. exists []. auto.
Qed.

Lemma encoding_next f : encoding f -> exists off bytes last f', FooterEncoder_next f = Ok (Some (off, bytes, last), f') /\ (last = false -> encoding f').
Proof.
  intros (limits & b & ms & o & Hb & He & Ho & Hm). destruct (sealed_bytes_spec limits b ms Hb) as (t1 & t3 & Hsb & Ht1 & Hfin & Hl1 & Hl3 & Hz1 & Hz2 & _ & _).
  pose proof (drain_sizes limits b ms Hb) as (D1 & D2 & D3 & D4 & D5). destruct (Z.eq_dec o (SegmentBuilder_footer_len b - 4096)) as [->|Hne].
  - destruct (next_last limits b ms Hb t1 t3 Ht1 Hl1 Hfin Hz1 Hz2 f He) as ([[off bytes] last] & f' & Hn & _ & _ & Hlast & _).
    exists off, bytes, last, f'. split; [assumption|]. simpl in Hlast. congruence.
  - destruct (next_middle limits b ms Hb f o He ltac:(lia) ltac:(lia) Hm) as ([[off bytes] last] & f' & Hn & _ & He' & _ & _).
    exists off, bytes, last, f'. split; [assumption|]. intros _. eexists limits, b, ms, _. split; [assumption|]. split; [exact He'|]. split; [lia|].
    destruct (Z.min_spec (SegmentBuilder_footer_len b - 4096 - o) 65536) as [[_ ->]|[_ ->]]; dlia.
Qed.
End Encoder.

(** ** The outstanding lifecycle request *)

(** What a job waits for: nothing, or a request whose buffer has this length. *)
Abbreviation awaited := (option (option Z)).

Section Invariant.
Context {D Q : Type} {QI : Queue Q} {QS : QueueSpec Q} {C : CrcFast} {CS : CrcFastSpec C} (try_reserve : Z -> bool).
Implicit Types e : Engine D Q.
Implicit Types p : Pipeline Q.

Definition control_ok p (w : awaited) : Prop :=
  p_queue_failed p = false ->
  match w with None => tally p = [] | Some n => exists sh, tally p = [sh] /\ sh_buffer sh = n end.

Lemma tally_nil p : tally p = [] -> p_control p = None /\ List.filter is_control (accepted (p_queue p)) = [] /\ p_control_done p = None.
Proof. unfold tally. destruct (p_control p); [discriminate|]. simpl. intros H. apply app_eq_nil in H as [H1 H2]. destruct (p_control_done p); [discriminate | auto]. Qed.

Lemma live_idle p evs : live p evs -> tally p = [] -> p_control p = None /\ p_control_active p = false /\ p_control_done p = None.
Proof.
  intros V Ht. apply tally_nil in Ht as (H1 & H2 & H3). split; [assumption|]. split; [|assumption].
  pose proof (t_controls _ _ _ _ _ _ _ _ (live_table V)) as Hc. unfold controls in Hc. rewrite H2 in Hc. destruct (p_control_active p); [discriminate | reflexivity].
Qed.

Lemma live_steady p evs w : live p evs -> control_ok p w -> steady p.
Proof.
  intros V Hc. pose proof (v_ok _ _ V) as K. pose proof (live_table V) as T. pose proof (t_len _ _ _ _ _ _ _ _ T). pose proof (t_max _ _ _ _ _ _ _ _ T).
  specialize (Hc (k_live _ K)). split; [apply K|]. split; [unfold len; lia|]. split.
  - destruct w as [n|]; [destruct Hc as (sh & -> & _) | rewrite Hc]; vm_compute; discriminate.
  - intros r Hr. apply (k_control _ K r Hr).
Qed.

Lemma calm_control p p' w evs : live p evs -> calm p p' -> control_ok p w -> control_ok p' w.
Proof.
  intros V Hcalm Hc _. pose proof (k_live _ (v_ok _ _ V)) as Hl. destruct (c_tally _ _ Hcalm (live_steady p evs w V Hc)) as [_ Hp]. specialize (Hc Hl).
  destruct w as [n|].
  - destruct Hc as (sh & Ht & Hn). rewrite Ht in Hp. apply Permutation_sym, Permutation_length_1_inv in Hp. eauto.
  - rewrite Hc in Hp. apply Permutation_sym, Permutation_nil in Hp. assumption.
Qed.

(** ** Jobs *)

(** Data for the next step of recovery, per stage. *)
Definition recovery_data e (r : Recovery) (w : awaited) (l : Layout) : Prop :=
  match rc_stage r with
  | HeaderDone => w = Some (Some 4096)
  | Tail => w = Some (Some 4096) /\ exists pg, rc_page r = Some pg /\ len pg = 4096
  | FooterRead => exists h s, rc_header r = Some h /\ segment_header_ok h /\ seal h = Some s /\
      (w = Some (Some (footer_len (seal_metadata_len s))) \/ w = None /\ exists b, rc_bytes r = Some b /\ len b = footer_len (seal_metadata_len s))
  | FooterValidate => w = None /\ exists h b v, rc_header r = Some h /\ rc_bytes r = Some b /\ rc_validator r = Some v /\ validating h b v
  | Restore => w = None /\ is_u32 (rc_frame_offset r) /\ exists h s b, rc_header r = Some h /\ seal h = Some s /\ rc_bytes r = Some b /\ 0 <= rc_metadata_at r <= len b
  | Scan => w = None /\ exists s, rc_scanner r = Some s /\ is_u32 (sc_offset s)
  | ScanHeader => w = Some (Some 4096) /\ exists s pos, rc_scanner r = Some s /\ is_u32 (sc_offset s) /\ Scanner_position s = Some pos
  | ScanBody => w = Some (Some (rc_frame_len r - 4096)) /\ 4096 < rc_frame_len r < 2 ^ 32 /\
      (exists pg, rc_page r = Some pg /\ len pg = 4096) /\ exists s, rc_scanner r = Some s /\ is_u32 (sc_offset s)
  | _ => w = None
  end.

Definition attached_stage (st : RecoveryStage) : bool :=
  match st with FooterRead | FooterValidate | Restore | Scan | ScanHeader | ScanBody => true | _ => false end.

Record recovery_ok e (r : Recovery) (w : awaited) : Prop := {
  ro_found : forall l, rc_found r = Some l -> layout_ok l;
  ro_segment : p_segment (e_pipeline e) = None;
  ro_active : e_active e = None;
  ro_opened : e_opened e = false;
  ro_extents : attached_stage (rc_stage r) = true -> p_extents (e_pipeline e) <> [];
  ro_header : attached_stage (rc_stage r) = true -> exists h, rc_header r = Some h /\ segment_header_ok h;
  ro_number : 0 <= rc_number r;
  ro_stage : match rc_stage r with
             | RStart => w = None /\ e_layout e = None /\ rc_number r = 0
             | SuperA | SuperB => w = Some (Some 4096) /\ e_layout e = None /\ rc_number r = 0
             | st => exists l, e_layout e = Some l /\ rc_number r <= l_segments l /\ (st <> RHeader -> rc_number r < l_segments l) /\ recovery_data e r w l
             end
}.

(** Before the header of the next slot is written, the slot is unused. *)
Definition unallocated (st : TransitionStage) : bool := match st with HeaderSync | Attach => false | _ => true end.

Record transition_ok e (t : Transition) : Prop := {
  to_next : forall l n, e_layout e = Some l -> tr_next t = Some n ->
    0 <= n < l_segments l /\ e_used e !! Z.to_nat n = Some (negb (unallocated (tr_stage t)));
  to_attach : unallocated (tr_stage t) = false -> is_Some (tr_next t);
  to_footer : tr_stage t = TFooter -> exists f, tr_footer t = Some f /\ encoding f;
  to_last : tr_stage t = LastWrite -> is_Some (tr_last t);
  to_active : tr_stage t <> Drain -> e_active e = None
}.

Definition waiting_for (j : Job) (w : awaited) : Prop := j_waiting j = match w with Some _ => true | None => false end.

Definition work_ok e (j : Job) (w : awaited) : Prop :=
  match j_work j with
  | WOpen r => j_kind j = lifecycle.Open /\ recovery_ok e r w
  | WTransition t => j_kind j <> lifecycle.Open /\ transition_ok e t
  end.

Record job_ok e (j : Job) : Prop := {
  jo_maintenance : p_maintenance (e_pipeline e) = true;
  jo_work : exists w, waiting_for j w /\ control_ok (e_pipeline e) w /\ work_ok e j w;
  jo_failed : e_state e = state.Failed -> p_queue_failed (e_pipeline e) = true;
  jo_closing : e_state e = state.Closing -> j_kind j = lifecycle.Close;
  jo_closed : e_state e <> state.Closed
}.

(** ** The owner *)

Record core_ok e (evs : list event) : Prop := {
  g_reach : reach try_reserve (e_pipeline e) evs;
  g_completions : e_completions e = [];
  g_layout : forall l, e_layout e = Some l -> layout_ok l /\ l_capacity l <= e_capacity e /\ len (e_used e) = l_segments l;
  g_capacity : e_capacity e < 2 ^ 62;
  g_next : match e_layout e with Some l => 0 <= e_next e <= l_segments l | None => e_next e = 0 end;
  g_opened : e_opened e = true -> is_Some (e_layout e);
  g_active : forall n, e_active e = Some n -> is_Some (p_segment (e_pipeline e)) /\
    exists l, e_layout e = Some l /\ 0 <= n < l_segments l /\ e_used e !! Z.to_nat n = Some true
}.

Record engine_ok e (evs : list event) : Prop := {
  n_core : core_ok e evs;
  n_job : match e_job e with
          | Some j => job_ok e j
          | None => control_ok (e_pipeline e) None /\ (e_opened e = true \/ e_state e = state.Failed \/ e_state e = state.Closed) /\
                    e_state e <> state.Opening /\ e_state e <> state.Closing /\ (p_queue_failed (e_pipeline e) = true -> e_state e = state.Failed \/ e_state e = state.Closed)
          end
}.
End Invariant.
