(* ===== verification/EngineRecoverySafe.v ===== *)
(** * Recovery steps

    Every step of the open job returns, keeps the owner sound and leaves the
    job with the data its next stage needs. *)

From stdpp Require Import gmap.
From S2P Require Import Prelude Align ChunkId Checksum Codec FrameFormat FrameDecode FrameDecodeProofs FrameBuilder SegmentFormat SegmentBuilder SegmentProofs SegmentRecovery.
From S2P Require Import Io Index PipelineState Pipeline PipelineTable PipelineInv PipelineLemmas PipelineTrace PipelineAdmit PipelinePoll PipelineSafe PipelineControl.
From S2P Require Import Layout LayoutProofs Format EngineState EngineRecovery Engine EngineInv.

(** Projections of updated owners and recoveries. *)
Ltac efields :=
  cbn [e_device e_capacity e_layout e_pipeline e_used e_next e_allocated e_active e_state e_opened e_job e_options e_completions e_identity
       e_set_device e_set_capacity e_set_layout e_set_pipeline e_set_used e_set_next e_set_allocated e_set_active e_set_state e_set_opened e_set_job
       e_set_options e_set_completions e_set_identity
       rc_stage rc_found rc_number rc_header rc_page rc_bytes rc_validator rc_scanner rc_metadata_at rc_frame_offset rc_frame_len
       rc_set_stage rc_set_found rc_set_number rc_set_header rc_set_page rc_set_bytes rc_set_validator rc_set_scanner rc_set_metadata_at
       rc_set_frame_offset rc_set_frame_len
       tr_stage tr_next tr_footer tr_base tr_last tr_set_stage tr_set_next tr_set_footer tr_set_base tr_set_last
       j_ticket j_kind j_waiting j_blocked j_work j_set_waiting j_set_blocked j_set_work attached_stage unallocated fst snd] in *.

Section Recovery.
Context {D Q : Type} {QI : Queue Q} {QS : QueueSpec Q} {C : CrcFast} {CS : CrcFastSpec C} (try_reserve : Z -> bool) (extent_bytes : Z).
Implicit Types e : Engine D Q.
Implicit Types p : Pipeline Q.
Implicit Types r : @Recovery C.

(** ** Pipeline calls of the owner *)

Record same_control p p' : Prop := {
  sc_failed : p_queue_failed p' = p_queue_failed p;
  sc_maintenance : p_maintenance p' = p_maintenance p;
  sc_tally : tally p' = tally p
}.

Lemma reach_quiet p evs c p' : reach try_reserve p evs -> call_ok p c -> exec try_reserve p c = Some (p', []) -> reach try_reserve p' evs.
Proof. intros Hr Hc He. rewrite <- (app_nil_r evs). eapply reach_call; eassumption. Qed.

Lemma attach_step p evs h base wr : reach try_reserve p evs -> segment_header_ok h -> 0 <= base < 2 ^ 62 ->
  match attach try_reserve p h base wr with
  | Ok p' => reach try_reserve p' evs /\ same_control p p' /\ p_extents p' <> [] /\ (wr = true <-> is_Some (p_segment p'))
  | Err _ => True
  | Panic => False
  end.
Proof.
  intros Hr Hh Hb. pose proof (exec_returns try_reserve p evs (CallAttach h base wr) Hr (conj Hh Hb)) as Hn. cbn [exec] in Hn.
  destruct (attach try_reserve p h base wr) as [p'| |] eqn:Ha; [|exact I | cbn in Hn; congruence].
  split; [apply (reach_quiet p evs (CallAttach h base wr)); [assumption | split; assumption | cbn [exec]; rewrite Ha; reflexivity]|].
  unfold attach in Ha. inv_ok. subst p'. split; [constructor; reflexivity|]. fields. split; [destruct (p_extents p); discriminate|].
  destruct wr; inv_ok; [subst; split; eauto | subst; split; [discriminate | intros [? [=]]]].
Qed.

Lemma restore_step p evs m : reach try_reserve p evs -> p_extents p <> [] -> is_u32 (offset (position (md_header m))) ->
  match restore try_reserve p m with
  | Ok p' => reach try_reserve p' evs /\ same_control p p' /\ p_extents p' = p_extents p /\ p_segment p' = p_segment p
  | Err _ => True
  | Panic => False
  end.
Proof.
  intros Hr Hx Ho. pose proof (exec_returns try_reserve p evs (CallRestore m) Hr (conj Hx Ho)) as Hn. cbn [exec] in Hn.
  destruct (restore try_reserve p m) as [p'| |] eqn:Ha; [|exact I | cbn in Hn; congruence].
  split; [apply (reach_quiet p evs (CallRestore m)); [assumption | split; assumption | cbn [exec]; rewrite Ha; reflexivity]|].
  unfold restore in Ha. repeat (apply rbind_Ok_inv in Ha as (? & _ & Ha); cbv zeta in Ha). destruct (apply _ _ _). injection Ha as <-.
  split; [constructor; reflexivity | fields; auto].
Qed.

(** ** Rules for the steps *)

Lemma runs_pipeline {B} f (k : unit -> eff (Recovery * Engine D Q) engine.Error B) r e Post :
  match f (e_pipeline e) with
  | Ok p => runs (k tt) (r, e_set_pipeline p e) Post
  | Err err => Post (Err (engine.Pipeline err)) (r, e)
  | Panic => False
  end -> runs (ebind (on_pipeline f) k) (r, e) Post.
Proof. unfold runs, ebind, on_pipeline. cbn [fst snd]. destruct (f (e_pipeline e)); auto. Qed.

Lemma rc_set_found_same r : rc_set_found (rc_found r) r = r.
Proof. destruct r. reflexivity. Qed.

Lemma runs_superblock {B} bytes (k : unit -> eff (Recovery * Engine D Q) engine.Error B) r e Post :
  64 <= len bytes -> (forall l, rc_found r = Some l -> layout_ok l) ->
  (forall found, (forall l, found = Some l -> layout_ok l) -> runs (k tt) (rc_set_found found r, e) Post) -> (forall err, Post (Err err) (r, e)) ->
  runs (ebind (superblock bytes) k) (r, e) Post.
Proof.
  intros Hl Hf Hk He. unfold superblock. pose proof (Layout_decode_safe bytes Hl) as Hs. destruct (Layout_decode bytes) as [l|err|] eqn:Hd; [| |congruence].
  - apply Layout_decode_ok in Hd. apply runs_assoc. unfold rget. apply runs_reads. apply runs_assoc. unfold fail_when. apply runs_lift_bind; [apply safe_fail_if | | auto].
    intros _ _. unfold on_recovery. apply runs_modify. cbn [fst snd]. apply Hk. intros l' [= <-]. assumption.
  - assert (Hsame : runs (k tt) (r, e) Post) by (rewrite <- (rc_set_found_same r); apply Hk; assumption).
    destruct err; solve [unfold runs, ebind, lift; apply He | exact Hsame].
Qed.

Lemma runs_scan {B} limits h (k : unit -> eff (Recovery * Engine D Q) engine.Error B) r e Post : rc_header r = Some h ->
  runs (k tt) (rc_set_stage Scan (rc_set_scanner (Some (Scanner_new h limits)) (rc_set_validator None (rc_set_bytes None r))), e) Post ->
  runs (ebind (start_scan limits) k) (r, e) Post.
Proof. intros Hh Hk. unfold start_scan, runs, ebind, on_recovery, modify, rget, reads, lift. cbn [fst snd]. efields. rewrite Hh. exact Hk. Qed.

(** ** The postcondition *)

Record untouched e e' : Prop := {
  u_state : e_state e' = e_state e;
  u_job : e_job e' = e_job e;
  u_opened : e_opened e' = e_opened e;
  u_control : same_control (e_pipeline e) (e_pipeline e')
}.

Definition awaits (pr : Progress) : awaited := match pr with PIo _ _ _ b => Some (len <$> b) | _ => None end.

Definition recovered e evs (out : eresult Progress) (s : @Recovery C * Engine D Q) : Prop :=
  core_ok try_reserve s.2 evs /\ untouched e s.2 /\
  match out with
  | Ok pr => pr <> Wait /\ (pr = Done -> is_Some (e_layout s.2)) /\ recovery_ok s.2 s.1 (awaits pr)
  | _ => True
  end.

Lemma untouched_refl e : untouched e e.
Proof. constructor; try reflexivity. constructor; reflexivity. Qed.

Lemma untouched_pipeline e p : same_control (e_pipeline e) p -> untouched e (e_set_pipeline p e).
Proof. intros H. constructor; try reflexivity. exact H. Qed.

Lemma untouched_trans e1 e2 e3 : untouched e1 e2 -> untouched e2 e3 -> untouched e1 e3.
Proof. intros [A1 A2 A3 [A5 A6 A7]] [B1 B2 B3 [B5 B6 B7]]. constructor; try congruence. constructor; congruence. Qed.

Lemma recovered_err e evs err r : core_ok try_reserve e evs -> recovered e evs (Err err) (r, e).
Proof. intros G. split; [assumption|]. split; [apply untouched_refl | exact I]. Qed.

(** A pipeline call in the course of recovery. *)
Lemma core_pipeline e evs p : core_ok try_reserve e evs -> e_active e = None -> reach try_reserve p evs -> core_ok try_reserve (e_set_pipeline p e) evs.
Proof. intros [H1 H2 H3 H4 H5 H6 H7] Ha Hr. constructor; efields; auto. intros n Hn. congruence. Qed.

Lemma next_frame_safe s bytes : safe (next_frame s bytes).1.
Proof.
  unfold next_frame. destruct (sc_done s); [discriminate|]. destruct (at_end s); [discriminate|]. pose proof (scan_decode_safe s bytes) as Hs.
  destruct (scan_decode s bytes) as [f|x|]; [discriminate | destruct (_ || _); discriminate | congruence].
Qed.

Lemma next_frame_offset s bytes : is_u32 (sc_offset s) -> is_u32 (sc_offset (next_frame s bytes).2).
Proof.
  intros H. unfold next_frame. destruct (sc_done s); [assumption|]. destruct (at_end s); [assumption|].
  destruct (scan_decode s bytes) as [f|x|]; [apply wrap32_range | destruct (_ || _); assumption | assumption].
Qed.

(** A recovered frame lies at the scanner's offset. *)
Lemma next_frame_position s bytes f s' : next_frame s bytes = (Ok (Some f), s') -> offset (position (md_header (frame_metadata f))) = sc_offset s.
Proof.
  intros H. apply next_frame_Some in H as (_ & _ & Hd & _). apply scan_decode_Ok in Hd as (pos & Hp & Hf & _).
  destruct (Frame_decode_metadata _ _ _ _ Hf) as (Hm & _). destruct (Metadata_decode_ok _ _ _ _ Hm) as (ds & Hok & _). rewrite (mo_position _ _ _ _ Hok).
  unfold SegmentHeader_position in Hp. apply FramePosition_new_fields in Hp. apply Hp.
Qed.

(** ** The stages *)

(** What every stage keeps. *)
Record resting e r : Prop := {
  re_found : forall l, rc_found r = Some l -> layout_ok l;
  re_segment : p_segment (e_pipeline e) = None;
  re_active : e_active e = None;
  re_opened : e_opened e = false
}.

Lemma recovery_resting e r w : recovery_ok e r w -> resting e r.
Proof. intros []. constructor; assumption. Qed.

Section Stage.
Context (e0 e : Engine D Q) (evs : list event) (r : @Recovery C) (l : Layout).
Context (G : core_ok try_reserve e evs) (U : untouched e0 e) (B : resting e r).
Context (Hlay : e_layout e = Some l) (Hnum : 0 <= rc_number r < l_segments l).

Lemma stage_layout : layout_ok l /\ l_capacity l <= e_capacity e /\ len (e_used e) = l_segments l.
Proof. exact (g_layout _ _ _ G l Hlay). Qed.

Lemma stage_err err r' : recovered e0 evs (Err err) (r', e).
Proof. exact (conj G (conj U I)). Qed.

(** A layout stage reached with its data. *)
Lemma stage_ok r' pr : rc_found r' = rc_found r -> rc_number r' = rc_number r -> pr <> Wait -> pr <> Done ->
  (attached_stage (rc_stage r') = true -> p_extents (e_pipeline e) <> [] /\ exists h, rc_header r' = Some h /\ segment_header_ok h) ->
  (match rc_stage r' with RStart | SuperA | SuperB | RHeader => False | _ => True end) -> recovery_data e r' (awaits pr) l -> recovered e0 evs (Ok pr) (r', e).
Proof.
  intros Hf Hn Hw Hd Hatt Hst Hdata. destruct B. split; [exact G|]. split; [exact U|]. split; [assumption|]. split; [congruence|]. constructor; cbn [fst snd]; try assumption.
  - rewrite Hf. assumption.
  - intros Ha. apply Hatt. assumption.
  - intros Ha. apply Hatt. assumption.
  - lia.
  - destruct (rc_stage r') eqn:Hs; try contradiction; exists l; (split; [assumption|]; split; [lia|]; split; [intros; lia | exact Hdata]).
Qed.

Lemma next_ok_from r' : rc_found r' = rc_found r -> rc_number r' = rc_number r -> runs recovery_next (r', e) (recovered e0 evs).
Proof.
  intros Hf Hn. destruct B. rewrite <- Hf in *. rewrite <- Hn in Hnum. destruct stage_layout as [Hok _]. destruct (lo_count _ Hok) as [Hc _].
  unfold recovery_next, on_recovery. apply runs_modify. apply runs_eret. split; [exact G|]. split; [exact U|]. split; [discriminate|]. split; [discriminate|].
  cbn [fst snd]. constructor; efields; try assumption; try discriminate; rewrite wrap32_small by (unfold is_u32; lia); [lia|].
  exists l. split; [assumption|]. split; [lia|]. split; [congruence | reflexivity].
Qed.

Lemma next_ok : runs recovery_next (r, e) (recovered e0 evs).
Proof. apply next_ok_from; reflexivity. Qed.

(** Falling back to the frames of the segment. *)
Lemma scan_ok limits h : rc_header r = Some h -> segment_header_ok h -> p_extents (e_pipeline e) <> [] ->
  runs (start_scan limits ;! eret Continue) (r, e) (recovered e0 evs).
Proof.
  intros Hh Hhok Hx. apply (runs_scan limits h); [assumption|]. apply runs_eret. apply stage_ok; efields; auto; try discriminate.
  - intros _. eauto.
  - split; [reflexivity|]. eexists. split; [reflexivity|]. unfold is_u32, Scanner_new, PAGE_SIZE. cbn [sc_offset]. lia.
Qed.

Lemma header_stage base : segment_base l (rc_number r) = Ok base ->
  runs (on_recovery (rc_set_stage HeaderDone) ;! eret (page_read base)) (r, e) (recovered e0 evs).
Proof. intros _. unfold on_recovery. apply runs_modify, runs_eret. apply stage_ok; efields; auto; try discriminate. reflexivity. Qed.

Lemma header_done_stage input : len <$> input = Some 4096 ->
  runs (on_recovery (fun r => rc_set_stage Tail (rc_set_page input r)) ;! (let! tail := lift (footer_tail_offset l (rc_number r)) in eret (page_read tail))) (r, e) (recovered e0 evs).
Proof.
  intros Hi. destruct stage_layout as [Hok _]. unfold on_recovery. apply runs_modify. rewrite footer_tail_run by assumption.
  apply runs_lift_bind; [apply safe_Ok | intros a [= <-] | discriminate]. apply runs_eret. apply stage_ok; efields; auto; try discriminate.
  split; [reflexivity|]. destruct input as [b|]; [|discriminate]. injection Hi as Hi. eauto.
Qed.

Lemma restore_stage limits : rc_stage r = Restore -> recovery_data e r None l -> p_extents (e_pipeline e) <> [] -> (exists h, rc_header r = Some h /\ segment_header_ok h) ->
  runs (step_restore try_reserve limits) (r, e) (recovered e0 evs).
Proof.
  intros Hst Hd Hx Hhd. unfold recovery_data in Hd. rewrite Hst in Hd. destruct Hd as (_ & Hu & h & s & b & Hh & Hs & Hb & Hm). destruct Hhd as (h' & Hh' & Hhok). assert (h' = h) as -> by congruence.
  unfold step_restore, rget. apply runs_reads. cbn [fst snd]. rewrite Hh. cbn [expect]. apply runs_lift_bind; [apply safe_Ok | intros ? [= <-] | discriminate].
  unfold data_end. rewrite Hs. cbn [expect]. apply runs_lift_bind; [apply safe_Ok | intros ? [= <-] | discriminate]. apply runs_reads. cbn [fst snd].
  destruct (rc_frame_offset r =? seal_data_end s); [apply next_ok|].
  apply runs_lift_bind; [apply safe_map_err, FramePosition_new_safe | | intros; apply stage_err]. intros pos Hpos. apply map_err_Ok, FramePosition_new_fields in Hpos as [_ Hpo].
  apply runs_reads. cbn [fst snd]. rewrite Hb. cbn [expect]. apply runs_lift_bind; [apply safe_Ok | intros ? [= <-] | discriminate]. apply runs_reads. cbn [fst snd].
  rewrite slice_Ok by lia. apply runs_lift_bind; [apply safe_Ok | intros ? [= <-] | discriminate].
  apply runs_lift_bind; [apply safe_map_err, Metadata_decode_safe | | intros; apply stage_err]. intros m Hmd. apply map_err_Ok in Hmd.
  destruct (Metadata_decode_ok _ _ _ _ Hmd) as (ds & Hok & Hbytes & Hlen). apply runs_pipeline.
  pose proof (restore_step (e_pipeline e) evs m (g_reach _ _ _ G) Hx) as Hr. rewrite (mo_position _ _ _ _ Hok), Hpo in Hr. specialize (Hr Hu).
  destruct (restore try_reserve (e_pipeline e) m) as [p'|err|]; [|apply stage_err | destruct Hr].
  destruct Hr as (Hreach & Hsame & Hext & Hseg). unfold on_recovery. apply runs_modify, runs_eret. destruct B.
  assert (Hb2 : 0 <= rc_metadata_at r + len (md_bytes m) <= len b).
  { rewrite len_sub in Hlen by lia. pose proof (metadata_len_pos _ _ (mo_header _ _ _ _ Hok)). rewrite Hbytes, !len_sub by (rewrite ?len_sub; lia). lia. }
  split; [apply core_pipeline; assumption|]. split; [eapply untouched_trans; [exact U | apply untouched_pipeline; assumption]|]. split; [discriminate|]. split; [discriminate|].
  cbn [fst snd]. constructor; efields; try assumption; try congruence; [eauto | lia|]. rewrite Hst. exists l. split; [assumption|]. split; [lia|]. split; [intros; lia|].
  unfold recovery_data. efields. rewrite Hst. split; [reflexivity|]. split; [apply wrap32_range|]. exists h, s, b. auto.
Qed.

Lemma footer_read_stage limits w input : rc_stage r = FooterRead -> recovery_data e r w l -> p_extents (e_pipeline e) <> [] ->
  len <$> input = match w with Some n => n | None => None end -> runs (step_footer_read limits input) (r, e) (recovered e0 evs).
Proof.
  intros Hst Hd Hx Hi. unfold recovery_data in Hd. rewrite Hst in Hd. destruct Hd as (h & s & Hh & Hhok & Hs & Hb).
  assert (Hstart : exists b, len b = footer_len (seal_metadata_len s) /\
    forall Post, (forall r', rc_bytes r' = Some b -> rc_header r' = Some h -> rc_found r' = rc_found r -> rc_number r' = rc_number r ->
      runs (let! bytes := rget rc_bytes in let! bytes := lift (expect bytes) in let! header := rget rc_header in let! header := lift (expect header) in
            (match FooterValidator_new bytes header limits with
             | Ok v => on_recovery (fun r => rc_set_stage FooterValidate (rc_set_validator (Some v) r))
             | Err e => if unsupported e then lift (Err (engine.Segment e)) else start_scan limits
             | Panic => lift Panic
             end) ;! eret Continue) (r', e) Post) -> runs (step_footer_read limits input) (r, e) Post).
  { destruct Hb as [Hw|(Hw & b & Hb & Hlb)]; rewrite Hw in Hi; destruct input as [i|]; try discriminate.
    - injection Hi as Hi. exists i. split; [assumption|]. intros Post H. unfold step_footer_read. unfold on_recovery at 1. apply runs_modify. cbn [fst snd]. apply H; efields; auto.
    - exists b. split; [assumption|]. intros Post H. unfold step_footer_read. apply H; auto. }
  destruct Hstart as (b & Hlb & Hrun). apply Hrun. clear Hrun. intros r' Hb' Hh' Hf' Hn'.
  unfold rget. apply runs_reads. apply (runs_expect _ b); [assumption|]. apply runs_reads. apply (runs_expect _ h); [assumption|].
  pose proof (FooterValidator_new_safe b h limits) as Hsafe. destruct (FooterValidator_new b h limits) as [v|err|] eqn:Hv; [| |congruence].
  - apply (FooterValidator_new_ok b h limits v s Hhok Hs Hlb) in Hv. unfold on_recovery. apply runs_modify, runs_eret. apply stage_ok; efields; auto; try discriminate; [eauto|].
    split; [reflexivity|]. exists h, b, v. auto.
  - destruct (unsupported err); [apply runs_lift_bind; [apply safe_Err | discriminate | intros; apply stage_err]|].
    apply (runs_scan limits h); [assumption|]. apply runs_eret. apply stage_ok; efields; auto; try discriminate; [eauto|].
    split; [reflexivity|]. eexists. split; [reflexivity|]. unfold is_u32, Scanner_new, PAGE_SIZE. cbn [sc_offset]. lia.
Qed.

Lemma footer_validate_stage limits : rc_stage r = FooterValidate -> recovery_data e r None l -> p_extents (e_pipeline e) <> [] ->
  runs (step_footer_validate limits) (r, e) (recovered e0 evs).
Proof.
  intros Hst Hd Hx. unfold recovery_data in Hd. rewrite Hst in Hd. destruct Hd as (_ & h & b & v & Hh & Hb & Hv & Hok).
  unfold step_footer_validate, rget. apply runs_reads. apply (runs_expect _ v); [assumption|]. apply runs_reads. apply (runs_expect _ b); [assumption|].
  pose proof (FooterValidator_step_safe h b v Hok) as Hs. pose proof (vg_ok _ _ _ Hok) as Hhok. destruct (vg_seal _ _ _ Hok) as (s & Hseal & _).
  destruct (FooterValidator_step v b) as [[[|] v']|err|]; [| | |destruct Hs].
  - unfold on_recovery. apply runs_modify, runs_eret. apply stage_ok; efields; auto; try discriminate; [eauto|]. split; [reflexivity|].
    efields. split; [unfold is_u32, PAGE_SIZE; lia|]. exists h, s, b. pose proof (len_nonneg b). auto with lia.
  - unfold on_recovery. apply runs_modify, runs_eret. apply stage_ok; efields; auto; try discriminate; [eauto | rewrite Hst; exact I|]. unfold recovery_data. efields. rewrite Hst.
    split; [reflexivity|]. exists h, b, v'. auto.
  - destruct (unsupported err); [apply runs_lift_bind; [apply safe_Err | discriminate | intros; apply stage_err]|]. apply (scan_ok limits h); assumption.
Qed.

Lemma scan_stage base : rc_stage r = Scan -> recovery_data e r None l -> p_extents (e_pipeline e) <> [] -> (exists h, rc_header r = Some h /\ segment_header_ok h) ->
  runs (step_scan base) (r, e) (recovered e0 evs).
Proof.
  intros Hst Hd Hx Hh. unfold recovery_data in Hd. rewrite Hst in Hd. destruct Hd as (_ & s & Hs & Hu). unfold step_scan, rget. apply runs_reads.
  apply (runs_expect _ s); [assumption|]. destruct (Scanner_position s) as [pos|] eqn:Hp; [|apply next_ok].
  unfold on_recovery. apply runs_modify, runs_eret. apply stage_ok; efields; auto; try discriminate. split; [reflexivity|]. exists s, pos. auto.
Qed.

(** What follows a scanned frame. *)
Lemma publish_from r1 scanner bytes : rc_found r1 = rc_found r -> rc_number r1 = rc_number r -> is_u32 (sc_offset scanner) -> p_extents (e_pipeline e) <> [] ->
  (exists h, rc_header r1 = Some h /\ segment_header_ok h) -> runs (let! found := scan_next scanner bytes in scan_publish try_reserve found) (r1, e) (recovered e0 evs).
Proof.
  intros Hf1 Hn1 Hu Hx Hh. pose proof (next_frame_safe scanner bytes) as Hsafe. pose proof (next_frame_offset scanner bytes Hu) as Hu'.
  unfold scan_next. destruct (next_frame scanner bytes) as [out scanner'] eqn:Hn. cbn [fst snd] in *. apply runs_assoc. unfold on_recovery at 1. apply runs_modify. cbn [fst snd].
  apply runs_lift_bind; [apply safe_map_err; assumption | | intros; apply stage_err]. intros found Hf. apply map_err_Ok in Hf. subst out.
  destruct found as [f|]; cbn [scan_publish].
  - apply runs_pipeline. pose proof (restore_step (e_pipeline e) evs (frame_metadata f) (g_reach _ _ _ G) Hx) as Hr.
    rewrite (next_frame_position _ _ _ _ Hn) in Hr. specialize (Hr Hu).
    destruct (restore try_reserve (e_pipeline e) (frame_metadata f)) as [p'|err|]; [|apply stage_err | destruct Hr].
    destruct Hr as (Hreach & Hsame & Hext & Hseg). unfold on_recovery. apply runs_modify, runs_eret. destruct B. rewrite <- Hf1, <- Hn1 in *.
    split; [apply core_pipeline; assumption|]. split; [eapply untouched_trans; [exact U | apply untouched_pipeline; assumption]|]. split; [discriminate|]. split; [discriminate|].
    cbn [fst snd]. constructor; efields; try assumption; try congruence; try lia; auto. exists l. split; [assumption|]. split; [lia|]. split; [intros; lia|].
    unfold recovery_data. efields. split; [reflexivity|]. eauto.
  - apply next_ok_from; assumption.
Qed.

Lemma scan_header_stage limits base w input : rc_stage r = ScanHeader -> recovery_data e r w l -> p_extents (e_pipeline e) <> [] -> (exists h, rc_header r = Some h /\ segment_header_ok h) ->
  len <$> input = match w with Some n => n | None => None end -> runs (step_scan_header try_reserve limits base input) (r, e) (recovered e0 evs).
Proof.
  intros Hst Hd Hx Hh Hi. unfold recovery_data in Hd. rewrite Hst in Hd. destruct Hd as (Hw & s & pos & Hs & Hu & Hp). rewrite Hw in Hi.
  destruct input as [page|]; [|discriminate]. injection Hi as Hi. unfold step_scan_header, rget. apply (runs_expect _ page); [reflexivity|]. apply runs_reads.
  apply (runs_expect _ s); [assumption|]. apply (runs_expect _ pos); [assumption|]. pose proof (FrameHeader_decode_safe page limits pos) as Hsafe.
  destruct (FrameHeader_decode page limits pos) as [h|err|] eqn:Hd; [| |congruence].
  - apply FrameHeader_decode_Ok in Hd as ((H32 & Hpos & Hmod & _) & _). unfold is_u32 in H32. assert (Hfl : 4096 <= frame_len h) by dlia. unfold on_recovery at 1. apply runs_modify. cbn [fst snd].
    unfold PAGE_SIZE. destruct (Z.eqb_spec (frame_len h) 4096) as [He|He].
    + apply publish_from; auto.
    + unfold on_recovery. apply runs_modify, runs_eret. rewrite wrap64_small by (unfold is_u64; lia). apply stage_ok; efields; auto; try discriminate. unfold recovery_data. efields.
      cbn [awaits Progress_read]. cbn [fmap option_fmap option_map]. rewrite len_zeros by lia. split; [reflexivity|]. split; [lia|]. split; [eauto|]. eauto.
  - pose proof (next_frame_safe s page) as Hns. unfold scan_next. destruct (next_frame s page) as [out s']. cbn [fst snd] in *.
    apply runs_assoc. unfold on_recovery at 1. apply runs_modify. cbn [fst snd].
    apply runs_lift_bind; [apply safe_map_err; assumption | | intros; apply stage_err]. intros found _. apply next_ok_from; reflexivity.
Qed.

Lemma scan_body_stage w input : rc_stage r = ScanBody -> recovery_data e r w l -> p_extents (e_pipeline e) <> [] -> (exists h, rc_header r = Some h /\ segment_header_ok h) ->
  len <$> input = match w with Some n => n | None => None end -> runs (step_scan_body try_reserve input) (r, e) (recovered e0 evs).
Proof.
  intros Hst Hd Hx Hh Hi. unfold recovery_data in Hd. rewrite Hst in Hd. destruct Hd as (Hw & Hfl & (pg & Hpg & Hlp) & s & Hs & Hu). rewrite Hw in Hi.
  destruct input as [body|]; [|discriminate]. injection Hi as Hi. unfold step_scan_body, rget. apply (runs_expect _ body); [reflexivity|]. apply runs_reads. apply runs_reads. cbn [fst snd].
  unfold on_recovery. apply runs_modify. cbn [fst snd]. apply (runs_expect _ pg); [assumption|]. unfold copy_range, PAGE_SIZE.
  rewrite (proj2 (Z.eqb_eq (len pg) _)) by lia. rewrite copy_at_Ok by (rewrite ?len_zeros; lia).
  apply runs_lift_bind; [apply safe_Ok | intros ? [= <-] | discriminate]. rewrite (proj2 (Z.eqb_eq (len body) _)) by lia.
  rewrite copy_at_Ok by (rewrite ?len_splice, ?len_zeros; rewrite ?len_zeros; lia).
  apply runs_lift_bind; [apply safe_Ok | intros ? [= <-] | discriminate]. apply runs_reads. cbn [fst snd]. efields. apply (runs_expect _ s); [assumption|].
  apply publish_from; auto.
Qed.

Lemma tail_header_ok header tail h : segment_header_ok header -> tail_header header tail = Ok h -> segment_header_ok h.
Proof.
  intros Hok. unfold tail_header. destruct (any_nonzero tail); [|intros [= <-]; assumption].
  destruct (FooterTrailer_decode tail (segment_len header)) as [t|err|] eqn:Ht; [|destruct err; try discriminate; intros [= <-]; assumption | discriminate].
  intros H. inv_ok. subst h. destruct (sequence (id (ft_header t)) =? sequence (id header)); [|assumption]. apply FooterTrailer_decode_Ok in Ht; [apply Ht | apply Hok].
Qed.

Lemma tail_header_safe header tail : safe (tail_header header tail).
Proof.
  unfold tail_header. destruct (any_nonzero tail); [|apply safe_Ok]. pose proof (FooterTrailer_decode_safe tail (segment_len header)) as Hs.
  destruct (FooterTrailer_decode tail (segment_len header)) as [t|err|]; [safe_steps | destruct err; discriminate | congruence].
Qed.

Lemma SegmentHeader_decode_header page h : SegmentHeader_decode page (l_id l) (rc_number r) (l_segment_size l) = Ok h -> segment_header_ok h.
Proof.
  destruct stage_layout as [Hok _]. intros H. pose proof (SegmentHeader_decode_sequence _ _ _ _ _ H) as Hq. unfold SegmentHeader_decode in H. inv_ok. subst.
  match goal with Hn : SegmentHeader_new _ _ = Ok _ |- _ => apply SegmentHeader_new_Ok in Hn as (-> & Hnz & H1 & H2) end. simpl in *. unfold is_u64 in Hq.
  destruct (lo_size _ Hok) as [Hs _]. destruct (lo_count _ Hok) as [Hc _]. destruct (lo_id _ Hok) as [Hid _]. repeat split; simpl; try lia.
Qed.

(** Marking the slot used. *)
Lemma core_used used : index_set (E := engine.Error) (e_used e) (rc_number r) true = Ok used ->
  core_ok try_reserve (e_set_allocated (wrap32 (e_allocated e + 1)) (e_set_used used e)) evs.
Proof.
  unfold index_set. destruct (_ && _); [|discriminate]. intros [= <-]. destruct B. destruct G as [H1 H2 H3 H4 H5 H6 H7]. constructor; efields; auto.
  - intros l' Hl'. unfold len in *. rewrite length_insert. auto.
  - intros n Hn. congruence.
Qed.

Lemma index_set_safe : safe (E := engine.Error) (index_set (e_used e) (rc_number r) true).
Proof. destruct stage_layout as (_ & _ & Hlen). unfold index_set. rewrite (proj2 (Z.leb_le _ _)), (proj2 (Z.ltb_lt _ _)) by lia. apply safe_Ok. Qed.
End Stage.

Lemma tail_stage e0 e evs r l base w input : core_ok try_reserve e evs -> untouched e0 e -> resting e r -> e_layout e = Some l -> 0 <= rc_number r < l_segments l ->
  segment_base l (rc_number r) = Ok base -> rc_stage r = Tail -> recovery_data e r w l -> len <$> input = match w with Some n => n | None => None end ->
  runs (step_tail try_reserve l base input) (r, e) (recovered e0 evs).
Proof.
  intros G U B Hlay Hnum Hbase Hst Hd Hi. unfold recovery_data in Hd. rewrite Hst in Hd. destruct Hd as (Hw & pg & Hpg & Hlp). rewrite Hw in Hi.
  destruct input as [tail|]; [|discriminate]. injection Hi as Hi. destruct (stage_layout e evs l G Hlay) as (Hlok & Hcap & Hlen).
  assert (Hb : 0 <= base < 2 ^ 62).
  { rewrite (segment_base_run l Hlok _ Hnum) in Hbase. injection Hbase as <-. pose proof (slot_bounds l Hlok _ Hnum). pose proof (lo_fit _ Hlok). pose proof (g_capacity _ _ _ G). destruct (lo_size _ Hlok). lia. }
  unfold step_tail, rget, eget. apply (runs_expect _ tail); [reflexivity|]. apply runs_reads. cbn [fst snd]. unfold on_recovery at 1. apply runs_modify. cbn [fst snd].
  apply (runs_expect _ pg); [assumption|]. destruct (any_nonzero pg); cbn [negb].
  2: { unfold fail_when. apply runs_lift_bind; [apply safe_fail_if | intros _ _ | intros; apply stage_err; assumption].
       apply (next_ok_from e0 e evs r l G U B Hlay Hnum); reflexivity. }
  apply runs_reads. cbn [fst snd]. efields. apply runs_lift_bind; [apply safe_map_err, SegmentHeader_decode_safe | | intros; apply stage_err; assumption].
  intros h0 Hh0. apply map_err_Ok, (SegmentHeader_decode_header e evs r l G Hlay Hnum) in Hh0.
  apply runs_lift_bind; [apply tail_header_safe | | intros; apply stage_err; assumption]. intros h Hh. apply (tail_header_ok _ _ _ Hh0) in Hh.
  apply runs_reads. cbn [fst snd]. apply runs_lift_bind; [apply (index_set_safe e evs r l G Hlay Hnum) | | intros; apply stage_err; assumption]. intros used Hused.
  apply (core_used e evs r G B) in Hused as G'. unfold on_engine. apply runs_modify. cbn [fst snd].
  set (e1 := e_set_allocated _ _) in *. assert (U1 : untouched e0 e1) by (eapply untouched_trans; [exact U | constructor; reflexivity || (constructor; reflexivity)]).
  apply runs_pipeline. pose proof (attach_step (e_pipeline e1) evs h base false (g_reach _ _ _ G') Hh Hb) as Ha.
  destruct (attach try_reserve (e_pipeline e1) h base false) as [p'|err|]; [|exact (conj G' (conj U1 I)) | destruct Ha]. destruct Ha as (Hreach & Hsame & Hext & Hseg).
  assert (Hns : p_segment p' = None) by (destruct (p_segment p') eqn:Hp; [|reflexivity]; destruct Hseg as [_ Hseg]; specialize (Hseg ltac:(eauto)); discriminate).
  set (e2 := e_set_pipeline p' e1). assert (Hact : e_active e1 = None) by apply B.
  assert (G2 : core_ok try_reserve e2 evs) by (apply core_pipeline; assumption).
  assert (U2 : untouched e0 e2) by (eapply untouched_trans; [exact U1 | apply untouched_pipeline; assumption]).
  assert (B2 : forall r', rc_found r' = rc_found r -> resting e2 r') by (intros r' Hf'; destruct B; constructor; auto; rewrite Hf'; assumption).
  unfold on_recovery. apply runs_modify. cbn [fst snd]. apply runs_reads. cbn [fst snd].
  set (r1 := rc_set_header (Some h) (rc_set_page None r)). assert (Hl2 : e_layout e2 = Some l) by exact Hlay.
  assert (Hscan : runs (start_scan (l_limits l) ;! eret Continue) (r1, e2) (recovered e0 evs)) by (apply (scan_ok e0 e2 evs r1 l G2 U2 (B2 r1 eq_refl) Hl2 Hnum (l_limits l) h); auto).
  unfold footer_range. destruct (seal h) as [s|] eqn:Hs; [|exact Hscan]. pose proof (seal_sizes h s Hh Hs) as Hsz. destruct Hh as (Hid & (Hg & Hgm) & Hsok).
  assert (Hh : segment_header_ok h) by (split; [assumption|]; split; [split; assumption|]; assumption).
  rewrite wrap32_small by (unfold is_u32; lia). replace (Z.max 0 (segment_len h - (segment_len h - footer_len (seal_metadata_len s)))) with (footer_len (seal_metadata_len s)) by lia.
  destruct (_ <=? rl_metadata_bytes _); [|exact Hscan]. apply runs_modify. cbn [fst snd]. unfold PAGE_SIZE.
  destruct (footer_len_page (seal_metadata_len s) ltac:(lia)) as (q & Hq & _).
  destruct (Z.eqb_spec (footer_len (seal_metadata_len s)) 4096) as [He|He].
  - apply runs_modify, runs_eret. apply (stage_ok e0 e2 evs r1 l G2 U2 (B2 r1 eq_refl) Hl2 Hnum); efields; auto; try discriminate; [eauto|].
    exists h, s. do 3 (split; [auto|]). right. split; [reflexivity|]. exists tail. split; [reflexivity | lia].
  - unfold copy_range. rewrite (proj2 (Z.eqb_eq (len tail) _)) by lia. rewrite copy_at_Ok by (rewrite ?len_zeros; lia).
    apply runs_lift_bind; [apply safe_Ok | intros ? [= <-] | discriminate]. apply runs_eret.
    apply (stage_ok e0 e2 evs r1 l G2 U2 (B2 r1 eq_refl) Hl2 Hnum); efields; auto; try discriminate; [eauto|].
    exists h, s. do 3 (split; [auto|]). left. cbn [awaits Progress_read fmap option_fmap option_map]. rewrite len_splice, len_zeros by (rewrite ?len_zeros; lia). reflexivity.
Qed.

Lemma resize_length {A} (l : list A) n v : length (resize l n v) = n.
Proof. unfold resize. rewrite length_app, length_take, length_replicate. lia. Qed.

Lemma set_limits_step p evs limits : reach try_reserve p evs -> limits_ok limits -> p_segment p = None -> reach try_reserve (set_limits limits p) evs.
Proof. intros Hr Hl Hs. apply (reach_quiet p evs (CallSetLimits limits)); [assumption | split; assumption | reflexivity]. Qed.

Lemma super_b_stage e0 e evs r input : core_ok try_reserve e evs -> untouched e0 e -> resting e r -> rc_number r = 0 -> e_layout e = None -> len <$> input = Some 4096 ->
  runs (step_super_b try_reserve extent_bytes input) (r, e) (recovered e0 evs).
Proof.
  intros G U B Hn Hlay Hi. destruct input as [page|]; [|discriminate]. injection Hi as Hi. unfold step_super_b, rget, eget. apply (runs_expect _ page); [reflexivity|].
  apply runs_superblock; [lia | apply B | | intros; apply stage_err; assumption]. intros found Hfound. apply runs_reads. cbn [fst snd]. efields.
  apply runs_lift_bind; [apply safe_ok_or | | intros; apply stage_err; assumption]. intros l Hl. apply ok_or_Ok in Hl. pose proof (Hfound l Hl) as Hlok.
  apply runs_reads. cbn [fst snd]. unfold fail_when. apply runs_lift_bind; [apply safe_fail_if | | intros; apply stage_err; assumption]. intros u Hu. apply fail_if_Ok in Hu. boolp.
  apply runs_reads. do 3 (apply runs_lift_bind; [apply safe_fail_if | intros _ _ | intros; apply stage_err; assumption]).
  unfold on_engine, on_recovery. do 4 (apply runs_modify; cbn [fst snd]). apply runs_eret. destruct B. destruct (lo_count _ Hlok) as [Hc _].
  split; [|split; [eapply untouched_trans; [exact U | constructor; try reflexivity; constructor; reflexivity]|]; split; [discriminate|]; split; [discriminate|]].
  - cbn [fst snd]. destruct G as [H1 H2 H3 H4 H5 H6 H7]. constructor; efields; auto.
    + apply set_limits_step; [assumption | apply Hlok | assumption].
    + intros l' [= <-]. split; [assumption|]. split; [lia|]. unfold len. rewrite resize_length. lia.
    + rewrite Hlay in H5. lia.
    + intros n Hact. congruence.
  - cbn [fst snd]. constructor; efields; auto; try discriminate; try lia. exists l. split; [reflexivity|]. split; [lia|]. split; [congruence | reflexivity].
Qed.

(** Past the end-of-device test, at the base of the current slot. *)
Ltac at_slot H :=
  rewrite bool_decide_false by discriminate; cbn [andb]; specialize (H ltac:(discriminate)); rewrite segment_base_run by (auto; lia);
  apply runs_lift_bind; [apply safe_Ok | intros ? [= <-] | discriminate].

Lemma Recovery_step_ok e evs r w input : core_ok try_reserve e evs -> recovery_ok e r w ->
  len <$> input = match w with Some n => n | None => None end ->
  runs (Recovery_step try_reserve extent_bytes input) (r, e) (recovered e evs).
Proof.
  intros G R Hi. pose proof (recovery_resting _ _ _ R) as B. pose proof (untouched_refl e) as U. pose proof (ro_stage _ _ _ R) as Hst. pose proof (ro_number _ _ _ R) as Hnum.
  pose proof (ro_extents _ _ _ R) as Hx. pose proof (ro_header _ _ _ R) as Hh.
  unfold Recovery_step, rget, eget. apply runs_reads. cbn [fst snd].
  destruct (rc_stage r) eqn:Hs; cbn [attached_stage] in *;
    try (destruct Hst as (l & Hlay & Hle & Hlt & Hd); unfold rget, eget; apply runs_reads; cbn [fst snd]; apply (runs_expect _ l); [assumption|]; apply runs_reads; cbn [fst snd];
         pose proof (stage_layout e evs l G Hlay) as (Hlok & _)).
  - destruct Hst as (_ & Hlay & Hz). unfold on_recovery. apply runs_modify, runs_eret. split; [exact G|]. split; [exact U|]. split; [discriminate|]. split; [discriminate|]. destruct B.
    cbn [fst snd]. constructor; efields; auto; try discriminate.
  - destruct Hst as (Hw & Hlay & Hz). rewrite Hw in Hi. destruct input as [page|]; [|discriminate]. injection Hi as Hi. apply (runs_expect _ page); [reflexivity|].
    apply runs_superblock; [lia | apply B | | intros; apply stage_err; assumption]. intros found Hf. unfold on_recovery. apply runs_modify, runs_eret. destruct B.
    split; [exact G|]. split; [exact U|]. split; [discriminate|]. split; [discriminate|]. cbn [fst snd]. constructor; efields; auto; try discriminate.
  - destruct Hst as (Hw & Hlay & Hz). rewrite Hw in Hi. apply super_b_stage; auto.
  - rewrite bool_decide_true by reflexivity. cbn [andb]. destruct (Z.eqb_spec (rc_number r) (l_segments l)) as [He|He].
    + apply runs_eret. split; [exact G|]. split; [exact U|]. split; [discriminate|]. split; [cbn [snd]; eauto|]. cbn [fst snd awaits].
      destruct B. constructor; auto; rewrite Hs; auto; try discriminate. exists l. split; [assumption|]. split; [lia|]. split; [congruence|]. unfold recovery_data. rewrite Hs. reflexivity.
    + rewrite segment_base_run by (auto; lia). apply runs_lift_bind; [apply safe_Ok | intros ? [= <-] | discriminate].
      eapply (header_stage e e evs r l G U B Hlay); [lia | apply segment_base_run; [assumption | lia]].
  - at_slot Hlt.
    unfold recovery_data in Hd. rewrite Hs in Hd. rewrite Hd in Hi. apply (header_done_stage e e evs r l G U B Hlay); [lia | assumption].
  - at_slot Hlt.
    eapply (tail_stage e e evs r l _ w input G U B Hlay); [lia | apply segment_base_run; [assumption | lia] | assumption..].
  - at_slot Hlt.
    eapply (footer_read_stage e e evs r l G U B Hlay); [lia | eassumption..| auto | assumption].
  - at_slot Hlt.
    assert (w = None) as -> by (unfold recovery_data in Hd; rewrite Hs in Hd; apply Hd). eapply (footer_validate_stage e e evs r l G U B Hlay); [lia | assumption.. | auto].
  - at_slot Hlt.
    assert (w = None) as -> by (unfold recovery_data in Hd; rewrite Hs in Hd; apply Hd). eapply (restore_stage e e evs r l G U B Hlay); [lia | assumption.. | auto | auto].
  - at_slot Hlt.
    assert (w = None) as -> by (unfold recovery_data in Hd; rewrite Hs in Hd; apply Hd). eapply (scan_stage e e evs r l G U B Hlay); [lia | assumption.. | auto | auto].
  - at_slot Hlt.
    eapply (scan_header_stage e e evs r l G U B Hlay); [lia | eassumption.. | auto | auto | assumption].
  - at_slot Hlt.
    eapply (scan_body_stage e e evs r l G U B Hlay); [lia | eassumption.. | auto | auto | assumption].
Qed.
End Recovery.
