(* ===== verification/EngineSafe.v ===== *)
(** * The engine as a state machine

    Transitions, driving and every public call keep the invariant; hence no
    panic of the engine is reachable, and what the pipeline promises holds of
    the engine's callers. *)

From stdpp Require Import gmap sorting.
From S2P Require Import Prelude Align ChunkId Checksum Codec FrameFormat FrameDecode FrameDecodeProofs FrameBuilder FrameBuilderProofs SegmentFormat SegmentBuilder SegmentProofs SegmentRecovery.
From S2P Require Import Io Index PipelineState Pipeline PipelineTable PipelineInv PipelineLemmas PipelineTrace PipelineAdmit PipelinePoll PipelineSafe PipelineControl.
From S2P Require Import Layout LayoutProofs Format EngineState EngineRecovery Engine EngineInv EngineRecoverySafe.

Section Safe.
Context {D Q : Type} {DI : Device D} {QI : Queue Q} {QS : QueueSpec Q} {C : CrcFast} {CS : CrcFastSpec C} (try_reserve : Z -> bool) (extent_bytes : Z).
Implicit Types e : Engine D Q.
Implicit Types p : Pipeline Q.

(** ** Pipeline calls of transitions *)

Lemma take_segment_step p evs : reach try_reserve p evs -> is_Some (p_segment p) ->
  match take_segment p with
  | Ok (b, p') => reach try_reserve p' evs /\ same_control p p' /\ exists b', b = Some b' /\ exists limits ms, segment_ok limits b' ms
  | Err _ => True
  | Panic => False
  end.
Proof.
  intros Hr [b Hb]. pose proof (exec_returns try_reserve p evs CallTakeSegment Hr I) as Hn. cbn [exec] in Hn.
  destruct (take_segment p) as [[o p']| |] eqn:Ht; [|exact I | cbn in Hn; congruence].
  split; [apply (reach_quiet try_reserve p evs CallTakeSegment); [assumption | exact I | cbn [exec]; rewrite Ht; reflexivity]|].
  unfold take_segment in Ht. inv_ok. split; [constructor; subst; reflexivity|]. exists b. split; [congruence|].
  destruct (reach_good _ _ _ Hr) as [V|F]; [|pose proof (x_failed _ _ F); congruence]. destruct (k_segment _ (v_ok _ _ V) b Hb) as [(ms & Hms) _]. eauto.
Qed.

Lemma control_io_step p evs op off l buf : reach try_reserve p evs -> p_maintenance p = true -> control_ok p None ->
  match control_io p op off l buf with
  | Ok p' => reach try_reserve p' evs /\ control_ok p' (Some (len <$> buf)) /\ p_maintenance p' = true /\ p_queue_failed p' = p_queue_failed p /\
             p_segment p' = p_segment p /\ p_extents p' = p_extents p
  | Err _ => True
  | Panic => False
  end.
Proof.
  intros Hr Hm Hc. pose proof (exec_returns try_reserve p evs (CallControlIo op off l buf) Hr Hm) as Hn. cbn [exec] in Hn.
  destruct (control_io p op off l buf) as [p'| |] eqn:Ht; [|exact I | cbn in Hn; congruence].
  split; [apply (reach_quiet try_reserve p evs (CallControlIo op off l buf)); [assumption | exact Hm | cbn [exec]; rewrite Ht; reflexivity]|].
  unfold control_io in Ht. inv_ok. subst p'. fields. split; [|auto]. intros Hl. specialize (Hc Hl). apply tally_nil in Hc as (H1 & H2 & H3).
  unfold tally. fields. rewrite H2, H3. eexists. split; reflexivity.
Qed.

(** ** Transition steps *)

Definition transitioned e evs (out : eresult Progress) (s : @Transition C * Engine D Q) : Prop :=
  core_ok try_reserve s.2 evs /\ untouched e s.2 /\
  match out with
  | Ok Done => e_opened e = true
  | Ok _ => transition_ok s.2 s.1
  | _ => True
  end.

Lemma runs_t_pipeline {A B} f (k : A -> eff (Transition * Engine D Q) engine.Error B) t e Post :
  match f (e_pipeline e) with
  | Ok (a, p) => runs (k a) (t, e_set_pipeline p e) Post
  | Err err => Post (Err (engine.Pipeline err)) (t, e)
  | Panic => False
  end -> runs (ebind (t_pipeline f) k) (t, e) Post.
Proof. unfold runs, ebind, t_pipeline. cbn [fst snd]. destruct (f (e_pipeline e)) as [[a p]| |]; auto. Qed.

Section Transition.
Context (e : Engine D Q) (evs : list event) (t : @Transition C) (l : Layout).
Context (G : core_ok try_reserve e evs) (T : transition_ok e t) (Hopen : e_opened e = true) (Hlay : e_layout e = Some l).

Lemma t_err err t' : transitioned e evs (Err err) (t', e).
Proof. exact (conj G (conj (untouched_refl e) I)). Qed.

Lemma t_layout : layout_ok l /\ l_capacity l <= e_capacity e /\ len (e_used e) = l_segments l.
Proof. exact (g_layout _ _ _ G l Hlay). Qed.

Lemma slot_base n : 0 <= n < l_segments l -> exists base, segment_base l n = Ok base /\ 0 <= base < 2 ^ 62.
Proof.
  intros Hn. destruct t_layout as (Hlok & Hcap & _). rewrite (segment_base_run l Hlok n Hn). eexists. split; [reflexivity|].
  pose proof (slot_bounds l Hlok n Hn). pose proof (lo_fit _ Hlok). pose proof (g_capacity _ _ _ G). destruct (lo_size _ Hlok). lia.
Qed.

(** A stage that keeps the owner and has not allocated the next slot. *)
Lemma stage_kept t' pr : pr <> Done -> tr_next t' = tr_next t -> unallocated (tr_stage t') = unallocated (tr_stage t) ->
  (tr_stage t' = TFooter -> exists f, tr_footer t' = Some f /\ encoding f) -> (tr_stage t' = LastWrite -> is_Some (tr_last t')) ->
  (tr_stage t' <> Drain -> e_active e = None) -> transitioned e evs (Ok pr) (t', e).
Proof.
  intros Hd Hn Hu Hf Hl Ha. split; [exact G|]. split; [apply untouched_refl|]. cbn [fst snd].
  assert (H : transition_ok e t'). { destruct T. constructor; rewrite ?Hn, ?Hu; auto. }
  destruct pr; auto; contradiction.
Qed.

Lemma drain_step kind : tr_stage t = Drain -> runs (step_drain l kind) (t, e) (transitioned e evs).
Proof.
  intros Hst. unfold step_drain, tget_e. apply runs_reads. cbn [fst snd]. destruct (_ || _).
  { apply runs_eret. apply stage_kept; auto; try discriminate; rewrite Hst; try discriminate. congruence. }
  apply runs_reads. cbn [fst snd]. destruct (e_active e) as [n|] eqn:Ha.
  - apply runs_t_pipeline. destruct (g_active _ _ _ G n Ha) as (Hseg & l' & Hl' & Hn & Hused). assert (l' = l) as -> by congruence.
    pose proof (take_segment_step (e_pipeline e) evs (g_reach _ _ _ G) Hseg) as Hts. destruct (take_segment (e_pipeline e)) as [[o p']|err|]; [|apply t_err | destruct Hts].
    destruct Hts as (Hreach & Hsame & b & -> & limits & ms & Hb). apply (runs_expect _ b); [reflexivity|]. unfold t_engine. apply runs_modify. cbn [fst snd].
    destruct (slot_base n Hn) as (base & -> & _). apply runs_lift_bind; [apply safe_Ok | intros ? [= <-] | discriminate]. unfold on_transition. apply runs_modify, runs_eret.
    split; [|split].
    + cbn [fst snd]. destruct G as [H1 H2 H3 H4 H5 H6 H7]. constructor; efields; auto. discriminate.
    + constructor; try reflexivity. exact Hsame.
    + cbn [fst snd]. destruct T as [T1 T2 T3 T4 T5]. rewrite Hst in *. constructor; efields; auto; try discriminate. intros _. eexists. split; [reflexivity|]. eapply into_footer_encoding. exact Hb.
  - destruct (decide _).
    + unfold on_transition, t_sync, tget_e. apply runs_modify. apply runs_reads. apply runs_eret. apply stage_kept; efields; auto; rewrite ?Hst; try reflexivity; try discriminate.
      unfold Progress_sync. destruct (decide _); discriminate.
    + unfold on_transition. apply runs_modify, runs_eret. apply stage_kept; efields; auto; rewrite ?Hst; try reflexivity; discriminate.
Qed.

Lemma footer_step : tr_stage t = TFooter -> runs step_footer (t, e) (transitioned e evs).
Proof.
  intros Hst. destruct (to_footer _ _ T Hst) as (f & Hf & He). destruct (encoding_next f He) as (off & bytes & last & f' & Hn & Hnext).
  assert (Ha : e_active e = None) by (apply (to_active _ _ T); congruence).
  unfold step_footer, tget. apply runs_reads. apply (runs_expect _ f); [assumption|]. rewrite Hn. cbn [unwrap]. apply runs_lift_bind; [apply safe_Ok | intros [? ?] [= <- <-] | discriminate].
  unfold on_transition. apply runs_modify. cbn [fst snd]. apply (runs_expect _ (off, bytes, last)); [reflexivity|]. destruct last.
  - apply runs_modify. unfold t_sync, tget_e. apply runs_reads, runs_eret. apply stage_kept; efields; auto; rewrite ?Hst; try reflexivity; try discriminate.
    unfold Progress_sync. destruct (decide _); discriminate.
  - apply runs_reads, runs_eret. apply stage_kept; efields; auto; try discriminate; rewrite ?Hst; try discriminate. intros _. eauto.
Qed.

Lemma allocate_step : tr_stage t = Allocate -> runs (step_allocate l) (t, e) (transitioned e evs).
Proof.
  intros Hst. assert (Ha : e_active e = None) by (apply (to_active _ _ T); congruence). destruct t_layout as (Hlok & _ & Hlen).
  unfold step_allocate, on_transition, tget. apply runs_modify. apply runs_reads. cbn [fst snd]. efields. destruct (tr_next t) as [n|] eqn:Hnx.
  2: { apply runs_eret. exact (conj G (conj (untouched_refl e) Hopen)). }
  destruct (to_next _ _ T l n Hlay Hnx) as [Hn Hun]. pose proof (Layout_header_run l Hlok n Hn) as Hhr. destruct (Layout_header_ok l Hlok n _ Hn Hhr) as [Hhok Hseal].
  rewrite Hhr. apply runs_lift_bind; [apply safe_Ok | intros ? [= <-] | discriminate].
  destruct (SegmentHeader_encode_spec _ (zeros 4096) Hhok Hseal ltac:(vm_compute; discriminate)) as (page & Hpage & _). unfold PAGE_SIZE. rewrite Hpage. cbn [map_err].
  apply runs_lift_bind; [apply safe_Ok | intros ? [= <-] | discriminate]. unfold tget_e. apply runs_reads. cbn [fst snd].
  unfold index_set. rewrite (proj2 (Z.leb_le 0 n)), (proj2 (Z.ltb_lt n (len (e_used e)))) by lia. cbn [andb]. apply runs_lift_bind; [apply safe_Ok | intros ? [= <-] | discriminate].
  unfold t_engine. apply runs_modify. apply runs_modify. cbn [fst snd]. destruct (slot_base n Hn) as (base & -> & _).
  apply runs_lift_bind; [apply safe_Ok | intros ? [= <-] | discriminate]. apply runs_eret. split; [|split].
  - cbn [fst snd]. destruct G as [H1 H2 H3 H4 H5 H6 H7]. constructor; efields; auto.
    + intros l' Hl'. destruct (H3 l' Hl') as (? & ? & ?). unfold len in *. rewrite length_insert. auto.
    + intros n' Hn'. congruence.
  - constructor; try reflexivity. constructor; reflexivity.
  - cbn [fst snd]. clear Hpage Hhr Hhok Hseal. constructor; cbn [tr_stage tr_set_stage tr_next tr_footer tr_set_footer unallocated e_layout e_used e_active e_set_allocated e_set_used negb]; try discriminate; [|eauto..].
    intros l' n' Hl' Hn'. assert (l' = l) as -> by congruence. assert (n' = n) as -> by congruence. split; [assumption|]. apply list_lookup_insert_eq. unfold len in Hlen. lia.
Qed.

Lemma attach_transition : tr_stage t = Attach -> runs (step_attach try_reserve l) (t, e) (transitioned e evs).
Proof.
  intros Hst. destruct (to_attach _ _ T ltac:(rewrite Hst; reflexivity)) as [n Hnx]. destruct (to_next _ _ T l n Hlay Hnx) as [Hn Hun]. rewrite Hst in Hun. cbn [unallocated negb] in Hun.
  destruct t_layout as (Hlok & _). unfold step_attach, tget. apply runs_reads. cbn [fst snd]. apply (runs_expect _ n); [assumption|].
  pose proof (Layout_header_run l Hlok n Hn) as Hhr. destruct (Layout_header_ok l Hlok n _ Hn Hhr) as [Hhok Hseal]. rewrite Hhr.
  apply runs_lift_bind; [apply safe_Ok | intros ? [= <-] | discriminate]. destruct (slot_base n Hn) as (base & -> & Hb). apply runs_lift_bind; [apply safe_Ok | intros ? [= <-] | discriminate].
  apply runs_t_pipeline. pose proof (attach_step try_reserve (e_pipeline e) evs _ base true (g_reach _ _ _ G) Hhok Hb) as Ha.
  destruct (attach try_reserve (e_pipeline e) _ base true) as [p'|err|]; cbn [rbind]; [|apply t_err | destruct Ha]. destruct Ha as (Hreach & Hsame & _ & Hseg).
  unfold t_engine. apply runs_modify, runs_eret. split; [|split; [constructor; try reflexivity; exact Hsame | exact Hopen]].
  cbn [fst snd]. destruct G as [H1 H2 H3 H4 H5 H6 H7]. constructor; efields; auto. intros n' [= <-]. split; [apply Hseg; reflexivity|]. eauto.
Qed.
End Transition.

Lemma Transition_step_ok e evs t kind : core_ok try_reserve e evs -> transition_ok e t -> runs (Transition_step try_reserve kind) (t, e) (transitioned e evs).
Proof.
  intros G T. unfold Transition_step, tget_e. apply runs_reads. cbn [fst snd]. apply runs_lift_bind; [apply safe_fail_if | | intros; apply t_err; assumption].
  intros u Hu. apply fail_if_Ok in Hu. apply negb_false_iff in Hu. destruct (g_opened _ _ _ G Hu) as [l Hl]. apply runs_reads. cbn [fst snd]. apply (runs_expect _ l); [assumption|].
  unfold tget. apply runs_reads. cbn [fst snd]. destruct (tr_stage t) eqn:Hst.
  - apply drain_step; assumption.
  - apply footer_step; assumption.
  - destruct (to_last _ _ T Hst) as [[off buf] Hlast]. assert (Ha : e_active e = None) by (apply (to_active _ _ T); congruence).
    apply runs_reads. cbn [fst snd]. unfold on_transition. apply runs_modify. cbn [fst snd]. apply (runs_expect _ (off, buf)); [assumption|].
    apply runs_modify. apply runs_reads, runs_eret. apply (stage_kept e evs t G T); efields; auto; rewrite ?Hst; try reflexivity; discriminate.
  - assert (Ha : e_active e = None) by (apply (to_active _ _ T); congruence). unfold on_transition. apply runs_modify. unfold t_sync, tget_e. apply runs_reads, runs_eret.
    apply (stage_kept e evs t G T); efields; auto; rewrite ?Hst; try reflexivity; try discriminate. unfold Progress_sync. destruct (decide _); discriminate.
  - apply allocate_step; assumption.
  - assert (Ha : e_active e = None) by (apply (to_active _ _ T); congruence). unfold on_transition. apply runs_modify. unfold t_sync, tget_e. apply runs_reads, runs_eret.
    apply (stage_kept e evs t G T); efields; auto; rewrite ?Hst; try reflexivity; try discriminate. unfold Progress_sync. destruct (decide _); discriminate.
  - apply attach_transition; assumption.
  - apply runs_eret. exact (conj G (conj (untouched_refl e) Hu)).
Qed.
End Safe.
