(* ===== verification/EngineDrive.v ===== *)
(** * Driving the owner

    One lifecycle step, then one turn of the pipeline: both keep the owner
    sound, and the lifecycle request accepted is reported exactly once. *)

From stdpp Require Import gmap sorting.
From S2P Require Import Prelude Align ChunkId Checksum Codec FrameFormat FrameDecode FrameBuilder SegmentFormat SegmentBuilder.
From S2P Require Import Io Index PipelineState Pipeline PipelineTable PipelineInv PipelineLemmas PipelineTrace PipelineAdmit PipelinePoll PipelineSafe PipelineControl.
From S2P Require Import Layout LayoutProofs EngineState EngineRecovery Engine EngineInv EngineRecoverySafe EngineSafe.

Section Drive.
Context {D Q : Type} {DI : Device D} {QI : Queue Q} {QS : QueueSpec Q} {C : CrcFast} {CS : CrcFastSpec C} (try_reserve : Z -> bool) (extent_bytes : Z).
Implicit Types e : Engine D Q.
Implicit Types p : Pipeline Q.

(** ** Lifecycle requests *)

(** The request the owner still has to report, and those a list reports. *)
Definition pending_lifecycle e : list (Z * lifecycle.Lifecycle) :=
  match e_job e with Some j => option_list ((fun t => (t, j_kind j)) <$> j_ticket j) | None => [] end.
Definition reported (cs : list EngineCompletion) : list (Z * lifecycle.Lifecycle) :=
  omap (fun c => match c with ELifecycle t k _ => Some (t, k) | _ => None end) cs.

(** ** Frames *)

Lemma recovery_frame e e' r w : recovery_ok e r w -> is_Some (p_segment (e_pipeline e')) <-> is_Some (p_segment (e_pipeline e)) ->
  p_extents (e_pipeline e') = p_extents (e_pipeline e) -> e_active e' = e_active e -> e_opened e' = e_opened e -> e_layout e' = e_layout e -> recovery_ok e' r w.
Proof.
  intros [H1 H2 H3 H4 H5 H6 H7 H8] Hs Hx Ha Ho Hl. constructor; rewrite ?Hx, ?Ha, ?Ho, ?Hl; auto.
  destruct (p_segment (e_pipeline e')); [|reflexivity]. destruct (proj1 Hs ltac:(eauto)). congruence.
Qed.

Lemma transition_frame e e' t : transition_ok e t -> e_layout e' = e_layout e -> e_used e' = e_used e -> e_active e' = e_active e -> transition_ok e' t.
Proof. intros [H1 H2 H3 H4 H5] Hl Hu Ha. constructor; rewrite ?Hl, ?Hu, ?Ha; auto. Qed.

Lemma work_frame e e' j w : work_ok e j w -> is_Some (p_segment (e_pipeline e')) <-> is_Some (p_segment (e_pipeline e)) ->
  p_extents (e_pipeline e') = p_extents (e_pipeline e) -> e_active e' = e_active e -> e_opened e' = e_opened e -> e_layout e' = e_layout e -> e_used e' = e_used e -> work_ok e' j w.
Proof.
  unfold work_ok. destruct (j_work j); intros [Hk H] ? ? ? ? ? ?; (split; [assumption|]); [eapply recovery_frame | eapply transition_frame]; eassumption.
Qed.

Lemma core_frame e e' evs evs' : core_ok try_reserve e evs -> reach try_reserve (e_pipeline e') evs' -> e_completions e' = e_completions e -> e_layout e' = e_layout e ->
  e_capacity e' = e_capacity e -> e_used e' = e_used e -> e_next e' = e_next e -> e_opened e' = e_opened e -> e_active e' = e_active e ->
  (is_Some (p_segment (e_pipeline e)) -> is_Some (p_segment (e_pipeline e'))) -> core_ok try_reserve e' evs'.
Proof.
  intros [H1 H2 H3 H4 H5 H6 H7] Hr Hc Hl Hp Hu Hn Ho Ha Hs. constructor; rewrite ?Hc, ?Hl, ?Hp, ?Hu, ?Hn, ?Ho, ?Ha; auto.
  intros n Hn'. destruct (H7 n Hn') as [? ?]. auto.
Qed.

Lemma control_frame p p' w : control_ok p w -> same_control p p' -> control_ok p' w.
Proof. intros H [H1 H2 H3]. unfold control_ok. rewrite H1, H3. exact H. Qed.

(** ** Ending a job *)

Lemma maintenance_step p evs b : reach try_reserve p evs -> control_ok p None -> reach try_reserve (set_maintenance b p) evs /\ control_ok (set_maintenance b p) None.
Proof.
  intros Hr Hc. split; [|exact Hc]. apply (reach_quiet try_reserve p evs (CallMaintenance b)); [assumption | | reflexivity].
  cbn [call_ok]. destruct (p_queue_failed p) eqn:Hf; [auto|]. destruct (reach_good _ _ _ Hr) as [V|F]; [|pose proof (x_failed _ _ F); congruence].
  destruct (live_idle p evs V (Hc Hf)) as (? & ? & _). auto.
Qed.

(** What driving never does: touch the queue's health, close the owner for
    another job than a close, or turn a job into another. *)
Record kept e e' : Prop := {
  kt_failed : p_queue_failed (e_pipeline e') = p_queue_failed (e_pipeline e);
  kt_closed : forall j, e_job e = Some j -> j_kind j <> lifecycle.Close -> e_state e' <> state.Closed;
  kt_kind : forall j j', e_job e = Some j -> e_job e' = Some j' -> j_kind j' = j_kind j
}.

Definition drove e evs (out : list EngineCompletion) (r : eresult (bool * Engine D Q * list EngineCompletion)) : Prop :=
  match r with
  | Ok (_, e', out') => engine_ok try_reserve e' evs /\ kept e e' /\ exists tail, out' = out ++ tail /\ omap into_pipeline tail = [] /\ pending_lifecycle e = reported tail ++ pending_lifecycle e'
  | _ => False
  end.

Lemma finish_reports e j result out : exists tail, (finish_job e j result out).2 = out ++ tail /\ omap into_pipeline tail = [] /\
  reported tail = option_list ((fun t => (t, j_kind j)) <$> j_ticket j) /\ e_job (finish_job e j result out).1.2 = e_job e.
Proof.
  assert (Hj : e_job (finish_job e j result out).1.2 = e_job e) by (unfold finish_job; efields; repeat case_decide; destruct (is_err result); reflexivity).
  rewrite Hj. unfold finish_job. efields. destruct (j_ticket j) as [t|]; [exists [ELifecycle t (j_kind j) result] | exists []; rewrite app_nil_r]; auto.
Qed.

Lemma finish_ok e0 j0 e evs j result out : core_ok try_reserve e evs -> e_job e = None -> control_ok (e_pipeline e) None ->
  e_job e0 = Some j0 -> j_ticket j0 = j_ticket j -> j_kind j0 = j_kind j -> p_queue_failed (e_pipeline e) = p_queue_failed (e_pipeline e0) -> safe result ->
  (result = Ok tt -> j_kind j <> lifecycle.Close -> p_queue_failed (e_pipeline e) = false /\ (j_kind j = lifecycle.Open -> is_Some (e_layout e)) /\ (j_kind j <> lifecycle.Open -> e_opened e = true)) ->
  drove e0 evs out (Ok (finish_job e j result out)).
Proof.
  intros G Hj Hc Hj0 Ht0 Hk0 Hq0 Hs Hok. destruct (finish_reports e j result out) as (tail & Ht & Hn & Hrep & Hjob). unfold drove. destruct (maintenance_step (e_pipeline e) evs false (g_reach _ _ _ G) Hc) as [Hr' Hc'].
  destruct (finish_job e j result out) as [[b e'] out'] eqn:Hfin. cbn [fst snd] in *. unfold finish_job in Hfin.
  split; [|split; [|exists tail; split; [assumption|]; split; [assumption|]; rewrite Hrep, <- Ht0, <- Hk0; unfold pending_lifecycle; rewrite Hjob, Hj, Hj0, app_nil_r; reflexivity]].
  2: { injection Hfin as _ <- _. split; [rewrite <- Hq0; case_decide; [|destruct (is_err result)]; try case_decide; reflexivity| |intros; congruence]. intros j1 Hj1 Hk1. assert (j_kind j <> lifecycle.Close) by congruence.
       clear Hjob. rewrite decide_False by assumption. destruct (is_err result); [|case_decide]; efields; discriminate. }
  injection Hfin as _ <- _. clear Ht Hjob.
  destruct (decide (j_kind j = lifecycle.Close)) as [Hk|Hk]; [|destruct result as [[]|err|]; cbn [is_err]; [destruct (decide (j_kind j = lifecycle.Open)) as [Ho|Ho]| |congruence]].
  2: { destruct (Hok eq_refl Hk) as (Hf & Hl & _). destruct G as [H1 H2 H3 H4 H5 H6 H7]. split; [constructor; efields; auto|]. efields. rewrite Hj. fields. rewrite Hf. repeat split; auto; discriminate. }
  2: { destruct (Hok eq_refl Hk) as (Hf & _ & Hl). split; [eapply core_frame; efields; eauto|]. efields. rewrite Hj. fields. rewrite Hf. repeat split; auto; discriminate. }
  all: split; [eapply core_frame; efields; eauto|]; efields; rewrite Hj; repeat split; auto; discriminate.
Qed.

(** ** One lifecycle step *)

Record step_ok e (j : Job) (input : option Buffer) : Prop := {
  so_job : e_job e = None;
  so_maintenance : p_maintenance (e_pipeline e) = true;
  so_control : control_ok (e_pipeline e) None;
  so_work : match j_work j with
            | WOpen r => j_kind j = lifecycle.Open /\ exists w, recovery_ok e r w /\ len <$> input = match w with Some n => n | None => None end
            | WTransition t => j_kind j <> lifecycle.Open /\ transition_ok e t
            end;
  so_live : j_kind j <> lifecycle.Close -> p_queue_failed (e_pipeline e) = false;
  so_failed : e_state e = state.Failed -> p_queue_failed (e_pipeline e) = true;
  so_closing : e_state e = state.Closing -> j_kind j = lifecycle.Close;
  so_closed : e_state e <> state.Closed
}.

(** What a step leaves: the owner as [step_ok] wants it, and the job's data. *)
Definition stepped e evs (j : Job) (s : eresult Progress * Job * Engine D Q) : Prop :=
  let '(out, j', e') := s in
  core_ok try_reserve e' evs /\ untouched e e' /\ j_ticket j' = j_ticket j /\ j_kind j' = j_kind j /\ j_waiting j' = j_waiting j /\
  match out with
  | Ok Done => (j_kind j = lifecycle.Open -> is_Some (e_layout e')) /\ (j_kind j <> lifecycle.Open -> e_opened e' = true)
  | Ok pr => work_ok e' j' (awaits pr)
  | Err _ => True
  | Panic => False
  end.

Lemma Job_step_ok e evs j input : core_ok try_reserve e evs -> step_ok e j input -> stepped e evs j (Job_step try_reserve extent_bytes j e input).
Proof.
  intros G S. pose proof (so_work _ _ _ S) as Hw. unfold Job_step. destruct (j_work j) as [r|t] eqn:Hj; destruct Hw as [Hk Hw].
  - destruct Hw as (w & R & Hi). pose proof (Recovery_step_ok try_reserve extent_bytes e evs r w input G R Hi) as H. unfold runs in H.
    destruct (Recovery_step try_reserve extent_bytes input (r, e)) as [[pr|err|] [r' e']]; [| |destruct H]; destruct H as (G' & U & H); cbn [fst snd] in *; repeat (split; [first [assumption | reflexivity]|]); [|exact I].
    destruct H as (Hnw & Hd & R'). destruct pr; try (split; [assumption | exact R']). split; [auto | congruence].
  - pose proof (Transition_step_ok try_reserve e evs t (j_kind j) G Hw) as H. unfold runs in H.
    destruct (Transition_step try_reserve (j_kind j) (t, e)) as [[pr|err|] [t' e']]; [| |destruct H]; destruct H as (G' & U & H); cbn [fst snd] in *; repeat (split; [first [assumption | reflexivity]|]); [|exact I].
    destruct pr; try (split; [assumption | exact H]). split; [congruence|]. intros _. rewrite (u_opened _ _ U). assumption.
Qed.

(** The job kept for the next turn. *)
Lemma job_kept e e' evs j w : core_ok try_reserve e' evs -> p_maintenance (e_pipeline e') = true -> waiting_for j w -> control_ok (e_pipeline e') w -> work_ok e' j w ->
  e_state e' = e_state e -> p_queue_failed (e_pipeline e') = p_queue_failed (e_pipeline e) ->
  (e_state e = state.Failed -> p_queue_failed (e_pipeline e) = true) -> (e_state e = state.Closing -> j_kind j = lifecycle.Close) -> e_state e <> state.Closed ->
  engine_ok try_reserve (e_set_job (Some j) e') evs.
Proof.
  intros G Hm Hwf Hc Hw Hs Hq H1 H2 H3. split; [eapply core_frame; efields; eauto; apply (g_reach _ _ _ G)|]. efields. constructor; efields; rewrite ?Hs, ?Hq; auto.
  exists w. split; [assumption|]. split; [assumption|]. eapply work_frame; efields; eauto.
Qed.

Lemma advance_ok e0 j0 e evs j input out : core_ok try_reserve e evs -> step_ok e j input -> j_waiting j = false ->
  e_job e0 = Some j0 -> j_ticket j0 = j_ticket j -> j_kind j0 = j_kind j -> p_queue_failed (e_pipeline e) = p_queue_failed (e_pipeline e0) -> drove e0 evs out (advance_job try_reserve extent_bytes e j input out).
Proof.
  intros G S Hwt Hj0 Ht0 Hk0 Hq0. assert (S' : step_ok e (j_set_blocked false j) input) by (destruct S; constructor; efields; auto).
  pose proof (Job_step_ok e evs _ input G S') as H. unfold advance_job. destruct (Job_step try_reserve extent_bytes (j_set_blocked false j) e input) as [[pr j'] e'].
  destruct H as (G' & U & Ht & Hk & Hw & H). efields. destruct (u_control _ _ U) as [U1 U2 U3]. destruct S as [S1 S2 S3 S4 S5 S6 S7 S8].
  assert (Hc : control_ok (e_pipeline e') None) by (eapply control_frame; [exact S3 | constructor; assumption]). rewrite <- Ht in Ht0. rewrite <- Hk in Hk0.
  assert (Hrep : forall w e2 j2, j_ticket j2 = j_ticket j' -> j_kind j2 = j_kind j' -> p_queue_failed (e_pipeline e2) = p_queue_failed (e_pipeline e') -> engine_ok try_reserve (e_set_job (Some j2) e2) evs -> drove e0 evs out (Ok (w, e_set_job (Some j2) e2, out))).
  { intros w e2 j2 Ht2 Hk2 Hf2 Hok. split; [assumption|]. split; [split; [cbn; congruence | intros _ _ _; apply (n_job _ _ _ Hok) | efields; intros; congruence]|]. exists []. rewrite app_nil_r. split; [reflexivity|]. split; [reflexivity|]. unfold pending_lifecycle. rewrite Hj0. efields. rewrite Ht0, Hk0, <- Ht2, <- Hk2. reflexivity. }
  assert (Hend : forall result, safe result -> (result = Ok tt -> j_kind j' <> lifecycle.Close -> p_queue_failed (e_pipeline e') = false /\ (j_kind j' = lifecycle.Open -> is_Some (e_layout e')) /\
                   (j_kind j' <> lifecycle.Open -> e_opened e' = true)) -> drove e0 evs out (Ok (finish_job e' j' result out))).
  { intros result Hs Hok. apply (finish_ok e0 j0 e' evs); auto; [rewrite (u_job _ _ U); assumption | congruence]. }
  destruct pr as [pr|err|]; [|apply Hend; discriminate | destruct H].
  pose proof (u_state _ _ U) as Hst. rewrite <- Hk in S7. destruct pr as [| | |op off l buf].
  - apply Hrep; auto. apply (job_kept e _ _ _ None); auto; unfold waiting_for; congruence.
  - apply Hrep; auto. apply (job_kept e _ _ _ None); auto; unfold waiting_for; efields; congruence.
  - apply Hend; [apply safe_Ok|]. intros _ Hnc. rewrite Hk in *. rewrite U1. split; [auto|]. exact H.
  - pose proof (control_io_step try_reserve (e_pipeline e') evs op off l buf (g_reach _ _ _ G') ltac:(congruence) Hc) as Hio.
    destruct (control_io (e_pipeline e') op off l buf) as [p'|err|]; [|apply Hend; discriminate | destruct Hio].
    destruct Hio as (Hr & Hc' & Hm & Hf & Hseg & Hx). apply Hrep; auto. apply (job_kept e _ _ _ (Some (len <$> buf))); unfold waiting_for; efields; auto; try congruence.
    + eapply core_frame; efields; eauto. rewrite Hseg. auto.
    + eapply work_frame; [exact H|..]; efields; rewrite ?Hseg, ?Hx; reflexivity.
Qed.

Lemma take_control_step p evs : reach try_reserve p evs -> reach try_reserve (take_control p).2 evs.
Proof. intros Hr. apply (reach_quiet try_reserve p evs CallTakeControl); [assumption | exact I | reflexivity]. Qed.

(** The completion a waiting job takes is that of its request. *)
Lemma control_delivered p n c : control_ok p (Some n) -> p_queue_failed p = false -> p_control_done p = Some c ->
  len <$> buffer (request c) = n /\ control_ok (set_control_done None p) None.
Proof.
  intros Hc Hq Hd. destruct (Hc Hq) as (sh & Ht & Hn). unfold tally in Ht. rewrite Hd in Ht.
  rewrite app_assoc in Ht. apply app_eq_unit in Ht as [[H1 [= H2]]|[_ [=]]]. apply app_eq_nil in H1 as [H0 H1]. split; [rewrite <- Hn, <- H2; reflexivity|].
  intros _. unfold tally. fields. destruct (p_control p); [discriminate|]. rewrite H1. reflexivity.
Qed.

Lemma transfer_result_safe r result : safe (transfer_result r result).
Proof. unfold transfer_result. destruct result; [discriminate|]. destruct (_ =? _); discriminate. Qed.

Lemma drive_ok e evs out : engine_ok try_reserve e evs -> drove e evs out (drive_job try_reserve extent_bytes e out).
Proof.
  intros [G J]. unfold drive_job. destruct (e_job e) as [j|] eqn:Hj; [|split; [constructor; [assumption | rewrite Hj; assumption]|]; split; [split; [reflexivity | congruence | congruence]|]; exists []; rewrite app_nil_r; auto].
  destruct J as [Hm (w & Hwf & Hc & Hw) Hf Hcl Hcd]. assert (G' : core_ok try_reserve (e_set_job None e) evs) by (eapply core_frame; efields; eauto; apply (g_reach _ _ _ G)).
  efields.
  assert (Hfail : p_queue_failed (e_pipeline e) = true -> forall err, drove e evs out (Ok (finish_job (e_set_job None e) j (Err err) out))).
  { intros Hq err. apply (finish_ok e j _ evs); auto; try discriminate. intros Hl. efields. congruence. }
  destruct (p_queue_failed (e_pipeline e)) eqn:Hq; cbn [andb].
  - destruct (bool_decide _) eqn:Hk; cbn [negb]; [|apply Hfail; reflexivity]. apply bool_decide_eq_true in Hk. destruct (j_waiting j) eqn:Hwt; [apply Hfail; reflexivity|].
    apply (advance_ok e j); auto. constructor; efields; auto; [intros Hl; efields; congruence | | intros; congruence].
    unfold work_ok in Hw. destruct (j_work j); [destruct Hw; congruence|]. destruct Hw as [? Hw]. split; [assumption|]. eapply transition_frame; eauto.
  - destruct (j_waiting j) eqn:Hwt.
    + unfold waiting_for in Hwf. rewrite Hwt in Hwf. destruct w as [n|]; [|discriminate]. pose proof (take_control_step (e_pipeline e) evs (g_reach _ _ _ G)) as Hr. unfold take_control in *. cbn [snd] in Hr.
      assert (G1 : core_ok try_reserve (e_set_pipeline (set_control_done None (e_pipeline e)) (e_set_job None e)) evs) by (eapply core_frame; efields; eauto).
      destruct (p_control_done (e_pipeline e)) as [c|] eqn:Hd.
      * destruct (control_delivered (e_pipeline e) n c Hc Hq Hd) as [Hb Hc'].
        assert (Hstep : step_ok (e_set_pipeline (set_control_done None (e_pipeline e)) (e_set_job None e)) (j_set_waiting false j) (buffer (request c))).
        { constructor; efields; fields; rewrite ?Hq; auto. unfold work_ok in Hw. destruct (j_work j); destruct Hw as [? Hw]; (split; [assumption|]); [|eapply transition_frame; eauto].
          exists (Some n). split; [|assumption]. eapply recovery_frame; efields; eauto; reflexivity. }
        assert (Hend : forall err, drove e evs out (Ok (finish_job (e_set_pipeline (set_control_done None (e_pipeline e)) (e_set_job None e)) (j_set_waiting false j) (Err err) out))).
        { intros err. apply (finish_ok e j _ evs); auto; discriminate. }
        pose proof (transfer_result_safe (request c) (io_result c)) as Hts. destruct (transfer_result _ _); [apply (advance_ok e j); auto | apply Hend | congruence].
      * split; [|split; [split; [reflexivity | intros _ _ _; exact Hcd | efields; intros; congruence]|]; exists []; rewrite app_nil_r; unfold pending_lifecycle; efields; rewrite Hj; auto]. apply (job_kept e _ _ _ (Some n)); efields; fields; rewrite ?Hq; auto.
        -- intros Hl. specialize (Hc Hq). unfold tally in *. fields. rewrite Hd in Hc. exact Hc.
        -- eapply work_frame; efields; eauto; reflexivity.
    + apply (advance_ok e j); auto. unfold waiting_for in Hwf. rewrite Hwt in Hwf. destruct w; [discriminate|]. constructor; efields; rewrite ?Hq; auto.
      unfold work_ok in Hw. destruct (j_work j); destruct Hw as [? Hw]; (split; [assumption|]); [exists None; split; [|reflexivity]; eapply recovery_frame; eauto; reflexivity | eapply transition_frame; eauto].
Qed.

(** ** A turn of the pipeline *)

Lemma omap_from_pipeline cs : omap into_pipeline (map from_pipeline cs) = cs.
Proof. induction cs as [|[] cs IH]; cbn; rewrite ?IH; reflexivity. Qed.

Lemma reported_from_pipeline cs : reported (map from_pipeline cs) = [].
Proof. induction cs as [|[] cs IH]; cbn; auto. Qed.

Lemma poll_step p evs w wait : reach try_reserve p evs -> control_ok p w ->
  exists p' new, poll p wait [] = Ok (p', new) /\ reach try_reserve p' (evs ++ map Finished new) /\ control_ok p' w /\ calm p p' /\
    (p_queue_failed p = true -> p_queue_failed p' = true).
Proof.
  intros Hr Hc. destruct (poll_good p evs wait [] (reach_good _ _ _ Hr)) as (p' & new & Hp & _). cbn [app] in Hp. pose proof (poll_calm _ _ _ _ _ Hp) as Hcalm.
  exists p', new. split; [assumption|]. split; [eapply (reach_call try_reserve p evs (CallPoll wait)); [assumption | exact I | cbn [exec]; rewrite Hp; reflexivity]|].
  destruct (reach_good _ _ _ Hr) as [V|F].
  - split; [eapply calm_control; eassumption|]. split; [assumption|]. pose proof (k_live _ (v_ok _ _ V)). congruence.
  - destruct (failed_poll p evs wait F) as (p1 & new1 & Hp1 & F1 & _). rewrite Hp in Hp1. injection Hp1 as <- <-. pose proof (x_failed _ _ F1) as Hf. split; [intros Hl; congruence | auto].
Qed.

(** The owner after the pipeline's turn. *)
Definition turned (p : Pipeline Q) e : Engine D Q :=
  let e := e_set_completions [] (e_set_pipeline p e) in
  if p_queue_failed p && negb (bool_decide (e_state e = state.Closed)) then e_set_state state.Failed e else e.

Lemma turned_fields p e : e_pipeline (turned p e) = p /\ e_completions (turned p e) = [] /\ e_layout (turned p e) = e_layout e /\ e_capacity (turned p e) = e_capacity e /\
  e_used (turned p e) = e_used e /\ e_next (turned p e) = e_next e /\ e_opened (turned p e) = e_opened e /\ e_active (turned p e) = e_active e /\ e_job (turned p e) = e_job e /\
  e_state (turned p e) = if p_queue_failed p && negb (bool_decide (e_state e = state.Closed)) then state.Failed else e_state e.
Proof. unfold turned. efields. destruct (_ && _); efields; auto 12. Qed.

Lemma turn_ok e evs p' new : engine_ok try_reserve e evs -> reach try_reserve p' (evs ++ map Finished new) ->
  (forall w, control_ok (e_pipeline e) w -> control_ok p' w) -> calm (e_pipeline e) p' -> (p_queue_failed (e_pipeline e) = true -> p_queue_failed p' = true) ->
  engine_ok try_reserve (turned p' e) (evs ++ map Finished new).
Proof.
  intros [G J] Hr Hc [Hs Hx Hm _ _] Hq. destruct (turned_fields p' e) as (T1 & T2 & T3 & T4 & T5 & T6 & T7 & T8 & T9 & T10). split.
  - eapply (core_frame e); rewrite ?T1, ?T2; auto; [exact G | symmetry; apply (g_completions _ _ _ G) | apply Hs].
  - rewrite T9. destruct (e_job e) as [j|].
    + destruct J as [J1 (w & J2 & J3 & J4) J5 J6 J7]. constructor; rewrite ?T1, ?T10; [congruence | | | |].
      * exists w. split; [assumption|]. split; [auto|]. eapply work_frame; [exact J4|..]; rewrite ?T1; auto.
      * destruct (p_queue_failed p') eqn:Hf; [reflexivity | cbn [andb]; auto].
      * destruct (_ && _); [discriminate | auto].
      * destruct (_ && _); [discriminate | auto].
    + destruct J as (J1 & J2 & J3 & J4 & J5). rewrite T1, T7, T10. split; [auto|]. destruct (p_queue_failed p') eqn:Hf; cbn [andb].
      * destruct (bool_decide (e_state e = state.Closed)) eqn:Hd; cbn [negb]; [apply bool_decide_eq_true in Hd; rewrite Hd; auto | repeat split; auto; discriminate].
      * repeat split; auto. discriminate.
Qed.

Lemma poll_turn e evs wait : engine_ok try_reserve e evs -> exists p new, poll (e_pipeline e) wait [] = Ok (p, new) /\ engine_ok try_reserve (turned p e) (evs ++ map Finished new).
Proof.
  intros Hok. assert (Hw : exists w, control_ok (e_pipeline e) w). { pose proof (n_job _ _ _ Hok) as J. destruct (e_job e); [destruct J as [_ (w & _ & Hc & _) _ _ _]; eauto | destruct J; eauto]. }
  destruct Hw as [w0 Hw0]. destruct (poll_step (e_pipeline e) evs w0 wait (g_reach _ _ _ (n_core _ _ _ Hok)) Hw0) as (p' & new & Hp & Hr & _ & Hcalm & Hq).
  exists p', new. split; [assumption|]. apply turn_ok; auto. intros w Hw.
  destruct (poll_step (e_pipeline e) evs w wait (g_reach _ _ _ (n_core _ _ _ Hok)) Hw) as (p2 & new2 & Hp2 & _ & Hc2 & _). rewrite Hp in Hp2. injection Hp2 as <- <-. assumption.
Qed.

Lemma engine_ready_ok e evs : engine_ok try_reserve e evs -> exists b, engine_has_ready e = Ok b.
Proof.
  intros Hok. unfold engine_has_ready. destruct (good_has_ready _ _ (reach_good _ _ _ (g_reach _ _ _ (n_core _ _ _ Hok)))) as (b & ->). cbn [perr map_err rbind]. eauto.
Qed.

Lemma engine_poll_ok e evs wait out : engine_ok try_reserve e evs ->
  exists e' cs, engine_poll try_reserve extent_bytes e wait out = Ok (len cs, e', out ++ cs) /\
    engine_ok try_reserve e' (evs ++ map Finished (omap into_pipeline cs)) /\ pending_lifecycle e = reported cs ++ pending_lifecycle e'.
Proof.
  intros Hok. unfold engine_poll. pose proof (drive_ok e evs out Hok) as H1. destruct (drive_job try_reserve extent_bytes e out) as [[[b e1] out1]| |]; [|destruct H1..].
  destruct H1 as (Hok1 & _ & tail1 & -> & Hp1 & Hl1). cbn [rbind]. rewrite (g_completions _ _ _ (n_core _ _ _ Hok1)).
  match goal with |- context [may_wait ?i ?r] => destruct (may_wait_ok i r (engine_ready_ok e1 evs Hok1)) as (w1 & ->) end. cbn [rbind].
  match goal with |- context [poll _ ?w []] => destruct (poll_turn e1 evs w Hok1) as (p' & new & Hp & Hok2) end.
  rewrite Hp. cbn [perr map_err rbind]. change (if p_queue_failed p' && _ then _ else _) with (turned p' e1).
  pose proof (drive_ok _ _ ((out ++ tail1) ++ map from_pipeline new) Hok2) as H2.
  destruct (drive_job try_reserve extent_bytes (turned p' e1) _) as [[[b2 e2] out2]| |]; [|destruct H2..]. destruct H2 as (Hok3 & _ & tail2 & -> & Hp2 & Hl2). cbn [rbind].
  exists e2, (tail1 ++ map from_pipeline new ++ tail2). split; [rewrite !len_app; do 2 f_equal; [f_equal; lia | rewrite <- !app_assoc; reflexivity]|].
  split; [rewrite !omap_app, Hp1, omap_from_pipeline, Hp2, app_nil_r; exact Hok3|].
  unfold reported in *. rewrite !omap_app. fold (reported (map from_pipeline new)). rewrite reported_from_pipeline. cbn [app]. rewrite Hl1, <- app_assoc. f_equal. rewrite <- Hl2.
  unfold pending_lifecycle. destruct (turned_fields p' e1) as (_ & _ & _ & _ & _ & _ & _ & _ & -> & _). reflexivity.
Qed.
End Drive.
