(* ===== verification/EngineCalls.v ===== *)
(** * Calls of the owner

    Opening, admission of operations and of lifecycle requests keep the owner
    sound, whether the call is accepted or refused. *)

From stdpp Require Import gmap sorting.
From S2P Require Import Prelude Align ChunkId Checksum Codec FrameFormat FrameDecode FrameBuilder FrameBuilderProofs SegmentFormat SegmentBuilder.
From S2P Require Import Io Index PipelineState Pipeline PipelineTable PipelineInv PipelineLemmas PipelineTrace PipelineAdmit PipelinePoll PipelineSafe PipelineControl.
From S2P Require Import Layout LayoutProofs EngineState EngineRecovery Engine EngineInv EngineRecoverySafe EngineSafe EngineDrive.

Section Calls.
Context {D Q : Type} {DI : Device D} {QI : Queue Q} {QS : QueueSpec Q} {C : CrcFast} {CS : CrcFastSpec C} (try_reserve : Z -> bool).
Implicit Types e : Engine D Q.
Implicit Types p : Pipeline Q.

(** ** Admission checks *)

Record writable e : Prop := {
  wr_opened : e_opened e = true;
  wr_state : e_state e <> state.Closing /\ e_state e <> state.Closed /\ e_state e <> state.Failed;
  wr_job : e_job e = None
}.

Lemma check_readable_safe e : safe (check_readable e).
Proof. unfold check_readable. safe_steps. Qed.

Lemma check_readable_Ok e : check_readable e = Ok tt -> e_opened e = true /\ e_state e <> state.Closing /\ e_state e <> state.Closed.
Proof. unfold check_readable. intros H. inv_ok. boolp. rewrite !bool_decide_eq_false in *. auto. Qed.

Lemma check_writable_safe e : safe (check_writable e).
Proof. unfold check_writable. apply safe_rbind; [apply check_readable_safe|]. intros. safe_steps. Qed.

Lemma check_writable_Ok e : check_writable e = Ok tt -> writable e.
Proof.
  unfold check_writable. intros H. apply rbind_Ok_inv in H as ([] & Hr & H). apply check_readable_Ok in Hr as (? & ? & ?). inv_ok. boolp. rewrite bool_decide_eq_false in *.
  constructor; auto. destruct (e_job e); [discriminate | reflexivity].
Qed.

Lemma runs_guarded {B} f (k : unit -> eff (Engine D Q) engine.Error B) e Post :
  safe (f e) -> (f e = Ok tt -> runs (k tt) e Post) -> (forall err, f e = Err err -> Post (Err err) e) -> runs (ebind (guarded f) k) e Post.
Proof. unfold runs, ebind, guarded. intros Hs Ho He. destruct (f e) as [[]|err|]; [apply Ho | apply He | congruence]; reflexivity. Qed.

(** ** Data operations *)

Lemma admit_step {E} p evs c k (m : res E (Z * Pipeline Q)) t p' : reach try_reserve p evs -> call_ok p c -> exec try_reserve p c = issue p k m -> m = Ok (t, p') ->
  (forall V : live p evs, admits (evs := evs) k m) -> (failed p evs -> exists err, m = Err err) -> (free_in_table p -> calm p p') ->
  reach try_reserve p' (evs ++ [Issued t k]) /\ calm p p' /\ p_queue_failed p' = p_queue_failed p /\ (forall w, control_ok p w -> control_ok p' w).
Proof.
  intros Hr Hc He Hm Ha Hf Hcalm. destruct (reach_good _ _ _ Hr) as [V|F]; [|destruct (Hf F); congruence]. specialize (Ha V). rewrite Hm in Ha. cbn [admits] in Ha.
  specialize (Hcalm (live_free p evs V)). split; [eapply reach_call; [eassumption.. | rewrite He, Hm; reflexivity]|]. split; [assumption|].
  split; [rewrite (k_live _ (v_ok _ _ V)), (k_live _ (v_ok _ _ Ha)); reflexivity|]. intros w Hw. eapply calm_control; eassumption.
Qed.

(** A pipeline in which an operation was admitted takes the place of the old one. *)
Lemma admitted_ok e evs evs' p' : engine_ok try_reserve e evs -> reach try_reserve p' evs' -> calm (e_pipeline e) p' -> p_queue_failed p' = p_queue_failed (e_pipeline e) ->
  (forall w, control_ok (e_pipeline e) w -> control_ok p' w) -> engine_ok try_reserve (e_set_pipeline p' e) evs'.
Proof.
  intros [G J] Hr [Hs Hx Hm _ _] Hq Hc. split; [eapply core_frame; efields; eauto; apply Hs|]. efields. destruct (e_job e) as [j|].
  - destruct J as [J1 (w & J2 & J3 & J4) J5 J6 J7]. constructor; efields; rewrite ?Hq; auto; [congruence|]. exists w. split; [assumption|]. split; [auto|]. eapply work_frame; efields; eauto.
  - destruct J as (J1 & J2 & J3 & J4 & J5). rewrite Hq. auto 6.
Qed.

Lemma write_ok e evs b buf t p' : engine_ok try_reserve e evs -> builder_ok b -> write try_reserve (e_pipeline e) b buf = Ok (t, p') ->
  engine_ok try_reserve (e_set_pipeline p' e) (evs ++ [Issued t KWrite]).
Proof.
  intros Hok Hb Hw. pose proof (g_reach _ _ _ (n_core _ _ _ Hok)) as Hr.
  destruct (admit_step (e_pipeline e) evs (CallWrite b buf) KWrite _ t p' Hr Hb eq_refl Hw) as (H1 & H2 & H3 & H4);
    [intros V; apply (write_admits try_reserve V); assumption | intros F; apply (failed_admission_calls try_reserve _ evs F) | intros Hf; eapply write_calm; eassumption|].
  eapply admitted_ok; eassumption.
Qed.

Lemma write_prepared_ok e evs k lsn vl buf t p' : engine_ok try_reserve e evs -> chunk_id_ok k /\ is_u64 lsn /\ is_u32 vl ->
  write_prepared try_reserve (e_pipeline e) k lsn vl buf = Ok (t, p') -> engine_ok try_reserve (e_set_pipeline p' e) (evs ++ [Issued t KWrite]).
Proof.
  intros Hok Hb Hw. pose proof (g_reach _ _ _ (n_core _ _ _ Hok)) as Hr.
  destruct (admit_step (e_pipeline e) evs (CallWritePrepared k lsn vl buf) KWrite _ t p' Hr Hb eq_refl Hw) as (H1 & H2 & H3 & H4);
    [intros V; destruct Hb as (? & ? & ?); apply (write_prepared_admits try_reserve V); assumption | intros F; apply (failed_admission_calls try_reserve _ evs F) |
     intros Hf; eapply write_prepared_calm; eassumption|].
  eapply admitted_ok; eassumption.
Qed.

Lemma read_ok e evs k range verify bufs t p' : engine_ok try_reserve e evs -> 0 <= range.1 -> read (e_pipeline e) k range verify bufs = Ok (t, p') ->
  engine_ok try_reserve (e_set_pipeline p' e) (evs ++ [Issued t KRead]).
Proof.
  intros Hok Hb Hw. pose proof (g_reach _ _ _ (n_core _ _ _ Hok)) as Hr.
  destruct (admit_step (e_pipeline e) evs (CallRead k range verify bufs) KRead _ t p' Hr Hb eq_refl Hw) as (H1 & H2 & H3 & H4);
    [intros V; apply (read_admits V); assumption | intros F; apply (failed_admission_calls try_reserve _ evs F) | intros Hf; eapply read_calm; eassumption|].
  eapply admitted_ok; eassumption.
Qed.

Lemma flush_ok e evs t p' : engine_ok try_reserve e evs -> flush (e_pipeline e) = Ok (t, p') -> engine_ok try_reserve (e_set_pipeline p' e) (evs ++ [Issued t KFlush]).
Proof.
  intros Hok Hw. pose proof (g_reach _ _ _ (n_core _ _ _ Hok)) as Hr.
  destruct (admit_step (e_pipeline e) evs CallFlush KFlush _ t p' Hr I eq_refl Hw) as (H1 & H2 & H3 & H4);
    [intros V; apply (flush_admits V) | intros F; apply (failed_admission_calls try_reserve _ evs F) | intros Hf; eapply flush_calm; eassumption|].
  eapply admitted_ok; eassumption.
Qed.

(** ** Lifecycle requests *)

(** The slot an automatic rollover takes. *)
Lemma skip_used_spec fuel : forall used next segments, len used = segments -> 0 <= next <= segments -> segments - next <= Z.of_nat fuel ->
  exists n, skip_used fuel used next segments = Ok n /\ next <= n <= segments /\ (forall i, next <= i < n -> used !! Z.to_nat i = Some true) /\
    (n < segments -> used !! Z.to_nat n = Some false).
Proof.
  induction fuel as [|fuel IH]; intros used next segments Hl Hn Hf; cbn [skip_used].
  { exists next. split; [reflexivity|]. split; [lia|]. split; intros; lia. }
  destruct (Z.ltb_spec next segments) as [Hlt|Hge]; [|exists next; split; [reflexivity|]; split; [lia|]; split; intros; lia].
  unfold index_get. destruct (lookup_lt_is_Some_2 used (Z.to_nat next)) as [u Hu]; [unfold len in Hl; lia|]. rewrite (proj2 (Z.leb_le 0 next)) by lia. rewrite Hu. cbn [expect rbind].
  destruct u; [|exists next; split; [reflexivity|]; split; [lia|]; split; [intros; lia | auto]].
  destruct (IH used (next + 1) segments Hl ltac:(lia) ltac:(lia)) as (n & -> & Hb & Hall & Hfree). exists n. split; [reflexivity|]. split; [lia|]. split; [|assumption].
  intros i Hi. destruct (Z.eq_dec i next) as [->|]; [assumption | apply Hall; lia].
Qed.

Lemma ticket_ok e evs t p' : engine_ok try_reserve e evs -> next_ticket (e_pipeline e) = Ok (t, p') -> engine_ok try_reserve (e_set_pipeline p' e) evs.
Proof.
  intros Hok Ht. unfold next_ticket in Ht. inv_ok. subst.
  apply (admitted_ok e evs); auto; [|apply calm_quiet; reflexivity]. apply (reach_quiet try_reserve (e_pipeline e) evs CallNextTicket); [apply (g_reach _ _ _ (n_core _ _ _ Hok)) | exact I|].
  cbn [exec]. unfold next_ticket. match goal with H : (_ =? U64_MAX) = false |- _ => rewrite H end. reflexivity.
Qed.

Lemma runs_ticket {B} (k : Z -> eff (Engine D Q) engine.Error B) e evs Post : engine_ok try_reserve e evs ->
  (forall t p', engine_ok try_reserve (e_set_pipeline p' e) evs -> runs (k t) (e_set_pipeline p' e) Post) -> (forall err, Post (Err (engine.Pipeline err)) e) -> runs (ebind take_ticket k) e Post.
Proof.
  intros Hok Hk He. unfold runs, ebind, take_ticket. destruct (next_ticket (e_pipeline e)) as [[t p']|err|] eqn:Ht; [|apply He|].
  - apply Hk. eapply ticket_ok; eassumption.
  - unfold next_ticket in Ht. destruct (fail_if _ _) eqn:Hf; try discriminate. destruct (safe_fail_if _ _ Hf).
Qed.

Lemma segment_base_inv l n base : segment_base l n = Ok base -> n < l_segments l.
Proof. intros H. destruct (Z.lt_ge_cases n (l_segments l)) as [|Hge]; [assumption|]. rewrite segment_base_out in H by assumption. discriminate. Qed.

(** A transition begins. *)
Lemma begin_ok e evs s ticket kind next : engine_ok try_reserve e evs -> e_job e = None -> (s = state.Failed -> p_queue_failed (e_pipeline e) = true) ->
  (s = state.Closing -> kind = lifecycle.Close) -> s <> state.Closed -> kind <> lifecycle.Open ->
  (forall l n, e_layout e = Some l -> next = Some n -> 0 <= n < l_segments l /\ e_used e !! Z.to_nat n = Some false) ->
  engine_ok try_reserve (e_set_job (Some (Job_transition ticket kind next)) (e_set_pipeline (set_maintenance true (e_pipeline e)) (e_set_state s e))) evs.
Proof.
  intros [G J] Hj Hf Hc Hcd Hk Hn. rewrite Hj in J. destruct J as (J1 & _). destruct (maintenance_step try_reserve (e_pipeline e) evs true (g_reach _ _ _ G) J1) as [Hr Hc1].
  split; [eapply core_frame; efields; eauto|]. efields. constructor; efields; auto. exists None. split; [reflexivity|]. split; [assumption|]. split; [assumption|].
  constructor; cbn; try discriminate; [exact Hn | congruence].
Qed.

Lemma e_set_state_same e : e_set_state (e_state e) e = e.
Proof. destruct e. reflexivity. Qed.

Definition requested evs (ticket : option Z) (kind : lifecycle.Lifecycle) {A} (r : eresult A) e' : Prop :=
  engine_ok try_reserve e' evs /\ match r with Ok _ => pending_lifecycle e' = option_list ((fun t => (t, kind)) <$> ticket) | _ => e_job e' = None end.

Lemma start_rollover_ok e evs number ticket : engine_ok try_reserve e evs -> writable e -> (forall n, number = Some n -> 0 <= n) ->
  runs (start_rollover number ticket) e (requested evs ticket lifecycle.Rollover).
Proof.
  intros Hok [Ho (Hs1 & Hs2 & Hs3) Hj] Hnum. pose proof (n_core _ _ _ Hok) as G. destruct (g_opened _ _ _ G Ho) as [l Hl]. destruct (g_layout _ _ _ G l Hl) as (Hlok & _ & Hlen).
  assert (Hfin : forall n e1, engine_ok try_reserve e1 evs -> e_job e1 = None -> e_state e1 = e_state e -> e_layout e1 = Some l -> e_used e1 = e_used e -> 0 <= n ->
    runs (let! _ := lift (segment_base l n) in let! used := reads e_used in let! taken := lift (index_get used n) in
          lift (fail_if taken (engine.InvalidArgument "segment is already allocated")) ;! modify (fun e => e_set_pipeline (set_maintenance true (e_pipeline e)) e) ;!
          modify (e_set_job (Some (Job_transition ticket lifecycle.Rollover (Some n))))) e1 (requested evs ticket lifecycle.Rollover)).
  { intros n e1 Hok1 Hj1 Hst1 Hl1 Hu1 Hn0. apply runs_lift_bind; [apply segment_base_safe | | intros; split; assumption]. intros base Hb. apply segment_base_inv in Hb.
    apply runs_reads. rewrite Hu1. unfold index_get. rewrite (proj2 (Z.leb_le 0 n)) by lia.
    destruct (lookup_lt_is_Some_2 (e_used e) (Z.to_nat n)) as [u Hu]; [unfold len in Hlen; lia|]. rewrite Hu. apply (runs_expect _ u); [reflexivity|].
    apply runs_lift_bind; [apply safe_fail_if | | intros; split; assumption]. intros a Hf. apply fail_if_Ok in Hf. rewrite Hf in Hu. apply runs_modify. unfold runs, modify.
    split; [|reflexivity]. rewrite <- (e_set_state_same e1) at 2. apply begin_ok; auto; rewrite ?Hst1; try congruence; try discriminate.
    intros l' n' Hl' [= <-]. rewrite Hu1. split; [assert (l' = l) as -> by congruence; lia | assumption]. }
  unfold start_rollover. apply runs_reads. apply (runs_expect _ l); [assumption|]. destruct number as [n|].
  - apply Hfin; auto.
  - apply runs_assoc. apply runs_reads. apply runs_assoc. pose proof (g_next _ _ _ G) as Hnx. rewrite Hl in Hnx.
    destruct (skip_used_spec (Z.to_nat (l_segments l)) (e_used e) (e_next e) (l_segments l) Hlen Hnx ltac:(lia)) as (n & -> & Hb & _ & _).
    apply runs_lift_bind; [apply safe_Ok | intros ? [= <-] | discriminate]. apply runs_assoc, runs_modify, runs_assoc.
    assert (Hok1 : engine_ok try_reserve (e_set_next n e) evs).
    { destruct Hok as [[H1 H2 H3 H4 H5 H6 H7] J]. rewrite Hj in J. split; [constructor; efields; auto; rewrite Hl; lia | efields; rewrite Hj; exact J]. }
    apply runs_lift_bind; [apply safe_fail_if | | intros; split; assumption]. intros _ _. apply (Hfin n (e_set_next n e)); auto; efields; auto; lia.
Qed.

(** A request with a ticket: its own on success, none on refusal. *)
Definition ticketed evs (kind : lifecycle.Lifecycle) e0 (r : eresult Z) e : Prop :=
  engine_ok try_reserve e evs /\ match r with Ok t => pending_lifecycle e0 = [] /\ pending_lifecycle e = [(t, kind)] | _ => pending_lifecycle e = pending_lifecycle e0 end.

Lemma no_job_pending e : e_job e = None -> pending_lifecycle e = [].
Proof. unfold pending_lifecycle. intros ->. reflexivity. Qed.

Lemma rollover_with_ok e evs number : engine_ok try_reserve e evs -> (forall n, number = Some n -> 0 <= n) ->
  runs (rollover_with number) e (ticketed evs lifecycle.Rollover e).
Proof.
  intros Hok Hn. apply runs_guarded; [apply check_writable_safe | | intros; split; auto]. intros Hw. apply check_writable_Ok in Hw.
  pose proof (no_job_pending e (wr_job _ Hw)) as Hp. eapply runs_ticket; [exact Hok | | intros; split; auto]. intros t p' Hok'. apply runs_bind.
  eapply runs_mono; [apply (start_rollover_ok _ evs); [exact Hok' | destruct Hw; constructor; assumption | assumption]|].
  intros [[]|err|] e' Hs [H1 H2]; [|split; [assumption | rewrite Hp; apply no_job_pending; assumption] | congruence]. apply runs_eret. split; auto.
Qed.

Lemma engine_seal_ok e evs : engine_ok try_reserve e evs -> runs engine_seal e (ticketed evs lifecycle.Seal e).
Proof.
  intros Hok. apply runs_guarded; [apply check_writable_safe | | intros; split; auto]. intros Hw. apply check_writable_Ok in Hw. destruct Hw as [Ho (Hs1 & Hs2 & Hs3) Hj].
  pose proof (no_job_pending e Hj) as Hp. eapply runs_ticket; [exact Hok | | intros; split; auto]. intros t p' Hok'. do 2 apply runs_modify. apply runs_eret. split; [|auto].
  rewrite <- (e_set_state_same (e_set_pipeline p' e)) at 2. apply begin_ok; auto; try discriminate; efields; congruence.
Qed.

Lemma close_ok e evs : engine_ok try_reserve e evs -> runs close e (ticketed evs lifecycle.Close e).
Proof.
  intros Hok. apply runs_guarded; [apply safe_fail_if | | intros; split; auto]. intros Hw. apply fail_if_Ok in Hw. unfold close_refused in Hw. boolp.
  assert (Hj : e_job e = None) by (destruct (e_job e); [discriminate | reflexivity]). pose proof (no_job_pending e Hj) as Hp.
  eapply runs_ticket; [exact Hok | | intros; split; auto]. intros t p' Hok'. do 3 apply runs_modify. apply runs_eret. split; [|auto]. apply (begin_ok (e_set_pipeline p' e)); auto; discriminate.
Qed.

(** ** Writes *)

Definition submitted evs e0 (r : res (engine.Error * Buffer) Z) e : Prop :=
  pending_lifecycle e = pending_lifecycle e0 /\
  match r with Ok t => engine_ok try_reserve e (evs ++ [Issued t KWrite]) | _ => engine_ok try_reserve e evs end.

Lemma roll_and_refuse_ok e evs buf : engine_ok try_reserve e evs -> writable e -> runs (roll_and_refuse buf) e (submitted evs e).
Proof.
  intros Hok Hw. pose proof (start_rollover_ok e evs None None Hok Hw ltac:(discriminate)) as H. unfold roll_and_refuse, with_input, runs, ebind, lift in *.
  pose proof (no_job_pending e (wr_job _ Hw)) as Hp. destruct (start_rollover None None e) as [[u|err|] e']; [| |destruct H]; cbn [map_err]; destruct H as [H1 H2]; (split; [rewrite Hp|]); auto.
  apply no_job_pending. assumption.
Qed.

Lemma engine_submit_ok e evs buf submit : engine_ok try_reserve e evs ->
  (writable e -> is_Some (e_active e) -> match submit (e_pipeline e) buf with Ok (t, p') => engine_ok try_reserve (e_set_pipeline p' e) (evs ++ [Issued t KWrite]) | Err _ => True | Panic => False end) ->
  runs (engine_submit buf submit) e (submitted evs e).
Proof.
  intros Hok Hs. unfold engine_submit. apply runs_bind. pose proof (check_writable_safe e) as Hsafe. unfold runs at 1, with_input, guarded.
  destruct (check_writable e) as [[]|err|] eqn:Hw; cbn [map_err]; [|split; auto | congruence]. apply check_writable_Ok in Hw. apply runs_reads. destruct (e_active e) as [n|].
  - specialize (Hs Hw ltac:(eauto)). destruct (submit (e_pipeline e) buf) as [[t p']|[err b]|]; [| |destruct Hs].
    + apply runs_modify, runs_eret. split; [reflexivity | assumption].
    + destruct (_ && _); [apply roll_and_refuse_ok; assumption|]. apply runs_lift; [discriminate | split; auto].
  - destruct (writes_pending _); [apply runs_lift; [discriminate | split; auto] | apply roll_and_refuse_ok; assumption].
Qed.

Lemma engine_write_ok e evs b buf : engine_ok try_reserve e evs -> builder_ok b -> runs (engine_write try_reserve b buf) e (submitted evs e).
Proof.
  intros Hok Hb. apply engine_submit_ok; [assumption|]. intros _ _. pose proof (g_reach _ _ _ (n_core _ _ _ Hok)) as Hr.
  pose proof (exec_returns try_reserve _ evs (CallWrite b buf) Hr Hb) as Hn. cbn [exec] in Hn. destruct (write try_reserve (e_pipeline e) b buf) as [[t p']|err|] eqn:Hw; [|exact I | cbn in Hn; congruence].
  eapply write_ok; eassumption.
Qed.

Lemma engine_write_prepared_ok e evs k lsn vl buf : engine_ok try_reserve e evs -> chunk_id_ok k /\ is_u64 lsn /\ is_u32 vl ->
  runs (engine_write_prepared try_reserve k lsn vl buf) e (submitted evs e).
Proof.
  intros Hok Hb. apply engine_submit_ok; [assumption|]. intros _ _. pose proof (g_reach _ _ _ (n_core _ _ _ Hok)) as Hr.
  pose proof (exec_returns try_reserve _ evs (CallWritePrepared k lsn vl buf) Hr Hb) as Hn. cbn [exec] in Hn.
  destruct (write_prepared try_reserve (e_pipeline e) k lsn vl buf) as [[t p']|err|] eqn:Hw; [|exact I | cbn in Hn; congruence]. eapply write_prepared_ok; eassumption.
Qed.

(** ** Reads and barriers *)

Definition accepted_op {E} evs (k : Kind) e0 (r : res E (Z * Engine D Q)) : Prop :=
  match r with Ok (t, e) => engine_ok try_reserve e (evs ++ [Issued t k]) /\ pending_lifecycle e = pending_lifecycle e0 | Err _ => True | Panic => False end.

Lemma engine_read_ok e evs k range verify bufs : engine_ok try_reserve e evs -> 0 <= range.1 -> accepted_op evs KRead e (engine_read e k range verify bufs).
Proof.
  intros Hok Hb. unfold engine_read. pose proof (check_readable_safe e) as Hs. destruct (check_readable e) as [[]|err|]; cbn [map_err rbind]; [|exact I | congruence].
  pose proof (exec_returns try_reserve _ evs (CallRead k range verify bufs) (g_reach _ _ _ (n_core _ _ _ Hok)) Hb) as Hn. cbn [exec] in Hn.
  destruct (read (e_pipeline e) k range verify bufs) as [[t p']|err|] eqn:Hw; cbn [map_err rbind]; [|exact I | cbn in Hn; congruence]. split; [eapply read_ok; eassumption | reflexivity].
Qed.

Lemma engine_flush_ok e evs : engine_ok try_reserve e evs -> accepted_op evs KFlush e (engine_flush e).
Proof.
  intros Hok. unfold engine_flush. pose proof (check_writable_safe e) as Hs. destruct (check_writable e) as [[]|err|]; cbn [rbind]; [|exact I | congruence].
  pose proof (exec_returns try_reserve _ evs CallFlush (g_reach _ _ _ (n_core _ _ _ Hok)) I) as Hn. cbn [exec] in Hn.
  destruct (flush (e_pipeline e)) as [[t p']|err|] eqn:Hw; cbn [perr map_err rbind]; [|exact I | cbn in Hn; congruence]. split; [eapply flush_ok; eassumption | reflexivity].
Qed.

(** ** Opening *)

Lemma vacant_nil (q : Q) : queue_ok q -> vacant q = depth q -> accepted q = [].
Proof. intros Hq Hv. destruct (vacant_accepted _ Hq) as [Ha _]. destruct (accepted q); [reflexivity|]. rewrite len_cons in Ha. pose proof (len_nonneg l). lia. Qed.

Record open_ok (d : D) (q : Q) (o : Options) : Prop := {
  oo_queue : queue_ok q;
  oo_capacity : forall c, dev_capacity d = inr c -> c < 2 ^ 62;
  oo_resources : 0 <= rl_index_entries (o_resources o) < U64_MAX /\ 0 <= rl_pending_records (o_resources o) < U64_MAX;
  oo_poll : 0 <= pb_operations (o_poll o) /\ 0 <= pb_bytes (o_poll o) /\ 0 <= pb_records (o_poll o)
}.

Lemma open_establishes identity d q o : open_ok d q o ->
  match open_with_options identity d q o with
  | Ok (e, t) => engine_ok try_reserve e [] /\ pending_lifecycle e = [(t, lifecycle.Open)] /\ e_state e = state.Opening
  | Err _ => True
  | Panic => False
  end.
Proof.
  intros [Hq Hc (Hr1 & Hr2) (Hp1 & Hp2 & Hp3)]. unfold open_with_options, io_err. destruct (dev_capacity d) as [err|cap] eqn:Hcap; cbn [rbind]; [exact I|]. specialize (Hc cap eq_refl).
  destruct (FrameLimits_new 4096 0) as [limits|err|] eqn:Hl; cbn [map_err rbind]; [|exact I | vm_compute in Hl; discriminate].
  destruct (FrameLimits_new_fields 4096 0 limits ltac:(unfold is_u32; lia) ltac:(unfold is_u32; lia) Hl) as (Hlok & _).
  assert (Hps : safe (Pipeline_empty q limits)) by (unfold Pipeline_empty; safe_steps). destruct (Pipeline_empty q limits) as [p|err|] eqn:Hp; cbn [perr map_err rbind]; [|exact I | congruence].
  assert (R0 : reach try_reserve p []) by (apply reach_start; eapply built_empty; eassumption).
  pose proof (exec_returns try_reserve p [] (CallConfigure (o_resources o) (o_poll o)) R0 ltac:(repeat split; lia)) as Hn. cbn [exec] in Hn.
  destruct (configure p (o_resources o) (o_poll o)) as [p1|err|] eqn:H1; cbn [perr map_err rbind]; [|exact I | cbn in Hn; congruence]. clear Hn.
  assert (R1 : reach try_reserve p1 []) by (apply (reach_quiet try_reserve p [] (CallConfigure (o_resources o) (o_poll o)) p1 R0); [repeat split; lia | cbn [exec]; rewrite H1; reflexivity]).
  set (p2 := set_sync_enabled (bool_decide (o_sync_mode o = SyncEnabled)) p1).
  assert (R2 : reach try_reserve p2 []) by (apply (reach_quiet try_reserve p1 [] (CallSetSync (bool_decide (o_sync_mode o = SyncEnabled))) p2 R1 I); reflexivity).
  pose proof (exec_returns try_reserve p2 [] CallNextTicket R2 I) as Hn. cbn [exec] in Hn.
  destruct (next_ticket p2) as [[t p3]|err|] eqn:H3; cbn [map_err rbind]; [|exact I | cbn in Hn; congruence]. clear Hn.
  assert (R3 : reach try_reserve p3 []) by (apply (reach_quiet try_reserve p2 [] CallNextTicket p3 R2 I); cbn [exec]; rewrite H3; reflexivity).
  assert (Hfresh : p_segment p3 = None /\ tally p3 = [] /\ p_queue_failed p3 = false).
  { destruct (empty_live q limits p Hq Hlok Hp) as (V & _ & Hs & _). unfold next_ticket in H3. unfold configure in H1. inv_ok. subst p3 p2 p1. fields.
    unfold Pipeline_empty in Hp. inv_ok. subst p. fields. boolp. split; [reflexivity|]. split; [|reflexivity]. unfold tally. fields. cbn. rewrite app_nil_r. apply (f_equal (List.filter is_control) (vacant_nil q Hq ltac:(assumption))). }
  destruct Hfresh as (Hs & Ht & Hf). destruct (maintenance_step try_reserve p3 [] true R3 ltac:(intros _; exact Ht)) as [R4 C4]. split; [|auto]. split.
  - constructor; efields; auto; try discriminate.
  - efields. constructor; efields; auto; try discriminate. exists None. split; [reflexivity|]. split; [assumption|]. split; [reflexivity|].
    constructor; cbn; auto; try discriminate; lia.
Qed.
End Calls.
