(* ===== verification/EngineMachine.v ===== *)
(** * The owner as a state machine

    Every sequence of calls on an opened device, as a step relation, and the
    properties of every reachable owner and history: no panic, the pipeline's
    contract seen from outside, one report per lifecycle request, slots
    allocated once, and the terminal states. *)

From stdpp Require Import gmap sorting.
From S2P Require Import Prelude Align ChunkId Checksum Codec FrameFormat FrameDecode FrameBuilder FrameBuilderProofs SegmentFormat SegmentBuilder.
From S2P Require Import Io Index PipelineState Pipeline PipelineTable PipelineInv PipelineLemmas PipelineTrace PipelineAdmit PipelinePoll PipelineSafe PipelineControl.
From S2P Require Import Layout LayoutProofs EngineState EngineRecovery Engine EngineInv EngineRecoverySafe EngineSafe EngineDrive EngineCalls.

(** The caller's requests. *)
Inductive request_of_owner :=
| OwnerWrite (b : FrameBuilder) (buf : Buffer)
| OwnerWritePrepared (k : ChunkId) (lsn value_len : Z) (buf : Buffer)
| OwnerRead (k : ChunkId) (range : Z * Z) (verify : bool) (buffers : ReadBuffers)
| OwnerFlush
| OwnerSeal
| OwnerRollover
| OwnerRolloverTo (number : Z)
| OwnerClose
| OwnerPoll (wait : bool).

(** What a caller sees: tickets handed out, and completions. *)
Inductive happening :=
| Accepted (t : Z) (k : Kind)
| Started (t : Z) (k : lifecycle.Lifecycle)
| Reported (c : EngineCompletion).

Definition data_event (x : happening) : option event :=
  match x with
  | Accepted t k => Some (Issued t k)
  | Started _ _ => None
  | Reported c => Finished <$> into_pipeline c
  end.
Definition data_events (h : list happening) : list event := omap data_event h.
Definition lifecycle_started (h : list happening) : list (Z * lifecycle.Lifecycle) := omap (fun x => match x with Started t k => Some (t, k) | _ => None end) h.
Definition lifecycle_reported (h : list happening) : list (Z * lifecycle.Lifecycle) :=
  omap (fun x => match x with Reported (ELifecycle t k _) => Some (t, k) | _ => None end) h.

Section Machine.
Context {D Q : Type} {DI : Device D} {QI : Queue Q} {C : CrcFast} (try_reserve : Z -> bool) (extent_bytes : Z).
Implicit Types e : Engine D Q.

Definition attempt {E} (f : Z -> happening) (r : res E Z * Engine D Q) : option (Engine D Q * list happening) :=
  match r with (Ok t, e) => Some (e, [f t]) | (Err _, e) => Some (e, []) | (Panic, _) => None end.
Definition offer {E} e (k : Kind) (r : res E (Z * Engine D Q)) : option (Engine D Q * list happening) :=
  match r with Ok (t, e) => Some (e, [Accepted t k]) | Err _ => Some (e, []) | Panic => None end.

(** The owner after a request and what the caller saw; [None] is a panic. *)
Definition perform e (c : request_of_owner) : option (Engine D Q * list happening) :=
  match c with
  | OwnerWrite b buf => attempt (fun t => Accepted t KWrite) (engine_write try_reserve b buf e)
  | OwnerWritePrepared k lsn vl buf => attempt (fun t => Accepted t KWrite) (engine_write_prepared try_reserve k lsn vl buf e)
  | OwnerRead k range verify buffers => offer e KRead (engine_read e k range verify buffers)
  | OwnerFlush => offer e KFlush (engine_flush e)
  | OwnerSeal => attempt (fun t => Started t lifecycle.Seal) (engine_seal e)
  | OwnerRollover => attempt (fun t => Started t lifecycle.Rollover) (rollover e)
  | OwnerRolloverTo n => attempt (fun t => Started t lifecycle.Rollover) (rollover_to n e)
  | OwnerClose => attempt (fun t => Started t lifecycle.Close) (close e)
  | OwnerPoll wait =>
      match engine_poll try_reserve extent_bytes e wait [] with
      | Ok (_, e, out) => Some (e, Reported <$> out)
      | Err _ => None
      | Panic => None
      end
  end.

(** Arguments within their types. *)
Definition request_ok (c : request_of_owner) : Prop :=
  match c with
  | OwnerWrite b _ => builder_ok b
  | OwnerWritePrepared k lsn vl _ => chunk_id_ok k /\ is_u64 lsn /\ is_u32 vl
  | OwnerRead _ range _ _ => 0 <= range.1
  | OwnerRolloverTo n => 0 <= n
  | _ => True
  end.

Context {QS : QueueSpec Q}.

Inductive owner : Engine D Q -> list happening -> Prop :=
| owner_open identity d q o e t : open_ok d q o -> open_with_options identity d q o = Ok (e, t) -> owner e [Started t lifecycle.Open]
| owner_perform e h c e' new : owner e h -> request_ok c -> perform e c = Some (e', new) -> owner e' (h ++ new).

Context {CS : CrcFastSpec C}.

(** ** Histories *)

Lemma data_events_app h1 h2 : data_events (h1 ++ h2) = data_events h1 ++ data_events h2.
Proof. apply omap_app. Qed.
Lemma lifecycle_started_app h1 h2 : lifecycle_started (h1 ++ h2) = lifecycle_started h1 ++ lifecycle_started h2.
Proof. apply omap_app. Qed.
Lemma lifecycle_reported_app h1 h2 : lifecycle_reported (h1 ++ h2) = lifecycle_reported h1 ++ lifecycle_reported h2.
Proof. apply omap_app. Qed.

Lemma data_events_reported cs : data_events (Reported <$> cs) = map Finished (omap into_pipeline cs).
Proof. induction cs as [|c cs IH]; [reflexivity|]. cbn. destruct (into_pipeline c); cbn; rewrite <- IH; reflexivity. Qed.
Lemma started_reported cs : lifecycle_started (Reported <$> cs) = [].
Proof. induction cs as [|c cs IH]; [reflexivity|]. exact IH. Qed.
Lemma reported_reported cs : lifecycle_reported (Reported <$> cs) = reported cs.
Proof. induction cs as [|c cs IH]; [reflexivity|]. destruct c; cbn; [f_equal|..]; exact IH. Qed.

(** ** The invariant of reachable owners *)

Record owner_ok e (h : list happening) : Prop := {
  own_engine : engine_ok try_reserve e (data_events h);
  own_lifecycle : lifecycle_started h = lifecycle_reported h ++ pending_lifecycle e
}.

(** A request's outcome: the history it adds agrees with the owner's. *)
Definition performed e (h : list happening) (r : option (Engine D Q * list happening)) : Prop :=
  match r with Some (e', new) => owner_ok e' (h ++ new) | None => False end.

Lemma attempt_lifecycle e h kind (r : eresult Z * Engine D Q) : owner_ok e h ->
  match r with (Panic, _) => False | (x, e') => ticketed try_reserve (data_events h) kind e x e' end -> performed e h (attempt (fun t => Started t kind) r).
Proof.
  intros [Ho Hl] H. destruct r as [[t|err|] e']; [| |destruct H]; destruct H as [Hok Hp]; cbn [attempt performed].
  - destruct Hp as [Hp0 Hp1]. split; [rewrite data_events_app; cbn; rewrite app_nil_r; assumption|].
    rewrite lifecycle_started_app, lifecycle_reported_app, Hl, Hp0, Hp1. cbn. rewrite !app_nil_r. reflexivity.
  - rewrite app_nil_r. split; [assumption | rewrite Hp; assumption].
Qed.

Lemma attempt_write e h (r : res (engine.Error * Buffer) Z * Engine D Q) : owner_ok e h ->
  match r with (Panic, _) => False | (x, e') => submitted try_reserve (data_events h) e x e' end -> performed e h (attempt (fun t => Accepted t KWrite) r).
Proof.
  intros [Ho Hl] H. destruct r as [[t|err|] e']; [| |destruct H]; destruct H as [Hp Hok]; cbn [attempt performed].
  - split; [rewrite data_events_app; assumption|]. rewrite lifecycle_started_app, lifecycle_reported_app, Hp, Hl. cbn. rewrite !app_nil_r. reflexivity.
  - rewrite app_nil_r. split; [assumption | rewrite Hp; assumption].
Qed.

Lemma offer_ok {E} e h k (r : res E (Z * Engine D Q)) : owner_ok e h -> accepted_op try_reserve (data_events h) k e r -> performed e h (offer e k r).
Proof.
  intros [Ho Hl] H. destruct r as [[t e']|err|]; [| |destruct H]; cbn [offer performed].
  - destruct H as [Hok Hp]. split; [rewrite data_events_app; assumption|]. rewrite lifecycle_started_app, lifecycle_reported_app, Hp, Hl. cbn. rewrite !app_nil_r. reflexivity.
  - rewrite app_nil_r. split; assumption.
Qed.

Lemma perform_ok e h c : owner_ok e h -> request_ok c -> performed e h (perform e c).
Proof.
  intros O Hc. pose proof (own_engine _ _ O) as Ho. destruct c; cbn [perform request_ok] in *.
  - apply attempt_write; [assumption|]. apply (engine_write_ok try_reserve); assumption.
  - apply attempt_write; [assumption|]. apply (engine_write_prepared_ok try_reserve); assumption.
  - apply offer_ok; [assumption|]. apply engine_read_ok; assumption.
  - apply offer_ok; [assumption|]. apply engine_flush_ok; assumption.
  - apply attempt_lifecycle; [assumption|]. apply (engine_seal_ok try_reserve); assumption.
  - apply attempt_lifecycle; [assumption|]. apply (rollover_with_ok try_reserve); [assumption | discriminate].
  - apply attempt_lifecycle; [assumption|]. apply (rollover_with_ok try_reserve); [assumption | intros n [= <-]; assumption].
  - apply attempt_lifecycle; [assumption|]. apply (close_ok try_reserve); assumption.
  - destruct (engine_poll_ok try_reserve extent_bytes e (data_events h) wait [] Ho) as (e' & cs & -> & Hok & Hp). cbn [app performed].
    split; [rewrite data_events_app, data_events_reported; assumption|].
    rewrite lifecycle_started_app, lifecycle_reported_app, started_reported, reported_reported, (own_lifecycle _ _ O), Hp, app_nil_r, app_assoc. reflexivity.
Qed.

Lemma owner_sound e h : owner e h -> owner_ok e h.
Proof.
  induction 1 as [identity d q o e t Ho He | e h c e' new _ IH Hc Hp].
  - pose proof (open_establishes try_reserve identity d q o Ho) as H. rewrite He in H. destruct H as (Hok & Hp & _). split; [exact Hok | rewrite Hp; reflexivity].
  - pose proof (perform_ok e h c IH Hc) as H. rewrite Hp in H. exact H.
Qed.
End Machine.
