(* ===== verification/EngineTheorems.v ===== *)
(** * Properties of reachable owners

    Stated of every history of requests on an opened device. *)

From stdpp Require Import gmap sorting.
From S2P Require Import Prelude Align ChunkId Checksum Codec FrameFormat FrameDecode FrameBuilder SegmentFormat SegmentBuilder.
From S2P Require Import Io Index PipelineState Pipeline PipelineTable PipelineInv PipelineLemmas PipelineTrace PipelineAdmit PipelinePoll PipelineSafe PipelineControl.
From S2P Require Import Layout LayoutProofs EngineState EngineRecovery Engine EngineInv EngineRecoverySafe EngineSafe EngineDrive EngineCalls EngineMachine.

Section Theorems.
Context {D Q : Type} {DI : Device D} {QI : Queue Q} {QS : QueueSpec Q} {C : CrcFast} {CS : CrcFastSpec C} (try_reserve : Z -> bool) (extent_bytes : Z).
Implicit Types e : Engine D Q.
Abbreviation owner := (owner try_reserve extent_bytes).
Abbreviation perform := (perform try_reserve extent_bytes).

(** C5: for a device of less than 2^62 bytes, resource limits below the 64-bit maximum and requests whose
    arguments are in their types' ranges, whatever was requested before, every request of an owner returns: no expected
    value is missing in any stage of opening, rolling over, sealing or closing, no slot number is out of range, and
    polling reports no error. *)
Theorem engine_never_panics e h c (Ho : owner e h) (Hc : request_ok c) : perform e c <> None.
Proof. pose proof (perform_ok try_reserve extent_bytes e h c (owner_sound _ _ _ _ Ho) Hc) as H. destruct (perform e c); [discriminate | destruct H]. Qed.


(** C31: the lifecycle requests reported so far, followed by the one still running,
    are exactly the ones accepted, in order and with their kinds: each is reported once, and at most one is running. *)
Theorem lifecycle_reported_once e h (Ho : owner e h) :
  lifecycle_started h = lifecycle_reported h ++ pending_lifecycle e /\ (length (pending_lifecycle e) <= 1)%nat.
Proof.
  split; [apply (owner_sound _ _ _ _ Ho)|]. unfold pending_lifecycle. destruct (e_job e) as [j|]; [destruct (j_ticket j)|]; cbn; lia.
Qed.

(** the slot map covers the device; the slot being written is marked used and backed
    by a segment; and the slot a transition is about to take is unused until the step that writes its header marks it. *)
Theorem slots_allocated_once e h l (Ho : owner e h) (Hl : e_layout e = Some l) :
  len (e_used e) = l_segments l /\
  (forall n, e_active e = Some n -> 0 <= n < l_segments l /\ e_used e !! Z.to_nat n = Some true /\ is_Some (p_segment (e_pipeline e))) /\
  (forall j t n, e_job e = Some j -> j_work j = WTransition t -> tr_next t = Some n ->
    0 <= n < l_segments l /\ e_used e !! Z.to_nat n = Some (negb (unallocated (tr_stage t)))).
Proof.
  pose proof (own_engine _ _ _ (owner_sound _ _ _ _ Ho)) as [G J]. split; [apply (g_layout _ _ _ G l Hl)|]. split.
  - intros n Hn. destruct (g_active _ _ _ G n Hn) as (Hs & l' & Hl' & Hb & Hu). assert (l' = l) as -> by congruence. auto.
  - intros j t n Hj Ht Hn. rewrite Hj in J. destruct (jo_work _ _ J) as (w & _ & _ & Hw). unfold work_ok in Hw. rewrite Ht in Hw. apply (to_next _ _ (proj2 Hw)); assumption.
Qed.

(** ** Terminal states *)

Lemma closed_unreadable e : e_state e = state.Closed -> exists err, check_readable e = Err err.
Proof.
  intros Hs. unfold check_readable. rewrite Hs. destruct (e_opened e); cbn [negb fail_if rbind].
  - rewrite (bool_decide_true (state.Closed = state.Closed)) by reflexivity. rewrite orb_true_r. eexists. reflexivity.
  - eexists. reflexivity.
Qed.

Lemma closed_unwritable e : e_state e = state.Closed -> exists err, check_writable e = Err err.
Proof. intros Hs. destruct (closed_unreadable e Hs) as [err He]. unfold check_writable. rewrite He. eexists. reflexivity. Qed.

Lemma submit_refused e err buf submit : check_writable e = Err err -> engine_submit buf submit e = (Err (err, buf), e).
Proof. intros He. unfold engine_submit, ebind, with_input, guarded. rewrite He. reflexivity. Qed.

Lemma drive_idle e out : e_job e = None -> drive_job try_reserve extent_bytes e out = Ok (false, e, out).
Proof. intros H. unfold drive_job. rewrite H. reflexivity. Qed.

(** A poll whose first lifecycle step leaves nothing running. *)
Lemma settled_poll e b e1 out1 evs wait : drive_job try_reserve extent_bytes e [] = Ok (b, e1, out1) -> engine_ok try_reserve e1 evs -> e_job e1 = None ->
  exists p new, engine_poll try_reserve extent_bytes e wait [] = Ok (len (out1 ++ map from_pipeline new), turned p e1, out1 ++ map from_pipeline new).
Proof.
  intros Hd Hok Hj. unfold engine_poll. rewrite Hd. cbn [rbind]. rewrite (g_completions _ _ _ (n_core _ _ _ Hok)).
  match goal with |- context [may_wait ?i ?r] => destruct (may_wait_ok i r (engine_ready_ok try_reserve e1 evs Hok)) as (w1 & ->) end. cbn [rbind].
  match goal with |- context [poll _ ?w []] => destruct (poll_good (e_pipeline e1) evs w [] (reach_good _ _ _ (g_reach _ _ _ (n_core _ _ _ Hok)))) as (p & new & Hp & _) end.
  cbn [app] in Hp. rewrite Hp. cbn [perr map_err rbind]. change (if p_queue_failed p && _ then _ else _) with (turned p e1).
  destruct (turned_fields p e1) as (_ & _ & _ & _ & _ & _ & _ & _ & Hj' & _). rewrite drive_idle by congruence. cbn [rbind]. exists p, new. rewrite len_nil, Z.sub_0_r. reflexivity.
Qed.

(** A closed owner stays closed: every operation and lifecycle request is refused
    and changes nothing, and a poll only hands out what a failed queue left undelivered. *)
Theorem closed_is_final e h c e' new (Ho : owner e h) (Hs : e_state e = state.Closed) (Hp : perform e c = Some (e', new)) :
  e_state e' = state.Closed /\ (match c with OwnerPoll _ => exists cs, new = Reported <$> map from_pipeline cs | _ => e' = e /\ new = [] end).
Proof.
  destruct (closed_unwritable e Hs) as [ew Hw]. destruct (closed_unreadable e Hs) as [er Hr]. pose proof (own_engine _ _ _ (owner_sound _ _ _ _ Ho)) as Hok.
  assert (Hj : e_job e = None). { destruct Hok as [_ J]. destruct (e_job e) as [j|]; [destruct (jo_closed _ _ J Hs) | reflexivity]. }
  assert (Hsame : Some (e, []) = Some (e', new) -> e_state e' = state.Closed /\ e' = e /\ new = []) by (intros [= <- <-]; auto).
  destruct c; cbn [perform] in Hp.
  - unfold engine_write in Hp. rewrite (submit_refused e ew _ _ Hw) in Hp. auto.
  - unfold engine_write_prepared in Hp. rewrite (submit_refused e ew _ _ Hw) in Hp. auto.
  - unfold engine_read in Hp. rewrite Hr in Hp. auto.
  - unfold engine_flush in Hp. rewrite Hw in Hp. auto.
  - unfold engine_seal, ebind, guarded in Hp. rewrite Hw in Hp. auto.
  - unfold rollover, rollover_with, ebind, guarded in Hp. rewrite Hw in Hp. auto.
  - unfold rollover_to, rollover_with, ebind, guarded in Hp. rewrite Hw in Hp. auto.
  - unfold close, ebind, guarded, close_refused in Hp. rewrite Hs in Hp. auto.
  - destruct (settled_poll e false e [] _ wait (drive_idle e [] Hj) Hok Hj) as (p & cs & He). rewrite He in Hp. injection Hp as <- <-. split; [|eauto].
    destruct (turned_fields p e) as (_ & _ & _ & _ & _ & _ & _ & _ & _ & ->). rewrite Hs, bool_decide_true by reflexivity. rewrite andb_false_r. reflexivity.
Qed.

Lemma reported_in t k cs : (t, k) ∈ reported cs -> exists r, ELifecycle t k r ∈ cs.
Proof.
  unfold reported. rewrite list_elem_of_omap. intros (c & Hc & He). destruct c; try discriminate. injection He as -> ->. eauto.
Qed.

Lemma engine_poll_parts e evs wait n e' cs : engine_ok try_reserve e evs -> engine_poll try_reserve extent_bytes e wait [] = Ok (n, e', cs) ->
  exists e1 p out2 evs2 b2, kept e e1 /\ engine_ok try_reserve (turned p e1) evs2 /\ drive_job try_reserve extent_bytes (turned p e1) out2 = Ok (b2, e', cs).
Proof.
  intros Hok. pose proof (drive_ok try_reserve extent_bytes e evs [] Hok) as H1. unfold engine_poll. destruct (drive_job try_reserve extent_bytes e []) as [[[b e1] out1]| |]; [|destruct H1..].
  destruct H1 as (Hok1 & Hkept & _). cbn [rbind]. rewrite (g_completions _ _ _ (n_core _ _ _ Hok1)).
  match goal with |- context [may_wait ?i ?r] => destruct (may_wait_ok i r (engine_ready_ok try_reserve e1 evs Hok1)) as (w1 & ->) end. cbn [rbind].
  match goal with |- context [poll _ ?w []] => destruct (poll_turn try_reserve e1 evs w Hok1) as (p & new & -> & Hok2) end. cbn [perr map_err rbind].
  change (if p_queue_failed p && _ then _ else _) with (turned p e1). intros H. apply rbind_Ok_inv in H as ([[b2 e2] out2] & Hd2 & H). injection H as _ -> ->. eauto 10.
Qed.

(** The poll that finds the queue failed ends a running open, seal or rollover and
    reports it, and leaves the owner failed with nothing running. *)
Theorem queue_failure_ends_job e h j wait n e' cs (Ho : owner e h) (Hj : e_job e = Some j) (Hk : j_kind j <> lifecycle.Close)
  (Hp : engine_poll try_reserve extent_bytes e wait [] = Ok (n, e', cs)) (Hq : p_queue_failed (e_pipeline e') = true) :
  e_state e' = state.Failed /\ e_job e' = None /\ (forall t, j_ticket j = Some t -> exists r, ELifecycle t (j_kind j) r ∈ cs).
Proof.
  pose proof (own_engine _ _ _ (owner_sound _ _ _ _ Ho)) as Hok. destruct (engine_poll_ok try_reserve extent_bytes e _ wait [] Hok) as (e0 & cs0 & Hp0 & _ & Hpend).
  rewrite Hp in Hp0. injection Hp0 as _ <- <-. cbn [app] in *. destruct (engine_poll_parts e _ wait n e' cs Hok Hp) as (e1 & p & out2 & evs2 & b2 & [_ Hc1 Hk1] & Hok2 & Hd2).
  specialize (Hc1 j Hj Hk). pose proof (drive_ok try_reserve extent_bytes _ _ out2 Hok2) as H2. rewrite Hd2 in H2. destruct H2 as (_ & [Hf2 _ _] & _). rewrite Hq in Hf2.
  destruct (turned_fields p e1) as (T1 & _ & _ & _ & _ & _ & _ & _ & T9 & T10). assert (He' : e_state e' = state.Failed /\ e_job e' = None).
  { destruct (e_job e1) as [j1|] eqn:Hj1.
    - specialize (Hk1 j j1 Hj eq_refl). rewrite <- Hk1 in Hk. unfold drive_job in Hd2. rewrite T9 in Hd2. efields. rewrite <- Hf2, bool_decide_false in Hd2 by assumption.
      unfold finish_job in Hd2. rewrite (decide_False _ _ Hk) in Hd2. injection Hd2 as _ <- _. auto.
    - rewrite drive_idle in Hd2 by congruence. injection Hd2 as _ <- _. rewrite T9, T10. rewrite T1 in Hf2. rewrite <- Hf2, bool_decide_false by assumption. auto. }
  split; [apply He'|]. split; [apply He'|]. intros t Ht. apply reported_in. unfold pending_lifecycle in Hpend. rewrite Hj, (proj2 He'), Ht in Hpend. cbn in Hpend. rewrite app_nil_r in Hpend. rewrite <- Hpend. left.
Qed.

(** ** Choice of the next slot *)

(** What an automatic rollover chooses, or why it cannot. *)
Definition first_free e l (r : eresult Z) e' : Prop :=
  match r with
  | Ok t => exists n, e_job e' = Some (Job_transition (Some t) lifecycle.Rollover (Some n)) /\ e_next e <= n < l_segments l /\ e_used e !! Z.to_nat n = Some false /\
      forall i, e_next e <= i < n -> e_used e !! Z.to_nat i = Some true
  | Err err => e_job e' = None /\ (err = engine.OutOfSpace -> forall i, e_next e <= i < l_segments l -> e_used e !! Z.to_nat i = Some true)
  | Panic => False
  end.

(** A rollover accepted without a slot number takes the first unused slot at or after
    the allocation cursor, and is refused for lack of space only when every slot from there on is used. *)
Theorem rollover_first_free e h l (Ho : owner e h) (Hw : check_writable e = Ok tt) (Hl : e_layout e = Some l) : runs rollover e (first_free e l).
Proof.
  pose proof (own_engine _ _ _ (owner_sound _ _ _ _ Ho)) as Hok. pose proof (n_core _ _ _ Hok) as G. pose proof (wr_job _ (check_writable_Ok e Hw)) as Hj.
  destruct (g_layout _ _ _ G l Hl) as (Hlok & _ & Hlen). pose proof (g_next _ _ _ G) as Hnx. rewrite Hl in Hnx.
  destruct (skip_used_spec (Z.to_nat (l_segments l)) (e_used e) (e_next e) (l_segments l) Hlen Hnx ltac:(lia)) as (n & Hskip & Hb & Hall & Hfree).
  apply runs_guarded; [apply check_writable_safe | intros _ | intros err He; congruence]. eapply runs_ticket; [exact Hok | | intros err; split; [assumption | discriminate]].
  intros t p' _. unfold start_rollover. apply runs_assoc, runs_reads, runs_assoc. apply (runs_expect _ l); [exact Hl|].
  apply runs_assoc, runs_assoc, runs_reads, runs_assoc. efields. rewrite Hskip. apply runs_lift_bind; [apply safe_Ok | intros ? [= <-] | discriminate]. apply runs_assoc, runs_modify, runs_assoc.
  apply runs_lift_bind; [apply safe_fail_if | | ].
  2: { intros err Herr. destruct (Z.eqb_spec n (l_segments l)) as [->|]; [|discriminate]. split; [exact Hj | intros _; exact Hall]. }
  intros u Hu. apply fail_if_Ok in Hu. apply Z.eqb_neq in Hu. apply runs_ret. rewrite segment_base_run by (auto; lia). apply runs_assoc, runs_lift_bind; [apply safe_Ok | intros ? [= <-] | discriminate].
  apply runs_assoc, runs_reads, runs_assoc. efields. unfold index_get. rewrite (proj2 (Z.leb_le 0 n)), (Hfree ltac:(lia)) by lia. apply (runs_expect _ false); [reflexivity|].
  apply runs_assoc, runs_lift_bind; [apply safe_fail_if | | discriminate]. intros _ _. apply runs_assoc, runs_modify, runs_modify, runs_eret. exists n. efields. split; [reflexivity|]. split; [lia|]. split; [apply Hfree; lia | assumption].
Qed.

(** ** Enumerating versions *)

(** A caller that asks for batches until the cursor is exhausted. *)
Fixpoint collect (fuel : nat) e (cursor : VersionCursor) (limit : Z) : option (list (ChunkId * Z * option Z)) :=
  match fuel with
  | O => None
  | S n =>
      match visit_versions_batch e cursor limit with
      | Ok (done, cursor, vs) => if (done : bool) then Some vs else app vs <$> collect n e cursor limit
      | _ => None
      end
  end.

Definition version_at (index : Index) (k : ChunkId) : option (ChunkId * Z * option Z) := version_of k <$> index !! k.

Lemma visit_keys_known index ks : (forall k, k ∈ ks -> is_Some (index !! k)) -> visit_keys index ks = Ok (omap (version_at index) ks).
Proof.
  induction ks as [|k ks IH]; intros Hk; [reflexivity|]. destruct (Hk k ltac:(left)) as [l Hl]. cbn. unfold version_at at 1. rewrite Hl. cbn.
  rewrite IH by (intros k' Hk'; apply Hk; right; assumption). reflexivity.
Qed.

Lemma omap_version_at index (kvs : list (ChunkId * Location)) : (forall k l, (k, l) ∈ kvs -> index !! k = Some l) ->
  omap (version_at index) kvs.*1 = (fun kv => version_of kv.1 kv.2) <$> kvs.
Proof.
  induction kvs as [|[k l] kvs IH]; intros H; [reflexivity|]. cbn. unfold version_at at 1. rewrite (H k l ltac:(left)). cbn. f_equal. apply IH. intros k' l' Hin. apply H. right. assumption.
Qed.

Lemma versions_by_key index keys : keys_ok index keys -> Permutation (omap (version_at index) keys) ((fun kv => version_of kv.1 kv.2) <$> map_to_list index).
Proof.
  intros [Hd Hk]. rewrite <- (omap_version_at index); [|intros k l; apply elem_of_map_to_list]. apply omap_Permutation. apply NoDup_Permutation; [assumption | apply NoDup_fst_map_to_list|].
  intros k. rewrite Hk. rewrite list_elem_of_fmap. split.
  - intros [l Hl]. exists (k, l). split; [reflexivity | apply elem_of_map_to_list; assumption].
  - intros ([k' l] & -> & Hin). apply elem_of_map_to_list in Hin. cbn. eauto.
Qed.

Lemma keys_size (index : Index) keys : keys_ok index keys -> len keys = Z.of_nat (size index).
Proof.
  intros [Hd Hk]. unfold len. rewrite <- size_dom, <- (size_list_to_set (C := gset ChunkId) keys Hd). do 2 f_equal. apply set_eq. intros k. rewrite elem_of_list_to_set, elem_of_dom. auto.
Qed.

Lemma reserved_nonneg slots index keys n next pe pn limE limP : data_ok slots index keys n next pe pn limE limP -> 0 <= pn.
Proof.
  intros Dt. rewrite (d_new _ _ _ _ _ _ _ _ _ Dt). pose proof (d_pending _ _ _ _ _ _ _ _ _ Dt) as Hp. clear Dt. induction slots as [|x slots IH]; cbn [total_of foldr]; [lia|].
  fold (total_of slot_new slots). assert (0 <= slot_new x). { destruct x as [[w| | | |]|]; cbn; try lia. destruct (Hp 0%nat _ eq_refl) as [_ [_ Hw]]. lia. }
  specialize (IH (fun i y Hy => Hp (S i) y Hy)). lia.
Qed.

Lemma collect_from e limit : check_readable e = Ok tt -> keys_ok (p_index (e_pipeline e)) (p_keys (e_pipeline e)) -> key_count (e_pipeline e) <= U64_MAX -> 0 < limit ->
  forall fuel next, 0 <= next <= key_count (e_pipeline e) -> key_count (e_pipeline e) - next < Z.of_nat fuel ->
  collect fuel e {| vc_owner := e_identity e; vc_next := next; vc_end := key_count (e_pipeline e) |} limit =
    Some (omap (version_at (p_index (e_pipeline e))) (drop (Z.to_nat next) (p_keys (e_pipeline e)))).
Proof.
  intros Hr Hk Hmax Hlim. set (p := e_pipeline e) in *. induction fuel as [|fuel IH]; intros next Hn Hf; [lia|]. cbn [collect]. unfold visit_versions_batch. rewrite Hr. cbn [rbind vc_owner vc_next vc_end].
  rewrite Z.eqb_refl, (proj2 (Z.eqb_neq limit 0)) by lia. cbn [negb orb fail_if rbind]. fold p. set (stop := Z.min (saturating_add next limit) (key_count p)).
  assert (Hs : next <= stop <= key_count p /\ (next < key_count p -> next < stop)) by (unfold stop, saturating_add; lia). destruct Hs as [Hs Hprog].
  unfold visit_batch. rewrite slice_Ok by (unfold key_count in *; lia). cbn [rbind]. destruct Hk as [Hd Hk].
  assert (Hsplit : drop (Z.to_nat next) (p_keys p) = sub (p_keys p) next stop ++ drop (Z.to_nat stop) (p_keys p)).
  { unfold sub. rewrite <- (take_drop (Z.to_nat (stop - next)) (drop (Z.to_nat next) (p_keys p))) at 1. f_equal. rewrite drop_drop. f_equal. lia. }
  rewrite visit_keys_known.
  2: { intros k Hin. apply Hk. rewrite <- (take_drop (Z.to_nat next) (p_keys p)), Hsplit. apply elem_of_app. right. apply elem_of_app. left. assumption. }
  cbn [perr map_err rbind]. rewrite Hsplit, omap_app. destruct (Z.eqb_spec stop (key_count p)) as [He|He].
  - rewrite (drop_ge (p_keys p)) by (unfold key_count, len in He; lia). cbn. rewrite app_nil_r. reflexivity.
  - rewrite IH by lia. reflexivity.
Qed.

(** Batches of any positive size reach the end of a version cursor within one more batch
    than there are keys, and together list every indexed version exactly once. *)
Theorem version_cursor_complete e h cursor limit (Ho : owner e h) (Hq : p_queue_failed (e_pipeline e) = false) (Hc : version_cursor e = Ok cursor) (Hl : 0 < limit) :
  exists vs, collect (S (Z.to_nat (key_count (e_pipeline e)))) e cursor limit = Some vs /\ Permutation vs (pipeline_visit_versions (e_pipeline e)).
Proof.
  pose proof (g_reach _ _ _ (n_core _ _ _ (own_engine _ _ _ (owner_sound _ _ _ _ Ho)))) as Hr. destruct (reach_good _ _ _ Hr) as [V|F]; [|pose proof (x_failed _ _ F); congruence].
  pose proof (v_ok _ _ V) as K. pose proof (k_data _ K) as Dt. pose proof (d_keys _ _ _ _ _ _ _ _ _ Dt) as Hk. pose proof (keys_size _ _ Hk) as Hs.
  unfold version_cursor in Hc. apply rbind_Ok_inv in Hc as ([] & Hread & Hc). injection Hc as <-. eexists. split; [|apply versions_by_key; exact Hk].
  rewrite (collect_from e limit Hread Hk); [reflexivity | | assumption | unfold key_count; pose proof (len_nonneg (p_keys (e_pipeline e))); lia | lia].
  unfold key_count. rewrite Hs. pose proof (k_resources _ K) as [Hre _]. pose proof (reserved_nonneg _ _ _ _ _ _ _ _ _ Dt). pose proof (d_index _ _ _ _ _ _ _ _ _ Dt). lia.
Qed.
End Theorems.
