(* ===== verification/EngineWitness.v ===== *)
(** * Concrete runs of an owner

    A blank device is formatted, opened, written, flushed and closed, and opened
    again, over the blocking file queue; and the same device is opened over a
    queue that fails. *)

From stdpp Require Import gmap sorting.
From S2P Require Import Prelude Align ChunkId Checksum Codec FrameFormat FrameDecode FrameBuilder FrameBuilderProofs FrameRoundtrip SegmentFormat SegmentBuilder.
From S2P Require Import Io Index PipelineState Pipeline PipelineInv PipelineTrace PipelineSafe PipelineWitness.
From S2P Require Import Layout LayoutProofs Format EngineState EngineRecovery Engine EngineInv EngineDrive EngineCalls EngineMachine EngineTheorems.

Definition blank_disk : MemDevice := (format (C := crc_ref) sample_options (zeros 24576)).2.
Definition disk_queue (d : list byte) : FileQueue MemFile := {| fq_file := d; fq_depth := 4; fq_completed := [] |}.
Definition small_value : FrameBuilder := appended (FrameBuilder_new layout_limits) sample_value.

Lemma small_value_ok : builder_ok small_value.
Proof.
  assert (H0 : limits_ok layout_limits) by (repeat split; vm_compute; (reflexivity || discriminate)).
  assert (H1 : input_ok layout_limits sample_value) by (repeat split; (reflexivity || discriminate || (vm_compute; discriminate))).
  exact (appended_ok _ _ (FrameBuilder_new_ok _ H0) H1 ltac:(vm_compute; discriminate)).
Qed.

Section Runs.
Context {Q : Type} {QI : Queue Q} {QS : QueueSpec Q}.

Fixpoint serve (e : Engine (C := crc_ref) MemDevice Q) (cs : list request_of_owner) : option (Engine (C := crc_ref) MemDevice Q * list happening) :=
  match cs with
  | [] => Some (e, [])
  | c :: cs =>
      match perform always 64 e c with
      | Some (e, new) => match serve e cs with Some (e, more) => Some (e, new ++ more) | None => None end
      | None => None
      end
  end.

Definition session (d : MemDevice) (q : Q) (cs : list request_of_owner) : option (Engine (C := crc_ref) MemDevice Q * list happening) :=
  match open_with_options (C := crc_ref) 1 d q Options_default with
  | Ok (e, t) => match serve e cs with Some (e, h) => Some (e, Started t lifecycle.Open :: h) | None => None end
  | _ => None
  end.

Lemma serve_owner cs : forall e h e' new, owner always 64 e h -> Forall request_ok cs -> serve e cs = Some (e', new) -> owner always 64 e' (h ++ new).
Proof.
  induction cs as [|c cs IH]; intros e h e' new Ho Hc H; cbn [serve] in H; [injection H as <- <-; rewrite app_nil_r; assumption|].
  destruct (perform always 64 e c) as [[e1 new1]|] eqn:He; [|discriminate]. destruct (serve e1 cs) as [[e2 more]|] eqn:Hs; [|discriminate]. injection H as <- <-.
  inversion Hc; subst. rewrite app_assoc. eapply IH; [eapply owner_perform; eassumption | eassumption | eassumption].
Qed.

Lemma session_owner d q cs e h : open_ok d q Options_default -> Forall request_ok cs -> session d q cs = Some (e, h) -> owner always 64 e h.
Proof.
  unfold session. intros Ho Hc H. destruct (open_with_options 1 d q Options_default) as [[e0 t]| |] eqn:He; try discriminate.
  destruct (serve e0 cs) as [[e1 h1]|] eqn:Hs; [|discriminate]. injection H as <- <-. change (Started t lifecycle.Open :: h1) with ([Started t lifecycle.Open] ++ h1).
  eapply serve_owner; [eapply owner_open; eassumption | exact Hc | exact Hs].
Qed.
End Runs.

Definition polls (n : nat) : list request_of_owner := replicate n (OwnerPoll false).

(** The first write finds no slot open and starts a rollover. *)
Definition day : list request_of_owner :=
  polls 6 ++ [OwnerWrite small_value (zeros 4096)] ++ polls 4 ++ [OwnerWrite small_value (zeros 4096); OwnerFlush] ++ polls 2.
Definition night : list request_of_owner := [OwnerClose] ++ polls 6.

Definition seen (x : Engine (C := crc_ref) MemDevice (FileQueue MemFile) * list happening) :=
  (e_state x.1, e_active x.1, e_used x.1, lifecycle_reported x.2, delivered (data_events x.2)).

Example day_seen : seen <$> session blank_disk (disk_queue blank_disk) day =
  Some (state.Ready, Some 0, [true], [(1, lifecycle.Open)], [(2, true); (3, true)]).
Proof. vm_compute. reflexivity. Qed.

Example night_seen : seen <$> session blank_disk (disk_queue blank_disk) (day ++ night) =
  Some (state.Closed, None, [true], [(1, lifecycle.Open); (4, lifecycle.Close)], [(2, true); (3, true)]).
Proof. vm_compute. reflexivity. Qed.

Definition file_of (x : Engine (C := crc_ref) MemDevice (FileQueue MemFile) * list happening) : list byte := fq_file (p_queue (e_pipeline x.1)).
Definition disk_after (cs : list request_of_owner) : list byte := from_option file_of [] (session blank_disk (disk_queue blank_disk) cs).
Definition found (d : list byte) : option (eresult (option (Z * Z))) :=
  (fun x => engine_stat x.1 (zeros 16)) <$> session d (disk_queue d) (polls 12).

(** What was written is found again: from the footer after a close, and by a
    scan of the open segment without one. *)
Example reopened_after_close : found (disk_after (day ++ night)) = Some (Ok (Some (1, 2))).
Proof. vm_compute. reflexivity. Qed.
Example reopened_after_crash : found (disk_after day) = Some (Ok (Some (1, 2))).
Proof. vm_compute. reflexivity. Qed.

(** ** Witnesses *)

Lemma blank_open_ok : open_ok blank_disk (disk_queue blank_disk) Options_default.
Proof.
  constructor; [vm_compute; discriminate | | split; split; vm_compute; (reflexivity || discriminate) | repeat split; vm_compute; discriminate].
  assert (Hcap : dev_capacity blank_disk = inr 24576) by (vm_compute; reflexivity). rewrite Hcap. intros c [= <-]. lia.
Qed.

Lemma polls_ok n : Forall request_ok (polls n).
Proof. apply Forall_replicate. exact I. Qed.

Lemma day_ok : Forall request_ok day.
Proof.
  assert (Hw : request_ok (OwnerWrite small_value (zeros 4096))) by exact small_value_ok.
  unfold day. repeat (apply Forall_app; split); try apply polls_ok; repeat (constructor; [assumption || exact I|]); constructor.
Qed.

Lemma night_ok : Forall request_ok (day ++ night).
Proof. apply Forall_app. split; [apply day_ok|]. apply Forall_app. split; [repeat constructor | apply polls_ok]. Qed.

Lemma day_owner : exists e h, owner (C := crc_ref) (D := MemDevice) (Q := FileQueue MemFile) always 64 e h /\
  e_state e = state.Ready /\ e_active e = Some 0 /\ e_used e = [true] /\ delivered (data_events h) = [(2, true); (3, true)].
Proof.
  pose proof day_seen as H. destruct (session blank_disk (disk_queue blank_disk) day) as [[e h]|] eqn:Hs; [|discriminate]. injection H as H1 H2 H3 _ H5.
  exists e, h. split; [exact (session_owner _ _ _ e h blank_open_ok day_ok Hs) | auto].
Qed.

Lemma night_owner : exists e h, owner (C := crc_ref) (D := MemDevice) (Q := FileQueue MemFile) always 64 e h /\
  e_state e = state.Closed /\ lifecycle_reported h = [(1, lifecycle.Open); (4, lifecycle.Close)].
Proof.
  pose proof night_seen as H. destruct (session blank_disk (disk_queue blank_disk) (day ++ night)) as [[e h]|] eqn:Hs; [|discriminate]. injection H as H1 _ _ H4 _.
  exists e, h. split; [exact (session_owner _ _ _ e h blank_open_ok night_ok Hs) | auto].
Qed.

Lemma engine_never_panics_witness : exists e h, owner (C := crc_ref) (D := MemDevice) (Q := FileQueue MemFile) always 64 e h /\ e_state e = state.Ready /\
  perform always 64 e (OwnerWrite small_value (zeros 4096)) <> None.
Proof.
  destruct day_owner as (e & h & Ho & Hs & _). exists e, h. split; [exact Ho|]. split; [exact Hs|].
  exact (engine_never_panics (C := crc_ref) always 64 e h (OwnerWrite small_value (zeros 4096)) Ho small_value_ok).
Defined.


Lemma lifecycle_reported_once_witness : exists e h, owner (C := crc_ref) (D := MemDevice) (Q := FileQueue MemFile) always 64 e h /\
  lifecycle_started h = [(1, lifecycle.Open); (4, lifecycle.Close)] ++ pending_lifecycle e.
Proof.
  destruct night_owner as (e & h & Ho & _ & Hr). exists e, h. split; [exact Ho|]. rewrite <- Hr. exact (proj1 (lifecycle_reported_once (C := crc_ref) always 64 e h Ho)).
Defined.

Lemma closed_is_final_witness : exists e h, owner (C := crc_ref) (D := MemDevice) (Q := FileQueue MemFile) always 64 e h /\ e_state e = state.Closed /\
  forall e' new, perform always 64 e OwnerRollover = Some (e', new) -> e' = e /\ new = [].
Proof.
  destruct night_owner as (e & h & Ho & Hs & _). exists e, h. split; [exact Ho|]. split; [exact Hs|].
  intros e' new Hp. exact (proj2 (closed_is_final (C := crc_ref) always 64 e h OwnerRollover e' new Ho Hs Hp)).
Defined.

Definition slot_state (x : Engine (C := crc_ref) MemDevice (FileQueue MemFile) * list happening) :=
  (l_segments <$> e_layout x.1, e_active x.1, e_used x.1, p_queue_failed (e_pipeline x.1), key_count (e_pipeline x.1), match version_cursor x.1 with Ok _ => true | _ => false end).

Example day_slots : slot_state <$> session blank_disk (disk_queue blank_disk) day = Some (Some 1, Some 0, [true], false, 1, true).
Proof. vm_compute. reflexivity. Qed.

Lemma slots_allocated_once_witness : exists e h l, owner (C := crc_ref) (D := MemDevice) (Q := FileQueue MemFile) always 64 e h /\ e_layout e = Some l /\
  0 <= 0 < l_segments l /\ e_used e !! 0%nat = Some true.
Proof.
  pose proof day_slots as H. destruct (session blank_disk (disk_queue blank_disk) day) as [[e h]|] eqn:Hs; [|discriminate]. injection H as H1 H2 _ _ _ _.
  pose proof (session_owner _ _ _ e h blank_open_ok day_ok Hs) as Ho. clear Hs. cbn [fst] in *. destruct (e_layout e) as [l|] eqn:Hl; [|discriminate]. exists e, h, l. split; [exact Ho|]. split; [exact Hl|].
  destruct (slots_allocated_once (C := crc_ref) always 64 e h l Ho Hl) as (_ & Ha & _). destruct (Ha 0 H2) as (Hb & Hu & _). exact (conj Hb Hu).
Defined.

Lemma version_cursor_complete_witness : exists e h cursor vs, owner (C := crc_ref) (D := MemDevice) (Q := FileQueue MemFile) always 64 e h /\ version_cursor e = Ok cursor /\
  collect 2 e cursor 5 = Some vs /\ Permutation vs (pipeline_visit_versions (e_pipeline e)).
Proof.
  pose proof day_slots as H. destruct (session blank_disk (disk_queue blank_disk) day) as [[e h]|] eqn:Hs; [|discriminate]. injection H as _ _ _ H4 H5 H6.
  pose proof (session_owner _ _ _ e h blank_open_ok day_ok Hs) as Ho. clear Hs. cbn [fst] in *. destruct (version_cursor e) as [cursor| |] eqn:Hc; try discriminate.
  destruct (version_cursor_complete (C := crc_ref) always 64 e h cursor 5 Ho H4 Hc ltac:(lia)) as (vs & Hv & Hp). rewrite H5 in Hv. exists e, h, cursor, vs. auto.
Defined.

Definition opened_state (x : Engine (C := crc_ref) MemDevice (FileQueue MemFile) * list happening) :=
  (e_state x.1, l_segments <$> e_layout x.1, match check_writable x.1 with Ok tt => true | _ => false end, e_next x.1).

Example opened_seen : opened_state <$> session blank_disk (disk_queue blank_disk) (polls 6) = Some (state.Ready, Some 1, true, 0).
Proof. vm_compute. reflexivity. Qed.

Lemma rollover_first_free_witness : exists e h l, owner (C := crc_ref) (D := MemDevice) (Q := FileQueue MemFile) always 64 e h /\ e_layout e = Some l /\ runs rollover e (first_free e l).
Proof.
  pose proof opened_seen as H. destruct (session blank_disk (disk_queue blank_disk) (polls 6)) as [[e h]|] eqn:Hs; [|discriminate]. injection H as _ H2 H3 _.
  pose proof (session_owner _ _ _ e h blank_open_ok (polls_ok 6) Hs) as Ho. clear Hs. cbn [fst] in *. destruct (e_layout e) as [l|] eqn:Hl; [|discriminate]. exists e, h, l. split; [exact Ho|]. split; [exact Hl|].
  assert (Hw : check_writable e = Ok tt) by (destruct (check_writable e) as [[]| |]; (reflexivity || discriminate)).
  exact (rollover_first_free (C := crc_ref) always 64 e h l Ho Hw Hl).
Defined.

(** Opening over a queue whose poll fails. *)
Definition failing_disk : FailingQueue := {| inner := disk_queue blank_disk; working := 0 |}.

Definition after_failure (x : Engine (C := crc_ref) MemDevice FailingQueue * list happening) :=
  ((fun j => (j_ticket j, j_kind j)) <$> e_job x.1,
   match engine_poll always 64 x.1 true [] with Ok (n, e', cs) => Some (p_queue_failed (e_pipeline e'), n) | _ => None end).

Example failing_open : after_failure <$> session blank_disk failing_disk [] = Some (Some (Some 1, lifecycle.Open), Some (true, 1)).
Proof. vm_compute. reflexivity. Qed.

Lemma failing_open_ok : open_ok blank_disk failing_disk Options_default.
Proof. destruct blank_open_ok as [H1 H2 H3 H4]. constructor; assumption. Qed.

Lemma queue_failure_ends_job_witness : exists e h e' cs, owner (C := crc_ref) (D := MemDevice) (Q := FailingQueue) always 64 e h /\
  engine_poll always 64 e true [] = Ok (1, e', cs) /\ e_state e' = state.Failed /\ e_job e' = None /\ exists r, ELifecycle 1 lifecycle.Open r ∈ cs.
Proof.
  pose proof failing_open as H. destruct (session blank_disk failing_disk []) as [[e h]|] eqn:Hs; [|discriminate].
  pose proof (session_owner _ _ _ e h failing_open_ok (Forall_nil_2 _) Hs) as Ho. clear Hs. injection H as Hjob Hpoll. cbn [fst] in *.
  destruct (e_job e) as [j|] eqn:Hj; [|discriminate Hjob]. injection Hjob as H1 H2.
  destruct (engine_poll always 64 e true []) as [[[n e'] cs]|x|] eqn:Hp; [|discriminate Hpoll | discriminate Hpoll]. injection Hpoll as H3 H4.
  assert (Hk : j_kind j <> lifecycle.Close) by (rewrite H2; intros [=]).
  destruct (queue_failure_ends_job (C := crc_ref) always 64 e h j true n e' cs Ho Hj Hk Hp H3) as (A & B & Hr). exists e, h, e', cs. rewrite H2 in Hr.
  split; [exact Ho|]. split; [rewrite <- H4; exact Hp|]. split; [exact A|]. split; [exact B | exact (Hr 1 H1)].
Defined.
