(* ===== verification/Placement.v ===== *)
(** * Placement of chunks on disks (moat-server/src/placement.rs)

    Weighted rendezvous hashing in binary64 arithmetic, which is that of
    SpecFloat: 53 bits of precision, exponents up to 1024, rounding to nearest.
    The natural logarithm of the platform is a parameter. *)

From stdpp Require Import list.
From Stdlib Require Import SpecFloat.
From S2P Require Import Prelude ChunkId Codec.

Record Target := { tg_uuid : list byte; tg_weight : Z }.
Record Placement := { pl_targets : list Target; pl_seeds : list Z }.

Definition mix64 (z : Z) : Z :=
  let z := wrap64 (z + 0x9E3779B97F4A7C15) in
  let z := wrap64 (Z.lxor z (Z.shiftr z 30) * 0xBF58476D1CE4E5B9) in
  let z := wrap64 (Z.lxor z (Z.shiftr z 27) * 0x94D049BB133111EB) in
  Z.lxor z (Z.shiftr z 31).

Definition seed_of (t : Target) : Z :=
  let lo := le_combine (sub (tg_uuid t) 0 8) in
  let hi := le_combine (sub (tg_uuid t) 8 16) in
  mix64 (Z.lxor lo (mix64 (Z.lxor hi 0x6a09e667f3bcc909))).

Definition Placement_new (targets : list Target) : Placement := {| pl_targets := targets; pl_seeds := map seed_of targets |}.

(** [as f64], and the operators. *)
Definition f64 (z : Z) : spec_float := binary_normalize 53 1024 z 0 false.
Definition f64_add : spec_float -> spec_float -> spec_float := SFadd 53 1024.
Definition f64_div : spec_float -> spec_float -> spec_float := SFdiv 53 1024.

Section Placement.
Context (ln : spec_float -> spec_float).

Definition draw (h : Z) : spec_float := f64_div (f64_add (f64 (Z.shiftr h 11)) (f64 1)) (f64_add (f64 (2 ^ 53)) (f64 1)).
Definition score (key : Z) (t : Target) (seed : Z) : spec_float := f64_div (SFopp (f64 (tg_weight t))) (ln (draw (mix64 (Z.lxor key seed)))).

Definition consider (key : Z) (best : option (Z * spec_float)) (i : Z) (t : Target) (seed : Z) : option (Z * spec_float) :=
  if tg_weight t =? 0 then best
  else
    let s := score key t seed in
    match best with
    | None => Some (i, s)
    | Some (_, b) => if SFltb b s then Some (i, s) else best
    end.

Fixpoint best_from (key : Z) (best : option (Z * spec_float)) (i : Z) (l : list (Target * Z)) : option (Z * spec_float) :=
  match l with
  | [] => best
  | (t, seed) :: l => best_from key (consider key best i t seed) (i + 1) l
  end.

Definition disk_of (p : Placement) (id : ChunkId) : option Z := option_map fst (best_from (mix id) None 0 (combine (pl_targets p) (pl_seeds p))).

(** ** The order of the scores *)

Definition is_nan (x : spec_float) : bool := match x with S754_nan => true | _ => false end.

(** Where a number lies: its sign and class, then its exponent, then its mantissa. *)
Definition place_of (x : spec_float) : Z * Z * Z :=
  match x with
  | S754_infinity true => (0, 0, 0)
  | S754_finite true m e => (1, - e, - Z.pos m)
  | S754_zero _ | S754_nan => (2, 0, 0)
  | S754_finite false m e => (3, e, Z.pos m)
  | S754_infinity false => (4, 0, 0)
  end.
Definition before (a b : Z * Z * Z) : Prop := let '(a1, a2, a3) := a in let '(b1, b2, b3) := b in a1 < b1 \/ a1 = b1 /\ (a2 < b2 \/ a2 = b2 /\ a3 < b3).

Lemma ltb_place x y : is_nan x = false -> is_nan y = false -> SFltb x y = true <-> before (place_of x) (place_of y).
Proof.
  unfold SFltb, SFcompare. destruct x as [sx|sx| |sx mx ex], y as [sy|sy| |sy my ey]; try discriminate; intros _ _; try (destruct sx); try (destruct sy); cbn; try (split; [discriminate || (intros _; lia) | lia || reflexivity || (intros; reflexivity)]).
  all: destruct (Z.compare_spec ex ey) as [->|H|H]; cbn; try (split; [discriminate || (intros _; lia) | lia || (intros; reflexivity)]).
  all: change (Pos.compare_cont Eq mx my) with (mx ?= my)%positive; destruct (Pos.compare_spec mx my) as [->|H|H]; cbn; split; (discriminate || (intros _; lia) || lia || (intros; reflexivity)).
Qed.

Lemma before_trans a b c : before a b -> before b c -> before a c.
Proof. destruct a as [[a1 a2] a3], b as [[b1 b2] b3], c as [[c1 c2] c3]. cbn. lia. Qed.

Lemma before_step a b c : before a b -> ~ before c b -> before a c.
Proof. destruct a as [[a1 a2] a3], b as [[b1 b2] b3], c as [[c1 c2] c3]. cbn. lia. Qed.

Lemma before_irrefl a : ~ before a a.
Proof. destruct a as [[a1 a2] a3]. cbn. lia. Qed.

(** ** Scores are numbers *)

Lemma shr_1_half mrs : 0 <= shr_m mrs -> shr_m (shr_1 mrs) = shr_m mrs / 2.
Proof.
  destruct mrs as [m r s]. cbn [shr_m]. intros Hm. destruct m as [|[p|p|]|p]; cbn [shr_1 shr_m]; [reflexivity | apply (Z.div_unique _ 2 _ 1); lia | apply (Z.div_unique _ 2 _ 0); lia | reflexivity | lia].
Qed.

Lemma iter_shr p : forall mrs, 0 <= shr_m mrs -> shr_m (SpecFloat.iter_pos shr_1 p mrs) = shr_m mrs / 2 ^ Z.pos p.
Proof.
  induction p as [p IH|p IH|]; intros mrs Hm; cbn [SpecFloat.iter_pos]; [| |rewrite shr_1_half by assumption; reflexivity].
  - assert (H1 : 0 <= shr_m (shr_1 mrs)) by (rewrite shr_1_half by assumption; apply Z.div_pos; lia). rewrite (IH (SpecFloat.iter_pos _ _ _)) by (rewrite IH by assumption; apply Z.div_pos; [assumption | apply Z.pow_pos_nonneg; lia]). rewrite IH, shr_1_half by assumption. rewrite !Z.div_div by (apply Z.pow_nonzero || apply Z.pow_pos_nonneg || idtac; lia). f_equal. replace (Z.pos p~1) with (1 + (Z.pos p + Z.pos p)) by lia. rewrite !Z.pow_add_r by lia. lia.
  - rewrite (IH (SpecFloat.iter_pos _ _ _)) by (rewrite IH by assumption; apply Z.div_pos; [assumption | apply Z.pow_pos_nonneg; lia]). rewrite IH by assumption. rewrite Z.div_div by (apply Z.pow_nonzero || apply Z.pow_pos_nonneg; lia). f_equal. replace (Z.pos p~0) with (Z.pos p + Z.pos p) by lia. rewrite Z.pow_add_r by lia. reflexivity.
Qed.

Lemma digits_lower p : 2 ^ (Z.pos (digits2_pos p) - 1) <= Z.pos p.
Proof.
  induction p as [p IH|p IH|]; cbn [digits2_pos]; [| |reflexivity]; rewrite Pos2Z.inj_succ; replace (Z.succ (Z.pos (digits2_pos p)) - 1) with (Z.succ (Z.pos (digits2_pos p) - 1)) by lia; rewrite Z.pow_succ_r by lia; lia.
Qed.

Lemma loc_m m l : shr_m (shr_record_of_loc m l) = m.
Proof. destruct l as [|[]]; reflexivity. Qed.

Lemma shr_fexp_m m e l : 0 <= m -> shr_m (fst (shr_fexp 53 1024 m e l)) = m / 2 ^ Z.max 0 (fexp 53 1024 (Zdigits2 m + e) - e).
Proof.
  intros Hm. unfold shr_fexp, shr. destruct (fexp 53 1024 (Zdigits2 m + e) - e) as [|p|p]; cbn [fst]; rewrite ?loc_m; [rewrite Z.div_1_r; reflexivity | rewrite iter_shr, loc_m by (rewrite loc_m; assumption); reflexivity | rewrite Z.div_1_r; reflexivity].
Qed.

Lemma shr_fexp_pos m e l : 1 <= m -> -1074 <= e -> 1 <= shr_m (fst (shr_fexp 53 1024 m e l)) /\ e <= snd (shr_fexp 53 1024 m e l).
Proof.
  intros Hm He. split; [|unfold shr_fexp, shr; destruct (_ - e); cbn; lia]. rewrite shr_fexp_m by lia. destruct m as [|m|m]; [lia| |lia]. pose proof (digits_lower m) as Hd. change (Zdigits2 (Z.pos m)) with (Z.pos (digits2_pos m)). unfold fexp, emin.
  apply Z.div_le_lower_bound; [apply Z.pow_pos_nonneg; lia|]. rewrite Z.mul_1_r. transitivity (2 ^ (Z.pos (digits2_pos m) - 1)); [apply Z.pow_le_mono_r; lia | exact Hd].
Qed.

Lemma round_even_ge m l : 0 <= m -> m <= round_nearest_even m l.
Proof. intros Hm. destruct l as [|[]]; cbn; try lia. destruct (Z.even m); lia. Qed.

Definition is_number (x : spec_float) : bool := match x with S754_nan | S754_infinity _ => false | _ => true end.
Definition is_positive (x : spec_float) : Prop := match x with S754_infinity s | S754_finite s _ _ => s = false | _ => False end.

Lemma round_aux_nan s m e l : 0 <= m -> is_nan (binary_round_aux 53 1024 s m e l) = false.
Proof.
  intros Hm. unfold binary_round_aux. pose proof (shr_fexp_m m e l Hm) as H1. destruct (shr_fexp 53 1024 m e l) as [mrs e']. cbn [fst] in H1. assert (H0 : 0 <= shr_m mrs) by (rewrite H1; apply Z.div_pos; [lia | apply Z.pow_pos_nonneg; lia]).
  pose proof (round_even_ge (shr_m mrs) (loc_of_shr_record mrs) H0) as Hr. pose proof (shr_fexp_m (round_nearest_even (shr_m mrs) (loc_of_shr_record mrs)) e' loc_Exact ltac:(lia)) as H2. destruct (shr_fexp 53 1024 (round_nearest_even _ _) e' loc_Exact) as [mrs2 e2]. cbn [fst] in H2.
  assert (H3 : 0 <= shr_m mrs2) by (rewrite H2; apply Z.div_pos; [lia | apply Z.pow_pos_nonneg; lia]). destruct (shr_m mrs2); [reflexivity | destruct (_ <=? _); reflexivity | lia].
Qed.

Lemma round_aux_positive m e l : 1 <= m -> -1074 <= e -> is_positive (binary_round_aux 53 1024 false m e l).
Proof.
  intros Hm He. unfold binary_round_aux. destruct (shr_fexp_pos m e l Hm He) as [H1 H2]. destruct (shr_fexp 53 1024 m e l) as [mrs e']. cbn [fst snd] in H1, H2. pose proof (round_even_ge (shr_m mrs) (loc_of_shr_record mrs) ltac:(lia)) as Hr.
  destruct (shr_fexp_pos (round_nearest_even (shr_m mrs) (loc_of_shr_record mrs)) e' loc_Exact ltac:(lia) ltac:(lia)) as [H3 _]. destruct (shr_fexp 53 1024 (round_nearest_even _ _) e' loc_Exact) as [mrs2 e2]. cbn [fst] in H3. destruct (shr_m mrs2); [lia | destruct (_ <=? _); reflexivity | lia].
Qed.

Lemma f64_positive w : 0 < w -> is_positive (f64 w).
Proof.
  intros Hw. unfold f64, binary_normalize. destruct w as [|w|w]; [lia| |lia]. unfold binary_round, shl_align. destruct (fexp 53 1024 (Z.pos (digits2_pos w) + 0) - 0) as [|p|p] eqn:E; apply round_aux_positive; try lia. unfold fexp, emin. lia.
Qed.

(** A disk of positive weight has a score, if logarithms of draws are finite. *)
Lemma score_number key t seed : 0 < tg_weight t -> is_number (ln (draw (mix64 (Z.lxor key seed)))) = true -> is_nan (score key t seed) = false.
Proof.
  intros Hw Hln. unfold score, f64_div. pose proof (f64_positive _ Hw) as Hp. destruct (f64 (tg_weight t)) as [|sx| |sx mx ex]; try contradiction; destruct (ln _) as [sy|sy| |sy my ey]; try discriminate; try reflexivity.
  cbn [SFopp SFdiv]. destruct (SFdiv_core_binary 53 1024 (Z.pos mx) ex (Z.pos my) ey) as [[q e] l] eqn:E. apply round_aux_nan. unfold SFdiv_core_binary in E. revert E. set (m' := match _ with Z0 => _ | Zpos _ => _ | Zneg _ => _ end). intros E.
  assert (Hm' : 0 <= m') by (unfold m'; destruct (ex - ey - _); [lia | apply Z.shiftl_nonneg; lia | lia]). pose proof (Z.div_pos m' (Z.pos my) Hm' ltac:(lia)) as Hq. unfold Z.div in Hq. destruct (Z.div_eucl m' (Z.pos my)) as [q' r]. injection E as <- _ _. exact Hq.
Qed.

(** ** The winner *)

(** Where disk [i] of a list that starts at [base] scores, if it can hold chunks. *)
Definition rank (key : Z) (ts : list Target) (i : nat) : option (Z * Z * Z) :=
  match ts !! i with Some t => if tg_weight t =? 0 then None else Some (place_of (score key t (seed_of t))) | None => None end.

Definition comparable (key : Z) (ts : list Target) : Prop := forall t, t ∈ ts -> tg_weight t <> 0 -> is_nan (score key t (seed_of t)) = false.

(** The first disk of the highest score. *)
Definition wins (key : Z) (ts : list Target) (i : nat) : Prop :=
  exists p, rank key ts i = Some p /\ forall j q, rank key ts j = Some q -> ~ before p q /\ ((j < i)%nat -> before q p).

Lemma wins_unique key ts i j : wins key ts i -> wins key ts j -> i = j.
Proof.
  intros (p & Hp & Hi) (q & Hq & Hj). destruct (Nat.lt_trichotomy i j) as [Hlt|[->|Hlt]]; [|reflexivity|].
  - destruct (Hj i p Hp) as [_ Hb]. destruct (Hi j q Hq) as [Hn _]. destruct (Hn (Hb Hlt)).
  - destruct (Hi j q Hq) as [_ Hb]. destruct (Hj i p Hp) as [Hn _]. destruct (Hn (Hb Hlt)).
Qed.

Lemma rank_cons key t ts i : rank key (t :: ts) (S i) = rank key ts i.
Proof. reflexivity. Qed.

(** What the loop has found on the disks before [base], and what it makes of the rest. *)
Lemma best_from_spec key ts : forall best base, comparable key ts -> match best with Some (_, b) => is_nan b = false | None => True end ->
  let r := best_from key best base (combine ts (map seed_of ts)) in
  (r = best /\ forall j q, rank key ts j = Some q -> exists i b, best = Some (i, b) /\ ~ before (place_of b) q) \/
  exists i p b, r = Some (base + Z.of_nat i, b) /\ place_of b = p /\ rank key ts i = Some p /\ (forall j q, rank key ts j = Some q -> ~ before p q /\ ((j < i)%nat -> before q p)) /\ match best with Some (_, b0) => before (place_of b0) p | None => True end.
Proof.
  induction ts as [|t ts IH]; intros best base Hc Hb; cbv zeta; [left; split; [reflexivity|]; intros j q Hj; unfold rank in Hj; rewrite lookup_nil in Hj; discriminate|].
  assert (Hct : comparable key ts) by (intros x Hx; apply Hc; constructor; exact Hx). cbn [map combine best_from]. unfold consider. destruct (tg_weight t =? 0) eqn:Ew.
  - specialize (IH best (base + 1) Hct Hb); cbv zeta in IH; destruct IH as [[Hr Hall]|(i & p & b & Hr & Hpb & Hp & Hall & Hbest)]; [left; split; [exact Hr|]; intros [|j] q Hj; [unfold rank in Hj; cbn in Hj; rewrite Ew in Hj; discriminate | apply (Hall j q Hj)]|].
    right. exists (S i), p, b. split; [rewrite Hr; do 2 f_equal; lia|]. split; [exact Hpb|]. split; [exact Hp|]. split; [|exact Hbest]. intros [|j] q Hj; [unfold rank in Hj; cbn in Hj; rewrite Ew in Hj; discriminate|]. destruct (Hall j q Hj) as [H1 H2]. split; [exact H1 | intros; apply H2; lia].
  - set (s := score key t (seed_of t)). assert (Hs : is_nan s = false) by (apply Hc; [constructor | apply Z.eqb_neq; exact Ew]). assert (H0 : rank key (t :: ts) 0 = Some (place_of s)) by (unfold rank; cbn; rewrite Ew; reflexivity).
    assert (Htake : match best with Some (_, b0) => before (place_of b0) (place_of s) | None => True end -> forall r, r = best_from key (Some (base, s)) (base + 1) (combine ts (map seed_of ts)) -> exists i p b, r = Some (base + Z.of_nat i, b) /\ place_of b = p /\ rank key (t :: ts) i = Some p /\ (forall j q, rank key (t :: ts) j = Some q -> ~ before p q /\ ((j < i)%nat -> before q p)) /\ match best with Some (_, b0) => before (place_of b0) p | None => True end).
    { intros Hbest r ->. specialize (IH (Some (base, s)) (base + 1) Hct Hs); cbv zeta in IH; destruct IH as [[Hr Hall]|(i & p & b & Hr & Hpb & Hp & Hall & Hbs)].
      - exists 0%nat, (place_of s), s. split; [rewrite Hr; do 2 f_equal; lia|]. split; [reflexivity|]. split; [exact H0|]. split; [|exact Hbest]. intros [|j] q Hj; [rewrite H0 in Hj; injection Hj as <-; split; [apply before_irrefl | lia]|]. destruct (Hall j q Hj) as (i' & b' & [= <- <-] & Hn). split; [exact Hn | lia].
      - exists (S i), p, b. split; [rewrite Hr; do 2 f_equal; lia|]. split; [exact Hpb|]. split; [exact Hp|]. split; [|destruct best as [[i0 b0]|]; [eapply before_trans; eassumption | exact Logic.I]]. intros [|j] q Hj; [rewrite H0 in Hj; injection Hj as <-; split; [intros Hx; exact (before_irrefl _ (before_trans _ _ _ Hbs Hx)) | intros _; exact Hbs]|].
        destruct (Hall j q Hj) as [H1 H2]. split; [exact H1 | intros; apply H2; lia]. }
    destruct best as [[i0 b0]|]; [|right; apply Htake; [exact Logic.I | reflexivity]]. fold s. destruct (SFltb b0 s) eqn:El; [right; apply Htake; [apply ltb_place; assumption | reflexivity]|].
    assert (Hnot : ~ before (place_of b0) (place_of s)) by (intros Hx; apply ltb_place in Hx; [congruence | assumption | assumption]).
    specialize (IH (Some (i0, b0)) (base + 1) Hct Hb); cbv zeta in IH; destruct IH as [[Hr Hall]|(i & p & b & Hr & Hpb & Hp & Hall & Hbs)].
    + left. split; [exact Hr|]. intros [|j] q Hj; [rewrite H0 in Hj; injection Hj as <-; exists i0, b0; auto | apply (Hall j q Hj)].
    + right. exists (S i), p, b. split; [rewrite Hr; do 2 f_equal; lia|]. split; [exact Hpb|]. split; [exact Hp|]. split; [|exact Hbs]. intros [|j] q Hj.
      * rewrite H0 in Hj. injection Hj as <-. assert (Hsp : before (place_of s) p) by (destruct (place_of s) as [[s1 s2] s3], (place_of b0) as [[x1 x2] x3], p as [[p1 p2] p3]; cbn in *; lia). split; [intros Hx; exact (before_irrefl _ (before_trans _ _ _ Hsp Hx)) | intros _; exact Hsp].
      * destruct (Hall j q Hj) as [H1 H2]. split; [exact H1 | intros; apply H2; lia].
Qed.

Lemma disk_of_wins ts id : comparable (mix id) ts -> match disk_of (Placement_new ts) id with Some d => exists i, d = Z.of_nat i /\ wins (mix id) ts i | None => forall i, rank (mix id) ts i = None end.
Proof.
  intros Hc. unfold disk_of, Placement_new. cbn [pl_targets pl_seeds]. pose proof (best_from_spec (mix id) ts None 0 Hc Logic.I) as Hspec. cbv zeta in Hspec. destruct Hspec as [[-> Hall]|(i & p & b & -> & _ & Hp & Hall & _)]; cbn.
  - intros i. destruct (rank (mix id) ts i) as [q|] eqn:E; [|reflexivity]. destruct (Hall i q E) as (? & ? & ? & _). discriminate.
  - exists i. split; [reflexivity|]. exists p. auto.
Qed.

(** Weights are 64-bit, and the logarithm of a draw is finite. *)
Definition weights_typed (ts : list Target) : Prop := forall t, t ∈ ts -> is_u64 (tg_weight t).
Definition ln_finite : Prop := forall h, is_u64 h -> is_number (ln (draw h)) = true.

Lemma mix64_u64 z : is_u64 (mix64 z).
Proof. unfold mix64. apply lxor_u64; [|apply shiftr_u64; [|lia]]; apply wrap64_range. Qed.

Lemma comparable_typed key ts : ln_finite -> weights_typed ts -> comparable key ts.
Proof. intros Hln Hts t Ht Hw. specialize (Hts t Ht). unfold is_u64 in Hts. apply score_number; [lia | apply Hln, mix64_u64]. Qed.

(** The disk of a chunk is the first of those with the highest score, and there is none only if every weight is zero. *)
Theorem placement_exact ts id : ln_finite -> weights_typed ts ->
  match disk_of (Placement_new ts) id with Some d => exists i, d = Z.of_nat i /\ wins (mix id) ts i | None => forall t, t ∈ ts -> tg_weight t = 0 end.
Proof.
  intros Hln Hts. pose proof (disk_of_wins ts id (comparable_typed _ ts Hln Hts)) as Hd. destruct (disk_of _ id); [exact Hd|]. intros t Ht. apply list_elem_of_lookup in Ht as [i Hi]. specialize (Hd i). unfold rank in Hd. rewrite Hi in Hd. destruct (tg_weight t =? 0) eqn:E; [apply Z.eqb_eq; exact E | discriminate].
Qed.

(** C23: Changing one disk of a placement, its weight or its identity, moves only chunks that lay on it or that it takes over; every other chunk keeps its disk; and a disk whose weight becomes zero loses every chunk. *)
Theorem placement_moves_little ts d t id : ln_finite -> weights_typed ts -> is_u64 (tg_weight t) ->
  let old := disk_of (Placement_new ts) id in let new := disk_of (Placement_new (<[d := t]> ts)) id in (new = old \/ old = Some (Z.of_nat d) \/ new = Some (Z.of_nat d)) /\ (tg_weight t = 0 -> new <> Some (Z.of_nat d)).
Proof.
  intros Hln Hts Ht old new. assert (Hts' : weights_typed (<[d := t]> ts)) by (intros x Hx; apply list_elem_of_lookup in Hx as [i Hi]; destruct (decide (d = i)) as [<-|Hne]; [|rewrite list_lookup_insert_ne in Hi by assumption; apply Hts, list_elem_of_lookup; eauto]; destruct (decide (d < length ts)%nat); [rewrite list_lookup_insert_eq in Hi by assumption; injection Hi as <-; exact Ht | rewrite list_insert_ge in Hi by lia; apply Hts, list_elem_of_lookup; eauto]).
  pose proof (disk_of_wins ts id (comparable_typed _ _ Hln Hts)) as Ho. pose proof (disk_of_wins _ id (comparable_typed (mix id) _ Hln Hts')) as Hn. fold old in Ho. fold new in Hn.
  assert (Hsame : forall i, i <> d -> rank (mix id) (<[d := t]> ts) i = rank (mix id) ts i) by (intros i Hi; unfold rank; rewrite list_lookup_insert_ne by congruence; reflexivity).
  split; [|intros Hz E; rewrite E in Hn; destruct Hn as (j & Hj & q & Hq & _); apply Nat2Z.inj in Hj as <-; unfold rank in Hq; destruct (decide (d < length ts)%nat); [rewrite list_lookup_insert_eq in Hq by assumption; rewrite Hz in Hq; discriminate | rewrite lookup_ge_None_2 in Hq by (rewrite length_insert; lia); discriminate]].
  destruct old as [o|], new as [n|]; [destruct Ho as (i & -> & p & Hp & Hi), Hn as (j & -> & q & Hq & Hj) | destruct Ho as (i & -> & p & Hp & Hi) | destruct Hn as (j & -> & q & Hq & Hj) | auto].
  - destruct (decide (i = d)) as [->|Hid]; [auto|]. destruct (decide (j = d)) as [->|Hjd]; [auto|]. left. do 2 f_equal. pose proof (Hi j q ltac:(rewrite <- Hsame by assumption; exact Hq)) as [H1 H2]. pose proof (Hj i p ltac:(rewrite Hsame by assumption; exact Hp)) as [H3 H4]. destruct (Nat.lt_trichotomy i j) as [Hlt|[->|Hlt]]; [destruct (H1 (H4 Hlt)) | reflexivity | destruct (H3 (H2 Hlt))].
  - destruct (decide (i = d)) as [->|Hid]; [auto|]. specialize (Hn i). rewrite Hsame in Hn by assumption. congruence.
  - destruct (decide (j = d)) as [->|Hjd]; [auto|]. specialize (Ho j). rewrite <- Hsame in Ho by assumption. congruence.
Qed.

Lemma disk_of_two t1 t2 id : tg_weight t1 <> 0 -> tg_weight t2 <> 0 -> disk_of (Placement_new [t1; t2]) id = Some (if SFltb (score (mix id) t1 (seed_of t1)) (score (mix id) t2 (seed_of t2)) then 1 else 0).
Proof. intros H1 H2. unfold disk_of, Placement_new. cbn. unfold consider. apply Z.eqb_neq in H1, H2. rewrite H1, H2. destruct (SFltb _ _); reflexivity. Qed.

(** The highest draw is rounded to one: the divisor [2^53 + 1] is not a
    binary64 number. Its logarithm is zero, and the score is minus infinity. *)
Lemma top_draw_score key t seed : 0 < tg_weight t -> Z.shiftr (mix64 (Z.lxor key seed)) 11 = 2 ^ 53 - 1 -> ln (f64 1) = S754_zero false -> score key t seed = S754_infinity true.
Proof.
  intros Hw Hh Hln. unfold score, draw. rewrite Hh. assert (Hone : f64_div (f64_add (f64 (2 ^ 53 - 1)) (f64 1)) (f64_add (f64 (2 ^ 53)) (f64 1)) = f64 1) by (vm_compute; reflexivity). rewrite Hone, Hln. pose proof (f64_positive _ Hw) as Hp. destruct (f64 (tg_weight t)); try contradiction; cbn in *; subst; reflexivity.
Qed.
End Placement.

(** A chunk whose draw for the first of two equal disks is the highest there
    is, and that is placed on the second. *)
Definition first_disk : Target := {| tg_uuid := replicate 16 Byte.x01; tg_weight := 1 |}.
Definition second_disk : Target := {| tg_uuid := replicate 16 Byte.x02; tg_weight := 1 |}.
Definition two_disks : list Target := [first_disk; second_disk].
Definition top_chunk : ChunkId := [Byte.xad; Byte.x64; Byte.xad; Byte.xc6; Byte.x1d; Byte.xd8; Byte.x01; Byte.xb7] ++ replicate 8 Byte.x00.

(** C40: The highest score wins, so the highest draw should win between disks of one weight; but the highest possible draw is rounded to one, whose logarithm is zero, its score is minus infinity, and the disk that should win the chunk loses it. *)
Theorem top_draw_loses : Z.shiftr (mix64 (Z.lxor (mix top_chunk) (seed_of first_disk))) 11 = 2 ^ 53 - 1 /\
  forall ln, ln (f64 1) = S754_zero false -> (exists m e, ln (draw (mix64 (Z.lxor (mix top_chunk) (seed_of second_disk)))) = S754_finite true m e) -> disk_of ln (Placement_new two_disks) top_chunk = Some 1.
Proof.
  assert (Htop : Z.shiftr (mix64 (Z.lxor (mix top_chunk) (seed_of first_disk))) 11 = 2 ^ 53 - 1) by (vm_compute; reflexivity). split; [exact Htop|]. intros ln Hln (m & e & Hsecond).
  unfold two_disks. rewrite disk_of_two by (cbn; lia). rewrite (top_draw_score ln _ first_disk _ ltac:(cbn; lia) Htop Hln).
  assert (Hs : is_nan (score ln (mix top_chunk) second_disk (seed_of second_disk)) = false) by (apply score_number; [cbn; lia | rewrite Hsecond; reflexivity]).
  assert (Hn : score ln (mix top_chunk) second_disk (seed_of second_disk) <> S754_infinity true).
  { unfold score. rewrite Hsecond. replace (SFopp (f64 (tg_weight second_disk))) with (S754_finite true 4503599627370496 (-52)) by (vm_compute; reflexivity). unfold f64_div. cbn [SFdiv xorb].
    destruct (SFdiv_core_binary 53 1024 4503599627370496 (-52) (Z.pos m) e) as [[q e'] l]. unfold binary_round_aux. destruct (shr_fexp 53 1024 q e' l) as [r1 e1], (shr_fexp 53 1024 (round_nearest_even _ _) e1 loc_Exact) as [r2 e2]. destruct (shr_m r2); [|destruct (_ <=? _)|]; discriminate. }
  revert Hs Hn. generalize (score ln (mix top_chunk) second_disk (seed_of second_disk)). clear. intros s Hs Hn. destruct s as [sx|[]| |sx m e]; [reflexivity | destruct (Hn eq_refl) | reflexivity | discriminate Hs | reflexivity].
Qed.

(** ** Witnesses *)

(** Zero at one and minus one below it. *)
Definition demo_ln (x : spec_float) : spec_float := if SFeqb x (f64 1) then S754_zero false else f64 (-1).

Lemma demo_ln_finite : ln_finite demo_ln.
Proof. intros h _. unfold demo_ln. destruct (SFeqb _ _); reflexivity. Qed.

Lemma two_disks_typed : weights_typed two_disks.
Proof. intros t Ht. unfold two_disks in Ht. apply elem_of_cons in Ht as [->|Ht]; [|apply list_elem_of_singleton in Ht as ->]; unfold is_u64; cbn; lia. Qed.

Lemma placement_exact_witness : exists i, 1 = Z.of_nat i /\ wins demo_ln (mix top_chunk) two_disks i.
Proof. exact (placement_exact demo_ln two_disks top_chunk demo_ln_finite two_disks_typed). Defined.

Lemma placement_moves_little_witness : disk_of demo_ln (Placement_new (<[1%nat := {| tg_uuid := replicate 16 Byte.x02; tg_weight := 0 |}]> two_disks)) top_chunk = Some 0 /\ disk_of demo_ln (Placement_new two_disks) top_chunk = Some 1.
Proof.
  destruct (placement_moves_little demo_ln two_disks 1 {| tg_uuid := replicate 16 Byte.x02; tg_weight := 0 |} top_chunk demo_ln_finite two_disks_typed ltac:(unfold is_u64; cbn; lia)) as [[H|[H|H]] _]; [vm_compute in H; discriminate | split; [vm_compute; reflexivity | exact H] | vm_compute in H; discriminate].
Defined.

Lemma top_draw_loses_witness : disk_of demo_ln (Placement_new two_disks) top_chunk = Some 1.
Proof. apply (proj2 top_draw_loses demo_ln); [vm_compute; reflexivity|]. eexists _, _. vm_compute. reflexivity. Defined.
