(* ===== verification/Catalog.v ===== *)
(** * The disk catalog (moat-cache/src/catalog.rs)

    Per disk: which chunks are live, in the order of their insertion, the
    reservations of writes in flight, and the choice of a victim. A definition
    here is one region under the disk's lock, or one step between two awaits;
    what the store answers is an argument. Arithmetic that leaves its width is
    a panic. *)

From stdpp Require Import gmap sorting.
From S2P Require Import Prelude ChunkId.

Module cache.
Inductive Error (SE : Type) :=
| Store (e : SE)
| Memory (what : string)
| Invalid (what : string)
| Corrupt (what : string)
| TooLarge (l max : Z)
| Busy
| Closed
| NoSpace.
Arguments Store {SE}. Arguments Memory {SE}. Arguments Invalid {SE}. Arguments Corrupt {SE}.
Arguments TooLarge {SE}. Arguments Busy {SE}. Arguments Closed {SE}. Arguments NoSpace {SE}.
End cache.

Definition add64 {E} (a b : Z) : res E Z := if a + b <=? U64_MAX then Ok (a + b) else Panic.
Definition sub64 {E} (a b : Z) : res E Z := if b <=? a then Ok (a - b) else Panic.
Definition mul64 {E} (a b : Z) : res E Z := if a * b <=? U64_MAX then Ok (a * b) else Panic.
Definition add32 {E} (a b : Z) : res E Z := if a + b <? 2 ^ 32 then Ok (a + b) else Panic.

Inductive DiskPolicy := DiskFifo | DiskSieve.
Record DiskOptions := { do_capacity : option Z; do_entries : option Z; do_policy : DiskPolicy; do_reserve_segments : Z }.
Definition DiskOptions_default : DiskOptions := {| do_capacity := None; do_entries := None; do_policy := DiskSieve; do_reserve_segments := 4 |}.

(** ** The state under the lock

    The B-tree map from positions to chunks is its list of entries, by
    position; a waiter is the number of its channel. *)

Record Slot := { sl_lsn : Z; sl_len : Z; sl_position : Z; sl_visited : bool }.
Record Active := { ac_extra : Z; ac_new : bool; ac_allocation : Z }.
Record DiskState := {
  ds_slots : gmap ChunkId Slot;
  ds_order : list (Z * ChunkId);
  ds_clock : Z;
  ds_hand : Z;
  ds_bytes : Z;
  ds_active : gmap ChunkId Active;
  ds_extra : Z;
  ds_new : Z;
  ds_allocation : Z;
  ds_waiters : list Z
}.

Definition ds_empty : DiskState :=
  {| ds_slots := ∅; ds_order := []; ds_clock := 0; ds_hand := 0; ds_bytes := 0; ds_active := ∅; ds_extra := 0; ds_new := 0; ds_allocation := 0; ds_waiters := [] |}.

Definition ds_set_content (slots : gmap ChunkId Slot) (order : list (Z * ChunkId)) (clock bytes : Z) (s : DiskState) : DiskState :=
  {| ds_slots := slots; ds_order := order; ds_clock := clock; ds_hand := ds_hand s; ds_bytes := bytes; ds_active := ds_active s; ds_extra := ds_extra s; ds_new := ds_new s; ds_allocation := ds_allocation s; ds_waiters := ds_waiters s |}.
Definition ds_set_slots (v : gmap ChunkId Slot) (s : DiskState) : DiskState := ds_set_content v (ds_order s) (ds_clock s) (ds_bytes s) s.
Definition ds_set_hand (v : Z) (s : DiskState) : DiskState :=
  {| ds_slots := ds_slots s; ds_order := ds_order s; ds_clock := ds_clock s; ds_hand := v; ds_bytes := ds_bytes s; ds_active := ds_active s; ds_extra := ds_extra s; ds_new := ds_new s; ds_allocation := ds_allocation s; ds_waiters := ds_waiters s |}.
Definition ds_set_waiters (v : list Z) (s : DiskState) : DiskState :=
  {| ds_slots := ds_slots s; ds_order := ds_order s; ds_clock := ds_clock s; ds_hand := ds_hand s; ds_bytes := ds_bytes s; ds_active := ds_active s; ds_extra := ds_extra s; ds_new := ds_new s; ds_allocation := ds_allocation s; ds_waiters := v |}.
Definition ds_set_active (active : gmap ChunkId Active) (extra new allocation : Z) (s : DiskState) : DiskState :=
  {| ds_slots := ds_slots s; ds_order := ds_order s; ds_clock := ds_clock s; ds_hand := ds_hand s; ds_bytes := ds_bytes s; ds_active := active; ds_extra := extra; ds_new := new; ds_allocation := allocation; ds_waiters := ds_waiters s |}.

(** [BTreeMap::insert] and [remove]. *)
Fixpoint bt_insert (k : Z) (v : ChunkId) (l : list (Z * ChunkId)) : list (Z * ChunkId) :=
  match l with
  | [] => [(k, v)]
  | (k', v') :: l' => if k <? k' then (k, v) :: l else if k =? k' then (k, v) :: l' else (k', v') :: bt_insert k v l'
  end.
Definition bt_remove (k : Z) (l : list (Z * ChunkId)) : list (Z * ChunkId) := List.filter (fun e => negb (e.1 =? k)) l.

Section Store.
Context {SE : Type}.
Definition cresult (A : Type) : Type := res (cache.Error SE) A.

Definition State_remove (s : DiskState) (id : ChunkId) : cresult DiskState :=
  match ds_slots s !! id with
  | Some old =>
      let? bytes := sub64 (ds_bytes s) (sl_len old) in
      Ok (ds_set_content (delete id (ds_slots s)) (bt_remove (sl_position old) (ds_order s)) (ds_clock s) bytes s)
  | None => Ok s
  end.

Definition State_insert (s : DiskState) (id : ChunkId) (lsn l : Z) : cresult DiskState :=
  let? s := State_remove s id in
  let? clock := add64 (ds_clock s) 1 in
  let? bytes := add64 (ds_bytes s) l in
  Ok (ds_set_content (<[id := {| sl_lsn := lsn; sl_len := l; sl_position := clock; sl_visited := false |}]> (ds_slots s)) (bt_insert clock id (ds_order s)) clock bytes s).

(** ** Victims *)

Definition excluded (s : DiskState) (exclude : option ChunkId) (id : ChunkId) : bool :=
  bool_decide (Some id = exclude) || (match ds_active s !! id with Some _ => true | None => false end).

(** The first entry behind the hand, or else the first of all. *)
Definition next_in_order (s : DiskState) : option (Z * ChunkId) :=
  match List.find (fun e => e.1 >? ds_hand s) (ds_order s) with
  | Some e => Some e
  | None => head (ds_order s)
  end.

Fixpoint sweep (n : nat) (s : DiskState) (exclude : option ChunkId) : cresult (option (ChunkId * Z) * DiskState) :=
  match n with
  | O => Ok (None, s)
  | S n =>
      match next_in_order s with
      | None => Ok (None, s)
      | Some (position, id) =>
          let s := ds_set_hand position s in
          if excluded s exclude id then sweep n s exclude
          else
            let? slot := expect (ds_slots s !! id) in
            if sl_visited slot then
              sweep n (ds_set_slots (<[id := {| sl_lsn := sl_lsn slot; sl_len := sl_len slot; sl_position := sl_position slot; sl_visited := false |}]> (ds_slots s)) s) exclude
            else Ok (Some (id, sl_lsn slot), s)
      end
  end.

Definition victim (s : DiskState) (policy : DiskPolicy) (exclude : option ChunkId) : cresult (option (ChunkId * Z) * DiskState) :=
  match policy with
  | DiskFifo =>
      match List.find (fun e => negb (excluded s exclude e.2)) (ds_order s) with
      | Some (_, id) => let? slot := expect (ds_slots s !! id) in Ok (Some (id, sl_lsn slot), s)
      | None => Ok (None, s)
      end
  | DiskSieve => sweep (Z.to_nat (Z.min (2 * Z.of_nat (size (ds_slots s))) U64_MAX)) s exclude
  end.

(** [canceled] are the channels whose receiver is gone, [channel] the new one. *)
Definition State_wait (s : DiskState) (canceled : Z -> bool) (channel : Z) : DiskState :=
  ds_set_waiters (List.filter (fun w => negb (canceled w)) (ds_waiters s) ++ [channel]) s.

Definition State_finish (s : DiskState) (id : ChunkId) : cresult (list Z * DiskState) :=
  let? active := expect (ds_active s !! id) in
  let? extra := sub64 (ds_extra s) (ac_extra active) in
  let? new := sub64 (ds_new s) (Z.b2z (ac_new active)) in
  let? allocation := sub64 (ds_allocation s) (ac_allocation active) in
  Ok (ds_waiters s, ds_set_waiters [] (ds_set_active (delete id (ds_active s)) extra new allocation s)).

(** ** Disks *)

Record Disk := { dk_state : DiskState; dk_capacity : Z; dk_entries : Z; dk_reserve : Z; dk_segment_size : Z; dk_policy : DiskPolicy }.
Definition dk_set (s : DiskState) (d : Disk) : Disk :=
  {| dk_state := s; dk_capacity := dk_capacity d; dk_entries := dk_entries d; dk_reserve := dk_reserve d; dk_segment_size := dk_segment_size d; dk_policy := dk_policy d |}.

Record DiskInfo := { di_uuid : list byte; di_capacity : Z; di_segment_size : Z; di_chunk_max : Z; di_index_entries : Z }.
Record Usage := { us_segments : Z; us_free_segments : Z }.
Record InventoryEntry := { ie_disk : Z; ie_id : ChunkId; ie_lsn : Z; ie_len : Z }.
Inductive DeleteResult := Deleted (lsn : Z) | Missing | Changed.

Definition new_disk (info : DiskInfo) (usage : Usage) (options : DiskOptions) : cresult Disk :=
  let? headroom := add32 (do_reserve_segments options) 2 in
  fail_if (us_segments usage <=? headroom) (cache.Invalid "disk has too few segments for append headroom") ;?
  fail_if (us_free_segments usage <? 2) cache.NoSpace ;?
  let? usable := mul64 (us_segments usage - do_reserve_segments options) (di_segment_size info) in
  let capacity := match do_capacity options with Some c => c | None => usable / 4 end in
  fail_if ((capacity =? 0) || (capacity >? usable / 2)) (cache.Invalid "disk cache capacity must be positive and at most half of non-reserved space") ;?
  let entries := match do_entries options with Some n => n | None => di_index_entries info end in
  fail_if ((entries =? 0) || (entries >? di_index_entries info)) (cache.Invalid "disk entry limit exceeds the configured adapter limit") ;?
  let? reserve := mul64 (do_reserve_segments options) (di_segment_size info) in
  Ok {| dk_state := ds_empty; dk_capacity := capacity; dk_entries := entries; dk_reserve := reserve; dk_segment_size := di_segment_size info; dk_policy := do_policy options |}.

(** [usage i] is the store's answer for disk [i]. *)
Fixpoint new_disks (usage : Z -> res SE Usage) (infos : list DiskInfo) (i : Z) (options : DiskOptions) : cresult (list Disk) :=
  match infos with
  | [] => Ok []
  | info :: infos =>
      let? u := map_err cache.Store (usage i) in
      let? d := new_disk info u options in
      let? rest := new_disks usage infos (i + 1) options in
      Ok (d :: rest)
  end.

Fixpoint load (disk_of : ChunkId -> Z) (inventory : list InventoryEntry) (disks : list Disk) : cresult (list Disk) :=
  match inventory with
  | [] => Ok disks
  | entry :: inventory =>
      fail_if ((ie_disk entry >=? len disks) || negb (disk_of (ie_id entry) =? ie_disk entry)) (cache.Invalid "inventory does not match this disk placement; migration or rebuild is required") ;?
      let? d := index_get disks (ie_disk entry) in
      fail_if (match ds_slots (dk_state d) !! ie_id entry with Some _ => true | None => false end) (cache.Invalid "duplicate live inventory identity") ;?
      let? s := State_insert (dk_state d) (ie_id entry) (ie_lsn entry) (ie_len entry) in
      let? disks := index_set disks (ie_disk entry) (dk_set s d) in
      load disk_of inventory disks
  end.

Definition entry_le (a b : InventoryEntry) : Prop := ie_disk a < ie_disk b \/ (ie_disk a = ie_disk b /\ ie_lsn a <= ie_lsn b).
#[global] Instance entry_le_dec : RelDecision entry_le.
Proof. unfold entry_le. solve_decision. Defined.

Definition Catalog_new (usage : Z -> res SE Usage) (infos : list DiskInfo) (disk_of : ChunkId -> Z) (inventory : list InventoryEntry) (options : DiskOptions) : cresult (list Disk) :=
  fail_if (do_reserve_segments options <? 4) (cache.Invalid "at least four reserve segments are required") ;?
  let? disks := new_disks usage infos 0 options in
  load disk_of (merge_sort entry_le inventory) disks.

(** ** Lookups *)

Definition version_on (d : Disk) (id : ChunkId) : option Z :=
  match ds_active (dk_state d) !! id with
  | Some _ => None
  | None => match ds_slots (dk_state d) !! id with Some slot => Some (sl_lsn slot) | None => None end
  end.

Definition validate_hit (d : Disk) (id : ChunkId) (lsn : Z) : bool * Disk :=
  match ds_active (dk_state d) !! id, ds_slots (dk_state d) !! id with
  | None, Some slot =>
      if sl_lsn slot =? lsn then
        (true, dk_set (ds_set_slots (<[id := {| sl_lsn := sl_lsn slot; sl_len := sl_len slot; sl_position := sl_position slot; sl_visited := true |}]> (ds_slots (dk_state d))) (dk_state d)) d)
      else (false, d)
  | _, _ => (false, d)
  end.

Definition catalog_remove (d : Disk) (id : ChunkId) (expected : Z) : cresult Disk :=
  match ds_slots (dk_state d) !! id with
  | Some slot => if sl_lsn slot =? expected then let? s := State_remove (dk_state d) id in Ok (dk_set s d) else Ok d
  | None => Ok d
  end.

Definition snapshot (disks : list Disk) : Z * Z :=
  foldl (fun a d => (a.1 + Z.of_nat (size (ds_slots (dk_state d))), a.2 + ds_bytes (dk_state d))) (0, 0) disks.

(** ** Eviction

    [answer] is what the store replied to the conditional deletion. *)

Definition evict (d : Disk) (id : ChunkId) (answer : res SE DeleteResult) : cresult Disk :=
  let? r := map_err cache.Store answer in
  match r with
  | Deleted _ | Missing => let? s := State_remove (dk_state d) id in Ok (dk_set s d)
  | Changed => Err (cache.Corrupt "catalog version changed outside cache ownership")
  end.

Definition over_limits (d : Disk) : bool := negb ((ds_bytes (dk_state d) <=? dk_capacity d) && (Z.of_nat (size (ds_slots (dk_state d))) <=? dk_entries d)).

(** One disk, at most [n] evictions; [answers k] is the reply to the [k]-th. *)
Fixpoint trim_disk (n : nat) (answers : nat -> res SE DeleteResult) (k : nat) (d : Disk) : cresult Disk :=
  if over_limits d then
    match n with
    | O => Ok d
    | S n =>
        let? (selected, s) := victim (dk_state d) (dk_policy d) None in
        let? (id, _) := ok_or selected cache.NoSpace in
        let? d := evict (dk_set s d) id (answers k) in
        trim_disk n answers (S k) d
    end
  else Ok d.

Fixpoint trim_from (answers : Z -> nat -> res SE DeleteResult) (i : Z) (disks : list Disk) : cresult (list Disk) :=
  match disks with
  | [] => Ok []
  | d :: disks =>
      let? d := trim_disk (size (ds_slots (dk_state d))) (answers i) 0 d in
      let? rest := trim_from answers (i + 1) disks in
      Ok (d :: rest)
  end.

Definition trim (answers : Z -> nat -> res SE DeleteResult) (disks : list Disk) : cresult (list Disk) := trim_from answers 0 disks.

(** ** Writes *)

(** [GiveUp] is the return of [NoSpace] after a search without a victim, whose
    sweep has moved the hand. *)
Inductive Action := Reserved | Evict (id : ChunkId) (lsn : Z) | Wait | GiveUp.

(** Before the disk's controller is taken: the cost of the write and its size. *)
Definition write_begin (d : Disk) (l : Z) (cost : res SE Z) : cresult Z :=
  let? allocation := map_err cache.Store cost in
  fail_if (l >? dk_capacity d) cache.NoSpace ;?
  Ok allocation.

(** One turn of the admission loop. *)
Definition write_action (d : Disk) (id : ChunkId) (l allocation : Z) (usage : res SE Usage) (canceled : Z -> bool) (channel : Z) : cresult (Action * Disk) :=
  let? usage := map_err cache.Store usage in
  let s := dk_state d in
  fail_if (match ds_active s !! id with Some _ => true | None => false end) cache.Busy ;?
  let old_len := match ds_slots s !! id with Some slot => sl_len slot | None => 0 end in
  let extra := saturating_sub l old_len in
  let new := match ds_slots s !! id with Some _ => false | None => true end in
  let? sum := add64 (ds_bytes s) (ds_extra s) in
  let? sum := add64 sum extra in
  let fits := (sum <=? dk_capacity d) && (Z.of_nat (size (ds_slots s)) + ds_new s + Z.b2z new <=? dk_entries d) in
  let? free := mul64 (us_free_segments usage) (dk_segment_size d) in
  let headroom := free >=? saturating_add (saturating_add (dk_reserve d) (ds_allocation s)) allocation in
  let wait := if decide (ds_active s = ∅) then Err cache.NoSpace else Ok (Wait, dk_set (State_wait s canceled channel) d) in
  if fits && headroom then
    let? extra' := add64 (ds_extra s) extra in
    let? new' := add64 (ds_new s) (Z.b2z new) in
    let? allocation' := add64 (ds_allocation s) allocation in
    Ok (Reserved, dk_set (ds_set_active (<[id := {| ac_extra := extra; ac_new := new; ac_allocation := allocation |}]> (ds_active s)) extra' new' allocation' s) d)
  else if negb headroom then wait
  else
    let? (selected, s) := victim s (dk_policy d) (Some id) in
    match selected with
    | Some (v, lsn) => Ok (Evict v lsn, dk_set s d)
    | None => Ok (if decide (ds_active s = ∅) then (GiveUp, dk_set s d) else (Wait, dk_set (State_wait s canceled channel) d))
    end.

(** The reply of the store to the write: the reservation is committed at its
    sequence number, or dropped. *)
Definition commit (d : Disk) (id : ChunkId) (l lsn : Z) : cresult (list Z * Disk) :=
  let? s := State_insert (dk_state d) id lsn l in
  let? (waiters, s) := State_finish s id in
  Ok (waiters, dk_set s d).

Definition abandon (d : Disk) (id : ChunkId) : cresult (list Z * Disk) :=
  let? (waiters, s) := State_finish (dk_state d) id in
  Ok (waiters, dk_set s d).
End Store.
