(* ===== verification/CatalogInv.v ===== *)
(** * The disk catalog: invariant and victim selection

    Positions, chunks and totals agree; the sweep of the Sieve policy picks the
    first unvisited candidate behind its hand, or else the first candidate. *)

From stdpp Require Import gmap sorting.
From S2P Require Import Prelude ChunkId Catalog.

(** ** Totals over maps *)

Section Sums.
Context {V : Type} (f : V -> Z).

Definition msum (m : gmap ChunkId V) : Z := map_fold (fun _ v a => f v + a) 0 m.

Lemma msum_insert m k v : m !! k = None -> msum (<[k := v]> m) = f v + msum m.
Proof. intros Hk. unfold msum. apply (map_fold_insert_L (fun _ v a => f v + a)); [intros; lia | assumption]. Qed.

Lemma msum_delete m k v : m !! k = Some v -> msum (delete k m) = msum m - f v.
Proof. intros Hk. rewrite <- (insert_delete_id m k v Hk) at 2. rewrite msum_insert by apply lookup_delete_eq. lia. Qed.

Lemma msum_update m k v v' : m !! k = Some v -> msum (<[k := v']> m) = msum m - f v + f v'.
Proof. intros Hk. rewrite <- insert_delete_eq, msum_insert by apply lookup_delete_eq. rewrite (msum_delete m k v Hk). lia. Qed.

Lemma msum_nonneg m : (forall k v, m !! k = Some v -> 0 <= f v) -> 0 <= msum m.
Proof.
  induction m as [|k v m Hk IH] using map_ind; intros Hf; [unfold msum; rewrite map_fold_empty; lia|]. rewrite msum_insert by assumption.
  pose proof (Hf k v (lookup_insert_eq _ _ _)). enough (0 <= msum m) by lia. apply IH. intros k' v' Hk'. apply (Hf k'). rewrite lookup_insert_ne; congruence.
Qed.

Lemma msum_ge m k v : (forall k v, m !! k = Some v -> 0 <= f v) -> m !! k = Some v -> f v <= msum m.
Proof.
  intros Hf Hk. rewrite <- (insert_delete_id m k v Hk), msum_insert by apply lookup_delete_eq. enough (0 <= msum (delete k m)) by lia.
  apply msum_nonneg. intros k' v' Hk'. apply lookup_delete_Some in Hk' as [_ Hk']. eauto.
Qed.
End Sums.

(** Entries that agree on what is summed have the same total. *)
Lemma msum_ext {V W : Type} (f : V -> Z) (m : gmap ChunkId V) (g : W -> Z) (m' : gmap ChunkId W) : (forall k, f <$> m !! k = g <$> m' !! k) -> msum f m = msum g m'.
Proof.
  revert m'. induction m as [|k v m Hk IH] using map_ind; intros m' He.
  - assert (m' = ∅) as ->; [|reflexivity]. apply map_empty. intros k. specialize (He k). rewrite lookup_empty in He. destruct (m' !! k); [discriminate | reflexivity].
  - pose proof (He k) as Hv. rewrite lookup_insert_eq in Hv. destruct (m' !! k) as [w|] eqn:Hw; [|discriminate]. injection Hv as Hv. rewrite msum_insert by assumption.
    rewrite <- (insert_delete_id m' k w Hw), msum_insert by apply lookup_delete_eq. rewrite (IH (delete k m')); [lia|]. intros j. destruct (decide (k = j)) as [<-|Hne].
    + rewrite Hk, lookup_delete_eq. reflexivity.
    + specialize (He j). rewrite lookup_insert_ne in He by assumption. rewrite lookup_delete_ne by assumption. exact He.
Qed.

(** ** B-tree maps *)

Definition by_key (a b : Z * ChunkId) : Prop := a.1 < b.1.
Abbreviation sorted := (StronglySorted by_key).

Lemma filter_none {A} (p : A -> bool) l : (forall x, x ∈ l -> p x = false) -> List.filter p l = [].
Proof. induction l as [|x l IH]; intros H; cbn; [reflexivity|]. rewrite (H x ltac:(left)). apply IH. intros y Hy. apply H. right. assumption. Qed.

Lemma filter_all {A} (p : A -> bool) l : (forall x, x ∈ l -> p x = true) -> List.filter p l = l.
Proof. induction l as [|x l IH]; intros H; cbn; [reflexivity|]. rewrite (H x ltac:(left)), IH; [reflexivity|]. intros y Hy. apply H. right. assumption. Qed.

Lemma elem_of_filter {A} (p : A -> bool) l x : x ∈ List.filter p l <-> x ∈ l /\ p x = true.
Proof. rewrite !list_elem_of_In. apply filter_In. Qed.

Lemma sorted_cons_inv x l : sorted (x :: l) -> sorted l /\ forall y, y ∈ l -> x.1 < y.1.
Proof. intros H. inversion H as [|? ? Hs Hf]; subst. split; [assumption|]. rewrite Forall_forall in Hf. exact Hf. Qed.

Lemma sorted_filter p l : sorted l -> sorted (List.filter p l).
Proof.
  induction l as [|x l IH]; intros H; cbn; [constructor|]. apply sorted_cons_inv in H as [H1 H2]. destruct (p x); [|auto]. constructor; [auto|].
  apply Forall_forall. intros y Hy. apply H2. apply elem_of_filter in Hy as [Hy _]. assumption.
Qed.

Lemma bt_insert_elem k v l x : k ∉ map fst l -> x ∈ bt_insert k v l <-> x = (k, v) \/ x ∈ l.
Proof.
  induction l as [|[k' v'] l IH]; intros Hk; cbn [bt_insert]; [rewrite list_elem_of_singleton; split; [auto | intros [?|H]; [assumption | inversion H]]|].
  cbn in Hk. apply not_elem_of_cons in Hk as [Hne Hk]. destruct (k <? k'); [rewrite elem_of_cons; reflexivity|]. destruct (Z.eqb_spec k k'); [contradiction|]. rewrite !elem_of_cons, (IH Hk). tauto.
Qed.

Lemma bt_insert_sorted k v l : sorted l -> sorted (bt_insert k v l).
Proof.
  induction l as [|[k' v'] l IH]; intros H; cbn [bt_insert]; [repeat constructor|]. pose proof H as Hs. apply sorted_cons_inv in H as [H1 H2].
  destruct (Z.ltb_spec k k') as [Hlt|Hge]; [|destruct (Z.eqb_spec k k') as [->|Hne]].
  - constructor; [assumption|]. apply Forall_forall. intros y Hy. unfold by_key. cbn. apply elem_of_cons in Hy as [->|Hy]; [assumption | specialize (H2 y Hy); cbn in H2; lia].
  - constructor; [assumption|]. apply Forall_forall. intros y Hy. specialize (H2 y Hy). exact H2.
  - constructor; [auto|]. apply Forall_forall. intros y Hy. unfold by_key. cbn [fst]. clear IH Hs H1.
    assert (Hin : y = (k, v) \/ y ∈ l).
    { clear H2. induction l as [|[k2 v2] l IH]; cbn [bt_insert] in Hy; [left; apply list_elem_of_singleton in Hy; assumption|]. rewrite elem_of_cons.
      destruct (k <? k2); [apply elem_of_cons in Hy as [->|Hy]; [left; reflexivity | right; apply elem_of_cons; assumption]|].
      destruct (k =? k2); apply elem_of_cons in Hy as [->|Hy]; [left; reflexivity | right; right; assumption | right; left; reflexivity|]. destruct (IH Hy); auto. }
    destruct Hin as [->|Hin]; [cbn; lia | apply (H2 y Hin)].
Qed.

Lemma sorted_keys l x y : sorted l -> x ∈ l -> y ∈ l -> x.1 = y.1 -> x = y.
Proof.
  induction l as [|z l IH]; intros Hs Hx Hy He; [inversion Hx|]. apply sorted_cons_inv in Hs as [Hs Hz]. apply elem_of_cons in Hx as [->|Hx], Hy as [Hy|Hy]; auto.
  - specialize (Hz y Hy). lia.
  - subst y. specialize (Hz x Hx). lia.
Qed.

Lemma sorted_NoDup l : sorted l -> NoDup l.
Proof. induction 1 as [|x l _ IH Hf]; constructor; [|assumption]. intros Hin. rewrite Forall_forall in Hf. specialize (Hf x Hin). unfold by_key in Hf. lia. Qed.

(** ** The invariant *)

Record listed (s : DiskState) : Prop := {
  li_sorted : sorted (ds_order s);
  li_order : forall pos id, (pos, id) ∈ ds_order s <-> exists slot, ds_slots s !! id = Some slot /\ sl_position slot = pos;
  li_clock : 0 <= ds_clock s /\ forall x, x ∈ ds_order s -> x.1 <= ds_clock s;
  li_len : forall id slot, ds_slots s !! id = Some slot -> 0 <= sl_len slot < 2 ^ 32;
  li_bytes : ds_bytes s = msum sl_len (ds_slots s)
}.

Lemma listed_ids s : listed s -> NoDup (map snd (ds_order s)).
Proof.
  intros H. assert (Hinj : forall x y, x ∈ ds_order s -> y ∈ ds_order s -> x.2 = y.2 -> x = y).
  { intros [p i] [q j] Hx Hy He. cbn in He. subst j. apply (li_order _ H) in Hx as (a & Ha & <-), Hy as (b & Hb & <-). congruence. }
  pose proof (sorted_NoDup _ (li_sorted _ H)) as Hn. clear H. induction Hn as [|x l Hx Hn IH]; cbn; constructor.
  - intros Hin. apply list_elem_of_fmap in Hin as (y & He & Hy). rewrite (Hinj x y ltac:(left) ltac:(right; assumption) He) in Hx. contradiction.
  - apply IH. intros a b Ha Hb. apply Hinj; right; assumption.
Qed.

Lemma listed_size s : listed s -> length (ds_order s) = size (ds_slots s).
Proof.
  intros H. rewrite <- size_dom. transitivity (size (list_to_set (map snd (ds_order s)) : gset ChunkId)).
  - rewrite size_list_to_set by (apply listed_ids; assumption). rewrite length_map. reflexivity.
  - f_equal. apply set_eq. intros id. rewrite elem_of_list_to_set, elem_of_dom, list_elem_of_fmap. split.
    + intros ([p i] & -> & Hin). apply (li_order _ H) in Hin as (slot & Hs & _). eauto.
    + intros [slot Hs]. exists (sl_position slot, id). split; [reflexivity|]. apply (li_order _ H). eauto.
Qed.

(** The fields a change of the slots leaves alone. *)
Definition same_active (s s' : DiskState) : Prop :=
  ds_active s' = ds_active s /\ ds_extra s' = ds_extra s /\ ds_new s' = ds_new s /\ ds_allocation s' = ds_allocation s /\ ds_waiters s' = ds_waiters s.

Definition slot_len (s : DiskState) (id : ChunkId) : Z := match ds_slots s !! id with Some slot => sl_len slot | None => 0 end.

Lemma listed_bytes s : listed s -> 0 <= ds_bytes s.
Proof. intros H. rewrite (li_bytes _ H). apply msum_nonneg. intros id slot Hs. apply (li_len _ H) in Hs. lia. Qed.

Lemma slot_len_bounds s id : listed s -> 0 <= slot_len s id <= ds_bytes s.
Proof.
  intros H. unfold slot_len. destruct (ds_slots s !! id) as [slot|] eqn:Hs; [|pose proof (listed_bytes s H); lia]. pose proof (li_len _ H id slot Hs). split; [lia|].
  rewrite (li_bytes _ H). apply (msum_ge sl_len _ id slot); [|assumption]. intros k v Hk. apply (li_len _ H) in Hk. lia.
Qed.

Section Changes.
Context {SE : Type}.

Lemma State_remove_ok s id : listed s -> exists s', State_remove (SE := SE) s id = Ok s' /\ listed s' /\ same_active s s' /\
  ds_slots s' = delete id (ds_slots s) /\ ds_bytes s' = ds_bytes s - slot_len s id /\ ds_clock s' = ds_clock s.
Proof.
  intros H. pose proof (slot_len_bounds s id H) as Hb. unfold State_remove, slot_len in *. destruct (ds_slots s !! id) as [slot|] eqn:Hs.
  2: { exists s. split; [reflexivity|]. split; [assumption|]. split; [repeat split|]. rewrite delete_id by assumption. split; [reflexivity|]. split; [lia | reflexivity]. }
  unfold sub64. rewrite (proj2 (Z.leb_le _ _)) by lia. cbn [rbind]. eexists. split; [reflexivity|]. split; [|split; [repeat split | auto]].
  destruct H as [H1 H2 H3 H4 H5]. constructor; cbn.
  - apply sorted_filter. assumption.
  - intros pos i. unfold bt_remove. rewrite elem_of_filter. cbn [fst]. rewrite H2. setoid_rewrite lookup_delete_Some. split.
    + intros [(sl & Hsl & <-) Hne]. exists sl. split; [|reflexivity]. split; [|assumption]. intros <-. assert (sl = slot) by congruence. subst. rewrite Z.eqb_refl in Hne. discriminate.
    + intros (sl & [Hne Hsl] & <-). split; [eauto|]. destruct (Z.eqb_spec (sl_position sl) (sl_position slot)) as [He|]; [|reflexivity]. exfalso. apply Hne.
      pose proof (sorted_keys _ (sl_position slot, id) (sl_position sl, i) H1) as Hk. rewrite !H2 in Hk. specialize (Hk ltac:(eauto) ltac:(eauto) ltac:(auto)). congruence.
  - split; [apply H3|]. intros x Hx. apply elem_of_filter in Hx as [Hx _]. apply H3. assumption.
  - intros i sl Hi. apply lookup_delete_Some in Hi as [_ Hi]. eauto.
  - rewrite (msum_delete sl_len _ id slot Hs). lia.
Qed.

Lemma State_insert_ok s id lsn l : listed s -> 0 <= l < 2 ^ 32 -> ds_clock s < U64_MAX -> ds_bytes s - slot_len s id + l <= U64_MAX ->
  exists s' slot, State_insert (SE := SE) s id lsn l = Ok s' /\ listed s' /\ same_active s s' /\
    ds_slots s' = <[id := slot]> (ds_slots s) /\ sl_lsn slot = lsn /\ sl_len slot = l /\ sl_visited slot = false /\
    ds_bytes s' = ds_bytes s - slot_len s id + l /\ ds_clock s' = ds_clock s + 1.
Proof.
  intros H Hl Hc Hb. unfold State_insert. destruct (State_remove_ok s id H) as (s1 & -> & H1 & (A1 & A2 & A3 & A4 & A5) & Hs1 & Hb1 & Hc1). cbn [rbind]. unfold add64.
  rewrite !(proj2 (Z.leb_le _ _)) by lia. cbn [rbind]. eexists _, _. split; [reflexivity|]. cbn. split; [|split; [repeat split; assumption|]; rewrite Hs1, insert_delete_eq; repeat split; lia].
  assert (Hfresh : ds_clock s1 + 1 ∉ map fst (ds_order s1)).
  { intros Hin. apply list_elem_of_fmap in Hin as (x & He & Hx). pose proof (proj2 (li_clock _ H1) x Hx). lia. }
  assert (Hnone : ds_slots s1 !! id = None) by (rewrite Hs1; apply lookup_delete_eq).
  destruct H1 as [L1 L2 [L3 L3'] L4 L5]. constructor; cbn.
  - apply bt_insert_sorted. assumption.
  - intros pos i. rewrite bt_insert_elem by assumption. rewrite L2. destruct (decide (id = i)) as [<-|Hne].
    + rewrite lookup_insert_eq, Hnone. split; [intros [[= ->]|(sl & Hsl & _)]; [eauto | discriminate] | intros (sl & [= <-] & <-); left; reflexivity].
    + rewrite lookup_insert_ne by assumption. split; [intros [He|He]; [congruence | assumption] | auto].
  - split; [lia|]. intros x Hx. apply bt_insert_elem in Hx as [->|Hx]; [cbn; lia | specialize (L3' x Hx); lia | assumption].
  - intros i sl Hi. destruct (decide (id = i)) as [<-|Hne]; [rewrite lookup_insert_eq in Hi; injection Hi as <-; assumption | rewrite lookup_insert_ne in Hi by assumption; eauto].
  - rewrite msum_insert by assumption. cbn. lia.
Qed.
End Changes.

(** ** The sweep *)

(** What is behind the hand, then what is before it. *)
Definition rotation (s : DiskState) : list (Z * ChunkId) :=
  List.filter (fun e => e.1 >? ds_hand s) (ds_order s) ++ List.filter (fun e => negb (e.1 >? ds_hand s)) (ds_order s).

Lemma sorted_split h l : sorted l -> l = List.filter (fun e => negb (e.1 >? h)) l ++ List.filter (fun e => e.1 >? h) l.
Proof.
  induction l as [|x l IH]; intros Hs; cbn; [reflexivity|]. apply sorted_cons_inv in Hs as [Hs Hx]. destruct (Z.gtb_spec x.1 h) as [Hgt|Hle]; cbn [negb app]; [|f_equal; auto].
  rewrite (filter_none (fun e => negb (e.1 >? h)) l), (filter_all (fun e => e.1 >? h) l); [reflexivity| |]; intros y Hy; specialize (Hx y Hy); [|rewrite negb_false_iff]; apply Z.gtb_lt; lia.
Qed.

Lemma find_filter {A} (p : A -> bool) l : List.find p l = head (List.filter p l).
Proof. induction l as [|x l IH]; cbn; [reflexivity|]. destruct (p x); auto. Qed.

Lemma next_rotation s : sorted (ds_order s) -> next_in_order s = head (rotation s).
Proof.
  intros Hs. unfold next_in_order, rotation. rewrite find_filter. destruct (List.filter (fun e => e.1 >? ds_hand s) (ds_order s)) as [|x b] eqn:Hb; [|reflexivity].
  cbn. rewrite (sorted_split (ds_hand s) _ Hs) at 1. rewrite Hb, app_nil_r. reflexivity.
Qed.

Lemma rotation_step s x q : sorted (ds_order s) -> rotation s = x :: q -> rotation (ds_set_hand x.1 s) = q ++ [x].
Proof.
  intros Hs Hr. unfold rotation in *. cbn [ds_hand ds_order ds_set_hand]. set (h := ds_hand s) in *. pose proof (sorted_split h _ Hs) as Hl. set (a := List.filter (fun e => negb (e.1 >? h)) (ds_order s)) in *.
  set (b := List.filter (fun e => e.1 >? h) (ds_order s)) in *. assert (Ha : forall y, y ∈ a -> y.1 <= h) by (intros y Hy; apply elem_of_filter in Hy as [_ Hy]; destruct (Z.gtb_spec y.1 h); [discriminate | lia]).
  assert (Hb : forall y, y ∈ b -> h < y.1) by (intros y Hy; apply elem_of_filter in Hy as [_ Hy]; apply Z.gtb_lt in Hy; lia). clearbody a b. rewrite Hl in Hs |- *. clear Hl.
  assert (Happ : forall l1 l2, sorted (l1 ++ l2) -> sorted l2) by (induction l1 as [|z l1 IH]; intros l2 H; [exact H | apply sorted_cons_inv in H as [H _]; auto]).
  destruct b as [|y b']; cbn in Hr.
  - subst a. rewrite app_nil_r in *. apply sorted_cons_inv in Hs as [_ Hx]. cbn. destruct (Z.gtb_spec x.1 x.1); [lia|]. cbn [negb].
    rewrite filter_all, filter_none; [reflexivity| |]; intros y Hy; specialize (Hx y Hy); [rewrite negb_false_iff|]; apply Z.gtb_lt; lia.
  - injection Hr as -> <-. pose proof (Hb x ltac:(left)) as Hxh. apply Happ in Hs as Hs'. apply sorted_cons_inv in Hs' as [_ Hx]. rewrite !List.filter_app. cbn. destruct (Z.gtb_spec x.1 x.1); [lia|]. cbn [negb].
    rewrite (filter_none _ a), (filter_all _ b'), (filter_all _ a), (filter_none _ b'); [cbn; rewrite app_assoc; reflexivity| | | |]; intros z Hz; rewrite ?negb_false_iff, ?negb_true_iff;
      first [apply Z.gtb_lt; specialize (Hx z Hz); lia | destruct (Z.gtb_spec z.1 x.1); [specialize (Ha z Hz); lia | reflexivity]].
Qed.

(** A sweep changes nothing but the hand and visited bits. *)
Definition unmarked (slot : Slot) : Z * Z * Z := (sl_lsn slot, sl_len slot, sl_position slot).
Record alike (s s' : DiskState) : Prop := {
  al_order : ds_order s' = ds_order s;
  al_clock : ds_clock s' = ds_clock s /\ ds_bytes s' = ds_bytes s;
  al_active : same_active s s';
  al_slots : forall id, unmarked <$> ds_slots s' !! id = unmarked <$> ds_slots s !! id
}.

Lemma alike_refl s : alike s s.
Proof. repeat split. Qed.

Lemma alike_trans s s' s'' : alike s s' -> alike s' s'' -> alike s s''.
Proof.
  intros [A1 [A2 A3] (B1 & B2 & B3 & B4 & B5) A4] [C1 [C2 C3] (D1 & D2 & D3 & D4 & D5) C4].
  constructor; [congruence | split; congruence | repeat split; congruence | intros id; rewrite C4; apply A4].
Qed.

Lemma alike_slot s s' id slot' : alike s s' -> ds_slots s' !! id = Some slot' ->
  exists slot, ds_slots s !! id = Some slot /\ sl_lsn slot' = sl_lsn slot /\ sl_len slot' = sl_len slot /\ sl_position slot' = sl_position slot.
Proof.
  intros A Hs. pose proof (al_slots _ _ A id) as He. rewrite Hs in He. destruct (ds_slots s !! id) as [slot|]; [|discriminate]. injection He as H1 H2 H3. exists slot. auto.
Qed.

Lemma alike_sym s s' : alike s s' -> alike s' s.
Proof. intros [A1 [A2 A3] (B1 & B2 & B3 & B4 & B5) A4]. constructor; [congruence | split; congruence | repeat split; congruence | intros id; symmetry; apply A4]. Qed.

Lemma alike_listed s s' : alike s s' -> listed s -> listed s'.
Proof.
  intros A [H1 H2 H3 H4 H5]. pose proof (al_order _ _ A) as Ho. destruct (al_clock _ _ A) as [Hc Hb]. constructor; rewrite ?Ho, ?Hc, ?Hb; auto.
  - intros pos id. rewrite H2. split; intros (sl & Hsl & Hp); [apply (alike_slot _ _ _ _ (alike_sym _ _ A)) in Hsl as (sl' & ? & _ & _ & ?) | apply (alike_slot _ _ _ _ A) in Hsl as (sl' & ? & _ & _ & ?)]; exists sl'; (split; [assumption | congruence]).
  - intros id sl Hsl. apply (alike_slot _ _ _ _ A) in Hsl as (sl' & Hsl' & _ & -> & _). eauto.
  - rewrite H5. apply msum_ext. intros id. pose proof (al_slots _ _ A id) as He. destruct (ds_slots s' !! id), (ds_slots s !! id); try discriminate; [|reflexivity]. injection He as _ He _. cbn. congruence.
Qed.

Section Sweep.
Context {SE : Type} (exclude : option ChunkId).
Abbreviation sweep := (sweep (SE := SE)).

Definition visited (s : DiskState) (id : ChunkId) : bool := match ds_slots s !! id with Some slot => sl_visited slot | None => false end.
Definition candidate (s : DiskState) (e : Z * ChunkId) : bool := negb (excluded s exclude e.2).
Definition unvisited (s : DiskState) (e : Z * ChunkId) : bool := candidate s e && negb (visited s e.2).

Lemma alike_candidate s s' e : alike s s' -> candidate s' e = candidate s e.
Proof. intros A. unfold candidate, excluded. destruct (al_active _ _ A) as (-> & _). reflexivity. Qed.

Lemma rotation_elem s x : x ∈ rotation s <-> x ∈ ds_order s.
Proof.
  unfold rotation. rewrite elem_of_app, !elem_of_filter. destruct (x.1 >? ds_hand s); cbn; intuition discriminate.
Qed.

Definition unmark (slot : Slot) : Slot := {| sl_lsn := sl_lsn slot; sl_len := sl_len slot; sl_position := sl_position slot; sl_visited := false |}.

(** One turn that does not end the sweep. *)
Lemma sweep_turn n s x q : listed s -> rotation s = x :: q -> unvisited s x = false ->
  exists s', sweep (S n) s exclude = sweep n s' exclude /\ alike s s' /\ rotation s' = q ++ [x] /\ forall id, visited s' id = visited s id && negb (bool_decide (id = x.2) && candidate s x).
Proof.
  intros H Hr Hu. destruct x as [pos id]. cbn [Catalog.sweep]. rewrite (next_rotation s (li_sorted _ H)), Hr. cbn [head]. change (excluded (ds_set_hand pos s) exclude id) with (excluded s exclude id).
  pose proof (rotation_step s (pos, id) q (li_sorted _ H) Hr) as Hr'. cbn [fst] in Hr'. unfold unvisited, candidate in *. cbn [snd] in *. destruct (excluded s exclude id); cbn [negb andb] in *.
  - exists (ds_set_hand pos s). split; [reflexivity|]. split; [repeat split|]. split; [exact Hr'|]. intros i. rewrite andb_false_r. cbn. rewrite andb_true_r. reflexivity.
  - apply negb_false_iff in Hu. assert (Hin : (pos, id) ∈ ds_order s) by (apply rotation_elem; rewrite Hr; left). apply (li_order _ H) in Hin as (slot & Hslot & Hpos). cbn [ds_slots ds_set_hand]. unfold visited in Hu. rewrite Hslot in *. cbn [expect rbind]. rewrite Hu.
    eexists. split; [reflexivity|]. split; [|split; [exact Hr'|]].
    + constructor; try reflexivity; [split; reflexivity | repeat split|]. intros i. cbn. destruct (decide (id = i)) as [<-|Hne]; [rewrite lookup_insert_eq, Hslot; reflexivity | rewrite lookup_insert_ne by assumption; reflexivity].
    + intros i. unfold visited. cbn. destruct (decide (id = i)) as [<-|Hne].
      * rewrite lookup_insert_eq, bool_decide_eq_true_2 by reflexivity. cbn. rewrite andb_false_r. reflexivity.
      * rewrite lookup_insert_ne by assumption. rewrite bool_decide_eq_false_2 by congruence. cbn. rewrite andb_true_r. reflexivity.
Qed.

(** Several such turns. *)
Lemma sweep_skip a : forall n s b, listed s -> NoDup (map snd a) -> rotation s = a ++ b -> (forall x, x ∈ a -> unvisited s x = false) ->
  exists s', sweep (length a + n) s exclude = sweep n s' exclude /\ alike s s' /\ rotation s' = b ++ a /\
    (forall x, x ∈ a -> candidate s x = true -> visited s' x.2 = false) /\ (forall id, visited s id = false -> visited s' id = false) /\ forall id, id ∉ map snd a -> visited s' id = visited s id.
Proof.
  induction a as [|x a IH]; intros n s b H Hn Hr Hu.
  { exists s. rewrite app_nil_r. split; [reflexivity|]. split; [apply alike_refl|]. split; [exact Hr|]. split; [intros x Hx; inversion Hx | auto]. }
  cbn in Hn. apply NoDup_cons in Hn as [Hx Hn]. destruct (sweep_turn (length a + n) s x (a ++ b) H Hr (Hu x ltac:(left))) as (s1 & Hs1 & A1 & Hr1 & Hv1).
  assert (Hsame : forall y, y ∈ a -> unvisited s1 y = unvisited s y).
  { intros y Hy. unfold unvisited. rewrite (alike_candidate s s1 y A1), Hv1. rewrite bool_decide_eq_false_2; [cbn; rewrite andb_true_r; reflexivity|]. intros He. apply Hx. rewrite <- He. apply list_elem_of_fmap_2. assumption. }
  rewrite <- app_assoc in Hr1. destruct (IH n s1 (b ++ [x]) (alike_listed _ _ A1 H) Hn Hr1) as (s' & Hs' & A' & Hr' & Hc' & Hf' & Ho'); [intros y Hy; rewrite (Hsame y Hy); apply Hu; right; assumption|].
  exists s'. split; [cbn [length Nat.add]; rewrite Hs1; exact Hs'|]. split; [eapply alike_trans; eassumption|]. split; [rewrite Hr', <- app_assoc; reflexivity|]. split; [|split].
  - intros y Hy Hcand. apply elem_of_cons in Hy as [->|Hy]; [|apply Hc'; [assumption | rewrite (alike_candidate s s1 y A1); assumption]].
    apply Hf'. rewrite Hv1, bool_decide_eq_true_2, Hcand by reflexivity. apply andb_false_r.
  - intros id Hid. apply Hf'. rewrite Hv1, Hid. reflexivity.
  - intros id Hid. cbn in Hid. apply not_elem_of_cons in Hid as [Hne Hid]. rewrite (Ho' id Hid), Hv1, bool_decide_eq_false_2 by assumption. cbn. apply andb_true_r.
Qed.

(** A turn that ends it. *)
Lemma sweep_hit n s x q : listed s -> rotation s = x :: q -> unvisited s x = true ->
  exists slot s', sweep (S n) s exclude = Ok (Some (x.2, sl_lsn slot), s') /\ ds_slots s !! x.2 = Some slot /\ alike s s'.
Proof.
  intros H Hr Hu. destruct x as [pos id]. apply andb_true_iff in Hu as [Hc Hv]. unfold candidate in Hc. cbn [snd] in *. apply negb_true_iff in Hc, Hv. cbn [Catalog.sweep]. rewrite (next_rotation s (li_sorted _ H)), Hr. cbn [head].
  change (excluded (ds_set_hand pos s) exclude id) with (excluded s exclude id). rewrite Hc. assert (Hin : (pos, id) ∈ ds_order s) by (apply rotation_elem; rewrite Hr; left). apply (li_order _ H) in Hin as (slot & Hslot & _).
  cbn [ds_slots ds_set_hand]. unfold visited in Hv. rewrite Hslot in *. cbn [expect rbind]. rewrite Hv. exists slot, (ds_set_hand pos s). split; [reflexivity|]. split; [reflexivity | repeat split].
Qed.

Lemma rotation_perm s : sorted (ds_order s) -> Permutation (rotation s) (ds_order s).
Proof. intros Hs. transitivity (List.filter (fun e => negb (e.1 >? ds_hand s)) (ds_order s) ++ List.filter (fun e => e.1 >? ds_hand s) (ds_order s)); [apply Permutation_app_comm | rewrite <- sorted_split by assumption; reflexivity]. Qed.

Lemma rotation_ids s : listed s -> NoDup (map snd (rotation s)).
Proof. intros H. rewrite (rotation_perm s (li_sorted _ H)). apply listed_ids. assumption. Qed.

Lemma find_split {A} (p : A -> bool) l x : List.find p l = Some x -> exists a b, l = a ++ x :: b /\ p x = true /\ forall y, y ∈ a -> p y = false.
Proof.
  induction l as [|y l IH]; cbn; [discriminate|]. destruct (p y) eqn:Hy; [intros [= ->]; exists [], l; split; [reflexivity|]; split; [assumption | intros z Hz; inversion Hz]|].
  intros Hf. destruct (IH Hf) as (a & b & -> & Hx & Ha). exists (y :: a), b. split; [reflexivity|]. split; [assumption|]. intros z Hz. apply elem_of_cons in Hz as [->|Hz]; auto.
Qed.

Lemma find_none_all {A} (p : A -> bool) l : List.find p l = None -> forall y, y ∈ l -> p y = false.
Proof. intros Hf y Hy. apply (List.find_none p l Hf). apply list_elem_of_In. assumption. Qed.

(** The chunk a sweep settles on. *)
Definition sieve_choice (s : DiskState) : option ChunkId :=
  match List.find (unvisited s) (rotation s) with
  | Some x => Some x.2
  | None => match List.find (candidate s) (rotation s) with Some x => Some x.2 | None => None end
  end.

Lemma sweep_reaches s a x b n : listed s -> rotation s = a ++ x :: b -> (forall y, y ∈ a -> unvisited s y = false) -> unvisited s x = true -> (length a < n)%nat ->
  exists slot s', sweep n s exclude = Ok (Some (x.2, sl_lsn slot), s') /\ ds_slots s !! x.2 = Some slot /\ alike s s'.
Proof.
  intros H Hr Ha Hx Hn. pose proof (rotation_ids s H) as Hids. rewrite Hr, map_app in Hids. apply NoDup_app in Hids as (Hna & Hdisj & _). replace n with (length a + S (n - length a - 1))%nat by lia.
  destruct (sweep_skip a (S (n - length a - 1)) s (x :: b) H Hna Hr Ha) as (s1 & -> & A1 & Hr1 & _ & _ & Ho1).
  destruct (sweep_hit (n - length a - 1) s1 x (b ++ a) (alike_listed _ _ A1 H) Hr1) as (slot1 & s' & Hs' & Hslot1 & A').
  { unfold unvisited in *. rewrite (alike_candidate s s1 x A1), Ho1; [assumption|]. intros Hin. apply (Hdisj _ Hin). cbn. left. }
  apply (alike_slot _ _ _ _ A1) in Hslot1 as (slot & Hslot & Hlsn & _). exists slot, s'. rewrite <- Hlsn. split; [exact Hs'|]. split; [assumption | eapply alike_trans; eassumption].
Qed.

Lemma sweep_nothing n : forall s, listed s -> (forall x, x ∈ rotation s -> candidate s x = false) -> exists s', sweep n s exclude = Ok (None, s') /\ alike s s'.
Proof.
  induction n as [|n IH]; intros s H Hc; [exists s; split; [reflexivity | apply alike_refl]|]. destruct (rotation s) as [|x q] eqn:Hr.
  - exists s. cbn [Catalog.sweep]. rewrite (next_rotation s (li_sorted _ H)), Hr. split; [reflexivity | apply alike_refl].
  - destruct (sweep_turn n s x q H Hr) as (s1 & -> & A1 & Hr1 & _); [unfold unvisited; rewrite (Hc x) by left; reflexivity|].
    destruct (IH s1 (alike_listed _ _ A1 H)) as (s' & Hs' & A'); [|exists s'; split; [exact Hs' | eapply alike_trans; eassumption]].
    intros y Hy. rewrite (alike_candidate s s1 y A1). apply Hc. rewrite Hr1 in Hy. apply elem_of_app in Hy as [Hy|Hy]; [right; assumption | apply list_elem_of_singleton in Hy as ->; left].
Qed.

Lemma sweep_exact s n : listed s -> (2 * length (ds_order s) <= n)%nat ->
  exists s', sweep n s exclude = Ok (match sieve_choice s with Some id => (fun slot => (id, sl_lsn slot)) <$> ds_slots s !! id | None => None end, s') /\ alike s s'.
Proof.
  intros H Hn. rewrite <- (Permutation_length (rotation_perm s (li_sorted _ H))) in Hn. unfold sieve_choice. destruct (List.find (unvisited s) (rotation s)) as [x|] eqn:Hf.
  - destruct (find_split _ _ _ Hf) as (a & b & Hr & Hx & Ha). rewrite Hr, length_app in Hn. cbn in Hn. destruct (sweep_reaches s a x b n H Hr Ha Hx ltac:(lia)) as (slot & s' & -> & Hslot & A). exists s'. rewrite Hslot. split; [reflexivity | assumption].
  - pose proof (find_none_all _ _ Hf) as Hall. destruct (List.find (candidate s) (rotation s)) as [x|] eqn:Hg; [|apply sweep_nothing; [assumption | apply (find_none_all _ _ Hg)]].
    destruct (find_split _ _ _ Hg) as (a & b & Hr & Hx & Ha). replace n with (length (rotation s) + (n - length (rotation s)))%nat by lia.
    destruct (sweep_skip (rotation s) (n - length (rotation s)) s [] H (rotation_ids s H) ltac:(rewrite app_nil_r; reflexivity) Hall) as (s1 & -> & A1 & Hr1 & Hc1 & _). cbn in Hr1. rewrite Hr in Hr1.
    destruct (sweep_reaches s1 a x b (n - length (rotation s)) (alike_listed _ _ A1 H) Hr1) as (slot1 & s' & -> & Hslot1 & A').
    + intros y Hy. unfold unvisited. rewrite (alike_candidate s s1 y A1), (Ha y Hy). reflexivity.
    + unfold unvisited. rewrite (alike_candidate s s1 x A1), Hx, (Hc1 x); [reflexivity | rewrite Hr; apply elem_of_app; right; left | assumption].
    + rewrite Hr, length_app in *. cbn in *. lia.
    + apply (alike_slot _ _ _ _ A1) in Hslot1 as (slot & Hslot & Hlsn & _). rewrite Hslot, Hlsn. exists s'. split; [reflexivity | eapply alike_trans; eassumption].
Qed.

(** What a victim is under either policy. *)
Lemma victim_ok s policy : listed s -> 2 * Z.of_nat (size (ds_slots s)) <= U64_MAX ->
  exists r s', victim (SE := SE) s policy exclude = Ok (r, s') /\ alike s s' /\
    match r with
    | Some (id, lsn) => excluded s exclude id = false /\ exists slot, ds_slots s !! id = Some slot /\ sl_lsn slot = lsn
    | None => forall id slot, ds_slots s !! id = Some slot -> excluded s exclude id = true
    end.
Proof.
  intros H Hsize. assert (Hnone : (forall x, x ∈ ds_order s -> candidate s x = false) -> forall id slot, ds_slots s !! id = Some slot -> excluded s exclude id = true).
  { intros Hall id slot Hs. apply negb_false_iff. apply (Hall (sl_position slot, id)). apply (li_order _ H). eauto. }
  assert (Hsome : forall x, x ∈ ds_order s -> candidate s x = true -> exists slot, ds_slots s !! x.2 = Some slot /\ excluded s exclude x.2 = false).
  { intros [p i] Hx Hc. apply (li_order _ H) in Hx as (slot & Hs & _). exists slot. split; [assumption | apply negb_true_iff; assumption]. }
  destruct policy; cbn [victim].
  - destruct (List.find _ (ds_order s)) as [[p i]|] eqn:Hf.
    + destruct (find_split _ _ _ Hf) as (a & b & Ho & Hx & _). destruct (Hsome (p, i)) as (slot & Hs & He); [rewrite Ho; apply elem_of_app; right; left | exact Hx|]. cbn in Hs. rewrite Hs. cbn [expect rbind].
      exists (Some (i, sl_lsn slot)), s. split; [reflexivity|]. split; [apply alike_refl|]. split; [assumption | eauto].
    + exists None, s. split; [reflexivity|]. split; [apply alike_refl|]. apply Hnone. apply (find_none_all _ _ Hf).
  - destruct (sweep_exact s (Z.to_nat (Z.min (2 * Z.of_nat (size (ds_slots s))) U64_MAX)) H) as (s' & -> & A); [rewrite (listed_size s H); lia|]. eexists _, s'. split; [reflexivity|]. split; [assumption|]. unfold sieve_choice.
    assert (Hin : forall x, x ∈ rotation s -> candidate s x = true -> match (fun slot => (x.2, sl_lsn slot)) <$> ds_slots s !! x.2 with
      | Some (id, lsn) => excluded s exclude id = false /\ exists slot, ds_slots s !! id = Some slot /\ sl_lsn slot = lsn
      | None => forall id slot, ds_slots s !! id = Some slot -> excluded s exclude id = true end).
    { intros x Hx Hc. destruct (Hsome x ltac:(apply rotation_elem; assumption) Hc) as (slot & Hs & He). rewrite Hs. cbn. split; [assumption | eauto]. }
    destruct (List.find (unvisited s) (rotation s)) as [x|] eqn:Hf.
    + apply find_some in Hf as [Hx Hu]. apply andb_true_iff in Hu as [Hc _]. apply Hin; [apply list_elem_of_In; assumption | assumption].
    + destruct (List.find (candidate s) (rotation s)) as [x|] eqn:Hg.
      * apply find_some in Hg as [Hx Hc]. apply Hin; [apply list_elem_of_In; assumption | assumption].
      * apply Hnone. intros y Hy. apply (find_none_all _ _ Hg). apply rotation_elem. assumption.
Qed.
End Sweep.

(** ** One disk of the catalog

    The limits of a disk with the writes in flight, kept by admission,
    eviction, commit, cancellation and invalidation; trimming ends. *)

Definition is_new (s : DiskState) (id : ChunkId) : bool := match ds_slots s !! id with Some _ => false | None => true end.
Definition live (s : DiskState) : Z := Z.of_nat (size (ds_slots s)).

(** [reserved] are the lengths of the writes in flight. *)
Record disk_ok (d : Disk) (reserved : gmap ChunkId Z) : Prop := {
  dk_listed : listed (dk_state d);
  dk_extra : ds_extra (dk_state d) = msum ac_extra (ds_active (dk_state d));
  dk_new : ds_new (dk_state d) = msum (fun a => Z.b2z (ac_new a)) (ds_active (dk_state d));
  dk_allocation : ds_allocation (dk_state d) = msum ac_allocation (ds_active (dk_state d));
  dk_active : forall id, match ds_active (dk_state d) !! id, reserved !! id with
    | Some a, Some l => 0 <= l < 2 ^ 32 /\ ac_extra a = saturating_sub l (slot_len (dk_state d) id) /\ ac_new a = is_new (dk_state d) id /\ 0 <= ac_allocation a
    | None, None => True
    | _, _ => False
    end;
  dk_bytes_fit : ds_bytes (dk_state d) + ds_extra (dk_state d) <= dk_capacity d;
  dk_entries_fit : live (dk_state d) + ds_new (dk_state d) <= dk_entries d;
  dk_config : dk_capacity d < 2 ^ 63 /\ dk_entries d < 2 ^ 63 /\ 0 <= dk_reserve d /\ 0 <= dk_segment_size d
}.

Lemma disk_ok_active d r id a : disk_ok d r -> ds_active (dk_state d) !! id = Some a ->
  exists l, r !! id = Some l /\ 0 <= l < 2 ^ 32 /\ ac_extra a = saturating_sub l (slot_len (dk_state d) id) /\ ac_new a = is_new (dk_state d) id /\ 0 <= ac_allocation a.
Proof. intros H Ha. pose proof (dk_active _ _ H id) as Hd. rewrite Ha in Hd. destruct (r !! id) as [l|]; [exists l; tauto | contradiction]. Qed.

Lemma disk_ok_sums d r : disk_ok d r -> (forall k a, ds_active (dk_state d) !! k = Some a -> 0 <= ac_extra a /\ 0 <= ac_allocation a) /\ 0 <= ds_extra (dk_state d) /\ 0 <= ds_new (dk_state d) /\ 0 <= ds_allocation (dk_state d).
Proof.
  intros H. assert (Hnn : forall k a, ds_active (dk_state d) !! k = Some a -> 0 <= ac_extra a /\ 0 <= ac_allocation a).
  { intros k a Ha. destruct (disk_ok_active d r k a H Ha) as (l & _ & _ & -> & _ & ?). unfold saturating_sub. destruct (Z.ltb_spec l (slot_len (dk_state d) k)); lia. }
  split; [assumption|]. rewrite (dk_extra _ _ H), (dk_new _ _ H), (dk_allocation _ _ H).
  split; [|split]; apply msum_nonneg; intros k a Ha; [apply (Hnn k a Ha) | destruct (ac_new a); cbn; lia | apply (Hnn k a Ha)].
Qed.

Lemma size_insert_slot s id slot : Z.of_nat (size (<[id := slot]> (ds_slots s))) = live s + Z.b2z (is_new s id).
Proof. unfold live, is_new. rewrite map_size_insert. destruct (ds_slots s !! id); cbn; lia. Qed.

Lemma size_delete_slot s id : Z.of_nat (size (delete id (ds_slots s))) = live s - 1 + Z.b2z (is_new s id).
Proof.
  unfold live, is_new. rewrite map_size_delete. destruct (ds_slots s !! id) as [slot|] eqn:Hs; cbn; [|lia]. assert (size (ds_slots s) <> 0%nat) by (intros Hz; apply map_size_empty_inv in Hz; rewrite Hz in Hs; discriminate). lia.
Qed.

(** A state with the same entries up to visited bits and hand. *)
Lemma disk_alike d r s' : disk_ok d r -> alike (dk_state d) s' -> disk_ok (dk_set s' d) r.
Proof.
  intros H A. destruct (al_active _ _ A) as (A1 & A2 & A3 & A4 & A5). destruct (al_clock _ _ A) as [_ Hb].
  assert (Hlen : forall id, slot_len s' id = slot_len (dk_state d) id /\ is_new s' id = is_new (dk_state d) id).
  { intros id. unfold slot_len, is_new. pose proof (al_slots _ _ A id) as He. destruct (ds_slots s' !! id), (ds_slots (dk_state d) !! id); try discriminate; [injection He as _ He _; auto | auto]. }
  assert (Hlive : live s' = live (dk_state d)).
  { unfold live. f_equal. rewrite <- !size_dom. f_equal. apply set_eq. intros id. rewrite !elem_of_dom. pose proof (al_slots _ _ A id) as He.
    destruct (ds_slots s' !! id), (ds_slots (dk_state d) !! id); try discriminate; split; intros [? ?]; eauto; discriminate. }
  destruct H as [H1 H2 H3 H4 H5 H6 H7 H8]. constructor; cbn [dk_state dk_set dk_capacity dk_entries dk_reserve dk_segment_size]; rewrite ?A1, ?A2, ?A3, ?A4, ?Hb, ?Hlive; auto; [eapply alike_listed; eassumption|].
  intros id. destruct (Hlen id) as [-> ->]. apply H5.
Qed.

Lemma disk_waiters d r w : disk_ok d r -> disk_ok (dk_set (ds_set_waiters w (dk_state d)) d) r.
Proof. intros [H1 H2 H3 H4 H5 H6 H7 H8]. constructor; auto. destruct H1; constructor; auto. Qed.

Section Operations.
Context {SE : Type}.

(** ** Removal of a chunk that is not being written *)

Lemma disk_remove d r id : disk_ok d r -> ds_active (dk_state d) !! id = None ->
  exists s', State_remove (SE := SE) (dk_state d) id = Ok s' /\ disk_ok (dk_set s' d) r /\ ds_slots s' = delete id (ds_slots (dk_state d)) /\ ds_active s' = ds_active (dk_state d) /\ ds_clock s' = ds_clock (dk_state d).
Proof.
  intros H Ha. destruct (State_remove_ok (SE := SE) (dk_state d) id (dk_listed _ _ H)) as (s' & Hr & Hl & (A1 & A2 & A3 & A4 & A5) & Hs & Hb & Hc). exists s'. split; [exact Hr|]. split; [|auto].
  pose proof (slot_len_bounds _ id (dk_listed _ _ H)) as Hlen. destruct H as [H1 H2 H3 H4 H5 H6 H7 H8]. constructor; cbn [dk_state dk_set dk_capacity dk_entries dk_reserve dk_segment_size]; rewrite ?A1, ?A2, ?A3, ?A4; auto.
  - intros k. specialize (H5 k). destruct (decide (k = id)) as [->|Hne]; [rewrite Ha in *; exact H5|]. unfold slot_len, is_new in *. rewrite Hs, lookup_delete_ne by congruence. exact H5.
  - lia.
  - unfold live at 1. rewrite Hs, size_delete_slot. destruct (is_new (dk_state d) id) eqn:Hn; cbn; lia.
Qed.

(** ** Commit and cancellation *)

Lemma slot_finish_ok s id a : ds_active s !! id = Some a -> ac_extra a <= ds_extra s -> Z.b2z (ac_new a) <= ds_new s -> ac_allocation a <= ds_allocation s ->
  State_finish (SE := SE) s id = Ok (ds_waiters s, ds_set_waiters [] (ds_set_active (delete id (ds_active s)) (ds_extra s - ac_extra a) (ds_new s - Z.b2z (ac_new a)) (ds_allocation s - ac_allocation a) s)).
Proof. intros Ha H1 H2 H3. unfold State_finish. rewrite Ha. cbn [expect rbind]. unfold sub64. rewrite !(proj2 (Z.leb_le _ _)) by assumption. reflexivity. Qed.

Lemma active_bounds d r id a : disk_ok d r -> ds_active (dk_state d) !! id = Some a ->
  ac_extra a <= ds_extra (dk_state d) /\ Z.b2z (ac_new a) <= ds_new (dk_state d) /\ ac_allocation a <= ds_allocation (dk_state d).
Proof.
  intros H Ha. destruct (disk_ok_sums d r H) as [Hnn _]. rewrite (dk_extra _ _ H), (dk_new _ _ H), (dk_allocation _ _ H).
  split; [|split]; [apply (msum_ge ac_extra) with (k := id) | apply (msum_ge (fun a => Z.b2z (ac_new a))) with (k := id) | apply (msum_ge ac_allocation) with (k := id)];
    try assumption; intros k v Hk; try apply (Hnn k v Hk); destruct (ac_new v); cbn; lia.
Qed.

Lemma abandon_ok d r id a : disk_ok d r -> ds_active (dk_state d) !! id = Some a ->
  exists w d', abandon (SE := SE) d id = Ok (w, d') /\ disk_ok d' (delete id r) /\ ds_slots (dk_state d') = ds_slots (dk_state d) /\ ds_active (dk_state d') = delete id (ds_active (dk_state d)) /\ ds_clock (dk_state d') = ds_clock (dk_state d) /\ dk_capacity d' = dk_capacity d /\ dk_entries d' = dk_entries d.
Proof.
  intros H Ha. destruct (active_bounds d r id a H Ha) as (B1 & B2 & B3). unfold abandon. rewrite (slot_finish_ok _ id a Ha B1 B2 B3). cbn [rbind]. eexists _, _. split; [reflexivity|]. split; [|repeat split].
  destruct (disk_ok_sums d r H) as [Hnn _]. pose proof (Hnn id a Ha) as [Hx _]. destruct H as [[L1 L2 L3 L4 L5] H2 H3 H4 H5 H6 H7 H8].
  constructor; cbn [dk_state dk_set dk_capacity dk_entries dk_reserve dk_segment_size ds_set_waiters ds_set_active ds_active ds_extra ds_new ds_allocation ds_bytes]; auto.
  - constructor; assumption.
  - rewrite (msum_delete ac_extra _ id a Ha). lia.
  - rewrite (msum_delete (fun a => Z.b2z (ac_new a)) _ id a Ha). lia.
  - rewrite (msum_delete ac_allocation _ id a Ha). lia.
  - intros k. specialize (H5 k). destruct (decide (k = id)) as [->|Hne]; [rewrite !lookup_delete_eq; exact I | rewrite !lookup_delete_ne by congruence; exact H5].
  - lia.
  - change (live (dk_state d) + (ds_new (dk_state d) - Z.b2z (ac_new a)) <= dk_entries d). destruct (ac_new a); cbn; lia.
Qed.

Lemma commit_ok d r id a l lsn : disk_ok d r -> ds_active (dk_state d) !! id = Some a -> r !! id = Some l -> ds_clock (dk_state d) < U64_MAX ->
  exists w d', commit (SE := SE) d id l lsn = Ok (w, d') /\ disk_ok d' (delete id r) /\ version_on d' id = Some lsn /\ ds_clock (dk_state d') = ds_clock (dk_state d) + 1 /\ dk_capacity d' = dk_capacity d /\ dk_entries d' = dk_entries d /\
    ds_active (dk_state d') = delete id (ds_active (dk_state d)) /\ forall k, k <> id -> ds_slots (dk_state d') !! k = ds_slots (dk_state d) !! k.
Proof.
  intros H Ha Hl Hc. destruct (active_bounds d r id a H Ha) as (B1 & B2 & B3). destruct (disk_ok_sums d r H) as [Hnn (Sx & Sn & Sa)]. pose proof (Hnn id a Ha) as [Hx _].
  destruct (disk_ok_active d r id a H Ha) as (l' & Hl' & Hb & Hex & Hnw & _). assert (l' = l) as -> by congruence. pose proof (slot_len_bounds _ id (dk_listed _ _ H)) as Hlen.
  assert (Hgrow : l - slot_len (dk_state d) id <= ac_extra a) by (rewrite Hex; unfold saturating_sub; destruct (Z.ltb_spec l (slot_len (dk_state d) id)); lia). pose proof (dk_config _ _ H) as (C1 & C2 & C3). pose proof (dk_bytes_fit _ _ H) as Hfit.
  unfold commit. destruct (State_insert_ok (SE := SE) (dk_state d) id lsn l (dk_listed _ _ H) Hb Hc) as (s1 & slot & -> & Hl1 & (A1 & A2 & A3 & A4 & A5) & Hs1 & Hlsn & Hlen1 & _ & Hb1 & Hc1); [unfold U64_MAX; lia|]. cbn [rbind].
  rewrite (slot_finish_ok s1 id a) by (rewrite ?A1, ?A2, ?A3, ?A4; assumption). cbn [rbind]. eexists _, _. split; [reflexivity|].
  split; [|split; [unfold version_on; cbn; rewrite A1, lookup_delete_eq, Hs1, lookup_insert_eq; congruence | split; [exact Hc1|]; split; [reflexivity|]; split; [reflexivity|]; split; [cbn; congruence | intros k Hk; cbn; rewrite Hs1; apply lookup_insert_ne; congruence]]].
  destruct H as [H1 H2 H3 H4 H5 H6 H7 H8]. destruct Hl1 as [L1 L2 L3 L4 L5].
  constructor; cbn [dk_state dk_set dk_capacity dk_entries dk_reserve dk_segment_size ds_set_waiters ds_set_active ds_active ds_extra ds_new ds_allocation ds_bytes]; rewrite ?A1, ?A2, ?A3, ?A4; auto.
  - constructor; assumption.
  - rewrite (msum_delete ac_extra _ id a Ha). lia.
  - rewrite (msum_delete (fun a => Z.b2z (ac_new a)) _ id a Ha). lia.
  - rewrite (msum_delete ac_allocation _ id a Ha). lia.
  - intros k. specialize (H5 k). destruct (decide (k = id)) as [->|Hne]; [rewrite !lookup_delete_eq; exact I|]. rewrite !lookup_delete_ne by congruence. unfold slot_len, is_new in *. cbn [ds_slots ds_set_waiters ds_set_active]. rewrite Hs1, lookup_insert_ne by congruence. exact H5.
  - lia.
  - unfold live at 1. cbn [ds_slots ds_set_waiters ds_set_active]. rewrite Hs1, size_insert_slot, Hnw. lia.
Qed.

(** ** Admission *)

(** What a turn of admission leaves: a reservation, a victim that nobody is
    writing, a waiter while writes are in flight, or nothing to wait for. *)
Definition admitted (d : Disk) (r : gmap ChunkId Z) (id : ChunkId) (l : Z) (act : Action) (d' : Disk) : Prop :=
  match act with
  | Reserved => disk_ok d' (<[id := l]> r) /\ ds_slots (dk_state d') = ds_slots (dk_state d)
  | Evict v lsn => disk_ok d' r /\ version_on d' v = Some lsn /\ v <> id /\ ds_active (dk_state d') !! v = None
  | Wait => disk_ok d' r /\ ds_active (dk_state d') <> ∅
  | GiveUp => disk_ok d' r /\ ds_active (dk_state d') = ∅
  end /\ ds_clock (dk_state d') = ds_clock (dk_state d) /\ dk_capacity d' = dk_capacity d /\ dk_entries d' = dk_entries d.

Lemma excluded_false s exclude id : excluded s exclude id = false -> Some id <> exclude /\ ds_active s !! id = None.
Proof. unfold excluded. intros He. apply orb_false_iff in He as [He1 He2]. apply bool_decide_eq_false in He1. split; [assumption|]. destruct (ds_active s !! id); [discriminate | reflexivity]. Qed.

Lemma write_action_ok d r id l allocation usage canceled channel : disk_ok d r -> 0 <= l < 2 ^ 32 -> 0 <= allocation ->
  (forall u, usage = Ok u -> us_free_segments u * dk_segment_size d < U64_MAX) -> usage <> Panic ->
  match write_action (SE := SE) d id l allocation usage canceled channel with Ok (act, d') => admitted d r id l act d' | Err _ => True | Panic => False end.
Proof.
  intros H Hl Hal Hu Hnp. unfold write_action. destruct usage as [u|e|]; cbn [map_err rbind]; [|exact I | congruence]. specialize (Hu u eq_refl). destruct (ds_active (dk_state d) !! id) as [a|] eqn:Ha; cbn [fail_if rbind]; [exact I|].
  fold (slot_len (dk_state d) id). fold (is_new (dk_state d) id). destruct (disk_ok_sums d r H) as [Hnn (Sx & Sn & Sa)]. pose proof (dk_config _ _ H) as (C1 & C2 & C3 & C4). pose proof (dk_bytes_fit _ _ H) as Hfit. pose proof (listed_bytes _ (dk_listed _ _ H)) as Hb0.
  pose proof (slot_len_bounds _ id (dk_listed _ _ H)) as Hlen. set (extra := saturating_sub l (slot_len (dk_state d) id)). assert (Hex : 0 <= extra < 2 ^ 32) by (unfold extra, saturating_sub; destruct (Z.ltb_spec l (slot_len (dk_state d) id)); lia).
  unfold add64, mul64. rewrite (proj2 (Z.leb_le (ds_bytes (dk_state d) + _) _)) by (unfold U64_MAX; lia). cbn [rbind]. rewrite (proj2 (Z.leb_le (_ + extra) _)) by (unfold U64_MAX; lia). cbn [rbind]. rewrite (proj2 (Z.leb_le (us_free_segments u * _) _)) by lia. cbn [rbind].
  assert (Hwait : forall s', alike (dk_state d) s' -> match (if decide (ds_active s' = ∅) then Err cache.NoSpace else Ok (Wait, dk_set (State_wait s' canceled channel) d) : cresult (SE := SE) (Action * Disk)) with
    Ok (act, d') => admitted d r id l act d' | Err _ => True | Panic => False end).
  { intros s' A. destruct (decide (ds_active s' = ∅)); [exact I|]. split; [|split; [apply (al_clock _ _ A) | split; reflexivity]]. split; [|assumption]. apply (disk_waiters (dk_set s' d) r). apply disk_alike; assumption. }
  set (sum := _ + _ + extra). set (fits := (sum <=? dk_capacity d) && _). destruct (fits && (_ >=? _)) eqn:Hcase.
  - apply andb_true_iff in Hcase as [Hf Hh]. unfold fits in Hf. apply andb_true_iff in Hf as [Hf1 Hf2]. apply Z.leb_le in Hf1, Hf2. unfold sum in Hf1. fold (live (dk_state d)) in Hf2. apply Z.geb_le in Hh.
    assert (Hsum : ds_allocation (dk_state d) + allocation <= U64_MAX) by (unfold saturating_add in Hh; lia).
    rewrite !(proj2 (Z.leb_le _ _)) by (unfold U64_MAX in *; destruct (is_new (dk_state d) id); unfold live in *; cbn in *; lia). cbn [rbind]. split; [|repeat split]. split; [|reflexivity].
    destruct H as [[L1 L2 L3 L4 L5] H2 H3 H4 H5 H6 H7 H8]. constructor; cbn [dk_state dk_set dk_capacity dk_entries dk_reserve dk_segment_size ds_set_active ds_active ds_extra ds_new ds_allocation ds_bytes]; auto.
    + constructor; assumption.
    + rewrite msum_insert by assumption. cbn. lia.
    + rewrite msum_insert by assumption. cbn. lia.
    + rewrite msum_insert by assumption. cbn. lia.
    + intros k. specialize (H5 k). destruct (decide (k = id)) as [->|Hne]; [rewrite !lookup_insert_eq; cbn; repeat split; try reflexivity; lia | rewrite !lookup_insert_ne by congruence; exact H5].
    + lia.
    + change (live (dk_state d) + (ds_new (dk_state d) + Z.b2z (is_new (dk_state d) id)) <= dk_entries d). lia.
  - destruct (negb (_ >=? _)); [apply Hwait, alike_refl|].
    destruct (victim_ok (SE := SE) (Some id) (dk_state d) (dk_policy d) (dk_listed _ _ H)) as (sel & s' & -> & A & Hsel); [pose proof (dk_entries_fit _ _ H); unfold live in *; unfold U64_MAX; lia|]. cbn [rbind].
    destruct sel as [[v lsn]|]; [|specialize (Hwait s' A); destruct (decide (ds_active s' = ∅)); [|exact Hwait]; split; [split; [apply disk_alike; assumption | assumption] | split; [apply (al_clock _ _ A) | split; reflexivity]]]. destruct Hsel as (He & slot & Hslot & Hlsn). apply excluded_false in He as [Hne Hna]. destruct (al_active _ _ A) as (A1 & _).
    split; [|split; [apply (al_clock _ _ A) | split; reflexivity]]. split; [apply disk_alike; assumption|]. cbn [dk_state dk_set]. rewrite A1. split; [|split; [congruence | assumption]].
    unfold version_on. cbn [dk_state dk_set]. rewrite A1, Hna. destruct (ds_slots s' !! v) as [slot'|] eqn:Hs'; [|pose proof (al_slots _ _ A v) as Hx; rewrite Hs', Hslot in Hx; discriminate].
    destruct (alike_slot _ _ _ _ A Hs') as (slot0 & Hs0 & -> & _). congruence.
Qed.

(** ** Trimming *)

(** A disk without writes in flight, before its limits are enforced. *)
Record loaded (d : Disk) : Prop := {
  ld_listed : listed (dk_state d);
  ld_active : ds_active (dk_state d) = ∅ /\ ds_extra (dk_state d) = 0 /\ ds_new (dk_state d) = 0 /\ ds_allocation (dk_state d) = 0;
  ld_size : live (dk_state d) < 2 ^ 63;
  ld_config : 0 <= dk_capacity d < 2 ^ 63 /\ 0 <= dk_entries d < 2 ^ 63 /\ 0 <= dk_reserve d /\ 0 <= dk_segment_size d
}.

Definition same_config (d d' : Disk) : Prop :=
  dk_capacity d' = dk_capacity d /\ dk_entries d' = dk_entries d /\ dk_reserve d' = dk_reserve d /\ dk_segment_size d' = dk_segment_size d /\ dk_policy d' = dk_policy d.

Definition deletes (answer : res SE DeleteResult) : bool := match answer with Ok (Deleted _) | Ok Missing => true | _ => false end.

Lemma evict_loaded d id slot answer : loaded d -> ds_slots (dk_state d) !! id = Some slot -> answer <> Panic ->
  match evict (SE := SE) d id answer with
  | Ok d' => loaded d' /\ live (dk_state d') = live (dk_state d) - 1 /\ same_config d d' /\ ds_clock (dk_state d') = ds_clock (dk_state d)
  | Err _ => deletes answer = false
  | Panic => False
  end.
Proof.
  intros [H1 (H2 & H3 & H4 & H5) H6 H7] Hs Hnp. unfold evict. destruct (State_remove_ok (SE := SE) (dk_state d) id H1) as (s' & Hr & Hl & (A1 & A2 & A3 & A4 & A5) & Hs' & Hb & Hc).
  assert (Hlive : live s' = live (dk_state d) - 1) by (unfold live at 1; rewrite Hs', size_delete_slot; unfold is_new; rewrite Hs; cbn; lia).
  assert (Hgoal : loaded (dk_set s' d)) by (constructor; cbn [dk_state dk_set dk_capacity dk_entries dk_reserve dk_segment_size]; rewrite ?A1, ?A2, ?A3, ?A4; auto; lia).
  destruct answer as [[x| |]|e|]; cbn [map_err rbind deletes]; try (rewrite Hr; cbn [rbind]; split; [exact Hgoal|]; split; [exact Hlive|]; split; [repeat split | exact Hc]); [reflexivity | reflexivity | congruence].
Qed.

Lemma trim_disk_ok answers : (forall k, answers k <> Panic) -> forall n k d, loaded d -> live (dk_state d) <= Z.of_nat n ->
  match trim_disk (SE := SE) n answers k d with
  | Ok d' => loaded d' /\ over_limits d' = false /\ same_config d d' /\ ds_clock (dk_state d') = ds_clock (dk_state d)
  | Err _ => exists j, deletes (answers j) = false
  | Panic => False
  end.
Proof.
  intros Hnp. induction n as [|n IH]; intros k d Hd Hn; cbn [trim_disk]; (destruct (over_limits d) eqn:Ho; [|split; [assumption|]; split; [assumption|]; repeat split]).
  - exfalso. destruct Hd as [H1 _ _ (C1 & C2 & _)]. unfold over_limits in Ho. fold (live (dk_state d)) in Ho. unfold live in *. assert (Hz : size (ds_slots (dk_state d)) = 0%nat) by lia.
    apply map_size_empty_inv in Hz. rewrite (li_bytes _ H1), Hz in Ho. unfold msum in Ho. rewrite map_fold_empty, map_size_empty in Ho. cbn in Ho. rewrite !(proj2 (Z.leb_le 0 _)) in Ho by lia. discriminate.
  - pose proof Hd as [H1 (H2 & H3 & H4 & H5) H6 (C1 & C2 & C3)]. destruct (victim_ok (SE := SE) None (dk_state d) (dk_policy d) H1) as (sel & s' & -> & A & Hsel); [unfold live in *; unfold U64_MAX; lia|]. cbn [rbind].
    assert (Hd' : loaded (dk_set s' d)).
    { destruct (al_active _ _ A) as (A1 & A2 & A3 & A4 & A5). assert (Hl : live s' = live (dk_state d)).
      { unfold live. f_equal. rewrite <- (listed_size _ H1), <- (listed_size _ (alike_listed _ _ A H1)), (al_order _ _ A). reflexivity. }
      constructor; cbn [dk_state dk_set dk_capacity dk_entries dk_reserve dk_segment_size]; rewrite ?A1, ?A2, ?A3, ?A4, ?Hl; auto. eapply alike_listed; eassumption. }
    assert (Hl' : live s' = live (dk_state d)) by (unfold live; f_equal; rewrite <- (listed_size _ H1), <- (listed_size _ (alike_listed _ _ A H1)), (al_order _ _ A); reflexivity).
    destruct sel as [[id lsn]|]; cbn [ok_or rbind].
    + destruct Hsel as (_ & slot & Hslot & _). destruct (ds_slots s' !! id) as [slot'|] eqn:Hs'; [|pose proof (al_slots _ _ A id) as Hx; rewrite Hs', Hslot in Hx; discriminate].
      pose proof (evict_loaded (dk_set s' d) id slot' (answers k) Hd' Hs' (Hnp k)) as He. destruct (evict _ _ _) as [d1|e|]; cbn [rbind]; [|eauto | contradiction]. destruct He as (Hd1 & Hl1 & (G1 & G2 & G3 & G4 & G5) & Hc1). cbn in *.
      specialize (IH (S k) d1 Hd1 ltac:(lia)). destruct (trim_disk n answers (S k) d1) as [d2|e|]; [|assumption|assumption]. destruct IH as (Hd2 & Ho2 & (F1 & F2 & F3 & F4 & F5) & Hc2).
      split; [assumption|]. split; [assumption|]. split; [repeat split; congruence|]. destruct (al_clock _ _ A). congruence.
    + exfalso. assert (Hempty : ds_slots (dk_state d) = ∅).
      { apply map_empty. intros id. destruct (ds_slots (dk_state d) !! id) as [slot|] eqn:Hs; [|reflexivity]. specialize (Hsel id slot Hs). unfold excluded in Hsel. rewrite bool_decide_eq_false_2, H2, lookup_empty in Hsel by discriminate. discriminate. }
      unfold over_limits in Ho. rewrite (li_bytes _ H1), Hempty in Ho. unfold msum in Ho. rewrite map_fold_empty, map_size_empty in Ho. cbn in Ho. rewrite !(proj2 (Z.leb_le 0 _)) in Ho by lia. discriminate.
Qed.

Lemma loaded_ok d : loaded d -> over_limits d = false -> disk_ok d ∅.
Proof.
  intros [H1 (H2 & H3 & H4 & H5) H6 H7] Ho. unfold over_limits in Ho. apply negb_false_iff, andb_true_iff in Ho as [Ho1 Ho2]. apply Z.leb_le in Ho1, Ho2. fold (live (dk_state d)) in Ho2.
  constructor; rewrite ?H2, ?H3, ?H4, ?H5; auto; try lia. intros id. rewrite !lookup_empty. exact I.
Qed.
End Operations.
