(* ===== verification/CatalogTheorems.v ===== *)
(** * Contracts of the disk catalog

    A catalog loaded from an inventory and trimmed, then one of its disks
    driven by any interleaving of writes, replies of the store, cancellations,
    invalidations and hits. *)

From stdpp Require Import gmap sorting.
From S2P Require Import Prelude ChunkId Catalog CatalogInv.

Section Machine.
Context {SE : Type}.

(** ** Who holds the disk's controller

    Admission and its evictions run under the controller, also across the
    awaits; commit and cancellation of a write do not. *)

Inductive Control :=
| Idle
| Admitting (id : ChunkId) (l allocation : Z)
| Evicting (id : ChunkId) (l allocation : Z) (v : ChunkId) (lsn : Z)
| Waiting (id : ChunkId) (l allocation : Z)
| Invalidating (id : ChunkId) (lsn : Z).

Record Managed := { mg_disk : Disk; mg_control : Control; mg_reserved : gmap ChunkId Z }.

Inductive disk_event :=
| Begin (id : ChunkId) (l : Z) (cost : res SE Z)
| Admit (usage : res SE Usage) (canceled : Z -> bool) (channel : Z)
| Reply (answer : res SE DeleteResult)
| Wake
| Cancel
| Written (id : ChunkId) (lsn : Z)
| WriteFailed (id : ChunkId)
| Invalidate (id : ChunkId)
| Hit (id : ChunkId) (lsn : Z).

(** An error ends the operation and gives the controller back. *)
Definition or_idle (m : Managed) (r : cresult (SE := SE) Managed) : cresult (SE := SE) Managed :=
  match r with Err _ => Ok {| mg_disk := mg_disk m; mg_control := Idle; mg_reserved := mg_reserved m |} | _ => r end.

Definition disk_step (e : disk_event) (m : Managed) : cresult (SE := SE) Managed :=
  let '{| mg_disk := d; mg_control := c; mg_reserved := r |} := m in
  match e, c with
  | Begin id l cost, Idle =>
      or_idle m (let? allocation := write_begin d l cost in Ok {| mg_disk := d; mg_control := Admitting id l allocation; mg_reserved := r |})
  | Admit usage canceled channel, Admitting id l allocation =>
      or_idle m (let? (act, d) := write_action d id l allocation usage canceled channel in
                 Ok match act with
                    | Reserved => {| mg_disk := d; mg_control := Idle; mg_reserved := <[id := l]> r |}
                    | Evict v lsn => {| mg_disk := d; mg_control := Evicting id l allocation v lsn; mg_reserved := r |}
                    | Wait => {| mg_disk := d; mg_control := Waiting id l allocation; mg_reserved := r |}
                    | GiveUp => {| mg_disk := d; mg_control := Idle; mg_reserved := r |}
                    end)
  | Reply answer, Evicting id l allocation v lsn =>
      or_idle m (let? d := evict d v answer in Ok {| mg_disk := d; mg_control := Admitting id l allocation; mg_reserved := r |})
  | Reply answer, Invalidating id lsn =>
      or_idle m (let? d := (match answer with Ok (Deleted _) | Ok Missing => catalog_remove d id lsn | Panic => Panic | _ => Ok d end) in
                 Ok {| mg_disk := d; mg_control := Idle; mg_reserved := r |})
  | Wake, Waiting id l allocation => Ok {| mg_disk := d; mg_control := Admitting id l allocation; mg_reserved := r |}
  | Cancel, _ => Ok {| mg_disk := d; mg_control := Idle; mg_reserved := r |}
  | Written id lsn, _ =>
      match r !! id with
      | Some l => let? (_, d) := commit d id l lsn in Ok {| mg_disk := d; mg_control := c; mg_reserved := delete id r |}
      | None => Ok m
      end
  | WriteFailed id, _ =>
      match r !! id with
      | Some l => let? (_, d) := abandon d id in Ok {| mg_disk := d; mg_control := c; mg_reserved := delete id r |}
      | None => Ok m
      end
  | Invalidate id, Idle =>
      match version_on d id with
      | Some lsn => Ok {| mg_disk := d; mg_control := Invalidating id lsn; mg_reserved := r |}
      | None => Ok m
      end
  | Hit id lsn, _ => Ok {| mg_disk := (validate_hit d id lsn).2; mg_control := c; mg_reserved := r |}
  | _, _ => Ok m
  end.

(** Replies are values or errors; lengths, costs and capacities are unsigned. *)
Definition event_fits (d : Disk) (e : disk_event) : Prop :=
  match e with
  | Begin _ l cost => 0 <= l < 2 ^ 32 /\ cost <> Panic /\ forall a, cost = Ok a -> 0 <= a
  | Admit usage _ _ => usage <> Panic /\ forall u, usage = Ok u -> us_free_segments u * dk_segment_size d < U64_MAX
  | Reply answer => answer <> Panic
  | _ => True
  end.

(** ** Loading *)

Definition info_fits (info : DiskInfo) : Prop := 0 <= di_segment_size info /\ 0 <= di_index_entries info < 2 ^ 63.
Definition entry_fits (entry : InventoryEntry) : Prop := 0 <= ie_disk entry /\ 0 <= ie_len entry < 2 ^ 32.
Definition options_unsigned (o : DiskOptions) : Prop :=
  0 <= do_reserve_segments o /\ match do_capacity o with Some c => 0 <= c | None => True end /\ match do_entries o with Some n => 0 <= n | None => True end.

Lemma empty_loaded : listed ds_empty.
Proof. constructor; cbn; [constructor | | split; [lia | intros x Hx; inversion Hx] | discriminate | reflexivity]. intros pos id. rewrite lookup_empty. split; [intros H; inversion H | intros (slot & H & _); discriminate]. Qed.

Lemma new_disk_loaded info usage options d : info_fits info -> options_unsigned options -> new_disk (SE := SE) info usage options = Ok d ->
  loaded d /\ ds_clock (dk_state d) = 0 /\ live (dk_state d) = 0.
Proof.
  intros [I1 I2] (O1 & O2 & O3). unfold new_disk. unfold add32, mul64. destruct (do_reserve_segments options + 2 <? 2 ^ 32); [|discriminate]. cbn [rbind].
  destruct (Z.leb_spec (us_segments usage) (do_reserve_segments options + 2)); [discriminate|]. cbn [fail_if rbind]. destruct (us_free_segments usage <? 2); [discriminate|]. cbn [fail_if rbind].
  destruct (Z.leb_spec ((us_segments usage - do_reserve_segments options) * di_segment_size info) U64_MAX) as [Hu|]; [|discriminate]. cbn [rbind]. set (usable := (us_segments usage - do_reserve_segments options) * di_segment_size info) in *.
  assert (H0 : 0 <= usable) by (unfold usable; nia). set (capacity := match do_capacity options with Some c => c | None => usable / 4 end). assert (Hc : 0 <= capacity) by (unfold capacity; destruct (do_capacity options); [assumption | apply Z.div_pos; lia]).
  destruct ((capacity =? 0) || (capacity >? usable / 2)) eqn:Hcap; [discriminate|]. cbn [fail_if rbind]. apply orb_false_iff in Hcap as [_ Hcap]. destruct (Z.gtb_spec capacity (usable / 2)) as [|Hcap']; [discriminate|].
  assert (Hmax : capacity < 2 ^ 63) by (unfold U64_MAX in *; pose proof (Z.mul_div_le usable 2 ltac:(lia)); lia).
  set (entries := match do_entries options with Some n => n | None => di_index_entries info end). assert (Hent : 0 <= entries) by (unfold entries; destruct (do_entries options); [assumption | lia]).
  destruct ((entries =? 0) || (entries >? di_index_entries info)) eqn:Hen; [discriminate|]. cbn [fail_if rbind]. apply orb_false_iff in Hen as [_ Hen]. destruct (Z.gtb_spec entries (di_index_entries info)) as [|Hen']; [discriminate|].
  destruct (do_reserve_segments options * di_segment_size info <=? U64_MAX); [|discriminate]. cbn [rbind]. intros [= <-]. split; [|split; reflexivity].
  constructor; cbn; [apply empty_loaded | repeat split | unfold live; cbn; rewrite map_size_empty; lia | repeat split; try lia; nia].
Qed.

Lemma new_disks_loaded usage options infos : Forall info_fits infos -> options_unsigned options -> forall i disks, new_disks (SE := SE) usage infos i options = Ok disks ->
  Forall (fun d => loaded d /\ ds_clock (dk_state d) = 0 /\ live (dk_state d) = 0) disks.
Proof.
  intros Hf Ho. induction Hf as [|info infos Hi Hf IH]; intros i disks H; cbn [new_disks] in H; [injection H as <-; constructor|].
  destruct (map_err cache.Store (usage i)) as [u| |]; try discriminate. cbn [rbind] in H. destruct (new_disk info u options) as [d| |] eqn:Hd; try discriminate. cbn [rbind] in H.
  destruct (new_disks usage infos (i + 1) options) as [rest| |] eqn:Hr; try discriminate. injection H as <-. constructor; [eapply new_disk_loaded; eassumption | eauto].
Qed.

Lemma State_insert_loaded d id lsn l s n : loaded d -> 0 <= l < 2 ^ 32 -> ds_slots (dk_state d) !! id = None -> live (dk_state d) <= n -> ds_clock (dk_state d) <= n -> n + 1 < 2 ^ 63 ->
  State_insert (SE := SE) (dk_state d) id lsn l = Ok s -> loaded (dk_set s d) /\ live s <= n + 1 /\ ds_clock s <= n + 1.
Proof.
  intros Hd Hl Hnone Hlive Hclock Hn H. assert (Hlen0 : slot_len (dk_state d) id = 0) by (unfold slot_len; rewrite Hnone; reflexivity).
  assert (Hbytes : ds_bytes (dk_state d) - slot_len (dk_state d) id + l <= U64_MAX).
  { unfold State_insert in H. destruct (State_remove_ok (SE := SE) (dk_state d) id (ld_listed _ Hd)) as (s1 & Hr & _ & _ & _ & Hb & Hc). rewrite Hr in H. cbn [rbind] in H. unfold add64 in H. destruct (ds_clock s1 + 1 <=? U64_MAX); [|discriminate]. cbn [rbind] in H.
    destruct (Z.leb_spec (ds_bytes s1 + l) U64_MAX); [lia | discriminate]. }
  destruct (State_insert_ok (SE := SE) (dk_state d) id lsn l (ld_listed _ Hd) Hl ltac:(unfold U64_MAX; lia) Hbytes) as (s' & slot & Hi & Hl' & (A1 & A2 & A3 & A4 & A5) & Hs & _ & _ & _ & Hb & Hc).
  rewrite H in Hi. injection Hi as <-. assert (Hlv : live s <= n + 1) by (unfold live at 1; rewrite Hs, size_insert_slot; unfold is_new; rewrite Hnone; cbn; lia).
  split; [|split; [assumption | lia]]. destruct Hd as [H1 H2 H3 H4]. constructor; cbn [dk_state dk_set dk_capacity dk_entries dk_reserve dk_segment_size]; rewrite ?A1, ?A2, ?A3, ?A4; auto; lia.
Qed.

Lemma load_loaded disk_of inventory : forall n disks disks', Forall entry_fits inventory -> n + len inventory < 2 ^ 63 -> Forall (fun d => loaded d /\ ds_clock (dk_state d) <= n /\ live (dk_state d) <= n) disks ->
  load (SE := SE) disk_of inventory disks = Ok disks' -> Forall (fun d => loaded d /\ ds_clock (dk_state d) <= n + len inventory /\ live (dk_state d) <= n + len inventory) disks'.
Proof.
  induction inventory as [|entry inventory IH]; intros n disks disks' Hf Hn Hd H; cbn [load] in H; [injection H as <-; unfold len; cbn; rewrite Z.add_0_r; assumption|].
  apply Forall_cons in Hf as [[He1 He2] Hf]. assert (Hlen : len (entry :: inventory) = 1 + len inventory) by (unfold len; cbn [length]; lia). pose proof (Zle_0_nat (length inventory)). unfold len in Hn, Hlen. fold (len inventory) in Hlen.
  destruct (_ || _); [discriminate|]. cbn [fail_if rbind] in H. unfold index_get in H. rewrite (proj2 (Z.leb_le 0 _) He1) in H. destruct (disks !! Z.to_nat (ie_disk entry)) as [d|] eqn:Hdk; [|discriminate]. cbn [expect rbind] in H.
  destruct (ds_slots (dk_state d) !! ie_id entry) as [old|] eqn:Hnone; [discriminate|]. cbn [fail_if rbind] in H. destruct (State_insert (dk_state d) _ _ _) as [s| |] eqn:Hins; try discriminate. cbn [rbind] in H.
  pose proof (proj1 (Forall_lookup _ _) Hd _ _ Hdk) as (Hld & Hc & Hl). destruct (State_insert_loaded d _ _ _ s n Hld He2 Hnone Hl Hc ltac:(cbn in Hn; lia) Hins) as (Hld' & Hl' & Hc').
  unfold index_set in H. destruct (_ && _); [|discriminate]. cbn [rbind] in H. unfold len. cbn [length]. rewrite Nat2Z.inj_succ. replace (n + Z.succ (Z.of_nat (length inventory))) with (n + 1 + len inventory) by (unfold len; lia).
  apply (IH (n + 1) _ _ Hf ltac:(unfold len; cbn in Hn; lia)) in H; [assumption|]. apply Forall_lookup. intros j d' Hj. destruct (decide (Z.to_nat (ie_disk entry) = j)) as [<-|Hne].
  - rewrite list_lookup_insert_eq in Hj by (eapply lookup_lt_Some; exact Hdk). injection Hj as <-. auto.
  - rewrite list_lookup_insert_ne in Hj by assumption. pose proof (proj1 (Forall_lookup _ _) Hd _ _ Hj) as (? & ? & ?). split; [assumption | split; lia].
Qed.

Lemma trim_from_ok answers : (forall i k, answers i k <> Panic) -> forall disks i, Forall loaded disks ->
  match trim_from (SE := SE) answers i disks with
  | Ok disks' => Forall2 (fun d d' => loaded d' /\ over_limits d' = false /\ same_config d d' /\ ds_clock (dk_state d') = ds_clock (dk_state d)) disks disks'
  | Err _ => exists j k, deletes (answers j k) = false
  | Panic => False
  end.
Proof.
  intros Hnp. induction disks as [|d disks IH]; intros i Hf; cbn [trim_from]; [constructor|]. apply Forall_cons in Hf as [Hd Hf]. pose proof (trim_disk_ok (answers i) (Hnp i) (size (ds_slots (dk_state d))) 0 d Hd (Z.le_refl _)) as Ht.
  destruct (trim_disk _ (answers i) 0 d) as [d'|e|]; cbn [rbind]; [|destruct Ht as [k Hk]; eauto | contradiction]. specialize (IH (i + 1) Hf). destruct (trim_from answers (i + 1) disks) as [rest|e|]; cbn [rbind]; [constructor; assumption | assumption | assumption].
Qed.

(** ** Disks that a cache can meet

    After [n] entries and events. *)

Inductive managed : Z -> Managed -> Prop :=
| managed_open usage infos disk_of inventory options answers disks disks' i d :
    Forall info_fits infos -> Forall entry_fits inventory -> options_unsigned options -> len inventory < 2 ^ 63 -> (forall i k, answers i k <> @Panic SE DeleteResult) ->
    Catalog_new (SE := SE) usage infos disk_of inventory options = Ok disks -> trim (SE := SE) answers disks = Ok disks' -> disks' !! i = Some d ->
    managed (len inventory) {| mg_disk := d; mg_control := Idle; mg_reserved := ∅ |}
| managed_step n m e m' :
    managed n m -> event_fits (mg_disk m) e -> disk_step e m = Ok m' -> managed (n + 1) m'.

Definition control_ok (d : Disk) (c : Control) : Prop :=
  match c with
  | Idle => True
  | Admitting _ l allocation | Waiting _ l allocation => 0 <= l < 2 ^ 32 /\ 0 <= allocation
  | Evicting id l allocation v lsn => (0 <= l < 2 ^ 32 /\ 0 <= allocation) /\ v <> id /\ version_on d v = Some lsn
  | Invalidating id lsn => version_on d id = Some lsn
  end.

Record managed_ok (n : Z) (m : Managed) : Prop := {
  mo_disk : disk_ok (mg_disk m) (mg_reserved m);
  mo_clock : ds_clock (dk_state (mg_disk m)) <= n;
  mo_control : control_ok (mg_disk m) (mg_control m)
}.

Lemma version_inactive d id lsn : version_on d id = Some lsn -> ds_active (dk_state d) !! id = None /\ exists slot, ds_slots (dk_state d) !! id = Some slot /\ sl_lsn slot = lsn.
Proof. unfold version_on. destruct (ds_active (dk_state d) !! id); [discriminate|]. destruct (ds_slots (dk_state d) !! id) as [slot|]; [|discriminate]. intros [= <-]. eauto. Qed.

(** What another chunk's write does not change. *)
Lemma control_other d d' c : (forall v lsn, version_on d v = Some lsn -> version_on d' v = Some lsn) -> control_ok d c -> control_ok d' c.
Proof. intros Hv. destruct c; cbn; auto. intros (H1 & H2 & H3). auto. Qed.

Lemma validate_hit_alike d id lsn : exists s', (validate_hit d id lsn).2 = dk_set s' d /\ alike (dk_state d) s'.
Proof.
  assert (Hid : d = dk_set (dk_state d) d) by (destruct d; reflexivity). unfold validate_hit.
  destruct (ds_active (dk_state d) !! id); [exists (dk_state d); split; [exact Hid | apply alike_refl]|]. destruct (ds_slots (dk_state d) !! id) as [slot|] eqn:Hs; [|exists (dk_state d); split; [exact Hid | apply alike_refl]].
  destruct (sl_lsn slot =? lsn); [|exists (dk_state d); split; [exact Hid | apply alike_refl]]. eexists. split; [reflexivity|]. constructor; try reflexivity; [split; reflexivity | repeat split|].
  intros k. cbn. destruct (decide (id = k)) as [<-|Hne]; [rewrite lookup_insert_eq, Hs; reflexivity | rewrite lookup_insert_ne by assumption; reflexivity].
Qed.

Lemma alike_version d s' v : alike (dk_state d) s' -> version_on (dk_set s' d) v = version_on d v.
Proof.
  intros A. unfold version_on. cbn. destruct (al_active _ _ A) as (-> & _). destruct (ds_active (dk_state d) !! v); [reflexivity|].
  pose proof (al_slots _ _ A v) as He. destruct (ds_slots s' !! v), (ds_slots (dk_state d) !! v); try discriminate; [injection He as -> _ _; reflexivity | reflexivity].
Qed.

Lemma disk_step_ok n m e : managed_ok n m -> n < U64_MAX -> event_fits (mg_disk m) e -> exists m', disk_step e m = Ok m' /\ managed_ok (n + 1) m'.
Proof.
  intros [Hd Hn Hc] Hlt He. destruct m as [d c r]. cbn [mg_disk mg_control mg_reserved] in *. assert (Hstay : forall c', control_ok d c' -> managed_ok (n + 1) {| mg_disk := d; mg_control := c'; mg_reserved := r |}) by (intros c' Hc'; constructor; cbn; [assumption | lia | assumption]).
  destruct e as [id l cost|usage canceled channel|answer| | |id lsn|id|id|id lsn]; cbn [disk_step].
  - destruct c; try (eexists; split; [reflexivity | apply Hstay; assumption]). destruct He as (He1 & He2 & He3). unfold write_begin. destruct cost as [a|x|]; cbn [map_err rbind or_idle]; [|eexists; split; [reflexivity | apply Hstay; exact I] | congruence].
    destruct (l >? dk_capacity d); cbn [fail_if rbind or_idle]; eexists; (split; [reflexivity|]); apply Hstay; [exact I | cbn; auto].
  - destruct c as [|id l allocation| | |]; try (eexists; split; [reflexivity | apply Hstay; assumption]). destruct He as [He1 He2]. destruct Hc as [Hc1 Hc2].
    pose proof (write_action_ok d r id l allocation usage canceled channel Hd Hc1 Hc2 He2 He1) as Hw. destruct (write_action d id l allocation usage canceled channel) as [[act d']|x|]; cbn [rbind or_idle]; [|eexists; split; [reflexivity | apply Hstay; exact I] | contradiction].
    destruct Hw as (Hw & Hclk & _). eexists. split; [reflexivity|]. destruct act as [|v lsn| |]; constructor; cbn; try lia; try apply Hw; try exact I; auto. destruct Hw as (_ & Hv & Hne & _). auto.
  - destruct c as [| |id l allocation v lsn| |id lsn]; try (eexists; split; [reflexivity | apply Hstay; assumption]); cbn in Hc, He.
    + destruct Hc as (Hc1 & Hc2 & Hv). destruct (version_inactive _ _ _ Hv) as [Hna _]. unfold evict. destruct answer as [[x| |]|x|]; cbn [map_err rbind or_idle]; try (eexists; split; [reflexivity | apply Hstay; exact I]); try congruence;
        (destruct (disk_remove (SE := SE) d r v Hd Hna) as (s' & -> & Hd' & _ & _ & Hclk); cbn [rbind or_idle]; eexists; split; [reflexivity|]; constructor; cbn; [exact Hd' | lia | exact Hc1]).
    + destruct (version_inactive _ _ _ Hc) as (Hna & slot & Hslot & Hlsn). unfold catalog_remove. rewrite Hslot, Hlsn, Z.eqb_refl. destruct (disk_remove (SE := SE) d r id Hd Hna) as (s' & -> & Hd' & _ & _ & Hclk).
      destruct answer as [[x| |]|x|]; cbn [rbind or_idle]; try congruence; eexists; (split; [reflexivity|]); try (apply Hstay; exact I); constructor; cbn; [exact Hd' | lia | exact I | exact Hd' | lia | exact I].
  - destruct c; eexists; (split; [reflexivity|]); apply Hstay; assumption.
  - destruct c; eexists; (split; [reflexivity|]); apply Hstay; exact I.
  - assert (Hg : exists m', match r !! id with Some l => let? (_, d') := commit (SE := SE) d id l lsn in Ok {| mg_disk := d'; mg_control := c; mg_reserved := delete id r |} | None => Ok {| mg_disk := d; mg_control := c; mg_reserved := r |} end = Ok m' /\ managed_ok (n + 1) m'); [|destruct c; exact Hg].
    destruct (r !! id) as [l|] eqn:Hl; [|eexists; split; [reflexivity | apply Hstay; assumption]]. pose proof (dk_active _ _ Hd id) as Hact. rewrite Hl in Hact. destruct (ds_active (dk_state d) !! id) as [a|] eqn:Ha; [|contradiction].
    destruct (commit_ok (SE := SE) d r id a l lsn Hd Ha Hl ltac:(lia)) as (w & d' & -> & Hd' & _ & Hclk & _ & _ & Hact' & Hslots). cbn [rbind]. eexists. split; [reflexivity|]. constructor; cbn; [exact Hd' | lia|].
    apply (control_other d); [|assumption]. intros v x Hv. destruct (version_inactive _ _ _ Hv) as [Hna _]. assert (v <> id) by congruence. unfold version_on in *. rewrite Hact', lookup_delete_ne, Hslots by congruence. exact Hv.
  - assert (Hg : exists m', match r !! id with Some l => let? (_, d') := abandon (SE := SE) d id in Ok {| mg_disk := d'; mg_control := c; mg_reserved := delete id r |} | None => Ok {| mg_disk := d; mg_control := c; mg_reserved := r |} end = Ok m' /\ managed_ok (n + 1) m'); [|destruct c; exact Hg].
    destruct (r !! id) as [l|] eqn:Hl; [|eexists; split; [reflexivity | apply Hstay; assumption]]. pose proof (dk_active _ _ Hd id) as Hact. rewrite Hl in Hact. destruct (ds_active (dk_state d) !! id) as [a|] eqn:Ha; [|contradiction].
    destruct (abandon_ok (SE := SE) d r id a Hd Ha) as (w & d' & -> & Hd' & Hslots & Hact' & Hclk & _). cbn [rbind]. eexists. split; [reflexivity|]. constructor; cbn; [exact Hd' | lia|].
    apply (control_other d); [|assumption]. intros v x Hv. destruct (version_inactive _ _ _ Hv) as [Hna _]. assert (v <> id) by congruence. unfold version_on in *. rewrite Hact', lookup_delete_ne, Hslots by congruence. exact Hv.
  - destruct c; try (eexists; split; [reflexivity | apply Hstay; assumption]). destruct (version_on d id) as [lsn|] eqn:Hv; eexists; (split; [reflexivity|]); apply Hstay; [exact Hv | exact I].
  - destruct (validate_hit_alike d id lsn) as (s' & Heq & A). assert (Hg : managed_ok (n + 1) {| mg_disk := (validate_hit d id lsn).2; mg_control := c; mg_reserved := r |}); [|destruct c; eexists; (split; [reflexivity | exact Hg])].
    rewrite Heq. destruct (al_clock _ _ A) as [Hclk _]. constructor; cbn; [apply disk_alike; assumption | lia|]. apply (control_other d); [|assumption]. intros v x Hv. rewrite alike_version by assumption. exact Hv.
Qed.

Lemma managed_inv n m : managed n m -> n < U64_MAX -> managed_ok n m.
Proof.
  induction 1 as [usage infos disk_of inventory options answers disks disks' i d H1 H2 H3 H4 H5 Hnew Htrim Hi|n m e m' Hm IH He Hs]; intros Hn.
  - unfold Catalog_new in Hnew. destruct (do_reserve_segments options <? 4); [discriminate|]. cbn [fail_if rbind] in Hnew. destruct (new_disks usage infos 0 options) as [ds| |] eqn:Hds; try discriminate. cbn [rbind] in Hnew.
    apply (new_disks_loaded usage options infos H1 H3) in Hds. assert (Hperm : Permutation (merge_sort entry_le inventory) inventory) by apply merge_sort_Permutation.
    assert (Hlen : len (merge_sort entry_le inventory) = len inventory) by (unfold len; rewrite Hperm; reflexivity).
    apply (load_loaded disk_of _ 0) in Hnew; [| rewrite Hperm; assumption | rewrite Hlen; lia | eapply Forall_impl; [exact Hds|]; intros x (Hx1 & Hx2 & Hx3); split; [assumption | lia]].
    assert (Hl : Forall loaded disks) by (eapply Forall_impl; [exact Hnew | intros x Hx; apply Hx]). pose proof (trim_from_ok answers H5 disks 0 Hl) as Ht. unfold trim in Htrim. rewrite Htrim in Ht.
    destruct (Forall2_lookup_r _ _ _ _ _ Ht Hi) as (d0 & Hd0 & Hld & Hov & _ & Hclk). pose proof (proj1 (Forall_lookup _ _) Hnew _ _ Hd0) as (_ & Hc0 & _). rewrite Hlen in Hc0.
    constructor; cbn; [apply loaded_ok; assumption | lia | exact I].
  - destruct (disk_step_ok n m e (IH ltac:(lia)) ltac:(lia) He) as (m1 & Hm1 & Hok). congruence.
Qed.
End Machine.

(** ** Properties *)

(** C10: on every disk of a loaded and trimmed catalog, in any interleaving of writes, evictions,
    replies, cancellations, invalidations and hits, no step panics; the byte count is the total of the
    live entries, which with the growth reserved by writes in flight stays within the capacity, as do
    the entries with the new ones in flight; and a chunk under eviction or invalidation is never one
    that is being written, and still has the version its deletion is conditional on. *)
Theorem catalog_within_limits {SE} n m : managed (SE := SE) n m -> n < U64_MAX ->
  let s := dk_state (mg_disk m) in
  (forall e, event_fits (mg_disk m) e -> exists m', disk_step (SE := SE) e m = Ok m') /\
  ds_bytes s = msum sl_len (ds_slots s) /\ ds_bytes s + ds_extra s <= dk_capacity (mg_disk m) /\
  Z.of_nat (size (ds_slots s)) + ds_new s <= dk_entries (mg_disk m) /\
  match mg_control m with
  | Evicting id _ _ v lsn => v <> id /\ ds_active s !! v = None /\ version_on (mg_disk m) v = Some lsn
  | Invalidating v lsn => ds_active s !! v = None /\ version_on (mg_disk m) v = Some lsn
  | _ => True
  end.
Proof.
  intros Hm Hn s. pose proof (managed_inv n m Hm Hn) as Hok. split; [|destruct Hok as [Hd Hc Hctl]; split; [|split; [|split]]].
  - intros e He. destruct (disk_step_ok n m e Hok Hn He) as (m' & Hs & _). eauto.
  - apply (li_bytes _ (dk_listed _ _ Hd)).
  - apply (dk_bytes_fit _ _ Hd).
  - apply (dk_entries_fit _ _ Hd).
  - destruct (mg_control m); try exact I; cbn in Hctl.
    + destruct Hctl as (_ & Hne & Hv). destruct (version_inactive _ _ _ Hv) as [Hna _]. auto.
    + destruct (version_inactive _ _ _ Hctl) as [Hna _]. auto.
Qed.

(** C34: the bounded sweep of the Sieve policy always finds the victim of the unbounded one: the first
    unvisited chunk behind the hand that is neither excluded nor being written, or when all of these
    were visited the first of them; it finds none only if there is none. *)
Theorem sieve_sweep_exact {SE} n m exclude : managed (SE := SE) n m -> n < U64_MAX ->
  let s := dk_state (mg_disk m) in
  (exists s', victim (SE := SE) s DiskSieve exclude =
     Ok (match sieve_choice exclude s with Some id => (fun slot => (id, sl_lsn slot)) <$> ds_slots s !! id | None => None end, s')) /\
  (sieve_choice exclude s = None <-> forall id slot, ds_slots s !! id = Some slot -> excluded s exclude id = true).
Proof.
  intros Hm Hn s. destruct (managed_inv n m Hm Hn) as [Hd _ _]. pose proof (dk_listed _ _ Hd) as Hl. fold s in Hl. split.
  - destruct (sweep_exact (SE := SE) exclude s (Z.to_nat (Z.min (2 * Z.of_nat (size (ds_slots s))) U64_MAX)) Hl) as (s' & Hs' & _); [|exists s'; exact Hs'].
    rewrite (listed_size s Hl). pose proof (dk_entries_fit _ _ Hd) as Hfit. fold s in Hfit. destruct (dk_config _ _ Hd) as (_ & Hc & _). destruct (disk_ok_sums _ _ Hd) as (_ & _ & Hnew & _). fold s in Hnew. unfold live in Hfit. unfold U64_MAX. lia.
  - unfold sieve_choice. split.
    + destruct (List.find (unvisited exclude s) (rotation s)); [discriminate|]. destruct (List.find (candidate exclude s) (rotation s)) eqn:Hf; [discriminate|]. intros _ id slot Hs.
      apply negb_false_iff. apply (find_none_all _ _ Hf (sl_position slot, id)). apply rotation_elem, (li_order _ Hl). eauto.
    + intros Hall. assert (Hc : forall x, x ∈ rotation s -> candidate exclude s x = false).
      { intros [p i] Hx. apply rotation_elem, (li_order _ Hl) in Hx as (slot & Hs & _). unfold candidate. cbn [snd]. rewrite (Hall i slot Hs). reflexivity. }
      destruct (List.find (unvisited exclude s) (rotation s)) as [x|] eqn:Hf; [apply find_some in Hf as [Hx Hu]; apply list_elem_of_In in Hx; apply andb_true_iff in Hu as [Hu _]; rewrite (Hc x Hx) in Hu; discriminate|].
      destruct (List.find (candidate exclude s) (rotation s)) as [x|] eqn:Hg; [apply find_some in Hg as [Hx Hu]; apply list_elem_of_In in Hx; rewrite (Hc x Hx) in Hu; discriminate | reflexivity].
Qed.

(** C35: trimming a loaded catalog evicts at most as many chunks of a disk as it holds: it ends within the
    limits of every disk, unless the store refuses a deletion, and lack of victims never stops it. *)
Theorem trim_ends {SE} usage infos disk_of inventory options answers disks :
  Forall info_fits infos -> Forall entry_fits inventory -> options_unsigned options -> len inventory < 2 ^ 63 -> (forall i k, answers i k <> Panic) ->
  Catalog_new (SE := SE) usage infos disk_of inventory options = Ok disks ->
  match trim (SE := SE) answers disks with
  | Ok disks' => Forall2 (fun d d' => ds_bytes (dk_state d') <= dk_capacity d /\ Z.of_nat (size (ds_slots (dk_state d'))) <= dk_entries d) disks disks'
  | Err _ => exists i k, deletes (answers i k) = false
  | Panic => False
  end.
Proof.
  intros H1 H2 H3 H4 H5 Hnew. assert (Hl : Forall loaded disks).
  { unfold Catalog_new in Hnew. destruct (do_reserve_segments options <? 4); [discriminate|]. cbn [fail_if rbind] in Hnew. destruct (new_disks usage infos 0 options) as [ds| |] eqn:Hds; try discriminate. cbn [rbind] in Hnew.
    apply (new_disks_loaded usage options infos H1 H3) in Hds. assert (Hperm : Permutation (merge_sort entry_le inventory) inventory) by apply merge_sort_Permutation.
    apply (load_loaded disk_of _ 0) in Hnew; [eapply Forall_impl; [exact Hnew | intros x Hx; apply Hx] | rewrite Hperm; assumption | unfold len in *; rewrite Hperm; lia | eapply Forall_impl; [exact Hds|]; intros x (Hx1 & Hx2 & Hx3); split; [assumption | lia]]. }
  pose proof (trim_from_ok answers H5 disks 0 Hl) as Ht. unfold trim. destruct (trim_from answers 0 disks) as [disks'|e|]; [|assumption|assumption].
  eapply Forall2_impl; [exact Ht|]. intros d d' (_ & Hov & (C1 & C2 & _) & _). unfold over_limits in Hov. apply negb_false_iff, andb_true_iff in Hov as [O1 O2]. apply Z.leb_le in O1, O2. rewrite <- C1, <- C2. auto.
Qed.

(** ** Examples *)

Definition small_info : DiskInfo := {| di_uuid := []; di_capacity := 2 ^ 20; di_segment_size := 4096; di_chunk_max := 100; di_index_entries := 2 |}.
Definition small_disk_options : DiskOptions := {| do_capacity := Some 150; do_entries := None; do_policy := DiskSieve; do_reserve_segments := 4 |}.
Definition chunk (n : Z) : ChunkId := [byte.of_Z n].
Definition small_inventory : list InventoryEntry :=
  [{| ie_disk := 0; ie_id := chunk 3; ie_lsn := 30; ie_len := 50 |}; {| ie_disk := 0; ie_id := chunk 1; ie_lsn := 10; ie_len := 60 |}; {| ie_disk := 0; ie_id := chunk 2; ie_lsn := 20; ie_len := 70 |}].
Definition small_usage : Usage := {| us_segments := 16; us_free_segments := 16 |}.


Lemma small_setup : Forall info_fits [small_info] /\ Forall entry_fits small_inventory /\ options_unsigned small_disk_options /\ len small_inventory < 2 ^ 63.
Proof. repeat split; repeat constructor; cbn; lia. Qed.

Fixpoint disk_run (evs : list (disk_event (SE := unit))) (m : Managed) : cresult (SE := unit) Managed :=
  match evs with [] => Ok m | e :: evs => let? m := disk_step e m in disk_run evs m end.
Fixpoint run_fits (evs : list (disk_event (SE := unit))) (m : Managed) : Prop :=
  match evs with [] => True | e :: evs => event_fits (mg_disk m) e /\ match disk_step e m with Ok m' => run_fits evs m' | _ => False end end.

Lemma run_managed evs : forall n m, managed (SE := unit) n m -> run_fits evs m -> exists m', disk_run evs m = Ok m' /\ managed (SE := unit) (n + len evs) m'.
Proof.
  induction evs as [|e evs IH]; intros n m Hm Hf; cbn [disk_run run_fits] in *; [exists m; unfold len; cbn; rewrite Z.add_0_r; auto|]. destruct Hf as [He Hf]. destruct (disk_step e m) as [m1| |] eqn:Hs; try contradiction. cbn [rbind].
  destruct (IH (n + 1) m1 (managed_step _ _ _ _ Hm He Hs) Hf) as (m' & Hr & Hm'). exists m'. split; [exact Hr|]. replace (n + len (e :: evs)) with (n + 1 + len evs) by (unfold len; cbn [length]; lia). assumption.
Qed.

(** Values of computations that are known to succeed, left unevaluated. *)
Definition is_ok {E A} (r : res E A) : bool := match r with Ok _ => true | _ => false end.
Definition value_or {E A} (a : A) (r : res E A) : A := match r with Ok x => x | _ => a end.

Lemma value_ok {E A} (a : A) (r : res E A) : is_ok r = true -> r = Ok (value_or a r).
Proof. destruct r; [reflexivity | discriminate | discriminate]. Qed.

Definition small_new : cresult (SE := unit) (list Disk) := Catalog_new (fun _ => Ok small_usage) [small_info] (fun _ => 0) small_inventory small_disk_options.
Definition small_trimmed : cresult (SE := unit) (list Disk) := trim (fun _ _ => Ok Missing) (value_or [] small_new).
Definition small_start : Managed :=
  {| mg_disk := match value_or [] small_trimmed with d :: _ => d | [] => {| dk_state := ds_empty; dk_capacity := 0; dk_entries := 0; dk_reserve := 0; dk_segment_size := 0; dk_policy := DiskFifo |} end; mg_control := Idle; mg_reserved := ∅ |}.

(** Chunk 1 is trimmed away and chunk 2 is hit; a write of 100 bytes then spares chunk 2 and evicts chunk 3. *)
Definition small_events : list (disk_event (SE := unit)) := [Hit (chunk 2) 20; Begin (chunk 9) 100 (Ok 4096); Admit (Ok small_usage) (fun _ => false) 1].

Lemma small_opened : managed (SE := unit) 3 small_start.
Proof.
  destruct small_setup as (H1 & H2 & H3 & H4). eapply (managed_open (fun _ => Ok small_usage) [small_info] (fun _ => 0) small_inventory small_disk_options (fun _ _ => Ok Missing) (value_or [] small_new) (value_or [] small_trimmed) 0); [assumption.. | discriminate | | |].
  - apply value_ok. vm_compute. reflexivity.
  - apply value_ok. vm_compute. reflexivity.
  - assert (Hl : length (value_or [] small_trimmed) = 1%nat) by (vm_compute; reflexivity). destruct (value_or [] small_trimmed) as [|d l]; [discriminate | reflexivity].
Qed.

Lemma small_fits : run_fits small_events small_start.
Proof.
  unfold small_events. repeat (cbn [run_fits]; split; [cbn [event_fits]; repeat split; try lia; try discriminate; intros ? [= <-]; first [lia | vm_compute; reflexivity]|];
    match goal with |- match ?t with _ => _ end => rewrite (value_ok small_start t) by (vm_compute; reflexivity) end). exact I.
Qed.

Definition small_machine : Managed := value_or small_start (disk_run small_events small_start).

Lemma small_managed : managed (SE := unit) 6 small_machine /\ mg_control small_machine = Evicting (chunk 9) 100 4096 (chunk 3) 30.
Proof.
  destruct (run_managed small_events 3 small_start small_opened small_fits) as (m & Hr & Hm). split; [unfold small_machine; rewrite Hr; exact Hm | vm_compute; reflexivity].
Qed.

Lemma catalog_within_limits_witness : managed (SE := unit) 6 small_machine /\ mg_control small_machine = Evicting (chunk 9) 100 4096 (chunk 3) 30 /\
  ds_bytes (dk_state (mg_disk small_machine)) + ds_extra (dk_state (mg_disk small_machine)) <= dk_capacity (mg_disk small_machine) /\ version_on (mg_disk small_machine) (chunk 3) = Some 30.
Proof.
  destruct small_managed as [Hm Hc]. split; [exact Hm|]. split; [exact Hc|]. destruct (catalog_within_limits 6 small_machine Hm ltac:(reflexivity)) as (_ & _ & Hb & _ & Hctl). rewrite Hc in Hctl. split; [exact Hb | apply Hctl].
Defined.

Lemma sieve_sweep_exact_witness : sieve_choice (Some (chunk 9)) (dk_state (mg_disk small_machine)) = Some (chunk 2) /\
  exists s', victim (SE := unit) (dk_state (mg_disk small_machine)) DiskSieve (Some (chunk 9)) = Ok (Some (chunk 2, 20), s').
Proof.
  destruct small_managed as [Hm _]. assert (Hch : sieve_choice (Some (chunk 9)) (dk_state (mg_disk small_machine)) = Some (chunk 2)) by (vm_compute; reflexivity). split; [exact Hch|].
  destruct (sieve_sweep_exact 6 small_machine (Some (chunk 9)) Hm ltac:(reflexivity)) as [[s' Hs] _]. exists s'. rewrite Hs, Hch.
  assert (Hl : (fun slot => (chunk 2, sl_lsn slot)) <$> ds_slots (dk_state (mg_disk small_machine)) !! chunk 2 = Some (chunk 2, 20)) by (vm_compute; reflexivity). rewrite Hl. reflexivity.
Defined.

Lemma trim_ends_witness : is_ok small_trimmed = true /\ Forall2 (fun d d' => ds_bytes (dk_state d') <= dk_capacity d /\ Z.of_nat (size (ds_slots (dk_state d'))) <= dk_entries d) (value_or [] small_new) (value_or [] small_trimmed).
Proof.
  destruct small_setup as (H1 & H2 & H3 & H4). assert (Hnew : small_new = Ok (value_or [] small_new)) by (apply value_ok; vm_compute; reflexivity).
  pose proof (trim_ends (SE := unit) _ _ _ _ _ (fun _ _ => Ok Missing) (value_or [] small_new) H1 H2 H3 H4 ltac:(discriminate) Hnew) as Ht. fold small_trimmed in Ht.
  destruct small_trimmed as [disks'|e|]; [split; [reflexivity | exact Ht] | destruct Ht as (i & k & Hk); discriminate | contradiction].
Defined.
