(* ===== verification/StoreBudget.v ===== *)
(** * The store's budget (moat-cache-store/src/budget.rs)

    Credits for requests, bytes and the buffers of each disk, shared by all
    threads through counters that are changed one at a time. An operation is the
    program of its accesses to the counters ([Prog]), so that the accesses of
    different threads can be interleaved. *)

From stdpp Require Import list.
From S2P Require Import Prelude Catalog.

(** ** Counters *)

Inductive Credit := Requests | Bytes | Reads (disk : nat) | RetainedBytes | RetainedReads (disk : nat).

#[export] Instance credit_eq_dec : EqDecision Credit.
Proof. solve_decision. Defined.

Record BudgetLimits := { bl_requests : Z; bl_bytes : Z; bl_read_bytes : Z; bl_retention_bytes : Z; bl_retention_read_bytes : Z; bl_disks : nat }.

(** The limits [Budget::new] keeps. *)
Definition Budget_new (requests bytes read_bytes : Z) (disks : nat) (read_class : Z) : BudgetLimits :=
  {| bl_requests := requests; bl_bytes := bytes; bl_read_bytes := read_bytes; bl_retention_bytes := saturating_sub bytes read_class; bl_retention_read_bytes := saturating_sub read_bytes read_class; bl_disks := disks |}.

Definition limit_of (l : BudgetLimits) (c : Credit) : Z :=
  match c with Requests => bl_requests l | Bytes => bl_bytes l | Reads _ => bl_read_bytes l | RetainedBytes => bl_retention_bytes l | RetainedReads _ => bl_retention_read_bytes l end.
Definition credit_exists (l : BudgetLimits) (c : Credit) : bool := match c with Reads d | RetainedReads d => (d <? bl_disks l)%nat | _ => true end.

(** [Used::reserve]: whether there was room, and the new value. *)
Definition used_reserve (used amount limit : Z) : steps (bool * Z) :=
  if amount =? 0 then Ok (true, used)
  else
    let? room := sub64 limit used in
    if amount <=? room then let? used := add64 used amount in Ok (true, used) else Ok (false, used).

Definition used_release (used amount : Z) : steps Z :=
  if amount =? 0 then Ok used else if amount <=? used then Ok (used - amount) else Panic.

(** ** Operations *)

Inductive Prog (A : Type) :=
| Ret (a : A)
| Reserve (c : Credit) (amount : Z) (k : bool -> Prog A)
| Release (c : Credit) (amount : Z) (k : Prog A).
Arguments Ret {A}. Arguments Reserve {A}. Arguments Release {A}.

Record StorePermit := { sp_bytes : Z; sp_disk : option nat; sp_request : bool }.
Record Retention := { rt_bytes : Z; rt_disk : nat }.

Definition budget_reserve (bytes : Z) (disk : option nat) : Prog (option StorePermit) :=
  Reserve Requests 1 (fun ok =>
    if negb ok then Ret None
    else Reserve Bytes bytes (fun ok =>
      if negb ok then Release Requests 1 (Ret None)
      else
        let permit := Some {| sp_bytes := bytes; sp_disk := disk; sp_request := true |} in
        match disk with
        | None => Ret permit
        | Some d => Reserve (Reads d) bytes (fun ok => if negb ok then Release Bytes bytes (Release Requests 1 (Ret None)) else Ret permit)
        end)).

Definition retain (p : StorePermit) : Prog (option Retention) :=
  match sp_disk p with
  | None => Ret None
  | Some d =>
      Reserve RetainedBytes (sp_bytes p) (fun ok =>
        if negb ok then Ret None
        else Reserve (RetainedReads d) (sp_bytes p) (fun ok =>
          if negb ok then Release RetainedBytes (sp_bytes p) (Ret None) else Ret (Some {| rt_bytes := sp_bytes p; rt_disk := d |})))
  end.

Definition with_bytes (bytes : Z) (p : StorePermit) : StorePermit := {| sp_bytes := bytes; sp_disk := sp_disk p; sp_request := sp_request p |}.

Definition grow (bytes : Z) (p : StorePermit) : Prog (bool * StorePermit) :=
  if bytes <=? sp_bytes p then Ret (true, p)
  else
    let delta := bytes - sp_bytes p in
    Reserve Bytes delta (fun ok =>
      if negb ok then Ret (false, p)
      else match sp_disk p with
      | None => Ret (true, with_bytes bytes p)
      | Some d => Reserve (Reads d) delta (fun ok => if negb ok then Release Bytes delta (Ret (false, p)) else Ret (true, with_bytes bytes p))
      end).

(** [None] where [resize] asserts that it does not grow. *)
Definition permit_resize (bytes : Z) (p : StorePermit) : option (Prog StorePermit) :=
  if bytes <=? sp_bytes p then
    let delta := sp_bytes p - bytes in
    let rest := Release Bytes delta (Ret (with_bytes bytes p)) in
    Some (match sp_disk p with Some d => Release (Reads d) delta rest | None => rest end)
  else None.

Definition finish_request (p : StorePermit) : Prog StorePermit :=
  if sp_request p then Release Requests 1 (Ret {| sp_bytes := sp_bytes p; sp_disk := sp_disk p; sp_request := false |}) else Ret p.

Fixpoint pbind {A B} (m : Prog A) (f : A -> Prog B) : Prog B :=
  match m with
  | Ret a => f a
  | Reserve c n k => Reserve c n (fun ok => pbind (k ok) f)
  | Release c n k => Release c n (pbind k f)
  end.

(** [Permit::drop] and [Retention::drop]. *)
Definition permit_drop (p : StorePermit) : option (Prog unit) := option_map (fun m => pbind m (fun p => pbind (finish_request p) (fun _ => Ret tt))) (permit_resize 0 p).
Definition retention_drop (r : Retention) : Prog unit := Release (RetainedReads (rt_disk r)) (rt_bytes r) (Release RetainedBytes (rt_bytes r) (Ret tt)).

(** ** The machine *)

(** What somebody holds, or an operation under way, with what it gives back. *)
Inductive Owner :=
| Holding (p : StorePermit)
| Keeping (r : Retention)
| Reserving (m : Prog (option StorePermit))
| Retaining (p : StorePermit) (m : Prog (option Retention))
| Growing (m : Prog (bool * StorePermit))
| Changing (m : Prog StorePermit)
| Dropping (m : Prog unit).

Record BudgetWorld := { bw_used : Credit -> Z; bw_owners : list (option Owner) }.

Inductive BudgetEvent :=
| BReserve (bytes : Z) (disk : option nat)
| BRetain (i : nat)
| BGrow (i : nat) (bytes : Z)
| BResize (i : nat) (bytes : Z)
| BFinish (i : nat)
| BDrop (i : nat)
| BStep (i : nat).

Section Machine.
Context (l : BudgetLimits).
Implicit Types (w : BudgetWorld).

Definition set_used (c : Credit) (v : Z) (u : Credit -> Z) : Credit -> Z := fun c' => if decide (c' = c) then v else u c'.

(** The next access of a program; a disk that does not exist is out of range. *)
Definition prog_step {A} (m : Prog A) (u : Credit -> Z) : steps (Prog A * (Credit -> Z)) :=
  match m with
  | Ret a => Ok (Ret a, u)
  | Reserve c n k => if credit_exists l c then let? (ok, v) := used_reserve (u c) n (limit_of l c) in Ok (k ok, set_used c v u) else Panic
  | Release c n k => if credit_exists l c then let? v := used_release (u c) n in Ok (k, set_used c v u) else Panic
  end.

Definition owner w (i : nat) : steps Owner := let? o := expect (bw_owners w !! i) in expect o.
Definition put_owner (i : nat) (o : option Owner) w : BudgetWorld := {| bw_used := bw_used w; bw_owners := <[i := o]> (bw_owners w) |}.
Definition add_owner (o : Owner) w : BudgetWorld := {| bw_used := bw_used w; bw_owners := bw_owners w ++ [Some o] |}.

(** A finished operation returns; otherwise its next access happens. *)
Definition advance_owner (i : nat) (o : Owner) w : steps BudgetWorld :=
  match o with
  | Holding _ | Keeping _ => Panic
  | Reserving (Ret r) => Ok (put_owner i (option_map Holding r) w)
  | Retaining p (Ret r) => let w := put_owner i (Some (Holding p)) w in Ok (match r with Some r => add_owner (Keeping r) w | None => w end)
  | Growing (Ret (_, p)) => Ok (put_owner i (Some (Holding p)) w)
  | Changing (Ret p) => Ok (put_owner i (Some (Holding p)) w)
  | Dropping (Ret _) => Ok (put_owner i None w)
  | Reserving m => let? (m, u) := prog_step m (bw_used w) in Ok {| bw_used := u; bw_owners := <[i := Some (Reserving m)]> (bw_owners w) |}
  | Retaining p m => let? (m, u) := prog_step m (bw_used w) in Ok {| bw_used := u; bw_owners := <[i := Some (Retaining p m)]> (bw_owners w) |}
  | Growing m => let? (m, u) := prog_step m (bw_used w) in Ok {| bw_used := u; bw_owners := <[i := Some (Growing m)]> (bw_owners w) |}
  | Changing m => let? (m, u) := prog_step m (bw_used w) in Ok {| bw_used := u; bw_owners := <[i := Some (Changing m)]> (bw_owners w) |}
  | Dropping m => let? (m, u) := prog_step m (bw_used w) in Ok {| bw_used := u; bw_owners := <[i := Some (Dropping m)]> (bw_owners w) |}
  end.

Definition budget_step w (e : BudgetEvent) : steps BudgetWorld :=
  match e with
  | BReserve bytes disk => Ok (add_owner (Reserving (budget_reserve bytes disk)) w)
  | BRetain i => let? o := owner w i in match o with Holding p => Ok (put_owner i (Some (Retaining p (retain p))) w) | _ => Panic end
  | BGrow i bytes => let? o := owner w i in match o with Holding p => Ok (put_owner i (Some (Growing (grow bytes p))) w) | _ => Panic end
  | BResize i bytes => let? o := owner w i in match o with Holding p => let? m := expect (permit_resize bytes p) in Ok (put_owner i (Some (Changing m)) w) | _ => Panic end
  | BFinish i => let? o := owner w i in match o with Holding p => Ok (put_owner i (Some (Changing (finish_request p))) w) | _ => Panic end
  | BDrop i =>
      let? o := owner w i in
      match o with
      | Holding p => let? m := expect (permit_drop p) in Ok (put_owner i (Some (Dropping m)) w)
      | Keeping r => Ok (put_owner i (Some (Dropping (retention_drop r))) w)
      | _ => Panic
      end
  | BStep i => let? o := owner w i in advance_owner i o w
  end.

(** Callers name their disks and the lengths of their buffers; a permit is
    resized downwards, and only by its holder. *)
Definition budget_fits w (e : BudgetEvent) : Prop :=
  match e with
  | BReserve bytes disk => 0 <= bytes /\ match disk with Some d => (d < bl_disks l)%nat | None => True end
  | BRetain i | BFinish i => exists p, bw_owners w !! i = Some (Some (Holding p))
  | BGrow i bytes => exists p, bw_owners w !! i = Some (Some (Holding p))
  | BResize i bytes => 0 <= bytes /\ exists p, bw_owners w !! i = Some (Some (Holding p)) /\ bytes <= sp_bytes p
  | BDrop i => (exists p, bw_owners w !! i = Some (Some (Holding p))) \/ exists r, bw_owners w !! i = Some (Some (Keeping r))
  | BStep i => exists o, bw_owners w !! i = Some (Some o) /\ match o with Holding _ | Keeping _ => False | _ => True end
  end.

Definition budget_start : BudgetWorld := {| bw_used := fun _ => 0; bw_owners := [] |}.
Inductive budget_run : BudgetWorld -> list BudgetEvent -> BudgetWorld -> Prop :=
| budget_run_nil w : budget_run w [] w
| budget_run_cons w e es w' w'' : budget_fits w e -> budget_step w e = Ok w' -> budget_run w' es w'' -> budget_run w (e :: es) w''.
End Machine.

(** [Budget::snapshot]. *)
Definition budget_snapshot (l : BudgetLimits) (w : BudgetWorld) : Z * Z * list Z := (bw_used w Requests, bw_used w Bytes, map (fun d => bw_used w (Reads d)) (seq 0 (bl_disks l))).

(** ** Balance *)

Abbreviation charge := (Credit -> Z).
Definition plus_at (c : Credit) (n : Z) (h : charge) : charge := fun c' => if decide (c' = c) then h c' + n else h c'.
Definition no_charge : charge := fun _ => 0.
Definition permit_charge (p : StorePermit) : charge := fun c =>
  match c with Requests => if sp_request p then 1 else 0 | Bytes => sp_bytes p | Reads d => if decide (sp_disk p = Some d) then sp_bytes p else 0 | _ => 0 end.
Definition retention_charge (r : Retention) : charge := fun c =>
  match c with RetainedBytes => rt_bytes r | RetainedReads d => if decide (rt_disk r = d) then rt_bytes r else 0 | _ => 0 end.

Section Balance.
Context (l : BudgetLimits).

(** Begun with [h], the program never releases what it does not hold, and ends
    with what its result is worth. *)
Fixpoint balanced {A} (ok : A -> Prop) (worth : A -> charge) (h : charge) (m : Prog A) : Prop :=
  match m with
  | Ret a => ok a /\ forall c, h c = worth a c
  | Reserve c n k => 0 <= n /\ credit_exists l c = true /\ balanced ok worth (plus_at c n h) (k true) /\ balanced ok worth h (k false)
  | Release c n k => 0 <= n <= h c /\ credit_exists l c = true /\ balanced ok worth (plus_at c (- n) h) k
  end.

Definition permit_ok (p : StorePermit) : Prop := 0 <= sp_bytes p /\ match sp_disk p with Some d => (d < bl_disks l)%nat | None => True end.
Definition retention_ok (r : Retention) : Prop := 0 <= rt_bytes r /\ (rt_disk r < bl_disks l)%nat.
Definition opt_ok {A} (ok : A -> Prop) (o : option A) : Prop := match o with Some a => ok a | None => True end.
Definition opt_worth {A} (worth : A -> charge) (o : option A) : charge := match o with Some a => worth a | None => no_charge end.

Ltac count := intros; unfold plus_at, permit_charge, retention_charge, no_charge, with_bytes in *; cbn [sp_bytes sp_disk sp_request rt_bytes rt_disk]; repeat case_decide; repeat match goal with c : Credit |- _ => destruct c end; simplify_eq; repeat case_decide; try congruence; try lia.

Lemma balanced_ext {A} (ok : A -> Prop) worth (m : Prog A) : forall h h', (forall c, h c = h' c) -> balanced ok worth h m -> balanced ok worth h' m.
Proof.
  induction m as [a|c n k IH|c n k IH]; cbn; intros h h' He.
  - intros [Ho Hc]. split; [assumption|]. intros c. rewrite <- He. apply Hc.
  - intros (H1 & H2 & H3 & H4). split; [assumption|]. split; [assumption|]. split; [eapply IH; [|exact H3] | eapply IH; eassumption]. intros c'. unfold plus_at. rewrite He. reflexivity.
  - intros (H1 & H2 & H3). split; [rewrite <- He; assumption|]. split; [assumption|]. eapply IH; [|exact H3]. intros c'. unfold plus_at. rewrite He. reflexivity.
Qed.

Lemma balanced_bind {A B} (ok : A -> Prop) worth (ok' : B -> Prop) worth' (f : A -> Prog B) (m : Prog A) : (forall a, ok a -> balanced ok' worth' (worth a) (f a)) -> forall h, balanced ok worth h m -> balanced ok' worth' h (pbind m f).
Proof.
  intros Hf. induction m as [a|c n k IH|c n k IH]; cbn; intros h.
  - intros [Ho Hc]. eapply balanced_ext; [|apply Hf; exact Ho]. intros c. symmetry. apply Hc.
  - intros (H1 & H2 & H3 & H4). auto 6.
  - intros (H1 & H2 & H3). auto.
Qed.

Lemma disk_exists d : (d < bl_disks l)%nat -> (d <? bl_disks l)%nat = true.
Proof. apply Nat.ltb_lt. Qed.

Lemma reserve_balanced bytes disk : 0 <= bytes -> match disk with Some d => (d < bl_disks l)%nat | None => True end -> balanced (opt_ok permit_ok) (opt_worth permit_charge) no_charge (budget_reserve bytes disk).
Proof.
  intros Hb Hd. unfold budget_reserve. cbn. split; [lia|]. split; [reflexivity|]. split; [|split; [exact Logic.I | reflexivity]]. split; [lia|]. split; [reflexivity|].
  split; [|split; [unfold plus_at, no_charge; case_decide; [lia | congruence]|]; split; [reflexivity|]; split; [exact Logic.I | count]].
  destruct disk as [d|]; cbn.
  - split; [lia|]. split; [apply disk_exists; assumption|]. split; [split; [split; assumption | count]|]. split; [count|]. split; [reflexivity|]. split; [count|]. split; [reflexivity|]. split; [exact Logic.I | count].
  - split; [split; [assumption | exact Logic.I] | count].
Qed.

Lemma retain_balanced p : permit_ok p -> balanced (opt_ok retention_ok) (opt_worth retention_charge) no_charge (retain p).
Proof.
  intros [Hb Hd]. unfold retain. destruct (sp_disk p) as [d|]; cbn; [|split; [exact Logic.I | reflexivity]].
  split; [lia|]. split; [reflexivity|]. split; [|split; [exact Logic.I | reflexivity]]. split; [lia|]. split; [apply disk_exists; assumption|].
  split; [split; [split; assumption | count]|]. split; [count|]. split; [reflexivity|]. split; [exact Logic.I | count].
Qed.

Lemma grow_balanced bytes p : permit_ok p -> balanced (fun r => permit_ok (snd r)) (fun r => permit_charge (snd r)) (permit_charge p) (grow bytes p).
Proof.
  intros [Hb Hd]. unfold grow. destruct (bytes <=? sp_bytes p) eqn:E; boolp; cbn; [split; [split; assumption | reflexivity]|].
  split; [lia|]. split; [reflexivity|]. split; [|split; [split; assumption | reflexivity]]. destruct (sp_disk p) as [d|] eqn:Ed; cbn.
  - split; [lia|]. split; [apply disk_exists; assumption|]. split; [split; [split; cbn; [lia | rewrite Ed; assumption] | intros c; destruct p; cbn in *; subst; count]|]. split; [destruct p; cbn in *; subst; count|]. split; [reflexivity|]. split; [split; [assumption | rewrite Ed; assumption] | destruct p; cbn in *; subst; count].
  - split; [split; cbn; [lia | rewrite Ed; exact Logic.I] | destruct p; cbn in *; subst; count].
Qed.

Lemma resize_balanced bytes p m : permit_ok p -> 0 <= bytes -> permit_resize bytes p = Some m -> balanced (fun q => permit_ok q /\ sp_bytes q = bytes) permit_charge (permit_charge p) m.
Proof.
  intros [Hb Hd] H0. unfold permit_resize. destruct (bytes <=? sp_bytes p) eqn:E; boolp; [|discriminate]. intros [= <-]. destruct (sp_disk p) as [d|] eqn:Ed; destruct p as [b dk rq]; cbn in *; subst; cbn.
  - split; [unfold permit_charge; cbn; case_decide; [lia | congruence]|]. split; [apply disk_exists; assumption|]. split; [count|]. split; [reflexivity|]. split; [split; [split; assumption | reflexivity] | count].
  - split; [unfold permit_charge; cbn; lia|]. split; [reflexivity|]. split; [split; [split; [assumption | exact Logic.I] | reflexivity] | count].
Qed.

Lemma finish_balanced p : permit_ok p -> balanced (fun q => permit_ok q /\ sp_bytes q = sp_bytes p /\ sp_request q = false) permit_charge (permit_charge p) (finish_request p).
Proof.
  intros [Hb Hd]. unfold finish_request. destruct p as [b dk rq]. cbn in *. destruct rq; cbn; [|split; [split; [split; assumption | auto] | reflexivity]]. split; [unfold permit_charge; cbn; lia|]. split; [reflexivity|]. split; [split; [split; assumption | auto] | count].
Qed.

Lemma drop_balanced p m : permit_ok p -> permit_drop p = Some m -> balanced (fun _ => True) (fun _ => no_charge) (permit_charge p) m.
Proof.
  intros Hp Hm. unfold permit_drop in Hm. destruct (permit_resize 0 p) as [m0|] eqn:E; [|discriminate]. injection Hm as <-. eapply balanced_bind; [|eapply (resize_balanced 0); [exact Hp | lia | exact E]].
  intros q [Hq Hz]. eapply balanced_bind; [|apply finish_balanced; exact Hq]. intros q' (_ & Hz' & Hr). split; [exact Logic.I|]. intros c. unfold permit_charge, no_charge. rewrite Hr, Hz', Hz. destruct c; [reflexivity | reflexivity | case_decide; reflexivity | reflexivity | reflexivity].
Qed.

Lemma retention_balanced r : retention_ok r -> balanced (fun _ => True) (fun _ => no_charge) (retention_charge r) (retention_drop r).
Proof.
  intros [Hb Hd]. destruct r as [b d]. cbn in *. split; [unfold retention_charge; cbn; case_decide; [lia | congruence]|]. split; [apply disk_exists; assumption|]. split; [count|]. split; [reflexivity|]. split; [exact Logic.I | count].
Qed.

(** What an owner holds. *)
Definition holds (o : option Owner) (h : charge) : Prop :=
  match o with
  | None => forall c, h c = 0
  | Some (Holding p) => permit_ok p /\ forall c, h c = permit_charge p c
  | Some (Keeping r) => retention_ok r /\ forall c, h c = retention_charge r c
  | Some (Reserving m) => balanced (opt_ok permit_ok) (opt_worth permit_charge) h m
  | Some (Retaining p m) => permit_ok p /\ exists h', balanced (opt_ok retention_ok) (opt_worth retention_charge) h' m /\ (forall c, 0 <= h' c) /\ forall c, h c = permit_charge p c + h' c
  | Some (Growing m) => balanced (fun r => permit_ok (snd r)) (fun r => permit_charge (snd r)) h m
  | Some (Changing m) => balanced permit_ok permit_charge h m
  | Some (Dropping m) => balanced (fun _ => True) (fun _ => no_charge) h m
  end.

Record budget_inv (w : BudgetWorld) (hs : list charge) : Prop := {
  bi_owners : Forall2 holds (bw_owners w) hs;
  bi_nonneg : forall h c, h ∈ hs -> 0 <= h c;
  bi_used : forall c, bw_used w c = total (fun h => h c) hs;
  bi_limit : forall c, bw_used w c <= limit_of l c
}.

Definition limits_typed : Prop := forall c, 0 <= limit_of l c <= U64_MAX.

Lemma balanced_weaken {A} (ok ok' : A -> Prop) worth (m : Prog A) : (forall a, ok a -> ok' a) -> forall h, balanced ok worth h m -> balanced ok' worth h m.
Proof. intros Hok. induction m as [a|c n k IH|c n k IH]; cbn; intros h; [intros [H1 H2]; auto | intros (H1 & H2 & H3 & H4); auto 6 | intros (H1 & H2 & H3); auto]. Qed.

(** One access of a program that holds [h] of a counter of which others hold the rest. *)
Lemma prog_step_ok {A} (ok : A -> Prop) worth (m : Prog A) h u (rest : charge) : limits_typed -> balanced ok worth h m -> (forall c, 0 <= h c) -> (forall c, 0 <= rest c) -> (forall c, u c = h c + rest c) -> (forall c, u c <= limit_of l c) ->
  exists m' u' h', prog_step l m u = Ok (m', u') /\ balanced ok worth h' m' /\ (forall c, 0 <= h' c) /\ (forall c, u' c = h' c + rest c) /\ forall c, u' c <= limit_of l c.
Proof.
  intros Hl Hm Hh Hr Hu Hlim. destruct m as [a|c n k|c n k]; cbn in *.
  - exists (Ret a), u, h. auto.
  - destruct Hm as (H1 & H2 & H3 & H4). rewrite H2. unfold used_reserve, sub64, add64. pose proof (Hlim c). pose proof (Hl c). pose proof (Hh c). pose proof (Hr c). pose proof (Hu c).
    assert (Hsame : forall v, v = u c -> forall c', set_used c v u c' = u c') by (intros v -> c'; unfold set_used; case_decide; congruence).
    destruct (n =? 0) eqn:E; boolp; cbn [rbind]; [exists (k true), (set_used c (u c) u), (plus_at c n h); split; [reflexivity|]; split; [exact H3|]; split; [|split]; intros c'; rewrite ?Hsame by reflexivity; unfold plus_at; try case_decide; subst; auto; rewrite ?Hu; lia|].
    rewrite (proj2 (Z.leb_le _ _) (ltac:(lia) : u c <= limit_of l c)). cbn [rbind]. destruct (n <=? limit_of l c - u c) eqn:E2; boolp; cbn [rbind].
    + rewrite (proj2 (Z.leb_le _ _) (ltac:(lia) : u c + n <= U64_MAX)). cbn [rbind]. exists (k true), (set_used c (u c + n) u), (plus_at c n h). split; [reflexivity|]. split; [exact H3|]. unfold set_used, plus_at. split; [|split]; intros c'; case_decide; subst; auto; rewrite ?Hu in *; try lia.
    + exists (k false), (set_used c (u c) u), h. split; [reflexivity|]. split; [exact H4|]. split; [assumption|]. split; intros c'; rewrite Hsame by reflexivity; auto.
  - destruct Hm as (H1 & H2 & H3). rewrite H2. unfold used_release. pose proof (Hu c). pose proof (Hr c).
    destruct (n =? 0) eqn:E; boolp; cbn [rbind].
    + exists k, (set_used c (u c) u), (plus_at c (- n) h). split; [reflexivity|]. split; [exact H3|]. unfold set_used, plus_at. split; [|split]; intros c'; case_decide; subst; auto; rewrite ?Hu; try lia.
    + rewrite (proj2 (Z.leb_le _ _) (ltac:(lia) : n <= u c)). cbn [rbind]. exists k, (set_used c (u c - n) u), (plus_at c (- n) h). split; [reflexivity|]. split; [exact H3|]. unfold set_used, plus_at. pose proof (Hlim c). split; [|split]; intros c'; case_decide; subst; auto; try lia.
Qed.

Lemma split_total {A} (f : A -> Z) (xs : list A) i x : (forall y, y ∈ xs -> 0 <= f y) -> xs !! i = Some x -> 0 <= total f xs - f x.
Proof. intros Hf Hi. pose proof (total_lookup f xs i x Hf Hi). lia. Qed.

(** Replacing what owner [i] is and holds. *)
Lemma put_inv w hs i o o' h h' u : budget_inv w hs -> bw_owners w !! i = Some o -> hs !! i = Some h -> holds o' h' -> (forall c, 0 <= h' c) -> (forall c, u c = bw_used w c - h c + h' c) -> (forall c, u c <= limit_of l c) ->
  budget_inv {| bw_used := u; bw_owners := <[i := o']> (bw_owners w) |} (<[i := h']> hs).
Proof.
  intros [S1 S2 S3 S4] Hi Hh Ho' Hn Hu Hl. constructor; cbn.
  - apply Forall2_insert; assumption.
  - intros x c Hx. apply list_elem_of_lookup in Hx as [k Hk]. destruct (decide (i = k)) as [<-|Hne]; [rewrite list_lookup_insert_eq in Hk by (eapply lookup_lt_Some; exact Hh); injection Hk as <-; apply Hn|]. rewrite list_lookup_insert_ne in Hk by assumption. apply S2, list_elem_of_lookup. eauto.
  - intros c. rewrite (total_insert _ _ _ _ _ Hh), Hu, S3. lia.
  - exact Hl.
Qed.

Lemma still_inv w hs i o o' h h' : budget_inv w hs -> bw_owners w !! i = Some o -> hs !! i = Some h -> holds o' h' -> (forall c, h' c = h c) -> budget_inv (put_owner i o' w) (<[i := h']> hs).
Proof.
  intros S Hi Hh Ho' He. eapply put_inv; try eassumption; [|intros c; rewrite He; lia | apply S]. intros c. rewrite He. apply (bi_nonneg _ _ S), list_elem_of_lookup. eauto.
Qed.

Lemma add_inv w hs o h : budget_inv w hs -> holds (Some o) h -> (forall c, h c = 0) -> budget_inv (add_owner o w) (hs ++ [h]).
Proof.
  intros [S1 S2 S3 S4] Ho Hz. constructor; cbn.
  - apply Forall2_app; [assumption | constructor; [assumption | constructor]].
  - intros x c Hx. apply elem_of_app in Hx as [Hx|Hx]; [auto|]. apply list_elem_of_singleton in Hx as ->. rewrite Hz. lia.
  - intros c. rewrite total_snoc, Hz, S3. lia.
  - exact S4.
Qed.

Lemma owner_holds w hs i o : budget_inv w hs -> bw_owners w !! i = Some o -> exists h, hs !! i = Some h /\ holds o h.
Proof. intros S Hi. destruct (Forall2_lookup_l _ _ _ _ _ (bi_owners _ _ S) Hi) as (h & Hh & Ho). eauto. Qed.

(** An access on behalf of owner [i], whose program holds [hp] of its charge. *)
Lemma access_inv {A} (ok : A -> Prop) worth (m : Prog A) (mk : Prog A -> Owner) w hs i h hp (base : charge) : limits_typed -> budget_inv w hs -> bw_owners w !! i = Some (Some (mk m)) -> hs !! i = Some h ->
  balanced ok worth hp m -> (forall c, 0 <= hp c) -> (forall c, 0 <= base c) -> (forall c, h c = base c + hp c) -> (forall m' h', balanced ok worth h' m' -> (forall c, 0 <= h' c) -> holds (Some (mk m')) (fun c => base c + h' c)) ->
  exists w', (let? (m, u) := prog_step l m (bw_used w) in Ok {| bw_used := u; bw_owners := <[i := Some (mk m)]> (bw_owners w) |}) = Ok w' /\ exists hs', budget_inv w' hs'.
Proof.
  intros Hl S Hi Hh Hm Hp Hb He Hmk. assert (Hrest : forall c, 0 <= bw_used w c - h c) by (intros c; rewrite (bi_used _ _ S); apply (split_total (fun h => h c) hs i); [intros y Hy; apply (bi_nonneg _ _ S); exact Hy | exact Hh]).
  destruct (prog_step_ok ok worth m hp (bw_used w) (fun c => bw_used w c - hp c) Hl Hm Hp ltac:(intros c; cbn; specialize (Hrest c); specialize (Hb c); rewrite He in Hrest; lia) ltac:(intros c; cbn; lia) (bi_limit _ _ S)) as (m' & u' & h' & -> & Hm' & Hn' & Hu' & Hl'). cbn [rbind].
  eexists. split; [reflexivity|]. exists (<[i := fun c => base c + h' c]> hs). eapply put_inv; [exact S | exact Hi | exact Hh | apply Hmk; assumption | intros c; specialize (Hb c); specialize (Hn' c); lia | intros c; cbn; rewrite Hu', He; lia | exact Hl'].
Qed.

Ltac zero_base := intros; unfold no_charge; lia.

Lemma advance_inv w hs i o : limits_typed -> budget_inv w hs -> bw_owners w !! i = Some (Some o) -> match o with Holding _ | Keeping _ => False | _ => True end -> exists w', advance_owner l i o w = Ok w' /\ exists hs', budget_inv w' hs'.
Proof.
  intros Hl S Hi Hrun. destruct (owner_holds w hs i _ S Hi) as (h & Hh & Ho). assert (Hn : forall c, 0 <= h c) by (intros c; apply (bi_nonneg _ _ S), list_elem_of_lookup; eauto).
  assert (Hplain : forall A (ok : A -> Prop) worth (m : Prog A) (mk : Prog A -> Owner), o = mk m -> balanced ok worth h m -> (forall m' h', balanced ok worth h' m' -> holds (Some (mk m')) h') -> exists w', (let? (m, u) := prog_step l m (bw_used w) in Ok {| bw_used := u; bw_owners := <[i := Some (mk m)]> (bw_owners w) |}) = Ok w' /\ exists hs', budget_inv w' hs').
  { intros A ok worth m mk -> Hm Hmk. eapply (access_inv ok worth m mk w hs i h h no_charge); try eassumption; try zero_base. intros m' h' Hm' _. apply Hmk. eapply balanced_ext; [|exact Hm']. zero_base. }
  destruct o as [p|r|m|p m|m|m|m]; try contradiction; cbn [holds] in Ho.
  - destruct m as [a|c n k|c n k]; [|apply (Hplain _ _ _ _ Reserving eq_refl Ho); auto|apply (Hplain _ _ _ _ Reserving eq_refl Ho); auto]. destruct Ho as [Hok Hc]. cbn. eexists. split; [reflexivity|]. exists (<[i := h]> hs). apply (still_inv w hs i _ _ h h S Hi Hh); [|reflexivity]. destruct a as [p|]; cbn in *; auto.
  - destruct Ho as (Hp & h' & Hm & Hn' & Hsum). destruct m as [a|c n k|c n k].
    2, 3: cbn [advance_owner]; eapply (access_inv _ _ _ (Retaining p) w hs i h h' (permit_charge p)); try eassumption; [intros c'; destruct Hp as [Hb _]; unfold permit_charge; destruct c'; try lia; [destruct (sp_request p); lia | case_decide; lia] | intros m' h2 Hm' Hn2; split; [exact Hp|]; exists h2; split; [exact Hm'|]; split; [exact Hn2 | reflexivity]].
    destruct Hm as [Hok Hc]. assert (Hret : forall c, h' c = opt_worth retention_charge a c) by exact Hc. cbn [advance_owner]. destruct a as [r|]; cbn in Hok, Hret.
    + eexists. split; [reflexivity|]. exists (<[i := permit_charge p]> hs ++ [h']). destruct S as [S1 S2 S3 S4]. assert (Hpc : forall c, 0 <= permit_charge p c) by (intros c'; destruct Hp as [Hb _]; unfold permit_charge; destruct c'; try lia; [destruct (sp_request p); lia | case_decide; lia]). constructor; cbn.
      * apply Forall2_app; [apply Forall2_insert; [assumption | split; [exact Hp | reflexivity]] | constructor; [split; assumption | constructor]].
      * intros x c Hx. apply elem_of_app in Hx as [Hx|Hx]; [|apply list_elem_of_singleton in Hx as ->; apply Hn']. apply list_elem_of_lookup in Hx as [k Hk]. destruct (decide (i = k)) as [<-|Hne]; [rewrite list_lookup_insert_eq in Hk by (eapply lookup_lt_Some; exact Hh); injection Hk as <-; apply Hpc|]. rewrite list_lookup_insert_ne in Hk by assumption. apply S2, list_elem_of_lookup. eauto.
      * intros c. rewrite total_snoc, (total_insert _ _ _ _ _ Hh), S3. cbn beta. rewrite Hsum. lia.
      * exact S4.
    + eexists. split; [reflexivity|]. exists (<[i := h]> hs). apply (still_inv w hs i _ _ h h S Hi Hh); [|reflexivity]. split; [exact Hp|]. intros c. rewrite Hsum, Hret. unfold no_charge. lia.
  - destruct m as [[b p]|c n k|c n k]; [|apply (Hplain _ _ _ _ Growing eq_refl Ho); auto|apply (Hplain _ _ _ _ Growing eq_refl Ho); auto]. destruct Ho as [Hok Hc]. cbn. eexists. split; [reflexivity|]. exists (<[i := h]> hs). apply (still_inv w hs i _ _ h h S Hi Hh); [|reflexivity]. split; assumption.
  - destruct m as [p|c n k|c n k]; [|apply (Hplain _ _ _ _ Changing eq_refl Ho); auto|apply (Hplain _ _ _ _ Changing eq_refl Ho); auto]. destruct Ho as [Hok Hc]. cbn. eexists. split; [reflexivity|]. exists (<[i := h]> hs). apply (still_inv w hs i _ _ h h S Hi Hh); [|reflexivity]. split; assumption.
  - destruct m as [a|c n k|c n k]; [|apply (Hplain _ _ _ _ Dropping eq_refl Ho); auto|apply (Hplain _ _ _ _ Dropping eq_refl Ho); auto]. destruct Ho as [_ Hc]. cbn. eexists. split; [reflexivity|]. exists (<[i := h]> hs). apply (still_inv w hs i _ _ h h S Hi Hh); [|reflexivity]. exact Hc.
Qed.

Lemma budget_step_inv w hs e : limits_typed -> budget_inv w hs -> budget_fits l w e -> exists w', budget_step l w e = Ok w' /\ exists hs', budget_inv w' hs'.
Proof.
  intros Hl S Hfit. assert (Hput : forall i p o, bw_owners w !! i = Some (Some (Holding p)) -> (permit_ok p -> forall h, (forall c, h c = permit_charge p c) -> holds (Some o) h) -> exists w', Ok (E := unit) (put_owner i (Some o) w) = Ok w' /\ exists hs', budget_inv w' hs').
  { intros i p o Hi Ho. destruct (owner_holds w hs i _ S Hi) as (h & Hh & Hp & Hc). eexists. split; [reflexivity|]. exists (<[i := h]> hs). apply (still_inv w hs i _ _ h h S Hi Hh); [|reflexivity]. apply Ho; assumption. }
  destruct e as [bytes disk|i|i bytes|i bytes|i|i|i]; cbn [budget_step budget_fits] in *; unfold owner.
  - destruct Hfit as [Hb Hd]. eexists. split; [reflexivity|]. exists (hs ++ [no_charge]). apply add_inv; [assumption | apply reserve_balanced; assumption | reflexivity].
  - destruct Hfit as [p Hi]. rewrite Hi. cbn [expect rbind]. apply (Hput i p); [exact Hi|]. intros Hp h Hc. split; [exact Hp|]. exists no_charge. split; [apply retain_balanced; exact Hp|]. split; [reflexivity|]. intros c. rewrite Hc. unfold no_charge. lia.
  - destruct Hfit as [p Hi]. rewrite Hi. cbn [expect rbind]. apply (Hput i p); [exact Hi|]. intros Hp h Hc. cbn [holds]. eapply balanced_ext; [|apply grow_balanced; exact Hp]. auto.
  - destruct Hfit as (H0 & p & Hi & Hle). rewrite Hi. cbn [expect rbind]. destruct (permit_resize bytes p) as [m|] eqn:E; [|unfold permit_resize in E; rewrite (proj2 (Z.leb_le _ _) Hle) in E; discriminate]. cbn [expect rbind]. apply (Hput i p); [exact Hi|]. intros Hp h Hc. cbn [holds]. eapply balanced_ext; [symmetry; apply Hc|]. eapply balanced_weaken; [|eapply resize_balanced; eassumption]. intros q [Hq _]. exact Hq.
  - destruct Hfit as [p Hi]. rewrite Hi. cbn [expect rbind]. apply (Hput i p); [exact Hi|]. intros Hp h Hc. cbn [holds]. eapply balanced_ext; [symmetry; apply Hc|]. eapply balanced_weaken; [|apply finish_balanced; exact Hp]. intros q (Hq & _). exact Hq.
  - destruct Hfit as [[p Hi]|[r Hi]]; rewrite Hi; cbn [expect rbind].
    + destruct (owner_holds w hs i _ S Hi) as (h0 & _ & [Hp0 _] & _). destruct (permit_drop p) as [m|] eqn:E; [|unfold permit_drop, permit_resize in E; rewrite (proj2 (Z.leb_le _ _) Hp0) in E; discriminate]. cbn [expect rbind]. apply (Hput i p); [exact Hi|]. intros Hp h Hc. cbn [holds]. eapply balanced_ext; [symmetry; apply Hc|]. eapply drop_balanced; eassumption.
    + destruct (owner_holds w hs i _ S Hi) as (h & Hh & Hr & Hc). eexists. split; [reflexivity|]. exists (<[i := h]> hs). apply (still_inv w hs i _ _ h h S Hi Hh); [|reflexivity]. cbn [holds]. eapply balanced_ext; [symmetry; apply Hc | apply retention_balanced; exact Hr].
  - destruct Hfit as (o & Hi & Hrun). rewrite Hi. cbn [expect rbind]. eapply advance_inv; eassumption.
Qed.

Lemma budget_run_inv w hs es w' : limits_typed -> budget_inv w hs -> budget_run l w es w' -> exists hs', budget_inv w' hs'.
Proof.
  intros Hl S R. revert hs S. induction R as [|w e es w1 w2 Hfit Hs R IH]; intros hs S; [eauto|]. destruct (budget_step_inv w hs e Hl S Hfit) as (w3 & Hs3 & hs3 & S3). assert (w1 = w3) as -> by congruence. eapply IH. exact S3.
Qed.

Lemma start_inv : limits_typed -> budget_inv budget_start [].
Proof. intros Hl. constructor; cbn; [constructor | intros h c Hh; apply not_elem_of_nil in Hh as [] | reflexivity | intros c; apply Hl]. Qed.

(** Nobody is between two accesses. *)
Definition owner_charge (o : option Owner) : charge := match o with Some (Holding p) => permit_charge p | Some (Keeping r) => retention_charge r | _ => no_charge end.
Definition at_rest (o : option Owner) : Prop := match o with None | Some (Holding _) | Some (Keeping _) => True | _ => False end.

Lemma rest_total os hs : Forall2 holds os hs -> Forall at_rest os -> forall c, total (fun h => h c) hs = total (fun o => owner_charge o c) os.
Proof.
  intros HF. induction HF as [|o h os hs Ho HF IH]; intros HR c; [reflexivity|]. apply Forall_cons in HR as [Hr HR]. rewrite !total_cons, (IH HR c). f_equal. destruct o as [[p|r| | | | |]|]; cbn in *; try contradiction; [apply Ho | apply Ho | apply Ho].
Qed.
End Balance.

(** C22: Whatever reserves, grows, shrinks, retains, finishes and drops interleave, one counter access at a time, no access of the store's budget overflows, underflows or fails its assertion; no counter exceeds its limit, so that retained buffers always leave room for one more read of the largest class; and when no operation is under way the counters are exactly what the living permits and retentions are worth. *)
Theorem store_budget_exact (requests bytes read_bytes : Z) (disks : nat) (read_class : Z) (es : list BudgetEvent) (w : BudgetWorld) :
  let l := Budget_new requests bytes read_bytes disks read_class in
  is_u64 requests -> is_u64 bytes -> is_u64 read_bytes -> 0 <= read_class -> budget_run l budget_start es w ->
  (forall e, budget_fits l w e -> exists w', budget_step l w e = Ok w') /\ (forall c, 0 <= bw_used w c <= limit_of l c) /\
  (read_class <= bytes -> bw_used w RetainedBytes + read_class <= bytes) /\
  (Forall at_rest (bw_owners w) -> forall c, bw_used w c = total (fun o => owner_charge o c) (bw_owners w)).
Proof.
  intros l Hr Hb Hrb Hc Hrun. assert (Hl : limits_typed l) by (unfold is_u64 in *; intros []; cbn; unfold saturating_sub, U64_MAX; repeat match goal with |- context [if ?b then _ else _] => destruct b eqn:?; boolp end; lia).
  destruct (budget_run_inv l _ _ _ _ Hl (start_inv l Hl) Hrun) as [hs S]. assert (Hnn : forall c, 0 <= bw_used w c) by (intros c; rewrite (bi_used _ _ _ S); apply total_nonneg; intros h Hh; apply (bi_nonneg _ _ _ S); exact Hh).
  split; [intros e He; destruct (budget_step_inv l w hs e Hl S He) as (w' & Hs & _); eauto|]. split; [intros c; split; [apply Hnn | apply (bi_limit _ _ _ S)]|]. split.
  - intros Hle. pose proof (bi_limit _ _ _ S RetainedBytes) as H1. cbn in H1. unfold saturating_sub in H1. destruct (bytes <? read_class) eqn:E; boolp; lia.
  - intros Hrest c. rewrite (bi_used _ _ _ S). apply (rest_total l); [apply S | exact Hrest].
Qed.

(** ** A run: two reads admitted and one retained *)

Definition budget_demo : list BudgetEvent := [BReserve 16 (Some 0%nat); BStep 0; BStep 0; BStep 0; BStep 0; BRetain 0; BStep 0; BStep 0; BStep 0].
Definition demo_limits : BudgetLimits := Budget_new 8 64 32 2 16.
Definition budget_next (w : BudgetWorld) (e : BudgetEvent) : BudgetWorld := match budget_step demo_limits w e with Ok w => w | _ => w end.

Lemma store_budget_exact_witness : exists w, budget_run demo_limits budget_start budget_demo w /\ bw_used w RetainedBytes + 16 <= 64.
Proof.
  assert (Hrun : budget_run demo_limits budget_start budget_demo (fold_left budget_next budget_demo budget_start)).
  { unfold budget_demo. cbn [fold_left]. eapply budget_run_cons; [split; [lia | cbn; lia] | reflexivity|]. do 4 (eapply budget_run_cons; [eexists; split; [reflexivity | exact Logic.I] | reflexivity|]). eapply budget_run_cons; [eexists; reflexivity | reflexivity|]. do 3 (eapply budget_run_cons; [eexists; split; [reflexivity | exact Logic.I] | reflexivity|]). apply budget_run_nil. }
  eexists. split; [exact Hrun|]. destruct (store_budget_exact 8 64 32 2 16 budget_demo _ ltac:(unfold is_u64; lia) ltac:(unfold is_u64; lia) ltac:(unfold is_u64; lia) ltac:(lia) Hrun) as (_ & _ & H & _). apply H. lia.
Defined.
