(* ===== verification/StoreWorker.v ===== *)
(** * The worker of a disk (moat-cache-store/src/worker.rs, command.rs)

    The thread that owns a disk's session: commands are queued per chunk, at most
    one operation of a chunk is at the session, equal reads share one, and a
    fence waits until everything before it is done. [run] and [finish] are a
    machine of the regions of their loops; what the session, the budget and the
    channel answer are arguments. A reply channel is the number of its command,
    which counts the commands received. [wk_sent] lists the answers in the order
    the worker decides them, and [wk_log] how each is given: on the spot, or in
    an action for [Delivery::push], which with a completion executor runs later.
    When the callers are told is the matter of StoreDelivery. The counters of
    reads and of coalesced reads are left out. *)

From stdpp Require Import gmap sorting.
From S2P Require Import Prelude ChunkId Catalog.

(** ** Data *)

(** [max_class] is the largest buffer of the session's pool. *)
Section Worker.
Context {SErr : Type} (max_class : Z).

Inductive StoreError := StoreBusy | StoreClosed | StoreFailed (e : SErr).

(** What a command's caller is sent; [Abandoned] if he has gone. *)
Inductive Outcome :=
| Found (lsn : Z) (bytes : list byte)
| NotFound
| Written (lsn : Z)
| DeleteDone (r : DeleteResult)
| Inventoried (entries : list (ChunkId * Z * Z))
| FenceDone
| Refused (e : StoreError)
| Abandoned.

Inductive FenceReply := FlushReply (reply : Z) | InventoryReply (reply : Z) | CloseReply (reply : option Z).

Inductive Command :=
| CmdRead (id : ChunkId) (range : option (Z * Z)) (reply : Z) (permit : Z)
| CmdPut (id : ChunkId) (value : list byte) (reply : Z)
| CmdDelete (id : ChunkId) (expected_lsn : option Z) (reply : Z)
| CmdFence (reply : FenceReply).

(** [wt_permit] is the byte credit of the permit, until it is taken. *)
Record Waiter := { wt_reply : Z; wt_permit : option Z }.

Inductive Operation :=
| OpRead (range : option (Z * Z)) (lsn : Z) (waiters : list Waiter)
| OpPut (value : list byte) (reply : Z)
| OpDelete (expected_lsn : option Z) (reply : Z).

Record Chain := { ch_active : option Operation; ch_pending : list Operation }.
Record FenceState := { fs_reply : FenceReply; fs_ticket : option Z }.

(** Answers sent on the spot, and those of one action handed to the delivery. *)
Inductive Answer := Direct (msgs : list (Z * Outcome)) | Pushed (msgs : list (Z * Outcome)).

Record Worker := {
  wk_chains : gmap ChunkId Chain;
  wk_ready : list ChunkId;
  wk_reads : gmap Z ChunkId;
  wk_writes : gmap Z (ChunkId * Z);
  wk_fence : option FenceState;
  wk_closing : bool;
  wk_close_reply : option Z;
  wk_write_error : option StoreError;
  wk_sent : list (Z * Outcome);
  wk_log : list Answer
}.

Implicit Types (w : Worker) (id : ChunkId) (op : Operation).

Definition wk_set_chains (v : gmap ChunkId Chain) w : Worker := {| wk_chains := v; wk_ready := wk_ready w; wk_reads := wk_reads w; wk_writes := wk_writes w; wk_fence := wk_fence w; wk_closing := wk_closing w; wk_close_reply := wk_close_reply w; wk_write_error := wk_write_error w; wk_sent := wk_sent w; wk_log := wk_log w |}.
Definition wk_set_ready (v : list ChunkId) w : Worker := {| wk_chains := wk_chains w; wk_ready := v; wk_reads := wk_reads w; wk_writes := wk_writes w; wk_fence := wk_fence w; wk_closing := wk_closing w; wk_close_reply := wk_close_reply w; wk_write_error := wk_write_error w; wk_sent := wk_sent w; wk_log := wk_log w |}.
Definition wk_set_tickets (reads : gmap Z ChunkId) (writes : gmap Z (ChunkId * Z)) w : Worker := {| wk_chains := wk_chains w; wk_ready := wk_ready w; wk_reads := reads; wk_writes := writes; wk_fence := wk_fence w; wk_closing := wk_closing w; wk_close_reply := wk_close_reply w; wk_write_error := wk_write_error w; wk_sent := wk_sent w; wk_log := wk_log w |}.
Definition wk_set_fence (v : option FenceState) w : Worker := {| wk_chains := wk_chains w; wk_ready := wk_ready w; wk_reads := wk_reads w; wk_writes := wk_writes w; wk_fence := v; wk_closing := wk_closing w; wk_close_reply := wk_close_reply w; wk_write_error := wk_write_error w; wk_sent := wk_sent w; wk_log := wk_log w |}.
Definition wk_set_close (closing : bool) (reply : option Z) w : Worker := {| wk_chains := wk_chains w; wk_ready := wk_ready w; wk_reads := wk_reads w; wk_writes := wk_writes w; wk_fence := wk_fence w; wk_closing := closing; wk_close_reply := reply; wk_write_error := wk_write_error w; wk_sent := wk_sent w; wk_log := wk_log w |}.
Definition wk_set_error (v : option StoreError) w : Worker := {| wk_chains := wk_chains w; wk_ready := wk_ready w; wk_reads := wk_reads w; wk_writes := wk_writes w; wk_fence := wk_fence w; wk_closing := wk_closing w; wk_close_reply := wk_close_reply w; wk_write_error := v; wk_sent := wk_sent w; wk_log := wk_log w |}.
Definition answer (msgs : list (Z * Outcome)) (how : list Answer) w : Worker := {| wk_chains := wk_chains w; wk_ready := wk_ready w; wk_reads := wk_reads w; wk_writes := wk_writes w; wk_fence := wk_fence w; wk_closing := wk_closing w; wk_close_reply := wk_close_reply w; wk_write_error := wk_write_error w; wk_sent := wk_sent w ++ msgs; wk_log := wk_log w ++ how |}.
(** The sends of this thread, and [delivery.push] of one action and of several. *)
Definition send (msgs : list (Z * Outcome)) : Worker -> Worker := answer msgs [Direct msgs].
Definition push (msgs : list (Z * Outcome)) : Worker -> Worker := answer msgs [Pushed msgs].
Definition push_each (actions : list (list (Z * Outcome))) : Worker -> Worker := answer (concat actions) (map Pushed actions).

Definition Worker_new : Worker := {| wk_chains := ∅; wk_ready := []; wk_reads := ∅; wk_writes := ∅; wk_fence := None; wk_closing := false; wk_close_reply := None; wk_write_error := None; wk_sent := []; wk_log := [] |}.

(** ** Replies (command.rs) *)

Definition replies_of op : list Z := match op with OpRead _ _ ws => map wt_reply ws | OpPut _ r | OpDelete _ r => [r] end.
Definition to_all (r : Outcome) (ws : list Waiter) : list (Z * Outcome) := map (fun x => (wt_reply x, r)) ws.

(** [read_done]: the first waiter's credit, cut down to the buffer's length,
    becomes the chunk's. *)
Definition read_done op (result : res SErr (list byte * Z)) : steps (list (Z * Outcome)) :=
  match op, result with
  | OpRead _ lsn ws, Ok (bytes, buf_len) =>
      let? leader := expect (ws !! 0%nat) in
      let? permit := expect (wt_permit leader) in
      if buf_len <=? permit then Ok (to_all (Found lsn bytes) ws) else Panic
  | OpRead _ _ ws, Err e => Ok (to_all (Refused (StoreFailed e)) ws)
  | _, _ => Panic
  end.
Definition op_miss op : steps (list (Z * Outcome)) := match op with OpRead _ _ ws => Ok (to_all NotFound ws) | _ => Panic end.
Definition write_done op (result : Z + StoreError) : steps (list (Z * Outcome)) :=
  match op, result with
  | OpPut _ r, inl lsn => Ok [(r, Written lsn)]
  | OpDelete _ r, inl lsn => Ok [(r, DeleteDone (Deleted lsn))]
  | OpPut _ r, inr e | OpDelete _ r, inr e => Ok [(r, Refused e)]
  | OpRead _ _ _, _ => Panic
  end.
Definition op_deleted op (r : DeleteResult) : steps (list (Z * Outcome)) := match op with OpDelete _ reply => Ok [(reply, DeleteDone r)] | _ => Panic end.
Definition op_fail op (e : StoreError) : list (Z * Outcome) := match op with OpRead _ _ ws => to_all (Refused e) ws | OpPut _ r | OpDelete _ r => [(r, Refused e)] end.
Definition fence_number (f : FenceReply) : option Z := match f with FlushReply r | InventoryReply r => Some r | CloseReply r => r end.
Definition fence_fail (reply : FenceReply) (e : StoreError) : list (Z * Outcome) := match fence_number reply with Some r => [(r, Refused e)] | None => [] end.
Definition command_fail (c : Command) (e : StoreError) : list (Z * Outcome) :=
  match c with CmdRead _ _ r _ | CmdPut _ _ r | CmdDelete _ _ r => [(r, Refused e)] | CmdFence r => fence_fail r e end.

(** ** Receiving *)

Definition range_eqb (a b : option (Z * Z)) : bool := bool_decide (a = b).

(** The waiters join the last operation of the chain if it reads the same range. *)
Definition join_last (range : option (Z * Z)) (ws : list Waiter) (c : Chain) : option Chain :=
  let join op := match op with OpRead previous lsn pws => if range_eqb previous range then Some (OpRead previous lsn (pws ++ ws)) else None | _ => None end in
  match rev (ch_pending c) with
  | [] => match ch_active c with Some op => option_map (fun op => {| ch_active := Some op; ch_pending := ch_pending c |}) (join op) | None => None end
  | op :: before => option_map (fun op => {| ch_active := ch_active c; ch_pending := rev before ++ [op] |}) (join op)
  end.

Definition empty_chain : Chain := {| ch_active := None; ch_pending := [] |}.

Definition enqueue id op w : steps Worker :=
  let chain := default empty_chain (wk_chains w !! id) in
  let push :=
    let w := if match ch_active chain, ch_pending chain with None, [] => true | _, _ => false end then wk_set_ready (wk_ready w ++ [id]) w else w in
    Ok (wk_set_chains (<[id := {| ch_active := ch_active chain; ch_pending := ch_pending chain ++ [op] |}]> (wk_chains w)) w) in
  match op with
  | OpRead range _ ws =>
      match join_last range (map (fun x => {| wt_reply := wt_reply x; wt_permit := Some 0 |}) ws) chain with
      | Some chain => if forallb (fun x => match wt_permit x with Some _ => true | None => false end) ws then Ok (wk_set_chains (<[id := chain]> (wk_chains w)) w) else Panic
      | None => push
      end
  | _ => push
  end.

Definition accept_command (c : Command) w : steps Worker :=
  match c with
  | CmdRead id range reply permit => enqueue id (OpRead range 0 [{| wt_reply := reply; wt_permit := Some permit |}]) w
  | CmdPut id value reply => enqueue id (OpPut value reply) w
  | CmdDelete id expected_lsn reply => enqueue id (OpDelete expected_lsn reply) w
  | CmdFence reply => Ok (wk_set_fence (Some {| fs_reply := reply; fs_ticket := None |}) w)
  end.

Definition disconnected w : Worker := wk_set_fence (Some {| fs_reply := CloseReply None; fs_ticket := None |}) w.

(** ** Starting *)

(** The session takes a request, has no room, or refuses it. *)
Inductive Taken (A : Type) := Take (a : A) | NoRoom | Refuse (e : SErr).

(** What the session knows of the chunk, whether the budget has a buffer, the
    session's answer to the request, and which callers have gone. *)
Record StartAnswer := { sa_stat : option Z; sa_grow : bool; sa_submit : Taken (Z * Z); sa_gone : list Z }.

Inductive Started := Active (op : Operation) | Retry (op : Operation) | Done.

Definition keep_error (e : StoreError) w : Worker := wk_set_error (Some (default e (wk_write_error w))) w.

(** The end of [start]: a ticket, another attempt later, or a refusal. *)
Definition submitted (read : bool) id op (r : Taken (Z * Z)) w : Started * Worker :=
  match r with
  | Take _ (ticket, lsn) => (Active op, if read then wk_set_tickets (<[ticket := id]> (wk_reads w)) (wk_writes w) w else wk_set_tickets (wk_reads w) (<[ticket := (id, lsn)]> (wk_writes w)) w)
  | NoRoom _ => (Retry op, w)
  | Refuse _ e => (Done, send (op_fail op (StoreFailed e)) (if read then w else keep_error (StoreFailed e) w))
  end.

Definition start_read id (range : option (Z * Z)) (lsn : Z) (ws : list Waiter) (a : StartAnswer) w : steps (Started * Worker) :=
  let gone x := bool_decide (wt_reply x ∈ sa_gone a) in
  let w := send (to_all Abandoned (List.filter gone ws)) w in
  match List.filter (fun x => negb (gone x)) ws with
  | [] => Ok (Done, w)
  | leader :: rest =>
      match sa_stat a with
      | None => let? msgs := op_miss (OpRead range lsn (leader :: rest)) in Ok (Done, send msgs w)
      | Some lsn =>
          let? permit := expect (wt_permit leader) in
          if sa_grow a then Ok (submitted true id (OpRead range lsn ({| wt_reply := wt_reply leader; wt_permit := Some (Z.max permit max_class) |} :: rest)) (sa_submit a) w)
          else Ok (Retry (OpRead range lsn (leader :: rest)), w)
      end
  end.

Definition start_op id op (a : StartAnswer) w : steps (Started * Worker) :=
  match op with
  | OpRead range lsn ws => start_read id range lsn ws a w
  | OpPut _ _ => Ok (submitted false id op (sa_submit a) w)
  | OpDelete expected_lsn _ =>
      match sa_stat a with
      | None => let? msgs := op_deleted op Missing in Ok (Done, send msgs w)
      | Some lsn =>
          if match expected_lsn with Some expected => negb (expected =? lsn) | None => false end then let? msgs := op_deleted op Changed in Ok (Done, send msgs w)
          else Ok (submitted false id op (sa_submit a) w)
      end
  end.

(** One turn of the loop over the ready chains. *)
Definition start_next (a : StartAnswer) w : steps Worker :=
  let? id := expect (wk_ready w !! 0%nat) in
  let w := wk_set_ready (drop 1 (wk_ready w)) w in
  let? chain := expect (wk_chains w !! id) in
  let w := wk_set_chains (delete id (wk_chains w)) w in
  let? op := expect (ch_pending chain !! 0%nat) in
  let rest := drop 1 (ch_pending chain) in
  let? (started, w) := start_op id op a w in
  let chain :=
    match started with
    | Active op => {| ch_active := Some op; ch_pending := rest |}
    | Retry op => {| ch_active := ch_active chain; ch_pending := op :: rest |}
    | Done => {| ch_active := ch_active chain; ch_pending := rest |}
    end in
  let idle := match ch_active chain with None => true | Some _ => false end in
  let queued := match ch_pending chain with [] => false | _ => true end in
  let w := if idle && queued then wk_set_ready (wk_ready w ++ [id]) w else w in
  Ok (if negb idle || queued then wk_set_chains (<[id := chain]> (wk_chains w)) w else w).

(** ** Completions *)

Definition complete_chain id w : steps (Operation * Worker) :=
  let? chain := expect (wk_chains w !! id) in
  let? op := expect (ch_active chain) in
  match ch_pending chain with
  | [] => Ok (op, wk_set_chains (delete id (wk_chains w)) w)
  | _ => Ok (op, wk_set_ready (wk_ready w ++ [id]) (wk_set_chains (<[id := {| ch_active := None; ch_pending := ch_pending chain |}]> (wk_chains w)) w))
  end.

(** The error of a fence that closes ends the loop. *)
Definition finish_fence (result : option StoreError) w : steps (option StoreError * Worker) :=
  let? f := expect (wk_fence w) in
  let w := wk_set_fence None w in
  match fs_reply f with
  | FlushReply r =>
      let outcome := match result, wk_write_error w with None, None => FenceDone | Some e, _ | None, Some e => Refused e end in
      Ok (None, push [(r, outcome)] (wk_set_error None w))
  | CloseReply r => Ok (result, wk_set_close true r w)
  | InventoryReply _ => Panic
  end.

Inductive StoreCompletion :=
| DoneRead (ticket : Z) (result : res SErr (list byte * Z))
| DoneWrite (ticket : Z) (result : option SErr)
| DoneFlush (ticket : Z) (result : option SErr)
| DoneFailed (ticket : Z) (e : SErr).

Definition check_fence (ticket : Z) w : bool := match wk_fence w with Some f => bool_decide (fs_ticket f = Some ticket) | None => false end.

Definition on_completion (c : StoreCompletion) w : steps (option StoreError * Worker) :=
  match c with
  | DoneFailed ticket e =>
      let w := keep_error (StoreFailed e) w in
      match wk_reads w !! ticket with
      | Some id => let? (op, w) := complete_chain id (wk_set_tickets (delete ticket (wk_reads w)) (wk_writes w) w) in Ok (None, send (op_fail op (StoreFailed e)) w)
      | None =>
          match wk_writes w !! ticket with
          | Some (id, _) => let? (op, w) := complete_chain id (wk_set_tickets (wk_reads w) (delete ticket (wk_writes w)) w) in Ok (None, send (op_fail op (StoreFailed e)) w)
          | None => if check_fence ticket w then finish_fence (Some (StoreFailed e)) w else Panic
          end
      end
  | DoneRead ticket result =>
      let? id := expect (wk_reads w !! ticket) in
      let? (op, w) := complete_chain id (wk_set_tickets (delete ticket (wk_reads w)) (wk_writes w) w) in
      let? msgs := read_done op result in
      Ok (None, push msgs w)
  | DoneWrite ticket result =>
      let? (id, lsn) := expect (wk_writes w !! ticket) in
      let w := wk_set_tickets (wk_reads w) (delete ticket (wk_writes w)) w in
      let w := match result with Some e => keep_error (StoreFailed e) w | None => w end in
      let? (op, w) := complete_chain id w in
      let? msgs := write_done op (match result with Some e => inr (StoreFailed e) | None => inl lsn end) in
      Ok (None, send msgs w)
  | DoneFlush ticket result => if check_fence ticket w then finish_fence (option_map StoreFailed result) w else Panic
  end.

(** ** Fences *)

Record FenceAnswer := { fa_inventory : list (ChunkId * Z * Z); fa_flush : Taken Z; fa_seal : option SErr }.

Definition advance_fence (a : FenceAnswer) w : steps (option StoreError * Worker) :=
  let? f := expect (wk_fence w) in
  match fs_ticket f with
  | Some _ => Ok (None, w)
  | None =>
      match fs_reply f with
      | InventoryReply r => Ok (None, push [(r, Inventoried (fa_inventory a))] (wk_set_fence None w))
      | CloseReply _ => finish_fence (option_map StoreFailed (fa_seal a)) w
      | FlushReply _ =>
          match fa_flush a with
          | Take _ ticket => Ok (None, wk_set_fence (Some {| fs_reply := fs_reply f; fs_ticket := Some ticket |}) w)
          | NoRoom _ => Ok (None, w)
          | Refuse _ e => finish_fence (Some (StoreFailed e)) w
          end
      end
  end.

(** ** The machine *)

(** Running, or handing back what is left with the loop's result. *)
Inductive Stage := Running | Leaving (result : option StoreError).

(** [sw_asked] tells what the command of a number asked for. *)
Inductive Asked := AskRead (id : ChunkId) | AskPut (id : ChunkId) | AskDelete (id : ChunkId) | AskFence.
Record StoreWorld := { sw_worker : Worker; sw_stage : Stage; sw_next : Z; sw_asked : gmap Z Asked }.

Inductive WorkerEvent :=
| WReceive (c : Command)
| WDisconnect
| WStart (a : StartAnswer)
| WCompletion (c : StoreCompletion)
| WPollError (e : SErr)
| WFence (a : FenceAnswer)
| WClosed
| WAbort (id : ChunkId)
| WAbortFence
| WAbortCommand (c : Command)
| WReplyClose.

Definition asked_of (c : Command) : option (Z * Asked) :=
  match c with
  | CmdRead id _ r _ => Some (r, AskRead id)
  | CmdPut id _ r => Some (r, AskPut id)
  | CmdDelete id _ r => Some (r, AskDelete id)
  | CmdFence reply => option_map (fun r => (r, AskFence)) (fence_number reply)
  end.

Definition sw_set (w : Worker) (x : StoreWorld) : StoreWorld := {| sw_worker := w; sw_stage := sw_stage x; sw_next := sw_next x; sw_asked := sw_asked x |}.
Definition sw_leave (result : option StoreError) (x : StoreWorld) : StoreWorld := {| sw_worker := sw_worker x; sw_stage := Leaving result; sw_next := sw_next x; sw_asked := sw_asked x |}.
Definition note (c : Command) (x : StoreWorld) : StoreWorld :=
  match asked_of c with Some (r, k) => {| sw_worker := sw_worker x; sw_stage := sw_stage x; sw_next := sw_next x + 1; sw_asked := <[r := k]> (sw_asked x) |} | None => x end.
Definition exit_on (r : option StoreError * Worker) (x : StoreWorld) : StoreWorld := match r with (None, w) => sw_set w x | (Some e, w) => sw_leave (Some e) (sw_set w x) end.

(** The regions of [run]. *)
Definition run_step (e : WorkerEvent) (x : StoreWorld) : steps StoreWorld :=
  let w := sw_worker x in
  match e with
  | WReceive c => let? w := accept_command c w in Ok (note c (sw_set w x))
  | WDisconnect => Ok (sw_set (disconnected w) x)
  | WStart a => let? w := start_next a w in Ok (sw_set w x)
  | WCompletion c => let? r := on_completion c w in Ok (exit_on r x)
  | WPollError e => Ok (sw_leave (Some (StoreFailed e)) x)
  | WFence a => let? r := advance_fence a w in Ok (exit_on r x)
  | WClosed => Ok (sw_leave (wk_write_error w) (sw_set (wk_set_error None w) x))
  | _ => Panic
  end.

(** What [finish] hands back: a chain, the fence, a command, the closing reply. *)
Definition finish_step (result : option StoreError) (e : WorkerEvent) (x : StoreWorld) : steps StoreWorld :=
  let w := sw_worker x in
  let error := default StoreClosed result in
  match e with
  | WAbort id =>
      let? chain := expect (wk_chains w !! id) in
      let ops := match ch_active chain with Some op => op :: ch_pending chain | None => ch_pending chain end in
      Ok (sw_set (push_each (map (fun op => op_fail op error) ops) (wk_set_chains (delete id (wk_chains w)) w)) x)
  | WAbortFence =>
      let? f := expect (wk_fence w) in
      Ok (sw_set (push (fence_fail (fs_reply f) error) (wk_set_fence None w)) x)
  | WAbortCommand c => Ok (note c (sw_set (push (command_fail c error) w) x))
  | WReplyClose =>
      let? r := expect (wk_close_reply w) in
      Ok (sw_set (push [(r, match result with None => FenceDone | Some e => Refused e end)] (wk_set_close (wk_closing w) None w)) x)
  | _ => Panic
  end.

Definition worker_step (x : StoreWorld) (e : WorkerEvent) : steps StoreWorld :=
  match sw_stage x with Running => run_step e x | Leaving result => finish_step result e x end.

(** What may happen next: commands are received while no fence is held, in the
    order of their numbers; the session's tickets are new and complete once,
    with a buffer of its pool; the loop leaves when it closes and nothing is
    in flight, and then hands back the chains, the fence, the commands of the
    channel and the closing reply, in this order. *)
Definition fresh_ticket (t : Z) w : Prop := wk_reads w !! t = None /\ wk_writes w !! t = None /\ match wk_fence w with Some f => fs_ticket f <> Some t | None => True end.
Definition numbered (c : Command) (x : StoreWorld) : Prop := match asked_of c with Some (r, _) => r = sw_next x | None => True end.

Definition worker_fits (x : StoreWorld) (e : WorkerEvent) : Prop :=
  let w := sw_worker x in
  match e with
  | WReceive c => sw_stage x = Running /\ wk_fence w = None /\ wk_closing w = false /\ numbered c x
  | WDisconnect => sw_stage x = Running /\ wk_fence w = None /\ wk_closing w = false
  | WStart a => sw_stage x = Running /\ wk_ready w <> [] /\ match sa_submit a with Take _ (t, _) => fresh_ticket t w | _ => True end
  | WCompletion c =>
      sw_stage x = Running /\
      match c with
      | DoneRead t r => is_Some (wk_reads w !! t) /\ match r with Ok (_, buf_len) => buf_len <= max_class | Err _ => True | Panic => False end
      | DoneWrite t _ => is_Some (wk_writes w !! t)
      | DoneFlush t _ => check_fence t w = true
      | DoneFailed t _ => is_Some (wk_reads w !! t) \/ is_Some (wk_writes w !! t) \/ check_fence t w = true
      end
  | WPollError _ => sw_stage x = Running
  | WFence a => sw_stage x = Running /\ wk_fence w <> None /\ wk_chains w = ∅ /\ match fa_flush a with Take _ t => fresh_ticket t w | _ => True end
  | WClosed => sw_stage x = Running /\ wk_closing w = true /\ wk_reads w = ∅ /\ wk_writes w = ∅
  | WAbort id => (exists r, sw_stage x = Leaving r) /\ is_Some (wk_chains w !! id)
  | WAbortFence => (exists r, sw_stage x = Leaving r) /\ is_Some (wk_fence w) /\ wk_chains w = ∅
  | WAbortCommand c => (exists r, sw_stage x = Leaving r) /\ numbered c x /\ wk_chains w = ∅ /\ wk_fence w = None
  | WReplyClose => (exists r, sw_stage x = Leaving r) /\ is_Some (wk_close_reply w) /\ wk_chains w = ∅ /\ wk_fence w = None
  end.

Definition store_start : StoreWorld := {| sw_worker := Worker_new; sw_stage := Running; sw_next := 0; sw_asked := ∅ |}.
Inductive worker_run : StoreWorld -> list WorkerEvent -> StoreWorld -> Prop :=
| worker_run_nil x : worker_run x [] x
| worker_run_cons x e es x' x'' : worker_fits x e -> worker_step x e = Ok x' -> worker_run x' es x'' -> worker_run x (e :: es) x''.
End Worker.
