(* ===== verification/StoreWorkerProofs.v ===== *)
(** * What a disk's worker guarantees

    For every command stream, every answer of the session and every error that
    ends the loop: no step panics, no command is forgotten, every command is
    answered once, the answers of a chunk are decided in the order of its
    commands (StoreDelivery has the order they are told in), and a fence that
    succeeds covers everything before it. *)

From stdpp Require Import gmap sorting.
From S2P Require Import Prelude ChunkId Catalog StoreWorker.

Section Proofs.
Context {SErr : Type} (max_class : Z).
Abbreviation Worker := (Worker (SErr := SErr)).
Abbreviation StoreWorld := (StoreWorld (SErr := SErr)).
Abbreviation worker_step := (worker_step (SErr := SErr) max_class).
Abbreviation worker_fits := (worker_fits (SErr := SErr) max_class).
Implicit Types (w : Worker) (x : StoreWorld) (id : ChunkId) (op : Operation) (c : Chain) (asked : gmap Z Asked) (r t : Z).

Definition ops c : list Operation := match ch_active c with Some op => [op] | None => [] end ++ ch_pending c.
Definition chain_replies c : list Z := concat (map replies_of (ops c)).
Definition pend w id : list Z := match wk_chains w !! id with Some c => chain_replies c | None => [] end.

Definition ask op id : Asked := match op with OpRead _ _ _ => AskRead id | OpPut _ _ => AskPut id | OpDelete _ _ => AskDelete id end.
Definition chunk_of (k : Asked) : option ChunkId := match k with AskRead id | AskPut id | AskDelete id => Some id | AskFence => None end.
Definition mutation (k : Asked) : bool := match k with AskPut _ | AskDelete _ => true | _ => false end.

Definition op_ok asked id op : Prop :=
  match op with OpRead _ _ ws => ws <> [] /\ Forall (fun y => wt_permit y <> None) ws | _ => True end /\ Forall (fun r => asked !! r = Some (ask op id)) (replies_of op).
Definition active_ok (o : option Operation) (pending : list Operation) : Prop :=
  match o with
  | None => pending <> []
  | Some (OpRead _ _ ws) => exists leader rest b, ws = leader :: rest /\ wt_permit leader = Some b /\ max_class <= b
  | Some _ => True
  end.

(** ** Chains, tickets and the ready queue *)

Record struct_ok asked w : Prop := {
  so_chain : forall id c, wk_chains w !! id = Some c -> Forall (op_ok asked id) (ops c) /\ active_ok (ch_active c) (ch_pending c);
  so_nodup : NoDup (wk_ready w);
  so_ready : forall id, id ∈ wk_ready w <-> exists c, wk_chains w !! id = Some c /\ ch_active c = None;
  so_reads : forall t id, wk_reads w !! t = Some id -> exists c range lsn ws, wk_chains w !! id = Some c /\ ch_active c = Some (OpRead range lsn ws);
  so_writes : forall t id lsn, wk_writes w !! t = Some (id, lsn) -> exists c op, wk_chains w !! id = Some c /\ ch_active c = Some op /\ match op with OpRead _ _ _ => False | _ => True end;
  so_busy : forall id c op, wk_chains w !! id = Some c -> ch_active c = Some op -> (exists t, wk_reads w !! t = Some id) \/ exists t lsn, wk_writes w !! t = Some (id, lsn);
  so_one_read : forall t t' id, wk_reads w !! t = Some id -> wk_reads w !! t' = Some id -> t = t';
  so_one_write : forall t t' id a b, wk_writes w !! t = Some (id, a) -> wk_writes w !! t' = Some (id, b) -> t = t';
  so_apart : forall t id, wk_reads w !! t = Some id -> wk_writes w !! t = None
}.

Lemma struct_view asked w w' : struct_ok asked w -> wk_chains w' = wk_chains w -> wk_ready w' = wk_ready w -> wk_reads w' = wk_reads w -> wk_writes w' = wk_writes w -> struct_ok asked w'.
Proof. intros [] E1 E2 E3 E4. constructor; rewrite ?E1, ?E2, ?E3, ?E4; assumption. Qed.

Lemma op_ok_mono asked asked' id op : op_ok asked id op -> (forall r k, asked !! r = Some k -> asked' !! r = Some k) -> op_ok asked' id op.
Proof. intros [H1 H2] Hm. split; [assumption|]. eapply Forall_impl; [exact H2|]. intros r Hr. auto. Qed.

Lemma struct_mono asked asked' w : struct_ok asked w -> (forall r k, asked !! r = Some k -> asked' !! r = Some k) -> struct_ok asked' w.
Proof. intros [] Hm. constructor; try assumption. intros id c Hc. destruct (so_chain0 id c Hc) as [H1 H2]. split; [|assumption]. eapply Forall_impl; [exact H1|]. intros op Ho. eapply op_ok_mono; eassumption. Qed.

Lemma rev_cons_snoc {A} (l : list A) (y : A) before : rev l = y :: before -> l = rev before ++ [y].
Proof. intros Hr. rewrite <- (rev_involutive l), Hr. reflexivity. Qed.

(** A read that joins extends the last operation of its chain. *)
Lemma join_last_ops range ws c c' : join_last range ws c = Some c' ->
  exists before lsn pws, ops c = before ++ [OpRead range lsn pws] /\ ops c' = before ++ [OpRead range lsn (pws ++ ws)] /\
  (ch_active c' = ch_active c /\ ch_pending c <> [] /\ ch_pending c' <> [] \/ before = [] /\ ch_active c = Some (OpRead range lsn pws) /\ ch_active c' = Some (OpRead range lsn (pws ++ ws))).
Proof.
  unfold join_last, ops. destruct (rev (ch_pending c)) as [|op before] eqn:Er.
  - assert (Hp : ch_pending c = []) by (rewrite <- (rev_involutive (ch_pending c)), Er; reflexivity). rewrite Hp. destruct (ch_active c) as [[previous lsn pws| |]|]; try discriminate. unfold range_eqb. case_bool_decide as E; [|discriminate]. subst previous. intros [= <-]. exists [], lsn, pws. cbn. split; [reflexivity|]. split; [reflexivity|]. right. auto.
  - pose proof (rev_cons_snoc _ _ _ Er) as Hp. destruct op as [previous lsn pws| |]; try discriminate. unfold range_eqb. case_bool_decide as E; [|discriminate]. subst previous. intros [= <-]. exists (match ch_active c with Some op => [op] | None => [] end ++ rev before), lsn, pws. cbn. rewrite Hp, !app_assoc. split; [reflexivity|]. split; [reflexivity|]. left. split; [reflexivity|]. split; intros H; apply app_eq_nil in H as [_ H]; discriminate.
Qed.

Lemma replies_app (l l' : list Operation) : concat (map replies_of (l ++ l')) = concat (map replies_of l) ++ concat (map replies_of l').
Proof. rewrite map_app, concat_app. reflexivity. Qed.

(** What a step leaves alone. *)
Definition same_rest w w' : Prop := wk_fence w' = wk_fence w /\ wk_closing w' = wk_closing w /\ wk_close_reply w' = wk_close_reply w.

Lemma pend_insert w id c id' : pend (wk_set_chains (<[id := c]> (wk_chains w)) w) id' = if decide (id = id') then chain_replies c else pend w id'.
Proof. unfold pend. cbn. case_decide as E; [subst; rewrite lookup_insert_eq; reflexivity | rewrite lookup_insert_ne by assumption; reflexivity]. Qed.

(** Replacing one chain without touching what it is waiting for. *)
Lemma chain_put asked w id c c' : struct_ok asked w -> wk_chains w !! id = Some c -> Forall (op_ok asked id) (ops c') -> active_ok (ch_active c') (ch_pending c') ->
  match ch_active c, ch_active c' with None, None => True | Some (OpRead _ _ _), Some (OpRead _ _ _) => True | Some (OpPut _ _), Some (OpPut _ _) => True | Some (OpDelete _ _), Some (OpDelete _ _) => True | _, _ => False end ->
  struct_ok asked (wk_set_chains (<[id := c']> (wk_chains w)) w).
Proof.
  intros S Hc Hops Hact Hkind. assert (Hat : forall id' d, <[id := c']> (wk_chains w) !! id' = Some d -> id' = id /\ d = c' \/ id' <> id /\ wk_chains w !! id' = Some d) by (intros id' d; destruct (decide (id = id')) as [<-|Hne]; [rewrite lookup_insert_eq; intros [= <-]; auto | rewrite lookup_insert_ne by assumption; auto]).
  constructor; cbn [wk_set_chains wk_chains wk_ready wk_reads wk_writes].
  - intros id' d Hd. destruct (Hat id' d Hd) as [[-> ->]|[_ Hd']]; [auto | apply (so_chain _ _ S); exact Hd'].
  - exact (so_nodup _ _ S).
  - intros id'. rewrite (so_ready _ _ S id'). destruct (decide (id = id')) as [<-|Hne]; [rewrite lookup_insert_eq | rewrite lookup_insert_ne by assumption; reflexivity]. split; intros (d & Hd & Hn); [rewrite Hc in Hd; injection Hd as <-; exists c'; split; [reflexivity|]; rewrite Hn in Hkind; destruct (ch_active c'); [contradiction | reflexivity] | injection Hd as <-; exists c; split; [assumption|]; rewrite Hn in Hkind; destruct (ch_active c) as [[]|]; [contradiction.. | reflexivity]].
  - intros t id' Ht. destruct (so_reads _ _ S t id' Ht) as (d & range & lsn & ws & Hd & Ha). destruct (decide (id = id')) as [<-|Hne]; [|exists d, range, lsn, ws; rewrite lookup_insert_ne by assumption; auto]. rewrite Hc in Hd. injection Hd as <-. rewrite Ha in Hkind. destruct (ch_active c') as [[range' lsn' ws'| |]|] eqn:Ea; try contradiction. exists c', range', lsn', ws'. rewrite lookup_insert_eq. auto.
  - intros t id' lsn Ht. destruct (so_writes _ _ S t id' lsn Ht) as (d & op & Hd & Ha & Hw). destruct (decide (id = id')) as [<-|Hne]; [|exists d, op; rewrite lookup_insert_ne by assumption; auto]. rewrite Hc in Hd. injection Hd as <-. rewrite Ha in Hkind. exists c'. rewrite lookup_insert_eq. destruct op; try contradiction; destruct (ch_active c') as [op'|]; try contradiction; exists op'; split; [reflexivity | split; [reflexivity | destruct op'; contradiction || exact Logic.I] | reflexivity | split; [reflexivity | destruct op'; contradiction || exact Logic.I]].
  - intros id' d op Hd Ha. destruct (Hat id' d Hd) as [[-> ->]|[_ Hd']]; [|eapply (so_busy _ _ S); eassumption]. destruct (ch_active c) as [o|] eqn:Eo; [eapply (so_busy _ _ S); eassumption|]. rewrite Ha in Hkind. contradiction.
  - exact (so_one_read _ _ S).
  - exact (so_one_write _ _ S).
  - exact (so_apart _ _ S).
Qed.

Lemma enqueue_ok asked w id op : struct_ok asked w -> op_ok asked id op -> (forall range lsn ws, op = OpRead range lsn ws -> Forall (fun y => wt_permit y <> None) ws) ->
  exists w', enqueue id op w = Ok w' /\ struct_ok asked w' /\ same_rest w w' /\ wk_sent w' = wk_sent w /\ wk_write_error w' = wk_write_error w /\ wk_reads w' = wk_reads w /\ wk_writes w' = wk_writes w /\ pend w' id = pend w id ++ replies_of op /\ forall id', id' <> id -> pend w' id' = pend w id'.
Proof.
  intros S Hop Hperm. set (c := default empty_chain (wk_chains w !! id)).
  assert (Hpend : pend w id = chain_replies c) by (unfold pend, c; destruct (wk_chains w !! id); reflexivity).
  assert (Hpush : exists w', (let w1 := if match ch_active c, ch_pending c with None, [] => true | _, _ => false end then wk_set_ready (wk_ready w ++ [id]) w else w in Ok (E := unit) (wk_set_chains (<[id := {| ch_active := ch_active c; ch_pending := ch_pending c ++ [op] |}]> (wk_chains w1)) w1)) = Ok w' /\ struct_ok asked w' /\ same_rest w w' /\ wk_sent w' = wk_sent w /\ wk_write_error w' = wk_write_error w /\ wk_reads w' = wk_reads w /\ wk_writes w' = wk_writes w /\ pend w' id = pend w id ++ replies_of op /\ forall id', id' <> id -> pend w' id' = pend w id').
  { destruct (wk_chains w !! id) as [c0|] eqn:Hc.
    - assert (c = c0) as Ec by (unfold c; rewrite ?Hc; reflexivity). destruct (so_chain _ _ S id c0 Hc) as [Ho Ha]. assert (Hno : match ch_active c, ch_pending c with None, [] => true | _, _ => false end = false) by (rewrite Ec; destruct (ch_active c0), (ch_pending c0); try reflexivity; contradiction). rewrite Hno, Ec. cbn zeta. eexists. split; [reflexivity|]. split.
      + eapply chain_put; [exact S | exact Hc | | |].
        * unfold ops in *. cbn. rewrite app_assoc. apply Forall_app. split; [exact Ho | constructor; [exact Hop | constructor]].
        * destruct (ch_active c0) as [[]|]; cbn in *; try exact Ha; try exact Logic.I. intros H. apply app_eq_nil in H as [_ H]. discriminate.
        * cbn. destruct (ch_active c0) as [[]|]; exact Logic.I.
      + split; [repeat split|]. do 4 (split; [reflexivity|]). split; [rewrite pend_insert; case_decide; [|contradiction]; unfold chain_replies, ops; cbn; rewrite app_assoc, replies_app; cbn; rewrite app_nil_r; unfold pend; rewrite Hc; reflexivity|]. intros id' Hne. rewrite pend_insert. case_decide; [congruence | reflexivity].
    - assert (c = empty_chain) as Ec by (unfold c; rewrite ?Hc; reflexivity). rewrite Ec. cbn. eexists. split; [reflexivity|]. split; [|split; [repeat split|]; do 4 (split; [reflexivity|]); split; [unfold pend; cbn; rewrite lookup_insert_eq, Hc; unfold chain_replies, ops; cbn; rewrite app_nil_r; reflexivity|]; intros id' Hne; unfold pend; cbn; rewrite lookup_insert_ne by congruence; reflexivity].
      assert (Hnr : id ∉ wk_ready w) by (intros Hin; apply (so_ready _ _ S) in Hin as (d & Hd & _); congruence). assert (Hkeep : forall id' d, wk_chains w !! id' = Some d -> <[id := {| ch_active := None; ch_pending := [op] |}]> (wk_chains w) !! id' = Some d) by (intros id' d Hd; rewrite lookup_insert_ne; [assumption | congruence]).
      constructor; cbn [wk_set_chains wk_set_ready wk_chains wk_ready wk_reads wk_writes].
      + intros id' d. destruct (decide (id = id')) as [<-|Hne]; [rewrite lookup_insert_eq; intros [= <-]; split; [constructor; [exact Hop | constructor] | discriminate] | rewrite lookup_insert_ne by assumption; apply (so_chain _ _ S)].
      + apply NoDup_app. split; [exact (so_nodup _ _ S)|]. split; [intros y Hy Hin; apply list_elem_of_singleton in Hin as ->; contradiction | apply NoDup_singleton].
      + intros id'. rewrite elem_of_app, (so_ready _ _ S id'), list_elem_of_singleton. destruct (decide (id = id')) as [<-|Hne]; [rewrite lookup_insert_eq | rewrite lookup_insert_ne by assumption]; split.
        * intros _. eexists. split; reflexivity.
        * auto.
        * intros [H|H]; [exact H | congruence].
        * auto.
      + intros t id' Ht. destruct (so_reads _ _ S t id' Ht) as (d & range & lsn & ws & Hd & Ha). exists d, range, lsn, ws. auto.
      + intros t id' lsn Ht. destruct (so_writes _ _ S t id' lsn Ht) as (d & op' & Hd & Ha). exists d, op'. auto.
      + intros id' d op'. destruct (decide (id = id')) as [<-|Hne]; [rewrite lookup_insert_eq; intros [= <-]; discriminate | rewrite lookup_insert_ne by assumption; apply (so_busy _ _ S)].
      + exact (so_one_read _ _ S).
      + exact (so_one_write _ _ S).
      + exact (so_apart _ _ S). }
  unfold enqueue. fold c. destruct op as [range lsn ws|value reply|expected reply]; [|exact Hpush|exact Hpush].
  destruct (join_last range _ c) as [c'|] eqn:Ej; [|exact Hpush]. assert (Hall : forallb (fun y => match wt_permit y with Some _ => true | None => false end) ws = true) by (apply forallb_forall; intros y Hy; apply list_elem_of_In in Hy; pose proof (proj1 (Forall_forall _ _) (Hperm _ _ _ eq_refl) y Hy) as Hn; cbn in Hn; destruct (wt_permit y); [reflexivity | contradiction]). rewrite Hall.
  destruct (join_last_ops _ _ _ _ Ej) as (before & lsn' & pws & Hoc & Hoc' & Hcase). assert (Hc : wk_chains w !! id = Some c) by (unfold c; destruct (wk_chains w !! id) eqn:Hc; [reflexivity|]; unfold c, ops in Hoc; try rewrite Hc in Hoc; cbn in Hoc; destruct before; discriminate).
  destruct (so_chain _ _ S id c Hc) as [Ho Ha]. rewrite Hoc in Ho. apply Forall_app in Ho as [Hob Hol]. apply Forall_cons in Hol as [Hol _]. set (ws' := map (fun y => {| wt_reply := wt_reply y; wt_permit := Some 0 |}) ws) in *.
  assert (Hr' : map wt_reply ws' = map wt_reply ws) by (unfold ws'; rewrite map_map; reflexivity).
  assert (Hnew : op_ok asked id (OpRead range lsn' (pws ++ ws'))).
  { destruct Hol as [[Hne Hp] Hr], Hop as [[_ _] Hrw]. split; [split; [intros H; apply app_eq_nil in H as [H _]; contradiction | apply Forall_app; split; [exact Hp | unfold ws'; apply Forall_map, Forall_true; discriminate]]|]. cbn in *. rewrite map_app, Hr'. apply Forall_app. split; assumption. }
  eexists. split; [reflexivity|]. split; [|split; [repeat split|]; do 4 (split; [reflexivity|]); split; [rewrite pend_insert; case_decide; [|contradiction]; unfold chain_replies; rewrite Hoc', Hpend; unfold chain_replies; rewrite Hoc, !replies_app; cbn; rewrite map_app, Hr', !app_nil_r, app_assoc; reflexivity|]; intros id' Hne; rewrite pend_insert; case_decide; [congruence | reflexivity]].
  eapply chain_put; [exact S | exact Hc | rewrite Hoc'; apply Forall_app; split; [exact Hob | constructor; [exact Hnew | constructor]] | |].
  - destruct Hcase as [(-> & Hp & Hp')|(_ & Hac & ->)]; [destruct (ch_active c) as [[]|]; cbn in *; try exact Ha; exact Hp'|]. rewrite Hac in Ha. cbn in *. destruct Ha as (leader & rest & b & -> & Hb & Hm). exists leader, (rest ++ ws'), b. auto.
  - destruct Hcase as [(-> & _)|(_ & -> & ->)]; [destruct (ch_active c) as [[]|]; exact Logic.I | exact Logic.I].
Qed.

(** ** Completions *)

(** The tickets of every other chunk, and none of this one. *)
Definition tickets_without id w (rd : gmap Z ChunkId) (wr : gmap Z (ChunkId * Z)) : Prop :=
  (forall t id', rd !! t = Some id' <-> wk_reads w !! t = Some id' /\ id' <> id) /\ forall t id' lsn, wr !! t = Some (id', lsn) <-> wk_writes w !! t = Some (id', lsn) /\ id' <> id.

Lemma read_ticket asked w t id : struct_ok asked w -> wk_reads w !! t = Some id -> tickets_without id w (delete t (wk_reads w)) (wk_writes w).
Proof.
  intros S Ht. split; intros t' id'.
  - rewrite lookup_delete_Some. split; intros [H1 H2]; split; try assumption; [intros ->; apply H1; symmetry; eapply (so_one_read _ _ S); eassumption | intros ->; congruence].
  - intros lsn. split; [|intros [H _]; exact H]. intros H. split; [exact H|]. intros ->. destruct (so_writes _ _ S t' id lsn H) as (c & op & Hc & Ha & Hw), (so_reads _ _ S t id Ht) as (c' & range & l & ws & Hc' & Ha'). assert (c = c') as -> by congruence. rewrite Ha' in Ha. injection Ha as <-. exact Hw.
Qed.

Lemma write_ticket asked w t id lsn : struct_ok asked w -> wk_writes w !! t = Some (id, lsn) -> tickets_without id w (wk_reads w) (delete t (wk_writes w)).
Proof.
  intros S Ht. split; intros t' id'.
  - split; [|intros [H _]; exact H]. intros H. split; [exact H|]. intros ->. destruct (so_writes _ _ S t id lsn Ht) as (c & op & Hc & Ha & Hw), (so_reads _ _ S t' id H) as (c' & range & l & ws & Hc' & Ha'). assert (c = c') as -> by congruence. rewrite Ha' in Ha. injection Ha as <-. exact Hw.
  - intros lsn'. rewrite lookup_delete_Some. split; intros [H1 H2]; split; try assumption; [intros ->; apply H1; symmetry; eapply (so_one_write _ _ S); eassumption | intros ->; congruence].
Qed.

(** A chunk leaves the session, and its chain goes or becomes ready. *)
Definition ready_without id w (rest : list ChunkId) : Prop := NoDup rest /\ (id ∉ rest) /\ forall id', id' <> id -> (id' ∈ rest) <-> (id' ∈ wk_ready w).

Lemma chain_leave asked w id c rd wr rest o : struct_ok asked w -> wk_chains w !! id = Some c -> ready_without id w rest -> tickets_without id w rd wr -> Forall (op_ok asked id) o ->
  let w1 := wk_set_tickets rd wr w in
  struct_ok asked (match o with [] => wk_set_ready rest (wk_set_chains (delete id (wk_chains w)) w1) | _ => wk_set_ready (rest ++ [id]) (wk_set_chains (<[id := {| ch_active := None; ch_pending := o |}]> (wk_chains w)) w1) end).
Proof.
  intros S Hc (Hnd & Hnr & Hin) [Hrd Hwr] Ho w1.
  assert (Hreads : forall t id', rd !! t = Some id' -> exists d range lsn ws, wk_chains w !! id' = Some d /\ ch_active d = Some (OpRead range lsn ws) /\ id' <> id) by (intros t id' Ht; apply Hrd in Ht as [Ht Hne]; destruct (so_reads _ _ S t id' Ht) as (d & range & lsn & ws & Hd & Ha); exists d, range, lsn, ws; auto).
  assert (Hwrites : forall t id' lsn, wr !! t = Some (id', lsn) -> exists d op, wk_chains w !! id' = Some d /\ ch_active d = Some op /\ match op with OpRead _ _ _ => False | _ => True end /\ id' <> id) by (intros t id' lsn Ht; apply Hwr in Ht as [Ht Hne]; destruct (so_writes _ _ S t id' lsn Ht) as (d & op & Hd & Ha & Hw); exists d, op; auto).
  assert (Hbusy : forall id' d op, id' <> id -> wk_chains w !! id' = Some d -> ch_active d = Some op -> (exists t, rd !! t = Some id') \/ exists t lsn, wr !! t = Some (id', lsn)).
  { intros id' d op Hne Hd Ha. destruct (so_busy _ _ S id' d op Hd Ha) as [[t Ht]|(t & lsn & Ht)]; [left; exists t; apply Hrd; auto | right; exists t, lsn; apply Hwr; auto]. }
  assert (Hone : forall t t' id', rd !! t = Some id' -> rd !! t' = Some id' -> t = t') by (intros t t' id' H1 H2; apply Hrd in H1 as [H1 _], H2 as [H2 _]; eapply (so_one_read _ _ S); eassumption).
  assert (Honew : forall t t' id' a b, wr !! t = Some (id', a) -> wr !! t' = Some (id', b) -> t = t') by (intros t t' id' a b H1 H2; apply Hwr in H1 as [H1 _], H2 as [H2 _]; eapply (so_one_write _ _ S); eassumption).
  assert (Hapart : forall t id', rd !! t = Some id' -> wr !! t = None) by (intros t id' Ht; apply Hrd in Ht as [Ht _]; pose proof (so_apart _ _ S t id' Ht) as Hn; destruct (wr !! t) as [[i l]|] eqn:E; [apply Hwr in E as [E _]; congruence | reflexivity]).
  destruct o as [|op o].
  - constructor; cbn [wk_set_ready wk_set_chains wk_set_tickets w1 wk_chains wk_ready wk_reads wk_writes]; try assumption.
    + intros id' d Hd. apply lookup_delete_Some in Hd as [_ Hd]. apply (so_chain _ _ S). exact Hd.
    + intros id'. destruct (decide (id' = id)) as [->|Hne]; [split; [contradiction | intros (d & Hd & _); rewrite lookup_delete_eq in Hd; discriminate]|]. rewrite (Hin _ Hne), (so_ready _ _ S id'), lookup_delete_ne by congruence. reflexivity.
    + intros t id' Ht. destruct (Hreads t id' Ht) as (d & range & lsn & ws & Hd & Ha & Hne). exists d, range, lsn, ws. rewrite lookup_delete_ne by congruence. auto.
    + intros t id' lsn Ht. destruct (Hwrites t id' lsn Ht) as (d & op & Hd & Ha & Hw & Hne). exists d, op. rewrite lookup_delete_ne by congruence. auto.
    + intros id' d op Hd Ha. apply lookup_delete_Some in Hd as [Hne Hd]. eapply Hbusy; [congruence | exact Hd | exact Ha].
  - constructor; cbn [wk_set_ready wk_set_chains wk_set_tickets w1 wk_chains wk_ready wk_reads wk_writes]; try assumption.
    + intros id' d. destruct (decide (id = id')) as [<-|Hne]; [rewrite lookup_insert_eq; intros [= <-]; split; [exact Ho | discriminate] | rewrite lookup_insert_ne by assumption; apply (so_chain _ _ S)].
    + apply NoDup_app. split; [exact Hnd|]. split; [intros y Hy Hy'; apply list_elem_of_singleton in Hy' as ->; contradiction | apply NoDup_singleton].
    + intros id'. rewrite elem_of_app, list_elem_of_singleton. destruct (decide (id = id')) as [<-|Hne]; [rewrite lookup_insert_eq; split; [intros _; eexists; split; reflexivity | auto]|]. rewrite lookup_insert_ne, (Hin id'), (so_ready _ _ S id') by congruence. split; [intros [H|H]; [exact H | congruence] | auto].
    + intros t id' Ht. destruct (Hreads t id' Ht) as (d & range & lsn & ws & Hd & Ha & Hne). exists d, range, lsn, ws. rewrite lookup_insert_ne by congruence. auto.
    + intros t id' lsn Ht. destruct (Hwrites t id' lsn Ht) as (d & op' & Hd & Ha & Hw & Hne). exists d, op'. rewrite lookup_insert_ne by congruence. auto.
    + intros id' d op'. destruct (decide (id = id')) as [<-|Hne]; [rewrite lookup_insert_eq; intros [= <-]; discriminate | rewrite lookup_insert_ne by assumption; intros Hd Ha; eapply Hbusy; [congruence | exact Hd | exact Ha]].
Qed.

Lemma complete_ok asked w id c op rd wr : struct_ok asked w -> wk_chains w !! id = Some c -> ch_active c = Some op -> tickets_without id w rd wr ->
  exists w', complete_chain id (wk_set_tickets rd wr w) = Ok (op, w') /\ struct_ok asked w' /\ same_rest w w' /\ wk_sent w' = wk_sent w /\ wk_write_error w' = wk_write_error w /\ pend w id = replies_of op ++ pend w' id /\ forall id', id' <> id -> pend w' id' = pend w id'.
Proof.
  intros S Hc Ha Htick. assert (Hnr : id ∉ wk_ready w) by (intros Hin; apply (so_ready _ _ S) in Hin as (d & Hd & Hn); congruence). destruct (so_chain _ _ S id c Hc) as [Ho _].
  assert (Hops : ops c = op :: ch_pending c) by (unfold ops; rewrite Ha; reflexivity). rewrite Hops in Ho. apply Forall_cons in Ho as [_ Ho]. pose proof (chain_leave asked w id c rd wr (wk_ready w) (ch_pending c) S Hc (conj (so_nodup _ _ S) (conj Hnr (fun _ _ => iff_refl _))) Htick Ho) as S'.
  unfold complete_chain. cbn [wk_set_tickets wk_chains]. rewrite Hc. cbn [expect rbind]. rewrite Ha. cbn [expect rbind]. assert (Hp : pend w id = replies_of op ++ concat (map replies_of (ch_pending c))) by (unfold pend; rewrite Hc; unfold chain_replies; rewrite Hops; reflexivity).
  destruct (ch_pending c) as [|p ps] eqn:Ep; (eexists; split; [reflexivity|]; split; [eapply struct_view; [exact S' | reflexivity..]|]; split; [repeat split|]; do 2 (split; [reflexivity|]); rewrite Hp; unfold pend; cbn [wk_set_ready wk_set_chains wk_set_tickets wk_chains]).
  - split; [rewrite lookup_delete_eq; reflexivity|]. intros id' Hne. rewrite lookup_delete_ne by congruence. reflexivity.
  - split; [rewrite lookup_insert_eq; reflexivity|]. intros id' Hne. rewrite lookup_insert_ne by congruence. reflexivity.
Qed.

(** ** Starting *)

(** Whether the caller is still there. *)
Definition live (m : Z * Outcome (SErr := SErr)) : bool := match snd m with Abandoned => false | _ => true end.

(** The messages answer, in order, what is no longer waited for; if somebody
    stays behind, only callers that have gone were answered. *)
Definition split_of (before after : list Z) (msgs : list (Z * Outcome (SErr := SErr))) : Prop :=
  before ≡ₚ map fst msgs ++ after /\ after `sublist_of` before /\ map fst (List.filter live msgs) `sublist_of` before /\ (after = [] \/ List.filter live msgs = []).
Definition kept_error asked w (msgs : list (Z * Outcome (SErr := SErr))) : Prop := forall r e k, (r, Refused e) ∈ msgs -> asked !! r = Some k -> mutation k = true -> wk_write_error w <> None.

Lemma filter_split {A} (p : A -> bool) (l : list A) : l ≡ₚ List.filter p l ++ List.filter (fun y => negb (p y)) l.
Proof. induction l as [|y l IH]; [reflexivity|]. cbn. destruct (p y); cbn; [rewrite <- IH; reflexivity|]. rewrite <- Permutation_middle, <- IH. reflexivity. Qed.

Lemma filter_sublist {A B} (p : A -> bool) (g : A -> B) (l : list A) : map g (List.filter p l) `sublist_of` map g l.
Proof. induction l as [|y l IH]; [constructor|]. cbn. destruct (p y); cbn; constructor; exact IH. Qed.

Lemma to_all_fst (o : Outcome (SErr := SErr)) ws : map fst (to_all o ws) = map wt_reply ws.
Proof. unfold to_all. rewrite map_map. reflexivity. Qed.

Lemma op_fail_fst op (e : StoreError (SErr := SErr)) : map fst (op_fail op e) = replies_of op.
Proof. destruct op; cbn; [apply to_all_fst | reflexivity | reflexivity]. Qed.

Lemma gone_dead ws : List.filter live (to_all Abandoned ws) = [].
Proof. induction ws as [|y ws IH]; [reflexivity | exact IH]. Qed.

Lemma split_none l : split_of l l [].
Proof. split; [reflexivity|]. split; [reflexivity|]. split; [apply sublist_nil_l | auto]. Qed.

Lemma split_all l (msgs : list (Z * Outcome (SErr := SErr))) : map fst msgs = l -> split_of l [] msgs.
Proof. intros <-. split; [rewrite app_nil_r; reflexivity|]. split; [apply sublist_nil_l|]. split; [apply filter_sublist | auto]. Qed.

Lemma error_read asked id w op (msgs : list (Z * Outcome (SErr := SErr))) : op_ok asked id op -> (forall m, m ∈ msgs -> fst m ∈ replies_of op) -> match op with OpRead _ _ _ => True | _ => False end -> kept_error asked w msgs.
Proof. intros [_ Hr] Hin Hop r e k Hm Hk Hmut. specialize (Hin _ Hm). cbn in Hin. rewrite Forall_forall in Hr. specialize (Hr r Hin). rewrite Hk in Hr. injection Hr as ->. destruct op; cbn in Hmut; [discriminate | contradiction | contradiction]. Qed.

Lemma no_refusal asked w (msgs : list (Z * Outcome (SErr := SErr))) : (forall r e, (r, Refused e) ∉ msgs) -> kept_error asked w msgs.
Proof. intros H r e k Hm. destruct (H r e Hm). Qed.

(** What [start] did with the operation at the head of a chain. *)
Definition started_ok asked id op (a : StartAnswer (SErr := SErr)) w (st : Started) w2 : Prop :=
  exists kept msgs, wk_chains w2 = wk_chains w /\ wk_ready w2 = wk_ready w /\ same_rest w w2 /\ wk_sent w2 = wk_sent w ++ msgs /\ split_of (replies_of op) kept msgs /\ kept_error asked w2 msgs /\ (wk_write_error w <> None -> wk_write_error w2 <> None) /\
  match st with
  | Active op' => replies_of op' = kept /\ op_ok asked id op' /\ active_ok (Some op') [] /\ exists t lsn, sa_submit a = Take _ (t, lsn) /\ match op' with OpRead _ _ _ => wk_reads w2 = <[t := id]> (wk_reads w) /\ wk_writes w2 = wk_writes w | _ => wk_reads w2 = wk_reads w /\ wk_writes w2 = <[t := (id, lsn)]> (wk_writes w) end
  | Retry op' => replies_of op' = kept /\ op_ok asked id op' /\ wk_reads w2 = wk_reads w /\ wk_writes w2 = wk_writes w
  | Done => kept = [] /\ wk_reads w2 = wk_reads w /\ wk_writes w2 = wk_writes w
  end.

Ltac peel_one := solve [reflexivity | repeat split | assumption | apply split_none | apply no_refusal; intros ?? Hm; apply not_elem_of_nil in Hm as [] | auto].

(** A mutation goes to the session, or waits, or is refused and leaves its error. *)
Lemma submitted_write asked id op (a : StartAnswer (SErr := SErr)) w : op_ok asked id op -> match op with OpRead _ _ _ => False | _ => True end -> started_ok asked id op a w (fst (submitted false id op (sa_submit a) w)) (snd (submitted false id op (sa_submit a) w)).
Proof.
  intros Hop Hw. unfold submitted. destruct (sa_submit a) as [[t lsn]| |e] eqn:Es; cbn [fst snd].
  - exists (replies_of op), []. cbn. rewrite app_nil_r. do 7 (split; [peel_one|]). split; [reflexivity|]. split; [exact Hop|]. split; [destruct op; [contradiction | exact Logic.I | exact Logic.I]|]. exists t, lsn. split; [congruence|]. destruct op; [contradiction | auto | auto].
  - exists (replies_of op), []. cbn. rewrite app_nil_r. do 7 (split; [peel_one|]). auto.
  - exists [], (op_fail op (StoreFailed e)). cbn. split; [reflexivity|]. split; [reflexivity|]. split; [repeat split|]. split; [reflexivity|]. split; [apply split_all; rewrite op_fail_fst; reflexivity|]. split; [intros r e' k _ _ _; cbn; discriminate|]. split; [cbn; discriminate|]. auto.
Qed.

Lemma start_read_ok asked id range lsn ws (a : StartAnswer (SErr := SErr)) w : op_ok asked id (OpRead range lsn ws) -> exists st w2, start_read max_class id range lsn ws a w = Ok (st, w2) /\ started_ok asked id (OpRead range lsn ws) a w st w2.
Proof.
  intros Hop. unfold start_read. set (gone := fun y => bool_decide (wt_reply y ∈ sa_gone a)). pose proof (filter_split gone ws) as Hperm. pose proof (filter_sublist (fun y => negb (gone y)) wt_reply ws) as Hsub. set (keep := List.filter (fun y => negb (gone y)) ws) in *. set (left := List.filter gone ws) in *. cbv zeta. change (List.filter (fun y => negb (bool_decide (wt_reply y ∈ sa_gone a))) ws) with keep. change (List.filter (fun y => bool_decide (wt_reply y ∈ sa_gone a)) ws) with left.
  assert (Hrep : map wt_reply ws ≡ₚ map fst (to_all (SErr := SErr) Abandoned left) ++ map wt_reply keep) by (rewrite to_all_fst, <- map_app; apply Permutation_map; exact Hperm).
  assert (Hab : Forall (fun m : Z * Outcome (SErr := SErr) => snd m = Abandoned) (to_all Abandoned left)) by (unfold to_all; apply Forall_map, Forall_true; reflexivity).
  assert (Hsplit : split_of (map wt_reply ws) (map wt_reply keep) (to_all Abandoned left)) by (split; [exact Hrep | split; [exact Hsub | rewrite gone_dead; split; [apply sublist_nil_l | auto]]]).
  assert (Hnr : forall w', kept_error asked w' (to_all Abandoned left)) by (intros w'; apply no_refusal; intros r e Hm; rewrite Forall_forall in Hab; specialize (Hab _ Hm); discriminate).
  assert (Hkeep : keep <> [] -> forall lsn', op_ok asked id (OpRead range lsn' keep)).
  { destruct Hop as [[_ Hp] Hr]. intros Hne lsn'. split; [split; [exact Hne|]|]; [rewrite Forall_forall in *; intros y Hy; apply Hp; rewrite Hperm; apply elem_of_app; auto|]. cbn in *. rewrite Forall_forall in *. intros r Hrin. apply Hr. rewrite Hrep. apply elem_of_app. auto. }
  assert (Hdone : forall o : Outcome (SErr := SErr), (forall w', kept_error asked w' (to_all o keep)) -> split_of (map wt_reply ws) [] (to_all Abandoned left ++ to_all o keep) /\ forall w', kept_error asked w' (to_all Abandoned left ++ to_all o keep)).
  { intros o Ho. split; [split; [rewrite app_nil_r, map_app, (to_all_fst o); exact Hrep | split; [apply sublist_nil_l | split; [rewrite List.filter_app, gone_dead; etransitivity; [apply filter_sublist | rewrite to_all_fst; exact Hsub] | auto]]]|]. intros w' r e k Hm Hk Hmut. apply elem_of_app in Hm as [Hm|Hm]; [eapply Hnr; eassumption | eapply Ho; eassumption]. }
  assert (Hrd : forall (o : Outcome (SErr := SErr)) w', kept_error asked w' (to_all o keep)).
  { intros o w'. destruct keep as [|k0 keep'] eqn:Ek; [apply no_refusal; intros r e Hm; apply not_elem_of_nil in Hm as []|]. eapply (error_read asked id w' (OpRead range lsn (k0 :: keep'))); [apply Hkeep; discriminate | | exact Logic.I]. intros m Hm. cbn [replies_of]. rewrite <- to_all_fst with (o := o). apply list_elem_of_fmap. exists m. split; [reflexivity | exact Hm]. }
  destruct keep as [|leader rest] eqn:Ek.
  - eexists _, _. split; [reflexivity|]. exists [], (to_all Abandoned left). cbn. do 7 (split; [peel_one|]). auto.
  - rewrite <- Ek in *. destruct (sa_stat a) as [lsn'|].
    + assert (Hl : exists b, wt_permit leader = Some b) by (destruct (Hkeep ltac:(rewrite Ek; discriminate) lsn) as [[_ Hp] _]; rewrite Ek in Hp; apply Forall_cons in Hp as [Hp _]; destruct (wt_permit leader) as [b|]; [eauto | contradiction]). destruct Hl as [b Hb]. rewrite Hb. cbn [expect rbind].
      set (leader' := {| wt_reply := wt_reply leader; wt_permit := Some (Z.max b max_class) |}). assert (Hrl : map wt_reply (leader' :: rest) = map wt_reply keep) by (rewrite Ek; reflexivity).
      assert (Hnew : op_ok asked id (OpRead range lsn' (leader' :: rest))) by (destruct (Hkeep ltac:(rewrite Ek; discriminate) lsn') as [[_ Hp] Hr]; split; [split; [discriminate|]; rewrite Ek in Hp; apply Forall_cons in Hp as [_ Hp]; constructor; [discriminate | exact Hp] | cbn [replies_of ask] in *; rewrite Hrl; exact Hr]).
      destruct (sa_grow a).
      * unfold submitted. destruct (sa_submit a) as [[t l]| |e] eqn:Es; (eexists _, _; split; [reflexivity|]).
        -- exists (map wt_reply keep), (to_all Abandoned left). do 7 (split; [peel_one|]). split; [exact Hrl|]. split; [exact Hnew|]. split; [exists leader', rest, (Z.max b max_class); split; [reflexivity | split; [reflexivity | lia]]|]. exists t, l. split; [congruence | split; reflexivity].
        -- exists (map wt_reply keep), (to_all Abandoned left). do 7 (split; [peel_one|]). split; [exact Hrl|]. split; [exact Hnew | split; reflexivity].
        -- destruct (Hdone (Refused (StoreFailed e)) ltac:(intros; apply Hrd)) as [Hd1 Hd2]. exists [], (to_all Abandoned left ++ to_all (Refused (StoreFailed e)) keep). split; [reflexivity|]. split; [reflexivity|]. split; [repeat split|]. split; [cbn; rewrite Ek; unfold to_all; cbn; rewrite <- app_assoc; reflexivity|]. split; [exact Hd1|]. split; [apply Hd2|]. split; [auto|]. repeat split.
      * eexists _, _. split; [reflexivity|]. exists (map wt_reply keep), (to_all Abandoned left). do 7 (split; [peel_one|]). split; [rewrite Ek; reflexivity|]. split; [rewrite <- ?Ek; apply Hkeep; rewrite Ek; discriminate | split; reflexivity].
    + destruct (Hdone NotFound ltac:(intros; apply Hrd)) as [Hd1 Hd2]. cbn [op_miss rbind]. eexists _, _. split; [reflexivity|]. exists [], (to_all Abandoned left ++ to_all NotFound keep). split; [reflexivity|]. split; [reflexivity|]. split; [repeat split|]. split; [cbn; rewrite Ek; rewrite <- app_assoc; reflexivity|]. split; [exact Hd1|]. split; [apply Hd2|]. split; [auto|]. repeat split.
Qed.

Lemma start_op_ok asked id op (a : StartAnswer (SErr := SErr)) w : op_ok asked id op -> exists st w2, start_op max_class id op a w = Ok (st, w2) /\ started_ok asked id op a w st w2.
Proof.
  intros Hop. destruct op as [range lsn ws|value reply|expected reply]; cbn [start_op].
  - apply start_read_ok. exact Hop.
  - eexists _, _. split; [|apply submitted_write; [exact Hop | exact Logic.I]]. rewrite <- surjective_pairing. reflexivity.
  - assert (Hend : forall res, started_ok asked id (OpDelete expected reply) a w Done (send [(reply, DeleteDone res)] w)) by (intros res; exists [], [(reply, DeleteDone res)]; split; [reflexivity|]; split; [reflexivity|]; split; [repeat split|]; split; [reflexivity|]; split; [apply split_all; reflexivity|]; split; [apply no_refusal; intros r' e Hm; apply list_elem_of_singleton in Hm; discriminate|]; split; [auto | repeat split]).
    destruct (sa_stat a) as [lsn|]; [|eexists _, _; split; [reflexivity | apply Hend]]. destruct (match expected with Some x => negb (x =? lsn) | None => false end); [eexists _, _; split; [reflexivity | apply Hend]|]. eexists _, _. split; [|apply submitted_write; [exact Hop | exact Logic.I]]. rewrite <- surjective_pairing. reflexivity.
Qed.
(** A chunk that was ready goes to the session under a new ticket. *)
Lemma chain_start asked w id c rest op pending rd wr t lsn : struct_ok asked w -> wk_chains w !! id = Some c -> ch_active c = None -> ready_without id w rest -> fresh_ticket t w ->
  Forall (op_ok asked id) (op :: pending) -> active_ok (Some op) pending ->
  match op with OpRead _ _ _ => rd = <[t := id]> (wk_reads w) /\ wr = wk_writes w | _ => rd = wk_reads w /\ wr = <[t := (id, lsn)]> (wk_writes w) end ->
  struct_ok asked (wk_set_ready rest (wk_set_chains (<[id := {| ch_active := Some op; ch_pending := pending |}]> (wk_chains w)) (wk_set_tickets rd wr w))).
Proof.
  intros S Hc Hna (Hnd & Hnr & Hin) (Hfr & Hfw & _) Ho Hact Htick.
  assert (Hoff : (forall t' id', wk_reads w !! t' = Some id' -> id' <> id) /\ forall t' id' l, wk_writes w !! t' = Some (id', l) -> id' <> id) by (split; [intros t' id' Ht ->; destruct (so_reads _ _ S t' id Ht) as (d & ra & l & ws & Hd & Ha); congruence | intros t' id' l Ht ->; destruct (so_writes _ _ S t' id l Ht) as (d & o & Hd & Ha & _); congruence]). destruct Hoff as [Hoffr Hoffw].
  assert (Hreads : forall t' id', rd !! t' = Some id' -> t' = t /\ id' = id /\ (exists range l ws, op = OpRead range l ws) \/ wk_reads w !! t' = Some id' /\ t' <> t) by (intros t' id' Ht; assert (Hne : wk_reads w !! t' = Some id' -> t' <> t) by (intros H ->; congruence); destruct op; destruct Htick as [-> ->]; auto; apply lookup_insert_Some in Ht as [[<- <-]|[_ Ht]]; [left; eauto 6 | auto]).
  assert (Hwrites : forall t' id' l, wr !! t' = Some (id', l) -> t' = t /\ id' = id /\ match op with OpRead _ _ _ => False | _ => True end \/ wk_writes w !! t' = Some (id', l) /\ t' <> t) by (intros t' id' l Ht; assert (Hne : wk_writes w !! t' = Some (id', l) -> t' <> t) by (intros H ->; congruence); destruct op; destruct Htick as [-> ->]; auto; apply lookup_insert_Some in Ht as [[<- [= <- <-]]|[_ Ht]]; auto).
  assert (Hkr : forall t' id', wk_reads w !! t' = Some id' -> rd !! t' = Some id') by (intros t' id' Ht; destruct op; destruct Htick as [-> _]; [rewrite lookup_insert_ne by (intros ->; congruence) |..]; exact Ht).
  assert (Hkw : forall t' v, wk_writes w !! t' = Some v -> wr !! t' = Some v) by (intros t' v Ht; destruct op; destruct Htick as [_ ->]; [|rewrite lookup_insert_ne by (intros ->; congruence)..]; exact Ht).
  constructor; cbn [wk_set_ready wk_set_chains wk_set_tickets wk_chains wk_ready wk_reads wk_writes].
  - intros id' d. destruct (decide (id = id')) as [<-|Hne]; [rewrite lookup_insert_eq; intros [= <-]; split; [exact Ho | exact Hact] | rewrite lookup_insert_ne by assumption; apply (so_chain _ _ S)].
  - exact Hnd.
  - intros id'. destruct (decide (id' = id)) as [->|Hne]; [rewrite lookup_insert_eq; split; [contradiction | intros (d & [= <-] & Hd); discriminate]|]. rewrite (Hin _ Hne), (so_ready _ _ S id'), lookup_insert_ne by congruence. reflexivity.
  - intros t' id' Ht. destruct (Hreads t' id' Ht) as [(_ & -> & range & l & ws & ->)|[Ht' _]]; [rewrite lookup_insert_eq; eauto 8|]. rewrite lookup_insert_ne by (symmetry; eapply Hoffr; exact Ht'). eapply (so_reads _ _ S). exact Ht'.
  - intros t' id' l Ht. destruct (Hwrites t' id' l Ht) as [(_ & -> & Hw)|[Ht' _]]; [rewrite lookup_insert_eq; eauto 8|]. rewrite lookup_insert_ne by (symmetry; eapply Hoffw; exact Ht'). eapply (so_writes _ _ S). exact Ht'.
  - intros id' d op' Hd Ha. destruct (decide (id = id')) as [<-|Hne]; [destruct op; destruct Htick as [-> ->]; [left; exists t; apply lookup_insert_eq | right; exists t, lsn; apply lookup_insert_eq..]|]. rewrite lookup_insert_ne in Hd by assumption. destruct (so_busy _ _ S id' d op' Hd Ha) as [[t' Ht]|(t' & l & Ht)]; [left; eauto | right; eauto].
  - intros t1 t2 id' H1 H2. destruct (Hreads _ _ H1) as [(-> & -> & _)|[H1' _]], (Hreads _ _ H2) as [(-> & E & _)|[H2' _]]; [reflexivity | destruct (Hoffr _ _ H2' eq_refl) | destruct (Hoffr _ _ H1' E) | eapply (so_one_read _ _ S); eassumption].
  - intros t1 t2 id' l1 l2 H1 H2. destruct (Hwrites _ _ _ H1) as [(-> & -> & _)|[H1' _]], (Hwrites _ _ _ H2) as [(-> & E & _)|[H2' _]]; [reflexivity | destruct (Hoffw _ _ _ H2' eq_refl) | destruct (Hoffw _ _ _ H1' E) | eapply (so_one_write _ _ S); eassumption].
  - intros t' id' H. destruct (wr !! t') as [[id2 l]|] eqn:E; [|reflexivity]. destruct (Hreads _ _ H) as [(-> & _ & ra & l' & ws & ->)|[H1' Hn]], (Hwrites _ _ _ E) as [(Et & _ & Hw)|[H2' Hn2]]; [contradiction | contradiction | contradiction|]. rewrite (so_apart _ _ S _ _ H1') in H2'. discriminate.
Qed.

(** What a step does to the callers that wait: of one chunk, the first ones
    are answered. *)
Definition moved w w' id (msgs : list (Z * Outcome (SErr := SErr))) : Prop :=
  same_rest w w' /\ wk_sent w' = wk_sent w ++ msgs /\ (exists before kept rest, pend w id = before ++ rest /\ pend w' id = kept ++ rest /\ split_of before kept msgs) /\ forall id', id' <> id -> pend w' id' = pend w id'.
Definition errors_kept asked w w' msgs : Prop := kept_error asked w' msgs /\ (wk_write_error w <> None -> wk_write_error w' <> None).

Lemma start_next_ok asked w (a : StartAnswer (SErr := SErr)) : struct_ok asked w -> wk_ready w <> [] -> match sa_submit a with Take _ (t, _) => fresh_ticket t w | _ => True end ->
  exists w' id msgs, start_next max_class a w = Ok w' /\ struct_ok asked w' /\ moved w w' id msgs /\ errors_kept asked w w' msgs.
Proof.
  intros S Hne Hfresh. destruct (wk_ready w) as [|id tl] eqn:Er; [contradiction|]. destruct (proj1 (so_ready _ _ S id)) as (c & Hc & Hna); [rewrite Er; constructor|]. destruct (so_chain _ _ S id c Hc) as [Ho Hact]. unfold ops in Ho. rewrite Hna in Ho, Hact. cbn in Ho, Hact.
  destruct (ch_pending c) as [|op ps] eqn:Ep; [contradiction|]. apply Forall_cons in Ho as [Hop Hps]. pose proof (so_nodup _ _ S) as Hnd. rewrite Er in Hnd. apply NoDup_cons in Hnd as [Hni Hnd].
  assert (Hrw : ready_without id w tl) by (split; [exact Hnd|]; split; [exact Hni|]; intros id' Hn; rewrite Er, elem_of_cons; split; [auto | intros [->|H]; [contradiction | exact H]]).
  assert (Hpend : pend w id = replies_of op ++ concat (map replies_of ps)) by (unfold pend, chain_replies, ops; rewrite Hc, Hna, Ep; reflexivity).
  assert (Hself : tickets_without id w (wk_reads w) (wk_writes w)).
  { split; intros t' id'; [|intros l]; (split; [|intros [H _]; exact H]); intros H; (split; [exact H|]); intros ->; [destruct (so_reads _ _ S t' id H) as (d & ra & l & ws & Hd & Ha) | destruct (so_writes _ _ S t' id l H) as (d & o & Hd & Ha & _)]; congruence. }
  unfold start_next. rewrite Er. cbn [lookup list_lookup expect rbind drop wk_set_ready wk_chains]. rewrite Hc. cbn [expect rbind]. rewrite Ep. cbn [lookup list_lookup expect rbind drop]. cbv zeta.
  match goal with |- context [start_op _ _ _ _ ?y] => set (w1 := y) end. destruct (start_op_ok asked id op a w1 Hop) as (st & w2 & -> & kept & msgs & E1 & E2 & E3 & E4 & E5 & E6 & E7 & Hst). cbn [rbind]. rewrite Hna.
  change (wk_chains w1) with (delete id (wk_chains w)) in E1. change (wk_ready w1) with tl in E2. change (same_rest w w2) in E3. change (wk_sent w1) with (wk_sent w) in E4. change (wk_write_error w1) with (wk_write_error w) in E7.
  change (wk_reads w1) with (wk_reads w) in Hst. change (wk_writes w1) with (wk_writes w) in Hst. clearbody w1.
  assert (Hmv : forall w', pend w' id = kept ++ concat (map replies_of ps) -> wk_sent w' = wk_sent w2 -> wk_write_error w' = wk_write_error w2 -> same_rest w2 w' -> (forall id', id' <> id -> wk_chains w' !! id' = wk_chains w !! id') -> moved w w' id msgs /\ errors_kept asked w w' msgs).
  { intros w' H1 H3 H4 (H5 & H6 & H7) H8. destruct E3 as (F1 & F2 & F3). split; [split; [repeat split; congruence|]|].
    - split; [rewrite H3, E4; reflexivity|]. split; [exists (replies_of op), kept, (concat (map replies_of ps)); auto|]. intros id' Hn. unfold pend. rewrite H8 by assumption. reflexivity.
    - split; [intros r e k Hm Hk Hmut; rewrite H4; eapply E6; eassumption | rewrite H4; exact E7]. }
  assert (Hpark : forall o, Forall (op_ok asked id) o -> wk_reads w2 = wk_reads w -> wk_writes w2 = wk_writes w -> concat (map replies_of o) = kept ++ concat (map replies_of ps) -> let w' := match o with [] => w2 | _ => wk_set_chains (<[id := {| ch_active := None; ch_pending := o |}]> (wk_chains w2)) (wk_set_ready (wk_ready w2 ++ [id]) w2) end in struct_ok asked w' /\ moved w w' id msgs /\ errors_kept asked w w' msgs).
  { intros o Hoo R1 R2 Hk w'. pose proof (chain_leave asked w id c _ _ tl o S Hc Hrw Hself Hoo) as S'. unfold w'. destruct o as [|o1 os]; (split; [eapply struct_view; [exact S'|..]; cbn; rewrite ?E1, ?E2, ?R1, ?R2, ?insert_delete_eq; reflexivity|]); apply Hmv; try reflexivity; try (repeat split).
    - unfold pend. rewrite E1, lookup_delete_eq. exact Hk.
    - intros id' Hn. rewrite E1, lookup_delete_ne by congruence. reflexivity.
    - unfold pend. cbn. rewrite lookup_insert_eq. exact Hk.
    - intros id' Hn. cbn. rewrite lookup_insert_ne, E1, lookup_delete_ne by congruence. reflexivity. }
  destruct st as [op'|op'|].
  - destruct Hst as (Hk & Hop' & Hact' & t & lsn & Et & Htick). rewrite Et in Hfresh. cbn. eexists _, id, msgs. split; [reflexivity|]. split.
    + eapply struct_view; [eapply (chain_start asked w id c tl op' ps (wk_reads w2) (wk_writes w2) t lsn); [exact S | exact Hc | exact Hna | exact Hrw | exact Hfresh | constructor; assumption | destruct op'; exact Hact' | exact Htick]|..]; cbn; rewrite ?E1, ?E2, ?insert_delete_eq; reflexivity.
    + apply Hmv; try reflexivity; try (repeat split); [unfold pend; cbn; rewrite lookup_insert_eq, <- Hk; reflexivity|]. intros id' Hn. cbn. rewrite lookup_insert_ne, E1, lookup_delete_ne by congruence. reflexivity.
  - destruct Hst as (Hk & Hop' & R1 & R2). cbn. eexists _, id, msgs. split; [reflexivity|]. apply (Hpark (op' :: ps)); try assumption; [constructor; assumption|]. cbn. rewrite Hk. reflexivity.
  - destruct Hst as (Hk & R1 & R2). cbn. destruct (Hpark ps) as (H1 & H2 & H3); try assumption; [rewrite Hk; reflexivity|]. destruct ps as [|p1 ps']; cbn; eexists _, id, msgs; (split; [reflexivity|]); auto.
Qed.

(** A completed operation answers its callers. *)
Lemma complete_moved asked w id c op rd wr : struct_ok asked w -> wk_chains w !! id = Some c -> ch_active c = Some op -> tickets_without id w rd wr ->
  exists w', complete_chain id (wk_set_tickets rd wr w) = Ok (op, w') /\ wk_write_error w' = wk_write_error w /\ forall msgs how, map fst msgs = replies_of op -> struct_ok asked (answer msgs how w') /\ moved w (answer msgs how w') id msgs.
Proof.
  intros S Hc Ha Ht. destruct (complete_ok asked w id c op rd wr S Hc Ha Ht) as (w' & He & S' & Hr & Hs & Hw & Hp & Ho). exists w'. split; [exact He|]. split; [exact Hw|]. intros msgs how Hm. split; [eapply struct_view; [exact S' | reflexivity..]|]. split; [exact Hr|]. split; [cbn; rewrite Hs; reflexivity|].
  split; [exists (replies_of op), [], (pend w' id); split; [exact Hp|]; split; [reflexivity | apply split_all; exact Hm] | exact Ho].
Qed.

Lemma moved_keep e w w' id (msgs : list (Z * Outcome (SErr := SErr))) : moved (keep_error e w) w' id msgs -> moved w w' id msgs.
Proof. exact (fun H => H). Qed.

Lemma read_done_ok op range lsn ws (result : res SErr (list byte * Z)) : op = OpRead range lsn ws -> active_ok (Some op) [] -> match result with Ok (_, n) => n <= max_class | Err _ => True | Panic => False end -> exists msgs, read_done op result = Ok msgs /\ map fst msgs = replies_of op.
Proof.
  intros -> (leader & rest & b & -> & Hb & Hm) Hres. destruct result as [[bytes n]|e|]; [| |contradiction]; cbn; [rewrite Hb; cbn [expect rbind]; rewrite (proj2 (Z.leb_le n b)) by lia |]; (eexists; split; [reflexivity | cbn; rewrite map_map; reflexivity]).
Qed.

Definition for_chunk w (c : StoreCompletion (SErr := SErr)) : Prop :=
  match c with
  | DoneRead t res => is_Some (wk_reads w !! t) /\ match res with Ok (_, n) => n <= max_class | Err _ => True | Panic => False end
  | DoneWrite t _ => is_Some (wk_writes w !! t)
  | DoneFlush _ _ => False
  | DoneFailed t _ => is_Some (wk_reads w !! t) \/ is_Some (wk_writes w !! t)
  end.

Lemma completion_ok asked w (c : StoreCompletion (SErr := SErr)) : struct_ok asked w -> for_chunk w c ->
  exists w' id msgs, on_completion c w = Ok (None, w') /\ struct_ok asked w' /\ moved w w' id msgs /\ errors_kept asked w w' msgs /\ wk_chains w <> ∅.
Proof.
  intros S Hfor. assert (Hne : forall id d, wk_chains w !! id = Some d -> wk_chains w <> ∅) by (intros id d Hd E; rewrite E, lookup_empty in Hd; discriminate).
  destruct c as [t res|t res|t res|t e]; cbn [for_chunk on_completion] in *; [| |contradiction|].
  - destruct Hfor as [[id Ht] Hres]. rewrite Ht. cbn [expect rbind]. destruct (so_reads _ _ S t id Ht) as (d & range & lsn & ws & Hd & Ha). destruct (complete_moved asked w id d _ _ _ S Hd Ha (read_ticket asked w t id S Ht)) as (w' & -> & Hw & Hall). cbn [rbind].
    destruct (so_chain _ _ S id d Hd) as [Ho Hact]. rewrite Ha in Hact. destruct (read_done_ok _ range lsn ws res eq_refl Hact Hres) as (msgs & -> & Hm). cbn [rbind]. destruct (Hall msgs [Pushed msgs] Hm) as [S' Hmv]. exists (push msgs w'), id, msgs. split; [reflexivity|]. split; [exact S'|]. split; [exact Hmv|]. split; [|eauto].
    split; [|cbn; rewrite Hw; auto]. eapply (error_read asked id _ (OpRead range lsn ws)); [unfold ops in Ho; rewrite Ha in Ho; apply Forall_cons in Ho as [Ho _]; exact Ho | | exact Logic.I]. intros m Hin. rewrite <- Hm. apply list_elem_of_fmap. eauto.
  - destruct Hfor as [[id lsn] Ht]. rewrite Ht. cbn [expect rbind]. destruct (so_writes _ _ S t id lsn Ht) as (d & op & Hd & Ha & Hop). pose proof (write_ticket asked w t id lsn S Ht) as Htick. destruct res as [e|].
    + change (keep_error (StoreFailed e) (wk_set_tickets (wk_reads w) (delete t (wk_writes w)) w)) with (wk_set_tickets (wk_reads w) (delete t (wk_writes w)) (keep_error (StoreFailed e) w)). destruct (complete_moved asked (keep_error (StoreFailed e) w) id d op (wk_reads w) (delete t (wk_writes w)) ltac:(eapply struct_view; [exact S | reflexivity..]) Hd Ha Htick) as (w' & -> & Hw & Hall). cbn [rbind].
      assert (Hm : exists msgs, write_done op (inr (StoreFailed e)) = Ok msgs /\ map fst msgs = replies_of op) by (destruct op; [contradiction | eexists; split; reflexivity..]). destruct Hm as (msgs & -> & Hm). cbn [rbind]. destruct (Hall msgs [Direct msgs] Hm) as [S' Hmv]. exists (send msgs w'), id, msgs. split; [reflexivity|]. split; [exact S'|]. split; [exact Hmv|]. split; [|eauto]. split; [intros r e' k _ _ _|intros _]; cbn; rewrite Hw; cbn; discriminate.
    + destruct (complete_moved asked w id d op (wk_reads w) (delete t (wk_writes w)) S Hd Ha Htick) as (w' & -> & Hw & Hall). cbn [rbind].
      assert (Hm : exists msgs : list (Z * Outcome (SErr := SErr)), write_done op (inl lsn) = Ok msgs /\ map fst msgs = replies_of op /\ forall r e, (r, Refused e) ∉ msgs) by (destruct op as [|v rp|ex rp]; [contradiction | eexists; split; [reflexivity|]; split; [reflexivity|]; intros r e Hin; apply list_elem_of_singleton in Hin; discriminate..]). destruct Hm as (msgs & -> & Hm & Hno). cbn [rbind]. destruct (Hall msgs [Direct msgs] Hm) as [S' Hmv]. exists (send msgs w'), id, msgs. split; [reflexivity|]. split; [exact S'|]. split; [exact Hmv|]. split; [|eauto]. split; [apply no_refusal; exact Hno | cbn; rewrite Hw; auto].
  - assert (Hgen : forall id d op rd wr, wk_chains w !! id = Some d -> ch_active d = Some op -> tickets_without id w rd wr -> exists w' msgs, (let? (op, w0) := complete_chain id (wk_set_tickets rd wr (keep_error (StoreFailed e) w)) in Ok (E := unit) (None : option (StoreError (SErr := SErr)), send (op_fail op (StoreFailed e)) w0)) = Ok (None, w') /\ struct_ok asked w' /\ moved w w' id msgs /\ errors_kept asked w w' msgs /\ wk_chains w <> ∅).
    { intros id d op rd wr Hd Ha Htick. destruct (complete_moved asked (keep_error (StoreFailed e) w) id d op rd wr ltac:(eapply struct_view; [exact S | reflexivity..]) Hd Ha Htick) as (w' & -> & Hw & Hall). cbn [rbind]. destruct (Hall _ [Direct (op_fail op (StoreFailed e))] (op_fail_fst op (StoreFailed e))) as [S' Hmv]. eexists _, _. split; [reflexivity|]. split; [exact S'|]. split; [exact Hmv|]. split; [|eauto]. split; [intros r e' k _ _ _|intros _]; cbn; rewrite Hw; cbn; discriminate. }
    change (wk_reads (keep_error (StoreFailed e) w)) with (wk_reads w). change (wk_writes (keep_error (StoreFailed e) w)) with (wk_writes w). destruct (wk_reads w !! t) as [id|] eqn:Er.
    + destruct (so_reads _ _ S t id Er) as (d & range & lsn & ws & Hd & Ha). destruct (Hgen id d _ _ _ Hd Ha (read_ticket asked w t id S Er)) as (w' & msgs & H1 & H2). exists w', id, msgs. split; [exact H1 | exact H2].
    + destruct Hfor as [[y H]|[[id lsn] Hw]]; [discriminate|]. rewrite Hw. destruct (so_writes _ _ S t id lsn Hw) as (d & op & Hd & Ha & _). destruct (Hgen id d _ _ _ Hd Ha (write_ticket asked w t id lsn S Hw)) as (w' & msgs & H1 & H2). exists w', id, msgs. split; [exact H1 | exact H2].
Qed.

(** ** Who waits, and what was answered *)

Definition held w : list Z := match wk_fence w with Some f => option_list (fence_number (fs_reply f)) | None => [] end ++ option_list (wk_close_reply w).
Definition on_chunk asked r id : Prop := exists k, asked !! r = Some k /\ chunk_of k = Some id.

(** Two answers to callers of one chunk who are still there come in the order
    of the commands. *)
Definition answer_before asked (m m' : Z * Outcome (SErr := SErr)) : Prop := live m = true -> live m' = true -> forall id, on_chunk asked (fst m) id -> on_chunk asked (fst m') id -> fst m < fst m'.
(** A later fence was refused. *)
Definition reported asked (sent : list (Z * Outcome (SErr := SErr))) r : Prop := exists f e, r < f /\ asked !! f = Some AskFence /\ (f, Refused e) ∈ sent.
Definition reported_before asked (sent : list (Z * Outcome (SErr := SErr))) r r' : Prop := exists f e, r < f < r' /\ asked !! f = Some AskFence /\ (f, Refused e) ∈ sent.
Definition refused_mutation asked (sent : list (Z * Outcome (SErr := SErr))) r : Prop := exists k e, asked !! r = Some k /\ mutation k = true /\ (r, Refused e) ∈ sent.
(** What a fence that succeeded says about the commands before it. *)
Definition covered asked (sent : list (Z * Outcome (SErr := SErr))) r : Prop := forall r' k, asked !! r' = Some k -> r' < r -> r' ∈ map fst sent /\ (refused_mutation asked sent r' -> reported_before asked sent r' r).

Definition errors_ok x : Prop :=
  let w := sw_worker x in
  match sw_stage x with
  | Running => forall r, refused_mutation (sw_asked x) (wk_sent w) r -> wk_write_error w <> None \/ reported (sw_asked x) (wk_sent w) r
  | Leaving None => forall rc, wk_close_reply w = Some rc -> forall r, r < rc -> refused_mutation (sw_asked x) (wk_sent w) r -> reported_before (sw_asked x) (wk_sent w) r rc
  | Leaving (Some _) => True
  end.

Record told x : Prop := {
  td_pend : forall id, StronglySorted Z.lt (pend (sw_worker x) id);
  td_wait : forall id r, r ∈ pend (sw_worker x) id -> on_chunk (sw_asked x) r id /\ r ∉ map fst (wk_sent (sw_worker x));
  td_held : forall r, r ∈ held (sw_worker x) -> sw_asked x !! r = Some AskFence /\ r ∉ map fst (wk_sent (sw_worker x));
  td_once : NoDup (map fst (wk_sent (sw_worker x)));
  td_known : forall r, r ∈ map fst (wk_sent (sw_worker x)) -> is_Some (sw_asked x !! r);
  td_all : forall r k, sw_asked x !! r = Some k -> r < sw_next x /\ (r ∈ map fst (wk_sent (sw_worker x)) \/ (exists id, r ∈ pend (sw_worker x) id) \/ r ∈ held (sw_worker x));
  td_order : StronglySorted (answer_before (sw_asked x)) (wk_sent (sw_worker x));
  td_front : forall id m r', m ∈ wk_sent (sw_worker x) -> live m = true -> on_chunk (sw_asked x) (fst m) id -> r' ∈ pend (sw_worker x) id -> fst m < r';
  td_flush : forall r, sw_asked x !! r = Some AskFence -> (r, FenceDone) ∈ wk_sent (sw_worker x) -> covered (sw_asked x) (wk_sent (sw_worker x)) r;
  td_error : errors_ok x;
  td_last : sw_stage x = Running -> forall r, r ∈ held (sw_worker x) -> forall r' k, sw_asked x !! r' = Some k -> r' <= r;
  td_closing : wk_closing (sw_worker x) = true -> wk_fence (sw_worker x) = None /\ wk_chains (sw_worker x) = ∅;
  td_ticket : forall f, wk_fence (sw_worker x) = Some f -> fs_ticket f <> None -> wk_chains (sw_worker x) = ∅ /\ exists r, fs_reply f = FlushReply r;
  td_close : wk_close_reply (sw_worker x) <> None -> wk_closing (sw_worker x) = true
}.

Lemma sorted_sublist (l l' : list Z) : l `sublist_of` l' -> StronglySorted Z.lt l' -> StronglySorted Z.lt l.
Proof.
  intros Hs. induction Hs as [|y l l' Hs IH|y l l' Hs IH]; intros H; [constructor | |]; apply StronglySorted_inv in H as [H Hall]; [|auto]. constructor; [auto|]. rewrite Forall_forall in *. intros z Hz. apply Hall. eapply sublist_subseteq; eassumption.
Qed.

Lemma StronglySorted_impl_in {A} (R R' : A -> A -> Prop) (l : list A) : (forall a b, a ∈ l -> b ∈ l -> R a b -> R' a b) -> StronglySorted R l -> StronglySorted R' l.
Proof.
  intros Hi H. induction H as [|y l H IH Hall]; constructor; [apply IH; intros a b Ha Hb; apply Hi; constructor; assumption|]. rewrite Forall_forall in *. intros z Hz. apply Hi; [constructor | constructor; exact Hz | auto].
Qed.

Lemma live_sorted asked (msgs : list (Z * Outcome (SErr := SErr))) : StronglySorted Z.lt (map fst (List.filter live msgs)) -> StronglySorted (answer_before asked) msgs.
Proof.
  induction msgs as [|m msgs IH]; intros H; constructor.
  - apply IH. cbn in H. destruct (live m); [apply StronglySorted_inv in H as [H _]|]; exact H.
  - rewrite Forall_forall. intros m' Hin L L' id _ _. cbn in H. rewrite L in H. apply StronglySorted_inv in H as [_ H]. rewrite Forall_forall in H. apply H, list_elem_of_fmap. exists m'. split; [reflexivity|]. apply list_elem_of_In, filter_In. split; [apply list_elem_of_In; exact Hin | exact L'].
Qed.

Lemma reported_mono asked sent msgs r : reported asked sent r -> reported asked (sent ++ msgs) r.
Proof. intros (f & e & H1 & H2 & H3). exists f, e. rewrite elem_of_app. auto. Qed.

Lemma reported_before_mono asked sent msgs r r' : reported_before asked sent r r' -> reported_before asked (sent ++ msgs) r r'.
Proof. intros (f & e & H1 & H2 & H3). exists f, e. rewrite elem_of_app. auto. Qed.

(** An answered command is not answered again. *)
Lemma refused_old asked sent msgs r : NoDup (map fst (sent ++ msgs)) -> r ∈ map fst sent -> refused_mutation asked (sent ++ msgs) r -> refused_mutation asked sent r.
Proof.
  intros Hnd Hin (k & e & H1 & H2 & H3). exists k, e. split; [exact H1|]. split; [exact H2|]. apply elem_of_app in H3 as [H3|H3]; [exact H3|]. rewrite map_app in Hnd. apply NoDup_app in Hnd as (_ & Hd & _). destruct (Hd r Hin). apply list_elem_of_fmap. exists (r, Refused e). auto.
Qed.

Lemma covered_mono asked sent msgs r : NoDup (map fst (sent ++ msgs)) -> covered asked sent r -> covered asked (sent ++ msgs) r.
Proof. intros Hnd Hc r' k Hk Hlt. destruct (Hc r' k Hk Hlt) as [H1 H2]. split; [rewrite map_app, elem_of_app; auto|]. intros Hr. apply reported_before_mono, H2. eapply refused_old; eassumption. Qed.

(** ** Every step keeps the account *)

Lemma chunk_known asked r id : on_chunk asked r id -> asked !! r <> Some AskFence /\ is_Some (asked !! r) /\ forall id', on_chunk asked r id' -> id' = id.
Proof. intros (k & Hk & Hc). split; [intros H; rewrite Hk in H; injection H as ->; discriminate|]. split; [rewrite Hk; eauto|]. intros id' (k' & Hk' & Hc'). rewrite Hk in Hk'. injection Hk' as <-. congruence. Qed.

Lemma moved_told x w' id msgs : told x -> wk_chains (sw_worker x) <> ∅ -> moved (sw_worker x) w' id msgs -> errors_ok (sw_set w' x) -> told (sw_set w' x).
Proof.
  intros T Hne ((Hf & Hcl & Hcr) & Hsent & (before & kept & rest & Hp & Hp' & Hperm & Hsub & Hlive & Hkind) & Hothers) Herr.
  assert (Hopen : wk_closing (sw_worker x) = false) by (destruct (wk_closing (sw_worker x)) eqn:E; [destruct (td_closing x T E) as [_ H]; contradiction | reflexivity]).
  assert (Hheld : held w' = held (sw_worker x)) by (unfold held; rewrite Hf, Hcr; reflexivity).
  pose proof (td_pend x T id) as Hsort. rewrite Hp in Hsort. pose proof (sorted_nodup _ Hsort) as Hnd. apply NoDup_app in Hnd as (Hndb & Hdis & _). rewrite Hperm in Hndb. apply NoDup_app in Hndb as (Hndm & Hdm & _).
  assert (Hmsg : forall r, r ∈ map fst msgs -> r ∈ pend (sw_worker x) id) by (intros r Hr; rewrite Hp, Hperm, !elem_of_app; auto).
  assert (Hstay : forall id' r, r ∈ pend w' id' -> r ∈ pend (sw_worker x) id' /\ r ∉ map fst msgs).
  { intros id' r Hr. destruct (decide (id' = id)) as [->|Hn].
    - rewrite Hp' in Hr. rewrite Hp. apply elem_of_app in Hr as [Hr|Hr]; [split; [apply elem_of_app; left; eapply sublist_subseteq; [exact Hsub | exact Hr] | intros Hm; exact (Hdm r Hm Hr)] | split; [apply elem_of_app; auto|]]. intros Hm. apply (Hdis r); [rewrite Hperm; apply elem_of_app; auto | exact Hr].
    - rewrite Hothers in Hr by assumption. split; [exact Hr|]. intros Hm. apply Hmsg in Hm. apply (td_wait x T) in Hr as [Hr _]. apply (td_wait x T) in Hm as [Hm _]. apply chunk_known in Hm as (_ & _ & Hm). apply Hn. symmetry. symmetry. apply Hm. exact Hr. }
  assert (Hfst : map fst (wk_sent (sw_worker x) ++ msgs) = map fst (wk_sent (sw_worker x)) ++ map fst msgs) by apply map_app.
  assert (Honce : NoDup (map fst (wk_sent (sw_worker x) ++ msgs))) by (rewrite Hfst; apply NoDup_app; split; [apply T|]; split; [intros r Hr Hm; apply Hmsg in Hm; apply (td_wait x T) in Hm as [_ Hm]; contradiction | exact Hndm]).
  constructor; cbn [sw_set sw_worker sw_asked sw_next sw_stage]; rewrite ?Hsent, ?Hheld, ?Hfst; try assumption.
  - intros id'. destruct (decide (id' = id)) as [->|Hn]; [|rewrite Hothers by assumption; apply T]. rewrite Hp'. eapply sorted_sublist; [|exact Hsort]. apply sublist_app; [exact Hsub | reflexivity].
  - intros id' r Hr. destruct (Hstay id' r Hr) as [H1 H2]. destruct (td_wait x T _ _ H1) as [H3 H4]. split; [exact H3|]. rewrite elem_of_app. tauto.
  - intros r Hr. destruct (td_held x T r Hr) as [H1 H2]. split; [exact H1|]. rewrite elem_of_app. intros [H|H]; [contradiction|]. apply Hmsg in H. apply (td_wait x T) in H as [H _]. apply chunk_known in H as [H _]. contradiction.
  - rewrite <- Hfst. exact Honce.
  - intros r Hr. apply elem_of_app in Hr as [Hr|Hr]; [apply T; exact Hr|]. apply Hmsg in Hr. apply (td_wait x T) in Hr as [Hr _]. apply chunk_known in Hr as (_ & Hr & _). exact Hr.
  - intros r k Hk. destruct (td_all x T r k Hk) as [H1 H2]. split; [exact H1|]. rewrite elem_of_app. destruct H2 as [H2|[[id' H2]|H2]]; [auto | | auto]. destruct (decide (id' = id)) as [->|Hn]; [|right; left; exists id'; rewrite Hothers by assumption; exact H2]. rewrite Hp in H2. apply elem_of_app in H2 as [H2|H2]; [|right; left; exists id; rewrite Hp'; apply elem_of_app; auto]. rewrite Hperm in H2. apply elem_of_app in H2 as [H2|H2]; [auto | right; left; exists id; rewrite Hp'; apply elem_of_app; auto].
  - apply StronglySorted_app_2; [| apply T | apply live_sorted; eapply sorted_sublist; [exact Hlive | apply StronglySorted_app_1_l in Hsort; exact Hsort]]. intros m m' Hm Hm' L _ id' Ho Ho'. assert (Hr : fst m' ∈ pend (sw_worker x) id) by (apply Hmsg, list_elem_of_fmap; eauto). destruct (td_wait x T _ _ Hr) as [H _]. apply chunk_known in H as (_ & _ & H). specialize (H id' Ho'). subst id'. eapply (td_front x T); eassumption.
  - intros id' m r' Hm L Ho Hr'. destruct (Hstay id' r' Hr') as [Hr _]. apply elem_of_app in Hm as [Hm|Hm]; [eapply (td_front x T); eassumption|]. assert (Hmp : fst m ∈ pend (sw_worker x) id) by (apply Hmsg, list_elem_of_fmap; eauto). destruct (td_wait x T _ _ Hmp) as [H _]. apply chunk_known in H as (_ & _ & H). specialize (H id' Ho). subst id'.
    assert (Hkept : kept = []) by (destruct Hkind as [H|Hn]; [exact H|]; assert (Hin : m ∈ List.filter live msgs) by (apply list_elem_of_In, filter_In; split; [apply list_elem_of_In; exact Hm | exact L]); rewrite Hn in Hin; apply not_elem_of_nil in Hin as []). rewrite Hp', Hkept in Hr'. cbn in Hr'. eapply StronglySorted_app_1_elem_of; [exact Hsort | | exact Hr']. rewrite Hperm. apply elem_of_app. left. apply list_elem_of_fmap. eauto.
  - intros r Hk Hin. apply covered_mono; [exact Honce|]. apply (td_flush x T); [exact Hk|]. apply elem_of_app in Hin as [Hin|Hin]; [exact Hin|]. assert (Hr : r ∈ pend (sw_worker x) id) by (apply Hmsg, list_elem_of_fmap; exists (r, FenceDone); auto). apply (td_wait x T) in Hr as [Hr _]. apply chunk_known in Hr as [Hr _]. contradiction.
  - apply T.
  - rewrite Hcl, Hopen. discriminate.
  - intros f Hff Htk. rewrite Hf in Hff. destruct (td_ticket x T f Hff Htk) as [H _]. contradiction.
  - rewrite Hcr, Hcl. apply T.
Qed.

(** A step of the loop that keeps errors. *)
Lemma running_errors x w' id msgs : told x -> sw_stage x = Running -> moved (sw_worker x) w' id msgs -> errors_kept (sw_asked x) (sw_worker x) w' msgs -> errors_ok (sw_set w' x).
Proof.
  intros T Hs (_ & Hsent & _) [Hk Hw]. pose proof (td_error x T) as He. unfold errors_ok in *. cbn [sw_set sw_stage sw_worker sw_asked]. rewrite Hs in *. intros r (k & e & H1 & H2 & H3). rewrite Hsent in *. apply elem_of_app in H3 as [H3|H3]; [|left; eapply Hk; eassumption].
  destruct (He r) as [H|H]; [exists k, e; auto | left; auto | right; apply reported_mono; exact H].
Qed.

Definition sw_at (w : Worker) (st : Stage (SErr := SErr)) x : StoreWorld := {| sw_worker := w; sw_stage := st; sw_next := sw_next x; sw_asked := sw_asked x |}.
Definition gates_ok w : Prop :=
  (wk_closing w = true -> wk_fence w = None /\ wk_chains w = ∅) /\ (forall f, wk_fence w = Some f -> fs_ticket f <> None -> wk_chains w = ∅ /\ exists r, fs_reply f = FlushReply r) /\ (wk_close_reply w <> None -> wk_closing w = true).

Lemma one_held x : told x -> held (sw_worker x) = [] \/ exists r, held (sw_worker x) = [r].
Proof.
  intros T. unfold held. destruct (wk_close_reply (sw_worker x)) as [rc|] eqn:E; [destruct (td_closing x T (td_close x T ltac:(congruence))) as [-> _]; eauto|]. destruct (wk_fence (sw_worker x)) as [f|]; [|auto]. destruct (fence_number (fs_reply f)); cbn; eauto.
Qed.

(** A step at a fence: the callers of fences are answered or stay. *)
Lemma held_told x w' st msgs : told x -> wk_chains w' = wk_chains (sw_worker x) -> held (sw_worker x) = map fst msgs ++ held w' -> wk_sent w' = wk_sent (sw_worker x) ++ msgs ->
  (forall r, (r, FenceDone) ∈ msgs -> covered (sw_asked x) (wk_sent w') r) -> (st = Running -> sw_stage x = Running) -> gates_ok w' -> errors_ok (sw_at w' st x) -> told (sw_at w' st x).
Proof.
  intros T Hch Hheld Hsent Hcov Hrun (G1 & G2 & G3) Herr. assert (Hpend : forall id, pend w' id = pend (sw_worker x) id) by (intros id; unfold pend; rewrite Hch; reflexivity).
  assert (Hmsg : forall r, r ∈ map fst msgs -> r ∈ held (sw_worker x)) by (intros r Hr; rewrite Hheld, elem_of_app; auto).
  assert (Hnd : NoDup (map fst msgs ++ held w')) by (rewrite <- Hheld; destruct (one_held x T) as [->|[r ->]]; [constructor | apply NoDup_singleton]). apply NoDup_app in Hnd as (Hndm & Hdis & _).
  assert (Hfst : map fst (wk_sent (sw_worker x) ++ msgs) = map fst (wk_sent (sw_worker x)) ++ map fst msgs) by apply map_app.
  assert (Honce : NoDup (map fst (wk_sent (sw_worker x) ++ msgs))) by (rewrite Hfst; apply NoDup_app; split; [exact (td_once x T)|]; split; [intros r Hr Hm; apply Hmsg in Hm; apply (td_held x T) in Hm as [_ Hm]; contradiction | exact Hndm]).
  assert (Hfence : forall m, m ∈ msgs -> sw_asked x !! fst m = Some AskFence) by (intros m Hm; apply (td_held x T), Hmsg, list_elem_of_fmap; eauto).
  constructor; cbn [sw_at sw_worker sw_asked sw_next sw_stage]; try assumption; rewrite ?Hsent, ?Hfst.
  - intros id. rewrite Hpend. apply T.
  - intros id r Hr. rewrite Hpend in Hr. destruct (td_wait x T id r Hr) as [H1 H2]. split; [exact H1|]. rewrite elem_of_app. intros [H|H]; [contradiction|]. apply Hmsg, (td_held x T) in H as [H _]. apply chunk_known in H1 as [H1 _]. contradiction.
  - intros r Hr. destruct (td_held x T r) as [H1 H2]; [rewrite Hheld, elem_of_app; auto|]. split; [exact H1|]. rewrite elem_of_app. intros [H|H]; [contradiction | exact (Hdis r H Hr)].
  - rewrite <- Hfst. exact Honce.
  - intros r Hr. apply elem_of_app in Hr as [Hr|Hr]; [apply T; exact Hr|]. apply Hmsg, (td_held x T) in Hr as [-> _]. eauto.
  - intros r k Hk. destruct (td_all x T r k Hk) as [H1 [H2|[[id H2]|H2]]]; (split; [exact H1|]); rewrite elem_of_app; [auto | right; left; exists id; rewrite Hpend; exact H2|]. rewrite Hheld in H2. apply elem_of_app in H2 as [H2|H2]; auto.
  - apply StronglySorted_app_2; [intros m m' _ Hm' _ _ id _ Ho; apply chunk_known in Ho as [Ho _]; destruct (Ho (Hfence m' Hm')) | apply T|]. clear - Hfence. induction msgs as [|m msgs IH]; constructor; [apply IH; intros m' Hm'; apply Hfence; constructor; exact Hm'|]. rewrite Forall_forall. intros m' _ _ _ id Ho _. apply chunk_known in Ho as [Ho _]. destruct Ho. apply Hfence. constructor.
  - intros id m r' Hm L Ho Hr'. rewrite Hpend in Hr'. apply elem_of_app in Hm as [Hm|Hm]; [eapply (td_front x T); eassumption|]. apply chunk_known in Ho as [Ho _]. destruct (Ho (Hfence m Hm)).
  - intros r Hk Hin. apply elem_of_app in Hin as [Hin|Hin]; [apply covered_mono; [exact Honce|]; apply (td_flush x T); assumption|]. rewrite <- Hsent. apply Hcov. exact Hin.
  - intros Hst r Hr r' k Hk. eapply (td_last x T); [auto | rewrite Hheld, elem_of_app; auto | exact Hk].
Qed.

(** A new command waits, is held, or is refused at once. *)
Lemma received_told x w' k newp newh msgs : told x ->
  let r := sw_next x in
  let x' := {| sw_worker := w'; sw_stage := sw_stage x; sw_next := r + 1; sw_asked := <[r := k]> (sw_asked x) |} in
  (forall id, pend w' id = pend (sw_worker x) id ++ newp id) -> held w' = held (sw_worker x) ++ newh -> wk_sent w' = wk_sent (sw_worker x) ++ msgs -> wk_write_error w' = wk_write_error (sw_worker x) -> wk_close_reply w' = wk_close_reply (sw_worker x) ->
  (forall id, newp id = [] \/ newp id = [r] /\ chunk_of k = Some id /\ msgs = []) -> (newh = [] \/ newh = [r] /\ k = AskFence /\ msgs = []) ->
  (msgs = [] \/ (exists e, msgs = [(r, Refused e)]) /\ (forall id, pend w' id = []) /\ exists y, sw_stage x = Leaving y) -> (r ∈ map fst msgs \/ (exists id, r ∈ newp id) \/ r ∈ newh) ->
  (sw_stage x = Running -> held (sw_worker x) = []) -> gates_ok w' -> told x'.
Proof.
  intros T r x' Hpend Hheld Hsent Hwe Hcr Hnp Hnh Hmsgs Hsome Hrun (G1 & G2 & G3).
  assert (Hfresh : sw_asked x !! r = None) by (destruct (sw_asked x !! r) as [k0|] eqn:E; [apply (td_all x T) in E as [E _]; unfold r in E; lia | reflexivity]).
  assert (Hnot : r ∉ map fst (wk_sent (sw_worker x))) by (intros H; apply (td_known x T) in H; rewrite Hfresh in H; destruct H; discriminate).
  assert (Hold : forall r' k', sw_asked x !! r' = Some k' -> <[r := k]> (sw_asked x) !! r' = Some k') by (intros r' k' Hk; rewrite lookup_insert_ne; [exact Hk | congruence]).
  assert (Hback : forall r' k', r' <> r -> <[r := k]> (sw_asked x) !! r' = Some k' -> sw_asked x !! r' = Some k') by (intros r' k' Hn Hk; rewrite lookup_insert_ne in Hk; congruence).
  assert (Hon : forall r' id, r' <> r -> on_chunk (<[r := k]> (sw_asked x)) r' id <-> on_chunk (sw_asked x) r' id) by (intros r' id Hn; unfold on_chunk; rewrite lookup_insert_ne by congruence; reflexivity).
  assert (Hsentne : forall m, m ∈ wk_sent (sw_worker x) -> fst m <> r) by (intros m Hm E; apply Hnot; rewrite <- E; apply list_elem_of_fmap; eauto).
  assert (Hpne : forall id r', r' ∈ pend (sw_worker x) id -> r' < r /\ r' <> r) by (intros id r' Hr; destruct (td_wait x T id r' Hr) as [(k' & Hk & _) _]; apply (td_all x T) in Hk as [Hk _]; unfold r; lia).
  assert (Hnew : forall id r', r' ∈ newp id -> r' = r /\ chunk_of k = Some id /\ msgs = []) by (intros id r' Hr; destruct (Hnp id) as [H|(H & H1 & H2)]; rewrite H in Hr; [apply not_elem_of_nil in Hr as [] | apply list_elem_of_singleton in Hr; auto]).
  assert (Hm : forall m, m ∈ msgs -> fst m = r /\ (exists e, snd m = Refused e) /\ (forall id, pend w' id = []) /\ exists y, sw_stage x = Leaving y) by (intros m Hin; destruct Hmsgs as [->|((e & ->) & H1 & H2)]; [apply not_elem_of_nil in Hin as [] | apply list_elem_of_singleton in Hin as ->; cbn; eauto]).
  assert (Hfst : map fst (wk_sent (sw_worker x) ++ msgs) = map fst (wk_sent (sw_worker x)) ++ map fst msgs) by apply map_app. assert (Hin : forall r', r' ∈ map fst msgs -> r' = r) by (intros r' Hr; apply list_elem_of_fmap in Hr as (m & -> & Hr); apply Hm in Hr as [Hr _]; exact Hr).
  assert (Honce : NoDup (map fst (wk_sent (sw_worker x) ++ msgs))) by (rewrite Hfst; apply NoDup_app; split; [exact (td_once x T)|]; split; [intros r' Hr Hr'; apply Hin in Hr' as ->; contradiction | destruct Hmsgs as [->|((e & ->) & _)]; [constructor | apply NoDup_singleton]]).
  assert (Href : forall r', refused_mutation (<[r := k]> (sw_asked x)) (wk_sent (sw_worker x) ++ msgs) r' -> r' <> r -> refused_mutation (sw_asked x) (wk_sent (sw_worker x)) r').
  { intros r' (k' & e & H1 & H2 & H3) Hn. exists k', e. split; [apply Hback; assumption|]. split; [exact H2|]. apply elem_of_app in H3 as [H3|H3]; [exact H3|]. apply Hm in H3 as [H3 _]. cbn in H3. contradiction. }
  assert (Hrep : forall a b, reported_before (sw_asked x) (wk_sent (sw_worker x)) a b -> reported_before (<[r := k]> (sw_asked x)) (wk_sent (sw_worker x) ++ msgs) a b) by (intros a b (f & e & H1 & H2 & H3); exists f, e; rewrite elem_of_app; auto).
  assert (Hnewh : forall r', r' ∈ newh -> r' = r /\ k = AskFence /\ msgs = []) by (intros r' Hr; destruct Hnh as [H|(H & H1 & H2)]; rewrite H in Hr; [apply not_elem_of_nil in Hr as [] | apply list_elem_of_singleton in Hr; auto]).
  constructor; cbn [x' sw_worker sw_asked sw_next sw_stage]; try assumption; rewrite ?Hsent, ?Hfst, ?Hheld.
  - intros id. rewrite Hpend. apply StronglySorted_app_2; [intros a b Ha Hb; apply Hnew in Hb as (-> & _); apply (Hpne id a Ha) | apply T|]. destruct (Hnp id) as [->|(-> & _)]; repeat constructor.
  - intros id r' Hr. rewrite Hpend in Hr. rewrite elem_of_app. apply elem_of_app in Hr as [Hr|Hr].
    + destruct (td_wait x T id r' Hr) as [H1 H2]. destruct (Hpne id r' Hr) as [_ Hn]. split; [apply Hon; assumption|]. intros [H|H]; [contradiction | apply Hin in H; contradiction].
    + apply Hnew in Hr as (-> & Hk & ->). split; [exists k; split; [apply lookup_insert_eq | exact Hk]|]. intros [H|H]; [contradiction | apply not_elem_of_nil in H as []].
  - intros r' Hr. rewrite elem_of_app. apply elem_of_app in Hr as [Hr|Hr].
    + destruct (td_held x T r' Hr) as [H1 H2]. split; [auto|]. intros [H|H]; [contradiction|]. apply Hin in H as ->. congruence.
    + apply Hnewh in Hr as (-> & -> & ->). split; [apply lookup_insert_eq|]. intros [H|H]; [contradiction | apply not_elem_of_nil in H as []].
  - rewrite <- Hfst. exact Honce.
  - intros r' Hr. apply elem_of_app in Hr as [Hr|Hr]; [apply (td_known x T) in Hr as [k' Hr]; eauto | apply Hin in Hr as ->; rewrite lookup_insert_eq; eauto].
  - intros r' k' Hk. destruct (decide (r' = r)) as [->|Hn].
    + split; [lia|]. rewrite !elem_of_app. destruct Hsome as [H|[[id H]|H]]; [auto | right; left; exists id; rewrite Hpend; apply elem_of_app; auto | auto].
    + apply Hback in Hk; [|exact Hn]. destruct (td_all x T r' k' Hk) as [H1 H2]. split; [unfold r; lia|]. rewrite !elem_of_app. destruct H2 as [H|[[id H]|H]]; [auto | right; left; exists id; rewrite Hpend; apply elem_of_app; auto | auto].
  - apply StronglySorted_app_2.
    + intros m m' Hm1 Hm2 _ _ id Ho Ho'. apply Hm in Hm2 as [-> _]. apply Hon in Ho; [|apply Hsentne; exact Hm1]. destruct Ho as (k' & Hk & _). apply (td_all x T) in Hk as [Hk _]. exact Hk.
    + eapply StronglySorted_impl_in; [|apply T]. intros m m' Hm1 Hm2 Hr L L' id Ho Ho'. apply Hon in Ho, Ho'; auto. apply (Hr L L' id Ho Ho').
    + destruct Hmsgs as [->|((e & ->) & _)]; repeat constructor.
  - intros id m r' Hin' L Ho Hr'. apply elem_of_app in Hin' as [Hin'|Hin']; [|apply Hm in Hin' as (_ & _ & H & _); rewrite H in Hr'; apply not_elem_of_nil in Hr' as []]. apply Hon in Ho; [|apply Hsentne; exact Hin']. rewrite Hpend in Hr'. apply elem_of_app in Hr' as [Hr'|Hr']; [eapply (td_front x T); eassumption|]. apply Hnew in Hr' as (-> & _). destruct Ho as (k' & Hk & _). apply (td_all x T) in Hk as [Hk _]. exact Hk.
  - intros f Hk Hin'. apply elem_of_app in Hin' as [Hin'|Hin']; [|apply Hm in Hin' as (_ & (e & He) & _); discriminate]. pose proof (Hsentne _ Hin') as Hn. cbn in Hn. apply Hback in Hk; [|exact Hn]. intros r' k' Hk' Hlt. assert (Hn' : r' <> r) by (apply (td_all x T) in Hk as [Hk _]; unfold r; lia). apply Hback in Hk'; [|exact Hn']. destruct (td_flush x T f Hk Hin' r' k' Hk' Hlt) as [H1 H2]. split; [rewrite Hfst, elem_of_app; auto|]. intros Hr. apply Hrep, H2, Href; assumption.
  - pose proof (td_error x T) as He. unfold errors_ok in *. cbn [x' sw_worker sw_asked sw_stage]. rewrite Hsent, Hwe, Hcr. destruct (sw_stage x) as [|[e|]] eqn:Es; [|exact Logic.I|].
    + intros r' Hr'. assert (msgs = []) as -> by (destruct Hmsgs as [H|(_ & _ & y & H)]; [exact H | discriminate]). assert (Hn : r' <> r) by (intros ->; destruct Hr' as (k' & e & _ & _ & H); rewrite app_nil_r in H; exact (Hsentne _ H eq_refl)). destruct (He r' (Href r' Hr' Hn)) as [H|(f & e & H1 & H2 & H3)]; [auto|]. right. exists f, e. rewrite elem_of_app. auto.
    + intros rc Hrc r' Hlt Hr'. apply Hrep. apply (He rc Hrc r' Hlt), Href; [exact Hr'|]. assert (Hk : sw_asked x !! rc = Some AskFence) by (apply (td_held x T); unfold held; rewrite Hrc; apply elem_of_app; right; constructor). apply (td_all x T) in Hk as [Hk _]. unfold r. lia.
  - intros Hst r' Hr' r2 k2 Hk2. rewrite (Hrun Hst) in Hr'. apply Hnewh in Hr' as (-> & _). destruct (decide (r2 = r)) as [->|Hn]; [lia|]. apply Hback in Hk2; [|exact Hn]. apply (td_all x T) in Hk2 as [Hk2 _]. unfold r. lia.
Qed.

(** ** The invariant *)

Record world_ok x : Prop := { wo_struct : sw_stage x = Running -> struct_ok (sw_asked x) (sw_worker x); wo_told : told x }.

Lemma gates_of x : told x -> gates_ok (sw_worker x).
Proof. intros T. split; [apply T|]. split; apply T. Qed.

Lemma pend_empty w id : wk_chains w = ∅ -> pend w id = [].
Proof. intros H. unfold pend. rewrite H, lookup_empty. reflexivity. Qed.

(** A step that answers nobody and moves no fence. *)
Lemma quiet_told x w' : told x -> wk_chains w' = wk_chains (sw_worker x) -> same_rest (sw_worker x) w' -> wk_sent w' = wk_sent (sw_worker x) -> (wk_write_error (sw_worker x) <> None -> wk_write_error w' <> None) -> told (sw_set w' x).
Proof.
  intros T Hc (Hf & Hcl & Hcr) Hs Hw. apply (held_told x w' (sw_stage x) []); [exact T | exact Hc | unfold held; rewrite Hf, Hcr; reflexivity | rewrite app_nil_r; exact Hs | intros r Hr; apply not_elem_of_nil in Hr as [] | auto | unfold gates_ok; rewrite Hf, Hcl, Hcr, Hc; apply gates_of; exact T|].
  pose proof (td_error x T) as He. unfold errors_ok in *. cbn [sw_at sw_stage sw_worker sw_asked]. rewrite Hs, Hcr. destruct (sw_stage x) as [|[]]; [|exact He | exact He]. intros r Hr. destruct (He r Hr); auto.
Qed.

(** What is left when only a fence waits. *)
Lemma all_answered x r : told x -> wk_chains (sw_worker x) = ∅ -> held (sw_worker x) = [r] -> forall r' k, sw_asked x !! r' = Some k -> r' < r -> r' ∈ map fst (wk_sent (sw_worker x)).
Proof.
  intros T Hc Hh r' k Hk Hlt. destruct (td_all x T r' k Hk) as [_ [H|[[id H]|H]]]; [exact H | rewrite pend_empty in H by assumption; apply not_elem_of_nil in H as [] | rewrite Hh in H; apply list_elem_of_singleton in H; lia].
Qed.

Lemma reported_below x r r' : told x -> sw_stage x = Running -> held (sw_worker x) = [r] -> reported (sw_asked x) (wk_sent (sw_worker x)) r' -> reported_before (sw_asked x) (wk_sent (sw_worker x)) r' r.
Proof.
  intros T Hs Hh (f & e & H1 & H2 & H3). exists f, e. split; [|auto]. assert (Hr : r ∈ held (sw_worker x)) by (rewrite Hh; constructor). pose proof (td_last x T Hs r Hr f _ H2). destruct (td_held x T r Hr) as [_ Hn]. assert (f <> r) by (intros ->; apply Hn, list_elem_of_fmap; exists (r, Refused e); auto). lia.
Qed.

Lemma refused_snoc asked (sent : list (Z * Outcome (SErr := SErr))) r o r' : refused_mutation asked (sent ++ [(r, o)]) r' -> asked !! r = Some AskFence -> refused_mutation asked sent r'.
Proof.
  intros (k & e & H1 & H2 & H3) Hr. exists k, e. split; [exact H1|]. split; [exact H2|]. apply elem_of_app in H3 as [H3|H3]; [exact H3|]. apply list_elem_of_singleton in H3 as [= -> _]. rewrite Hr in H1. injection H1 as <-. discriminate.
Qed.

Lemma covered_snoc x r : told x -> wk_chains (sw_worker x) = ∅ -> held (sw_worker x) = [r] -> (forall r', r' < r -> refused_mutation (sw_asked x) (wk_sent (sw_worker x)) r' -> reported_before (sw_asked x) (wk_sent (sw_worker x)) r' r) -> covered (sw_asked x) (wk_sent (sw_worker x) ++ [(r, FenceDone)]) r.
Proof.
  intros T Hc Hh Hrep r' k Hk Hlt. split; [rewrite map_app, elem_of_app; left; eapply all_answered; eassumption|]. intros Hr. apply reported_before_mono, Hrep; [exact Hlt|]. eapply refused_snoc; [exact Hr|]. apply (td_held x T). rewrite Hh. constructor.
Qed.

Lemma finish_fence_ok x f (res : option (StoreError (SErr := SErr))) : told x -> sw_stage x = Running -> wk_fence (sw_worker x) = Some f -> wk_chains (sw_worker x) = ∅ -> match fs_reply f with InventoryReply _ => False | _ => True end ->
  exists o w', finish_fence res (sw_worker x) = Ok (o, w') /\ told (exit_on (o, w') x) /\ (o = None -> wk_chains w' = wk_chains (sw_worker x) /\ wk_ready w' = wk_ready (sw_worker x) /\ wk_reads w' = wk_reads (sw_worker x) /\ wk_writes w' = wk_writes (sw_worker x)).
Proof.
  intros T Hs Hf Hc Hrep. set (w := sw_worker x) in *. assert (Hnc : wk_close_reply w = None /\ wk_closing w = false).
  { assert (Hcl : wk_closing w = false) by (destruct (wk_closing w) eqn:E; [destruct (td_closing x T E) as [H _]; fold w in H; congruence | reflexivity]). split; [|exact Hcl]. destruct (wk_close_reply w) eqn:E; [|reflexivity]. assert (H := td_close x T ltac:(fold w; congruence)). fold w in H. congruence. }
  destruct Hnc as [Hcr Hcl]. unfold finish_fence. rewrite Hf. cbn [expect rbind]. destruct (fs_reply f) as [r|r|r] eqn:Er; [|contradiction|].
  - assert (Hheld : held w = [r]) by (unfold held; rewrite Hf, Hcr, Er; reflexivity). assert (Hk : sw_asked x !! r = Some AskFence) by (apply (td_held x T); fold w; rewrite Hheld; constructor).
    cbn [wk_set_fence wk_write_error]. set (o := match res with None => match wk_write_error w with None => FenceDone | Some e => Refused e end | Some e => Refused e end). eexists _, _. split; [reflexivity|]. split; [|repeat split]. cbn [exit_on].
    assert (Ho : o = FenceDone /\ wk_write_error w = None \/ exists e, o = Refused e) by (unfold o; destruct res, (wk_write_error w); eauto).
    pose proof (td_error x T) as He. unfold errors_ok in He. rewrite Hs in He. fold w in He.
    apply (held_told x _ (sw_stage x) [(r, o)]); [exact T | reflexivity | fold w; rewrite Hheld; cbn; unfold held; cbn; rewrite Hcr; reflexivity | reflexivity | | auto | split; [cbn; rewrite Hcl; discriminate|]; split; [cbn; discriminate | cbn; rewrite Hcr; congruence]|].
    + intros r' Hin. apply list_elem_of_singleton in Hin as [= -> Ho']. destruct Ho as [[_ Hw]|[e Ho]]; [|congruence]. cbn. rewrite <- Ho'. apply covered_snoc; try assumption. intros r' _ Hr'. apply reported_below; try assumption. destruct (He r' Hr'); [contradiction | assumption].
    + unfold errors_ok. cbn [sw_at sw_stage]. rewrite Hs. cbn. intros r' Hr'. right. pose proof (refused_snoc _ _ _ _ _ Hr' Hk) as Hr. destruct Ho as [[_ Hw]|[e ->]].
      * destruct (He r' Hr); [contradiction | apply reported_mono; assumption].
      * exists r, e. split; [|split; [exact Hk | apply elem_of_app; right; constructor]]. destruct Hr as (k & e' & H1 & H2 & _). assert (r' <= r) by (eapply (td_last x T Hs); [fold w; rewrite Hheld; constructor | exact H1]). assert (r' <> r) by (intros ->; rewrite Hk in H1; injection H1 as <-; discriminate). lia.
  - eexists _, _. split; [reflexivity|]. split; [|repeat split]. assert (Hgen : forall st, (st = Running -> sw_stage x = Running) -> errors_ok (sw_at (wk_set_close true r (wk_set_fence None w)) st x) -> told (sw_at (wk_set_close true r (wk_set_fence None w)) st x)).
    { intros st Hst He. apply (held_told x _ st []); [exact T | reflexivity | fold w; unfold held; cbn; rewrite Hf, Hcr, Er; cbn; rewrite app_nil_r; reflexivity | cbn; rewrite app_nil_r; reflexivity | intros r' Hin; apply not_elem_of_nil in Hin as [] | exact Hst | split; [cbn; auto|]; split; [cbn; discriminate | cbn; auto] | exact He]. }
    destruct res as [e|]; cbn [exit_on]; apply Hgen; [discriminate | exact Logic.I | auto|]. pose proof (td_error x T) as He. unfold errors_ok in *. cbn [sw_at sw_stage]. rewrite Hs in *. exact He.
Qed.

Lemma no_held x : told x -> wk_fence (sw_worker x) = None -> wk_closing (sw_worker x) = false -> held (sw_worker x) = [] /\ wk_close_reply (sw_worker x) = None.
Proof.
  intros T Hf Hc. assert (H : wk_close_reply (sw_worker x) = None) by (destruct (wk_close_reply (sw_worker x)) eqn:E; [|reflexivity]; rewrite (td_close x T) in Hc by congruence; discriminate). split; [unfold held; rewrite Hf, H; reflexivity | exact H].
Qed.

Lemma fresh_number x k : told x -> forall r k', sw_asked x !! r = Some k' -> <[sw_next x := k]> (sw_asked x) !! r = Some k'.
Proof. intros T r k' Hk. rewrite lookup_insert_ne; [exact Hk|]. intros <-. apply (td_all x T) in Hk as [Hk _]. lia. Qed.

Lemma receive_op x id op r : world_ok x -> sw_stage x = Running -> wk_fence (sw_worker x) = None -> wk_closing (sw_worker x) = false -> r = sw_next x -> replies_of op = [r] -> (forall range lsn ws, op = OpRead range lsn ws -> Forall (fun y => wt_permit y <> None) ws) ->
  exists w', enqueue id op (sw_worker x) = Ok w' /\ world_ok {| sw_worker := w'; sw_stage := sw_stage x; sw_next := sw_next x + 1; sw_asked := <[r := ask op id]> (sw_asked x) |}.
Proof.
  intros [S T] Hs Hf Hcl -> Hrep Hperm. destruct (no_held x T Hf Hcl) as [Hh Hcr]. pose proof (struct_mono _ _ _ (S Hs) (fresh_number x (ask op id) T)) as S'.
  destruct (enqueue_ok _ _ id op S') as (w' & He & S2 & (F1 & F2 & F3) & Hsent & Hwe & _ & _ & Hp & Ho); [split; [destruct op as [range lsn ws| |]; [|exact Logic.I..]; split; [intros ->; discriminate | eapply Hperm; reflexivity] | rewrite Hrep; constructor; [apply lookup_insert_eq | constructor]] | exact Hperm|].
  exists w'. split; [exact He|]. split; [intros _; exact S2|]. apply (received_told x w' (ask op id) (fun id' => if decide (id' = id) then [sw_next x] else []) [] []).
  - exact T.
  - intros id'. case_decide as E; [subst; rewrite Hp, Hrep; reflexivity | rewrite Ho, app_nil_r by assumption; reflexivity].
  - rewrite app_nil_r. unfold held. rewrite F1, F3. reflexivity.
  - rewrite app_nil_r. exact Hsent.
  - exact Hwe.
  - exact F3.
  - intros id'. case_decide as E; [right; split; [reflexivity|]; split; [subst; destruct op; reflexivity | reflexivity] | auto].
  - auto.
  - auto.
  - right. left. exists id. rewrite decide_True by reflexivity. constructor.
  - auto.
  - split; [rewrite F2, Hcl; discriminate|]. split; [rewrite F1, Hf; discriminate | rewrite F3, Hcr; congruence].
Qed.

Lemma receive_ok x (c : Command) : world_ok x -> worker_fits x (WReceive c) -> exists x', worker_step x (WReceive c) = Ok x' /\ world_ok x'.
Proof.
  intros W (Hs & Hf & Hcl & Hn). unfold worker_step. rewrite Hs. cbn [run_step finish_step]. unfold numbered in Hn. destruct c as [id range r permit|id value r|id expected r|reply]; cbn [accept_command asked_of] in *.
  1: destruct (receive_op x id (OpRead range 0 [{| wt_reply := r; wt_permit := Some permit |}]) r W Hs Hf Hcl Hn eq_refl) as (w' & He & W'); [intros ra ls ws [= <- <- <-]; constructor; [discriminate | constructor]|].
  2: destruct (receive_op x id (OpPut value r) r W Hs Hf Hcl Hn eq_refl) as (w' & He & W'); [discriminate|].
  3: destruct (receive_op x id (OpDelete expected r) r W Hs Hf Hcl Hn eq_refl) as (w' & He & W'); [discriminate|].
  1-3: rewrite He; eexists; split; [reflexivity | exact W'].
  destruct W as [S T]. destruct (no_held x T Hf Hcl) as [Hh Hcr]. eexists. split; [reflexivity|]. set (w' := wk_set_fence (Some {| fs_reply := reply; fs_ticket := None |}) (sw_worker x)). assert (G : gates_ok w') by (split; [cbn; rewrite Hcl; discriminate|]; split; [cbn; intros f [= <-]; cbn; congruence | cbn; rewrite Hcr; congruence]).
  unfold note. cbn [asked_of]. destruct (fence_number reply) as [r|] eqn:Er; cbn [option_map] in *.
  - subst r. split; [intros _; eapply struct_view; [exact (struct_mono _ _ _ (S Hs) (fresh_number x AskFence T)) | reflexivity..]|]. apply (received_told x w' AskFence (fun _ => []) [sw_next x] []); [exact T | intros; rewrite app_nil_r; reflexivity | unfold held, w'; cbn; rewrite Hf, Hcr, Er; reflexivity | cbn; rewrite app_nil_r; reflexivity | reflexivity | reflexivity | auto | auto | auto | right; right; constructor | auto | exact G].
  - split; [intros _; eapply struct_view; [exact (S Hs) | reflexivity..]|]. apply (held_told x w' (sw_stage x) []); [exact T | reflexivity | unfold held, w'; cbn; rewrite Hf, Hcr, Er; reflexivity | cbn; rewrite app_nil_r; reflexivity | intros r Hr; apply not_elem_of_nil in Hr as [] | auto | exact G | exact (td_error x T)].
Qed.

Lemma moved_step x w' id msgs : world_ok x -> sw_stage x = Running -> wk_chains (sw_worker x) <> ∅ -> struct_ok (sw_asked x) w' -> moved (sw_worker x) w' id msgs -> errors_kept (sw_asked x) (sw_worker x) w' msgs -> world_ok (sw_set w' x).
Proof. intros [S T] Hs Hne S' Hm He. split; [intros _; exact S'|]. eapply moved_told; [exact T | exact Hne | exact Hm | eapply running_errors; eassumption]. Qed.

Lemma fence_step x f res : world_ok x -> sw_stage x = Running -> wk_fence (sw_worker x) = Some f -> wk_chains (sw_worker x) = ∅ -> match fs_reply f with InventoryReply _ => False | _ => True end -> exists x', (let? q := finish_fence res (sw_worker x) in Ok (E := unit) (exit_on q x)) = Ok x' /\ world_ok x'.
Proof.
  intros [S T] Hs Hf Hc Hr. destruct (finish_fence_ok x f res T Hs Hf Hc Hr) as (o & w' & -> & T' & Hsame). cbn [rbind]. eexists. split; [reflexivity|]. split; [|exact T']. destruct o as [e|]; cbn [exit_on]; [discriminate|]. intros _. destruct (Hsame eq_refl) as (H1 & H2 & H3 & H4). eapply struct_view; [exact (S Hs) | assumption..].
Qed.

Lemma check_fence_ticket x t : told x -> check_fence t (sw_worker x) = true -> exists f r, wk_fence (sw_worker x) = Some f /\ fs_reply f = FlushReply r /\ wk_chains (sw_worker x) = ∅.
Proof.
  intros T Hc. unfold check_fence in Hc. destruct (wk_fence (sw_worker x)) as [f|] eqn:Ef; [|discriminate]. apply bool_decide_eq_true in Hc. destruct (td_ticket x T f Ef ltac:(congruence)) as [H1 [r H2]]. eauto.
Qed.

Lemma completion_step x (c : StoreCompletion (SErr := SErr)) : world_ok x -> worker_fits x (WCompletion c) -> exists x', worker_step x (WCompletion c) = Ok x' /\ world_ok x'.
Proof.
  intros W (Hs & Hfit). pose proof W as [S T]. unfold worker_step. rewrite Hs. cbn [run_step finish_step]. assert (Hchunk : for_chunk (sw_worker x) c -> exists x', (let? q := on_completion c (sw_worker x) in Ok (E := unit) (exit_on q x)) = Ok x' /\ world_ok x').
  { intros Hfor. destruct (completion_ok _ _ c (S Hs) Hfor) as (w' & id & msgs & -> & S' & Hm & He & Hne). cbn [rbind exit_on]. eexists. split; [reflexivity | eapply moved_step; eassumption]. }
  destruct c as [t r|t r|t r|t e]; [apply Hchunk; exact Hfit | apply Hchunk; exact Hfit | |].
  - cbn [on_completion]. rewrite Hfit. destruct (check_fence_ticket x t T Hfit) as (f & r' & Hf & Hr & Hc). apply (fence_step x f); try assumption. rewrite Hr. exact Logic.I.
  - destruct (decide (is_Some (wk_reads (sw_worker x) !! t) \/ is_Some (wk_writes (sw_worker x) !! t))) as [Hd|Hd]; [apply Hchunk; exact Hd|]. destruct Hfit as [H|[H|Hfit]]; [destruct Hd; auto | destruct Hd; auto|].
    assert (Hr : wk_reads (sw_worker x) !! t = None) by (destruct (wk_reads (sw_worker x) !! t) eqn:E; [destruct Hd; left; eauto | reflexivity]). assert (Hw : wk_writes (sw_worker x) !! t = None) by (destruct (wk_writes (sw_worker x) !! t) eqn:E; [destruct Hd; right; eauto | reflexivity]).
    destruct (check_fence_ticket x t T Hfit) as (f & r' & Hf & Hrp & Hc). cbn [on_completion]. change (wk_reads (keep_error (StoreFailed e) (sw_worker x))) with (wk_reads (sw_worker x)). change (wk_writes (keep_error (StoreFailed e) (sw_worker x))) with (wk_writes (sw_worker x)). rewrite Hr, Hw. change (check_fence t (keep_error (StoreFailed e) (sw_worker x))) with (check_fence t (sw_worker x)). rewrite Hfit.
    assert (W' : world_ok (sw_set (keep_error (StoreFailed e) (sw_worker x)) x)) by (split; [intros _; eapply struct_view; [exact (S Hs) | reflexivity..] | apply quiet_told; [exact T | reflexivity | repeat split | reflexivity | cbn; discriminate]]).
    destruct (fence_step _ f (Some (StoreFailed e)) W' Hs Hf Hc) as (x' & He & Hx'); [rewrite Hrp; exact Logic.I|]. exists x'. split; [|exact Hx']. rewrite <- He. cbn [sw_worker sw_set]. destruct (finish_fence (Some (StoreFailed e)) (keep_error (StoreFailed e) (sw_worker x))) as [[[e'|] w']| |]; reflexivity.
Qed.

Lemma no_messages (r : Z) (o : Outcome (SErr := SErr)) (P : Prop) : (r, o) ∈ [] -> P.
Proof. intros H. apply not_elem_of_nil in H as []. Qed.

Lemma leave_told x e : told x -> told (sw_leave (Some e) x).
Proof. intros T. apply (held_told x (sw_worker x) (Leaving (Some e)) []); [exact T | reflexivity | reflexivity | rewrite app_nil_r; reflexivity | intros r; apply no_messages | discriminate | apply gates_of; exact T | exact Logic.I]. Qed.

Lemma advance_step x (a : FenceAnswer (SErr := SErr)) : world_ok x -> worker_fits x (WFence a) -> exists x', worker_step x (WFence a) = Ok x' /\ world_ok x'.
Proof.
  intros W (Hs & Hf & Hc & _). pose proof W as [S T]. unfold worker_step. rewrite Hs. cbn [run_step finish_step]. unfold advance_fence. destruct (wk_fence (sw_worker x)) as [f|] eqn:Ef; [|contradiction]. cbn [expect rbind].
  assert (Hcl : wk_closing (sw_worker x) = false) by (destruct (wk_closing (sw_worker x)) eqn:E; [destruct (td_closing x T E) as [H _]; congruence | reflexivity]). assert (Hcr : wk_close_reply (sw_worker x) = None) by (destruct (wk_close_reply (sw_worker x)) eqn:E; [rewrite (td_close x T) in Hcl by congruence; discriminate | reflexivity]).
  destruct (fs_ticket f) as [t|]; [eexists; split; [reflexivity|]; destruct x; exact W|]. destruct (fs_reply f) as [r|r|r] eqn:Er.
  - destruct (fa_flush a) as [t| |e]; [| |apply (fence_step x f); try assumption; rewrite Er; exact Logic.I]; (eexists; split; [reflexivity|]); [|destruct x; exact W]. split; [intros _; eapply struct_view; [exact (S Hs) | reflexivity..]|].
    apply (held_told x _ (sw_stage x) []); [exact T | reflexivity | unfold held; cbn; rewrite Ef, Er; reflexivity | cbn; rewrite app_nil_r; reflexivity | intros r'; apply no_messages | auto | split; [cbn; rewrite Hcl; discriminate|]; split; [cbn; intros f' [= <-] _; eauto | cbn; rewrite Hcr; congruence] | exact (td_error x T)].
  - eexists. split; [reflexivity|]. split; [intros _; eapply struct_view; [exact (S Hs) | reflexivity..]|]. apply (held_told x _ (sw_stage x) [(r, Inventoried (fa_inventory a))]); [exact T | reflexivity | unfold held; cbn; rewrite Ef, Er, Hcr; reflexivity | reflexivity | intros r' Hin; apply list_elem_of_singleton in Hin; discriminate | auto | split; [cbn; rewrite Hcl; discriminate|]; split; [cbn; discriminate | cbn; rewrite Hcr; congruence]|].
    pose proof (td_error x T) as He. unfold errors_ok in *. cbn [sw_at sw_stage]. rewrite Hs in *. cbn. intros r' Hr'. apply refused_snoc in Hr'; [|apply (td_held x T); unfold held; rewrite Ef, Er; constructor]. destruct (He r' Hr') as [H|H]; [auto | right; apply reported_mono; exact H].
  - apply (fence_step x f); try assumption. rewrite Er. exact Logic.I.
Qed.

Lemma closed_step x : world_ok x -> worker_fits x WClosed -> exists x', worker_step x WClosed = Ok x' /\ world_ok x'.
Proof.
  intros [S T] (Hs & Hcl & _). unfold worker_step. rewrite Hs. cbn [run_step finish_step]. eexists. split; [reflexivity|]. split; [discriminate|]. destruct (td_closing x T Hcl) as [Hf Hc].
  apply (held_told x (wk_set_error None (sw_worker x)) (Leaving (wk_write_error (sw_worker x))) []); [exact T | reflexivity | reflexivity | cbn; rewrite app_nil_r; reflexivity | intros r; apply no_messages | discriminate | exact (gates_of x T)|].
  pose proof (td_error x T) as He. unfold errors_ok in *. cbn [sw_at sw_stage]. rewrite Hs in He. destruct (wk_write_error (sw_worker x)) as [e|] eqn:Ew; [exact Logic.I|]. cbn. intros rc Hrc r _ Hr. apply reported_below; [exact T | exact Hs | unfold held; rewrite Hf, Hrc; reflexivity|]. destruct (He r Hr); [contradiction | assumption].
Qed.

Lemma fail_all_fst (l : list Operation) (e : StoreError (SErr := SErr)) : map fst (concat (map (fun op => op_fail op e) l)) = concat (map replies_of l).
Proof. induction l as [|op l IH]; [reflexivity|]. cbn. rewrite map_app, op_fail_fst, IH. reflexivity. Qed.

Lemma abort_step x id : world_ok x -> worker_fits x (WAbort id) -> exists x', worker_step x (WAbort id) = Ok x' /\ world_ok x'.
Proof.
  intros [S T] ((res & Hs) & (c & Hc)). unfold worker_step. rewrite Hs. cbn [run_step finish_step]. rewrite Hc. cbn [expect rbind]. eexists. split; [reflexivity|]. split; [cbn; rewrite Hs; discriminate|]. 
  assert (Hops : match ch_active c with Some op => op :: ch_pending c | None => ch_pending c end = ops c) by (unfold ops; destruct (ch_active c); reflexivity). rewrite Hops. assert (Hne : wk_chains (sw_worker x) <> ∅) by (intros E; rewrite E, lookup_empty in Hc; discriminate).
  eapply (moved_told x _ id); [exact T | exact Hne | split; [repeat split|]; split; [reflexivity|]; split|].
  - exists (chain_replies c), [], []. split; [unfold pend; rewrite Hc, app_nil_r; reflexivity|]. split; [unfold pend; cbn; rewrite lookup_delete_eq; reflexivity|]. apply split_all, fail_all_fst.
  - intros id' Hn. unfold pend. cbn. rewrite lookup_delete_ne by congruence. reflexivity.
  - unfold errors_ok. cbn. rewrite Hs. destruct res as [e|]; [exact Logic.I|]. intros rc Hrc. destruct (td_closing x T (td_close x T ltac:(congruence))) as [_ H]. contradiction.
Qed.

Lemma abort_fence_step x : world_ok x -> worker_fits x WAbortFence -> exists x', worker_step x WAbortFence = Ok x' /\ world_ok x'.
Proof.
  intros [S T] ((res & Hs) & (f & Hf) & Hc). unfold worker_step. rewrite Hs. cbn [run_step finish_step]. rewrite Hf. cbn [expect rbind]. eexists. split; [reflexivity|]. split; [cbn; rewrite Hs; discriminate|].
  assert (Hcl : wk_closing (sw_worker x) = false) by (destruct (wk_closing (sw_worker x)) eqn:E; [destruct (td_closing x T E) as [H _]; congruence | reflexivity]). assert (Hcr : wk_close_reply (sw_worker x) = None) by (destruct (wk_close_reply (sw_worker x)) eqn:E; [rewrite (td_close x T) in Hcl by congruence; discriminate | reflexivity]).
  apply (held_told x _ (sw_stage x) (fence_fail (fs_reply f) (default StoreClosed res))); [exact T | reflexivity | unfold held, fence_fail; cbn; rewrite Hf, Hcr; destruct (fence_number (fs_reply f)); reflexivity | reflexivity | | auto | split; [cbn; rewrite Hcl; discriminate|]; split; [cbn; discriminate | cbn; rewrite Hcr; congruence]|].
  - intros r Hin. unfold fence_fail in Hin. destruct (fence_number (fs_reply f)); [apply list_elem_of_singleton in Hin; discriminate | apply not_elem_of_nil in Hin as []].
  - unfold errors_ok. cbn. rewrite Hs. destruct res; [exact Logic.I|]. rewrite Hcr. discriminate.
Qed.

Lemma abort_command_step x (c : Command) : world_ok x -> worker_fits x (WAbortCommand c) -> exists x', worker_step x (WAbortCommand c) = Ok x' /\ world_ok x'.
Proof.
  intros [S T] ((res & Hs) & Hn & Hc & Hf). unfold worker_step. rewrite Hs. cbn [run_step finish_step]. eexists. split; [reflexivity|]. set (e := default StoreClosed res). unfold numbered in Hn. assert (Hpe : forall msgs id, pend (push msgs (sw_worker x)) id = []) by (intros; apply pend_empty; exact Hc).
  assert (Hcmd : command_fail c e = match asked_of c with Some (r, _) => [(r, Refused e)] | None => [] end) by (destruct c as [| | |reply]; try reflexivity; cbn; unfold fence_fail; destruct (fence_number reply); reflexivity).
  rewrite Hcmd. unfold note. destruct (asked_of c) as [[r k]|].
  - subst r. split; [cbn; rewrite Hs; discriminate|]. apply (received_told x _ k (fun _ => []) [] [(sw_next x, Refused e)]); [exact T | intros; rewrite app_nil_r; reflexivity | rewrite app_nil_r; reflexivity | reflexivity | reflexivity | reflexivity | auto | auto | right; split; [eauto|]; split; [apply Hpe | eauto] | left; constructor | rewrite Hs; discriminate | exact (gates_of x T)].
  - split; [cbn; rewrite Hs; discriminate|]. apply quiet_told; [exact T | reflexivity | repeat split | cbn; rewrite app_nil_r; reflexivity | auto].
Qed.

Lemma reply_close_step x : world_ok x -> worker_fits x WReplyClose -> exists x', worker_step x WReplyClose = Ok x' /\ world_ok x'.
Proof.
  intros [S T] ((res & Hs) & (rc & Hrc) & Hc & Hf). unfold worker_step. rewrite Hs. cbn [run_step finish_step]. rewrite Hrc. cbn [expect rbind]. eexists. split; [reflexivity|]. split; [cbn; rewrite Hs; discriminate|]. assert (Hheld : held (sw_worker x) = [rc]) by (unfold held; rewrite Hf, Hrc; reflexivity).
  apply (held_told x _ (sw_stage x) [(rc, match res with None => FenceDone | Some e => Refused e end)]); [exact T | reflexivity | rewrite Hheld; unfold held; cbn; rewrite Hf; reflexivity | reflexivity | | auto | split; [cbn; auto|]; split; [cbn; rewrite Hf; discriminate | cbn; congruence]|].
  - intros r Hin. apply list_elem_of_singleton in Hin as [= -> Ho]. destruct res as [e|]; [discriminate|]. cbn. apply covered_snoc; [exact T | exact Hc | exact Hheld|]. intros r' Hlt Hr'. pose proof (td_error x T) as He. unfold errors_ok in He. rewrite Hs in He. exact (He rc Hrc r' Hlt Hr').
  - unfold errors_ok. cbn. rewrite Hs. destruct res; [exact Logic.I | discriminate].
Qed.

Lemma worker_step_ok x (e : WorkerEvent (SErr := SErr)) : world_ok x -> worker_fits x e -> exists x', worker_step x e = Ok x' /\ world_ok x'.
Proof.
  intros W Hfit. destruct e as [c| |a|c|e|a| |id| |c|]; [apply receive_ok; assumption | | | apply completion_step; assumption | | apply advance_step; assumption | apply closed_step; assumption | apply abort_step; assumption | apply abort_fence_step; assumption | apply abort_command_step; assumption | apply reply_close_step; assumption]; pose proof W as [S T].
  - destruct Hfit as (Hs & Hf & Hcl). destruct (no_held x T Hf Hcl) as [Hh Hcr]. unfold worker_step. rewrite Hs. cbn [run_step finish_step]. eexists. split; [reflexivity|]. split; [intros _; eapply struct_view; [exact (S Hs) | reflexivity..]|].
    apply (held_told x (disconnected (sw_worker x)) (sw_stage x) []); [exact T | reflexivity | unfold held; cbn; rewrite Hf, Hcr; reflexivity | cbn; rewrite app_nil_r; reflexivity | intros r; apply no_messages | auto | split; [cbn; rewrite Hcl; discriminate|]; split; [cbn; intros f [= <-]; cbn; congruence | cbn; rewrite Hcr; congruence] | exact (td_error x T)].
  - destruct Hfit as (Hs & Hr & Hfresh). unfold worker_step. rewrite Hs. cbn [run_step finish_step]. destruct (start_next_ok _ _ a (S Hs) Hr Hfresh) as (w' & id & msgs & -> & S' & Hm & He). cbn [rbind]. eexists. split; [reflexivity|]. eapply moved_step; try eassumption. intros E. destruct (wk_ready (sw_worker x)) as [|id0 tl] eqn:Er; [contradiction|]. destruct (proj1 (so_ready _ _ (S Hs) id0)) as (d & Hd & _); [rewrite Er; constructor|]. rewrite E, lookup_empty in Hd. discriminate.
  - cbn in Hfit. unfold worker_step. rewrite Hfit. cbn [run_step]. eexists. split; [reflexivity|]. split; [discriminate | apply leave_told; exact T].
Qed.

Lemma start_world_ok : world_ok store_start.
Proof.
  assert (Hp : forall id, pend (sw_worker (SErr := SErr) store_start) id = []) by (intros id; apply pend_empty; reflexivity). assert (Hn : forall r k, ~ (∅ : gmap Z Asked) !! r = Some k) by (intros r k H; rewrite lookup_empty in H; discriminate). split.
  - intros _. constructor; cbn; try (intros; rewrite lookup_empty in *; discriminate); [constructor|]. intros id. split; [intros H; apply not_elem_of_nil in H as [] | intros (c & Hc & _); rewrite lookup_empty in Hc; discriminate].
  - constructor; try (intros id; rewrite Hp); try (intros; exfalso; eapply Hn; eassumption); try (constructor; fail); cbn; try discriminate; try congruence; try (intros ? H; apply not_elem_of_nil in H as []).
    + intros m r' H. apply not_elem_of_nil in H as [].
    + intros r (k & e & Hk & _). destruct (Hn _ _ Hk).
Qed.

Lemma worker_run_ok x es x' : world_ok x -> worker_run max_class x es x' -> world_ok x'.
Proof. intros W R. induction R as [|x e es x1 x2 Hfit Hs R IH]; [exact W|]. destruct (worker_step_ok x e W Hfit) as (y & Hy & W'). assert (x1 = y) as -> by congruence. exact (IH W'). Qed.

(** ** The properties *)

(** The caller of command [r] has no answer yet. *)
Definition waits w r : Prop := (exists id, r ∈ pend w id) \/ r ∈ held w.

(** C14: Whatever commands came, whatever the session, the budget and the callers answered and whatever error ended the loop, every further step of a disk's worker that its channel and its session allow returns: no queued chain, leader credit, ticket or fence is ever missing. *)
Theorem worker_never_panics (es : list (WorkerEvent (SErr := SErr))) x e : worker_run max_class store_start es x -> worker_fits x e -> exists x', worker_step x e = Ok x'.
Proof. intros R Hfit. destruct (worker_step_ok x e (worker_run_ok _ _ _ start_world_ok R) Hfit) as (x' & H & _). eauto. Qed.

(** C15: A command is answered at most once and never forgotten: it has its answer or still waits, never both; while the loop runs whoever waits for a chunk waits for a request at the session or for a chunk in the ready queue; and when the worker has left nobody waits, so that every command has its answer. *)
Theorem commands_answered_once (es : list (WorkerEvent (SErr := SErr))) x : worker_run max_class store_start es x ->
  NoDup (map fst (wk_sent (sw_worker x))) /\
  (forall r k, sw_asked x !! r = Some k -> (r ∈ map fst (wk_sent (sw_worker x)) \/ waits (sw_worker x) r) /\ ~ (r ∈ map fst (wk_sent (sw_worker x)) /\ waits (sw_worker x) r)) /\
  (sw_stage x = Running -> forall r id, r ∈ pend (sw_worker x) id -> id ∈ wk_ready (sw_worker x) \/ (exists t, wk_reads (sw_worker x) !! t = Some id) \/ exists t lsn, wk_writes (sw_worker x) !! t = Some (id, lsn)) /\
  (wk_chains (sw_worker x) = ∅ -> wk_fence (sw_worker x) = None -> wk_close_reply (sw_worker x) = None -> forall r k, sw_asked x !! r = Some k -> exists o, (r, o) ∈ wk_sent (sw_worker x)).
Proof.
  intros R. destruct (worker_run_ok _ _ _ start_world_ok R) as [S T]. split; [apply T|]. split; [|split].
  - intros r k Hk. split; [destruct (td_all x T r k Hk) as [_ [H|[H|H]]]; unfold waits; auto|]. intros [H1 [[id H2]|H2]]; [destruct (td_wait x T id r H2) | destruct (td_held x T r H2)]; contradiction.
  - intros Hs r id Hr. unfold pend in Hr. destruct (wk_chains (sw_worker x) !! id) as [c|] eqn:Hc; [|apply not_elem_of_nil in Hr as []]. destruct (ch_active c) as [op|] eqn:Ha; [right; eapply (so_busy _ _ (S Hs)); eassumption | left; apply (so_ready _ _ (S Hs)); eauto].
  - intros Hc Hf Hcr r k Hk. destruct (td_all x T r k Hk) as [_ [H|[[id H]|H]]]; [|rewrite pend_empty in H by assumption; apply not_elem_of_nil in H as [] | unfold held in H; rewrite Hf, Hcr in H; apply not_elem_of_nil in H as []]. apply list_elem_of_fmap in H as ([r' o] & -> & H). eauto.
Qed.

(** C17: When a flush or the closing is answered with success, every command before it has its answer, and each mutation among them that was refused was reported by a fence that was refused in between. *)
Theorem store_fence_covers (es : list (WorkerEvent (SErr := SErr))) x r : worker_run max_class store_start es x -> sw_asked x !! r = Some AskFence -> (r, FenceDone) ∈ wk_sent (sw_worker x) -> covered (sw_asked x) (wk_sent (sw_worker x)) r.
Proof. intros R. apply (worker_run_ok _ _ _ start_world_ok R). Qed.
End Proofs.

(** ** A run: two reads that share a request, a write and a flush *)

Definition store_chunk : ChunkId := from_u128 7.
Definition store_answer (ticket : Z) : StartAnswer (SErr := unit) := {| sa_stat := Some 4; sa_grow := true; sa_submit := Take _ (ticket, 5); sa_gone := [] |}.
Definition store_demo : list (WorkerEvent (SErr := unit)) :=
  [WReceive (CmdRead store_chunk None 0 0); WReceive (CmdRead store_chunk None 1 0); WReceive (CmdPut store_chunk [Byte.x2a] 2); WReceive (CmdFence (FlushReply 3));
   WStart (store_answer 7); WCompletion (DoneRead 7 (Ok ([Byte.x01], 512))); WStart (store_answer 8); WCompletion (DoneWrite 8 None);
   WFence {| fa_inventory := []; fa_flush := Take _ 9; fa_seal := None |}; WCompletion (DoneFlush 9 None)].
Definition store_next (x : StoreWorld (SErr := unit)) (e : WorkerEvent (SErr := unit)) : StoreWorld := match worker_step 4096 x e with Ok x => x | _ => x end.
Definition store_end : StoreWorld := fold_left store_next store_demo store_start.

Lemma store_run_next x e es x' : worker_fits 4096 x e -> (match worker_step 4096 x e with Ok _ => true | _ => false end) = true -> worker_run 4096 (store_next x e) es x' -> worker_run 4096 x (e :: es) x'.
Proof. intros Hf Hok R. destruct (worker_step 4096 x e) as [y| |] eqn:E; try discriminate. eapply worker_run_cons; [exact Hf | exact E|]. unfold store_next in R. rewrite E in R. exact R. Qed.

Lemma store_run : worker_run 4096 store_start store_demo store_end.
Proof. unfold store_end, store_demo. cbn [fold_left]. repeat (apply store_run_next; [vm_compute; repeat split; first [discriminate | eexists; reflexivity] | vm_compute; reflexivity|]). apply worker_run_nil. Qed.

Lemma worker_never_panics_witness : exists x', worker_step 4096 store_end (WReceive (CmdFence (CloseReply (Some 4)))) = Ok x'.
Proof. apply (worker_never_panics 4096 store_demo store_end (WReceive (CmdFence (CloseReply (Some 4)))) store_run). vm_compute. repeat split. Defined.

Lemma commands_answered_once_witness : exists o, (2, o) ∈ wk_sent (sw_worker store_end).
Proof. destruct (commands_answered_once 4096 store_demo store_end store_run) as (_ & _ & _ & H). apply (H ltac:(vm_compute; reflexivity) ltac:(vm_compute; reflexivity) ltac:(vm_compute; reflexivity) 2 (AskPut store_chunk)). vm_compute. reflexivity. Defined.

Lemma store_fence_covers_witness : covered (sw_asked store_end) (wk_sent (sw_worker store_end)) 3.
Proof. apply (store_fence_covers 4096 store_demo store_end 3 store_run); [vm_compute; reflexivity|]. vm_compute. repeat constructor. Defined.
