(* ===== verification/StoreDelivery.v ===== *)
(** * Delivery of the store's answers (moat-cache-store/src/delivery.rs)

    A worker collects the sends of a round and hands them over in one batch to a
    task on the application's executor; when the executor drops the task, the
    thread that drops it, and then the worker, run what is left. The worker and
    the task are interleaved at the lock of the queue, at the waker and between
    two actions. An action is its number; without an executor the worker runs it
    at once. The executor may poll the task whenever it likes, and drops it at
    any time it is not polling it. The last part joins the machine to the worker
    of StoreWorker, whose answers are the actions, and says in which order the
    callers are told. *)

From stdpp Require Import gmap list sorting.
From S2P Require Import Prelude ChunkId Catalog StoreWorker StoreWorkerProofs.

(** What futures_util::task::AtomicWaker promises: a registered waker is woken. *)
Class AtomicWaker (cell : Type) := { waker_new : cell; waker_register : cell -> cell; waker_wake : cell -> bool * cell; waker_take : cell -> cell }.
Class AtomicWakerLaws (cell : Type) `{AtomicWaker cell} := { wake_registered : forall c, fst (waker_wake (waker_register c)) = true }.

(** ** State *)

Record DeliveryQueue := { dq_batches : list (list Z); dq_producer_closed : bool; dq_driver_alive : bool; dq_draining : bool }.

(** Where the worker is: between calls, about to wake the task, running what
    [drain_fallback] took; [closing] inside [drop]. [PClose] is about to close
    the queue, [PCloseWake] has done so. *)
Inductive Producer := PIdle | PWake (closing : bool) | PDrain (closing : bool) (batch : list Z) | PClose | PCloseWake | PGone.
(** Where the task is: waiting to be polled, polled and registered, running a
    batch, finished, dropped and about to release the waker, draining, gone. *)
Inductive DriverPhase := DIdle | DRegistered | DRun (batch : list Z) | DReady | DTake (drain : bool) | DDrain (batch : list Z) | DGone.

Section Delivery.
Context {cell : Type} `{AtomicWaker cell}.

(** [dl_scheduled]: the executor has been told to poll the task. [dl_ran]: the
    actions that ran, in order; [dl_pushed]: those handed to [push]. *)
Record Delivery := {
  dl_shared : option DeliveryQueue;
  dl_pending : list Z;
  dl_wake : cell;
  dl_scheduled : bool;
  dl_producer : Producer;
  dl_driver : DriverPhase;
  dl_ran : list Z;
  dl_pushed : list Z
}.
Implicit Types (s : Delivery) (q : DeliveryQueue).

Definition dl_set_queue q s : Delivery := {| dl_shared := Some q; dl_pending := dl_pending s; dl_wake := dl_wake s; dl_scheduled := dl_scheduled s; dl_producer := dl_producer s; dl_driver := dl_driver s; dl_ran := dl_ran s; dl_pushed := dl_pushed s |}.
Definition dl_set_pending v s : Delivery := {| dl_shared := dl_shared s; dl_pending := v; dl_wake := dl_wake s; dl_scheduled := dl_scheduled s; dl_producer := dl_producer s; dl_driver := dl_driver s; dl_ran := dl_ran s; dl_pushed := dl_pushed s |}.
Definition dl_set_wake c b s : Delivery := {| dl_shared := dl_shared s; dl_pending := dl_pending s; dl_wake := c; dl_scheduled := b; dl_producer := dl_producer s; dl_driver := dl_driver s; dl_ran := dl_ran s; dl_pushed := dl_pushed s |}.
Definition dl_set_producer p s : Delivery := {| dl_shared := dl_shared s; dl_pending := dl_pending s; dl_wake := dl_wake s; dl_scheduled := dl_scheduled s; dl_producer := p; dl_driver := dl_driver s; dl_ran := dl_ran s; dl_pushed := dl_pushed s |}.
Definition dl_set_driver d s : Delivery := {| dl_shared := dl_shared s; dl_pending := dl_pending s; dl_wake := dl_wake s; dl_scheduled := dl_scheduled s; dl_producer := dl_producer s; dl_driver := d; dl_ran := dl_ran s; dl_pushed := dl_pushed s |}.
Definition run_action (a : Z) s : Delivery := {| dl_shared := dl_shared s; dl_pending := dl_pending s; dl_wake := dl_wake s; dl_scheduled := dl_scheduled s; dl_producer := dl_producer s; dl_driver := dl_driver s; dl_ran := dl_ran s ++ [a]; dl_pushed := dl_pushed s |}.
Definition note_pushed (a : Z) s : Delivery := {| dl_shared := dl_shared s; dl_pending := dl_pending s; dl_wake := dl_wake s; dl_scheduled := dl_scheduled s; dl_producer := dl_producer s; dl_driver := dl_driver s; dl_ran := dl_ran s; dl_pushed := dl_pushed s ++ [a] |}.

Definition set_batches (v : list (list Z)) q : DeliveryQueue := {| dq_batches := v; dq_producer_closed := dq_producer_closed q; dq_driver_alive := dq_driver_alive q; dq_draining := dq_draining q |}.
Definition set_draining (v : bool) q : DeliveryQueue := {| dq_batches := dq_batches q; dq_producer_closed := dq_producer_closed q; dq_driver_alive := dq_driver_alive q; dq_draining := v |}.

(** [Delivery::new]; the executor schedules the task it is given. *)
Definition Delivery_new (executor : bool) : Delivery :=
  {| dl_shared := if executor then Some {| dq_batches := []; dq_producer_closed := false; dq_driver_alive := true; dq_draining := false |} else None;
     dl_pending := []; dl_wake := waker_new; dl_scheduled := executor; dl_producer := PIdle; dl_driver := if executor then DIdle else DGone; dl_ran := []; dl_pushed := [] |}.

(** ** The worker *)

Definition delivery_push (a : Z) s : Delivery :=
  let s := note_pushed a s in
  match dl_shared s with Some _ => dl_set_pending (dl_pending s ++ [a]) s | None => run_action a s end.

(** [wake.wake()]. *)
Definition wake s : Delivery := let '(woken, c) := waker_wake (dl_wake s) in dl_set_wake c (dl_scheduled s || woken) s.

(** The turn of [drain_fallback] inside the lock. *)
Definition take_batch q : option (list Z) * DeliveryQueue :=
  match dq_batches q with
  | batch :: rest => (Some batch, set_batches rest q)
  | [] => (None, set_draining false q)
  end.

(** What comes after [flush]: its caller, or the rest of [drop]. *)
Definition flushed (closing : bool) s : Delivery := dl_set_producer (if closing then match dl_shared s with Some _ => PClose | None => PGone end else PIdle) s.

(** [flush], up to the end of its critical section. *)
Definition delivery_flush (closing : bool) s : steps Delivery :=
  match dl_pending s with
  | [] => Ok (flushed closing s)
  | _ =>
      let? q := expect (dl_shared s) in
      let q := set_batches (dq_batches q ++ [dl_pending s]) q in
      let fallback := negb (dq_driver_alive q) && negb (dq_draining q) in
      let q := if fallback then set_draining true q else q in
      let s := dl_set_pending [] (dl_set_queue q s) in
      Ok (dl_set_producer (if fallback then PDrain closing [] else PWake closing) s)
  end.

(** The next step inside [flush] and [drop]. *)
Definition producer_step s : steps Delivery :=
  match dl_producer s with
  | PWake closing => Ok (flushed closing (wake s))
  | PDrain closing (a :: batch) => Ok (dl_set_producer (PDrain closing batch) (run_action a s))
  | PDrain closing [] =>
      let? q := expect (dl_shared s) in
      let (batch, q) := take_batch q in
      let s := dl_set_queue q s in
      Ok (match batch with Some batch => dl_set_producer (PDrain closing batch) s | None => flushed closing s end)
  | PClose =>
      let? q := expect (dl_shared s) in
      Ok (dl_set_producer PCloseWake (dl_set_queue {| dq_batches := dq_batches q; dq_producer_closed := true; dq_driver_alive := dq_driver_alive q; dq_draining := dq_draining q |} s))
  | PCloseWake => Ok (dl_set_producer PGone (wake s))
  | _ => Panic
  end.

(** ** The task *)

(** [poll]: the registration. *)
Definition driver_poll s : Delivery := dl_set_driver DRegistered (dl_set_wake (waker_register (dl_wake s)) false s).

(** The next step of [poll] and of [drop]. *)
Definition driver_step s : steps Delivery :=
  match dl_driver s with
  | DRegistered =>
      let? q := expect (dl_shared s) in
      Ok (match dq_batches q with
          | batch :: rest => dl_set_driver (DRun batch) (dl_set_queue (set_batches rest q) s)
          | [] => dl_set_driver (if dq_producer_closed q then DReady else DIdle) s
          end)
  | DRun (a :: batch) => Ok (dl_set_driver (DRun batch) (run_action a s))
  | DRun [] => Ok (dl_set_driver DIdle (dl_set_wake (dl_wake s) true s))
  | DTake drain => Ok (dl_set_driver (if drain then DDrain [] else DGone) (dl_set_wake (waker_take (dl_wake s)) (dl_scheduled s) s))
  | DDrain (a :: batch) => Ok (dl_set_driver (DDrain batch) (run_action a s))
  | DDrain [] =>
      let? q := expect (dl_shared s) in
      let (batch, q) := take_batch q in
      Ok (dl_set_driver (match batch with Some batch => DDrain batch | None => DGone end) (dl_set_queue q s))
  | _ => Panic
  end.

(** [Driver::drop], up to the end of its critical section. *)
Definition driver_drop s : steps Delivery :=
  let? q := expect (dl_shared s) in
  Ok (dl_set_driver (DTake (negb (dq_draining q))) (dl_set_queue {| dq_batches := dq_batches q; dq_producer_closed := dq_producer_closed q; dq_driver_alive := false; dq_draining := true |} s)).

(** ** The machine *)

Inductive DeliveryEvent := EvPush (a : Z) | EvFlush | EvDrop | EvProducer | EvPoll | EvDriver | EvDriverDrop.

Definition delivery_step s (e : DeliveryEvent) : steps Delivery :=
  match e with
  | EvPush a => Ok (delivery_push a s)
  | EvFlush => delivery_flush false s
  | EvDrop => delivery_flush true s
  | EvProducer => producer_step s
  | EvPoll => Ok (driver_poll s)
  | EvDriver => driver_step s
  | EvDriverDrop => driver_drop s
  end.

Definition delivery_fits s (e : DeliveryEvent) : Prop :=
  match e with
  | EvPush _ | EvFlush | EvDrop => dl_producer s = PIdle
  | EvProducer => match dl_producer s with PIdle | PGone => False | _ => True end
  | EvPoll => dl_driver s = DIdle
  | EvDriver => match dl_driver s with DRegistered | DRun _ | DTake _ | DDrain _ => True | _ => False end
  | EvDriverDrop => dl_driver s = DIdle \/ dl_driver s = DReady
  end.

Inductive delivery_run : Delivery -> list DeliveryEvent -> Delivery -> Prop :=
| delivery_run_nil s : delivery_run s [] s
| delivery_run_cons s e es s' s'' : delivery_fits s e -> delivery_step s e = Ok s' -> delivery_run s' es s'' -> delivery_run s (e :: es) s''.

(** ** The invariant *)

(** The actions somebody has taken and not run. *)
Definition in_hand s : list Z :=
  match dl_producer s with PDrain _ batch => batch | _ => [] end ++ match dl_driver s with DRun batch | DDrain batch => batch | _ => [] end.
Definition queued s : list Z := match dl_shared s with Some q => concat (dq_batches q) | None => [] end.
Definition driver_out (d : DriverPhase) : bool := match d with DTake _ | DDrain _ | DGone => true | _ => false end.
Definition driver_drains (d : DriverPhase) : bool := match d with DTake b => b | DDrain _ => true | _ => false end.
Definition producer_drains (p : Producer) : bool := match p with PDrain _ _ => true | _ => false end.
(** A registered waker is woken by the next [wake]. *)
Definition registered s : Prop := fst (waker_wake (dl_wake s)) = true.

Record queue_ok s q : Prop := {
  qo_alive : dq_driver_alive q = negb (driver_out (dl_driver s));
  qo_draining : dq_draining q = driver_drains (dl_driver s) || producer_drains (dl_producer s);
  qo_one : driver_drains (dl_driver s) && producer_drains (dl_producer s) = false;
  qo_late : producer_drains (dl_producer s) = true -> driver_out (dl_driver s) = true;
  qo_left : driver_out (dl_driver s) = true -> dq_draining q = false -> dq_batches q = [];
  qo_closed : dq_producer_closed q = true <-> dl_producer s = PCloseWake \/ dl_producer s = PGone;
  qo_ready : dl_driver s = DReady -> dq_batches q = [] /\ dq_producer_closed q = true;
  qo_wake : match dl_driver s with DIdle | DRegistered => dl_scheduled s = true \/ registered s | _ => True end;
  qo_told : dl_driver s = DIdle -> dq_batches q <> [] \/ dq_producer_closed q = true -> dl_scheduled s = true \/ match dl_producer s with PWake _ | PCloseWake => True | _ => False end
}.

Record delivery_ok s : Prop := {
  do_order : dl_pushed s = dl_ran s ++ in_hand s ++ queued s ++ dl_pending s;
  do_queue : match dl_shared s with Some q => queue_ok s q | None => dl_pending s = [] /\ dl_driver s = DGone /\ match dl_producer s with PIdle | PGone => True | _ => False end end;
  do_done : match dl_producer s with PClose | PCloseWake | PGone | PWake _ | PDrain _ _ => dl_pending s = [] | PIdle => True end
}.

Ltac delivery_cases := repeat match goal with
  | H : _ && _ = true |- _ => apply andb_true_iff in H as [? ?]
  | H : _ || _ = false |- _ => apply orb_false_iff in H as [? ?]
  | H : negb _ = true |- _ => apply negb_true_iff in H
  end.

Lemma delivery_start executor : delivery_ok (Delivery_new executor).
Proof.
  destruct executor; constructor; cbn; try reflexivity; auto. constructor; cbn; [reflexivity | reflexivity | reflexivity | discriminate | discriminate | split; [discriminate | intros [|]; discriminate] | discriminate | auto | auto].
Qed.

Lemma wake_order s : dl_pushed (wake s) = dl_pushed s /\ dl_ran (wake s) = dl_ran s /\ dl_pending (wake s) = dl_pending s /\ dl_shared (wake s) = dl_shared s /\ dl_driver (wake s) = dl_driver s /\ dl_producer (wake s) = dl_producer s /\ (dl_scheduled s = true \/ registered s -> dl_scheduled (wake s) = true).
Proof. unfold wake, registered. destruct (waker_wake (dl_wake s)) as [woken c]. cbn. repeat split. intros [->| ->]; [reflexivity | apply orb_true_r]. Qed.

Lemma delivery_push_ok a s : delivery_ok s -> dl_producer s = PIdle -> delivery_ok (delivery_push a s).
Proof.
  intros [O Q D] Hp. unfold delivery_push. cbn [note_pushed dl_shared]. destruct (dl_shared s) as [q|] eqn:Es.
  - constructor; cbn; rewrite ?Es, ?Hp; [rewrite O; unfold in_hand, queued; cbn; rewrite Es, Hp; rewrite <- !app_assoc; reflexivity | | exact Logic.I]. destruct Q as [Q1 Q2 Q3 Q4 Q5 Q6 Q7 Q8 Q9]. constructor; cbn; rewrite ?Hp in *; assumption.
  - destruct Q as (Q1 & Q2 & Q3). constructor; cbn; rewrite ?Es, ?Hp; [rewrite O; unfold in_hand, queued; cbn; rewrite Es, Hp, Q2, Q1; cbn; rewrite !app_nil_r; reflexivity | auto | exact Logic.I].
Qed.

(** [flush] has handed everything over; its caller goes on. *)
Lemma flushed_ok closing s : dl_pending s = [] -> dl_pushed s = dl_ran s ++ in_hand s ++ queued s -> in_hand s = in_hand (dl_set_producer PIdle s) -> match dl_shared s with Some q => queue_ok (dl_set_producer PIdle s) q | None => dl_driver s = DGone end -> delivery_ok (flushed closing s).
Proof.
  intros Hp O Hh Q. unfold flushed. destruct (dl_shared s) as [q|] eqn:Es.
  - assert (Hd : forall p, p = PIdle \/ p = PClose -> delivery_ok (dl_set_producer p s)).
    { intros p Hpc. constructor; cbn; [rewrite Hp, O, !app_nil_r; do 2 f_equal; rewrite Hh; unfold in_hand; cbn; destruct Hpc as [-> | ->]; reflexivity | rewrite Es | destruct Hpc as [-> | ->]; [exact Logic.I | exact Hp]]. destruct Q as [Q1 Q2 Q3 Q4 Q5 Q6 Q7 Q8 Q9]. cbn in *. destruct Hpc as [-> | ->]; constructor; cbn; try assumption. rewrite Q6. split; intros [E|E]; discriminate. }
    destruct closing; apply Hd; auto.
  - constructor; cbn; [rewrite Hp, O, !app_nil_r; do 2 f_equal; rewrite Hh; unfold in_hand; cbn; destruct closing; reflexivity | rewrite Es; split; [exact Hp|]; split; [exact Q | destruct closing; exact Logic.I] | destruct closing; [exact Hp | exact Logic.I]].
Qed.

Lemma delivery_flush_ok closing s : delivery_ok s -> dl_producer s = PIdle -> exists s', delivery_flush closing s = Ok s' /\ delivery_ok s'.
Proof.
  intros [O Q D] Hp. unfold delivery_flush. destruct (dl_pending s) as [|a pending] eqn:Epend.
  - eexists. split; [reflexivity|]. assert (Hs : dl_set_producer PIdle s = s) by (destruct s; cbn in *; subst; reflexivity). apply flushed_ok; [exact Epend | rewrite O, app_nil_r; reflexivity | rewrite Hs; reflexivity | rewrite Hs; destruct (dl_shared s); [exact Q | apply Q]].
  - destruct (dl_shared s) as [q|] eqn:Es; [|destruct Q as [Q _]; discriminate]. cbn [expect rbind]. eexists. split; [reflexivity|]. cbv zeta. set (fallback := negb (dq_driver_alive _) && negb (dq_draining _)). destruct Q as [Q1 Q2 Q3 Q4 Q5 Q6 Q7 Q8 Q9]. cbn in fallback. rewrite Hp in *. cbn [producer_drains] in *. rewrite orb_false_r in Q2.
    assert (Hout : fallback = driver_out (dl_driver s) && negb (driver_drains (dl_driver s))) by (unfold fallback; rewrite Q1, Q2, negb_involutive; reflexivity).
    constructor; cbn.
    + rewrite O. unfold in_hand, queued. cbn. rewrite Es, Hp. destruct fallback; cbn; rewrite concat_app; cbn; rewrite !app_nil_r; reflexivity.
    + assert (Hnc : dq_producer_closed q = false) by (destruct (dq_producer_closed q); [destruct (proj1 Q6 eq_refl); discriminate | reflexivity]). destruct fallback eqn:Ef; symmetry in Hout; delivery_cases; constructor; cbn; try assumption; try discriminate; try (rewrite Hnc; split; [discriminate | intros [E|E]; discriminate]); auto.
      * rewrite orb_true_r. reflexivity.
      * rewrite H1. reflexivity.
      * intros E. destruct (Q7 E). congruence.
      * intros E. rewrite E in *. discriminate.
      * rewrite orb_false_r. exact Q2.
      * intros Ho Hd. rewrite Ho, <- Q2, Hd in Hout. discriminate.
      * intros E. destruct (Q7 E). congruence.
    + destruct fallback; reflexivity.
Qed.

(** The waker reaches the task. *)
Lemma wake_queue s q p : queue_ok s q -> producer_drains (dl_producer s) = producer_drains p -> (dq_producer_closed q = true <-> p = PCloseWake \/ p = PGone) -> queue_ok (dl_set_producer p (wake s)) q.
Proof.
  intros [Q1 Q2 Q3 Q4 Q5 Q6 Q7 Q8 Q9] Hd Hc. destruct (wake_order s) as (_ & _ & _ & _ & Hdr & _ & Hw). constructor; cbn; rewrite ?Hdr, <- ?Hd; try assumption; [destruct (dl_driver s); auto|]. intros E. rewrite E in *. auto.
Qed.

Lemma no_two_drain s q : queue_ok s q -> producer_drains (dl_producer s) = true -> match dl_driver s with DRun batch | DDrain batch => batch | _ => [] end = [].
Proof. intros [Q1 Q2 Q3 Q4 Q5 Q6 Q7 Q8 Q9] Hp. specialize (Q4 Hp). rewrite Hp, andb_true_r in Q3. destruct (dl_driver s); try reflexivity; discriminate. Qed.

Lemma producer_ok s : delivery_ok s -> delivery_fits s EvProducer -> exists s', producer_step s = Ok s' /\ delivery_ok s'.
Proof.
  intros [O Q D] Hfit. cbn in Hfit. unfold producer_step. destruct (wake_order s) as (W1 & W2 & W3 & W4 & W5 & W6 & _). destruct (dl_producer s) as [|closing|closing batch| | |] eqn:Hp; try contradiction; (destruct (dl_shared s) as [q|] eqn:Es; [|destruct Q as (_ & _ & Q); contradiction]).
  - eexists. split; [reflexivity|]. assert (Hc : dq_producer_closed q = true <-> PIdle = PCloseWake \/ PIdle = PGone) by (rewrite (qo_closed _ _ Q), Hp; split; intros [E|E]; discriminate). apply flushed_ok; [congruence | rewrite W1, W2, O, D, app_nil_r; unfold in_hand, queued; rewrite W6, W5, W4, Es, ?Hp; reflexivity | unfold in_hand; cbn; rewrite W6, ?Hp; reflexivity | rewrite W4; apply wake_queue; [exact Q | rewrite Hp; reflexivity | exact Hc]].
  - pose proof (no_two_drain s q Q ltac:(rewrite Hp; reflexivity)) as Hnone. unfold in_hand, queued in O. rewrite Hp, Es, Hnone, D, !app_nil_r in O. destruct batch as [|a batch].
    + cbn [expect rbind]. unfold take_batch. destruct (dq_batches q) as [|b rest] eqn:Eb; (eexists; split; [reflexivity|]); destruct Q as [Q1 Q2 Q3 Q4 Q5 Q6 Q7 Q8 Q9]; rewrite Hp in *; cbn [producer_drains] in *; rewrite andb_true_r in Q3; rewrite Q3 in *; specialize (Q4 eq_refl).
      * apply flushed_ok; [exact D | cbn; rewrite O; unfold in_hand, queued; cbn; rewrite ?Hp, Hnone, Eb; reflexivity | unfold in_hand; cbn; rewrite ?Hp; reflexivity|]. cbn. constructor; cbn; rewrite ?Q3; try assumption; try reflexivity; try discriminate; auto. rewrite Q6. split; intros [E|E]; discriminate.
      * constructor; cbn; [rewrite O; unfold in_hand, queued; cbn; rewrite Hnone, D, !app_nil_r; reflexivity | | exact D]. constructor; cbn; rewrite ?Q3; try assumption; try reflexivity; auto; [intros _ E; cbn in Q2; congruence | rewrite Q6; split; intros [E|E]; discriminate | intros E; rewrite E in Q4; discriminate | intros E; rewrite E in Q4; discriminate].
    + eexists. split; [reflexivity|]. constructor; cbn; rewrite ?Es; [rewrite O; unfold in_hand, queued; cbn; rewrite Es, Hnone, D, !app_nil_r, <- app_assoc; reflexivity | | exact D]. destruct Q as [Q1 Q2 Q3 Q4 Q5 Q6 Q7 Q8 Q9]. rewrite Hp in *. constructor; cbn; try assumption. rewrite Q6. split; intros [E|E]; discriminate.
  - cbn [expect rbind]. eexists. split; [reflexivity|]. constructor; cbn; [rewrite O; unfold in_hand, queued; cbn; rewrite Es, ?Hp; reflexivity | | exact D]. destruct Q as [Q1 Q2 Q3 Q4 Q5 Q6 Q7 Q8 Q9]. rewrite Hp in *. constructor; cbn; try assumption; auto; [split; auto|]. intros E. destruct (Q7 E). auto.
  - eexists. split; [reflexivity|]. constructor; cbn; rewrite ?W4, ?Es; [rewrite W1, W2, W3, O; unfold in_hand, queued; cbn; rewrite W4, W5, Es, ?Hp; reflexivity | | congruence]. apply wake_queue; [exact Q | rewrite Hp; reflexivity|]. rewrite (qo_closed _ _ Q), Hp. split; auto.
Qed.

Lemma driver_ok s : delivery_ok s -> delivery_fits s EvDriver -> exists s', driver_step s = Ok s' /\ delivery_ok s'.
Proof.
  intros [O Q D] Hfit. cbn in Hfit. unfold driver_step. destruct (dl_shared s) as [q|] eqn:Es; [|destruct Q as (_ & Q & _); rewrite Q in Hfit; contradiction]. cbn [expect rbind]. unfold in_hand, queued in O. rewrite Es in O. destruct Q as [Q1 Q2 Q3 Q4 Q5 Q6 Q7 Q8 Q9].
  destruct (dl_driver s) as [| |[|a batch]| |drain|[|a batch]|] eqn:Hd; try contradiction; cbn [driver_out driver_drains negb] in *.
  - destruct (dq_batches q) as [|b rest] eqn:Eb; (eexists; split; [reflexivity|]); constructor; cbn; rewrite ?Es; try exact D; [rewrite O; unfold in_hand, queued; cbn; rewrite Es, Eb; destruct (dq_producer_closed q); reflexivity | | rewrite O; unfold in_hand, queued; cbn; assert (Hpd : match dl_producer s with PDrain _ batch => batch | _ => [] end = []) by (destruct (dl_producer s); try reflexivity; discriminate (Q4 eq_refl)); rewrite Hpd, <- !app_assoc; reflexivity|].
    + destruct (dq_producer_closed q) eqn:Ec; constructor; cbn; rewrite ?Eb, ?Ec; auto; try discriminate. intros _ [E|E]; [contradiction | discriminate].
    + constructor; cbn; auto; discriminate.
  - eexists. split; [reflexivity|]. constructor; cbn; rewrite ?Es; [rewrite O; unfold in_hand, queued; cbn; rewrite Es; reflexivity | | exact D]. constructor; cbn; auto; discriminate.
  - eexists. split; [reflexivity|]. assert (Hpd : match dl_producer s with PDrain _ batch => batch | _ => [] end = []) by (destruct (dl_producer s); try reflexivity; discriminate (Q4 eq_refl)). constructor; cbn; rewrite ?Es; [rewrite O; unfold in_hand, queued; cbn; rewrite Es, Hpd, <- !app_assoc; reflexivity | | exact D]. constructor; cbn; auto; discriminate.
  - eexists. split; [reflexivity|]. constructor; cbn; rewrite ?Es; [rewrite O; unfold in_hand, queued; cbn; rewrite Es; destruct drain; reflexivity | | exact D]. destruct drain; constructor; cbn; auto; discriminate.
  - rewrite Q2 in *. cbn in Q3. assert (Hpd : match dl_producer s with PDrain _ batch => batch | _ => [] end = []) by (destruct (dl_producer s); try reflexivity; discriminate). unfold take_batch. destruct (dq_batches q) as [|b rest] eqn:Eb; (eexists; split; [reflexivity|]); constructor; cbn; try exact D; [rewrite O; unfold in_hand, queued; cbn; rewrite Eb, Hpd; reflexivity | | rewrite O; unfold in_hand, queued; cbn; rewrite Hpd, <- !app_assoc; reflexivity|]; constructor; cbn; rewrite ?Q3; auto; try discriminate. intros _ E. rewrite Q2 in E. discriminate.
  - eexists. split; [reflexivity|]. cbn in Q3. assert (Hpd : match dl_producer s with PDrain _ batch => batch | _ => [] end = []) by (destruct (dl_producer s); try reflexivity; discriminate). constructor; cbn; rewrite ?Es; [rewrite O; unfold in_hand, queued; cbn; rewrite Es, Hpd, <- !app_assoc; reflexivity | | exact D]. constructor; cbn; auto; discriminate.
Qed.

Lemma poll_ok `{!AtomicWakerLaws cell} s : delivery_ok s -> dl_driver s = DIdle -> delivery_ok (driver_poll s).
Proof.
  intros [O Q D] Hd. destruct (dl_shared s) as [q|] eqn:Es; [|destruct Q as (_ & Q & _); congruence]. constructor; cbn; rewrite ?Es; [rewrite O; unfold in_hand, queued; cbn; rewrite Es, Hd; reflexivity | | exact D].
  destruct Q as [Q1 Q2 Q3 Q4 Q5 Q6 Q7 Q8 Q9]. rewrite Hd in *. constructor; cbn; auto; try discriminate. right. apply wake_registered.
Qed.

Lemma driver_drop_ok s : delivery_ok s -> dl_driver s = DIdle \/ dl_driver s = DReady -> exists s', driver_drop s = Ok s' /\ delivery_ok s'.
Proof.
  intros [O Q D] Hd. assert (Ho : driver_out (dl_driver s) = false /\ driver_drains (dl_driver s) = false /\ match dl_driver s with DRun batch | DDrain batch => batch | _ => [] end = [] /\ dl_driver s <> DGone) by (destruct Hd as [-> | ->]; repeat split; discriminate). destruct Ho as (Ho & Hdr & Hh & Hg).
  unfold driver_drop. destruct (dl_shared s) as [q|] eqn:Es; [|destruct Q as (_ & Q & _); contradiction]. cbn [expect rbind]. destruct Q as [Q1 Q2 Q3 Q4 Q5 Q6 Q7 Q8 Q9]. rewrite Ho, Hdr in *. assert (Hp : producer_drains (dl_producer s) = false) by (destruct (producer_drains (dl_producer s)); [specialize (Q4 eq_refl); discriminate | reflexivity]). rewrite Hp in *. cbn in Q2. rewrite Q2.
  eexists. split; [reflexivity|]. constructor; cbn; [rewrite O; unfold in_hand, queued; cbn; rewrite Es, Hh; reflexivity | | exact D]. constructor; cbn; rewrite ?Hp; auto; discriminate.
Qed.

Lemma delivery_step_ok `{!AtomicWakerLaws cell} s e : delivery_ok s -> delivery_fits s e -> exists s', delivery_step s e = Ok s' /\ delivery_ok s'.
Proof.
  intros I Hfit. destruct e; cbn [delivery_step]; cbn [delivery_fits] in Hfit; [| apply delivery_flush_ok; assumption | apply delivery_flush_ok; assumption | apply producer_ok; assumption | | apply driver_ok; assumption | apply driver_drop_ok; assumption]; eexists; (split; [reflexivity|]); [apply delivery_push_ok | apply poll_ok]; assumption.
Qed.

Lemma delivery_run_ok `{!AtomicWakerLaws cell} s es s' : delivery_ok s -> delivery_run s es s' -> delivery_ok s'.
Proof. intros I R. induction R as [|s e es s1 s2 Hfit Hs R IH]; [exact I|]. destruct (delivery_step_ok s e I Hfit) as (s3 & Hs3 & I3). assert (s1 = s3) as -> by congruence. exact (IH I3). Qed.

(** Nothing is left over when both sides are done. *)
Lemma all_ran s : delivery_ok s -> dl_driver s = DReady \/ dl_producer s = PGone /\ dl_driver s = DGone -> dl_ran s = dl_pushed s.
Proof.
  intros [O Q D] Hend. rewrite O. unfold in_hand, queued. destruct (dl_shared s) as [q|]; [|destruct Q as (Q1 & Q2 & Q3); rewrite Q1, Q2; destruct (dl_producer s); try contradiction; rewrite !app_nil_r; reflexivity].
  destruct Q as [Q1 Q2 Q3 Q4 Q5 Q6 Q7 Q8 Q9]. destruct Hend as [Hd|[Hp Hd]]; rewrite Hd in *; cbn in *.
  - destruct (Q7 eq_refl) as [Hb Hc]. apply Q6 in Hc. rewrite Hb. destruct Hc as [E|E]; rewrite E in *; rewrite D, !app_nil_r; reflexivity.
  - rewrite Hp in *. rewrite (Q5 eq_refl Q2), D, !app_nil_r. reflexivity.
Qed.

(** ** The properties *)

(** C20: However the worker, the task and the executor interleave, and whenever the executor drops the task, no step of delivery panics and the actions run in the order they were pushed, each once; when the task reports that it is ready, and when the worker and the task are both gone, every action has run. *)
Theorem delivery_in_order `{!AtomicWakerLaws cell} executor es s : delivery_run (Delivery_new executor) es s ->
  (forall e, delivery_fits s e -> exists s', delivery_step s e = Ok s') /\ (exists rest, dl_pushed s = dl_ran s ++ rest) /\
  (dl_driver s = DReady \/ dl_producer s = PGone /\ dl_driver s = DGone -> dl_ran s = dl_pushed s).
Proof.
  intros R. pose proof (delivery_run_ok _ _ _ (delivery_start executor) R) as I. split; [intros e He; destruct (delivery_step_ok s e I He) as (s' & Hs & _); eauto|]. split; [eexists; apply I | apply all_ran; exact I].
Qed.

(** C21: No wake-up is lost: when the task waits although a batch is queued or the worker has closed the queue, the executor has been told to poll it, or the worker is about to tell. *)
Theorem no_wakeup_lost `{!AtomicWakerLaws cell} executor es s q : delivery_run (Delivery_new executor) es s -> dl_shared s = Some q -> dl_driver s = DIdle -> dq_batches q <> [] \/ dq_producer_closed q = true ->
  dl_scheduled s = true \/ match dl_producer s with PWake _ | PCloseWake => True | _ => False end.
Proof. intros R Hs Hd Hb. destruct (delivery_run_ok _ _ _ (delivery_start executor) R) as [_ Q _]. rewrite Hs in Q. exact (qo_told _ _ Q Hd Hb). Qed.
End Delivery.

(** What a step adds to the actions that were pushed and that ran. *)
Section Growth.
Context {cell : Type} `{AtomicWaker cell}.
Implicit Types (s : Delivery (cell := cell)).

Definition grows s s' (pushed : list Z) : Prop := (exists new, dl_ran s' = dl_ran s ++ new) /\ dl_pushed s' = dl_pushed s ++ pushed /\ (dl_shared s' = None <-> dl_shared s = None).

Lemma grows_same s s' : dl_ran s' = dl_ran s -> dl_pushed s' = dl_pushed s -> (dl_shared s' = None <-> dl_shared s = None) -> grows s s' [].
Proof. intros E1 E2 E3. split; [exists []; rewrite app_nil_r; exact E1|]. split; [rewrite app_nil_r; exact E2 | exact E3]. Qed.

Lemma producer_grows s s' : producer_step s = Ok s' -> grows s s' [].
Proof.
  unfold producer_step. destruct (wake_order s) as (W1 & W2 & _ & W4 & _). intros E. destruct (dl_producer s) as [|closing|closing [|k batch]| | |]; try discriminate.
  - injection E as <-. unfold flushed. cbn. apply grows_same; cbn; rewrite ?W1, ?W2, ?W4; reflexivity.
  - apply rbind_Ok_inv in E as (q & Hq & E). unfold take_batch in E. destruct (dl_shared s) eqn:Es; [|discriminate]. destruct (dq_batches q); injection E as <-; apply grows_same; cbn; try reflexivity; split; congruence.
  - injection E as <-. split; [exists [k]; reflexivity|]. split; [symmetry; apply app_nil_r | reflexivity].
  - apply rbind_Ok_inv in E as (q & Hq & E). destruct (dl_shared s) eqn:Es; [|discriminate]. injection E as <-. apply grows_same; cbn; try reflexivity; split; congruence.
  - injection E as <-. apply grows_same; cbn; rewrite ?W1, ?W2, ?W4; reflexivity.
Qed.

Lemma driver_grows s s' : driver_step s = Ok s' -> grows s s' [].
Proof.
  unfold driver_step. intros E. destruct (dl_driver s) as [| |[|k batch]| |drain|[|k batch]|]; try discriminate; try (injection E as <-; first [apply grows_same; reflexivity | split; [exists [k]; reflexivity | split; [symmetry; apply app_nil_r | reflexivity]]]); apply rbind_Ok_inv in E as (q & Hq & E); unfold take_batch in E; (destruct (dl_shared s) eqn:Es; [|discriminate]); destruct (dq_batches q); injection E as <-; apply grows_same; cbn; try reflexivity; rewrite ?Es; split; congruence.
Qed.

Lemma delivery_grows s e s' : delivery_step s e = Ok s' -> grows s s' match e with EvPush k => [k] | _ => [] end.
Proof.
  assert (Hflush : forall closing, delivery_flush closing s = Ok s' -> grows s s' []) by (intros closing; unfold delivery_flush; destruct (dl_pending s); [intros E; injection E as <-; apply grows_same; reflexivity|]; intros E; apply rbind_Ok_inv in E as (q & Hq & E); destruct (dl_shared s) eqn:Es; [|discriminate]; injection E as <-; apply grows_same; cbn; try reflexivity; split; congruence).
  destruct e as [k| | | | | |]; cbn [delivery_step]; eauto using producer_grows, driver_grows.
  - intros E. injection E as <-. unfold delivery_push. cbn [note_pushed dl_shared]. destruct (dl_shared s) eqn:Es; (split; [|split; [reflexivity | cbn; rewrite Es; reflexivity]]); [exists []; symmetry; apply app_nil_r | exists [k]; reflexivity].
  - intros E. injection E as <-. apply grows_same; reflexivity.
  - unfold driver_drop. intros E. apply rbind_Ok_inv in E as (q & Hq & E). destruct (dl_shared s) eqn:Es; [|discriminate]. injection E as <-. apply grows_same; cbn; try reflexivity. split; congruence.
Qed.
End Growth.

(** ** The worker and its delivery *)

Section Answers.
Context {cell : Type} `{AtomicWaker cell} {SErr : Type} (max_class : Z).
Abbreviation msg := (Z * Outcome (SErr := SErr))%type.
Abbreviation Delivery := (Delivery (cell := cell)).
Abbreviation StoreWorld := (StoreWorld (SErr := SErr)).

(** A disk's worker with its [delivery]: action [k] gives the answers
    [an_actions !! k]. [an_told] is what the callers were told, in the order they
    were told it. *)
Record Answering := { an_store : StoreWorld; an_delivery : Delivery; an_actions : list (list msg); an_told : list msg }.
Implicit Types (a : Answering) (d : Delivery) (L : list (Answer (SErr := SErr))) (m : msg).

(** What the actions that ran between two states of the delivery told. *)
Definition action_msgs (actions : list (list msg)) (k : Z) : list msg := default [] (actions !! Z.to_nat k).
Definition newly_told (actions : list (list msg)) d d' : list msg := concat (map (action_msgs actions) (drop (length (dl_ran d)) (dl_ran d'))).

(** The worker gives an answer: on the spot, or through [Delivery::push]. *)
Definition give (h : Answer (SErr := SErr)) a : Answering :=
  match h with
  | Direct msgs => {| an_store := an_store a; an_delivery := an_delivery a; an_actions := an_actions a; an_told := an_told a ++ msgs |}
  | Pushed msgs =>
      let actions := an_actions a ++ [msgs] in
      let d := delivery_push (Z.of_nat (length (an_actions a))) (an_delivery a) in
      {| an_store := an_store a; an_delivery := d; an_actions := actions; an_told := an_told a ++ newly_told actions (an_delivery a) d |}
  end.

Inductive AnsweringEvent := OfWorker (e : WorkerEvent (SErr := SErr)) | OfDelivery (e : DeliveryEvent).

Definition new_answers (x x' : StoreWorld) : list (Answer (SErr := SErr)) := drop (length (wk_log (sw_worker x))) (wk_log (sw_worker x')).
Definition answering_step a (e : AnsweringEvent) : steps Answering :=
  match e with
  | OfWorker e =>
      let? x := worker_step max_class (an_store a) e in
      let a' := fold_left (fun a h => give h a) (new_answers (an_store a) x) a in
      Ok {| an_store := x; an_delivery := an_delivery a'; an_actions := an_actions a'; an_told := an_told a' |}
  | OfDelivery e =>
      let? d := delivery_step (an_delivery a) e in
      Ok {| an_store := an_store a; an_delivery := d; an_actions := an_actions a; an_told := an_told a ++ newly_told (an_actions a) (an_delivery a) d |}
  end.

(** [finish] has handed everything back. *)
Definition handed_back (x : StoreWorld) : Prop := (exists r, sw_stage x = Leaving r) /\ wk_chains (sw_worker x) = ∅ /\ wk_fence (sw_worker x) = None /\ wk_close_reply (sw_worker x) = None.

(** The worker pushes only what it answers, works on when [flush] is over, and
    drops its delivery at the end. *)
Definition answering_fits a (e : AnsweringEvent) : Prop :=
  match e with
  | OfWorker e => dl_producer (an_delivery a) = PIdle /\ worker_fits max_class (an_store a) e
  | OfDelivery (EvPush _) => False
  | OfDelivery EvDrop => delivery_fits (an_delivery a) EvDrop /\ handed_back (an_store a)
  | OfDelivery e => delivery_fits (an_delivery a) e
  end.

Definition answering_start (executor : bool) : Answering := {| an_store := store_start; an_delivery := Delivery_new executor; an_actions := []; an_told := [] |}.
Inductive answering_run : Answering -> list AnsweringEvent -> Answering -> Prop :=
| answering_run_nil a : answering_run a [] a
| answering_run_cons a e es a' a'' : answering_fits a e -> answering_step a e = Ok a' -> answering_run a' es a'' -> answering_run a (e :: es) a''.

(** ** The log of the worker *)

Definition answers_of (h : Answer (SErr := SErr)) : list msg := match h with Direct msgs | Pushed msgs => msgs end.
Definition log_msgs L : list msg := concat (map answers_of L).
Definition directs L : list msg := concat (map (fun h => match h with Direct msgs => msgs | Pushed _ => [] end) L).
Definition pushes L : list (list msg) := concat (map (fun h => match h with Direct _ => [] | Pushed msgs => [msgs] end) L).

(** An answer that may be deferred: of a read that reached the session, of a
    fence, or of a command that failed. *)
Definition deferrable m : Prop := match snd m with Found _ _ | Inventoried _ | FenceDone | Refused _ => True | _ => False end.
Definition logs (w w' : Worker (SErr := SErr)) : Prop := exists L, wk_log w' = wk_log w ++ L /\ wk_sent w' = wk_sent w ++ log_msgs L /\ Forall deferrable (concat (pushes L)).

Lemma log_msgs_app L L' : log_msgs (L ++ L') = log_msgs L ++ log_msgs L'.
Proof. unfold log_msgs. rewrite map_app, concat_app. reflexivity. Qed.
Lemma directs_app L L' : directs (L ++ L') = directs L ++ directs L'.
Proof. unfold directs. rewrite map_app, concat_app. reflexivity. Qed.
Lemma pushes_app L L' : pushes (L ++ L') = pushes L ++ pushes L'.
Proof. unfold pushes. rewrite map_app, concat_app. reflexivity. Qed.

Implicit Types (w : Worker (SErr := SErr)).
Lemma logs_nothing w w' : wk_log w' = wk_log w -> wk_sent w' = wk_sent w -> logs w w'.
Proof. intros E1 E2. exists []. rewrite E1, E2, !app_nil_r. repeat split. constructor. Qed.
Lemma logs_answer w w' L : logs w w' -> Forall deferrable (concat (pushes L)) -> logs w (answer (log_msgs L) L w').
Proof.
  intros (L1 & E1 & E2 & F) F'. exists (L1 ++ L). cbn. rewrite E1, E2, log_msgs_app, pushes_app, concat_app, <- !app_assoc. repeat split. apply Forall_app. auto.
Qed.
Lemma logs_send w w' (msgs : list msg) : logs w w' -> logs w (send msgs w').
Proof. intros Hl. pose proof (logs_answer w w' [Direct msgs] Hl ltac:(constructor)) as Ha. unfold log_msgs in Ha. cbn in Ha. rewrite app_nil_r in Ha. exact Ha. Qed.
Lemma logs_push w w' (msgs : list msg) : Forall deferrable msgs -> logs w w' -> logs w (push msgs w').
Proof. intros F Hl. pose proof (logs_answer w w' [Pushed msgs] Hl ltac:(cbn; rewrite app_nil_r; exact F)) as Ha. unfold log_msgs in Ha. cbn in Ha. rewrite app_nil_r in Ha. exact Ha. Qed.
Lemma logs_push_each w w' (actions : list (list msg)) : Forall (Forall deferrable) actions -> logs w w' -> logs w (push_each actions w').
Proof.
  intros F Hl. assert (E : forall ls : list (list msg), log_msgs (map Pushed ls) = concat ls /\ pushes (map Pushed ls) = ls) by (intros ls; unfold log_msgs, pushes; rewrite !map_map; cbn; split; [rewrite map_id; reflexivity | induction ls as [|l ls IH]; cbn; [|rewrite IH]; reflexivity]). unfold push_each. destruct (E actions) as [<- E2]. apply logs_answer; [exact Hl | rewrite E2; apply Forall_concat; exact F].
Qed.

Lemma to_all_deferrable (o : Outcome) (ws : list Waiter) : deferrable (0, o) -> Forall deferrable (to_all o ws).
Proof. intros Ho. apply Forall_map, Forall_true. intros y. exact Ho. Qed.
Lemma op_fail_deferrable op (e : StoreError (SErr := SErr)) : Forall deferrable (op_fail op e).
Proof. destruct op; cbn; [apply to_all_deferrable; exact Logic.I | repeat constructor..]. Qed.
Lemma read_done_deferrable op (result : res SErr (list byte * Z)) msgs : read_done op result = Ok msgs -> Forall deferrable msgs.
Proof.
  destruct op as [range lsn ws| |]; [|discriminate..]. destruct result as [[bytes n]|e|]; cbn; [|intros [= <-]; apply to_all_deferrable; exact Logic.I | discriminate].
  destruct ws as [|leader rest]; cbn; [discriminate|]. destruct (wt_permit leader); cbn; [|discriminate]. destruct (n <=? _); [|discriminate]. intros [= <-]. apply (to_all_deferrable (Found lsn bytes) (leader :: rest)). exact Logic.I.
Qed.
Lemma fence_fail_deferrable (reply : FenceReply) (e : StoreError (SErr := SErr)) : Forall deferrable (fence_fail reply e).
Proof. unfold fence_fail. destruct (fence_number reply); repeat constructor. Qed.

Lemma logs_trans w w1 w2 : logs w w1 -> logs w1 w2 -> logs w w2.
Proof. intros (L & E1 & E2 & F) (L' & E1' & E2' & F'). exists (L ++ L'). rewrite E1', E1, E2', E2, log_msgs_app, pushes_app, concat_app, <- !app_assoc. repeat split. apply Forall_app. auto. Qed.

(** The rest of a function that only sets fields and sends. *)
Ltac logged := repeat (inv_ok; simplify_eq; try case_match); repeat apply logs_send; try (apply logs_nothing; reflexivity).

Lemma accept_logs c w w' : accept_command c w = Ok w' -> logs w w'.
Proof.
  assert (Hq : forall id op, enqueue id op w = Ok w' -> logs w w') by (intros id op; unfold enqueue; set (chain := default _ _); cbv zeta; intros E; logged).
  destruct c; cbn [accept_command]; intros E; eauto. logged.
Qed.

Lemma submitted_logs read id op r w s w' : submitted read id op r w = (s, w') -> logs w w'.
Proof. unfold submitted, keep_error. intros E. logged. Qed.

Lemma start_op_logs id op sa w s w' : start_op max_class id op sa w = Ok (s, w') -> logs w w'.
Proof.
  assert (Hsub : forall w0 read op' r, Ok (E := unit) (submitted read id op' r w0) = Ok (s, w') -> logs w0 w') by (intros w0 read op' r E; injection E; apply submitted_logs).
  destruct op as [range lsn ws|v r|ex r]; cbn [start_op]; [|apply Hsub|].
  - unfold start_read. set (w0 := send _ w). intros E. apply (logs_trans w w0); [apply logs_send, logs_nothing; reflexivity|]. clearbody w0. destruct (List.filter _ ws) as [|leader rest]; [logged|]. destruct (sa_stat sa); [|logged]. apply rbind_Ok_inv in E as (permit & _ & E). destruct (sa_grow sa); [eapply Hsub; exact E | logged].
  - intros E. destruct (sa_stat sa) as [lsn|]; [|logged]. destruct (match ex with Some expected => negb (expected =? lsn) | None => false end); [logged | eapply Hsub; exact E].
Qed.

Lemma start_next_logs sa w w' : start_next max_class sa w = Ok w' -> logs w w'.
Proof.
  unfold start_next. cbv zeta. intros E. apply rbind_Ok_inv in E as (id & _ & E). apply rbind_Ok_inv in E as (chain & _ & E). apply rbind_Ok_inv in E as (op & _ & E). apply rbind_Ok_inv in E as ((s & w1) & Hs & E). apply start_op_logs in Hs. injection E as <-.
  apply (logs_trans w w1); [exact Hs|]. repeat case_match; apply logs_nothing; reflexivity.
Qed.

Lemma complete_logs id w op w' : complete_chain id w = Ok (op, w') -> logs w w'.
Proof. unfold complete_chain. intros E. logged. Qed.

Lemma finish_fence_logs result w r w' : finish_fence result w = Ok (r, w') -> logs w w'.
Proof.
  unfold finish_fence. cbv zeta. intros E. apply rbind_Ok_inv in E as (f & _ & E). destruct (fs_reply f); [|discriminate | logged]. injection E as <- <-. apply logs_push; [|apply logs_nothing; reflexivity]. repeat case_match; repeat constructor.
Qed.

Lemma completion_logs c w r w' : on_completion c w = Ok (r, w') -> logs w w'.
Proof.
  destruct c as [t res|t res|t res|t e]; cbn [on_completion]; intros E.
  - apply rbind_Ok_inv in E as (id & _ & E). apply rbind_Ok_inv in E as ((op & w1) & Hc & E). apply rbind_Ok_inv in E as (msgs & Hm & E). injection E as <- <-. apply logs_push; [eapply read_done_deferrable; exact Hm | apply (complete_logs _ _ _ _ Hc)].
  - apply rbind_Ok_inv in E as ((id & lsn) & _ & E). apply rbind_Ok_inv in E as ((op & w1) & Hc & E). apply rbind_Ok_inv in E as (msgs & _ & E). injection E as <- <-. apply logs_send. apply complete_logs in Hc. destruct res; apply Hc.
  - destruct (check_fence t w); [eapply finish_fence_logs; exact E | discriminate].
  - assert (Hop : forall id rd wr, (let? (op, w0) := complete_chain id (wk_set_tickets rd wr (keep_error (StoreFailed e) w)) in Ok (E := unit) (None : option StoreError, send (op_fail op (StoreFailed e)) w0)) = Ok (r, w') -> logs w w') by (intros id rd wr E'; apply rbind_Ok_inv in E' as ((op & w1) & Hc & E'); injection E' as <- <-; apply logs_send, (complete_logs _ _ _ _ Hc)).
    cbn zeta in E. repeat case_match; try discriminate; [eapply Hop; exact E.. | apply (finish_fence_logs _ _ _ _ E)].
Qed.

Lemma advance_logs fa w r w' : advance_fence fa w = Ok (r, w') -> logs w w'.
Proof.
  unfold advance_fence. intros E. apply rbind_Ok_inv in E as (f & _ & E). repeat case_match; try (eapply finish_fence_logs; exact E); inv_ok; simplify_eq; try (apply logs_nothing; reflexivity). apply logs_push; [repeat constructor | apply logs_nothing; reflexivity].
Qed.

Lemma exit_worker r (x : StoreWorld) : sw_worker (exit_on r x) = snd r.
Proof. destruct r as [[e|] w]; reflexivity. Qed.
Lemma note_worker c (x : StoreWorld) : sw_worker (note c x) = sw_worker x.
Proof. unfold note. destruct (asked_of c) as [[]|]; reflexivity. Qed.

Lemma worker_logs (x x' : StoreWorld) e : worker_step max_class x e = Ok x' -> logs (sw_worker x) (sw_worker x').
Proof.
  unfold worker_step. destruct (sw_stage x) as [|result].
  - destruct e as [c| |sa|c|e|fa| |id| |c|]; cbn [run_step]; try discriminate; intros E; try (injection E as <-; apply logs_nothing; reflexivity); apply rbind_Ok_inv in E as (r & Hr & E); injection E as <-; rewrite ?note_worker, ?exit_worker; [eapply accept_logs; exact Hr | eapply start_next_logs; exact Hr | destruct r; eapply completion_logs; exact Hr | destruct r; eapply advance_logs; exact Hr].
  - destruct e as [c| |sa|c|e|fa| |id| |c|]; cbn [finish_step]; try discriminate; intros E; [apply rbind_Ok_inv in E as (r & _ & E).. | | apply rbind_Ok_inv in E as (r & _ & E)]; injection E as <-; rewrite ?note_worker; cbn [sw_set sw_worker].
    + apply logs_push_each; [apply Forall_map, Forall_true; intros op; apply op_fail_deferrable | apply logs_nothing; reflexivity].
    + apply logs_push; [apply fence_fail_deferrable | apply logs_nothing; reflexivity].
    + apply logs_push; [destruct c; [repeat constructor.. | apply fence_fail_deferrable] | apply logs_nothing; reflexivity].
    + apply logs_push; [destruct result; repeat constructor | apply logs_nothing; reflexivity].
Qed.

(** ** The order in which callers are told *)

(** [m] is told before [m']: it was decided before, or it was sent on the spot
    and [m'] was handed to the delivery. *)
Definition decided_before (l : list msg) m m' : Prop := [m; m'] `sublist_of` l.
Definition told_order L m m' : Prop := decided_before (log_msgs L) m m' \/ m ∈ directs L /\ m' ∈ concat (pushes L).

Lemma directs_sublist L : directs L `sublist_of` log_msgs L.
Proof. unfold directs, log_msgs. induction L as [|[msgs|msgs] L IH]; cbn; [constructor | apply sublist_app; [reflexivity | exact IH] | apply sublist_inserts_l; exact IH]. Qed.
Lemma pushes_sublist L : concat (pushes L) `sublist_of` log_msgs L.
Proof. unfold pushes, log_msgs. induction L as [|[msgs|msgs] L IH]; cbn; [constructor | apply sublist_inserts_l; exact IH | apply sublist_app; [reflexivity | exact IH]]. Qed.

Lemma decided_pair (l l1 l2 : list msg) m m' : l1 ++ l2 `sublist_of` l -> m ∈ l1 -> m' ∈ l2 -> decided_before l m m'.
Proof. intros Hl H1 H2. unfold decided_before. etransitivity; [|exact Hl]. apply (sublist_app [m] l1 [m'] l2); apply singleton_sublist_l; assumption. Qed.
Lemma decided_sorted (l l' : list msg) : l' `sublist_of` l -> StronglySorted (decided_before l) l'.
Proof.
  induction l' as [|m l' IH]; intros Hl; constructor; [apply IH; etransitivity; [apply sublist_cons; reflexivity | exact Hl]|].
  rewrite Forall_forall. intros m' Hin. apply (decided_pair l [m] l'); [exact Hl | constructor | exact Hin].
Qed.
Lemma sorted_decided (R : msg -> msg -> Prop) (l : list msg) m m' : StronglySorted R l -> decided_before l m m' -> R m m'.
Proof.
  unfold decided_before. intros S Hb. induction S as [|y l S IH Hall]; inversion Hb; subst; [|auto]. rewrite Forall_forall in Hall. apply Hall. apply singleton_sublist_l. assumption.
Qed.
Lemma told_order_mono L L' m m' : told_order L m m' -> told_order (L ++ L') m m'.
Proof.
  intros [Hb|[H1 H2]]; [left; unfold decided_before; rewrite log_msgs_app; apply sublist_inserts_r; exact Hb|]. right. rewrite directs_app, pushes_app, concat_app, !elem_of_app. auto.
Qed.

(** Where the delivery stands on a log. *)
Record answers_ok L d (actions : list (list msg)) (told : list msg) : Prop := {
  ao_actions : actions = pushes L;
  ao_delivery : delivery_ok d;
  ao_pushed : dl_pushed d = map Z.of_nat (seq 0 (length (pushes L)));
  ao_told : told ≡ₚ directs L ++ concat (take (length (dl_ran d)) (pushes L));
  ao_order : StronglySorted (told_order L) told;
  ao_plain : dl_shared d = None -> told = log_msgs L
}.

Lemma ran_numbers d (n : nat) : delivery_ok d -> dl_pushed d = map Z.of_nat (seq 0 n) -> dl_ran d = map Z.of_nat (seq 0 (length (dl_ran d))) /\ (length (dl_ran d) <= n)%nat.
Proof.
  intros [O _ _] Hp. rewrite Hp in O. assert (Hlen : (length (dl_ran d) <= n)%nat) by (apply (f_equal length) in O; rewrite length_map, length_seq, length_app in O; lia). split; [|exact Hlen].
  apply (f_equal (take (length (dl_ran d)))) in O. rewrite take_app_length in O. rewrite <- O at 1. rewrite firstn_map, take_seq, Nat.min_l by exact Hlen. reflexivity.
Qed.

Lemma actions_between (P : list (list msg)) n : forall k, (k + n <= length P)%nat -> map (action_msgs P) (map Z.of_nat (seq k n)) = take n (drop k P).
Proof.
  induction n as [|n IH]; intros k Hk; [rewrite take_0; reflexivity|]. destruct (lookup_lt_is_Some_2 P k ltac:(lia)) as [y Hy]. rewrite (drop_S _ _ _ Hy). cbn [seq map take]. rewrite IH by lia. unfold action_msgs at 1. rewrite Nat2Z.id, Hy. reflexivity.
Qed.

(** The actions that run next tell the next answers of the log. *)
Lemma told_more L d d' told : delivery_ok d' -> dl_pushed d' = map Z.of_nat (seq 0 (length (pushes L))) -> (exists new, dl_ran d' = dl_ran d ++ new) ->
  told ≡ₚ directs L ++ concat (take (length (dl_ran d)) (pushes L)) -> StronglySorted (told_order L) told ->
  told ++ newly_told (pushes L) d d' ≡ₚ directs L ++ concat (take (length (dl_ran d')) (pushes L)) /\ StronglySorted (told_order L) (told ++ newly_told (pushes L) d d').
Proof.
  intros D Hp (new & Hr) Ht S. destruct (ran_numbers d' _ D Hp) as [Hnum Hlen]. set (k := length (dl_ran d)) in *. set (P := pushes L) in *.
  assert (Ek : length (dl_ran d') = (k + length new)%nat) by (rewrite Hr, length_app; reflexivity).
  assert (Hnew : newly_told P d d' = concat (take (length new) (drop k P))).
  { unfold newly_told. fold k. rewrite <- actions_between by lia. do 2 f_equal. rewrite Hnum, Ek, seq_app, map_app. rewrite drop_app_length'; [|rewrite length_map, length_seq; lia]. reflexivity. }
  assert (Hjoin : concat (take k P) ++ concat (take (length new) (drop k P)) = concat (take (length (dl_ran d')) P)) by (rewrite <- concat_app, take_take_drop, Ek; reflexivity).
  assert (Hsub : concat (take k P) ++ concat (take (length new) (drop k P)) `sublist_of` log_msgs L).
  { etransitivity; [|apply pushes_sublist]. fold P. rewrite Hjoin. rewrite <- (take_drop (length (dl_ran d')) P) at 2. rewrite concat_app. apply sublist_inserts_r. reflexivity. }
  rewrite Hnew. split; [rewrite Ht, <- app_assoc, Hjoin; reflexivity|]. apply StronglySorted_app_2; [|exact S|].
  - intros m m' Hm Hm'. rewrite Ht, elem_of_app in Hm. destruct Hm as [Hm|Hm]; [|left; eapply decided_pair; eassumption]. right. split; [exact Hm|]. fold P. rewrite <- (take_drop (length (dl_ran d')) P), concat_app, <- Hjoin, !elem_of_app. auto.
  - eapply StronglySorted_impl_in; [intros m m' _ _ Hb; left; exact Hb|]. apply decided_sorted. etransitivity; [|exact Hsub]. apply sublist_inserts_l. reflexivity.
Qed.

Lemma give_ok L h a : answers_ok L (an_delivery a) (an_actions a) (an_told a) -> dl_producer (an_delivery a) = PIdle ->
  answers_ok (L ++ [h]) (an_delivery (give h a)) (an_actions (give h a)) (an_told (give h a)) /\ dl_producer (an_delivery (give h a)) = PIdle.
Proof.
  intros [A D P T S N] Hi. assert (Hmono : StronglySorted (told_order (L ++ [h])) (an_told a)) by (eapply StronglySorted_impl_in; [intros m m' _ _; apply told_order_mono | exact S]). destruct (ran_numbers _ _ D P) as [_ Hlen].
  destruct h as [msgs|msgs]; cbn [give an_delivery an_actions an_told].
  - split; [|exact Hi]. assert (Hpu : pushes (L ++ [Direct msgs]) = pushes L) by (rewrite pushes_app; apply app_nil_r). assert (Hl : log_msgs (L ++ [Direct msgs]) = log_msgs L ++ msgs) by (rewrite log_msgs_app; unfold log_msgs at 2; cbn; rewrite app_nil_r; reflexivity). constructor; rewrite ?Hpu; try assumption.
    + rewrite T, directs_app. unfold directs at 3. cbn. rewrite app_nil_r, <- !app_assoc. apply Permutation_app_head, Permutation_app_comm.
    + apply StronglySorted_app_2; [|exact Hmono|].
      * intros m m' Hm Hm'. left. rewrite Hl. eapply decided_pair; [reflexivity | | exact Hm']. rewrite T, elem_of_app in Hm. destruct Hm as [Hm|Hm]; [eapply elem_of_sublist; [exact Hm | apply directs_sublist]|]. eapply elem_of_sublist; [|apply pushes_sublist]. rewrite <- (take_drop (length (dl_ran (an_delivery a))) (pushes L)), concat_app, elem_of_app. auto.
      * eapply StronglySorted_impl_in; [intros m m' _ _ Hb; left; exact Hb|]. apply decided_sorted. rewrite Hl. apply sublist_inserts_l. reflexivity.
    + intros Hs. rewrite (N Hs), Hl. reflexivity.
  - assert (Hpu : pushes (L ++ [Pushed msgs]) = pushes L ++ [msgs]) by (rewrite pushes_app; reflexivity). assert (Hdi : directs (L ++ [Pushed msgs]) = directs L) by (rewrite directs_app; apply app_nil_r). set (d' := delivery_push _ _).
    pose proof (delivery_push_ok (Z.of_nat (length (an_actions a))) _ D Hi) as D'. fold d' in D'. destruct (delivery_grows (an_delivery a) (EvPush (Z.of_nat (length (an_actions a)))) d' eq_refl) as (Hran & Hpushed & Hsh).
    assert (Hnum : dl_pushed d' = map Z.of_nat (seq 0 (length (pushes (L ++ [Pushed msgs]))))) by (rewrite Hpushed, Hpu, P, length_app, seq_app, map_app, A; reflexivity).
    rewrite A, <- Hpu. destruct (told_more (L ++ [Pushed msgs]) (an_delivery a) d' (an_told a) D' Hnum Hran) as [T' S']; [rewrite Hdi, Hpu, take_app_le by exact Hlen; exact T | exact Hmono|].
    split; [|unfold d', delivery_push; cbn; destruct (dl_shared (an_delivery a)); exact Hi]. constructor; try assumption; [reflexivity|].
    intros Hs. assert (Hn : dl_shared (an_delivery a) = None) by (apply Hsh; exact Hs). rewrite (N Hn), log_msgs_app. f_equal. unfold newly_told, d', delivery_push. cbn. rewrite Hn. cbn. rewrite drop_app_length. cbn. unfold action_msgs, log_msgs. rewrite Nat2Z.id, Hpu, A, lookup_app_r, Nat.sub_diag by lia. reflexivity.
Qed.

Lemma give_all_ok L' : forall L a, answers_ok L (an_delivery a) (an_actions a) (an_told a) -> dl_producer (an_delivery a) = PIdle ->
  let a' := fold_left (fun a h => give h a) L' a in answers_ok (L ++ L') (an_delivery a') (an_actions a') (an_told a').
Proof.
  induction L' as [|h L' IH]; intros L a A Hi; cbn; [rewrite app_nil_r; exact A|]. destruct (give_ok L h a A Hi) as [A' Hi']. pose proof (IH _ _ A' Hi') as A''. cbn in A''. rewrite <- app_assoc in A''. exact A''.
Qed.

(** ** The invariant of both *)

Record answering_ok (executor : bool) a : Prop := {
  an_world : world_ok max_class (an_store a);
  an_logged : wk_sent (sw_worker (an_store a)) = log_msgs (wk_log (sw_worker (an_store a))) /\ Forall deferrable (concat (pushes (wk_log (sw_worker (an_store a)))));
  an_answers : answers_ok (wk_log (sw_worker (an_store a))) (an_delivery a) (an_actions a) (an_told a);
  an_shared : executor = false -> dl_shared (an_delivery a) = None
}.

Lemma answering_start_ok executor : answering_ok executor (answering_start executor).
Proof.
  constructor; cbn; [apply start_world_ok | split; [reflexivity | constructor] | | intros ->; reflexivity].
  constructor; cbn; try reflexivity; [apply delivery_start | constructor].
Qed.

Lemma worker_answers executor a e x : answering_ok executor a -> answering_fits a (OfWorker e) -> worker_step max_class (an_store a) e = Ok x ->
  forall a', answering_step a (OfWorker e) = Ok a' -> answering_ok executor a'.
Proof.
  intros [W [Hlog Hdef] A Hex] [Hi Hfit] Hx a' E. cbn [answering_step] in E. rewrite Hx in E. injection E as <-. destruct (worker_step_ok max_class _ e W Hfit) as (x' & Hx' & W'). assert (x' = x) as -> by congruence.
  destruct (worker_logs _ _ _ Hx) as (L & HL & Hsent & Hd). assert (Hnew : new_answers (an_store a) x = L) by (unfold new_answers; rewrite HL, drop_app_length; reflexivity). rewrite Hnew. pose proof (give_all_ok L _ a A Hi) as A'. cbn zeta in A'. rewrite <- HL in A'.
  constructor; cbn [an_store an_delivery an_actions an_told]; [exact W' | | exact A' |].
  - rewrite HL, Hsent, Hlog, log_msgs_app, pushes_app, concat_app. split; [reflexivity | apply Forall_app; auto].
  - intros He. specialize (Hex He). clear - Hex. revert a Hex. induction L as [|h L IH]; intros a Hex; cbn; [exact Hex|]. apply IH. destruct h; cbn [give an_delivery]; [exact Hex|]. unfold delivery_push. cbn. rewrite Hex. exact Hex.
Qed.

Lemma delivery_answers `{!AtomicWakerLaws cell} executor a e : answering_ok executor a -> answering_fits a (OfDelivery e) -> forall a', answering_step a (OfDelivery e) = Ok a' -> answering_ok executor a'.
Proof.
  intros [W Hlog A Hex] Hfit a' E. cbn [answering_step] in E. assert (Hfits : delivery_fits (an_delivery a) e /\ match e with EvPush k => [k] | _ => [] end = []) by (destruct e; [contradiction Hfit | split; [first [exact Hfit | exact (proj1 Hfit)] | reflexivity]..]). destruct Hfits as [Hfits Hno].
  apply rbind_Ok_inv in E as (d' & Hd & E). injection E as <-. destruct A as [A1 D P T S N]. destruct (delivery_step_ok _ _ D Hfits) as (d2 & Hd2 & D'). assert (d2 = d') as -> by congruence. destruct (delivery_grows _ _ _ Hd) as (Hran & Hpush & Hsh). rewrite Hno, app_nil_r in Hpush.
  constructor; cbn [an_store an_delivery an_actions an_told]; [exact W | exact Hlog | | intros He; apply Hsh, Hex, He]. rewrite A1. destruct (told_more _ _ d' _ D' ltac:(rewrite Hpush; exact P) Hran T S) as [T' S'].
  constructor; try assumption; [reflexivity | rewrite Hpush; exact P|].
  intros Hs. assert (Hn : dl_shared (an_delivery a) = None) by (apply Hsh; exact Hs). rewrite (N Hn). assert (Hall : dl_ran (an_delivery a) = dl_pushed (an_delivery a)).
  { destruct D as [O Q _]. rewrite O. unfold in_hand, queued. rewrite Hn in *. destruct Q as (Q1 & Q2 & Q3). rewrite Q1, Q2. destruct (dl_producer (an_delivery a)); try contradiction; rewrite !app_nil_r; reflexivity. }
  destruct Hran as (new & Hran). assert (new = []) as ->; [|unfold newly_told; rewrite Hran, drop_app_length; apply app_nil_r]. destruct D' as [O' _ _]. rewrite Hpush, <- Hall, Hran, <- !app_assoc in O'. rewrite <- (app_nil_r (dl_ran (an_delivery a))) in O' at 1. apply app_inv_head in O'. symmetry in O'. apply app_eq_nil in O' as [O' _]. exact O'.
Qed.

Lemma answering_run_ok `{!AtomicWakerLaws cell} executor a es a' : answering_ok executor a -> answering_run a es a' -> answering_ok executor a'.
Proof.
  intros A R. induction R as [|a e es a1 a2 Hfit Hs R IH]; [exact A|]. apply IH. destruct e as [e|e]; [|eapply delivery_answers; eassumption]. pose proof Hs as Hs'. cbn [answering_step] in Hs'. apply rbind_Ok_inv in Hs' as (x & Hx & _). eapply worker_answers; eassumption.
Qed.

(** C16: Without a completion executor the callers of a chunk who are still there are told their answers in the order of their commands, although equal reads share one request and operations on different chunks overlap; so a read never joins a request that is ahead of a mutation. With one, an answer can be overtaken only when it was handed to the delivery and the one told before it was sent on the spot: two answers of a chunk that go the same way are told in the order of the commands, as are an answer sent on the spot and a later one that was deferred. No miss and no mutation that succeeded is ever deferred, so these are overtaken by nothing; a read that the session served can be told after a later write of its chunk. When the worker and the task are gone, everything the worker decided has been told. *)
Theorem chunk_answers_in_order `{!AtomicWakerLaws cell} executor es a : answering_run (answering_start executor) es a ->
  let w := sw_worker (an_store a) in
  let asked := sw_asked (an_store a) in
  (executor = false -> an_told a = wk_sent w /\ StronglySorted (answer_before asked) (an_told a)) /\
  StronglySorted (fun m m' => answer_before asked m m' \/ m ∈ directs (wk_log w) /\ m' ∈ concat (pushes (wk_log w))) (an_told a) /\
  Forall deferrable (concat (pushes (wk_log w))) /\
  (dl_producer (an_delivery a) = PGone -> dl_driver (an_delivery a) = DGone -> an_told a ≡ₚ wk_sent w).
Proof.
  intros R w asked. destruct (answering_run_ok _ _ _ _ (answering_start_ok executor) R) as [W [Hlog Hdef] [A D P T S N] Hex]. fold w in Hlog, Hdef, A, P, T, S, N. assert (Hsort : StronglySorted (answer_before asked) (wk_sent w)) by apply W.
  split; [intros He; rewrite (N (Hex He)), <- Hlog; auto|]. split; [|split; [exact Hdef|]].
  - eapply StronglySorted_impl_in; [|exact S]. intros m m' _ _ [Hb|Hb]; [left; eapply sorted_decided; [exact Hsort | rewrite Hlog; exact Hb] | right; exact Hb].
  - intros Hp Hd. rewrite T, (all_ran _ D), P, length_map, length_seq, firstn_all, Hlog by auto. clear. unfold directs, pushes, log_msgs. induction (wk_log w) as [|[msgs|msgs] L IH]; cbn; [constructor | rewrite <- app_assoc, IH; reflexivity|]. rewrite <- IH, !app_assoc. apply Permutation_app_tail, Permutation_app_comm.
Qed.

End Answers.

(** ** A run: two batches, and an executor that drops the task *)

#[local] Instance flag_waker : AtomicWaker bool := { waker_new := false; waker_register := fun _ => true; waker_wake := fun c => (c, false); waker_take := fun _ => false }.
#[local] Instance flag_waker_laws : AtomicWakerLaws bool := { wake_registered := fun _ => eq_refl }.

Definition delivery_demo : list DeliveryEvent := [EvPoll; EvDriver; EvPush 1; EvPush 2; EvFlush; EvProducer].
Definition dropped_demo : list DeliveryEvent := delivery_demo ++ [EvDriverDrop; EvDriver; EvDriver; EvDriver; EvDriver; EvDriver; EvPush 3; EvDrop; EvProducer; EvProducer; EvProducer; EvProducer; EvProducer].
Definition delivery_next (s : Delivery (cell := bool)) (e : DeliveryEvent) : Delivery := match delivery_step s e with Ok s => s | _ => s end.
Definition delivery_end (es : list DeliveryEvent) : Delivery (cell := bool) := fold_left delivery_next es (Delivery_new true).

Lemma delivery_run_next s e es s' : delivery_fits s e -> (match delivery_step s e with Ok _ => true | _ => false end) = true -> delivery_run (delivery_next s e) es s' -> delivery_run s (e :: es) s'.
Proof. intros Hf Hok R. destruct (delivery_step s e) as [y| |] eqn:E; try discriminate. eapply delivery_run_cons; [exact Hf | exact E|]. unfold delivery_next in R. rewrite E in R. exact R. Qed.

Ltac run_delivery := unfold delivery_end, dropped_demo, delivery_demo; cbn [app fold_left]; repeat (apply delivery_run_next; [vm_compute; auto | vm_compute; reflexivity|]); apply delivery_run_nil.

Lemma delivery_in_order_witness : dl_ran (delivery_end dropped_demo) = [1; 2; 3].
Proof.
  destruct (delivery_in_order true dropped_demo (delivery_end dropped_demo) ltac:(run_delivery)) as (_ & _ & H). rewrite H; [reflexivity|]. right. split; reflexivity.
Defined.

Lemma no_wakeup_lost_witness : dl_scheduled (delivery_end delivery_demo) = true.
Proof.
  destruct (no_wakeup_lost true delivery_demo (delivery_end delivery_demo) {| dq_batches := [[1; 2]]; dq_producer_closed := false; dq_driver_alive := true; dq_draining := false |} ltac:(run_delivery) eq_refl eq_refl ltac:(left; discriminate)) as [H|H]; [exact H | destruct H].
Defined.

(** ** A run of both: a write that is told before an earlier read *)

(** Two reads that share a request, a write and a flush, as in StoreWorkerProofs,
    whose task is polled when all is decided. *)
Definition answers_demo : list (AnsweringEvent (SErr := unit)) :=
  map OfWorker store_demo ++ map OfDelivery [EvFlush; EvProducer; EvPoll; EvDriver; EvDriver; EvDriver].
Definition answering_next (a : Answering (cell := bool) (SErr := unit)) (e : AnsweringEvent) : Answering := match answering_step 4096 a e with Ok a => a | _ => a end.
Definition answers_end (executor : bool) (es : list AnsweringEvent) : Answering := fold_left answering_next es (answering_start executor).

Lemma answering_run_next a e es a' : answering_fits 4096 a e -> (match answering_step 4096 a e with Ok _ => true | _ => false end) = true -> answering_run 4096 (answering_next a e) es a' -> answering_run 4096 a (e :: es) a'.
Proof. intros Hf Hok R. destruct (answering_step 4096 a e) as [y| |] eqn:E; try discriminate. eapply answering_run_cons; [exact Hf | exact E|]. unfold answering_next in R. rewrite E in R. exact R. Qed.

Ltac run_answers := unfold answers_end, answers_demo, store_demo; cbn [map app fold_left]; repeat (apply answering_run_next; [vm_compute; repeat split; first [discriminate | eexists; reflexivity] | vm_compute; reflexivity|]); apply answering_run_nil.

Lemma answers_run : answering_run 4096 (answering_start true) answers_demo (answers_end true answers_demo).
Proof. run_answers. Qed.
Lemma plain_answers_run : answering_run 4096 (answering_start false) (map OfWorker store_demo) (answers_end false (map OfWorker store_demo)).
Proof. run_answers. Qed.

Lemma chunk_answers_in_order_witness :
  map fst (an_told (answers_end true answers_demo)) = [2; 0; 1; 3] /\
  StronglySorted (fun m m' => answer_before (sw_asked (an_store (answers_end true answers_demo))) m m' \/ m ∈ [(2, Written 5)] /\ deferrable m') (an_told (answers_end true answers_demo)) /\
  map fst (an_told (answers_end false (map OfWorker store_demo))) = [0; 1; 2; 3] /\
  StronglySorted (answer_before (sw_asked (an_store (answers_end false (map OfWorker store_demo))))) (an_told (answers_end false (map OfWorker store_demo))).
Proof.
  destruct (chunk_answers_in_order 4096 true answers_demo (answers_end true answers_demo) answers_run) as (_ & H1 & H2 & _). destruct (chunk_answers_in_order 4096 false (map OfWorker store_demo) (answers_end false (map OfWorker store_demo)) plain_answers_run) as (H3 & _).
  split; [vm_compute; reflexivity|]. split; [|split; [vm_compute; reflexivity | apply H3; reflexivity]]. eapply StronglySorted_impl_in; [|exact H1]. intros m m' _ _ [Hb|[Hd Hp]]; [left; exact Hb|]. right. split; [vm_compute in Hd |- *; exact Hd|]. rewrite Forall_forall in H2. apply H2. exact Hp.
Defined.
