(* ===== verification/StoreGate.v ===== *)
(** * The gates of the store (moat-cache-store/src/store.rs)

    Requests are sent to the worker of a disk under the read lock of its gate; a
    flush or the closing takes every gate for writing, in the order of the
    disks, before it sends a fence to each. Callers are interleaved at the locks
    and at the sends. What the budget answers to a reservation and whether a
    worker still listens are arguments of the steps; a request is the number of
    its caller. *)

From stdpp Require Import list.
From S2P Require Import Prelude ChunkId Placement Catalog StoreBudget.

(** ** Opening *)

Record StoreOptions := { so_max_requests : Z; so_max_bytes : Z; so_pool_bytes : Z; so_max_class : Z; so_worker_cpus : list Z }.
Inductive Invalid := NoEngine | NoRequests | SmallPool | SmallBudget | CpuCount | DuplicateDisk | OutOfBounds | ValueTooLarge.

Definition is_power_of_two (n : Z) : bool := (0 <? n) && (Z.land n (n - 1) =? 0).

Fixpoint duplicate (seen ids : list (list byte)) : bool :=
  match ids with
  | [] => false
  | id :: rest => if bool_decide (id ∈ seen) then true else duplicate (id :: seen) rest
  end.

(** [Store::new] up to the workers: its checks, the placement and the budget.
    An engine is what its layout says of its disk. *)
Definition Store_open (engines : list DiskInfo) (o : StoreOptions) : res Invalid (Placement * BudgetLimits) :=
  fail_if (match engines with [] => true | _ => false end) NoEngine ;?
  fail_if (so_max_requests o =? 0) NoRequests ;?
  let class := so_max_class o in
  fail_if (negb (is_power_of_two class) || (class <? 4096) || (so_pool_bytes o / class <? 16)) SmallPool ;?
  fail_if (so_max_bytes o <? class) SmallBudget ;?
  fail_if (match so_worker_cpus o with [] => false | cpus => negb (length cpus =? length engines)%nat end) CpuCount ;?
  fail_if (duplicate [] (map di_uuid engines)) DuplicateDisk ;?
  let placement := Placement_new (map (fun d => {| tg_uuid := di_uuid d; tg_weight := di_capacity d |}) engines) in
  Ok (placement, Budget_new (so_max_requests o) (so_max_bytes o) (so_pool_bytes o / 2) (length engines) class).

(** ** State *)

Inductive GateError := GateClosed | GateBusy | GateInvalid (e : Invalid).

(** What a worker was sent. *)
Inductive SentItem := SentRequest (caller : nat) | SentFence (caller : nat).

(** [gt_readers] callers hold the gate for reading, [gt_writer] for writing. *)
Record Gate := { gt_closed : bool; gt_readers : Z; gt_writer : option nat }.

(** A caller: a request before its lock, inside it and behind it; a fence that
    has taken the first [k] gates, that has reserved [k] credits, that has sent
    [k] fences, and that has returned. *)
Inductive Caller :=
| RBefore (disk : nat) | RInside (disk : nat) | RDone (r : option GateError)
| FAcquire (close : bool) (k : nat) | FReserve (k : nat) | FSend (close : bool) (k : nat) | FDone (close : bool) (r : option GateError).

(** [gs_log]: the sends in order, those to a worker that is gone included. *)
Record Gates := { gs_gates : list Gate; gs_callers : list Caller; gs_log : list (nat * SentItem) }.
Implicit Types (s : Gates) (g : Gate) (i k d : nat).

Definition put_gate d g s : Gates := {| gs_gates := <[d := g]> (gs_gates s); gs_callers := gs_callers s; gs_log := gs_log s |}.
Definition put_caller i (c : Caller) s : Gates := {| gs_gates := gs_gates s; gs_callers := <[i := c]> (gs_callers s); gs_log := gs_log s |}.
Definition log_send d (item : SentItem) s : Gates := {| gs_gates := gs_gates s; gs_callers := gs_callers s; gs_log := gs_log s ++ [(d, item)] |}.
Definition set_readers (n : Z) g : Gate := {| gt_closed := gt_closed g; gt_readers := n; gt_writer := gt_writer g |}.
Definition set_writer (w : option nat) g : Gate := {| gt_closed := gt_closed g; gt_readers := gt_readers g; gt_writer := w |}.
Definition set_closed g : Gate := {| gt_closed := true; gt_readers := gt_readers g; gt_writer := gt_writer g |}.
Definition map_gates (f : Gate -> Gate) s : Gates := {| gs_gates := map f (gs_gates s); gs_callers := gs_callers s; gs_log := gs_log s |}.

(** ** Requests *)

(** [submit]: the index and the lock. *)
Definition submit_lock i d s : Gates :=
  match gs_gates s !! d with
  | None => put_caller i (RDone (Some (GateInvalid OutOfBounds))) s
  | Some g => put_caller i (RInside d) (put_gate d (set_readers (gt_readers g + 1) g) s)
  end.

(** [submit], inside the lock: [reserved] is the answer of the budget, and
    [listens] says whether the worker receives; otherwise the command fails. *)
Definition submit_send i d (reserved listens : bool) s : steps Gates :=
  let? g := expect (gs_gates s !! d) in
  let s := put_gate d (set_readers (gt_readers g - 1) g) s in
  Ok (if gt_closed g then put_caller i (RDone (Some GateClosed)) s
      else if negb reserved then put_caller i (RDone (Some GateBusy)) s
      else put_caller i (RDone (if listens then None else Some GateClosed)) (log_send d (SentRequest i) s)).

(** [put] checks the length first; [delete], [get] and [inventory] only submit. *)
Definition store_put (chunk_max len : Z) d : Caller := if chunk_max <? len then RDone (Some (GateInvalid ValueTooLarge)) else RBefore d.

(** ** Fences *)

(** The lock of gate [k], or what follows when all are held. *)
Definition fence_acquire i close k s : Gates :=
  match gs_gates s !! k with
  | Some g => put_caller i (FAcquire close (S k)) (put_gate k (set_writer (Some i) g) s)
  | None =>
      if existsb gt_closed (gs_gates s) then put_caller i (FDone close (Some GateClosed)) (map_gates (set_writer None) s)
      else if close then put_caller i (FSend close 0) (map_gates set_closed s)
      else put_caller i (FReserve 0) s
  end.

(** One credit for every disk, which is sent with its fence; the first refusal gives all of them back. *)
Definition fence_reserve i k (reserved : bool) s : Gates :=
  if (k <? length (gs_gates s))%nat then
    if reserved then put_caller i (FReserve (S k)) s else put_caller i (FDone false (Some GateBusy)) (map_gates (set_writer None) s)
  else put_caller i (FSend false 0) s.

(** One fence; a worker that is gone makes its reply fail. *)
Definition fence_send i close k s : Gates :=
  if (k <? length (gs_gates s))%nat then put_caller i (FSend close (S k)) (log_send k (SentFence i) s)
  else put_caller i (FDone close None) (map_gates (set_writer None) s).

(** ** The machine *)

Inductive GateEvent := GRequest (c : Caller) | GFence (close : bool) | GStep i (reserved listens : bool).

Definition add_caller (c : Caller) s : Gates := {| gs_gates := gs_gates s; gs_callers := gs_callers s ++ [c]; gs_log := gs_log s |}.

Definition gate_step s (e : GateEvent) : steps Gates :=
  match e with
  | GRequest c => Ok (add_caller c s)
  | GFence close => Ok (add_caller (FAcquire close 0) s)
  | GStep i reserved listens =>
      let? c := expect (gs_callers s !! i) in
      match c with
      | RBefore d => Ok (submit_lock i d s)
      | RInside d => submit_send i d reserved listens s
      | FAcquire close k => Ok (fence_acquire i close k s)
      | FReserve k => Ok (fence_reserve i k reserved s)
      | FSend close k => Ok (fence_send i close k s)
      | RDone _ | FDone _ _ => Panic
      end
  end.

(** A lock is taken when it is free. *)
Definition gate_fits s (e : GateEvent) : Prop :=
  match e with
  | GRequest c => match c with RBefore _ => True | RDone _ => True | _ => False end
  | GFence _ => True
  | GStep i _ _ =>
      match gs_callers s !! i with
      | Some (RBefore d) => match gs_gates s !! d with Some g => gt_writer g = None | None => True end
      | Some (FAcquire _ k) => match gs_gates s !! k with Some g => gt_writer g = None /\ gt_readers g = 0 | None => True end
      | Some (RDone _) | Some (FDone _ _) | None => False
      | Some _ => True
      end
  end.

Definition gates_start (disks : nat) : Gates := {| gs_gates := replicate disks {| gt_closed := false; gt_readers := 0; gt_writer := None |}; gs_callers := []; gs_log := [] |}.
Inductive gate_run : Gates -> list GateEvent -> Gates -> Prop :=
| gate_run_nil s : gate_run s [] s
| gate_run_cons s e es s' s'' : gate_fits s e -> gate_step s e = Ok s' -> gate_run s' es s'' -> gate_run s (e :: es) s''.

(** ** The invariant *)

Definition holds_gate (c : Caller) d : bool :=
  match c with FAcquire _ k => (d <? k)%nat | FReserve _ | FSend _ _ => true | _ => false end.
Definition reads_gate d (c : Caller) : bool := match c with RInside d' => (d' =? d)%nat | _ => false end.
Definition readers_of d s : Z := total (fun c => if reads_gate d c then 1 else 0) (gs_callers s).
Definition all_closed s : Prop := Forall (fun g => gt_closed g = true) (gs_gates s).

(** The fences a caller has sent, and all of them. *)
Definition block i k : list (nat * SentItem) := map (fun d => (d, SentFence i)) (seq 0 k).

Record gates_ok (n : nat) s : Prop := {
  go_length : length (gs_gates s) = n;
  go_writer : forall d g, gs_gates s !! d = Some g -> forall i, gt_writer g = Some i <-> exists c, gs_callers s !! i = Some c /\ holds_gate c d = true;
  go_readers : forall d g, gs_gates s !! d = Some g -> gt_readers g = readers_of d s;
  go_apart : forall d g, gs_gates s !! d = Some g -> gt_writer g <> None -> gt_readers g = 0;
  go_inside : forall i d, gs_callers s !! i = Some (RInside d) -> (d < n)%nat;
  go_count : forall i close k, gs_callers s !! i = Some (FAcquire close k) \/ gs_callers s !! i = Some (FSend close k) -> (k <= n)%nat;
  go_sending : forall i close k, gs_callers s !! i = Some (FSend close k) -> exists before, gs_log s = before ++ block i k;
  go_sent : forall i close, gs_callers s !! i = Some (FDone close None) -> exists before after, gs_log s = before ++ block i n ++ after /\ (close = true -> after = []);
  go_closed : (exists i k, gs_callers s !! i = Some (FSend true k)) \/ (exists i, gs_callers s !! i = Some (FDone true None)) -> all_closed s;
  go_open : forall i k, gs_callers s !! i = Some (FReserve k) \/ gs_callers s !! i = Some (FSend false k) -> Forall (fun g => gt_closed g = false) (gs_gates s);
  go_last : forall i j close k, gs_callers s !! i = Some (FDone true None) -> gs_callers s !! j = Some (FSend close k) -> n = 0%nat
}.

(** At most one caller holds a gate for writing. *)
Lemma one_writer n s d i j c c' : gates_ok n s -> (d < n)%nat -> gs_callers s !! i = Some c -> gs_callers s !! j = Some c' -> holds_gate c d = true -> holds_gate c' d = true -> i = j.
Proof.
  intros G Hd Hi Hj Hc Hc'. destruct (lookup_lt_is_Some_2 (gs_gates s) d) as [g Hg]; [rewrite (go_length _ _ G); exact Hd|]. pose proof (proj2 (go_writer _ _ G d g Hg i) ltac:(eauto)). pose proof (proj2 (go_writer _ _ G d g Hg j) ltac:(eauto)). congruence.
Qed.

(** While a caller holds every gate nobody else is inside one. *)
Lemma sole_holder n s i c d j : gates_ok n s -> gs_callers s !! i = Some c -> (d < n)%nat -> holds_gate c d = true -> gs_callers s !! j <> Some (RInside d).
Proof.
  intros G Hi Hd Hc Hj. destruct (lookup_lt_is_Some_2 (gs_gates s) d) as [g Hg]; [rewrite (go_length _ _ G); exact Hd|]. assert (Hw : gt_writer g = Some i) by (apply (go_writer _ _ G d g Hg); eauto). pose proof (go_apart _ _ G d g Hg ltac:(congruence)) as H0. rewrite (go_readers _ _ G d g Hg) in H0. unfold readers_of in H0.
  pose proof (total_lookup (fun c => if reads_gate d c then 1 else 0) (gs_callers s) j (RInside d) ltac:(intros y _; cbn beta; destruct (reads_gate d y); lia) Hj) as H. cbn beta in H. cbn [reads_gate] in H. rewrite Nat.eqb_refl in H. lia.
Qed.

Lemma open_and_closed (gates : list Gate) : Forall (fun g => gt_closed g = true) gates -> Forall (fun g => gt_closed g = false) gates -> length gates = 0%nat.
Proof. intros H1 H2. destruct gates as [|g gates]; [reflexivity|]. apply Forall_cons in H1 as [H1 _], H2 as [H2 _]. congruence. Qed.

(** What a step of caller [i] may do to a gate and to the log. *)
Definition gate_moves i (c c' : Caller) d g g' : Prop :=
  (holds_gate c' d = holds_gate c d /\ gt_writer g' = gt_writer g \/ holds_gate c d = false /\ holds_gate c' d = true /\ gt_writer g = None /\ gt_writer g' = Some i \/ holds_gate c d = true /\ holds_gate c' d = false /\ gt_writer g' = None) /\
  gt_readers g' = gt_readers g - (if reads_gate d c then 1 else 0) + (if reads_gate d c' then 1 else 0) /\ (gt_writer g' <> None -> gt_readers g' = 0).
Definition log_moves i s (log' : list (nat * SentItem)) : Prop :=
  log' = gs_log s \/ exists item, log' = gs_log s ++ [item] /\ (forall j close k, j <> i -> gs_callers s !! j <> Some (FSend close k)) /\ forall j, j <> i -> gs_callers s !! j <> Some (FDone true None).
Definition caller_ok n i (c' : Caller) (gates' : list Gate) (log' : list (nat * SentItem)) s : Prop :=
  match c' with
  | RInside d => (d < n)%nat
  | FAcquire _ k => (k <= n)%nat
  | FReserve _ => Forall (fun g => gt_closed g = false) gates'
  | FSend close k => (k <= n)%nat /\ (exists before, log' = before ++ block i k) /\ Forall (fun g => gt_closed g = close) gates' /\ ((exists j, gs_callers s !! j = Some (FDone true None)) -> n = 0%nat)
  | FDone close None => (exists before, log' = before ++ block i n) /\ (close = true -> Forall (fun g => gt_closed g = true) gates' /\ ((exists j close k, j <> i /\ gs_callers s !! j = Some (FSend close k)) -> n = 0%nat))
  | _ => True
  end.

Lemma caller_step n s i c c' gates' log' : gates_ok n s -> gs_callers s !! i = Some c -> length gates' = n ->
  (forall d g', gates' !! d = Some g' -> exists g, gs_gates s !! d = Some g /\ gate_moves i c c' d g g') -> log_moves i s log' -> caller_ok n i c' gates' log' s ->
  (map gt_closed gates' = map gt_closed (gs_gates s) \/ Forall (fun g => gt_closed g = true) gates' /\ (0 < n -> forall j k, j <> i -> gs_callers s !! j <> Some (FReserve k) /\ gs_callers s !! j <> Some (FSend false k))%nat) ->
  gates_ok n {| gs_gates := gates'; gs_callers := <[i := c']> (gs_callers s); gs_log := log' |}.
Proof.
  intros G Hi Hlen Hg Hlog Hc' Hcl. set (s' := {| gs_gates := gates'; gs_callers := _; gs_log := log' |}).
  assert (Hil : (i < length (gs_callers s))%nat) by (eapply lookup_lt_Some; exact Hi).
  assert (Hat : forall j y, gs_callers s' !! j = Some y -> j = i /\ y = c' \/ j <> i /\ gs_callers s !! j = Some y) by (intros j y Hj; cbn in Hj; destruct (decide (i = j)) as [<-|Hne]; [rewrite list_lookup_insert_eq in Hj by assumption; injection Hj as <-; auto | rewrite list_lookup_insert_ne in Hj by assumption; auto]).
  assert (Hflag : forall b, Forall (fun g => gt_closed g = b) gates' <-> Forall (fun x => x = b) (map gt_closed gates')) by (intros b; rewrite Forall_map; reflexivity).
  assert (Hkeep : forall b, (map gt_closed gates' = map gt_closed (gs_gates s)) -> Forall (fun g => gt_closed g = b) (gs_gates s) -> Forall (fun g => gt_closed g = b) gates') by (intros b E H; apply Hflag; rewrite E, Forall_map; exact H).
  assert (Hclosed : all_closed s -> all_closed s') by (intros H; destruct Hcl as [E|[H' _]]; [apply Hkeep; assumption | exact H']).
  constructor; cbn [s' gs_gates gs_log].
  - exact Hlen.
  - intros d g' Hd j. destruct (Hg d g' Hd) as (g & Hgd & Hw & _). assert (Hdn : (d < n)%nat) by (rewrite <- Hlen; eapply lookup_lt_Some; exact Hd). pose proof (go_writer _ _ G d g Hgd) as W. destruct (decide (j = i)) as [->|Hne].
    + assert (Hown : (exists y, gs_callers s' !! i = Some y /\ holds_gate y d = true) <-> holds_gate c' d = true) by (cbn; rewrite list_lookup_insert_eq by assumption; split; [intros (y & [= <-] & H); exact H | eauto]). rewrite Hown. destruct Hw as [[E1 E2]|[(E1 & E2 & E3 & E4)|(E1 & E2 & E3)]]; [rewrite E1, E2, (W i), Hi; split; [intros (y & [= <-] & H); exact H | eauto] | rewrite E2, E4; tauto | rewrite E2, E3; split; discriminate].
    + assert (Hoth : (exists y, gs_callers s' !! j = Some y /\ holds_gate y d = true) <-> (exists y, gs_callers s !! j = Some y /\ holds_gate y d = true)) by (cbn; rewrite list_lookup_insert_ne by congruence; reflexivity). rewrite Hoth, <- (W j). destruct Hw as [[E1 E2]|[(E1 & E2 & E3 & E4)|(E1 & E2 & E3)]]; [rewrite E2; reflexivity | rewrite E3, E4; split; congruence|]. rewrite E3. split; [discriminate|]. intros Hj. apply W in Hj as (y & Hj & Hy). destruct Hne. symmetry. eapply (one_writer n s d i j c y); eassumption.
  - intros d g' Hd. destruct (Hg d g' Hd) as (g & Hgd & _ & Hr & _). rewrite Hr, (go_readers _ _ G d g Hgd). unfold readers_of. change (gs_callers s') with (<[i := c']> (gs_callers s)). rewrite (total_insert _ _ _ _ _ Hi). lia.
  - intros d g' Hd. destruct (Hg d g' Hd) as (g & _ & _ & _ & Ha). exact Ha.
  - intros j d Hj. destruct (Hat j _ Hj) as [[-> <-]|[_ Hj']]; [exact Hc' | eapply (go_inside _ _ G); exact Hj'].
  - intros j close k [Hj|Hj]; (destruct (Hat j _ Hj) as [[-> <-]|[_ Hj']]; [apply Hc' | eapply (go_count _ _ G); eauto]).
  - intros j close k Hj. destruct (Hat j _ Hj) as [[-> <-]|[Hne Hj']]; [apply Hc'|]. destruct Hlog as [->|(item & -> & H1 & _)]; [eapply (go_sending _ _ G); exact Hj' | destruct (H1 j close k Hne Hj')].
  - intros j close Hj. destruct (Hat j _ Hj) as [[-> <-]|[Hne Hj']]; [destruct Hc' as [[before ->] _]; exists before, []; rewrite app_nil_r; auto|]. destruct (go_sent _ _ G j close Hj') as (before & after & E & Ha). destruct Hlog as [->|(item & -> & _ & H2)]; [eauto|]. exists before, (after ++ [item]). split; [rewrite E, <- !app_assoc; reflexivity|]. intros ->. destruct (H2 j Hne Hj').
  - intros [(j & k & Hj)|(j & Hj)]; (destruct (Hat j _ Hj) as [[-> <-]|[Hne Hj']]; [apply Hc'; reflexivity || apply Hc' | apply Hclosed, (go_closed _ _ G); eauto]).
  - intros j k Hj. assert (Hown : j = i /\ (c' = FReserve k \/ c' = FSend false k) \/ j <> i /\ (gs_callers s !! j = Some (FReserve k) \/ gs_callers s !! j = Some (FSend false k))) by (destruct Hj as [Hj|Hj]; destruct (Hat j _ Hj) as [[-> <-]|[Hne Hj']]; auto). destruct Hown as [[-> [-> | ->]]|[Hne Hj']]; [exact Hc' | apply Hc'|]. destruct Hcl as [E|[_ H]]; [apply Hkeep; [exact E | eapply (go_open _ _ G); exact Hj']|]. destruct n as [|n]; [destruct gates'; [constructor | discriminate]|]. destruct (H ltac:(lia) j k Hne) as [H1 H2]. destruct Hj'; contradiction.
  - intros a b close k Ha Hb. destruct (Hat a _ Ha) as [[-> E1]|[Ha1 Ha']], (Hat b _ Hb) as [[-> E2]|[Hb1 Hb']].
    + congruence.
    + subst c'. destruct Hc' as [_ Hc']. apply (Hc' eq_refl). eauto.
    + subst c'. destruct Hc' as (_ & _ & _ & Hc'). apply Hc'. eauto.
    + eapply (go_last _ _ G); eassumption.
Qed.

(** ** Every step keeps the invariant *)

Section Steps.
Context (n : nat).

Lemma add_ok s c : gates_ok n s -> match c with RBefore _ | RDone _ | FAcquire _ 0%nat => True | _ => False end -> gates_ok n (add_caller c s).
Proof.
  intros G Hc. assert (Hat : forall j y, gs_callers (add_caller c s) !! j = Some y -> y = c \/ gs_callers s !! j = Some y) by (intros j y Hj; cbn in Hj; apply lookup_snoc_Some in Hj as [[_ Hj]|[_ <-]]; auto).
  assert (Hold : forall j y, gs_callers s !! j = Some y -> gs_callers (add_caller c s) !! j = Some y) by (intros j y Hj; cbn; apply lookup_app_l_Some; exact Hj). assert (Hh : forall d, holds_gate c d = false /\ reads_gate d c = false) by (intros d; destruct c as [| | |? [|]| | |]; try contradiction; split; reflexivity).
  constructor; cbn [add_caller gs_gates gs_log]; try apply G.
  - intros d g Hg j. rewrite (go_writer _ _ G d g Hg j). split; [intros (y & Hj & Hy); eauto|]. intros (y & Hj & Hy). destruct (Hat j y Hj) as [-> | Hj']; [destruct (Hh d); congruence | eauto].
  - intros d g Hg. rewrite (go_readers _ _ G d g Hg). unfold readers_of. cbn [add_caller gs_callers]. rewrite total_snoc. destruct (Hh d) as [_ ->]. lia.
  - intros j d Hj. destruct (Hat j _ Hj) as [<-|Hj']; [contradiction | eapply (go_inside _ _ G); exact Hj'].
  - intros j close k [Hj|Hj]; (destruct (Hat j _ Hj) as [<-|Hj']; [(destruct k; [lia | contradiction]) || contradiction | eapply (go_count _ _ G); eauto]).
  - intros j close k Hj. destruct (Hat j _ Hj) as [<-|Hj']; [contradiction | eapply (go_sending _ _ G); exact Hj'].
  - intros j close Hj. destruct (Hat j _ Hj) as [<-|Hj']; [contradiction | eapply (go_sent _ _ G); exact Hj'].
  - intros [(j & k & Hj)|(j & Hj)]; (destruct (Hat j _ Hj) as [<-|Hj']; [contradiction | apply (go_closed _ _ G); eauto]).
  - intros j k [Hj|Hj]; (destruct (Hat j _ Hj) as [<-|Hj']; [contradiction | eapply (go_open _ _ G); eauto]).
  - intros a b close k Ha Hb. destruct (Hat a _ Ha) as [<-|Ha']; [contradiction|]. destruct (Hat b _ Hb) as [<-|Hb']; [contradiction|]. eapply (go_last _ _ G); eassumption.
Qed.

Lemma same_gates s i c c' : gates_ok n s -> (forall d, (d < n)%nat -> holds_gate c' d = holds_gate c d) -> (forall d, reads_gate d c = false /\ reads_gate d c' = false) -> forall d g', gs_gates s !! d = Some g' -> exists g, gs_gates s !! d = Some g /\ gate_moves i c c' d g g'.
Proof.
  intros G Hh Hr d g Hg. exists g. split; [exact Hg|]. destruct (Hr d) as [H1 H2]. split; [left; split; [apply Hh; rewrite <- (go_length _ _ G); eapply lookup_lt_Some; exact Hg | reflexivity]|]. rewrite H1, H2. split; [lia | apply (go_apart _ _ G d g Hg)].
Qed.

(** Giving all gates back. *)
Lemma release_gates s i c c' : gates_ok n s -> (forall d, (d < n)%nat -> holds_gate c d = true) -> (forall d, holds_gate c' d = false /\ reads_gate d c = false /\ reads_gate d c' = false) -> forall d g', map (set_writer None) (gs_gates s) !! d = Some g' -> exists g, gs_gates s !! d = Some g /\ gate_moves i c c' d g g'.
Proof.
  intros G Hh Hr d g' Hg. rewrite list_lookup_fmap in Hg. destruct (gs_gates s !! d) as [g|] eqn:E; [|discriminate]. injection Hg as <-. exists g. split; [reflexivity|]. destruct (Hr d) as (H1 & H2 & H3). split; [right; right; split; [apply Hh; rewrite <- (go_length _ _ G); eapply lookup_lt_Some; exact E | auto]|]. rewrite H2, H3. cbn. split; [lia | congruence].
Qed.

Lemma put_flags (gates : list Gate) d g g' : gates !! d = Some g -> gt_closed g' = gt_closed g -> map gt_closed (<[d := g']> gates) = map gt_closed gates.
Proof. intros Hg E. rewrite list_fmap_insert, E. apply list_insert_id. rewrite list_lookup_fmap, Hg. reflexivity. Qed.

Lemma put_moves s i c c' d g g' : gs_gates s !! d = Some g -> gate_moves i c c' d g g' -> (forall d' g0, d' <> d -> gs_gates s !! d' = Some g0 -> gate_moves i c c' d' g0 g0) -> forall d' g1, <[d := g']> (gs_gates s) !! d' = Some g1 -> exists g0, gs_gates s !! d' = Some g0 /\ gate_moves i c c' d' g0 g1.
Proof.
  intros Hg Hm Ho d' g1 Hd. destruct (decide (d = d')) as [<-|Hne]; [rewrite list_lookup_insert_eq in Hd by (eapply lookup_lt_Some; exact Hg); injection Hd as <-; eauto|]. rewrite list_lookup_insert_ne in Hd by assumption. exists g1. split; [exact Hd | apply Ho; [congruence | exact Hd]].
Qed.

Lemma lock_ok s i d : gates_ok n s -> gs_callers s !! i = Some (RBefore d) -> gate_fits s (GStep i true true) -> gates_ok n (submit_lock i d s).
Proof.
  intros G Hi Hfit. cbn in Hfit. rewrite Hi in Hfit. unfold submit_lock. destruct (gs_gates s !! d) as [g|] eqn:Hg.
  - apply (caller_step n s i (RBefore d) (RInside d)); [exact G | exact Hi | cbn; rewrite length_insert; apply G | | left; reflexivity | cbn; rewrite <- (go_length _ _ G); eapply lookup_lt_Some; exact Hg | left; cbn; eapply put_flags; [exact Hg | reflexivity]].
    cbn. apply (put_moves _ _ _ _ _ g); [exact Hg | split; [left; auto|]; cbn; rewrite Nat.eqb_refl; split; [lia | congruence]|]. intros d' g0 Hne Hd'. split; [left; auto|]. cbn. rewrite (proj2 (Nat.eqb_neq d d')) by congruence. split; [lia | apply (go_apart _ _ G d' g0 Hd')].
  - apply (caller_step n s i (RBefore d) (RDone (Some (GateInvalid OutOfBounds)))); [exact G | exact Hi | apply G | apply same_gates; [exact G | reflexivity | auto] | left; reflexivity | exact Logic.I | left; reflexivity].
Qed.

Lemma send_ok s i d reserved listens : gates_ok n s -> gs_callers s !! i = Some (RInside d) -> exists s', submit_send i d reserved listens s = Ok s' /\ gates_ok n s'.
Proof.
  intros G Hi. pose proof (go_inside _ _ G i d Hi) as Hd. destruct (lookup_lt_is_Some_2 (gs_gates s) d) as [g Hg]; [rewrite (go_length _ _ G); exact Hd|]. unfold submit_send. rewrite Hg. cbn [expect rbind]. eexists. split; [reflexivity|].
  assert (Hm : forall r d' g1, <[d := set_readers (gt_readers g - 1) g]> (gs_gates s) !! d' = Some g1 -> exists g0, gs_gates s !! d' = Some g0 /\ gate_moves i (RInside d) (RDone r) d' g0 g1).
  { intros r. apply (put_moves _ _ _ _ _ g); [exact Hg | split; [left; auto|]; cbn; rewrite Nat.eqb_refl; split; [lia|]; intros Hw; destruct (gt_writer g) as [j|] eqn:Ew; [|congruence]; apply (go_writer _ _ G d g Hg) in Ew as (y & Hj & Hy); destruct (sole_holder n s j y d i G Hj Hd Hy Hi)|]. intros d' g0 Hne Hd'. split; [left; auto|]. cbn. rewrite (proj2 (Nat.eqb_neq d d')) by congruence. split; [lia | apply (go_apart _ _ G d' g0 Hd')]. }
  assert (Hdone : forall r log', log_moves i s log' -> gates_ok n {| gs_gates := <[d := set_readers (gt_readers g - 1) g]> (gs_gates s); gs_callers := <[i := RDone r]> (gs_callers s); gs_log := log' |}) by (intros r log' Hlog; apply (caller_step n s i (RInside d) (RDone r)); [exact G | exact Hi | rewrite length_insert; apply G | apply Hm | exact Hlog | exact Logic.I | left; eapply put_flags; [exact Hg | reflexivity]]).
  destruct (gt_closed g) eqn:Ec; [apply Hdone; left; reflexivity|]. destruct reserved; cbn [negb]; [|apply Hdone; left; reflexivity]. apply Hdone. right. eexists. split; [reflexivity|]. split.
  - intros j close k _ Hj. exact (sole_holder n s j _ d i G Hj Hd eq_refl Hi).
  - intros j _ Hj. pose proof (go_closed _ _ G ltac:(right; eauto)) as Hall. unfold all_closed in Hall. rewrite Forall_lookup in Hall. rewrite (Hall d g Hg) in Ec. discriminate.
Qed.

(** A caller that holds a gate is alone in its state. *)
Lemma alone s i c : gates_ok n s -> gs_callers s !! i = Some c -> (forall d, (d < n)%nat -> holds_gate c d = true) -> forall j c', j <> i -> gs_callers s !! j = Some c' -> (0 < n)%nat -> holds_gate c' 0 = true -> False.
Proof. intros G Hi Hc j c' Hne Hj Hn Hh. apply Hne. symmetry. apply (one_writer n s 0 i j c c' G Hn Hi Hj); [apply Hc; exact Hn | exact Hh]. Qed.

Lemma fence_acquire_ok s i close k : gates_ok n s -> gs_callers s !! i = Some (FAcquire close k) -> gate_fits s (GStep i true true) -> gates_ok n (fence_acquire i close k s).
Proof.
  intros G Hi Hfit. cbn in Hfit. rewrite Hi in Hfit. pose proof (go_count _ _ G i close k ltac:(auto)) as Hk. unfold fence_acquire. destruct (gs_gates s !! k) as [g|] eqn:Hg.
  - destruct Hfit as [Hw Hr]. apply (caller_step n s i (FAcquire close k) (FAcquire close (S k))); [exact G | exact Hi | cbn; rewrite length_insert; apply G | | left; reflexivity | cbn; rewrite <- (go_length _ _ G); apply lookup_lt_Some in Hg; lia | left; cbn; eapply put_flags; [exact Hg | reflexivity]].
    cbn. apply (put_moves _ _ _ _ _ g); [exact Hg | split; [right; left; unfold holds_gate; rewrite (proj2 (Nat.ltb_ge k k)), (proj2 (Nat.ltb_lt k (S k))) by lia; auto|]; cbn; split; [lia | auto]|]. intros d' g0 Hne Hd'. split; [left; unfold holds_gate; split; [|reflexivity]; destruct (Nat.ltb_spec d' (S k)), (Nat.ltb_spec d' k); lia || reflexivity|]. cbn. split; [lia | apply (go_apart _ _ G d' g0 Hd')].
  - apply lookup_ge_None_1 in Hg. rewrite (go_length _ _ G) in Hg. assert (k = n) as -> by lia. assert (Hall : forall d, (d < n)%nat -> holds_gate (FAcquire close n) d = true) by (intros d Hd; apply Nat.ltb_lt; exact Hd).
    destruct (existsb gt_closed (gs_gates s)) eqn:Ec; [apply (caller_step n s i (FAcquire close n) (FDone close (Some GateClosed))); [exact G | exact Hi | cbn; rewrite length_map; apply G | apply release_gates; [exact G | exact Hall | auto] | left; reflexivity | exact Logic.I | left; cbn; rewrite map_map; reflexivity]|].
    assert (Hopen : Forall (fun g => gt_closed g = false) (gs_gates s)) by (apply Forall_forall; intros g Hin; destruct (gt_closed g) eqn:E; [|reflexivity]; assert (Hex : existsb gt_closed (gs_gates s) = true) by (apply existsb_exists; exists g; split; [apply list_elem_of_In; exact Hin | exact E]); congruence).
    destruct close.
    + apply (caller_step n s i (FAcquire true n) (FSend true 0)); [exact G | exact Hi | cbn; rewrite length_map; apply G | | left; reflexivity | | right; split; [cbn; apply Forall_map, Forall_true; reflexivity|]].
      * intros d g' Hg'. cbn in Hg'. rewrite list_lookup_fmap in Hg'. destruct (gs_gates s !! d) as [g|] eqn:E; [|discriminate]. injection Hg' as <-. exists g. split; [reflexivity|]. split; [left; split; [symmetry; apply Nat.ltb_lt; rewrite <- (go_length _ _ G); eapply lookup_lt_Some; exact E | reflexivity]|]. cbn. split; [lia | apply (go_apart _ _ G d g E)].
      * split; [lia|]. split; [exists (gs_log s); cbn; rewrite app_nil_r; reflexivity|]. split; [cbn; apply Forall_map, Forall_true; reflexivity|]. intros [j Hj]. rewrite <- (go_length _ _ G). apply open_and_closed; [apply (go_closed _ _ G); eauto | exact Hopen].
      * intros Hn j k Hne. split; intros Hj; exact (alone s i _ G Hi Hall j _ Hne Hj Hn eq_refl).
    + apply (caller_step n s i (FAcquire false n) (FReserve 0)); [exact G | exact Hi | apply G | apply same_gates; [exact G | intros d Hd; rewrite Hall by assumption; reflexivity | auto] | left; reflexivity | exact Hopen | left; reflexivity].
Qed.

Lemma fence_reserve_ok s i k reserved : gates_ok n s -> gs_callers s !! i = Some (FReserve k) -> gates_ok n (fence_reserve i k reserved s).
Proof.
  intros G Hi. pose proof (go_open _ _ G i k ltac:(auto)) as Hopen. unfold fence_reserve. destruct (k <? length (gs_gates s))%nat.
  - destruct reserved; [apply (caller_step n s i (FReserve k) (FReserve (S k))); [exact G | exact Hi | apply G | apply same_gates; auto | left; reflexivity | exact Hopen | left; reflexivity]|]. apply (caller_step n s i (FReserve k) (FDone false (Some GateBusy))); [exact G | exact Hi | cbn; rewrite length_map; apply G | apply release_gates; auto | left; reflexivity | exact Logic.I | left; cbn; rewrite map_map; reflexivity].
  - apply (caller_step n s i (FReserve k) (FSend false 0)); [exact G | exact Hi | apply G | apply same_gates; auto | left; reflexivity | | left; reflexivity]. split; [lia|]. split; [exists (gs_log s); cbn; rewrite app_nil_r; reflexivity|]. split; [exact Hopen|]. intros [j Hj]. rewrite <- (go_length _ _ G). apply open_and_closed; [apply (go_closed _ _ G); eauto | exact Hopen].
Qed.

Lemma publish_ok s i close k : gates_ok n s -> gs_callers s !! i = Some (FSend close k) -> gates_ok n (fence_send i close k s).
Proof.
  intros G Hi. pose proof (go_count _ _ G i close k ltac:(auto)) as Hk. destruct (go_sending _ _ G i close k Hi) as [before Hlog]. assert (Hall : forall d, (d < n)%nat -> holds_gate (FSend close k) d = true) by reflexivity.
  assert (Hflags : Forall (fun g => gt_closed g = close) (gs_gates s)) by (destruct close; [apply (go_closed _ _ G); eauto | eapply (go_open _ _ G); eauto]). unfold fence_send. rewrite (go_length _ _ G). destruct (Nat.ltb_spec k n).
  - apply (caller_step n s i (FSend close k) (FSend close (S k))); [exact G | exact Hi | exact (go_length _ _ G) | apply (same_gates s); auto | right; eexists; split; [reflexivity|]; split | | left; reflexivity].
    + intros j c' k' Hne Hj. exact (alone s i _ G Hi Hall j _ Hne Hj ltac:(lia) eq_refl).
    + intros j _ Hj. pose proof (go_last _ _ G j i close k Hj Hi). lia.
    + split; [lia|]. split; [exists before; transitivity (gs_log s ++ [(k, SentFence i)]); [reflexivity|]; rewrite Hlog; unfold block; rewrite seq_S, map_app, app_assoc; reflexivity|]. split; [exact Hflags|]. intros [j Hj]. exact (go_last _ _ G j i close k Hj Hi).
  - assert (k = n) as -> by lia. apply (caller_step n s i (FSend close n) (FDone close None)); [exact G | exact Hi | cbn; rewrite length_map; apply G | apply release_gates; auto | left; reflexivity | | left; cbn; rewrite map_map; reflexivity].
    split; [exists before; exact Hlog|]. intros ->. split; [cbn; apply Forall_map; eapply Forall_impl; [exact Hflags | auto]|]. intros (j & c' & k' & Hne & Hj). destruct (decide (n = 0%nat)) as [E|E]; [exact E|]. destruct (alone s i _ G Hi Hall j _ Hne Hj ltac:(lia) eq_refl).
Qed.

Lemma gate_step_ok s e : gates_ok n s -> gate_fits s e -> exists s', gate_step s e = Ok s' /\ gates_ok n s'.
Proof.
  intros G Hfit. destruct e as [c|close|i reserved listens]; [eexists; split; [reflexivity | apply add_ok; [exact G | destruct c; try contradiction; exact Logic.I]] | eexists; split; [reflexivity | apply add_ok; [exact G | exact Logic.I]]|].
  cbn [gate_step]. pose proof Hfit as Hf. cbn in Hf. destruct (gs_callers s !! i) as [c|] eqn:Hi; [|contradiction]. cbn [expect rbind]. destruct c as [d|d|r|close k|k|close k|close r]; try contradiction.
  - eexists. split; [reflexivity | apply lock_ok; assumption].
  - apply send_ok; assumption.
  - eexists. split; [reflexivity | apply fence_acquire_ok; assumption].
  - eexists. split; [reflexivity | apply fence_reserve_ok; assumption].
  - eexists. split; [reflexivity | apply publish_ok; assumption].
Qed.

Lemma gates_start_ok : gates_ok n (gates_start n).
Proof.
  assert (Hg : forall d g, gs_gates (gates_start n) !! d = Some g -> g = {| gt_closed := false; gt_readers := 0; gt_writer := None |}) by (intros d g Hd; cbn in Hd; apply lookup_replicate in Hd as [-> _]; reflexivity).
  constructor; [apply length_replicate | intros d g Hd i; rewrite (Hg d g Hd); cbn; split; [discriminate | intros (c & Hc & _); discriminate] | intros d g Hd; rewrite (Hg d g Hd); reflexivity | intros d g Hd; rewrite (Hg d g Hd); reflexivity | intros i d Hi; discriminate | intros i close k [Hi|Hi]; discriminate | intros i close k Hi; discriminate | intros i close Hi; discriminate | intros [(i & k & Hi)|(i & Hi)]; discriminate | intros i k [Hi|Hi]; discriminate | intros i j close k Hi; discriminate].
Qed.

Lemma gate_run_ok s es s' : gates_ok n s -> gate_run s es s' -> gates_ok n s'.
Proof. intros G R. induction R as [|s e es s1 s2 Hfit Hs R IH]; [exact G|]. destruct (gate_step_ok s e G Hfit) as (s3 & Hs3 & G3). assert (s1 = s3) as -> by congruence. exact (IH G3). Qed.
End Steps.

(** ** The properties *)

(** C18: The fences of one flush or closing are one cut through all disks: whatever requests and other fences run beside it, nothing is sent to any disk between its first and its last fence, and every disk gets one; after a closing nothing is sent to any disk at all. No step panics. *)
Theorem fence_is_one_cut (n : nat) (es : list GateEvent) s i close : gate_run (gates_start n) es s -> gs_callers s !! i = Some (FDone close None) ->
  (exists before after, gs_log s = before ++ map (fun d => (d, SentFence i)) (seq 0 n) ++ after /\ (close = true -> after = [])) /\ forall e, gate_fits s e -> exists s', gate_step s e = Ok s'.
Proof.
  intros R Hi. pose proof (gate_run_ok n _ _ _ (gates_start_ok n) R) as G. split; [exact (go_sent _ _ G i close Hi)|]. intros e He. destruct (gate_step_ok n s e G He) as (s' & Hs & _). eauto.
Qed.

Definition busy (c : Caller) : bool := match c with RDone _ | FDone _ _ => false | _ => true end.
Definition gates_held (c : Caller) : nat := match c with FAcquire _ k => k | _ => 0 end.

(** The caller that has taken the most gates. *)
Lemma foremost (callers : list Caller) : callers <> [] -> exists i c, callers !! i = Some c /\ forall j c', callers !! j = Some c' -> (gates_held c' <= gates_held c)%nat.
Proof.
  induction callers as [|c callers IH]; [contradiction|]. intros _. destruct callers as [|c1 callers]; [exists 0%nat, c; split; [reflexivity|]; intros [|j] c' Hj; [injection Hj as <-; lia | rewrite lookup_cons in Hj; destruct j; discriminate]|].
  destruct (IH ltac:(discriminate)) as (i & m & Hi & Hm). destruct (Nat.le_ge_cases (gates_held c) (gates_held m)) as [Hle|Hge].
  - exists (S i), m. split; [exact Hi|]. intros [|j] c' Hj; [injection Hj as <-; exact Hle | exact (Hm j c' Hj)].
  - exists 0%nat, c. split; [reflexivity|]. intros [|j] c' Hj; [injection Hj as <-; lia | etransitivity; [exact (Hm j c' Hj) | exact Hge]].
Qed.

(** C19: The gates never deadlock: as long as a request or a fence has not returned, the next step of one of them is possible, since gates are taken in the order of the disks. *)
Theorem gates_never_deadlock (n : nat) (es : list GateEvent) s i c : gate_run (gates_start n) es s -> gs_callers s !! i = Some c -> busy c = true -> exists j c', gs_callers s !! j = Some c' /\ busy c' = true /\ forall reserved listens, gate_fits s (GStep j reserved listens).
Proof.
  intros R Hi Hb. pose proof (gate_run_ok n _ _ _ (gates_start_ok n) R) as G.
  set (inside := fun c : Caller => match c with RInside _ | FReserve _ | FSend _ _ => true | _ => false end). destruct (existsb inside (gs_callers s)) eqn:Ein.
  - apply existsb_exists in Ein as (c' & Hin & Hc'). apply list_elem_of_In, list_elem_of_lookup in Hin as [j Hj]. exists j, c'. split; [exact Hj|]. cbn. rewrite Hj. destruct c'; try discriminate; auto.
  - assert (Hno : forall j c', gs_callers s !! j = Some c' -> inside c' = false) by (intros j c' Hj; destruct (inside c') eqn:E; [|reflexivity]; assert (Hex : existsb inside (gs_callers s) = true) by (apply existsb_exists; exists c'; split; [apply list_elem_of_In; eapply list_elem_of_lookup_2; exact Hj | exact E]); congruence).
    assert (Hread : forall d g, gs_gates s !! d = Some g -> gt_readers g = 0) by (intros d g Hg; rewrite (go_readers _ _ G d g Hg); apply total_zero; intros y Hy; apply list_elem_of_lookup in Hy as [j Hj]; specialize (Hno j y Hj); destruct y; try reflexivity; discriminate).
    destruct (foremost (gs_callers s) ltac:(intros E; rewrite E in Hi; discriminate)) as (m & cm & Hm & Hmax). assert (Hfree : forall d g, gs_gates s !! d = Some g -> (gates_held cm <= d)%nat -> gt_writer g = None).
    { intros d g Hg Hd. destruct (gt_writer g) as [j|] eqn:Ew; [|reflexivity]. apply (go_writer _ _ G d g Hg) in Ew as (y & Hj & Hy). specialize (Hno j y Hj). specialize (Hmax j y Hj). destruct y; try discriminate. cbn in Hmax. apply Nat.ltb_lt in Hy. lia. }
    destruct (match cm with FAcquire _ _ => true | _ => false end) eqn:Ec.
    + exists m, cm. split; [exact Hm|]. destruct cm as [| | |close k| | |]; try discriminate. split; [reflexivity|]. intros rs ls. cbn. rewrite Hm. destruct (gs_gates s !! k) as [g|] eqn:Hg; [|exact Logic.I]. split; [apply (Hfree k g Hg); reflexivity | apply (Hread k g Hg)].
    + assert (H0 : gates_held cm = 0%nat) by (destruct cm; reflexivity || discriminate). exists i, c. split; [exact Hi|]. split; [exact Hb|]. intros rs ls. cbn. rewrite Hi. specialize (Hno i c Hi). specialize (Hmax i c Hi). destruct c as [d|d|r|close k|k|close k|close r]; try discriminate; [destruct (gs_gates s !! d) as [g|] eqn:Hg; [apply (Hfree d g Hg); lia | exact Logic.I]|]. destruct (gs_gates s !! k) as [g|] eqn:Hg; [|exact Logic.I]. split; [apply (Hfree k g Hg); lia | apply (Hread k g Hg)].
Qed.

Lemma duplicate_none ids : forall seen, duplicate seen ids = false -> NoDup ids /\ forall id, id ∈ ids -> id ∉ seen.
Proof.
  induction ids as [|id ids IH]; intros seen Hd; [split; [constructor | intros id Hin; apply not_elem_of_nil in Hin as []]|]. cbn in Hd. case_bool_decide as E; [discriminate|]. destruct (IH _ Hd) as [H1 H2]. split; [constructor; [intros Hin; apply (H2 id Hin); constructor | exact H1]|]. intros id' Hin. apply elem_of_cons in Hin as [->|Hin]; [exact E|]. intros Hs. apply (H2 id' Hin). constructor. exact Hs.
Qed.

(** The options that opening accepts leave room for a read of the largest class in the budget of the store and of every disk, also beside retained buffers. *)
Theorem open_leaves_headroom engines o p l : 0 <= so_pool_bytes o -> Store_open engines o = Ok (p, l) -> 0 < so_max_class o /\ bl_retention_bytes l + so_max_class o = bl_bytes l /\ bl_retention_read_bytes l + so_max_class o = bl_read_bytes l /\ 0 < bl_retention_read_bytes l /\ bl_disks l = length engines /\ NoDup (map di_uuid engines).
Proof.
  unfold Store_open, fail_if. intros Hp. destruct (match engines with [] => true | _ => false end); [discriminate|]. destruct (so_max_requests o =? 0); [discriminate|]. destruct (negb _ || _ || _) eqn:E1; [discriminate|]. destruct (so_max_bytes o <? so_max_class o) eqn:E2; [discriminate|]. destruct (match so_worker_cpus o with [] => false | _ => _ end); [discriminate|]. destruct (duplicate [] (map di_uuid engines)) eqn:E3; [discriminate|]. cbn. intros [= <- <-]. cbn.
  apply orb_false_iff in E1 as [E1 E4]. apply orb_false_iff in E1 as [_ E1]. boolp. pose proof (Z.mul_div_le (so_pool_bytes o) (so_max_class o) ltac:(lia)). assert (Hd : 8 * so_max_class o <= so_pool_bytes o / 2) by (apply Z.div_le_lower_bound; nia). unfold saturating_sub. repeat match goal with |- context [if ?b then _ else _] => destruct b eqn:?; boolp end; try lia.
  split; [lia|]. split; [lia|]. split; [lia|]. split; [lia|]. split; [reflexivity | apply (duplicate_none (map di_uuid engines) [] E3)].
Qed.

(** An opened store has a disk for every chunk, so that the [expect] of
    [Store::disk_of] holds. *)
Theorem open_places_every_chunk ln (engines : list DiskInfo) o p l id : ln_finite ln -> Forall (fun y => 0 < di_capacity y <= U64_MAX) engines -> Store_open engines o = Ok (p, l) -> exists z, disk_of ln p id = Some z /\ 0 <= z < len engines.
Proof.
  intros Hln Hcap Hopen. set (ts := map (fun y => {| tg_uuid := di_uuid y; tg_weight := di_capacity y |}) engines).
  assert (Hp : engines <> [] /\ p = Placement_new ts) by (unfold Store_open in Hopen; destruct engines as [|e engines]; [discriminate|]; cbv zeta in Hopen; repeat (cbn [fail_if rbind] in Hopen; match type of Hopen with context [fail_if ?b _] => destruct b; [discriminate|] end); injection Hopen as <- <-; split; [discriminate | reflexivity]). destruct Hp as [Hne ->].
  assert (Hw : forall y, y ∈ ts -> 0 < tg_weight y <= U64_MAX) by (intros y Hy; apply list_elem_of_fmap in Hy as (e & -> & He); rewrite Forall_forall in Hcap; exact (Hcap e He)). pose proof (placement_exact ln ts id Hln ltac:(intros y Hy; specialize (Hw y Hy); unfold is_u64, U64_MAX in *; lia)) as Hd.
  destruct (disk_of ln (Placement_new ts) id) as [z|]; [|destruct engines as [|e engines]; [contradiction|]; specialize (Hw _ (list_elem_of_here _ _)); specialize (Hd _ (list_elem_of_here _ _)); lia]. destruct Hd as (i & -> & q & Hq & _). exists (Z.of_nat i). split; [reflexivity|]. unfold rank in Hq. destruct (ts !! i) as [y|] eqn:E; [|discriminate]. apply lookup_lt_Some in E. unfold ts in E. rewrite length_map in E. unfold len. lia.
Qed.

(** ** A run: a request and a flush on two disks *)

Definition gate_demo : list GateEvent := [GRequest (RBefore 0); GStep 0 true true; GFence false; GStep 0 true true] ++ replicate 9 (GStep 1 true true).
Definition gate_next s (e : GateEvent) : Gates := match gate_step s e with Ok s => s | _ => s end.
Definition gate_end (es : list GateEvent) : Gates := fold_left gate_next es (gates_start 2).

Lemma gate_run_next s e es s' : gate_fits s e -> (match gate_step s e with Ok _ => true | _ => false end) = true -> gate_run (gate_next s e) es s' -> gate_run s (e :: es) s'.
Proof. intros Hf Hok R. destruct (gate_step s e) as [y| |] eqn:E; try discriminate. eapply gate_run_cons; [exact Hf | exact E|]. unfold gate_next in R. rewrite E in R. exact R. Qed.

Ltac run_gates := unfold gate_end, gate_demo; cbn [app replicate fold_left]; repeat (apply gate_run_next; [vm_compute; repeat split | vm_compute; reflexivity|]); apply gate_run_nil.

Lemma fence_is_one_cut_witness : gs_log (gate_end gate_demo) = [(0%nat, SentRequest 0); (0%nat, SentFence 1); (1%nat, SentFence 1)] /\ exists before after, gs_log (gate_end gate_demo) = before ++ map (fun d => (d, SentFence 1)) (seq 0 2) ++ after.
Proof.
  split; [reflexivity|]. destruct (fence_is_one_cut 2 gate_demo (gate_end gate_demo) 1 false ltac:(run_gates) eq_refl) as [(before & after & H & _) _]. exists before, after. exact H.
Defined.

Lemma gates_never_deadlock_witness : exists j c', gs_callers (gate_end (take 3 gate_demo)) !! j = Some c' /\ busy c' = true.
Proof.
  destruct (gates_never_deadlock 2 (take 3 gate_demo) (gate_end (take 3 gate_demo)) 1 (FAcquire false 0) ltac:(unfold gate_demo; cbn [app replicate take]; run_gates) eq_refl eq_refl) as (j & c' & H1 & H2 & _). exists j, c'. auto.
Defined.
