(* ===== verification/MemPolicy.v ===== *)
(** * Replacement policies of the memory cache (moat-cache-memory/src/policy.rs)

    Replacement queues are doubly linked lists over slab indices; the ghost
    history and the frequency sketch hold hashes only. A slab is the map from
    its keys to its values. A loop takes fuel, and running out of it is a
    panic, so that an operation shown not to panic is shown to end. *)

From stdpp Require Import gmap.
From S2P Require Import Prelude.

Inductive Priority := PNormal | PHigh.
Record LruConfig := { lru_high_priority_percent : Z }.
Record LfuConfig := { lfu_window_percent : Z; lfu_protected_percent : Z; lfu_sketch_width : Z }.
Record S3FifoConfig := { s3_small_percent : Z; s3_ghost_entries : Z }.
Definition LruConfig_default : LruConfig := {| lru_high_priority_percent := 80 |}.
Definition LfuConfig_default : LfuConfig := {| lfu_window_percent := 10; lfu_protected_percent := 80; lfu_sketch_width := 2048 |}.
Definition S3FifoConfig_default : S3FifoConfig := {| s3_small_percent := 10; s3_ghost_entries := 4096 |}.

Inductive Policy := Fifo | Lru (c : LruConfig) | Lfu (c : LfuConfig) | S3Fifo (c : S3FifoConfig) | Sieve.

Definition Policy_validate (p : Policy) : res string unit :=
  match p with
  | Lru c => fail_if (lru_high_priority_percent c >? 100) "LRU priority percentage exceeds 100"%string
  | Lfu c =>
      if (lfu_window_percent c =? 0) || (lfu_protected_percent c =? 0) || (lfu_window_percent c + lfu_protected_percent c >=? 100) then
        Err "TinyLFU requires positive window/protected percentages summing to less than 100"%string
      else fail_if (negb (is_power_of_two (lfu_sketch_width c)) || (lfu_sketch_width c >? Z.shiftl 1 24)) "TinyLFU sketch width must be a power of two no larger than 2^24"%string
  | S3Fifo c => fail_if ((s3_small_percent c =? 0) || (s3_small_percent c >=? 100)) "S3FIFO small percentage must be between 1 and 99"%string
  | _ => Ok tt
  end.

Definition mutable_hits (p : Policy) : bool := match p with Lru _ | Lfu _ => true | _ => false end.

(** Without overflow for capacities near the maximum. *)
Definition portion (capacity percent : Z) : Z := capacity / 100 * percent + capacity mod 100 * percent / 100.

(** ** Ghosts *)

Record Ghost := { gh_queue : list (Z * Z); gh_counts : gmap Z Z; gh_weight : Z; gh_capacity : Z; gh_limit : Z }.

Definition Ghost_new (limit capacity : Z) : Ghost := {| gh_queue := []; gh_counts := ∅; gh_weight := 0; gh_capacity := capacity; gh_limit := limit |}.
Definition Ghost_contains (g : Ghost) (hash : Z) : bool := match gh_counts g !! hash with Some _ => true | None => false end.

Definition Ghost_pop (g : Ghost) : steps Ghost :=
  match gh_queue g with
  | [] => Ok g
  | (hash, weight) :: queue =>
      let? count := expect (gh_counts g !! hash) in
      if (count <? 1) || (gh_weight g <? weight) then Panic
      else Ok {| gh_queue := queue; gh_counts := if count - 1 =? 0 then delete hash (gh_counts g) else <[hash := count - 1]> (gh_counts g);
                 gh_weight := gh_weight g - weight; gh_capacity := gh_capacity g; gh_limit := gh_limit g |}
  end.

(** [while over(g) { g.pop() }]. *)
Fixpoint pop_while (n : nat) (over : Ghost -> bool) (g : Ghost) : steps Ghost :=
  if over g then match n with O => Panic | S n => let? g := Ghost_pop g in pop_while n over g end else Ok g.

Definition Ghost_push (g : Ghost) (hash weight : Z) : steps Ghost :=
  if (gh_limit g =? 0) || (weight >? gh_capacity g) then Ok g
  else
    let? g := pop_while (length (gh_queue g)) (fun g => (gh_weight g >? gh_capacity g - weight) || (len (gh_queue g) >=? gh_limit g)) g in
    Ok {| gh_queue := gh_queue g ++ [(hash, weight)]; gh_counts := <[hash := default 0 (gh_counts g !! hash) + 1]> (gh_counts g);
          gh_weight := gh_weight g + weight; gh_capacity := gh_capacity g; gh_limit := gh_limit g |}.

Definition Ghost_trim (g : Ghost) : steps Ghost :=
  pop_while (length (gh_queue g)) (fun g => (gh_weight g >? gh_capacity g) || (len (gh_queue g) >? gh_limit g)) g.

(** ** The frequency sketch *)

Record Sketch := { sk_counters : list Z; sk_width : Z; sk_samples : Z }.

Definition Sketch_new (width : Z) : Sketch := {| sk_counters := replicate (Z.to_nat (width * 4)) 0; sk_width := width; sk_samples := 0 |}.

Definition Sketch_index (s : Sketch) (hash row : Z) : Z :=
  let h := wrap64 (hash + wrap64 (row * 0x9e3779b97f4a7c15)) in
  let h := wrap64 (Z.lxor h (Z.shiftr h 30) * 0xbf58476d1ce4e5b9) in
  let h := wrap64 (Z.lxor h (Z.shiftr h 27) * 0x94d049bb133111eb) in
  Z.lor (Z.land (Z.lxor h (Z.shiftr h 31)) (sk_width s - 1)) (row * sk_width s).

(** [self.counters[i].saturating_add(1)] at the rows [row ..]. *)
Fixpoint bump_rows (n : nat) (s : Sketch) (hash row : Z) : steps Sketch :=
  match n with
  | O => Ok s
  | S n =>
      let i := Sketch_index s hash row in
      let? c := index_get (sk_counters s) i in
      let? counters := index_set (sk_counters s) i (Z.min (c + 1) 255) in
      bump_rows n {| sk_counters := counters; sk_width := sk_width s; sk_samples := sk_samples s |} hash (row + 1)
  end.

Definition Sketch_record (s : Sketch) (hash : Z) : steps Sketch :=
  let? s := bump_rows 4 s hash 0 in
  let samples := sk_samples s + 1 in
  Ok (if samples >=? sk_width s * 10 then {| sk_counters := map (fun c => Z.shiftr c 1) (sk_counters s); sk_width := sk_width s; sk_samples := Z.shiftr samples 1 |}
      else {| sk_counters := sk_counters s; sk_width := sk_width s; sk_samples := samples |}).

Definition Sketch_estimate (s : Sketch) (hash : Z) : steps Z :=
  let? c0 := index_get (sk_counters s) (Sketch_index s hash 0) in
  let? c1 := index_get (sk_counters s) (Sketch_index s hash 1) in
  let? c2 := index_get (sk_counters s) (Sketch_index s hash 2) in
  let? c3 := index_get (sk_counters s) (Sketch_index s hash 3) in
  Ok (Z.min (Z.min (Z.min c0 c1) c2) c3).

(** ** Queues

    What the policies read of a record: its identity, hash, weight and
    priority; [rc_key] and [rc_value] are the cache's. *)

Section Policies.
Context {K V : Type}.

Record MemRecord := { rc_id : Z; rc_key : K; rc_value : V; rc_hash : Z; rc_weight : Z; rc_priority : Priority }.
Record Node := { nd_record : MemRecord; nd_prev : option Z; nd_next : option Z; nd_queue : option Z; nd_frequency : Z }.
Definition nd_set_links (prev next queue : option Z) (n : Node) : Node :=
  {| nd_record := nd_record n; nd_prev := prev; nd_next := next; nd_queue := queue; nd_frequency := nd_frequency n |}.
Definition nd_set_frequency (v : Z) (n : Node) : Node :=
  {| nd_record := nd_record n; nd_prev := nd_prev n; nd_next := nd_next n; nd_queue := nd_queue n; nd_frequency := v |}.

Record QList := { ql_head : option Z; ql_tail : option Z; ql_weight : Z }.

Record PolicyState := {
  ps_policy : Policy;
  ps_lists : list QList;
  ps_capacity : Z;
  ps_hand : option Z;
  ps_ghost : Ghost;
  ps_sketch : option Sketch
}.

(** The slab's nodes travel with the state. *)
Record PS := { ps_state : PolicyState; ps_nodes : gmap Z Node }.

Definition ps_set_lists (v : list QList) (s : PolicyState) : PolicyState :=
  {| ps_policy := ps_policy s; ps_lists := v; ps_capacity := ps_capacity s; ps_hand := ps_hand s; ps_ghost := ps_ghost s; ps_sketch := ps_sketch s |}.
Definition ps_set_hand (v : option Z) (s : PolicyState) : PolicyState :=
  {| ps_policy := ps_policy s; ps_lists := ps_lists s; ps_capacity := ps_capacity s; ps_hand := v; ps_ghost := ps_ghost s; ps_sketch := ps_sketch s |}.
Definition ps_set_ghost (v : Ghost) (s : PolicyState) : PolicyState :=
  {| ps_policy := ps_policy s; ps_lists := ps_lists s; ps_capacity := ps_capacity s; ps_hand := ps_hand s; ps_ghost := v; ps_sketch := ps_sketch s |}.
Definition ps_set_sketch (v : option Sketch) (s : PolicyState) : PolicyState :=
  {| ps_policy := ps_policy s; ps_lists := ps_lists s; ps_capacity := ps_capacity s; ps_hand := ps_hand s; ps_ghost := ps_ghost s; ps_sketch := v |}.
Definition ps_set_capacity (v : Z) (s : PolicyState) : PolicyState :=
  {| ps_policy := ps_policy s; ps_lists := ps_lists s; ps_capacity := v; ps_hand := ps_hand s; ps_ghost := ps_ghost s; ps_sketch := ps_sketch s |}.

Definition empty_list : QList := {| ql_head := None; ql_tail := None; ql_weight := 0 |}.

Definition PolicyState_new (policy : Policy) (capacity : Z) : PolicyState :=
  {| ps_policy := policy; ps_lists := [empty_list; empty_list; empty_list]; ps_capacity := capacity; ps_hand := None;
     ps_ghost := Ghost_new (match policy with S3Fifo c => s3_ghost_entries c | _ => 0 end) capacity;
     ps_sketch := match policy with Lfu c => Some (Sketch_new (lfu_sketch_width c)) | _ => None end |}.

Definition update_node (nodes : gmap Z Node) (id : Z) (f : Node -> Node) : steps (gmap Z Node) :=
  let? n := expect (nodes !! id) in Ok (<[id := f n]> nodes).

Definition list_push (x : PS) (id queue : Z) : steps PS :=
  let '{| ps_state := s; ps_nodes := nodes |} := x in
  let? n := expect (nodes !! id) in
  (if nd_queue n then Panic else Ok tt) ;?
  let? list := index_get (ps_lists s) queue in
  let? nodes := (match ql_tail list with
                 | Some tail => update_node nodes tail (fun n => nd_set_links (nd_prev n) (Some id) (nd_queue n) n)
                 | None => Ok nodes
                 end) in
  let? n := expect (nodes !! id) in
  let nodes := <[id := nd_set_links (ql_tail list) None (Some queue) n]> nodes in
  let? lists := index_set (ps_lists s) queue
    {| ql_head := match ql_tail list with Some _ => ql_head list | None => Some id end; ql_tail := Some id; ql_weight := ql_weight list + rc_weight (nd_record n) |} in
  Ok {| ps_state := ps_set_lists lists s; ps_nodes := nodes |}.

Definition update_list (s : PolicyState) (queue : Z) (f : QList -> QList) : steps PolicyState :=
  let? list := index_get (ps_lists s) queue in
  let? lists := index_set (ps_lists s) queue (f list) in
  Ok (ps_set_lists lists s).

Definition list_remove (x : PS) (id : Z) : steps PS :=
  let '{| ps_state := s; ps_nodes := nodes |} := x in
  let? node := expect (nodes !! id) in
  match nd_queue node with
  | None => Ok x
  | Some queue =>
      let prev := nd_prev node in
      let next := nd_next node in
      let s := if decide (ps_hand s = Some id) then ps_set_hand next s else s in
      let? (s, nodes) := (match prev with
        | Some p => let? nodes := update_node nodes p (fun n => nd_set_links (nd_prev n) next (nd_queue n) n) in Ok (s, nodes)
        | None => let? s := update_list s queue (fun l => {| ql_head := next; ql_tail := ql_tail l; ql_weight := ql_weight l |}) in Ok (s, nodes)
        end) in
      let? (s, nodes) := (match next with
        | Some p => let? nodes := update_node nodes p (fun n => nd_set_links prev (nd_next n) (nd_queue n) n) in Ok (s, nodes)
        | None => let? s := update_list s queue (fun l => {| ql_head := ql_head l; ql_tail := prev; ql_weight := ql_weight l |}) in Ok (s, nodes)
        end) in
      let? l := index_get (ps_lists s) queue in
      (if ql_weight l <? rc_weight (nd_record node) then Panic else Ok tt) ;?
      let? s := update_list s queue (fun l => {| ql_head := ql_head l; ql_tail := ql_tail l; ql_weight := ql_weight l - rc_weight (nd_record node) |}) in
      let? nodes := update_node nodes id (nd_set_links None None None) in
      Ok {| ps_state := s; ps_nodes := nodes |}
  end.

Definition move_to (x : PS) (id queue : Z) : steps PS :=
  let? x := list_remove x id in list_push x id queue.

Definition list_at (s : PolicyState) (queue : Z) : QList := default empty_list (ps_lists s !! Z.to_nat queue).
Definition total_weight (s : PolicyState) : Z := foldr (fun l n => ql_weight l + n) 0 (ps_lists s).

(** [while over(x) { move the head of [from] to [to] }]. *)
Fixpoint move_while (n : nat) (over : PolicyState -> bool) (x : PS) (from to : Z) : steps PS :=
  if over (ps_state x) then
    match ql_head (list_at (ps_state x) from) with
    | None => Ok x
    | Some id => match n with O => Panic | S n => let? x := move_to x id to in move_while n over x from to end
    end
  else Ok x.

Definition demote (x : PS) (from to limit : Z) : steps PS :=
  move_while (size (ps_nodes x)) (fun s => ql_weight (list_at s from) >? limit) x from to.

Definition policy_insert (x : PS) (id : Z) : steps PS :=
  let s := ps_state x in
  let? node := expect (ps_nodes x !! id) in
  let queue := match ps_policy s with
               | Lru _ => 2
               | S3Fifo _ => if Ghost_contains (ps_ghost s) (rc_hash (nd_record node)) then 1 else 0
               | _ => 0
               end in
  let? s := (match ps_sketch s with
             | Some sketch => let? sketch := Sketch_record sketch (rc_hash (nd_record node)) in Ok (ps_set_sketch (Some sketch) s)
             | None => Ok s
             end) in
  let? x := list_push {| ps_state := s; ps_nodes := ps_nodes x |} id queue in
  match ps_policy s with
  | Lfu c => move_while (size (ps_nodes x)) (fun s => (total_weight s <=? ps_capacity s) && (ql_weight (list_at s 0) >? portion (ps_capacity s) (lfu_window_percent c))) x 0 1
  | _ => Ok x
  end.

(** A hit under a shared lock: only the node's counter changes. *)
Definition access_shared (s : PolicyState) (node : Node) : steps Node :=
  match ps_policy s with
  | Sieve => Ok (nd_set_frequency 1 node)
  | S3Fifo _ => Ok (nd_set_frequency (Z.min (nd_frequency node + 1) 3) node)
  | Fifo => Ok node
  | _ => Panic
  end.

Definition policy_access (x : PS) (id : Z) : steps PS :=
  let s := ps_state x in
  let? node := expect (ps_nodes x !! id) in
  match ps_policy s with
  | Lru _ => if decide (nd_queue node = Some 2) then Ok x else move_to x id 2
  | Lfu c =>
      let? sketch := expect (ps_sketch s) in
      let? sketch := Sketch_record sketch (rc_hash (nd_record node)) in
      let queue := if decide (nd_queue node = Some 0) then 0 else 2 in
      let? x := move_to {| ps_state := ps_set_sketch (Some sketch) s; ps_nodes := ps_nodes x |} id queue in
      demote x 2 1 (portion (ps_capacity s) (lfu_protected_percent c))
  | _ => Panic
  end.

Definition policy_release (x : PS) (id : Z) : steps PS :=
  let s := ps_state x in
  match ps_policy s with
  | Lru c =>
      let? node := expect (ps_nodes x !! id) in
      if decide (nd_queue node = Some 2) then
        let? x := move_to x id (match rc_priority (nd_record node) with PHigh => 1 | PNormal => 0 end) in
        demote x 1 0 (portion (ps_capacity s) (lru_high_priority_percent c))
      else Ok x
  | _ => Ok x
  end.

(** ** Victims *)

Definition oelse {A} (a b : option A) : option A := match a with Some _ => a | None => b end.

Fixpoint sieve_victim (n : nat) (x : PS) : steps (option Z * PS) :=
  match oelse (ps_hand (ps_state x)) (ql_head (list_at (ps_state x) 0)) with
  | None => Ok (None, x)
  | Some id =>
      match n with
      | O => Panic
      | S n =>
          let? node := expect (ps_nodes x !! id) in
          let x := {| ps_state := ps_set_hand (nd_next node) (ps_state x); ps_nodes := <[id := nd_set_frequency 0 node]> (ps_nodes x) |} in
          if nd_frequency node =? 0 then Ok (Some id, x) else sieve_victim n x
      end
  end.

Definition lfu_victim (c : LfuConfig) (x : PS) : steps (option Z * PS) :=
  let s := ps_state x in
  let rest := oelse (oelse (ql_head (list_at s 1)) (ql_head (list_at s 2))) (ql_head (list_at s 0)) in
  if ql_weight (list_at s 0) >? portion (ps_capacity s) (lfu_window_percent c) then
    match ql_head (list_at s 0), ql_head (list_at s 1) with
    | None, _ => Ok (rest, x)
    | Some candidate, None => Ok (Some candidate, x)
    | Some candidate, Some victim =>
        let? sketch := expect (ps_sketch s) in
        let? cn := expect (ps_nodes x !! candidate) in
        let? vn := expect (ps_nodes x !! victim) in
        let? a := Sketch_estimate sketch (rc_hash (nd_record cn)) in
        let? b := Sketch_estimate sketch (rc_hash (nd_record vn)) in
        if a >? b then let? x := move_to x candidate 1 in Ok (Some victim, x) else Ok (Some candidate, x)
    end
  else Ok (rest, x).

Fixpoint s3fifo_victim (n : nat) (c : S3FifoConfig) (x : PS) : steps (option Z * PS) :=
  let s := ps_state x in
  let small := (ql_weight (list_at s 0) >? portion (ps_capacity s) (s3_small_percent c)) || (match ql_head (list_at s 1) with None => true | Some _ => false end) in
  match (if small then ql_head (list_at s 0) else None) with
  | Some id =>
      let? node := expect (ps_nodes x !! id) in
      let x := {| ps_state := s; ps_nodes := <[id := nd_set_frequency 0 node]> (ps_nodes x) |} in
      if nd_frequency node >? 1 then
        match n with O => Panic | S n => let? x := move_to x id 1 in s3fifo_victim n c x end
      else
        let? ghost := Ghost_push (ps_ghost s) (rc_hash (nd_record node)) (rc_weight (nd_record node)) in
        Ok (Some id, {| ps_state := ps_set_ghost ghost s; ps_nodes := ps_nodes x |})
  | None =>
      match ql_head (list_at s 1) with
      | None => Ok (None, x)
      | Some id =>
          let? node := expect (ps_nodes x !! id) in
          if nd_frequency node =? 0 then Ok (Some id, x)
          else
            match n with
            | O => Panic
            | S n =>
                let x := {| ps_state := s; ps_nodes := <[id := nd_set_frequency (nd_frequency node - 1) node]> (ps_nodes x) |} in
                let? x := move_to x id 1 in s3fifo_victim n c x
            end
      end
  end.

(** A linked victim, which the cache then removes. *)
Definition policy_victim (x : PS) : steps (option Z * PS) :=
  let s := ps_state x in
  match ps_policy s with
  | Fifo => Ok (ql_head (list_at s 0), x)
  | Lru _ => Ok (oelse (ql_head (list_at s 0)) (ql_head (list_at s 1)), x)
  | Sieve => sieve_victim (S (2 * size (ps_nodes x))) x
  | Lfu c => lfu_victim c x
  | S3Fifo c => s3fifo_victim (S (4 * size (ps_nodes x))) c x
  end.

Definition policy_resize (x : PS) (capacity : Z) : steps PS :=
  let s := ps_set_capacity capacity (ps_state x) in
  let g := ps_ghost s in
  let? g := Ghost_trim {| gh_queue := gh_queue g; gh_counts := gh_counts g; gh_weight := gh_weight g; gh_capacity := capacity; gh_limit := gh_limit g |} in
  let x := {| ps_state := ps_set_ghost g s; ps_nodes := ps_nodes x |} in
  match ps_policy s with
  | Lru c => demote x 1 0 (portion capacity (lru_high_priority_percent c))
  | Lfu c => demote x 2 1 (portion capacity (lfu_protected_percent c))
  | _ => Ok x
  end.

Definition clear_history (s : PolicyState) : PolicyState :=
  let g := ps_ghost s in
  ps_set_hand None
    (ps_set_ghost {| gh_queue := []; gh_counts := ∅; gh_weight := 0; gh_capacity := gh_capacity g; gh_limit := gh_limit g |}
       (ps_set_sketch (match ps_sketch s with Some k => Some {| sk_counters := replicate (length (sk_counters k)) 0; sk_width := sk_width k; sk_samples := 0 |} | None => None end) s)).
End Policies.
