(* ===== verification/MemLists.v ===== *)
(** * The queues of the memory cache are lists

    The links in the nodes represent one list of slab indices per queue;
    pushing appends, removing deletes, and nothing else of a node changes. *)

From stdpp Require Import gmap.
From S2P Require Import Prelude PoolLinks MemPolicy.

Section Lists.
Context {K V : Type}.
Abbreviation Node := (@Node K V).
Abbreviation PS := (@PS K V).
Implicit Types nodes : gmap Z Node.

Definition core (n : Node) : MemRecord * Z := (nd_record n, nd_frequency n).

(** ** Segments of a linked list *)

Fixpoint seg nodes (q : Z) (prev : option Z) (l : list Z) (nxt : option Z) : Prop :=
  match l with
  | [] => True
  | id :: l => (exists n, nodes !! id = Some n /\ nd_prev n = prev /\ nd_next n = oelse (head l) nxt /\ nd_queue n = Some q) /\ seg nodes q (Some id) l nxt
  end.

Lemma seg_frame nodes nodes' q l : forall prev nxt, (forall id, id ∈ l -> nodes' !! id = nodes !! id) -> seg nodes q prev l nxt -> seg nodes' q prev l nxt.
Proof.
  induction l as [|id l IH]; intros prev nxt Hf; cbn [seg]; [auto|]. intros [(n & Hn & H1) H2]. split; [exists n; rewrite (Hf id) by left; auto | apply IH; [intros j Hj; apply Hf; right; assumption | assumption]].
Qed.

Lemma seg_app nodes q a : forall prev b nxt, seg nodes q prev (a ++ b) nxt <-> seg nodes q prev a (oelse (head b) nxt) /\ seg nodes q (oelse (last a) prev) b nxt.
Proof.
  induction a as [|id a IH]; intros prev b nxt; cbn [app seg]; [cbn; tauto|]. rewrite IH. assert (Hh : oelse (head (a ++ b)) nxt = oelse (head a) (oelse (head b) nxt)) by (destruct a; reflexivity). rewrite Hh.
  assert (Hl : oelse (last (id :: a)) prev = oelse (last a) (Some id)) by (destruct a as [|y a]; [reflexivity|]; rewrite last_cons; destruct (last (y :: a)) eqn:He; [reflexivity | apply last_None in He; discriminate]). rewrite Hl. tauto.
Qed.

Lemma seg_change_last nodes nodes' q prev a t x y n n' : (forall id, id ∈ a -> nodes' !! id = nodes !! id) -> nodes !! t = Some n -> nodes' !! t = Some n' ->
  nd_prev n' = nd_prev n -> nd_queue n' = nd_queue n -> nd_next n' = y -> seg nodes q prev (a ++ [t]) x -> seg nodes' q prev (a ++ [t]) y.
Proof.
  intros Hf Hn Hn' Hp Hq Hx Hs. apply seg_app in Hs as [H1 H2]. apply seg_app. cbn [head oelse] in *. split; [eapply seg_frame; eassumption|]. cbn [seg] in *. destruct H2 as [(m & Hm & M1 & _ & M3) _]. split; [|exact I].
  assert (m = n) as -> by congruence. exists n'. cbn [head oelse]. repeat split; congruence.
Qed.

Lemma seg_change_first nodes nodes' q p p' h b nxt n n' : (forall id, id ∈ b -> nodes' !! id = nodes !! id) -> nodes !! h = Some n -> nodes' !! h = Some n' ->
  nd_prev n' = p' -> nd_queue n' = nd_queue n -> nd_next n' = nd_next n -> seg nodes q p (h :: b) nxt -> seg nodes' q p' (h :: b) nxt.
Proof.
  intros Hf Hn Hn' Hp Hq Hx [(m & Hm & _ & M2 & M3) Hs]. split; [|eapply seg_frame; eassumption]. assert (m = n) as -> by congruence. exists n'. repeat split; congruence.
Qed.

Lemma seg_node nodes q l : forall prev nxt id, seg nodes q prev l nxt -> id ∈ l -> exists n, nodes !! id = Some n /\ nd_queue n = Some q.
Proof.
  induction l as [|x l IH]; intros prev nxt id Hs Hin; [inversion Hin|]. destruct Hs as [(n & Hn & _ & _ & Hq) Hs]. apply elem_of_cons in Hin as [->|Hin]; [eauto | eapply IH; eassumption].
Qed.

(** ** Weights *)

Definition weight_of nodes (id : Z) : Z := match nodes !! id with Some n => rc_weight (nd_record n) | None => 0 end.
Definition wsum nodes (l : list Z) : Z := foldr (fun id a => weight_of nodes id + a) 0 l.
Definition same_cores nodes nodes' : Prop := forall id, core <$> nodes' !! id = core <$> nodes !! id.

Lemma same_cores_refl nodes : same_cores nodes nodes.
Proof. intros id. reflexivity. Qed.
Lemma same_cores_trans a b c : same_cores a b -> same_cores b c -> same_cores a c.
Proof. intros H1 H2 id. rewrite H2. apply H1. Qed.

Lemma same_cores_node nodes nodes' id n : same_cores nodes nodes' -> nodes !! id = Some n -> exists n', nodes' !! id = Some n' /\ nd_record n' = nd_record n /\ nd_frequency n' = nd_frequency n.
Proof. intros Hc Hn. specialize (Hc id). rewrite Hn in Hc. destruct (nodes' !! id) as [n'|]; [|discriminate]. injection Hc as H1 H2. exists n'. auto. Qed.

Lemma same_cores_update nodes id n n' : nodes !! id = Some n -> core n' = core n -> same_cores nodes (<[id := n']> nodes).
Proof. intros Hn Hc j. destruct (decide (id = j)) as [<-|Hne]; [rewrite lookup_insert_eq, Hn; cbn; congruence | rewrite lookup_insert_ne by assumption; reflexivity]. Qed.

Lemma same_cores_weight nodes nodes' id : same_cores nodes nodes' -> weight_of nodes' id = weight_of nodes id.
Proof. intros Hc. specialize (Hc id). unfold weight_of. destruct (nodes' !! id), (nodes !! id); try discriminate; [injection Hc as -> _; reflexivity | reflexivity]. Qed.

Lemma same_cores_wsum nodes nodes' l : same_cores nodes nodes' -> wsum nodes' l = wsum nodes l.
Proof. intros Hc. induction l as [|id l IH]; cbn [wsum foldr]; [reflexivity|]. rewrite (same_cores_weight _ _ id Hc). unfold wsum in IH. rewrite IH. reflexivity. Qed.

Lemma wsum_app nodes a b : wsum nodes (a ++ b) = wsum nodes a + wsum nodes b.
Proof. unfold wsum. induction a as [|x a IH]; cbn; [reflexivity | rewrite IH; lia]. Qed.

Lemma wsum_one nodes id n : nodes !! id = Some n -> wsum nodes [id] = rc_weight (nd_record n).
Proof. intros Hn. cbn. unfold weight_of. rewrite Hn. lia. Qed.

Lemma same_cores_size nodes nodes' : same_cores nodes nodes' -> size nodes' = size nodes.
Proof.
  intros Hc. rewrite <- !size_dom. f_equal. apply set_eq. intros id. rewrite !elem_of_dom. specialize (Hc id). destruct (nodes' !! id), (nodes !! id); try discriminate; split; intros [? ?]; eauto; discriminate.
Qed.

(** ** The queues *)

Record wired (x : PS) (qs : list (list Z)) : Prop := {
  wq_len : length qs = 3%nat /\ length (ps_lists (ps_state x)) = 3%nat;
  wq_list : forall q l, qs !! q = Some l -> exists ql, ps_lists (ps_state x) !! q = Some ql /\ ql_head ql = head l /\ ql_tail ql = last l /\ ql_weight ql = wsum (ps_nodes x) l;
  wq_seg : forall q l, qs !! q = Some l -> seg (ps_nodes x) (Z.of_nat q) None l None;
  wq_distinct : NoDup (concat qs);
  wq_free : forall id n, ps_nodes x !! id = Some n -> id ∉ concat qs -> nd_queue n = None;
  wq_weight : forall id n, ps_nodes x !! id = Some n -> 1 <= rc_weight (nd_record n);
  wq_hand : forall h, ps_hand (ps_state x) = Some h -> exists l, qs !! 0%nat = Some l /\ h ∈ l
}.

Lemma wired_node x qs q l id : wired x qs -> qs !! q = Some l -> id ∈ l -> exists n, ps_nodes x !! id = Some n /\ nd_queue n = Some (Z.of_nat q).
Proof. intros W Hl Hin. eapply seg_node; [apply (wq_seg _ _ W q l Hl) | assumption]. Qed.

Lemma wired_weight_nonneg x qs l : wired x qs -> 0 <= wsum (ps_nodes x) l.
Proof.
  intros W. induction l as [|id l IH]; cbn [wsum foldr]; [lia|]. unfold wsum in IH. unfold weight_of at 1. destruct (ps_nodes x !! id) as [n|] eqn:Hn; [pose proof (wq_weight _ _ W id n Hn); lia | lia].
Qed.

(** Everything but the lists, the hand and the links. *)
Definition same_rest (x x' : PS) : Prop :=
  same_cores (ps_nodes x) (ps_nodes x') /\ ps_policy (ps_state x') = ps_policy (ps_state x) /\ ps_capacity (ps_state x') = ps_capacity (ps_state x) /\
  ps_ghost (ps_state x') = ps_ghost (ps_state x) /\ ps_sketch (ps_state x') = ps_sketch (ps_state x).

Lemma same_rest_refl x : same_rest x x.
Proof. repeat split. Qed.
Lemma same_rest_trans x y z : same_rest x y -> same_rest y z -> same_rest x z.
Proof. intros (A1 & A2 & A3 & A4 & A5) (B1 & B2 & B3 & B4 & B5). split; [eapply same_cores_trans; eassumption | repeat split; congruence]. Qed.

Lemma index_get_list s q ql : ps_lists s !! q = Some ql -> index_get (E := unit) (ps_lists s) (Z.of_nat q) = Ok ql.
Proof. intros H. apply index_get_Some; [lia | rewrite Nat2Z.id; assumption]. Qed.
Lemma index_set_list s q ql v : ps_lists s !! q = Some ql -> index_set (E := unit) (ps_lists s) (Z.of_nat q) v = Ok (<[q := v]> (ps_lists s)).
Proof. intros H. rewrite (index_set_Some _ _ ql) by (try lia; rewrite Nat2Z.id; assumption). rewrite Nat2Z.id. reflexivity. Qed.

Lemma not_in_concat (qs : list (list Z)) q l id : id ∉ concat qs -> qs !! q = Some l -> id ∉ l.
Proof. intros Hn Hl Hin. apply Hn. apply elem_of_concat. eauto. Qed.

Lemma concat_insert_elem (qs : list (list Z)) q l l' id : qs !! q = Some l -> (id ∈ l' -> id ∈ concat qs \/ id ∈ l') -> id ∈ concat (<[q := l']> qs) -> id ∈ l' \/ exists j m, j <> q /\ qs !! j = Some m /\ id ∈ m.
Proof.
  intros Hl _ Hin. apply elem_of_concat in Hin as (j & m & Hj & Hm). destruct (decide (q = j)) as [<-|Hne].
  - rewrite list_lookup_insert_eq in Hj by (eapply lookup_lt_Some; exact Hl). injection Hj as <-. auto.
  - rewrite list_lookup_insert_ne in Hj by assumption. right. exists j, m. auto.
Qed.

Lemma list_push_ok x qs q l id n : wired x qs -> ps_nodes x !! id = Some n -> id ∉ concat qs -> qs !! q = Some l ->
  exists x', list_push x id (Z.of_nat q) = Ok x' /\ wired x' (<[q := l ++ [id]]> qs) /\ same_rest x x' /\ ps_hand (ps_state x') = ps_hand (ps_state x).
Proof.
  intros W Hn Hid Hl. destruct x as [s nodes]. cbn [ps_nodes ps_state] in *. destruct (wq_list _ _ W q l Hl) as (ql & Hql & Hh & Ht & Hw). cbn [ps_state ps_nodes] in *.
  assert (Hnl : id ∉ l) by (eapply not_in_concat; eassumption). unfold list_push. rewrite Hn. cbn [expect rbind]. rewrite (wq_free _ _ W id n Hn Hid). cbn [rbind]. rewrite (index_get_list s q ql Hql). cbn [rbind]. rewrite Ht.
  assert (Hlen : (q < length qs)%nat) by (eapply lookup_lt_Some; exact Hl).
  set (node := fun m : Node => nd_set_links (last l) None (Some (Z.of_nat q)) m).
  assert (Hgoal : forall nodes1, same_cores nodes nodes1 -> nodes1 !! id = Some n -> (forall j, j <> id -> Some j <> last l -> nodes1 !! j = nodes !! j) -> seg (<[id := node n]> nodes1) (Z.of_nat q) None l (Some id) ->
    wired {| ps_state := ps_set_lists (<[q := {| ql_head := match last l with Some _ => ql_head ql | None => Some id end; ql_tail := Some id; ql_weight := ql_weight ql + rc_weight (nd_record n) |}]> (ps_lists s)) s; ps_nodes := <[id := node n]> nodes1 |} (<[q := l ++ [id]]> qs) /\
    same_cores nodes (<[id := node n]> nodes1)).
  { intros nodes1 Hc1 Hn1 Hf1 Hseg. assert (Hc : same_cores nodes (<[id := node n]> nodes1)) by (eapply same_cores_trans; [exact Hc1 | apply (same_cores_update _ _ n); [assumption | reflexivity]]). split; [|exact Hc].
    assert (Hperm : Permutation (concat (<[q := l ++ [id]]> qs)) (id :: concat qs)).
    { rewrite (concat_remove (<[q := l ++ [id]]> qs) q (l ++ [id]) id l); [rewrite list_insert_insert_eq, list_insert_id by assumption; reflexivity | apply list_lookup_insert_eq; assumption | rewrite Permutation_app_comm; reflexivity]. }
    destruct W as [[W1 W1'] W2 W3 W4 W5 W6 W7]. cbn [ps_state ps_nodes] in *. constructor; cbn [ps_state ps_nodes ps_set_lists ps_lists ps_hand].
    - rewrite !length_insert. auto.
    - intros j m Hj. destruct (decide (q = j)) as [<-|Hne].
      + rewrite list_lookup_insert_eq in Hj by assumption. injection Hj as <-. rewrite list_lookup_insert_eq by lia. eexists. split; [reflexivity|]. cbn [ql_head ql_tail ql_weight]. rewrite last_snoc. split; [|split; [reflexivity|]].
        * destruct l as [|y l']; [reflexivity|]. destruct (last (y :: l')) eqn:He; [rewrite Hh; reflexivity | apply last_None in He; discriminate].
        * rewrite (same_cores_wsum nodes) by assumption. rewrite wsum_app, Hw, (wsum_one _ _ n Hn). reflexivity.
      + rewrite list_lookup_insert_ne in Hj by assumption. rewrite list_lookup_insert_ne by assumption. destruct (W2 j m Hj) as (qj & Hqj & H1 & H2 & H3). exists qj. rewrite (same_cores_wsum nodes) by assumption. auto.
    - intros j m Hj. destruct (decide (q = j)) as [<-|Hne].
      + rewrite list_lookup_insert_eq in Hj by assumption. injection Hj as <-. apply seg_app. cbn [head oelse]. split; [exact Hseg|]. cbn [seg]. split; [|exact I]. exists (node n). rewrite lookup_insert_eq. split; [reflexivity|]. cbn. split; [destruct (last l); reflexivity | auto].
      + rewrite list_lookup_insert_ne in Hj by assumption. apply (seg_frame nodes); [|apply W3; assumption]. intros i Hi.
        assert (Hii : i <> id) by (intros ->; apply Hid; apply elem_of_concat; eauto). rewrite lookup_insert_ne by congruence. apply Hf1; [assumption|]. intros He. apply Hne. symmetry in He. apply last_Some in He as [l' ->].
        eapply concat_disjoint; [exact W4 | exact Hl | exact Hj | apply elem_of_app; right; left | exact Hi].
    - rewrite Hperm. constructor; assumption.
    - intros j m Hj Hnj. rewrite Hperm in Hnj. apply not_elem_of_cons in Hnj as [Hne Hnj]. rewrite lookup_insert_ne in Hj by congruence. rewrite Hf1 in Hj; [eauto | assumption|].
      intros He. symmetry in He. apply last_Some in He as [l' ->]. apply Hnj. apply elem_of_concat. exists q, (l' ++ [j]). split; [assumption | apply elem_of_app; right; left].
    - intros j m Hj. destruct (same_cores_node _ _ j m (fun i => eq_sym (Hc i)) Hj) as (m' & Hm' & He & _). rewrite <- He. eauto.
    - intros h Hhand. destruct (W7 h Hhand) as (l0 & Hl0 & Hin). destruct (decide (q = 0%nat)) as [->|Hne]; [exists (l ++ [id]); rewrite list_lookup_insert_eq by assumption; split; [reflexivity | apply elem_of_app; left; congruence] | exists l0; rewrite list_lookup_insert_ne by congruence; auto]. }
  destruct (last l) as [t|] eqn:Hlast.
  - apply last_Some in Hlast as [l' ->]. pose proof (wq_seg _ _ W q _ Hl) as Hs. cbn [ps_nodes] in Hs. destruct (seg_node _ _ _ _ _ t Hs ltac:(apply elem_of_app; right; left)) as (tn & Htn & _).
    assert (Hti : t <> id) by (intros ->; apply Hnl; apply elem_of_app; right; left). assert (Hdup : NoDup (l' ++ [t])) by (eapply concat_NoDup; [apply (wq_distinct _ _ W) | exact Hl]).
    apply NoDup_app in Hdup as (_ & Hdisj & _). unfold update_node. rewrite Htn. cbn [expect rbind]. rewrite lookup_insert_ne, Hn by assumption. cbn [expect rbind]. rewrite (index_set_list s q ql _ Hql). cbn [rbind].
    destruct (Hgoal (<[t := nd_set_links (nd_prev tn) (Some id) (nd_queue tn) tn]> nodes)) as [HW Hc].
    + apply (same_cores_update _ _ tn); [assumption | reflexivity].
    + rewrite lookup_insert_ne by assumption. assumption.
    + intros j _ Hj. apply lookup_insert_ne. congruence.
    + eapply (seg_change_last nodes); [| exact Htn | rewrite lookup_insert_ne by congruence; apply lookup_insert_eq | reflexivity | reflexivity | reflexivity | exact Hs].
      intros i Hi. rewrite !lookup_insert_ne; [reflexivity | intros ->; apply (Hdisj _ Hi); left | intros ->; apply Hnl; apply elem_of_app; left; assumption].
    + eexists. split; [reflexivity|]. split; [exact HW|]. split; [split; [exact Hc | repeat split] | reflexivity].
  - apply last_None in Hlast as ->. cbn [rbind]. rewrite Hn. cbn [expect rbind]. rewrite (index_set_list s q ql _ Hql). cbn [rbind]. destruct (Hgoal nodes) as [HW Hc]; [apply same_cores_refl | assumption | auto | exact I|].
    eexists. split; [reflexivity|]. split; [exact HW|]. split; [split; [exact Hc | repeat split] | reflexivity].
Qed.

(** ** Removal *)

(** The nodes after [id] was unlinked from between [a] and [b]. *)
Definition unlinked nodes (q : Z) (a b : list Z) : gmap Z Node :=
  let step o f m := match o with Some p => match m !! p with Some n => <[p := f n]> m | None => m end | None => m end in
  step (head b) (fun n => nd_set_links (last a) (nd_next n) (nd_queue n) n) (step (last a) (fun n => nd_set_links (nd_prev n) (head b) (nd_queue n) n) nodes).

Lemma unlinked_ok nodes q a id b : NoDup (a ++ id :: b) -> seg nodes q None (a ++ id :: b) None ->
  same_cores nodes (unlinked nodes q a b) /\ seg (unlinked nodes q a b) q None (a ++ b) None /\ (forall j, j ∉ a ++ b -> unlinked nodes q a b !! j = nodes !! j).
Proof.
  intros Hd Hs. apply seg_app in Hs as [Ha Hb]. cbn [head oelse seg] in *. destruct Hb as [_ Hb]. apply NoDup_app in Hd as (Hda & Hdisj & Hdb). apply NoDup_cons in Hdb as [Hidb Hdb].
  (* the next pointer of the last of [a] *)
  assert (H1 : exists nodes1, same_cores nodes nodes1 /\ seg nodes1 q None a (head b) /\ (forall j, j ∉ a -> nodes1 !! j = nodes !! j) /\
    match last a with Some p => match nodes !! p with Some n => <[p := nd_set_links (nd_prev n) (head b) (nd_queue n) n]> nodes | None => nodes end | None => nodes end = nodes1).
  { destruct (last a) as [t|] eqn:Hl; [|apply last_None in Hl as ->; exists nodes; split; [apply same_cores_refl | auto]]. apply last_Some in Hl as [a' ->]. destruct (seg_node _ _ _ _ _ t Ha ltac:(apply elem_of_app; right; left)) as (tn & Htn & _). rewrite Htn.
    exists (<[t := nd_set_links (nd_prev tn) (head b) (nd_queue tn) tn]> nodes). split; [apply (same_cores_update _ _ tn); [exact Htn | reflexivity]|]. apply NoDup_app in Hda as (_ & Hda' & _). split; [|split; [intros j Hj; apply lookup_insert_ne; intros ->; apply Hj, elem_of_app; right; left | reflexivity]].
    eapply (seg_change_last nodes); [| exact Htn | apply lookup_insert_eq | reflexivity | reflexivity | reflexivity | exact Ha]. intros i Hi. apply lookup_insert_ne. intros ->. apply (Hda' i Hi). left. }
  destruct H1 as (nodes1 & C1 & S1 & F1 & E1). unfold unlinked. rewrite E1. assert (Hb1 : seg nodes1 q (Some id) b None) by (apply (seg_frame nodes); [|assumption]; intros j Hj; apply F1; intros Hja; apply (Hdisj j Hja); right; assumption).
  destruct b as [|h b']; cbn [head].
  { split; [assumption|]. rewrite app_nil_r. split; [assumption|]. intros j Hj. apply F1. assumption. }
  destruct (seg_node _ _ _ _ _ h Hb1 ltac:(left)) as (hn & Hhn & _). rewrite Hhn. apply NoDup_cons in Hdb as [Hhb Hdb]. split; [|split].
  - eapply same_cores_trans; [exact C1 | apply (same_cores_update _ _ hn); [assumption | reflexivity]].
  - apply seg_app. cbn [head oelse]. split.
    + apply (seg_frame nodes1); [|exact S1]. intros j Hj. apply lookup_insert_ne. intros ->. apply (Hdisj j Hj). right. left.
    + eapply (seg_change_first nodes1); [| exact Hhn | apply lookup_insert_eq | cbn; destruct (last a); reflexivity | reflexivity | reflexivity | exact Hb1]. intros j Hj. apply lookup_insert_ne. intros ->. contradiction.
  - intros j Hj. apply not_elem_of_app in Hj as [Hj1 Hj2]. apply not_elem_of_cons in Hj2 as [Hj2 Hj3]. rewrite lookup_insert_ne by congruence. apply F1. assumption.
Qed.

Lemma update_list_ok s q ql f : ps_lists s !! q = Some ql -> update_list s (Z.of_nat q) f = Ok (ps_set_lists (<[q := f ql]> (ps_lists s)) s).
Proof. intros Hq. unfold update_list. rewrite (index_get_list s q ql Hq). cbn [rbind]. rewrite (index_set_list s q ql _ Hq). reflexivity. Qed.

Lemma remove_run x qs q a id b n ql : wired x qs -> qs !! q = Some (a ++ id :: b) -> ps_nodes x !! id = Some n -> ps_lists (ps_state x) !! q = Some ql ->
  list_remove x id = Ok {| ps_state := ps_set_lists (<[q := {| ql_head := head (a ++ b); ql_tail := last (a ++ b); ql_weight := ql_weight ql - rc_weight (nd_record n) |}]> (ps_lists (ps_state x))) (if decide (ps_hand (ps_state x) = Some id) then ps_set_hand (head b) (ps_state x) else ps_state x);
                            ps_nodes := <[id := nd_set_links None None None n]> (unlinked (ps_nodes x) (Z.of_nat q) a b) |}.
Proof.
  intros W Hl Hn Hql. pose proof (wq_seg _ _ W q _ Hl) as Hs. assert (Hd : NoDup (a ++ id :: b)) by (eapply concat_NoDup; [apply (wq_distinct _ _ W) | exact Hl]). destruct (wq_list _ _ W q _ Hl) as (ql' & Hql' & Hh & Ht & Hw). assert (ql' = ql) as -> by congruence.
  destruct (unlinked_ok (ps_nodes x) (Z.of_nat q) a id b Hd Hs) as (_ & _ & Hframe). apply seg_app in Hs as [Ha [(n' & Hn' & Hp & Hx & Hq) Hb]]. assert (n' = n) as -> by congruence. cbn [oelse head] in *.
  assert (Hlw : rc_weight (nd_record n) <= ql_weight ql).
  { rewrite Hw, wsum_app. pose proof (wired_weight_nonneg x qs a W). change (wsum (ps_nodes x) (id :: b)) with (weight_of (ps_nodes x) id + wsum (ps_nodes x) b). unfold weight_of. rewrite Hn. pose proof (wired_weight_nonneg x qs b W). lia. }
  assert (Hprev : nd_prev n = last a) by (rewrite Hp; destruct (last a); reflexivity). assert (Hnext : nd_next n = head b) by (rewrite Hx; destruct (head b); reflexivity).
  assert (Hid : id ∉ a ++ b) by (intros Hin; apply NoDup_app in Hd as (_ & Hdisj & Hdb); apply NoDup_cons in Hdb as [Hdb _]; apply elem_of_app in Hin as [Hin|Hin]; [apply (Hdisj id Hin); left | contradiction]).
  assert (Hqlen : (q < length (ps_lists (ps_state x)))%nat) by (eapply lookup_lt_Some; exact Hql).
  destruct x as [s nodes]. cbn [ps_state ps_nodes] in *. unfold list_remove. rewrite Hn. cbn [expect rbind]. rewrite Hq, Hprev, Hnext. set (s0 := if decide (ps_hand s = Some id) then ps_set_hand (head b) s else s).
  assert (Hs0 : ps_lists s0 = ps_lists s) by (unfold s0; destruct (decide _); reflexivity).
  (* the list record through the three updates *)
  unfold unlinked in *. specialize (Hframe id Hid). destruct (last a) as [t|] eqn:Hla.
  - apply last_Some in Hla as [a' ->]. destruct (seg_node _ _ _ _ _ t Ha ltac:(apply elem_of_app; right; left)) as (tn & Htn & _). unfold update_node at 1. rewrite Htn in *. cbn [expect rbind].
    assert (Hheadl : ql_head ql = head ((a' ++ [t]) ++ b)) by (rewrite Hh; destruct a'; reflexivity).
    destruct b as [|h b']; cbn [head] in *.
    + rewrite (update_list_ok s0 q ql) by (rewrite Hs0; exact Hql). cbn [rbind]. rewrite (index_get_list _ q {| ql_head := ql_head ql; ql_tail := Some t; ql_weight := ql_weight ql |}) by (cbn; rewrite Hs0; apply list_lookup_insert_eq; assumption). cbn [rbind ql_weight]. rewrite (proj2 (Z.ltb_ge _ _) Hlw). cbn [rbind].
      rewrite (update_list_ok _ q {| ql_head := ql_head ql; ql_tail := Some t; ql_weight := ql_weight ql |}) by (cbn; rewrite Hs0; apply list_lookup_insert_eq; assumption). cbn [rbind]. unfold update_node. rewrite Hframe, Hn. cbn [expect rbind ps_set_lists ps_lists ql_head ql_tail ql_weight]. rewrite Hs0, list_insert_insert_eq.
      rewrite app_nil_r in Hheadl |- *. rewrite last_snoc, Hheadl. reflexivity.
    + destruct (seg_node _ _ _ _ _ h Hb ltac:(left)) as (hn & Hhn & _). assert (Hht : t <> h) by (intros ->; apply NoDup_app in Hd as (_ & Hdisj & _); apply (Hdisj h); [apply elem_of_app; right; left | right; left]).
      unfold update_node at 1. rewrite lookup_insert_ne, Hhn in * by assumption. cbn [expect rbind]. rewrite (index_get_list _ q ql) by (rewrite Hs0; assumption). cbn [rbind]. rewrite (proj2 (Z.ltb_ge _ _) Hlw). cbn [rbind].
      rewrite (update_list_ok s0 q ql) by (rewrite Hs0; assumption). cbn [rbind]. unfold update_node. rewrite Hframe, Hn. cbn [expect rbind]. rewrite Hs0, Ht, Hheadl, !last_app. cbn [head]. reflexivity.
  - apply last_None in Hla as ->. cbn [app head] in *. rewrite (update_list_ok s0 q ql) by (rewrite Hs0; exact Hql). cbn [rbind]. destruct b as [|h b']; cbn [head] in *.
    + rewrite (update_list_ok _ q {| ql_head := None; ql_tail := ql_tail ql; ql_weight := ql_weight ql |}) by (cbn; rewrite Hs0; apply list_lookup_insert_eq; assumption). cbn [rbind ql_head ql_tail ql_weight].
      rewrite (index_get_list _ q {| ql_head := None; ql_tail := None; ql_weight := ql_weight ql |}) by (cbn; rewrite Hs0, list_insert_insert_eq; apply list_lookup_insert_eq; assumption). cbn [rbind ql_weight]. rewrite (proj2 (Z.ltb_ge _ _) Hlw). cbn [rbind].
      rewrite (update_list_ok _ q {| ql_head := None; ql_tail := None; ql_weight := ql_weight ql |}) by (cbn; rewrite Hs0, list_insert_insert_eq; apply list_lookup_insert_eq; assumption). cbn [rbind]. unfold update_node. rewrite Hn. cbn [expect rbind ps_set_lists ps_lists ql_head ql_tail ql_weight].
      rewrite Hs0, !list_insert_insert_eq. reflexivity.
    + destruct (seg_node _ _ _ _ _ h Hb ltac:(left)) as (hn & Hhn & _). unfold update_node at 1. rewrite Hhn in *. cbn [expect rbind].
      rewrite (index_get_list _ q {| ql_head := Some h; ql_tail := ql_tail ql; ql_weight := ql_weight ql |}) by (cbn; rewrite Hs0; apply list_lookup_insert_eq; assumption). cbn [rbind ql_weight]. rewrite (proj2 (Z.ltb_ge _ _) Hlw). cbn [rbind].
      rewrite (update_list_ok _ q {| ql_head := Some h; ql_tail := ql_tail ql; ql_weight := ql_weight ql |}) by (cbn; rewrite Hs0; apply list_lookup_insert_eq; assumption). cbn [rbind]. unfold update_node. rewrite Hframe, Hn. cbn [expect rbind ps_set_lists ps_lists ql_head ql_tail ql_weight].
      rewrite Hs0, list_insert_insert_eq, Ht. reflexivity.
Qed.

Lemma remove_ok x qs q a id b : wired x qs -> qs !! q = Some (a ++ id :: b) ->
  exists x', list_remove x id = Ok x' /\ wired x' (<[q := a ++ b]> qs) /\ same_rest x x' /\ ps_hand (ps_state x') = (if decide (ps_hand (ps_state x) = Some id) then head b else ps_hand (ps_state x)).
Proof.
  intros W Hl. destruct (wired_node x qs q _ id W Hl ltac:(apply elem_of_app; right; left)) as (n & Hn & Hq). destruct (wq_list _ _ W q _ Hl) as (ql & Hql & Hh & Ht & Hw).
  rewrite (remove_run x qs q a id b n ql W Hl Hn Hql). eexists. split; [reflexivity|]. assert (Hd : NoDup (a ++ id :: b)) by (eapply concat_NoDup; [apply (wq_distinct _ _ W) | exact Hl]).
  destruct (unlinked_ok (ps_nodes x) (Z.of_nat q) a id b Hd (wq_seg _ _ W q _ Hl)) as (Hc & Hseg & Hframe).
  assert (Hid : id ∉ a ++ b) by (intros Hin; apply NoDup_app in Hd as (_ & Hdisj & Hdb); apply NoDup_cons in Hdb as [Hdb _]; apply elem_of_app in Hin as [Hin|Hin]; [apply (Hdisj id Hin); left | contradiction]).
  set (nodes' := unlinked (ps_nodes x) (Z.of_nat q) a b) in *. assert (Hn' : nodes' !! id = Some n) by (rewrite Hframe by assumption; exact Hn).
  assert (Hc' : same_cores (ps_nodes x) (<[id := nd_set_links None None None n]> nodes')) by (eapply same_cores_trans; [exact Hc | apply (same_cores_update _ _ n); [assumption | reflexivity]]).
  assert (Hperm : Permutation (concat qs) (id :: concat (<[q := a ++ b]> qs))) by (apply (concat_remove qs q (a ++ id :: b)); [assumption | symmetry; apply Permutation_middle]).
  assert (Hhand : ps_hand (ps_set_lists (<[q := {| ql_head := head (a ++ b); ql_tail := last (a ++ b); ql_weight := ql_weight ql - rc_weight (nd_record n) |}]> (ps_lists (ps_state x))) (if decide (ps_hand (ps_state x) = Some id) then ps_set_hand (head b) (ps_state x) else ps_state x)) =
    (if decide (ps_hand (ps_state x) = Some id) then head b else ps_hand (ps_state x))) by (destruct (decide _); reflexivity).
  assert (Hlen : (q < length qs)%nat) by (eapply lookup_lt_Some; exact Hl). split; [|split; [split; [exact Hc' | destruct (decide _); repeat split] | exact Hhand]].
  destruct W as [[W1 W1'] W2 W3 W4 W5 W6 W7]. constructor; cbn [ps_state ps_nodes ps_lists ps_set_lists]; [rewrite !length_insert; auto| | | | | |].
  - intros j m Hj. destruct (decide (q = j)) as [<-|Hne].
    + rewrite list_lookup_insert_eq in Hj by assumption. injection Hj as <-. rewrite list_lookup_insert_eq by lia. eexists. split; [reflexivity|]. cbn [ql_head ql_tail ql_weight]. split; [reflexivity|]. split; [reflexivity|].
      rewrite (same_cores_wsum (ps_nodes x)) by assumption. rewrite Hw, !wsum_app. change (wsum (ps_nodes x) (id :: b)) with (weight_of (ps_nodes x) id + wsum (ps_nodes x) b). unfold weight_of. rewrite Hn. lia.
    + rewrite list_lookup_insert_ne in Hj by assumption. rewrite list_lookup_insert_ne by assumption. destruct (W2 j m Hj) as (qj & Hqj & H1 & H2 & H3). exists qj. rewrite (same_cores_wsum (ps_nodes x)) by assumption. auto.
  - intros j m Hj. destruct (decide (q = j)) as [<-|Hne].
    + rewrite list_lookup_insert_eq in Hj by assumption. injection Hj as <-. apply (seg_frame nodes'); [|exact Hseg]. intros i Hi. apply lookup_insert_ne. congruence.
    + rewrite list_lookup_insert_ne in Hj by assumption. apply (seg_frame (ps_nodes x)); [|apply W3; assumption]. intros i Hi. assert (Hil : i ∉ a ++ id :: b) by (intros Hin; apply Hne; eapply concat_disjoint; [exact W4 | exact Hl | exact Hj | exact Hin | exact Hi]).
      apply not_elem_of_app in Hil as [Hi1 Hi2]. apply not_elem_of_cons in Hi2 as [Hi2 Hi3]. rewrite lookup_insert_ne by congruence. apply Hframe. apply not_elem_of_app. auto.
  - rewrite Hperm in W4. apply NoDup_cons in W4 as [_ W4]. assumption.
  - intros j m Hj Hnj. destruct (decide (j = id)) as [->|Hne]; [rewrite lookup_insert_eq in Hj; injection Hj as <-; reflexivity|]. rewrite lookup_insert_ne in Hj by congruence.
    assert (Hout : j ∉ a ++ b) by (intros Hin; apply Hnj; apply elem_of_concat; exists q, (a ++ b); split; [apply list_lookup_insert_eq; assumption | assumption]). rewrite Hframe in Hj by assumption. apply (W5 j m Hj). rewrite Hperm. apply not_elem_of_cons. auto.
  - intros j m Hj. destruct (same_cores_node _ _ j m (fun i => eq_sym (Hc' i)) Hj) as (m' & Hm' & He & _). rewrite <- He. eauto.
  - intros h Hh'. rewrite Hhand in Hh'. destruct (decide (ps_hand (ps_state x) = Some id)) as [He|Hne].
    + destruct (W7 id He) as (l0 & Hl0 & Hin). assert (q = 0%nat) as -> by (eapply concat_disjoint; [exact W4 | exact Hl | exact Hl0 | apply elem_of_app; right; left | exact Hin]).
      exists (a ++ b). split; [apply list_lookup_insert_eq; assumption|]. apply elem_of_app. right. destruct b; [discriminate|]. injection Hh' as ->. left.
    + destruct (W7 h Hh') as (l0 & Hl0 & Hin). destruct (decide (q = 0%nat)) as [->|Hq0].
      * exists (a ++ b). split; [apply list_lookup_insert_eq; assumption|]. assert (l0 = a ++ id :: b) as -> by congruence. apply elem_of_app in Hin as [Hin|Hin]; [apply elem_of_app; auto|]. apply elem_of_cons in Hin as [->|Hin]; [congruence | apply elem_of_app; auto].
      * exists l0. rewrite list_lookup_insert_ne by congruence. auto.
Qed.

(** A node moves to the end of a queue, possibly its own. *)
Lemma move_ok x qs q a id b t : wired x qs -> qs !! q = Some (a ++ id :: b) -> (t < 3)%nat ->
  exists x' lt, move_to x id (Z.of_nat t) = Ok x' /\ <[q := a ++ b]> qs !! t = Some lt /\ wired x' (<[t := lt ++ [id]]> (<[q := a ++ b]> qs)) /\ same_rest x x' /\
    Permutation (concat (<[t := lt ++ [id]]> (<[q := a ++ b]> qs))) (concat qs) /\ ps_hand (ps_state x') = (if decide (ps_hand (ps_state x) = Some id) then head b else ps_hand (ps_state x)).
Proof.
  intros W Hl Ht. destruct (remove_ok x qs q a id b W Hl) as (x1 & Hr & W1 & R1 & Hh1). unfold move_to. rewrite Hr. cbn [rbind].
  assert (Hperm : Permutation (concat qs) (id :: concat (<[q := a ++ b]> qs))) by (apply (concat_remove qs q (a ++ id :: b)); [assumption | symmetry; apply Permutation_middle]).
  assert (Hout : id ∉ concat (<[q := a ++ b]> qs)) by (pose proof (wq_distinct _ _ W) as Hd; rewrite Hperm in Hd; apply NoDup_cons in Hd as [Hd _]; assumption).
  destruct (wired_node x qs q _ id W Hl ltac:(apply elem_of_app; right; left)) as (n & Hn & _). destruct R1 as [C1 R1]. destruct (same_cores_node _ _ id n C1 Hn) as (n1 & Hn1 & _).
  destruct (lookup_lt_is_Some_2 (<[q := a ++ b]> qs) t) as [lt Hlt]; [rewrite (proj1 (wq_len _ _ W1)); lia|].
  destruct (list_push_ok x1 _ t lt id n1 W1 Hn1 Hout Hlt) as (x' & Hp & W' & R' & Hh'). exists x', lt. split; [exact Hp|]. split; [exact Hlt|]. split; [exact W'|]. split; [eapply same_rest_trans; [split; eassumption | exact R']|]. split; [|congruence].
  rewrite Hperm. rewrite (concat_remove (<[t := lt ++ [id]]> (<[q := a ++ b]> qs)) t (lt ++ [id]) id lt); [rewrite list_insert_insert_eq, list_insert_id by assumption; reflexivity | apply list_lookup_insert_eq; eapply lookup_lt_Some; exact Hlt | rewrite Permutation_app_comm; reflexivity].
Qed.

Lemma list_at_ok x qs q l : wired x qs -> qs !! q = Some l -> ql_head (list_at (ps_state x) (Z.of_nat q)) = head l /\ ql_weight (list_at (ps_state x) (Z.of_nat q)) = wsum (ps_nodes x) l.
Proof. intros W Hl. destruct (wq_list _ _ W q l Hl) as (ql & Hql & H1 & _ & H3). unfold list_at. rewrite Nat2Z.id, Hql. auto. Qed.

Lemma wired_queue x qs q : wired x qs -> (q < 3)%nat -> exists l, qs !! q = Some l.
Proof. intros W Hq. apply lookup_lt_is_Some_2. rewrite (proj1 (wq_len _ _ W)). assumption. Qed.

Lemma total_weight_ok x qs : wired x qs -> total_weight (ps_state x) = wsum (ps_nodes x) (concat qs).
Proof.
  intros W. destruct (wq_len _ _ W) as [H1 H2]. pose proof (wq_list _ _ W) as Hw. unfold total_weight. destruct qs as [|q0 [|q1 [|q2 [|]]]]; try discriminate. destruct (ps_lists (ps_state x)) as [|l0 [|l1 [|l2 [|]]]]; try discriminate.
  destruct (Hw 0%nat q0 eq_refl) as (? & F0 & _ & _ & E0), (Hw 1%nat q1 eq_refl) as (? & F1 & _ & _ & E1), (Hw 2%nat q2 eq_refl) as (? & F2 & _ & _ & E2).
  injection F0 as <-. injection F1 as <-. injection F2 as <-. cbn [concat foldr]. rewrite app_nil_r, E0, E1, E2, !wsum_app. lia.
Qed.

(** Everything in the slab is queued, at most as many as it holds. *)
Lemma queued_size x qs l : wired x qs -> NoDup l -> (forall id, id ∈ l -> id ∈ concat qs) -> (length l <= size (ps_nodes x))%nat.
Proof.
  intros W Hd Hin. rewrite <- size_dom. rewrite <- (size_list_to_set (C := gset Z) l Hd). apply subseteq_size. intros id Hid. apply elem_of_list_to_set, Hin, elem_of_concat in Hid as (q & m & Hq & Hm).
  destruct (wired_node x qs q m id W Hq Hm) as (n & Hn & _). apply elem_of_dom. eauto.
Qed.
End Lists.

(** ** The ghost history and the frequency sketch of the memory cache

    The ghost's counts are the multiplicities of its queue and its weight is
    the queue's, within the capacity; a sketch index is inside its row. Neither
    structure can panic while that holds, and every operation keeps it. *)

(** ** The ghost *)

Fixpoint occurrences (h : Z) (q : list (Z * Z)) : Z :=
  match q with [] => 0 | e :: q => (if decide (e.1 = h) then 1 else 0) + occurrences h q end.
Definition ghost_sum (q : list (Z * Z)) : Z := foldr (fun e n => e.2 + n) 0 q.

Record counted (g : Ghost) : Prop := {
  gc_counts : forall h, gh_counts g !! h = if occurrences h (gh_queue g) =? 0 then None else Some (occurrences h (gh_queue g));
  gc_weight : gh_weight g = ghost_sum (gh_queue g);
  gc_entries : Forall (fun e => 0 <= e.2) (gh_queue g)
}.
Record ghost_ok (g : Ghost) : Prop := {
  go_counted : counted g;
  go_capacity : gh_weight g <= gh_capacity g;
  go_limit : len (gh_queue g) <= gh_limit g
}.

Lemma occurrences_nonneg h q : 0 <= occurrences h q.
Proof. induction q as [|e q IH]; cbn [occurrences]; [lia | case_decide; lia]. Qed.
Lemma occurrences_app h a b : occurrences h (a ++ b) = occurrences h a + occurrences h b.
Proof. induction a as [|e a IH]; cbn [occurrences app]; lia. Qed.
Lemma ghost_sum_app a b : ghost_sum (a ++ b) = ghost_sum a + ghost_sum b.
Proof. induction a as [|e a IH]; cbn [ghost_sum foldr app] in *; [reflexivity | unfold ghost_sum in *; lia]. Qed.
Lemma ghost_sum_nonneg q : Forall (fun e => 0 <= e.2) q -> 0 <= ghost_sum q.
Proof. induction 1 as [|e q He _ IH]; cbn [ghost_sum foldr]; [lia | unfold ghost_sum in IH; lia]. Qed.

Definition same_limits (g g' : Ghost) : Prop := gh_capacity g' = gh_capacity g /\ gh_limit g' = gh_limit g.

Lemma Ghost_new_ok limit capacity : 0 <= limit -> 0 <= capacity -> ghost_ok (Ghost_new limit capacity).
Proof. intros H1 H2. constructor; [constructor; [intros h; reflexivity | reflexivity | constructor] | assumption | assumption]. Qed.

Lemma Ghost_contains_ok g h : counted g -> Ghost_contains g h = bool_decide (h ∈ map fst (gh_queue g)).
Proof.
  intros [Hc _ _]. unfold Ghost_contains. rewrite Hc. assert (Hocc : occurrences h (gh_queue g) = 0 <-> h ∉ map fst (gh_queue g)).
  { clear Hc. induction (gh_queue g) as [|e q IH]; cbn [occurrences map]; [split; [intros _ Hin; inversion Hin | reflexivity]|]. pose proof (occurrences_nonneg h q). rewrite not_elem_of_cons. destruct (decide (e.1 = h)) as [He|He]; split; intros Hx; [exfalso; lia | destruct Hx; congruence | split; [congruence | apply (proj1 IH); lia] | destruct Hx as [_ Hx]; apply (proj2 IH) in Hx; lia]. }
  destruct (occurrences h (gh_queue g) =? 0) eqn:E; boolp; symmetry; [apply bool_decide_eq_false; apply (proj1 Hocc); assumption | apply bool_decide_eq_true; destruct (decide (h ∈ map fst (gh_queue g))); [assumption | exfalso; apply E; apply (proj2 Hocc); assumption]].
Qed.

Lemma Ghost_pop_ok g : counted g -> exists g', Ghost_pop g = Ok g' /\ counted g' /\ same_limits g g' /\ gh_queue g' = tail (gh_queue g).
Proof.
  intros Hg. destruct Hg as [Hc Hw Hp]. unfold Ghost_pop. destruct (gh_queue g) as [|[hash weight] queue] eqn:Hq; [exists g; split; [reflexivity|]; split; [constructor; rewrite ?Hq; assumption | split; [split; reflexivity | rewrite Hq; reflexivity]]|].
  pose proof (occurrences_nonneg hash queue) as Hn. pose proof (Hc hash) as Hh. cbn [occurrences fst] in Hh. rewrite decide_True in Hh by reflexivity. rewrite (proj2 (Z.eqb_neq _ _)) in Hh by lia. rewrite Hh. cbn [expect rbind].
  apply Forall_cons in Hp as [Hp0 Hp]. pose proof (ghost_sum_nonneg queue Hp). cbn [ghost_sum foldr snd] in *. fold (ghost_sum queue) in Hw.
  rewrite (proj2 (Z.ltb_ge _ 1)) by lia. rewrite (proj2 (Z.ltb_ge (gh_weight g) weight)) by lia. cbn [orb]. eexists. split; [reflexivity|]. split; [|split; [split; reflexivity | reflexivity]].
  constructor; cbn [gh_queue gh_counts gh_weight]; [| lia | assumption]. intros h. specialize (Hc h). cbn [occurrences fst] in Hc.
  replace (1 + occurrences hash queue - 1) with (occurrences hash queue) by lia.
  destruct (decide (hash = h)) as [<-|Hne].
  - destruct (occurrences hash queue =? 0); [apply lookup_delete_eq | apply lookup_insert_eq].
  - replace (0 + occurrences h queue) with (occurrences h queue) in Hc by lia. rewrite <- Hc. destruct (occurrences hash queue =? 0); [apply lookup_delete_ne; assumption | apply lookup_insert_ne; assumption].
Qed.

Lemma pop_while_ok over : forall n g, counted g -> (length (gh_queue g) <= n)%nat -> (forall g', counted g' -> same_limits g g' -> gh_queue g' = [] -> over g' = false) ->
  exists g', pop_while n over g = Ok g' /\ counted g' /\ same_limits g g' /\ over g' = false /\ suffix (gh_queue g') (gh_queue g).
Proof.
  induction n as [|n IH]; intros g Hg Hn Ho; cbn [pop_while]; destruct (over g) eqn:E; try (exists g; split; [reflexivity|]; split; [assumption|]; split; [split; reflexivity|]; split; [assumption | apply suffix_nil || reflexivity]; reflexivity).
  - destruct (gh_queue g) eqn:Hq; [|cbn in Hn; lia]. rewrite Ho in E; [discriminate | assumption | split; reflexivity | assumption].
  - destruct (Ghost_pop_ok g Hg) as (g1 & Hp & Hg1 & [L1 L2] & Hq). rewrite Hp. cbn [rbind]. destruct (gh_queue g) as [|e q] eqn:Hqg; [rewrite Ho in E; [discriminate | assumption | split; reflexivity | assumption]|]. cbn [tail] in Hq.
    destruct (IH g1) as (g' & Hw & Hg' & [L1' L2'] & Ho' & Hs); [assumption | rewrite Hq; cbn in Hn; lia | intros g2 H2 [? ?] ?; apply Ho; [assumption | split; congruence | assumption]|].
    exists g'. split; [exact Hw|]. split; [assumption|]. split; [split; congruence|]. split; [assumption|]. rewrite Hq in Hs. apply suffix_cons_r. exact Hs.
Qed.

(** A pushed ghost remembers the hash unless it can never fit. *)
Lemma Ghost_push_ok g hash weight : ghost_ok g -> 0 <= weight -> exists g', Ghost_push g hash weight = Ok g' /\ ghost_ok g' /\ same_limits g g'.
Proof.
  intros [Hc Hw Hl] Hp. unfold Ghost_push. destruct (gh_limit g =? 0) eqn:E1; [exists g; split; [reflexivity|]; split; [constructor; assumption | split; reflexivity]|]. destruct (weight >? gh_capacity g) eqn:E2; [exists g; split; [reflexivity|]; split; [constructor; assumption | split; reflexivity]|].
  boolp. cbn [orb]. destruct (pop_while_ok (fun g => (gh_weight g >? gh_capacity g - weight) || (len (gh_queue g) >=? gh_limit g)) (length (gh_queue g)) g Hc ltac:(lia)) as (g1 & He & [Hc1 Hw1 Hp1] & [L1 L2] & Ho & _).
  { intros g' Hg' [L1 L2] Hq. rewrite (gc_weight _ Hg'), Hq, L1, L2. unfold len in *. cbn [length]. change (ghost_sum []) with 0. decide_guard. }
  rewrite He. cbn [rbind]. rewrite Z.geb_leb in Ho. apply orb_false_iff in Ho as [Ho1 Ho2]. boolp. eexists. split; [reflexivity|]. split; [|split; cbn; congruence].
  constructor; [|cbn [gh_weight gh_capacity]; lia | cbn [gh_queue gh_limit]; unfold len in *; rewrite length_app; cbn; lia].
  constructor; cbn [gh_queue gh_counts gh_weight]; [| rewrite ghost_sum_app; cbn [ghost_sum foldr snd]; lia | apply Forall_app; split; [assumption | constructor; [assumption | constructor]]].
  intros h. rewrite occurrences_app. cbn [occurrences fst]. pose proof (occurrences_nonneg h (gh_queue g1)). destruct (decide (hash = h)) as [<-|Hne].
  - rewrite lookup_insert_eq, (Hc1 hash), (proj2 (Z.eqb_neq (occurrences hash (gh_queue g1) + (1 + 0)) 0)) by lia. destruct (occurrences hash (gh_queue g1) =? 0) eqn:E; boolp; cbn [default from_option]; f_equal; lia.
  - rewrite lookup_insert_ne by assumption. replace (occurrences h (gh_queue g1) + (0 + 0)) with (occurrences h (gh_queue g1)) by lia. apply Hc1.
Qed.

Lemma Ghost_trim_ok g : counted g -> 0 <= gh_capacity g -> 0 <= gh_limit g -> exists g', Ghost_trim g = Ok g' /\ ghost_ok g' /\ same_limits g g'.
Proof.
  intros Hc H1 H2. destruct (pop_while_ok (fun g => (gh_weight g >? gh_capacity g) || (len (gh_queue g) >? gh_limit g)) (length (gh_queue g)) g Hc ltac:(lia)) as (g' & He & Hg' & [L1 L2] & Ho & _).
  { intros g' Hg' [L1 L2] Hq. rewrite (gc_weight _ Hg'), Hq, L1, L2. unfold len. cbn [length]. change (ghost_sum []) with 0. decide_guard. }
  exists g'. split; [exact He|]. apply orb_false_iff in Ho as [Ho1 Ho2]. boolp. split; [constructor; [assumption | lia | lia] | split; assumption].
Qed.

(** ** The sketch *)

Record sketch_ok (s : Sketch) : Prop := {
  so_width : exists k, 0 <= k <= 24 /\ sk_width s = 2 ^ k;
  so_length : len (sk_counters s) = 4 * sk_width s;
  so_counters : Forall (fun c => 0 <= c <= 255) (sk_counters s);
  so_samples : 0 <= sk_samples s < 10 * sk_width s
}.

Lemma width_pos s : sketch_ok s -> 1 <= sk_width s.
Proof. intros [(k & Hk & ->) _ _ _]. pose proof (Z.pow_pos_nonneg 2 k). lia. Qed.

Lemma Sketch_new_ok width : is_power_of_two width = true -> width <= Z.shiftl 1 24 -> sketch_ok (Sketch_new width).
Proof.
  intros Hp Hw. unfold is_power_of_two in Hp. apply andb_true_iff in Hp as [H0 Hp]. boolp. change (Z.shiftl 1 24) with (2 ^ 24) in Hw. constructor; cbn [Sketch_new sk_counters sk_width sk_samples].
  - exists (Z.log2 width). split; [|congruence]. split; [apply Z.log2_nonneg|]. change 24 with (Z.log2 (2 ^ 24)). apply Z.log2_le_mono. assumption.
  - unfold len. rewrite length_replicate. lia.
  - apply Forall_replicate. lia.
  - lia.
Qed.

Lemma Sketch_index_range s hash row : sketch_ok s -> 0 <= row < 4 -> 0 <= Sketch_index s hash row < len (sk_counters s).
Proof.
  intros Hs Hr. pose proof (width_pos s Hs) as Hw. destruct Hs as [(k & Hk & He) Hl _ _]. unfold Sketch_index. cbv zeta. rewrite Hl, He in *. set (h := wrap64 (Z.lxor _ (Z.shiftr _ 27) * _)). replace (2 ^ k - 1) with (Z.ones k) by (rewrite Z.ones_equiv; lia).
  rewrite Z.land_ones by lia. set (a := Z.lxor h _ mod 2 ^ k). assert (Ha : 0 <= a < 2 ^ k) by (apply Z.mod_pos_bound; lia). pose proof (Z.add_lor_land a (row * 2 ^ k)) as Hsum.
  assert (0 <= Z.land a (row * 2 ^ k)) by (apply Z.land_nonneg; lia). assert (0 <= Z.lor a (row * 2 ^ k)) by (apply Z.lor_nonneg; nia). nia.
Qed.

Lemma sketch_get s hash row : sketch_ok s -> 0 <= row < 4 -> exists c, index_get (E := unit) (sk_counters s) (Sketch_index s hash row) = Ok c /\ 0 <= c <= 255.
Proof.
  intros Hs Hr. pose proof (Sketch_index_range s hash row Hs Hr) as Hi. unfold len in Hi. destruct (lookup_lt_is_Some_2 (sk_counters s) (Z.to_nat (Sketch_index s hash row))) as [c Hc]; [lia|].
  exists c. split; [apply index_get_Some; [lia | assumption] | eapply (Forall_lookup_1 _ _ _ _ (so_counters _ Hs)); eassumption].
Qed.

Lemma bump_rows_ok : forall n s hash row, sketch_ok s -> 0 <= row -> row + Z.of_nat n <= 4 -> exists s', bump_rows n s hash row = Ok s' /\ sketch_ok s' /\ sk_width s' = sk_width s /\ sk_samples s' = sk_samples s.
Proof.
  induction n as [|n IH]; intros s hash row Hs H0 Hn; cbn [bump_rows]; [exists s; auto|]. destruct (sketch_get s hash row Hs ltac:(lia)) as (c & Hc & Hr). rewrite Hc. cbn [rbind]. pose proof (Sketch_index_range s hash row Hs ltac:(lia)) as Hi. unfold len in Hi.
  destruct (lookup_lt_is_Some_2 (sk_counters s) (Z.to_nat (Sketch_index s hash row))) as [c' Hc']; [lia|]. rewrite (index_set_Some _ _ c') by (lia || assumption). cbn [rbind].
  edestruct (IH {| sk_counters := <[Z.to_nat (Sketch_index s hash row) := Z.min (c + 1) 255]> (sk_counters s); sk_width := sk_width s; sk_samples := sk_samples s |} hash (row + 1)) as (s' & He & Hs' & Hw & Hm); [| lia | lia |].
  - destruct Hs as [S1 S2 S3 S4]. constructor; cbn [sk_counters sk_width sk_samples]; [assumption | unfold len in *; rewrite length_insert; assumption | apply Forall_insert; [assumption | lia] | assumption].
  - exists s'. auto.
Qed.

Lemma Sketch_record_ok s hash : sketch_ok s -> exists s', Sketch_record s hash = Ok s' /\ sketch_ok s' /\ sk_width s' = sk_width s.
Proof.
  intros Hs. unfold Sketch_record. destruct (bump_rows_ok 4 s hash 0 Hs ltac:(lia) ltac:(lia)) as (s1 & He & Hs1 & Hw & Hm). rewrite He. cbn [rbind]. pose proof (width_pos _ Hs1). destruct Hs1 as [S1 S2 S3 S4].
  rewrite Z.geb_leb. destruct (sk_width s1 * 10 <=? sk_samples s1 + 1) eqn:E; eexists; (split; [reflexivity|]); (split; [|exact Hw]); constructor; cbn [sk_counters sk_width sk_samples]; try assumption; try (unfold len in *; rewrite ?length_map; assumption).
  - apply Forall_map. eapply Forall_impl; [exact S3|]. intros c Hc. cbv beta in *. unfold compose. rewrite Z.shiftr_div_pow2 by lia. change (2 ^ 1) with 2. dlia.
  - rewrite Z.shiftr_div_pow2 by lia. change (2 ^ 1) with 2. dlia.
  - lia.
Qed.

Lemma Sketch_estimate_ok s hash : sketch_ok s -> exists c, Sketch_estimate s hash = Ok c /\ 0 <= c <= 255.
Proof.
  intros Hs. unfold Sketch_estimate. destruct (sketch_get s hash 0 Hs ltac:(lia)) as (c0 & -> & ?), (sketch_get s hash 1 Hs ltac:(lia)) as (c1 & -> & ?), (sketch_get s hash 2 Hs ltac:(lia)) as (c2 & -> & ?), (sketch_get s hash 3 Hs ltac:(lia)) as (c3 & -> & ?).
  cbn [rbind]. eexists. split; [reflexivity | lia].
Qed.
