(* ===== verification/MemPolicyProofs.v ===== *)
(** * The replacement policies keep their queues

    Every operation of a policy succeeds on well-formed queues, leaves them
    well-formed, and only rearranges them; a victim is found whenever the
    policy has an entry it may evict. *)

From stdpp Require Import gmap.
From S2P Require Import Prelude PoolLinks MemPolicy MemLists.

Section Policies.
Context {K V : Type}.
Abbreviation Node := (@Node K V).
Abbreviation PS := (@PS K V).
Implicit Types (nodes : gmap Z Node) (x : PS).

(** ** Well-formed policies *)

Definition freq_ok (p : Policy) (f : Z) : Prop := match p with Sieve => 0 <= f <= 1 | S3Fifo _ => 0 <= f <= 3 | _ => f = 0 end.

(** The queues a policy uses. *)
Definition used (p : Policy) (qs : list (list Z)) : Prop :=
  match p with Fifo | Sieve => qs !! 1%nat = Some [] /\ qs !! 2%nat = Some [] | S3Fifo _ => qs !! 2%nat = Some [] | _ => True end.

Record settings (s : PolicyState) : Prop := {
  se_ghost : ghost_ok (ps_ghost s);
  se_ghost_capacity : gh_capacity (ps_ghost s) = ps_capacity s;
  se_sketch : match ps_policy s with Lfu _ => exists k, ps_sketch s = Some k /\ sketch_ok k | _ => ps_sketch s = None end;
  se_capacity : 0 <= ps_capacity s
}.

Record policy_ok (x : PS) (qs : list (list Z)) : Prop := {
  po_wired : wired x qs;
  po_settings : settings (ps_state x);
  po_freq : forall id n, ps_nodes x !! id = Some n -> freq_ok (ps_policy (ps_state x)) (nd_frequency n);
  po_used : used (ps_policy (ps_state x)) qs
}.

Lemma PolicyState_new_ok policy capacity : Policy_validate policy = Ok tt -> match policy with S3Fifo c => 0 <= s3_ghost_entries c | _ => True end -> 0 <= capacity ->
  policy_ok {| ps_state := PolicyState_new policy capacity; ps_nodes := ∅ |} [[]; []; []].
Proof.
  intros Hv Hg Hc. constructor.
  - constructor; cbn [ps_state ps_nodes PolicyState_new ps_lists ps_hand]; [auto | | | constructor | intros id n Hn; rewrite lookup_empty in Hn; discriminate | intros id n Hn; rewrite lookup_empty in Hn; discriminate | discriminate].
    + intros q l Hl. destruct q as [|[|[|q]]]; [..|discriminate]; injection Hl as <-; eexists; (split; [reflexivity|]); auto.
    + intros q l Hl. destruct q as [|[|[|q]]]; [..|discriminate]; injection Hl as <-; exact I.
  - constructor; cbn [ps_state PolicyState_new ps_ghost ps_sketch ps_policy ps_capacity]; [apply Ghost_new_ok; [destruct policy; assumption || lia | assumption] | reflexivity | | assumption].
    destruct policy as [| |c| |]; try reflexivity. eexists. split; [reflexivity|]. cbn [Policy_validate] in Hv. destruct (_ || _) in Hv; [discriminate|]. unfold fail_if in Hv. destruct (negb (is_power_of_two _) || _) eqn:E in Hv; [discriminate|]. apply orb_false_iff in E as [E1 E2]. apply negb_false_iff in E1. apply Sketch_new_ok; [assumption | boolp; assumption].
  - cbn. intros id n Hn. rewrite lookup_empty in Hn. discriminate.
  - destruct policy; cbn; auto.
Qed.

(** What no policy operation changes. *)
Record kept (x x' : PS) : Prop := {
  kp_records : forall id, nd_record <$> ps_nodes x' !! id = nd_record <$> ps_nodes x !! id;
  kp_policy : ps_policy (ps_state x') = ps_policy (ps_state x);
  kp_capacity : ps_capacity (ps_state x') = ps_capacity (ps_state x)
}.

Lemma kept_refl x : kept x x.
Proof. constructor; reflexivity. Qed.
Lemma kept_trans x y z : kept x y -> kept y z -> kept x z.
Proof. intros [A1 A2 A3] [B1 B2 B3]. constructor; [intros id; rewrite B1; apply A1 | congruence | congruence]. Qed.
Lemma same_rest_kept x x' : same_rest x x' -> kept x x'.
Proof.
  intros (Hc & Hp & Hcap & _). constructor; [|assumption | assumption]. intros id. specialize (Hc id). destruct (ps_nodes x' !! id), (ps_nodes x !! id); try discriminate; [injection Hc as H _; cbn; congruence | reflexivity].
Qed.
Lemma settings_rest x x' : same_rest x x' -> settings (ps_state x) -> settings (ps_state x').
Proof. intros (_ & Hp & Hc & Hg & Hk) [S1 S2 S3 S4]. constructor; rewrite ?Hp, ?Hc, ?Hg, ?Hk; assumption. Qed.
Lemma freq_rest x x' : same_rest x x' -> (forall id n, ps_nodes x !! id = Some n -> freq_ok (ps_policy (ps_state x)) (nd_frequency n)) ->
  forall id n, ps_nodes x' !! id = Some n -> freq_ok (ps_policy (ps_state x')) (nd_frequency n).
Proof. intros (Hc & Hp & _) Hf id n Hn. destruct (same_cores_node _ _ id n (fun i => eq_sym (Hc i)) Hn) as (m & Hm & _ & He). rewrite Hp, <- He. eauto. Qed.

Lemma policy_ok_rest x x' qs qs' : policy_ok x qs -> same_rest x x' -> wired x' qs' -> used (ps_policy (ps_state x)) qs' -> policy_ok x' qs'.
Proof. intros [P1 P2 P3 P4] R W U. constructor; [assumption | eapply settings_rest; eassumption | eapply freq_rest; eassumption | destruct R as (_ & -> & _); assumption]. Qed.

(** ** Changes that keep the links *)

Definition view (n : Node) := (nd_record n, nd_prev n, nd_next n, nd_queue n).

Lemma view_inv nodes nodes' id n : (forall j, view <$> nodes' !! j = view <$> nodes !! j) -> nodes !! id = Some n -> exists n', nodes' !! id = Some n' /\ view n' = view n.
Proof. intros Hv Hn. specialize (Hv id). rewrite Hn in Hv. destruct (nodes' !! id) as [n'|]; [|discriminate]. injection Hv as H1 H2 H3 H4. exists n'. unfold view. split; congruence. Qed.

Lemma view_seg nodes nodes' q l : (forall j, view <$> nodes' !! j = view <$> nodes !! j) -> forall prev nxt, seg nodes q prev l nxt -> seg nodes' q prev l nxt.
Proof.
  intros Hv. induction l as [|id l IH]; intros prev nxt; cbn [seg]; [auto|]. intros [(n & Hn & H1 & H2 & H3) Hs]. split; [|apply IH; assumption].
  destruct (view_inv _ _ id n Hv Hn) as (n' & Hn' & He). injection He as _ E1 E2 E3. exists n'. repeat split; congruence.
Qed.

Lemma view_wsum nodes nodes' l : (forall j, view <$> nodes' !! j = view <$> nodes !! j) -> wsum nodes' l = wsum nodes l.
Proof.
  intros Hv. unfold wsum. induction l as [|id l IH]; cbn [foldr]; [reflexivity|]. rewrite IH. f_equal. unfold weight_of. specialize (Hv id). destruct (nodes' !! id), (nodes !! id); try discriminate; [injection Hv as -> _ _ _; reflexivity | reflexivity].
Qed.

Lemma wired_view x x' qs : wired x qs -> ps_lists (ps_state x') = ps_lists (ps_state x) -> (forall j, view <$> ps_nodes x' !! j = view <$> ps_nodes x !! j) ->
  (forall h, ps_hand (ps_state x') = Some h -> exists l, qs !! 0%nat = Some l /\ h ∈ l) -> wired x' qs.
Proof.
  intros [W1 W2 W3 W4 W5 W6 _] Hl Hv Hh. assert (Hv' : forall j, view <$> ps_nodes x !! j = view <$> ps_nodes x' !! j) by (intros j; symmetry; apply Hv). constructor; rewrite ?Hl; try assumption.
  - intros q l Hq. rewrite (view_wsum (ps_nodes x)) by assumption. auto.
  - intros q l Hq. eapply view_seg; [eassumption | auto].
  - intros id n Hn Hout. destruct (view_inv _ _ id n Hv' Hn) as (m & Hm & He). injection He as _ _ _ <-. eauto.
  - intros id n Hn. destruct (view_inv _ _ id n Hv' Hn) as (m & Hm & He). injection He as <- _ _ _. eauto.
Qed.

Lemma view_update nodes id n n' : nodes !! id = Some n -> view n' = view n -> forall j, view <$> <[id := n']> nodes !! j = view <$> nodes !! j.
Proof. intros Hn Hv j. destruct (decide (id = j)) as [<-|Hne]; [rewrite lookup_insert_eq, Hn; cbn; congruence | rewrite lookup_insert_ne by assumption; reflexivity]. Qed.

(** A counter and a hand move; the links do not. *)
Lemma frequency_ok x qs id n v hand : policy_ok x qs -> ps_nodes x !! id = Some n -> freq_ok (ps_policy (ps_state x)) v -> (forall h, hand = Some h -> exists l, qs !! 0%nat = Some l /\ h ∈ l) ->
  let x' := {| ps_state := ps_set_hand hand (ps_state x); ps_nodes := <[id := nd_set_frequency v n]> (ps_nodes x) |} in policy_ok x' qs /\ kept x x'.
Proof.
  intros [P1 P2 P3 P4] Hn Hv Hh. cbv zeta. pose proof (view_update _ id n (nd_set_frequency v n) Hn eq_refl) as Hview. split; constructor; cbn [ps_state ps_nodes ps_set_hand ps_policy ps_capacity]; try reflexivity; try assumption.
  - eapply wired_view; [exact P1 | reflexivity | exact Hview | exact Hh].
  - destruct P2. constructor; assumption.
  - intros j m Hj. destruct (decide (id = j)) as [<-|Hne]; [rewrite lookup_insert_eq in Hj; injection Hj as <-; exact Hv | rewrite lookup_insert_ne in Hj by assumption; eauto].
  - intros j. destruct (decide (id = j)) as [<-|Hne]; [rewrite lookup_insert_eq, Hn; reflexivity | rewrite lookup_insert_ne by assumption; reflexivity].
Qed.

Lemma set_hand_same (s : PolicyState) : ps_set_hand (ps_hand s) s = s.
Proof. destruct s; reflexivity. Qed.

Lemma frequency_only x qs id n v : policy_ok x qs -> ps_nodes x !! id = Some n -> freq_ok (ps_policy (ps_state x)) v ->
  let x' := {| ps_state := ps_state x; ps_nodes := <[id := nd_set_frequency v n]> (ps_nodes x) |} in policy_ok x' qs /\ kept x x'.
Proof. intros P Hn Hv. pose proof (frequency_ok x qs id n v (ps_hand (ps_state x)) P Hn Hv (wq_hand _ _ (po_wired _ _ P))) as H. rewrite set_hand_same in H. exact H. Qed.

(** A new sketch or ghost. *)
Lemma state_ok x qs s : policy_ok x qs -> ps_lists s = ps_lists (ps_state x) -> ps_hand s = ps_hand (ps_state x) -> ps_policy s = ps_policy (ps_state x) -> settings s -> policy_ok {| ps_state := s; ps_nodes := ps_nodes x |} qs.
Proof.
  intros [P1 P2 P3 P4] Hl Hh Hp Hs. constructor; cbn [ps_state ps_nodes]; rewrite ?Hp; try assumption. eapply wired_view; [exact P1 | exact Hl | reflexivity | cbn; rewrite Hh; apply (wq_hand _ _ P1)].
Qed.

(** ** Moving entries between queues *)

Lemma move_while_ok over from to : (from < 3)%nat -> (to < 3)%nat -> from <> to -> forall n x qs l, wired x qs -> qs !! from = Some l -> (length l <= n)%nat ->
  exists x' qs', move_while n over x (Z.of_nat from) (Z.of_nat to) = Ok x' /\ wired x' qs' /\ same_rest x x' /\ Permutation (concat qs') (concat qs) /\ (over (ps_state x') = false \/ qs' !! from = Some []) /\ (forall j, j <> from -> j <> to -> qs' !! j = qs !! j).
Proof.
  intros Hf Ht Hne. induction n as [|n IH]; intros x qs l W Hl Hn; cbn [move_while]; (destruct (over (ps_state x)) eqn:Ho; [|exists x, qs; auto 8 using same_rest_refl, Permutation_refl]); rewrite (proj1 (list_at_ok x qs from l W Hl)); destruct l as [|id l]; try solve [exists x, qs; cbn [head]; auto 8 using same_rest_refl, Permutation_refl].
  - cbn in Hn. lia.
  - cbn [head]. destruct (move_ok x qs from [] id l to W Hl Ht) as (x1 & lt & Hm & Hlt & W1 & R1 & Hp & _). rewrite Hm. cbn [rbind app] in *. rewrite list_lookup_insert_ne in Hlt by assumption.
    edestruct (IH x1 _ l W1) as (x' & qs' & He & W' & R' & Hp' & Ho' & Hj'); [rewrite list_lookup_insert_ne by congruence; apply list_lookup_insert_eq; rewrite (proj1 (wq_len _ _ W)); assumption | cbn in Hn; lia|].
    exists x', qs'. split; [exact He|]. split; [exact W'|]. split; [eapply same_rest_trans; eassumption|]. split; [etransitivity; eassumption|]. split; [exact Ho'|]. intros j H1 H2. rewrite (Hj' j H1 H2), !list_lookup_insert_ne by congruence. reflexivity.
Qed.

Lemma queue_size x qs q l : wired x qs -> qs !! q = Some l -> (length l <= size (ps_nodes x))%nat.
Proof. intros W Hl. eapply queued_size; [exact W | eapply concat_NoDup; [apply (wq_distinct _ _ W) | exact Hl] | intros id Hin; apply elem_of_concat; eauto]. Qed.

Lemma demote_ok x qs from to limit : (from < 3)%nat -> (to < 3)%nat -> from <> to -> wired x qs ->
  exists x' qs', demote x (Z.of_nat from) (Z.of_nat to) limit = Ok x' /\ wired x' qs' /\ same_rest x x' /\ Permutation (concat qs') (concat qs) /\ (ql_weight (list_at (ps_state x') (Z.of_nat from)) <= limit \/ qs' !! from = Some []) /\ (forall j, j <> from -> j <> to -> qs' !! j = qs !! j).
Proof.
  intros Hf Ht Hne W. destruct (wired_queue x qs from W Hf) as [l Hl]. unfold demote. edestruct (move_while_ok (fun s => ql_weight (list_at s (Z.of_nat from)) >? limit) from to Hf Ht Hne) as (x' & qs' & He & W' & R' & Hp & Ho & Hj); [exact W | exact Hl | eapply queue_size; eassumption|].
  exists x', qs'. split; [exact He|]. split; [exact W'|]. split; [exact R'|]. split; [exact Hp|]. split; [|exact Hj]. destruct Ho as [Ho|Ho]; [left; boolp; assumption | right; assumption].
Qed.

(** ** Operations

    The pinned entries are the third queue of LRU. *)

Definition lru (p : Policy) : bool := match p with Lru _ => true | _ => false end.
Definition pins (qs : list (list Z)) : list Z := default [] (qs !! 2%nat).

Definition rearranged (x : PS) (qs : list (list Z)) (x' : PS) (qs' : list (list Z)) : Prop := policy_ok x' qs' /\ Permutation (concat qs') (concat qs) /\ kept x x'.

Lemma rearranged_refl x qs : policy_ok x qs -> rearranged x qs x qs.
Proof. intros P. split; [exact P|]. split; [reflexivity | apply kept_refl]. Qed.
Lemma rearranged_trans x qs y ys z zs : rearranged x qs y ys -> rearranged y ys z zs -> rearranged x qs z zs.
Proof. intros (_ & H1 & H2) (P & H3 & H4). split; [exact P|]. split; [etransitivity; eassumption | eapply kept_trans; eassumption]. Qed.

(** Moving is harmless when the policy uses the target queue. *)
Lemma move_rearranged x qs q a id b t : policy_ok x qs -> qs !! q = Some (a ++ id :: b) -> (t < 3)%nat -> (forall lt, used (ps_policy (ps_state x)) (<[t := lt ++ [id]]> (<[q := a ++ b]> qs))) ->
  exists x' lt, move_to x id (Z.of_nat t) = Ok x' /\ <[q := a ++ b]> qs !! t = Some lt /\ rearranged x qs x' (<[t := lt ++ [id]]> (<[q := a ++ b]> qs)) /\ same_rest x x'.
Proof.
  intros P Hl Ht Hu. destruct (move_ok x qs q a id b t (po_wired _ _ P) Hl Ht) as (x' & lt & Hm & Hlt & W & R & Hp & _). exists x', lt. split; [exact Hm|]. split; [exact Hlt|]. split; [|exact R].
  split; [eapply policy_ok_rest; eauto|]. split; [exact Hp | apply same_rest_kept; exact R].
Qed.

Lemma demote_rearranged x qs from to limit : (from < 3)%nat -> (to < 3)%nat -> from <> to -> policy_ok x qs -> (forall qs', used (ps_policy (ps_state x)) qs') ->
  exists x' qs', demote x (Z.of_nat from) (Z.of_nat to) limit = Ok x' /\ rearranged x qs x' qs' /\ (forall j, j <> from -> j <> to -> qs' !! j = qs !! j).
Proof.
  intros Hf Ht Hne P Hu. destruct (demote_ok x qs from to limit Hf Ht Hne (po_wired _ _ P)) as (x' & qs' & He & W & R & Hp & _ & Hj). exists x', qs'. split; [exact He|]. split; [|exact Hj]. split; [eapply policy_ok_rest; eauto|]. split; [exact Hp | apply same_rest_kept; exact R].
Qed.

Lemma record_sketch s hash : settings s -> exists s', (match ps_sketch s with Some sketch => let? sketch := Sketch_record sketch hash in Ok (ps_set_sketch (Some sketch) s) | None => Ok s end) = @Ok unit _ s' /\ settings s' /\
  ps_lists s' = ps_lists s /\ ps_hand s' = ps_hand s /\ ps_policy s' = ps_policy s /\ ps_capacity s' = ps_capacity s.
Proof.
  intros [S1 S2 S3 S4]. destruct (ps_sketch s) as [k|] eqn:Hk; [|exists s; split; [reflexivity|]; split; [constructor; rewrite ?Hk; assumption | auto]].
  destruct (ps_policy s) eqn:Hp; try discriminate. destruct S3 as (k' & Hk' & Hok). injection Hk' as <-. destruct (Sketch_record_ok k hash Hok) as (k' & He & Hok' & _). rewrite He. cbn [rbind]. eexists. split; [reflexivity|]. split; [|cbn; auto].
  constructor; cbn [ps_set_sketch ps_ghost ps_capacity ps_policy ps_sketch]; try assumption. rewrite Hp. eauto.
Qed.

Lemma entry_queue x qs p hash : policy_ok x qs -> ps_policy (ps_state x) = p -> exists q, (q < 3)%nat /\
  (match p with Lru _ => 2 | S3Fifo _ => if Ghost_contains (ps_ghost (ps_state x)) hash then 1 else 0 | _ => 0 end) = Z.of_nat q /\ forall l, used p (<[q := l]> qs).
Proof.
  intros P Hp. pose proof (po_used _ _ P) as Hu. rewrite Hp in Hu. destruct p as [| | |c|]; cbn [used] in *; [exists 0%nat | exists 2%nat | exists 0%nat | | exists 0%nat]; try (split; [lia|]; split; [reflexivity|]; intros l; rewrite ?list_lookup_insert_ne by lia; auto; fail).
  destruct (Ghost_contains _ _); [exists 1%nat | exists 0%nat]; (split; [lia|]; split; [reflexivity|]; intros l; rewrite ?list_lookup_insert_ne by lia; auto).
Qed.

Lemma push_perm (qs : list (list Z)) q l id : qs !! q = Some l -> Permutation (concat (<[q := l ++ [id]]> qs)) (id :: concat qs).
Proof.
  intros Hl. rewrite (concat_remove (<[q := l ++ [id]]> qs) q (l ++ [id]) id l); [rewrite list_insert_insert_eq, list_insert_id by assumption; reflexivity | apply list_lookup_insert_eq; eapply lookup_lt_Some; exact Hl | rewrite Permutation_app_comm; reflexivity].
Qed.

Lemma policy_insert_ok x qs id n : policy_ok x qs -> ps_nodes x !! id = Some n -> id ∉ concat qs ->
  exists x' qs', policy_insert x id = Ok x' /\ policy_ok x' qs' /\ Permutation (concat qs') (id :: concat qs) /\ kept x x' /\ (lru (ps_policy (ps_state x)) = true -> forall j, j ∈ pins qs' -> j = id \/ j ∈ pins qs).
Proof.
  intros P Hn Hid. unfold policy_insert. rewrite Hn. cbn [expect rbind]. destruct (entry_queue x qs _ (rc_hash (nd_record n)) P eq_refl) as (q & Hq & He & Hu). rewrite He.
  destruct (record_sketch (ps_state x) (rc_hash (nd_record n)) (po_settings _ _ P)) as (s & Hs & S1 & S2 & S3 & S4 & S5). rewrite Hs. cbn [rbind].
  assert (P1 : policy_ok {| ps_state := s; ps_nodes := ps_nodes x |} qs) by (apply state_ok; assumption). destruct (wired_queue _ _ q (po_wired _ _ P1) Hq) as [l Hl].
  destruct (list_push_ok _ qs q l id n (po_wired _ _ P1) Hn Hid Hl) as (x1 & Hp & W1 & R1 & _). rewrite Hp. cbn [rbind].
  assert (P2 : policy_ok x1 (<[q := l ++ [id]]> qs)) by (eapply policy_ok_rest; [exact P1 | exact R1 | exact W1 | cbn; rewrite S4; apply Hu]).
  assert (K1 : kept x x1) by (eapply kept_trans; [|apply same_rest_kept; exact R1]; constructor; cbn; congruence || reflexivity). pose proof (push_perm qs q l id Hl) as Hperm.
  assert (Hpins : forall j, j ∈ pins (<[q := l ++ [id]]> qs) -> j = id \/ j ∈ pins qs).
  { intros j. unfold pins. destruct (decide (q = 2%nat)) as [->|Hne]; [|rewrite list_lookup_insert_ne by assumption; auto]. rewrite list_lookup_insert_eq by (eapply lookup_lt_Some; exact Hl). rewrite Hl. cbn. rewrite elem_of_app, list_elem_of_singleton. tauto. }
  assert (Hdone : exists x' qs', Ok x1 = @Ok unit _ x' /\ policy_ok x' qs' /\ Permutation (concat qs') (id :: concat qs) /\ kept x x' /\ (lru (ps_policy (ps_state x)) = true -> forall j, j ∈ pins qs' -> j = id \/ j ∈ pins qs)) by eauto 10.
  rewrite S4. destruct (ps_policy (ps_state x)) as [| |c| |] eqn:Hpol; try exact Hdone. destruct (wired_queue _ _ 0 W1 ltac:(lia)) as [l0 Hl0].
  edestruct (move_while_ok (fun s => (total_weight s <=? ps_capacity s) && (ql_weight (list_at s 0) >? portion (ps_capacity s) (lfu_window_percent c))) 0 1) as (x' & qs' & Hm & W' & R' & Hp' & _); [lia | lia | lia | exact W1 | exact Hl0 | eapply queue_size; eassumption|].
  exists x', qs'. split; [exact Hm|]. split; [eapply policy_ok_rest; [exact P2 | exact R' | exact W' | rewrite (kp_policy _ _ K1), Hpol; exact I]|]. split; [etransitivity; eassumption|]. split; [eapply kept_trans; [exact K1 | apply same_rest_kept; exact R'] | discriminate].
Qed.

Lemma access_shared_ok x qs id n : policy_ok x qs -> mutable_hits (ps_policy (ps_state x)) = false -> ps_nodes x !! id = Some n ->
  exists n', access_shared (ps_state x) n = Ok n' /\ rearranged x qs {| ps_state := ps_state x; ps_nodes := <[id := n']> (ps_nodes x) |} qs.
Proof.
  intros P Hm Hn. pose proof (po_freq _ _ P id n Hn) as Hf. unfold access_shared, rearranged. destruct (ps_policy (ps_state x)) eqn:Hp; try discriminate; cbn [freq_ok] in Hf.
  - exists n. split; [reflexivity|]. rewrite insert_id by assumption. destruct x. apply rearranged_refl. assumption.
  - exists (nd_set_frequency (Z.min (nd_frequency n + 1) 3) n). split; [reflexivity|]. destruct (frequency_only x qs id n (Z.min (nd_frequency n + 1) 3) P Hn) as [H1 H2]; [rewrite Hp; cbn [freq_ok]; lia | auto].
  - exists (nd_set_frequency 1 n). split; [reflexivity|]. destruct (frequency_only x qs id n 1 P Hn) as [H1 H2]; [rewrite Hp; cbn [freq_ok]; lia | auto].
Qed.

Lemma queued_split x qs id : wired x qs -> id ∈ concat qs -> exists q a b n, qs !! q = Some (a ++ id :: b) /\ (q < 3)%nat /\ ps_nodes x !! id = Some n /\ nd_queue n = Some (Z.of_nat q).
Proof.
  intros W Hin. apply elem_of_concat in Hin as (q & l & Hl & Hin). destruct (wired_node x qs q l id W Hl Hin) as (n & Hn & Hq). apply list_elem_of_split in Hin as (a & b & ->). exists q, a, b, n. repeat split; auto.
  apply lookup_lt_Some in Hl. rewrite (proj1 (wq_len _ _ W)) in Hl. exact Hl.
Qed.

Lemma policy_access_ok x qs id : policy_ok x qs -> mutable_hits (ps_policy (ps_state x)) = true -> id ∈ concat qs -> exists x' qs', policy_access x id = Ok x' /\ rearranged x qs x' qs' /\
  (lru (ps_policy (ps_state x)) = true -> (forall j, j ∈ pins qs' -> j = id \/ j ∈ pins qs) /\ (id ∈ pins qs -> qs' = qs)).
Proof.
  intros P Hm Hin. destruct (queued_split x qs id (po_wired _ _ P) Hin) as (q & a & b & n & Hl & Hq3 & Hn & Hq). unfold policy_access. rewrite Hn. cbn [expect rbind]. destruct (ps_policy (ps_state x)) as [|c|c|c|] eqn:Hp; try discriminate.
  - case_decide as Hd; [exists x, qs; split; [reflexivity|]; split; [apply rearranged_refl; exact P | auto]|]. destruct (move_rearranged x qs q a id b 2 P Hl ltac:(lia)) as (x' & lt & He & Hlt & R & _); [rewrite Hp; exact (fun _ => I)|]. eexists x', _. split; [exact He|]. split; [exact R|].
    assert (Hq2 : q <> 2%nat) by (intros ->; apply Hd; exact Hq). unfold pins. rewrite list_lookup_insert_eq by (rewrite length_insert, (proj1 (wq_len _ _ (po_wired _ _ P))); lia). rewrite list_lookup_insert_ne in Hlt by assumption. rewrite Hlt. cbn. split; [intros j; rewrite elem_of_app, list_elem_of_singleton; tauto|].
    intros Hin2. exfalso. apply Hq2. eapply concat_disjoint; [apply (wq_distinct _ _ (po_wired _ _ P)) | exact Hl | exact Hlt | apply elem_of_app; right; left | exact Hin2].
  - pose proof (se_sketch _ (po_settings _ _ P)) as Hsk. rewrite Hp in Hsk. destruct Hsk as (k & Hk & Hok). rewrite Hk. cbn [expect rbind].
    destruct (Sketch_record_ok k (rc_hash (nd_record n)) Hok) as (k' & Hr & Hok' & _). rewrite Hr. cbn [rbind].
    assert (P1 : policy_ok {| ps_state := ps_set_sketch (Some k') (ps_state x); ps_nodes := ps_nodes x |} qs).
    { apply state_ok; try reflexivity; [assumption|]. destruct (po_settings _ _ P) as [S1 S2 S3 S4]. constructor; cbn [ps_set_sketch ps_ghost ps_capacity ps_policy ps_sketch]; try assumption. rewrite Hp. eauto. }
    assert (Ht : exists t, (t < 3)%nat /\ (if decide (nd_queue n = Some 0) then 0 else 2) = Z.of_nat t) by (case_decide; [exists 0%nat | exists 2%nat]; split; lia || reflexivity). destruct Ht as (t & Ht & ->).
    destruct (move_rearranged _ qs q a id b t P1 Hl Ht) as (x1 & lt & He & _ & R & _); [cbn; rewrite Hp; exact (fun _ => I)|]. rewrite He. cbn [rbind].
    destruct (demote_rearranged x1 _ 2 1 (portion (ps_capacity (ps_state x)) (lfu_protected_percent c)) ltac:(lia) ltac:(lia) ltac:(lia) (proj1 R)) as (x' & qs' & Hd & R' & _); [rewrite (kp_policy _ _ (proj2 (proj2 R))); cbn; rewrite Hp; exact (fun _ => I)|].
    exists x', qs'. split; [exact Hd|]. split; [|discriminate]. eapply rearranged_trans; [|eapply rearranged_trans; [exact R | exact R']]. split; [exact P1|]. split; [reflexivity | constructor; reflexivity].
Qed.

(** A released entry leaves the pinned queue; its policy is LRU. *)
Lemma policy_release_ok x qs id : policy_ok x qs -> id ∈ concat qs -> exists x' qs', policy_release x id = Ok x' /\ rearranged x qs x' qs' /\
  (lru (ps_policy (ps_state x)) = true -> forall j, j ∈ pins qs' -> j <> id /\ j ∈ pins qs).
Proof.
  intros P Hin. destruct (queued_split x qs id (po_wired _ _ P) Hin) as (q & a & b & n & Hl & Hq3 & Hn & Hq). unfold policy_release. pose proof (rearranged_refl x qs P) as Hr. destruct (ps_policy (ps_state x)) as [|c|c|c|] eqn:Hp; try (exists x, qs; split; [reflexivity|]; split; [exact Hr | discriminate]).
  rewrite Hn. cbn [expect rbind]. pose proof (wq_distinct _ _ (po_wired _ _ P)) as Hdis. case_decide as Hd2.
  2: { exists x, qs. split; [reflexivity|]. split; [exact Hr|]. intros _ j Hj. split; [|exact Hj]. intros ->. apply Hd2. unfold pins in Hj. destruct (qs !! 2%nat) as [l2|] eqn:H2; [|inversion Hj]. assert (q = 2%nat) as -> by (eapply concat_disjoint; [exact Hdis | exact Hl | exact H2 | apply elem_of_app; right; left | exact Hj]). exact Hq. }
  assert (q = 2%nat) as -> by (rewrite Hq in Hd2; injection Hd2; lia).
  assert (Ht : exists t, (t < 2)%nat /\ (match rc_priority (nd_record n) with PHigh => 1 | PNormal => 0 end) = Z.of_nat t) by (destruct (rc_priority _); [exists 0%nat | exists 1%nat]; split; lia || reflexivity). destruct Ht as (t & Ht & ->).
  destruct (move_rearranged x qs 2 a id b t P Hl ltac:(lia)) as (x1 & lt & He & _ & R & _); [rewrite Hp; exact (fun _ => I)|]. rewrite He. cbn [rbind].
  destruct (demote_rearranged x1 _ 1 0 (portion (ps_capacity (ps_state x)) (lru_high_priority_percent c)) ltac:(lia) ltac:(lia) ltac:(lia) (proj1 R)) as (x' & qs' & Hd & R' & Hj'); [rewrite (kp_policy _ _ (proj2 (proj2 R))), Hp; exact (fun _ => I)|].
  exists x', qs'. split; [exact Hd|]. split; [eapply rearranged_trans; eassumption|]. intros _ j. unfold pins. rewrite (Hj' 2%nat), list_lookup_insert_ne, list_lookup_insert_eq, Hl by (try lia; rewrite (proj1 (wq_len _ _ (po_wired _ _ P))); lia). cbn. intros Hj.
  pose proof (concat_NoDup _ _ _ Hdis Hl) as Hnd. rewrite <- Permutation_middle in Hnd. apply NoDup_cons in Hnd as [Hnd _]. split; [intros ->; contradiction | apply elem_of_app in Hj as [?|?]; apply elem_of_app; [left | right; right]; assumption].
Qed.

Lemma policy_resize_ok x qs capacity : policy_ok x qs -> 0 <= capacity ->
  exists x' qs', policy_resize x capacity = Ok x' /\ policy_ok x' qs' /\ Permutation (concat qs') (concat qs) /\ (forall id, nd_record <$> ps_nodes x' !! id = nd_record <$> ps_nodes x !! id) /\
    ps_policy (ps_state x') = ps_policy (ps_state x) /\ ps_capacity (ps_state x') = capacity /\ (lru (ps_policy (ps_state x)) = true -> pins qs' = pins qs).
Proof.
  intros P Hc. unfold policy_resize. destruct (po_settings _ _ P) as [[G1 G2 G3] S2 S3 S4]. cbv zeta.
  set (g0 := {| gh_queue := _; gh_counts := _; gh_weight := _; gh_capacity := capacity; gh_limit := _ |}). destruct (Ghost_trim_ok g0) as (g & Hg & Hok & [L1 L2]); [destruct G1; constructor; assumption | exact Hc | cbn; unfold len in G3; lia|].
  rewrite Hg. cbn [rbind]. set (s := ps_set_ghost g (ps_set_capacity capacity (ps_state x))). set (x1 := {| ps_state := s; ps_nodes := ps_nodes x |}).
  assert (P1 : policy_ok x1 qs) by (apply state_ok; try reflexivity; [assumption|]; constructor; cbn [s ps_set_ghost ps_set_capacity ps_ghost ps_capacity ps_policy ps_sketch]; assumption).
  assert (Hfin : forall x' qs', rearranged x1 qs x' qs' -> (lru (ps_policy (ps_state x)) = true -> pins qs' = pins qs) -> policy_ok x' qs' /\ Permutation (concat qs') (concat qs) /\ (forall id, nd_record <$> ps_nodes x' !! id = nd_record <$> ps_nodes x !! id) /\ ps_policy (ps_state x') = ps_policy (ps_state x) /\ ps_capacity (ps_state x') = capacity /\ (lru (ps_policy (ps_state x)) = true -> pins qs' = pins qs))
    by (intros x' qs' (A & B & [C D E]); auto 8).
  cbn [ps_policy ps_set_capacity]. destruct (ps_policy (ps_state x)) as [|c|c|c|] eqn:Hp; try (exists x1, qs; split; [reflexivity | apply Hfin; [apply rearranged_refl; exact P1 | reflexivity]]).
  - destruct (demote_rearranged x1 qs 1 0 (portion capacity (lru_high_priority_percent c)) ltac:(lia) ltac:(lia) ltac:(lia) P1) as (x' & qs' & Hd & R & Hj); [cbn; rewrite Hp; exact (fun _ => I)|]. exists x', qs'. split; [exact Hd | apply Hfin; [exact R | try discriminate; intros _; unfold pins; rewrite Hj by lia; reflexivity]].
  - destruct (demote_rearranged x1 qs 2 1 (portion capacity (lfu_protected_percent c)) ltac:(lia) ltac:(lia) ltac:(lia) P1) as (x' & qs' & Hd & R & Hj); [cbn; rewrite Hp; exact (fun _ => I)|]. exists x', qs'. split; [exact Hd | apply Hfin; [exact R | try discriminate; intros _; unfold pins; rewrite Hj by lia; reflexivity]].
Qed.

Lemma clear_history_ok x qs : policy_ok x qs -> policy_ok {| ps_state := clear_history (ps_state x); ps_nodes := ps_nodes x |} qs.
Proof.
  intros P. destruct (po_settings _ _ P) as [[G1 G2 G3] S2 S3 S4]. constructor; [| | apply (po_freq _ _ P) | apply (po_used _ _ P)].
  - eapply wired_view; [apply (po_wired _ _ P) | reflexivity | reflexivity | discriminate].
  - constructor; cbn [ps_state clear_history ps_set_hand ps_set_ghost ps_set_sketch ps_ghost ps_capacity ps_policy ps_sketch gh_capacity]; try assumption.
    + constructor; cbn [gh_weight gh_capacity gh_queue gh_limit]; [constructor; [intros h; apply lookup_empty | reflexivity | constructor] | lia | unfold len in *; cbn; lia].
    + destruct (ps_policy (ps_state x)); try (rewrite S3; reflexivity). destruct S3 as (k & -> & [K1 K2 K3 K4]). eexists. split; [reflexivity|]. constructor; cbn [sk_counters sk_width sk_samples]; [assumption | unfold len in *; rewrite length_replicate; assumption | apply Forall_replicate; lia | lia].
Qed.

(** ** Victims

    A turn of the SIEVE hand or of S3-FIFO either finds a victim or lowers the
    sum of the queued entries' counters. *)

Definition freq_of nodes (id : Z) : Z := match nodes !! id with Some n => nd_frequency n | None => 0 end.
Definition fsum nodes (l : list Z) : Z := foldr (fun id a => freq_of nodes id + a) 0 l.

Lemma fsum_perm nodes l l' : Permutation l l' -> fsum nodes l = fsum nodes l'.
Proof. induction 1; cbn [fsum foldr]; unfold fsum in *; lia. Qed.

Lemma fsum_same nodes nodes' l : same_cores nodes nodes' -> fsum nodes' l = fsum nodes l.
Proof.
  intros Hc. unfold fsum. induction l as [|id l IH]; cbn [foldr]; [reflexivity|]. rewrite IH. f_equal. specialize (Hc id). unfold freq_of. destruct (nodes' !! id), (nodes !! id); try discriminate; [injection Hc as _ ->; reflexivity | reflexivity].
Qed.

Lemma fsum_other nodes id n' l : id ∉ l -> fsum (<[id := n']> nodes) l = fsum nodes l.
Proof.
  induction l as [|j l IH]; intros Hin; cbn [fsum foldr]; [reflexivity|]. apply not_elem_of_cons in Hin as [Hne Hin]. unfold fsum in IH. rewrite (IH Hin). unfold freq_of at 1. rewrite lookup_insert_ne by congruence. reflexivity.
Qed.

Lemma fsum_update nodes id n n' l : NoDup l -> id ∈ l -> nodes !! id = Some n -> fsum (<[id := n']> nodes) l = fsum nodes l - nd_frequency n + nd_frequency n'.
Proof.
  intros Hd Hin Hn. apply list_elem_of_split in Hin as (a & b & ->). rewrite !(fsum_perm _ (a ++ id :: b) (id :: a ++ b)) by (symmetry; apply Permutation_middle). rewrite <- Permutation_middle in Hd. apply NoDup_cons in Hd as [Hid _].
  cbn [fsum foldr]. fold (fsum nodes (a ++ b)) (fsum (<[id := n']> nodes) (a ++ b)). rewrite fsum_other by assumption. unfold freq_of. rewrite lookup_insert_eq, Hn. lia.
Qed.

Lemma fsum_bound nodes l k : (forall id n, nodes !! id = Some n -> 0 <= nd_frequency n <= k) -> 0 <= k -> 0 <= fsum nodes l <= k * len l.
Proof.
  intros Hf Hk. unfold fsum, len. induction l as [|id l IH]; cbn [foldr length]; [lia|]. assert (0 <= freq_of nodes id <= k) by (unfold freq_of; destruct (nodes !! id) as [n|] eqn:Hn; [eauto | lia]). lia.
Qed.

Lemma seg_at nodes q prev a id b nxt n : seg nodes q prev (a ++ id :: b) nxt -> nodes !! id = Some n -> nd_next n = oelse (head b) nxt.
Proof. intros Hs Hn. apply seg_app in Hs as [_ [(m & Hm & _ & Hx & _) _]]. congruence. Qed.

Lemma sieve_ok : forall n x qs, policy_ok x qs -> ps_policy (ps_state x) = Sieve -> fsum (ps_nodes x) (concat qs) < Z.of_nat n ->
  exists v x', sieve_victim n x = Ok (v, x') /\ rearranged x qs x' qs /\ match v with Some id => id ∈ concat qs | None => concat qs = [] end.
Proof.
  induction n as [|n IH]; intros x qs P Hp Hn; [pose proof (fsum_bound (ps_nodes x) (concat qs) 1) as Hb; pose proof (po_freq _ _ P) as Hf; rewrite Hp in Hf; specialize (Hb Hf ltac:(lia)); lia|].
  pose proof (po_wired _ _ P) as W. pose proof (po_used _ _ P) as Hu. rewrite Hp in Hu. destruct Hu as [U1 U2]. destruct (wired_queue x qs 0 W ltac:(lia)) as [l Hl]. assert (Hc : concat qs = l) by (destruct (wq_len _ _ W) as [H3 _]; destruct qs as [|q0 [|q1 [|q2 [|]]]]; try discriminate; cbn in *; injection Hl as ->; injection U1 as ->; injection U2 as ->; apply app_nil_r).
  pose proof (proj1 (list_at_ok x qs 0 l W Hl)) as Hhead. cbn [sieve_victim]. change 0 with (Z.of_nat 0) at 1. rewrite Hhead.
  assert (Hsel : match oelse (ps_hand (ps_state x)) (head l) with Some id => id ∈ l | None => l = [] end).
  { destruct (ps_hand (ps_state x)) as [h|] eqn:Hh; cbn [oelse]; [destruct (wq_hand _ _ W h Hh) as (l' & Hl' & Hin); congruence | destruct l; [reflexivity | left]]. }
  destruct (oelse (ps_hand (ps_state x)) (head l)) as [id|] eqn:Hid; [|exists None, x; rewrite Hc; split; [reflexivity|]; split; [apply rearranged_refl; assumption | assumption]].
  destruct (wired_node x qs 0 l id W Hl Hsel) as (nd & Hnd & _). rewrite Hnd. cbn [expect rbind].
  assert (Hnext : forall h, nd_next nd = Some h -> exists l', qs !! 0%nat = Some l' /\ h ∈ l').
  { intros h Hh. exists l. split; [exact Hl|]. destruct (list_elem_of_split _ _ Hsel) as (a & b & ->). pose proof (seg_at _ _ _ _ _ _ _ nd (wq_seg _ _ W 0 _ Hl) Hnd) as Hx. rewrite Hh in Hx. destruct b as [|y b]; [discriminate|]. injection Hx as ->. apply elem_of_app. right. right. left. }
  destruct (frequency_ok x qs id nd 0 (nd_next nd) P Hnd) as [P1 K1]; [rewrite Hp; cbn [freq_ok]; lia | exact Hnext|]. set (x1 := {| ps_state := _; ps_nodes := _ |}) in *.
  assert (R1 : rearranged x qs x1 qs) by (split; [exact P1 | split; [reflexivity | exact K1]]). destruct (nd_frequency nd =? 0) eqn:Hz; [exists (Some id), x1; rewrite Hc; auto|]. boolp. pose proof (po_freq _ _ P id nd Hnd) as Hf. rewrite Hp in Hf. cbn [freq_ok] in Hf.
  destruct (IH x1 qs P1) as (v & x' & He & R & Hv); [cbn; exact Hp | | exists v, x'; split; [exact He|]; split; [eapply rearranged_trans; eassumption | exact Hv]].
  cbn [x1 ps_nodes]. rewrite (fsum_update _ _ nd); [cbn [nd_set_frequency nd_frequency]; lia | apply (wq_distinct _ _ W) | rewrite Hc; assumption | assumption].
Qed.

Lemma s3fifo_ok c : forall n x qs, policy_ok x qs -> ps_policy (ps_state x) = S3Fifo c -> fsum (ps_nodes x) (concat qs) < Z.of_nat n ->
  exists v x' qs', s3fifo_victim n c x = Ok (v, x') /\ rearranged x qs x' qs' /\ match v with Some id => id ∈ concat qs' | None => concat qs' = [] end.
Proof.
  induction n as [|n IH]; intros x qs P Hp Hn; [pose proof (fsum_bound (ps_nodes x) (concat qs) 3) as Hb; pose proof (po_freq _ _ P) as Hf; rewrite Hp in Hf; specialize (Hb Hf ltac:(lia)); lia|].
  pose proof (po_wired _ _ P) as W. pose proof (po_used _ _ P) as Hu. rewrite Hp in Hu. cbn [used] in Hu. destruct (wq_len _ _ W) as [H3 _]. destruct qs as [|l0 [|l1 [|l2 [|]]]]; try discriminate. injection Hu as ->.
  set (qs := [l0; l1; []]) in *. pose proof (proj1 (list_at_ok x qs 0 l0 W eq_refl)) as E0. pose proof (proj1 (list_at_ok x qs 1 l1 W eq_refl)) as E1. change (Z.of_nat 0) with 0 in E0. change (Z.of_nat 1) with 1 in E1.
  assert (Hturn : forall id q a b nd v, qs !! q = Some (a ++ id :: b) -> ps_nodes x !! id = Some nd -> 0 <= v < nd_frequency nd -> v <= 3 -> q <> 2%nat ->
    exists v' x' qs', (let? x := move_to {| ps_state := ps_state x; ps_nodes := <[id := nd_set_frequency v nd]> (ps_nodes x) |} id 1 in s3fifo_victim n c x) = Ok (v', x') /\ rearranged x qs x' qs' /\ match v' with Some id => id ∈ concat qs' | None => concat qs' = [] end).
  { intros id q a b nd v Hl Hnd Hv Hv3 Hq2. destruct (frequency_only x qs id nd v P Hnd) as [P1 K1]; [rewrite Hp; cbn [freq_ok]; lia|]. set (x1 := {| ps_state := _; ps_nodes := _ |}) in *.
    destruct (move_rearranged x1 qs q a id b 1 P1 Hl ltac:(lia)) as (x2 & lt & Hm & Hlt & R2 & Rest); [intros lt; cbn; rewrite Hp; cbn [used]; rewrite !list_lookup_insert_ne by lia; reflexivity|]. change (Z.of_nat 1) with 1 in Hm. rewrite Hm. cbn [rbind].
    destruct (IH x2 _ (proj1 R2)) as (v' & x' & qs' & He & R & Hv'); [rewrite (kp_policy _ _ (proj2 (proj2 R2))); exact Hp | |].
    - rewrite (fsum_perm _ _ _ (proj1 (proj2 R2))), (fsum_same (ps_nodes x1)) by apply Rest. cbn [x1 ps_nodes]. rewrite (fsum_update _ _ nd); [cbn [nd_set_frequency nd_frequency]; lia | apply (wq_distinct _ _ W) | apply elem_of_concat; exists q, (a ++ id :: b); split; [exact Hl | apply elem_of_app; right; left] | assumption].
    - exists v', x', qs'. split; [exact He|]. split; [|exact Hv']. eapply rearranged_trans; [|eapply rearranged_trans; [exact R2 | exact R]]. split; [exact P1 | split; [reflexivity | exact K1]]. }
  cbn [s3fifo_victim]. rewrite E0, E1. set (small := (_ || _)).
  assert (Hsm : small = false -> l1 <> []) by (unfold small; intros Hs ->; cbn [head] in Hs; apply orb_false_iff in Hs as [_ Hs]; discriminate).
  destruct (if small then head l0 else None) as [id|] eqn:Hid.
  - destruct small; [|discriminate]. destruct l0 as [|id' l0]; [discriminate|]. injection Hid as ->. destruct (wired_node x qs 0 _ id W eq_refl ltac:(left)) as (nd & Hnd & _). rewrite Hnd. cbn [expect rbind]. pose proof (po_freq _ _ P id nd Hnd) as Hf. rewrite Hp in Hf. cbn [freq_ok] in Hf.
    destruct (nd_frequency nd >? 1) eqn:Hz; boolp; [apply (Hturn id 0%nat [] l0 nd 0 eq_refl Hnd); lia|].
    destruct (frequency_only x qs id nd 0 P Hnd) as [P1 K1]; [rewrite Hp; cbn [freq_ok]; lia|]. destruct (po_settings _ _ P) as [S1 S2 S3 S4].
    destruct (Ghost_push_ok (ps_ghost (ps_state x)) (rc_hash (nd_record nd)) (rc_weight (nd_record nd)) S1) as (g & Hg & Hok & [L1 L2]); [pose proof (wq_weight _ _ W id nd Hnd); lia|]. rewrite Hg. cbn [rbind ps_nodes].
    eexists (Some id), _, qs. split; [reflexivity|]. split; [|apply elem_of_concat; exists 0%nat, (id :: l0); split; [reflexivity | left]].
    split; [|split; [reflexivity | destruct K1; constructor; assumption]]. refine (state_ok _ qs (ps_set_ghost g (ps_state x)) P1 eq_refl eq_refl eq_refl _). constructor; cbn [ps_set_ghost ps_ghost ps_capacity ps_policy ps_sketch]; try assumption. congruence.
  - assert (Hl0 : l1 = [] -> l0 = []) by (intros ->; destruct small; [destruct l0; [reflexivity | discriminate] | exfalso; apply Hsm; reflexivity]).
    destruct l1 as [|id l1]; cbn [head]; [exists None, x, qs; split; [reflexivity|]; split; [apply rearranged_refl; assumption | subst qs; rewrite (Hl0 eq_refl); reflexivity]|].
    destruct (wired_node x qs 1 _ id W eq_refl ltac:(left)) as (nd & Hnd & _). rewrite Hnd. cbn [expect rbind]. pose proof (po_freq _ _ P id nd Hnd) as Hf. rewrite Hp in Hf. cbn [freq_ok] in Hf.
    destruct (nd_frequency nd =? 0) eqn:Hz; boolp.
    + exists (Some id), x, qs. split; [reflexivity|]. split; [apply rearranged_refl; assumption | apply elem_of_concat; exists 1%nat, (id :: l1); split; [reflexivity | left]].
    + apply (Hturn id 1%nat [] l1 nd (nd_frequency nd - 1) eq_refl Hnd); lia.
Qed.

Lemma head_some (l : list Z) id : head l = Some id -> exists b, l = id :: b.
Proof. destruct l as [|y b]; [discriminate|]. intros [= ->]. eauto. Qed.

Lemma lfu_ok c x qs : policy_ok x qs -> ps_policy (ps_state x) = Lfu c ->
  exists v x' qs', lfu_victim c x = Ok (v, x') /\ rearranged x qs x' qs' /\ match v with Some id => id ∈ concat qs' | None => concat qs' = [] end.
Proof.
  intros P Hp. pose proof (po_wired _ _ P) as W. destruct (wq_len _ _ W) as [H3 _]. destruct qs as [|l0 [|l1 [|l2 [|]]]]; try discriminate. set (qs := [l0; l1; l2]) in *.
  pose proof (proj1 (list_at_ok x qs 0 l0 W eq_refl)) as E0. pose proof (proj1 (list_at_ok x qs 1 l1 W eq_refl)) as E1. pose proof (proj1 (list_at_ok x qs 2 l2 W eq_refl)) as E2. change (Z.of_nat 0) with 0 in E0. change (Z.of_nat 1) with 1 in E1. change (Z.of_nat 2) with 2 in E2.
  pose proof (rearranged_refl x qs P) as R. unfold lfu_victim. rewrite E0, E1, E2.
  assert (Hin : forall q l id b, qs !! q = Some l -> l = id :: b -> id ∈ concat qs) by (intros q l id b Hq ->; apply elem_of_concat; exists q, (id :: b); split; [exact Hq | left]).
  assert (Hrest : exists v x' qs', Ok (oelse (oelse (head l1) (head l2)) (head l0), x) = @Ok unit _ (v, x') /\ rearranged x qs x' qs' /\ match v with Some id => id ∈ concat qs' | None => concat qs' = [] end).
  { eexists _, _, qs. split; [reflexivity|]. split; [exact R|]. destruct l1 as [|y b]; cbn [head oelse]; [|apply (Hin 1%nat _ y b eq_refl eq_refl)]. destruct l2 as [|y b]; cbn [head oelse]; [|apply (Hin 2%nat _ y b eq_refl eq_refl)]. destruct l0 as [|y b]; cbn [head oelse]; [reflexivity | apply (Hin 0%nat _ y b eq_refl eq_refl)]. }
  destruct (ql_weight _ >? _); [|exact Hrest]. destruct (head l0) as [cand|] eqn:H0; [|exact Hrest]. destruct (head_some l0 cand H0) as [b0 Hb0]. pose proof (Hin 0%nat l0 cand b0 eq_refl Hb0) as Hc.
  destruct (head l1) as [vic|] eqn:H1; [|exists (Some cand), x, qs; auto]. destruct (head_some l1 vic H1) as [b1 Hb1]. pose proof (Hin 1%nat l1 vic b1 eq_refl Hb1) as Hv.
  pose proof (se_sketch _ (po_settings _ _ P)) as Hk. rewrite Hp in Hk. destruct Hk as (k & Hk & Hok). rewrite Hk. cbn [expect rbind].
  destruct (queued_split x qs cand W Hc) as (_ & _ & _ & cn & _ & _ & Hcn & _), (queued_split x qs vic W Hv) as (_ & _ & _ & vn & _ & _ & Hvn & _). rewrite Hcn, Hvn. cbn [expect rbind].
  destruct (Sketch_estimate_ok k (rc_hash (nd_record cn)) Hok) as (a & -> & _), (Sketch_estimate_ok k (rc_hash (nd_record vn)) Hok) as (b & -> & _). cbn [rbind]. destruct (a >? b); [|exists (Some cand), x, qs; auto].
  destruct (move_rearranged x qs 0 [] cand b0 1 P ltac:(subst l0; reflexivity) ltac:(lia)) as (x' & lt & Hm & _ & R' & _); [rewrite Hp; exact (fun _ => I)|]. change (Z.of_nat 1) with 1 in Hm. rewrite Hm. cbn [rbind].
  eexists (Some vic), x', _. split; [reflexivity|]. split; [exact R'|]. rewrite (proj1 (proj2 R')). exact Hv.
Qed.

(** What may be left when no victim is found: nothing, or pinned entries. *)
Definition exhausted (p : Policy) (qs : list (list Z)) : Prop :=
  match p with Lru _ => qs !! 0%nat = Some [] /\ qs !! 1%nat = Some [] | _ => concat qs = [] end.

Lemma policy_victim_ok x qs : policy_ok x qs ->
  exists v x' qs', policy_victim x = Ok (v, x') /\ rearranged x qs x' qs' /\ match v with Some id => id ∈ concat qs' | None => exhausted (ps_policy (ps_state x)) qs' end /\ (lru (ps_policy (ps_state x)) = true -> qs' = qs).
Proof.
  intros P. pose proof (po_wired _ _ P) as W. pose proof (rearranged_refl x qs P) as R. unfold policy_victim.
  assert (Hsize : fsum (ps_nodes x) (concat qs) <= 3 * Z.of_nat (size (ps_nodes x)) /\ (ps_policy (ps_state x) = Sieve -> fsum (ps_nodes x) (concat qs) <= Z.of_nat (size (ps_nodes x)))).
  { pose proof (queued_size x qs (concat qs) W (wq_distinct _ _ W) (fun _ H => H)) as Hs. pose proof (po_freq _ _ P) as Hf. split.
    - assert (H3 : forall id n, ps_nodes x !! id = Some n -> 0 <= nd_frequency n <= 3) by (intros id n Hn; specialize (Hf id n Hn); destruct (ps_policy (ps_state x)); cbn [freq_ok] in Hf; lia). pose proof (fsum_bound (ps_nodes x) (concat qs) 3 H3 ltac:(lia)). unfold len in *. lia.
    - intros Hp. rewrite Hp in Hf. pose proof (fsum_bound (ps_nodes x) (concat qs) 1 Hf ltac:(lia)). unfold len in *. lia. }
  destruct (wq_len _ _ W) as [H3 _]. pose proof (po_used _ _ P) as Hu. destruct qs as [|l0 [|l1 [|l2 [|]]]]; try discriminate. set (qs := [l0; l1; l2]) in *.
  pose proof (proj1 (list_at_ok x qs 0 l0 W eq_refl)) as E0. pose proof (proj1 (list_at_ok x qs 1 l1 W eq_refl)) as E1. change (Z.of_nat 0) with 0 in E0. change (Z.of_nat 1) with 1 in E1.
  destruct (ps_policy (ps_state x)) as [|c|c|c|] eqn:Hp; cbn [exhausted].
  - destruct Hu as [[= ->] [= ->]]. rewrite E0. eexists _, x, qs. split; [reflexivity|]. split; [exact R|]. split; [|discriminate]. destruct l0 as [|y l0]; [reflexivity|]. apply elem_of_concat. exists 0%nat, (y :: l0). split; [reflexivity | left].
  - rewrite E0, E1. eexists _, x, qs. split; [reflexivity|]. split; [exact R|]. split; [|reflexivity]. destruct l0 as [|y l0]; [destruct l1 as [|y l1]; [split; reflexivity | apply elem_of_concat; exists 1%nat, (y :: l1); split; [reflexivity | left]] | apply elem_of_concat; exists 0%nat, (y :: l0); split; [reflexivity | left]].
  - destruct (lfu_ok c x qs P Hp) as (v & x' & qs' & H1 & H2 & H4). exists v, x', qs'. split; [exact H1|]. split; [exact H2|]. split; [exact H4 | discriminate].
  - destruct (s3fifo_ok c (S (4 * size (ps_nodes x))) x qs P Hp) as (v & x' & qs' & H1 & H2 & H4); [lia|]. exists v, x', qs'. split; [exact H1|]. split; [exact H2|]. split; [exact H4 | discriminate].
  - destruct (sieve_ok (S (2 * size (ps_nodes x))) x qs P Hp) as (v & x' & H1 & H2 & H4); [specialize (proj2 Hsize eq_refl); lia|]. exists v, x', qs. split; [exact H1|]. split; [exact H2|]. split; [exact H4 | discriminate].
Qed.
End Policies.
