(* ===== verification/MemCache.v ===== *)
(** * The sharded memory cache (moat-cache-memory/src/cache.rs and entry.rs)

    A shard is the hash index, the slab of nodes and the policy's queues under
    one lock; a public operation is one or a few of the steps below, each
    inside one shard lock. The atomics of a record (its resident flag and its
    reference count) are held by the cache under the record's identity, that
    of its allocation. The index is the table of the hashbrown crate, known by
    the laws of [HashTableLaws]; the slab chooses the key of a new node, an
    argument here. [V] is a value with the application's properties. Records
    are never freed in the model, so the allocated weight is not kept. *)

From stdpp Require Import gmap.
From S2P Require Import Prelude MemPolicy.

(** ** The hash table *)

(** The closures the cache passes index its slab, so they can panic. *)
Class HashTable (T : Type) := {
  ht_new : T;
  ht_find : T -> Z -> (Z -> steps bool) -> steps (option Z);
  ht_insert_unique : T -> Z -> Z -> (Z -> steps Z) -> steps T;
  (* [find_entry] and [OccupiedEntry::remove] *)
  ht_remove : T -> Z -> (Z -> steps bool) -> steps (option T)
}.

(** A table holds values under the hashes they were inserted with. A lookup
    may ask the closure about any of them, whatever its hash, and yields one
    with the given hash that satisfies it, if there is one; an insertion may
    ask the hasher for the hash of any of them, to move it. *)
Class HashTableLaws (T : Type) `{HashTable T} := {
  ht_elements : T -> list (Z * Z);
  ht_new_elements : ht_elements ht_new = [];
  ht_find_returns : forall t h p, (forall h' v, (h', v) ∈ ht_elements t -> exists b, p v = Ok b) -> exists o, ht_find t h p = Ok o;
  ht_find_some : forall t h p v, ht_find t h p = Ok (Some v) -> (h, v) ∈ ht_elements t /\ p v = Ok true;
  ht_find_none : forall t h p, ht_find t h p = Ok None -> forall v, (h, v) ∈ ht_elements t -> p v = Ok false;
  ht_insert_elements : forall t h v f, (forall h' v', (h', v') ∈ (h, v) :: ht_elements t -> f v' = Ok h') ->
    exists t', ht_insert_unique t h v f = Ok t' /\ Permutation (ht_elements t') ((h, v) :: ht_elements t);
  ht_remove_some : forall t h p v, ht_find t h p = Ok (Some v) ->
    exists t' v', ht_remove t h p = Ok (Some t') /\ p v' = Ok true /\ Permutation (ht_elements t) ((h, v') :: ht_elements t')
}.

Inductive RemovalReason := Evicted | Replaced | Removed | Cleared | Rejected.

Record LocalCounters := { lc_insertions : Z; lc_rejections : Z }.
Record Counters := { ct_local : list LocalCounters; ct_evictions : Z; ct_entries : Z; ct_resident : Z }.
Definition Counters_new (shards : Z) : Counters :=
  {| ct_local := replicate (Z.to_nat shards) {| lc_insertions := 0; lc_rejections := 0 |}; ct_evictions := 0; ct_entries := 0; ct_resident := 0 |}.

Definition partition (capacity shards index : Z) : Z := capacity / shards + Z.b2z (index <? capacity mod shards).

Section Cache.
Context {K V T : Type} `{EqDecision K, HashTable T}.
Abbreviation MemRecord := (@MemRecord K V).
Abbreviation Node := (@Node K V).
Abbreviation PS := (@PS K V).

(** ** A shard under its lock *)

Record Shard := { sh_index : T; sh_policy : PS; sh_weight : Z; sh_capacity : Z; sh_hits : Z; sh_misses : Z }.
Definition sh_set_policy (v : PS) (s : Shard) : Shard :=
  {| sh_index := sh_index s; sh_policy := v; sh_weight := sh_weight s; sh_capacity := sh_capacity s; sh_hits := sh_hits s; sh_misses := sh_misses s |}.

(** A shard with what it shares with the others. *)
Record Locked := { lk_shard : Shard; lk_counters : Counters; lk_resident : gset Z }.
Definition lk_set_policy (v : PS) (x : Locked) : Locked :=
  {| lk_shard := sh_set_policy v (lk_shard x); lk_counters := lk_counters x; lk_resident := lk_resident x |}.

Definition sh_nodes (s : Shard) : gmap Z Node := ps_nodes (sh_policy s).

(** [f(&nodes[id].record)]: a vacant key panics. *)
Definition on_record {A} (nodes : gmap Z Node) (f : MemRecord -> A) (id : Z) : steps A := let? n := expect (nodes !! id) in Ok (f (nd_record n)).

Definition find (s : Shard) (hash : Z) (key : K) : steps (option Z) := ht_find (sh_index s) hash (on_record (sh_nodes s) (fun r => bool_decide (key = rc_key r))).

Definition detach (x : Locked) (id : Z) : steps (MemRecord * Locked) :=
  let s := lk_shard x in
  let c := lk_counters x in
  let? p := list_remove (sh_policy s) id in
  let? node := expect (ps_nodes p !! id) in
  let record := nd_record node in
  let? index := ht_remove (sh_index s) (rc_hash record) (fun other => Ok (other =? id)) in
  let? index := expect index in
  if sh_weight s <? rc_weight record then Panic
  else
    Ok (record,
        {| lk_shard := {| sh_index := index; sh_policy := {| ps_state := ps_state p; ps_nodes := delete id (ps_nodes p) |};
                          sh_weight := sh_weight s - rc_weight record; sh_capacity := sh_capacity s; sh_hits := sh_hits s; sh_misses := sh_misses s |};
           lk_counters := {| ct_local := ct_local c; ct_evictions := ct_evictions c; ct_entries := wrap64 (ct_entries c - 1); ct_resident := wrap64 (ct_resident c - rc_weight record) |};
           lk_resident := lk_resident x ∖ {[rc_id record]} |}).

Definition Retired : Type := list (MemRecord * RemovalReason).

(** At most one turn per node. *)
Fixpoint trim (n : nat) (x : Locked) (removed : Retired) : steps (Locked * Retired) :=
  if sh_weight (lk_shard x) >? sh_capacity (lk_shard x) then
    let? (victim, p) := policy_victim (sh_policy (lk_shard x)) in
    let x := lk_set_policy p x in
    match victim with
    | None => Ok (x, removed)
    | Some id => match n with O => Panic | S n => let? (record, x) := detach x id in trim n x (removed ++ [(record, Evicted)]) end
    end
  else Ok (x, removed).
Definition trim_shard (x : Locked) (removed : Retired) : steps (Locked * Retired) := trim (size (sh_nodes (lk_shard x))) x removed.

(** [Release::release] once the shard is locked. *)
Definition release_locked (x : Locked) (record : MemRecord) (references : Z) : steps (Locked * Retired) :=
  if negb (references =? 0) then Ok (x, [])
  else
    let? found := ht_find (sh_index (lk_shard x)) (rc_hash record) (on_record (sh_nodes (lk_shard x)) (fun r => rc_id r =? rc_id record)) in
    match found with
    | None => Ok (x, [])
    | Some id => let? p := policy_release (sh_policy (lk_shard x)) id in trim_shard (lk_set_policy p x) []
    end.

(** [get_hashed]: the record a hit hands out. *)
Definition get_locked (x : Locked) (hash : Z) (key : K) : steps (option MemRecord * Locked) :=
  let? found := find (lk_shard x) hash key in
  let s := lk_shard x in
  let s := match found with
           | Some _ => {| sh_index := sh_index s; sh_policy := sh_policy s; sh_weight := sh_weight s; sh_capacity := sh_capacity s; sh_hits := wrap64 (sh_hits s + 1); sh_misses := sh_misses s |}
           | None => {| sh_index := sh_index s; sh_policy := sh_policy s; sh_weight := sh_weight s; sh_capacity := sh_capacity s; sh_hits := sh_hits s; sh_misses := wrap64 (sh_misses s + 1) |}
           end in
  let x := {| lk_shard := s; lk_counters := lk_counters x; lk_resident := lk_resident x |} in
  match found with
  | None => Ok (None, x)
  | Some id =>
      let? node := expect (sh_nodes s !! id) in
      let? p := (if mutable_hits (ps_policy (ps_state (sh_policy s))) then policy_access (sh_policy s) id
                 else let? node := access_shared (ps_state (sh_policy s)) node in Ok {| ps_state := ps_state (sh_policy s); ps_nodes := <[id := node]> (sh_nodes s) |}) in
      Ok (Some (nd_record node), lk_set_policy p x)
  end.

(** [commit_entry]; [slot] is the slab's key. *)
Definition admit_version (x : Locked) (slot : Z) (record : MemRecord) : steps Locked :=
  let s := lk_shard x in
  let c := lk_counters x in
  let nodes := <[slot := {| nd_record := record; nd_prev := None; nd_next := None; nd_queue := None; nd_frequency := 0 |}]> (sh_nodes s) in
  let? index := ht_insert_unique (sh_index s) (rc_hash record) slot (on_record nodes rc_hash) in
  let? p := policy_insert {| ps_state := ps_state (sh_policy s); ps_nodes := nodes |} slot in
  Ok {| lk_shard := {| sh_index := index; sh_policy := p; sh_weight := sh_weight s + rc_weight record; sh_capacity := sh_capacity s; sh_hits := sh_hits s; sh_misses := sh_misses s |};
        lk_counters := {| ct_local := ct_local c; ct_evictions := ct_evictions c; ct_entries := wrap64 (ct_entries c + 1); ct_resident := wrap64 (ct_resident c + rc_weight record) |};
        lk_resident := {[rc_id record]} ∪ lk_resident x |}.

Definition commit_locked (x : Locked) (slot : Z) (record : MemRecord) (admitted : bool) : steps (Locked * Retired) :=
  let? (x, removed) := (let? found := find (lk_shard x) (rc_hash record) (rc_key record) in
                        match found with
                        | Some id => let? (old, x) := detach x id in Ok (x, [(old, Replaced)])
                        | None => Ok (x, [])
                        end) in
  let s := lk_shard x in
  if admitted && (rc_weight record <=? sh_capacity s) && (sh_weight s + rc_weight record <? 2 ^ 64) then
    let? x := admit_version x slot record in
    let? (x, removed) := trim_shard x removed in
    if (sh_weight (lk_shard x) >? sh_capacity (lk_shard x)) && bool_decide (rc_id record ∈ lk_resident x) then
      let? (record, x) := detach x slot in Ok (x, removed ++ [(record, Rejected)])
    else Ok (x, removed)
  else Ok (x, removed ++ [(record, Rejected)]).

Definition remove_locked (x : Locked) (hash : Z) (key : K) : steps (Locked * Retired) :=
  let? found := find (lk_shard x) hash key in
  match found with
  | Some id => let? (record, x) := detach x id in Ok (x, [(record, Removed)])
  | None => Ok (x, [])
  end.

(** [ids] are the slab's keys in the order of its iterator. *)
Fixpoint detach_all (x : Locked) (ids : list Z) (removed : Retired) : steps (Locked * Retired) :=
  match ids with
  | [] => Ok (x, removed)
  | id :: ids => let? (record, x) := detach x id in detach_all x ids (removed ++ [(record, Cleared)])
  end.
Definition clear_locked (x : Locked) (ids : list Z) : steps (Locked * Retired) :=
  let? (x, removed) := detach_all x ids [] in
  Ok (lk_set_policy {| ps_state := clear_history (ps_state (sh_policy (lk_shard x))); ps_nodes := sh_nodes (lk_shard x) |} x, removed).

Definition resize_locked (x : Locked) (capacity : Z) : steps (Locked * Retired) :=
  let s := lk_shard x in
  let? p := policy_resize (sh_policy s) capacity in
  trim_shard {| lk_shard := {| sh_index := sh_index s; sh_policy := p; sh_weight := sh_weight s; sh_capacity := capacity; sh_hits := sh_hits s; sh_misses := sh_misses s |};
                lk_counters := lk_counters x; lk_resident := lk_resident x |} [].

(** ** The cache *)

Record Config := { cf_hash : K -> Z; cf_weigher : K -> V -> Z; cf_admission : K -> V -> bool; cf_listener : bool }.

(** [en_release]: the handle names its cache, to unpin the record on its last drop. *)
Record Entry := { en_record : MemRecord; en_release : bool }.

Record Cache := {
  ch_config : Config;
  ch_policy : Policy;
  ch_shards : list Shard;
  ch_counters : Counters;
  ch_capacity : Z;
  ch_resident : gset Z;
  ch_references : gmap Z Z
}.
Definition ch_set_references (v : gmap Z Z) (c : Cache) : Cache :=
  {| ch_config := ch_config c; ch_policy := ch_policy c; ch_shards := ch_shards c; ch_counters := ch_counters c; ch_capacity := ch_capacity c; ch_resident := ch_resident c; ch_references := v |}.
Definition ch_set_counters (v : Counters) (c : Cache) : Cache :=
  {| ch_config := ch_config c; ch_policy := ch_policy c; ch_shards := ch_shards c; ch_counters := v; ch_capacity := ch_capacity c; ch_resident := ch_resident c; ch_references := ch_references c |}.
Definition ch_set_capacity (v : Z) (c : Cache) : Cache :=
  {| ch_config := ch_config c; ch_policy := ch_policy c; ch_shards := ch_shards c; ch_counters := ch_counters c; ch_capacity := v; ch_resident := ch_resident c; ch_references := ch_references c |}.

(** [Builder::build]. *)
Definition build (config : Config) (capacity shards : Z) (policy : Policy) : res string Cache :=
  if shards =? 0 then Err "shards must be nonzero"%string
  else
    let? _ := Policy_validate policy in
    Ok {| ch_config := config; ch_policy := policy;
          ch_shards := map (fun i => let capacity := partition capacity shards (Z.of_nat i) in
                                     {| sh_index := ht_new; sh_policy := {| ps_state := PolicyState_new policy capacity; ps_nodes := ∅ |};
                                        sh_weight := 0; sh_capacity := capacity; sh_hits := 0; sh_misses := 0 |}) (seq 0 (Z.to_nat shards));
          ch_counters := Counters_new shards; ch_capacity := capacity; ch_resident := ∅; ch_references := ∅ |}.

(** Only LRU handles unpin. *)
Definition ch_release (c : Cache) : bool := match ch_policy c with Lru _ => true | _ => false end.

Definition shard_of (c : Cache) (hash : Z) : Z := hash mod len (ch_shards c).

Definition with_shard {A} (c : Cache) (i : Z) (f : Locked -> steps (A * Locked)) : steps (A * Cache) :=
  let? s := index_get (ch_shards c) i in
  let? (a, x) := f {| lk_shard := s; lk_counters := ch_counters c; lk_resident := ch_resident c |} in
  let? shards := index_set (ch_shards c) i (lk_shard x) in
  Ok (a, {| ch_config := ch_config c; ch_policy := ch_policy c; ch_shards := shards; ch_counters := lk_counters x; ch_capacity := ch_capacity c; ch_resident := lk_resident x; ch_references := ch_references c |}).

Definition swap_res {A B} (m : steps (A * B)) : steps (B * A) := let? (a, b) := m in Ok (b, a).

Definition references (c : Cache) (record : MemRecord) : Z := default 0 (ch_references c !! rc_id record).
Definition acquire (c : Cache) (record : MemRecord) (release : bool) : Entry * Cache :=
  ({| en_record := record; en_release := release |}, ch_set_references (<[rc_id record := references c record + 1]> (ch_references c)) c).

(** [Entry::drop], up to the call of [release]: whether it is called. *)
Definition drop_entry (c : Cache) (e : Entry) : bool * Cache :=
  let before := references c (en_record e) in
  ((before =? 1) && bool_decide (rc_id (en_record e) ∈ ch_resident c) && en_release e,
   ch_set_references (<[rc_id (en_record e) := before - 1]> (ch_references c)) c).

Definition update_local (c : Counters) (i : Z) (f : LocalCounters -> LocalCounters) : steps Counters :=
  let? l := index_get (ct_local c) i in
  let? local := index_set (ct_local c) i (f l) in
  Ok {| ct_local := local; ct_evictions := ct_evictions c; ct_entries := ct_entries c; ct_resident := ct_resident c |}.

(** [prepare_hashed]; [id] is the identity of the allocation. *)
Definition prepare (c : Cache) (id : Z) (key : K) (value : V) (priority : Priority) : steps ((Entry * bool) * Cache) :=
  let hash := cf_hash (ch_config c) key in
  let weight := Z.max (cf_weigher (ch_config c) key value) 1 in
  let admitted := cf_admission (ch_config c) key value in
  let? counters := update_local (ch_counters c) (shard_of c hash) (fun l => {| lc_insertions := wrap64 (lc_insertions l + 1); lc_rejections := lc_rejections l |}) in
  let record := {| rc_id := id; rc_key := key; rc_value := value; rc_hash := hash; rc_weight := weight; rc_priority := priority |} in
  let (entry, c) := acquire (ch_set_counters counters c) record (ch_release c) in
  Ok ((entry, admitted), c).

Definition commit_entry (c : Cache) (slot : Z) (entry : Entry) (admitted : bool) : steps (Retired * Cache) :=
  with_shard c (shard_of c (rc_hash (en_record entry))) (fun x => swap_res (commit_locked x slot (en_record entry) admitted)).

Definition promote (c : Cache) (slot : Z) (entry : Entry) (admitted : bool) : steps (Retired * Cache) :=
  if admitted then commit_entry c slot entry admitted else Ok ([(en_record entry, Rejected)], c).

Definition get_entry (c : Cache) (key : K) : steps (option Entry * Cache) :=
  let hash := cf_hash (ch_config c) key in
  let? (record, c) := with_shard c (shard_of c hash) (fun x => get_locked x hash key) in
  Ok (match record with
      | Some r => let (e, c) := acquire c r (ch_release c) in (Some e, c)
      | None => (None, c)
      end).

Definition contains (c : Cache) (key : K) : steps bool :=
  let hash := cf_hash (ch_config c) key in
  let? s := index_get (ch_shards c) (shard_of c hash) in
  let? found := find s hash key in
  Ok (match found with Some _ => true | None => false end).

Definition remove_deferred (c : Cache) (key : K) : steps ((option Entry * Retired) * Cache) :=
  let hash := cf_hash (ch_config c) key in
  let? (removed, c) := with_shard c (shard_of c hash) (fun x => swap_res (remove_locked x hash key)) in
  Ok (match removed with
      | (r, _) :: _ => let (e, c) := acquire c r false in ((Some e, removed), c)
      | [] => ((None, removed), c)
      end).

Definition clear_shard (c : Cache) (i : Z) (ids : list Z) : steps (Retired * Cache) := with_shard c i (fun x => swap_res (clear_locked x ids)).

(** A turn of the loop of [resize]. *)
Definition resize_shard (c : Cache) (i capacity : Z) : steps (Retired * Cache) :=
  with_shard c i (fun x => swap_res (resize_locked x (partition capacity (len (ch_shards c)) i))).

Definition release (c : Cache) (record : MemRecord) : steps (Retired * Cache) :=
  with_shard c (shard_of c (rc_hash record)) (fun x => swap_res (release_locked x record (references c record))).

(** The handles given to the listener, if there is one. *)
Fixpoint dispatch (c : Cache) (removed : Retired) : steps (list (Entry * RemovalReason) * Cache) :=
  match removed with
  | [] => Ok ([], c)
  | (record, reason) :: rest =>
      let k := ch_counters c in
      let? counters := (match reason with
                        | Evicted => Ok {| ct_local := ct_local k; ct_evictions := wrap64 (ct_evictions k + 1); ct_entries := ct_entries k; ct_resident := ct_resident k |}
                        | Rejected => update_local k (shard_of c (rc_hash record)) (fun l => {| lc_insertions := lc_insertions l; lc_rejections := wrap64 (lc_rejections l + 1) |})
                        | _ => Ok k
                        end) in
      let c := ch_set_counters counters c in
      if cf_listener (ch_config c) then
        let (e, c) := acquire c record false in
        let? (notices, c) := dispatch c rest in Ok ((e, reason) :: notices, c)
      else dispatch c rest
  end.

(** ** Whole operations, without interleaving *)

Definition insert_with (c : Cache) (id slot : Z) (key : K) (value : V) (priority : Priority) : steps (Entry * Cache) :=
  let? ((entry, admitted), c) := prepare c id key value priority in
  let? (removed, c) := commit_entry c slot entry admitted in
  let? (_, c) := dispatch c removed in
  Ok (entry, c).

Definition remove_entry (c : Cache) (key : K) : steps (option Entry * Cache) :=
  let? ((entry, removed), c) := remove_deferred c key in
  let? (_, c) := dispatch c removed in
  Ok (entry, c).

(** One list of slab keys per shard. *)
Fixpoint clear_from (c : Cache) (i : Z) (ids : list (list Z)) : steps Cache :=
  match ids with
  | [] => Ok c
  | l :: ids =>
      let? (removed, c) := clear_shard c i l in
      let? (_, c) := dispatch c removed in
      clear_from c (i + 1) ids
  end.
Definition clear (c : Cache) (ids : list (list Z)) : steps Cache := clear_from c 0 ids.

Fixpoint resize_from (n : nat) (c : Cache) (i capacity : Z) (removed : Retired) : steps (Retired * Cache) :=
  match n with
  | O => Ok (removed, c)
  | S n => let? (more, c) := resize_shard c i capacity in resize_from n c (i + 1) capacity (removed ++ more)
  end.
Definition resize (c : Cache) (capacity : Z) : steps Cache :=
  let? (removed, c) := resize_from (length (ch_shards c)) c 0 capacity [] in
  let? (_, c) := dispatch (ch_set_capacity capacity c) removed in
  Ok c.

(** [Probe::prepare]: a query for an equal key. *)
Definition probe_prepare (c : Cache) (query : K) (id : Z) (key : K) (value : V) (priority : Priority) : steps (option (Entry * bool) * Cache) :=
  if bool_decide (query = key) then let? (p, c) := prepare c id key value priority in Ok (Some p, c) else Ok (None, c).

(** [Builder::new]: unit weights, SIEVE, up to sixteen shards. *)
Definition default_config (hash : K -> Z) : Config := {| cf_hash := hash; cf_weigher := fun _ _ => 1; cf_admission := fun _ _ => true; cf_listener := false |}.
Definition default_shards (capacity : Z) : Z := Z.max 1 (Z.min capacity 16).
Definition Builder_new (hash : K -> Z) (capacity : Z) : res string Cache := build (default_config hash) capacity (default_shards capacity) Sieve.

(** [Cache::statistics], without the allocated weight. *)
Record Statistics := { st_hits : Z; st_misses : Z; st_insertions : Z; st_evictions : Z; st_rejections : Z; st_entries : Z; st_resident_weight : Z }.
Definition statistics (c : Cache) : Statistics :=
  let k := ch_counters c in
  {| st_hits := fold_left (fun n s => wrap64 (n + sh_hits s)) (ch_shards c) 0; st_misses := fold_left (fun n s => wrap64 (n + sh_misses s)) (ch_shards c) 0;
     st_insertions := fold_left (fun n l => wrap64 (n + lc_insertions l)) (ct_local k) 0; st_evictions := ct_evictions k;
     st_rejections := fold_left (fun n l => wrap64 (n + lc_rejections l)) (ct_local k) 0; st_entries := ct_entries k; st_resident_weight := ct_resident k |}.

(** [Inner::drop]: the flags that stay set. *)
Definition drop_inner (c : Cache) : gset Z :=
  fold_left (fun flags s => fold_left (fun flags e => flags ∖ {[rc_id (nd_record e.2)]}) (map_to_list (sh_nodes s)) flags) (ch_shards c) (ch_resident c).
End Cache.
