(* ===== verification/MemShard.v ===== *)
(** * A shard of the memory cache

    Every step inside a shard lock succeeds and keeps the index, the slab, the
    queues, the weights and the resident flags in agreement; a step that
    removes versions reports each of them once. *)

From stdpp Require Import gmap.
From S2P Require Import Prelude PoolLinks MemPolicy MemLists MemPolicyProofs MemCache.

(** ** Adding and deleting unqueued nodes *)

Section Slab.
Context {K V : Type}.
Implicit Types (nodes : gmap Z (@Node K V)) (x : @PS K V).

Lemma wsum_frame nodes nodes' l : (forall id, id ∈ l -> nodes' !! id = nodes !! id) -> wsum nodes' l = wsum nodes l.
Proof.
  intros Hf. unfold wsum. induction l as [|id l IH]; cbn [foldr]; [reflexivity|]. rewrite IH by (intros j Hj; apply Hf; right; exact Hj). unfold weight_of. rewrite (Hf id) by left. reflexivity.
Qed.

Lemma wsum_perm nodes l l' : Permutation l l' -> wsum nodes l = wsum nodes l'.
Proof. induction 1; cbn [wsum foldr]; unfold wsum in *; lia. Qed.

Lemma wired_frame x x' qs : wired x qs -> ps_state x' = ps_state x -> (forall id, id ∈ concat qs -> ps_nodes x' !! id = ps_nodes x !! id) ->
  (forall id n, ps_nodes x' !! id = Some n -> id ∉ concat qs -> nd_queue n = None /\ 1 <= rc_weight (nd_record n)) -> wired x' qs.
Proof.
  intros [W1 W2 W3 W4 W5 W6 W7] Hs Hf Hnew. assert (Hfl : forall q l, qs !! q = Some l -> forall id, id ∈ l -> ps_nodes x' !! id = ps_nodes x !! id) by (intros q l Hl id Hin; apply Hf; apply elem_of_concat; eauto). constructor; rewrite ?Hs; try assumption.
  - intros q l Hl. rewrite (wsum_frame (ps_nodes x)) by (eapply Hfl; exact Hl). auto.
  - intros q l Hl. eapply seg_frame; [eapply Hfl; exact Hl | auto].
  - intros id n Hn Hid. apply (Hnew id n Hn Hid).
  - intros id n Hn. destruct (decide (id ∈ concat qs)) as [Hin|Hout]; [rewrite Hf in Hn by assumption; eauto | apply (Hnew id n Hn Hout)].
Qed.

Lemma policy_ok_delete x qs id : policy_ok x qs -> id ∉ concat qs -> policy_ok {| ps_state := ps_state x; ps_nodes := delete id (ps_nodes x) |} qs.
Proof.
  intros [P1 P2 P3 P4] Hid. constructor; cbn [ps_state ps_nodes]; try assumption; [|intros j n Hn; apply lookup_delete_Some in Hn as [_ Hn]; eauto].
  eapply wired_frame; [exact P1 | reflexivity | intros j Hj; apply lookup_delete_ne; congruence | intros j n Hn Hj; cbn [ps_nodes] in Hn; apply lookup_delete_Some in Hn as [_ Hn]; split; [eapply (wq_free _ _ P1); eassumption | eapply (wq_weight _ _ P1); eassumption]].
Qed.

Lemma policy_ok_add x qs id n : policy_ok x qs -> id ∉ concat qs -> nd_queue n = None -> 1 <= rc_weight (nd_record n) -> nd_frequency n = 0 -> policy_ok {| ps_state := ps_state x; ps_nodes := <[id := n]> (ps_nodes x) |} qs.
Proof.
  intros [P1 P2 P3 P4] Hid Hq Hw Hf. constructor; cbn [ps_state ps_nodes]; try assumption.
  - eapply wired_frame; [exact P1 | reflexivity | intros j Hj; apply lookup_insert_ne; congruence|]. intros j m Hm Hj. cbn [ps_nodes] in Hm. destruct (decide (id = j)) as [<-|Hne]; [rewrite lookup_insert_eq in Hm; injection Hm as <-; auto | rewrite lookup_insert_ne in Hm by assumption; split; [eapply (wq_free _ _ P1); eassumption | eapply (wq_weight _ _ P1); eassumption]].
  - intros j m Hm. destruct (decide (id = j)) as [<-|Hne]; [rewrite lookup_insert_eq in Hm; injection Hm as <-; rewrite Hf; destruct (ps_policy (ps_state x)); cbn [freq_ok]; lia | rewrite lookup_insert_ne in Hm by assumption; eauto].
Qed.

Lemma records_wsum nodes nodes' l : (forall id, nd_record <$> nodes' !! id = nd_record <$> nodes !! id) -> wsum nodes' l = wsum nodes l.
Proof.
  intros Hr. unfold wsum. induction l as [|id l IH]; cbn [foldr]; [reflexivity|]. rewrite IH. f_equal. unfold weight_of. specialize (Hr id). destruct (nodes' !! id), (nodes !! id); try discriminate; [injection Hr as ->; reflexivity | reflexivity].
Qed.

Lemma records_size nodes nodes' : (forall id, nd_record <$> nodes' !! id = nd_record <$> nodes !! id) -> size nodes' = size nodes.
Proof.
  intros Hr. rewrite <- !size_dom. f_equal. apply set_eq. intros id. rewrite !elem_of_dom. specialize (Hr id). destruct (nodes' !! id), (nodes !! id); try discriminate; split; intros [? ?]; eauto; discriminate.
Qed.
End Slab.

(** ** The invariant of a shard *)

Section Shard.
Context {K V T : Type} `{EqDecision K, HashTableLaws T}.
Abbreviation MemRecord := (@MemRecord K V).
Abbreviation Locked := (@Locked K V T).
Implicit Types (x : Locked) (r : MemRecord).

(** The records a shard may hold, told apart by their identities, each with
    the hash of its key. *)
Variable hash : K -> Z.
Variable vouched : MemRecord -> Prop.
Hypothesis vouched_hash : forall r, vouched r -> rc_hash r = hash (rc_key r).
Hypothesis vouched_id : forall r r', vouched r -> vouched r' -> rc_id r = rc_id r' -> r = r'.
Hypothesis vouched_weight : forall r, vouched r -> 1 <= rc_weight r.

(** What the other shards hold of the shared flags and counters. *)
Variable others : gset Z.
Variables (other_entries other_weight : Z).
Hypothesis others_apart : forall r, vouched r -> rc_id r ∉ others.

Definition recs x (id : Z) : option MemRecord := nd_record <$> sh_nodes (lk_shard x) !! id.

Record shard_ok x (qs : list (list Z)) : Prop := {
  so_policy : policy_ok (sh_policy (lk_shard x)) qs;
  so_queued : forall id r, recs x id = Some r -> id ∈ concat qs;
  so_index : forall h id, (h, id) ∈ ht_elements (sh_index (lk_shard x)) <-> exists r, recs x id = Some r /\ rc_hash r = h;
  so_index_once : NoDup (ht_elements (sh_index (lk_shard x)));
  so_weight : sh_weight (lk_shard x) = wsum (sh_nodes (lk_shard x)) (concat qs);
  so_fit : sh_weight (lk_shard x) < 2 ^ 64;
  so_capacity : ps_capacity (ps_state (sh_policy (lk_shard x))) = sh_capacity (lk_shard x);
  so_keys : forall id id' r r', recs x id = Some r -> recs x id' = Some r' -> rc_key r = rc_key r' -> id = id';
  so_vouched : forall id r, recs x id = Some r -> vouched r;
  so_resident : forall rid, rid ∈ lk_resident x <-> rid ∈ others \/ exists id r, recs x id = Some r /\ rc_id r = rid;
  so_entries : ct_entries (lk_counters x) = wrap64 (other_entries + Z.of_nat (size (sh_nodes (lk_shard x))));
  so_total : ct_resident (lk_counters x) = wrap64 (other_weight + sh_weight (lk_shard x))
}.

Definition gone_ids (gone : @Retired K V) : list Z := map (fun e => rc_id e.1) gone.
Definition idle (qs : list (list Z)) : Prop := qs !! 0%nat = Some [] /\ qs !! 1%nat = Some [].
Definition is_lru x : bool := lru (ps_policy (ps_state (sh_policy (lk_shard x)))).

Definition pinned x (qs : list (list Z)) r : Prop := exists id, id ∈ pins qs /\ recs x id = Some r.

(** A step that only removes versions, those of [gone]. *)
Record shrink x (qs : list (list Z)) x' (qs' : list (list Z)) (gone : @Retired K V) : Prop := {
  sk_sub : forall id r, recs x' id = Some r -> recs x id = Some r;
  sk_subset : lk_resident x' ⊆ lk_resident x;
  sk_gone : forall rid, rid ∈ gone_ids gone <-> rid ∈ lk_resident x /\ rid ∉ lk_resident x';
  sk_once : NoDup (gone_ids gone);
  sk_held : forall r why, (r, why) ∈ gone -> exists id, recs x id = Some r;
  sk_pins : is_lru x = true -> forall r, pinned x' qs' r -> pinned x qs r;
  sk_policy : ps_policy (ps_state (sh_policy (lk_shard x'))) = ps_policy (ps_state (sh_policy (lk_shard x)));
  sk_weight : sh_weight (lk_shard x') <= sh_weight (lk_shard x);
  sk_counters : ct_local (lk_counters x') = ct_local (lk_counters x) /\ ct_evictions (lk_counters x') = ct_evictions (lk_counters x)
}.

Lemma sk_lru x qs x' qs' gone : shrink x qs x' qs' gone -> is_lru x' = is_lru x.
Proof. intros S. unfold is_lru. rewrite (sk_policy _ _ _ _ _ S). reflexivity. Qed.

Lemma shrink_refl x qs : shrink x qs x qs [].
Proof. constructor; try done. - intros rid. split; [intros Hin; inversion Hin | tauto]. - constructor. - intros r why Hin. inversion Hin. Qed.

Lemma shrink_trans x qs y ys z zs a b : shrink x qs y ys a -> shrink y ys z zs b -> shrink x qs z zs (a ++ b).
Proof.
  intros A B. pose proof (sk_lru _ _ _ _ _ A) as Hlru. destruct A as [A1 A2 A3 A4 A5 A6 A8 A10 [A11 A12]], B as [B1 B2 B3 B4 B5 B6 B8 B10 [B11 B12]]. constructor; try (congruence || lia || (split; congruence)); auto.
  - set_solver.
  - intros rid. unfold gone_ids in *. rewrite map_app, elem_of_app, A3, B3. destruct (decide (rid ∈ lk_resident y)); set_solver.
  - unfold gone_ids in *. rewrite map_app. apply NoDup_app. split; [assumption|]. split; [|assumption]. intros rid H1 H2. apply A3 in H1. apply B3 in H2. tauto.
  - intros r why Hin. apply elem_of_app in Hin as [Hin|Hin]; [eauto|]. destruct (B5 _ _ Hin) as [id Hid]. eauto.
  - rewrite Hlru in B6. auto.
Qed.

(** A step of the policy alone. *)
Lemma policy_step x qs p qs' : shard_ok x qs -> policy_ok p qs' -> Permutation (concat qs') (concat qs) -> kept (sh_policy (lk_shard x)) p -> shard_ok (lk_set_policy p x) qs'.
Proof.
  intros [S1 S2 S3 S4 S5 S6 S7 S8 S9 S10 S11 S12] P Hperm [K1 K2 K3]. assert (Hr : forall id, recs (lk_set_policy p x) id = recs x id) by (intros id; apply K1).
  constructor; cbn [lk_set_policy lk_shard lk_counters lk_resident sh_set_policy sh_policy sh_index sh_weight sh_capacity sh_nodes] in *; try assumption; try congruence.
  - intros id r. rewrite Hr, Hperm. apply S2.
  - intros h id. rewrite S3. setoid_rewrite Hr. reflexivity.
  - rewrite S5. unfold sh_nodes. cbn. rewrite (wsum_perm _ _ _ Hperm). symmetry. apply records_wsum. exact K1.
  - intros id id' r r'. rewrite !Hr. apply S8.
  - intros id r. rewrite Hr. apply S9.
  - intros rid. rewrite S10. setoid_rewrite Hr. reflexivity.
  - rewrite S11. unfold sh_nodes. cbn. rewrite (records_size _ (ps_nodes p) K1). reflexivity.
Qed.

Lemma policy_shrink x qs p qs' : kept (sh_policy (lk_shard x)) p -> (is_lru x = true -> forall id, id ∈ pins qs' -> id ∈ pins qs) -> shrink x qs (lk_set_policy p x) qs' [].
Proof.
  intros [K1 K2 K3] Hp. assert (Hr : forall id, recs (lk_set_policy p x) id = recs x id) by (intros id; apply K1). constructor; try done; cbn; try congruence.
  - intros rid. split; [intros Hin; inversion Hin | tauto].
  - constructor.
  - intros r why Hin. inversion Hin.
  - intros Hl r (id & Hin & Hid). exists id. rewrite Hr in Hid. auto.
Qed.

(** ** Lookups *)

Lemma on_record_recs {A} x (f : MemRecord -> A) id r : recs x id = Some r -> on_record (sh_nodes (lk_shard x)) f id = Ok (f r).
Proof. unfold recs, on_record. destruct (sh_nodes (lk_shard x) !! id); [|discriminate]. intros [= <-]. reflexivity. Qed.

(** Every indexed key is occupied, so no lookup panics. *)
Lemma find_on_record x qs h f : shard_ok x qs ->
  exists o, ht_find (sh_index (lk_shard x)) h (on_record (sh_nodes (lk_shard x)) f) = Ok o /\
  match o with
  | Some id => exists r, recs x id = Some r /\ rc_hash r = h /\ f r = true
  | None => forall id r, recs x id = Some r -> rc_hash r = h -> f r = false
  end.
Proof.
  intros S. destruct (ht_find_returns (sh_index (lk_shard x)) h (on_record (sh_nodes (lk_shard x)) f)) as [o Hf].
  { intros h' id Hin. apply (so_index _ _ S) in Hin as (r & Hr & _). rewrite (on_record_recs x f id r Hr). eauto. }
  exists o. split; [exact Hf|]. destruct o as [id|].
  - destruct (ht_find_some _ _ _ _ Hf) as [Hin Hp]. apply (so_index _ _ S) in Hin as (r & Hr & Hh). exists r. split; [exact Hr|]. split; [exact Hh|]. rewrite (on_record_recs x f id r Hr) in Hp. congruence.
  - intros id r Hr Hh. assert (Hin : (h, id) ∈ ht_elements (sh_index (lk_shard x))) by (apply (so_index _ _ S); eauto). pose proof (ht_find_none _ _ _ Hf id Hin) as Hp. rewrite (on_record_recs x f id r Hr) in Hp. congruence.
Qed.

Lemma find_ok x qs key : shard_ok x qs ->
  exists o, find (lk_shard x) (hash key) key = Ok o /\
    match o with Some id => exists r, recs x id = Some r /\ rc_key r = key | None => forall id r, recs x id = Some r -> rc_key r <> key end.
Proof.
  intros S. destruct (find_on_record x qs (hash key) (fun r => bool_decide (key = rc_key r)) S) as (o & Ho & Hf). exists o. split; [exact Ho|]. destruct o as [id|].
  - destruct Hf as (r & Hr & _ & Hk). exists r. split; [exact Hr|]. apply bool_decide_eq_true in Hk. congruence.
  - intros id r Hr He. specialize (Hf id r Hr). rewrite (vouched_hash r) in Hf by (eapply (so_vouched _ _ S); exact Hr). specialize (Hf ltac:(congruence)). apply bool_decide_eq_false in Hf. congruence.
Qed.

(** ** Removing a version *)

Lemma used_remove (p : Policy) (qs : list (list Z)) q a (id : Z) b : used p qs -> qs !! q = Some (a ++ id :: b) -> used p (<[q := a ++ b]> qs).
Proof.
  intros Hu Hl. assert (Hne : forall j, qs !! j = Some [] -> q <> j) by (intros j Hj ->; rewrite Hj in Hl; destruct a; discriminate).
  destruct p; cbn [used] in *; rewrite ?list_lookup_insert_ne; auto; destruct Hu; auto.
Qed.

Lemma index_removed t (hash' id : Z) : NoDup (ht_elements t) -> (hash', id) ∈ ht_elements t ->
  exists t', ht_remove t hash' (fun other => Ok (other =? id)) = Ok (Some t') /\ NoDup (ht_elements t') /\ forall h j, (h, j) ∈ ht_elements t' <-> (h, j) ∈ ht_elements t /\ (h, j) <> (hash', id).
Proof.
  intros Hd Hin. destruct (ht_find_returns t hash' (fun other => Ok (other =? id)) ltac:(eauto)) as [[v|] Hf]; [|pose proof (ht_find_none _ _ _ Hf id Hin) as Hx; cbn in Hx; rewrite Z.eqb_refl in Hx; discriminate].
  destruct (ht_remove_some _ _ _ _ Hf) as (t' & v' & Hr & Hv & Hp). injection Hv as Hv. apply Z.eqb_eq in Hv as ->. rewrite Hp in Hd. apply NoDup_cons in Hd as [Hd1 Hd2]. exists t'. split; [exact Hr|]. split; [exact Hd2|].
  intros h j. rewrite Hp, elem_of_cons. split; [intros Hj; split; [right; exact Hj | intros He; rewrite He in Hj; contradiction] | intros [[He|Hj] Hne]; [contradiction | exact Hj]].
Qed.

Definition without (f : Z -> option MemRecord) (id : Z) : Z -> option MemRecord := fun j => if decide (j = id) then None else f j.

Lemma size_delete_Some {A} (m : gmap Z A) id y : m !! id = Some y -> Z.of_nat (size (delete id m)) = Z.of_nat (size m) - 1.
Proof. intros Hm. pose proof (map_size_delete_Some id m (mk_is_Some _ _ Hm)) as Hs. assert (size m <> 0%nat) by (intros He; apply map_size_empty_iff in He; subst; rewrite lookup_empty in Hm; discriminate). lia. Qed.

Lemma wrap64_sub a b : wrap64 (wrap64 a - b) = wrap64 (a - b).
Proof. unfold wrap64. rewrite Zminus_mod_idemp_l. reflexivity. Qed.
Lemma wrap64_add a b : wrap64 (wrap64 a + b) = wrap64 (a + b).
Proof. unfold wrap64. rewrite Zplus_mod_idemp_l. reflexivity. Qed.

Lemma pins_remove qs q a id b j : qs !! q = Some (a ++ id :: b) -> j ∈ pins (<[q := a ++ b]> qs) -> j ∈ pins qs.
Proof.
  intros Hl. unfold pins. destruct (decide (q = 2%nat)) as [->|Hne]; [|rewrite list_lookup_insert_ne by assumption; auto]. rewrite list_lookup_insert_eq by (eapply lookup_lt_Some; exact Hl). rewrite Hl. cbn. rewrite !elem_of_app, elem_of_cons. tauto.
Qed.
Lemma idle_remove qs q a (id : Z) b : qs !! q = Some (a ++ id :: b) -> idle qs -> idle (<[q := a ++ b]> qs).
Proof. intros Hl [I0 I1]. assert (Hne : forall j, qs !! j = Some [] -> q <> j) by (intros j Hj ->; rewrite Hj in Hl; destruct a; discriminate). split; rewrite list_lookup_insert_ne by auto; assumption. Qed.

Lemma detach_ok x qs id r why : shard_ok x qs -> recs x id = Some r ->
  exists x' qs', detach x id = Ok (r, x') /\ shard_ok x' qs' /\ shrink x qs x' qs' [(r, why)] /\ (forall j, recs x' j = without (recs x) id j) /\ (S (size (sh_nodes (lk_shard x'))) = size (sh_nodes (lk_shard x)))%nat /\
    sh_capacity (lk_shard x') = sh_capacity (lk_shard x) /\ (idle qs -> idle qs').
Proof.
  intros S Hr. pose proof (so_policy _ _ S) as P. pose proof (so_queued _ _ S id r Hr) as Hin. destruct (queued_split _ qs id (po_wired _ _ P) Hin) as (q & a & b & n & Hl & Hq3 & Hn & Hq).
  destruct (remove_ok _ qs q a id b (po_wired _ _ P) Hl) as (p & He & W & R & _). pose proof (same_rest_kept _ _ R) as [K1 K2 K3]. destruct R as [Rc R]. destruct (same_cores_node _ _ id n Rc Hn) as (n' & Hn' & En & _).
  assert (nd_record n = r) as Hnr by (unfold recs, sh_nodes in Hr; rewrite Hn in Hr; injection Hr as <-; reflexivity). rewrite Hnr in En.
  assert (Hidx : (rc_hash r, id) ∈ ht_elements (sh_index (lk_shard x))) by (apply (so_index _ _ S); eauto). destruct (index_removed _ _ _ (so_index_once _ _ S) Hidx) as (t' & Ht & Htd & Hte).
  assert (Hperm : Permutation (concat qs) (id :: concat (<[q := a ++ b]> qs))) by (apply (concat_remove qs q (a ++ id :: b)); [assumption | symmetry; apply Permutation_middle]).
  assert (Hout : id ∉ concat (<[q := a ++ b]> qs)) by (pose proof (wq_distinct _ _ (po_wired _ _ P)) as Hd; rewrite Hperm in Hd; apply NoDup_cons in Hd as [Hd _]; exact Hd).
  assert (Hw : sh_weight (lk_shard x) = rc_weight r + wsum (ps_nodes p) (concat (<[q := a ++ b]> qs))).
  { rewrite (so_weight _ _ S), (wsum_perm _ _ _ Hperm). change (wsum ?m (?i :: ?l)) with (weight_of m i + wsum m l). unfold weight_of. unfold sh_nodes. rewrite Hn, Hnr. f_equal. symmetry. apply records_wsum. exact K1. }
  assert (Hnn : 0 <= wsum (ps_nodes p) (concat (<[q := a ++ b]> qs))) by (eapply wired_weight_nonneg; exact W).
  assert (Pol : policy_ok p (<[q := a ++ b]> qs)) by (eapply policy_ok_rest; [exact P | split; eassumption | exact W | eapply used_remove; [apply (po_used _ _ P) | exact Hl]]).
  unfold detach. rewrite He. cbn [rbind]. rewrite Hn'. cbn [expect rbind]. rewrite En, Ht. cbn [expect rbind]. rewrite (proj2 (Z.ltb_ge _ _)) by lia.
  assert (Hrecs : forall j, nd_record <$> delete id (ps_nodes p) !! j = without (recs x) id j).
  { intros j. unfold without. case_decide as Hj; [subst j; rewrite lookup_delete_eq; reflexivity | rewrite lookup_delete_ne by congruence; apply K1]. }
  assert (Hsize : size (ps_nodes p) = size (sh_nodes (lk_shard x))) by (apply records_size; exact K1). pose proof (size_delete_Some _ _ _ Hn') as Hsd. destruct S as [S1 S2 S3 S4 S5 S6 S7 S8 S9 S10 S11 S12].
  assert (Hsub : forall j r', without (recs x) id j = Some r' -> recs x j = Some r' /\ j <> id) by (intros j r'; unfold without; case_decide; [discriminate | auto]).
  assert (Hres : forall rid, (exists j r', without (recs x) id j = Some r' /\ rc_id r' = rid) <-> (exists j r', recs x j = Some r' /\ rc_id r' = rid) /\ rid <> rc_id r).
  { intros rid. split.
    - intros (j & r' & Hj & <-). destruct (Hsub _ _ Hj) as [Hj' Hne]. split; [eauto|]. intros Hsame. apply Hne. eapply S8; [exact Hj' | exact Hr|]. f_equal. eapply vouched_id; eauto.
    - intros [(j & r' & Hj & <-) Hne]. exists j, r'. split; [|reflexivity]. unfold without. case_decide as Hd; [subst j; congruence | exact Hj]. }
  eexists _, (<[q := a ++ b]> qs). split; [reflexivity|]. split; [|split; [|split; [exact Hrecs | split; [cbn; unfold sh_nodes in *; cbn; lia | split; [reflexivity | eapply idle_remove; exact Hl]]]]].
  - constructor; cbn [lk_shard lk_counters lk_resident sh_policy sh_index sh_weight sh_capacity ct_entries ct_resident]; unfold recs, sh_nodes; cbn [lk_shard sh_policy ps_nodes]; try assumption.
    + apply policy_ok_delete; assumption.
    + intros j r' Hj. rewrite Hrecs in Hj. destruct (Hsub _ _ Hj) as [Hj' Hne]. apply S2 in Hj'. rewrite Hperm in Hj'. apply elem_of_cons in Hj' as [?|?]; [contradiction | assumption].
    + intros h j. rewrite Hte, S3. setoid_rewrite Hrecs. split.
      * intros [(r' & Hj & Hh) Hne]. exists r'. split; [|exact Hh]. unfold without. case_decide as Hd; [|exact Hj]. subst j. exfalso. apply Hne. congruence.
      * intros (r' & Hj & Hh). destruct (Hsub _ _ Hj) as [Hj' Hne]. split; [eauto | congruence].
    + rewrite (wsum_frame (ps_nodes p)); [lia|]. intros j Hj. apply lookup_delete_ne. intros ->. contradiction.
    + specialize (vouched_weight r (S9 _ _ Hr)). lia.
    + cbn [ps_state]. rewrite K3. assumption.
    + intros j j' r1 r2. rewrite !Hrecs. intros H1 H2. apply S8; [apply Hsub; exact H1 | apply Hsub; exact H2].
    + intros j r'. rewrite Hrecs. intros Hj. eapply S9. apply Hsub. exact Hj.
    + intros rid. setoid_rewrite Hrecs. rewrite Hres, elem_of_difference, elem_of_singleton, S10. pose proof (others_apart r (S9 _ _ Hr)) as Ho. split; [tauto|]. intros [Hx|Hx]; [split; [tauto | intros ->; contradiction] | tauto].
    + rewrite S11, wrap64_sub. f_equal. unfold sh_nodes in *. lia.
    + rewrite S12, wrap64_sub. f_equal. lia.
  - constructor; cbn [lk_shard lk_counters lk_resident sh_policy sh_weight sh_capacity ct_local ct_evictions ps_state]; try reflexivity; try (split; reflexivity).
    + intros j r'. unfold recs at 1, sh_nodes. cbn. rewrite Hrecs. apply Hsub.
    + set_solver.
    + intros rid. cbn. rewrite list_elem_of_singleton, elem_of_difference, elem_of_singleton. split; [intros ->; split; [apply S10; right; eauto | tauto] | intros [Hin1 Hin2]; destruct (decide (rid = rc_id r)); [assumption | exfalso; tauto]].
    + apply NoDup_singleton.
    + intros r' w Hw'. apply list_elem_of_singleton in Hw'. injection Hw' as -> _. eauto.
    + intros _ r' (j & Hj & Hjr). exists j. split; [eapply pins_remove; eassumption|]. unfold recs at 1, sh_nodes in Hjr. cbn in Hjr. rewrite Hrecs in Hjr. apply Hsub in Hjr. apply Hjr.
    + exact K2.
    + specialize (vouched_weight r (S9 _ _ Hr)). lia.
Qed.

(** ** Capacity

    Over capacity, an LRU shard has only pinned versions; others never are. *)

Definition fits x (qs : list (list Z)) : Prop := sh_weight (lk_shard x) <= sh_capacity (lk_shard x) \/ is_lru x = true /\ idle qs.

Lemma shrink_fits x qs x' qs' gone : fits x qs -> shrink x qs x' qs' gone -> sh_capacity (lk_shard x') = sh_capacity (lk_shard x) -> (idle qs -> idle qs') -> fits x' qs'.
Proof. intros [Hf|[Hl Hi]] Hs Hc Hidle; [left; pose proof (sk_weight _ _ _ _ _ Hs); lia | right; rewrite (sk_lru _ _ _ _ _ Hs); auto]. Qed.

Lemma queued_rec x qs id : shard_ok x qs -> id ∈ concat qs -> exists r, recs x id = Some r.
Proof. intros S Hin. destruct (queued_split _ qs id (po_wired _ _ (so_policy _ _ S)) Hin) as (_ & _ & _ & n & _ & _ & Hn & _). exists (nd_record n). unfold recs, sh_nodes. rewrite Hn. reflexivity. Qed.

Lemma no_victim x qs p qs1 : shard_ok x qs -> shard_ok (lk_set_policy p x) qs1 -> kept (sh_policy (lk_shard x)) p -> exhausted (ps_policy (ps_state (sh_policy (lk_shard x)))) qs1 -> fits (lk_set_policy p x) qs1.
Proof.
  intros S S1 Kp Hres. pose proof (so_weight _ _ S1) as Hws. cbn in Hws. pose proof (se_capacity _ (po_settings _ _ (so_policy _ _ S))) as Hcap. rewrite (so_capacity _ _ S) in Hcap.
  unfold fits, is_lru. cbn. rewrite (kp_policy _ _ Kp). unfold exhausted in Hres. destruct (ps_policy _) eqn:Hpol; cbn [lru]; try (left; rewrite Hres in Hws; cbn in Hws; lia). right. split; [reflexivity | exact Hres].
Qed.

Lemma trim_ok : forall n x qs removed, shard_ok x qs -> (size (sh_nodes (lk_shard x)) <= n)%nat ->
  exists x' qs' gone, trim n x removed = Ok (x', removed ++ gone) /\ shard_ok x' qs' /\ shrink x qs x' qs' gone /\ fits x' qs' /\ sh_capacity (lk_shard x') = sh_capacity (lk_shard x).
Proof.
  induction n as [|n IH]; intros x qs removed S Hn; cbn [trim]; (destruct (sh_weight (lk_shard x) >? sh_capacity (lk_shard x)) eqn:Hw; boolp; [|exists x, qs, []; rewrite app_nil_r; split; [reflexivity|]; split; [exact S|]; split; [apply shrink_refl|]; split; [left; assumption | reflexivity]]);
    (destruct (policy_victim_ok _ qs (so_policy _ _ S)) as (v & p & qs1 & Hv & (P & Hperm & Kp) & Hres & Hlru); rewrite Hv; cbn [rbind]; pose proof (policy_step x qs p qs1 S P Hperm Kp) as S1;
     assert (K1 : shrink x qs (lk_set_policy p x) qs1 []) by (apply policy_shrink; [exact Kp | intros Hl; rewrite (Hlru Hl); auto]); destruct v as [id|]).
  - exfalso. destruct (queued_rec _ _ _ S1 Hres) as [r Hr]. unfold recs in Hr. destruct (sh_nodes (lk_shard (lk_set_policy p x)) !! id) as [m|] eqn:Hm; [|discriminate]. pose proof (kp_records _ _ Kp id) as Hk. unfold sh_nodes in *. cbn in Hm. rewrite Hm in Hk. assert (size (ps_nodes (sh_policy (lk_shard x))) = 0%nat) as Hz by lia. apply map_size_empty_iff in Hz. rewrite Hz, lookup_empty in Hk. discriminate.
  - exists (lk_set_policy p x), qs1, []. rewrite app_nil_r. split; [reflexivity|]. split; [exact S1|]. split; [exact K1|]. split; [eapply no_victim; eassumption | reflexivity].
  - destruct (queued_rec _ _ _ S1 Hres) as [r Hr]. destruct (detach_ok _ qs1 id r Evicted S1 Hr) as (x2 & qs2 & Hd & S2 & K2 & _ & Hsz & Hc2 & _). rewrite Hd. cbn [rbind].
    destruct (IH x2 qs2 (removed ++ [(r, Evicted)]) S2) as (x' & qs' & gone & He & S' & K' & F' & Hc'); [unfold sh_nodes in *; cbn in Hsz; rewrite (records_size _ _ (kp_records _ _ Kp)) in Hsz; lia|].
    exists x', qs', ((r, Evicted) :: gone). rewrite <- app_assoc in He. split; [exact He|]. split; [exact S'|]. split; [|split; [exact F' | rewrite Hc', Hc2; reflexivity]]. apply (shrink_trans x qs (lk_set_policy p x) qs1 x' qs' [] ((r, Evicted) :: gone)); [exact K1|]. apply (shrink_trans _ _ x2 qs2 _ _ [(r, Evicted)] gone); assumption.
  - exists (lk_set_policy p x), qs1, []. rewrite app_nil_r. split; [reflexivity|]. split; [exact S1|]. split; [exact K1|]. split; [eapply no_victim; eassumption | reflexivity].
Qed.

Lemma trim_shard_ok x qs removed : shard_ok x qs ->
  exists x' qs' gone, trim_shard x removed = Ok (x', removed ++ gone) /\ shard_ok x' qs' /\ shrink x qs x' qs' gone /\ fits x' qs' /\ sh_capacity (lk_shard x') = sh_capacity (lk_shard x).
Proof. intros S. apply trim_ok; [exact S | reflexivity]. Qed.

(** ** The steps *)

Lemma release_locked_ok x qs r refs : shard_ok x qs -> fits x qs -> vouched r ->
  exists x' qs' gone, release_locked x r refs = Ok (x', gone) /\ shard_ok x' qs' /\ shrink x qs x' qs' gone /\ fits x' qs' /\ sh_capacity (lk_shard x') = sh_capacity (lk_shard x) /\
    (refs = 0 -> is_lru x = true -> ~ pinned x' qs' r).
Proof.
  intros S F Hv. unfold release_locked. destruct (refs =? 0) eqn:Hz; cbn [negb]; boolp; [|exists x, qs, []; split; [reflexivity|]; split; [exact S|]; split; [apply shrink_refl|]; split; [exact F|]; split; [reflexivity | contradiction]].
  destruct (find_on_record x qs (rc_hash r) (fun r' => rc_id r' =? rc_id r) S) as (o & -> & Hf). cbn [rbind]. destruct o as [id|].
  - destruct Hf as (r' & Hr & _ & He). apply Z.eqb_eq in He. assert (r' = r) as -> by (apply vouched_id; [eapply (so_vouched _ _ S); exact Hr | exact Hv | exact He]).
    destruct (policy_release_ok _ qs id (so_policy _ _ S) (so_queued _ _ S id r Hr)) as (p & qs1 & Hp & (P & Hperm & Kp) & Hpin). rewrite Hp. cbn [rbind]. pose proof (policy_step x qs p qs1 S P Hperm Kp) as S1.
    assert (K1 : shrink x qs (lk_set_policy p x) qs1 []) by (apply policy_shrink; [exact Kp | intros Hl j Hj; apply (Hpin Hl j Hj)]).
    destruct (trim_shard_ok _ qs1 [] S1) as (x' & qs' & gone & Ht & S' & K' & F' & Hc'). exists x', qs', gone. split; [exact Ht|]. split; [exact S'|]. split; [apply (shrink_trans x qs (lk_set_policy p x) qs1 x' qs' [] gone); assumption|]. split; [exact F'|]. split; [exact Hc'|].
    intros _ Hl Hpn. destruct (sk_pins _ _ _ _ _ K') with (r := r) as (j & Hj & Hjr); [rewrite (sk_lru _ _ _ _ _ K1); exact Hl | exact Hpn|]. destruct (Hpin Hl j Hj) as [Hne _]. apply Hne.
    pose proof (sk_sub _ _ _ _ _ K1 j r Hjr) as Hjr'. eapply (so_keys _ _ S); [exact Hjr' | exact Hr | reflexivity].
  - exists x, qs, []. split; [reflexivity|]. split; [exact S|]. split; [apply shrink_refl|]. split; [exact F|]. split; [reflexivity|]. intros _ _ (j & _ & Hj). specialize (Hf j r Hj eq_refl). rewrite Z.eqb_refl in Hf. discriminate.
Qed.

(** The version under a key, if any, leaves for some reason. *)
Lemma drop_key_ok x qs key why : shard_ok x qs -> fits x qs ->
  exists x' qs' gone, (let? found := find (lk_shard x) (hash key) key in match found with Some id => let? (old, x) := detach x id in Ok (x, [(old, why)]) | None => Ok (x, []) end) = Ok (x', gone) /\ shard_ok x' qs' /\ shrink x qs x' qs' gone /\ fits x' qs' /\ sh_capacity (lk_shard x') = sh_capacity (lk_shard x) /\
    (forall id r, recs x' id = Some r -> rc_key r <> key) /\ (forall id r, recs x id = Some r -> rc_key r <> key -> recs x' id = Some r) /\ (gone = [] \/ exists r, gone = [(r, why)]).
Proof.
  intros S F. destruct (find_ok x qs key S) as (o & -> & Hf). cbn [rbind]. destruct o as [id|].
  - destruct Hf as (r & Hr & Hk). destruct (detach_ok x qs id r why S Hr) as (x' & qs' & Hd & S' & K' & Hrecs & _ & Hc & Hi). rewrite Hd. cbn [rbind]. exists x', qs', [(r, why)]. split; [reflexivity|]. split; [exact S'|]. split; [exact K'|]. split; [eapply shrink_fits; eassumption|]. split; [exact Hc|].
    split; [|split; [|right; eauto]].
    + intros j r' Hj He. pose proof (sk_sub _ _ _ _ _ K' j r' Hj) as Hj'. assert (j = id) as -> by (eapply (so_keys _ _ S); [exact Hj' | exact Hr | congruence]). rewrite Hrecs in Hj. unfold without in Hj. rewrite decide_True in Hj by reflexivity. discriminate.
    + intros j r' Hj Hne. rewrite Hrecs. unfold without. case_decide; [|exact Hj]. subst j. congruence.
  - exists x, qs, []. split; [reflexivity|]. split; [exact S|]. split; [apply shrink_refl|]. split; [exact F|]. split; [reflexivity|]. split; [exact Hf|]. split; [auto | left; reflexivity].
Qed.

Lemma detach_all_ok : forall ids x qs removed, shard_ok x qs -> NoDup ids -> (forall id, id ∈ ids <-> is_Some (recs x id)) ->
  exists x' qs' gone, detach_all x ids removed = Ok (x', removed ++ gone) /\ shard_ok x' qs' /\ shrink x qs x' qs' gone /\ sh_capacity (lk_shard x') = sh_capacity (lk_shard x) /\ (forall id, recs x' id = None).
Proof.
  induction ids as [|id ids IH]; intros x qs removed S Hd Hall; cbn [detach_all].
  - exists x, qs, []. rewrite app_nil_r. split; [reflexivity|]. split; [exact S|]. split; [apply shrink_refl|]. split; [reflexivity|]. intros id. destruct (recs x id) as [r|] eqn:Hr; [|reflexivity]. assert (Hin : id ∈ @nil Z) by (apply Hall; eauto). inversion Hin.
  - destruct (proj1 (Hall id) ltac:(left)) as [r Hr]. apply NoDup_cons in Hd as [Hid Hd]. destruct (detach_ok x qs id r Cleared S Hr) as (x1 & qs1 & He & S1 & K1 & Hrecs & _ & Hc1 & _). rewrite He. cbn [rbind].
    destruct (IH x1 qs1 (removed ++ [(r, Cleared)]) S1 Hd) as (x' & qs' & gone & Ha & S' & K' & Hc' & Hnone).
    + intros j. rewrite Hrecs. unfold without. case_decide as Hj; [subst j; split; [contradiction | intros [? ?]; discriminate]|]. rewrite <- Hall, elem_of_cons. tauto.
    + exists x', qs', ((r, Cleared) :: gone). rewrite <- app_assoc in Ha. split; [exact Ha|]. split; [exact S'|]. split; [apply (shrink_trans x qs x1 qs1 x' qs' [(r, Cleared)] gone); assumption|]. split; [congruence | exact Hnone].
Qed.

Lemma clear_locked_ok x qs ids : shard_ok x qs -> NoDup ids -> (forall id, id ∈ ids <-> is_Some (recs x id)) ->
  exists x' qs' gone, clear_locked x ids = Ok (x', gone) /\ shard_ok x' qs' /\ shrink x qs x' qs' gone /\ fits x' qs' /\ sh_capacity (lk_shard x') = sh_capacity (lk_shard x) /\ (forall id, recs x' id = None).
Proof.
  intros S Hd Hall. unfold clear_locked. destruct (detach_all_ok ids x qs [] S Hd Hall) as (x1 & qs1 & gone & He & S1 & K1 & Hc1 & Hnone). rewrite He. cbn [rbind app]. pose proof (so_policy _ _ S1) as P1.
  set (p := {| ps_state := clear_history (ps_state (sh_policy (lk_shard x1))); ps_nodes := sh_nodes (lk_shard x1) |}). assert (P : policy_ok p qs1) by (apply clear_history_ok; exact P1). assert (Kp : kept (sh_policy (lk_shard x1)) p) by (constructor; reflexivity).
  exists (lk_set_policy p x1), qs1, gone. pose proof (policy_step x1 qs1 p qs1 S1 P (Permutation_refl _) Kp) as S'. split; [reflexivity|]. split; [exact S'|]. split; [rewrite <- (app_nil_r gone); eapply shrink_trans; [exact K1 | apply policy_shrink; [exact Kp | auto]]|]. split; [|split; [exact Hc1 | exact Hnone]].
  left. cbn. pose proof (se_capacity _ (po_settings _ _ P1)) as Hcap. rewrite (so_capacity _ _ S1) in Hcap. rewrite (so_weight _ _ S1).
  destruct (concat qs1) as [|id l] eqn:Hq; [cbn; lia|]. destruct (queued_rec x1 qs1 id S1 ltac:(rewrite Hq; left)) as [r Hr]. rewrite Hnone in Hr. discriminate.
Qed.

Lemma resize_locked_ok x qs capacity : shard_ok x qs -> 0 <= capacity ->
  exists x' qs' gone, resize_locked x capacity = Ok (x', gone) /\ shard_ok x' qs' /\ shrink x qs x' qs' gone /\ fits x' qs' /\ sh_capacity (lk_shard x') = capacity.
Proof.
  intros S Hc. unfold resize_locked. destruct (policy_resize_ok _ qs capacity (so_policy _ _ S) Hc) as (p & qs1 & Hp & P & Hperm & Kr & Kp & Kc & Hpin). rewrite Hp. cbn [rbind]. set (x1 := {| lk_shard := _; lk_counters := _; lk_resident := _ |}).
  assert (Hr : forall id, recs x1 id = recs x id) by (intros id; apply Kr). pose proof S as [S1 S2 S3 S4 S5 S6 S7 S8 S9 S10 S11 S12].
  assert (Sx : shard_ok x1 qs1).
  { constructor; cbn [x1 lk_shard lk_counters lk_resident sh_policy sh_index sh_weight sh_capacity sh_nodes]; try assumption.
    - intros id r. rewrite Hr, Hperm. apply S2.
    - intros h id. rewrite S3. setoid_rewrite Hr. reflexivity.
    - rewrite S5. unfold sh_nodes. cbn. rewrite (wsum_perm _ _ _ Hperm). symmetry. apply records_wsum. exact Kr.
    - intros id id' r r'. rewrite !Hr. apply S8.
    - intros id r. rewrite Hr. apply S9.
    - intros rid. rewrite S10. setoid_rewrite Hr. reflexivity.
    - rewrite S11. unfold sh_nodes. cbn. rewrite (records_size _ (ps_nodes p) Kr). reflexivity. }
  assert (K1 : shrink x qs x1 qs1 []).
  { constructor; try done; [intros id r; rewrite Hr; auto | intros rid; split; [intros Hin; inversion Hin | cbn; tauto] | constructor | intros r why Hin; inversion Hin|]. intros Hl r (id & Hin & Hid). exists id. rewrite (Hpin Hl) in Hin. rewrite Hr in Hid. auto. }
  destruct (trim_shard_ok x1 qs1 [] Sx) as (x' & qs' & gone & Ht & S' & K' & F' & Hc'). exists x', qs', gone. split; [exact Ht|]. split; [exact S'|]. split; [apply (shrink_trans x qs x1 qs1 x' qs' [] gone); assumption|]. split; [exact F' | exact Hc'].
Qed.

Lemma get_locked_ok x qs key : shard_ok x qs -> fits x qs ->
  exists o x' qs', get_locked x (hash key) key = Ok (o, x') /\ shard_ok x' qs' /\ fits x' qs' /\ (forall id, recs x' id = recs x id) /\ lk_resident x' = lk_resident x /\ lk_counters x' = lk_counters x /\
    sh_capacity (lk_shard x') = sh_capacity (lk_shard x) /\ ps_policy (ps_state (sh_policy (lk_shard x'))) = ps_policy (ps_state (sh_policy (lk_shard x))) /\ sh_weight (lk_shard x') = sh_weight (lk_shard x) /\
    match o with Some r => rc_key r = key /\ exists id, recs x id = Some r | None => forall id r, recs x id = Some r -> rc_key r <> key end /\
    (is_lru x = true -> forall r, pinned x' qs' r -> o = Some r \/ pinned x qs r).
Proof.
  intros S F. unfold get_locked. destruct (find_ok x qs key S) as (o & -> & Hf). cbn [rbind]. destruct o as [id|].
  - destruct Hf as (r & Hr & Hk). cbv zeta. set (x0 := {| lk_shard := _; lk_counters := _; lk_resident := _ |}). assert (S0 : shard_ok x0 qs) by (destruct S; constructor; assumption).
    unfold sh_nodes at 1. cbn [sh_policy]. unfold recs, sh_nodes in Hr. destruct (ps_nodes (sh_policy (lk_shard x)) !! id) as [n|] eqn:Hn; [|discriminate]. injection Hr as Hr. cbn [expect rbind].
    assert (Hr' : recs x id = Some r) by (unfold recs, sh_nodes; rewrite Hn; cbn; congruence). pose proof (so_policy _ _ S) as P. pose proof (so_queued _ _ S id r Hr') as Hin.
    assert (Hacc : exists p qs', (if mutable_hits (ps_policy (ps_state (sh_policy (lk_shard x)))) then policy_access (sh_policy (lk_shard x)) id
       else let? node := access_shared (ps_state (sh_policy (lk_shard x))) n in Ok {| ps_state := ps_state (sh_policy (lk_shard x)); ps_nodes := <[id := node]> (sh_nodes (lk_shard x)) |}) = Ok p /\ rearranged (sh_policy (lk_shard x)) qs p qs' /\
       (is_lru x = true -> (forall j, j ∈ pins qs' -> j = id \/ j ∈ pins qs) /\ (id ∈ pins qs -> qs' = qs))).
    { destruct (mutable_hits (ps_policy (ps_state (sh_policy (lk_shard x))))) eqn:Hm; [apply policy_access_ok; assumption|]. destruct (access_shared_ok _ qs id n P Hm Hn) as (n' & He & R). rewrite He. cbn [rbind]. eexists _, qs. split; [reflexivity|]. split; [exact R|]. auto. }
    destruct Hacc as (p & qs' & He & (P' & Hperm & Kp) & Hpin). match goal with |- context [rbind ?m _] => change m with (if mutable_hits (ps_policy (ps_state (sh_policy (lk_shard x)))) then policy_access (sh_policy (lk_shard x)) id
       else let? node := access_shared (ps_state (sh_policy (lk_shard x))) n in Ok {| ps_state := ps_state (sh_policy (lk_shard x)); ps_nodes := <[id := node]> (sh_nodes (lk_shard x)) |}) end. rewrite He. cbn [rbind].
    assert (Hrs : forall j, recs (lk_set_policy p x0) j = recs x j) by (intros j; apply (kp_records _ _ Kp)). assert (Hlru : is_lru (lk_set_policy p x0) = is_lru x) by (unfold is_lru; cbn; rewrite (kp_policy _ _ Kp); reflexivity).
    exists (Some (nd_record n)), (lk_set_policy p x0), qs'. rewrite Hr. split; [reflexivity|]. split; [eapply policy_step; eassumption|]. split; [|split; [exact Hrs|]; do 3 (split; [reflexivity|]); split; [exact (kp_policy _ _ Kp)|]; split; [reflexivity|]; split; [eauto|]].
    + destruct F as [F|[Fl Fi]]; [left; exact F | right; split; [congruence|]]. assert (Hp2 : id ∈ pins qs).
      { destruct Fi as [I0 I1]. apply elem_of_concat in Hin as (q & l & Hl & Hin). unfold pins. destruct q as [|[|[|q]]]; [rewrite I0 in Hl; injection Hl as <-; inversion Hin | rewrite I1 in Hl; injection Hl as <-; inversion Hin | rewrite Hl; exact Hin|]. apply lookup_lt_Some in Hl. rewrite (proj1 (wq_len _ _ (po_wired _ _ P))) in Hl. lia. }
      rewrite (proj2 (Hpin Fl) Hp2). exact Fi.
    + intros Hl r' (j & Hj & Hjr). rewrite Hrs in Hjr. destruct (proj1 (Hpin Hl) j Hj) as [->|Hj']; [left; congruence | right; exists j; auto].
  - eexists None, _, qs. split; [reflexivity|]. split; [destruct S; constructor; assumption|]. split; [exact F|]. do 6 (split; [reflexivity|]). split; [exact Hf|]. intros _ r Hp. right. exact Hp.
Qed.

(** ** Committing a version *)

Lemma admit_version_ok x qs slot r : shard_ok x qs -> vouched r -> recs x slot = None -> (forall id r', recs x id = Some r' -> rc_key r' <> rc_key r) -> rc_id r ∉ lk_resident x -> sh_weight (lk_shard x) + rc_weight r < 2 ^ 64 ->
  exists x' qs', admit_version x slot r = Ok x' /\ shard_ok x' qs' /\ (forall j, recs x' j = if decide (j = slot) then Some r else recs x j) /\ lk_resident x' = {[rc_id r]} ∪ lk_resident x /\
    sh_capacity (lk_shard x') = sh_capacity (lk_shard x) /\ is_lru x' = is_lru x /\ ct_local (lk_counters x') = ct_local (lk_counters x) /\ ct_evictions (lk_counters x') = ct_evictions (lk_counters x) /\
    ps_policy (ps_state (sh_policy (lk_shard x'))) = ps_policy (ps_state (sh_policy (lk_shard x))) /\ (is_lru x = true -> forall r', pinned x' qs' r' -> r' = r \/ pinned x qs r').
Proof.
  intros S Hv Hslot Hkey Hid Hfit. pose proof (so_policy _ _ S) as P. set (n := {| nd_record := r; nd_prev := None; nd_next := None; nd_queue := None; nd_frequency := 0 |}).
  assert (Hnone : sh_nodes (lk_shard x) !! slot = None) by (unfold recs in Hslot; destruct (sh_nodes (lk_shard x) !! slot); [discriminate | reflexivity]).
  assert (Hout : slot ∉ concat qs) by (intros Hin; destruct (queued_rec x qs slot S Hin) as [r' Hr']; congruence).
  pose proof (policy_ok_add _ qs slot n P Hout eq_refl (vouched_weight r Hv) eq_refl) as P1. destruct (policy_insert_ok _ qs slot n P1 ltac:(apply lookup_insert_eq) Hout) as (p & qs' & Hp & P' & Hperm & Kp & Hpin).
  assert (Hix : exists t', ht_insert_unique (sh_index (lk_shard x)) (rc_hash r) slot (on_record (<[slot := n]> (sh_nodes (lk_shard x))) rc_hash) = Ok t' /\ Permutation (ht_elements t') ((rc_hash r, slot) :: ht_elements (sh_index (lk_shard x)))).
  { apply ht_insert_elements. intros h' v Hin. apply elem_of_cons in Hin as [[= -> ->]|Hin]; [unfold on_record; rewrite lookup_insert_eq; reflexivity|]. apply (so_index _ _ S) in Hin as (r' & Hr' & <-).
    rewrite <- (on_record_recs x rc_hash v r' Hr'). unfold on_record. rewrite lookup_insert_ne by congruence. reflexivity. }
  destruct Hix as (t' & Hix & Hte).
  unfold admit_version. cbv zeta. change {| nd_record := r; nd_prev := None; nd_next := None; nd_queue := None; nd_frequency := 0 |} with n. rewrite Hix. cbn [rbind]. unfold sh_nodes at 1. rewrite Hp. cbn [rbind]. destruct Kp as [Kr Kp Kc]. cbn [ps_state ps_nodes] in *.
  assert (Hrecs : forall j, nd_record <$> ps_nodes p !! j = if decide (j = slot) then Some r else recs x j) by (intros j; rewrite Kr; case_decide as Hj; [subst j; rewrite lookup_insert_eq; reflexivity | rewrite lookup_insert_ne by congruence; reflexivity]).
  destruct S as [S1 S2 S3 S4 S5 S6 S7 S8 S9 S10 S11 S12]. eexists _, qs'. split; [reflexivity|]. split; [|split; [exact Hrecs|]; do 2 (split; [reflexivity|]); split; [unfold is_lru; cbn; rewrite Kp; reflexivity|]; do 2 (split; [reflexivity|]); split; [exact Kp|]].
  - assert (Hw : wsum (ps_nodes p) (concat qs') = sh_weight (lk_shard x) + rc_weight r).
    { rewrite (wsum_perm _ _ _ Hperm), (records_wsum _ _ _ Kr). change (wsum ?m (?i :: ?l)) with (weight_of m i + wsum m l). unfold weight_of. rewrite lookup_insert_eq. cbn [n nd_record]. rewrite (wsum_frame (sh_nodes (lk_shard x))) by (intros j Hj; apply lookup_insert_ne; congruence). rewrite S5. lia. }
    constructor; cbn [lk_shard lk_counters lk_resident sh_policy sh_index sh_weight sh_capacity ct_entries ct_resident]; unfold recs, sh_nodes; cbn [lk_shard sh_policy]; try assumption; try lia.
    + intros j r'. rewrite Hrecs, Hperm, elem_of_cons. case_decide; [auto|]. intros Hj. right. eapply S2. exact Hj.
    + intros h j. setoid_rewrite Hrecs. rewrite Hte, elem_of_cons, S3. case_decide as Hj.
      * subst j. split; [intros [[= ->]|(r' & Hr' & _)]; [eauto | congruence] | intros (r' & [= <-] & <-); auto].
      * split; [intros [[= _ ->]|Hr]; [contradiction | exact Hr] | auto].
    + rewrite Hte. constructor; [|exact S4]. intros Hin. apply S3 in Hin as (r' & Hr' & _). congruence.
    + intros i j r1 r2. rewrite !Hrecs. repeat case_decide; subst; intros E1 E2 He; try congruence; [injection E1 as <-; exfalso; eapply Hkey; eauto | injection E2 as <-; exfalso; eapply Hkey; eauto | eapply S8; eauto].
    + intros j r'. rewrite Hrecs. case_decide; [intros [= <-]; exact Hv | apply S9].
    + intros rid. setoid_rewrite Hrecs. rewrite elem_of_union, elem_of_singleton, S10. split.
      * intros [->|[Ho|(j & r' & Hj & He)]]; [right; exists slot, r; rewrite decide_True by reflexivity; auto | auto | right; exists j, r'; split; [|exact He]; case_decide; [subst; congruence | exact Hj]].
      * intros [Ho|(j & r' & Hj & He)]; [auto|]. case_decide; [injection Hj as <-; auto | right; right; eauto].
    + rewrite S11, wrap64_add. f_equal. rewrite (records_size _ _ Kr), (map_size_insert_None slot _ _ Hnone). unfold sh_nodes. lia.
    + rewrite S12, wrap64_add. f_equal. lia.
  - intros Hl r' (j & Hj & Hjr). unfold recs, sh_nodes in Hjr. cbn in Hjr. rewrite Hrecs in Hjr. destruct (Hpin Hl j Hj) as [->|Hj']; [left; rewrite decide_True in Hjr by reflexivity; congruence|]. case_decide; [left; congruence | right; exists j; auto].
Qed.

Lemma resident_rec x qs r : shard_ok x qs -> vouched r -> rc_id r ∈ lk_resident x -> exists id, recs x id = Some r.
Proof.
  intros S Hv Hin. apply (so_resident _ _ S) in Hin as [Ho|(id & r' & Hr & He)]; [exfalso; apply (others_apart r Hv Ho)|]. exists id. rewrite Hr. f_equal. apply vouched_id; [eapply (so_vouched _ _ S); exact Hr | exact Hv | exact He].
Qed.

(** A version enters: it stays or is reported, with what it displaces. *)
Record committed x (qs : list (list Z)) r x' (qs' : list (list Z)) (gone : @Retired K V) : Prop := {
  cm_recs : forall id r', recs x' id = Some r' -> r' = r \/ recs x id = Some r' /\ rc_key r' <> rc_key r;
  cm_subset : lk_resident x' ⊆ {[rc_id r]} ∪ lk_resident x;
  cm_gone : forall rid, rid ∈ gone_ids gone <-> (rid = rc_id r \/ rid ∈ lk_resident x) /\ rid ∉ lk_resident x';
  cm_once : NoDup (gone_ids gone);
  cm_held : forall r' why, (r', why) ∈ gone -> r' = r \/ exists id, recs x id = Some r';
  cm_pins : is_lru x = true -> forall r', pinned x' qs' r' -> r' = r \/ pinned x qs r';
  cm_policy : ps_policy (ps_state (sh_policy (lk_shard x'))) = ps_policy (ps_state (sh_policy (lk_shard x)));
  cm_capacity : sh_capacity (lk_shard x') = sh_capacity (lk_shard x);
  cm_counters : ct_local (lk_counters x') = ct_local (lk_counters x) /\ ct_evictions (lk_counters x') = ct_evictions (lk_counters x)
}.

(** Displace what is under the key, add the version, then only remove. *)
Lemma committed_grow x qs x1 qs1 x2 qs2 x' qs' r slot g1 g2 : rc_id r ∉ lk_resident x -> shrink x qs x1 qs1 g1 -> (forall id r', recs x1 id = Some r' -> rc_key r' <> rc_key r) -> (forall j, recs x2 j = if decide (j = slot) then Some r else recs x1 j) ->
  lk_resident x2 = {[rc_id r]} ∪ lk_resident x1 -> (is_lru x1 = true -> forall r', pinned x2 qs2 r' -> r' = r \/ pinned x1 qs1 r') -> ps_policy (ps_state (sh_policy (lk_shard x2))) = ps_policy (ps_state (sh_policy (lk_shard x1))) ->
  ct_local (lk_counters x2) = ct_local (lk_counters x1) /\ ct_evictions (lk_counters x2) = ct_evictions (lk_counters x1) -> shrink x2 qs2 x' qs' g2 -> sh_capacity (lk_shard x') = sh_capacity (lk_shard x) -> committed x qs r x' qs' (g1 ++ g2).
Proof.
  intros Hnew A Hkey Hrecs Hres Hpin Hpol [Hc1 Hc2] B Hcap. pose proof (sk_lru _ _ _ _ _ A) as Hl1. assert (Hl2 : is_lru x2 = is_lru x1) by (unfold is_lru; rewrite Hpol; reflexivity).
  destruct A as [A1 A2 A3 A4 A5 A6 A8 A10 [A11 A12]], B as [B1 B2 B3 B4 B5 B6 B8 B10 [B11 B12]]. constructor; try congruence; try (split; congruence).
  - intros id r' Hr'. apply B1 in Hr'. rewrite Hrecs in Hr'. case_decide; [left; congruence | right; eauto].
  - rewrite Hres in B2. clear - A2 B2. set_solver.
  - intros rid. unfold gone_ids in *. rewrite map_app, elem_of_app, A3, B3, Hres, elem_of_union, elem_of_singleton. destruct (decide (rid ∈ lk_resident x1)) as [Hin|Hout]; [pose proof (A2 _ Hin); tauto|].
    split; [|tauto]. intros [[Hin _]|[[->|?] ?]]; [|tauto|contradiction]. split; [auto|]. intros Hin'. apply B2 in Hin'. rewrite Hres, elem_of_union, elem_of_singleton in Hin'. destruct Hin' as [->|?]; contradiction.
  - unfold gone_ids in *. rewrite map_app. apply NoDup_app. split; [assumption|]. split; [|assumption]. intros rid G1 G2. apply A3 in G1 as [G1 G1']. apply B3 in G2 as [G2 _]. rewrite Hres, elem_of_union, elem_of_singleton in G2. destruct G2 as [->|?]; contradiction.
  - intros r' why Hin. apply elem_of_app in Hin as [Hin|Hin]; [eauto|]. destruct (B5 _ _ Hin) as [id Hid]. rewrite Hrecs in Hid. case_decide; [left; congruence | right; eauto].
  - intros Hl r' Hp. destruct (Hpin ltac:(congruence) r') as [->|Hp']; [apply B6; [congruence | exact Hp] | auto | right; apply A6; assumption].
Qed.

Lemma commit_locked_ok x qs slot r admitted : shard_ok x qs -> fits x qs -> vouched r -> rc_id r ∉ lk_resident x -> (forall r', recs x slot = Some r' -> rc_key r' = rc_key r) ->
  exists x' qs' gone, commit_locked x slot r admitted = Ok (x', gone) /\ shard_ok x' qs' /\ fits x' qs' /\ committed x qs r x' qs' gone.
Proof.
  intros S F Hv Hnew Hslot. unfold commit_locked. rewrite (vouched_hash r Hv). destruct (drop_key_ok x qs (rc_key r) Replaced S F) as (x1 & qs1 & g1 & He & S1 & K1 & F1 & Hc1 & Hkey & _ & _). rewrite He. cbn [rbind].
  assert (Hnew1 : rc_id r ∉ lk_resident x1) by (intros Hin; apply Hnew; apply (sk_subset _ _ _ _ _ K1); exact Hin).
  assert (Hfree : recs x1 slot = None) by (destruct (recs x1 slot) as [r'|] eqn:Hr; [exfalso; apply (Hkey slot r' Hr); apply Hslot; eapply (sk_sub _ _ _ _ _ K1); exact Hr | reflexivity]).
  destruct (admitted && _ && _) eqn:Hok.
  - apply andb_true_iff in Hok as [_ Hfit]. boolp. destruct (admit_version_ok x1 qs1 slot r S1 Hv Hfree Hkey Hnew1 Hfit) as (x2 & qs2 & Ha & S2 & Hrecs & Hres & Hc2 & Hl2 & Hlo & Hev & Hpol & Hpin). rewrite Ha. cbn [rbind].
    destruct (trim_shard_ok x2 qs2 g1 S2) as (x3 & qs3 & g2 & Ht & S3 & K3 & F3 & Hc3). rewrite Ht. cbn [rbind]. destruct (_ && _) eqn:Hover.
    + apply andb_true_iff in Hover as [Hover Hin]. boolp. apply bool_decide_eq_true in Hin. destruct (resident_rec x3 qs3 r S3 Hv Hin) as [id Hid].
      assert (id = slot) as -> by (eapply (so_keys _ _ S2); [eapply (sk_sub _ _ _ _ _ K3); exact Hid | rewrite Hrecs, decide_True by reflexivity; reflexivity | reflexivity]).
      destruct (detach_ok x3 qs3 slot r Rejected S3 Hid) as (x4 & qs4 & Hd & S4 & K4 & _ & _ & Hc4 & Hi4). rewrite Hd. cbn [rbind]. exists x4, qs4, (g1 ++ (g2 ++ [(r, Rejected)])). rewrite app_assoc. split; [reflexivity|]. split; [exact S4|]. split; [eapply shrink_fits; eassumption|].
      rewrite <- app_assoc. eapply committed_grow; try eassumption; [split; assumption | eapply shrink_trans; eassumption | congruence].
    + exists x3, qs3, (g1 ++ g2). split; [reflexivity|]. split; [exact S3|]. split; [exact F3|]. eapply committed_grow; try eassumption; [split; assumption | congruence].
  - exists x1, qs1, (g1 ++ [(r, Rejected)]). split; [reflexivity|]. split; [exact S1|]. split; [exact F1|]. pose proof K1 as [A1 A2 A3 A4 A5 A6 A8 A10 A11]. constructor; try assumption.
    + intros id r' Hr'. right. eauto.
    + set_solver.
    + intros rid. unfold gone_ids in *. rewrite map_app, elem_of_app, A3. cbn [map]. rewrite list_elem_of_singleton. cbn [fst]. split; [intros [?| ->]; [tauto | auto] | intros [[->|?] ?]; auto].
    + unfold gone_ids in *. rewrite map_app. apply NoDup_app. split; [assumption|]. split; [|apply NoDup_singleton]. intros rid G1 G2. apply A3 in G1 as [G1 _]. apply list_elem_of_singleton in G2. cbn in G2. subst rid. contradiction.
    + intros r' why Hin. apply elem_of_app in Hin as [Hin|Hin]; [right; eauto|]. apply list_elem_of_singleton in Hin. injection Hin as -> _. auto.
    + intros Hl r' Hp. right. auto.
Qed.
End Shard.
