(* ===== verification/MemInv.v ===== *)
(** * The shards of the memory cache together

    A step inside one shard's lock leaves the other shards as they are, though
    all share the resident flags and the counters. *)

From stdpp Require Import gmap.
From S2P Require Import Prelude PoolLinks MemPolicy MemLists MemPolicyProofs MemCache MemShard.

Section Shards.
Context {K V T : Type} `{EqDecision K, HashTableLaws T}.
Abbreviation MemRecord := (@MemRecord K V).
Abbreviation Shard := (@Shard K V T).
Abbreviation Cache := (@Cache K V T).
Implicit Types (c : Cache) (s : Shard) (r : MemRecord) (known : gmap Z MemRecord).

Definition lock c s : Locked := {| lk_shard := s; lk_counters := ch_counters c; lk_resident := ch_resident c |}.

(** ** The versions a shard may hold, and those the others do *)

Definition vouched known (n i : Z) r : Prop := known !! rc_id r = Some r /\ rc_hash r mod n = i.
Definition elsewhere known (n i rid : Z) : bool := match known !! rid with Some r => negb (rc_hash r mod n =? i) | None => true end.
Definition others known (n i : Z) (resident : gset Z) : gset Z := filter (fun rid => elsewhere known n i rid = true) resident.

Lemma elsewhere_vouched known n i r : vouched known n i r -> elsewhere known n i (rc_id r) = false.
Proof. intros [Hk Hh]. unfold elsewhere. rewrite Hk. apply negb_false_iff. apply Z.eqb_eq. exact Hh. Qed.
Lemma elsewhere_other known n i j r : vouched known n j r -> i <> j -> elsewhere known n i (rc_id r) = true.
Proof. intros [Hk Hh] Hne. unfold elsewhere. rewrite Hk. apply negb_true_iff. apply Z.eqb_neq. congruence. Qed.
Lemma elsewhere_false known n i rid : elsewhere known n i rid = false -> exists r, known !! rid = Some r /\ rc_hash r mod n = i.
Proof. unfold elsewhere. destruct (known !! rid) as [r|]; [|discriminate]. intros He. apply negb_false_iff in He. apply Z.eqb_eq in He. eauto. Qed.
Lemma elem_of_others known n i resident rid : rid ∈ others known n i resident <-> elsewhere known n i rid = true /\ rid ∈ resident.
Proof. unfold others. rewrite elem_of_filter. reflexivity. Qed.
Lemma others_apart known n i resident r : vouched known n i r -> rc_id r ∉ others known n i resident.
Proof. intros Hv Hin. apply elem_of_others in Hin as [He _]. rewrite (elsewhere_vouched _ _ _ _ Hv) in He. discriminate. Qed.

Definition known_ok (hash : K -> Z) known : Prop := forall id r, known !! id = Some r -> rc_id r = id /\ rc_hash r = hash (rc_key r) /\ 1 <= rc_weight r.

Lemma vouched_id known n i r r' : vouched known n i r -> vouched known n i r' -> rc_id r = rc_id r' -> r = r'.
Proof. intros [H1 _] [H2 _] He. congruence. Qed.
Lemma vouched_hash hash known n i r : known_ok hash known -> vouched known n i r -> rc_hash r = hash (rc_key r).
Proof. intros Hk [Hr _]. apply (Hk _ _ Hr). Qed.
Lemma vouched_weight hash known n i r : known_ok hash known -> vouched known n i r -> 1 <= rc_weight r.
Proof. intros Hk [Hr _]. apply (Hk _ _ Hr). Qed.

(** ** All shards *)

Definition entries_of s : Z := Z.of_nat (size (sh_nodes s)).
Definition resident_of s : Z := sh_weight s.

Definition one_ok known (n i : Z) (rest_entries rest_weight : Z) (rest : gset Z) (x : Locked) (qs : list (list Z)) : Prop :=
  shard_ok (T := T) (vouched known n i) rest rest_entries rest_weight x qs.

Definition shard_at c known (i : nat) s (qs : list (list Z)) : Prop :=
  one_ok known (len (ch_shards c)) (Z.of_nat i) (total entries_of (ch_shards c) - entries_of s) (total resident_of (ch_shards c) - resident_of s)
    (others known (len (ch_shards c)) (Z.of_nat i) (ch_resident c)) (lock c s) qs /\
  fits (lock c s) qs /\ ps_policy (ps_state (sh_policy s)) = ch_policy c.

Record shards_ok c known (qss : list (list (list Z))) : Prop := {
  sa_len : length qss = length (ch_shards c);
  sa_some : (0 < length (ch_shards c))%nat;
  sa_known : known_ok (cf_hash (ch_config c)) known;
  sa_each : forall i s qs, ch_shards c !! i = Some s -> qss !! i = Some qs -> shard_at c known i s qs
}.

Lemma shards_queues c known qss i s : shards_ok c known qss -> ch_shards c !! i = Some s -> exists qs, qss !! i = Some qs /\ shard_at c known i s qs.
Proof. intros A Hs. destruct (lookup_lt_is_Some_2 qss i) as [qs Hq]; [rewrite (sa_len _ _ _ A); eapply lookup_lt_Some; exact Hs|]. exists qs. split; [exact Hq | eapply (sa_each _ _ _ A); eassumption]. Qed.

(** The same shard seen with other flags and counters. *)
Lemma shard_ok_shared P O E W O' E' W' (x x' : @Locked K V T) qs : shard_ok P O E W x qs -> lk_shard x' = lk_shard x ->
  (forall rid, rid ∈ lk_resident x' <-> rid ∈ O' \/ exists id r, recs x id = Some r /\ rc_id r = rid) -> ct_entries (lk_counters x') = wrap64 (E' + entries_of (lk_shard x)) -> ct_resident (lk_counters x') = wrap64 (W' + resident_of (lk_shard x)) -> shard_ok P O' E' W' x' qs.
Proof.
  intros [S1 S2 S3 S4 S5 S6 S7 S8 S9 S10 S11 S12] Hs Hr He Hw. assert (Hrecs : forall id, recs x' id = recs x id) by (intros id; unfold recs; rewrite Hs; reflexivity). unfold entries_of, resident_of in *.
  constructor; rewrite ?Hs; try assumption.
  - intros id r. rewrite Hrecs. apply S2.
  - intros h id. rewrite S3. setoid_rewrite Hrecs. reflexivity.
  - intros id id' r r'. rewrite !Hrecs. apply S8.
  - intros id r. rewrite Hrecs. apply S9.
  - intros rid. rewrite Hr. setoid_rewrite Hrecs. reflexivity.
Qed.

Lemma shard_ok_weaken (P P' : MemRecord -> Prop) O E W (x : @Locked K V T) qs : (forall r, P r -> P' r) -> shard_ok P O E W x qs -> shard_ok P' O E W x qs.
Proof. intros HP [S1 S2 S3 S4 S5 S6 S7 S8 S9 S10 S11 S12]. constructor; eauto. Qed.

(** ** A step inside one lock *)

Definition stored c (i : nat) (x : @Locked K V T) : Cache :=
  {| ch_config := ch_config c; ch_policy := ch_policy c; ch_shards := <[i := lk_shard x]> (ch_shards c); ch_counters := lk_counters x; ch_capacity := ch_capacity c; ch_resident := lk_resident x; ch_references := ch_references c |}.

Lemma with_shard_run {A} c i s (f : Locked -> steps (A * Locked)) a x : ch_shards c !! i = Some s -> f (lock c s) = Ok (a, x) -> with_shard c (Z.of_nat i) f = Ok (a, stored c i x).
Proof.
  intros Hs Hf. unfold with_shard. rewrite (index_get_Some _ _ s) by (try lia; rewrite Nat2Z.id; exact Hs). cbn [rbind]. fold (lock c s). rewrite Hf. cbn [rbind]. rewrite (index_set_Some _ _ s) by (try lia; rewrite Nat2Z.id; exact Hs). rewrite Nat2Z.id. reflexivity.
Qed.

Lemma stored_lookup c i x j s : (i < length (ch_shards c))%nat -> ch_shards (stored c i x) !! j = Some s -> i = j /\ s = lk_shard x \/ i <> j /\ ch_shards c !! j = Some s.
Proof. intros Hi. cbn. destruct (decide (i = j)) as [<-|Hne]; [rewrite list_lookup_insert_eq by exact Hi; intros [= <-]; auto | rewrite list_lookup_insert_ne by exact Hne; auto]. Qed.

Lemma others_stored c known i s x qs' :
  one_ok known (len (ch_shards c)) (Z.of_nat i) (total entries_of (ch_shards c) - entries_of s) (total resident_of (ch_shards c) - resident_of s) (others known (len (ch_shards c)) (Z.of_nat i) (ch_resident c)) x qs' ->
  others known (len (ch_shards c)) (Z.of_nat i) (lk_resident x) = others known (len (ch_shards c)) (Z.of_nat i) (ch_resident c).
Proof.
  intros S'. apply set_eq. intros rid. rewrite !elem_of_others. rewrite (so_resident _ _ _ _ _ _ S' rid), elem_of_others. split; [|tauto]. intros [He [[_ Hin]|(id & r & Hr & <-)]]; [auto|]. rewrite (elsewhere_vouched _ _ _ r) in He by (eapply (so_vouched _ _ _ _ _ _ S'); exact Hr). discriminate.
Qed.

Lemma stored_ok c known qss i s qs x qs' : shards_ok c known qss -> ch_shards c !! i = Some s -> qss !! i = Some qs ->
  one_ok known (len (ch_shards c)) (Z.of_nat i) (total entries_of (ch_shards c) - entries_of s) (total resident_of (ch_shards c) - resident_of s) (others known (len (ch_shards c)) (Z.of_nat i) (ch_resident c)) x qs' ->
  fits x qs' -> ps_policy (ps_state (sh_policy (lk_shard x))) = ch_policy c -> shards_ok (stored c i x) known (<[i := qs']> qss).
Proof.
  intros A Hs Hq S' F' Hp. pose proof (others_stored c known i s x qs' S') as Ho. assert (Hi : (i < length (ch_shards c))%nat) by (eapply lookup_lt_Some; exact Hs).
  assert (Hlen : len (ch_shards (stored c i x)) = len (ch_shards c)) by (unfold len; cbn; rewrite length_insert; reflexivity).
  constructor; [cbn; rewrite !length_insert; apply (sa_len _ _ _ A) | cbn; rewrite length_insert; lia | apply (sa_known _ _ _ A)|].
  intros j sj qj Hj Hqj. unfold shard_at. rewrite Hlen. cbn [ch_shards stored ch_resident ch_policy]. rewrite !(total_insert _ _ _ _ (lk_shard x) Hs). destruct (stored_lookup c i x j sj Hi Hj) as [[<- ->]|[Hne Hj']].
  - rewrite list_lookup_insert_eq in Hqj by (rewrite (sa_len _ _ _ A); exact Hi). injection Hqj as <-. split; [|split; [exact F' | exact Hp]]. rewrite Ho. eapply shard_ok_shared; [exact S' | reflexivity | apply (so_resident _ _ _ _ _ _ S') | |].
    + cbn [lk_counters lock stored ch_counters]. rewrite (so_entries _ _ _ _ _ _ S'). f_equal. unfold entries_of. cbn. lia.
    + cbn [lk_counters lock stored ch_counters]. rewrite (so_total _ _ _ _ _ _ S'). f_equal. unfold resident_of. cbn. lia.
  - rewrite list_lookup_insert_ne in Hqj by exact Hne. destruct (sa_each _ _ _ A j sj qj Hj' Hqj) as (Sj & Fj & Pj). split; [|split; [exact Fj | exact Pj]]. eapply shard_ok_shared; [exact Sj | reflexivity | | |].
    + intros rid. cbn [lk_resident lock stored ch_resident]. rewrite elem_of_others, (so_resident _ _ _ _ _ _ S' rid), elem_of_others. split.
      * intros Hin. destruct (elsewhere known (len (ch_shards c)) (Z.of_nat j) rid) eqn:Ej; [left; tauto|]. right. destruct (elsewhere_false _ _ _ _ Ej) as (r0 & Hk & Hh).
        assert (Hv : vouched known (len (ch_shards c)) (Z.of_nat j) r0) by (split; [rewrite (proj1 (sa_known _ _ _ A _ _ Hk)); exact Hk | exact Hh]). destruct Hin as [[_ Hin]|(id & r & Hr & <-)].
        -- apply (so_resident _ _ _ _ _ _ Sj) in Hin as [Hin|Hin]; [apply elem_of_others in Hin as [Hx _]; rewrite Ej in Hx; discriminate | exact Hin].
        -- exfalso. pose proof (so_vouched _ _ _ _ _ _ S' id r Hr) as [Hk' Hh']. assert (r = r0) as -> by congruence. apply Hne. lia.
      * intros [[Ej Hin]|(id & r & Hr & <-)]; [exact Hin|]. left. pose proof (so_vouched _ _ _ _ _ _ Sj id r Hr) as Hv. split; [eapply elsewhere_other; [exact Hv | lia]|]. apply (so_resident _ _ _ _ _ _ Sj). eauto.
    + cbn [lk_counters lock stored ch_counters]. rewrite (so_entries _ _ _ _ _ _ S'). f_equal. unfold entries_of. cbn. lia.
    + cbn [lk_counters lock stored ch_counters]. rewrite (so_total _ _ _ _ _ _ S'). f_equal. unfold resident_of. cbn. lia.
Qed.

(** The shared state seen from any shard. *)
Lemma shared_ok c known qss : shards_ok c known qss -> ct_entries (ch_counters c) = wrap64 (total entries_of (ch_shards c)) /\ ct_resident (ch_counters c) = wrap64 (total resident_of (ch_shards c)).
Proof.
  intros A. pose proof (sa_some _ _ _ A). destruct (lookup_lt_is_Some_2 (ch_shards c) 0) as [s Hs]; [lia|]. destruct (shards_queues c known qss 0 s A Hs) as (qs & Hq & S & _). pose proof (so_entries _ _ _ _ _ _ S) as He. pose proof (so_total _ _ _ _ _ _ S) as Hw. cbn in He, Hw. rewrite He, Hw. unfold entries_of, resident_of. split; f_equal; lia.
Qed.

(** Only the shard states, the flags and the shared totals matter. *)
Lemma shards_ok_same c c' known qss : shards_ok c known qss -> ch_config c' = ch_config c -> ch_policy c' = ch_policy c -> ch_shards c' = ch_shards c -> ch_resident c' = ch_resident c ->
  ct_entries (ch_counters c') = ct_entries (ch_counters c) -> ct_resident (ch_counters c') = ct_resident (ch_counters c) -> shards_ok c' known qss.
Proof.
  intros [A1 A2 A3 A4] H1 H2 H3 H4 H5 H6. constructor; rewrite ?H1, ?H3; try assumption. intros i s qs Hs Hq. destruct (A4 i s qs Hs Hq) as (S & F & P). unfold shard_at. rewrite H2, H3, H4. split; [|split; [exact F | exact P]].
  eapply shard_ok_shared; [exact S | reflexivity | | |]; cbn; rewrite ?H4, ?H5, ?H6; [apply (so_resident _ _ _ _ _ _ S) | apply (so_entries _ _ _ _ _ _ S) | apply (so_total _ _ _ _ _ _ S)].
Qed.

Lemma shards_ok_grow c known qss id r : shards_ok c known qss -> known !! id = None -> (forall rid, rid ∈ ch_resident c -> is_Some (known !! rid)) -> rc_id r = id -> rc_hash r = cf_hash (ch_config c) (rc_key r) -> 1 <= rc_weight r -> shards_ok c (<[id := r]> known) qss.
Proof.
  intros [A1 A2 A3 A4] Hnew Hres Hid Hh Hw. constructor; try assumption; [intros j r' Hj; destruct (decide (id = j)) as [<-|Hne]; [rewrite lookup_insert_eq in Hj; injection Hj as <-; auto | rewrite lookup_insert_ne in Hj by exact Hne; auto]|].
  intros i s qs Hs Hq. destruct (A4 i s qs Hs Hq) as (S & F & P). split; [|split; [exact F | exact P]].
  assert (Ho : others (<[id := r]> known) (len (ch_shards c)) (Z.of_nat i) (ch_resident c) = others known (len (ch_shards c)) (Z.of_nat i) (ch_resident c)).
  { apply set_eq. intros rid. rewrite !elem_of_others. split; intros [He Hin]; (split; [|exact Hin]); unfold elsewhere in *; destruct (Hres rid Hin) as [r0 Hr0]; (assert (id <> rid) by congruence); rewrite lookup_insert_ne in * by assumption; exact He. }
  rewrite Ho. eapply shard_ok_weaken; [|exact S]. intros r' [Hk Hm]. split; [|exact Hm]. rewrite lookup_insert_ne by congruence. exact Hk.
Qed.
End Shards.
