(* ===== verification/MemMachine.v ===== *)
(** * The memory cache as a machine

    The events are the steps of moat-cache-memory inside its locks, in any
    order and on behalf of any number of threads: what a thread holds between
    two locks (a prepared version, a change not yet notified, a handle, a drop
    that must still release) is part of the world. The world also remembers
    every version made and, per key, the version last committed. *)

From stdpp Require Import gmap.
From S2P Require Import Prelude PoolLinks MemPolicy MemLists MemPolicyProofs MemCache MemShard MemInv.

Section Machine.
Context {K V T : Type} `{EqDecision K, HashTable T}.
Abbreviation MemRecord := (@MemRecord K V).
Abbreviation Entry := (@Entry K V).
Abbreviation Cache := (@Cache K V T).

Record World := {
  w_cache : Cache;
  w_prepared : list (Entry * bool);
  w_changes : list (@Retired K V);
  w_handles : list Entry;
  w_pending : list MemRecord;
  w_resizing : option (Z * nat);
  w_known : gmap Z MemRecord;
  w_latest : K -> option Z
}.

(** The slab's choices ([slot], [ids]) and an allocation's identity ([id]) are
    part of an event. *)
Inductive Event :=
| EPrepare (id : Z) (key : K) (value : V) (priority : Priority)
| EReject (i : nat)
| ECommit (i : nat) (slot : Z)
| EPromote (i : nat) (slot : Z)
| EAbandon (i : nat)
| EGet (key : K)
| ERemove (key : K)
| EClear (shard : nat) (ids : list Z)
| EResize (capacity : Z)
| EResizeShard
| EFinish (i : nat)
| EDrop (i : nat)
| ERelease (i : nat).

Definition set_latest (f : K -> option Z) (key : K) (v : option Z) : K -> option Z := fun k => if decide (k = key) then v else f k.

(** The entry of a hit, of an insertion or of a removal, and the next world. *)
Definition step (w : World) (e : Event) : steps (option Entry * World) :=
  let c := w_cache w in
  match e with
  | EPrepare id key value priority =>
      let? ((entry, admitted), c) := prepare c id key value priority in
      Ok (None, {| w_cache := c; w_prepared := w_prepared w ++ [(entry, admitted)]; w_changes := w_changes w; w_handles := w_handles w; w_pending := w_pending w; w_resizing := w_resizing w;
                   w_known := <[id := en_record entry]> (w_known w); w_latest := w_latest w |})
  | EReject i =>
      let? (entry, _) := expect (w_prepared w !! i) in
      Ok (None, {| w_cache := c; w_prepared := <[i := (entry, false)]> (w_prepared w); w_changes := w_changes w; w_handles := w_handles w; w_pending := w_pending w; w_resizing := w_resizing w; w_known := w_known w; w_latest := w_latest w |})
  | ECommit i slot =>
      let? (entry, admitted) := expect (w_prepared w !! i) in
      let? (removed, c) := commit_entry c slot entry admitted in
      Ok (Some entry, {| w_cache := c; w_prepared := delete i (w_prepared w); w_changes := w_changes w ++ [removed]; w_handles := w_handles w ++ [entry]; w_pending := w_pending w; w_resizing := w_resizing w; w_known := w_known w;
                         w_latest := set_latest (w_latest w) (rc_key (en_record entry)) (Some (rc_id (en_record entry))) |})
  | EPromote i slot =>
      let? (entry, admitted) := expect (w_prepared w !! i) in
      let? (removed, c) := promote c slot entry admitted in
      Ok (Some entry, {| w_cache := c; w_prepared := delete i (w_prepared w); w_changes := w_changes w ++ [removed]; w_handles := w_handles w ++ [entry]; w_pending := w_pending w; w_resizing := w_resizing w; w_known := w_known w;
                         w_latest := if admitted then set_latest (w_latest w) (rc_key (en_record entry)) (Some (rc_id (en_record entry))) else w_latest w |})
  | EAbandon i =>
      let? (entry, _) := expect (w_prepared w !! i) in
      Ok (None, {| w_cache := c; w_prepared := delete i (w_prepared w); w_changes := w_changes w; w_handles := w_handles w ++ [entry]; w_pending := w_pending w; w_resizing := w_resizing w; w_known := w_known w; w_latest := w_latest w |})
  | EGet key =>
      let? (entry, c) := get_entry c key in
      Ok (entry, {| w_cache := c; w_prepared := w_prepared w; w_changes := w_changes w; w_handles := w_handles w ++ (match entry with Some e => [e] | None => [] end); w_pending := w_pending w; w_resizing := w_resizing w; w_known := w_known w; w_latest := w_latest w |})
  | ERemove key =>
      let? ((entry, removed), c) := remove_deferred c key in
      Ok (entry, {| w_cache := c; w_prepared := w_prepared w; w_changes := w_changes w ++ [removed]; w_handles := w_handles w ++ (match entry with Some e => [e] | None => [] end); w_pending := w_pending w; w_resizing := w_resizing w; w_known := w_known w;
                    w_latest := set_latest (w_latest w) key None |})
  | EClear shard ids =>
      let? (removed, c) := clear_shard c (Z.of_nat shard) ids in
      Ok (None, {| w_cache := c; w_prepared := w_prepared w; w_changes := w_changes w ++ [removed]; w_handles := w_handles w; w_pending := w_pending w; w_resizing := w_resizing w; w_known := w_known w;
                   w_latest := fun k => if shard_of c (cf_hash (ch_config c) k) =? Z.of_nat shard then None else w_latest w k |})
  | EResize capacity =>
      match w_resizing w with
      | Some _ => Panic
      | None => Ok (None, {| w_cache := c; w_prepared := w_prepared w; w_changes := w_changes w; w_handles := w_handles w; w_pending := w_pending w; w_resizing := Some (capacity, 0%nat); w_known := w_known w; w_latest := w_latest w |})
      end
  | EResizeShard =>
      let? (capacity, i) := expect (w_resizing w) in
      if Z.of_nat i <? len (ch_shards c) then
        let? (removed, c) := resize_shard c (Z.of_nat i) capacity in
        Ok (None, {| w_cache := c; w_prepared := w_prepared w; w_changes := w_changes w ++ [removed]; w_handles := w_handles w; w_pending := w_pending w; w_resizing := Some (capacity, S i); w_known := w_known w; w_latest := w_latest w |})
      else Ok (None, {| w_cache := ch_set_capacity capacity c; w_prepared := w_prepared w; w_changes := w_changes w; w_handles := w_handles w; w_pending := w_pending w; w_resizing := None; w_known := w_known w; w_latest := w_latest w |})
  | EFinish i =>
      let? removed := expect (w_changes w !! i) in
      let? (notices, c) := dispatch c removed in
      Ok (None, {| w_cache := c; w_prepared := w_prepared w; w_changes := delete i (w_changes w); w_handles := w_handles w ++ map fst notices; w_pending := w_pending w; w_resizing := w_resizing w; w_known := w_known w; w_latest := w_latest w |})
  | EDrop i =>
      let? entry := expect (w_handles w !! i) in
      let (must_release, c) := drop_entry c entry in
      Ok (None, {| w_cache := c; w_prepared := w_prepared w; w_changes := w_changes w; w_handles := delete i (w_handles w); w_pending := if must_release then en_record entry :: w_pending w else w_pending w; w_resizing := w_resizing w;
                   w_known := w_known w; w_latest := w_latest w |})
  | ERelease i =>
      let? record := expect (w_pending w !! i) in
      let? (removed, c) := release c record in
      Ok (None, {| w_cache := c; w_prepared := w_prepared w; w_changes := w_changes w ++ [removed]; w_handles := w_handles w; w_pending := delete i (w_pending w); w_resizing := w_resizing w; w_known := w_known w; w_latest := w_latest w |})
  end.

Definition start (c : Cache) : World :=
  {| w_cache := c; w_prepared := []; w_changes := []; w_handles := []; w_pending := []; w_resizing := None; w_known := ∅; w_latest := fun _ => None |}.

(** ** What the environment may do *)

Definition shard_nodes (w : World) (i : Z) : gmap Z (@Node K V) := match ch_shards (w_cache w) !! Z.to_nat i with Some s => sh_nodes s | None => ∅ end.

(** An allocation is new; the slab gives a vacant key, or that of the version
    just replaced; its iterator yields each key once. *)
Definition slot_fits (w : World) (i : nat) (slot : Z) : Prop :=
  match w_prepared w !! i with
  | Some (e, _) => forall n, shard_nodes w (shard_of (w_cache w) (rc_hash (en_record e))) !! slot = Some n -> rc_key (nd_record n) = rc_key (en_record e)
  | None => False
  end.

Definition event_fits (w : World) (e : Event) : Prop :=
  match e with
  | EPrepare id _ _ _ => w_known w !! id = None
  | EReject i | EAbandon i => (i < length (w_prepared w))%nat
  | ECommit i slot | EPromote i slot => slot_fits w i slot
  | EGet _ | ERemove _ => True
  | EClear shard ids => (shard < length (ch_shards (w_cache w)))%nat /\ NoDup ids /\ forall id, id ∈ ids <-> is_Some (shard_nodes w (Z.of_nat shard) !! id)
  | EResize capacity => w_resizing w = None /\ 0 <= capacity < 2 ^ 64
  | EResizeShard => is_Some (w_resizing w)
  | EFinish i => (i < length (w_changes w))%nat
  | EDrop i => (i < length (w_handles w))%nat
  | ERelease i => (i < length (w_pending w))%nat
  end.

Inductive run : World -> list Event -> World -> Prop :=
| run_nil w : run w [] w
| run_cons w e es w' w'' : event_fits w e -> (exists o, step w e = Ok (o, w')) -> run w' es w'' -> run w (e :: es) w''.
End Machine.

(** ** The invariant of the memory cache's machine

    Reference counts are the live handles; what has been removed never comes
    back; an LRU version stays pinned only while a handle to it lives or its
    release is under way; and a resident version is the last one committed
    under its key. *)

(** ** Live handles *)

Section Handles.
Context {K V : Type}.
Abbreviation Entry := (@Entry K V).

Definition held (rid : Z) (l : list Entry) : Z := foldr (fun e n => (if decide (rc_id (en_record e) = rid) then 1 else 0) + n) 0 l.

Lemma held_app rid a b : held rid (a ++ b) = held rid a + held rid b.
Proof. unfold held. induction a as [|e a IH]; cbn [foldr app]; [reflexivity | lia]. Qed.
Lemma held_nonneg rid l : 0 <= held rid l.
Proof. unfold held. induction l as [|e l IH]; cbn [foldr]; [lia | case_decide; lia]. Qed.
Lemma held_reorder rid l l' : Permutation l l' -> held rid l = held rid l'.
Proof. unfold held. induction 1; cbn [foldr]; lia. Qed.
Lemma held_in e l : e ∈ l -> 0 < held (rc_id (en_record e)) l.
Proof. intros Hin. apply list_elem_of_split in Hin as (a & b & ->). rewrite held_app. pose proof (held_nonneg (rc_id (en_record e)) a). pose proof (held_nonneg (rc_id (en_record e)) b). unfold held in *. cbn [foldr]. rewrite decide_True by reflexivity. lia. Qed.
Lemma held_cons rid e l : held rid (e :: l) = held rid [e] + held rid l.
Proof. apply (held_app rid [e] l). Qed.
Lemma held_one rid e : held rid [e] = if decide (rc_id (en_record e) = rid) then 1 else 0.
Proof. unfold held. cbn [foldr]. case_decide; reflexivity. Qed.

Definition pids (prepared : list (Entry * bool)) : list Z := map (fun e => rc_id (en_record e.1)) prepared.

Record life (known : gmap Z (@MemRecord K V)) (rel : bool) (resident : gset Z) (prepared : list (Entry * bool)) (changes : list (@Retired K V)) (handles : list Entry) (pending : list (@MemRecord K V)) : Prop := {
  lf_resident : forall rid, rid ∈ resident -> is_Some (known !! rid);
  lf_live : forall e, e ∈ map fst prepared ++ handles -> known !! rc_id (en_record e) = Some (en_record e);
  lf_pending : forall r, r ∈ pending -> known !! rc_id r = Some r;
  lf_prepared : NoDup (pids prepared);
  lf_outside : forall rid, rid ∈ pids prepared -> rid ∉ resident;
  lf_flag : forall e, e ∈ map fst prepared -> en_release e = rel;
  lf_changes : forall g r why, g ∈ changes -> (r, why) ∈ g -> known !! rc_id r = Some r /\ (rc_id r ∉ resident) /\ rc_id r ∉ pids prepared;
  lf_handles : forall e, e ∈ handles -> en_release e = rel \/ (rc_id (en_record e) ∉ resident) /\ rc_id (en_record e) ∉ pids prepared
}.

Lemma life_subset known rel R R' p ch h pe : life known rel R p ch h pe -> R' ⊆ R -> life known rel R' p ch h pe.
Proof.
  intros [L1 L2 L3 L4 L5 L6 L7 L8] Hs. assert (Hout : forall rid, rid ∉ R -> rid ∉ R') by (intros rid Hn Hin; apply Hn; apply Hs; exact Hin). constructor; auto.
  - intros g r why Hg Hr. destruct (L7 g r why Hg Hr) as (A & B & C). auto.
  - intros e He. destruct (L8 e He) as [?|[A B]]; auto.
Qed.

Lemma life_change known rel R p ch h pe g : life known rel R p ch h pe -> (forall r why, (r, why) ∈ g -> known !! rc_id r = Some r /\ (rc_id r ∉ R) /\ rc_id r ∉ pids p) -> life known rel R p (ch ++ [g]) h pe.
Proof. intros [L1 L2 L3 L4 L5 L6 L7 L8] Hg. constructor; auto. intros g' r why Hin Hr. apply elem_of_app in Hin as [Hin|Hin]; [eauto|]. apply list_elem_of_singleton in Hin. subst g'. eauto. Qed.

Lemma delete_sub {A} (l : list A) i y : y ∈ delete i l -> y ∈ l.
Proof. rewrite delete_take_drop. intros Hr. rewrite <- (take_drop i l). apply elem_of_app in Hr as [Hr|Hr]; apply elem_of_app; [auto|]. right. destruct (drop i l) as [|z d] eqn:Hd; replace (S i) with (i + 1)%nat in Hr by lia; rewrite <- drop_drop, Hd in Hr; [exact Hr | right; exact Hr]. Qed.

Lemma life_unpend known rel R p ch h pe i : life known rel R p ch h pe -> life known rel R p ch h (delete i pe).
Proof. intros [L1 L2 L3 L4 L5 L6 L7 L8]. constructor; auto. intros r Hr. apply L3. eapply delete_sub. exact Hr. Qed.

Lemma life_handle known rel R p ch h pe e : life known rel R p ch h pe -> known !! rc_id (en_record e) = Some (en_record e) -> (en_release e = rel \/ (rc_id (en_record e) ∉ R) /\ rc_id (en_record e) ∉ pids p) -> life known rel R p ch (h ++ [e]) pe.
Proof.
  intros [L1 L2 L3 L4 L5 L6 L7 L8] Hk He. constructor; auto.
  - intros e' Hin. rewrite app_assoc in Hin. apply elem_of_app in Hin as [Hin|Hin]; [auto|]. apply list_elem_of_singleton in Hin. subst e'. exact Hk.
  - intros e' Hin. apply elem_of_app in Hin as [Hin|Hin]; [auto|]. apply list_elem_of_singleton in Hin. subst e'. exact He.
Qed.

(** A prepared version leaves the preparation for a handle. *)
Lemma life_unprepare known rel R p ch h pe i e a : life known rel R p ch h pe -> p !! i = Some (e, a) -> life known rel R (delete i p) ch (h ++ [e]) pe /\ rc_id (en_record e) ∉ pids (delete i p).
Proof.
  intros L Hi. pose proof (delete_Permutation p i (e, a) Hi) as Hp. assert (Hpids : Permutation (pids p) (rc_id (en_record e) :: pids (delete i p))) by (unfold pids; rewrite Hp at 1; reflexivity).
  destruct L as [L1 L2 L3 L4 L5 L6 L7 L8]. rewrite Hpids in L4. apply NoDup_cons in L4 as [L4a L4b]. split; [|exact L4a]. assert (Hin : forall rid, rid ∈ pids (delete i p) -> rid ∈ pids p) by (intros rid Hr; rewrite Hpids; right; exact Hr).
  assert (Hnot : forall rid, rid ∉ pids p -> rid ∉ pids (delete i p)) by (intros rid Hn Hd; apply Hn, Hin, Hd). assert (He : e ∈ map fst p) by (apply list_elem_of_fmap; exists (e, a); split; [reflexivity | eapply list_elem_of_lookup_2; exact Hi]). constructor; auto.
  - intros e' He'. apply L2. rewrite app_assoc in He'. apply elem_of_app in He' as [He'|He']; [|apply list_elem_of_singleton in He'; subst e'; apply elem_of_app; auto]. apply elem_of_app in He' as [He'|He']; apply elem_of_app; [left|auto]. apply list_elem_of_fmap in He' as (y & -> & Hy). apply list_elem_of_fmap. exists y. split; [reflexivity | eapply delete_sub; exact Hy].
  - intros e' He'. apply L6. apply list_elem_of_fmap in He' as (y & -> & Hy). apply list_elem_of_fmap. exists y. split; [reflexivity | eapply delete_sub; exact Hy].
  - intros g r why Hg Hr. destruct (L7 g r why Hg Hr) as (A & B & C). auto.
  - intros e' He'. apply elem_of_app in He' as [He'|He']; [destruct (L8 e' He') as [?|[? ?]]; auto|]. apply list_elem_of_singleton in He'. subst e'. left. auto.
Qed.

(** A prepared version may become resident. *)
Lemma life_commit known rel R R' p ch h pe i e a : life known rel R p ch h pe -> p !! i = Some (e, a) -> R' ⊆ {[rc_id (en_record e)]} ∪ R -> life known rel R' (delete i p) ch (h ++ [e]) pe.
Proof.
  intros L Hi Hsub. destruct (life_unprepare _ _ _ _ _ _ _ i e a L Hi) as [[M1 M2 M3 M4 M5 M6 M7 M8] Hnp]. pose proof L as [L1 L2 L3 L4 L5 L6 L7 L8].
  assert (He : rc_id (en_record e) ∈ pids p) by (apply list_elem_of_fmap; exists (e, a); split; [reflexivity | eapply list_elem_of_lookup_2; exact Hi]).
  assert (Hout : forall rid, rid ∉ R -> rid <> rc_id (en_record e) -> rid ∉ R') by (intros rid Hn Hne Hin; specialize (Hsub rid Hin); apply elem_of_union in Hsub as [Hx|Hx]; [apply elem_of_singleton in Hx; contradiction | contradiction]).
  constructor; auto.
  - intros rid Hin. specialize (Hsub rid Hin). apply elem_of_union in Hsub as [Hx|Hx]; [|auto]. apply elem_of_singleton in Hx. subst rid. rewrite (M2 e); [eauto|]. apply elem_of_app. right. apply elem_of_app. right. left.
  - intros rid Hin. apply Hout; [auto | intros ->; contradiction].
  - intros g r why Hg Hr. destruct (L7 g r why Hg Hr) as (A & B & C). destruct (M7 g r why Hg Hr) as (_ & _ & D). split; [exact A|]. split; [|exact D]. apply Hout; [exact B | intros Hx; rewrite Hx in C; contradiction].
  - intros e' He'. apply elem_of_app in He' as [He'|He']; [|apply list_elem_of_singleton in He'; subst e'; left; apply L6; apply list_elem_of_fmap; exists (e, a); split; [reflexivity | eapply list_elem_of_lookup_2; exact Hi]].
    destruct (L8 e' He') as [?|[A B]]; [auto|]. right. split; [apply Hout; [exact A | intros Hx; rewrite Hx in B; contradiction]|]. intros Hd. apply B. apply list_elem_of_fmap in Hd as (y & -> & Hy). apply list_elem_of_fmap. exists y. split; [reflexivity | eapply delete_sub; exact Hy].
Qed.

Lemma life_prepared known rel R (p p' : list (Entry * bool)) ch h pe : life known rel R p ch h pe -> map fst p' = map fst p -> life known rel R p' ch h pe.
Proof.
  intros [L1 L2 L3 L4 L5 L6 L7 L8] Hm. assert (Hp : pids p' = pids p).
  { unfold pids. transitivity (map (fun e => rc_id (en_record e)) (map fst p')); [rewrite map_map; reflexivity|]. rewrite Hm, map_map. reflexivity. }
  constructor; rewrite ?Hm, ?Hp; assumption.
Qed.

Lemma life_drop known rel R p ch h pe i : life known rel R p ch h pe -> life known rel R p ch (delete i h) pe.
Proof.
  intros [L1 L2 L3 L4 L5 L6 L7 L8]. constructor; auto; [intros e He; apply L2; apply elem_of_app in He as [He|He]; apply elem_of_app; [auto | right; eapply delete_sub; exact He] | intros e He; apply L8; eapply delete_sub; exact He].
Qed.
Lemma life_finish known rel R p ch h pe i : life known rel R p ch h pe -> life known rel R p (delete i ch) h pe.
Proof. intros [L1 L2 L3 L4 L5 L6 L7 L8]. constructor; auto. intros g r why Hg. apply L7. eapply delete_sub. exact Hg. Qed.
End Handles.

Section Invariant.
Context {K V T : Type} `{EqDecision K, HashTableLaws T}.
Abbreviation MemRecord := (@MemRecord K V).
Abbreviation Cache := (@Cache K V T).
Abbreviation World := (@World K V T).
Implicit Types (c : Cache) (w : World) (r : MemRecord).

Definition live w : list Entry := map fst (w_prepared w) ++ w_handles w.
Definition all_pinned c (qss : list (list (list Z))) (Q : MemRecord -> Prop) : Prop := forall i s qs r, ch_shards c !! i = Some s -> qss !! i = Some qs -> pinned (lock c s) qs r -> Q r.
Definition all_stored c (Q : MemRecord -> Prop) : Prop := forall i s id r, ch_shards c !! i = Some s -> recs (lock c s) id = Some r -> Q r.

(** The capacity a shard follows while a resize is under way. *)
Definition target w (i : nat) : Z := match w_resizing w with Some (capacity, j) => if (i <? j)%nat then capacity else ch_capacity (w_cache w) | None => ch_capacity (w_cache w) end.

Record limits w : Prop := {
  lm_shards : forall i s, ch_shards (w_cache w) !! i = Some s -> sh_capacity s = partition (target w i) (len (ch_shards (w_cache w))) (Z.of_nat i);
  lm_capacity : 0 <= ch_capacity (w_cache w);
  lm_resizing : forall capacity j, w_resizing w = Some (capacity, j) -> 0 <= capacity /\ (j <= length (ch_shards (w_cache w)))%nat
}.

Record inv w (qss : list (list (list Z))) : Prop := {
  iv_shards : shards_ok (w_cache w) (w_known w) qss;
  iv_local : length (ct_local (ch_counters (w_cache w))) = length (ch_shards (w_cache w));
  iv_books : forall rid, default 0 (ch_references (w_cache w) !! rid) = held rid (live w);
  iv_life : life (w_known w) (ch_release (w_cache w)) (ch_resident (w_cache w)) (w_prepared w) (w_changes w) (w_handles w) (w_pending w);
  iv_pins : ch_release (w_cache w) = true -> all_pinned (w_cache w) qss (fun r => 0 < held (rc_id r) (live w) \/ r ∈ w_pending w);
  iv_latest : all_stored (w_cache w) (fun r => w_latest w (rc_key r) = Some (rc_id r));
  iv_limits : limits w
}.

(** ** One shard changes *)

Lemma all_pinned_stored c qss i s x qs' (Q Q' : MemRecord -> Prop) : ch_shards c !! i = Some s -> length qss = length (ch_shards c) -> all_pinned c qss Q -> (forall j sj qj r, i <> j -> ch_shards c !! j = Some sj -> qss !! j = Some qj -> pinned (lock c sj) qj r -> Q r -> Q' r) -> (forall r, pinned x qs' r -> Q' r) -> all_pinned (stored c i x) (<[i := qs']> qss) Q'.
Proof.
  intros Hs Hl Ha HQ Hx j sj qj r Hj Hq Hp. assert (Hi : (i < length (ch_shards c))%nat) by (eapply lookup_lt_Some; exact Hs). destruct (stored_lookup c i x j sj Hi Hj) as [[<- ->]|[Hne Hj']].
  - rewrite list_lookup_insert_eq in Hq by lia. injection Hq as <-. apply Hx. exact Hp.
  - rewrite list_lookup_insert_ne in Hq by exact Hne. eapply HQ; [exact Hne | exact Hj' | exact Hq | exact Hp | eapply Ha; [exact Hj' | exact Hq | exact Hp]].
Qed.

Lemma all_stored_stored c i s x (Q Q' : MemRecord -> Prop) : ch_shards c !! i = Some s -> all_stored c Q -> (forall j sj id r, i <> j -> ch_shards c !! j = Some sj -> recs (lock c sj) id = Some r -> Q r -> Q' r) -> (forall id r, recs x id = Some r -> Q' r) -> all_stored (stored c i x) Q'.
Proof.
  intros Hs Ha HQ Hx j sj id r Hj Hr. assert (Hi : (i < length (ch_shards c))%nat) by (eapply lookup_lt_Some; exact Hs). destruct (stored_lookup c i x j sj Hi Hj) as [[<- ->]|[Hne Hj']]; [eapply Hx; exact Hr | eapply HQ; [exact Hne | exact Hj' | exact Hr | eapply Ha; [exact Hj' | exact Hr]]].
Qed.

Lemma limits_stored w i s x w' : ch_shards (w_cache w) !! i = Some s -> limits w -> w_cache w' = stored (w_cache w) i x -> w_resizing w' = w_resizing w -> sh_capacity (lk_shard x) = sh_capacity s -> limits w'.
Proof.
  intros Hs [L1 L2 L3] Hc Hr Hcap. assert (Hi : (i < length (ch_shards (w_cache w)))%nat) by (eapply lookup_lt_Some; exact Hs). constructor; rewrite ?Hc, ?Hr; cbn [ch_shards stored ch_capacity]; rewrite ?length_insert; auto.
  intros j sj Hj. unfold target. rewrite Hr, Hc. cbn [ch_capacity stored]. unfold len. rewrite length_insert. fold (target w j). change (Z.of_nat (length (ch_shards (w_cache w)))) with (len (ch_shards (w_cache w))). destruct (stored_lookup _ i x j sj Hi) as [[<- ->]|[Hne Hj']]; [exact Hj | rewrite Hcap; apply L1; exact Hs | apply L1; exact Hj'].
Qed.

Lemma home_shard w qss h : inv w qss -> exists i s qs, shard_of (w_cache w) h = Z.of_nat i /\ ch_shards (w_cache w) !! i = Some s /\ qss !! i = Some qs /\ shard_at (w_cache w) (w_known w) i s qs.
Proof.
  intros I. pose proof (sa_some _ _ _ (iv_shards _ _ I)) as Hn. set (c := w_cache w) in *. assert (Hr : 0 <= shard_of c h < len (ch_shards c)) by (apply Z.mod_pos_bound; unfold len; lia). destruct (lookup_lt_is_Some_2 (ch_shards c) (Z.to_nat (shard_of c h))) as [s Hs]; [unfold len in Hr; lia|].
  destruct (shards_queues c (w_known w) qss _ s (iv_shards _ _ I) Hs) as (qs & Hq & Ha). exists (Z.to_nat (shard_of c h)), s, qs. split; [lia | auto].
Qed.

Lemma is_lru_at w i s qs : shard_at (w_cache w) (w_known w) i s qs -> is_lru (lock (w_cache w) s) = ch_release (w_cache w).
Proof. intros (_ & _ & Hp). unfold is_lru, ch_release. cbn. rewrite Hp. reflexivity. Qed.

(** What a shard's step that only removes versions leaves of the world. *)
Lemma shrink_stored w qss i s qs x qs' gone : inv w qss -> ch_shards (w_cache w) !! i = Some s -> qss !! i = Some qs ->
  one_ok (w_known w) (len (ch_shards (w_cache w))) (Z.of_nat i) (total entries_of (ch_shards (w_cache w)) - entries_of s) (total resident_of (ch_shards (w_cache w)) - resident_of s) (others (w_known w) (len (ch_shards (w_cache w))) (Z.of_nat i) (ch_resident (w_cache w))) x qs' ->
  fits x qs' -> shrink (lock (w_cache w) s) qs x qs' gone ->
  shards_ok (stored (w_cache w) i x) (w_known w) (<[i := qs']> qss) /\ length (ct_local (lk_counters x)) = length (<[i := lk_shard x]> (ch_shards (w_cache w))) /\
  life (w_known w) (ch_release (w_cache w)) (lk_resident x) (w_prepared w) (w_changes w ++ [gone]) (w_handles w) (w_pending w) /\
  (ch_release (w_cache w) = true -> all_pinned (stored (w_cache w) i x) (<[i := qs']> qss) (fun r => 0 < held (rc_id r) (live w) \/ r ∈ w_pending w)) /\
  all_stored (stored (w_cache w) i x) (fun r => w_latest w (rc_key r) = Some (rc_id r)).
Proof.
  intros I Hs Hq S' F' Sk. pose proof (iv_shards _ _ I) as A. pose proof (sa_each _ _ _ A i s qs Hs Hq) as At. pose proof At as (S & F & P). pose proof (is_lru_at w i s qs At) as Hlru. split; [|split; [|split; [|split]]].
  - eapply stored_ok; try eassumption. rewrite (sk_policy _ _ _ _ _ Sk). exact P.
  - rewrite (proj1 (sk_counters _ _ _ _ _ Sk)), length_insert. apply (iv_local _ _ I).
  - apply life_change; [eapply life_subset; [apply (iv_life _ _ I) | apply (sk_subset _ _ _ _ _ Sk)]|]. intros r why Hin. destruct (sk_held _ _ _ _ _ Sk r why Hin) as [id Hid]. pose proof (so_vouched _ _ _ _ _ _ S id r Hid) as [Hk _]. split; [exact Hk|].
    assert (Hg : rc_id r ∈ gone_ids gone) by (apply list_elem_of_fmap; exists (r, why); auto). apply (sk_gone _ _ _ _ _ Sk) in Hg as [Hin' Hout]. split; [exact Hout|]. intros Hp. apply (lf_outside _ _ _ _ _ _ _ (iv_life _ _ I) _ Hp). exact Hin'.
  - intros Hrel. eapply all_pinned_stored; [exact Hs | apply (sa_len _ _ _ A) | apply (iv_pins _ _ I Hrel) | auto|]. intros r Hr. apply (iv_pins _ _ I Hrel i s qs r Hs Hq). apply (sk_pins _ _ _ _ _ Sk); [congruence | exact Hr].
  - eapply all_stored_stored; [exact Hs | apply (iv_latest _ _ I) | auto|]. intros id r Hr. eapply (iv_latest _ _ I); [exact Hs | eapply (sk_sub _ _ _ _ _ Sk); exact Hr].
Qed.

(** ** Counters and references *)

Lemma update_local_ok k i f : 0 <= i < len (ct_local k) -> exists k', update_local k i f = Ok k' /\ length (ct_local k') = length (ct_local k) /\ ct_entries k' = ct_entries k /\ ct_resident k' = ct_resident k.
Proof.
  intros Hi. unfold len in Hi. destruct (lookup_lt_is_Some_2 (ct_local k) (Z.to_nat i)) as [l Hl]; [lia|]. unfold update_local. rewrite (index_get_Some _ _ l) by (lia || assumption). cbn [rbind]. rewrite (index_set_Some _ _ l) by (lia || assumption). cbn [rbind].
  eexists. split; [reflexivity|]. cbn. rewrite length_insert. auto.
Qed.

Lemma shard_of_range w qss h : inv w qss -> 0 <= shard_of (w_cache w) h < len (ct_local (ch_counters (w_cache w))).
Proof. intros I. unfold len. rewrite (iv_local _ _ I). pose proof (sa_some _ _ _ (iv_shards _ _ I)). apply Z.mod_pos_bound. unfold len. lia. Qed.

Lemma acquired c r rel rid : default 0 (ch_references (snd (acquire c r rel)) !! rid) = default 0 (ch_references c !! rid) + held rid [fst (acquire c r rel)].
Proof. rewrite held_one. cbn. unfold references. case_decide as Hd; [subst rid; rewrite lookup_insert_eq; reflexivity | rewrite lookup_insert_ne by exact Hd; lia]. Qed.

(** The same shards, flags and capacity. *)
Record same_shards c c' : Prop := {
  ss_config : ch_config c' = ch_config c;
  ss_policy : ch_policy c' = ch_policy c;
  ss_shards : ch_shards c' = ch_shards c;
  ss_capacity : ch_capacity c' = ch_capacity c;
  ss_resident : ch_resident c' = ch_resident c;
  ss_local : length (ct_local (ch_counters c')) = length (ct_local (ch_counters c));
  ss_entries : ct_entries (ch_counters c') = ct_entries (ch_counters c);
  ss_weight : ct_resident (ch_counters c') = ct_resident (ch_counters c)
}.
Lemma same_shards_refl c : same_shards c c.
Proof. constructor; reflexivity. Qed.
Lemma same_shards_trans a b c : same_shards a b -> same_shards b c -> same_shards a c.
Proof. intros [] []. constructor; congruence. Qed.

(** The world around the shards changes. *)
Lemma inv_around w qss w' : inv w qss -> same_shards (w_cache w) (w_cache w') -> w_known w' = w_known w -> w_latest w' = w_latest w -> w_resizing w' = w_resizing w ->
  (forall rid, default 0 (ch_references (w_cache w') !! rid) = held rid (live w')) ->
  life (w_known w) (ch_release (w_cache w)) (ch_resident (w_cache w)) (w_prepared w') (w_changes w') (w_handles w') (w_pending w') ->
  (ch_release (w_cache w) = true -> forall r, w_known w !! rc_id r = Some r -> rc_id r ∈ ch_resident (w_cache w) -> 0 < held (rc_id r) (live w) \/ r ∈ w_pending w -> 0 < held (rc_id r) (live w') \/ r ∈ w_pending w') -> inv w' qss.
Proof.
  intros [I1 I2 I3 I4 I5 I6 [L1 L2 L3]] [C1 C2 C3 C4 C5 C6 C7 C8] Hk Hl Hr Hb Hlife Hpin. assert (Hrel : ch_release (w_cache w') = ch_release (w_cache w)) by (unfold ch_release; rewrite C2; reflexivity). constructor.
  - rewrite Hk. eapply shards_ok_same; eassumption.
  - congruence.
  - exact Hb.
  - rewrite Hk, Hrel, C5. exact Hlife.
  - rewrite Hrel. intros Ht i s qs r Hs Hq Hp. rewrite C3 in Hs. destruct (sa_each _ _ _ I1 i s qs Hs Hq) as (S & _). pose proof Hp as (id & _ & Hid). apply (Hpin Ht r); [apply (so_vouched _ _ _ _ _ _ S id r Hid) | apply (so_resident _ _ _ _ _ _ S); right; exists id, r; auto | eapply (I5 Ht i s qs r Hs Hq); exact Hp].
  - intros i s id r Hs Hr'. rewrite C3 in Hs. rewrite Hl. eapply I6; [exact Hs | exact Hr'].
  - constructor; rewrite ?C3, ?C4, ?Hr; auto. intros i s Hs. unfold target. rewrite Hr, C4. apply L1. exact Hs.
Qed.

Lemma held_live_delete w i e a rid : w_prepared w !! i = Some (e, a) -> held rid (map fst (delete i (w_prepared w)) ++ w_handles w ++ [e]) = held rid (live w).
Proof.
  intros Hi. unfold live. rewrite !held_app, held_one. pose proof (delete_Permutation (w_prepared w) i (e, a) Hi) as Hp. rewrite (held_reorder rid (map fst (w_prepared w)) (e :: map fst (delete i (w_prepared w)))) by (rewrite Hp at 1; reflexivity).
  rewrite (held_cons rid e), held_one. lia.
Qed.

(** ** Events that leave the shards alone *)

Ltac world_fields := cbn [w_cache w_prepared w_changes w_handles w_pending w_resizing w_known w_latest].

Lemma step_reject w qss i : inv w qss -> event_fits w (EReject i) -> exists o w' qss', step w (EReject i) = Ok (o, w') /\ inv w' qss'.
Proof.
  intros I Hf. cbn [event_fits] in Hf. destruct (lookup_lt_is_Some_2 _ _ Hf) as [[e a] Hi]. cbn [step]. rewrite Hi. cbn [expect rbind]. eexists _, _, qss. split; [reflexivity|].
  assert (Hm : map fst (<[i := (e, false)]> (w_prepared w)) = map fst (w_prepared w)) by (change (map fst (<[i := (e, false)]> (w_prepared w))) with (fst <$> <[i := (e, false)]> (w_prepared w)); rewrite list_fmap_insert; apply list_insert_id; rewrite list_lookup_fmap, Hi; reflexivity).
  eapply inv_around; [exact I | apply same_shards_refl | reflexivity | reflexivity | reflexivity | | | ].
  - intros rid. unfold live. world_fields. rewrite Hm. apply (iv_books _ _ I).
  - cbn. eapply life_prepared; [apply (iv_life _ _ I) | exact Hm].
  - intros _ r _ _. unfold live. world_fields. rewrite Hm. auto.
Qed.

Lemma step_abandon w qss i : inv w qss -> event_fits w (EAbandon i) -> exists o w' qss', step w (EAbandon i) = Ok (o, w') /\ inv w' qss'.
Proof.
  intros I Hf. cbn [event_fits] in Hf. destruct (lookup_lt_is_Some_2 _ _ Hf) as [[e a] Hi]. cbn [step]. rewrite Hi. cbn [expect rbind]. eexists _, _, qss. split; [reflexivity|].
  eapply inv_around; [exact I | apply same_shards_refl | reflexivity | reflexivity | reflexivity | | | ].
  - intros rid. unfold live at 1. world_fields. rewrite (held_live_delete w i e a rid Hi). apply (iv_books _ _ I).
  - cbn. eapply life_unprepare; [apply (iv_life _ _ I) | exact Hi].
  - intros _ r _ _. unfold live at 2. world_fields. rewrite (held_live_delete w i e a (rc_id r) Hi). auto.
Qed.

Lemma step_drop w qss i : inv w qss -> event_fits w (EDrop i) -> exists o w' qss', step w (EDrop i) = Ok (o, w') /\ inv w' qss'.
Proof.
  intros I Hf. cbn [event_fits] in Hf. destruct (lookup_lt_is_Some_2 _ _ Hf) as [e Hi]. cbn [step]. rewrite Hi. cbn [expect rbind drop_entry]. eexists _, _, qss. split; [reflexivity|].
  pose proof (delete_Permutation (w_handles w) i e Hi) as Hp. assert (Hh : forall rid, held rid (live w) = held rid [e] + held rid (map fst (w_prepared w) ++ delete i (w_handles w))).
  { intros rid. unfold live. rewrite !held_app, (held_reorder rid _ _ Hp), (held_cons rid e (delete _ _)). lia. }
  pose proof (iv_life _ _ I) as L. pose proof (iv_books _ _ I) as B. assert (Hin : e ∈ w_handles w) by (eapply list_elem_of_lookup_2; exact Hi).
  eapply inv_around; [exact I | constructor; reflexivity | reflexivity | reflexivity | reflexivity | | | ].
  - intros rid. unfold live, references. world_fields. cbn [ch_references ch_set_references]. specialize (B rid) as Hb. rewrite Hh, held_one in Hb. case_decide as Hd; [subst rid; rewrite lookup_insert_eq; cbn; lia | rewrite lookup_insert_ne by exact Hd; lia].
  - cbn. destruct (life_drop _ _ _ _ _ _ _ i L) as [L1 L2 L3 L4 L5 L6 L7 L8]. constructor; auto. intros r Hr. destruct (_ && _) in Hr; [|auto]. apply elem_of_cons in Hr as [->|Hr]; [|auto]. apply (lf_live _ _ _ _ _ _ _ L). apply elem_of_app. auto.
  - intros Hrel r Hkr Hres [Hpos|Hpe]; world_fields; [|right; destruct (_ && _); [right; exact Hpe | exact Hpe]]. rewrite Hh, held_one in Hpos. unfold live at 1. world_fields. case_decide as Hd; [|left; lia]. destruct (decide (0 < held (rc_id r) (map fst (w_prepared w) ++ delete i (w_handles w)))) as [?|Hz]; [auto|]. right.
    pose proof (held_nonneg (rc_id r) (map fst (w_prepared w) ++ delete i (w_handles w))) as Hn. unfold references. rewrite Hd, B, Hh, held_one, decide_True by exact Hd. rewrite (proj2 (Z.eqb_eq _ 1)) by lia. rewrite bool_decide_true by exact Hres.
    destruct (lf_handles _ _ _ _ _ _ _ L e Hin) as [He|[Hx _]]; [|rewrite Hd in Hx; contradiction]. rewrite He, Hrel. cbn.
    assert (en_record e = r) as -> by (pose proof (lf_live _ _ _ _ _ _ _ L e ltac:(apply elem_of_app; auto)) as Hk; congruence). left.
Qed.

Lemma step_prepare w qss id key value priority : inv w qss -> event_fits w (EPrepare id key value priority) -> exists o w' qss', step w (EPrepare id key value priority) = Ok (o, w') /\ inv w' qss'.
Proof.
  intros I Hf. cbn [event_fits] in Hf. cbn [step]. unfold prepare. cbv zeta. destruct (update_local_ok (ch_counters (w_cache w)) (shard_of (w_cache w) (cf_hash (ch_config (w_cache w)) key)) (fun l => {| lc_insertions := wrap64 (lc_insertions l + 1); lc_rejections := lc_rejections l |}) (shard_of_range w qss _ I)) as (k & Hk & Hlen & He & Hw).
  rewrite Hk. cbn [rbind]. set (r := {| rc_id := id; rc_key := key; rc_value := value; rc_hash := _; rc_weight := _; rc_priority := priority |}). cbn [acquire]. eexists _, _, qss. split; [reflexivity|]. cbn [en_record]. set (e := {| en_record := r; en_release := _ |}).
  pose proof (iv_life _ _ I) as [L1 L2 L3 L4 L5 L6 L7 L8]. assert (Hfresh : forall rid, is_Some (w_known w !! rid) -> rid <> id) by (intros rid [r0 Hr0] ->; congruence).
  assert (Hnp : id ∉ pids (w_prepared w)). { intros Hin. apply list_elem_of_fmap in Hin as ([e0 a0] & He0 & Hin). cbn in He0. apply (Hfresh id); [|reflexivity]. rewrite He0, (L2 e0); [eauto|]. apply elem_of_app. left. apply list_elem_of_fmap. exists (e0, a0). auto. }
  assert (Hpids : pids (w_prepared w ++ [(e, cf_admission (ch_config (w_cache w)) key value)]) = pids (w_prepared w) ++ [id]) by (unfold pids; rewrite map_app; reflexivity).
  assert (Hlook : forall rid r0, w_known w !! rid = Some r0 -> <[id := r]> (w_known w) !! rid = Some r0) by (intros rid r0 Hr0; rewrite lookup_insert_ne; [exact Hr0 | intros ->; congruence]).
  assert (Hext : forall rid, is_Some (w_known w !! rid) -> rid ∉ pids (w_prepared w) -> rid ∉ pids (w_prepared w ++ [(e, cf_admission (ch_config (w_cache w)) key value)])) by (intros rid Hs Hn Hin; rewrite Hpids in Hin; apply elem_of_app in Hin as [Hin|Hin]; [contradiction | apply list_elem_of_singleton in Hin; apply (Hfresh rid Hs); exact Hin]).
  constructor; world_fields.
  - eapply shards_ok_same with (c := w_cache w); try reflexivity; [|exact He | exact Hw]. apply shards_ok_grow; [apply (iv_shards _ _ I) | exact Hf | exact L1 | reflexivity | reflexivity | cbn; lia].
  - cbn. rewrite Hlen. apply (iv_local _ _ I).
  - intros rid. unfold live. world_fields. rewrite map_app, <- app_assoc, !held_app. cbn [map fst]. pose proof (acquired (ch_set_counters k (w_cache w)) r (ch_release (w_cache w)) rid) as Ha. cbn [acquire snd fst] in Ha. rewrite Ha. pose proof (iv_books _ _ I rid) as B. unfold live in B. rewrite held_app in B. cbn [ch_references ch_set_counters] in *. fold e in Ha |- *. lia.
  - change (ch_release (ch_set_references _ _)) with (ch_release (w_cache w)). change (ch_resident (ch_set_references _ _)) with (ch_resident (w_cache w)). constructor.
    + intros rid Hin. destruct (L1 rid Hin) as [r0 Hr0]. eauto.
    + intros e0 Hin. rewrite map_app, <- app_assoc in Hin. apply elem_of_app in Hin as [Hin|Hin]; [apply Hlook; apply L2; apply elem_of_app; auto|]. apply elem_of_cons in Hin as [->|Hin]; [apply lookup_insert_eq | apply Hlook; apply L2; apply elem_of_app; auto].
    + intros r0 Hin. apply Hlook. auto.
    + rewrite Hpids. apply NoDup_app. split; [exact L4|]. split; [|apply NoDup_singleton]. intros rid Hin Hin'. apply list_elem_of_singleton in Hin'. subst rid. contradiction.
    + intros rid Hin. rewrite Hpids in Hin. apply elem_of_app in Hin as [Hin|Hin]; [auto|]. apply list_elem_of_singleton in Hin. subst rid. intros Hr. apply (Hfresh id (L1 id Hr)). reflexivity.
    + intros e0 Hin. rewrite map_app in Hin. apply elem_of_app in Hin as [Hin|Hin]; [auto|]. apply list_elem_of_singleton in Hin. subst e0. reflexivity.
    + intros g r0 why Hg Hr. destruct (L7 g r0 why Hg Hr) as (A & B & C). split; [auto|]. split; [exact B | apply Hext; eauto].
    + intros e0 Hin. destruct (L8 e0 Hin) as [?|[A B]]; [auto|]. right. split; [exact A|]. apply Hext; [|exact B]. rewrite (L2 e0) by (apply elem_of_app; auto). eauto.
  - intros Hrel i s qs r0 Hs Hq Hp. pose proof (iv_pins _ _ I Hrel i s qs r0 Hs Hq Hp) as [Hpos|Hpe]; [left|auto]. unfold live in *. world_fields. rewrite map_app, <- app_assoc, !held_app in *. pose proof (held_nonneg (rc_id r0) (map fst [(e, cf_admission (ch_config (w_cache w)) key value)])). lia.
  - exact (iv_latest _ _ I).
  - destruct (iv_limits _ _ I) as [M1 M2 M3]. constructor; assumption.
Qed.

Lemma dispatch_ok : forall removed c, (0 < length (ch_shards c))%nat -> length (ct_local (ch_counters c)) = length (ch_shards c) ->
  exists notices c', dispatch c removed = Ok (notices, c') /\ same_shards c c' /\ (forall rid, default 0 (ch_references c' !! rid) = default 0 (ch_references c !! rid) + held rid (map fst notices)) /\
    (forall e, e ∈ map fst notices -> exists why, (en_record e, why) ∈ removed).
Proof.
  induction removed as [|[r reason] rest IH]; intros c Hn Hl; cbn [dispatch]; [exists [], c; split; [reflexivity|]; split; [apply same_shards_refl|]; split; [intros rid; cbn; lia | intros e He; inversion He]|]. cbv zeta.
  assert (Hc : exists k, (match reason with
     | Evicted => Ok {| ct_local := ct_local (ch_counters c); ct_evictions := wrap64 (ct_evictions (ch_counters c) + 1); ct_entries := ct_entries (ch_counters c); ct_resident := ct_resident (ch_counters c) |}
     | Rejected => update_local (ch_counters c) (shard_of c (rc_hash r)) (fun l => {| lc_insertions := lc_insertions l; lc_rejections := wrap64 (lc_rejections l + 1) |})
     | _ => Ok (ch_counters c) end) = Ok k /\ length (ct_local k) = length (ct_local (ch_counters c)) /\ ct_entries k = ct_entries (ch_counters c) /\ ct_resident k = ct_resident (ch_counters c)).
  { destruct reason; try (eexists; split; [reflexivity|]; auto; fail). apply update_local_ok. unfold shard_of, len. rewrite Hl. apply Z.mod_pos_bound. lia. }
  destruct Hc as (k & -> & K1 & K2 & K3). cbn [rbind]. cbn [ch_config ch_set_counters]. destruct (cf_listener (ch_config c)).
  - cbn [acquire]. destruct (IH (snd (acquire (ch_set_counters k c) r false))) as (notices & c' & Hd & Hss & Hr & Hin); [exact Hn | cbn; congruence|]. cbn [acquire snd] in Hd. rewrite Hd. cbn [rbind]. eexists _, c'. split; [reflexivity|].
    split; [eapply same_shards_trans; [|exact Hss]; constructor; try reflexivity; assumption|]. split.
    + intros rid. rewrite Hr, acquired. cbn [map fst]. rewrite (held_cons rid _ (map fst notices)). cbn [acquire fst ch_references ch_set_counters]. lia.
    + intros e He. cbn [map fst] in He. apply elem_of_cons in He as [->|He]; [exists reason; left | destruct (Hin e He) as [why Hw]; exists why; right; exact Hw].
  - destruct (IH (ch_set_counters k c)) as (notices & c' & Hd & Hss & Hr & Hin); [exact Hn | cbn; congruence|]. exists notices, c'. split; [exact Hd|]. split; [eapply same_shards_trans; [|exact Hss]; constructor; try reflexivity; assumption|]. split; [exact Hr|]. intros e He. destruct (Hin e He) as [why Hw]. exists why. right. exact Hw.
Qed.

Lemma life_handles (known : gmap Z MemRecord) rel R p ch h pe : forall es, life known rel R p ch h pe -> (forall e, e ∈ es -> known !! rc_id (en_record e) = Some (en_record e) /\ (rc_id (en_record e) ∉ R) /\ rc_id (en_record e) ∉ pids p) -> life known rel R p ch (h ++ es) pe.
Proof.
  intros es. revert h. induction es as [|e es IH]; intros h L Hes; [rewrite app_nil_r; exact L|]. change (h ++ e :: es) with (h ++ [e] ++ es). rewrite app_assoc. apply IH; [|intros e' He'; apply Hes; right; exact He']. destruct (Hes e ltac:(left)) as (A & B & C). apply life_handle; auto.
Qed.

Lemma step_finish w qss i : inv w qss -> event_fits w (EFinish i) -> exists o w' qss', step w (EFinish i) = Ok (o, w') /\ inv w' qss'.
Proof.
  intros I Hf. cbn [event_fits] in Hf. destruct (lookup_lt_is_Some_2 _ _ Hf) as [g Hi]. cbn [step]. rewrite Hi. cbn [expect rbind]. destruct (dispatch_ok g (w_cache w) (sa_some _ _ _ (iv_shards _ _ I)) (iv_local _ _ I)) as (notices & c' & Hd & Hss & Hr & Hin). rewrite Hd. cbn [rbind].
  eexists _, _, qss. split; [reflexivity|]. eapply inv_around; [exact I | exact Hss | reflexivity | reflexivity | reflexivity | | | ].
  - intros rid. unfold live. world_fields. rewrite Hr, (iv_books _ _ I). unfold live. rewrite !held_app. lia.
  - world_fields. pose proof (iv_life _ _ I) as L. apply life_handles; [apply life_finish; exact L|]. intros e He. destruct (Hin e He) as [why Hw]. eapply (lf_changes _ _ _ _ _ _ _ L); [eapply list_elem_of_lookup_2; exact Hi | exact Hw].
  - intros _ r _ _ [Hp|Hp]; [left | auto]. unfold live in *. world_fields. rewrite !held_app in *. pose proof (held_nonneg (rc_id r) (map fst notices)). lia.
Qed.

Lemma step_resize w qss capacity : inv w qss -> event_fits w (EResize capacity) -> exists o w' qss', step w (EResize capacity) = Ok (o, w') /\ inv w' qss'.
Proof.
  intros I [Hn Hc]. cbn [step]. rewrite Hn. eexists _, _, qss. split; [reflexivity|]. destruct I as [I1 I2 I3 I4 I5 I6 [M1 M2 M3]]. constructor; try assumption. constructor; world_fields; [|assumption | intros capacity' j [= <- <-]; lia].
  intros i s Hs. rewrite (M1 i s Hs). unfold target. world_fields. rewrite Hn. destruct (i <? 0)%nat eqn:E; [apply Nat.ltb_lt in E; lia | reflexivity].
Qed.

(** ** Events inside a shard's lock *)

Lemma at_release w qss i s qs r refs : inv w qss -> ch_shards (w_cache w) !! i = Some s -> qss !! i = Some qs -> vouched (w_known w) (len (ch_shards (w_cache w))) (Z.of_nat i) r ->
  exists x qs' gone, release_locked (lock (w_cache w) s) r refs = Ok (x, gone) /\ one_ok (w_known w) (len (ch_shards (w_cache w))) (Z.of_nat i) (total entries_of (ch_shards (w_cache w)) - entries_of s) (total resident_of (ch_shards (w_cache w)) - resident_of s) (others (w_known w) (len (ch_shards (w_cache w))) (Z.of_nat i) (ch_resident (w_cache w))) x qs' /\
    shrink (lock (w_cache w) s) qs x qs' gone /\ fits x qs' /\ sh_capacity (lk_shard x) = sh_capacity s /\ (refs = 0 -> ch_release (w_cache w) = true -> ~ pinned x qs' r).
Proof.
  intros I Hs Hq Hv. pose proof (iv_shards _ _ I) as A. pose proof (sa_known _ _ _ A) as Hk. pose proof (sa_each _ _ _ A i s qs Hs Hq) as At. pose proof At as (S & F & P). rewrite <- (is_lru_at w i s qs At).
  apply (release_locked_ok _ _ (fun r => vouched_hash _ _ _ _ r Hk) (vouched_id _ _ _) (fun r => vouched_weight _ _ _ _ r Hk) _ _ _ (fun r => others_apart _ _ _ _ r) _ _ r refs S F Hv).
Qed.

Lemma step_release w qss i : inv w qss -> event_fits w (ERelease i) -> exists o w' qss', step w (ERelease i) = Ok (o, w') /\ inv w' qss'.
Proof.
  intros I Hf. cbn [event_fits] in Hf. destruct (lookup_lt_is_Some_2 _ _ Hf) as [r Hi]. cbn [step]. rewrite Hi. cbn [expect rbind]. unfold release. destruct (home_shard w qss (rc_hash r) I) as (k & s & qs & Hh & Hs & Hq & At). rewrite Hh.
  pose proof (iv_life _ _ I) as L. assert (Hv : vouched (w_known w) (len (ch_shards (w_cache w))) (Z.of_nat k) r) by (split; [apply (lf_pending _ _ _ _ _ _ _ L); eapply list_elem_of_lookup_2; exact Hi | exact Hh]).
  destruct (at_release w qss k s qs r (references (w_cache w) r) I Hs Hq Hv) as (x & qs' & gone & He & S' & Sk & F' & Hc & Hpin). erewrite with_shard_run; [|exact Hs | cbv beta; rewrite He; reflexivity]. cbn [rbind].
  destruct (shrink_stored w qss k s qs x qs' gone I Hs Hq S' F' Sk) as (A' & Lo & Li & _ & La). eexists _, _, (<[k := qs']> qss). split; [reflexivity|]. constructor; world_fields; try assumption.
  - exact (iv_books _ _ I).
  - apply life_unpend. exact Li.
  - intros Hrel. change (live _) with (live w).
    assert (Hother : forall r', r' <> r -> 0 < held (rc_id r') (live w) \/ r' ∈ w_pending w -> 0 < held (rc_id r') (live w) \/ r' ∈ delete i (w_pending w)).
    { intros r' Hne [?|Hin]; [auto|]. right. rewrite (delete_Permutation _ _ _ Hi) in Hin. apply elem_of_cons in Hin as [?|Hin]; [contradiction | exact Hin]. }
    assert (Hrefs : references (w_cache w) r = held (rc_id r) (live w)) by (apply (iv_books _ _ I)). pose proof (held_nonneg (rc_id r) (live w)) as Hnn.
    eapply all_pinned_stored; [exact Hs | apply (sa_len _ _ _ (iv_shards _ _ I)) | apply (iv_pins _ _ I Hrel) | |].
    + intros j sj qj r' Hne Hj Hqj (id & _ & Hid) HQ. apply Hother; [|exact HQ]. intros ->. destruct (sa_each _ _ _ (iv_shards _ _ I) j sj qj Hj Hqj) as (Sj & _). pose proof (so_vouched _ _ _ _ _ _ Sj id r Hid) as [_ Hm]. destruct Hv as [_ Hm']. apply Hne. lia.
    + intros r' Hp. destruct (decide (0 < held (rc_id r) (live w))) as [Hpos|Hz].
      * pose proof (sk_pins _ _ _ _ _ Sk ltac:(rewrite (is_lru_at w k s qs At); exact Hrel) r' Hp) as Hp'. pose proof (iv_pins _ _ I Hrel k s qs r' Hs Hq Hp') as [?|Hin]; [auto|]. rewrite (delete_Permutation _ _ _ Hi) in Hin. apply elem_of_cons in Hin as [->|Hin]; auto.
      * apply Hother; [intros ->; apply (Hpin ltac:(lia) Hrel); exact Hp|]. apply (iv_pins _ _ I Hrel k s qs r' Hs Hq). apply (sk_pins _ _ _ _ _ Sk); [rewrite (is_lru_at w k s qs At); exact Hrel | exact Hp].
  - eapply limits_stored; [exact Hs | apply (iv_limits _ _ I) | reflexivity | reflexivity | exact Hc].
Qed.

Lemma step_clear w qss i ids : inv w qss -> event_fits w (EClear i ids) -> exists o w' qss', step w (EClear i ids) = Ok (o, w') /\ inv w' qss'.
Proof.
  intros I (Hf & Hd & Hall). destruct (lookup_lt_is_Some_2 _ _ Hf) as [s Hs]. pose proof (iv_shards _ _ I) as A. pose proof (sa_known _ _ _ A) as Hk. destruct (shards_queues _ _ _ i s A Hs) as (qs & Hq & S & F & P). cbn [step]. unfold clear_shard.
  destruct (clear_locked_ok _ _ (fun r => vouched_hash _ _ _ _ r Hk) (vouched_id _ _ _) (fun r => vouched_weight _ _ _ _ r Hk) _ _ _ (fun r => others_apart _ _ _ _ r) _ _ ids S Hd) as (x & qs' & gone & He & S' & Sk & F' & Hc & Hnone).
  { intros id. rewrite Hall. unfold shard_nodes, recs. rewrite Nat2Z.id, Hs. cbn. rewrite fmap_is_Some. reflexivity. }
  erewrite with_shard_run; [|exact Hs | cbv beta; rewrite He; reflexivity]. cbn [rbind]. destruct (shrink_stored w qss i s qs x qs' gone I Hs Hq S' F' Sk) as (A' & Lo & Li & Pi & La). eexists _, _, (<[i := qs']> qss). split; [reflexivity|]. constructor; world_fields; try assumption.
  - exact (iv_books _ _ I).
  - intros j sj id r Hj Hr. cbv beta. assert (Hlen : len (ch_shards (stored (w_cache w) i x)) = len (ch_shards (w_cache w))) by (unfold len; cbn; rewrite length_insert; reflexivity).
    destruct (stored_lookup _ i x j sj Hf Hj) as [[<- ->]|[Hne Hj']]; [exfalso; pose proof (Hnone id) as Hn; unfold recs in *; cbn in Hr; congruence|].
    destruct (shards_queues _ _ _ j sj A Hj') as (qj & Hqj & Sj & _). pose proof (so_vouched _ _ _ _ _ _ Sj id r Hr) as [Hkr Hm]. unfold shard_of. rewrite Hlen. cbn [ch_config stored]. rewrite <- (proj1 (proj2 (Hk _ _ Hkr))), Hm, (proj2 (Z.eqb_neq _ _)) by lia. eapply (iv_latest _ _ I); [exact Hj' | exact Hr].
  - eapply limits_stored; [exact Hs | apply (iv_limits _ _ I) | reflexivity | reflexivity | exact Hc].
Qed.

Lemma partition_nonneg capacity n i : 0 <= capacity -> 0 < n -> 0 <= partition capacity n i.
Proof. intros Hc Hn. unfold partition. pose proof (Z.div_pos capacity n Hc Hn). destruct (i <? capacity mod n); cbn; lia. Qed.

Lemma step_resize_shard w qss : inv w qss -> event_fits w EResizeShard -> exists o w' qss', step w EResizeShard = Ok (o, w') /\ inv w' qss'.
Proof.
  intros I [[capacity i] Hr]. cbn [step]. rewrite Hr. cbn [expect rbind]. pose proof (iv_limits _ _ I) as [M1 M2 M3]. destruct (M3 _ _ Hr) as [Hcap Hi]. destruct (Z.of_nat i <? len (ch_shards (w_cache w))) eqn:Hlt; boolp; unfold len in Hlt.
  - destruct (lookup_lt_is_Some_2 (ch_shards (w_cache w)) i) as [s Hs]; [lia|]. pose proof (iv_shards _ _ I) as A. pose proof (sa_known _ _ _ A) as Hk. destruct (shards_queues _ _ _ i s A Hs) as (qs & Hq & Sh & F & P). unfold resize_shard.
    destruct (resize_locked_ok _ _ (fun r => vouched_hash _ _ _ _ r Hk) (vouched_id _ _ _) (fun r => vouched_weight _ _ _ _ r Hk) _ _ _ (fun r => others_apart _ _ _ _ r) _ _ (partition capacity (len (ch_shards (w_cache w))) (Z.of_nat i)) Sh) as (x & qs' & gone & He & S' & Sk & F' & Hc); [apply partition_nonneg; unfold len; lia|].
    erewrite with_shard_run; [|exact Hs | cbv beta; rewrite He; reflexivity]. cbn [rbind]. destruct (shrink_stored w qss i s qs x qs' gone I Hs Hq S' F' Sk) as (A' & Lo & Li & Pi & La). eexists _, _, (<[i := qs']> qss). split; [reflexivity|]. constructor; world_fields; try assumption; [exact (iv_books _ _ I)|].
    constructor; world_fields; cbn [ch_capacity stored ch_shards]; [|assumption | intros c' j [= <- <-]; rewrite length_insert; lia].
    intros j sj Hj. unfold target. world_fields. cbn [ch_capacity stored]. unfold len. rewrite length_insert. fold (len (ch_shards (w_cache w))). destruct (stored_lookup (w_cache w) i x j sj ltac:(lia) Hj) as [[<- ->]|[Hne Hj']].
    + rewrite (proj2 (Nat.ltb_lt i (S i))) by lia. exact Hc.
    + rewrite (M1 j sj Hj'). unfold target. rewrite Hr. f_equal. destruct (j <? i)%nat eqn:E1, (j <? S i)%nat eqn:E2; try reflexivity; [apply Nat.ltb_lt in E1; apply Nat.ltb_ge in E2; lia | apply Nat.ltb_ge in E1; apply Nat.ltb_lt in E2; lia].
  - eexists _, _, qss. split; [reflexivity|]. destruct I as [I1 I2 I3 I4 I5 I6 _]. constructor; world_fields; try assumption; [eapply shards_ok_same; [exact I1|..]; reflexivity|]. constructor; world_fields; cbn [ch_capacity ch_set_capacity ch_shards]; [|assumption | discriminate].
    intros j sj Hj. rewrite (M1 j sj Hj). unfold target. world_fields. rewrite Hr. cbn [ch_capacity ch_set_capacity]. apply lookup_lt_Some in Hj. rewrite (proj2 (Nat.ltb_lt j i)) by lia. reflexivity.
Qed.

(** A key lives in one shard. *)
Lemma other_key w qss i j sj id r key : inv w qss -> shard_of (w_cache w) (cf_hash (ch_config (w_cache w)) key) = Z.of_nat i -> i <> j -> ch_shards (w_cache w) !! j = Some sj -> recs (lock (w_cache w) sj) id = Some r -> rc_key r <> key.
Proof.
  intros I Hh Hne Hj Hr He. pose proof (iv_shards _ _ I) as A. destruct (shards_queues _ _ _ j sj A Hj) as (qj & Hqj & Sj & _). pose proof (so_vouched _ _ _ _ _ _ Sj id r Hr) as [Hk Hm]. apply (sa_known _ _ _ A) in Hk as (_ & Hx & _). rewrite Hx, He in Hm. unfold shard_of in Hh. apply Hne. lia.
Qed.

Lemma contains_ok w qss key : inv w qss -> exists b, contains (w_cache w) key = Ok b.
Proof.
  intros I. pose proof (iv_shards _ _ I) as A. pose proof (sa_known _ _ _ A) as Hk. set (h := cf_hash (ch_config (w_cache w)) key). destruct (home_shard w qss h I) as (i & s & qs & Hh & Hs & Hq & S & _).
  unfold contains. cbv zeta. fold h. rewrite Hh, (index_get_Some _ _ s) by (rewrite ?Nat2Z.id; auto; lia). cbn [rbind].
  destruct (find_ok _ _ (fun r => vouched_hash _ _ _ _ r Hk) _ _ _ _ _ key S) as (o & Ho & _). unfold lock in Ho. cbn [lk_shard] in Ho. fold h in Ho. rewrite Ho. cbn [rbind]. eauto.
Qed.

Lemma step_get w qss key : inv w qss -> exists o w' qss', step w (EGet key) = Ok (o, w') /\ inv w' qss' /\
  match o with Some e => rc_key (en_record e) = key /\ w_latest w key = Some (rc_id (en_record e)) /\ w_known w !! rc_id (en_record e) = Some (en_record e) | None => all_stored (w_cache w) (fun r => rc_key r <> key) end.
Proof.
  intros I. pose proof (iv_shards _ _ I) as A. pose proof (sa_known _ _ _ A) as Hk. set (h := cf_hash (ch_config (w_cache w)) key). destruct (home_shard w qss h I) as (i & s & qs & Hh & Hs & Hq & At). pose proof At as (S & F & P). cbn [step]. unfold get_entry. cbv zeta. fold h. rewrite Hh.
  destruct (get_locked_ok _ _ (fun r => vouched_hash _ _ _ _ r Hk) _ _ _ _ _ key S F) as (o & x & qs' & He & S' & F' & Hrecs & Hres & Hcnt & Hcap & Hpol & _ & Hhit & Hpin).
  erewrite with_shard_run; [|exact Hs | exact He]. cbn [rbind]. set (c1 := stored (w_cache w) i x).
  assert (A1 : shards_ok c1 (w_known w) (<[i := qs']> qss)) by (eapply stored_ok; try eassumption; rewrite Hpol; exact P).
  assert (La : all_stored c1 (fun r => w_latest w (rc_key r) = Some (rc_id r))) by (eapply all_stored_stored; [exact Hs | apply (iv_latest _ _ I) | auto|]; intros id r Hr; rewrite Hrecs in Hr; eapply (iv_latest _ _ I); eassumption).
  set (es := match o with Some r => [{| en_record := r; en_release := ch_release (w_cache w) |}] | None => [] end). set (oe := match o with Some r => Some {| en_record := r; en_release := ch_release (w_cache w) |} | None => None end).
  assert (Hc2 : exists c2, (match o with Some r => let (e, c) := acquire c1 r (ch_release c1) in (Some e, c) | None => (None, c1) end) = (oe, c2) /\ same_shards c1 c2 /\ (forall rid, default 0 (ch_references c2 !! rid) = default 0 (ch_references c1 !! rid) + held rid es)).
  { destruct o as [r|]; eexists; (split; [reflexivity|]); [split; [constructor; reflexivity | intros rid; apply (acquired c1 r (ch_release c1) rid)] | split; [apply same_shards_refl | intros rid; cbn; lia]]. }
  destruct Hc2 as (c2 & -> & [C1 C2 C3 C4 C5 C6 C7 C8] & Hrefs). assert (Hes : match oe with Some e => [e] | None => [] end = es) by (unfold oe, es; destruct o; reflexivity). rewrite Hes.
  assert (Hrel : ch_release c2 = ch_release (w_cache w)) by (unfold ch_release; rewrite C2; reflexivity). assert (Hknown : forall r, o = Some r -> w_known w !! rc_id r = Some r) by (intros r ->; destruct Hhit as (_ & id & Hid); apply (so_vouched _ _ _ _ _ _ S id r Hid)).
  exists oe. eexists _, (<[i := qs']> qss). split; [reflexivity|]. split.
  - constructor; world_fields.
    + eapply shards_ok_same; eassumption.
    + rewrite C6, C3. cbn. rewrite Hcnt, length_insert. apply (iv_local _ _ I).
    + intros rid. unfold live. world_fields. rewrite Hrefs, app_assoc, held_app. f_equal. apply (iv_books _ _ I).
    + rewrite Hrel, C5. cbn [c1 stored ch_resident]. rewrite Hres. cbn. pose proof (iv_life _ _ I) as L. unfold es. destruct o as [r|]; [apply life_handle; [exact L | cbn; auto | left; reflexivity] | rewrite app_nil_r; exact L].
    + rewrite Hrel. intros Hr j sj qj r Hj Hqj Hp. rewrite C3 in Hj. revert j sj qj r Hj Hqj Hp. fold (all_pinned c1 (<[i := qs']> qss) (fun r => 0 < held (rc_id r) (map fst (w_prepared w) ++ w_handles w ++ es) \/ r ∈ w_pending w)).
      assert (Hmono : forall r, 0 < held (rc_id r) (live w) \/ r ∈ w_pending w -> 0 < held (rc_id r) (map fst (w_prepared w) ++ w_handles w ++ es) \/ r ∈ w_pending w) by (intros r [Hp|Hp]; [left; rewrite app_assoc, held_app; pose proof (held_nonneg (rc_id r) es); unfold live in Hp; lia | auto]).
      eapply all_pinned_stored; [exact Hs | apply (sa_len _ _ _ A) | apply (iv_pins _ _ I Hr) | auto|]. intros r Hp. destruct (Hpin ltac:(rewrite (is_lru_at w i s qs At); exact Hr) r Hp) as [Ho|Hp']; [|apply Hmono; eapply (iv_pins _ _ I Hr i s qs r Hs Hq Hp')].
      left. apply (held_in {| en_record := r; en_release := ch_release (w_cache w) |}). unfold es. rewrite Ho. apply elem_of_app. right. apply elem_of_app. right. left.
    + intros j sj id r Hj. rewrite C3 in Hj. apply (La j sj id r Hj).
    + pose proof (limits_stored w i s x {| w_cache := c1; w_prepared := w_prepared w; w_changes := w_changes w; w_handles := w_handles w; w_pending := w_pending w; w_resizing := w_resizing w; w_known := w_known w; w_latest := w_latest w |} Hs (iv_limits _ _ I) eq_refl eq_refl Hcap) as [M1 M2 M3]. world_fields.
      constructor; world_fields; rewrite ?C3, ?C4; try assumption. intros j sj Hj. specialize (M1 j sj Hj). unfold target in *. cbn [w_cache w_resizing] in *. rewrite C4. exact M1.
  - unfold oe. destruct o as [r|]; cbn [en_record].
    + destruct Hhit as (Hkey & id & Hid). split; [exact Hkey|]. split; [|auto]. rewrite <- Hkey. eapply (iv_latest _ _ I); [exact Hs | exact Hid].
    + intros j sj id r Hj Hr. destruct (decide (i = j)) as [<-|Hne]; [assert (sj = s) as -> by congruence; eapply Hhit; exact Hr | eapply other_key; eassumption].
Qed.

(** A handle more. *)
Lemma inv_handle w qss r rel : inv w qss -> w_known w !! rc_id r = Some r -> rel = ch_release (w_cache w) \/ (rc_id r ∉ ch_resident (w_cache w)) /\ rc_id r ∉ pids (w_prepared w) ->
  inv {| w_cache := snd (acquire (w_cache w) r rel); w_prepared := w_prepared w; w_changes := w_changes w; w_handles := w_handles w ++ [fst (acquire (w_cache w) r rel)]; w_pending := w_pending w; w_resizing := w_resizing w; w_known := w_known w; w_latest := w_latest w |} qss.
Proof.
  intros I Hk Hr. eapply inv_around; [exact I | constructor; reflexivity | reflexivity | reflexivity | reflexivity | | | ].
  - intros rid. unfold live. world_fields. rewrite acquired, app_assoc, held_app. f_equal. apply (iv_books _ _ I).
  - world_fields. apply life_handle; [apply (iv_life _ _ I) | exact Hk | exact Hr].
  - intros _ r' _ _ [Hp|Hp]; [left|auto]. unfold live in *. world_fields. rewrite app_assoc, held_app. pose proof (held_nonneg (rc_id r') [fst (acquire (w_cache w) r rel)]). lia.
Qed.

Lemma step_remove w qss key : inv w qss -> exists o w' qss', step w (ERemove key) = Ok (o, w') /\ inv w' qss'.
Proof.
  intros I. pose proof (iv_shards _ _ I) as A. pose proof (sa_known _ _ _ A) as Hk. set (h := cf_hash (ch_config (w_cache w)) key). destruct (home_shard w qss h I) as (i & s & qs & Hh & Hs & Hq & S & F & P). cbn [step]. unfold remove_deferred. cbv zeta. fold h. rewrite Hh.
  destruct (drop_key_ok _ _ (fun r => vouched_hash _ _ _ _ r Hk) (vouched_id _ _ _) (fun r => vouched_weight _ _ _ _ r Hk) _ _ _ (fun r => others_apart _ _ _ _ r) _ _ key Removed S F) as (x & qs' & gone & He & S' & Sk & F' & Hc & Hno & _ & Hg).
  assert (Hrun : remove_locked (lock (w_cache w) s) h key = Ok (x, gone)) by exact He. erewrite with_shard_run; [|exact Hs | cbv beta; rewrite Hrun; reflexivity]. cbn [rbind]. destruct (shrink_stored w qss i s qs x qs' gone I Hs Hq S' F' Sk) as (A' & Lo & Li & Pi & La).
  assert (I1 : inv {| w_cache := stored (w_cache w) i x; w_prepared := w_prepared w; w_changes := w_changes w ++ [gone]; w_handles := w_handles w; w_pending := w_pending w; w_resizing := w_resizing w; w_known := w_known w; w_latest := set_latest (w_latest w) key None |} (<[i := qs']> qss)).
  { constructor; world_fields; try assumption; [exact (iv_books _ _ I) | | eapply limits_stored; [exact Hs | apply (iv_limits _ _ I) | reflexivity | reflexivity | exact Hc]].
    assert (Hne : all_stored (stored (w_cache w) i x) (fun r => rc_key r <> key)) by (eapply (all_stored_stored _ _ _ _ (fun _ => True)); [exact Hs | intros ? ? ? ? ? ?; exact Logic.I | intros j sj id r Hne Hj Hr _; eapply other_key; eassumption | exact Hno]).
    intros j sj id r Hj Hr. unfold set_latest. rewrite decide_False by (eapply Hne; eassumption). eapply La; eassumption. }
  destruct Hg as [->|[r ->]].
  - eexists _, _, _. split; [reflexivity|]. rewrite app_nil_r. exact I1.
  - eexists _, _, _. split; [reflexivity|]. assert (Hr : forall r' why, (r', why) ∈ [(r, Removed)] -> w_known w !! rc_id r' = Some r' /\ (rc_id r' ∉ lk_resident x) /\ rc_id r' ∉ pids (w_prepared w)) by (intros r' why Hin; apply (lf_changes _ _ _ _ _ _ _ Li [(r, Removed)] r' why); [apply elem_of_app; right; left | exact Hin]).
    destruct (Hr r Removed ltac:(left)) as (R1 & R2 & R3). apply (inv_handle _ _ r false I1); world_fields; auto.
Qed.

(** ** Committing *)

Lemma commit_world w qss i slot e a : inv w qss -> w_prepared w !! i = Some (e, a) -> slot_fits w i slot ->
  exists removed c qss', commit_entry (w_cache w) slot e a = Ok (removed, c) /\
    inv {| w_cache := c; w_prepared := delete i (w_prepared w); w_changes := w_changes w ++ [removed]; w_handles := w_handles w ++ [e]; w_pending := w_pending w; w_resizing := w_resizing w; w_known := w_known w;
           w_latest := set_latest (w_latest w) (rc_key (en_record e)) (Some (rc_id (en_record e))) |} qss'.
Proof.
  intros I Hi Hslot. pose proof (iv_shards _ _ I) as A. pose proof (sa_known _ _ _ A) as Hk. pose proof (iv_life _ _ I) as L. set (r := en_record e) in *. destruct (home_shard w qss (rc_hash r) I) as (k & s & qs & Hh & Hs & Hq & At). pose proof At as (S & F & P). unfold commit_entry. fold r. rewrite Hh.
  assert (He : e ∈ map fst (w_prepared w)) by (apply list_elem_of_fmap; exists (e, a); split; [reflexivity | eapply list_elem_of_lookup_2; exact Hi]). assert (Hp : rc_id r ∈ pids (w_prepared w)) by (apply list_elem_of_fmap; exists (e, a); split; [reflexivity | eapply list_elem_of_lookup_2; exact Hi]).
  assert (Hkr : w_known w !! rc_id r = Some r) by (apply (lf_live _ _ _ _ _ _ _ L); apply elem_of_app; auto). assert (Hv : vouched (w_known w) (len (ch_shards (w_cache w))) (Z.of_nat k) r) by (split; [exact Hkr | exact Hh]).
  destruct (commit_locked_ok _ _ (fun r => vouched_hash _ _ _ _ r Hk) (vouched_id _ _ _) (fun r => vouched_weight _ _ _ _ r Hk) _ _ _ (fun r => others_apart _ _ _ _ r) _ _ slot r a S F Hv) as (x & qs' & gone & Hc & S' & F' & Cm).
  { cbn. apply (lf_outside _ _ _ _ _ _ _ L). exact Hp. }
  { intros r' Hr'. unfold slot_fits in Hslot. rewrite Hi in Hslot. fold r in Hslot. unfold shard_nodes in Hslot. rewrite Hh, Nat2Z.id, Hs in Hslot. unfold recs in Hr'. cbn in Hr'. destruct (sh_nodes s !! slot) as [n|]; [|discriminate]. injection Hr' as <-. apply Hslot. reflexivity. }
  exists gone, (stored (w_cache w) k x), (<[k := qs']> qss). split; [erewrite with_shard_run; [reflexivity | exact Hs | cbv beta; rewrite Hc; reflexivity]|]. destruct Cm as [C1 C2 C3 C4 C5 C6 C7 C8 [C9 C10]].
  destruct (life_unprepare _ _ _ _ _ _ _ i e a L Hi) as [_ Hnp]. fold r in Hnp. assert (Hnot : forall rid, rid ∉ pids (w_prepared w) -> rid ∉ pids (delete i (w_prepared w))) by (intros rid Hn Hd; apply Hn; apply list_elem_of_fmap in Hd as (y & -> & Hy); apply list_elem_of_fmap; exists y; split; [reflexivity | eapply delete_sub; exact Hy]).
  constructor; world_fields.
  - eapply stored_ok; try eassumption. rewrite C7. exact P.
  - cbn. rewrite C9, length_insert. apply (iv_local _ _ I).
  - intros rid. unfold live at 1. world_fields. rewrite (held_live_delete w i e a rid Hi). apply (iv_books _ _ I).
  - apply life_change; [eapply life_commit; [exact L | exact Hi | exact C2]|]. intros r' why Hin. assert (Hg : rc_id r' ∈ gone_ids gone) by (apply list_elem_of_fmap; exists (r', why); auto). apply C3 in Hg as [Hwas Hout]. split; [|split; [exact Hout|]].
    + destruct (C5 r' why Hin) as [->|[id Hid]]; [exact Hkr | apply (so_vouched _ _ _ _ _ _ S id r' Hid)].
    + destruct Hwas as [->|Hwas]; [exact Hnp|]. apply Hnot. intros Hx. apply (lf_outside _ _ _ _ _ _ _ L _ Hx). exact Hwas.
  - intros Hrel. assert (Hlive : forall rid, held rid (map fst (delete i (w_prepared w)) ++ w_handles w ++ [e]) = held rid (live w)) by (intros rid; apply (held_live_delete w i e a rid Hi)).
    eapply (all_pinned_stored _ _ _ _ _ _ (fun r => 0 < held (rc_id r) (live w) \/ r ∈ w_pending w)); [exact Hs | apply (sa_len _ _ _ A) | apply (iv_pins _ _ I Hrel) | |].
    + intros j sj qj r' _ _ _ _. unfold live at 2. world_fields. rewrite Hlive. auto.
    + intros r' Hp'. unfold live. world_fields. rewrite Hlive. destruct (C6 ltac:(rewrite (is_lru_at w k s qs At); exact Hrel) r' Hp') as [->|Hold]; [left; apply (held_in e); apply elem_of_app; auto | apply (iv_pins _ _ I Hrel k s qs r' Hs Hq Hold)].
  - eapply all_stored_stored; [exact Hs | apply (iv_latest _ _ I) | |].
    + intros j sj id r' Hne Hj Hr' Hl. cbv beta. unfold set_latest. rewrite decide_False; [exact Hl|]. eapply (other_key w qss k); [exact I | | exact Hne | exact Hj | exact Hr']. fold r. rewrite <- (proj1 (proj2 (Hk _ _ Hkr))). exact Hh.
    + intros id r' Hr'. fold r. unfold set_latest. destruct (C1 id r' Hr') as [->|[Hold Hne]]; [rewrite decide_True by reflexivity; reflexivity|]. rewrite decide_False by exact Hne. eapply (iv_latest _ _ I); [exact Hs | exact Hold].
  - eapply limits_stored; [exact Hs | apply (iv_limits _ _ I) | reflexivity | reflexivity | exact C8].
Qed.

Lemma prepared_at w i slot : slot_fits w i slot -> exists e a, w_prepared w !! i = Some (e, a).
Proof. unfold slot_fits. destruct (w_prepared w !! i) as [[e a]|]; [eauto | contradiction]. Qed.

Lemma step_commit w qss i slot : inv w qss -> event_fits w (ECommit i slot) -> exists o w' qss', step w (ECommit i slot) = Ok (o, w') /\ inv w' qss'.
Proof.
  intros I Hf. cbn [event_fits] in Hf. destruct (prepared_at w i slot Hf) as (e & a & Hi). destruct (commit_world w qss i slot e a I Hi Hf) as (removed & c & qss' & Hc & I'). cbn [step]. rewrite Hi. cbn [expect rbind]. rewrite Hc. cbn [rbind]. eauto.
Qed.

Lemma step_promote w qss i slot : inv w qss -> event_fits w (EPromote i slot) -> exists o w' qss', step w (EPromote i slot) = Ok (o, w') /\ inv w' qss'.
Proof.
  intros I Hf. cbn [event_fits] in Hf. destruct (prepared_at w i slot Hf) as (e & a & Hi). cbn [step]. rewrite Hi. cbn [expect rbind]. unfold promote. destruct a.
  - destruct (commit_world w qss i slot e true I Hi Hf) as (removed & c & qss' & Hc & I'). rewrite Hc. cbn [rbind]. eauto.
  - cbn [rbind]. eexists _, _, qss. split; [reflexivity|]. pose proof (iv_life _ _ I) as L. destruct (life_unprepare _ _ _ _ _ _ _ i e false L Hi) as [L' Hnp]. eapply inv_around; [exact I | apply same_shards_refl | reflexivity | reflexivity | reflexivity | | | ].
    + intros rid. unfold live at 1. world_fields. rewrite (held_live_delete w i e false rid Hi). apply (iv_books _ _ I).
    + world_fields. apply life_change; [exact L'|]. intros r' why Hin. apply list_elem_of_singleton in Hin. injection Hin as -> _. split; [apply (lf_live _ _ _ _ _ _ _ L'); apply elem_of_app; right; apply elem_of_app; right; left|]. split; [|exact Hnp].
      apply (lf_outside _ _ _ _ _ _ _ L). apply list_elem_of_fmap. exists (e, false). split; [reflexivity | eapply list_elem_of_lookup_2; exact Hi].
    + intros _ r' _ _. unfold live at 2. world_fields. rewrite (held_live_delete w i e false (rc_id r') Hi). auto.
Qed.

(** ** Every event, and the start *)

Lemma step_ok w qss e : inv w qss -> event_fits w e -> exists o w' qss', step w e = Ok (o, w') /\ inv w' qss'.
Proof.
  intros I Hf. destruct e; [eapply step_prepare | eapply step_reject | eapply step_commit | eapply step_promote | eapply step_abandon | | eapply step_remove | eapply step_clear | eapply step_resize | eapply step_resize_shard | eapply step_finish | eapply step_drop | eapply step_release]; try eassumption.
  destruct (step_get w qss key I) as (o & w' & qss' & He & I' & _). eauto.
Qed.

Lemma run_inv w es w' : run w es w' -> forall qss, inv w qss -> exists qss', inv w' qss'.
Proof.
  induction 1 as [w | w e es w' w'' Hf [o He] _ IH]; intros qss I; [eauto|]. destruct (step_ok w qss e I Hf) as (o' & w1 & qss1 & He1 & I1). assert (w1 = w') as -> by congruence. eauto.
Qed.

Definition policy_fits (p : Policy) : Prop := match p with S3Fifo c => 0 <= s3_ghost_entries c | _ => True end.

Lemma build_inv config capacity shards policy c : build config capacity shards policy = Ok c -> 0 < shards -> 0 <= capacity -> policy_fits policy -> inv (start c) (replicate (Z.to_nat shards) [[]; []; []]).
Proof.
  intros Hb Hn Hc Hp. unfold build in Hb. rewrite (proj2 (Z.eqb_neq _ 0)) in Hb by lia. destruct (Policy_validate policy) as [[]| |] eqn:Hv; try discriminate. cbn [rbind] in Hb. injection Hb as <-. set (mk := fun i : nat => _).
  assert (Hlen : len (map mk (seq 0 (Z.to_nat shards))) = shards) by (unfold len; rewrite length_map, length_seq; lia).
  assert (Hat : forall i s, map mk (seq 0 (Z.to_nat shards)) !! i = Some s -> (i < Z.to_nat shards)%nat /\ s = mk i).
  { intros i s Hs. apply list_lookup_fmap_Some in Hs as (j & -> & Hj). apply lookup_seq in Hj as [-> Hj]. auto. }
  assert (Hmem : forall s, s ∈ map mk (seq 0 (Z.to_nat shards)) -> entries_of s = 0 /\ resident_of s = 0) by (intros s Hs; apply list_elem_of_fmap in Hs as (j & -> & _); split; reflexivity).
  constructor; cbn [start w_cache w_known w_prepared w_changes w_handles w_pending w_latest ch_shards ch_counters ch_references ch_resident].
  - constructor; cbn [ch_shards]; [rewrite length_replicate, length_map, length_seq; reflexivity | rewrite length_map, length_seq; lia | intros id r Hr; rewrite lookup_empty in Hr; discriminate|].
    intros i s qs Hs Hq. apply lookup_replicate in Hq as [-> _]. destruct (Hat i s Hs) as [Hi ->]. unfold shard_at. cbn [ch_shards ch_resident ch_policy]. rewrite Hlen, !total_zero by (intros s0 Hs0; apply (Hmem s0 Hs0)).
    assert (Hcap : 0 <= partition capacity shards (Z.of_nat i)) by (apply partition_nonneg; lia). split; [|split; [left; exact Hcap | reflexivity]].
    constructor; cbn [lock lk_shard lk_counters lk_resident sh_policy sh_index sh_weight sh_capacity ch_counters ch_resident]; unfold recs, sh_nodes; cbn [lk_shard lock mk sh_policy sh_index sh_weight sh_capacity ps_nodes ps_state].
    + apply PolicyState_new_ok; assumption.
    + intros id r Hr. rewrite lookup_empty in Hr. discriminate.
    + intros h id. rewrite ht_new_elements. split; [intros Hin; inversion Hin | intros (r & Hr & _); rewrite lookup_empty in Hr; discriminate].
    + rewrite ht_new_elements. constructor.
    + reflexivity.
    + lia.
    + reflexivity.
    + intros id id' r r' Hr. rewrite lookup_empty in Hr. discriminate.
    + intros id r Hr. rewrite lookup_empty in Hr. discriminate.
    + intros rid. rewrite elem_of_others. split; [intros Hin; exfalso; set_solver | intros [[_ Hin]|(id & r & Hr & _)]; [exact Hin | rewrite lookup_empty in Hr; discriminate]].
    + reflexivity.
    + reflexivity.
  - cbn [Counters_new ct_local]. rewrite length_replicate, length_map, length_seq. reflexivity.
  - intros rid. rewrite lookup_empty. reflexivity.
  - constructor; [intros rid Hin; apply elem_of_empty in Hin; contradiction | | | constructor | | | intros g r why Hg; inversion Hg |]; intros ? Hin; inversion Hin.
  - intros _ i s qs r Hs Hq (id & _ & Hid). destruct (Hat i s Hs) as [_ ->]. unfold recs, sh_nodes in Hid. cbn in Hid. rewrite lookup_empty in Hid. discriminate.
  - intros i s id r Hs Hid. destruct (Hat i s Hs) as [_ ->]. unfold recs, sh_nodes in Hid. cbn in Hid. rewrite lookup_empty in Hid. discriminate.
  - constructor; cbn [start w_cache w_resizing ch_shards ch_capacity]; [|exact Hc | discriminate]. intros i s Hs. destruct (Hat i s Hs) as [_ ->]. rewrite Hlen. reflexivity.
Qed.
End Invariant.
