(* ===== verification/MemTheorems.v ===== *)
(** * What the memory cache promises *)

From stdpp Require Import gmap.
From S2P Require Import Prelude MemPolicy MemLists MemPolicyProofs MemCache MemShard MemInv MemMachine.

(** ** A hash table

    An association list satisfies the laws. *)

Definition table_match (h : Z) (p : Z -> steps bool) (e : Z * Z) : steps bool := let? b := p e.2 in Ok ((e.1 =? h) && b).
Fixpoint table_find (t : list (Z * Z)) (h : Z) (p : Z -> steps bool) : steps (option Z) :=
  match t with [] => Ok None | e :: t => let? b := table_match h p e in if b then Ok (Some e.2) else table_find t h p end.
Fixpoint table_remove (t : list (Z * Z)) (h : Z) (p : Z -> steps bool) : steps (option (list (Z * Z))) :=
  match t with [] => Ok None | e :: t => let? b := table_match h p e in if b then Ok (Some t) else let? o := table_remove t h p in Ok ((fun t => e :: t) <$> o) end.
(** Moves every value when it grows. *)
Fixpoint table_rehash (t : list (Z * Z)) (f : Z -> steps Z) : steps (list (Z * Z)) :=
  match t with [] => Ok [] | e :: t => let? h := f e.2 in let? t := table_rehash t f in Ok ((h, e.2) :: t) end.
Definition table_insert (t : list (Z * Z)) (h v : Z) (f : Z -> steps Z) : steps (list (Z * Z)) := let? t := table_rehash t f in Ok ((h, v) :: t).

#[export] Instance list_table : HashTable (list (Z * Z)) := {| ht_new := []; ht_find := table_find; ht_insert_unique := table_insert; ht_remove := table_remove |}.

Lemma table_match_Ok h p e b : table_match h p e = Ok b -> exists b', p e.2 = Ok b' /\ b = (e.1 =? h) && b'.
Proof. unfold table_match. intros Hm. apply rbind_Ok_inv in Hm as (b' & Hp & Hm). exists b'. split; [exact Hp | congruence]. Qed.

Lemma table_match_true h p e : table_match h p e = Ok true -> e.1 = h /\ p e.2 = Ok true.
Proof. intros Hm. destruct (table_match_Ok _ _ _ _ Hm) as (b & Hp & Hb). symmetry in Hb. apply andb_true_iff in Hb as [H1 ->]. apply Z.eqb_eq in H1. auto. Qed.

Lemma table_find_returns (t : list (Z * Z)) h p : (forall h' v, (h', v) ∈ t -> exists b, p v = Ok b) -> exists o, table_find t h p = Ok o.
Proof.
  induction t as [|[h' v] t IH]; intros Hp; cbn [table_find]; [eauto|]. destruct (Hp h' v ltac:(left)) as [b Hb]. unfold table_match. cbn [snd]. rewrite Hb. cbn [rbind].
  destruct (_ && _); [eauto|]. apply IH. intros h1 v1 Hin. apply (Hp h1). right. exact Hin.
Qed.
Lemma table_find_some t h p v : table_find t h p = Ok (Some v) -> (h, v) ∈ t /\ p v = Ok true.
Proof.
  induction t as [|e t IH]; cbn [table_find]; [discriminate|]. intros Hf. apply rbind_Ok_inv in Hf as ([] & Hm & Hf).
  - injection Hf as <-. destruct (table_match_true _ _ _ Hm) as [<- Hp]. split; [destruct e; left | exact Hp].
  - destruct (IH Hf). split; [right|]; assumption.
Qed.
Lemma table_find_none t h p : table_find t h p = Ok None -> forall v, (h, v) ∈ t -> p v = Ok false.
Proof.
  induction t as [|e t IH]; cbn [table_find]; [intros _ v Hin; inversion Hin|]. intros Hf. apply rbind_Ok_inv in Hf as ([] & Hm & Hf); [discriminate|]. intros v Hin. apply elem_of_cons in Hin as [<-|Hin]; [|auto].
  destruct (table_match_Ok _ _ _ _ Hm) as (b & Hp & Hb). cbn in *. rewrite Z.eqb_refl in Hb. cbn in Hb. congruence.
Qed.
Lemma table_remove_some t h p v : table_find t h p = Ok (Some v) -> exists t' v', table_remove t h p = Ok (Some t') /\ p v' = Ok true /\ Permutation t ((h, v') :: t').
Proof.
  induction t as [|e t IH]; cbn [table_find table_remove]; [discriminate|]. intros Hf. apply rbind_Ok_inv in Hf as ([] & Hm & Hf); rewrite Hm; cbn [rbind].
  - destruct (table_match_true _ _ _ Hm) as [<- Hp]. exists t, e.2. split; [reflexivity|]. split; [exact Hp | destruct e; reflexivity].
  - destruct (IH Hf) as (t' & v' & -> & Hp & Hperm). exists (e :: t'), v'. split; [reflexivity|]. split; [exact Hp|]. rewrite Hperm. apply perm_swap.
Qed.
Lemma table_insert_elements (t : list (Z * Z)) h v f : (forall h' v', (h', v') ∈ (h, v) :: t -> f v' = Ok h') -> exists t', table_insert t h v f = Ok t' /\ Permutation t' ((h, v) :: t).
Proof.
  intros Hf. assert (Hr : table_rehash t f = Ok t).
  { induction t as [|[h1 v1] t IH]; cbn [table_rehash snd]; [reflexivity|]. rewrite (Hf h1 v1 ltac:(right; left)). cbn [rbind]. rewrite IH; [reflexivity|]. intros h' v' Hin. apply Hf. apply elem_of_cons in Hin as [->|Hin]; [left | right; right; exact Hin]. }
  unfold table_insert. rewrite Hr. eexists. split; reflexivity.
Qed.
#[export] Instance list_table_laws : HashTableLaws (list (Z * Z)) :=
  {| ht_elements := fun t => t; ht_new_elements := eq_refl; ht_find_returns := table_find_returns; ht_find_some := table_find_some; ht_find_none := table_find_none;
     ht_insert_elements := table_insert_elements; ht_remove_some := table_remove_some |}.

(** ** Shard capacities *)

Lemma partition_sum n : 0 < Z.of_nat n -> forall capacity, 0 <= capacity -> total (fun i => partition capacity (Z.of_nat n) (Z.of_nat i)) (seq 0 n) = capacity.
Proof.
  intros Hn capacity Hc. set (q := capacity / Z.of_nat n). set (m := capacity mod Z.of_nat n). assert (Hm : 0 <= m < Z.of_nat n) by (apply Z.mod_pos_bound; lia).
  assert (Hgen : forall k, (k <= n)%nat -> total (fun i => partition capacity (Z.of_nat n) (Z.of_nat i)) (seq 0 k) = Z.of_nat k * q + Z.min (Z.of_nat k) m).
  { induction k as [|k IH]; intros Hk; [cbn; lia|]. rewrite seq_S. unfold total. rewrite foldr_app. cbn [foldr]. unfold total in IH.
    assert (Hacc : forall (l : list nat) a, foldr (fun i s => partition capacity (Z.of_nat n) (Z.of_nat i) + s) a l = foldr (fun i s => partition capacity (Z.of_nat n) (Z.of_nat i) + s) 0 l + a) by (induction l as [|y l IHl]; intros a; cbn [foldr]; [lia | rewrite IHl; lia]).
    rewrite Hacc, IH by lia. unfold partition at 1. fold q m. cbn [Nat.add]. destruct (Z.of_nat k <? m) eqn:E; boolp; cbn [Z.b2z]; lia. }
  rewrite Hgen by lia. unfold q, m in *. pose proof (Z.div_mod capacity (Z.of_nat n) ltac:(lia)). lia.
Qed.

Lemma total_at {A} (f : A -> Z) (g : nat -> Z) (l : list A) : forall k, (forall i a, l !! i = Some a -> f a = g (k + i)%nat) -> total f l = total g (seq k (length l)).
Proof.
  induction l as [|a l IH]; intros k Hf; cbn [length seq]; [reflexivity|]. change (total f (a :: l)) with (f a + total f l). change (total g (k :: ?s)) with (g k + total g s). rewrite (Hf 0%nat a eq_refl), Nat.add_0_r. f_equal. apply IH. intros i b Hi. rewrite (Hf (S i) b Hi). f_equal. lia.
Qed.

Section Promises.
Context {K V T : Type} `{EqDecision K, HashTableLaws T}.
Variables (config : @Config K V) (capacity shards : Z) (policy : Policy) (c : @Cache K V T).
Hypothesis built : build config capacity shards policy = Ok c.
Hypothesis some_shards : 0 < shards.
Hypothesis capacity_fits : 0 <= capacity.
Hypothesis policy_typed : policy_fits policy.

(** C8: a memory cache built with any valid policy survives every
    history: whatever events of whatever threads came before, in any order of
    their critical sections, the next one (an insertion, a promotion, a hit or
    a miss, a removal, a clear, a resize, a notification, a drop or a release)
    runs to its end without a panic. Every loop stops: the SIEVE hand, the
    S3-FIFO and TinyLFU searches, demotion, ghost eviction and trimming; and
    no closure the index runs over its entries, to compare or to rehash them,
    meets a vacant slab key. Nor does a test of residency panic. *)
Theorem memory_cache_never_panics es w e : run (start c) es w -> event_fits w e -> (exists o w', step w e = Ok (o, w')) /\ forall key, exists b, contains (w_cache w) key = Ok b.
Proof.
  intros Hr Hf. destruct (run_inv _ _ _ Hr _ (build_inv _ _ _ _ _ built some_shards capacity_fits policy_typed)) as [qss I]. split; [|intros key; eapply contains_ok; exact I].
  destruct (step_ok w qss e I Hf) as (o & w' & _ & He & _). eauto.
Qed.

(** C9: the cache is a lossy map that is never stale. A hit on a key
    returns a version made for that key, and the one committed last under it:
    no version that was replaced, removed, cleared, rejected or evicted is ever
    returned, also not while insertions, removals and evictions of other
    threads interleave. A miss happens only when no shard holds a version of
    the key. *)
Theorem hits_are_never_stale es w key : run (start c) es w ->
  exists o w', step w (EGet key) = Ok (o, w') /\
    match o with
    | Some e => rc_key (en_record e) = key /\ w_latest w key = Some (rc_id (en_record e)) /\ w_known w !! rc_id (en_record e) = Some (en_record e)
    | None => forall i s id n, ch_shards (w_cache w) !! i = Some s -> sh_nodes s !! id = Some n -> rc_key (nd_record n) <> key
    end.
Proof.
  intros Hr. destruct (run_inv _ _ _ Hr _ (build_inv _ _ _ _ _ built some_shards capacity_fits policy_typed)) as [qss I]. destruct (step_get w qss key I) as (o & w' & _ & He & _ & Hhit). exists o, w'. split; [exact He|]. destruct o; [exact Hhit|].
  intros i s id n Hs Hn. eapply Hhit; [exact Hs|]. unfold recs. cbn. rewrite Hn. reflexivity.
Qed.

Definition held_by_someone (w : @World K V T) (r : @MemRecord K V) : Prop := (exists e, e ∈ live w /\ rc_id (en_record e) = rc_id r) \/ r ∈ w_pending w.

Lemma held_pos_in rid (l : list (@Entry K V)) : 0 < held rid l -> exists e, e ∈ l /\ rc_id (en_record e) = rid.
Proof.
  unfold held. induction l as [|e l IH]; cbn [foldr]; [lia|]. case_decide as Hd; [intros _; exists e; split; [left | exact Hd]|]. intros Hp. destruct IH as (e' & Hin & He); [lia|]. exists e'. split; [right; exact Hin | exact He].
Qed.

(** C11: between critical sections a shard's weight is the sum of the
    weights of the versions it holds and never exceeds its capacity, with one
    exception: an LRU shard may be over, but then every version it holds is
    pinned by a live handle or by a release under way. The shard capacities
    add up to the cache's, so that with no resize under way, and no handle
    alive or released in a pinning cache, the cache's total resident weight is
    within its configured capacity. *)
Theorem memory_within_capacity es w : run (start c) es w ->
  (forall i s, ch_shards (w_cache w) !! i = Some s ->
     sh_weight s <= sh_capacity s \/ ch_release (w_cache w) = true /\ forall id n, sh_nodes s !! id = Some n -> held_by_someone w (nd_record n)) /\
  (w_resizing w = None -> total sh_capacity (ch_shards (w_cache w)) = ch_capacity (w_cache w)) /\
  (w_resizing w = None -> ch_release (w_cache w) = false \/ live w = [] /\ w_pending w = [] -> total sh_weight (ch_shards (w_cache w)) <= ch_capacity (w_cache w)).
Proof.
  intros Hr. destruct (run_inv _ _ _ Hr _ (build_inv _ _ _ _ _ built some_shards capacity_fits policy_typed)) as [qss I]. pose proof (iv_shards _ _ I) as A.
  assert (Hone : forall i s, ch_shards (w_cache w) !! i = Some s -> sh_weight s <= sh_capacity s \/ ch_release (w_cache w) = true /\ forall id n, sh_nodes s !! id = Some n -> held_by_someone w (nd_record n)).
  { intros i s Hs. destruct (shards_queues _ _ _ i s A Hs) as (qs & Hq & At). pose proof At as (S & [F|[Hl Hi]] & _); [left; exact F|]. right. rewrite (is_lru_at w i s qs At) in Hl. split; [exact Hl|]. intros id n Hn.
    assert (Hrec : recs (lock (w_cache w) s) id = Some (nd_record n)) by (unfold recs; cbn; rewrite Hn; reflexivity). pose proof (so_queued _ _ _ _ _ _ S id _ Hrec) as Hin. destruct (iv_pins _ _ I Hl i s qs (nd_record n) Hs Hq) as [Hp|Hp]; [|left; apply held_pos_in; exact Hp | right; exact Hp].
    exists id. split; [|exact Hrec]. destruct Hi as [I0 I1]. pose proof (proj1 (wq_len _ _ (po_wired _ _ (so_policy _ _ _ _ _ _ S)))) as H3. destruct qs as [|q0 [|q1 [|q2 [|]]]]; try discriminate. injection I0 as ->. injection I1 as ->. cbn in Hin. rewrite app_nil_r in Hin. exact Hin. }
  pose proof (sa_some _ _ _ A) as Hn. pose proof (iv_limits _ _ I) as [M1 M2 _].
  assert (Hsum : w_resizing w = None -> total sh_capacity (ch_shards (w_cache w)) = ch_capacity (w_cache w)).
  { intros Hz. rewrite (total_at sh_capacity (fun i => partition (ch_capacity (w_cache w)) (Z.of_nat (length (ch_shards (w_cache w)))) (Z.of_nat i)) _ 0); [apply partition_sum; lia|]. intros i s Hs. rewrite (M1 i s Hs). unfold target. rewrite Hz. reflexivity. }
  split; [exact Hone|]. split; [exact Hsum|]. intros Hz Hfree. rewrite <- (Hsum Hz). apply total_le. intros s Hs. apply list_elem_of_lookup_1 in Hs as [i Hs]. destruct (Hone i s Hs) as [?|[Hl Hheld]]; [assumption|]. destruct Hfree as [?|[Hlive Hpend]]; [congruence|].
  destruct (shards_queues _ _ _ i s A Hs) as (qs & Hq & S & _). pose proof (so_weight _ _ _ _ _ _ S) as Hw. cbn in Hw. assert (Hempty : concat qs = []).
  { destruct (concat qs) as [|id l] eqn:Hc; [reflexivity|]. exfalso. destruct (queued_rec _ _ _ _ _ _ id S ltac:(rewrite Hc; left)) as [r Hrec]. unfold recs in Hrec. cbn in Hrec. destruct (sh_nodes s !! id) as [n|] eqn:Hnode; [|discriminate]. destruct (Hheld id n Hnode) as [(e & Hin & _)|Hin]; [rewrite Hlive in Hin | rewrite Hpend in Hin]; inversion Hin. }
  rewrite Hempty in Hw. cbn in Hw. rewrite Hw. rewrite (M1 i s Hs). unfold target. rewrite Hz. apply partition_nonneg; [exact M2 | unfold len; lia].
Qed.

Lemma unflagged {A} (g : gset Z -> A -> gset Z) (P : A -> Z -> Prop) (l : list A) : (forall f a rid, rid ∈ g f a <-> rid ∈ f /\ ~ P a rid) -> forall flags rid, rid ∈ fold_left g l flags <-> rid ∈ flags /\ forall a, a ∈ l -> ~ P a rid.
Proof.
  intros Hg. induction l as [|a l IH]; intros flags rid; cbn [fold_left]; [split; [intros Hin; split; [exact Hin | intros a Ha; inversion Ha] | tauto]|]. rewrite IH, Hg. split.
  - intros [[H1 H2] H3]. split; [exact H1|]. intros b Hb. apply elem_of_cons in Hb as [->|Hb]; auto.
  - intros [H1 H2]. split; [split; [exact H1 | apply H2; left]|]. intros b Hb. apply H2. right. exact Hb.
Qed.

Lemma elem_of_drop_inner (x : @Cache K V T) rid : rid ∈ drop_inner x <-> rid ∈ ch_resident x /\ forall s, s ∈ ch_shards x -> ~ exists id n, sh_nodes s !! id = Some n /\ rc_id (nd_record n) = rid.
Proof.
  unfold drop_inner. rewrite (unflagged _ (fun s rid => exists id n, sh_nodes s !! id = Some n /\ rc_id (nd_record n) = rid)); [reflexivity|]. intros f s k. rewrite (unflagged _ (fun e k => rc_id (nd_record (snd e)) = k)); [|intros f' e k'; rewrite elem_of_difference, elem_of_singleton; split; intros [Ha Hb]; split; congruence].
  split; (intros [H1 H2]; split; [exact H1|]).
  - intros (id & n & Hn & He). apply (H2 (id, n)); [apply elem_of_map_to_list; exact Hn | exact He].
  - intros [id n] Hin He. apply H2. exists id, n. split; [apply elem_of_map_to_list; exact Hin | exact He].
Qed.

(** the shared atomics tell the truth between critical sections:
    the entry counter is the number of nodes in all slabs and the resident
    counter the sum of the shard weights (both modulo 2^64), a record's
    resident flag is set exactly when some slab holds it, and its reference
    count is the number of live handles to it. Destroying the cache clears
    every flag. *)
Theorem counters_are_exact es w : run (start c) es w ->
  ct_entries (ch_counters (w_cache w)) = wrap64 (total entries_of (ch_shards (w_cache w))) /\
  ct_resident (ch_counters (w_cache w)) = wrap64 (total sh_weight (ch_shards (w_cache w))) /\
  (forall rid, rid ∈ ch_resident (w_cache w) <-> exists i s id n, ch_shards (w_cache w) !! i = Some s /\ sh_nodes s !! id = Some n /\ rc_id (nd_record n) = rid) /\
  (forall rid, default 0 (ch_references (w_cache w) !! rid) = held rid (live w)) /\
  drop_inner (w_cache w) = ∅.
Proof.
  intros Hr. destruct (run_inv _ _ _ Hr _ (build_inv _ _ _ _ _ built some_shards capacity_fits policy_typed)) as [qss I]. pose proof (iv_shards _ _ I) as A. destruct (shared_ok _ _ _ A) as [He Hw].
  assert (Hflags : forall rid, rid ∈ ch_resident (w_cache w) <-> exists i s id n, ch_shards (w_cache w) !! i = Some s /\ sh_nodes s !! id = Some n /\ rc_id (nd_record n) = rid).
  { intros rid. split.
    - intros Hin. destruct (lf_resident _ _ _ _ _ _ _ (iv_life _ _ I) rid Hin) as [r Hk]. destruct (home_shard w qss (rc_hash r) I) as (i & s & qs & Hh & Hs & Hq & S & _). apply (so_resident _ _ _ _ _ _ S) in Hin as [Hin|(id & r' & Hid & <-)].
      + apply elem_of_others in Hin as [Hel _]. unfold elsewhere in Hel. rewrite Hk in Hel. unfold shard_of in Hh. rewrite Hh, Z.eqb_refl in Hel. discriminate.
      + unfold recs in Hid. cbn in Hid. destruct (sh_nodes s !! id) as [n|] eqn:Hn; [|discriminate]. injection Hid as <-. exists i, s, id, n. auto.
    - intros (i & s & id & n & Hs & Hn & <-). destruct (shards_queues _ _ _ i s A Hs) as (qs & Hq & S & _). apply (so_resident _ _ _ _ _ _ S). right. exists id, (nd_record n). split; [unfold recs; cbn; rewrite Hn; reflexivity | reflexivity]. }
  split; [exact He|]. split; [exact Hw|]. split; [exact Hflags|]. split; [apply (iv_books _ _ I)|].
  apply set_eq. intros rid. rewrite elem_of_drop_inner, Hflags. split; [|intros Hin; apply elem_of_empty in Hin; contradiction]. intros [(i & s & id & n & Hs & Hn & Hid) Hno]. exfalso. apply (Hno s); [eapply list_elem_of_lookup_2; exact Hs | eauto].
Qed.
End Promises.

(** ** A run

    Two LRU shards of capacities 4 and 3, an even key under the first: a
    version committed twice, read, pinned over a resize, released. *)

Section Demo.
Context {K V T : Type} `{EqDecision K, HashTable T}.
Definition event_checked (w : @World K V T) (e : @Event K V) : bool :=
  match e with
  | EPrepare id _ _ _ => match w_known w !! id with None => true | Some _ => false end
  | EReject i | EAbandon i => (i <? length (w_prepared w))%nat
  | ECommit i slot | EPromote i slot =>
      match w_prepared w !! i with
      | Some (e, _) => match shard_nodes w (shard_of (w_cache w) (rc_hash (en_record e))) !! slot with Some n => bool_decide (rc_key (nd_record n) = rc_key (en_record e)) | None => true end
      | None => false
      end
  | EGet _ | ERemove _ => true
  | EClear _ _ => false
  | EResize capacity => match w_resizing w with None => (0 <=? capacity) && (capacity <? 2 ^ 64) | Some _ => false end
  | EResizeShard => match w_resizing w with None => false | Some _ => true end
  | EFinish i => (i <? length (w_changes w))%nat
  | EDrop i => (i <? length (w_handles w))%nat
  | ERelease i => (i <? length (w_pending w))%nat
  end.

Lemma event_checked_ok w e : event_checked w e = true -> event_fits w e.
Proof.
  destruct e; cbn [event_checked event_fits]; intros Hc; try (apply Nat.ltb_lt; exact Hc); auto; try discriminate.
  - destruct (w_known w !! id); [discriminate | reflexivity].
  - unfold slot_fits. destruct (w_prepared w !! i) as [[e a]|]; [|discriminate]. intros n Hn. rewrite Hn in Hc. apply bool_decide_eq_true in Hc. exact Hc.
  - unfold slot_fits. destruct (w_prepared w !! i) as [[e a]|]; [|discriminate]. intros n Hn. rewrite Hn in Hc. apply bool_decide_eq_true in Hc. exact Hc.
  - destruct (w_resizing w); [discriminate|]. boolp. auto.
  - destruct (w_resizing w); [eauto | discriminate].
Qed.

Fixpoint exec (w : @World K V T) (es : list (@Event K V)) : option World :=
  match es with [] => Some w | e :: es => if event_checked w e then match step w e with Ok (_, w') => exec w' es | _ => None end else None end.

Lemma exec_run es : forall w w', exec w es = Some w' -> run w es w'.
Proof.
  induction es as [|e es IH]; intros w w'; cbn [exec]; [intros [= ->]; constructor|]. destruct (event_checked w e) eqn:Hc; [|discriminate]. destruct (step w e) as [[o w1]| |] eqn:Hs; try discriminate. intros He. econstructor; [apply event_checked_ok; exact Hc | eauto | apply IH; exact He].
Qed.
End Demo.

Definition demo_config : @Config Z Z := {| cf_hash := fun k => k; cf_weigher := fun _ v => v; cf_admission := fun _ _ => true; cf_listener := true |}.
Definition demo_policy : Policy := Lru LruConfig_default.
Definition demo : @Cache Z Z (list (Z * Z)) := match build demo_config 7 2 demo_policy with Ok c => c | _ => {| ch_config := demo_config; ch_policy := demo_policy; ch_shards := []; ch_counters := Counters_new 0; ch_capacity := 0; ch_resident := ∅; ch_references := ∅ |} end.
Lemma demo_built : build demo_config 7 2 demo_policy = Ok demo.
Proof. reflexivity. Qed.

Definition demo_events : list (@Event Z Z) :=
  [EPrepare 1 8 2 PNormal; ECommit 0 0; EPrepare 2 8 3 PHigh; ECommit 0 0; EFinish 0; EGet 8; EDrop 0; EResize 3; EResizeShard; EResizeShard; EResizeShard].
Definition demo_world : World := match exec (start demo) demo_events with Some w => w | None => start demo end.
Lemma demo_run : run (start demo) demo_events demo_world.
Proof. apply exec_run. unfold demo_world. assert (He : match exec (start demo) demo_events with Some _ => true | None => false end = true) by (vm_compute; reflexivity). destruct (exec (start demo) demo_events); [reflexivity | discriminate]. Qed.

Lemma memory_cache_never_panics_witness : (exists o w', step demo_world (EDrop 1) = Ok (o, w')) /\ forall key, exists b, contains (w_cache demo_world) key = Ok b.
Proof. apply (memory_cache_never_panics demo_config 7 2 demo_policy demo demo_built eq_refl ltac:(lia) I demo_events demo_world); [exact demo_run | apply event_checked_ok; vm_compute; reflexivity]. Defined.

(** The second version is the one read. *)
Lemma hits_are_never_stale_witness : (match step demo_world (EGet 8) with Ok (Some e, _) => rc_value (en_record e) = 3 | _ => False end) /\ exists o w', step demo_world (EGet 8) = Ok (o, w') /\
  match o with Some e => rc_key (en_record e) = 8 /\ w_latest demo_world 8 = Some (rc_id (en_record e)) /\ w_known demo_world !! rc_id (en_record e) = Some (en_record e)
  | None => forall i s id n, ch_shards (w_cache demo_world) !! i = Some s -> sh_nodes s !! id = Some n -> rc_key (nd_record n) <> 8 end.
Proof. split; [vm_compute; reflexivity|]. apply (hits_are_never_stale demo_config 7 2 demo_policy demo demo_built eq_refl ltac:(lia) I demo_events demo_world 8). exact demo_run. Defined.

(** After the resize to 3 the first shard, with capacity 2, holds the pinned
    version of weight 3. *)
Lemma memory_within_capacity_witness : map (fun s => (sh_weight s, sh_capacity s)) (ch_shards (w_cache demo_world)) = [(3, 2); (0, 1)] /\ total sh_capacity (ch_shards (w_cache demo_world)) = ch_capacity (w_cache demo_world).
Proof. split; [vm_compute; reflexivity|]. apply (memory_within_capacity demo_config 7 2 demo_policy demo demo_built eq_refl ltac:(lia) I demo_events demo_world demo_run). vm_compute. reflexivity. Defined.

Lemma counters_are_exact_witness : ct_entries (ch_counters (w_cache demo_world)) = 1 /\ default 0 (ch_references (w_cache demo_world) !! 2) = held 2 (live demo_world).
Proof. split; [vm_compute; reflexivity|]. apply (counters_are_exact demo_config 7 2 demo_policy demo demo_built eq_refl ltac:(lia) I demo_events demo_world demo_run). Defined.
