(* ===== verification/Envelope.v ===== *)
(** * The envelope of a cached record (moat-cache/src/envelope.rs)

    The header, the key, the properties and the value of one cache entry in
    one chunk. Decoding accepts exactly what encoding writes. *)

From stdpp Require Import strings.
From S2P Require Import Prelude Codec MemPolicy Catalog.

Definition ENVELOPE_HEADER_LEN : Z := 56.
Definition ENVELOPE_MAGIC : list byte := [Byte.x4d; Byte.x4f; Byte.x41; Byte.x54; Byte.x43; Byte.x41; Byte.x43; Byte.x32].
Definition ENVELOPE_FORMAT : Z := 2.

Record Envelope := { ev_key : list byte; ev_properties : list byte; ev_value : list byte; ev_generation : Z; ev_priority : Priority }.
Record EnvelopeFormat := { ef_namespace : list byte; ef_identity_version : Z }.

Section Envelopes.
Context {SE : Type}.
Abbreviation cresult := (@cresult SE).

Definition u16_at (bytes : list byte) (at_ : Z) : cresult Z := let? s := slice bytes at_ (at_ + 2) in Ok (le_combine s).
Definition flag_of (p : Priority) : Z := match p with PHigh => 1 | PNormal => 0 end.

Definition set_generation (bytes : list byte) (generation : Z) : cresult (list byte) := copy_at bytes 32 (le_split 8 generation).

Definition sum_checked (a b c d : Z) : option Z := match checked_add a b with Some n => match checked_add n c with Some n => checked_add n d | None => None end | None => None end.

Definition envelope_encode (f : EnvelopeFormat) (r : Envelope) (max : Z) : cresult (list byte) :=
  let? l := ok_or (sum_checked ENVELOPE_HEADER_LEN (len (ev_key r)) (len (ev_properties r)) (len (ev_value r))) (cache.TooLarge U64_MAX max) in
  fail_if (l >? max) (cache.TooLarge l max) ;?
  fail_if (len (ev_key r) >=? 2 ^ 32) (cache.TooLarge l max) ;?
  fail_if (len (ev_properties r) >=? 2 ^ 32) (cache.TooLarge l max) ;?
  let output := zeros ENVELOPE_HEADER_LEN ++ ev_key r ++ ev_properties r ++ ev_value r in
  let? output := copy_at output 0 ENVELOPE_MAGIC in
  let? output := copy_at output 8 (le_split 2 ENVELOPE_FORMAT) in
  let? output := copy_at output 10 (le_split 2 (flag_of (ev_priority r))) in
  let? output := copy_at output 12 (le_split 4 (ef_identity_version f)) in
  let? output := copy_at output 16 (ef_namespace f) in
  let? output := copy_at output 32 (le_split 8 (ev_generation r)) in
  let? output := copy_at output 40 (le_split 4 (len (ev_key r))) in
  let? output := copy_at output 44 (le_split 4 (len (ev_properties r))) in
  copy_at output 48 (le_split 8 (len (ev_value r))).

(** [Bytes::slice]. *)
Definition bytes_slice (bytes : list byte) (a b : Z) : cresult (list byte) :=
  fail_if ((a >? b) || (b >? len bytes)) (cache.Invalid "byte range out of bounds"%string) ;? Ok (sub bytes a b).

Definition envelope_decode (f : EnvelopeFormat) (bytes : list byte) : cresult Envelope :=
  let? magic_ok := (if len bytes <? ENVELOPE_HEADER_LEN then Ok false else let? m := slice bytes 0 8 in Ok (bytes_eqb m ENVELOPE_MAGIC)) in
  fail_if (negb magic_ok) (cache.Corrupt "invalid envelope header"%string) ;?
  let? format := u16_at bytes 8 in
  fail_if (negb (format =? ENVELOPE_FORMAT)) (cache.Corrupt "unsupported envelope version"%string) ;?
  let? version := u32_at bytes 12 in
  let? namespace := slice bytes 16 32 in
  fail_if (negb (version =? ef_identity_version f) || negb (bytes_eqb namespace (ef_namespace f))) (cache.Corrupt "cache namespace or identity version mismatch"%string) ;?
  let? flags := u16_at bytes 10 in
  let? priority := (if flags =? 0 then Ok PNormal else if flags =? 1 then Ok PHigh else Err (cache.Corrupt "unknown envelope flags"%string)) in
  let? generation := u64_at bytes 32 in
  let? key_len := u32_at bytes 40 in
  let? properties_len := u32_at bytes 44 in
  let? value_len := u64_at bytes 48 in
  let? key_end := ok_or (checked_add ENVELOPE_HEADER_LEN key_len) (cache.Corrupt "key length overflow"%string) in
  let? properties_end := ok_or (checked_add key_end properties_len) (cache.Corrupt "properties length overflow"%string) in
  let? value_end := ok_or (checked_add properties_end value_len) (cache.Corrupt "entry length overflow"%string) in
  fail_if (negb (value_end =? len bytes)) (cache.Corrupt "envelope length mismatch"%string) ;?
  let? key := bytes_slice bytes ENVELOPE_HEADER_LEN key_end in
  let? properties := bytes_slice bytes key_end properties_end in
  let? value := bytes_slice bytes properties_end value_end in
  Ok {| ev_key := key; ev_properties := properties; ev_value := value; ev_generation := generation; ev_priority := priority |}.

(** ** The layout *)

Definition header_bytes (f : EnvelopeFormat) (r : Envelope) : list byte :=
  ENVELOPE_MAGIC ++ le_split 2 ENVELOPE_FORMAT ++ le_split 2 (flag_of (ev_priority r)) ++ le_split 4 (ef_identity_version f) ++ ef_namespace f ++ le_split 8 (ev_generation r) ++
  le_split 4 (len (ev_key r)) ++ le_split 4 (len (ev_properties r)) ++ le_split 8 (len (ev_value r)).
Definition envelope_bytes (f : EnvelopeFormat) (r : Envelope) : list byte := header_bytes f r ++ ev_key r ++ ev_properties r ++ ev_value r.
Definition envelope_len (r : Envelope) : Z := ENVELOPE_HEADER_LEN + len (ev_key r) + len (ev_properties r) + len (ev_value r).

Record format_typed (f : EnvelopeFormat) : Prop := { ft_namespace : len (ef_namespace f) = 16; ft_version : is_u32 (ef_identity_version f) }.
Record envelope_typed (r : Envelope) : Prop := { et_generation : is_u64 (ev_generation r); et_key : len (ev_key r) < 2 ^ 32; et_properties : len (ev_properties r) < 2 ^ 32; et_len : envelope_len r <= U64_MAX }.

Lemma len_header f r : format_typed f -> len (header_bytes f r) = 56.
Proof. intros [Hn _]. unfold header_bytes. autorewrite with moat_len. rewrite Hn. reflexivity. Qed.

Lemma sum_checked_some a b c d : 0 <= a -> 0 <= b -> 0 <= c -> 0 <= d -> sum_checked a b c d = if a + b + c + d <=? U64_MAX then Some (a + b + c + d) else None.
Proof.
  intros. unfold sum_checked, checked_add. destruct (a + b <=? U64_MAX) eqn:E1; boolp; [destruct (a + b + c <=? U64_MAX) eqn:E2; boolp; [reflexivity|]|]; destruct (a + b + c + d <=? U64_MAX) eqn:E3; boolp; reflexivity || lia.
Qed.

(** Writing the fields one after the other writes the header. *)
Lemma encode_writes f r max : format_typed f -> envelope_typed r -> envelope_len r <= max -> envelope_encode f r max = Ok (envelope_bytes f r).
Proof.
  intros Hf [Hg Hk Hp Hl] Hm. unfold envelope_len, ENVELOPE_HEADER_LEN in *. pose proof (len_nonneg (ev_key r)). pose proof (len_nonneg (ev_properties r)). pose proof (len_nonneg (ev_value r)).
  unfold envelope_encode, ENVELOPE_HEADER_LEN. rewrite sum_checked_some, (proj2 (Z.leb_le _ _) Hl) by lia. cbn [ok_or rbind].
  pass_guard; [|decide_guard]. pass_guard; [|decide_guard]. pass_guard; [|decide_guard]. set (body := ev_key r ++ ev_properties r ++ ev_value r).
  pose proof (ft_namespace _ Hf) as Hn. assert (Hz : len (zeros 56) = 56) by reflexivity. assert (Hlen : len (zeros 56 ++ body) = 56 + len body) by (rewrite len_app, Hz; lia). pose proof (len_nonneg body).
  assert (Hstep : forall (pre s : list byte) k, k = len pre -> len pre + len s <= 56 -> copy_at (E := cache.Error SE) (splice (zeros 56 ++ body) 0 pre) k s = Ok (splice (zeros 56 ++ body) 0 (pre ++ s))).
  { intros pre s k -> Hps. pose proof (len_nonneg pre). pose proof (len_nonneg s). rewrite copy_at_Ok by (rewrite ?len_splice by lia; lia). f_equal. apply (splice_adjacent (zeros 56 ++ body) 0 pre s); lia. }
  assert (Hmagic : len ENVELOPE_MAGIC = 8) by reflexivity. rewrite copy_at_Ok by lia. cbn [rbind]. do 7 (rewrite Hstep by (autorewrite with moat_len; lia); cbn [rbind]). rewrite Hstep by (autorewrite with moat_len; lia).
  f_equal. rewrite splice_front by (rewrite Hz; autorewrite with moat_len; lia). unfold envelope_bytes, header_bytes. rewrite <- !app_assoc. reflexivity.
Qed.

Lemma encode_inv f r max out : envelope_encode f r max = Ok out -> len (ev_key r) < 2 ^ 32 /\ len (ev_properties r) < 2 ^ 32 /\ envelope_len r <= max /\ envelope_len r <= U64_MAX.
Proof.
  unfold envelope_encode, envelope_len. pose proof (len_nonneg (ev_key r)). pose proof (len_nonneg (ev_properties r)). pose proof (len_nonneg (ev_value r)). rewrite sum_checked_some by (unfold ENVELOPE_HEADER_LEN; lia).
  destruct (_ <=? U64_MAX) eqn:E1; [|discriminate]. cbn [ok_or rbind]. unfold fail_if. destruct (_ >? max) eqn:E2; [discriminate|]. cbn [rbind]. destruct (len (ev_key r) >=? _) eqn:E3; [discriminate|]. cbn [rbind]. destruct (len (ev_properties r) >=? _) eqn:E4; [discriminate|]. intros _. boolp. lia.
Qed.

(** ** Decoding *)

Lemma u16_at_Ok bytes at_ : 0 <= at_ -> at_ + 2 <= len bytes -> u16_at bytes at_ = Ok (le_combine (sub bytes at_ (at_ + 2))).
Proof. intros. unfold u16_at. rewrite slice_Ok by lia. reflexivity. Qed.

(** The fields of a long enough input. *)
Definition decoded (f : EnvelopeFormat) (bytes : list byte) (r : Envelope) : Prop :=
  sub bytes 0 8 = ENVELOPE_MAGIC /\ le_combine (sub bytes 8 10) = ENVELOPE_FORMAT /\ le_combine (sub bytes 12 16) = ef_identity_version f /\ sub bytes 16 32 = ef_namespace f /\ le_combine (sub bytes 10 12) = flag_of (ev_priority r) /\
  le_combine (sub bytes 32 40) = ev_generation r /\ le_combine (sub bytes 40 44) = len (ev_key r) /\ le_combine (sub bytes 44 48) = len (ev_properties r) /\ le_combine (sub bytes 48 56) = len (ev_value r) /\
  sub bytes 56 (len bytes) = ev_key r ++ ev_properties r ++ ev_value r.

Lemma decode_fields f bytes : 56 <= len bytes <= U64_MAX ->
  (exists r, envelope_decode f bytes = Ok r /\ decoded f bytes r) \/ (exists e, envelope_decode f bytes = Err e) /\ forall r, ~ decoded f bytes r.
Proof.
  intros [Hl Hmax]. unfold envelope_decode, ENVELOPE_HEADER_LEN. rewrite (proj2 (Z.ltb_ge _ _)) by lia. rewrite slice_Ok by lia. cbn [rbind].
  assert (Hfail : forall e (Q : Envelope -> Prop), (forall r, ~ Q r) -> (exists r, @Err (cache.Error SE) Envelope e = Ok r /\ Q r) \/ (exists e', @Err (cache.Error SE) Envelope e = Err e') /\ forall r, ~ Q r) by (intros e Q HQ; right; split; [eauto | exact HQ]).
  destruct (bytes_eqb (sub bytes 0 8) ENVELOPE_MAGIC) eqn:E1; cbn [negb fail_if rbind]; [apply bytes_eqb_eq in E1|apply Hfail; intros r (D & _); rewrite D, bytes_eqb_refl in E1; discriminate].
  rewrite u16_at_Ok by lia. cbn [rbind]. change (8 + 2) with 10. destruct (le_combine (sub bytes 8 10) =? ENVELOPE_FORMAT) eqn:E2; cbn [negb fail_if rbind]; boolp; [|apply Hfail; intros r (_ & D & _); contradiction].
  rewrite u32_at_Ok, slice_Ok by lia. cbn [rbind]. change (12 + 4) with 16. destruct (le_combine (sub bytes 12 16) =? ef_identity_version f) eqn:E3; cbn [negb orb fail_if rbind]; boolp; [|apply Hfail; intros r (_ & _ & D & _); contradiction].
  destruct (bytes_eqb (sub bytes 16 32) (ef_namespace f)) eqn:E4; cbn [negb fail_if rbind]; [apply bytes_eqb_eq in E4|apply Hfail; intros r (_ & _ & _ & D & _); rewrite D, bytes_eqb_refl in E4; discriminate].
  rewrite u16_at_Ok by lia. cbn [rbind]. change (10 + 2) with 12.
  assert (Hpri : (exists p, (if le_combine (sub bytes 10 12) =? 0 then Ok PNormal else if le_combine (sub bytes 10 12) =? 1 then Ok PHigh else Err (cache.Corrupt "unknown envelope flags"%string)) = @Ok (cache.Error SE) _ p /\ le_combine (sub bytes 10 12) = flag_of p) \/
    (if le_combine (sub bytes 10 12) =? 0 then Ok PNormal else if le_combine (sub bytes 10 12) =? 1 then Ok PHigh else Err (cache.Corrupt "unknown envelope flags"%string)) = @Err (cache.Error SE) Priority (cache.Corrupt "unknown envelope flags"%string) /\ forall p, le_combine (sub bytes 10 12) <> flag_of p).
  { destruct (le_combine (sub bytes 10 12) =? 0) eqn:F0; boolp; [left; exists PNormal; auto|]. destruct (le_combine (sub bytes 10 12) =? 1) eqn:F1; boolp; [left; exists PHigh; auto|]. right. split; [reflexivity|]. intros []; assumption. }
  destruct Hpri as [(p & Hp & Hflag)|[Hp Hflag]]; rewrite Hp; cbn [rbind]; [|apply Hfail; intros r (_ & _ & _ & _ & D & _); eapply Hflag; exact D].
  rewrite !u32_at_Ok, !u64_at_Ok by lia. cbn [rbind]. change (32 + 8) with 40. change (40 + 4) with 44. change (44 + 4) with 48. change (48 + 8) with 56.
  set (g := le_combine (sub bytes 32 40)). set (kl := le_combine (sub bytes 40 44)). set (pl := le_combine (sub bytes 44 48)). set (vl := le_combine (sub bytes 48 56)).
  assert (Hkl : 0 <= kl < 2 ^ 32) by (apply (le_combine_range _ 4); rewrite len_sub; lia). assert (Hpl : 0 <= pl < 2 ^ 32) by (apply (le_combine_range _ 4); rewrite len_sub; lia). assert (Hvl : 0 <= vl < 2 ^ 64) by (apply (le_combine_range _ 8); rewrite len_sub; lia).
  unfold checked_add. rewrite (proj2 (Z.leb_le (56 + kl) U64_MAX)) by (unfold U64_MAX; lia). cbn [ok_or rbind]. rewrite (proj2 (Z.leb_le (56 + kl + pl) U64_MAX)) by (unfold U64_MAX; lia). cbn [ok_or rbind].
  assert (Hbody : forall r, decoded f bytes r -> 56 + kl + pl + vl = len bytes).
  { intros r (_ & _ & _ & _ & _ & _ & D1 & D2 & D3 & D4). unfold kl, pl, vl. rewrite D1, D2, D3. assert (Hx : len (sub bytes 56 (len bytes)) = len (ev_key r ++ ev_properties r ++ ev_value r)) by congruence. rewrite len_sub in Hx by lia. autorewrite with moat_len in Hx. lia. }
  destruct (56 + kl + pl + vl <=? U64_MAX) eqn:E5; boolp; cbn [ok_or rbind]; [|apply Hfail; intros r D; specialize (Hbody r D); lia].
  destruct (56 + kl + pl + vl =? len bytes) eqn:E6; boolp; cbn [negb fail_if rbind]; [|apply Hfail; intros r D; specialize (Hbody r D); contradiction].
  assert (Hslice : forall a b, 0 <= a -> a <= b -> b <= len bytes -> bytes_slice bytes a b = Ok (sub bytes a b)) by (intros a b Ha Hab Hb; unfold bytes_slice; pass_guard; [reflexivity | decide_guard]).
  rewrite !Hslice by lia. cbn [rbind]. left. eexists. split; [reflexivity|]. unfold decoded. cbn [ev_key ev_properties ev_value ev_generation ev_priority]. rewrite !len_sub by lia.
  do 6 (split; [assumption || reflexivity|]). split; [fold kl; lia|]. split; [fold pl; lia|]. split; [fold vl; lia|]. rewrite <- E6. rewrite (sub_split bytes 56 (56 + kl)) by lia. rewrite (sub_split bytes (56 + kl) (56 + kl + pl)) by lia. reflexivity.
Qed.

Lemma decoded_unique f bytes r r' : decoded f bytes r -> decoded f bytes r' -> r = r'.
Proof.
  intros (_ & _ & _ & _ & P & G & A1 & A2 & A3 & B) (_ & _ & _ & _ & P' & G' & A1' & A2' & A3' & B'). destruct r as [k pr v g p], r' as [k' pr' v' g' p']. cbn [ev_key ev_properties ev_value ev_generation ev_priority] in *.
  rewrite B in B'. unfold len in *. apply app_inj_1 in B' as [-> B']; [|lia]. apply app_inj_1 in B' as [-> ->]; [|lia]. f_equal; [congruence | destruct p, p'; cbn [flag_of] in *; reflexivity || lia].
Qed.

Lemma sub_mid {A} (a b c : list A) x y : len a = x -> x + len b = y -> sub (a ++ b ++ c) x y = b.
Proof. intros Hx Hy. pose proof (len_nonneg b). rewrite sub_app_r by lia. rewrite sub_app_l by lia. replace (x - len a) with 0 by lia. replace (y - len a) with (len b) by lia. apply sub_all. Qed.

(** A field of a concatenation, by its position. *)
Lemma field_at {A} (fs : list (list A)) (i : nat) (m : list A) (x y : Z) : fs !! i = Some m -> len (concat (take i fs)) = x -> x + len m = y -> sub (concat fs) x y = m.
Proof. intros Hi Hx Hy. rewrite <- (take_drop_middle fs i m Hi), concat_app. apply sub_mid; assumption. Qed.

Definition envelope_fields (f : EnvelopeFormat) (r : Envelope) : list (list byte) :=
  [ENVELOPE_MAGIC; le_split 2 ENVELOPE_FORMAT; le_split 2 (flag_of (ev_priority r)); le_split 4 (ef_identity_version f); ef_namespace f; le_split 8 (ev_generation r);
   le_split 4 (len (ev_key r)); le_split 4 (len (ev_properties r)); le_split 8 (len (ev_value r)); ev_key r ++ ev_properties r ++ ev_value r].

Lemma envelope_bytes_fields f r : envelope_bytes f r = concat (envelope_fields f r).
Proof. unfold envelope_bytes, header_bytes, envelope_fields. cbn [concat]. rewrite app_nil_r, <- !app_assoc. reflexivity. Qed.

Lemma len_envelope_bytes f r : format_typed f -> len (envelope_bytes f r) = envelope_len r.
Proof. intros Hf. unfold envelope_bytes, envelope_len, ENVELOPE_HEADER_LEN. rewrite !len_app, len_header by assumption. lia. Qed.

Lemma envelope_bytes_decoded f r : format_typed f -> envelope_typed r -> decoded f (envelope_bytes f r) r.
Proof.
  intros Hf Ht. pose proof (len_envelope_bytes f r Hf) as Hlen. destruct Hf as [Hn [Hv0 Hv1]], Ht as [[Hg0 Hg1] Hk Hp Hl]. unfold envelope_len, ENVELOPE_HEADER_LEN in *.
  pose proof (len_nonneg (ev_key r)). pose proof (len_nonneg (ev_properties r)). pose proof (len_nonneg (ev_value r)). assert (Hm : len ENVELOPE_MAGIC = 8) by reflexivity.
  unfold decoded. rewrite Hlen, envelope_bytes_fields.
  assert (Hat : forall i m x y, envelope_fields f r !! i = Some m -> len (concat (take i (envelope_fields f r))) = x -> x + len m = y -> sub (concat (envelope_fields f r)) x y = m) by (intros; eapply field_at; eassumption).
  rewrite (Hat 0%nat _ 0 8 eq_refl), (Hat 1%nat _ 8 10 eq_refl), (Hat 2%nat _ 10 12 eq_refl), (Hat 3%nat _ 12 16 eq_refl), (Hat 4%nat _ 16 32 eq_refl), (Hat 5%nat _ 32 40 eq_refl), (Hat 6%nat _ 40 44 eq_refl), (Hat 7%nat _ 44 48 eq_refl), (Hat 8%nat _ 48 56 eq_refl), (Hat 9%nat _ 56 _ eq_refl)
    by (cbn [envelope_fields take concat]; autorewrite with moat_len; unfold len in *; cbn [length] in *; lia).
  rewrite !le_combine_split. unfold ENVELOPE_FORMAT in *. do 9 (split; [try reflexivity; try (apply Z.mod_small; unfold U64_MAX in *; lia); destruct (ev_priority r); reflexivity|]). reflexivity.
Qed.

(** Every field of the input is the field the encoder writes for what was read. *)
Lemma decoded_bytes f bytes r : 56 <= len bytes -> decoded f bytes r -> bytes = envelope_bytes f r.
Proof.
  intros Hl (D0 & D1 & D3 & D4 & D2 & D5 & D6 & D7 & D8 & D9). rewrite envelope_bytes_fields. unfold envelope_fields. cbn [concat]. rewrite app_nil_r, <- D0, <- D1, <- D2, <- D3, <- D4, <- D5, <- D6, <- D7, <- D8, <- D9.
  assert (Hcs : forall a b n, 0 <= a -> b <= len bytes -> b - a = Z.of_nat n -> le_split n (le_combine (sub bytes a b)) = sub bytes a b).
  { intros a b n Ha Hb Hn. apply LittleEndianList.split_le_combine'. pose proof (len_sub bytes a b) as Hx. unfold len in *. lia. }
  rewrite !Hcs by lia. rewrite <- !sub_split by lia. symmetry. apply sub_all.
Qed.

Lemma decoded_typed f bytes r : 56 <= len bytes <= U64_MAX -> decoded f bytes r -> envelope_typed r.
Proof.
  intros Hl (_ & _ & _ & _ & _ & D5 & D6 & D7 & _ & D9). assert (Hx : len (sub bytes 56 (len bytes)) = len (ev_key r ++ ev_properties r ++ ev_value r)) by congruence. rewrite len_sub in Hx by lia. autorewrite with moat_len in Hx.
  split; [rewrite <- D5; apply (le_combine_range _ 8); rewrite len_sub; lia | rewrite <- D6; apply (le_combine_range _ 4); rewrite len_sub; lia | rewrite <- D7; apply (le_combine_range _ 4); rewrite len_sub; lia | unfold envelope_len, ENVELOPE_HEADER_LEN; lia].
Qed.

Lemma decode_bytes f r : format_typed f -> envelope_typed r -> envelope_decode f (envelope_bytes f r) = Ok r.
Proof.
  intros Hf Ht. pose proof (envelope_bytes_decoded f r Hf Ht) as Hd. pose proof (len_envelope_bytes f r Hf) as Hlen. destruct (decode_fields f (envelope_bytes f r)) as [(r' & -> & Hd')|[_ Hno]].
  - destruct Ht as [_ _ _ Hl]. unfold envelope_len, ENVELOPE_HEADER_LEN in *. pose proof (len_nonneg (ev_key r)). pose proof (len_nonneg (ev_properties r)). pose proof (len_nonneg (ev_value r)). lia.
  - f_equal. eapply decoded_unique; eassumption.
  - destruct (Hno r Hd).
Qed.

Definition with_generation (r : Envelope) (g : Z) : Envelope := {| ev_key := ev_key r; ev_properties := ev_properties r; ev_value := ev_value r; ev_generation := g; ev_priority := ev_priority r |}.

Lemma set_generation_bytes f r g : format_typed f -> set_generation (envelope_bytes f r) g = Ok (envelope_bytes f (with_generation r g)).
Proof.
  intros Hf. unfold set_generation. assert (Hpre : len (concat (take 5 (envelope_fields f r))) = 32) by (cbn [envelope_fields take concat]; autorewrite with moat_len; rewrite (ft_namespace _ Hf); reflexivity).
  rewrite copy_at_Ok; [|lia|rewrite len_envelope_bytes by assumption; autorewrite with moat_len; unfold envelope_len, ENVELOPE_HEADER_LEN; pose proof (len_nonneg (ev_key r)); pose proof (len_nonneg (ev_properties r)); pose proof (len_nonneg (ev_value r)); lia].
  f_equal. rewrite !envelope_bytes_fields. rewrite <- (take_drop_middle (envelope_fields f r) 5 (le_split 8 (ev_generation r)) eq_refl), concat_app, <- Hpre. cbn [concat]. rewrite splice_app by (autorewrite with moat_len; reflexivity).
  rewrite <- (take_drop_middle (envelope_fields f (with_generation r g)) 5 (le_split 8 g) eq_refl), concat_app. reflexivity.
Qed.

(** What [encode] writes is as long as its parts and no longer than the limit, [decode] gives the record back, and rewriting the generation in place with [set_generation] changes nothing but the generation the next decode reads. *)
Theorem envelope_roundtrip f r max out : format_typed f -> is_u64 (ev_generation r) -> envelope_encode f r max = Ok out ->
  len out = envelope_len r /\ envelope_len r <= max /\ envelope_decode f out = Ok r /\
  forall g, is_u64 g -> exists out', set_generation out g = Ok out' /\ envelope_decode f out' = Ok (with_generation r g).
Proof.
  intros Hf Hg He. destruct (encode_inv _ _ _ _ He) as (Hk & Hp & Hmax & Hl). rewrite encode_writes in He by (assumption || split; assumption). injection He as <-.
  split; [apply len_envelope_bytes; assumption|]. split; [assumption|]. split; [apply decode_bytes; [assumption | split; assumption]|].
  intros g Hg'. exists (envelope_bytes f (with_generation r g)). split; [apply set_generation_bytes; assumption | apply decode_bytes; [assumption | split; assumption]].
Qed.

(** Untrusted bytes never make it panic. *)
Lemma envelope_decode_safe f bytes : len bytes <= U64_MAX -> safe (envelope_decode f bytes).
Proof.
  intros Hmax. destruct (Z.lt_ge_cases (len bytes) 56) as [Hs|Hs]; [unfold envelope_decode, ENVELOPE_HEADER_LEN; rewrite (proj2 (Z.ltb_lt _ _) Hs); discriminate|].
  destruct (decode_fields f bytes ltac:(lia)) as [(r & Hr & _)|[[e He] _]]; [rewrite Hr | rewrite He]; discriminate.
Qed.

Lemma envelope_encode_safe f r max : format_typed f -> is_u64 (ev_generation r) -> safe (envelope_encode f r max).
Proof.
  intros Hf Hg. pose proof (len_nonneg (ev_key r)). pose proof (len_nonneg (ev_properties r)). pose proof (len_nonneg (ev_value r)).
  destruct (Z.le_gt_cases (envelope_len r) max) as [Hm|Hm], (Z.le_gt_cases (envelope_len r) U64_MAX) as [Hl|Hl], (Z.lt_ge_cases (len (ev_key r)) (2 ^ 32)) as [Hk|Hk], (Z.lt_ge_cases (len (ev_properties r)) (2 ^ 32)) as [Hp|Hp]; try (rewrite encode_writes by (assumption || split; assumption); discriminate).
  all: unfold envelope_encode; rewrite sum_checked_some by (unfold ENVELOPE_HEADER_LEN; lia); fold (envelope_len r); destruct (envelope_len r <=? U64_MAX) eqn:E; boolp; try lia; cbn [ok_or rbind]; try discriminate.
  all: destruct (envelope_len r >? max) eqn:E1; boolp; cbn [fail_if rbind]; try discriminate; try lia; destruct (len (ev_key r) >=? 2 ^ 32) eqn:E2; boolp; cbn [fail_if rbind]; try discriminate; try lia; destruct (len (ev_properties r) >=? 2 ^ 32) eqn:E3; boolp; cbn [fail_if rbind]; try discriminate; lia.
Qed.

(** C28: [decode] reads untrusted bytes without panicking and accepts exactly the encodings of this cache's format: it returns a record if and only if encoding that record gives the same bytes. *)
Theorem envelope_decode_exact f bytes : format_typed f -> len bytes <= U64_MAX ->
  safe (envelope_decode f bytes) /\ forall r, envelope_decode f bytes = Ok r <-> envelope_encode f r (len bytes) = Ok bytes /\ is_u64 (ev_generation r).
Proof.
  intros Hf Hmax. assert (Hback : forall r, envelope_encode f r (len bytes) = Ok bytes -> is_u64 (ev_generation r) -> envelope_decode f bytes = Ok r).
  { intros r He Hg. destruct (encode_inv _ _ _ _ He) as (Hk & Hp & Hm & Hl). rewrite encode_writes in He by (assumption || split; assumption). injection He as <-. apply decode_bytes; [assumption | split; assumption]. }
  destruct (Z.lt_ge_cases (len bytes) 56) as [Hs|Hs].
  - assert (He : envelope_decode f bytes = Err (cache.Corrupt "invalid envelope header"%string)) by (unfold envelope_decode, ENVELOPE_HEADER_LEN; rewrite (proj2 (Z.ltb_lt _ _) Hs); reflexivity).
    split; [rewrite He; discriminate|]. intros r. split; [rewrite He; discriminate | intros [H0 H1]; auto].
  - destruct (decode_fields f bytes ltac:(lia)) as [(r0 & Hr & Hd)|[[e Herr] Hno]].
    + split; [rewrite Hr; discriminate|]. intros r. split; [|intros [H0 H1]; auto]. rewrite Hr. intros [= <-]. pose proof (decoded_typed f bytes r0 ltac:(lia) Hd) as Ht. pose proof (decoded_bytes f bytes r0 Hs Hd) as Hb.
      split; [|apply Ht]. rewrite encode_writes; [congruence | assumption | assumption |]. rewrite <- (len_envelope_bytes f r0 Hf), <- Hb. lia.
    + split; [rewrite Herr; discriminate|]. intros r. split; [rewrite Herr; discriminate | intros [H0 H1]; auto].
Qed.
End Envelopes.

(** The record of the source's own test. *)
Definition test_format : EnvelopeFormat := {| ef_namespace := replicate 16 Byte.x03; ef_identity_version := 2 |}.
Definition test_envelope : Envelope := {| ev_key := [Byte.x6b; Byte.x65; Byte.x79]; ev_properties := le_split 8 7; ev_value := replicate 8 Byte.x09; ev_generation := 1; ev_priority := PHigh |}.

Lemma test_format_typed : format_typed test_format.
Proof. split; [reflexivity | unfold is_u32; cbn; lia]. Qed.

Lemma envelope_roundtrip_witness : exists out, envelope_encode (SE := unit) test_format test_envelope 128 = Ok out /\ len out = 75 /\ envelope_decode (SE := unit) test_format out = Ok test_envelope.
Proof.
  eexists. split; [vm_compute; reflexivity|]. match goal with |- len ?o = _ /\ _ => pose proof (envelope_roundtrip (SE := unit) test_format test_envelope 128 o test_format_typed ltac:(unfold is_u64; cbn; lia) ltac:(vm_compute; reflexivity)) as (H0 & _ & H2 & _) end.
  split; [exact H0 | exact H2].
Defined.

Lemma envelope_decode_exact_witness : safe (envelope_decode (SE := unit) test_format (envelope_bytes test_format test_envelope)).
Proof. apply (envelope_decode_exact (SE := unit) test_format (envelope_bytes test_format test_envelope) test_format_typed). vm_compute. discriminate. Defined.
