(* ===== verification/Registry.v ===== *)
(** * The registry of keys in flight (moat-cache/src/registry.rs)

    A key is registered while a lookup, a mutation or a fill token holds a
    lease on it; all leases on a key share one cell with the key's generation.
    A definition is one region between two accesses to what other threads see:
    the counters shared by the shards, or what a lock guards. The machine at
    the end runs these regions in any order; an [Arc] is a number, and a
    [oneshot] channel is one too. *)

From stdpp Require Import gmap.
From S2P Require Import Prelude Codec Catalog.

(** ** The table of a shard

    [hashbrown::HashTable]: values under the hashes they were inserted with. *)

Class EntryTable (V T : Type) := {
  tb_new : T;
  tb_len : T -> Z;
  tb_find : T -> Z -> (V -> bool) -> option V;
  (* an assignment through [find_mut] *)
  tb_update : T -> Z -> (V -> bool) -> (V -> V) -> T;
  tb_insert_unique : T -> Z -> V -> T;
  (* [find_entry] and [OccupiedEntry::remove] *)
  tb_remove : T -> Z -> (V -> bool) -> T
}.

Class EntryTableLaws (V T : Type) `{EntryTable V T} := {
  tb_elements : T -> list (Z * V);
  tb_new_elements : tb_elements tb_new = [];
  tb_len_elements : forall t, tb_len t = len (tb_elements t);
  tb_find_some : forall t h p v, tb_find t h p = Some v -> (h, v) ∈ tb_elements t /\ p v = true;
  tb_find_none : forall t h p, tb_find t h p = None -> forall v, (h, v) ∈ tb_elements t -> p v = false;
  tb_insert_elements : forall t h v, Permutation (tb_elements (tb_insert_unique t h v)) ((h, v) :: tb_elements t);
  tb_update_elements : forall t h p f v, tb_find t h p = Some v -> exists rest, Permutation (tb_elements t) ((h, v) :: rest) /\ Permutation (tb_elements (tb_update t h p f)) ((h, f v) :: rest);
  tb_remove_elements : forall t h p v, tb_find t h p = Some v -> Permutation (tb_elements t) ((h, v) :: tb_elements (tb_remove t h p))
}.

(** ** Data *)

Record KeyCell := { kc_generation : Z; kc_pending : Z; kc_waiters : list Z }.
Record Registered := { rd_key : list byte; rd_hash : Z; rd_state : Z; rd_leases : Z }.
Record KeyIndex (T : Type) := { ki_keys : T; ki_leases : Z; ki_bytes : Z }.
Arguments ki_keys {T}. Arguments ki_leases {T}. Arguments ki_bytes {T}. Arguments Build_KeyIndex {T}.
Record SharedKeys := { sk_leases : Z; sk_bytes : Z; sk_max_leases : Z; sk_max_key_bytes : Z; sk_closed : bool }.
Record Registry (T : Type) := { re_index : list (KeyIndex T); re_shared : SharedKeys; re_cells : gmap Z KeyCell }.
Arguments re_index {T}. Arguments re_shared {T}. Arguments re_cells {T}. Arguments Build_Registry {T}.
Record Lease := { ls_shard : Z; ls_hash : Z; ls_key : list byte; ls_state : Z }.

Definition sk_set (leases bytes : Z) (closed : bool) (s : SharedKeys) : SharedKeys :=
  {| sk_leases := leases; sk_bytes := bytes; sk_max_leases := sk_max_leases s; sk_max_key_bytes := sk_max_key_bytes s; sk_closed := closed |}.
Definition sk_set_leases (v : Z) (s : SharedKeys) : SharedKeys := sk_set v (sk_bytes s) (sk_closed s) s.
Definition sk_set_bytes (v : Z) (s : SharedKeys) : SharedKeys := sk_set (sk_leases s) v (sk_closed s) s.
Definition re_set_shared {T} (v : SharedKeys) (r : Registry T) : Registry T := {| re_index := re_index r; re_shared := v; re_cells := re_cells r |}.
Definition re_set_cells {T} (v : gmap Z KeyCell) (r : Registry T) : Registry T := {| re_index := re_index r; re_shared := re_shared r; re_cells := v |}.

Section Registry.
Context {SE T : Type} `{EntryTable Registered T}.
Abbreviation cresult := (@cresult SE).

(** ** A key's cell, under its lock *)

Definition fresh_cell : KeyCell := {| kc_generation := 0; kc_pending := 0; kc_waiters := [] |}.

Definition advance (s : KeyCell) : cresult (Z * KeyCell) :=
  let? generation := ok_or (checked_add (kc_generation s) 1) (cache.Invalid "key generation exhausted"%string) in
  Ok (generation, {| kc_generation := generation; kc_pending := kc_pending s; kc_waiters := kc_waiters s |}).

(** [sender] is the new channel's sending end. *)
Definition wait (is_canceled : Z -> bool) (sender : Z) (s : KeyCell) : KeyCell :=
  {| kc_generation := kc_generation s; kc_pending := kc_pending s; kc_waiters := List.filter (fun w => negb (is_canceled w)) (kc_waiters s) ++ [sender] |}.

(** [Mutation::drop] under the lock: the waiters to notify. *)
Definition end_mutation (s : KeyCell) : cresult (list Z * KeyCell) :=
  let? pending := sub64 (kc_pending s) 1 in
  if pending =? 0 then Ok (kc_waiters s, {| kc_generation := kc_generation s; kc_pending := pending; kc_waiters := [] |})
  else Ok ([], {| kc_generation := kc_generation s; kc_pending := pending; kc_waiters := kc_waiters s |}).

(** ** The registry *)

Definition Registry_new (max_leases max_key_bytes : Z) : Registry T :=
  {| re_index := replicate 64 {| ki_keys := tb_new; ki_leases := 0; ki_bytes := 0 |};
     re_shared := {| sk_leases := 0; sk_bytes := 0; sk_max_leases := max_leases; sk_max_key_bytes := max_key_bytes; sk_closed := false |};
     re_cells := ∅ |}.

(** The update [fetch_update] applies; [None] leaves the counter as it is. *)
Definition reserve (used amount limit : Z) : cresult (option Z) :=
  let? room := sub64 limit used in
  if amount <=? room then let? n := add64 used amount in Ok (Some n) else Ok None.

Definition check_open (r : Registry T) : cresult unit := fail_if (sk_closed (re_shared r)) cache.Closed.

(** With the shard's lock taken: one lease of the shared budget. *)
Definition reserve_lease (r : Registry T) : cresult (Registry T) :=
  let? n := reserve (sk_leases (re_shared r)) 1 (sk_max_leases (re_shared r)) in
  let? n := ok_or n cache.Busy in
  Ok (re_set_shared (sk_set_leases n (re_shared r)) r).

Definition same_key (key : list byte) (d : Registered) : bool := bytes_eqb (rd_key d) key.
Definition same_state (state : Z) (d : Registered) : bool := rd_state d =? state.
Definition set_rd_leases (n : Z) (d : Registered) : Registered := {| rd_key := rd_key d; rd_hash := rd_hash d; rd_state := rd_state d; rd_leases := n |}.

(** The rest of [acquire_hashed]: the key's cell, or a new one at the address
    [state] if the budget has room for the key; [None] if it has not. *)
Definition register (r : Registry T) (shard : Z) (key : list byte) (hash state : Z) : cresult (option Lease * Registry T) :=
  let? index := index_get (re_index r) shard in
  match tb_find (ki_keys index) hash (same_key key) with
  | Some d =>
      let? n := add64 (rd_leases d) 1 in
      let? leases := add64 (ki_leases index) 1 in
      let? shards := index_set (re_index r) shard {| ki_keys := tb_update (ki_keys index) hash (same_key key) (set_rd_leases n); ki_leases := leases; ki_bytes := ki_bytes index |} in
      Ok (Some {| ls_shard := shard; ls_hash := hash; ls_key := rd_key d; ls_state := rd_state d |}, {| re_index := shards; re_shared := re_shared r; re_cells := re_cells r |})
  | None =>
      let? n := reserve (sk_bytes (re_shared r)) (len key) (sk_max_key_bytes (re_shared r)) in
      match n with
      | None => Ok (None, r)
      | Some n =>
          let keys := tb_insert_unique (ki_keys index) hash {| rd_key := key; rd_hash := hash; rd_state := state; rd_leases := 1 |} in
          let? bytes := add64 (ki_bytes index) (len key) in
          let? leases := add64 (ki_leases index) 1 in
          let? shards := index_set (re_index r) shard {| ki_keys := keys; ki_leases := leases; ki_bytes := bytes |} in
          Ok (Some {| ls_shard := shard; ls_hash := hash; ls_key := key; ls_state := state |},
              {| re_index := shards; re_shared := sk_set_bytes n (re_shared r); re_cells := <[state := fresh_cell]> (re_cells r) |})
      end
  end.

(** [fetch_sub], which wraps. *)
Definition return_lease (r : Registry T) : Registry T := re_set_shared (sk_set_leases (wrap64 (sk_leases (re_shared r) - 1)) (re_shared r)) r.

(** [Lease::drop] up to the shared lease counter, and the rest of it. *)
Definition release_lease (r : Registry T) (l : Lease) : cresult (Registry T) :=
  let? index := index_get (re_index r) (ls_shard l) in
  let? leases := sub64 (ki_leases index) 1 in
  let? shards := index_set (re_index r) (ls_shard l) {| ki_keys := ki_keys index; ki_leases := leases; ki_bytes := ki_bytes index |} in
  Ok (return_lease {| re_index := shards; re_shared := re_shared r; re_cells := re_cells r |}).

Definition unregister (r : Registry T) (l : Lease) : cresult (Registry T) :=
  let? index := index_get (re_index r) (ls_shard l) in
  let? d := expect (tb_find (ki_keys index) (ls_hash l) (same_state (ls_state l))) in
  let? n := sub64 (rd_leases d) 1 in
  if n =? 0 then
    let? bytes := sub64 (ki_bytes index) (len (ls_key l)) in
    let? shards := index_set (re_index r) (ls_shard l) {| ki_keys := tb_remove (ki_keys index) (ls_hash l) (same_state (ls_state l)); ki_leases := ki_leases index; ki_bytes := bytes |} in
    Ok {| re_index := shards; re_shared := sk_set_bytes (wrap64 (sk_bytes (re_shared r) - len (ls_key l))) (re_shared r); re_cells := delete (ls_state l) (re_cells r) |}
  else
    let? shards := index_set (re_index r) (ls_shard l) {| ki_keys := tb_update (ki_keys index) (ls_hash l) (same_state (ls_state l)) (set_rd_leases n); ki_leases := ki_leases index; ki_bytes := ki_bytes index |} in
    Ok {| re_index := shards; re_shared := re_shared r; re_cells := re_cells r |}.

Definition close (r : Registry T) : Registry T := re_set_shared (sk_set (sk_leases (re_shared r)) (sk_bytes (re_shared r)) true (re_shared r)) r.
Definition is_closed (r : Registry T) : bool := sk_closed (re_shared r).

(** With every shard's lock taken. *)
Definition registry_snapshot (r : Registry T) : cresult (Z * Z * Z) :=
  foldl (fun acc s => let? (leases, keys, bytes) := acc in let? l := add64 leases (ki_leases s) in let? k := add64 keys (tb_len (ki_keys s)) in let? b := add64 bytes (ki_bytes s) in Ok (l, k, b)) (Ok (0, 0, 0)) (re_index r).

(** [Lease::valid], and with it [FillToken::is_valid]. *)
Definition lease_valid (r : Registry T) (l : Lease) (generation : Z) : cresult bool :=
  if is_closed r then Ok false
  else let? cell := expect (re_cells r !! ls_state l) in Ok (kc_generation cell =? generation).

(** What the cache does under a lease's lock when it accepts a mutation: the
    expected generation, if any, is checked, and the next one is taken. *)
Definition begin_mutation (expected : option Z) (s : KeyCell) : cresult (option Z * KeyCell) :=
  if match expected with Some e => negb (e =? kc_generation s) | None => false end then Ok (None, s)
  else
    let? (generation, s) := advance s in
    let? pending := add64 (kc_pending s) 1 in
    Ok (Some generation, {| kc_generation := kc_generation s; kc_pending := pending; kc_waiters := kc_waiters s |}).
End Registry.

(** ** The registry as a machine

    The regions of registry.rs in any order, on behalf of any number of
    threads. A thread inside a shard's lock is the phase of that shard; what
    threads hold (leases, mutations, channels) is part of the world, which also
    counts the generations each key was given. *)

(** A lease as a handle of its thread: held, inside an accepted mutation, or
    inside [Mutation::drop] with these waiters still to notify. *)
Inductive LeaseUse := Plain | Mutating | Notifying (waiters : list Z).

(** A shard's lock: an acquisition that has reserved its lease, one that found
    no room for its key, or a drop that has returned its lease. *)
Inductive Phase := Reserved (key : list byte) | Refused | Releasing (l : Lease).

Inductive KeyEvent :=
| KCheck (key : list byte)
| KLock (i : nat)
| KRegister (shard : nat) (state : Z)
| KGiveBack (shard : nat)
| KMutate (h : nat) (expected : option Z)
| KEndMutation (h : nat)
| KNotify (h : nat)
| KWait (h : nat) (sender : Z)
| KCancel (sender : Z)
| KRelease (h : nat)
| KUnregister (shard : nat)
| KClose.

Record KeyWorld (T : Type) := {
  kw_registry : Registry T;
  kw_checked : list (list byte);
  kw_phases : list (option Phase);
  kw_held : list (option (Lease * LeaseUse));
  kw_issued : gset Z;
  kw_canceled : gset Z;
  kw_woken : gset Z;
  kw_changes : list byte -> Z
}.
Arguments kw_registry {T}. Arguments kw_checked {T}. Arguments kw_phases {T}. Arguments kw_held {T}.
Arguments kw_issued {T}. Arguments kw_canceled {T}. Arguments kw_woken {T}. Arguments kw_changes {T}. Arguments Build_KeyWorld {T}.

Section Machine.
Context {SE T : Type} `{EntryTable Registered T} (hash_one : list byte -> Z).
Abbreviation cresult := (@cresult SE).
Implicit Types (w : KeyWorld T).

Definition kw_set_registry (r : Registry T) w : KeyWorld T :=
  {| kw_registry := r; kw_checked := kw_checked w; kw_phases := kw_phases w; kw_held := kw_held w; kw_issued := kw_issued w; kw_canceled := kw_canceled w; kw_woken := kw_woken w; kw_changes := kw_changes w |}.
Definition kw_set_checked (v : list (list byte)) w : KeyWorld T :=
  {| kw_registry := kw_registry w; kw_checked := v; kw_phases := kw_phases w; kw_held := kw_held w; kw_issued := kw_issued w; kw_canceled := kw_canceled w; kw_woken := kw_woken w; kw_changes := kw_changes w |}.
Definition kw_set_phase (i : nat) (p : option Phase) w : KeyWorld T :=
  {| kw_registry := kw_registry w; kw_checked := kw_checked w; kw_phases := <[i := p]> (kw_phases w); kw_held := kw_held w; kw_issued := kw_issued w; kw_canceled := kw_canceled w; kw_woken := kw_woken w; kw_changes := kw_changes w |}.
Definition kw_set_held (v : list (option (Lease * LeaseUse))) w : KeyWorld T :=
  {| kw_registry := kw_registry w; kw_checked := kw_checked w; kw_phases := kw_phases w; kw_held := v; kw_issued := kw_issued w; kw_canceled := kw_canceled w; kw_woken := kw_woken w; kw_changes := kw_changes w |}.
Definition kw_use (h : nat) (l : Lease) (u : LeaseUse) w : KeyWorld T := kw_set_held (<[h := Some (l, u)]> (kw_held w)) w.
Definition kw_set_channels (issued canceled woken : gset Z) w : KeyWorld T :=
  {| kw_registry := kw_registry w; kw_checked := kw_checked w; kw_phases := kw_phases w; kw_held := kw_held w; kw_issued := issued; kw_canceled := canceled; kw_woken := woken; kw_changes := kw_changes w |}.
Definition kw_change (key : list byte) w : KeyWorld T :=
  {| kw_registry := kw_registry w; kw_checked := kw_checked w; kw_phases := kw_phases w; kw_held := kw_held w; kw_issued := kw_issued w; kw_canceled := kw_canceled w; kw_woken := kw_woken w;
     kw_changes := fun k => if bytes_eqb k key then kw_changes w k + 1 else kw_changes w k |}.

(** The lease of a handle in one of the uses [ok], and the cell of a lease. *)
Definition handle w (h : nat) : steps (Lease * LeaseUse) := let? o := expect (kw_held w !! h) in expect o.
Definition cell w (l : Lease) : steps KeyCell := expect (re_cells (kw_registry w) !! ls_state l).
Definition put_cell (l : Lease) (c : KeyCell) w : KeyWorld T := kw_set_registry (re_set_cells (<[ls_state l := c]> (re_cells (kw_registry w))) (kw_registry w)) w.
Definition phase w (i : nat) : steps Phase := let? o := expect (kw_phases w !! i) in expect o.
Definition shard_of_key w (key : list byte) : Z := hash_one key mod len (re_index (kw_registry w)).

(** An error of the call leaves the world [we]. *)
Definition attempt {A} (m : cresult A) (we : KeyWorld T) (k : A -> KeyWorld T) : steps (option (cache.Error SE) * KeyWorld T) :=
  match m with Ok a => Ok (None, k a) | Err e => Ok (Some e, we) | Panic => Panic end.

(** The error returned to the caller, if any, and the next world. *)
Definition key_step w (e : KeyEvent) : steps (option (cache.Error SE) * KeyWorld T) :=
  match e with
  | KCheck key => attempt (check_open (kw_registry w)) w (fun _ => kw_set_checked (kw_checked w ++ [key]) w)
  | KLock i =>
      let? key := expect (kw_checked w !! i) in
      let w := kw_set_checked (delete i (kw_checked w)) w in
      attempt (reserve_lease (kw_registry w)) w (fun r => kw_set_phase (Z.to_nat (shard_of_key w key)) (Some (Reserved key)) (kw_set_registry r w))
  | KRegister shard state =>
      let? p := phase w shard in
      match p with
      | Reserved key =>
          attempt (register (kw_registry w) (Z.of_nat shard) key (hash_one key) state) w (fun '(lease, r) =>
            match lease with
            | Some l => kw_set_held (kw_held w ++ [Some (l, Plain)]) (kw_set_phase shard None (kw_set_registry r w))
            | None => kw_set_phase shard (Some Refused) (kw_set_registry r w)
            end)
      | _ => Panic
      end
  | KGiveBack shard =>
      let? p := phase w shard in
      match p with
      | Refused => Ok (Some cache.Busy, kw_set_phase shard None (kw_set_registry (return_lease (kw_registry w)) w))
      | _ => Panic
      end
  | KMutate h expected =>
      let? (l, u) := handle w h in
      let? c := cell w l in
      match u with
      | Plain =>
          attempt (begin_mutation expected c) w (fun '(accepted, c) =>
            match accepted with
            | Some _ => kw_change (ls_key l) (kw_use h l Mutating (put_cell l c w))
            | None => w
            end)
      | _ => Panic
      end
  | KEndMutation h =>
      let? (l, u) := handle w h in
      let? c := cell w l in
      match u with
      | Mutating => attempt (end_mutation c) w (fun '(waiters, c) => kw_use h l (Notifying waiters) (put_cell l c w))
      | _ => Panic
      end
  | KNotify h =>
      let? (l, u) := handle w h in
      match u with
      | Notifying [] => Ok (None, kw_use h l Plain w)
      | Notifying (s :: waiters) => Ok (None, kw_use h l (Notifying waiters) (kw_set_channels (kw_issued w) (kw_canceled w) ({[s]} ∪ kw_woken w) w))
      | _ => Panic
      end
  | KWait h sender =>
      let? (l, _) := handle w h in
      let? c := cell w l in
      Ok (None, kw_set_channels ({[sender]} ∪ kw_issued w) (kw_canceled w) (kw_woken w) (put_cell l (wait (fun s => bool_decide (s ∈ kw_canceled w)) sender c) w))
  | KCancel sender => Ok (None, kw_set_channels (kw_issued w) ({[sender]} ∪ kw_canceled w) (kw_woken w) w)
  | KRelease h =>
      let? (l, u) := handle w h in
      match u with
      | Plain => attempt (release_lease (kw_registry w) l) w (fun r => kw_set_held (<[h := None]> (kw_held w)) (kw_set_phase (Z.to_nat (ls_shard l)) (Some (Releasing l)) (kw_set_registry r w)))
      | _ => Panic
      end
  | KUnregister shard =>
      let? p := phase w shard in
      match p with
      | Releasing l => attempt (unregister (kw_registry w) l) w (fun r => kw_set_phase shard None (kw_set_registry r w))
      | _ => Panic
      end
  | KClose => Ok (None, kw_set_registry (close (kw_registry w)) w)
  end.

Definition key_start (r : Registry T) : KeyWorld T :=
  {| kw_registry := r; kw_checked := []; kw_phases := replicate (length (re_index r)) None; kw_held := []; kw_issued := ∅; kw_canceled := ∅; kw_woken := ∅; kw_changes := fun _ => 0 |}.

(** ** What threads may do

    A lock is taken when it is free, an allocation and a channel are new, and
    the cache waits only while mutations of the key are pending. *)

Definition unlocked w (i : nat) : Prop := kw_phases w !! i = Some None.
Definition held w (h : nat) (l : Lease) (u : LeaseUse) : Prop := kw_held w !! h = Some (Some (l, u)).

Definition key_fits w (e : KeyEvent) : Prop :=
  match e with
  | KCheck _ | KClose => True
  | KLock i => exists key, kw_checked w !! i = Some key /\ unlocked w (Z.to_nat (shard_of_key w key))
  | KRegister shard state => (exists key, kw_phases w !! shard = Some (Some (Reserved key))) /\ re_cells (kw_registry w) !! state = None
  | KGiveBack shard => kw_phases w !! shard = Some (Some Refused)
  | KMutate h _ => exists l, held w h l Plain
  | KEndMutation h => exists l, held w h l Mutating
  | KNotify h => exists l waiters, held w h l (Notifying waiters)
  | KWait h sender => (sender ∉ kw_issued w) /\ exists l c, held w h l Plain /\ re_cells (kw_registry w) !! ls_state l = Some c /\ kc_pending c <> 0
  | KCancel sender => sender ∈ kw_issued w
  | KRelease h => exists l, held w h l Plain /\ unlocked w (Z.to_nat (ls_shard l))
  | KUnregister shard => exists l, kw_phases w !! shard = Some (Some (Releasing l))
  end.

Inductive key_run : KeyWorld T -> list KeyEvent -> KeyWorld T -> Prop :=
| key_run_nil w : key_run w [] w
| key_run_cons w e es o w' w'' : key_fits w e -> key_step w e = Ok (o, w') -> key_run w' es w'' -> key_run w (e :: es) w''.

Lemma key_run_app w1 es1 w2 es2 w3 : key_run w1 es1 w2 -> key_run w2 es2 w3 -> key_run w1 (es1 ++ es2) w3.
Proof. induction 1; intros Hrun; [assumption|]. econstructor; eauto. Qed.
End Machine.
