(* ===== verification/RegistryInv.v ===== *)
(** * The books of the registry

    The counters agree with the tables, the tables with the leases, and every
    lease with the one cell of its key. *)

From stdpp Require Import gmap.
From S2P Require Import Prelude Codec Catalog Registry.

Definition holds (st : Z) (o : option Lease) : Z := match o with Some l => if ls_state l =? st then 1 else 0 | None => 0 end.
Definition is_held (o : option Lease) : Z := match o with Some _ => 1 | None => 0 end.
Definition releasing (st : Z) (p : option Phase) : Z := match p with Some (Releasing l) => if ls_state l =? st then 1 else 0 | _ => 0 end.
Definition in_lock (p : option Phase) : Z := match p with Some (Reserved _) | Some Refused => 1 | _ => 0 end.
Definition released (p : option Phase) : Z := match p with Some (Releasing _) => 1 | _ => 0 end.

Lemma holds_range st o : 0 <= holds st o <= is_held o.
Proof. destruct o as [l|]; cbn; [destruct (_ =? _)|]; lia. Qed.
Lemma releasing_range st p : 0 <= releasing st p <= released p.
Proof. destruct p as [[| |l]|]; cbn; try lia. destruct (_ =? _); lia. Qed.
Lemma in_lock_range p : 0 <= in_lock p <= 1.
Proof. destruct p as [[| |l]|]; cbn; lia. Qed.
Lemma holds_self st l : ls_state l = st -> holds st (Some l) = 1.
Proof. intros <-. cbn. rewrite Z.eqb_refl. reflexivity. Qed.
Lemma holds_other st l : ls_state l <> st -> holds st (Some l) = 0.
Proof. intros Hne. cbn. rewrite (proj2 (Z.eqb_neq _ _) Hne). reflexivity. Qed.
Lemma releasing_self st l : ls_state l = st -> releasing st (Some (Releasing l)) = 1.
Proof. intros <-. cbn. rewrite Z.eqb_refl. reflexivity. Qed.
Lemma releasing_other st l : ls_state l <> st -> releasing st (Some (Releasing l)) = 0.
Proof. intros Hne. cbn. rewrite (proj2 (Z.eqb_neq _ _) Hne). reflexivity. Qed.

Section Books.
Context {T : Type} `{EntryTableLaws Registered T} (hash_one : list byte -> Z).
Abbreviation KeyIndex := (KeyIndex T).
Implicit Types (ix : KeyIndex) (ixs : list KeyIndex) (sk : SharedKeys) (ps : list (option Phase)) (ls : list (option Lease)) (d : Registered) (l : Lease).

Definition refs ps ls (st : Z) : Z := total (holds st) ls + total (releasing st) ps.
Definition known ps ls l : Prop := (exists h, ls !! h = Some (Some l)) \/ (exists i, ps !! i = Some (Some (Releasing l))).
Definition registered_in ix : list Registered := (tb_elements (ki_keys ix)).*2.
Definition elems ixs : list Registered := concat (map registered_in ixs).

Record shard_fits (n : Z) (i : nat) ix (p : option Phase) : Prop := {
  sf_hash : forall h d, (h, d) ∈ tb_elements (ki_keys ix) -> h = hash_one (rd_key d) /\ h mod n = Z.of_nat i;
  sf_bytes : ki_bytes ix = total (fun d => len (rd_key d)) (registered_in ix);
  sf_leases : ki_leases ix + released p = total rd_leases (registered_in ix);
  sf_reserved : forall key, p = Some (Reserved key) -> hash_one key mod n = Z.of_nat i;
  sf_releasing : forall l, p = Some (Releasing l) -> ls_shard l = Z.of_nat i
}.

Record lease_fits ixs l : Prop := {
  lf_hash : ls_hash l = hash_one (ls_key l);
  lf_shard : ls_shard l = ls_hash l mod len ixs;
  lf_registered : exists d, d ∈ elems ixs /\ rd_state d = ls_state l /\ rd_key d = ls_key l
}.

Record books ixs sk ps ls : Prop := {
  bk_some : 0 < len ixs;
  bk_len : length ps = length ixs;
  bk_limits : sk_max_leases sk <= U64_MAX /\ sk_max_key_bytes sk <= U64_MAX;
  bk_shard : forall i ix p, ixs !! i = Some ix -> ps !! i = Some p -> shard_fits (len ixs) i ix p;
  bk_leases : sk_leases sk = total ki_leases ixs + total in_lock ps;
  bk_leases_max : sk_leases sk <= sk_max_leases sk;
  bk_bytes : sk_bytes sk = total ki_bytes ixs;
  bk_bytes_max : sk_bytes sk <= sk_max_key_bytes sk;
  bk_held : total is_held ls = total ki_leases ixs;
  bk_keys : NoDup (rd_key <$> elems ixs);
  bk_states : NoDup (rd_state <$> elems ixs);
  bk_refs : forall d, d ∈ elems ixs -> rd_leases d = refs ps ls (rd_state d) /\ 1 <= rd_leases d;
  bk_lease : forall l, known ps ls l -> lease_fits ixs l
}.

(** ** One shard among the others *)

Lemma elems_member ixs d : d ∈ elems ixs <-> exists i ix, ixs !! i = Some ix /\ d ∈ registered_in ix.
Proof.
  unfold elems. rewrite list_elem_of_In, in_concat. split.
  - intros (x & Hx & Hd). apply in_map_iff in Hx as (ix & <- & Hix). apply list_elem_of_In, list_elem_of_lookup in Hix as [i Hi]. exists i, ix. split; [assumption|]. apply list_elem_of_In. assumption.
  - intros (i & ix & Hi & Hd). exists (registered_in ix). split; [apply in_map, list_elem_of_In, list_elem_of_lookup; eauto | apply list_elem_of_In; assumption].
Qed.

Lemma entries_member ix d : d ∈ registered_in ix <-> exists h, (h, d) ∈ tb_elements (ki_keys ix).
Proof. unfold registered_in. rewrite list_elem_of_fmap. split; [intros ([h d'] & -> & Hd); eauto | intros [h Hd]; exists (h, d); auto]. Qed.

Lemma elems_store ixs i ix ix' (a b : list Registered) rest :
  ixs !! i = Some ix -> Permutation (registered_in ix) (a ++ rest) -> Permutation (registered_in ix') (b ++ rest) ->
  exists others, Permutation (elems ixs) (a ++ others) /\ Permutation (elems (<[i := ix']> ixs)) (b ++ others).
Proof.
  intros Hi Ha Hb. exists (rest ++ elems (take i ixs) ++ elems (drop (S i) ixs)). unfold elems.
  assert (Hx : forall x y z : list Registered, Permutation (x ++ y ++ z) (y ++ x ++ z)) by (intros x y z; rewrite !app_assoc; apply Permutation_app_tail, Permutation_app_comm).
  rewrite <- (take_drop_middle ixs i ix Hi) at 1. rewrite (insert_take_drop ixs i ix') by (eapply lookup_lt_Some; exact Hi). rewrite !map_app, !concat_app. cbn [map concat]. split; [rewrite Hx, Ha, <- app_assoc; reflexivity | rewrite Hx, Hb, <- app_assoc; reflexivity].
Qed.

Lemma total_elems (f : Registered -> Z) ixs : total f (elems ixs) = total (fun ix => total f (registered_in ix)) ixs.
Proof. unfold elems. induction ixs as [|ix ixs IH]; [reflexivity|]. cbn [map concat]. rewrite total_concat, IH. reflexivity. Qed.

Lemma nodup_unique {B} (f : Registered -> B) (es : list Registered) d d' : NoDup (f <$> es) -> d ∈ es -> d' ∈ es -> f d = f d' -> d = d'.
Proof.
  intros Hn Hd Hd' He. apply list_elem_of_lookup in Hd as [i Hi], Hd' as [j Hj]. assert (i = j); [|congruence].
  eapply (NoDup_lookup (f <$> es) i j (f d)); [assumption | rewrite list_lookup_fmap, Hi; reflexivity | rewrite list_lookup_fmap, Hj, He; reflexivity].
Qed.

Section Held.
Context ixs sk ps ls (B : books ixs sk ps ls).

Lemma shard_phase i ix : ixs !! i = Some ix -> exists p, ps !! i = Some p /\ shard_fits (len ixs) i ix p.
Proof. intros Hi. destruct (lookup_lt_is_Some_2 ps i) as [p Hp]; [rewrite (bk_len _ _ _ _ B); eapply lookup_lt_Some; exact Hi|]. exists p. split; [assumption | eapply bk_shard; eassumption]. Qed.
Lemma phase_shard i p : ps !! i = Some p -> exists ix, ixs !! i = Some ix /\ shard_fits (len ixs) i ix p.
Proof. intros Hi. destruct (lookup_lt_is_Some_2 ixs i) as [ix Hx]; [rewrite <- (bk_len _ _ _ _ B); eapply lookup_lt_Some; exact Hi|]. exists ix. split; [assumption | eapply bk_shard; eassumption]. Qed.

Lemma refs_nonneg st : 0 <= total (holds st) ls /\ 0 <= total (releasing st) ps.
Proof. split; apply total_nonneg; intros x _; [apply holds_range | apply releasing_range]. Qed.

Lemma entries_positive i ix d : ixs !! i = Some ix -> d ∈ registered_in ix -> 1 <= rd_leases d.
Proof. intros Hi Hd. apply (bk_refs _ _ _ _ B). apply elems_member. eauto. Qed.

Lemma ki_bytes_range i ix : ixs !! i = Some ix -> 0 <= ki_bytes ix.
Proof. intros Hi. destruct (shard_phase i ix Hi) as (p & _ & S). rewrite (sf_bytes _ _ _ _ S). apply total_nonneg. intros. apply len_nonneg. Qed.

(** A drop in progress still has its key's entry in the table. *)
Lemma releasing_entry i l : ps !! i = Some (Some (Releasing l)) -> exists ix d, ixs !! i = Some ix /\ (ls_hash l, d) ∈ tb_elements (ki_keys ix) /\ rd_state d = ls_state l /\ rd_key d = ls_key l.
Proof.
  intros Hp. destruct (phase_shard i _ Hp) as (ix & Hi & S). destruct (bk_lease _ _ _ _ B l) as [Hh Hs (d & Hd & Hst & Hk)]; [right; eauto|]. pose proof (sf_releasing _ _ _ _ S l eq_refl) as Hl.
  apply elems_member in Hd as (j & jx & Hj & Hd). apply entries_member in Hd as [h Hd]. destruct (shard_phase j jx Hj) as (q & _ & S'). destruct (sf_hash _ _ _ _ S' h d Hd) as [-> Hm]. assert (j = i) as -> by (rewrite Hk, <- Hh, <- Hs in Hm; lia). exists ix, d. rewrite Hi in Hj. injection Hj as <-. rewrite Hk, <- Hh in Hd. auto.
Qed.

Lemma ki_leases_range i ix : ixs !! i = Some ix -> 0 <= ki_leases ix.
Proof.
  intros Hi. destruct (shard_phase i ix Hi) as (p & Hp & S). pose proof (sf_leases _ _ _ _ S) as Hl. assert (Hn : 0 <= total rd_leases (registered_in ix)) by (apply total_nonneg; intros d Hd; pose proof (entries_positive i ix d Hi Hd); lia).
  destruct p as [[key| |l]|]; cbn [released] in Hl; try lia. destruct (releasing_entry i l Hp) as (ix' & d & Hi' & Hd & _). rewrite Hi in Hi'. injection Hi' as <-.
  assert (Hd' : d ∈ registered_in ix) by (apply entries_member; eauto). assert (1 <= total rd_leases (registered_in ix)); [|lia]. transitivity (rd_leases d); [eapply entries_positive; eassumption|]. apply total_member; [|assumption]. intros d' Hd''. pose proof (entries_positive i ix d' Hi Hd''). lia.
Qed.

Lemma ki_leases_total i ix : ixs !! i = Some ix -> ki_leases ix + total in_lock ps <= sk_leases sk.
Proof. intros Hi. rewrite (bk_leases _ _ _ _ B). assert (ki_leases ix <= total ki_leases ixs); [|lia]. eapply total_lookup; [|exact Hi]. intros y Hy. apply list_elem_of_lookup in Hy as [j Hj]. eapply ki_leases_range. exact Hj. Qed.

Lemma ki_bytes_total i ix : ixs !! i = Some ix -> ki_bytes ix <= sk_bytes sk.
Proof. intros Hi. rewrite (bk_bytes _ _ _ _ B). eapply total_lookup; [|exact Hi]. intros y Hy. apply list_elem_of_lookup in Hy as [j Hj]. eapply ki_bytes_range. exact Hj. Qed.

Lemma totals_nonneg : 0 <= total ki_leases ixs /\ 0 <= total in_lock ps /\ 0 <= total ki_bytes ixs.
Proof.
  split; [|split]; apply total_nonneg; [intros y Hy; apply list_elem_of_lookup in Hy as [j Hj]; eapply ki_leases_range; exact Hj | intros x _; apply in_lock_range | intros y Hy; apply list_elem_of_lookup in Hy as [j Hj]; eapply ki_bytes_range; exact Hj].
Qed.

Lemma shared_range : 0 <= sk_leases sk <= U64_MAX /\ 0 <= sk_bytes sk <= U64_MAX.
Proof. pose proof totals_nonneg. pose proof (bk_leases _ _ _ _ B). pose proof (bk_bytes _ _ _ _ B). pose proof (bk_limits _ _ _ _ B). pose proof (bk_leases_max _ _ _ _ B). pose proof (bk_bytes_max _ _ _ _ B). lia. Qed.

Lemma lock_counted i p : ps !! i = Some p -> in_lock p <= total in_lock ps.
Proof. apply total_lookup. intros x _. apply in_lock_range. Qed.

Lemma leases_of_key d : d ∈ elems ixs -> total (holds (rd_state d)) ls <= sk_leases sk.
Proof. intros Hd. pose proof totals_nonneg. rewrite (bk_leases _ _ _ _ B), <- (bk_held _ _ _ _ B). assert (total (holds (rd_state d)) ls <= total is_held ls); [|lia]. apply total_le. intros x _. apply holds_range. Qed.
End Held.
End Books.

(** ** The steps of the registry keep its books *)

Section Steps.
Context {T : Type} `{EntryTableLaws Registered T} (hash_one : list byte -> Z).
Abbreviation KeyIndex := (KeyIndex T).
Abbreviation books := (books hash_one).
Abbreviation shard_fits := (shard_fits hash_one).
Abbreviation lease_fits := (lease_fits hash_one).
Implicit Types (ix : KeyIndex) (ixs : list KeyIndex) (sk : SharedKeys) (ps : list (option Phase)) (ls : list (option Lease)) (d : Registered) (l : Lease).

Definition same_limits sk sk' : Prop := sk_max_leases sk' = sk_max_leases sk /\ sk_max_key_bytes sk' = sk_max_key_bytes sk.

Lemma len_insert {A} (l : list A) i x : len (<[i := x]> l) = len l.
Proof. unfold len. rewrite length_insert. reflexivity. Qed.

Lemma lease_fits_store ixs ixs' l (a b others : list Registered) :
  lease_fits ixs l -> len ixs' = len ixs -> Permutation (elems ixs) (a ++ others) -> Permutation (elems ixs') (b ++ others) ->
  (forall d, d ∈ a -> rd_state d = ls_state l -> exists d', d' ∈ b /\ rd_state d' = rd_state d /\ rd_key d' = rd_key d) -> lease_fits ixs' l.
Proof.
  intros [Hh Hs (d & Hd & Hst & Hk)] Hl Ha Hb Hab. split; [assumption | rewrite Hl; assumption|]. rewrite Ha in Hd. apply elem_of_app in Hd as [Hd|Hd].
  - destruct (Hab d Hd Hst) as (d' & Hd' & Hst' & Hk'). exists d'. rewrite Hb. split; [apply elem_of_app; auto|]. split; congruence.
  - exists d. rewrite Hb. split; [apply elem_of_app; auto | auto].
Qed.

(** A shard with its phase replaced: what the new shard must satisfy. *)
Lemma books_store ixs sk ps ls i ix ix' p p' sk' ls' a b rest :
  books ixs sk ps ls -> ixs !! i = Some ix -> ps !! i = Some p -> Permutation (registered_in ix) (a ++ rest) -> Permutation (registered_in ix') (b ++ rest) ->
  shard_fits (len ixs) i ix' p' -> same_limits sk sk' ->
  sk_leases sk' = sk_leases sk + (ki_leases ix' - ki_leases ix) + (in_lock p' - in_lock p) -> sk_leases sk' <= sk_max_leases sk ->
  sk_bytes sk' = sk_bytes sk + (ki_bytes ix' - ki_bytes ix) -> sk_bytes sk' <= sk_max_key_bytes sk ->
  total is_held ls' = total is_held ls + (ki_leases ix' - ki_leases ix) ->
  (forall others, Permutation (elems ixs) (a ++ others) -> Permutation (elems (<[i := ix']> ixs)) (b ++ others) ->
     NoDup (rd_key <$> b ++ others) /\ NoDup (rd_state <$> b ++ others) /\
     (forall d, d ∈ b -> rd_leases d = refs (<[i := p']> ps) ls' (rd_state d) /\ 1 <= rd_leases d) /\
     (forall d, d ∈ others -> refs (<[i := p']> ps) ls' (rd_state d) = refs ps ls (rd_state d)) /\
     (forall l, known (<[i := p']> ps) ls' l -> lease_fits (<[i := ix']> ixs) l)) ->
  books (<[i := ix']> ixs) sk' (<[i := p']> ps) ls'.
Proof.
  intros B Hi Hp Ha Hb S [Hm1 Hm2] Hl Hlm Hy Hym Hh Ho. destruct (elems_store ixs i ix ix' a b rest Hi Ha Hb) as (others & Pa & Pb). destruct (Ho others Pa Pb) as (Hk & Hst & Hrb & Hro & Hle). clear Ho.
  pose proof (bk_leases _ _ _ _ _ B). pose proof (bk_bytes _ _ _ _ _ B). pose proof (bk_held _ _ _ _ _ B). constructor.
  - rewrite len_insert. apply (bk_some _ _ _ _ _ B).
  - rewrite !length_insert. apply (bk_len _ _ _ _ _ B).
  - rewrite Hm1, Hm2. apply (bk_limits _ _ _ _ _ B).
  - intros j jx q Hj Hq. rewrite len_insert. destruct (decide (i = j)) as [<-|Hne].
    + rewrite list_lookup_insert_eq in Hj by (eapply lookup_lt_Some; exact Hi). rewrite list_lookup_insert_eq in Hq by (eapply lookup_lt_Some; exact Hp). injection Hj as <-. injection Hq as <-. exact S.
    + rewrite list_lookup_insert_ne in Hj by assumption. rewrite list_lookup_insert_ne in Hq by assumption. eapply bk_shard; eassumption.
  - rewrite !(total_insert _ _ i _ _ Hi), (total_insert _ _ i _ _ Hp). lia.
  - rewrite Hm1. assumption.
  - rewrite !(total_insert _ _ i _ _ Hi). lia.
  - rewrite Hm2. assumption.
  - rewrite !(total_insert _ _ i _ _ Hi). lia.
  - rewrite Pb. assumption.
  - rewrite Pb. assumption.
  - intros d Hd. rewrite Pb in Hd. apply elem_of_app in Hd as [Hd|Hd]; [apply Hrb; assumption|]. rewrite (Hro d Hd). apply (bk_refs _ _ _ _ _ B). rewrite Pa. apply elem_of_app. auto.
  - assumption.
Qed.

(** ** Phases *)

Lemma known_phase ps ls i p p' l : ps !! i = Some p -> (forall l', p' = Some (Releasing l') -> False) -> known (<[i := p']> ps) ls l -> known ps ls l.
Proof.
  intros Hp Hn [Hh|[j Hj]]; [left; assumption|]. right. exists j. destruct (decide (i = j)) as [<-|Hne]; [|rewrite list_lookup_insert_ne in Hj by assumption; assumption].
  rewrite list_lookup_insert_eq in Hj by (eapply lookup_lt_Some; exact Hp). injection Hj as Hj. destruct (Hn _ Hj).
Qed.

(** Outside a drop, only the count of the lease differs. *)
Lemma books_phase ixs sk ps ls i p p' sk' :
  books ixs sk ps ls -> ps !! i = Some p -> released p = 0 -> released p' = 0 -> (forall key, p' = Some (Reserved key) -> hash_one key mod len ixs = Z.of_nat i) ->
  same_limits sk sk' -> sk_leases sk' = sk_leases sk + (in_lock p' - in_lock p) -> sk_leases sk' <= sk_max_leases sk -> sk_bytes sk' = sk_bytes sk -> books ixs sk' (<[i := p']> ps) ls.
Proof.
  intros B Hp Hr Hr' Hk Hm Hl Hlm Hb. destruct (phase_shard _ _ _ _ _ B i p Hp) as (ix & Hi & S). assert (Hno : forall l', p' = Some (Releasing l') -> False) by (intros l' ->; discriminate).
  rewrite <- (list_insert_id ixs i ix Hi). apply (books_store ixs sk ps ls i ix ix p p' sk' ls [] [] (registered_in ix) B Hi Hp (Permutation_refl _) (Permutation_refl _)); [|assumption|lia|assumption|lia|rewrite Hb; apply (bk_bytes_max _ _ _ _ _ B)|lia|].
  - destruct S as [S1 S2 S3 S4 S5]. split; [assumption | assumption | lia | assumption | intros l' Hl'; destruct (Hno _ Hl')].
  - intros others Pa _. cbn [app] in *. split; [rewrite <- Pa; apply (bk_keys _ _ _ _ _ B)|]. split; [rewrite <- Pa; apply (bk_states _ _ _ _ _ B)|]. split; [intros d Hd; inversion Hd|].
    split; [|intros l Hl'; rewrite (list_insert_id ixs i ix Hi); apply (bk_lease _ _ _ _ _ B), (known_phase ps ls i p p'); assumption].
    intros d _. unfold refs. rewrite (total_insert _ _ _ _ _ Hp). pose proof (releasing_range (rd_state d) p). pose proof (releasing_range (rd_state d) p'). lia.
Qed.

(** ** Registering a lease *)

Lemma known_app ps ls i p l l' : ps !! i = Some p -> known (<[i := None]> ps) (ls ++ [Some l]) l' -> l' = l \/ known ps ls l'.
Proof.
  intros Hp Hk. apply (known_phase ps (ls ++ [Some l]) i p None) in Hk; [|assumption|discriminate]. destruct Hk as [[h Hh]|Hr]; [|right; right; assumption]. apply lookup_app_Some in Hh as [Hh|[_ Hh]]; [right; left; eauto|]. left. apply list_lookup_singleton_Some in Hh as [_ Hh]. congruence.
Qed.

Lemma refs_register ps ls i key l st : ps !! i = Some (Some (Reserved key)) -> refs (<[i := None]> ps) (ls ++ [Some l]) st = refs ps ls st + holds st (Some l).
Proof. intros Hp. unfold refs. rewrite total_snoc, (total_insert _ _ _ _ _ Hp). cbn [releasing]. lia. Qed.

(** Another lease on a registered key. *)
Lemma books_join ixs sk ps ls i ix ix' key d h rest :
  books ixs sk ps ls -> ixs !! i = Some ix -> ps !! i = Some (Some (Reserved key)) ->
  Permutation (tb_elements (ki_keys ix)) ((h, d) :: rest) -> Permutation (tb_elements (ki_keys ix')) ((h, set_rd_leases (rd_leases d + 1) d) :: rest) ->
  ki_leases ix' = ki_leases ix + 1 -> ki_bytes ix' = ki_bytes ix -> rd_key d = key -> h = hash_one key ->
  books (<[i := ix']> ixs) sk (<[i := None]> ps) (ls ++ [Some {| ls_shard := Z.of_nat i; ls_hash := hash_one key; ls_key := rd_key d; ls_state := rd_state d |}]).
Proof.
  intros B Hi Hp Pt Pt' Hl Hb Hk ->. set (l0 := {| ls_shard := _ |}). pose proof (bk_shard _ _ _ _ _ B i ix _ Hi Hp) as S.
  assert (Pe : Permutation (registered_in ix) ([d] ++ rest.*2)) by (unfold registered_in; rewrite Pt; reflexivity). assert (Pe' : Permutation (registered_in ix') ([set_rd_leases (rd_leases d + 1) d] ++ rest.*2)) by (unfold registered_in; rewrite Pt'; reflexivity).
  destruct (sf_hash _ _ _ _ _ S (hash_one key) d) as [_ Hmod]; [rewrite Pt; constructor|].
  apply (books_store ixs sk ps ls i ix ix' _ None sk _ _ _ (rest.*2) B Hi Hp Pe Pe'); [|split; reflexivity|cbn [in_lock]; lia|apply (bk_leases_max _ _ _ _ _ B)|lia|apply (bk_bytes_max _ _ _ _ _ B)|rewrite total_snoc; cbn [is_held]; lia|].
  - split; [| rewrite Hb, (sf_bytes _ _ _ _ _ S), Pe, Pe'; reflexivity | | discriminate | discriminate].
    + intros h' d' Hd'. rewrite Pt' in Hd'. apply elem_of_cons in Hd' as [[= -> ->]|Hd']; [cbn; rewrite Hk; auto|]. apply (sf_hash _ _ _ _ _ S). rewrite Pt. constructor. assumption.
    + pose proof (sf_leases _ _ _ _ _ S) as Hs. rewrite Pe in Hs. rewrite Pe'. cbn [app released] in *. rewrite total_cons in *. cbn [set_rd_leases rd_leases]. lia.
  - intros others Pa Pb. pose proof (bk_keys _ _ _ _ _ B) as Nk. pose proof (bk_states _ _ _ _ _ B) as Ns. rewrite Pa in Nk, Ns. split; [exact Nk|]. split; [exact Ns|].
    assert (Hd : d ∈ elems ixs) by (rewrite Pa; constructor). destruct (bk_refs _ _ _ _ _ B d Hd) as [Hr Hr1].
    split; [|split].
    + intros d' Hd'. apply list_elem_of_singleton in Hd' as ->. cbn [set_rd_leases rd_state rd_leases]. rewrite (refs_register _ _ _ _ _ _ Hp), holds_self by reflexivity. lia.
    + intros d' Hd'. rewrite (refs_register _ _ _ _ _ _ Hp), holds_other; [lia|]. cbn. intros He. cbn [app fmap list_fmap] in Ns. apply NoDup_cons in Ns as [Ns _]. apply Ns. rewrite He. apply list_elem_of_fmap. eauto.
    + intros l' Hl'. assert (Hx : l' = l0 \/ known ps ls l') by (eapply known_app; eassumption). destruct Hx as [->|Hl''].
      * split; [cbn; rewrite Hk; reflexivity | cbn; rewrite len_insert; congruence |]. exists (set_rd_leases (rd_leases d + 1) d). rewrite Pb. split; [constructor | auto].
      * eapply lease_fits_store; [apply (bk_lease _ _ _ _ _ B); assumption | apply len_insert | exact Pa | exact Pb|]. intros d' Hd' _. apply list_elem_of_singleton in Hd' as ->. eexists. split; [constructor | auto].
Qed.

(** The first lease on a key. *)
Lemma books_enter ixs sk ps ls i ix ix' key st :
  books ixs sk ps ls -> ixs !! i = Some ix -> ps !! i = Some (Some (Reserved key)) ->
  (forall d, (hash_one key, d) ∈ tb_elements (ki_keys ix) -> rd_key d <> key) -> st ∉ rd_state <$> elems ixs ->
  Permutation (tb_elements (ki_keys ix')) ((hash_one key, {| rd_key := key; rd_hash := hash_one key; rd_state := st; rd_leases := 1 |}) :: tb_elements (ki_keys ix)) ->
  ki_leases ix' = ki_leases ix + 1 -> ki_bytes ix' = ki_bytes ix + len key -> sk_bytes sk + len key <= sk_max_key_bytes sk ->
  books (<[i := ix']> ixs) (sk_set_bytes (sk_bytes sk + len key) sk) (<[i := None]> ps) (ls ++ [Some {| ls_shard := Z.of_nat i; ls_hash := hash_one key; ls_key := key; ls_state := st |}]).
Proof.
  intros B Hi Hp Hnew Hst Pt Hl Hb Hmax. set (l0 := {| ls_shard := _ |}). set (d0 := {| rd_key := key |}) in *. pose proof (bk_shard _ _ _ _ _ B i ix _ Hi Hp) as S. pose proof (sf_reserved _ _ _ _ _ S key eq_refl) as Hmod.
  assert (Pe : Permutation (registered_in ix') ([d0] ++ registered_in ix)) by (unfold registered_in; rewrite Pt; reflexivity).
  assert (Hfresh : rd_key d0 ∉ rd_key <$> elems ixs).
  { intros Hin. apply list_elem_of_fmap in Hin as (d & Hk & Hd). apply elems_member in Hd as (j & jx & Hj & Hd). apply entries_member in Hd as [h Hd]. destruct (shard_phase _ _ _ _ _ B j jx Hj) as (q & _ & S'). destruct (sf_hash _ _ _ _ _ S' h d Hd) as [-> Hm].
    cbn in Hk. rewrite <- Hk in Hm, Hd. assert (j = i) as -> by lia. rewrite Hi in Hj. injection Hj as <-. exact (Hnew d Hd (eq_sym Hk)). }
  assert (Hno : refs ps ls st = 0).
  { assert (Hk : forall l, known ps ls l -> ls_state l <> st). { intros l Hkl <-. apply Hst. destruct (bk_lease _ _ _ _ _ B l Hkl) as [_ _ (d & Hd & He & _)]. rewrite <- He. apply list_elem_of_fmap. eauto. }
    unfold refs. rewrite !total_zero; [reflexivity| |].
    - intros p Hp'. apply list_elem_of_lookup in Hp' as [j Hj]. destruct p as [[| |l]|]; try reflexivity. apply releasing_other, Hk. right. eauto.
    - intros o Ho. apply list_elem_of_lookup in Ho as [j Hj]. destruct o as [l|]; [|reflexivity]. apply holds_other, Hk. left. eauto. }
  apply (books_store ixs sk ps ls i ix ix' _ None _ _ [] [d0] (registered_in ix) B Hi Hp (Permutation_refl _) Pe); [|split; reflexivity|cbn [in_lock sk_set_bytes sk_set sk_leases]; lia|apply (bk_leases_max _ _ _ _ _ B)|cbn [sk_set_bytes sk_set sk_bytes]; lia|exact Hmax|rewrite total_snoc; cbn [is_held]; lia|].
  - split; [| rewrite Hb, (sf_bytes _ _ _ _ _ S), Pe; cbn [app]; rewrite total_cons; cbn; lia | | discriminate | discriminate].
    + intros h' d' Hd'. rewrite Pt in Hd'. apply elem_of_cons in Hd' as [[= -> ->]|Hd']; [cbn; auto|]. apply (sf_hash _ _ _ _ _ S). assumption.
    + pose proof (sf_leases _ _ _ _ _ S) as Hs. rewrite Pe. cbn [app released] in *. rewrite total_cons. cbn. lia.
  - intros others Pa Pb. cbn [app] in Pa. pose proof (bk_keys _ _ _ _ _ B) as Nk. pose proof (bk_states _ _ _ _ _ B) as Ns. rewrite Pa in Nk, Ns, Hfresh, Hst. split; [apply NoDup_cons; auto|]. split; [apply NoDup_cons; auto|].
    split; [|split].
    + intros d' Hd'. apply list_elem_of_singleton in Hd' as ->. cbn [d0 rd_state rd_leases]. rewrite (refs_register _ _ _ _ _ _ Hp), holds_self, Hno by reflexivity. lia.
    + intros d' Hd'. rewrite (refs_register _ _ _ _ _ _ Hp), holds_other; [lia|]. cbn. intros He. apply Hst. rewrite He. apply list_elem_of_fmap. eauto.
    + intros l' Hl'. assert (Hx : l' = l0 \/ known ps ls l') by (eapply known_app; eassumption). destruct Hx as [->|Hl''].
      * split; [reflexivity | cbn; rewrite len_insert; congruence |]. exists d0. rewrite Pb. split; [constructor | auto].
      * eapply (lease_fits_store ixs _ _ []); [apply (bk_lease _ _ _ _ _ B); assumption | apply len_insert | exact Pa | exact Pb|]. intros d' Hd'. inversion Hd'.
Qed.

(** ** Dropping a lease *)

Lemma refs_release ps ls i h l st : ps !! i = Some None -> ls !! h = Some (Some l) -> refs (<[i := Some (Releasing l)]> ps) (<[h := None]> ls) st = refs ps ls st.
Proof. intros Hp Hh. unfold refs. rewrite (total_insert _ _ _ _ _ Hp), (total_insert _ _ _ _ _ Hh). cbn [releasing holds]. lia. Qed.

Lemma known_release ps ls i h l l' : ps !! i = Some None -> ls !! h = Some (Some l) -> known (<[i := Some (Releasing l)]> ps) (<[h := None]> ls) l' -> known ps ls l'.
Proof.
  intros Hp Hh [[h' Hh']|[j Hj]].
  - left. exists h'. destruct (decide (h = h')) as [<-|Hne]; [|rewrite list_lookup_insert_ne in Hh' by assumption; assumption]. rewrite list_lookup_insert_eq in Hh' by (eapply lookup_lt_Some; exact Hh). discriminate.
  - destruct (decide (i = j)) as [<-|Hne]; [|rewrite list_lookup_insert_ne in Hj by assumption; right; eauto]. rewrite list_lookup_insert_eq in Hj by (eapply lookup_lt_Some; exact Hp). injection Hj as <-. left. eauto.
Qed.

Lemma books_release ixs sk ps ls i ix ix' h l :
  books ixs sk ps ls -> ixs !! i = Some ix -> ps !! i = Some None -> ls !! h = Some (Some l) -> ls_shard l = Z.of_nat i ->
  ki_keys ix' = ki_keys ix -> ki_leases ix' = ki_leases ix - 1 -> ki_bytes ix' = ki_bytes ix ->
  books (<[i := ix']> ixs) (sk_set_leases (sk_leases sk - 1) sk) (<[i := Some (Releasing l)]> ps) (<[h := None]> ls).
Proof.
  intros B Hi Hp Hh Hs Hk Hl Hb. pose proof (bk_shard _ _ _ _ _ B i ix _ Hi Hp) as S. assert (He : registered_in ix' = registered_in ix) by (unfold registered_in; rewrite Hk; reflexivity).
  assert (Hle : sk_leases sk - 1 <= sk_max_leases sk) by (pose proof (bk_leases_max _ _ _ _ _ B); lia).
  apply (books_store ixs sk ps ls i ix ix' _ _ _ _ [] [] (registered_in ix) B Hi Hp (Permutation_refl _)); [rewrite He; reflexivity | | split; reflexivity | cbn [in_lock sk_set_leases sk_set sk_leases]; lia | exact Hle | cbn [sk_set_leases sk_set sk_bytes]; lia | apply (bk_bytes_max _ _ _ _ _ B) | rewrite (total_insert _ _ _ _ _ Hh); cbn [is_held]; lia|].
  - destruct S as [S1 S2 S3 S4 S5]. split; [rewrite Hk; assumption | rewrite Hb, He; assumption | rewrite He; cbn [released] in *; lia | discriminate | intros l' [= <-]; assumption].
  - intros others Pa Pb. cbn [app] in Pa, Pb. split; [cbn [app]; rewrite <- Pa; apply (bk_keys _ _ _ _ _ B)|]. split; [cbn [app]; rewrite <- Pa; apply (bk_states _ _ _ _ _ B)|]. split; [intros d Hd; inversion Hd|]. split; [intros d _; apply refs_release; assumption|].
    intros l' Hl'. eapply (lease_fits_store ixs _ _ [] []); [apply (bk_lease _ _ _ _ _ B); eapply known_release; eassumption | apply len_insert | exact Pa | exact Pb|]. intros d' Hd'. inversion Hd'.
Qed.

Lemma refs_unregister ps ls i l st : ps !! i = Some (Some (Releasing l)) -> refs (<[i := None]> ps) ls st = refs ps ls st - releasing st (Some (Releasing l)).
Proof. intros Hp. unfold refs. rewrite (total_insert _ _ _ _ _ Hp). cbn [releasing]. lia. Qed.

(** Not the last lease on the key. *)
Lemma books_leave ixs sk ps ls i ix ix' d h rest l :
  books ixs sk ps ls -> ixs !! i = Some ix -> ps !! i = Some (Some (Releasing l)) -> rd_state d = ls_state l -> 1 < rd_leases d ->
  Permutation (tb_elements (ki_keys ix)) ((h, d) :: rest) -> Permutation (tb_elements (ki_keys ix')) ((h, set_rd_leases (rd_leases d - 1) d) :: rest) ->
  ki_leases ix' = ki_leases ix -> ki_bytes ix' = ki_bytes ix -> books (<[i := ix']> ixs) sk (<[i := None]> ps) ls.
Proof.
  intros B Hi Hp Hst Hmany Pt Pt' Hl Hb. pose proof (bk_shard _ _ _ _ _ B i ix _ Hi Hp) as S.
  assert (Pe : Permutation (registered_in ix) ([d] ++ rest.*2)) by (unfold registered_in; rewrite Pt; reflexivity). assert (Pe' : Permutation (registered_in ix') ([set_rd_leases (rd_leases d - 1) d] ++ rest.*2)) by (unfold registered_in; rewrite Pt'; reflexivity).
  apply (books_store ixs sk ps ls i ix ix' _ None sk _ _ _ (rest.*2) B Hi Hp Pe Pe'); [|split; reflexivity|cbn [in_lock]; lia|apply (bk_leases_max _ _ _ _ _ B)|lia|apply (bk_bytes_max _ _ _ _ _ B)|lia|].
  - split; [| rewrite Hb, (sf_bytes _ _ _ _ _ S), Pe, Pe'; reflexivity | | discriminate | discriminate].
    + intros h' d' Hd'. rewrite Pt' in Hd'. apply elem_of_cons in Hd' as [[= -> ->]|Hd']; [apply (sf_hash _ _ _ _ _ S h d); rewrite Pt; constructor|]. apply (sf_hash _ _ _ _ _ S). rewrite Pt. constructor. assumption.
    + pose proof (sf_leases _ _ _ _ _ S) as Hs. rewrite Pe in Hs. rewrite Pe'. cbn [app released] in *. rewrite total_cons in *. cbn [set_rd_leases rd_leases]. lia.
  - intros others Pa Pb. pose proof (bk_keys _ _ _ _ _ B) as Nk. pose proof (bk_states _ _ _ _ _ B) as Ns. rewrite Pa in Nk, Ns. split; [exact Nk|]. split; [exact Ns|].
    assert (Hd : d ∈ elems ixs) by (rewrite Pa; constructor). destruct (bk_refs _ _ _ _ _ B d Hd) as [Hr Hr1].
    split; [|split].
    + intros d' Hd'. apply list_elem_of_singleton in Hd' as ->. cbn [set_rd_leases rd_state rd_leases]. rewrite (refs_unregister _ _ _ _ _ Hp), releasing_self by congruence. lia.
    + intros d' Hd'. rewrite (refs_unregister _ _ _ _ _ Hp), releasing_other; [lia|]. rewrite <- Hst. intros He. cbn [app fmap list_fmap] in Ns. apply NoDup_cons in Ns as [Ns _]. apply Ns. rewrite He. apply list_elem_of_fmap. eauto.
    + intros l' Hl'. eapply lease_fits_store; [apply (bk_lease _ _ _ _ _ B); eapply known_phase; [exact Hp | | exact Hl']; discriminate | apply len_insert | exact Pa | exact Pb|]. intros d' Hd' _. apply list_elem_of_singleton in Hd' as ->. eexists. split; [constructor | auto].
Qed.

(** The last lease on the key: nothing refers to its cell any more. *)
Lemma last_lease ixs sk ps ls i d l : books ixs sk ps ls -> ps !! i = Some (Some (Releasing l)) -> d ∈ elems ixs -> rd_state d = ls_state l -> rd_leases d = 1 ->
  total (holds (ls_state l)) ls = 0 /\ forall l', known (<[i := None]> ps) ls l' -> ls_state l' <> ls_state l.
Proof.
  intros B Hp Hd Hst H1. destruct (bk_refs _ _ _ _ _ B d Hd) as [Hr _]. unfold refs in Hr. rewrite Hst in Hr. destruct (refs_nonneg ps ls (ls_state l)) as [N1 N2].
  assert (Hrel : 1 <= total (releasing (ls_state l)) ps). { rewrite <- (releasing_self (ls_state l) l eq_refl) at 1. eapply total_lookup; [|exact Hp]. intros x _. apply releasing_range. }
  split; [lia|]. intros l' [[h Hh]|[j Hj]] He.
  - assert (1 <= total (holds (ls_state l)) ls); [|lia]. rewrite <- (holds_self (ls_state l) l' He) at 1. eapply total_lookup; [|exact Hh]. intros x _. apply holds_range.
  - destruct (decide (i = j)) as [<-|Hne]; [rewrite list_lookup_insert_eq in Hj by (eapply lookup_lt_Some; exact Hp); discriminate|]. rewrite list_lookup_insert_ne in Hj by assumption.
    pose proof (total_lookup2 (releasing (ls_state l)) ps i j _ _ (fun x _ => proj1 (releasing_range _ x)) Hne Hp Hj) as H2. rewrite !releasing_self in H2 by congruence. lia.
Qed.

Lemma books_exit ixs sk ps ls i ix ix' d h l :
  books ixs sk ps ls -> ixs !! i = Some ix -> ps !! i = Some (Some (Releasing l)) -> rd_state d = ls_state l -> rd_leases d = 1 ->
  Permutation (tb_elements (ki_keys ix)) ((h, d) :: tb_elements (ki_keys ix')) -> ki_leases ix' = ki_leases ix -> ki_bytes ix' = ki_bytes ix - len (rd_key d) ->
  books (<[i := ix']> ixs) (sk_set_bytes (sk_bytes sk - len (rd_key d)) sk) (<[i := None]> ps) ls.
Proof.
  intros B Hi Hp Hst H1 Pt Hl Hb. pose proof (bk_shard _ _ _ _ _ B i ix _ Hi Hp) as S. assert (Pe : Permutation (registered_in ix) ([d] ++ registered_in ix')) by (unfold registered_in; rewrite Pt; reflexivity).
  assert (Hle : sk_bytes sk - len (rd_key d) <= sk_max_key_bytes sk) by (pose proof (bk_bytes_max _ _ _ _ _ B); pose proof (len_nonneg (rd_key d)); lia).
  apply (books_store ixs sk ps ls i ix ix' _ None _ _ [d] [] (registered_in ix') B Hi Hp Pe (Permutation_refl _)); [|split; reflexivity|cbn [in_lock sk_set_bytes sk_set sk_leases]; lia|apply (bk_leases_max _ _ _ _ _ B)|cbn [sk_set_bytes sk_set sk_bytes]; lia|exact Hle|lia|].
  - split; [| rewrite Hb, (sf_bytes _ _ _ _ _ S), Pe; cbn [app]; rewrite total_cons; lia | | discriminate | discriminate].
    + intros h' d' Hd'. apply (sf_hash _ _ _ _ _ S). rewrite Pt. constructor. assumption.
    + pose proof (sf_leases _ _ _ _ _ S) as Hs. rewrite Pe in Hs. cbn [app released] in *. rewrite total_cons in Hs. lia.
  - intros others Pa Pb. pose proof (bk_keys _ _ _ _ _ B) as Nk. pose proof (bk_states _ _ _ _ _ B) as Ns. rewrite Pa in Nk, Ns. cbn [app fmap list_fmap] in Nk, Ns. apply NoDup_cons in Nk as [_ Nk], Ns as [Nd Ns]. split; [exact Nk|]. split; [exact Ns|]. split; [intros d' Hd'; inversion Hd'|].
    assert (Hd : d ∈ elems ixs) by (rewrite Pa; constructor). destruct (last_lease ixs sk ps ls i d l B Hp Hd Hst H1) as [_ Hnone]. split.
    + intros d' Hd'. rewrite (refs_unregister _ _ _ _ _ Hp), releasing_other; [lia|]. rewrite <- Hst. intros He. apply Nd. rewrite He. apply list_elem_of_fmap. eauto.
    + intros l' Hl'. eapply lease_fits_store; [apply (bk_lease _ _ _ _ _ B); eapply known_phase; [exact Hp | | exact Hl']; discriminate | apply len_insert | exact Pa | exact Pb|]. intros d' Hd' He. apply list_elem_of_singleton in Hd' as ->. destruct (Hnone l' Hl'). congruence.
Qed.
End Steps.

(** ** The cells of the registered keys

    Each registered key has one cell; it counts the mutations in progress, and
    a channel that waits is in its list, on its way to be notified, or done. *)

Definition mutating (st : Z) (o : option (Lease * LeaseUse)) : Z := match o with Some (l, Mutating) => if ls_state l =? st then 1 else 0 | _ => 0 end.
Definition leases_of (hs : list (option (Lease * LeaseUse))) : list (option Lease) := (fmap (M := option) fst) <$> hs.

Definition waiting (cells : gmap Z KeyCell) (hs : list (option (Lease * LeaseUse))) (s : Z) : Prop :=
  (exists st c, cells !! st = Some c /\ s ∈ kc_waiters c) \/ (exists h l ws, hs !! h = Some (Some (l, Notifying ws)) /\ s ∈ ws).

Record cells_ok (states : list Z) (cells : gmap Z KeyCell) (hs : list (option (Lease * LeaseUse))) (issued canceled woken : gset Z) : Prop := {
  ck_dom : forall st, is_Some (cells !! st) <-> st ∈ states;
  ck_generation : forall st c, cells !! st = Some c -> 0 <= kc_generation c <= U64_MAX;
  ck_pending : forall st c, cells !! st = Some c -> kc_pending c = total (mutating st) hs;
  ck_waiters : forall st c, cells !! st = Some c -> kc_waiters c = [] \/ 0 < kc_pending c;
  ck_lost : forall s, s ∈ issued -> s ∈ canceled \/ s ∈ woken \/ waiting cells hs s
}.

Lemma mutating_range st o : 0 <= mutating st o <= holds st (fst <$> o).
Proof. destruct o as [[l u]|]; cbn; [|lia]. destruct u, (ls_state l =? st); lia. Qed.
Lemma mutating_other st l u : ls_state l <> st -> mutating st (Some (l, u)) = 0.
Proof. intros Hne. cbn. rewrite (proj2 (Z.eqb_neq _ _) Hne). destruct u; reflexivity. Qed.
Lemma mutating_self l : mutating (ls_state l) (Some (l, Mutating)) = 1.
Proof. cbn. rewrite Z.eqb_refl. reflexivity. Qed.

Lemma total_leases (f : option Lease -> Z) hs : total f (leases_of hs) = total (fun o => f (fst <$> o)) hs.
Proof. induction hs as [|o hs IH]; [reflexivity|]. change (f (fst <$> o) + total f (leases_of hs) = f (fst <$> o) + total (fun o => f (fst <$> o)) hs). rewrite IH. reflexivity. Qed.

Lemma mutating_total st hs : 0 <= total (mutating st) hs <= total (holds st) (leases_of hs).
Proof. rewrite total_leases. split; [apply total_nonneg | apply total_le]; intros x _; apply mutating_range. Qed.

(** A lease that is not the mutating one itself is one more. *)
Lemma mutating_plain hs h l u : hs !! h = Some (Some (l, u)) -> mutating (ls_state l) (Some (l, u)) = 0 -> total (mutating (ls_state l)) hs + 1 <= total (holds (ls_state l)) (leases_of hs).
Proof.
  intros Hh Hm. pose proof (mutating_total (ls_state l) (<[h := None]> hs)) as [_ Ht]. rewrite (total_insert _ _ _ _ _ Hh), Hm in Ht. cbn [mutating] in Ht. unfold leases_of in *. rewrite list_fmap_insert in Ht. cbn [fmap option_fmap option_map] in Ht.
  rewrite (total_insert _ _ _ (Some l)) in Ht by (rewrite list_lookup_fmap, Hh; reflexivity). rewrite holds_self in Ht by reflexivity. cbn [holds] in Ht. lia.
Qed.

Lemma leases_of_insert hs h o : leases_of (<[h := o]> hs) = <[h := fst <$> o]> (leases_of hs).
Proof. apply list_fmap_insert. Qed.
Lemma leases_of_use hs h l u u' : hs !! h = Some (Some (l, u)) -> leases_of (<[h := Some (l, u')]> hs) = leases_of hs.
Proof. intros Hh. rewrite leases_of_insert. apply list_insert_id. unfold leases_of. rewrite list_lookup_fmap, Hh. reflexivity. Qed.
Lemma leases_of_lookup hs h l u : hs !! h = Some (Some (l, u)) -> leases_of hs !! h = Some (Some l).
Proof. intros Hh. unfold leases_of. rewrite list_lookup_fmap, Hh. reflexivity. Qed.
Lemma leases_of_snoc hs l u : leases_of (hs ++ [Some (l, u)]) = leases_of hs ++ [Some l].
Proof. unfold leases_of. rewrite fmap_app. reflexivity. Qed.

Section Cells.
Context (states : list Z) (cells : gmap Z KeyCell) (hs : list (option (Lease * LeaseUse))) (issued canceled woken : gset Z).
Context (C : cells_ok states cells hs issued canceled woken).

(** Leases come and go outside mutations. *)
Lemma cells_held states' hs' : (forall st, st ∈ states' <-> st ∈ states) -> (forall st, total (mutating st) hs' = total (mutating st) hs) ->
  (forall h l ws, hs !! h = Some (Some (l, Notifying ws)) -> hs' !! h = Some (Some (l, Notifying ws))) -> cells_ok states' cells hs' issued canceled woken.
Proof.
  intros Hs Hm Hn. destruct C as [C1 C2 C3 C4 C5]. split; [intros st; rewrite C1, Hs; reflexivity | assumption | intros st c Hc; rewrite Hm; apply C3; assumption | assumption|].
  intros s Hin. destruct (C5 s Hin) as [?|[?|[?|(h & l & ws & Hh & Hw)]]]; [auto | auto | right; right; left; assumption|]. right; right; right. eauto 6.
Qed.

Lemma cells_snoc states' l : (forall st, st ∈ states' <-> st ∈ states) -> cells_ok states' cells (hs ++ [Some (l, Plain)]) issued canceled woken.
Proof. intros Hs. apply cells_held; [assumption | intros st; rewrite total_snoc; cbn [mutating]; lia | intros h l' ws Hh; apply lookup_app_l_Some; assumption]. Qed.

Lemma cells_drop states' h l : (forall st, st ∈ states' <-> st ∈ states) -> hs !! h = Some (Some (l, Plain)) -> cells_ok states' cells (<[h := None]> hs) issued canceled woken.
Proof.
  intros Hs Hh. apply cells_held; [assumption | intros st; rewrite (total_insert _ _ _ _ _ Hh); cbn [mutating]; lia|]. intros h' l' ws Hh'. rewrite list_lookup_insert_ne; [assumption | congruence].
Qed.

Lemma cells_enter states' st : (forall st', st' ∈ states' <-> st' = st \/ st' ∈ states) -> cells !! st = None -> total (mutating st) hs = 0 -> cells_ok states' (<[st := fresh_cell]> cells) hs issued canceled woken.
Proof.
  intros Hs Hst Hm. destruct C as [C1 C2 C3 C4 C5]. split.
  - intros st'. rewrite Hs. destruct (decide (st = st')) as [<-|Hne]; [rewrite lookup_insert_eq; split; eauto | rewrite lookup_insert_ne, C1 by assumption; split; [auto | intros [?|?]; congruence]].
  - intros st' c. destruct (decide (st = st')) as [<-|Hne]; [rewrite lookup_insert_eq; intros [= <-]; cbn; unfold U64_MAX; lia | rewrite lookup_insert_ne by assumption; apply C2].
  - intros st' c. destruct (decide (st = st')) as [<-|Hne]; [rewrite lookup_insert_eq; intros [= <-]; auto | rewrite lookup_insert_ne by assumption; apply C3].
  - intros st' c. destruct (decide (st = st')) as [<-|Hne]; [rewrite lookup_insert_eq; intros [= <-]; auto | rewrite lookup_insert_ne by assumption; apply C4].
  - intros s Hin. destruct (C5 s Hin) as [?|[?|[(st' & c & Hc & Hw)|?]]]; [auto | auto | | right; right; right; assumption]. right; right; left. exists st', c. rewrite lookup_insert_ne by congruence. auto.
Qed.

Lemma cells_exit states' st : (forall st', st' ∈ states' <-> st' <> st /\ st' ∈ states) -> total (mutating st) hs = 0 -> cells_ok states' (delete st cells) hs issued canceled woken.
Proof.
  intros Hs Hm. destruct C as [C1 C2 C3 C4 C5]. split.
  - intros st'. rewrite Hs. destruct (decide (st = st')) as [<-|Hne]; [rewrite lookup_delete_eq; split; [intros [? ?]; discriminate | intros [? _]; congruence] | rewrite lookup_delete_ne, C1 by assumption; split; [auto | intros [_ ?]; assumption]].
  - intros st' c Hc. apply lookup_delete_Some in Hc as [_ Hc]. eapply C2. exact Hc.
  - intros st' c Hc. apply lookup_delete_Some in Hc as [_ Hc]. eapply C3. exact Hc.
  - intros st' c Hc. apply lookup_delete_Some in Hc as [_ Hc]. eapply C4. exact Hc.
  - intros s Hin. destruct (C5 s Hin) as [?|[?|[(st' & c & Hc & Hw)|?]]]; [auto | auto | | right; right; right; assumption]. right; right; left. exists st', c. split; [|assumption]. apply lookup_delete_Some. split; [|assumption].
    intros <-. destruct (C4 _ _ Hc) as [He|Hp]; [rewrite He in Hw; inversion Hw | rewrite (C3 _ _ Hc) in Hp; lia].
Qed.

(** One lease's use and its cell change together. *)
Lemma cells_use h l u u' c c' canceled' issued' woken' :
  hs !! h = Some (Some (l, u)) -> cells !! ls_state l = Some c -> 0 <= kc_generation c' <= U64_MAX ->
  kc_pending c' = kc_pending c + mutating (ls_state l) (Some (l, u')) - mutating (ls_state l) (Some (l, u)) -> (kc_waiters c' = [] \/ 0 < kc_pending c') ->
  (forall s, s ∈ issued' -> s ∈ canceled' \/ s ∈ woken' \/ waiting (<[ls_state l := c']> cells) (<[h := Some (l, u')]> hs) s) ->
  cells_ok states (<[ls_state l := c']> cells) (<[h := Some (l, u')]> hs) issued' canceled' woken'.
Proof.
  intros Hh Hc Hg Hp Hw Hlost. destruct C as [C1 C2 C3 C4 C5]. split; [| | | |assumption].
  - intros st. destruct (decide (ls_state l = st)) as [<-|Hne]; [rewrite lookup_insert_eq, <- C1, Hc; split; eauto | rewrite lookup_insert_ne by assumption; apply C1].
  - intros st c0. destruct (decide (ls_state l = st)) as [<-|Hne]; [rewrite lookup_insert_eq; intros [= <-]; assumption | rewrite lookup_insert_ne by assumption; apply C2].
  - intros st c0. rewrite (total_insert _ _ _ _ _ Hh). destruct (decide (ls_state l = st)) as [<-|Hne]; [rewrite lookup_insert_eq; intros [= <-]; rewrite Hp, (C3 _ _ Hc); lia | rewrite lookup_insert_ne by assumption; intros Hc0; rewrite !mutating_other by assumption; rewrite (C3 _ _ Hc0); lia].
  - intros st c0. destruct (decide (ls_state l = st)) as [<-|Hne]; [rewrite lookup_insert_eq; intros [= <-]; assumption | rewrite lookup_insert_ne by assumption; apply C4].
Qed.

Lemma waiting_use h l u u' c c' s : hs !! h = Some (Some (l, u)) -> cells !! ls_state l = Some c -> waiting cells hs s ->
  (s ∈ kc_waiters c -> s ∈ kc_waiters c' \/ exists ws, u' = Notifying ws /\ s ∈ ws) -> (forall ws, u = Notifying ws -> s ∈ ws -> exists ws', u' = Notifying ws' /\ s ∈ ws') ->
  waiting (<[ls_state l := c']> cells) (<[h := Some (l, u')]> hs) s.
Proof.
  intros Hh Hc Hw Hcell Huse. assert (Hhere : (<[h := Some (l, u')]> hs) !! h = Some (Some (l, u'))) by (apply list_lookup_insert_eq; eapply lookup_lt_Some; exact Hh). destruct Hw as [(st & c0 & Hc0 & Hs)|(h' & l' & ws & Hh' & Hs)].
  - destruct (decide (ls_state l = st)) as [<-|Hne]; [|left; exists st, c0; rewrite lookup_insert_ne by assumption; auto]. rewrite Hc in Hc0. injection Hc0 as <-. destruct (Hcell Hs) as [Hs'|(ws & -> & Hs')]; [left; exists (ls_state l), c'; rewrite lookup_insert_eq; auto | right; exists h, l, ws; auto].
  - destruct (decide (h = h')) as [<-|Hne]; [|right; exists h', l', ws; rewrite list_lookup_insert_ne by assumption; auto]. rewrite Hh in Hh'. injection Hh' as <- ->. destruct (Huse ws eq_refl Hs) as (ws' & -> & Hs'). right. exists h, l, ws'. auto.
Qed.
End Cells.
