(* ===== verification/RegistryTheorems.v ===== *)
(** * What the registry guarantees

    Every step of every interleaving runs to its end, the limits hold at every
    moment, a fill token is valid exactly while its key has had no mutation,
    and no waiter is forgotten. *)

From stdpp Require Import gmap.
From S2P Require Import Prelude ChunkId Codec PoolLinks Catalog Registry RegistryInv.

Lemma add64_ok {E} a b : a + b <= U64_MAX -> add64 (E := E) a b = Ok (a + b).
Proof. intros Hle. unfold add64. rewrite (proj2 (Z.leb_le _ _) Hle). reflexivity. Qed.
Lemma sub64_ok {E} a b : b <= a -> sub64 (E := E) a b = Ok (a - b).
Proof. intros Hle. unfold sub64. rewrite (proj2 (Z.leb_le _ _) Hle). reflexivity. Qed.
Lemma reserve_ok {SE} used amount limit : used <= limit <= U64_MAX -> reserve (SE := SE) used amount limit = Ok (if amount <=? limit - used then Some (used + amount) else None).
Proof. intros Hle. unfold reserve. rewrite sub64_ok by lia. cbn [rbind]. destruct (amount <=? limit - used) eqn:E; [|reflexivity]. boolp. rewrite add64_ok by lia. reflexivity. Qed.

Lemma index_get_nat {E A} (l : list A) i x : l !! i = Some x -> index_get (E := E) l (Z.of_nat i) = Ok x.
Proof. intros Hi. apply index_get_Some; [lia | rewrite Nat2Z.id; assumption]. Qed.
Lemma index_set_nat {E A} (l : list A) i x v : l !! i = Some x -> index_set (E := E) l (Z.of_nat i) v = Ok (<[i := v]> l).
Proof. intros Hi. rewrite (index_set_Some l (Z.of_nat i) x v); [rewrite Nat2Z.id; reflexivity | lia | rewrite Nat2Z.id; assumption]. Qed.

Section Theorems.
Context {SE T : Type} `{EntryTableLaws Registered T} (hash_one : list byte -> Z).
Abbreviation KeyWorld := (KeyWorld T).
Abbreviation key_step := (key_step (SE := SE) hash_one).
Abbreviation key_fits := (key_fits hash_one).
Implicit Types (w : KeyWorld) (l : Lease) (d : Registered).

Definition index_of w : list (KeyIndex T) := re_index (kw_registry w).
Definition shared_of w : SharedKeys := re_shared (kw_registry w).
Definition states_of w : list Z := rd_state <$> elems (index_of w).

Record key_inv w : Prop := {
  ki_books : books hash_one (index_of w) (shared_of w) (kw_phases w) (leases_of (kw_held w));
  ki_cells : cells_ok (states_of w) (re_cells (kw_registry w)) (kw_held w) (kw_issued w) (kw_canceled w) (kw_woken w)
}.

Definition steps_on w (e : KeyEvent) : Prop := exists o w', key_step w e = Ok (o, w') /\ key_inv w'.

Lemma states_perm w w' (a b others : list Registered) st : Permutation (elems (index_of w)) (a ++ others) -> Permutation (elems (index_of w')) (b ++ others) -> rd_state <$> a = rd_state <$> b -> st ∈ states_of w' <-> st ∈ states_of w.
Proof. intros Pa Pb He. unfold states_of. rewrite Pa, Pb, !fmap_app, He. reflexivity. Qed.

Lemma lock_step w i key : key_inv w -> kw_checked w !! i = Some key -> unlocked w (Z.to_nat (shard_of_key hash_one w key)) -> steps_on w (KLock i).
Proof.
  intros [B C] Hi Hu. unfold steps_on. cbn [Registry.key_step]. rewrite Hi. cbn [expect rbind]. pose proof (shared_range _ _ _ _ _ B) as [Hr _]. pose proof (bk_leases_max _ _ _ _ _ B) as Hm. pose proof (bk_limits _ _ _ _ _ B) as [Hlim _]. pose proof (bk_some _ _ _ _ _ B) as Hn.
  unfold reserve_lease, attempt. cbn [kw_set_checked kw_registry]. fold (shared_of w). rewrite reserve_ok by lia. cbn [rbind]. destruct (1 <=? sk_max_leases (shared_of w) - sk_leases (shared_of w)) eqn:E; boolp; cbn [ok_or rbind].
  - eexists _, _. split; [reflexivity|]. split; [|exact C]. unfold index_of, shared_of. cbn. fold (index_of w). fold (shared_of w). assert (Hs : 0 <= shard_of_key hash_one w key) by (apply Z.mod_pos_bound; exact Hn).
    eapply books_phase; [exact B | exact Hu | reflexivity | reflexivity | | split; reflexivity | reflexivity | cbn; lia | reflexivity]. intros k [= <-]. rewrite Z2Nat.id by assumption. reflexivity.
  - eexists _, _. split; [reflexivity|]. split; assumption.
Qed.

Lemma give_back_step w i : key_inv w -> kw_phases w !! i = Some (Some Refused) -> steps_on w (KGiveBack i).
Proof.
  intros [B C] Hp. unfold steps_on. cbn [Registry.key_step]. unfold phase. rewrite Hp. cbn [expect rbind]. eexists _, _. split; [reflexivity|]. split; [|exact C]. unfold index_of, shared_of, return_lease. cbn. fold (index_of w). fold (shared_of w).
  pose proof (lock_counted _ i _ Hp) as Hc. cbn [in_lock] in Hc. pose proof (totals_nonneg _ _ _ _ _ B) as (Ht & _). pose proof (bk_leases _ _ _ _ _ B). pose proof (bk_leases_max _ _ _ _ _ B). pose proof (shared_range _ _ _ _ _ B) as [Hr _].
  rewrite wrap64_small by (unfold is_u64, U64_MAX in *; lia). eapply books_phase; [exact B | exact Hp | reflexivity | reflexivity | discriminate | split; reflexivity | cbn; lia | cbn; lia | reflexivity].
Qed.

Lemma register_step w i key st : key_inv w -> kw_phases w !! i = Some (Some (Reserved key)) -> re_cells (kw_registry w) !! st = None -> steps_on w (KRegister i st).
Proof.
  intros [B C] Hp Hst. unfold steps_on. cbn [Registry.key_step]. unfold phase. rewrite Hp. cbn [expect rbind]. unfold register. fold (index_of w). destruct (phase_shard _ _ _ _ _ B i _ Hp) as (ix & Hi & S). rewrite (index_get_nat _ _ _ Hi). cbn [rbind].
  pose proof (lock_counted _ i _ Hp) as Hc. cbn [in_lock] in Hc. pose proof (ki_leases_total _ _ _ _ _ B i ix Hi) as Hlt. pose proof (shared_range _ _ _ _ _ B) as [Hr Hrb]. pose proof (bk_limits _ _ _ _ _ B) as [Hlim Hlimb]. pose proof (bk_bytes_max _ _ _ _ _ B) as Hbm.
  destruct (tb_find (ki_keys ix) (hash_one key) (same_key key)) as [d|] eqn:Hf.
  - destruct (tb_find_some _ _ _ _ Hf) as [Hd Hsame]. apply bytes_eqb_eq in Hsame. assert (Hde : d ∈ registered_in ix) by (apply entries_member; eauto).
    assert (Hdl : rd_leases d <= ki_leases ix). { pose proof (sf_leases _ _ _ _ _ S) as Hs. cbn [released] in Hs. assert (rd_leases d <= total rd_leases (registered_in ix)); [|lia]. apply total_member; [|assumption]. intros d' Hd'. pose proof (entries_positive _ _ _ _ _ B i ix d' Hi Hd'). lia. }
    rewrite !add64_ok by lia. cbn [rbind]. rewrite (index_set_nat _ _ _ _ Hi). cbn [rbind attempt]. eexists _, _. split; [reflexivity|].
    destruct (tb_update_elements (ki_keys ix) (hash_one key) (same_key key) (set_rd_leases (rd_leases d + 1)) d Hf) as (rest & P1 & P2). set (ix' := {| ki_keys := _ |}).
    pose proof (books_join hash_one _ _ _ _ i ix ix' key d _ rest B Hi Hp P1 P2 eq_refl eq_refl Hsame eq_refl) as B'.
    split; [unfold index_of, shared_of; cbn; rewrite leases_of_snoc; exact B'|]. apply (cells_snoc (states_of w)); [exact C|]. intros st'.
    destruct (elems_store (index_of w) i ix ix' [d] [set_rd_leases (rd_leases d + 1) d] (rest.*2) Hi) as (others & Pa & Pb); [unfold registered_in; rewrite P1; reflexivity | unfold registered_in, ix'; cbn [ki_keys]; rewrite P2; reflexivity|]. eapply states_perm; [exact Pa | exact Pb | reflexivity].
  - fold (shared_of w). rewrite reserve_ok by lia. cbn [rbind]. destruct (len key <=? sk_max_key_bytes (shared_of w) - sk_bytes (shared_of w)) eqn:E; boolp.
    + pose proof (ki_bytes_total _ _ _ _ _ B i ix Hi) as Hbt. rewrite !add64_ok by lia. cbn [rbind]. rewrite (index_set_nat _ _ _ _ Hi). cbn [rbind attempt]. eexists _, _. split; [reflexivity|].
      assert (Hns : st ∉ states_of w) by (rewrite <- (ck_dom _ _ _ _ _ _ C), Hst; intros [? ?]; discriminate). set (ix' := {| ki_keys := _ |}). set (d0 := {| rd_key := key |}) in *.
      assert (B' : books hash_one (<[i := ix']> (index_of w)) (sk_set_bytes (sk_bytes (shared_of w) + len key) (shared_of w)) (<[i := None]> (kw_phases w)) (leases_of (kw_held w) ++ [Some {| ls_shard := Z.of_nat i; ls_hash := hash_one key; ls_key := key; ls_state := st |}])).
      { apply (books_enter hash_one _ _ _ _ i ix ix' key st B Hi Hp); [|exact Hns | apply tb_insert_elements | reflexivity | reflexivity | lia]. intros d Hd He. pose proof (tb_find_none _ _ _ Hf d Hd) as Hno. unfold same_key in Hno. rewrite He, bytes_eqb_refl in Hno. discriminate. }
      split; [unfold index_of, shared_of; cbn; rewrite leases_of_snoc; exact B'|].
      destruct (elems_store (index_of w) i ix ix' [] [d0] (registered_in ix) Hi) as (others & Pa & Pb); [reflexivity | unfold registered_in; cbn; rewrite tb_insert_elements; reflexivity|].
      assert (Hm0 : total (mutating st) (kw_held w) = 0). { apply total_zero. intros o Ho. apply list_elem_of_lookup in Ho as [h Hh]. destruct o as [[l u]|]; [|reflexivity]. apply mutating_other. intros <-. apply Hns. destruct (bk_lease _ _ _ _ _ B l) as [_ _ (d & Hd & He & _)]; [left; exists h; eapply leases_of_lookup; exact Hh|]. rewrite <- He. apply list_elem_of_fmap. eauto. }
      apply (cells_snoc (st :: states_of w)); [|intros st'; unfold states_of, index_of; cbn; rewrite Pb; unfold index_of in Pa; rewrite Pa; reflexivity]. apply (cells_enter (states_of w)); [exact C | intros st'; apply elem_of_cons | exact Hst | exact Hm0].
    + cbn [attempt]. eexists _, _. split; [reflexivity|]. split; [|exact C]. unfold index_of, shared_of. cbn. eapply books_phase; [exact B | exact Hp | reflexivity | reflexivity | discriminate | split; reflexivity | cbn; unfold shared_of; lia | apply (bk_leases_max _ _ _ _ _ B) | reflexivity].
Qed.

Lemma release_step w h l : key_inv w -> held w h l Plain -> unlocked w (Z.to_nat (ls_shard l)) -> steps_on w (KRelease h).
Proof.
  intros [B C] Hh Hu. unfold steps_on. cbn [Registry.key_step]. unfold handle. rewrite Hh. cbn [expect rbind]. pose proof (leases_of_lookup _ _ _ _ Hh) as Hl. destruct (bk_lease _ _ _ _ _ B l) as [_ Hs _]; [left; eauto|].
  pose proof (bk_some _ _ _ _ _ B) as Hn. assert (Hs0 : 0 <= ls_shard l) by (rewrite Hs; apply Z.mod_pos_bound; exact Hn). set (i := Z.to_nat (ls_shard l)) in *. assert (Hsi : ls_shard l = Z.of_nat i) by (unfold i; lia).
  destruct (phase_shard _ _ _ _ _ B i _ Hu) as (ix & Hi & S). pose proof (ki_leases_range _ _ _ _ _ B i ix Hi).
  assert (Hpos : 1 <= ki_leases ix).
  { pose proof (sf_leases _ _ _ _ _ S) as Hsl. cbn [released] in Hsl. destruct (bk_lease _ _ _ _ _ B l) as [Hhash _ (d & Hd & Hst & Hk)]; [left; eauto|]. apply elems_member in Hd as (j & jx & Hj & Hd). destruct (shard_phase _ _ _ _ _ B j jx Hj) as (q & _ & S'). pose proof Hd as Hd'. apply entries_member in Hd' as [hh Hd']. destruct (sf_hash _ _ _ _ _ S' hh d Hd') as [-> Hm].
    assert (j = i) as -> by (rewrite Hk, <- Hhash in Hm; lia). rewrite Hi in Hj. injection Hj as <-. assert (rd_leases d <= total rd_leases (registered_in ix)) by (apply total_member; [intros d' Hd''; pose proof (entries_positive _ _ _ _ _ B i ix d' Hi Hd''); lia | assumption]). pose proof (entries_positive _ _ _ _ _ B i ix d Hi Hd). lia. }
  unfold release_lease. fold (index_of w). rewrite Hsi, (index_get_nat _ _ _ Hi). cbn [rbind]. rewrite sub64_ok by lia. cbn [rbind]. rewrite (index_set_nat _ _ _ _ Hi). cbn [rbind attempt]. eexists _, _. split; [reflexivity|].
  pose proof (ki_leases_total _ _ _ _ _ B i ix Hi) as Hlt. pose proof (totals_nonneg _ _ _ _ _ B) as (_ & Ht & _). pose proof (shared_range _ _ _ _ _ B) as [Hr _]. set (ix' := {| ki_keys := ki_keys ix |}).
  split.
  - unfold index_of, shared_of, return_lease. cbn. fold (shared_of w). rewrite wrap64_small by (unfold is_u64, U64_MAX in *; lia). rewrite leases_of_insert. cbn [fmap option_fmap option_map]. eapply (books_release hash_one _ _ _ _ i ix ix'); [exact B | exact Hi | exact Hu | exact Hl | exact Hsi | reflexivity | reflexivity | reflexivity].
  - eapply (cells_drop (states_of w)); [exact C | | exact Hh]. intros st. destruct (elems_store (index_of w) i ix ix' [] [] (registered_in ix) Hi) as (others & Pa & Pb); [reflexivity | reflexivity|]. eapply states_perm; [exact Pa | exact Pb | reflexivity].
Qed.

Lemma unregister_step w i l : key_inv w -> kw_phases w !! i = Some (Some (Releasing l)) -> steps_on w (KUnregister i).
Proof.
  intros [B C] Hp. unfold steps_on. cbn [Registry.key_step]. unfold phase. rewrite Hp. cbn [expect rbind]. destruct (releasing_entry _ _ _ _ _ B i l Hp) as (ix & d & Hi & Hd & Hst & Hk). pose proof (bk_shard _ _ _ _ _ B i ix _ Hi Hp) as S. pose proof (sf_releasing _ _ _ _ _ S l eq_refl) as Hsi.
  unfold unregister. fold (index_of w). rewrite Hsi, (index_get_nat _ _ _ Hi). cbn [rbind]. assert (Hde : d ∈ elems (index_of w)) by (apply elems_member; exists i, ix; split; [assumption | apply entries_member; eauto]).
  destruct (tb_find (ki_keys ix) (ls_hash l) (same_state (ls_state l))) as [d'|] eqn:Hf; [|pose proof (tb_find_none _ _ _ Hf d Hd) as Hno; unfold same_state in Hno; rewrite Hst, Z.eqb_refl in Hno; discriminate]. cbn [expect rbind].
  assert (d' = d) as ->. { destruct (tb_find_some _ _ _ _ Hf) as [Hd' Hs']. apply Z.eqb_eq in Hs'. eapply (nodup_unique rd_state (elems (index_of w))); [apply (bk_states _ _ _ _ _ B) | apply elems_member; exists i, ix; split; [assumption | apply entries_member; eauto] | assumption | congruence]. }
  destruct (bk_refs _ _ _ _ _ B d Hde) as [_ Hpos]. rewrite sub64_ok by lia. cbn [rbind]. destruct (rd_leases d - 1 =? 0) eqn:E; boolp.
  - assert (Hb : len (ls_key l) <= ki_bytes ix) by (rewrite (sf_bytes _ _ _ _ _ S), <- Hk; apply (total_member (fun d => len (rd_key d))); [intros; apply len_nonneg | apply entries_member; eauto]).
    rewrite sub64_ok by lia. cbn [rbind]. rewrite (index_set_nat _ _ _ _ Hi). cbn [rbind attempt]. eexists _, _. split; [reflexivity|]. set (ix' := {| ki_keys := tb_remove _ _ _ |}). pose proof (tb_remove_elements _ _ _ _ Hf) as Pt.
    pose proof (ki_bytes_total _ _ _ _ _ B i ix Hi) as Hbt. pose proof (shared_range _ _ _ _ _ B) as [_ Hrb]. pose proof (len_nonneg (ls_key l)). destruct (last_lease hash_one _ _ _ _ i d l B Hp Hde Hst ltac:(lia)) as [Hz _].
    split.
    + unfold index_of, shared_of. cbn. fold (shared_of w). rewrite wrap64_small by (unfold is_u64, U64_MAX in *; lia). rewrite <- Hk. eapply (books_exit hash_one _ _ _ _ i ix ix' d); [exact B | exact Hi | exact Hp | exact Hst | lia | exact Pt | reflexivity | cbn; rewrite Hk; reflexivity].
    + destruct (elems_store (index_of w) i ix ix' [d] [] (registered_in ix') Hi) as (others & Pa & Pb); [unfold registered_in, ix'; cbn [ki_keys]; rewrite Pt; reflexivity | reflexivity|]. pose proof (bk_states _ _ _ _ _ B) as Ns. rewrite Pa in Ns. cbn [app fmap list_fmap] in Ns. apply NoDup_cons in Ns as [Ns _].
      apply (cells_exit (states_of w)); [exact C | | cbn [kw_held kw_set_phase kw_set_registry]; pose proof (mutating_total (ls_state l) (kw_held w)); lia]. intros st. unfold states_of, index_of. cbn. rewrite Pb. unfold index_of in Pa. rewrite Pa. cbn [app fmap list_fmap]. rewrite elem_of_cons. split; [intros Hin; split; [intros ->; rewrite <- Hst in Hin; contradiction | auto] | intros [Hne [?|?]]; [congruence | assumption]].
  - rewrite (index_set_nat _ _ _ _ Hi). cbn [rbind attempt]. eexists _, _. split; [reflexivity|]. destruct (tb_update_elements (ki_keys ix) (ls_hash l) (same_state (ls_state l)) (set_rd_leases (rd_leases d - 1)) d Hf) as (rest & P1 & P2). set (ix' := {| ki_keys := tb_update _ _ _ _ |}).
    split; [unfold index_of, shared_of; cbn; eapply (books_leave hash_one _ _ _ _ i ix ix' d); [exact B | exact Hi | exact Hp | exact Hst | lia | exact P1 | exact P2 | reflexivity | reflexivity]|].
    eapply (cells_held (states_of w)); [exact C | | reflexivity | auto]. intros st. destruct (elems_store (index_of w) i ix ix' [d] [set_rd_leases (rd_leases d - 1) d] (rest.*2) Hi) as (others & Pa & Pb); [unfold registered_in; rewrite P1; reflexivity | unfold registered_in, ix'; cbn [ki_keys]; rewrite P2; reflexivity|]. eapply states_perm; [exact Pa | exact Pb | reflexivity].
Qed.

(** ** The cell of a held lease *)

Lemma held_cell w h l u : key_inv w -> held w h l u -> exists c, re_cells (kw_registry w) !! ls_state l = Some c /\ ls_state l ∈ states_of w.
Proof.
  intros [B C] Hh. destruct (bk_lease _ _ _ _ _ B l) as [_ _ (d & Hd & Hst & _)]; [left; exists h; eapply leases_of_lookup; exact Hh|]. assert (Hin : ls_state l ∈ states_of w) by (rewrite <- Hst; apply list_elem_of_fmap; eauto).
  destruct (proj2 (ck_dom _ _ _ _ _ _ C _) Hin) as [c Hc]. eauto.
Qed.

Lemma use_books w h l u u' : key_inv w -> held w h l u -> books hash_one (index_of w) (shared_of w) (kw_phases w) (leases_of (<[h := Some (l, u')]> (kw_held w))).
Proof. intros [B _] Hh. rewrite (leases_of_use _ _ _ _ _ Hh). exact B. Qed.

Lemma mutate_step w h l expected : key_inv w -> held w h l Plain -> steps_on w (KMutate h expected).
Proof.
  intros Hinv Hh. pose proof Hinv as [B C]. unfold steps_on. cbn [Registry.key_step]. unfold handle. rewrite Hh. cbn [expect rbind]. destruct (held_cell w h l Plain Hinv Hh) as (c & Hc & Hin). unfold cell. rewrite Hc. cbn [expect rbind].
  unfold begin_mutation. destruct (match expected with Some e => negb (e =? kc_generation c) | None => false end); [cbn [attempt]; eauto|]. unfold advance, checked_add. pose proof (ck_generation _ _ _ _ _ _ C _ _ Hc) as Hg.
  destruct (kc_generation c + 1 <=? U64_MAX) eqn:E; boolp; cbn [ok_or rbind attempt]; [|eauto]. cbn [kc_generation kc_pending kc_waiters].
  pose proof (ck_pending _ _ _ _ _ _ C _ _ Hc) as Hp. pose proof (mutating_plain _ _ _ _ Hh eq_refl) as Hlt. apply list_elem_of_fmap in Hin as (d & Hst & Hd). pose proof (leases_of_key _ _ _ _ _ B d Hd) as Hk. rewrite <- Hst in Hk. pose proof (shared_range _ _ _ _ _ B) as [Hr _]. pose proof (mutating_total (ls_state l) (kw_held w)).
  rewrite add64_ok by lia. cbn [rbind attempt]. eexists _, _. split; [reflexivity|]. split; [exact (use_books w h l _ _ Hinv Hh)|].
  eapply (cells_use (states_of w)); [exact C | exact Hh | exact Hc | cbn; lia | cbn [kc_pending]; rewrite mutating_self; cbn [mutating]; lia | right; cbn; lia|].
  intros s Hs. destruct (ck_lost _ _ _ _ _ _ C s Hs) as [?|[?|Hw]]; [auto | auto|]. right; right. eapply waiting_use; [exact Hh | exact Hc | exact Hw | auto | discriminate].
Qed.

Lemma end_mutation_step w h l : key_inv w -> held w h l Mutating -> steps_on w (KEndMutation h).
Proof.
  intros Hinv Hh. pose proof Hinv as [B C]. unfold steps_on. cbn [Registry.key_step]. unfold handle. rewrite Hh. cbn [expect rbind]. destruct (held_cell w h l _ Hinv Hh) as (c & Hc & Hin). unfold cell. rewrite Hc. cbn [expect rbind].
  pose proof (ck_pending _ _ _ _ _ _ C _ _ Hc) as Hp. assert (Hpos : 1 <= kc_pending c) by (rewrite Hp, <- (mutating_self l) at 1; eapply total_lookup; [intros x _; apply mutating_range | exact Hh]).
  unfold end_mutation. rewrite sub64_ok by lia. cbn [rbind]. pose proof (ck_generation _ _ _ _ _ _ C _ _ Hc) as Hg.
  destruct (kc_pending c - 1 =? 0) eqn:E; boolp; cbn [attempt]; eexists _, _; (split; [reflexivity|]); (split; [exact (use_books w h l _ _ Hinv Hh)|]); (eapply (cells_use (states_of w)); [exact C | exact Hh | exact Hc | cbn; lia | cbn [kc_pending]; rewrite mutating_self; cbn [mutating]; lia | cbn; first [left; reflexivity | right; lia]|]);
    intros s Hs; (destruct (ck_lost _ _ _ _ _ _ C s Hs) as [?|[?|Hw]]; [auto | auto|]); right; right; (eapply waiting_use; [exact Hh | exact Hc | exact Hw | cbn; intros Hsw; first [left; exact Hsw | right; eauto] | discriminate]).
Qed.

Lemma notify_step w h l ws : key_inv w -> held w h l (Notifying ws) -> steps_on w (KNotify h).
Proof.
  intros Hinv Hh. pose proof Hinv as [B C]. unfold steps_on. cbn [Registry.key_step]. unfold handle. rewrite Hh. cbn [expect rbind]. destruct (held_cell w h l _ Hinv Hh) as (c & Hc & Hin). pose proof (ck_generation _ _ _ _ _ _ C _ _ Hc) as Hg. pose proof (ck_waiters _ _ _ _ _ _ C _ _ Hc) as Hwc.
  assert (Hcells : re_cells (kw_registry w) = <[ls_state l := c]> (re_cells (kw_registry w))) by (symmetry; apply insert_id; exact Hc).
  destruct ws as [|s0 ws]; eexists _, _; (split; [reflexivity|]); (split; [exact (use_books w h l _ _ Hinv Hh)|]); cbn; rewrite Hcells; (eapply (cells_use (states_of w)); [exact C | exact Hh | exact Hc | exact Hg | cbn; lia | exact Hwc|]);
    intros s Hs; (destruct (ck_lost _ _ _ _ _ _ C s Hs) as [?|[?|Hw]]; [auto | right; left; set_solver|]).
  - right; right. eapply waiting_use; [exact Hh | exact Hc | exact Hw | auto | intros ws [= <-] Hin'; inversion Hin'].
  - destruct (decide (s = s0)) as [->|Hne]; [right; left; set_solver|]. right; right. eapply waiting_use; [exact Hh | exact Hc | exact Hw | auto | intros ws' [= <-] Hin'; apply elem_of_cons in Hin' as [?|?]; [congruence | eauto]].
Qed.

Lemma wait_step w h l c sender : key_inv w -> held w h l Plain -> re_cells (kw_registry w) !! ls_state l = Some c -> kc_pending c <> 0 -> steps_on w (KWait h sender).
Proof.
  intros Hinv Hh Hc Hp. pose proof Hinv as [B C]. unfold steps_on. cbn [Registry.key_step]. unfold handle. rewrite Hh. cbn [expect rbind]. unfold cell. rewrite Hc. cbn [expect rbind]. eexists _, _. split; [reflexivity|]. split; [exact B|].
  pose proof (ck_pending _ _ _ _ _ _ C _ _ Hc) as Hpe. pose proof (mutating_total (ls_state l) (kw_held w)). pose proof (ck_generation _ _ _ _ _ _ C _ _ Hc) as Hg.
  assert (Hheld : kw_held w = <[h := Some (l, Plain)]> (kw_held w)) by (symmetry; apply list_insert_id; exact Hh). cbn. rewrite Hheld.
  eapply (cells_use (states_of w)); [exact C | exact Hh | exact Hc | exact Hg | cbn; lia | right; cbn; lia|].
  intros s Hs. apply elem_of_union in Hs as [Hs|Hs].
  - apply elem_of_singleton in Hs as ->. right; right; left. eexists _, _. split; [apply lookup_insert_eq|]. cbn. apply elem_of_app. right. constructor.
  - destruct (ck_lost _ _ _ _ _ _ C s Hs) as [?|[?|Hw]]; [auto | auto|]. destruct (decide (s ∈ kw_canceled w)) as [?|Hnc]; [auto|]. right; right. eapply waiting_use; [exact Hh | exact Hc | exact Hw | | discriminate].
    intros Hsw. left. cbn. apply elem_of_app. left. apply list_elem_of_In, filter_In. split; [apply list_elem_of_In; assumption|]. rewrite bool_decide_eq_false_2 by assumption. reflexivity.
Qed.

Lemma key_step_inv w e : key_inv w -> key_fits w e -> steps_on w e.
Proof.
  intros Hinv Hf. pose proof Hinv as [B C]. destruct e; cbn in Hf.
  - unfold steps_on. cbn. unfold check_open, fail_if. destruct (sk_closed _); cbn; eexists _, _; (split; [reflexivity|]); split; assumption.
  - destruct Hf as (key & Hi & Hu). eapply lock_step; eassumption.
  - destruct Hf as [[key Hp] Hst]. eapply register_step; eassumption.
  - apply give_back_step; assumption.
  - destruct Hf as [l Hh]. eapply mutate_step; eassumption.
  - destruct Hf as [l Hh]. eapply end_mutation_step; eassumption.
  - destruct Hf as (l & ws & Hh). eapply notify_step; eassumption.
  - destruct Hf as (_ & l & c & Hh & Hc & Hp). eapply wait_step; eassumption.
  - eexists _, _. split; [reflexivity|]. split; [exact B|]. destruct C as [C1 C2 C3 C4 C5]. split; try assumption. intros s Hs. destruct (C5 s Hs) as [?|[?|?]]; [left; set_solver | auto | auto].
  - destruct Hf as (l & Hh & Hu). eapply release_step; eassumption.
  - destruct Hf as [l Hp]. eapply unregister_step; eassumption.
  - eexists _, _. split; [reflexivity|]. split; [|exact C]. destruct B as [B1 B2 B3 B4 B5 B6 B7 B8 B9 B10 B11 B12 B13]. constructor; assumption.
Qed.

Lemma key_run_inv w es w' : key_run (SE := SE) hash_one w es w' -> key_inv w -> key_inv w'.
Proof. induction 1 as [|w e es o w' w'' Hf Hs _ IH]; [auto|]. intros Hinv. destruct (key_step_inv w e Hinv Hf) as (o' & w1 & Hs' & Hinv'). rewrite Hs in Hs'. injection Hs' as <- <-. auto. Qed.

(** ** From a new registry *)

Lemma total_replicate {A} (f : A -> Z) n x : f x = 0 -> total f (replicate n x) = 0.
Proof. intros Hx. apply total_zero. intros y Hy. apply elem_of_replicate in Hy as [-> _]. assumption. Qed.

Lemma new_inv max_leases max_key_bytes : is_u64 max_leases -> is_u64 max_key_bytes -> key_inv (key_start (Registry_new (T := T) max_leases max_key_bytes)).
Proof.
  intros [Ha Ha'] [Hb Hb']. set (ix0 := {| ki_keys := tb_new; ki_leases := 0; ki_bytes := 0 |} : KeyIndex T). assert (He0 : registered_in ix0 = []) by (unfold registered_in; cbn; rewrite tb_new_elements; reflexivity).
  assert (He : elems (replicate 64 ix0) = []) by (unfold elems; generalize 64%nat; intros n; induction n as [|n IH]; [reflexivity|]; cbn [replicate map concat]; rewrite He0, IH; reflexivity).
  assert (Hno : forall l, known (replicate 64 None) [] l -> False). { intros l [[h Hh]|[i Hi]]; [destruct h; discriminate|]. apply lookup_replicate in Hi as [Hi _]. discriminate. }
  split; [|split].
  - unfold index_of, shared_of, key_start, Registry_new. cbn [kw_registry re_index re_shared kw_phases kw_held leases_of fmap list_fmap]. change (length (replicate 64 _)) with 64%nat. constructor; cbn [sk_max_leases sk_max_key_bytes sk_leases sk_bytes]; fold ix0; rewrite ?He.
    + reflexivity.
    + reflexivity.
    + unfold U64_MAX. lia.
    + intros i ix p Hi Hp. apply lookup_replicate in Hi as [-> _], Hp as [-> _]. split; [cbn; intros h d; rewrite tb_new_elements; intros Hd; inversion Hd | rewrite He0; reflexivity | rewrite He0; reflexivity | discriminate | discriminate].
    + rewrite !total_replicate by reflexivity. reflexivity.
    + assumption.
    + rewrite !total_replicate by reflexivity. reflexivity.
    + assumption.
    + rewrite !total_replicate by reflexivity. reflexivity.
    + constructor.
    + constructor.
    + intros d Hd. inversion Hd.
    + intros l Hl. destruct (Hno l Hl).
  - intros st. unfold states_of, index_of, key_start, Registry_new. cbn [kw_registry re_index re_cells]. fold ix0. rewrite He, lookup_empty. split; [intros [? ?]; discriminate | intros Hin; inversion Hin].
  - cbn. intros st c. rewrite lookup_empty. discriminate.
  - cbn. intros st c. rewrite lookup_empty. discriminate.
  - cbn. intros st c. rewrite lookup_empty. discriminate.
  - cbn. set_solver.
Qed.

Definition key_reach (max_leases max_key_bytes : Z) w : Prop := is_u64 max_leases /\ is_u64 max_key_bytes /\ exists es, key_run (SE := SE) hash_one (key_start (Registry_new max_leases max_key_bytes)) es w.

Lemma key_reach_inv a b w : key_reach a b w -> key_inv w.
Proof. intros (Ha & Hb & es & Hr). eapply key_run_inv; [exact Hr | apply new_inv; assumption]. Qed.

(** ** What a step leaves alone *)

Lemma register_effect (r r' : Registry T) i key h st o : register (SE := SE) r i key h st = Ok (o, r') -> same_limits (re_shared r) (re_shared r') /\ (re_cells r' = re_cells r \/ re_cells r' = <[st := fresh_cell]> (re_cells r)).
Proof.
  unfold register. intros Hr. apply rbind_Ok_inv in Hr as (ix & _ & Hr). destruct (tb_find _ _ _) as [d|]; inv_ok; [simplify_eq; split; [split; reflexivity | left; reflexivity]|].
  destruct r0 as [n|]; inv_ok; simplify_eq; (split; [split; reflexivity | auto]).
Qed.

Lemma unregister_effect (r r' : Registry T) l : unregister (SE := SE) r l = Ok r' -> same_limits (re_shared r) (re_shared r') /\ (re_cells r' = re_cells r \/ re_cells r' = delete (ls_state l) (re_cells r)).
Proof. unfold unregister. intros Hr. inv_ok. destruct (_ =? 0); inv_ok; simplify_eq; (split; [split; reflexivity | auto]). Qed.

Lemma release_effect (r r' : Registry T) l : release_lease (SE := SE) r l = Ok r' -> same_limits (re_shared r) (re_shared r') /\ re_cells r' = re_cells r.
Proof. unfold release_lease. intros Hr. inv_ok. simplify_eq. split; [split; reflexivity | reflexivity]. Qed.

Lemma reserve_lease_effect (r r' : Registry T) : reserve_lease (SE := SE) r = Ok r' -> same_limits (re_shared r) (re_shared r') /\ re_cells r' = re_cells r.
Proof. unfold reserve_lease. intros Hr. inv_ok. simplify_eq. split; [split; reflexivity | reflexivity]. Qed.

Lemma attempt_Ok {A} (m : cresult A) we k o w' : attempt (SE := SE) (T := T) m we k = Ok (o, w') -> w' = we \/ exists a, m = Ok a /\ w' = k a.
Proof. destruct m; cbn; intros [= <- <-]; eauto. Qed.

Lemma same_limits_refl sk : same_limits sk sk.
Proof. split; reflexivity. Qed.

Ltac step_cases Hs :=
  cbn in Hs;
  repeat match type of Hs with
  | rbind _ _ = Ok _ => let a := fresh "x" in let Ha := fresh "Hx" in apply rbind_Ok_inv in Hs as (a & Ha & Hs)
  | (match ?x with _ => _ end) = Ok _ => destruct x; try discriminate Hs
  | attempt _ _ _ = Ok _ => let a := fresh "x" in let Ha := fresh "Hx" in apply attempt_Ok in Hs as [->|(a & Ha & ->)]
  | Ok _ = Ok _ => injection Hs as <- <-
  end.

Lemma limits_step w e o w' : key_step w e = Ok (o, w') -> same_limits (shared_of w) (shared_of w').
Proof.
  intros Hs. destruct e; step_cases Hs; try (split; reflexivity).
  - eapply reserve_lease_effect; eassumption.
  - destruct x as [[l|] r']; eapply register_effect; eassumption.
  - destruct x0 as [[g|] c]; apply same_limits_refl.
  - destruct x0 as [ws c]. apply same_limits_refl.
  - eapply release_effect; eassumption.
  - eapply unregister_effect; eassumption.
Qed.

Lemma limits_run w es w' : key_run (SE := SE) hash_one w es w' -> same_limits (shared_of w) (shared_of w').
Proof. induction 1 as [|w e es o w' w'' _ Hs _ [IH1 IH2]]; [split; reflexivity|]. destruct (limits_step _ _ _ _ Hs). split; congruence. Qed.

(** ** Generations *)

Definition generation w l : option Z := kc_generation <$> re_cells (kw_registry w) !! ls_state l.

(** Leases agree on keys exactly if they share the cell. *)
Lemma same_cell w h l u h' l' u' : key_inv w -> held w h l u -> held w h' l' u' -> ls_key l = ls_key l' <-> ls_state l = ls_state l'.
Proof.
  intros [B C] Hh Hh'. destruct (bk_lease _ _ _ _ _ B l) as [_ _ (d & Hd & Hst & Hk)]; [left; exists h; eapply leases_of_lookup; exact Hh|]. destruct (bk_lease _ _ _ _ _ B l') as [_ _ (d' & Hd' & Hst' & Hk')]; [left; exists h'; eapply leases_of_lookup; exact Hh'|].
  split; intros He.
  - assert (d = d') as <-; [|congruence]. eapply (nodup_unique rd_key); [apply (bk_keys _ _ _ _ _ B) | assumption | assumption | congruence].
  - assert (d = d') as <-; [|congruence]. eapply (nodup_unique rd_state); [apply (bk_states _ _ _ _ _ B) | assumption | assumption | congruence].
Qed.

Lemma handle_held w h l u : handle w h = Ok (l, u) -> held w h l u.
Proof. unfold handle, held. destruct (kw_held w !! h) as [[x|]|]; cbn; congruence. Qed.

Lemma held_insert w h l u h0 o : held w h l u -> h0 <> h -> <[h0 := o]> (kw_held w) !! h = Some (Some (l, u)).
Proof. intros Hh Hne. rewrite list_lookup_insert_ne by assumption. exact Hh. Qed.

Lemma held_use w h l u h0 l0 u0 u1 : held w h l u -> held w h0 l0 u0 -> exists u', <[h0 := Some (l0, u1)]> (kw_held w) !! h = Some (Some (l, u')).
Proof.
  intros Hh Hh0. destruct (decide (h0 = h)) as [<-|Hne]; [|exists u; apply held_insert; assumption]. unfold held in *. rewrite Hh in Hh0. injection Hh0 as <- <-. exists u1. apply list_lookup_insert_eq. eapply lookup_lt_Some. exact Hh.
Qed.

(** A lease stays until its thread drops it. *)
Lemma held_step w e o w' h l u : key_step w e = Ok (o, w') -> held w h l u -> e <> KRelease h -> exists u', held w' h l u'.
Proof.
  intros Hs Hh Hne. destruct e; step_cases Hs; try (exists u; exact Hh).
  - destruct x as [[l'|] r']; [exists u; apply lookup_app_l_Some; exact Hh | exists u; exact Hh].
  - destruct x0 as [[g|] c]; [|exists u; exact Hh]. eapply (held_use w h l u); [exact Hh | eapply handle_held; eassumption].
  - destruct x0 as [ws c]. eapply (held_use w h l u); [exact Hh | eapply handle_held; eassumption].
  - eapply (held_use w h l u); [exact Hh | eapply handle_held; eassumption].
  - eapply (held_use w h l u); [exact Hh | eapply handle_held; eassumption].
  - exists u. apply held_insert; [exact Hh | congruence].
Qed.

Lemma cell_lookup w l c : cell w l = Ok c -> re_cells (kw_registry w) !! ls_state l = Some c.
Proof. unfold cell. destruct (_ !! _); cbn; congruence. Qed.

Lemma begin_generation expected c g c' : begin_mutation (SE := SE) expected c = Ok (Some g, c') -> kc_generation c' = kc_generation c + 1.
Proof. unfold begin_mutation, advance, checked_add. destruct (match expected with Some e => _ | None => _ end); [discriminate|]. destruct (_ <=? _); [|discriminate]. cbn. intros Hr. inv_ok. simplify_eq. reflexivity. Qed.

Lemma put_cell_generation w l0 c0 l c : re_cells (kw_registry w) !! ls_state l = Some c -> re_cells (kw_registry w) !! ls_state l0 = Some c0 ->
  forall c1, kc_generation c1 = kc_generation c0 -> kc_generation <$> <[ls_state l0 := c1]> (re_cells (kw_registry w)) !! ls_state l = Some (kc_generation c).
Proof. intros Hc Hc0 c1 Hg. destruct (decide (ls_state l0 = ls_state l)) as [He|Hne]; [rewrite He, lookup_insert_eq; cbn; congruence | rewrite lookup_insert_ne, Hc by assumption; reflexivity]. Qed.

(** A step moves a held key's generation as often as it counts a mutation. *)
Lemma generation_step w e o w' h l u g : key_inv w -> key_fits w e -> key_step w e = Ok (o, w') -> held w h l u -> e <> KRelease h -> generation w l = Some g ->
  generation w' l = Some (g + (kw_changes w' (ls_key l) - kw_changes w (ls_key l))).
Proof.
  intros Hinv Hf Hs Hh Hne Hg. pose proof (key_step_inv w e Hinv Hf) as (o' & w1 & Hs' & Hinv'). rewrite Hs in Hs'. injection Hs' as <- <-. destruct (held_step _ _ _ _ _ _ _ Hs Hh Hne) as [u' Hh']. destruct (held_cell _ _ _ _ Hinv' Hh') as (c' & Hc' & _). destruct (held_cell _ _ _ _ Hinv Hh) as (c & Hc & _).
  assert (Hgc : kc_generation c = g) by (unfold generation in Hg; rewrite Hc in Hg; cbn in Hg; congruence). assert (Hsame : kw_changes w' = kw_changes w -> re_cells (kw_registry w') !! ls_state l = Some c -> generation w' l = Some (g + (kw_changes w' (ls_key l) - kw_changes w (ls_key l)))) by (intros Hch Hce; unfold generation; rewrite Hce, Hch; cbn; f_equal; lia).
  destruct e; step_cases Hs; try (apply Hsame; [reflexivity | exact Hc]).
  - apply Hsame; [reflexivity|]. cbn. destruct (reserve_lease_effect _ _ Hx0) as [_ ->]. exact Hc.
  - cbn in Hf. destruct Hf as [_ Hfresh]. destruct x as [lo r']. destruct (register_effect _ _ _ _ _ _ _ Hx0) as [_ He]. apply Hsame; [destruct lo; reflexivity|]. assert (Hr : kw_registry (match lo with Some l0 => kw_set_held (kw_held w ++ [Some (l0, Plain)]) (kw_set_phase shard None (kw_set_registry r' w)) | None => kw_set_phase shard (Some Refused) (kw_set_registry r' w) end) = r') by (destruct lo; reflexivity).
    rewrite Hr. destruct He as [-> | ->]; [exact Hc|]. rewrite lookup_insert_ne by congruence. exact Hc.
  - destruct x0 as [[g0|] c0]; [|apply Hsame; [reflexivity | exact Hc]]. pose proof (handle_held _ _ _ _ Hx) as Hh0. pose proof (cell_lookup _ _ _ Hx0) as Hc0. pose proof (begin_generation _ _ _ _ Hx1) as Hb. unfold generation. cbn. destruct (bytes_eqb (ls_key l) (ls_key l0)) eqn:Ek.
    + apply bytes_eqb_eq in Ek. apply (same_cell w h l u _ _ _ Hinv Hh Hh0) in Ek. rewrite Ek in *. rewrite lookup_insert_eq. cbn. rewrite Hc in Hc0. injection Hc0 as ->. f_equal. lia.
    + rewrite lookup_insert_ne, Hc; [cbn; f_equal; lia|]. intros He. symmetry in He. apply (same_cell w h l u _ _ _ Hinv Hh Hh0) in He. rewrite He, bytes_eqb_refl in Ek. discriminate.
  - destruct x0 as [ws c0]. unfold generation. cbn. rewrite Z.sub_diag, Z.add_0_r, <- Hgc. match goal with Hx' : cell w ?l0 = Ok ?c1 |- _ => pose proof (cell_lookup _ _ _ Hx') as Hc0; apply (put_cell_generation w _ c1 l c Hc Hc0) end. unfold end_mutation in *. inv_ok. destruct (_ =? 0); inv_ok; simplify_eq; reflexivity.
  - unfold generation. cbn. rewrite Z.sub_diag, Z.add_0_r, <- Hgc. match goal with Hx' : cell w ?l0 = Ok ?c1 |- _ => pose proof (cell_lookup _ _ _ Hx') as Hc0; apply (put_cell_generation w _ c1 l c Hc Hc0) end. reflexivity.
  - apply Hsame; [reflexivity|]. cbn. destruct (release_effect _ _ _ Hx0) as [_ ->]. exact Hc.
  - apply Hsame; [reflexivity|]. cbn. cbn in Hc'. destruct (unregister_effect _ _ _ Hx0) as [_ [He|He]]; rewrite He in *; [exact Hc|]. apply lookup_delete_Some in Hc' as [Hne' Hc']. apply lookup_delete_Some. auto.
Qed.

Lemma generation_run w es w' h l : key_run (SE := SE) hash_one w es w' -> key_inv w -> KRelease h ∉ es -> forall u g, held w h l u -> generation w l = Some g ->
  (exists u', held w' h l u') /\ generation w' l = Some (g + (kw_changes w' (ls_key l) - kw_changes w (ls_key l))).
Proof.
  induction 1 as [w|w e es o w' w'' Hf Hs _ IH]; intros Hinv Hno u g Hh Hg; [split; [eauto | rewrite Hg; f_equal; lia]|]. apply not_elem_of_cons in Hno as [Hne Hno]. assert (Hne' : e <> KRelease h) by congruence.
  pose proof (key_step_inv w e Hinv Hf) as (o' & w1 & Hs' & Hinv'). rewrite Hs in Hs'. injection Hs' as <- <-. destruct (held_step _ _ _ _ _ _ _ Hs Hh Hne') as [u' Hh']. pose proof (generation_step _ _ _ _ _ _ _ _ Hinv Hf Hs Hh Hne' Hg) as Hg'.
  destruct (IH Hinv' Hno u' _ Hh' Hg') as [Hex Hgen]. split; [assumption|]. rewrite Hgen. f_equal. lia.
Qed.
End Theorems.

(** ** The laws of the registry

    Stated for every interleaving of threads from a new registry, and applied
    to a registry whose tables are lists. *)

Section Laws.
Context {SE T : Type} `{EntryTableLaws Registered T} (hash_one : list byte -> Z).
Abbreviation KeyWorld := (KeyWorld T).
Abbreviation key_step := (key_step (SE := SE) hash_one).
Abbreviation key_fits := (key_fits hash_one).
Abbreviation key_reach := (key_reach (SE := SE) hash_one).
Implicit Types (w : KeyWorld) (l : Lease) (d : Registered).

(** No thread is inside a lock. *)
Definition quiet w : Prop := forall i p, kw_phases w !! i = Some p -> p = None.
Definition held_keys w : list (list byte) := omap (fun o => fmap (M := option) (fun x => ls_key x.1) o) (kw_held w).

Lemma held_keys_member w key : key ∈ held_keys w <-> exists h l u, held w h l u /\ ls_key l = key.
Proof.
  unfold held_keys. rewrite list_elem_of_omap. split.
  - intros (o & Ho & He). apply list_elem_of_lookup in Ho as [h Hh]. destruct o as [[l u]|]; [|discriminate]. injection He as <-. exists h, l, u. auto.
  - intros (h & l & u & Hh & <-). exists (Some (l, u)). split; [apply list_elem_of_lookup; eauto | reflexivity].
Qed.

Lemma held_count w : total is_held (leases_of (kw_held w)) = len (held_keys w).
Proof.
  rewrite total_leases. unfold held_keys. induction (kw_held w) as [|o hs IH]; [reflexivity|]. rewrite total_cons. destruct o as [[l u]|]; cbn [fmap option_fmap option_map is_held omap list_omap]; [rewrite len_cons, IH; reflexivity | rewrite IH; reflexivity].
Qed.

(** The registered keys are those somebody holds a lease on. *)
Lemma quiet_keys w : key_inv hash_one w -> quiet w -> Permutation (rd_key <$> elems (index_of w)) (remove_dups (held_keys w)).
Proof.
  intros [B C] Hq. apply NoDup_Permutation; [apply (bk_keys _ _ _ _ _ B) | apply NoDup_remove_dups|]. intros key. rewrite elem_of_remove_dups, held_keys_member. split.
  - intros Hin. apply list_elem_of_fmap in Hin as (d & -> & Hd). destruct (bk_refs _ _ _ _ _ B d Hd) as [Hr H1]. unfold refs in Hr. rewrite (total_zero (releasing _)) in Hr by (intros p Hp; apply list_elem_of_lookup in Hp as [i Hi]; rewrite (Hq i p Hi); reflexivity).
    destruct (total_positive (holds (rd_state d)) (leases_of (kw_held w))) as (h & o & Hh & Ho); [lia|]. destruct o as [l|]; [|cbn in Ho; lia]. cbn in Ho. destruct (ls_state l =? rd_state d) eqn:Est; [|lia]. apply Z.eqb_eq in Est.
    unfold leases_of in Hh. rewrite list_lookup_fmap in Hh. destruct (kw_held w !! h) as [[[l' u]|]|] eqn:Hw; [|discriminate|discriminate]. injection Hh as ->. exists h, l, u. split; [exact Hw|].
    destruct (bk_lease _ _ _ _ _ B l) as [_ _ (d' & Hd' & Hst & Hk)]; [left; exists h; eapply leases_of_lookup; exact Hw|]. rewrite <- Hk. f_equal. eapply (nodup_unique rd_state); [apply (bk_states _ _ _ _ _ B) | assumption | assumption | congruence].
  - intros (h & l & u & Hh & <-). destruct (bk_lease _ _ _ _ _ B l) as [_ _ (d & Hd & _ & Hk)]; [left; exists h; eapply leases_of_lookup; exact Hh|]. rewrite <- Hk. apply list_elem_of_fmap. eauto.
Qed.

Lemma total_fmap {A B} (h : B -> A) (f : A -> Z) (l : list B) : total f (h <$> l) = total (fun b => f (h b)) l.
Proof. apply total_map. Qed.

Lemma total_one {A} (l : list A) : total (fun _ => 1) l = len l.
Proof. induction l as [|x l IH]; [reflexivity|]. rewrite total_cons, len_cons, IH. reflexivity. Qed.

Lemma table_sizes w : total (fun ix => tb_len (ki_keys ix)) (index_of w) = len (elems (index_of w)).
Proof. rewrite <- total_one, total_elems. apply total_ext. intros ix _. rewrite tb_len_elements, total_one. unfold registered_in, len. rewrite length_fmap. reflexivity. Qed.

(** Folding the shards adds them up. *)
Lemma snapshot_sums (ixs : list (KeyIndex T)) a b c :
  (forall ix, ix ∈ ixs -> 0 <= ki_leases ix /\ 0 <= tb_len (ki_keys ix) /\ 0 <= ki_bytes ix) ->
  a + total ki_leases ixs <= U64_MAX -> b + total (fun ix => tb_len (ki_keys ix)) ixs <= U64_MAX -> c + total ki_bytes ixs <= U64_MAX ->
  foldl (fun acc s => let? (leases, keys, bytes) := acc in let? n := add64 leases (ki_leases s) in let? k := add64 keys (tb_len (ki_keys s)) in let? b := add64 bytes (ki_bytes s) in Ok (n, k, b)) (Ok (a, b, c)) ixs
  = @Ok (cache.Error SE) _ (a + total ki_leases ixs, b + total (fun ix => tb_len (ki_keys ix)) ixs, c + total ki_bytes ixs).
Proof.
  revert a b c. induction ixs as [|ix ixs IH]; intros a b c Hpos Ha Hb Hc; [cbn; rewrite !Z.add_0_r; reflexivity|]. rewrite !total_cons in *. cbn [foldl rbind].
  assert (Htail : forall ix, ix ∈ ixs -> 0 <= ki_leases ix /\ 0 <= tb_len (ki_keys ix) /\ 0 <= ki_bytes ix) by (intros; apply Hpos; constructor; assumption).
  assert (0 <= total ki_leases ixs) by (apply total_nonneg; apply Htail). assert (0 <= total (fun ix => tb_len (ki_keys ix)) ixs) by (apply (total_nonneg (fun ix => tb_len (ki_keys ix))); apply Htail). assert (0 <= total ki_bytes ixs) by (apply total_nonneg; apply Htail).
  rewrite !add64_ok by lia. cbn [rbind]. rewrite IH by (assumption || lia). rewrite !Z.add_assoc. reflexivity.
Qed.

Lemma registered_leased w : key_inv hash_one w -> quiet w -> len (elems (index_of w)) <= sk_leases (shared_of w).
Proof.
  intros [B C] Hq. rewrite (bk_leases _ _ _ _ _ B). pose proof (totals_nonneg _ _ _ _ _ B) as (_ & Hl & _). assert (len (elems (index_of w)) <= total ki_leases (index_of w)); [|lia]. rewrite <- total_one. transitivity (total rd_leases (elems (index_of w))); [apply total_le; intros d Hd; apply (bk_refs _ _ _ _ _ B d Hd)|].
  rewrite total_elems. apply total_le. intros ix Hix. apply list_elem_of_lookup in Hix as [i Hi]. destruct (shard_phase _ _ _ _ _ B i ix Hi) as (p & Hp & S). pose proof (sf_leases _ _ _ _ _ S) as Hs. rewrite (Hq i p Hp) in Hs. cbn [released] in Hs. lia.
Qed.

(** no region of the registry panics: no counter leaves its range, and every lease finds its key in the table. The leases and the bytes of distinct keys never exceed the configured limits, in any interleaving; and when no thread is inside a lock, a snapshot counts exactly the leases held, the distinct keys among them and the bytes of those keys, as the shared counters do. *)
Theorem registry_within_limits max_leases max_key_bytes w : key_reach max_leases max_key_bytes w ->
  (forall e, key_fits w e -> safe (key_step w e)) /\ sk_leases (shared_of w) <= max_leases /\ sk_bytes (shared_of w) <= max_key_bytes /\ len (held_keys w) <= sk_leases (shared_of w) /\
  (quiet w -> let keys := remove_dups (held_keys w) in
     registry_snapshot (kw_registry w) = @Ok (cache.Error SE) _ (len (held_keys w), len keys, total len keys) /\ sk_leases (shared_of w) = len (held_keys w) /\ sk_bytes (shared_of w) = total len keys).
Proof.
  intros Hr. pose proof (key_reach_inv _ _ _ _ Hr) as Hinv. pose proof Hinv as [B C]. destruct Hr as (Ha & Hb & es & Hrun). destruct (limits_run _ _ _ _ Hrun) as [Hl1 Hl2]. cbn in Hl1, Hl2. pose proof (bk_leases_max _ _ _ _ _ B) as H1. pose proof (bk_bytes_max _ _ _ _ _ B) as H2. rewrite Hl1 in H1. rewrite Hl2 in H2.
  split; [intros e Hf; destruct (key_step_inv (SE := SE) hash_one w e Hinv Hf) as (o & w' & -> & _); discriminate|]. split; [assumption|]. split; [assumption|]. pose proof (totals_nonneg _ _ _ _ _ B) as (Ht1 & Ht2 & Ht3). pose proof (bk_leases _ _ _ _ _ B) as Hle. pose proof (bk_bytes _ _ _ _ _ B) as Hby. pose proof (bk_held _ _ _ _ _ B) as Hh. rewrite held_count in Hh. split; [lia|].
  intros Hq keys. pose proof (quiet_keys w Hinv Hq) as Pk. assert (Hbk : total ki_bytes (index_of w) = total len keys).
  { unfold keys. rewrite <- Pk, total_fmap, total_elems. apply total_ext. intros ix Hix. apply list_elem_of_lookup in Hix as [i Hi]. destruct (shard_phase _ _ _ _ _ B i ix Hi) as (p & _ & S). apply (sf_bytes _ _ _ _ _ S). }
  assert (Hk : len (elems (index_of w)) = len keys) by (unfold len, keys; rewrite <- Pk, length_fmap; reflexivity). assert (Hz : total in_lock (kw_phases w) = 0) by (apply total_zero; intros p Hp; apply list_elem_of_lookup in Hp as [i Hi]; rewrite (Hq i p Hi); reflexivity).
  pose proof (shared_range _ _ _ _ _ B) as [Hr1 Hr2]. pose proof (registered_leased w Hinv Hq) as Hreg. split; [|split; lia].
  unfold registry_snapshot. fold (index_of w). rewrite snapshot_sums; rewrite ?table_sizes; [|intros ix Hix; apply list_elem_of_lookup in Hix as [i Hi]; split; [eapply ki_leases_range; eassumption|]; split; [rewrite tb_len_elements; apply len_nonneg | eapply ki_bytes_range; eassumption] | lia | lia | lia].
  repeat f_equal; lia.
Qed.

(** C24: a fill token taken on a lease is valid at a later moment exactly if the registry is open and no mutation of its key was accepted since, on this or any other lease, however leases on the key came and went. *)
Theorem fill_token_exact max_leases max_key_bytes w h l u es w' : key_reach max_leases max_key_bytes w -> held w h l u -> key_run (SE := SE) hash_one w es w' -> KRelease h ∉ es ->
  exists g, generation w l = Some g /\ lease_valid (SE := SE) (kw_registry w') l g = Ok (negb (is_closed (kw_registry w')) && (kw_changes w' (ls_key l) =? kw_changes w (ls_key l))).
Proof.
  intros Hr Hh Hrun Hno. pose proof (key_reach_inv _ _ _ _ Hr) as Hinv. destruct (held_cell _ _ _ _ _ Hinv Hh) as (c & Hc & _). exists (kc_generation c). assert (Hg : generation w l = Some (kc_generation c)) by (unfold generation; rewrite Hc; reflexivity). split; [exact Hg|].
  destruct (generation_run _ _ _ _ _ _ Hrun Hinv Hno u _ Hh Hg) as [_ Hg']. unfold lease_valid. destruct (is_closed _); [reflexivity|]. unfold generation in Hg'. destruct (re_cells (kw_registry w') !! ls_state l) as [c'|]; [|discriminate]. cbn in *. injection Hg' as ->. f_equal.
  destruct (kw_changes w' (ls_key l) =? kw_changes w (ls_key l)) eqn:E; boolp; [apply Z.eqb_eq; lia | apply Z.eqb_neq; lia].
Qed.

(** C27: no waiter is forgotten: a channel handed out and not cancelled has been notified, is about to be by a mutation that has ended, or waits in the cell of a key that some thread is still mutating. *)
Theorem no_waiter_lost max_leases max_key_bytes w s : key_reach max_leases max_key_bytes w -> s ∈ kw_issued w ->
  s ∈ kw_canceled w \/ s ∈ kw_woken w \/ (exists h l ws, held w h l (Notifying ws) /\ s ∈ ws) \/
  exists h l c, held w h l Mutating /\ re_cells (kw_registry w) !! ls_state l = Some c /\ s ∈ kc_waiters c.
Proof.
  intros Hr Hs. pose proof (key_reach_inv _ _ _ _ Hr) as [B C]. destruct (ck_lost _ _ _ _ _ _ C s Hs) as [?|[?|[(st & c & Hc & Hw)|(h & l & ws & Hh & Hw)]]]; [auto | auto | | right; right; left; eauto].
  right; right; right. destruct (ck_waiters _ _ _ _ _ _ C _ _ Hc) as [He|Hp]; [rewrite He in Hw; inversion Hw|]. rewrite (ck_pending _ _ _ _ _ _ C _ _ Hc) in Hp. destruct (total_positive _ _ Hp) as (h & o & Hh & Ho). destruct o as [[l [| |ws]]|]; cbn in Ho; try lia. destruct (ls_state l =? st) eqn:Est; [|lia]. apply Z.eqb_eq in Est. subst st. exists h, l, c. auto.
Qed.
End Laws.

(** ** Running the machine *)

Section Exec.
Context {SE T : Type} `{EntryTable Registered T} (hash_one : list byte -> Z).
Implicit Types (w : KeyWorld T).

Definition key_fitsb w (e : KeyEvent) : bool :=
  match e with
  | KCheck _ | KClose => true
  | KLock i => match kw_checked w !! i with Some key => match kw_phases w !! Z.to_nat (shard_of_key hash_one w key) with Some None => true | _ => false end | None => false end
  | KRegister shard state => match kw_phases w !! shard with Some (Some (Reserved _)) => match re_cells (kw_registry w) !! state with None => true | Some _ => false end | _ => false end
  | KGiveBack shard => match kw_phases w !! shard with Some (Some Refused) => true | _ => false end
  | KMutate h _ => match kw_held w !! h with Some (Some (_, Plain)) => true | _ => false end
  | KEndMutation h => match kw_held w !! h with Some (Some (_, Mutating)) => true | _ => false end
  | KNotify h => match kw_held w !! h with Some (Some (_, Notifying _)) => true | _ => false end
  | KWait h sender => negb (bool_decide (sender ∈ kw_issued w)) &&
      match kw_held w !! h with Some (Some (l, Plain)) => match re_cells (kw_registry w) !! ls_state l with Some c => negb (kc_pending c =? 0) | None => false end | _ => false end
  | KCancel sender => bool_decide (sender ∈ kw_issued w)
  | KRelease h => match kw_held w !! h with Some (Some (l, Plain)) => match kw_phases w !! Z.to_nat (ls_shard l) with Some None => true | _ => false end | _ => false end
  | KUnregister shard => match kw_phases w !! shard with Some (Some (Releasing _)) => true | _ => false end
  end.

Lemma key_fitsb_ok w e : key_fitsb w e = true -> key_fits hash_one w e.
Proof.
  destruct e; cbn; unfold unlocked, held; intros Hb; try (apply andb_true_iff in Hb as [Hs Hb]; apply negb_true_iff, bool_decide_eq_false in Hs); repeat case_match; try discriminate; simplify_eq; try (apply bool_decide_eq_true in Hb); eauto 6.
  split; [assumption|]. do 2 eexists. split; [reflexivity|]. split; [eassumption|]. apply negb_true_iff, Z.eqb_neq in Hb. assumption.
Qed.

Fixpoint key_exec w (es : list KeyEvent) : option (KeyWorld T) :=
  match es with
  | [] => Some w
  | e :: es => if key_fitsb w e then match key_step (SE := SE) hash_one w e with Ok (_, w') => key_exec w' es | _ => None end else None
  end.

Lemma key_exec_run es : forall w w', key_exec w es = Some w' -> key_run (SE := SE) hash_one w es w'.
Proof.
  induction es as [|e es IH]; cbn; intros w w'; [intros [= <-]; constructor|]. destruct (key_fitsb w e) eqn:Hf; [|discriminate]. destruct (key_step hash_one w e) as [[o w1]| |] eqn:Hs; try discriminate. intros He. econstructor; [apply key_fitsb_ok; exact Hf | exact Hs | apply IH; exact He].
Qed.
End Exec.

(** ** A table that is a list *)

Section ListTable.
Context {V : Type}.
Implicit Types (t : list (Z * V)) (p : V -> bool).

Definition hit (h : Z) (p : V -> bool) (e : Z * V) : bool := (e.1 =? h) && p e.2.
Fixpoint list_update t (h : Z) p (f : V -> V) : list (Z * V) := match t with [] => [] | e :: t => if hit h p e then (h, f e.2) :: t else e :: list_update t h p f end.
Fixpoint list_drop t (h : Z) p : list (Z * V) := match t with [] => [] | e :: t => if hit h p e then t else e :: list_drop t h p end.

Lemma list_found t h p v : snd <$> List.find (hit h p) t = Some v -> exists t1 t2, t = t1 ++ (h, v) :: t2 /\ p v = true /\ forall f, list_update t h p f = t1 ++ (h, f v) :: t2 /\ list_drop t h p = t1 ++ t2.
Proof.
  induction t as [|[h' v'] t IH]; cbn [List.find list_update list_drop]; [discriminate|]. destruct (hit h p (h', v')) eqn:E.
  - cbn. intros [= ->]. apply andb_true_iff in E as [Eh Ep]. apply Z.eqb_eq in Eh. cbn in Eh, Ep. subst h'. exists [], t. auto.
  - intros Hv. destruct (IH Hv) as (t1 & t2 & -> & Hp & Hf). exists ((h', v') :: t1), t2. split; [reflexivity|]. split; [assumption|]. intros f. destruct (Hf f) as [-> ->]. auto.
Qed.
End ListTable.

#[export] Instance registered_table : EntryTable Registered (list (Z * Registered)) :=
  {| tb_new := []; tb_len := len; tb_find := fun t h p => snd <$> List.find (hit h p) t; tb_update := list_update; tb_insert_unique := fun t h v => (h, v) :: t; tb_remove := list_drop |}.

#[export] Instance registered_table_laws : EntryTableLaws Registered (list (Z * Registered)).
Proof.
  refine {| tb_elements := fun t => t |}; cbn [tb_new tb_len tb_find tb_update tb_insert_unique tb_remove registered_table]; try reflexivity.
  - intros t h p v Hf. destruct (list_found _ _ _ _ Hf) as (t1 & t2 & -> & Hp & _). split; [apply elem_of_app; right; constructor | assumption].
  - intros t h p Hf v Hv. destruct (List.find (hit h p) t) eqn:E; [discriminate|]. apply list_elem_of_In in Hv. pose proof (find_none _ _ E _ Hv) as Hn. unfold hit in Hn. cbn in Hn. rewrite Z.eqb_refl in Hn. exact Hn.
  - intros t h p f v Hf. destruct (list_found _ _ _ _ Hf) as (t1 & t2 & -> & _ & Hu). destruct (Hu f) as [-> _]. exists (t1 ++ t2). split; symmetry; apply Permutation_middle.
  - intros t h p v Hf. destruct (list_found _ _ _ _ Hf) as (t1 & t2 & -> & _ & Hu). destruct (Hu id) as [_ ->]. symmetry. apply Permutation_middle.
Qed.

(** ** Two threads on one key, and a third on another *)

Definition demo_hash (key : list byte) : Z := len key.
Definition demo_key : list byte := [Byte.x01; Byte.x02].
Definition demo_other : list byte := [Byte.x03].
Definition demo_start : KeyWorld (list (Z * Registered)) := key_start (Registry_new 3 3).
Definition demo_acquire (key : list byte) (state : Z) : list KeyEvent := [KCheck key; KLock 0; KRegister (Z.to_nat (len key)) state].
Definition demo_leased : list KeyEvent := demo_acquire demo_key 10 ++ demo_acquire demo_key 11 ++ demo_acquire demo_other 11.
Definition demo_exec (w : KeyWorld (list (Z * Registered))) (es : list KeyEvent) : KeyWorld (list (Z * Registered)) := default w (key_exec (SE := unit) demo_hash w es).

Lemma registry_demo_run w es : (if key_exec (SE := unit) demo_hash w es then true else false) = true -> key_run (SE := unit) demo_hash w es (demo_exec w es).
Proof. unfold demo_exec. destruct (key_exec demo_hash w es) as [w'|] eqn:Hw; [|discriminate]. intros _. apply key_exec_run. exact Hw. Qed.

Lemma demo_reach es : (if key_exec (SE := unit) demo_hash demo_start es then true else false) = true -> key_reach (SE := unit) demo_hash 3 3 (demo_exec demo_start es).
Proof. intros He. split; [unfold is_u64; lia|]. split; [unfold is_u64; lia|]. exists es. apply registry_demo_run. exact He. Qed.

Lemma registry_within_limits_witness : registry_snapshot (kw_registry (demo_exec demo_start demo_leased)) = @Ok (cache.Error unit) _ (3, 2, 3).
Proof.
  pose proof (registry_within_limits (SE := unit) demo_hash 3 3 (demo_exec demo_start demo_leased) ltac:(apply demo_reach; vm_compute; reflexivity)) as (_ & _ & _ & _ & Hq). destruct Hq as (Hs & _).
  - intros i p Hp. vm_compute in Hp. do 64 (destruct i as [|i]; [injection Hp as <-; reflexivity|]). discriminate.
  - rewrite Hs. vm_compute. reflexivity.
Defined.

(** The second lease's token outlives the first lease, and ends with a mutation through a third. *)
Definition demo_between : list KeyEvent := [KRelease 0; KUnregister 2] ++ demo_acquire demo_key 12 ++ [KMutate 3 None].
Lemma fill_token_exact_witness : exists l, held (demo_exec demo_start demo_leased) 1 l Plain /\ lease_valid (SE := unit) (kw_registry (demo_exec (demo_exec demo_start demo_leased) demo_between)) l 0 = Ok false.
Proof.
  eexists. split; [vm_compute; reflexivity|]. match goal with |- lease_valid _ ?l _ = _ => destruct (fill_token_exact (SE := unit) demo_hash 3 3 (demo_exec demo_start demo_leased) 1 l Plain demo_between (demo_exec (demo_exec demo_start demo_leased) demo_between)) as (g & Hg & Hv) end.
  - apply demo_reach. vm_compute. reflexivity.
  - vm_compute. reflexivity.
  - apply registry_demo_run. vm_compute. reflexivity.
  - cbn. intros Hin. repeat (apply elem_of_cons in Hin as [Hin|Hin]; [discriminate|]). inversion Hin.
  - vm_compute in Hg. injection Hg as <-. rewrite Hv. vm_compute. reflexivity.
Defined.

Lemma no_waiter_lost_witness : let w := demo_exec demo_start (demo_leased ++ [KMutate 0 None; KWait 1 7]) in 7 ∈ kw_issued w /\
  (7 ∈ kw_canceled w \/ 7 ∈ kw_woken w \/ (exists h l ws, held w h l (Notifying ws) /\ 7 ∈ ws) \/ exists h l c, held w h l Mutating /\ re_cells (kw_registry w) !! ls_state l = Some c /\ 7 ∈ kc_waiters c).
Proof.
  intros w. assert (H7 : 7 ∈ kw_issued w) by (apply (bool_decide_unpack (7 ∈ kw_issued w)); vm_compute; exact Logic.I). split; [exact H7|]. apply (no_waiter_lost (SE := unit) demo_hash 3 3); [apply demo_reach; vm_compute; reflexivity | exact H7].
Defined.
