(* ===== verification/Scheduler.v ===== *)
(** * The completion scheduler (moat-cache/src/scheduler.rs)

    One thread runs the jobs of a channel: jobs on one chunk in the order they
    were sent, jobs on different chunks side by side, and a job without a chunk
    alone, after all before it and before all behind it. Which future completes
    next, and whether the channel or a future is ready first, is the choice of
    a turn; a turn is one round of the loop. *)

From stdpp Require Import gmap.
From S2P Require Import Prelude ChunkId Catalog.

(** ** The budget *)

Record Budget := { bg_used : Z * Z; bg_jobs : Z; bg_bytes : Z }.

(** A permit is the bytes it holds; a future is the number of its job. *)
Record Job := { jb_no : nat; jb_id : option ChunkId; jb_permit : option Z }.

Inductive Mark := Start (no : nat) | Finish (no : nat).

(** The loop's variables, and what it shares with the senders. [sc_barrier] is
    the fence whose future the loop awaits; [sc_history] is what the futures
    have seen. *)
Record Sched := {
  sc_budget : Budget;
  sc_queue : list Job;
  sc_senders : bool;
  sc_running : list Job;
  sc_active : gset ChunkId;
  sc_pending : gmap ChunkId (list Job);
  sc_fence : option Job;
  sc_barrier : option Job;
  sc_disconnected : bool;
  sc_stopped : bool;
  sc_history : list Mark
}.

Section Scheduler.
Context {SE : Type}.
Abbreviation cresult := (@cresult SE).
Implicit Types (s : Sched) (j : Job).

Definition sc_set_budget (v : Budget) s : Sched :=
  {| sc_budget := v; sc_queue := sc_queue s; sc_senders := sc_senders s; sc_running := sc_running s; sc_active := sc_active s; sc_pending := sc_pending s; sc_fence := sc_fence s; sc_barrier := sc_barrier s; sc_disconnected := sc_disconnected s; sc_stopped := sc_stopped s; sc_history := sc_history s |}.
Definition sc_set_queue (v : list Job) s : Sched :=
  {| sc_budget := sc_budget s; sc_queue := v; sc_senders := sc_senders s; sc_running := sc_running s; sc_active := sc_active s; sc_pending := sc_pending s; sc_fence := sc_fence s; sc_barrier := sc_barrier s; sc_disconnected := sc_disconnected s; sc_stopped := sc_stopped s; sc_history := sc_history s |}.
Definition sc_set_jobs (running : list Job) (active : gset ChunkId) (pending : gmap ChunkId (list Job)) (history : list Mark) s : Sched :=
  {| sc_budget := sc_budget s; sc_queue := sc_queue s; sc_senders := sc_senders s; sc_running := running; sc_active := active; sc_pending := pending; sc_fence := sc_fence s; sc_barrier := sc_barrier s; sc_disconnected := sc_disconnected s; sc_stopped := sc_stopped s; sc_history := history |}.
Definition sc_set_fence (fence barrier : option Job) (history : list Mark) s : Sched :=
  {| sc_budget := sc_budget s; sc_queue := sc_queue s; sc_senders := sc_senders s; sc_running := sc_running s; sc_active := sc_active s; sc_pending := sc_pending s; sc_fence := fence; sc_barrier := barrier; sc_disconnected := sc_disconnected s; sc_stopped := sc_stopped s; sc_history := history |}.
Definition sc_set_ends (senders disconnected stopped : bool) s : Sched :=
  {| sc_budget := sc_budget s; sc_queue := sc_queue s; sc_senders := senders; sc_running := sc_running s; sc_active := sc_active s; sc_pending := sc_pending s; sc_fence := sc_fence s; sc_barrier := sc_barrier s; sc_disconnected := disconnected; sc_stopped := stopped; sc_history := sc_history s |}.

Definition Scheduler_new (max_jobs max_bytes : Z) : cresult Sched :=
  fail_if (max_jobs =? 0) (cache.Invalid "pending operation count must be nonzero"%string) ;?
  Ok {| sc_budget := {| bg_used := (0, 0); bg_jobs := max_jobs; bg_bytes := max_bytes |}; sc_queue := []; sc_senders := true; sc_running := []; sc_active := ∅; sc_pending := ∅; sc_fence := None; sc_barrier := None; sc_disconnected := false; sc_stopped := false; sc_history := [] |}.

Definition reserve_permit (b : Budget) (bytes : Z) : cresult (Z * Budget) :=
  let? room := (if fst (bg_used b) >=? bg_jobs b then Ok None else let? r := sub64 (bg_bytes b) (snd (bg_used b)) in Ok (Some r)) in
  fail_if (match room with None => true | Some r => bytes >? r end) cache.Busy ;?
  let? n := add64 (fst (bg_used b)) 1 in
  let? total := add64 (snd (bg_used b)) bytes in
  Ok (bytes, {| bg_used := (n, total); bg_jobs := bg_jobs b; bg_bytes := bg_bytes b |}).

(** [Permit::drop], for the permit a job has, if any. *)
Definition drop_permit (permit : option Z) (b : Budget) : cresult Budget :=
  match permit with
  | None => Ok b
  | Some bytes =>
      let? n := sub64 (fst (bg_used b)) 1 in
      let? total := sub64 (snd (bg_used b)) bytes in
      Ok {| bg_used := (n, total); bg_jobs := bg_jobs b; bg_bytes := bg_bytes b |}
  end.

(** The channel takes a job while the loop has its receiving end. *)
Definition submit s j : Job + Sched := if sc_stopped s then inl j else inr (sc_set_queue (sc_queue s ++ [j]) s).

Definition sched_snapshot s : Z * Z := bg_used (sc_budget s).

(** ** The loop *)

(** [start]: the future of a keyed job joins the running ones. *)
Definition start s j : cresult Sched :=
  let? _ := expect (jb_id j) in
  Ok (sc_set_jobs (sc_running s ++ [j]) (sc_active s) (sc_pending s) (sc_history s ++ [Start (jb_no j)]) s).

Definition completed s (id : ChunkId) : cresult Sched :=
  match sc_pending s !! id with
  | Some (j :: queue) => start (sc_set_jobs (sc_running s) (sc_active s) (match queue with [] => delete id (sc_pending s) | _ => <[id := queue]> (sc_pending s) end) (sc_history s) s) j
  | _ => Ok (sc_set_jobs (sc_running s) (sc_active s ∖ {[id]}) (sc_pending s) (sc_history s) s)
  end.

(** The future of the [i]th running job completes: its permit is dropped, and
    the loop sees its chunk. *)
Definition next_done s (i : nat) : cresult Sched :=
  let? j := expect (sc_running s !! i) in
  let? id := expect (jb_id j) in
  let? b := drop_permit (jb_permit j) (sc_budget s) in
  completed (sc_set_budget b (sc_set_jobs (delete i (sc_running s)) (sc_active s) (sc_pending s) (sc_history s ++ [Finish (jb_no j)]) s)) id.

(** The channel is ready: a job, or [None] once all senders are gone. *)
Definition receive s : cresult Sched :=
  match sc_queue s with
  | [] => if sc_senders s then Panic else Ok (sc_set_ends false true (sc_stopped s) s)
  | j :: queue =>
      let s := sc_set_queue queue s in
      match jb_id j with
      | None => Ok (sc_set_fence (Some j) (sc_barrier s) (sc_history s) s)
      | Some id =>
          if decide (id ∈ sc_active s) then Ok (sc_set_jobs (sc_running s) (sc_active s) (<[id := default [] (sc_pending s !! id) ++ [j]]> (sc_pending s)) (sc_history s) s)
          else start (sc_set_jobs (sc_running s) ({[id]} ∪ sc_active s) (sc_pending s) (sc_history s) s) j
      end
  end.

(** Which of the futures the loop awaits is ready. *)
Inductive Ready := Channel | Future (i : nat).

Definition fence_done s j : cresult Sched :=
  let? b := drop_permit (jb_permit j) (sc_budget s) in
  Ok (sc_set_fence (sc_fence s) None (sc_history s ++ [Finish (jb_no j)]) (sc_set_budget b s)).

(** One round of [run]; the fence's future is awaited in a round of its own. *)
Definition turn s (ready : Ready) : cresult Sched :=
  match sc_barrier s with
  | Some j => fence_done s j
  | None =>
      match sc_running s, sc_fence s with
      | [], Some j => Ok (sc_set_fence None (Some j) (sc_history s ++ [Start (jb_no j)]) s)
      | [], None => if sc_disconnected s then Ok (sc_set_ends (sc_senders s) true true s) else receive s
      | _ :: _, fence =>
          match ready with
          | Future i => next_done s i
          | Channel => if match fence with Some _ => true | None => sc_disconnected s end then Panic else receive s
          end
      end
  end.
End Scheduler.

(** ** The scheduler with its callers

    Callers reserve permits, send jobs and hang up while the loop takes turns.
    A job is the number of its submission; its future's start and end are what
    the history records. *)

Record SchedWorld := { sw_sched : Sched; sw_permits : list Z; sw_jobs : list (option ChunkId) }.

Inductive SchedEvent :=
| SReserve (bytes : Z)
| SRelease (i : nat)
| SSubmit (id : option ChunkId) (permit : option nat)
| SHangUp
| STurn (ready : Ready).

Section Machine.
Context {SE : Type}.
Implicit Types (s : Sched) (w : SchedWorld).

Definition sw_set (s : Sched) (permits : list Z) w : SchedWorld := {| sw_sched := s; sw_permits := permits; sw_jobs := sw_jobs w |}.

(** The error returned to a caller, if any, and the next world. *)
Definition sched_step w (e : SchedEvent) : steps (option (cache.Error SE) * SchedWorld) :=
  let s := sw_sched w in
  match e with
  | SReserve bytes =>
      match reserve_permit (sc_budget s) bytes with
      | Ok (permit, b) => Ok (None, sw_set (sc_set_budget b s) (sw_permits w ++ [permit]) w)
      | Err e => Ok (Some e, w)
      | Panic => Panic
      end
  | SRelease i =>
      let? permit := expect (sw_permits w !! i) in
      match drop_permit (SE := SE) (Some permit) (sc_budget s) with
      | Ok b => Ok (None, sw_set (sc_set_budget b s) (delete i (sw_permits w)) w)
      | _ => Panic
      end
  | SSubmit id permit =>
      let j := {| jb_no := length (sw_jobs w); jb_id := id; jb_permit := permit ≫= (fun i => sw_permits w !! i) |} in
      match submit s j with
      | inr s => Ok (None, {| sw_sched := s; sw_permits := (match permit with Some i => delete i (sw_permits w) | None => sw_permits w end); sw_jobs := sw_jobs w ++ [id] |})
      | inl _ => Panic
      end
  | SHangUp => Ok (None, sw_set (sc_set_ends false (sc_disconnected s) (sc_stopped s) s) (sw_permits w) w)
  | STurn ready =>
      match turn (SE := SE) s ready with
      | Ok s => Ok (None, sw_set s (sw_permits w) w)
      | _ => Panic
      end
  end.

Definition sched_start s : SchedWorld := {| sw_sched := s; sw_permits := []; sw_jobs := [] |}.

(** ** What can happen *)

Definition channel_ready s : Prop := sc_queue s <> [] \/ sc_senders s = false.

Definition ready_fits s (r : Ready) : Prop :=
  sc_stopped s = false /\
  match sc_barrier s with
  | Some _ => True
  | None =>
      match sc_running s, sc_fence s with
      | [], Some _ => True
      | [], None => sc_disconnected s = true \/ channel_ready s
      | _ :: _, fence => match r with Future i => (i < length (sc_running s))%nat | Channel => fence = None /\ sc_disconnected s = false /\ channel_ready s end
      end
  end.

Definition sched_fits w (e : SchedEvent) : Prop :=
  match e with
  | SReserve bytes => is_u64 bytes
  | SRelease i => (i < length (sw_permits w))%nat
  | SSubmit _ permit => sc_senders (sw_sched w) = true /\ match permit with Some i => (i < length (sw_permits w))%nat | None => True end
  | SHangUp => sc_senders (sw_sched w) = true
  | STurn ready => ready_fits (sw_sched w) ready
  end.

Inductive sched_run : SchedWorld -> list SchedEvent -> SchedWorld -> Prop :=
| sched_run_nil w : sched_run w [] w
| sched_run_cons w e es o w' w'' : sched_fits w e -> sched_step w e = Ok (o, w') -> sched_run w' es w'' -> sched_run w (e :: es) w''.

(** ** Jobs that must not overlap *)

Definition conflict (jobs : list (option ChunkId)) (i j : nat) : Prop := exists a b, jobs !! i = Some a /\ jobs !! j = Some b /\ (a = None \/ b = None \/ a = b).

Definition finished (h : list Mark) : list nat := omap (fun m => match m with Finish n => Some n | Start _ => None end) h.
Definition started (h : list Mark) : list nat := omap (fun m => match m with Start n => Some n | Finish _ => None end) h.

Definition pending_jobs (p : gmap ChunkId (list Job)) : list Job := concat (map snd (map_to_list p)).
Definition waiting_jobs s : list Job := option_list (sc_fence s) ++ pending_jobs (sc_pending s) ++ sc_queue s.
Definition executing s : list Job := option_list (sc_barrier s) ++ sc_running s.
Definition unfinished s : list Job := executing s ++ waiting_jobs s.
End Machine.
