(* ===== verification/SchedulerInv.v ===== *)
(** * The state of the scheduler

    Every job sent is finished or in exactly one place, and the places say
    which jobs are still ahead of it. *)

From stdpp Require Import gmap sorting.
From S2P Require Import Prelude ChunkId Catalog Scheduler.

(** ** Maps of queues *)

Section Pending.
Implicit Types (p : gmap ChunkId (list Job)) (q : list Job).

Lemma pending_jobs_insert p id q : p !! id = None -> Permutation (pending_jobs (<[id := q]> p)) (q ++ pending_jobs p).
Proof. intros Hp. unfold pending_jobs. rewrite map_to_list_insert by assumption. reflexivity. Qed.

Lemma pending_jobs_delete p id q : p !! id = Some q -> Permutation (pending_jobs p) (q ++ pending_jobs (delete id p)).
Proof. intros Hp. rewrite <- (insert_delete_id p id q Hp) at 1. apply pending_jobs_insert. apply lookup_delete_eq. Qed.

Lemma pending_jobs_update p id q q' : p !! id = Some q -> Permutation (pending_jobs (<[id := q']> p)) (q' ++ pending_jobs (delete id p)).
Proof. intros Hp. rewrite <- insert_delete_eq. apply pending_jobs_insert. apply lookup_delete_eq. Qed.

Lemma elem_of_pending_jobs p j : j ∈ pending_jobs p <-> exists id q, p !! id = Some q /\ j ∈ q.
Proof.
  unfold pending_jobs. rewrite list_elem_of_In, in_concat. split.
  - intros (q & Hq & Hj). apply in_map_iff in Hq as ([id q'] & <- & Hin). apply list_elem_of_In, elem_of_map_to_list in Hin. exists id, q'. split; [assumption | apply list_elem_of_In; assumption].
  - intros (id & q & Hp & Hj). exists q. split; [apply in_map_iff; exists (id, q); split; [reflexivity|]; apply list_elem_of_In, elem_of_map_to_list; assumption | apply list_elem_of_In; assumption].
Qed.
End Pending.

(** ** The invariant *)

Definition history_ok (jobs : list (option ChunkId)) (h : list Mark) : Prop := forall h1 j h2, h = h1 ++ Start j :: h2 -> forall i, (i < j)%nat -> conflict jobs i j -> Finish i ∈ h1.

Definition permit_count (j : Job) : Z := match jb_permit j with Some _ => 1 | None => 0 end.
Definition permit_bytes (j : Job) : Z := default 0 (jb_permit j).

Record budget_ok (b : Budget) (permits : list Z) (jobs : list Job) : Prop := {
  bo_count : fst (bg_used b) = len permits + total permit_count jobs;
  bo_bytes : snd (bg_used b) = total (fun p => p) permits + total permit_bytes jobs;
  bo_limits : fst (bg_used b) <= bg_jobs b <= U64_MAX /\ snd (bg_used b) <= bg_bytes b <= U64_MAX;
  bo_permits : (forall p, p ∈ permits -> 0 <= p) /\ (forall j, j ∈ jobs -> 0 <= permit_bytes j)
}.

Record queue_ok (active : gset ChunkId) (id : ChunkId) (q : list Job) : Prop := {
  qo_some : q <> [];
  qo_active : id ∈ active;
  qo_id : forall j, j ∈ q -> jb_id j = Some id;
  qo_order : StronglySorted lt (jb_no <$> q)
}.

(** A fence is the job received last. *)
Definition fence_ok (jobs : list (option ChunkId)) (queue : list Job) (f : Job) : Prop := jb_id f = None /\ (jb_no f + 1 + length queue = length jobs)%nat.

Record sched_ok (jobs : list (option ChunkId)) (s : Sched) : Prop := {
  so_ids : forall j, j ∈ unfinished s -> jobs !! jb_no j = Some (jb_id j);
  so_all : Permutation (finished (sc_history s) ++ (jb_no <$> unfinished s)) (seq 0 (length jobs));
  so_started : Permutation (started (sc_history s)) (finished (sc_history s) ++ (jb_no <$> executing s));
  so_queue : exists m, jb_no <$> sc_queue s = seq m (length (sc_queue s)) /\ (m + length (sc_queue s) = length jobs)%nat;
  so_active : forall id, id ∈ sc_active s <-> exists j, j ∈ sc_running s /\ jb_id j = Some id;
  so_keyed : forall j, j ∈ sc_running s -> is_Some (jb_id j);
  so_distinct : NoDup (jb_id <$> sc_running s);
  so_pending : forall id q, sc_pending s !! id = Some q -> queue_ok (sc_active s) id q;
  so_fence : forall f, sc_fence s = Some f -> fence_ok jobs (sc_queue s) f;
  so_barrier : forall f, sc_barrier s = Some f -> fence_ok jobs (sc_queue s) f /\ sc_running s = [] /\ sc_fence s = None;
  so_history : history_ok jobs (sc_history s);
  so_ends : (sc_disconnected s = true -> sc_senders s = false /\ sc_queue s = []) /\ (sc_stopped s = true -> sc_disconnected s = true /\ sc_running s = [] /\ sc_fence s = None /\ sc_barrier s = None)
}.

(** ** History *)

Lemma finished_app h h' : finished (h ++ h') = finished h ++ finished h'.
Proof. apply omap_app. Qed.
Lemma started_app h h' : started (h ++ h') = started h ++ started h'.
Proof. apply omap_app. Qed.
Lemma elem_of_finished h n : n ∈ finished h <-> Finish n ∈ h.
Proof. unfold finished. rewrite list_elem_of_omap. split; [intros ([m|m] & Hm & He); [discriminate | injection He as ->; assumption] | intros Hm; exists (Finish n); auto]. Qed.

Lemma history_start jobs h j : history_ok jobs h -> (forall i, (i < j)%nat -> conflict jobs i j -> Finish i ∈ h) -> history_ok jobs (h ++ [Start j]).
Proof.
  intros Hh Hj h1 j' h2 He i Hi Hc. destruct (exists_last (l := Start j' :: h2)) as (l & x & Hl); [discriminate|]. rewrite Hl, app_assoc in He. apply app_inj_tail in He as [He <-]. destruct l as [|y l]; cbn in Hl.
  - injection Hl as -> ->. rewrite app_nil_r in He. subst h1. auto.
  - injection Hl as <- ->. eapply Hh; [exact He | exact Hi | exact Hc].
Qed.

Lemma history_end jobs h n : history_ok jobs h -> history_ok jobs (h ++ [Finish n]).
Proof.
  intros Hh h1 j' h2 He i Hi Hc. destruct (exists_last (l := Start j' :: h2)) as (l & x & Hl); [discriminate|]. rewrite Hl, app_assoc in He. apply app_inj_tail in He as [He <-]. destruct l as [|y l]; cbn in Hl; [injection Hl as Hx _; discriminate|].
  injection Hl as <- ->. eapply Hh; [exact He | exact Hi | exact Hc].
Qed.

Section Facts.
Context (jobs : list (option ChunkId)) (s : Sched) (S : sched_ok jobs s).

Lemma unfinished_nodup : NoDup (jb_no <$> unfinished s).
Proof. pose proof (NoDup_seq 0 (length jobs)) as Hn. rewrite <- (so_all _ _ S) in Hn. apply NoDup_app in Hn as (_ & _ & Hn). exact Hn. Qed.

Lemma unfinished_unique j j' : j ∈ unfinished s -> j' ∈ unfinished s -> jb_no j = jb_no j' -> j = j'.
Proof.
  intros Hj Hj' He. apply list_elem_of_lookup in Hj as [x Hx], Hj' as [y Hy]. assert (x = y); [|congruence]. eapply NoDup_lookup; [apply unfinished_nodup | rewrite list_lookup_fmap, Hx; reflexivity | rewrite list_lookup_fmap, Hy, He; reflexivity].
Qed.

(** A job that is nowhere has finished. *)
Lemma must_finish i : (i < length jobs)%nat -> (forall u, u ∈ unfinished s -> jb_no u <> i) -> Finish i ∈ sc_history s.
Proof.
  intros Hi Hno. apply elem_of_finished. assert (Hin : i ∈ seq 0 (length jobs)) by (apply elem_of_seq; lia). rewrite <- (so_all _ _ S) in Hin. apply elem_of_app in Hin as [Hin|Hin]; [assumption|]. apply list_elem_of_fmap in Hin as (u & -> & Hu). destruct (Hno u Hu eq_refl).
Qed.

Lemma conflict_bound i j : conflict jobs i j -> (i < length jobs)%nat.
Proof. intros (a & b & Ha & _). eapply lookup_lt_Some. exact Ha. Qed.

(** What is left to do before a keyed or a keyless job. *)
Lemma conflict_unfinished i j u : conflict jobs i j -> u ∈ unfinished s -> jb_no u = i -> forall b, jobs !! j = Some b -> jb_id u = None \/ b = None \/ jb_id u = b.
Proof. intros (a & b & Ha & Hb & Hc) Hu <- b' Hb'. rewrite (so_ids _ _ S u Hu) in Ha. rewrite Hb in Hb'. injection Hb' as <-. injection Ha as ->. exact Hc. Qed.

(** Jobs in the channel are behind all received ones. *)
Lemma queue_last u q : u ∈ sc_queue s -> q ∈ unfinished s -> q ∉ sc_queue s -> (jb_no q < jb_no u)%nat.
Proof.
  intros Hu Hq Hno. destruct (so_queue _ _ S) as (m & Hm & Hlen). assert (Hqn : (jb_no q < length jobs)%nat) by (eapply lookup_lt_Some; apply (so_ids _ _ S); assumption).
  assert (Hum : jb_no u ∈ seq m (length (sc_queue s))) by (rewrite <- Hm; apply list_elem_of_fmap; eauto). apply elem_of_seq in Hum.
  destruct (decide (jb_no q < m)%nat) as [?|Hge]; [lia|]. destruct Hno. assert (Hin : jb_no q ∈ jb_no <$> sc_queue s) by (rewrite Hm; apply elem_of_seq; lia). apply list_elem_of_fmap in Hin as (q' & He & Hq'). assert (q = q') as ->; [|assumption].
  apply unfinished_unique; [assumption | | assumption]. unfold unfinished, waiting_jobs. rewrite !elem_of_app. auto.
Qed.

Lemma idle_pending : sc_running s = [] -> sc_pending s = ∅.
Proof.
  intros Hr. apply map_empty. intros id. destruct (sc_pending s !! id) as [q|] eqn:Hq; [|reflexivity]. destruct (so_pending _ _ S _ _ Hq) as [_ Ha _ _]. apply (so_active _ _ S) in Ha as (j & Hj & _). rewrite Hr in Hj. inversion Hj.
Qed.
End Facts.

(** ** Turns of the scheduler keep its state well formed *)

(** ** The budget *)

Lemma total_delete {A} (f : A -> Z) (l : list A) i x : l !! i = Some x -> total f (delete i l) = total f l - f x.
Proof. intros Hi. rewrite (delete_Permutation l i x Hi) at 2. rewrite total_cons. lia. Qed.

Lemma budget_perm b permits jobs jobs' : Permutation jobs jobs' -> budget_ok b permits jobs -> budget_ok b permits jobs'.
Proof. intros Hp [H1 H2 H3 [H4 H5]]. split; [rewrite <- Hp; assumption | rewrite <- Hp; assumption | assumption | split; [assumption | intros j; rewrite <- Hp; apply H5]]. Qed.

Section Budgets.
Context {SE : Type}.

Lemma permit_count_range jobs : 0 <= total permit_count jobs.
Proof. apply total_nonneg. intros j _. unfold permit_count. destruct (jb_permit j); lia. Qed.

Lemma budget_sums b permits jobs : budget_ok b permits jobs -> 0 <= total (fun p => p) permits /\ 0 <= total permit_bytes jobs.
Proof. intros [_ _ _ [H4 H5]]. split; apply total_nonneg; assumption. Qed.

Lemma budget_reserve b permits jobs bytes : budget_ok b permits jobs -> is_u64 bytes ->
  reserve_permit (SE := SE) b bytes = Err cache.Busy \/ exists b', reserve_permit (SE := SE) b bytes = Ok (bytes, b') /\ budget_ok b' (permits ++ [bytes]) jobs /\ bg_jobs b' = bg_jobs b /\ bg_bytes b' = bg_bytes b.
Proof.
  intros B [Hb Hb']. pose proof (budget_sums _ _ _ B) as [Hs1 Hs2]. destruct B as [H1 H2 [H3 H3'] [H4 H5]]. unfold reserve_permit. destruct (fst (bg_used b) >=? bg_jobs b) eqn:E1; boolp; cbn [rbind fail_if]; [left; reflexivity|].
  unfold sub64. rewrite (proj2 (Z.leb_le _ _)) by lia. cbn [rbind]. destruct (bytes >? bg_bytes b - snd (bg_used b)) eqn:E2; boolp; cbn [fail_if rbind]; [left; reflexivity|]. right. unfold add64. rewrite !(proj2 (Z.leb_le _ _)) by lia. cbn [rbind]. eexists. split; [reflexivity|]. split; [|split; reflexivity].
  split; cbn [bg_used bg_jobs bg_bytes fst snd]; [rewrite len_app; change (len [bytes]) with 1; lia | rewrite total_snoc; cbn beta; lia | lia|]. split; [|assumption]. intros p Hp. apply elem_of_app in Hp as [Hp|Hp]; [auto|]. apply list_elem_of_singleton in Hp as ->. assumption.
Qed.

Lemma budget_release b permits jobs i p : budget_ok b permits jobs -> permits !! i = Some p -> exists b', drop_permit (SE := SE) (Some p) b = Ok b' /\ budget_ok b' (delete i permits) jobs /\ bg_jobs b' = bg_jobs b /\ bg_bytes b' = bg_bytes b.
Proof.
  intros B Hi. pose proof (budget_sums _ _ _ B) as [Hs1 Hs2]. destruct B as [H1 H2 [H3 H3'] [H4 H5]]. pose proof (permit_count_range jobs). assert (Hl : len (delete i permits) = len permits - 1) by (unfold len; rewrite length_delete by eauto; pose proof (lookup_lt_Some _ _ _ Hi); lia). pose proof (len_nonneg (delete i permits)).
  assert (Hp : p <= total (fun p => p) permits) by (apply (total_lookup (fun p => p) permits i p); [intros y; apply H4 | assumption]). cbn. unfold sub64. rewrite !(proj2 (Z.leb_le _ _)) by lia. cbn [rbind]. eexists. split; [reflexivity|]. split; [|split; reflexivity].
  assert (Hp0 : 0 <= p) by (apply H4, list_elem_of_lookup; eauto). split; cbn [bg_used bg_jobs bg_bytes fst snd]; [lia | rewrite (total_delete _ _ _ _ Hi); cbn beta; lia | lia|]. split; [|assumption]. intros q Hq. apply H4. rewrite (delete_Permutation permits i p Hi). constructor. assumption.
Qed.

Lemma budget_done b permits jobs j rest : budget_ok b permits jobs -> Permutation jobs (j :: rest) -> exists b', drop_permit (SE := SE) (jb_permit j) b = Ok b' /\ budget_ok b' permits rest /\ bg_jobs b' = bg_jobs b /\ bg_bytes b' = bg_bytes b.
Proof.
  intros B Hp. apply (budget_perm _ _ _ _ Hp) in B. pose proof (budget_sums _ _ _ B) as [Hs1 Hs2]. destruct B as [H1 H2 [H3 H3'] [H4 H5]]. pose proof (permit_count_range rest). pose proof (len_nonneg permits). rewrite total_cons in *. assert (Hb0 : 0 <= permit_bytes j) by (apply H5; constructor). assert (Hr0 : 0 <= total permit_bytes rest) by (apply total_nonneg; intros; apply H5; constructor; assumption).
  assert (H5' : forall k, k ∈ rest -> 0 <= permit_bytes k) by (intros; apply H5; constructor; assumption). unfold permit_count at 1 in H1. unfold permit_bytes at 1 in H2. unfold permit_bytes in Hb0. destruct (jb_permit j) as [p|]; cbn [drop_permit default] in *; [|exists b; split; [reflexivity|]; split; [split; [lia | unfold default, id in H2; lia | lia | auto] | auto]].
  unfold default, id in H2, Hb0. unfold sub64. rewrite !(proj2 (Z.leb_le _ _)) by lia. cbn [rbind]. eexists. split; [reflexivity|]. split; [|split; reflexivity]. split; cbn [bg_used bg_jobs bg_bytes fst snd]; [lia | lia | lia | auto].
Qed.

Lemma budget_submit b permits jobs j permit : budget_ok b permits jobs -> match permit with Some i => (i < length permits)%nat | None => True end -> jb_permit j = permit ≫= (fun i => permits !! i) ->
  budget_ok b (match permit with Some i => delete i permits | None => permits end) (jobs ++ [j]).
Proof.
  intros [H1 H2 H3 [H4 H5]] Hv Hj. destruct permit as [i|]; cbn in Hj.
  - destruct (lookup_lt_is_Some_2 permits i Hv) as [p Hp]. rewrite Hp in Hj. assert (Hc : permit_count j = 1) by (unfold permit_count; rewrite Hj; reflexivity). assert (Hb : permit_bytes j = p) by (unfold permit_bytes; rewrite Hj; reflexivity).
    split; [|rewrite (total_delete _ _ _ _ Hp), total_snoc; cbn beta; lia | assumption|].
    + rewrite total_snoc. unfold len in *. rewrite length_delete by eauto. lia.
    + split; [intros q Hq; apply H4; rewrite (delete_Permutation permits i p Hp); constructor; assumption|]. intros k Hk. apply elem_of_app in Hk as [Hk|Hk]; [auto|]. apply list_elem_of_singleton in Hk as ->. rewrite Hb. apply H4, list_elem_of_lookup. eauto.
  - assert (Hc : permit_count j = 0) by (unfold permit_count; rewrite Hj; reflexivity). assert (Hb : permit_bytes j = 0) by (unfold permit_bytes; rewrite Hj; reflexivity). split; [rewrite total_snoc; lia | rewrite total_snoc; lia | assumption|]. split; [assumption|]. intros k Hk. apply elem_of_app in Hk as [Hk|Hk]; [auto|]. apply list_elem_of_singleton in Hk as ->. lia.
Qed.
End Budgets.

(** ** Callers *)

Section Jobs.
Context {SE : Type}.
Implicit Types (jobs : list (option ChunkId)) (s : Sched) (j : Job).

Lemma conflict_grow jobs x (i j : nat) : (i < j)%nat -> (j < length jobs)%nat -> conflict (jobs ++ [x]) i j -> conflict jobs i j.
Proof. intros Hij Hj (a & b & Ha & Hb & Hc). rewrite lookup_app_l in Ha by lia. rewrite lookup_app_l in Hb by lia. exists a, b. auto. Qed.

Lemma started_bound jobs s (j : nat) : sched_ok jobs s -> Start j ∈ sc_history s -> (j < length jobs)%nat.
Proof.
  intros S Hj. assert (Hin : j ∈ started (sc_history s)) by (apply list_elem_of_omap; exists (Start j); auto). rewrite (so_started _ _ S) in Hin. assert (Hs : j ∈ seq 0 (length jobs)); [|apply elem_of_seq in Hs; lia]. rewrite <- (so_all _ _ S).
  apply elem_of_app in Hin as [?|Hin]; apply elem_of_app; [auto|]. right. unfold unfinished. rewrite fmap_app. apply elem_of_app. auto.
Qed.

Lemma submit_ok jobs s id permit : sched_ok jobs s -> sc_senders s = true ->
  let j := {| jb_no := length jobs; jb_id := id; jb_permit := permit |} in sched_ok (jobs ++ [id]) (sc_set_queue (sc_queue s ++ [j]) s) /\ unfinished (sc_set_queue (sc_queue s ++ [j]) s) = unfinished s ++ [j].
Proof.
  intros S Hsend j. assert (Hu : unfinished (sc_set_queue (sc_queue s ++ [j]) s) = unfinished s ++ [j]) by (unfold unfinished, waiting_jobs, executing; cbn; rewrite <- !app_assoc; reflexivity). split; [|exact Hu]. assert (Hlast : (jobs ++ [id]) !! length jobs = Some id) by (rewrite lookup_app_r by lia; rewrite Nat.sub_diag; reflexivity).
  assert (Hfence : forall f, fence_ok jobs (sc_queue s) f -> fence_ok (jobs ++ [id]) (sc_queue s ++ [j]) f) by (intros f [Hf Hn]; split; [assumption | rewrite !length_app; cbn; lia]).
  constructor; cbn [sc_set_queue sc_history sc_queue sc_active sc_running sc_pending sc_fence sc_barrier sc_disconnected sc_senders sc_stopped].
  - intros k. rewrite Hu. intros Hk. apply elem_of_app in Hk as [Hk|Hk]; [|apply list_elem_of_singleton in Hk as ->; exact Hlast]. pose proof (so_ids _ _ S k Hk) as Hi. apply lookup_app_l_Some. exact Hi.
  - rewrite Hu, fmap_app, length_app, seq_app, app_assoc, (so_all _ _ S). reflexivity.
  - exact (so_started _ _ S).
  - destruct (so_queue _ _ S) as (m & Hm & Hlen). exists m. rewrite fmap_app, !length_app, seq_app, Hm. cbn. split; [rewrite Hlen; reflexivity | lia].
  - exact (so_active _ _ S).
  - exact (so_keyed _ _ S).
  - exact (so_distinct _ _ S).
  - exact (so_pending _ _ S).
  - intros f Hf. apply Hfence. exact (so_fence _ _ S f Hf).
  - intros f Hf. destruct (so_barrier _ _ S f Hf) as (H1 & H2 & H3). auto.
  - intros h1 k h2 He i Hi Hc. eapply (so_history _ _ S); [exact He | exact Hi|]. eapply conflict_grow; [exact Hi | | exact Hc]. apply (started_bound _ _ _ S). rewrite He. apply elem_of_app. right. constructor.
  - destruct (so_ends _ _ S) as [E1 E2]. split; [intros Hd; destruct (E1 Hd); congruence|]. intros Hst. destruct (E2 Hst) as [Hd ?]. destruct (E1 Hd). congruence.
Qed.

Lemma ends_ok jobs s senders disconnected stopped : sched_ok jobs s -> (disconnected = true -> senders = false /\ sc_queue s = []) -> (stopped = true -> disconnected = true /\ sc_running s = [] /\ sc_fence s = None /\ sc_barrier s = None) -> sched_ok jobs (sc_set_ends senders disconnected stopped s).
Proof. intros [] E1 E2. constructor; try assumption. split; assumption. Qed.

(** ** Fences *)

Lemma fence_start_ok jobs s f : sched_ok jobs s -> sc_barrier s = None -> sc_running s = [] -> sc_fence s = Some f ->
  let s' := sc_set_fence None (Some f) (sc_history s ++ [Start (jb_no f)]) s in sched_ok jobs s' /\ unfinished s' = unfinished s.
Proof.
  intros S Hb Hr Hf s'. assert (Hu : unfinished s' = unfinished s) by (unfold unfinished, waiting_jobs, executing, s'; cbn; rewrite Hb, Hr, Hf; reflexivity). split; [|exact Hu]. destruct (so_fence _ _ S f Hf) as [Hid Hno]. pose proof (idle_pending _ _ S Hr) as Hp.
  constructor; cbn [s' sc_set_fence sc_history sc_queue sc_active sc_running sc_pending sc_fence sc_barrier sc_disconnected sc_senders sc_stopped].
  - intros k. fold s'. rewrite Hu. apply (so_ids _ _ S).
  - fold s'. rewrite Hu, finished_app. cbn [finished omap list_omap]. rewrite app_nil_r. exact (so_all _ _ S).
  - rewrite started_app, finished_app. cbn. rewrite app_nil_r, (so_started _ _ S). unfold executing. cbn. rewrite Hb, Hr. cbn. rewrite app_nil_r. reflexivity.
  - exact (so_queue _ _ S).
  - exact (so_active _ _ S).
  - exact (so_keyed _ _ S).
  - exact (so_distinct _ _ S).
  - exact (so_pending _ _ S).
  - discriminate.
  - intros f' [= <-]. split; [split; assumption|]. auto.
  - apply history_start; [exact (so_history _ _ S)|]. intros i Hi Hc. apply (must_finish _ _ S); [eapply conflict_bound; exact Hc|]. intros u Hu' He. unfold unfinished, waiting_jobs, executing in Hu'. rewrite Hb, Hr, Hf, Hp in Hu'. cbn in Hu'. apply elem_of_cons in Hu' as [->|Hu']; [lia|].
    assert (Hlt : (jb_no f < jb_no u)%nat); [|lia]. apply (queue_last _ _ S); [exact Hu' | unfold unfinished, waiting_jobs, executing; rewrite Hf, !elem_of_app; right; left; constructor|].
    intros Hq. destruct (so_queue _ _ S) as (m & Hm & Hlen). assert (Hin : jb_no f ∈ seq m (length (sc_queue s))) by (rewrite <- Hm; apply list_elem_of_fmap; eauto). apply elem_of_seq in Hin. lia.
  - destruct (so_ends _ _ S) as [E1 E2]. split; [exact E1|]. intros Hst. destruct (E2 Hst) as (_ & _ & Hff & _). congruence.
Qed.

Lemma fence_done_ok jobs s f : sched_ok jobs s -> sc_barrier s = Some f ->
  let s' := sc_set_fence (sc_fence s) None (sc_history s ++ [Finish (jb_no f)]) s in sched_ok jobs s' /\ unfinished s = f :: unfinished s'.
Proof.
  intros S Hb s'. assert (Hu : unfinished s = f :: unfinished s') by (unfold unfinished, waiting_jobs, executing, s'; cbn; rewrite Hb; reflexivity). split; [|exact Hu]. destruct (so_barrier _ _ S f Hb) as (Hf & Hr & Hfe).
  constructor; cbn [s' sc_set_fence sc_history sc_queue sc_active sc_running sc_pending sc_fence sc_barrier sc_disconnected sc_senders sc_stopped].
  - intros k Hk. apply (so_ids _ _ S). rewrite Hu. constructor. exact Hk.
  - fold s'. rewrite finished_app, <- (so_all _ _ S), Hu. cbn [finished omap list_omap fmap list_fmap]. rewrite <- app_assoc. reflexivity.
  - rewrite started_app, finished_app. cbn. rewrite app_nil_r, (so_started _ _ S). unfold executing. cbn. rewrite Hb, <- app_assoc. reflexivity.
  - exact (so_queue _ _ S).
  - exact (so_active _ _ S).
  - exact (so_keyed _ _ S).
  - exact (so_distinct _ _ S).
  - exact (so_pending _ _ S).
  - exact (so_fence _ _ S).
  - discriminate.
  - apply history_end. exact (so_history _ _ S).
  - destruct (so_ends _ _ S) as [E1 E2]. split; [exact E1|]. intros Hst. destruct (E2 Hst) as (? & ? & ? & Hn). congruence.
Qed.

(** ** The next job of the channel *)

Lemma queue_head jobs s j queue : sched_ok jobs s -> sc_queue s = j :: queue -> j ∈ unfinished s /\ (jb_no j + 1 + length queue = length jobs)%nat /\ (exists m, jb_no <$> queue = seq m (length queue) /\ (m + length queue = length jobs)%nat) /\ forall u, u ∈ unfinished s -> u ∈ executing s \/ u ∈ option_list (sc_fence s) \/ u ∈ pending_jobs (sc_pending s) -> (jb_no u < jb_no j)%nat.
Proof.
  intros S Hq. assert (Hj : j ∈ unfinished s) by (unfold unfinished, waiting_jobs; rewrite Hq, !elem_of_app; right; right; right; constructor). split; [exact Hj|]. destruct (so_queue _ _ S) as (m & Hm & Hlen). rewrite Hq in Hm, Hlen. cbn [fmap list_fmap length] in Hm, Hlen. injection Hm as Hm Ht.
  split; [lia|]. split; [exists (1 + m)%nat; split; [exact Ht | lia]|]. intros u Hu Hw. apply (queue_last _ _ S); [rewrite Hq; constructor | exact Hu|]. intros Hin.
  pose proof (unfinished_nodup _ _ S) as Hn. unfold unfinished, waiting_jobs in Hn. rewrite !fmap_app, !app_assoc in Hn. apply NoDup_app in Hn as (_ & Hn & _). apply (Hn (jb_no u)); [|apply list_elem_of_fmap; eauto]. rewrite <- !fmap_app. apply list_elem_of_fmap. exists u. split; [reflexivity|]. rewrite !elem_of_app. destruct Hw as [?|[?|?]]; auto.
Qed.

Lemma receive_fence_ok jobs s j queue : sched_ok jobs s -> sc_queue s = j :: queue -> jb_id j = None -> sc_fence s = None -> sc_barrier s = None -> sc_stopped s = false -> sc_disconnected s = false ->
  let s' := sc_set_fence (Some j) (sc_barrier s) (sc_history s) (sc_set_queue queue s) in sched_ok jobs s' /\ Permutation (unfinished s') (unfinished s).
Proof.
  intros S Hq Hid Hf Hb Hst Hdis s'. assert (Hu : Permutation (unfinished s') (unfinished s)) by (unfold unfinished, waiting_jobs, executing, s'; cbn; rewrite Hf, Hq; cbn; solve_Permutation). split; [|exact Hu]. destruct (queue_head _ _ _ _ S Hq) as (Hj & Hno & Hqueue & _).
  constructor; cbn [s' sc_set_fence sc_set_queue sc_history sc_queue sc_active sc_running sc_pending sc_fence sc_barrier sc_disconnected sc_senders sc_stopped].
  - intros k. fold s'. rewrite Hu. apply (so_ids _ _ S).
  - fold s'. rewrite Hu. exact (so_all _ _ S).
  - exact (so_started _ _ S).
  - exact Hqueue.
  - exact (so_active _ _ S).
  - exact (so_keyed _ _ S).
  - exact (so_distinct _ _ S).
  - exact (so_pending _ _ S).
  - intros f [= <-]. split; assumption.
  - rewrite Hb. discriminate.
  - exact (so_history _ _ S).
  - split; congruence.
Qed.

Lemma receive_pend_ok jobs s j queue id : sched_ok jobs s -> sc_queue s = j :: queue -> jb_id j = Some id -> sc_fence s = None -> sc_barrier s = None -> sc_stopped s = false -> sc_disconnected s = false -> id ∈ sc_active s ->
  let s' := sc_set_jobs (sc_running s) (sc_active s) (<[id := default [] (sc_pending s !! id) ++ [j]]> (sc_pending s)) (sc_history s) (sc_set_queue queue s) in sched_ok jobs s' /\ Permutation (unfinished s') (unfinished s).
Proof.
  intros S Hq Hid Hf Hb Hst Hdis Ha s'. destruct (queue_head _ _ _ _ S Hq) as (Hj & Hno & Hqueue & Hbefore).
  assert (Hp : Permutation (pending_jobs (<[id := default [] (sc_pending s !! id) ++ [j]]> (sc_pending s))) (pending_jobs (sc_pending s) ++ [j])).
  { destruct (sc_pending s !! id) as [q|] eqn:Hq'; cbn [default]; [rewrite (pending_jobs_update _ _ _ _ Hq'), (pending_jobs_delete _ _ _ Hq'); unfold default, Datatypes.id; solve_Permutation | rewrite (pending_jobs_insert _ _ _ Hq'); unfold default, Datatypes.id; cbn; solve_Permutation]. }
  assert (Hu : Permutation (unfinished s') (unfinished s)) by (unfold unfinished, waiting_jobs, executing, s'; cbn; rewrite Hf, Hq, Hp; cbn; solve_Permutation). split; [|exact Hu].
  constructor; cbn [s' sc_set_jobs sc_set_queue sc_history sc_queue sc_active sc_running sc_pending sc_fence sc_barrier sc_disconnected sc_senders sc_stopped].
  - intros k. fold s'. rewrite Hu. apply (so_ids _ _ S).
  - fold s'. rewrite Hu. exact (so_all _ _ S).
  - exact (so_started _ _ S).
  - exact Hqueue.
  - exact (so_active _ _ S).
  - exact (so_keyed _ _ S).
  - exact (so_distinct _ _ S).
  - intros id' q'. destruct (decide (id = id')) as [<-|Hne]; [|rewrite lookup_insert_ne by assumption; apply (so_pending _ _ S)]. rewrite lookup_insert_eq. intros [= <-]. destruct (sc_pending s !! id) as [q|] eqn:Hq'; unfold default, Datatypes.id.
    + destruct (so_pending _ _ S _ _ Hq') as [Q1 Q2 Q3 Q4]. split; [destruct q; discriminate | assumption | intros k Hk; apply elem_of_app in Hk as [Hk|Hk]; [auto | apply list_elem_of_singleton in Hk as ->; assumption]|]. rewrite fmap_app. apply StronglySorted_app_2; [|assumption|constructor; constructor].
      intros x y Hx Hy. apply list_elem_of_fmap in Hx as (k & -> & Hk). apply list_elem_of_singleton in Hy as ->. assert (Hkp : k ∈ pending_jobs (sc_pending s)) by (apply elem_of_pending_jobs; eauto). apply Hbefore; [unfold unfinished, waiting_jobs; rewrite !elem_of_app; auto | auto].
    + split; [discriminate | assumption | intros k Hk; apply list_elem_of_singleton in Hk as ->; assumption | constructor; constructor].
  - rewrite Hf. discriminate.
  - rewrite Hb. discriminate.
  - exact (so_history _ _ S).
  - split; congruence.
Qed.

Lemma receive_start_ok jobs s j queue id : sched_ok jobs s -> sc_queue s = j :: queue -> jb_id j = Some id -> sc_fence s = None -> sc_barrier s = None -> sc_stopped s = false -> sc_disconnected s = false -> id ∉ sc_active s ->
  let s' := sc_set_jobs (sc_running s ++ [j]) ({[id]} ∪ sc_active s) (sc_pending s) (sc_history s ++ [Start (jb_no j)]) (sc_set_queue queue s) in sched_ok jobs s' /\ Permutation (unfinished s') (unfinished s).
Proof.
  intros S Hq Hid Hf Hb Hst Hdis Ha s'. destruct (queue_head _ _ _ _ S Hq) as (Hj & Hno & Hqueue & _). assert (Hu : Permutation (unfinished s') (unfinished s)) by (unfold unfinished, waiting_jobs, executing, s'; cbn; rewrite Hf, Hq; cbn; solve_Permutation). split; [|exact Hu].
  constructor; cbn [s' sc_set_jobs sc_set_queue sc_history sc_queue sc_active sc_running sc_pending sc_fence sc_barrier sc_disconnected sc_senders sc_stopped].
  - intros k. fold s'. rewrite Hu. apply (so_ids _ _ S).
  - fold s'. rewrite Hu, finished_app. cbn [finished omap list_omap]. rewrite app_nil_r. exact (so_all _ _ S).
  - rewrite started_app, finished_app. cbn. rewrite app_nil_r, (so_started _ _ S). unfold executing. cbn. rewrite !fmap_app, !app_assoc. reflexivity.
  - exact Hqueue.
  - intros id'. rewrite elem_of_union, elem_of_singleton, (so_active _ _ S). split.
    + intros [->|(k & Hk & He)]; [exists j; rewrite elem_of_app; split; [right; constructor | assumption] | exists k; rewrite elem_of_app; auto].
    + intros (k & Hk & He). apply elem_of_app in Hk as [Hk|Hk]; [eauto|]. apply list_elem_of_singleton in Hk as ->. left. congruence.
  - intros k Hk. apply elem_of_app in Hk as [Hk|Hk]; [apply (so_keyed _ _ S); assumption|]. apply list_elem_of_singleton in Hk as ->. eauto.
  - rewrite fmap_app. apply NoDup_app. split; [apply (so_distinct _ _ S)|]. split; [|apply NoDup_singleton]. intros x Hx Hx'. apply list_elem_of_singleton in Hx' as ->. apply list_elem_of_fmap in Hx as (k & He & Hk). apply Ha. apply (so_active _ _ S). exists k. split; [assumption | congruence].
  - intros id' q Hq'. destruct (so_pending _ _ S _ _ Hq') as [Q1 Q2 Q3 Q4]. split; [assumption | set_solver | assumption | assumption].
  - rewrite Hf. discriminate.
  - rewrite Hb. discriminate.
  - apply history_start; [exact (so_history _ _ S)|]. intros i Hi Hc. apply (must_finish _ _ S); [eapply conflict_bound; exact Hc|]. intros u Hu' He.
    assert (Hcase : jb_id u = None \/ Some id = None \/ jb_id u = Some id) by (eapply (conflict_unfinished jobs s S i (jb_no j) u Hc Hu' He); rewrite <- Hid; apply (so_ids _ _ S); exact Hj).
    unfold unfinished, waiting_jobs, executing in Hu'. rewrite Hb, Hf in Hu'. cbn in Hu'. rewrite !elem_of_app in Hu'. destruct Hu' as [Hr|[Hp|Hqu]].
    + destruct (so_keyed _ _ S u Hr) as [idu Hidu]. apply Ha, (so_active _ _ S). exists u. split; [assumption|]. destruct Hcase as [?|[?|?]]; congruence.
    + apply elem_of_pending_jobs in Hp as (id' & q & Hq' & Hin). destruct (so_pending _ _ S _ _ Hq') as [_ Q2 Q3 _]. pose proof (Q3 u Hin) as Hidu. apply Ha. destruct Hcase as [?|[?|?]]; congruence.
    + rewrite Hq in Hqu. destruct Hqueue as (m & Hm & Hl). apply elem_of_cons in Hqu as [->|Hqu]; [lia|]. assert (Hin : jb_no u ∈ seq m (length queue)) by (rewrite <- Hm; apply list_elem_of_fmap; eauto). apply elem_of_seq in Hin. lia.
  - split; congruence.
Qed.

(** A job that waits for its chunk has left the channel. *)
Lemma pending_received jobs s k : sched_ok jobs s -> k ∈ pending_jobs (sc_pending s) -> (jb_no k + length (sc_queue s) < length jobs)%nat /\ k ∉ sc_queue s.
Proof.
  intros S Hk. assert (Hku : k ∈ unfinished s) by (unfold unfinished, waiting_jobs; rewrite !elem_of_app; auto). assert (Hno : jb_no k ∉ jb_no <$> sc_queue s).
  { pose proof (unfinished_nodup _ _ S) as Hn. unfold unfinished, waiting_jobs in Hn. rewrite !fmap_app in Hn. apply NoDup_app in Hn as (_ & _ & Hn). apply NoDup_app in Hn as (_ & _ & Hn). apply NoDup_app in Hn as (_ & Hn & _). apply Hn. apply list_elem_of_fmap. eauto. }
  split; [|intros Hq; apply Hno, list_elem_of_fmap; eauto]. destruct (so_queue _ _ S) as (m & Hm & Hl). rewrite Hm in Hno. rewrite elem_of_seq in Hno. pose proof (lookup_lt_Some _ _ _ (so_ids _ _ S k Hku)). lia.
Qed.

(** ** A running future completes *)

Section Done.
Context jobs s (S : sched_ok jobs s) (i : nat) (j : Job) (id : ChunkId) (Hi : sc_running s !! i = Some j) (Hid : jb_id j = Some id).

Lemma done_alone : sc_barrier s = None /\ Permutation (sc_running s) (j :: delete i (sc_running s)) /\ id ∈ sc_active s.
Proof.
  split; [destruct (sc_barrier s) as [f|] eqn:Hb; [|reflexivity]; destruct (so_barrier _ _ S f Hb) as (_ & Hr & _); rewrite Hr in Hi; discriminate|]. split; [apply delete_Permutation; assumption|]. apply (so_active _ _ S). exists j. split; [apply list_elem_of_lookup; eauto | assumption].
Qed.

Lemma done_others k : k ∈ delete i (sc_running s) -> k ∈ sc_running s /\ jb_id k <> Some id.
Proof.
  intros Hk. destruct done_alone as (_ & P & _). split; [rewrite P; constructor; assumption|]. intros He. pose proof (so_distinct _ _ S) as Hn. rewrite P in Hn. cbn in Hn. apply NoDup_cons in Hn as [Hn _]. apply Hn. rewrite Hid, <- He. apply list_elem_of_fmap. eauto.
Qed.

(** No job follows on the chunk. *)
Lemma done_last_ok : sc_pending s !! id = None ->
  let s' := sc_set_jobs (delete i (sc_running s)) (sc_active s ∖ {[id]}) (sc_pending s) (sc_history s ++ [Finish (jb_no j)]) s in sched_ok jobs s' /\ Permutation (unfinished s) (j :: unfinished s').
Proof.
  intros Hp s'. destruct done_alone as (Hb & P & Ha). assert (Hu : Permutation (unfinished s) (j :: unfinished s')) by (unfold unfinished, waiting_jobs, executing, s'; cbn; rewrite Hb; cbn; rewrite P at 1; reflexivity). split; [|exact Hu].
  constructor; cbn [s' sc_set_jobs sc_history sc_queue sc_active sc_running sc_pending sc_fence sc_barrier sc_disconnected sc_senders sc_stopped].
  - intros k Hk. apply (so_ids _ _ S). rewrite Hu. constructor. exact Hk.
  - fold s'. rewrite finished_app, <- (so_all _ _ S), Hu. cbn [finished omap list_omap fmap list_fmap]. rewrite <- app_assoc. reflexivity.
  - rewrite started_app, finished_app. cbn. rewrite app_nil_r, (so_started _ _ S). unfold executing. cbn. rewrite Hb. cbn. rewrite P at 1. cbn. rewrite <- app_assoc. reflexivity.
  - exact (so_queue _ _ S).
  - intros id'. rewrite elem_of_difference, elem_of_singleton, (so_active _ _ S). split.
    + intros [(k & Hk & He) Hne]. exists k. split; [|assumption]. rewrite P in Hk. apply elem_of_cons in Hk as [->|Hk]; [congruence | assumption].
    + intros (k & Hk & He). destruct (done_others k Hk) as [Hk' Hne]. split; [eauto | congruence].
  - intros k Hk. apply (so_keyed _ _ S). apply (done_others k Hk).
  - pose proof (so_distinct _ _ S) as Hn. rewrite P in Hn. cbn in Hn. apply NoDup_cons in Hn as [_ Hn]. exact Hn.
  - intros id' q Hq'. destruct (so_pending _ _ S _ _ Hq') as [Q1 Q2 Q3 Q4]. split; [assumption | | assumption | assumption]. apply elem_of_difference. split; [assumption|]. intros He. apply elem_of_singleton in He. congruence.
  - exact (so_fence _ _ S).
  - rewrite Hb. discriminate.
  - apply history_end. exact (so_history _ _ S).
  - destruct (so_ends _ _ S) as [E1 E2]. split; [exact E1|]. intros Hst. destruct (E2 Hst) as (_ & Hr & _). rewrite Hr in Hi. discriminate.
Qed.

(** The first of the jobs waiting for the chunk starts. *)
Lemma done_next_ok k queue : sc_pending s !! id = Some (k :: queue) ->
  let p := match queue with [] => delete id (sc_pending s) | _ => <[id := queue]> (sc_pending s) end in
  let s' := sc_set_jobs (delete i (sc_running s) ++ [k]) (sc_active s) p ((sc_history s ++ [Finish (jb_no j)]) ++ [Start (jb_no k)]) s in sched_ok jobs s' /\ Permutation (unfinished s) (j :: unfinished s').
Proof.
  intros Hp p s'. destruct done_alone as (Hb & P & Ha). destruct (so_pending _ _ S _ _ Hp) as [_ _ Q3 Q4]. assert (Hk : jb_id k = Some id) by (apply Q3; constructor). cbn [fmap list_fmap] in Q4. apply StronglySorted_inv in Q4 as [Q4 Q5].
  assert (Hpj : Permutation (pending_jobs (sc_pending s)) (k :: pending_jobs p)) by (unfold p; rewrite (pending_jobs_delete _ _ _ Hp); destruct queue as [|k' queue]; [reflexivity | rewrite (pending_jobs_update _ _ _ _ Hp); reflexivity]).
  assert (Hpl : forall id' q, p !! id' = Some q -> id' = id /\ q = queue /\ queue <> [] \/ id' <> id /\ sc_pending s !! id' = Some q).
  { intros id' q. unfold p. destruct (decide (id = id')) as [<-|Hne]; destruct queue as [|k' queue]; rewrite ?lookup_delete_eq, ?lookup_insert_eq, ?lookup_delete_ne, ?lookup_insert_ne by assumption; [discriminate | intros [= <-]; auto | auto | auto]. }
  assert (Hu : Permutation (unfinished s) (j :: unfinished s')) by (unfold unfinished, waiting_jobs, executing, s'; cbn; rewrite Hb; cbn; rewrite P at 1; rewrite Hpj; cbn; solve_Permutation). split; [|exact Hu].
  assert (Hkin : k ∈ pending_jobs (sc_pending s)) by (rewrite Hpj; constructor). assert (Hku : k ∈ unfinished s) by (unfold unfinished, waiting_jobs; rewrite !elem_of_app; auto).
  constructor; cbn [s' sc_set_jobs sc_history sc_queue sc_active sc_running sc_pending sc_fence sc_barrier sc_disconnected sc_senders sc_stopped].
  - intros k' Hk'. apply (so_ids _ _ S). rewrite Hu. constructor. exact Hk'.
  - fold s'. rewrite !finished_app, <- (so_all _ _ S), Hu. cbn [finished omap list_omap fmap list_fmap]. rewrite app_nil_r, <- app_assoc. reflexivity.
  - rewrite !started_app, !finished_app. cbn. rewrite !app_nil_r, (so_started _ _ S). unfold executing. cbn. rewrite Hb. cbn. rewrite P at 1. cbn. rewrite fmap_app, <- !app_assoc. reflexivity.
  - exact (so_queue _ _ S).
  - intros id'. rewrite (so_active _ _ S). split.
    + intros (k' & Hk' & He). rewrite P in Hk'. apply elem_of_cons in Hk' as [->|Hk']; [exists k; rewrite elem_of_app; split; [right; constructor | congruence] | exists k'; rewrite elem_of_app; auto].
    + intros (k' & Hk' & He). apply elem_of_app in Hk' as [Hk'|Hk']; [exists k'; split; [apply (done_others k' Hk') | assumption]|]. apply list_elem_of_singleton in Hk' as ->. exists j. split; [apply list_elem_of_lookup; eauto | congruence].
  - intros k' Hk'. apply elem_of_app in Hk' as [Hk'|Hk']; [apply (so_keyed _ _ S), (done_others k' Hk')|]. apply list_elem_of_singleton in Hk' as ->. eauto.
  - pose proof (so_distinct _ _ S) as Hn. rewrite P in Hn. cbn in Hn. rewrite fmap_app. cbn. rewrite Hk, <- Hid. rewrite (Permutation_app_comm _ [_]). exact Hn.
  - intros id' q Hq'. destruct (Hpl id' q Hq') as [(-> & -> & Hne)|[Hne Hold]]; [|apply (so_pending _ _ S _ _ Hold)]. split; [assumption | assumption | intros k' Hk'; apply Q3; constructor; assumption | assumption].
  - exact (so_fence _ _ S).
  - rewrite Hb. discriminate.
  - apply history_start; [apply history_end; exact (so_history _ _ S)|]. intros x Hx Hc. apply elem_of_app. destruct (decide (x = jb_no j)) as [->|Hxj]; [right; constructor|]. left. apply (must_finish _ _ S); [eapply conflict_bound; exact Hc|]. intros u Hu' He.
    assert (Hcase : jb_id u = None \/ Some id = None \/ jb_id u = Some id) by (eapply (conflict_unfinished jobs s S x (jb_no k) u Hc Hu' He); rewrite <- Hk; apply (so_ids _ _ S); exact Hku).
    pose proof Hu' as Hu0. unfold unfinished, waiting_jobs, executing in Hu'. rewrite Hb in Hu'. cbn in Hu'. rewrite !elem_of_app in Hu'. destruct Hu' as [Hr|[Hf|[Hpu|Hqu]]].
    + rewrite P in Hr. apply elem_of_cons in Hr as [->|Hr]; [congruence|]. destruct (done_others u Hr) as [Hru Hne]. destruct (so_keyed _ _ S u Hru) as [idu Hidu]. destruct Hcase as [?|[?|?]]; congruence.
    + destruct (sc_fence s) as [f|] eqn:Hfe; [|inversion Hf]. apply list_elem_of_singleton in Hf as ->. destruct (so_fence _ _ S f Hfe) as [Hfi Hfn]. destruct (pending_received _ _ _ S Hkin). lia.
    + apply elem_of_pending_jobs in Hpu as (id' & q & Hq' & Hin). destruct (so_pending _ _ S _ _ Hq') as [_ _ Q3' _]. pose proof (Q3' u Hin) as Hidu. assert (id' = id) as -> by (destruct Hcase as [?|[?|?]]; congruence). rewrite Hp in Hq'. injection Hq' as <-. apply elem_of_cons in Hin as [->|Hin]; [lia|]. rewrite Forall_forall in Q5. assert (jb_no k < jb_no u)%nat; [|lia]. apply Q5. apply list_elem_of_fmap. eauto.
    + assert (jb_no k < jb_no u)%nat; [|lia]. apply (queue_last _ _ S); [assumption | assumption|]. apply (pending_received _ _ _ S Hkin).
  - destruct (so_ends _ _ S) as [E1 E2]. split; [exact E1|]. intros Hst. destruct (E2 Hst) as (_ & Hr & _). rewrite Hr in Hi. discriminate.
Qed.
End Done.
End Jobs.
