(* ===== verification/SchedulerLaws.v ===== *)
(** * The laws of the scheduler

    In every interleaving of callers and turns: jobs that must not overlap run
    in the order they were sent, all others are not held back, every job sent
    is done after boundedly many turns, and the budget counts exactly the
    permits that live. *)

From stdpp Require Import gmap sorting.
From S2P Require Import Prelude ChunkId Catalog Scheduler SchedulerInv.

Section Laws.
Context {SE : Type}.
Abbreviation sched_step := (sched_step (SE := SE)).
Abbreviation sched_run := (sched_run (SE := SE)).
Implicit Types (w : SchedWorld) (s : Sched).

Record sched_inv w : Prop := {
  sv_sched : sched_ok (sw_jobs w) (sw_sched w);
  sv_budget : budget_ok (sc_budget (sw_sched w)) (sw_permits w) (unfinished (sw_sched w))
}.

Lemma budget_irrelevant jobs s b : sched_ok jobs s -> sched_ok jobs (sc_set_budget b s).
Proof. intros []. constructor; assumption. Qed.

Definition limits_of s : Z * Z := (bg_jobs (sc_budget s), bg_bytes (sc_budget s)).

(** A turn that fits runs, keeps the state well formed and makes progress. *)
Definition turn_weight s : nat := 3 * length (sc_queue s) + 2 * (length (pending_jobs (sc_pending s)) + length (option_list (sc_fence s))) + length (executing s) + (if sc_disconnected s then 0 else 1) + (if sc_stopped s then 0 else 1).

Definition turns_to jobs permits s s' : Prop :=
  sched_ok jobs s' /\ budget_ok (sc_budget s') permits (unfinished s') /\ (turn_weight s' < turn_weight s)%nat /\ limits_of s' = limits_of s.

Lemma done_turn jobs permits s i j id : sched_ok jobs s -> budget_ok (sc_budget s) permits (unfinished s) -> sc_running s !! i = Some j -> jb_id j = Some id -> exists s', next_done (SE := SE) s i = Ok s' /\ turns_to jobs permits s s'.
Proof.
  intros S B Hi Hid. unfold next_done. rewrite Hi. cbn [expect rbind]. rewrite Hid. cbn [expect rbind]. destruct (done_alone jobs s S i j id Hi Hid) as (Hb & P & _). assert (Hlen : length (sc_running s) = Datatypes.S (length (delete i (sc_running s)))) by (rewrite P at 1; reflexivity).
  destruct (sc_pending s !! id) as [[|k queue]|] eqn:Hp.
  - destruct (so_pending _ _ S _ _ Hp) as [Hne _ _ _]. congruence.
  - destruct (done_next_ok jobs s S i j id Hi Hid k queue Hp) as [S' Hu]. destruct (budget_done (SE := SE) _ _ _ j _ B Hu) as (b & Hd & B' & L1 & L2). rewrite Hd. cbn [rbind]. unfold completed. cbn [sc_set_budget sc_set_jobs sc_pending]. rewrite Hp. unfold start.
    destruct (so_pending _ _ S _ _ Hp) as [_ _ Hq _]. rewrite (Hq k) by constructor. cbn [expect rbind]. eexists. split; [reflexivity|]. split; [exact (budget_irrelevant _ _ b S')|]. split; [exact B'|]. split; [|unfold limits_of; cbn; congruence].
    assert (Hpl : length (pending_jobs (sc_pending s)) = Datatypes.S (length (pending_jobs (match queue with [] => delete id (sc_pending s) | _ => <[id := queue]> (sc_pending s) end)))) by (rewrite (pending_jobs_delete _ _ _ Hp); destruct queue; [reflexivity | rewrite (pending_jobs_update _ _ _ _ Hp); reflexivity]).
    unfold turn_weight, executing. cbn [sc_queue sc_set_jobs sc_set_budget sc_pending sc_fence sc_barrier sc_running sc_disconnected sc_stopped]. rewrite Hb, !length_app. cbn [option_list length]. unfold option_list. cbn. lia.
  - destruct (done_last_ok jobs s S i j id Hi Hid Hp) as [S' Hu]. destruct (budget_done (SE := SE) _ _ _ j _ B Hu) as (b & Hd & B' & L1 & L2). rewrite Hd. cbn [rbind]. unfold completed. cbn [sc_set_budget sc_set_jobs sc_pending]. rewrite Hp. eexists. split; [reflexivity|]. split; [exact (budget_irrelevant _ _ b S')|]. split; [exact B'|]. split; [|unfold limits_of; cbn; congruence].
    unfold turn_weight, executing. cbn [sc_queue sc_set_jobs sc_set_budget sc_pending sc_fence sc_barrier sc_running sc_disconnected sc_stopped]. rewrite Hb, !length_app. lia.
Qed.

Lemma receive_turn jobs permits s : sched_ok jobs s -> budget_ok (sc_budget s) permits (unfinished s) -> sc_barrier s = None -> sc_fence s = None -> sc_disconnected s = false -> sc_stopped s = false -> channel_ready s -> exists s', receive (SE := SE) s = Ok s' /\ turns_to jobs permits s s'.
Proof.
  intros S B Hb Hf Hdis Hst Hc. unfold receive. destruct (sc_queue s) as [|j queue] eqn:Hq.
  - destruct Hc as [Hc|Hc]; [congruence|]. rewrite Hc. eexists. split; [reflexivity|]. split; [apply ends_ok; [assumption | auto | congruence]|]. split; [exact B|]. split; [|reflexivity]. unfold turn_weight, executing. cbn [sc_set_ends sc_queue sc_pending sc_fence sc_barrier sc_running sc_disconnected sc_stopped]. rewrite Hdis. lia.
  - assert (Hw : forall s', limits_of s' = limits_of s -> sched_ok jobs s' -> sc_budget s' = sc_budget s -> Permutation (unfinished s') (unfinished s) -> (turn_weight s' < turn_weight s)%nat -> turns_to jobs permits s s') by (intros s' Hl S' Hbu Hu Ht; split; [assumption|]; split; [rewrite Hbu; eapply budget_perm; [symmetry; exact Hu | exact B]|]; auto).
    destruct (jb_id j) as [id|] eqn:Hid; [destruct (decide (id ∈ sc_active (sc_set_queue queue s))) as [Ha|Ha]|].
    + destruct (receive_pend_ok jobs s j queue id S Hq Hid Hf Hb Hst Hdis Ha) as [S' Hu]. eexists. split; [reflexivity|]. apply Hw; [reflexivity | exact S' | reflexivity | exact Hu|].
      assert (Hp : length (pending_jobs (<[id := default [] (sc_pending s !! id) ++ [j]]> (sc_pending s))) = (length (pending_jobs (sc_pending s)) + 1)%nat).
      { destruct (sc_pending s !! id) as [q|] eqn:Hq'; [rewrite (pending_jobs_update _ _ _ _ Hq'), (pending_jobs_delete _ _ _ Hq') | rewrite (pending_jobs_insert _ _ _ Hq')]; unfold default, Datatypes.id; rewrite ?length_app; cbn [length app]; lia. }
      unfold turn_weight, executing. cbn [sc_set_jobs sc_set_queue sc_queue sc_pending sc_fence sc_barrier sc_running sc_disconnected sc_stopped]. rewrite Hq, Hp. cbn [length]. lia.
    + destruct (receive_start_ok jobs s j queue id S Hq Hid Hf Hb Hst Hdis Ha) as [S' Hu]. unfold start. rewrite Hid. cbn [expect rbind]. eexists. split; [reflexivity|]. apply Hw; [reflexivity | exact S' | reflexivity | exact Hu|].
      unfold turn_weight, executing. cbn [sc_set_jobs sc_set_queue sc_queue sc_pending sc_fence sc_barrier sc_running sc_disconnected sc_stopped]. rewrite Hq, !length_app. cbn [length]. lia.
    + destruct (receive_fence_ok jobs s j queue S Hq Hid Hf Hb Hst Hdis) as [S' Hu]. eexists. split; [reflexivity|]. apply Hw; [reflexivity | exact S' | reflexivity | exact Hu|].
      unfold turn_weight, executing. cbn [sc_set_fence sc_set_queue sc_queue sc_pending sc_fence sc_barrier sc_running sc_disconnected sc_stopped]. rewrite Hq, Hf. unfold option_list. cbn. lia.
Qed.

Lemma turn_runs jobs permits s r : sched_ok jobs s -> budget_ok (sc_budget s) permits (unfinished s) -> ready_fits s r -> exists s', turn (SE := SE) s r = Ok s' /\ turns_to jobs permits s s'.
Proof.
  intros S B [Hst Hf]. unfold turn. destruct (sc_barrier s) as [f|] eqn:Hb.
  - destruct (fence_done_ok jobs s f S Hb) as [S' Hu]. unfold fence_done. assert (Hp : Permutation (unfinished s) (f :: unfinished (sc_set_fence (sc_fence s) None (sc_history s ++ [Finish (jb_no f)]) s))) by (rewrite Hu; reflexivity). destruct (budget_done (SE := SE) _ _ _ f _ B Hp) as (b & Hd & B' & L1 & L2). rewrite Hd. cbn [rbind]. eexists. split; [reflexivity|].
    split; [exact (budget_irrelevant _ _ b S')|]. split; [exact B'|]. split; [|unfold limits_of; cbn; congruence]. unfold turn_weight, executing. cbn [sc_set_fence sc_set_budget sc_queue sc_pending sc_fence sc_barrier sc_running sc_disconnected sc_stopped]. rewrite Hb. unfold option_list. cbn. lia.
  - destruct (sc_running s) as [|j0 running] eqn:Hr; [destruct (sc_fence s) as [f|] eqn:Hfe; [|destruct (sc_disconnected s) eqn:Hdis]|].
    + destruct (fence_start_ok jobs s f S Hb Hr Hfe) as [S' Hu]. eexists. split; [reflexivity|]. split; [exact S'|]. split; [rewrite Hu; exact B|]. split; [|reflexivity]. unfold turn_weight, executing. cbn [sc_set_fence sc_queue sc_pending sc_fence sc_barrier sc_running sc_disconnected sc_stopped]. rewrite Hb, Hr, Hfe. unfold option_list. cbn. lia.
    + destruct (so_ends _ _ S) as [E1 _]. destruct (E1 Hdis) as [Hs Hq]. eexists. split; [reflexivity|]. split; [apply ends_ok; [exact S | auto | auto]|]. split; [exact B|]. split; [|reflexivity]. unfold turn_weight, executing. cbn [sc_set_ends sc_queue sc_pending sc_fence sc_barrier sc_running sc_disconnected sc_stopped]. rewrite Hdis, Hst. lia.
    + destruct Hf as [Hf|Hf]; [discriminate|]. apply receive_turn; assumption.
    + destruct r as [|i].
      * destruct Hf as (Hfe & Hdis & Hc). rewrite Hfe, Hdis. apply receive_turn; assumption.
      * rewrite <- Hr in Hf. destruct (lookup_lt_is_Some_2 _ _ Hf) as [j Hj]. destruct (so_keyed _ _ S j) as [id Hid]; [apply list_elem_of_lookup; eauto|]. eapply done_turn; eassumption.
Qed.

Lemma sched_step_inv w e : sched_inv w -> sched_fits w e -> exists o w', sched_step w e = Ok (o, w') /\ sched_inv w' /\ limits_of (sw_sched w') = limits_of (sw_sched w).
Proof.
  intros [S B] Hf. destruct e as [bytes|i|id permit| |r]; cbn [Scheduler.sched_step sched_fits] in *.
  - destruct (budget_reserve (SE := SE) _ _ _ _ B Hf) as [->|(b & -> & B' & L1 & L2)]; [eexists _, _; split; [reflexivity|]; split; [split; assumption | reflexivity]|]. eexists _, _. split; [reflexivity|]. split; [split; [apply budget_irrelevant; exact S | exact B'] | unfold limits_of; cbn; congruence].
  - destruct (lookup_lt_is_Some_2 _ _ Hf) as [p Hp]. rewrite Hp. cbn [expect rbind]. destruct (budget_release (SE := SE) _ _ _ _ _ B Hp) as (b & -> & B' & L1 & L2). eexists _, _. split; [reflexivity|]. split; [split; [apply budget_irrelevant; exact S | exact B'] | unfold limits_of; cbn; congruence].
  - destruct Hf as [Hs Hp]. unfold submit. destruct (sc_stopped (sw_sched w)) eqn:Hst.
    + destruct (so_ends _ _ S) as [E1 E2]. destruct (E2 Hst) as [Hd _]. destruct (E1 Hd). congruence.
    + destruct (submit_ok (sw_jobs w) (sw_sched w) id (permit ≫= (fun i => sw_permits w !! i)) S Hs) as [S' Hu]. eexists _, _. split; [reflexivity|]. split; [|reflexivity]. split; [exact S'|]. cbn [sw_sched sw_permits]. rewrite Hu. apply budget_submit; [exact B | assumption | reflexivity].
  - eexists _, _. split; [reflexivity|]. split; [|reflexivity]. split; [|exact B]. destruct (so_ends _ _ S) as [E1 E2]. apply ends_ok; [exact S | intros Hd; split; [reflexivity | apply E1; assumption] | exact E2].
  - destruct (turn_runs _ _ _ _ S B Hf) as (s' & -> & S' & B' & _ & Hl). eexists _, _. split; [reflexivity|]. split; [split; assumption | exact Hl].
Qed.

Lemma sched_run_inv w es w' : sched_run w es w' -> sched_inv w -> sched_inv w' /\ limits_of (sw_sched w') = limits_of (sw_sched w).
Proof.
  induction 1 as [|w e es o w' w'' Hf Hs _ IH]; [auto|]. intros Hinv. destruct (sched_step_inv w e Hinv Hf) as (o' & w1 & Hs' & Hinv' & Hl). rewrite Hs in Hs'. injection Hs' as <- <-. destruct (IH Hinv') as [? ?]. split; [assumption | congruence].
Qed.

Definition sched_reach (max_jobs max_bytes : Z) w : Prop := is_u64 max_jobs /\ is_u64 max_bytes /\ exists s es, Scheduler_new (SE := SE) max_jobs max_bytes = Ok s /\ sched_run (sched_start s) es w.

Lemma sched_reach_inv a b w : sched_reach a b w -> sched_inv w /\ limits_of (sw_sched w) = (a, b).
Proof.
  intros ([Ha Ha'] & [Hb Hb'] & s & es & Hn & Hr). unfold Scheduler_new in Hn. inv_ok. subst s. apply sched_run_inv in Hr; [exact Hr|]. split.
  - assert (Hu : pending_jobs ∅ = []) by (unfold pending_jobs; rewrite map_to_list_empty; reflexivity). constructor; unfold unfinished, waiting_jobs, executing; cbn; rewrite ?Hu; cbn.
    + intros j Hj. inversion Hj.
    + reflexivity.
    + reflexivity.
    + exists 0%nat. auto.
    + intros id. split; [set_solver | intros (j & Hj & _); inversion Hj].
    + intros j Hj. inversion Hj.
    + constructor.
    + intros id q. rewrite lookup_empty. discriminate.
    + discriminate.
    + discriminate.
    + intros h1 j h2 He. destruct h1; discriminate.
    + split; discriminate.
  - cbn. assert (Hu : pending_jobs ∅ = []) by (unfold pending_jobs; rewrite map_to_list_empty; reflexivity). unfold unfinished, waiting_jobs, executing. cbn. rewrite Hu. split; cbn; [reflexivity | reflexivity | unfold U64_MAX; lia | split; intros x Hx; inversion Hx].
Qed.

(** ** Where a job is *)

Lemma elem_of_started h n : n ∈ started h <-> Start n ∈ h.
Proof. unfold started. rewrite list_elem_of_omap. split; [intros ([m|m] & Hm & He); [injection He as ->; assumption | discriminate] | intros Hm; exists (Start n); auto]. Qed.

Lemma unfinished_not_finished jobs s u : sched_ok jobs s -> u ∈ unfinished s -> Finish (jb_no u) ∉ sc_history s.
Proof. intros S Hu Hf. pose proof (NoDup_seq 0 (length jobs)) as Hn. rewrite <- (so_all _ _ S) in Hn. apply NoDup_app in Hn as (_ & Hn & _). apply (Hn (jb_no u)); [apply elem_of_finished; assumption | apply list_elem_of_fmap; eauto]. Qed.

Lemma executing_started jobs s u : sched_ok jobs s -> u ∈ executing s -> Start (jb_no u) ∈ sc_history s.
Proof. intros S Hu. apply elem_of_started. rewrite (so_started _ _ S). apply elem_of_app. right. apply list_elem_of_fmap. eauto. Qed.

Lemma all_finished jobs s : sched_ok jobs s -> sc_barrier s = None -> sc_running s = [] -> sc_fence s = None -> sc_queue s = [] -> Permutation (finished (sc_history s)) (seq 0 (length jobs)).
Proof.
  intros S Hb Hr Hf Hq. rewrite <- (so_all _ _ S). assert (Hp : pending_jobs ∅ = []) by (unfold pending_jobs; rewrite map_to_list_empty; reflexivity). unfold unfinished, executing, waiting_jobs. rewrite Hb, Hr, Hf, Hq, (idle_pending _ _ S Hr), Hp. cbn. rewrite app_nil_r. reflexivity.
Qed.

Lemma turns_bounded rs : forall w w', sched_inv w -> sched_run w (STurn <$> rs) w' -> (length rs + turn_weight (sw_sched w') <= turn_weight (sw_sched w))%nat /\ sw_jobs w' = sw_jobs w.
Proof.
  induction rs as [|r rs IH]; intros w w' Hinv Hr; cbn in Hr; inversion Hr; subst; [auto|]. pose proof Hinv as [S B]. match goal with Hf : sched_fits _ _, Hs : sched_step _ _ = _, Hr' : sched_run _ _ _ |- _ => cbn in Hf, Hs; destruct (turn_runs _ _ _ _ S B Hf) as (s' & Ht & S' & B' & Hw & Hl); rewrite Ht in Hs; injection Hs as <- <-; destruct (IH _ _ (Build_sched_inv (sw_set s' (sw_permits w) w) S' B') Hr') as [IH1 IH2] end.
  cbn [sw_set sw_sched sw_jobs length] in *. split; [lia | exact IH2].
Qed.

(** C25: two jobs that must not overlap, on one chunk or one of them without a chunk, run in the order in which they were sent: the later starts only after the earlier has finished. Every job starts once and finishes once. *)
Theorem conflicting_jobs_in_order max_jobs max_bytes w : sched_reach max_jobs max_bytes w ->
  (forall i j h1 h2, (i < j)%nat -> conflict (sw_jobs w) i j -> sc_history (sw_sched w) = h1 ++ Start j :: h2 -> Finish i ∈ h1) /\ NoDup (started (sc_history (sw_sched w))) /\ NoDup (finished (sc_history (sw_sched w))).
Proof.
  intros Hr. destruct (sched_reach_inv _ _ _ Hr) as [[S B] _]. split; [intros i j h1 h2 Hi Hc He; eapply (so_history _ _ S); eassumption|]. pose proof (NoDup_seq 0 (length (sw_jobs w))) as Hn. rewrite <- (so_all _ _ S) in Hn.
  split; [rewrite (so_started _ _ S); unfold unfinished in Hn; rewrite fmap_app, app_assoc in Hn; apply NoDup_app in Hn as (Hn & _ & _); exact Hn | apply NoDup_app in Hn as (Hn & _ & _); exact Hn].
Qed.

(** a job on a chunk that the loop has received and not started waits for an earlier job of the same chunk that has started and not finished; jobs on other chunks never hold it back. *)
Theorem jobs_wait_only_for_their_chunk max_jobs max_bytes w n id : sched_reach max_jobs max_bytes w -> sw_jobs w !! n = Some (Some id) -> (n + length (sc_queue (sw_sched w)) < length (sw_jobs w))%nat -> Start n ∉ sc_history (sw_sched w) ->
  exists i, (i < n)%nat /\ sw_jobs w !! i = Some (Some id) /\ Start i ∈ sc_history (sw_sched w) /\ Finish i ∉ sc_history (sw_sched w).
Proof.
  intros Hr Hn Hrec Hns. destruct (sched_reach_inv _ _ _ Hr) as [[S B] _]. assert (Hnf : Finish n ∉ sc_history (sw_sched w)) by (intros Hf; apply Hns; apply elem_of_started; rewrite (so_started _ _ S); apply elem_of_app; left; apply elem_of_finished; exact Hf).
  assert (Hin : n ∈ seq 0 (length (sw_jobs w))) by (apply elem_of_seq; lia). rewrite <- (so_all _ _ S) in Hin. apply elem_of_app in Hin as [Hin|Hin]; [destruct Hnf; apply elem_of_finished; exact Hin|]. apply list_elem_of_fmap in Hin as (u & -> & Hu). pose proof (so_ids _ _ S u Hu) as Hid. rewrite Hn in Hid. injection Hid as Hid.
  unfold unfinished, waiting_jobs in Hu. rewrite !elem_of_app in Hu. destruct Hu as [Hu|[Hu|[Hu|Hu]]].
  - destruct Hns. eapply executing_started; eassumption.
  - destruct (sc_fence (sw_sched w)) as [f|] eqn:Hf; [|inversion Hu]. apply list_elem_of_singleton in Hu as ->. destruct (so_fence _ _ S f Hf). congruence.
  - apply elem_of_pending_jobs in Hu as (id' & q & Hq & Hin). destruct (so_pending _ _ S _ _ Hq) as [_ Ha Hids _]. pose proof (Hids u Hin). assert (id' = id) as -> by congruence. apply (so_active _ _ S) in Ha as (r & Hr' & Hrid). assert (Hre : r ∈ executing (sw_sched w)) by (unfold executing; apply elem_of_app; auto). assert (Hru : r ∈ unfinished (sw_sched w)) by (unfold unfinished; apply elem_of_app; auto).
    pose proof (executing_started _ _ _ S Hre) as Hrs. pose proof (so_ids _ _ S r Hru) as Hrj. rewrite Hrid in Hrj. exists (jb_no r). split; [|split; [exact Hrj|]; split; [exact Hrs | eapply unfinished_not_finished; eassumption]].
    destruct (decide (jb_no r < jb_no u)%nat) as [?|Hge]; [assumption|]. destruct (decide (jb_no r = jb_no u)) as [He|Hne]; [rewrite He in Hrs; contradiction|]. apply list_elem_of_split in Hrs as (h1 & h2 & He). destruct Hnf. rewrite He. apply elem_of_app. left. eapply (so_history _ _ S); [exact He | lia|]. exists (Some id), (Some id). auto.
  - destruct (so_queue _ _ S) as (m & Hm & Hl). assert (Hin : jb_no u ∈ seq m (length (sc_queue (sw_sched w)))) by (rewrite <- Hm; apply list_elem_of_fmap; eauto). apply elem_of_seq in Hin. lia.
Qed.

(** C26: once callers stop sending, at most three turns per unfinished job and two more run, whatever completes first; and when no turn is possible any more, every job ever sent has finished. *)
Theorem scheduler_drains max_jobs max_bytes w rs w' : sched_reach max_jobs max_bytes w -> sched_run w (STurn <$> rs) w' ->
  (length rs <= 3 * length (unfinished (sw_sched w)) + 2)%nat /\ ((forall r, ~ ready_fits (sw_sched w') r) -> Permutation (finished (sc_history (sw_sched w'))) (seq 0 (length (sw_jobs w)))).
Proof.
  intros Hr Hrun. destruct (sched_reach_inv _ _ _ Hr) as [Hinv _]. destruct (turns_bounded rs w w' Hinv Hrun) as [Hb Hj]. split.
  - unfold turn_weight in Hb. unfold unfinished, waiting_jobs. rewrite !length_app. destruct (sc_disconnected (sw_sched w)), (sc_stopped (sw_sched w)); lia.
  - intros Hno. destruct (sched_run_inv _ _ _ Hrun Hinv) as [[S _] _]. rewrite <- Hj. destruct (sc_stopped (sw_sched w')) eqn:Hst.
    + destruct (so_ends _ _ S) as [E1 E2]. destruct (E2 Hst) as (Hd & Hrn & Hf & Hba). destruct (E1 Hd). apply all_finished; assumption.
    + assert (Hba : sc_barrier (sw_sched w') = None) by (destruct (sc_barrier (sw_sched w')) eqn:E; [|reflexivity]; destruct (Hno Channel); split; [assumption | rewrite E; exact Logic.I]).
      assert (Hrn : sc_running (sw_sched w') = []) by (destruct (sc_running (sw_sched w')) eqn:E; [reflexivity|]; destruct (Hno (Future 0)); split; [assumption | rewrite Hba, E; cbn; lia]).
      assert (Hf : sc_fence (sw_sched w') = None) by (destruct (sc_fence (sw_sched w')) eqn:E; [|reflexivity]; destruct (Hno Channel); split; [assumption | rewrite Hba, Hrn, E; exact Logic.I]).
      assert (Hq : sc_queue (sw_sched w') = []) by (destruct (sc_queue (sw_sched w')) eqn:E; [reflexivity|]; destruct (Hno Channel); split; [assumption | rewrite Hba, Hrn, Hf; right; left; congruence]).
      apply all_finished; assumption.
Qed.

(** no call and no turn panics, the permits in use never exceed the limits, and they are exactly those that callers still hold and those of unfinished jobs. *)
Theorem scheduler_within_budget max_jobs max_bytes w e : sched_reach max_jobs max_bytes w -> sched_fits w e -> safe (sched_step w e) /\ (fst (sched_snapshot (sw_sched w)) <= max_jobs) /\ (snd (sched_snapshot (sw_sched w)) <= max_bytes) /\
  sched_snapshot (sw_sched w) = (len (sw_permits w) + total permit_count (unfinished (sw_sched w)), total (fun p => p) (sw_permits w) + total permit_bytes (unfinished (sw_sched w))).
Proof.
  intros Hr Hf. destruct (sched_reach_inv _ _ _ Hr) as [Hinv Hl]. destruct (sched_step_inv w e Hinv Hf) as (o & w' & -> & _). split; [discriminate|]. destruct Hinv as [_ [B1 B2 [B3 B4] _]]. unfold limits_of in Hl. injection Hl as Hl1 Hl2. unfold sched_snapshot. rewrite <- Hl1, <- Hl2. split; [lia|]. split; [lia|]. rewrite <- B1, <- B2. apply surjective_pairing.
Qed.
End Laws.

(** ** Running the machine *)

Definition ready_fitsb (s : Sched) (r : Ready) : bool :=
  negb (sc_stopped s) &&
  match sc_barrier s with
  | Some _ => true
  | None =>
      match sc_running s, sc_fence s with
      | [], Some _ => true
      | [], None => sc_disconnected s || (match sc_queue s with [] => negb (sc_senders s) | _ => true end)
      | _ :: _, fence => match r with Future i => bool_decide (i < length (sc_running s))%nat | Channel => (match fence with None => true | Some _ => false end) && negb (sc_disconnected s) && (match sc_queue s with [] => negb (sc_senders s) | _ => true end) end
      end
  end.

Lemma channel_readyb s : (match sc_queue s with [] => negb (sc_senders s) | _ => true end) = true -> channel_ready s.
Proof. unfold channel_ready. destruct (sc_queue s); [intros Hs; right; apply negb_true_iff; assumption | left; discriminate]. Qed.

Lemma ready_fitsb_ok s r : ready_fitsb s r = true -> ready_fits s r.
Proof.
  unfold ready_fitsb, ready_fits. intros Hb. apply andb_true_iff in Hb as [Hs Hb]. apply negb_true_iff in Hs. split; [assumption|]. destruct (sc_barrier s); [exact Logic.I|]. destruct (sc_running s) as [|j js]; [destruct (sc_fence s); [exact Logic.I|]; apply orb_true_iff in Hb as [?|Hb]; [auto | right; apply channel_readyb; assumption]|].
  destruct r as [|i]; [|apply bool_decide_eq_true in Hb; exact Hb]. apply andb_true_iff in Hb as [Hb Hc]. apply andb_true_iff in Hb as [Hf Hd]. apply negb_true_iff in Hd. destruct (sc_fence s); [discriminate|]. split; [reflexivity|]. split; [assumption | apply channel_readyb; assumption].
Qed.

Definition sched_fitsb (w : SchedWorld) (e : SchedEvent) : bool :=
  match e with
  | SReserve bytes => (0 <=? bytes) && (bytes <? 2 ^ 64)
  | SRelease i => bool_decide (i < length (sw_permits w))%nat
  | SSubmit _ permit => sc_senders (sw_sched w) && match permit with Some i => bool_decide (i < length (sw_permits w))%nat | None => true end
  | SHangUp => sc_senders (sw_sched w)
  | STurn ready => ready_fitsb (sw_sched w) ready
  end.

Lemma sched_fitsb_ok w e : sched_fitsb w e = true -> sched_fits w e.
Proof.
  destruct e as [bytes|i|id permit| |r]; cbn [sched_fitsb sched_fits]; intros Hb; [|apply bool_decide_eq_true in Hb; exact Hb| |exact Hb | apply ready_fitsb_ok; exact Hb].
  - boolp. split; assumption.
  - apply andb_true_iff in Hb as [Hs Hb]. split; [assumption|]. destruct permit; [apply bool_decide_eq_true in Hb; exact Hb | exact Logic.I].
Qed.

Fixpoint sched_exec {SE} (w : SchedWorld) (es : list SchedEvent) : option SchedWorld :=
  match es with
  | [] => Some w
  | e :: es => if sched_fitsb w e then match sched_step (SE := SE) w e with Ok (_, w') => sched_exec (SE := SE) w' es | _ => None end else None
  end.

Lemma sched_exec_run {SE} es : forall w w', sched_exec (SE := SE) w es = Some w' -> sched_run (SE := SE) w es w'.
Proof.
  induction es as [|e es IH]; cbn [sched_exec]; intros w w'; [intros [= <-]; constructor|]. destruct (sched_fitsb w e) eqn:Hf; [|discriminate]. destruct (sched_step w e) as [[o w1]| |] eqn:Hs; try discriminate. intros He. econstructor; [apply sched_fitsb_ok; exact Hf | exact Hs | apply IH; exact He].
Qed.

(** The jobs of the source's own test: two on one chunk, one on another, a fence. *)
Definition chunk1 : ChunkId := replicate 16 Byte.x01.
Definition chunk2 : ChunkId := replicate 16 Byte.x02.
Definition demo_sched : SchedWorld := match Scheduler_new (SE := unit) 4 8 with Ok s => sched_start s | _ => {| sw_sched := {| sc_budget := {| bg_used := (0, 0); bg_jobs := 0; bg_bytes := 0 |}; sc_queue := []; sc_senders := true; sc_running := []; sc_active := ∅; sc_pending := ∅; sc_fence := None; sc_barrier := None; sc_disconnected := false; sc_stopped := false; sc_history := [] |}; sw_permits := []; sw_jobs := [] |} end.
Definition demo_sent : list SchedEvent := [SReserve 8; SSubmit (Some chunk1) (Some 0%nat); SReserve 0; SSubmit (Some chunk1) (Some 0%nat); SSubmit (Some chunk2) None; SSubmit None None].
Definition demo_received : list SchedEvent := demo_sent ++ (STurn <$> [Channel; Channel; Channel; Channel]).
Definition demo_done : list Ready := [Future 1; Future 0; Future 0; Channel; Channel].
Definition demo_at (es : list SchedEvent) : SchedWorld := default demo_sched (sched_exec (SE := unit) demo_sched es).

Lemma demo_at_reach es : (if sched_exec (SE := unit) demo_sched es then true else false) = true -> sched_reach (SE := unit) 4 8 (demo_at es).
Proof. destruct (sched_exec demo_sched es) as [w|] eqn:Hw; [intros _ | discriminate]. split; [unfold is_u64; lia|]. split; [unfold is_u64; lia|]. eexists _, es. split; [reflexivity|]. unfold demo_at. rewrite Hw. apply sched_exec_run. exact Hw. Qed.

Lemma sched_exec_app {SE} es es' : forall w, sched_exec (SE := SE) w (es ++ es') = match sched_exec (SE := SE) w es with Some w' => sched_exec (SE := SE) w' es' | None => None end.
Proof. induction es as [|e es IH]; intros w; [reflexivity|]. cbn [app sched_exec]. destruct (sched_fitsb w e); [|reflexivity]. destruct (sched_step w e) as [[o w']| |]; [apply IH | reflexivity | reflexivity]. Qed.

Lemma demo_turns es rs : (if sched_exec (SE := unit) demo_sched (es ++ (STurn <$> rs)) then true else false) = true -> sched_run (SE := unit) (demo_at es) (STurn <$> rs) (demo_at (es ++ (STurn <$> rs))).
Proof. unfold demo_at. rewrite sched_exec_app. destruct (sched_exec demo_sched es) as [w|] eqn:Hw; [|discriminate]. cbn [default]. unfold default, id. destruct (sched_exec w _) as [w'|] eqn:Hw'; [|discriminate]. intros _. apply sched_exec_run. exact Hw'. Qed.

(** The history of that test: 3 before 1, 2 after 1, the fence last. *)
Lemma conflicting_jobs_in_order_witness : sc_history (sw_sched (demo_at (demo_received ++ (STurn <$> demo_done)))) = [Start 0; Start 2; Finish 2; Finish 0; Start 1; Finish 1; Start 3; Finish 3] /\ Finish 0 ∈ [Start 0; Start 2; Finish 2; Finish 0].
Proof.
  assert (Hh : sc_history (sw_sched (demo_at (demo_received ++ (STurn <$> demo_done)))) = [Start 0; Start 2; Finish 2; Finish 0; Start 1; Finish 1; Start 3; Finish 3]) by (vm_compute; reflexivity). split; [exact Hh|].
  destruct (conflicting_jobs_in_order (SE := unit) 4 8 (demo_at (demo_received ++ (STurn <$> demo_done))) ltac:(apply demo_at_reach; vm_compute; reflexivity)) as [Ho _]. apply (Ho 0%nat 1%nat _ [Finish 1; Start 3; Finish 3]); [lia | | exact Hh]. exists (Some chunk1), (Some chunk1). split; [vm_compute; reflexivity|]. split; [vm_compute; reflexivity | auto].
Defined.

Lemma jobs_wait_only_for_their_chunk_witness : exists i, (i < 1)%nat /\ sw_jobs (demo_at demo_received) !! i = Some (Some chunk1) /\ Start i ∈ sc_history (sw_sched (demo_at demo_received)) /\ Finish i ∉ sc_history (sw_sched (demo_at demo_received)).
Proof.
  apply (jobs_wait_only_for_their_chunk (SE := unit) 4 8 (demo_at demo_received) 1 chunk1); [apply demo_at_reach; vm_compute; reflexivity | vm_compute; reflexivity | vm_compute; lia|].
  assert (Hh : sc_history (sw_sched (demo_at demo_received)) = [Start 0; Start 2]) by (vm_compute; reflexivity). rewrite Hh. intros Hin. repeat (apply elem_of_cons in Hin as [Hin|Hin]; [discriminate|]). inversion Hin.
Defined.

Lemma scheduler_drains_witness : (length demo_done <= 3 * length (unfinished (sw_sched (demo_at demo_received))) + 2)%nat.
Proof. apply (scheduler_drains (SE := unit) 4 8 (demo_at demo_received) demo_done (demo_at (demo_received ++ (STurn <$> demo_done)))); [apply demo_at_reach; vm_compute; reflexivity | apply (demo_turns demo_received demo_done); vm_compute; reflexivity]. Defined.

Lemma scheduler_within_budget_witness : sched_snapshot (sw_sched (demo_at demo_received)) = (2, 8) /\ safe (sched_step (SE := unit) (demo_at demo_received) (SReserve 1)).
Proof.
  destruct (scheduler_within_budget (SE := unit) 4 8 (demo_at demo_received) (SReserve 1) ltac:(apply demo_at_reach; vm_compute; reflexivity) ltac:(unfold sched_fits, is_u64; lia)) as (Hs & _ & _ & Hsn). split; [rewrite Hsn; vm_compute; reflexivity | exact Hs].
Defined.
