(* ===== verification/Hybrid.v ===== *)
(** * The hybrid cache (moat-cache/src/cache.rs)

    The coordinator of memory, disk, registry and scheduler. A step is what a
    thread or a job does between two accesses to what others share. The parts
    appear as what they promise: the memory cache keeps the version committed
    last under a key or forgets it; the catalog is the version it vouches for
    per chunk and the chunks being written; the store returns some record that
    was written to the chunk; a key's cell lives while somebody holds a lease on
    it; and a job starts when every earlier job it must not overlap has
    finished. What the parts answer is an argument of the step. *)

From stdpp Require Import gmap.
From S2P Require Import Prelude ChunkId Codec MemPolicy Catalog Envelope Registry Scheduler.

(** ** Data *)

Record CacheEntry := { ce_key : list byte; ce_value : list byte; ce_properties : list byte; ce_priority : Priority }.
Definition entry_of (e : Envelope) : CacheEntry := {| ce_key := ev_key e; ce_value := ev_value e; ce_properties := ev_properties e; ce_priority := ev_priority e |}.
Definition record_of (e : CacheEntry) (generation : Z) : Envelope := {| ev_key := ce_key e; ev_properties := ce_properties e; ev_value := ce_value e; ev_generation := generation; ev_priority := ce_priority e |}.

(** Where the loop of [lookup] is, with the generation it has observed. *)
Inductive LookupPhase :=
| LState
| LOpen (generation : Z)
| LProbe (generation : Z)
| LVersion (generation : Z)
| LRead (generation : Z)
| LPromote (generation lsn : Z) (e : Envelope)
| LMiss (generation : Z).

(** What holds a lease outside the coordinator's jobs. *)
Inductive Holder :=
| HoldLookup (key : list byte) (p : LookupPhase)
| HoldInsert (e : CacheEntry) (encoded : list byte) (expected : option Z)
| HoldInvalidate (key : list byte)
| HoldToken (key : list byte) (generation : Z).

Definition holder_key (h : Holder) : list byte :=
  match h with HoldLookup key _ => key | HoldInsert e _ _ => ce_key e | HoldInvalidate key => key | HoldToken key _ => key end.

Section Hybrid.
Context {SE : Type}.
Abbreviation Error := (cache.Error SE).

Inductive CacheOp :=
| OInsert (e : CacheEntry) (encoded : list byte) (generation : Z)
| OInvalidate (key : list byte) (memory_removed : bool)
| OFence (close : bool).

Inductive JobPhase :=
| JQueued
| JReserved
| JCommitted
| JRead (lsn : Z)
| JDelete (lsn : Z)
| JFailed (e : Error)
| JEnding (ok : bool)
| JFinished (ok : bool).

(** [cj_no] counts the mutations of the key accepted up to this one. *)
Record CacheJob := { cj_id : option ChunkId; cj_op : CacheOp; cj_no : Z; cj_phase : JobPhase }.

Definition op_key (o : CacheOp) : option (list byte) := match o with OInsert e _ _ => Some (ce_key e) | OInvalidate key _ => Some key | OFence _ => None end.
Definition cj_key (j : CacheJob) : option (list byte) := op_key (cj_op j).
Definition cj_set (p : JobPhase) (j : CacheJob) : CacheJob := {| cj_id := cj_id j; cj_op := cj_op j; cj_no := cj_no j; cj_phase := p |}.
Definition is_finished (j : CacheJob) : bool := match cj_phase j with JFinished _ => true | _ => false end.

(** [hy_current] is the entry of the last mutation of a key that succeeded, and
    [hy_accepted] how many were accepted. [hy_closed] is both the flag that ends
    admission and that of the registry, which [close] sets one after the other. *)
Record Hybrid := {
  hy_cells : gmap (list byte) KeyCell;
  hy_closed : bool;
  hy_memory : gmap (list byte) CacheEntry;
  hy_slots : gmap ChunkId Z;
  hy_active : gset ChunkId;
  hy_written : gmap (ChunkId * Z) (list byte);
  hy_failures : option Error;
  hy_holders : list (option Holder);
  hy_jobs : list CacheJob;
  hy_current : list byte -> option CacheEntry;
  hy_accepted : list byte -> Z
}.

(** What the parts answer: the memory kept the entry, its filter took the
    version, the registry or the scheduler had no room, and the store's replies. *)
Record Answer := {
  an_kept : bool;
  an_retained : bool;
  an_busy : bool;
  an_full : bool;
  an_begin : option Error;
  an_read : res SE (option (Z * list byte));
  an_put : res SE Z;
  an_delete : res SE DeleteResult;
  an_fence : res SE unit
}.

Inductive Reply := RNone | RHit (e : CacheEntry) | RMiss | RStale | RDone (ok : bool) | RError (e : Error).

Implicit Types (s : Hybrid) (a : Answer).

Definition hy_set_cells (v : gmap (list byte) KeyCell) s : Hybrid :=
  {| hy_cells := v; hy_closed := hy_closed s; hy_memory := hy_memory s; hy_slots := hy_slots s; hy_active := hy_active s; hy_written := hy_written s; hy_failures := hy_failures s; hy_holders := hy_holders s; hy_jobs := hy_jobs s; hy_current := hy_current s; hy_accepted := hy_accepted s |}.
Definition hy_set_memory (v : gmap (list byte) CacheEntry) s : Hybrid :=
  {| hy_cells := hy_cells s; hy_closed := hy_closed s; hy_memory := v; hy_slots := hy_slots s; hy_active := hy_active s; hy_written := hy_written s; hy_failures := hy_failures s; hy_holders := hy_holders s; hy_jobs := hy_jobs s; hy_current := hy_current s; hy_accepted := hy_accepted s |}.
Definition hy_set_disk (slots : gmap ChunkId Z) (active : gset ChunkId) (written : gmap (ChunkId * Z) (list byte)) s : Hybrid :=
  {| hy_cells := hy_cells s; hy_closed := hy_closed s; hy_memory := hy_memory s; hy_slots := slots; hy_active := active; hy_written := written; hy_failures := hy_failures s; hy_holders := hy_holders s; hy_jobs := hy_jobs s; hy_current := hy_current s; hy_accepted := hy_accepted s |}.
Definition hy_set_failures (v : option Error) s : Hybrid :=
  {| hy_cells := hy_cells s; hy_closed := hy_closed s; hy_memory := hy_memory s; hy_slots := hy_slots s; hy_active := hy_active s; hy_written := hy_written s; hy_failures := v; hy_holders := hy_holders s; hy_jobs := hy_jobs s; hy_current := hy_current s; hy_accepted := hy_accepted s |}.
Definition hy_set_holders (v : list (option Holder)) s : Hybrid :=
  {| hy_cells := hy_cells s; hy_closed := hy_closed s; hy_memory := hy_memory s; hy_slots := hy_slots s; hy_active := hy_active s; hy_written := hy_written s; hy_failures := hy_failures s; hy_holders := v; hy_jobs := hy_jobs s; hy_current := hy_current s; hy_accepted := hy_accepted s |}.
Definition hy_set_jobs (v : list CacheJob) s : Hybrid :=
  {| hy_cells := hy_cells s; hy_closed := hy_closed s; hy_memory := hy_memory s; hy_slots := hy_slots s; hy_active := hy_active s; hy_written := hy_written s; hy_failures := hy_failures s; hy_holders := hy_holders s; hy_jobs := v; hy_current := hy_current s; hy_accepted := hy_accepted s |}.
Definition hy_close s : Hybrid :=
  {| hy_cells := hy_cells s; hy_closed := true; hy_memory := hy_memory s; hy_slots := hy_slots s; hy_active := hy_active s; hy_written := hy_written s; hy_failures := hy_failures s; hy_holders := hy_holders s; hy_jobs := hy_jobs s; hy_current := hy_current s; hy_accepted := hy_accepted s |}.
Definition at_key {A} (key : list byte) (v : A) (g : list byte -> A) : list byte -> A := fun k => if bytes_eqb k key then v else g k.
Definition hy_resolve (key : list byte) (e : option CacheEntry) s : Hybrid :=
  {| hy_cells := hy_cells s; hy_closed := hy_closed s; hy_memory := hy_memory s; hy_slots := hy_slots s; hy_active := hy_active s; hy_written := hy_written s; hy_failures := hy_failures s; hy_holders := hy_holders s; hy_jobs := hy_jobs s; hy_current := at_key key e (hy_current s); hy_accepted := hy_accepted s |}.
Definition hy_accept (key : list byte) s : Hybrid :=
  {| hy_cells := hy_cells s; hy_closed := hy_closed s; hy_memory := hy_memory s; hy_slots := hy_slots s; hy_active := hy_active s; hy_written := hy_written s; hy_failures := hy_failures s; hy_holders := hy_holders s; hy_jobs := hy_jobs s; hy_current := hy_current s; hy_accepted := at_key key (hy_accepted s key + 1) (hy_accepted s) |}.

(** ** Leases *)

Definition holds_key (key : list byte) s : bool :=
  existsb (fun o => match o with Some h => bytes_eqb (holder_key h) key | None => false end) (hy_holders s) ||
  existsb (fun j => match cj_key j with Some k => bytes_eqb k key && negb (is_finished j) | None => false end) (hy_jobs s).

Definition acquire_key (key : list byte) (busy : bool) s : @cresult SE Hybrid :=
  fail_if (hy_closed s) cache.Closed ;?
  fail_if busy cache.Busy ;?
  Ok (hy_set_cells (<[key := default fresh_cell (hy_cells s !! key)]> (hy_cells s)) s).

(** A lease has just been dropped. *)
Definition release_key (key : list byte) s : Hybrid := if holds_key key s then s else hy_set_cells (delete key (hy_cells s)) s.

Definition put_holder (i : nat) (o : option Holder) s : Hybrid := hy_set_holders (<[i := o]> (hy_holders s)) s.
Definition drop_holder (i : nat) (key : list byte) s : Hybrid := release_key key (put_holder i None s).
Definition memory_get (key : list byte) a s : option CacheEntry := if an_kept a then hy_memory s !! key else None.

(** ** Operations, with the fingerprint, the format and the largest chunk *)

Context (identify : list byte -> ChunkId) (f : EnvelopeFormat) (chunk_max : ChunkId -> Z).

Definition get_memory (key : list byte) a s : Reply := if hy_closed s then RNone else match memory_get key a s with Some e => RHit e | None => RNone end.

(** [lookup] up to its loop. *)
Definition lookup (key : list byte) a s : steps (Reply * Hybrid) :=
  if hy_closed s then Ok (RError cache.Closed, s)
  else match memory_get key a s with
  | Some e => Ok (RHit e, s)
  | None =>
      match acquire_key key (an_busy a) s with
      | Ok s => Ok (RNone, hy_set_holders (hy_holders s ++ [Some (HoldLookup key LState)]) s)
      | Err e => Ok (RError e, s)
      | Panic => Panic
      end
  end.

Definition version_of (id : ChunkId) s : option Z := if bool_decide (id ∈ hy_active s) then None else hy_slots s !! id.
Definition vouches (id : ChunkId) (lsn : Z) s : bool := negb (bool_decide (id ∈ hy_active s)) && bool_decide (hy_slots s !! id = Some lsn).

(** The step of the loop from phase [p]: the next phase, or the end of it. *)
Definition lookup_turn (i : nat) (key : list byte) (p : LookupPhase) a s : steps (Reply * Hybrid) :=
  let next p := Ok (RNone, put_holder i (Some (HoldLookup key p)) s) in
  let leave r s := Ok (r, drop_holder i key s) in
  let id := identify key in
  let? c := expect (hy_cells s !! key) in
  match p with
  | LState => if kc_pending c =? 0 then next (LOpen (kc_generation c)) else next LState
  | LOpen g => if hy_closed s then leave (RError cache.Closed) s else next (LProbe g)
  | LProbe g => match memory_get key a s with Some e => leave (RHit e) s | None => next (LVersion g) end
  | LVersion g => match version_of id s with Some _ => next (LRead g) | None => next (LMiss g) end
  | LRead g =>
      match an_read a with
      | Err e => leave (RError (cache.Store e)) s
      | Panic => Panic
      | Ok None => next (LMiss g)
      | Ok (Some (lsn, bytes)) =>
          match envelope_decode (SE := SE) f bytes with
          | Err e => leave (RError e) s
          | Panic => Panic
          | Ok e =>
              if ev_generation e =? 0 then leave (RError (cache.Corrupt "invalid entry generation"%string)) s
              else if bytes_eqb (ev_key e) key then next (LPromote g lsn e) else next (LMiss g)
          end
      end
  | LPromote g lsn e =>
      if (kc_generation c =? g) && (kc_pending c =? 0) && negb (hy_closed s) && vouches id lsn s then
        leave (RHit (entry_of e)) (if an_retained a then hy_set_memory (<[key := entry_of e]> (hy_memory s)) s else s)
      else next LState
  | LMiss g =>
      if (kc_generation c =? g) && (kc_pending c =? 0) then Ok (RMiss, put_holder i (Some (HoldToken key g)) s)
      else next LState
  end.

(** [insert_prepared] up to the admission lock: the record encoded, and a permit. *)
Definition encode_record (e : CacheEntry) a : @cresult SE (list byte) :=
  let? encoded := envelope_encode f (record_of e 1) (chunk_max (identify (ce_key e))) in
  fail_if (an_full a) cache.Busy ;? Ok encoded.

(** [insert_with] and [invalidate] up to the admission lock. *)
Definition insert_with (e : CacheEntry) a s : steps (Reply * Hybrid) :=
  match (let? s1 := acquire_key (ce_key e) (an_busy a) s in let? encoded := encode_record e a in Ok (hy_set_holders (hy_holders s1 ++ [Some (HoldInsert e encoded None)]) s1)) with
  | Ok s1 => Ok (RNone, s1)
  | Err err => Ok (RError err, s)
  | Panic => Panic
  end.

Definition invalidate (key : list byte) a s : steps (Reply * Hybrid) :=
  match acquire_key key (an_busy a) s with
  | Ok s1 => if an_full a then Ok (RError cache.Busy, s) else Ok (RNone, hy_set_holders (hy_holders s1 ++ [Some (HoldInvalidate key)]) s1)
  | Err e => Ok (RError e, s)
  | Panic => Panic
  end.

(** [populate_with] on the token that holder [i] has. *)
Definition populate_with (i : nat) (key : list byte) (g : Z) (value properties : list byte) (priority : Priority) a s : steps (Reply * Hybrid) :=
  let? c := expect (hy_cells s !! key) in
  if hy_closed s || negb (kc_generation c =? g) then Ok (RStale, drop_holder i key s)
  else
    let e := {| ce_key := key; ce_value := value; ce_properties := properties; ce_priority := priority |} in
    match encode_record e a with
    | Ok encoded => Ok (RNone, put_holder i (Some (HoldInsert e encoded (Some g))) s)
    | Err err => Ok (RError err, drop_holder i key s)
    | Panic => Panic
    end.

(** The lease becomes the mutation's, the resident version is removed and the
    job is submitted: the coordinator's thread outlives the cache. *)
Definition submit_job (i : nat) (key : list byte) (c : KeyCell) (op : CacheOp) s : Hybrid :=
  let s := hy_accept key (hy_set_memory (delete key (hy_memory s)) (hy_set_cells (<[key := c]> (hy_cells s)) (put_holder i None s))) in
  hy_set_jobs (hy_jobs s ++ [{| cj_id := Some (identify key); cj_op := op; cj_no := hy_accepted s key; cj_phase := JQueued |}]) s.

(** The regions of [insert_prepared] and [invalidate] under the admission lock. *)
Definition accept_insert (i : nat) (e : CacheEntry) (encoded : list byte) (expected : option Z) s : steps (Reply * Hybrid) :=
  let key := ce_key e in
  if hy_closed s then Ok (RError cache.Closed, drop_holder i key s)
  else
    let? c := expect (hy_cells s !! key) in
    match begin_mutation (SE := SE) expected c with
    | Panic => Panic
    | Err err => Ok (RError err, drop_holder i key s)
    | Ok (None, _) => Ok (RStale, drop_holder i key s)
    | Ok (Some g, c) => match set_generation (SE := SE) encoded g with Ok encoded => Ok (RNone, submit_job i key c (OInsert e encoded g) s) | _ => Panic end
    end.

Definition accept_invalidate (i : nat) (key : list byte) a s : steps (Reply * Hybrid) :=
  if hy_closed s then Ok (RError cache.Closed, drop_holder i key s)
  else
    let? c := expect (hy_cells s !! key) in
    match begin_mutation (SE := SE) None c with
    | Panic => Panic
    | Err err => Ok (RError err, drop_holder i key s)
    | Ok (_, c) =>
        let memory_removed := match memory_get key a s with Some _ => true | None => false end in
        Ok (RNone, submit_job i key c (OInvalidate key memory_removed) s)
    end.

Definition accept (i : nat) (h : Holder) a s : steps (Reply * Hybrid) :=
  match h with
  | HoldInsert e encoded expected => accept_insert i e encoded expected s
  | HoldInvalidate key => accept_invalidate i key a s
  | _ => Panic
  end.

(** [fence] under the admission lock. *)
Definition fence (close : bool) a s : Reply * Hybrid :=
  if negb close && an_full a then (RError cache.Busy, s)
  else if hy_closed s then (RError cache.Closed, s)
  else
    let s := if close then hy_close s else s in
    (RNone, hy_set_jobs (hy_jobs s ++ [{| cj_id := None; cj_op := OFence close; cj_no := 0; cj_phase := JQueued |}]) s).

(** ** Jobs *)

Definition put_phase (n : nat) (j : CacheJob) (p : JobPhase) s : Hybrid := hy_set_jobs (<[n := cj_set p j]> (hy_jobs s)) s.
Definition remove_slot (id : ChunkId) (lsn : Z) s : Hybrid := if bool_decide (hy_slots s !! id = Some lsn) then hy_set_disk (delete id (hy_slots s)) (hy_active s) (hy_written s) s else s.

(** The future of an insertion: [Catalog::write], then residency. The store's
    reply to the write and the commit of its reservation are one step. *)
Definition insert_turn (n : nat) (j : CacheJob) (id : ChunkId) (e : CacheEntry) (encoded : list byte) (g : Z) a s : steps (Reply * Hybrid) :=
  match cj_phase j with
  | JQueued =>
      match an_begin a with
      | Some err => Ok (RNone, put_phase n j (JFailed err) s)
      | None => Ok (RNone, put_phase n j JReserved (hy_set_disk (hy_slots s) ({[id]} ∪ hy_active s) (hy_written s) s))
      end
  | JReserved =>
      match an_put a with
      | Ok lsn => Ok (RNone, put_phase n j JCommitted (hy_resolve (ce_key e) (Some e) (hy_set_disk (<[id := lsn]> (hy_slots s)) (hy_active s ∖ {[id]}) (<[(id, lsn) := encoded]> (hy_written s)) s)))
      | Err err => Ok (RNone, put_phase n j (JFailed (cache.Store err)) (hy_set_disk (hy_slots s) (hy_active s ∖ {[id]}) (hy_written s) s))
      | Panic => Panic
      end
  | JCommitted =>
      let? c := expect (hy_cells s !! ce_key e) in
      let s := if (kc_generation c =? g) && negb (hy_closed s) then (if an_retained a then hy_set_memory (<[ce_key e := e]> (hy_memory s)) s else hy_set_memory (delete (ce_key e) (hy_memory s)) s) else s in
      Ok (RNone, put_phase n j (JEnding true) s)
  | _ => Panic
  end.

(** The future of an invalidation, with the disk's control lock. *)
Definition invalidate_turn (n : nat) (j : CacheJob) (id : ChunkId) (key : list byte) a s : steps (Reply * Hybrid) :=
  let absent s := Ok (RNone, put_phase n j (JEnding true) (hy_resolve key None s)) in
  let failed e := Ok (RNone, put_phase n j (JFailed e) s) in
  match cj_phase j with
  | JQueued => match version_of id s with None => absent s | Some lsn => Ok (RNone, put_phase n j (JRead lsn) s) end
  | JRead lsn =>
      match an_read a with
      | Err e => failed (cache.Store e)
      | Panic => Panic
      | Ok None => absent (remove_slot id lsn s)
      | Ok (Some (found, bytes)) =>
          if negb (found =? lsn) then failed (cache.Corrupt "catalog version mismatch during invalidation"%string)
          else match envelope_decode (SE := SE) f bytes with
          | Err e => failed e
          | Panic => Panic
          | Ok e => if negb (bytes_eqb (ev_key e) key) then absent s else Ok (RNone, put_phase n j (JDelete lsn) s)
          end
      end
  | JDelete lsn =>
      match an_delete a with
      | Err e => failed (cache.Store e)
      | Panic => Panic
      | Ok Changed => failed (cache.Corrupt "catalog changed during invalidation"%string)
      | Ok _ => absent (remove_slot id lsn s)
      end
  | _ => Panic
  end.

(** A failure is kept for the next fence; then the mutation is dropped. *)
Definition end_job (n : nat) (j : CacheJob) (key : list byte) s : steps (Reply * Hybrid) :=
  match cj_phase j with
  | JFailed e => Ok (RNone, put_phase n j (JEnding false) (hy_set_failures (Some (default e (hy_failures s))) s))
  | JEnding ok =>
      let? c := expect (hy_cells s !! key) in
      match end_mutation (SE := SE) c with
      | Ok (_, c) => Ok (RDone ok, release_key key (put_phase n j (JFinished ok) (hy_set_cells (<[key := c]> (hy_cells s)) s)))
      | _ => Panic
      end
  | _ => Panic
  end.

Definition fence_turn (n : nat) (j : CacheJob) (close : bool) a s : steps (Reply * Hybrid) :=
  match cj_phase j, an_fence a with
  | JQueued, Panic => Panic
  | JQueued, r =>
      let s := if close then hy_set_memory ∅ s else s in
      let ok := match hy_failures s, r with None, Ok _ => true | _, _ => false end in
      Ok (RDone ok, put_phase n j (JFinished ok) (hy_set_failures None s))
  | _, _ => Panic
  end.

Definition job_turn (n : nat) (j : CacheJob) a s : steps (Reply * Hybrid) :=
  match cj_op j, cj_id j with
  | OFence close, _ => fence_turn n j close a s
  | OInsert e encoded g, Some id => match cj_phase j with JFailed _ | JEnding _ => end_job n j (ce_key e) s | _ => insert_turn n j id e encoded g a s end
  | OInvalidate key _, Some id => match cj_phase j with JFailed _ | JEnding _ => end_job n j key s | _ => invalidate_turn n j id key a s end
  | _, _ => Panic
  end.

(** ** The machine *)

(** Besides calls and jobs: a future is dropped, a chunk or a resident version
    is evicted, memory is cleared, and a write that failed leaves its record. *)
Inductive CacheEvent :=
| CGet (key : list byte) (a : Answer)
| CLookup (key : list byte) (a : Answer)
| CLookupTurn (i : nat) (a : Answer)
| CInsert (e : CacheEntry) (a : Answer)
| CInvalidate (key : list byte) (a : Answer)
| CPopulate (i : nat) (value properties : list byte) (priority : Priority) (a : Answer)
| CAccept (i : nat) (a : Answer)
| CDrop (i : nat)
| CFence (close : bool) (a : Answer)
| CJob (n : nat) (a : Answer)
| CEvict (id : ChunkId)
| CForget (key : list byte)
| CClear
| CStray (id : ChunkId) (lsn : Z) (bytes : list byte).

Definition holder s (i : nat) : steps Holder := let? o := expect (hy_holders s !! i) in expect o.

Definition cache_step s (e : CacheEvent) : steps (Reply * Hybrid) :=
  match e with
  | CGet key a => Ok (get_memory key a s, s)
  | CLookup key a => lookup key a s
  | CLookupTurn i a => let? h := holder s i in match h with HoldLookup key p => lookup_turn i key p a s | _ => Panic end
  | CInsert e a => insert_with e a s
  | CInvalidate key a => invalidate key a s
  | CPopulate i value properties priority a => let? h := holder s i in match h with HoldToken key g => populate_with i key g value properties priority a s | _ => Panic end
  | CAccept i a => let? h := holder s i in accept i h a s
  | CDrop i => let? h := holder s i in Ok (RNone, drop_holder i (holder_key h) s)
  | CFence close a => Ok (fence close a s)
  | CJob n a => let? j := expect (hy_jobs s !! n) in job_turn n j a s
  | CEvict id => Ok (RNone, hy_set_disk (delete id (hy_slots s)) (hy_active s) (hy_written s) s)
  | CForget key => Ok (RNone, hy_set_memory (delete key (hy_memory s)) s)
  | CClear => Ok (RNone, hy_set_memory ∅ s)
  | CStray id lsn bytes => Ok (RNone, hy_set_disk (hy_slots s) (hy_active s) (<[(id, lsn) := bytes]> (hy_written s)) s)
  end.

(** The key a step looks up for its caller. *)
Definition asked s (e : CacheEvent) : option (list byte) :=
  match e with
  | CGet key _ | CLookup key _ => Some key
  | CLookupTurn i _ => match hy_holders s !! i with Some (Some h) => Some (holder_key h) | _ => None end
  | _ => None
  end.

(** ** The contract: the jobs in the order they were accepted *)

(** What a mutation that succeeded leaves under its key. *)
Definition outcome (j : CacheJob) : option (list byte * option CacheEntry) :=
  match cj_phase j with
  | JCommitted | JEnding true | JFinished true => match cj_op j with OInsert e _ _ => Some (ce_key e, Some e) | OInvalidate key _ => Some (key, None) | OFence _ => None end
  | _ => None
  end.

Definition then_outcome (key : list byte) (before : option CacheEntry) (j : CacheJob) : option CacheEntry := match outcome j with Some (k, o) => if bytes_eqb k key then o else before | None => before end.
Definition last_outcome (key : list byte) (before : option CacheEntry) (jobs : list CacheJob) : option CacheEntry := fold_left (then_outcome key) jobs before.

(** ** What the parts may answer *)

(** The store returns a record written to the chunk, and a write has an LSN
    that the chunk has not had. *)
Definition reads_fit (id : ChunkId) a s : Prop := match an_read a with Ok (Some (lsn, bytes)) => hy_written s !! (id, lsn) = Some bytes | Ok None | Err _ => True | Panic => False end.
Definition puts_fit (id : ChunkId) a s : Prop := match an_put a with Ok lsn => hy_written s !! (id, lsn) = None | Err _ => True | Panic => False end.

(** The scheduler starts a job when the earlier ones it must not overlap have
    finished. *)
Definition overlap (j j' : CacheJob) : Prop := cj_id j = None \/ cj_id j' = None \/ cj_id j = cj_id j'.
Definition may_run (n : nat) (j : CacheJob) s : Prop := cj_phase j = JQueued -> forall i j', (i < n)%nat -> hy_jobs s !! i = Some j' -> overlap j' j -> is_finished j' = true.

Definition unfinished_count s : Z := len (List.filter (fun j => negb (is_finished j)) (hy_jobs s)).

Definition cache_fits s (e : CacheEvent) : Prop :=
  match e with
  | CGet _ _ | CLookup _ _ | CInsert _ _ | CInvalidate _ _ | CFence _ _ | CForget _ | CClear => True
  | CLookupTurn i a => exists key p, hy_holders s !! i = Some (Some (HoldLookup key p)) /\ reads_fit (identify key) a s
  | CPopulate i _ _ _ _ => exists key g, hy_holders s !! i = Some (Some (HoldToken key g))
  | CAccept i _ => unfinished_count s < U64_MAX /\ exists h, hy_holders s !! i = Some (Some h) /\ match h with HoldInsert _ _ _ | HoldInvalidate _ => True | _ => False end
  | CDrop i => exists h, hy_holders s !! i = Some (Some h)
  | CJob n a => exists j, hy_jobs s !! n = Some j /\ is_finished j = false /\ may_run n j s /\ (forall id, cj_id j = Some id -> reads_fit id a s /\ puts_fit id a s) /\ an_delete a <> Panic /\ an_fence a <> Panic
  | CEvict id => id ∉ hy_active s
  | CStray id lsn bytes => hy_written s !! (id, lsn) = None /\ len bytes <= U64_MAX
  end.

Inductive cache_run : Hybrid -> list CacheEvent -> Hybrid -> Prop :=
| cache_run_nil s : cache_run s [] s
| cache_run_cons s e es r s' s'' : cache_fits s e -> cache_step s e = Ok (r, s') -> cache_run s' es s'' -> cache_run s (e :: es) s''.

(** The disk as an earlier run left it. *)
Definition disk_entry (slots : gmap ChunkId Z) (written : gmap (ChunkId * Z) (list byte)) (key : list byte) : option CacheEntry :=
  match slots !! identify key with
  | Some lsn => match written !! (identify key, lsn) with Some bytes => match envelope_decode (SE := SE) f bytes with Ok e => if bytes_eqb (ev_key e) key then Some (entry_of e) else None | _ => None end | None => None end
  | None => None
  end.

Definition cache_start (slots : gmap ChunkId Z) (written : gmap (ChunkId * Z) (list byte)) : Hybrid :=
  {| hy_cells := ∅; hy_closed := false; hy_memory := ∅; hy_slots := slots; hy_active := ∅; hy_written := written; hy_failures := None; hy_holders := []; hy_jobs := []; hy_current := disk_entry slots written; hy_accepted := fun _ => 0 |}.

(** Every record on disk fits an address space, and the catalog lists records that exist. *)
Definition disk_fits (slots : gmap ChunkId Z) (written : gmap (ChunkId * Z) (list byte)) : Prop :=
  (forall id lsn, slots !! id = Some lsn -> is_Some (written !! (id, lsn))) /\ (forall x bytes, written !! x = Some bytes -> len bytes <= U64_MAX).
End Hybrid.
