(* ===== verification/HybridTheorems.v ===== *)
(** * What the hybrid cache guarantees

    Whatever threads, jobs, evictions and failures interleave: a hit is the
    entry of the last mutation of its key that succeeded, at a moment when no
    mutation of the key is undecided; no step panics; and a fence that reports
    success covers every mutation accepted before it. *)

From stdpp Require Import gmap.
From S2P Require Import Prelude ChunkId Codec MemPolicy Catalog Envelope Registry RegistryTheorems Scheduler Hybrid.

Section Hybrids.
Context {SE : Type} (identify : list byte -> ChunkId) (f : EnvelopeFormat) (chunk_max : ChunkId -> Z).
Abbreviation Hybrid := (Hybrid (SE := SE)).
Abbreviation CacheJob := (CacheJob (SE := SE)).
Abbreviation decode := (envelope_decode (SE := SE) f).
Abbreviation cache_step := (cache_step (SE := SE) identify f chunk_max).
Abbreviation cache_fits := (cache_fits (SE := SE) identify).
Implicit Types (s : Hybrid) (j : CacheJob) (k : list byte) (e : CacheEntry).

(** The outcome of the mutation is still open. *)
Definition unresolved j : bool := match cj_phase j with JQueued | JReserved | JRead _ | JDelete _ => true | _ => false end.
Definition settled (jobs : list CacheJob) k : Prop := forall n j, jobs !! n = Some j -> cj_key j = Some k -> unresolved j = false.
Definition pending_of k j : Z := match cj_key j with Some k' => if bytes_eqb k' k && negb (is_finished j) then 1 else 0 | None => 0 end.

Definition record_ok (current : list byte -> option CacheEntry) (written : gmap (ChunkId * Z) (list byte)) (id : ChunkId) (lsn : Z) : Prop :=
  exists bytes, written !! (id, lsn) = Some bytes /\ forall r, decode bytes = Ok r -> identify (ev_key r) = id -> current (ev_key r) = Some (entry_of r).

Definition job_ok s j : Prop :=
  match cj_op j with
  | OInsert e encoded g =>
      cj_id j = Some (identify (ce_key e)) /\ decode encoded = Ok (record_of e g) /\ len encoded <= U64_MAX /\ cj_no j <= hy_accepted s (ce_key e) /\
      (is_finished j = false -> exists c, hy_cells s !! ce_key e = Some c /\ kc_generation c - g = hy_accepted s (ce_key e) - cj_no j) /\
      match cj_phase j with JRead _ | JDelete _ => False | JCommitted => hy_current s (ce_key e) = Some e | _ => True end
  | OInvalidate key _ =>
      cj_id j = Some (identify key) /\ cj_no j <= hy_accepted s key /\ (is_finished j = false -> is_Some (hy_cells s !! key)) /\
      match cj_phase j with JReserved | JCommitted => False | JRead lsn | JDelete lsn => hy_slots s !! identify key = None \/ hy_slots s !! identify key = Some lsn | _ => True end
  | OFence _ => cj_id j = None /\ match cj_phase j with JQueued | JFinished _ => True | _ => False end
  end.

Definition holder_ok s (h : Holder) : Prop :=
  is_Some (hy_cells s !! holder_key h) /\
  match h with
  | HoldLookup key (LPromote _ lsn r) => exists bytes, hy_written s !! (identify key, lsn) = Some bytes /\ decode bytes = Ok r /\ ev_key r = key
  | HoldInsert e encoded _ => exists max, envelope_encode (SE := SE) f (record_of e 1) max = Ok encoded
  | _ => True
  end.

(** A mutation that failed has left its error for a fence. *)
Definition failure_kept (failures : option (cache.Error SE)) (jobs : list CacheJob) : Prop :=
  forall n j, jobs !! n = Some j -> cj_key j <> None -> cj_phase j = JEnding false \/ cj_phase j = JFinished false ->
  failures <> None \/ exists m j', (n < m)%nat /\ jobs !! m = Some j' /\ cj_key j' = None /\ cj_phase j' = JFinished false.

Record hybrid_ok s : Prop := {
  ho_current : forall k e, hy_current s k = Some e -> ce_key e = k;
  ho_memory : forall k e, hy_memory s !! k = Some e -> hy_current s k = Some e /\ settled (hy_jobs s) k;
  ho_disk : forall id lsn, hy_slots s !! id = Some lsn -> record_ok (hy_current s) (hy_written s) id lsn;
  ho_written : forall x bytes, hy_written s !! x = Some bytes -> len bytes <= U64_MAX;
  ho_jobs : forall n j, hy_jobs s !! n = Some j -> job_ok s j;
  ho_order : forall i n ji jn, (i < n)%nat -> hy_jobs s !! i = Some ji -> hy_jobs s !! n = Some jn -> overlap ji jn -> cj_phase jn <> JQueued -> is_finished ji = true;
  ho_number : forall i n ji jn k, (i < n)%nat -> hy_jobs s !! i = Some ji -> hy_jobs s !! n = Some jn -> cj_key ji = Some k -> cj_key jn = Some k -> cj_no ji < cj_no jn;
  ho_active : forall id, id ∈ hy_active s -> exists n j, hy_jobs s !! n = Some j /\ cj_id j = Some id /\ cj_phase j = JReserved;
  ho_cells : forall k c, hy_cells s !! k = Some c -> kc_pending c = total (pending_of k) (hy_jobs s) /\ 0 <= kc_generation c <= U64_MAX;
  ho_holders : forall i h, hy_holders s !! i = Some (Some h) -> holder_ok s h;
  ho_failures : failure_kept (hy_failures s) (hy_jobs s)
}.

(** ** Leases *)

Lemma pending_range k j : 0 <= pending_of k j <= 1.
Proof. unfold pending_of. destruct (cj_key j); [destruct (_ && _)|]; lia. Qed.

Lemma not_held k s : holds_key k s = false -> (forall i h, hy_holders s !! i = Some (Some h) -> holder_key h <> k) /\ forall n j, hy_jobs s !! n = Some j -> cj_key j = Some k -> is_finished j = true.
Proof.
  intros Hh. apply orb_false_iff in Hh as [H1 H2]. split.
  - intros i h Hi He. assert (Ht : existsb (fun o => match o with Some h => bytes_eqb (holder_key h) k | None => false end) (hy_holders s) = true); [|congruence]. apply existsb_exists. exists (Some h). split; [apply list_elem_of_In, list_elem_of_lookup; eauto | apply bytes_eqb_eq; exact He].
  - intros n j Hn He. destruct (is_finished j) eqn:Ef; [reflexivity|]. assert (Ht : existsb (fun j => match cj_key j with Some k' => bytes_eqb k' k && negb (is_finished j) | None => false end) (hy_jobs s) = true); [|congruence].
    apply existsb_exists. exists j. split; [apply list_elem_of_In, list_elem_of_lookup; eauto|]. rewrite He, Ef, bytes_eqb_refl. reflexivity.
Qed.

(** Only the cells, the generations' count and what the disk holds matter to a holder or a job. *)
Lemma job_ok_move s s' j : job_ok s j -> (forall k, cj_key j = Some k -> hy_accepted s k <= hy_accepted s' k) ->
  (is_finished j = false -> forall k c, cj_key j = Some k -> hy_cells s !! k = Some c -> exists c', hy_cells s' !! k = Some c' /\ kc_generation c' - kc_generation c = hy_accepted s' k - hy_accepted s k) ->
  (cj_phase j = JQueued \/ is_finished j = true \/ forall id k, cj_id j = Some id -> cj_key j = Some k -> hy_current s' k = hy_current s k /\ (hy_slots s' !! id = hy_slots s !! id \/ hy_slots s' !! id = None)) -> job_ok s' j.
Proof.
  unfold job_ok, cj_key, op_key. intros Hj Ha Hc Hd. destruct (cj_op j) as [e encoded g|key removed|close].
  - destruct Hj as (H1 & H2 & H3 & H4 & H5 & H6). do 3 (split; [assumption|]). split; [specialize (Ha _ eq_refl); lia|]. split; [intros Hf; destruct (H5 Hf) as (c & Hcell & Hg); destruct (Hc Hf _ c eq_refl Hcell) as (c' & Hc' & Hd'); exists c'; split; [assumption | lia]|].
    destruct (cj_phase j) eqn:Ep; try assumption. destruct Hd as [Hd|[Hd|Hd]]; [discriminate | unfold is_finished in Hd; rewrite Ep in Hd; discriminate|]. destruct (Hd _ _ H1 eq_refl) as [-> _]. assumption.
  - destruct Hj as (H1 & H2 & H3 & H4). split; [assumption|]. split; [specialize (Ha _ eq_refl); lia|]. split; [intros Hf; destruct (H3 Hf) as [c Hcell]; destruct (Hc Hf _ c eq_refl Hcell) as (c' & Hc' & _); eauto|].
    destruct (cj_phase j) eqn:Ep; try assumption; (destruct Hd as [Hd|[Hd|Hd]]; [discriminate | unfold is_finished in Hd; rewrite Ep in Hd; discriminate|]; destruct (Hd _ _ H1 eq_refl) as [_ [->|Hs]]; auto).
  - assumption.
Qed.

Lemma job_ok_frame s s' j : job_ok s j -> hy_accepted s' = hy_accepted s ->
  (is_finished j = false -> forall k c, cj_key j = Some k -> hy_cells s !! k = Some c -> hy_cells s' !! k = Some c) ->
  (cj_phase j = JQueued \/ is_finished j = true \/ forall id k, cj_id j = Some id -> cj_key j = Some k -> hy_current s' k = hy_current s k /\ (hy_slots s' !! id = hy_slots s !! id \/ hy_slots s' !! id = None)) -> job_ok s' j.
Proof. intros Hj Ha Hc. apply job_ok_move; [assumption | rewrite Ha; reflexivity|]. rewrite Ha. intros Hf k c Hk Hcell. exists c. split; [auto | lia]. Qed.

Lemma holder_ok_frame s s' h : holder_ok s h -> is_Some (hy_cells s' !! holder_key h) -> (forall x bytes, hy_written s !! x = Some bytes -> hy_written s' !! x = Some bytes) -> holder_ok s' h.
Proof.
  intros [_ Hh] Hc Hw. split; [assumption|]. destruct h as [key p| | |]; try assumption. destruct p; try assumption. destruct Hh as (bytes & Hb & Hd & Hk). exists bytes. auto.
Qed.

Lemma release_key_ok k s : hybrid_ok s -> hybrid_ok (release_key k s).
Proof.
  intros S. unfold release_key. destruct (holds_key k s) eqn:Hh; [exact S|]. destruct (not_held k s Hh) as [Hno Hfin]. destruct S as [S1 S2 S3 S4 S5 S6 S7 S8 S9 S10 S11]. constructor; cbn [hy_set_cells hy_cells hy_closed hy_memory hy_slots hy_active hy_written hy_failures hy_holders hy_jobs hy_current hy_accepted]; try assumption.
  - intros n j Hn. eapply job_ok_frame; [exact (S5 n j Hn) | reflexivity | | right; right; auto]. intros Hf k' c Hk Hc. cbn. rewrite lookup_delete_ne; [assumption|]. intros <-. rewrite (Hfin n j Hn Hk) in Hf. discriminate.
  - intros k' c Hc. apply lookup_delete_Some in Hc as [_ Hc]. apply S9. assumption.
  - intros i h Hi. pose proof (S10 i h Hi) as Hok. eapply holder_ok_frame; [exact Hok | | auto]. cbn. destruct Hok as [Hcell _]. rewrite lookup_delete_ne; [assumption|]. intros He. apply (Hno i h Hi). auto.
Qed.

Lemma holders_ok s (hs : list (option Holder)) : hybrid_ok s -> (forall i h, hs !! i = Some (Some h) -> holder_ok s h) -> hybrid_ok (hy_set_holders hs s).
Proof. intros [] Hh. constructor; try assumption. Qed.

Lemma put_holder_ok s i o : hybrid_ok s -> (forall h, o = Some h -> holder_ok s h) -> hybrid_ok (put_holder i o s).
Proof.
  intros S Ho. apply holders_ok; [assumption|]. intros i' h Hi. destruct (decide (i = i')) as [<-|Hne]; [|rewrite list_lookup_insert_ne in Hi by assumption; eapply (ho_holders _ S); exact Hi].
  destruct (decide (i < length (hy_holders s))%nat) as [Hlt|Hge]; [rewrite list_lookup_insert_eq in Hi by assumption; injection Hi as ->; auto|]. rewrite list_insert_ge in Hi by lia. eapply (ho_holders _ S). exact Hi.
Qed.

Lemma drop_holder_ok s i k : hybrid_ok s -> hybrid_ok (drop_holder i k s).
Proof. intros S. apply release_key_ok, put_holder_ok; [assumption | discriminate]. Qed.

Lemma acquire_ok s s1 k busy : hybrid_ok s -> acquire_key k busy s = Ok s1 -> hybrid_ok s1 /\ is_Some (hy_cells s1 !! k) /\ hy_holders s1 = hy_holders s /\ hy_closed s = false.
Proof.
  intros S Ha. unfold acquire_key in Ha. inv_ok. subst s1. split; [|split; [cbn; rewrite lookup_insert_eq; eauto | split; [reflexivity | assumption]]].
  assert (Hkeep : forall k' c, hy_cells s !! k' = Some c -> <[k := default fresh_cell (hy_cells s !! k)]> (hy_cells s) !! k' = Some c) by (intros k' c Hc; destruct (decide (k = k')) as [<-|Hne]; [rewrite lookup_insert_eq, Hc; reflexivity | rewrite lookup_insert_ne by assumption; assumption]).
  pose proof S as [S1 S2 S3 S4 S5 S6 S7 S8 S9 S10 S11]. constructor; cbn [hy_set_cells hy_cells hy_closed hy_memory hy_slots hy_active hy_written hy_failures hy_holders hy_jobs hy_current hy_accepted]; try assumption.
  - intros n j Hn. eapply job_ok_frame; [exact (S5 n j Hn) | reflexivity | intros _ k' c _ Hc; apply Hkeep; exact Hc | right; right; auto].
  - intros k' c. destruct (decide (k = k')) as [<-|Hne]; [|rewrite lookup_insert_ne by assumption; apply S9]. rewrite lookup_insert_eq. intros [= <-]. destruct (hy_cells s !! k) as [c|] eqn:Hc; [apply S9; exact Hc|]. unfold default. cbn. split; [|unfold U64_MAX; lia]. symmetry. apply total_zero. intros j Hj. apply list_elem_of_lookup in Hj as [n Hn].
    unfold pending_of. destruct (cj_key j) as [k'|] eqn:Hk; [|reflexivity]. destruct (bytes_eqb k' k) eqn:Eb; [|reflexivity]. apply bytes_eqb_eq in Eb. subst k'. destruct (is_finished j) eqn:Ef; [reflexivity|]. exfalso. pose proof (S5 n j Hn) as Hok. unfold job_ok in Hok. unfold cj_key, op_key in Hk. destruct (cj_op j); try discriminate; injection Hk as Hk.
    + destruct Hok as (_ & _ & _ & _ & Hcell & _). destruct (Hcell Ef) as (c & Hc' & _). congruence.
    + destruct Hok as (_ & _ & Hcell & _). destruct (Hcell Ef) as [c Hc']. congruence.
  - intros i h Hi. pose proof (S10 i h Hi) as Hok. eapply holder_ok_frame; [exact Hok | | auto]. destruct Hok as [[c Hc] _]. exists c. apply Hkeep. exact Hc.
Qed.

Lemma add_holder_ok s h : hybrid_ok s -> holder_ok s h -> hybrid_ok (hy_set_holders (hy_holders s ++ [Some h]) s).
Proof. intros S Hh. apply holders_ok; [assumption|]. intros i h' Hi. apply lookup_app_Some in Hi as [Hi|[_ Hi]]; [eapply (ho_holders _ S); exact Hi|]. apply list_lookup_singleton_Some in Hi as [_ Hi]. injection Hi as <-. assumption. Qed.

Lemma memory_ok s (m : gmap (list byte) CacheEntry) : hybrid_ok s -> (forall k e, m !! k = Some e -> hy_current s k = Some e /\ settled (hy_jobs s) k) -> hybrid_ok (hy_set_memory m s).
Proof. intros [] Hm. constructor; assumption. Qed.

(** ** A job's turn *)

(** Other jobs the running one must not overlap have not started or have finished. *)
Lemma job_alone s n j m j' : hybrid_ok s -> hy_jobs s !! n = Some j -> is_finished j = false -> may_run n j s -> m <> n -> hy_jobs s !! m = Some j' -> overlap j' j -> cj_phase j' = JQueued \/ is_finished j' = true.
Proof.
  intros S Hn Hf Hrun Hne Hm Ho. destruct (decide (m < n)%nat) as [Hlt|Hge].
  - right. destruct (cj_phase j) eqn:Ep; [eapply Hrun; eassumption | | | | | | |]; (eapply (ho_order _ S m n); [exact Hlt | exact Hm | exact Hn | exact Ho | congruence]).
  - destruct (cj_phase j') eqn:Ep; [left; reflexivity | | | | | | |]; (assert (Hfin : is_finished j = true) by (eapply (ho_order _ S n m); [lia | exact Hn | exact Hm | destruct Ho as [?|[?|?]]; unfold overlap; auto | congruence]); congruence).
Qed.

Definition retune (slots : gmap ChunkId Z) (active : gset ChunkId) (written : gmap (ChunkId * Z) (list byte)) (memory : gmap (list byte) CacheEntry) (current : list byte -> option CacheEntry) (failures : option (cache.Error SE)) s : Hybrid :=
  {| hy_cells := hy_cells s; hy_closed := hy_closed s; hy_memory := memory; hy_slots := slots; hy_active := active; hy_written := written; hy_failures := failures; hy_holders := hy_holders s; hy_jobs := hy_jobs s; hy_current := current; hy_accepted := hy_accepted s |}.

Lemma pending_phase k j p : is_finished (cj_set p j) = is_finished j -> pending_of k (cj_set p j) = pending_of k j.
Proof. intros He. unfold pending_of. rewrite He. reflexivity. Qed.

Lemma lookup_put {A} (l : list A) n x y m z : l !! n = Some x -> <[n := y]> l !! m = Some z -> m = n /\ z = y \/ m <> n /\ l !! m = Some z.
Proof.
  intros Hn Hm. destruct (decide (n = m)) as [<-|Hne]; [rewrite list_lookup_insert_eq in Hm by (eapply lookup_lt_Some; exact Hn); injection Hm as <-; auto | rewrite list_lookup_insert_ne in Hm by assumption; auto].
Qed.

Lemma order_put s n j p : hybrid_ok s -> hy_jobs s !! n = Some j -> is_finished j = false -> may_run n j s ->
  forall a b ja jb, (a < b)%nat -> <[n := cj_set p j]> (hy_jobs s) !! a = Some ja -> <[n := cj_set p j]> (hy_jobs s) !! b = Some jb -> overlap ja jb -> cj_phase jb <> JQueued -> is_finished ja = true.
Proof.
  intros S Hn Hf Hrun a b ja jb Hab Ha Hb Ho Hq. destruct (lookup_put _ _ _ _ _ _ Hn Ha) as [[-> ->]|[Hna Ha']], (lookup_put _ _ _ _ _ _ Hn Hb) as [[Eb ->]|[Hnb Hb']]; [lia | | |].
  - assert (Hfin : is_finished j = true) by (eapply (ho_order _ S n b); eassumption). congruence.
  - subst b. destruct (job_alone s n j a ja S Hn Hf Hrun Hna Ha' Ho) as [Hja|?]; [|assumption]. destruct (cj_phase j) eqn:Ep; [eapply Hrun; eassumption | | | | | | |]; (eapply (ho_order _ S a n); [exact Hab | exact Ha' | exact Hn | exact Ho | congruence]).
  - eapply (ho_order _ S a b); eassumption.
Qed.

Lemma number_put s n j p : hybrid_ok s -> hy_jobs s !! n = Some j ->
  forall a b ja jb k, (a < b)%nat -> <[n := cj_set p j]> (hy_jobs s) !! a = Some ja -> <[n := cj_set p j]> (hy_jobs s) !! b = Some jb -> cj_key ja = Some k -> cj_key jb = Some k -> cj_no ja < cj_no jb.
Proof.
  intros S Hn a b ja jb k Hab Ha Hb Hka Hkb. destruct (lookup_put _ _ _ _ _ _ Hn Ha) as [[-> ->]|[_ Ha']], (lookup_put _ _ _ _ _ _ Hn Hb) as [[Eb ->]|[_ Hb']]; try (subst b; lia).
  - exact (ho_number _ S n b j jb k Hab Hn Hb' Hka Hkb).
  - subst b. exact (ho_number _ S a n ja j k Hab Ha' Hn Hka Hkb).
  - exact (ho_number _ S a b ja jb k Hab Ha' Hb' Hka Hkb).
Qed.

Lemma job_step s n j id p slots active written memory current failures :
  let s' := put_phase n j p (retune slots active written memory current failures s) in
  hybrid_ok s -> hy_jobs s !! n = Some j -> is_finished j = false -> may_run n j s -> cj_id j = Some id -> is_finished (cj_set p j) = false ->
  (forall k e, current k = Some e -> ce_key e = k) -> (forall k, identify k <> id -> current k = hy_current s k) ->
  (forall id', id' <> id -> slots !! id' = hy_slots s !! id') ->
  (forall k e, memory !! k = Some e -> current k = Some e /\ settled (hy_jobs s') k) ->
  (forall id' lsn, slots !! id' = Some lsn -> record_ok current written id' lsn) ->
  (forall x bytes, hy_written s !! x = Some bytes -> written !! x = Some bytes) -> (forall x bytes, written !! x = Some bytes -> len bytes <= U64_MAX) ->
  job_ok s' (cj_set p j) ->
  (forall id', id' ∈ active -> id' ∈ hy_active s /\ (id' = id -> cj_phase j <> JReserved) \/ id' = id /\ p = JReserved) ->
  failure_kept failures (hy_jobs s') -> hybrid_ok s'.
Proof.
  intros s' S Hn Hf Hrun Hid Hf' Hcur Hcf Hsf Hmem Hdisk Hw Hlen Hjob Hact Hfail. constructor; cbn [s' put_phase retune hy_set_jobs hy_cells hy_closed hy_memory hy_slots hy_active hy_written hy_failures hy_holders hy_jobs hy_current hy_accepted]; try assumption.
  - intros m jm Hm. destruct (lookup_put _ _ _ _ _ _ Hn Hm) as [[-> ->]|[Hne Hm']]; [exact Hjob|]. pose proof (ho_jobs _ S m jm Hm') as Hok. eapply job_ok_frame; [exact Hok | reflexivity | intros _ k c _ Hc; exact Hc|].
    destruct (decide (cj_id jm = Some id)) as [He|Hne']; [destruct (job_alone s n j m jm S Hn Hf Hrun Hne Hm' ltac:(unfold overlap; rewrite He, Hid; auto)) as [?|?]; auto|]. right; right. intros id' k Hid' Hk. assert (Hne2 : id' <> id) by congruence. split; [|left; cbn; apply Hsf; assumption]. cbn. apply Hcf. intros He.
    assert (Some id' = Some (identify k)); [|congruence]. rewrite <- Hid'. unfold job_ok in Hok. unfold cj_key, op_key in Hk. destruct (cj_op jm); try discriminate; injection Hk as <-; apply Hok.
  - apply order_put; assumption.
  - apply number_put; assumption.
  - intros id' Hin. destruct (Hact id' Hin) as [[Hold Hnr]|[-> ->]].
    + destruct (ho_active _ S id' Hold) as (m & jm & Hm & Him & Hpm). exists m, jm. split; [|auto]. rewrite list_lookup_insert_ne; [assumption|]. intros <-. rewrite Hn in Hm. injection Hm as <-. apply Hnr; congruence.
    + exists n, (cj_set JReserved j). split; [apply list_lookup_insert_eq; eapply lookup_lt_Some; exact Hn | auto].
  - intros k c Hc. rewrite (total_insert _ _ _ _ _ Hn), pending_phase by congruence. destruct (ho_cells _ S k c Hc) as [Hp Hg]. split; [lia | assumption].
  - intros i h Hi. pose proof (ho_holders _ S i h Hi) as Hok. eapply holder_ok_frame; [exact Hok | apply Hok | exact Hw].
Qed.

(** What [settled] keeps when a job moves. *)
Lemma settled_put s n j p k : hy_jobs s !! n = Some j -> settled (hy_jobs s) k -> (cj_key j = Some k -> unresolved (cj_set p j) = false) -> settled (<[n := cj_set p j]> (hy_jobs s)) k.
Proof. intros Hn Hs Hp m jm Hm Hk. destruct (lookup_put _ _ _ _ _ _ Hn Hm) as [[-> ->]|[_ Hm']]; [apply Hp; exact Hk | eapply Hs; eassumption]. Qed.

Lemma failure_put s n j p : hy_jobs s !! n = Some j -> failure_kept (hy_failures s) (hy_jobs s) -> is_finished j = false -> p <> JEnding false -> p <> JFinished false -> failure_kept (hy_failures s) (<[n := cj_set p j]> (hy_jobs s)).
Proof.
  intros Hn Hk Hf Hp1 Hp2 m jm Hm Hkey Hph. destruct (lookup_put _ _ _ _ _ _ Hn Hm) as [[-> ->]|[Hne Hm']]; [cbn in Hph; destruct Hph; contradiction|]. destruct (Hk m jm Hm' Hkey Hph) as [?|(m' & j' & Hlt & Hm2 & Hk2 & Hp')]; [auto|]. right. exists m', j'. split; [assumption|]. split; [|auto].
  rewrite list_lookup_insert_ne; [assumption|]. intros <-. rewrite Hn in Hm2. injection Hm2 as <-. unfold is_finished in Hf. rewrite Hp' in Hf. discriminate.
Qed.

Lemma disk_frame s id current written : hybrid_ok s -> (forall k, identify k <> id -> current k = hy_current s k) -> (forall x bytes, hy_written s !! x = Some bytes -> written !! x = Some bytes) ->
  forall id' lsn, id' <> id -> hy_slots s !! id' = Some lsn -> record_ok current written id' lsn.
Proof. intros S Hc Hw id' lsn Hne Hs. destruct (ho_disk _ S id' lsn Hs) as (bytes & Hb & Hr). exists bytes. split; [auto|]. intros r Hd Hi. rewrite Hc by congruence. auto. Qed.

Section Turn.
Context s n j id (S : hybrid_ok s) (Hn : hy_jobs s !! n = Some j) (Hf : is_finished j = false) (Hrun : may_run n j s) (Hid : cj_id j = Some id).

(** Only the phase moves, and possibly the chunk's reservation. *)
Lemma phase_step p active : is_finished (cj_set p j) = false -> (unresolved (cj_set p j) = true -> unresolved j = true) -> p <> JEnding false -> job_ok (put_phase n j p (hy_set_disk (hy_slots s) active (hy_written s) s)) (cj_set p j) ->
  (forall id', id' ∈ active -> id' ∈ hy_active s /\ (id' = id -> cj_phase j <> JReserved) \/ id' = id /\ p = JReserved) -> hybrid_ok (put_phase n j p (hy_set_disk (hy_slots s) active (hy_written s) s)).
Proof.
  intros Hf' Hu Hp Hj Ha. apply (job_step s n j id p (hy_slots s) active (hy_written s) (hy_memory s) (hy_current s) (hy_failures s)); try assumption; try (intros; reflexivity); try (intros; assumption).
  - exact (ho_current _ S).
  - intros k e Hm. destruct (ho_memory _ S k e Hm) as [Hc Hs]. split; [assumption|]. apply (settled_put s n j); [assumption | assumption|]. intros Hk. destruct (unresolved (cj_set p j)) eqn:E; [|reflexivity]. rewrite (Hs n j Hn Hk) in Hu. discriminate (Hu eq_refl).
  - exact (ho_disk _ S).
  - exact (ho_written _ S).
  - apply (failure_put s n j); [assumption | exact (ho_failures _ S) | assumption | assumption |]. intros ->. discriminate.
Qed.

Lemma unresolved_memory k : cj_key j = Some k -> unresolved j = true -> hy_memory s !! k = None.
Proof. intros Hk Hu. destruct (hy_memory s !! k) as [e|] eqn:Hm; [|reflexivity]. destruct (ho_memory _ S k e Hm) as [_ Hs]. rewrite (Hs n j Hn Hk) in Hu. discriminate. Qed.

(** The mutation's outcome is decided: the disk now has it, or has nothing. *)
Lemma resolve_step p k o slots active written : cj_key j = Some k -> identify k = id -> unresolved j = true -> unresolved (cj_set p j) = false -> is_finished (cj_set p j) = false -> p <> JEnding false -> p <> JReserved ->
  (forall e, o = Some e -> ce_key e = k) -> (forall id', id' <> id -> slots !! id' = hy_slots s !! id') ->
  (forall lsn, slots !! id = Some lsn -> record_ok (at_key k o (hy_current s)) written id lsn) ->
  (forall x bytes, hy_written s !! x = Some bytes -> written !! x = Some bytes) -> (forall x bytes, written !! x = Some bytes -> len bytes <= U64_MAX) ->
  (forall id', id' ∈ active -> id' ∈ hy_active s /\ (id' = id -> cj_phase j <> JReserved)) ->
  job_ok (put_phase n j p (hy_resolve k o (hy_set_disk slots active written s))) (cj_set p j) -> hybrid_ok (put_phase n j p (hy_resolve k o (hy_set_disk slots active written s))).
Proof.
  intros Hk Hik Hu Hu' Hf' Hp Hp' Ho Hsf Hrec Hw Hlen Hact Hj. assert (Hframe : forall k', identify k' <> id -> at_key k o (hy_current s) k' = hy_current s k') by (intros k' Hne; unfold at_key; destruct (bytes_eqb k' k) eqn:E; [apply bytes_eqb_eq in E; congruence | reflexivity]).
  apply (job_step s n j id p slots active written (hy_memory s) (at_key k o (hy_current s)) (hy_failures s)); try assumption.
  - intros k' e. unfold at_key. destruct (bytes_eqb k' k) eqn:E; [apply bytes_eqb_eq in E; subst k'; apply Ho | apply (ho_current _ S)].
  - intros k' e Hm. assert (Hne : k' <> k) by (intros ->; rewrite (unresolved_memory k Hk Hu) in Hm; discriminate). destruct (ho_memory _ S k' e Hm) as [Hc Hs]. unfold at_key. destruct (bytes_eqb k' k) eqn:E; [apply bytes_eqb_eq in E; contradiction|]. split; [assumption|]. apply (settled_put s n j); [assumption | assumption | congruence].
  - intros id' lsn Hs. destruct (decide (id' = id)) as [->|Hne]; [auto|]. rewrite Hsf in Hs by assumption. eapply disk_frame; eassumption.
  - intros id' Hin. left. auto.
  - apply (failure_put s n j); [assumption | exact (ho_failures _ S) | assumption | assumption |]. intros ->. discriminate.
Qed.
End Turn.

Lemma entry_of_record e g : entry_of (record_of e g) = e.
Proof. destruct e. reflexivity. Qed.

Lemma job_cell s n j k : hybrid_ok s -> hy_jobs s !! n = Some j -> is_finished j = false -> cj_key j = Some k -> exists c, hy_cells s !! k = Some c.
Proof.
  intros S Hn Hf Hk. pose proof (ho_jobs _ S n j Hn) as Hok. unfold job_ok in Hok. unfold cj_key, op_key in Hk. destruct (cj_op j); try discriminate; injection Hk as <-; [destruct Hok as (_ & _ & _ & _ & Hc & _); destruct (Hc Hf) as (c & Hc' & _); eauto | destruct Hok as (_ & _ & Hc & _); apply Hc; assumption].
Qed.

Lemma insert_turn_ok s n j id e encoded g a : hybrid_ok s -> hy_jobs s !! n = Some j -> cj_op j = OInsert e encoded g -> cj_id j = Some id -> is_finished j = false -> may_run n j s -> puts_fit id a s ->
  match cj_phase j with JFailed _ | JEnding _ => False | _ => True end -> exists r s', insert_turn n j id e encoded g a s = Ok (r, s') /\ hybrid_ok s' /\ r = RNone.
Proof.
  intros S Hn Hop Hid Hf Hrun Hput Hph. pose proof (ho_jobs _ S n j Hn) as Hok. unfold job_ok in Hok. rewrite Hop in Hok. destruct Hok as (H1 & H2 & H3 & H4 & H5 & H6). assert (Hik : identify (ce_key e) = id) by congruence. assert (Hkey : cj_key j = Some (ce_key e)) by (unfold cj_key; rewrite Hop; reflexivity).
  assert (Hbase : forall s' p, hy_accepted s' = hy_accepted s -> hy_cells s' = hy_cells s -> match p with JRead _ | JDelete _ => False | JCommitted => hy_current s' (ce_key e) = Some e | _ => True end -> job_ok s' (cj_set p j)) by (intros s' p Ha Hc Hp; unfold job_ok; cbn [cj_set cj_op cj_id cj_no cj_phase]; rewrite Hop, Ha, Hc; do 4 (split; [assumption|]); split; [intros _; auto | exact Hp]).
  assert (Hself : forall s0 : Hybrid, s0 = hy_set_disk (hy_slots s0) (hy_active s0) (hy_written s0) s0) by (intros []; reflexivity).
  rewrite Hik in H1. unfold insert_turn. destruct (cj_phase j) eqn:Ep; try contradiction.
  - destruct (an_begin a) as [err|].
    + eexists _, _. split; [reflexivity|]. split; [|reflexivity]. rewrite (Hself s). eapply phase_step; try eassumption; [reflexivity | discriminate | discriminate | apply Hbase; reflexivity || exact Logic.I | intros id' Hin; left; split; [assumption | rewrite Ep; discriminate]].
    + eexists _, _. split; [reflexivity|]. split; [|reflexivity]. eapply phase_step; try eassumption; [reflexivity | intros _; unfold unresolved; rewrite Ep; reflexivity | discriminate | apply Hbase; reflexivity || exact Logic.I|]. intros id' Hin. apply elem_of_union in Hin as [Hin|Hin]; [apply elem_of_singleton in Hin; auto | left; split; [assumption | rewrite Ep; discriminate]].
  - unfold puts_fit in Hput. destruct (an_put a) as [lsn|err|]; [|eexists _, _; split; [reflexivity|]; split; [|reflexivity]; eapply phase_step; try eassumption; [reflexivity | discriminate | discriminate | apply Hbase; reflexivity || exact Logic.I|]; intros id' Hin; apply elem_of_difference in Hin as [Hin Hne]; left; split; [assumption | intros ->; destruct Hne; apply elem_of_singleton; reflexivity] | contradiction].
    eexists _, _. split; [reflexivity|]. split; [|reflexivity]. eapply resolve_step; try eassumption; try reflexivity; try discriminate.
    + unfold unresolved. rewrite Ep. reflexivity.
    + intros e' [= <-]. reflexivity.
    + intros id' Hne. apply lookup_insert_ne. congruence.
    + intros lsn' Hs. rewrite lookup_insert_eq in Hs. injection Hs as <-. exists encoded. split; [apply lookup_insert_eq|]. intros r Hr _. rewrite H2 in Hr. injection Hr as <-. rewrite entry_of_record. unfold at_key. cbn. rewrite bytes_eqb_refl. reflexivity.
    + intros x bytes Hb. rewrite lookup_insert_ne; [assumption | congruence].
    + intros x bytes. destruct (decide ((id, lsn) = x)) as [<-|Hne]; [rewrite lookup_insert_eq; intros [= <-]; assumption | rewrite lookup_insert_ne by assumption; apply (ho_written _ S)].
    + intros id' Hin. apply elem_of_difference in Hin as [Hin Hne]. split; [assumption|]. intros ->. destruct Hne. apply elem_of_singleton. reflexivity.
    + apply Hbase; [reflexivity | reflexivity|]. cbn. unfold at_key. rewrite bytes_eqb_refl. reflexivity.
  - destruct (H5 Hf) as (c & Hc & Hg). rewrite Hc. cbn [expect rbind]. eexists _, _. split; [reflexivity|]. split; [|reflexivity].
    set (s1 := if (kc_generation c =? g) && negb (hy_closed s) then _ else s). assert (S1 : exists m, s1 = hy_set_memory m s /\ forall k e', m !! k = Some e' -> hy_current s k = Some e' /\ settled (<[n := cj_set (JEnding true) j]> (hy_jobs s)) k).
    { assert (Hold : forall k e', hy_memory s !! k = Some e' -> hy_current s k = Some e' /\ settled (<[n := cj_set (JEnding true) j]> (hy_jobs s)) k) by (intros k e' Hm; destruct (ho_memory _ S k e' Hm) as [Hcu Hse]; split; [assumption | apply (settled_put s n j); [assumption | assumption | reflexivity]]).
      unfold s1. destruct (kc_generation c =? g) eqn:Eg; [destruct (negb (hy_closed s)); [destruct (an_retained a)|]|]; cbn [andb].
      - exists (<[ce_key e := e]> (hy_memory s)). split; [reflexivity|]. intros k e'. destruct (decide (ce_key e = k)) as [<-|Hne]; [|rewrite lookup_insert_ne by assumption; apply Hold]. rewrite lookup_insert_eq. intros [= <-]. split; [assumption|]. apply Z.eqb_eq in Eg.
        intros m jm Hm Hkm. destruct (lookup_put _ _ _ _ _ _ Hn Hm) as [[-> ->]|[Hne Hm']]; [reflexivity|]. pose proof (ho_jobs _ S m jm Hm') as Hokm.
        assert (Him : cj_id jm = Some id /\ cj_no jm <= hy_accepted s (ce_key e)) by (unfold job_ok in Hokm; unfold cj_key, op_key in Hkm; destruct (cj_op jm); try discriminate; injection Hkm as Hkm; rewrite Hkm in Hokm; split; [rewrite <- Hik; apply Hokm | apply Hokm | rewrite <- Hik; apply Hokm | apply Hokm]).
        destruct Him as [Him Hnm]. destruct (job_alone s n j m jm S Hn Hf Hrun Hne Hm' ltac:(unfold overlap; rewrite Him, Hid; auto)) as [Hq|Hfin]; [|unfold unresolved, is_finished in *; destruct (cj_phase jm); congruence]. exfalso.
        destruct (decide (m < n)%nat) as [Hlt|Hge]; [assert (Hfin : is_finished jm = true) by (eapply (ho_order _ S m n); [exact Hlt | exact Hm' | exact Hn | unfold overlap; rewrite Him, Hid; auto | congruence]); unfold is_finished in Hfin; rewrite Hq in Hfin; discriminate|]. pose proof (ho_number _ S n m j jm (ce_key e) ltac:(lia) Hn Hm' Hkey Hkm). lia.
      - exists (delete (ce_key e) (hy_memory s)). split; [reflexivity|]. intros k e' Hm. apply lookup_delete_Some in Hm as [_ Hm]. apply Hold. assumption.
      - exists (hy_memory s). split; [destruct s; reflexivity | exact Hold].
      - exists (hy_memory s). split; [destruct s; reflexivity | exact Hold]. }
    destruct S1 as (m & -> & Hm). apply (job_step s n j id (JEnding true) (hy_slots s) (hy_active s) (hy_written s) m (hy_current s) (hy_failures s)); try assumption; try (intros; reflexivity); try reflexivity; try (intros; assumption).
    + exact (ho_current _ S).
    + exact (ho_disk _ S).
    + exact (ho_written _ S).
    + apply Hbase; [reflexivity | reflexivity | exact Logic.I].
    + intros id' Hin. left. split; [assumption | rewrite Ep; discriminate].
    + apply (failure_put s n j); [assumption | exact (ho_failures _ S) | assumption | discriminate | discriminate].
  - unfold is_finished in Hf. rewrite Ep in Hf. discriminate.
Qed.

Lemma remove_slot_disk s id lsn : hy_slots s !! id = None \/ hy_slots s !! id = Some lsn -> exists slots, remove_slot id lsn s = hy_set_disk slots (hy_active s) (hy_written s) s /\ slots !! id = None /\ forall id', id' <> id -> slots !! id' = hy_slots s !! id'.
Proof.
  intros Hs. unfold remove_slot. case_bool_decide as E.
  - exists (delete id (hy_slots s)). split; [reflexivity|]. split; [apply lookup_delete_eq | intros; apply lookup_delete_ne; congruence].
  - exists (hy_slots s). split; [destruct s; reflexivity|]. split; [destruct Hs; [assumption | contradiction] | reflexivity].
Qed.

Section Invalidate.
Context s n j id k removed (S : hybrid_ok s) (Hn : hy_jobs s !! n = Some j) (Hop : cj_op j = OInvalidate k removed) (Hid : cj_id j = Some id) (Hf : is_finished j = false) (Hrun : may_run n j s).

Lemma invalidate_base : identify k = id /\ cj_key j = Some k /\ (forall s' p, hy_accepted s' = hy_accepted s -> hy_cells s' = hy_cells s -> match p with JReserved | JCommitted => False | JRead lsn | JDelete lsn => hy_slots s' !! id = None \/ hy_slots s' !! id = Some lsn | _ => True end -> job_ok s' (cj_set p j)) /\
  match cj_phase j with JReserved | JCommitted => False | JRead lsn | JDelete lsn => hy_slots s !! id = None \/ hy_slots s !! id = Some lsn | _ => True end.
Proof.
  pose proof (ho_jobs _ S n j Hn) as Hok. unfold job_ok in Hok. rewrite Hop in Hok. destruct Hok as (H1 & H2 & H3 & H4). assert (Hik : identify k = id) by congruence. rewrite Hik in H1, H4. split; [assumption|]. split; [unfold cj_key; rewrite Hop; reflexivity|]. split; [|exact H4].
  intros s' p Ha Hc Hp. unfold job_ok. cbn [cj_set cj_op cj_id cj_no cj_phase]. rewrite Hop, Ha, Hc, Hik. do 2 (split; [assumption|]). split; [intros _; auto | exact Hp].
Qed.

(** The invalidation succeeds: nothing on the disk answers for the key. *)
Lemma absent_ok slots : unresolved j = true -> (forall id', id' <> id -> slots !! id' = hy_slots s !! id') -> (forall lsn, slots !! id = Some lsn -> record_ok (at_key k None (hy_current s)) (hy_written s) id lsn) ->
  cj_phase j <> JReserved -> hybrid_ok (put_phase n j (JEnding true) (hy_resolve k None (hy_set_disk slots (hy_active s) (hy_written s) s))).
Proof.
  intros Hu Hsf Hrec Hnr. destruct invalidate_base as (Hik & Hkey & Hbase & _). eapply resolve_step; try eassumption; try reflexivity; try discriminate; try (intros; assumption).
  - exact (ho_written _ S).
  - intros id' Hin. auto.
  - apply Hbase; [reflexivity | reflexivity | exact Logic.I].
Qed.

Lemma failed_ok err : cj_phase j <> JReserved -> hybrid_ok (put_phase n j (JFailed err) s).
Proof.
  intros Hnr. destruct invalidate_base as (Hik & Hkey & Hbase & _). assert (Hself : put_phase n j (JFailed err) s = put_phase n j (JFailed err) (hy_set_disk (hy_slots s) (hy_active s) (hy_written s) s)) by (destruct s; reflexivity). rewrite Hself.
  eapply phase_step; try eassumption; [reflexivity | discriminate | discriminate | apply Hbase; [reflexivity | reflexivity | exact Logic.I] | intros id' Hin; left; auto].
Qed.

Lemma invalidate_turn_ok a : reads_fit id a s -> an_delete a <> Panic -> match cj_phase j with JFailed _ | JEnding _ => False | _ => True end -> exists r s', invalidate_turn f n j id k a s = Ok (r, s') /\ hybrid_ok s' /\ r = RNone.
Proof.
  intros Hread Hdel Hph. destruct invalidate_base as (Hik & Hkey & Hbase & Hslot). assert (Hself : forall s0 : Hybrid, hy_set_disk (hy_slots s0) (hy_active s0) (hy_written s0) s0 = s0) by (intros []; reflexivity).
  assert (Hu : match cj_phase j with JQueued | JRead _ | JDelete _ => true | _ => false end = true -> unresolved j = true /\ cj_phase j <> JReserved) by (unfold unresolved; destruct (cj_phase j); auto; discriminate).
  unfold invalidate_turn. destruct (cj_phase j) as [| | |lsn|lsn| | |] eqn:Ep; try contradiction; [| | |unfold is_finished in Hf; rewrite Ep in Hf; discriminate]; destruct (Hu eq_refl) as [Hun Hnr]; rewrite <- Ep in Hnr.
  - unfold version_of. case_bool_decide as Ea; [|destruct (hy_slots s !! id) as [lsn|] eqn:Es].
    + exfalso. destruct (ho_active _ S id Ea) as (m & jm & Hm & Him & Hpm). assert (Hne : m <> n) by (intros ->; congruence). destruct (job_alone s n j m jm S Hn Hf Hrun Hne Hm ltac:(unfold overlap; rewrite Him, Hid; auto)) as [?|Hfin]; [congruence|]. unfold is_finished in Hfin. rewrite Hpm in Hfin. discriminate.
    + eexists _, _. split; [reflexivity|]. split; [|reflexivity]. rewrite <- (Hself s). eapply phase_step; try eassumption; [reflexivity | auto | discriminate | apply Hbase; [reflexivity | reflexivity | cbn; auto] | intros id' Hin; left; auto].
    + eexists _, _. split; [reflexivity|]. split; [|reflexivity]. rewrite <- (Hself s) at 1. apply absent_ok; [assumption | reflexivity | congruence | assumption].
  - unfold reads_fit in Hread. destruct (an_read a) as [[[found bytes]|]|err|]; [| | |contradiction].
    + destruct (found =? lsn) eqn:Ef; cbn [negb]; [apply Z.eqb_eq in Ef; subst found | eexists _, _; split; [reflexivity|]; split; [apply failed_ok; assumption | reflexivity]].
      pose proof (envelope_decode_safe (SE := SE) f bytes (ho_written _ S _ _ Hread)) as Hsafe. destruct (decode bytes) as [r|err|] eqn:Ed; [|eexists _, _; split; [reflexivity|]; split; [apply failed_ok; assumption | reflexivity] | destruct Hsafe; reflexivity].
      destruct (bytes_eqb (ev_key r) k) eqn:Ek; cbn [negb].
      * eexists _, _. split; [reflexivity|]. split; [|reflexivity]. rewrite <- (Hself s). eapply phase_step; try eassumption; [reflexivity | auto | discriminate | apply Hbase; [reflexivity | reflexivity | exact Hslot] | intros id' Hin; left; auto].
      * eexists _, _. split; [reflexivity|]. split; [|reflexivity]. rewrite <- (Hself s) at 1. apply absent_ok; [assumption | reflexivity | | assumption]. intros lsn' Hs. assert (lsn' = lsn) as -> by (destruct Hslot; congruence). exists bytes. split; [assumption|]. intros r' Hr' Hi. rewrite Ed in Hr'. injection Hr' as <-.
        unfold at_key. rewrite Ek. destruct (ho_disk _ S id lsn Hs) as (b & Hb & Hr). rewrite Hread in Hb. injection Hb as <-. apply Hr; assumption.
    + destruct (remove_slot_disk s id lsn Hslot) as (slots & -> & Hnone & Hother). eexists _, _. split; [reflexivity|]. split; [|reflexivity]. apply absent_ok; [assumption | assumption | congruence | assumption].
    + eexists _, _. split; [reflexivity|]. split; [apply failed_ok; assumption | reflexivity].
  - destruct (remove_slot_disk s id lsn Hslot) as (slots & Hrs & Hnone & Hother). assert (Habs : hybrid_ok (put_phase n j (JEnding true) (hy_resolve k None (remove_slot id lsn s)))) by (rewrite Hrs; apply absent_ok; [assumption | assumption | congruence | assumption]).
    destruct (an_delete a) as [[lsn'| |]|err|]; [| | | |contradiction]; eexists _, _; (split; [reflexivity|]); (split; [first [exact Habs | apply failed_ok; assumption] | reflexivity]).
Qed.
End Invalidate.

(** ** The end of a job *)

Lemma job_phase_ok s j p : job_ok s j -> is_finished j = false -> cj_key j <> None -> match p with JFailed _ | JEnding _ | JFinished _ => True | _ => False end -> job_ok s (cj_set p j).
Proof.
  unfold job_ok, cj_key, op_key. intros Hj Hf Hk Hp. cbn [cj_set cj_op cj_id cj_no cj_phase]. destruct (cj_op j) as [e encoded g|key removed|close]; [| |contradiction].
  - destruct Hj as (H1 & H2 & H3 & H4 & H5 & _). do 4 (split; [assumption|]). split; [intros _; auto | destruct p; try contradiction; exact Logic.I].
  - destruct Hj as (H1 & H2 & H3 & _). do 2 (split; [assumption|]). split; [intros _; auto | destruct p; try contradiction; exact Logic.I].
Qed.

Lemma finish_job_ok s n j k c c' ok : hybrid_ok s -> hy_jobs s !! n = Some j -> cj_phase j = JEnding ok -> may_run n j s -> cj_key j = Some k -> hy_cells s !! k = Some c -> kc_generation c' = kc_generation c -> kc_pending c' = kc_pending c - 1 ->
  hybrid_ok (put_phase n j (JFinished ok) (hy_set_cells (<[k := c']> (hy_cells s)) s)).
Proof.
  intros S Hn Hp Hrun Hk Hc Hg Hpe. assert (Hf : is_finished j = false) by (unfold is_finished; rewrite Hp; reflexivity).
  assert (Hcell : forall k' c0, hy_cells s !! k' = Some c0 -> exists c1, <[k := c']> (hy_cells s) !! k' = Some c1 /\ kc_generation c1 - kc_generation c0 = hy_accepted s k' - hy_accepted s k').
  { intros k' c0 H0. destruct (decide (k = k')) as [<-|Hne]; [exists c'; rewrite lookup_insert_eq; split; [reflexivity | assert (c0 = c) as -> by congruence; lia] | exists c0; rewrite lookup_insert_ne by assumption; split; [assumption | lia]]. }
  constructor; cbn [put_phase hy_set_jobs hy_set_cells hy_cells hy_closed hy_memory hy_slots hy_active hy_written hy_failures hy_holders hy_jobs hy_current hy_accepted].
  - exact (ho_current _ S).
  - intros k' e Hm. destruct (ho_memory _ S k' e Hm) as [Hcu Hs]. split; [assumption|]. apply (settled_put s n j); [assumption | assumption | reflexivity].
  - exact (ho_disk _ S).
  - exact (ho_written _ S).
  - intros m jm Hm. assert (Hjm : job_ok s jm) by (destruct (lookup_put _ _ _ _ _ _ Hn Hm) as [[-> ->]|[_ Hm']]; [apply job_phase_ok; [exact (ho_jobs _ S n j Hn) | assumption | congruence | exact Logic.I] | exact (ho_jobs _ S m jm Hm')]).
    eapply job_ok_move; [exact Hjm | reflexivity | intros _ k' c0 _ H0; exact (Hcell k' c0 H0) | right; right; auto].
  - apply order_put; assumption.
  - apply number_put; assumption.
  - intros id Hin. destruct (ho_active _ S id Hin) as (m & jm & Hm & Him & Hpm). exists m, jm. split; [|auto]. rewrite list_lookup_insert_ne; [assumption|]. intros <-. congruence.
  - intros k' c0. rewrite (total_insert _ _ _ _ _ Hn). unfold pending_of at 2 3. change (cj_key (cj_set (JFinished ok) j)) with (cj_key j). change (is_finished (cj_set (JFinished ok) j)) with true. rewrite Hk, Hf, andb_false_r, andb_true_r.
    destruct (decide (k = k')) as [<-|Hne]; [rewrite lookup_insert_eq, bytes_eqb_refl; intros [= <-]; destruct (ho_cells _ S k c Hc); lia|]. rewrite lookup_insert_ne by assumption. intros H0. destruct (ho_cells _ S k' c0 H0). destruct (bytes_eqb k k') eqn:E; [apply bytes_eqb_eq in E; contradiction | lia].
  - intros i h Hi. pose proof (ho_holders _ S i h Hi) as Hok. eapply holder_ok_frame; [exact Hok | | auto]. destruct Hok as [[c0 H0] _]. destruct (Hcell _ _ H0) as (c1 & H1 & _). eauto.
  - intros m jm Hm Hkm Hph. assert (Hold : exists jo, hy_jobs s !! m = Some jo /\ (cj_phase jo = JEnding false \/ cj_phase jo = JFinished false) /\ cj_key jo <> None).
    { destruct (lookup_put _ _ _ _ _ _ Hn Hm) as [[-> ->]|[_ Hm']]; [|eauto]. exists j. split; [assumption|]. split; [|assumption]. left. cbn in Hph. destruct Hph as [?|[= ->]]; [discriminate | assumption]. }
    destruct Hold as (jo & Hjo & Hpo & Hko). destruct (ho_failures _ S m jo Hjo Hko Hpo) as [?|(m' & j' & Hlt & Hm2 & Hk2 & Hp2)]; [auto|]. right. exists m', j'. split; [assumption|]. split; [|auto]. rewrite list_lookup_insert_ne; [assumption|]. intros <-. congruence.
Qed.

Lemma end_job_ok s n j k : hybrid_ok s -> hy_jobs s !! n = Some j -> cj_key j = Some k -> match cj_phase j with JFailed _ | JEnding _ => True | _ => False end -> may_run n j s ->
  exists r s', end_job n j k s = Ok (r, s') /\ hybrid_ok s' /\ forall e, r <> RHit e.
Proof.
  intros S Hn Hk Hp Hrun. assert (Hf : is_finished j = false) by (unfold is_finished; destruct (cj_phase j); try reflexivity; contradiction). unfold end_job. destruct (cj_phase j) as [| | | | |err|ok|] eqn:Ep; try contradiction.
  - eexists _, _. split; [reflexivity|]. split; [|discriminate]. destruct (cj_id j) as [id|] eqn:Hid; [|exfalso; pose proof (ho_jobs _ S n j Hn) as Hok; unfold job_ok in Hok; unfold cj_key, op_key in Hk; destruct (cj_op j); try discriminate; destruct Hok as [Hok _]; congruence].
    apply (job_step s n j id (JEnding false) (hy_slots s) (hy_active s) (hy_written s) (hy_memory s) (hy_current s) (Some (default err (hy_failures s)))); try assumption; try (intros; reflexivity); try reflexivity; try (intros; assumption).
    + exact (ho_current _ S).
    + intros k' e Hm. destruct (ho_memory _ S k' e Hm) as [Hcu Hse]. split; [assumption | apply (settled_put s n j); [assumption | assumption | reflexivity]].
    + exact (ho_disk _ S).
    + exact (ho_written _ S).
    + exact (job_phase_ok s j (JEnding false) (ho_jobs _ S n j Hn) Hf ltac:(congruence) Logic.I).
    + intros id' Hin. left. split; [assumption | rewrite Ep; discriminate].
    + intros m jm _ _ _. left. discriminate.
  - destruct (job_cell s n j k S Hn Hf Hk) as [c Hc]. rewrite Hc. cbn [expect rbind]. destruct (ho_cells _ S k c Hc) as [Hpc _]. assert (Hone : 1 <= kc_pending c).
    { rewrite Hpc. transitivity (pending_of k j); [unfold pending_of; rewrite Hk, Hf, bytes_eqb_refl; reflexivity|]. apply (total_lookup _ _ n); [intros; apply pending_range | assumption]. }
    assert (Hend : exists ws c', end_mutation (SE := SE) c = Ok (ws, c') /\ kc_generation c' = kc_generation c /\ kc_pending c' = kc_pending c - 1) by (unfold end_mutation, sub64; rewrite (proj2 (Z.leb_le _ _) Hone); cbn [rbind]; destruct (kc_pending c - 1 =? 0); eexists _, _; repeat split).
    destruct Hend as (ws & c' & -> & Hg & Hpe). eexists _, _. split; [reflexivity|]. split; [|discriminate]. apply release_key_ok. eapply finish_job_ok; eassumption.
Qed.

(** ** Fences *)

Lemma fence_alone s n j m jm : hybrid_ok s -> hy_jobs s !! n = Some j -> cj_id j = None -> is_finished j = false -> hy_jobs s !! m = Some jm -> (n < m)%nat -> cj_phase jm = JQueued.
Proof.
  intros S Hn Hid Hf Hm Hlt. destruct (cj_phase jm) eqn:Ep; [reflexivity | | | | | | |]; (assert (Hfin : is_finished j = true) by (eapply (ho_order _ S n m); [exact Hlt | exact Hn | exact Hm | left; exact Hid | congruence]); congruence).
Qed.

(** A failure that a running fence does not see was reported by a fence in between. *)
Lemma failure_between s n j m jm : hybrid_ok s -> hy_jobs s !! n = Some j -> cj_id j = None -> is_finished j = false -> hy_failures s = None -> hy_jobs s !! m = Some jm -> cj_key jm <> None -> cj_phase jm = JEnding false \/ cj_phase jm = JFinished false ->
  exists i ji, (m < i < n)%nat /\ hy_jobs s !! i = Some ji /\ cj_key ji = None /\ cj_phase ji = JFinished false.
Proof.
  intros S Hn Hid Hf Hnone Hm Hk Hp. destruct (ho_failures _ S m jm Hm Hk Hp) as [?|(i & ji & Hlt & Hi & Hki & Hpi)]; [contradiction|]. exists i, ji. split; [|auto]. split; [assumption|]. destruct (Nat.lt_trichotomy i n) as [?|[->|Hgt]]; [assumption | | pose proof (fence_alone s n j i ji S Hn Hid Hf Hi Hgt); congruence].
  exfalso. rewrite Hn in Hi. injection Hi as <-. unfold is_finished in Hf. rewrite Hpi in Hf. discriminate.
Qed.

Lemma fence_ok s n j close memory ok : hybrid_ok s -> hy_jobs s !! n = Some j -> cj_op j = OFence close -> is_finished j = false -> may_run n j s -> (forall k e, memory !! k = Some e -> hy_memory s !! k = Some e) -> (ok = true -> hy_failures s = None) ->
  hybrid_ok (put_phase n j (JFinished ok) (hy_set_failures None (hy_set_memory memory s))).
Proof.
  intros S Hn Hop Hf Hrun Hmem Hok. assert (Hkey : cj_key j = None) by (unfold cj_key; rewrite Hop; reflexivity). pose proof (ho_jobs _ S n j Hn) as Hj. unfold job_ok in Hj. rewrite Hop in Hj. destruct Hj as [Hid Hph].
  assert (Hq : cj_phase j = JQueued) by (unfold is_finished in Hf; destruct (cj_phase j); try contradiction; [reflexivity | discriminate]).
  constructor; cbn [put_phase hy_set_jobs hy_set_failures hy_set_memory hy_cells hy_closed hy_memory hy_slots hy_active hy_written hy_failures hy_holders hy_jobs hy_current hy_accepted].
  - exact (ho_current _ S).
  - intros k e Hm. destruct (ho_memory _ S k e (Hmem k e Hm)) as [Hc Hs]. split; [assumption|]. apply (settled_put s n j); [assumption | assumption | reflexivity].
  - exact (ho_disk _ S).
  - exact (ho_written _ S).
  - intros m jm Hm. destruct (lookup_put _ _ _ _ _ _ Hn Hm) as [[-> ->]|[_ Hm']]; [unfold job_ok; cbn; rewrite Hop; auto | exact (ho_jobs _ S m jm Hm')].
  - apply order_put; assumption.
  - apply number_put; assumption.
  - intros id Hin. destruct (ho_active _ S id Hin) as (m & jm & Hm & Him & Hpm). exists m, jm. split; [|auto]. rewrite list_lookup_insert_ne; [assumption|]. intros <-. congruence.
  - intros k c Hc. rewrite (total_insert _ _ _ _ _ Hn). unfold pending_of at 2 3. change (cj_key (cj_set (JFinished ok) j)) with (cj_key j). rewrite Hkey. destruct (ho_cells _ S k c Hc). split; [lia | assumption].
  - exact (ho_holders _ S).
  - intros m jm Hm Hkm Hpm. destruct (lookup_put _ _ _ _ _ _ Hn Hm) as [[-> ->]|[Hne Hm']]; [contradiction|]. right. destruct ok.
    + destruct (failure_between s n j m jm S Hn Hid Hf (Hok eq_refl) Hm' Hkm Hpm) as (i & ji & Hlt & Hi & Hki & Hpi). exists i, ji. split; [lia|]. split; [|auto]. rewrite list_lookup_insert_ne by lia. assumption.
    + exists n, (cj_set (JFinished false) j). destruct (Nat.lt_trichotomy m n) as [Hlt|[->|Hgt]]; [|contradiction | pose proof (fence_alone s n j m jm S Hn Hid Hf Hm' Hgt); destruct Hpm; congruence]. split; [assumption|]. split; [apply list_lookup_insert_eq; eapply lookup_lt_Some; exact Hn | auto].
Qed.

Lemma fence_turn_ok s n j close a : hybrid_ok s -> hy_jobs s !! n = Some j -> cj_op j = OFence close -> is_finished j = false -> may_run n j s -> an_fence a <> Panic ->
  exists ok s', fence_turn n j close a s = Ok (RDone ok, s') /\ hybrid_ok s' /\ (ok = true -> hy_failures s = None).
Proof.
  intros S Hn Hop Hf Hrun Ha. pose proof (ho_jobs _ S n j Hn) as Hj. unfold job_ok in Hj. rewrite Hop in Hj. destruct Hj as [_ Hph]. assert (Hq : cj_phase j = JQueued) by (unfold is_finished in Hf; destruct (cj_phase j); try contradiction; [reflexivity | discriminate]).
  assert (Hself : hy_set_memory (hy_memory s) s = s) by (destruct s; reflexivity). assert (Hrep : forall b, hy_failures (if b : bool then hy_set_memory ∅ s else s) = hy_failures s) by (intros []; reflexivity).
  unfold fence_turn. rewrite Hq. destruct (an_fence a) as [u|err|]; [| |contradiction]; rewrite Hrep; eexists _, _; (split; [reflexivity|]); (split; [|destruct (hy_failures s); congruence]).
  all: destruct close; [|rewrite <- Hself at 2]; (eapply fence_ok; try eassumption; [try (intros k e Hm; rewrite lookup_empty in Hm; discriminate); auto | destruct (hy_failures s); congruence]).
Qed.

Lemma job_turn_ok s n a : hybrid_ok s -> cache_fits s (CJob n a) -> exists r s', cache_step s (CJob n a) = Ok (r, s') /\ hybrid_ok s' /\ forall e, r <> RHit e.
Proof.
  intros S (j & Hn & Hf & Hrun & Hans & Hdel & Hfen). cbn. rewrite Hn. cbn [expect rbind]. unfold job_turn. pose proof (ho_jobs _ S n j Hn) as Hj. unfold job_ok in Hj.
  assert (Hend : forall k, cj_key j = Some k -> match cj_phase j with JFailed _ | JEnding _ => True | _ => False end -> exists r s', end_job n j k s = Ok (r, s') /\ hybrid_ok s' /\ forall e, r <> RHit e) by (intros k Hk Hp; apply end_job_ok; assumption).
  destruct (cj_op j) as [e encoded g|key removed|close] eqn:Hop.
  - destruct Hj as [Hid _]. rewrite Hid. destruct (Hans _ Hid) as [Hr Hp]. assert (Hkey : cj_key j = Some (ce_key e)) by (unfold cj_key; rewrite Hop; reflexivity). specialize (Hend _ Hkey). pose proof (insert_turn_ok s n j _ e encoded g a S Hn Hop Hid Hf Hrun Hp) as Hin.
    destruct (cj_phase j) eqn:Ep; try (apply Hend; exact Logic.I); destruct (Hin Logic.I) as (r & s' & Hs & Ho & ->); eexists _, _; (split; [exact Hs|]); (split; [assumption | discriminate]).
  - destruct Hj as [Hid _]. rewrite Hid. destruct (Hans _ Hid) as [Hr Hp]. assert (Hkey : cj_key j = Some key) by (unfold cj_key; rewrite Hop; reflexivity). specialize (Hend _ Hkey). pose proof (invalidate_turn_ok s n j _ key removed S Hn Hop Hid Hf Hrun a Hr Hdel) as Hin.
    destruct (cj_phase j) eqn:Ep; try (apply Hend; exact Logic.I); destruct (Hin Logic.I) as (r & s' & Hs & Ho & ->); eexists _, _; (split; [exact Hs|]); (split; [assumption | discriminate]).
  - destruct (fence_turn_ok s n j close a S Hn Hop Hf Hrun Hfen) as (ok & s' & Hs & Ho & _). eexists _, _. split; [exact Hs|]. split; [assumption | discriminate].
Qed.
(** ** Admission *)

Lemma lookup_snoc_cases {A} (l : list A) x n y : (l ++ [x]) !! n = Some y -> l !! n = Some y \/ n = length l /\ y = x.
Proof. intros Hn. apply lookup_app_Some in Hn as [Hn|[Hge Hn]]; [auto|]. apply list_lookup_singleton_Some in Hn as [Hn ->]. right. split; [lia | reflexivity]. Qed.

Lemma job_number_le s j k : job_ok s j -> cj_key j = Some k -> cj_no j <= hy_accepted s k.
Proof. unfold job_ok, cj_key, op_key. intros Hj Hk. destruct (cj_op j); try discriminate; injection Hk as <-; apply Hj. Qed.

Lemma append_job_ok s j0 cells closed memory holders accepted :
  let s' := {| hy_cells := cells; hy_closed := closed; hy_memory := memory; hy_slots := hy_slots s; hy_active := hy_active s; hy_written := hy_written s; hy_failures := hy_failures s; hy_holders := holders; hy_jobs := hy_jobs s ++ [j0]; hy_current := hy_current s; hy_accepted := accepted |} in
  hybrid_ok s -> cj_phase j0 = JQueued -> job_ok s' j0 ->
  (forall k e, memory !! k = Some e -> hy_memory s !! k = Some e /\ cj_key j0 <> Some k) ->
  (forall k, hy_accepted s k <= accepted k /\ (cj_key j0 = Some k -> hy_accepted s k < cj_no j0)) ->
  (forall k c, hy_cells s !! k = Some c -> exists c', cells !! k = Some c' /\ kc_generation c' - kc_generation c = accepted k - hy_accepted s k) ->
  (forall k c, cells !! k = Some c -> kc_pending c = total (pending_of k) (hy_jobs s) + pending_of k j0 /\ 0 <= kc_generation c <= U64_MAX) ->
  (forall i h, holders !! i = Some (Some h) -> exists i', hy_holders s !! i' = Some (Some h)) -> hybrid_ok s'.
Proof.
  intros s' S Hq Hj0 Hmem Hacc Hcell Hpen Hhold. assert (Hkeep : forall n j, hy_jobs s !! n = Some j -> (hy_jobs s ++ [j0]) !! n = Some j) by (intros n j Hn; apply lookup_app_l_Some; exact Hn).
  constructor; cbn [s' hy_cells hy_closed hy_memory hy_slots hy_active hy_written hy_failures hy_holders hy_jobs hy_current hy_accepted].
  - exact (ho_current _ S).
  - intros k e Hm. destruct (Hmem k e Hm) as [Hm' Hne]. destruct (ho_memory _ S k e Hm') as [Hc Hs]. split; [assumption|]. intros n j Hn Hk. destruct (lookup_snoc_cases _ _ _ _ Hn) as [Hn'|[_ ->]]; [eapply Hs; eassumption | contradiction].
  - exact (ho_disk _ S).
  - exact (ho_written _ S).
  - intros n j Hn. destruct (lookup_snoc_cases _ _ _ _ Hn) as [Hn'|[_ ->]]; [|exact Hj0]. eapply job_ok_move; [exact (ho_jobs _ S n j Hn') | intros k _; apply Hacc | intros _ k c _ Hc; apply Hcell; exact Hc | right; right; auto].
  - intros a b ja jb Hab Ha Hb Ho Hp. destruct (lookup_snoc_cases _ _ _ _ Hb) as [Hb'|[_ ->]]; [|contradiction]. destruct (lookup_snoc_cases _ _ _ _ Ha) as [Ha'|[-> _]]; [eapply (ho_order _ S a b); eassumption|]. apply lookup_lt_Some in Hb'. lia.
  - intros a b ja jb k Hab Ha Hb Hka Hkb. destruct (lookup_snoc_cases _ _ _ _ Ha) as [Ha'|[-> _]]; [|apply lookup_lt_Some in Hb; rewrite length_app in Hb; cbn in Hb; lia]. destruct (lookup_snoc_cases _ _ _ _ Hb) as [Hb'|[_ ->]]; [exact (ho_number _ S a b ja jb k Hab Ha' Hb' Hka Hkb)|].
    pose proof (job_number_le s ja k (ho_jobs _ S a ja Ha') Hka). destruct (Hacc k) as [_ Hno]. specialize (Hno Hkb). lia.
  - intros id Hin. destruct (ho_active _ S id Hin) as (m & jm & Hm & Him & Hpm). exists m, jm. auto.
  - intros k c Hc. rewrite total_snoc. apply Hpen. exact Hc.
  - intros i h Hi. destruct (Hhold i h Hi) as [i' Hi']. pose proof (ho_holders _ S i' h Hi') as Hok. eapply holder_ok_frame; [exact Hok | | auto]. destruct Hok as [[c Hc] _]. destruct (Hcell _ c Hc) as (c' & Hc' & _). exists c'. exact Hc'.
  - intros n j Hn Hk Hp. destruct (lookup_snoc_cases _ _ _ _ Hn) as [Hn'|[_ ->]]; [|destruct Hp; congruence]. destruct (ho_failures _ S n j Hn' Hk Hp) as [?|(m & jm & Hlt & Hm & Hrest)]; [auto|]. right. exists m, jm. auto.
Qed.

Lemma put_none_holder s i i' h : <[i := None]> (hy_holders s) !! i' = Some (Some h) -> exists i'', hy_holders s !! i'' = Some (Some h).
Proof.
  intros Hi. exists i'. destruct (decide (i = i')) as [<-|Hne]; [|rewrite list_lookup_insert_ne in Hi by assumption; assumption]. destruct (decide (i < length (hy_holders s))%nat) as [Hlt|Hge]; [rewrite list_lookup_insert_eq in Hi by assumption; discriminate | rewrite list_insert_ge in Hi by lia; assumption].
Qed.

(** The region under the admission lock, once the generation has advanced. *)
Lemma accepted_ok s i k c c' op : hybrid_ok s -> hy_cells s !! k = Some c -> kc_generation c' = kc_generation c + 1 -> kc_generation c' <= U64_MAX -> kc_pending c' = kc_pending c + 1 -> op_key op = Some k ->
  match op with OInsert e encoded g => g = kc_generation c' /\ decode encoded = Ok (record_of e g) /\ len encoded <= U64_MAX | _ => True end ->
  let s1 := hy_accept k (hy_set_memory (delete k (hy_memory s)) (hy_set_cells (<[k := c']> (hy_cells s)) (put_holder i None s))) in
  hybrid_ok (hy_set_jobs (hy_jobs s1 ++ [{| cj_id := Some (identify k); cj_op := op; cj_no := hy_accepted s1 k; cj_phase := JQueued |}]) s1).
Proof.
  intros S Hc Hg Hmax Hp Hop Hdata s1. destruct (ho_cells _ S k c Hc) as [Hpc Hgc]. assert (Hno : hy_accepted s1 k = hy_accepted s k + 1) by (cbn; unfold at_key; rewrite bytes_eqb_refl; reflexivity). assert (Hsame : forall k', k' <> k -> hy_accepted s1 k' = hy_accepted s k') by (intros k' Hne; cbn; unfold at_key; destruct (bytes_eqb k' k) eqn:E; [apply bytes_eqb_eq in E; contradiction | reflexivity]).
  apply (append_job_ok s _ (<[k := c']> (hy_cells s)) (hy_closed s) (delete k (hy_memory s)) (<[i := None]> (hy_holders s)) (hy_accepted s1)); [assumption | reflexivity | | | | | |].
  - unfold job_ok. cbn [cj_op cj_id cj_no cj_phase hy_cells hy_accepted hy_current hy_slots]. destruct op as [e encoded g|key removed|close]; [| |discriminate]; injection Hop as ->.
    + destruct Hdata as (-> & Hd & Hl). split; [reflexivity|]. do 2 (split; [assumption|]). split; [reflexivity|]. split; [|exact Logic.I]. intros _. exists c'. split; [apply lookup_insert_eq | lia].
    + split; [reflexivity|]. split; [reflexivity|]. split; [|exact Logic.I]. intros _. rewrite lookup_insert_eq. eauto.
  - intros k' e Hm. apply lookup_delete_Some in Hm as [Hne Hm]. split; [assumption|]. unfold cj_key. cbn [cj_op]. congruence.
  - intros k'. cbn [cj_no]. destruct (decide (k' = k)) as [->|Hne]; [rewrite Hno; split; lia | rewrite Hsame by assumption; split; [lia|]]. unfold cj_key. cbn [cj_op]. congruence.
  - intros k' c0 H0. destruct (decide (k = k')) as [<-|Hne]; [exists c'; split; [apply lookup_insert_eq | assert (c0 = c) as -> by congruence; lia] | exists c0; split; [rewrite lookup_insert_ne by assumption; assumption | rewrite Hsame by congruence; lia]].
  - intros k' c0. unfold pending_of at 2. unfold cj_key. cbn [cj_op]. rewrite Hop. cbn [is_finished cj_phase negb andb]. rewrite andb_true_r. destruct (decide (k = k')) as [<-|Hne]; [rewrite lookup_insert_eq, bytes_eqb_refl; intros [= <-]; lia|]. rewrite lookup_insert_ne by assumption. intros H0. destruct (ho_cells _ S k' c0 H0).
    destruct (bytes_eqb k k') eqn:E; [apply bytes_eqb_eq in E; contradiction | lia].
  - intros i' h Hi. eapply put_none_holder. exact Hi.
Qed.

Lemma pending_unfinished s k : total (pending_of k) (hy_jobs s) <= unfinished_count s.
Proof.
  unfold unfinished_count. induction (hy_jobs s) as [|j l IH]; [reflexivity|]. rewrite total_cons. cbn [List.filter]. unfold pending_of at 1. destruct (is_finished j); cbn [negb]; [destruct (cj_key j); rewrite ?andb_false_r; lia|]. rewrite len_cons. destruct (cj_key j); [destruct (_ && _)|]; lia.
Qed.

Lemma begin_cases (expected : option Z) (c : KeyCell) : kc_pending c + 1 <= U64_MAX ->
  begin_mutation (SE := SE) expected c = Ok (None, c) \/ (exists err, begin_mutation (SE := SE) expected c = Err err) \/
  exists c', begin_mutation (SE := SE) expected c = Ok (Some (kc_generation c'), c') /\ kc_generation c' = kc_generation c + 1 /\ kc_generation c' <= U64_MAX /\ kc_pending c' = kc_pending c + 1.
Proof.
  intros Hp. unfold begin_mutation. destruct (match expected with Some e => negb (e =? kc_generation c) | None => false end); [auto|]. unfold advance, checked_add. destruct (kc_generation c + 1 <=? U64_MAX) eqn:E; cbn [ok_or rbind]; [|eauto]. boolp. unfold add64. cbn [kc_pending]. rewrite (proj2 (Z.leb_le _ _) Hp). cbn [rbind].
  right. right. exists {| kc_generation := kc_generation c + 1; kc_pending := kc_pending c + 1; kc_waiters := kc_waiters c |}. split; [reflexivity|]. auto.
Qed.

(** What a step owes its caller: it returns, the invariant holds afterwards,
    and a hit is the current entry of the key asked for. *)
Definition hit_ok s (q : option (list byte)) (r : Reply (SE := SE)) : Prop := forall e, r = RHit e -> hy_current s (ce_key e) = Some e /\ settled (hy_jobs s) (ce_key e) /\ q = Some (ce_key e).
Definition served s (q : option (list byte)) (m : steps (Reply (SE := SE) * Hybrid)) : Prop := exists r s', m = Ok (r, s') /\ hybrid_ok s' /\ hit_ok s q r.

Lemma served_ok s q r s' : hybrid_ok s' -> (forall e, r <> RHit e) -> served s q (Ok (r, s')).
Proof. intros S Hr. exists r, s'. split; [reflexivity|]. split; [assumption|]. intros e He. destruct (Hr e He). Qed.

Lemma served_hit s e s' : hybrid_ok s' -> hy_current s (ce_key e) = Some e -> settled (hy_jobs s) (ce_key e) -> served s (Some (ce_key e)) (Ok (RHit e, s')).
Proof. intros S Hc Hs. exists (RHit e), s'. split; [reflexivity|]. split; [assumption|]. intros e' [= <-]. auto. Qed.

Lemma memory_hit s k a e : hybrid_ok s -> memory_get k a s = Some e -> ce_key e = k /\ hy_current s k = Some e /\ settled (hy_jobs s) k.
Proof. intros S Hm. unfold memory_get in Hm. destruct (an_kept a); [|discriminate]. destruct (ho_memory _ S k e Hm) as [Hc Hs]. split; [exact (ho_current _ S k e Hc) | auto]. Qed.

Lemma idle_settled s k c : hybrid_ok s -> hy_cells s !! k = Some c -> kc_pending c = 0 -> settled (hy_jobs s) k.
Proof.
  intros S Hc H0 n j Hn Hk. destruct (ho_cells _ S k c Hc) as [Hp _]. pose proof (total_lookup (pending_of k) (hy_jobs s) n j ltac:(intros; apply pending_range) Hn) as Hle. unfold pending_of in Hle at 1. rewrite Hk, bytes_eqb_refl in Hle. destruct (is_finished j) eqn:Ef; cbn in Hle; [|lia]. unfold is_finished, unresolved in *. destruct (cj_phase j); congruence.
Qed.

Ltac quiet := apply served_ok; [|discriminate].

Section Calls.
Context (Hf : format_typed f).

Lemma lookup_ok s k a : hybrid_ok s -> served s (Some k) (lookup k a s).
Proof.
  intros S. unfold lookup. destruct (hy_closed s) eqn:Ec; [quiet; assumption|]. destruct (memory_get k a s) as [e|] eqn:Em; [destruct (memory_hit s k a e S Em) as (<- & Hc & Hs); apply served_hit; assumption|].
  destruct (acquire_key k (an_busy a) s) as [s1|err|] eqn:Ea; [|quiet; assumption|unfold acquire_key in Ea; rewrite Ec in Ea; destruct (an_busy a); discriminate]. destruct (acquire_ok s s1 k _ S Ea) as (S1 & Hcell & _). quiet. apply add_holder_ok; [assumption | split; [exact Hcell | exact Logic.I]].
Qed.

Lemma encode_first (e : CacheEntry) max : envelope_encode (SE := SE) f (record_of e 1) max <> Panic.
Proof. apply envelope_encode_safe; [assumption | unfold is_u64; cbn; lia]. Qed.

Lemma encode_record_cases (e : CacheEntry) a : (exists encoded max, encode_record identify f chunk_max e a = Ok encoded /\ envelope_encode (SE := SE) f (record_of e 1) max = Ok encoded) \/ exists err, encode_record (SE := SE) identify f chunk_max e a = Err err.
Proof.
  unfold encode_record. destruct (envelope_encode f (record_of e 1) _) as [encoded|err|] eqn:Ee; cbn [rbind]; [|eauto | destruct (encode_first e _ Ee)]. destruct (an_full a); cbn; [eauto|]. left. eauto.
Qed.

Lemma insert_with_ok s e a q : hybrid_ok s -> served s q (insert_with identify f chunk_max e a s).
Proof.
  intros S. unfold insert_with. destruct (acquire_key (ce_key e) (an_busy a) s) as [s1|err|] eqn:Ea; cbn [rbind]; [|quiet; assumption|unfold acquire_key in Ea; destruct (hy_closed s), (an_busy a); discriminate]. destruct (acquire_ok s s1 _ _ S Ea) as (S1 & Hcell & _).
  destruct (encode_record_cases e a) as [(encoded & max & -> & Hen)|[err ->]]; cbn [rbind]; quiet; [|assumption]. apply add_holder_ok; [assumption | split; [exact Hcell | exists max; exact Hen]].
Qed.

Lemma invalidate_ok s k a q : hybrid_ok s -> served s q (invalidate k a s).
Proof.
  intros S. unfold invalidate. destruct (acquire_key k (an_busy a) s) as [s1|err|] eqn:Ea; [|quiet; assumption|unfold acquire_key in Ea; destruct (hy_closed s), (an_busy a); discriminate]. destruct (acquire_ok s s1 _ _ S Ea) as (S1 & Hcell & _).
  destruct (an_full a); quiet; [assumption|]. apply add_holder_ok; [assumption | split; [exact Hcell | exact Logic.I]].
Qed.

Lemma populate_with_ok s i k g value properties priority a q : hybrid_ok s -> hy_holders s !! i = Some (Some (HoldToken k g)) -> served s q (populate_with identify f chunk_max i k g value properties priority a s).
Proof.
  intros S Hi. destruct (ho_holders _ S _ _ Hi) as [[c Hc] _]. cbn [holder_key] in Hc. unfold populate_with. rewrite Hc. cbn [expect rbind]. destruct (hy_closed s || _); [quiet; apply drop_holder_ok; assumption|].
  destruct (encode_record_cases {| ce_key := k; ce_value := value; ce_properties := properties; ce_priority := priority |} a) as [(encoded & max & -> & Hen)|[err ->]]; quiet; [|apply drop_holder_ok; assumption]. apply put_holder_ok; [assumption|]. intros h [= <-]. split; [cbn; eauto | exists max; exact Hen].
Qed.

Lemma accept_ok s i h a q : hybrid_ok s -> hy_holders s !! i = Some (Some h) -> match h with HoldInsert _ _ _ | HoldInvalidate _ => True | _ => False end -> unfinished_count s < U64_MAX -> served s q (accept identify i h a s).
Proof.
  intros S Hi Hh Hroom. destruct (ho_holders _ S _ _ Hi) as [[c Hc] Hdata].
  destruct (ho_cells _ S _ _ Hc) as [Hp Hgc]. assert (Hpc : kc_pending c + 1 <= U64_MAX) by (pose proof (pending_unfinished s (holder_key h)); lia). destruct h as [|e encoded expected|key|]; try contradiction; cbn [holder_key accept] in *.
  - unfold accept_insert. destruct (hy_closed s); [quiet; apply drop_holder_ok; assumption|]. rewrite Hc. cbn [expect rbind]. destruct (begin_cases expected c Hpc) as [->|[[err ->]|(c' & -> & Hg & Hmax & Hp')]]; [quiet; apply drop_holder_ok; assumption | quiet; apply drop_holder_ok; assumption|].
    destruct Hdata as [max He]. destruct (encode_inv _ _ _ _ He) as (Hk & Hpr & Hm & Hl). rewrite (encode_writes f (record_of e 1)) in He by (assumption || split; (assumption || (unfold is_u64; cbn; lia))). injection He as <-. rewrite (set_generation_bytes f _ _ Hf). quiet.
    apply (accepted_ok s i (ce_key e) c c' (OInsert e _ _)); try assumption; try reflexivity. change (with_generation (record_of e 1) (kc_generation c')) with (record_of e (kc_generation c')). split; [reflexivity|]. split; [apply decode_bytes; [assumption | split; [unfold is_u64; cbn; unfold U64_MAX in *; lia | assumption | assumption | assumption]]|]. rewrite len_envelope_bytes by assumption. exact Hl.
  - unfold accept_invalidate. destruct (hy_closed s); [quiet; apply drop_holder_ok; assumption|]. rewrite Hc. cbn [expect rbind]. destruct (begin_cases None c Hpc) as [Hb|[[err ->]|(c' & -> & Hg & Hmax & Hp')]]; [exfalso; unfold begin_mutation, advance in Hb; destruct (checked_add _ _); [|discriminate]; cbn in Hb; destruct (add64 _ _); discriminate | quiet; apply drop_holder_ok; assumption|].
    quiet. apply (accepted_ok s i key c c' (OInvalidate key _)); try assumption; try reflexivity; exact Logic.I.
Qed.

Lemma fence_call_ok s close a q : hybrid_ok s -> served s q (Ok (fence close a s)).
Proof.
  intros S. unfold fence. destruct (negb close && an_full a); [quiet; assumption|]. destruct (hy_closed s) eqn:Ec; [quiet; assumption|]. quiet. set (j0 := {| cj_id := None |}). assert (Hgo : forall closed, hybrid_ok {| hy_cells := hy_cells s; hy_closed := closed; hy_memory := hy_memory s; hy_slots := hy_slots s; hy_active := hy_active s; hy_written := hy_written s; hy_failures := hy_failures s; hy_holders := hy_holders s; hy_jobs := hy_jobs s ++ [j0]; hy_current := hy_current s; hy_accepted := hy_accepted s |}).
  { intros closed. apply append_job_ok; [assumption | reflexivity | split; [reflexivity | exact Logic.I] | | | | |].
    - intros k e Hm. split; [assumption | discriminate].
    - intros k. split; [lia | discriminate].
    - intros k c Hc. exists c. split; [assumption | lia].
    - intros k c Hc. change (pending_of k j0) with 0. destruct (ho_cells _ S k c Hc). split; [lia | assumption].
    - intros i h Hi. eauto. }
  destruct close; [exact (Hgo true) | exact (Hgo (hy_closed s))].
Qed.

Lemma lookup_turn_ok s i k p a : hybrid_ok s -> hy_holders s !! i = Some (Some (HoldLookup k p)) -> reads_fit (identify k) a s -> served s (Some k) (lookup_turn identify f i k p a s).
Proof.
  intros S Hi Hread. destruct (ho_holders _ S _ _ Hi) as [[c Hc] Hdata]. cbn [holder_key] in Hc. unfold lookup_turn. rewrite Hc. cbn [expect rbind].
  assert (Hnext : forall p', match p' with LPromote _ _ _ => False | _ => True end -> served s (Some k) (Ok (RNone, put_holder i (Some (HoldLookup k p')) s))) by (intros p' Hp'; quiet; apply put_holder_ok; [assumption|]; intros h [= <-]; split; [cbn; eauto | destruct p'; contradiction || exact Logic.I]).
  assert (Hleave : forall r, (forall e, r <> RHit e) -> served s (Some k) (Ok (r, drop_holder i k s))) by (intros r Hr; apply served_ok; [apply drop_holder_ok; assumption | assumption]).
  destruct p as [|g|g|g|g|g lsn r|g].
  - destruct (kc_pending c =? 0); apply Hnext; exact Logic.I.
  - destruct (hy_closed s); [apply Hleave; discriminate | apply Hnext; exact Logic.I].
  - destruct (memory_get k a s) as [e|] eqn:Em; [|apply Hnext; exact Logic.I]. destruct (memory_hit s k a e S Em) as (<- & Hcu & Hs). apply served_hit; [apply drop_holder_ok; assumption | assumption | assumption].
  - destruct (version_of (identify k) s); apply Hnext; exact Logic.I.
  - unfold reads_fit in Hread. destruct (an_read a) as [[[lsn bytes]|]|err|]; [|apply Hnext; exact Logic.I | apply Hleave; discriminate | contradiction].
    pose proof (envelope_decode_safe (SE := SE) f bytes (ho_written _ S _ _ Hread)) as Hsafe. destruct (decode bytes) as [r|err|] eqn:Ed; [|apply Hleave; discriminate | destruct Hsafe; reflexivity]. destruct (ev_generation r =? 0); [apply Hleave; discriminate|]. destruct (bytes_eqb (ev_key r) k) eqn:Ek; [|apply Hnext; exact Logic.I].
    quiet. apply put_holder_ok; [assumption|]. intros h [= <-]. split; [cbn; eauto|]. exists bytes. apply bytes_eqb_eq in Ek. auto.
  - destruct ((kc_generation c =? g) && (kc_pending c =? 0) && negb (hy_closed s) && vouches (identify k) lsn s) eqn:E; [|apply Hnext; exact Logic.I]. apply andb_prop in E as [E Hv]. apply andb_prop in E as [E _]. apply andb_prop in E as [_ Hpe]. apply Z.eqb_eq in Hpe. apply andb_prop in Hv as [_ Hv]. apply bool_decide_eq_true in Hv.
    pose proof (idle_settled s k c S Hc Hpe) as Hs. destruct Hdata as (bytes & Hb & Hd & Hk). destruct (ho_disk _ S _ _ Hv) as (b & Hb' & Hrec). rewrite Hb in Hb'. injection Hb' as <-. assert (Hcu : hy_current s k = Some (entry_of r)) by (rewrite <- Hk; apply Hrec; [assumption | congruence]).
    rewrite <- Hk in *. apply (served_hit s (entry_of r)); [|exact Hcu | exact Hs]. apply drop_holder_ok. destruct (an_retained a); [|assumption]. apply memory_ok; [assumption|]. intros k' e. destruct (decide (ev_key r = k')) as [<-|Hne]; [rewrite lookup_insert_eq; intros [= <-]; auto | rewrite lookup_insert_ne by assumption; apply (ho_memory _ S)].
  - destruct (_ && _); [|apply Hnext; exact Logic.I]. quiet. apply put_holder_ok; [assumption|]. intros h [= <-]. split; [cbn; eauto | exact Logic.I].
Qed.

Lemma evict_ok s id : hybrid_ok s -> hybrid_ok (hy_set_disk (delete id (hy_slots s)) (hy_active s) (hy_written s) s).
Proof.
  intros S. pose proof S as [S1 S2 S3 S4 S5 S6 S7 S8 S9 S10 S11]. constructor; try assumption.
  - intros id' lsn Hs. cbn in Hs. apply lookup_delete_Some in Hs as [_ Hs]. apply S3. exact Hs.
  - intros n j Hn. eapply job_ok_frame; [exact (S5 n j Hn) | reflexivity | auto |]. right; right. intros id' k _ _. split; [reflexivity|]. cbn. destruct (decide (id = id')) as [->|Hne]; [right; apply lookup_delete_eq | left; apply lookup_delete_ne; assumption].
Qed.

Lemma stray_ok s id lsn bytes : hybrid_ok s -> hy_written s !! (id, lsn) = None -> len bytes <= U64_MAX -> hybrid_ok (hy_set_disk (hy_slots s) (hy_active s) (<[(id, lsn) := bytes]> (hy_written s)) s).
Proof.
  intros S Hnew Hlen. pose proof S as [S1 S2 S3 S4 S5 S6 S7 S8 S9 S10 S11]. assert (Hkeep : forall x b, hy_written s !! x = Some b -> <[(id, lsn) := bytes]> (hy_written s) !! x = Some b) by (intros x b Hb; rewrite lookup_insert_ne; [assumption | congruence]). constructor; try assumption.
  - intros id' lsn' Hs. destruct (S3 id' lsn' Hs) as (b & Hb & Hr). exists b. auto.
  - intros x b. cbn. destruct (decide ((id, lsn) = x)) as [<-|Hne]; [rewrite lookup_insert_eq; intros [= <-]; assumption | rewrite lookup_insert_ne by assumption; apply S4].
  - intros i h Hi. eapply holder_ok_frame; [exact (S10 i h Hi) | apply (S10 i h Hi) | exact Hkeep].
Qed.

Lemma step_served s (e : CacheEvent (SE := SE)) : hybrid_ok s -> cache_fits s e -> served s (asked s e) (cache_step s e).
Proof.
  intros S Hfit. destruct e as [key a|key a|i a|e a|key a|i value properties priority a|i a|i|close a|n a|id|key| |id lsn bytes]; cbn [Hybrid.cache_step asked] in *.
  - unfold get_memory. destruct (hy_closed s); [quiet; assumption|]. destruct (memory_get key a s) as [e|] eqn:Em; [destruct (memory_hit s key a e S Em) as (<- & Hc & Hs); apply served_hit; assumption | quiet; assumption].
  - apply lookup_ok. assumption.
  - destruct Hfit as (key & p & Hi & Hr). unfold holder. rewrite Hi. cbn [expect rbind holder_key]. apply lookup_turn_ok; assumption.
  - apply insert_with_ok. assumption.
  - apply invalidate_ok. assumption.
  - destruct Hfit as (key & g & Hi). unfold holder. rewrite Hi. cbn [expect rbind]. apply populate_with_ok; assumption.
  - destruct Hfit as (Hroom & h & Hi & Hh). unfold holder. rewrite Hi. cbn [expect rbind]. apply accept_ok; assumption.
  - destruct Hfit as (h & Hi). unfold holder. rewrite Hi. cbn [expect rbind]. quiet. apply drop_holder_ok. assumption.
  - apply fence_call_ok. assumption.
  - destruct (job_turn_ok s n a S Hfit) as (r & s' & Hs & S' & Hr). cbn [Hybrid.cache_step] in Hs. rewrite Hs. apply served_ok; assumption.
  - quiet. apply evict_ok. assumption.
  - quiet. apply memory_ok; [assumption|]. intros k e Hm. apply lookup_delete_Some in Hm as [_ Hm]. apply (ho_memory _ S). exact Hm.
  - quiet. apply memory_ok; [assumption|]. intros k e Hm. rewrite lookup_empty in Hm. discriminate.
  - destruct Hfit as [Hnew Hlen]. quiet. apply stray_ok; assumption.
Qed.

Lemma start_ok slots written : disk_fits slots written -> hybrid_ok (cache_start (SE := SE) identify f slots written).
Proof.
  intros [Hs Hw]. constructor; cbn; try (intros; rewrite ?lookup_empty in *; discriminate).
  - intros k e. unfold disk_entry. destruct (slots !! identify k) as [lsn|]; [|discriminate]. destruct (written !! (identify k, lsn)) as [bytes|]; [|discriminate]. destruct (decode bytes) as [r| |]; try discriminate. destruct (bytes_eqb (ev_key r) k) eqn:E; [|discriminate]. intros [= <-]. apply bytes_eqb_eq. exact E.
  - intros id lsn Hl. destruct (Hs id lsn Hl) as [bytes Hb]. exists bytes. split; [assumption|]. intros r Hd <-. unfold disk_entry. rewrite Hl, Hb, Hd, bytes_eqb_refl. reflexivity.
  - exact Hw.
Qed.

Lemma run_ok s es s' : hybrid_ok s -> cache_run (SE := SE) identify f chunk_max s es s' -> hybrid_ok s'.
Proof. intros S R. induction R as [|s e es r s1 s2 Hfit Hstep R IH]; [assumption|]. apply IH. destruct (step_served s e S Hfit) as (r' & s'' & Hs & S' & _). congruence. Qed.
End Calls.

(** ** The contract *)

Section Outcomes.
Implicit Types (l : list CacheJob).

Lemma last_snoc k b l j : outcome j = None -> last_outcome k b (l ++ [j]) = last_outcome k b l.
Proof. intros Hj. unfold last_outcome. rewrite fold_left_app. cbn. unfold then_outcome at 1. rewrite Hj. reflexivity. Qed.

Lemma last_frame k b l n j j' : l !! n = Some j -> (forall b, then_outcome k b j' = then_outcome k b j) -> last_outcome k b (<[n := j']> l) = last_outcome k b l.
Proof.
  intros Hn He. revert b n Hn. unfold last_outcome. induction l as [|x l IH]; intros b n Hn; [discriminate|]. destruct n as [|n]; [injection Hn as ->; cbn; rewrite He; reflexivity|]. cbn in *. apply IH. exact Hn.
Qed.

Lemma last_none k b l : (forall j, j ∈ l -> cj_key j = Some k -> outcome j = None) -> last_outcome k b l = b.
Proof.
  intros Hl. revert b. unfold last_outcome. induction l as [|x l IH]; intros b; [reflexivity|]. cbn. assert (Hx : then_outcome k b x = b).
  { unfold then_outcome. destruct (outcome x) as [[k' o]|] eqn:Ho; [|reflexivity]. destruct (bytes_eqb k' k) eqn:E; [|reflexivity]. apply bytes_eqb_eq in E. subst k'. rewrite (Hl x) in Ho; [discriminate | constructor|]. unfold outcome in Ho. unfold cj_key, op_key. destruct (cj_phase x) as [| | | | | |[]|[]]; try discriminate; destruct (cj_op x); congruence. }
  rewrite Hx. apply IH. intros j Hj. apply Hl. constructor. exact Hj.
Qed.

(** The mutation decided last decides, when nothing after it has been. *)
Lemma last_decided k b l n j j' o : l !! n = Some j -> outcome j' = Some (k, o) -> (forall m jm, (n < m)%nat -> l !! m = Some jm -> cj_key jm = Some k -> outcome jm = None) -> last_outcome k b (<[n := j']> l) = o.
Proof.
  intros Hn Ho Hlater. revert b n Hn Hlater. induction l as [|x l IH]; intros b n Hn Hlater; [discriminate|]. destruct n as [|n].
  - change (last_outcome k (then_outcome k b j') l = o). unfold then_outcome. rewrite Ho, bytes_eqb_refl. apply last_none. intros jm Hin. apply list_elem_of_lookup in Hin as [m Hm]. apply (Hlater (S m)); [lia | exact Hm].
  - change (last_outcome k (then_outcome k b x) (<[n := j']> l) = o). apply IH; [exact Hn|]. intros m jm Hlt Hm. apply (Hlater (S m)); [lia | exact Hm].
Qed.
End Outcomes.

(** [hy_current] is what the jobs say. *)
Definition tracks (start : list byte -> option CacheEntry) s : Prop := forall k, hy_current s k = last_outcome k (start k) (hy_jobs s).

Lemma release_view k s : hy_jobs (release_key k s) = hy_jobs s /\ hy_current (release_key k s) = hy_current s.
Proof. unfold release_key. destruct (holds_key k s); auto. Qed.

Lemma drop_view i k s : hy_jobs (drop_holder i k s) = hy_jobs s /\ hy_current (drop_holder i k s) = hy_current s.
Proof. apply (release_view k (put_holder i None s)). Qed.

(** A job moves without deciding anything, or decides its mutation. *)
Definition moves s s' n j : Prop := exists p, hy_jobs s' = <[n := cj_set p j]> (hy_jobs s) /\
  (outcome (cj_set p j) = outcome j /\ hy_current s' = hy_current s \/ exists k o, outcome j = None /\ outcome (cj_set p j) = Some (k, o) /\ hy_current s' = at_key k o (hy_current s)).

Lemma quiet_move s s' n j p : hy_jobs s' = <[n := cj_set p j]> (hy_jobs s) -> outcome (cj_set p j) = outcome j -> hy_current s' = hy_current s -> moves s s' n j.
Proof. intros. exists p. auto. Qed.

Ltac pick := match goal with H : match ?x with _ => _ end = Ok _ |- _ => destruct x eqn:?; try discriminate H | H : (if ?b then _ else _) = Ok _ |- _ => destruct b; try discriminate H | H : rbind (expect ?x) _ = Ok _ |- _ => destruct x; cbn [expect rbind] in H; try discriminate H end.
Ltac undecided := unfold outcome; cbn [cj_set cj_phase cj_op]; repeat match goal with H : cj_phase _ = _ |- _ => rewrite H | H : cj_op _ = _ |- _ => rewrite H end; reflexivity.
Ltac moved := match goal with H : Ok _ = Ok _ |- _ => injection H as <- <- end; first [eapply quiet_move; [reflexivity | undecided | reflexivity] | eexists; split; [reflexivity|]; right; eexists _, _; split; [undecided|]; split; [undecided | reflexivity]].

Lemma insert_turn_moves s n j id e encoded g a r s' : cj_op j = OInsert e encoded g -> insert_turn n j id e encoded g a s = Ok (r, s') -> moves s s' n j.
Proof. intros Hop Ht. unfold insert_turn in Ht. repeat pick; try moved; injection Ht as <- <-; repeat case_match; (eapply quiet_move; [reflexivity | undecided | reflexivity]). Qed.

Lemma invalidate_turn_moves s n j id k removed a r s' : cj_op j = OInvalidate k removed -> invalidate_turn f n j id k a s = Ok (r, s') -> moves s s' n j.
Proof. intros Hop Ht. unfold invalidate_turn in Ht. repeat pick; try moved. all: injection Ht as <- <-; unfold remove_slot; case_bool_decide; (eexists; split; [reflexivity|]; right; eexists _, _; split; [undecided|]; split; [undecided | reflexivity]). Qed.

Lemma end_job_moves s n j k r s' : end_job n j k s = Ok (r, s') -> moves s s' n j.
Proof.
  intros Ht. unfold end_job in Ht. repeat pick; try moved. injection Ht as <- <-. match goal with |- moves _ (release_key ?k ?x) _ _ => destruct (release_view k x) as [Hj Hc] end. eapply quiet_move; [rewrite Hj; reflexivity | undecided | rewrite Hc; reflexivity].
Qed.

Lemma job_turn_moves s n j a r s' : job_turn f n j a s = Ok (r, s') -> moves s s' n j.
Proof.
  intros Ht. unfold job_turn in Ht. destruct (cj_op j) as [e encoded g|key removed|close] eqn:Hop.
  - destruct (cj_id j) as [id|]; [|discriminate]. assert (Hin : insert_turn n j id e encoded g a s = Ok (r, s') \/ end_job n j (ce_key e) s = Ok (r, s')) by (destruct (cj_phase j); auto). destruct Hin as [Hin|Hin]; [eapply insert_turn_moves | eapply end_job_moves]; eassumption.
  - destruct (cj_id j) as [id|]; [|discriminate]. assert (Hin : invalidate_turn f n j id key a s = Ok (r, s') \/ end_job n j key s = Ok (r, s')) by (destruct (cj_phase j); auto). destruct Hin as [Hin|Hin]; [eapply invalidate_turn_moves | eapply end_job_moves]; eassumption.
  - unfold fence_turn in Ht. destruct (cj_phase j) eqn:Ep; try discriminate. destruct (an_fence a); try discriminate; injection Ht as <- <-; (eapply quiet_move; [destruct close; reflexivity | unfold outcome; cbn [cj_set cj_phase cj_op]; rewrite Hop, Ep; destruct (match hy_failures _ with Some _ => _ | None => _ end); reflexivity | destruct close; reflexivity]).
Qed.

Lemma outcome_key j k o : outcome j = Some (k, o) -> cj_key j = Some k.
Proof. unfold outcome, cj_key, op_key. destruct (cj_phase j) as [| | | | | |[]|[]]; try discriminate; destruct (cj_op j); congruence. Qed.

Lemma job_id_key s n j k : hybrid_ok s -> hy_jobs s !! n = Some j -> cj_key j = Some k -> cj_id j = Some (identify k).
Proof. intros S Hn Hk. pose proof (ho_jobs _ S n j Hn) as Hok. unfold job_ok in Hok. unfold cj_key, op_key in Hk. destruct (cj_op j); try discriminate; injection Hk as <-; apply Hok. Qed.

Lemma moves_tracks start s s' n j : hybrid_ok s -> hy_jobs s !! n = Some j -> is_finished j = false -> moves s s' n j -> tracks start s -> tracks start s'.
Proof.
  intros S Hn Hfin (p & Hj & Hmove) Htr k'. rewrite Hj. destruct Hmove as [[Ho ->]|(k & o & Hno & Ho & ->)].
  - rewrite (last_frame _ _ _ _ j) by (assumption || (intros b; unfold then_outcome; rewrite Ho; reflexivity)). apply Htr.
  - unfold at_key. destruct (bytes_eqb k' k) eqn:E.
    + apply bytes_eqb_eq in E. subst k'. symmetry. eapply last_decided; [exact Hn | exact Ho|]. intros m jm Hlt Hm Hk. pose proof (outcome_key _ _ _ Ho) as Hkj. change (cj_key (cj_set p j)) with (cj_key j) in Hkj.
      destruct (cj_phase jm) eqn:Ep; [unfold outcome; rewrite Ep; reflexivity | | | | | | |]; (exfalso; assert (Hbad : is_finished j = true) by (eapply (ho_order _ S n m); [exact Hlt | exact Hn | exact Hm | right; right; rewrite (job_id_key s n j k S Hn Hkj), (job_id_key s m jm k S Hm Hk); reflexivity | congruence]); congruence).
    + rewrite (last_frame _ _ _ _ j); [apply Htr | exact Hn|]. intros b. unfold then_outcome. rewrite Ho, Hno. destruct (bytes_eqb k k') eqn:E'; [|reflexivity]. apply bytes_eqb_eq in E'. subst k'. rewrite bytes_eqb_refl in E. discriminate.
Qed.

(** A call changes no outcome. *)
Definition unmoved s s' : Prop := hy_current s' = hy_current s /\ (hy_jobs s' = hy_jobs s \/ exists j0, outcome j0 = None /\ hy_jobs s' = hy_jobs s ++ [j0]).

Lemma drop_unmoved i k s s1 : hy_jobs s1 = hy_jobs s -> hy_current s1 = hy_current s -> unmoved s (drop_holder i k s1).
Proof. intros Hj Hc. destruct (drop_view i k s1) as [H1 H2]. split; [congruence | left; congruence]. Qed.

Lemma acquire_unmoved k busy s s1 : acquire_key k busy s = Ok s1 -> hy_jobs s1 = hy_jobs s /\ hy_current s1 = hy_current s.
Proof. intros Ha. unfold acquire_key in Ha. inv_ok. subst s1. auto. Qed.

Ltac still := match goal with H : Ok _ = Ok _ |- _ => injection H as <- <- end;
  repeat match goal with H : acquire_key _ _ _ = Ok _ |- _ => apply acquire_unmoved in H as [? ?] end;
  first [apply drop_unmoved; reflexivity | split; [reflexivity | left; reflexivity] | split; [assumption | left; assumption] | split; [reflexivity | right; eexists; split; [|reflexivity]; reflexivity]].

Lemma lookup_turn_unmoved i k p a s r s' : lookup_turn identify f i k p a s = Ok (r, s') -> unmoved s s'.
Proof. intros Ht. unfold lookup_turn in Ht. repeat pick; try still. all: injection Ht as <- <-; apply drop_unmoved; repeat case_match; reflexivity. Qed.

Lemma accept_unmoved i h a s r s' : accept identify i h a s = Ok (r, s') -> unmoved s s'.
Proof. intros Ht. destruct h; try discriminate; cbn [accept] in Ht; unfold accept_insert, accept_invalidate in Ht; repeat pick; still. Qed.

Lemma insert_with_unmoved e a s r s' : insert_with identify f chunk_max e a s = Ok (r, s') -> unmoved s s'.
Proof. intros Ht. unfold insert_with in Ht. destruct (acquire_key _ _ s) as [s1| |] eqn:Ea; cbn [rbind] in Ht; [|still|discriminate]. destruct (encode_record _ _ _ _ _); cbn [rbind] in Ht; [still|still|discriminate]. Qed.

Lemma call_unmoved s (e : CacheEvent (SE := SE)) r s' : (forall n a, e <> CJob n a) -> cache_step s e = Ok (r, s') -> unmoved s s'.
Proof.
  intros Hno Hs. destruct e as [key a|key a|i a|e a|key a|i value properties priority a|i a|i|close a|n a|id|key| |id lsn bytes]; cbn [Hybrid.cache_step] in Hs; unfold holder in Hs; repeat match type of Hs with context [hy_holders s !! ?i] => destruct (hy_holders s !! i) as [[h|]|]; cbn [expect rbind] in Hs; try discriminate Hs end; try still.
  - unfold lookup in Hs. repeat pick; still.
  - destruct h; try discriminate. eapply lookup_turn_unmoved. exact Hs.
  - eapply insert_with_unmoved. exact Hs.
  - unfold invalidate in Hs. repeat pick; still.
  - destruct h; try discriminate. unfold populate_with in Hs. repeat pick; still.
  - eapply accept_unmoved. exact Hs.
  - unfold fence in Hs. destruct (negb close && an_full a), (hy_closed s); try still. destruct close; still.
  - destruct (Hno n a). reflexivity.
Qed.

Lemma step_tracks start s (e : CacheEvent (SE := SE)) r s' : hybrid_ok s -> cache_fits s e -> cache_step s e = Ok (r, s') -> tracks start s -> tracks start s'.
Proof.
  intros S Hfit Hs Htr. assert (Hcase : (exists n a, e = CJob n a) \/ forall n a, e <> CJob n a) by (destruct e; solve [right; discriminate | left; eauto]). destruct Hcase as [(n & a & ->)|Hno].
  - destruct Hfit as (j & Hn & Hfin & _). cbn [Hybrid.cache_step] in Hs. rewrite Hn in Hs. cbn [expect rbind] in Hs. eapply moves_tracks; [exact S | exact Hn | exact Hfin | eapply job_turn_moves; exact Hs | exact Htr].
  - destruct (call_unmoved s e r s' Hno Hs) as [Hc Hj]. intros k. rewrite Hc. destruct Hj as [->|(j0 & Ho & ->)]; [apply Htr | rewrite last_snoc by exact Ho; apply Htr].
Qed.

Lemma run_tracks (Hf : format_typed f) start s es s' : hybrid_ok s -> tracks start s -> cache_run (SE := SE) identify f chunk_max s es s' -> hybrid_ok s' /\ tracks start s'.
Proof.
  intros S Htr R. induction R as [|s e es r s1 s2 Hfit Hstep R IH]; [auto|]. destruct (step_served Hf s e S Hfit) as (r' & s'' & Hs & S' & _). assert (s1 = s'') as -> by congruence. apply IH; [assumption|]. exact (step_tracks start s e r' s'' S Hfit Hs Htr).
Qed.

Lemma start_tracks slots written : tracks (disk_entry (SE := SE) identify f slots written) (cache_start identify f slots written).
Proof. intros k. reflexivity. Qed.
End Hybrids.

(** ** The theorems *)

Section Guarantees.
Context {SE : Type} (identify : list byte -> ChunkId) (f : EnvelopeFormat) (chunk_max : ChunkId -> Z).
Context (slots : gmap ChunkId Z) (written : gmap (ChunkId * Z) (list byte)) (es : list (CacheEvent (SE := SE))) (s : Hybrid (SE := SE)).
Context (Hf : format_typed f) (Hdisk : disk_fits slots written) (Hrun : cache_run identify f chunk_max (cache_start identify f slots written) es s).

Lemma reached : hybrid_ok identify f s /\ tracks (disk_entry (SE := SE) identify f slots written) s.
Proof using Hf Hdisk Hrun. exact (run_tracks identify f chunk_max Hf _ _ es s (start_ok identify f slots written Hdisk) (start_tracks identify f slots written) Hrun). Qed.

(** C4: Whatever calls, jobs, evictions, failures and lost writes came before, an entry that [get_memory] or [lookup] returns is under the key asked for, and it is what the last mutation of that key to succeed left, in the order the mutations were accepted, or what the disk held at the start when none has; and no accepted mutation of the key is still undecided. *)
Theorem hits_are_current e x s' : cache_fits identify s e -> cache_step identify f chunk_max s e = Ok (RHit x, s') ->
  asked s e = Some (ce_key x) /\ last_outcome (ce_key x) (disk_entry (SE := SE) identify f slots written (ce_key x)) (hy_jobs s) = Some x /\
  forall n j, hy_jobs s !! n = Some j -> cj_key j = Some (ce_key x) -> unresolved j = false.
Proof using Hf Hdisk Hrun.
  intros Hfit Hstep. destruct reached as [S Htr]. destruct (step_served identify f chunk_max Hf s e S Hfit) as (r & s1 & Hs & _ & Hhit). rewrite Hstep in Hs. injection Hs as <- <-.
  destruct (Hhit x eq_refl) as (Hc & Hse & Ha). split; [assumption|]. split; [rewrite <- Htr; assumption | exact Hse].
Qed.

(** C12: No call, job or future of the cache panics: every step that the registry, the scheduler and the store allow returns, whatever bytes the store reads back. *)
Theorem hybrid_never_panics e : cache_fits identify s e -> exists r s', cache_step identify f chunk_max s e = Ok (r, s').
Proof using Hf Hdisk Hrun. intros Hfit. destruct reached as [S _]. destruct (step_served identify f chunk_max Hf s e S Hfit) as (r & s' & Hs & _). eauto. Qed.

(** C13: When [flush] or [close] reports success, every mutation and fence accepted before it has finished, and each of those mutations that failed was reported by a fence in between. *)
Theorem fence_reports_failures n a j close s' : cache_fits identify s (CJob n a) -> hy_jobs s !! n = Some j -> cj_op j = OFence close -> cache_step identify f chunk_max s (CJob n a) = Ok (RDone true, s') ->
  forall i ji, (i < n)%nat -> hy_jobs s !! i = Some ji -> is_finished ji = true /\ (cj_key ji <> None -> cj_phase ji = JFinished false -> exists m jm, (i < m < n)%nat /\ hy_jobs s !! m = Some jm /\ cj_key jm = None /\ cj_phase jm = JFinished false).
Proof using Hf Hdisk Hrun.
  intros (j' & Hn' & Hfin & Hrunj & _ & _ & Hfen) Hn Hop Hstep i ji Hlt Hi. destruct reached as [S _]. rewrite Hn in Hn'. injection Hn' as <-. pose proof (ho_jobs _ _ _ S n j Hn) as Hok. unfold job_ok in Hok. rewrite Hop in Hok. destruct Hok as [Hid Hph].
  assert (Hq : cj_phase j = JQueued) by (unfold is_finished in Hfin; destruct (cj_phase j); try contradiction; [reflexivity | discriminate]).
  cbn [Hybrid.cache_step] in Hstep. rewrite Hn in Hstep. cbn [expect rbind] in Hstep. unfold job_turn in Hstep. rewrite Hop in Hstep. destruct (fence_turn_ok identify f s n j close a S Hn Hop Hfin Hrunj Hfen) as (ok & s1 & Hs & _ & Hnone). rewrite Hs in Hstep. injection Hstep as -> ->.
  split; [apply (Hrunj Hq i ji Hlt Hi); right; left; exact Hid|]. intros Hk Hp. apply (failure_between identify f s n j i ji S Hn Hid Hfin (Hnone eq_refl) Hi Hk (or_intror Hp)).
Qed.
End Guarantees.

(** ** A run: an insertion, its job and a flush *)

Definition demo_entry : CacheEntry := {| ce_key := [Byte.x6b]; ce_value := [Byte.x76]; ce_properties := []; ce_priority := PNormal |}.
Definition demo_answer (put : res unit Z) : Answer (SE := unit) :=
  {| an_kept := true; an_retained := true; an_busy := false; an_full := false; an_begin := None; an_read := Ok None; an_put := put; an_delete := Ok Missing; an_fence := Ok tt |}.
Definition demo_max (id : ChunkId) : Z := 128.
Definition demo_id (key : list byte) : ChunkId := key.
Definition demo_events : list (CacheEvent (SE := unit)) :=
  let a := demo_answer (Ok 7) in let b := demo_answer (Err tt) in
  [CInsert demo_entry a; CAccept 0 a; CJob 0 a; CJob 0 a; CJob 0 b; CJob 0 b; CFence false a].
Definition demo_next (s : Hybrid (SE := unit)) (e : CacheEvent (SE := unit)) : Hybrid := match cache_step demo_id test_format demo_max s e with Ok (_, s') => s' | _ => s end.
Definition demo_state (es : list (CacheEvent (SE := unit))) : Hybrid := fold_left demo_next es (cache_start demo_id test_format ∅ ∅).

Lemma demo_disk : disk_fits ∅ ∅.
Proof. split; intros; rewrite lookup_empty in *; discriminate. Qed.

Lemma demo_run_from (s : Hybrid (SE := unit)) es : hybrid_ok demo_id test_format s -> (forall a e b, es = a ++ e :: b -> cache_fits demo_id (fold_left demo_next a s) e) -> cache_run demo_id test_format demo_max s es (fold_left demo_next es s).
Proof.
  revert s. induction es as [|e es IH]; intros s S Hfits; [constructor|]. destruct (step_served demo_id test_format demo_max test_format_typed s e S (Hfits [] e es eq_refl)) as (r & s' & Hs & S' & _).
  assert (Hn : demo_next s e = s') by (unfold demo_next; rewrite Hs; reflexivity). cbn [fold_left]. rewrite Hn. eapply cache_run_cons; [exact (Hfits [] e es eq_refl) | exact Hs|]. apply IH; [assumption|]. intros a x b ->. rewrite <- Hn. apply (Hfits (e :: a) x b). reflexivity.
Qed.

(** The job of the insertion may take its next turn. *)
Lemma demo_job_fits s j put : hy_jobs s !! 0%nat = Some j -> is_finished j = false -> cj_id j = Some (ce_key demo_entry) -> puts_fit (ce_key demo_entry) (demo_answer put) s -> cache_fits demo_id s (CJob 0 (demo_answer put)).
Proof. intros Hj Hfin Hid Hp. exists j. split; [assumption|]. split; [assumption|]. split; [intros _ i j' Hi; lia|]. split; [|split; discriminate]. intros id Hi. rewrite Hid in Hi. injection Hi as <-. split; [exact Logic.I | exact Hp]. Qed.

Lemma hybrid_demo_run : cache_run demo_id test_format demo_max (cache_start demo_id test_format ∅ ∅) demo_events (demo_state demo_events).
Proof.
  apply demo_run_from; [apply start_ok; exact demo_disk|]. intros a e b Heq. unfold demo_events in Heq.
  repeat (destruct a as [|? a]; [injection Heq as <- _ | injection Heq as <- Heq]); [exact Logic.I | | | | | | exact Logic.I | destruct a; discriminate].
  - split; [reflexivity|]. eexists. split; [vm_compute; reflexivity | exact Logic.I].
  - eapply demo_job_fits; vm_compute; reflexivity.
  - eapply demo_job_fits; vm_compute; reflexivity.
  - eapply demo_job_fits; vm_compute; reflexivity || exact Logic.I.
  - eapply demo_job_fits; vm_compute; reflexivity || exact Logic.I.
Qed.

Lemma hits_are_current_witness : asked (demo_state demo_events) (CGet (ce_key demo_entry) (demo_answer (Ok 9))) = Some (ce_key demo_entry) /\ last_outcome (ce_key demo_entry) None (hy_jobs (demo_state demo_events)) = Some demo_entry.
Proof.
  destruct (hits_are_current demo_id test_format demo_max ∅ ∅ demo_events (demo_state demo_events) test_format_typed demo_disk hybrid_demo_run (CGet (ce_key demo_entry) (demo_answer (Ok 9))) demo_entry (demo_state demo_events) Logic.I) as (H1 & H2 & _); [vm_compute; reflexivity|]. split; [exact H1 | exact H2].
Defined.

Lemma hybrid_never_panics_witness : exists r s', cache_step demo_id test_format demo_max (demo_state demo_events) (CLookup [Byte.x6c] (demo_answer (Ok 9))) = Ok (r, s').
Proof. apply (hybrid_never_panics demo_id test_format demo_max ∅ ∅ demo_events (demo_state demo_events) test_format_typed demo_disk hybrid_demo_run). exact Logic.I. Defined.

Lemma fence_reports_failures_witness : exists j, hy_jobs (demo_state demo_events) !! 0%nat = Some j /\ is_finished j = true.
Proof.
  eexists. split; [vm_compute; reflexivity|]. eapply (fence_reports_failures demo_id test_format demo_max ∅ ∅ demo_events (demo_state demo_events) test_format_typed demo_disk hybrid_demo_run 1 (demo_answer (Err tt))) with (i := 0%nat).
  - eexists. split; [vm_compute; reflexivity|]. split; [reflexivity|]. split; [intros _ i j' Hi Hj' _; destruct i; [vm_compute in Hj'; injection Hj' as <-; reflexivity | lia]|]. split; [discriminate | split; discriminate].
  - vm_compute. reflexivity.
  - reflexivity.
  - vm_compute. reflexivity.
  - lia.
  - vm_compute. reflexivity.
Defined.
